(* ===== verification/_CoqProject ===== *)
-Q . S2P
Prelude.v
KernelApi.v
KernelNet.v
KernelVerbs.v
KernelMain.v
Util.v
Bitmap.v
CcanList.v
IntervalSet.v
VerbsOps.v
Provider.v
Lifecycle.v
Discovery.v
ProviderStubs.v
MemTree.v
RedBlack.v
TreeRemove.v
Fork.v
ForkRange.v
ForkSafe.v
VerbsMr.v
VerbsAh.v
VerbsObj.v
UverbsCmd.v
Indexer.v
RustBase.v
Psn.v
PsnTracker.v
WorkReq.v
Qp.v
Fragmenter.v
RingBuf.v
Descriptors.v
SendQueue.v
CmdQueue.v
Tasks.v
Completion.v
RdmaWorker.v
Retransmit.v
Timeout.v
MetaHandler.v
MetaQueue.v
Workers.v
Mtt.v
Mem.v
Ctx.v
Core.v
SimpleNic.v
AckResponder.v
Csr.v
MemProxy.v
Mock.v
MockWorld.v
