(* ===== verification/Prelude.v ===== *)
(** * Verification of the Blue RDMA driver stack

    ** The program

    The repository holds the software of an RDMA adapter: a Linux kernel module
    (src/kernel-driver), a copy of rdma-core with a provider for the device
    (src/dtld-ibverbs/rdma-core-55.0, the provider in providers/bluerdma), a Rust
    shim that exports the verbs of the device as C symbols (src/dtld-ibverbs/src)
    and the Rust driver behind it (src/rust-driver).  The kernel module registers
    RDMA devices and network interfaces; libibverbs finds the devices in sysfs,
    binds them to the provider, opens them through /dev and fills a table of
    operations; the provider loads the Rust library and puts its symbols into that
    table.  The Rust driver owns the device: a verb programs its tables over the
    command rings or posts a request to a worker thread; the workers cut requests
    into packets, put descriptors on the send rings, follow the reports of the
    device, acknowledge, send again after a time-out and complete work requests.

    ** How the code is modelled

    A function is a Rocq function of the same name, in the state and fault monad [M]
    of this file: a result is [Done] with a value and the next state, or [Fault] for
    what C, Rust, libc or the kernel API forbids (NULL or freed memory, double free,
    index out of range, failed assertion, panic).  A triple [wp m Q s] says that [m]
    run from [s] does not fault and ends in [Q]; so the theorems are about total
    correctness.  Machine integers are Z with the wrap-around written out ([x +{64}
    y] and the like); Rust arithmetic takes the build profile, which decides whether
    an overflow panics.  What the code calls and the repository does not contain
    (kernel services, libc, sysfs, the device, crates for bit vectors, JSON and
    binary encodings) is a class, and what is relied on is a class of laws with an
    instance that the witnesses use.  Threads are steps of a relation: the workers of
    the driver exchange tasks through queues and interleave between any two messages they
    send ([Workers]); the calls and the two halves of a round of the threads of the mock
    device interleave with the arrival of bytes ([MockWorld]).

    ** The C side

    - [Prelude]: faults, the monad and its rules, machine integers.
    - [KernelApi], [KernelNet], [KernelVerbs], [KernelMain]: kernel-driver/bluerdma.h,
      ethernet.c, verbs.c, main.c.  The GID verbs refine a partial map (C10); probing
      is all or nothing and unloading restores the clean state (C38); the EUI-64 GID,
      the sysfs files, the link state, two defects of the load path.
    - [Util]: ccan/ilog.c and ilog.h, util/util.h, util/util.c; the versions of the
      logarithm that ilog.h can select agree (C40).  [Bitmap]: util/bitmap.c.
      [CcanList]: ccan/list.h and list.c on an explicit heap, a refinement of
      sequences that leaves other nodes alone (C39).  [IntervalSet]:
      util/interval_set.c; insertion and aligned allocation.
    - [VerbsOps]: the operation table of libibverbs/driver.h and dummy_ops.c.
      [Provider], [ProviderStubs]: providers/bluerdma/bluerdma.c with the parts of
      libibverbs/device.c, init.c and cmd_device.c around it.  [Lifecycle]: no fault
      and no lost block or descriptor in any legal sequence of open, close and
      reference operations (C5).  [Discovery]: libibverbs/init.c; the device list.
    - [MemTree], [RedBlack], [TreeRemove]: the red-black tree of libibverbs/memory.c
      with parent pointers, a refinement of a sorted list (C9 in [ForkRange]).
      [Fork], [ForkRange]: the ranges that must not be copied on fork, a refinement of
      a count per page while the calls of the host succeed (C7).  [ForkSafe]: whatever
      fails, no fault, the lock is free and the tree still covers the address space (C8).
    - [VerbsMr]: memory regions of libibverbs/verbs.c on top of it, protected as long
      as they are registered, while the calls of the host succeed and without the
      reregistrations that the code gets wrong (C6).  [VerbsAh]: rates, GID and P_Key
      tables; address handles for replies lead back to the sender of any packet whose
      kind can be told from its bytes (C30).  [VerbsObj]: completion channels outlive
      the queues that use them (C22).
    - [UverbsCmd]: libibverbs/cmd.c, cmd_fallback.c and marshall.c.  Lists of work
      requests reach the kernel whole (C24); the attributes of a modification
      that a command carries are translated faithfully and, as far as the kernel keeps
      them, read back by a query (C25).
    - [Indexer]: librdmacm/indexer.c, a refinement of a map (C29).

    ** The Rust side

    - [RustBase]: build profile, loops, bit vectors.  [Psn], [PsnTracker]: sequence
      numbers and the window of acknowledged packets, whose state refines a set and whose
      reports follow the comments except where a call names the base (C1).
      [WorkReq], [Qp]: work requests; queue pair, completion queue and protection
      domain numbers; the window of outstanding messages (C31).
    - [Fragmenter]: the pieces of a request tile it and are numbered without gaps
      (C3, C33), and their iterator ends (C34).
    - [RingBuf]: descriptor rings refine queues (C4).  [Descriptors], [SendQueue],
      [CmdQueue], [MetaQueue]: the bit fields of descriptors, the send worker, the
      command queue, whose commands are executed in order (C16), and the report
      queues, whose descriptors decode to the reports that their bits mean (C35) and are
      all served (C36).
    - [Tasks], [Completion], [RdmaWorker], [Retransmit], [Timeout], [MetaHandler],
      [Workers]: the worker threads.  Messages arrive sorted and once (C11), an
      acknowledgement completes the sends it covers (C12), unacknowledged packets are
      sent again (C13), writes are accepted whole or rejected (C14).  For all workers
      together, sending their messages one by one, the counters of expected
      acknowledgements stay in range, given that the device acknowledges no request
      before it has its last chunk (C2): the request worker registers a completion before it
      announces the acknowledgement to the timers, and an earlier one would find the
      counter at zero.  A send whose packets arrive in order completes (C37).
    - [Mtt], [Mem]: page table ranges of regions are disjoint (C32); the map of
      physical to virtual addresses refines its specification (C17).
    - [Ctx], [Core]: the device context and the exported verbs.  Registration and
      modification program the device with what the caller gave (C15, C18); sends use
      the posted receives in order (C19).
    - [AckResponder], [SimpleNic]: the bytes of acknowledgement frames, with the zero
      checksum that the driver leaves (C20); raw frames reach the device (C21).
    - [Csr]: the registers of the rings, through the mapped BAR or the simulator;
      every ring has registers of its own (C27).  [MemProxy]: the simulator's access
      to the driver's memory (C28).
    - [Mock], [MockWorld]: the software device, over TCP streams whose bytes arrive in
      parts.  A read that ends within a message loses it; as long as that does not
      happen, completions come in the order of the requests (C23), and writes complete
      (C26).

    Components meet at interfaces: [Bitmap] and [IntervalSet] use the arithmetic of
    [Util]; [Provider] installs its operations with the function of [VerbsOps];
    [Fork] runs on the tree of [MemTree] and [VerbsMr] on [Fork]; the workers meet in
    the task types of [Tasks]; [SendQueue], [CmdQueue] and [SimpleNic] use the ring of
    [RingBuf] through a class with its laws, and [Ctx] the command queue; [Csr] proves
    both ways to reach the registers instances of one class.

    ** Fuel and bounds

    Loops over arrays and lists recurse on the data.  The others take fuel, and
    running out is the fault [FuelOut] (in [VerbsAh] the outer [None]), which a [wp]
    or an equation with [Done] excludes.  [Bitmap] has fuel for every word of the
    range, [CcanList] for every element; in [MemTree] the fuel is the number of
    nodes, which bounds every path; [Fork.madvise_loop] has it for every range;
    [VerbsAh] needs more than the number of GID entries; [Fragmenter.collect] one unit
    per piece.  Loops that wait for the device or the simulator (the command queue,
    a full ring, the memory proxy) take as many rounds as the hypothesis on the other
    side says it needs.  Hypotheses on sizes (no wrap of a sum, a command below 64K
    bytes, a list shorter than the address space) are stated where they are needed;
    what happens beyond them is a theorem of its own where the code does not refuse.

    ** Not modelled

    - Other providers, librdmacm apart from the indexer, ibacm, the management
      libraries, daemons and diagnostics: not used with this device.
    - Reading sysfs, netlink and the neighbour table, loading providers, opening
      device files, memory maps, the tap device, VFIO: system calls or calls of
      libraries without logic of their own; their results are parameters.
    - The verbs of libibverbs that only forward to the provider, its commands that
      fill one structure and call the kernel, flow steering, and the import of
      objects.
    - The Rust shim: only the names of its exports are used.
    - Memory ordering and locks of the C side: locks are taken and released, but one
      thread runs.  Logging is left out everywhere. *)

From stdpp Require Import base list gmap strings numbers.
From Stdlib Require Import ZArith Lia.

#[local] Open Scope Z_scope.

(** ** Errors and faults

    [res] is the outcome of a piece of C code: it either returns a value in a
    new state, or does something the C language or the kernel API forbids. *)

Inductive fault : Set :=
| NullDeref
| UseAfterFree
| DoubleFree
| OutOfBounds
| AssertFail
| ApiMisuse
| FuelOut
| Panic.

#[export] Instance fault_eq_dec : EqDecision fault.
Proof. solve_decision. Defined.

Inductive res (S A : Type) : Type :=
| Done (a : A) (s : S)
| Fault (f : fault).

Arguments Done {S A} a s.
Arguments Fault {S A} f.

(** State-passing code with faults. *)
Definition M (S A : Type) : Type := S -> res S A.

#[export] Instance M_ret S : MRet (M S) := fun A a s => Done a s.
#[export] Instance M_bind S : MBind (M S) := fun A B f m s =>
  match m s with
  | Done a s' => f a s'
  | Fault u => Fault u
  end.

Definition get {S} : M S S := fun s => Done s s.
Definition gets {S A} (f : S -> A) : M S A := fun s => Done (f s) s.
Definition modify {S} (f : S -> S) : M S unit := fun s => Done tt (f s).
Definition fail {S A} (u : fault) : M S A := fun _ => Fault u.

(** Read through an [option]: the fault is raised when there is no value. *)
Definition demand {S A} (u : fault) (o : option A) : M S A :=
  match o with Some a => mret a | None => fail u end.

Definition when {S} (b : bool) (m : M S unit) : M S unit :=
  if b then m else mret tt.

(** C [assert]. *)
Definition c_assert {S} (b : bool) : M S unit :=
  if b then mret tt else fail AssertFail.

(** Total-correctness triple: [m] run from [s] does not fault and its result
    and final state satisfy [Q]. *)
Definition wp {S A} (m : M S A) (Q : A -> S -> Prop) (s : S) : Prop :=
  match m s with
  | Done a s' => Q a s'
  | Fault _ => False
  end.

Section wp_rules.
Context {S : Type}.
Implicit Types s : S.

Lemma wp_ret {A} (a : A) Q s : wp (mret a : M S A) Q s <-> Q a s.
Proof. reflexivity. Qed.

Lemma wp_bind {A B} (m : M S A) (k : A -> M S B) Q s :
  wp (mbind k m) Q s <-> wp m (fun a s' => wp (k a) Q s') s.
Proof. unfold wp, mbind, M_bind. destruct (m s); reflexivity. Qed.

Lemma wp_get Q s : wp (get : M S S) Q s <-> Q s s.
Proof. reflexivity. Qed.

Lemma wp_gets {A} (f : S -> A) Q s : wp (gets f) Q s <-> Q (f s) s.
Proof. reflexivity. Qed.

Lemma wp_modify (f : S -> S) Q s : wp (modify f) Q s <-> Q tt (f s).
Proof. reflexivity. Qed.

Lemma wp_demand {A} u (o : option A) Q s :
  wp (demand u o) Q s <-> exists a, o = Some a /\ Q a s.
Proof. destruct o; cbv [demand wp fail mret M_ret]; naive_solver. Qed.

Lemma wp_when b (m : M S unit) Q s :
  wp (when b m) Q s <-> (if b then wp m Q s else Q tt s).
Proof. destruct b; reflexivity. Qed.

Lemma wp_assert b Q s : wp (c_assert b) Q s <-> b = true /\ Q tt s.
Proof. destruct b; cbv [c_assert wp fail mret M_ret]; naive_solver. Qed.

Lemma wp_if {A} (b : bool) (m1 m2 : M S A) Q s :
  wp (if b then m1 else m2) Q s <-> (if b then wp m1 Q s else wp m2 Q s).
Proof. destruct b; reflexivity. Qed.

Lemma wp_mono {A} (m : M S A) (Q Q' : A -> S -> Prop) s :
  wp m Q s -> (forall a s', Q a s' -> Q' a s') -> wp m Q' s.
Proof. unfold wp. destruct (m s); auto. Qed.

(** Running code and reading off its result. *)
Lemma wp_run {A} (m : M S A) Q s :
  wp m Q s <-> exists a s', m s = Done a s' /\ Q a s'.
Proof.
  unfold wp. destruct (m s) eqn:E; split; try naive_solver.
Qed.

End wp_rules.

(** Symbolic execution: peel the first command of a [wp] goal. *)
Ltac wp_step :=
  match goal with
  | |- wp (mbind _ _) _ _ => apply wp_bind
  | |- wp (mret _) _ _ => apply wp_ret
  | |- wp get _ _ => apply wp_get
  | |- wp (gets _) _ _ => apply wp_gets
  | |- wp (modify _) _ _ => apply wp_modify
  | |- wp (when _ _) _ _ => apply wp_when
  | |- wp (c_assert _) _ _ => apply wp_assert
  | |- wp (demand _ _) _ _ => apply wp_demand
  | |- wp (if _ then _ else _) _ _ => apply wp_if
  end; cbn beta.

Ltac wp_steps := repeat wp_step.

(** ** Machine integers

    A [w]-bit unsigned C integer is a [Z] in [[0, 2^w)]; every operation that
    can leave the range is followed by [wrap w]. *)

Definition wrap (w x : Z) : Z := x mod 2 ^ w.
Definition in_width (w x : Z) : Prop := 0 <= x < 2 ^ w.

(** Two's complement reading of a [w]-bit value. *)
Definition to_signed (w x : Z) : Z :=
  if wrap w x <? 2 ^ (w - 1) then wrap w x else wrap w x - 2 ^ w.

Declare Scope cint_scope.
Delimit Scope cint_scope with cint.
Notation "x +{ w } y" := (wrap w (x + y)) (at level 50, w at level 0, left associativity,
  format "x  +{ w }  y") : cint_scope.
Notation "x -{ w } y" := (wrap w (x - y)) (at level 50, w at level 0, left associativity,
  format "x  -{ w }  y") : cint_scope.
Notation "x *{ w } y" := (wrap w (x * y)) (at level 40, w at level 0, left associativity,
  format "x  *{ w }  y") : cint_scope.
Notation "x <<{ w } y" := (wrap w (Z.shiftl x y)) (at level 45, w at level 0, left associativity,
  format "x  <<{ w }  y") : cint_scope.
Notation "~{ w } x" := (2 ^ w - 1 - x) (at level 35, w at level 0,
  format "~{ w }  x") : cint_scope.

Definition UINT16_MAX : Z := 2 ^ 16 - 1.
Definition UINT64_MAX : Z := 2 ^ 64 - 1.
Definition SIZE_MAX : Z := 2 ^ 64 - 1.
Definition ULONG_MAX : Z := 2 ^ 64 - 1.

(** ** errno values (asm-generic/errno-base.h and errno.h) *)

Definition ENOENT : Z := 2.
Definition EAGAIN : Z := 11.
Definition ENOMEM : Z := 12.
Definition ENODEV : Z := 19.
Definition EINVAL : Z := 22.
Definition ENOTTY : Z := 25.
Definition ENOSPC : Z := 28.
Definition ENOSYS : Z := 38.
Definition EPROTONOSUPPORT : Z := 93.
Definition EOPNOTSUPP : Z := 95.

(** ** Arithmetic *)

Section arith.
#[local] Open Scope cint_scope.

Lemma wrap_small w x : in_width w x -> wrap w x = x.
Proof. intros H. apply Z.mod_small. exact H. Qed.

Lemma wrap_range w x : 0 <= w -> in_width w (wrap w x).
Proof. intros. apply Z.mod_pos_bound. apply Z.pow_pos_nonneg; lia. Qed.

Lemma wrap_wrap w x : wrap w (wrap w x) = wrap w x.
Proof. apply Zmod_mod. Qed.

Lemma wrap_add_l w x y : wrap w (wrap w x + y) = wrap w (x + y).
Proof. apply Zplus_mod_idemp_l. Qed.

Lemma wrap_add_r w x y : wrap w (x + wrap w y) = wrap w (x + y).
Proof. apply Zplus_mod_idemp_r. Qed.

Lemma wrap_sub_l w x y : wrap w (wrap w x - y) = wrap w (x - y).
Proof. apply Zminus_mod_idemp_l. Qed.

Lemma wrap_sub_r w x y : wrap w (x - wrap w y) = wrap w (x - y).
Proof. apply Zminus_mod_idemp_r. Qed.

(** One wrap past the top, or one below zero. *)
Lemma wrap_over w x : 2 ^ w <= x < 2 * 2 ^ w -> wrap w x = x - 2 ^ w.
Proof.
  intros H. unfold wrap. symmetry. apply Z.mod_unique_pos with 1; lia.
Qed.

Lemma wrap_under w x : - 2 ^ w <= x < 0 -> wrap w x = x + 2 ^ w.
Proof.
  intros H. unfold wrap. symmetry. apply Z.mod_unique_pos with (-1); lia.
Qed.

Lemma testbit_wrap w x i :
  0 <= w -> 0 <= i -> Z.testbit (wrap w x) i = (i <? w) && Z.testbit x i.
Proof.
  intros Hw Hi. unfold wrap. destruct (Z.ltb_spec i w).
  - by rewrite Z.mod_pow2_bits_low by lia.
  - by rewrite Z.mod_pow2_bits_high by lia.
Qed.

Lemma testbit_wnot w x i :
  in_width w x -> 0 <= w -> 0 <= i ->
  Z.testbit (~{w} x) i = (i <? w) && negb (Z.testbit x i).
Proof.
  intros Hx Hw Hi.
  replace (2 ^ w - 1 - x) with (wrap w (Z.lnot x)).
  - by rewrite testbit_wrap, Z.lnot_spec by lia.
  - unfold Z.lnot, in_width in *. rewrite wrap_under; lia.
Qed.

Lemma testbit_high w x i : in_width w x -> 0 <= w <= i -> Z.testbit x i = false.
Proof.
  intros Hx Hi. rewrite <- (wrap_small w x Hx).
  rewrite testbit_wrap by lia. destruct (Z.ltb_spec i w); [lia | done].
Qed.

Lemma wnot_range w x : in_width w x -> in_width w (~{w} x).
Proof. unfold in_width. lia. Qed.

Lemma land_range w x y : 0 <= w -> in_width w x -> 0 <= y -> in_width w (Z.land x y).
Proof.
  intros Hw Hx Hy. assert (Hn : 0 <= Z.land x y) by (apply Z.land_nonneg; lia).
  replace (Z.land x y) with (wrap w (Z.land x y)); [by apply wrap_range |].
  apply Z.bits_inj'. intros i Hi.
  rewrite testbit_wrap, Z.land_spec by lia.
  destruct (Z.ltb_spec i w); [done |].
  by rewrite (testbit_high w x) by (auto; lia).
Qed.

Lemma lor_range w x y :
  0 <= w -> in_width w x -> in_width w y -> in_width w (Z.lor x y).
Proof.
  intros Hw Hx Hy.
  replace (Z.lor x y) with (wrap w (Z.lor x y)); [by apply wrap_range |].
  apply Z.bits_inj'. intros i Hi.
  rewrite testbit_wrap, Z.lor_spec by lia.
  destruct (Z.ltb_spec i w); [done |].
  by rewrite (testbit_high w x), (testbit_high w y) by (auto; lia).
Qed.

Lemma lxor_range w x y :
  0 <= w -> in_width w x -> in_width w y -> in_width w (Z.lxor x y).
Proof.
  intros Hw Hx Hy.
  replace (Z.lxor x y) with (wrap w (Z.lxor x y)); [by apply wrap_range |].
  apply Z.bits_inj'. intros i Hi.
  rewrite testbit_wrap, Z.lxor_spec by lia.
  destruct (Z.ltb_spec i w); [done |].
  by rewrite (testbit_high w x), (testbit_high w y) by (auto; lia).
Qed.

Lemma shiftr_range w x k : in_width w x -> 0 <= k -> in_width w (Z.shiftr x k).
Proof.
  intros [H0 H1] Hk. rewrite Z.shiftr_div_pow2 by lia.
  assert (0 < 2 ^ k) by (apply Z.pow_pos_nonneg; lia).
  split; [apply Z.div_pos; lia |]. apply Z.div_lt_upper_bound; nia.
Qed.

(** Clearing the [k] low bits of a 64-bit value. *)
Lemma land_not_ones x k :
  in_width 64 x -> 0 <= k < 64 -> Z.land x (~{64} (2 ^ k - 1)) = x / 2 ^ k * 2 ^ k.
Proof.
  intros Hx Hk. rewrite <- Z.shiftr_div_pow2, <- Z.shiftl_mul_pow2, <- Z.ldiff_ones_r by lia.
  assert (Hin : in_width 64 (2 ^ k - 1)).
  { split; [assert (0 < 2 ^ k) by (apply Z.pow_pos_nonneg; lia); lia|].
    assert (2 ^ k < 2 ^ 64) by (apply Z.pow_lt_mono_r; lia). lia. }
  apply Z.bits_inj'. intros i Hi. rewrite Z.ldiff_spec, Z.land_spec.
  rewrite testbit_wnot by (done || lia).
  replace (2 ^ k - 1) with (Z.ones k) by (rewrite Z.ones_equiv; lia).
  destruct (Z.ltb_spec i 64); [done|]. by rewrite (testbit_high 64 x) by (done || lia).
Qed.

End arith.

Create HintDb cint.
#[export] Hint Resolve wrap_range wnot_range land_range lor_range lxor_range
  shiftr_range : cint.
#[export] Hint Extern 5 (_ <= _) => lia : cint.
#[export] Hint Extern 5 (_ < _) => lia : cint.

(** ** Strings *)

Lemma append_cons a s1 s2 : String a s1 +:+ s2 = String a (s1 +:+ s2).
Proof. reflexivity. Qed.

Lemma append_nil_r s1 : s1 +:+ "" = s1.
Proof. induction s1 as [|a s1 IH]; [done|]. by rewrite append_cons, IH. Qed.

Lemma length_append s1 s2 :
  String.length (s1 +:+ s2) = (String.length s1 + String.length s2)%nat.
Proof. induction s1 as [|a s1 IH]; [done|]. rewrite append_cons. cbn. by rewrite IH. Qed.

Lemma append_assoc s1 s2 s3 : (s1 +:+ s2) +:+ s3 = s1 +:+ (s2 +:+ s3).
Proof. induction s1 as [|a s1 IH]; [done|]. by rewrite !append_cons, IH. Qed.

Lemma substring_all text n :
  (String.length text <= n)%nat -> String.substring 0 n text = text.
Proof.
  revert n. induction text as [|a text IH]; intros [|n] Hn; cbn in *; auto; [lia|].
  f_equal. apply IH. lia.
Qed.
