(* ===== verification/KernelApi.v ===== *)
(** * Kernel objects and the kernel API used by kernel-driver/

    The driver's own structures ([bluerdma.h]) and a store of the objects the
    kernel hands out: RDMA devices ([ib_alloc_device]), network devices
    ([alloc_etherdev]) and memory regions ([kzalloc]).  Addresses are never
    reused, so an access to an address that is no longer in the store is an
    access to freed memory.

    The Linux kernel is not part of the repository.  What the driver relies on
    is: an object is zeroed when allocated; a call that can fail returns a code
    chosen by the environment ([fate], one entry for each such call in program
    order); a registered object must be unregistered before it is freed. *)

From stdpp Require Import base list gmap strings numbers.
From Stdlib Require Import ZArith Lia.
From S2P Require Import Prelude.

#[local] Open Scope Z_scope.

Abbreviation loc := Z.

(** ** Driver data ([kernel-driver/bluerdma.h]) *)

Definition BLUERDMA_DEFAULT_MTU : Z := 1500.
Definition BLUERDMA_GID_TABLE_SIZE : nat := 16.
Definition ETH_ALEN : nat := 6.
Definition ETH_MIN_MTU : Z := 68.
Definition ETH_MAX_MTU : Z := 65535.

(** [lk_init]: the lock has been through [spin_lock_init]. *)
Record spinlock := MkLock {
  lk_init : bool;
  lk_held : bool;
}.

Definition LockRaw : spinlock := MkLock false false.
Definition LockFree : spinlock := MkLock true false.

(** [enum ib_port_state]; [IB_PORT_NOP] is the zero value. *)
Inductive ib_port_state : Set :=
| IB_PORT_NOP
| IB_PORT_DOWN
| IB_PORT_INIT
| IB_PORT_ARMED
| IB_PORT_ACTIVE
| IB_PORT_ACTIVE_DEFER.

(** [union ib_gid] as its [raw] bytes. *)
Abbreviation gid := (list Z).

Record ib_gid_attr := MkGidAttr {
  ga_device : loc;
  ga_gid : gid;
  ga_index : Z;
  ga_port_num : Z;
}.

Record bluerdma_gid_entry := MkGidEntry {
  ge_gid : gid;
  ge_attr : ib_gid_attr;
  ge_valid : bool;
}.

Record napi_struct := MkNapi {
  napi_added : bool;
  napi_enabled : bool;
}.

(** The functions a sysfs attribute of this driver can point to. *)
Inductive show_fn : Set := bluerdma_show_gids_fn | bluerdma_show_mac_fn.

Record device_attribute := MkDevAttr {
  da_name : string;
  da_mode : Z;
  da_show : option show_fn;
  da_store : option show_fn;
}.

(** The fields of [struct ib_device] the driver writes, with what
    [ib_register_device], [device_create_file] and [ib_device_set_netdev]
    leave behind. *)
Record ib_device := MkIbDevice {
  node_desc : string;
  node_type : Z;
  phys_port_cnt : Z;
  num_comp_vectors : Z;
  local_dma_lkey : Z;
  ops_set : bool;
  registered : bool;
  sysfs_files : list string;
  bound_netdev : option loc;
}.

Record bluerdma_dev := MkBdev {
  ibdev : ib_device;
  netdev : option loc;
  state : ib_port_state;
  id : Z;
  napi : napi_struct;
  mac_addr : list Z;
  tx_lock : spinlock;
  mac_lock : spinlock;
  gid_table : list bluerdma_gid_entry;
  gid_lock : spinlock;
  gids_attr : device_attribute;
  mac_attr : device_attribute;
}.

Definition with_ibdev (v : ib_device) (d : bluerdma_dev) : bluerdma_dev :=
  MkBdev v (netdev d) (state d) (id d) (napi d) (mac_addr d) (tx_lock d)
    (mac_lock d) (gid_table d) (gid_lock d) (gids_attr d) (mac_attr d).
Definition with_netdev (v : option loc) (d : bluerdma_dev) : bluerdma_dev :=
  MkBdev (ibdev d) v (state d) (id d) (napi d) (mac_addr d) (tx_lock d)
    (mac_lock d) (gid_table d) (gid_lock d) (gids_attr d) (mac_attr d).
Definition with_state (v : ib_port_state) (d : bluerdma_dev) : bluerdma_dev :=
  MkBdev (ibdev d) (netdev d) v (id d) (napi d) (mac_addr d) (tx_lock d)
    (mac_lock d) (gid_table d) (gid_lock d) (gids_attr d) (mac_attr d).
Definition with_id (v : Z) (d : bluerdma_dev) : bluerdma_dev :=
  MkBdev (ibdev d) (netdev d) (state d) v (napi d) (mac_addr d) (tx_lock d)
    (mac_lock d) (gid_table d) (gid_lock d) (gids_attr d) (mac_attr d).
Definition with_napi (v : napi_struct) (d : bluerdma_dev) : bluerdma_dev :=
  MkBdev (ibdev d) (netdev d) (state d) (id d) v (mac_addr d) (tx_lock d)
    (mac_lock d) (gid_table d) (gid_lock d) (gids_attr d) (mac_attr d).
Definition with_mac_addr (v : list Z) (d : bluerdma_dev) : bluerdma_dev :=
  MkBdev (ibdev d) (netdev d) (state d) (id d) (napi d) v (tx_lock d)
    (mac_lock d) (gid_table d) (gid_lock d) (gids_attr d) (mac_attr d).
Definition with_tx_lock (v : spinlock) (d : bluerdma_dev) : bluerdma_dev :=
  MkBdev (ibdev d) (netdev d) (state d) (id d) (napi d) (mac_addr d) v
    (mac_lock d) (gid_table d) (gid_lock d) (gids_attr d) (mac_attr d).
Definition with_mac_lock (v : spinlock) (d : bluerdma_dev) : bluerdma_dev :=
  MkBdev (ibdev d) (netdev d) (state d) (id d) (napi d) (mac_addr d) (tx_lock d)
    v (gid_table d) (gid_lock d) (gids_attr d) (mac_attr d).
Definition with_gid_table (v : list bluerdma_gid_entry) (d : bluerdma_dev) : bluerdma_dev :=
  MkBdev (ibdev d) (netdev d) (state d) (id d) (napi d) (mac_addr d) (tx_lock d)
    (mac_lock d) v (gid_lock d) (gids_attr d) (mac_attr d).
Definition with_gid_lock (v : spinlock) (d : bluerdma_dev) : bluerdma_dev :=
  MkBdev (ibdev d) (netdev d) (state d) (id d) (napi d) (mac_addr d) (tx_lock d)
    (mac_lock d) (gid_table d) v (gids_attr d) (mac_attr d).
Definition with_attrs (g m : device_attribute) (d : bluerdma_dev) : bluerdma_dev :=
  MkBdev (ibdev d) (netdev d) (state d) (id d) (napi d) (mac_addr d) (tx_lock d)
    (mac_lock d) (gid_table d) (gid_lock d) g m.

(** ** Zeroed objects *)

Definition zero_gid : gid := replicate 16 0.
Definition zero_gid_attr : ib_gid_attr := MkGidAttr 0 zero_gid 0 0.
Definition zero_gid_entry : bluerdma_gid_entry := MkGidEntry zero_gid zero_gid_attr false.
Definition zero_dev_attr : device_attribute := MkDevAttr "" 0 None None.
Definition zero_ib_device : ib_device :=
  MkIbDevice "" 0 0 0 0 false false [] None.
Definition zero_bluerdma_dev : bluerdma_dev :=
  MkBdev zero_ib_device None IB_PORT_NOP 0 (MkNapi false false)
    (replicate ETH_ALEN 0) LockRaw LockRaw
    (replicate BLUERDMA_GID_TABLE_SIZE zero_gid_entry) LockRaw
    zero_dev_attr zero_dev_attr.

(** ** Network devices

    The fields of [struct net_device] the driver uses.  [nd_priv] is the
    private area behind it, a [struct bluerdma_dev] of its own. *)
Record net_device := MkNet {
  nd_name : string;
  nd_priv : bluerdma_dev;
  nd_ops_set : bool;
  nd_features : Z;
  nd_hw_features : Z;
  nd_min_mtu : Z;
  nd_max_mtu : Z;
  nd_mtu : Z;
  nd_dev_addr : list Z;
  nd_registered : bool;
  nd_running : bool;
  nd_carrier : bool;
  nd_queue : bool;
  nd_tx_packets : Z;
  nd_tx_bytes : Z;
}.

Definition zero_net_device : net_device :=
  MkNet "" zero_bluerdma_dev false 0 0 0 0 0 (replicate ETH_ALEN 0)
    false false false false 0 0.

Definition nd_with_name (v : string) (n : net_device) : net_device :=
  MkNet v (nd_priv n) (nd_ops_set n) (nd_features n) (nd_hw_features n)
    (nd_min_mtu n) (nd_max_mtu n) (nd_mtu n) (nd_dev_addr n) (nd_registered n)
    (nd_running n) (nd_carrier n) (nd_queue n) (nd_tx_packets n) (nd_tx_bytes n).
Definition nd_with_priv (v : bluerdma_dev) (n : net_device) : net_device :=
  MkNet (nd_name n) v (nd_ops_set n) (nd_features n) (nd_hw_features n)
    (nd_min_mtu n) (nd_max_mtu n) (nd_mtu n) (nd_dev_addr n) (nd_registered n)
    (nd_running n) (nd_carrier n) (nd_queue n) (nd_tx_packets n) (nd_tx_bytes n).
Definition nd_with_setup (feat mn mx mtu : Z) (n : net_device) : net_device :=
  MkNet (nd_name n) (nd_priv n) true feat feat mn mx mtu (nd_dev_addr n)
    (nd_registered n) (nd_running n) (nd_carrier n) (nd_queue n)
    (nd_tx_packets n) (nd_tx_bytes n).
Definition nd_with_mtu (v : Z) (n : net_device) : net_device :=
  MkNet (nd_name n) (nd_priv n) (nd_ops_set n) (nd_features n) (nd_hw_features n)
    (nd_min_mtu n) (nd_max_mtu n) v (nd_dev_addr n) (nd_registered n)
    (nd_running n) (nd_carrier n) (nd_queue n) (nd_tx_packets n) (nd_tx_bytes n).
Definition nd_with_dev_addr (v : list Z) (n : net_device) : net_device :=
  MkNet (nd_name n) (nd_priv n) (nd_ops_set n) (nd_features n) (nd_hw_features n)
    (nd_min_mtu n) (nd_max_mtu n) (nd_mtu n) v (nd_registered n)
    (nd_running n) (nd_carrier n) (nd_queue n) (nd_tx_packets n) (nd_tx_bytes n).
Definition nd_with_registered (v : bool) (n : net_device) : net_device :=
  MkNet (nd_name n) (nd_priv n) (nd_ops_set n) (nd_features n) (nd_hw_features n)
    (nd_min_mtu n) (nd_max_mtu n) (nd_mtu n) (nd_dev_addr n) v
    (nd_running n) (nd_carrier n) (nd_queue n) (nd_tx_packets n) (nd_tx_bytes n).
Definition nd_with_carrier (v : bool) (n : net_device) : net_device :=
  MkNet (nd_name n) (nd_priv n) (nd_ops_set n) (nd_features n) (nd_hw_features n)
    (nd_min_mtu n) (nd_max_mtu n) (nd_mtu n) (nd_dev_addr n) (nd_registered n)
    (nd_running n) v (nd_queue n) (nd_tx_packets n) (nd_tx_bytes n).
Definition nd_with_queue (v : bool) (n : net_device) : net_device :=
  MkNet (nd_name n) (nd_priv n) (nd_ops_set n) (nd_features n) (nd_hw_features n)
    (nd_min_mtu n) (nd_max_mtu n) (nd_mtu n) (nd_dev_addr n) (nd_registered n)
    (nd_running n) (nd_carrier n) v (nd_tx_packets n) (nd_tx_bytes n).
Definition nd_with_tx (p b : Z) (n : net_device) : net_device :=
  MkNet (nd_name n) (nd_priv n) (nd_ops_set n) (nd_features n) (nd_hw_features n)
    (nd_min_mtu n) (nd_max_mtu n) (nd_mtu n) (nd_dev_addr n) (nd_registered n)
    (nd_running n) (nd_carrier n) (nd_queue n) p b.

(** ** The environment *)

(** [fate k] is the code returned by the [k]-th call that can fail (non-zero is
    failure); [rand_mac k] the address [eth_hw_addr_random] picks at time [k]. *)
Class KernelEnv := {
  fate : nat -> Z;
  rand_mac : nat -> list Z;
  num_possible_cpus : Z;
  ib_mtu_int_to_enum : Z -> Z;
  ib_get_eth_speed : loc -> Z -> Z * Z;
  NETIF_FEATURES : Z;
  PAGE_SIZE : Z;
}.

(** Documented behaviour of the kernel helpers the driver relies on. *)
Class KernelEnvOk (K : KernelEnv) : Prop := {
  rand_mac_length : forall k, length (rand_mac k) = ETH_ALEN;
  rand_mac_bytes : forall k, Forall (in_width 8) (rand_mac k);
  page_size_min : 4096 <= PAGE_SIZE;
}.

(** An environment in which every call succeeds. *)
Definition quiet_env : KernelEnv :=
  Build_KernelEnv (fun _ => 0) (fun k => [0x02; 0xBD; 0xBD; 0; 0; Z.of_nat k mod 256]) 4
    (fun mtu => if mtu >=? 4096 then 5 else if mtu >=? 2048 then 4
                else if mtu >=? 1024 then 3 else if mtu >=? 512 then 2 else 1)
    (fun _ _ => (1, 2)) 0 4096.

#[export] Instance quiet_env_ok : KernelEnvOk quiet_env.
Proof.
  constructor; [done | intros k | cbn; lia].
  repeat apply Forall_cons_2; auto; unfold in_width; try lia.
  pose proof (Z.mod_pos_bound (Z.of_nat k) 256). lia.
Qed.

(** ** The store *)

Record kstate := MkK {
  devs : gmap loc bluerdma_dev;
  nets : gmap loc net_device;
  skbs : gmap loc Z;
  mrs : gset loc;
  testing_dev : list (option loc);
  next_loc : loc;
  clock : nat;
  lock_splats : nat;
}.

Definition k_devs (v : gmap loc bluerdma_dev) (s : kstate) : kstate :=
  MkK v (nets s) (skbs s) (mrs s) (testing_dev s) (next_loc s) (clock s) (lock_splats s).
Definition k_nets (v : gmap loc net_device) (s : kstate) : kstate :=
  MkK (devs s) v (skbs s) (mrs s) (testing_dev s) (next_loc s) (clock s) (lock_splats s).
Definition k_skbs (v : gmap loc Z) (s : kstate) : kstate :=
  MkK (devs s) (nets s) v (mrs s) (testing_dev s) (next_loc s) (clock s) (lock_splats s).
Definition k_mrs (v : gset loc) (s : kstate) : kstate :=
  MkK (devs s) (nets s) (skbs s) v (testing_dev s) (next_loc s) (clock s) (lock_splats s).
Definition k_testing (v : list (option loc)) (s : kstate) : kstate :=
  MkK (devs s) (nets s) (skbs s) (mrs s) v (next_loc s) (clock s) (lock_splats s).
Definition k_next (v : loc) (s : kstate) : kstate :=
  MkK (devs s) (nets s) (skbs s) (mrs s) (testing_dev s) v (clock s) (lock_splats s).
Definition k_tick (s : kstate) : kstate :=
  MkK (devs s) (nets s) (skbs s) (mrs s) (testing_dev s) (next_loc s) (S (clock s))
    (lock_splats s).
Definition k_splat (s : kstate) : kstate :=
  MkK (devs s) (nets s) (skbs s) (mrs s) (testing_dev s) (next_loc s) (clock s)
    (S (lock_splats s)).

(** A [struct bluerdma_dev *] points to a device made by [ib_alloc_device] or
    to the private area of a network device ([netdev_priv]). *)
Inductive devptr : Set := DevAt (l : loc) | PrivOf (n : loc).

Section api.
Context {K : KernelEnv}.

Definition dev_get (p : devptr) : M kstate bluerdma_dev := fun s =>
  match p with
  | DevAt l => match devs s !! l with Some d => Done d s | None => Fault UseAfterFree end
  | PrivOf n => match nets s !! n with Some nd => Done (nd_priv nd) s | None => Fault UseAfterFree end
  end.

Definition dev_set (p : devptr) (d : bluerdma_dev) : M kstate unit := fun s =>
  match p with
  | DevAt l =>
      match devs s !! l with
      | Some _ => Done tt (k_devs (<[l := d]> (devs s)) s)
      | None => Fault UseAfterFree
      end
  | PrivOf n =>
      match nets s !! n with
      | Some nd => Done tt (k_nets (<[n := nd_with_priv d nd]> (nets s)) s)
      | None => Fault UseAfterFree
      end
  end.

Definition dev_upd (p : devptr) (f : bluerdma_dev -> bluerdma_dev) : M kstate unit :=
  d ← dev_get p; dev_set p (f d).

Definition net_get (n : loc) : M kstate net_device := fun s =>
  match nets s !! n with Some nd => Done nd s | None => Fault UseAfterFree end.

Definition net_upd (n : loc) (f : net_device -> net_device) : M kstate unit := fun s =>
  match nets s !! n with
  | Some nd => Done tt (k_nets (<[n := f nd]> (nets s)) s)
  | None => Fault UseAfterFree
  end.

(** The return code of the next call that can fail. *)
Definition next_fate : M kstate Z := fun s => Done (fate (clock s)) (k_tick s).

(** *** Locks *)

Definition spin_lock (rd : bluerdma_dev -> spinlock)
    (wr : spinlock -> bluerdma_dev -> bluerdma_dev) (p : devptr) : M kstate unit :=
  d ← dev_get p;
  if lk_held (rd d) then fail ApiMisuse
  else when (negb (lk_init (rd d))) (modify k_splat);;
       dev_set p (wr (MkLock (lk_init (rd d)) true) d).

Definition spin_unlock (rd : bluerdma_dev -> spinlock)
    (wr : spinlock -> bluerdma_dev -> bluerdma_dev) (p : devptr) : M kstate unit :=
  d ← dev_get p;
  if lk_held (rd d) then dev_set p (wr (MkLock (lk_init (rd d)) false) d)
  else fail ApiMisuse.

Definition spin_lock_init (wr : spinlock -> bluerdma_dev -> bluerdma_dev)
    (p : devptr) : M kstate unit :=
  dev_upd p (wr LockFree).

(** *** RDMA devices *)

Definition ib_alloc_device : M kstate (option loc) :=
  r ← next_fate;
  if r =? 0 then
    l ← gets next_loc;
    modify (fun s => k_next (l + 1) (k_devs (<[l := zero_bluerdma_dev]> (devs s)) s));;
    mret (Some l)
  else mret None.

Definition ib_dealloc_device (l : loc) : M kstate unit := fun s =>
  match devs s !! l with
  | Some d => if registered (ibdev d) then Fault ApiMisuse
              else Done tt (k_devs (delete l (devs s)) s)
  | None => Fault DoubleFree
  end.

Definition ib_set_registered (v : bool) (i : ib_device) : ib_device :=
  MkIbDevice (node_desc i) (node_type i) (phys_port_cnt i) (num_comp_vectors i)
    (local_dma_lkey i) (ops_set i) v (sysfs_files i) (bound_netdev i).
Definition ib_set_files (v : list string) (i : ib_device) : ib_device :=
  MkIbDevice (node_desc i) (node_type i) (phys_port_cnt i) (num_comp_vectors i)
    (local_dma_lkey i) (ops_set i) (registered i) v (bound_netdev i).
Definition ib_set_netdev (v : option loc) (i : ib_device) : ib_device :=
  MkIbDevice (node_desc i) (node_type i) (phys_port_cnt i) (num_comp_vectors i)
    (local_dma_lkey i) (ops_set i) (registered i) (sysfs_files i) v.

Definition ibdev_upd (l : loc) (f : ib_device -> ib_device) : M kstate unit :=
  dev_upd (DevAt l) (fun d => with_ibdev (f (ibdev d)) d).

Definition ib_register_device (l : loc) : M kstate Z :=
  d ← dev_get (DevAt l);
  if registered (ibdev d) then fail ApiMisuse
  else r ← next_fate;
       when (r =? 0) (ibdev_upd l (ib_set_registered true));;
       mret r.

(** Unregistering removes the device directory with the files in it. *)
Definition ib_unregister_device (l : loc) : M kstate unit :=
  d ← dev_get (DevAt l);
  if registered (ibdev d)
  then ibdev_upd l (fun i => ib_set_registered false (ib_set_files [] (ib_set_netdev None i)))
  else fail ApiMisuse.

Definition device_create_file (l : loc) (name : string) : M kstate Z :=
  r ← next_fate;
  when (r =? 0) (ibdev_upd l (fun i => ib_set_files (name :: sysfs_files i) i));;
  mret r.

Definition device_remove_file (l : loc) (name : string) : M kstate unit :=
  ibdev_upd l (fun i => ib_set_files (filter (fun x => x <> name) (sysfs_files i)) i).

Definition ib_device_set_netdev (l n : loc) (port : Z) : M kstate Z :=
  r ← next_fate;
  when (r =? 0) (ibdev_upd l (ib_set_netdev (Some n)));;
  mret r.

(** *** Network devices *)

Definition alloc_etherdev : M kstate (option loc) :=
  r ← next_fate;
  if r =? 0 then
    l ← gets next_loc;
    modify (fun s => k_next (l + 1) (k_nets (<[l := zero_net_device]> (nets s)) s));;
    mret (Some l)
  else mret None.

Definition register_netdev (n : loc) : M kstate Z :=
  nd ← net_get n;
  if nd_registered nd then fail ApiMisuse
  else r ← next_fate;
       when (r =? 0) (net_upd n (nd_with_registered true));;
       mret r.

Definition unregister_netdev (n : loc) : M kstate unit :=
  nd ← net_get n;
  if nd_registered nd then net_upd n (nd_with_registered false) else fail ApiMisuse.

Definition free_netdev (n : loc) : M kstate unit := fun s =>
  match nets s !! n with
  | Some nd => if nd_registered nd then Fault ApiMisuse
               else Done tt (k_nets (delete n (nets s)) s)
  | None => Fault DoubleFree
  end.

Definition eth_hw_addr_random (n : loc) : M kstate unit :=
  t ← gets clock;
  net_upd n (nd_with_dev_addr (rand_mac t));;
  modify k_tick.

Definition netif_carrier_on (n : loc) : M kstate unit := net_upd n (nd_with_carrier true).
Definition netif_carrier_off (n : loc) : M kstate unit := net_upd n (nd_with_carrier false).
Definition netif_start_queue (n : loc) : M kstate unit := net_upd n (nd_with_queue true).
Definition netif_stop_queue (n : loc) : M kstate unit := net_upd n (nd_with_queue false).

Definition netif_napi_add (p : devptr) : M kstate unit :=
  d ← dev_get p;
  if napi_added (napi d) then fail ApiMisuse
  else dev_set p (with_napi (MkNapi true false) d).

Definition napi_enable (p : devptr) : M kstate unit :=
  d ← dev_get p;
  if napi_added (napi d) && negb (napi_enabled (napi d))
  then dev_set p (with_napi (MkNapi true true) d) else fail ApiMisuse.

Definition napi_disable (p : devptr) : M kstate unit :=
  d ← dev_get p;
  if napi_added (napi d) && napi_enabled (napi d)
  then dev_set p (with_napi (MkNapi true false) d) else fail ApiMisuse.

(** *** Memory *)

Definition kzalloc_mr : M kstate (option loc) :=
  r ← next_fate;
  if r =? 0 then
    l ← gets next_loc;
    modify (fun s => k_next (l + 1) (k_mrs ({[l]} ∪ mrs s) s));;
    mret (Some l)
  else mret None.

Definition kfree_mr (l : loc) : M kstate unit := fun s =>
  if decide (l ∈ mrs s) then Done tt (k_mrs (mrs s ∖ {[l]}) s) else Fault DoubleFree.

Definition dev_kfree_skb_any (l : loc) : M kstate unit := fun s =>
  match skbs s !! l with
  | Some _ => Done tt (k_skbs (delete l (skbs s)) s)
  | None => Fault DoubleFree
  end.

End api.

(** ** Reasoning rules

    One rule for each API call: what has to hold before it, and what holds
    after. *)

Section api_rules.
Context {K : KernelEnv}.

Lemma wp_dev_get l Q s :
  wp (dev_get (DevAt l)) Q s <-> exists d, devs s !! l = Some d /\ Q d s.
Proof. unfold wp, dev_get. destruct (devs s !! l); naive_solver. Qed.

Lemma wp_dev_set l d Q s :
  wp (dev_set (DevAt l) d) Q s <->
  exists d0, devs s !! l = Some d0 /\ Q tt (k_devs (<[l := d]> (devs s)) s).
Proof. unfold wp, dev_set. destruct (devs s !! l); naive_solver. Qed.

Lemma wp_priv_get n Q s :
  wp (dev_get (PrivOf n)) Q s <-> exists nd, nets s !! n = Some nd /\ Q (nd_priv nd) s.
Proof. unfold wp, dev_get. destruct (nets s !! n); naive_solver. Qed.

Lemma wp_priv_set n d Q s :
  wp (dev_set (PrivOf n) d) Q s <->
  exists nd, nets s !! n = Some nd /\
             Q tt (k_nets (<[n := nd_with_priv d nd]> (nets s)) s).
Proof. unfold wp, dev_set. destruct (nets s !! n); naive_solver. Qed.

Lemma wp_net_get n Q s :
  wp (net_get n) Q s <-> exists nd, nets s !! n = Some nd /\ Q nd s.
Proof. unfold wp, net_get. destruct (nets s !! n); naive_solver. Qed.

Lemma wp_net_upd n f Q s :
  wp (net_upd n f) Q s <->
  exists nd, nets s !! n = Some nd /\ Q tt (k_nets (<[n := f nd]> (nets s)) s).
Proof. unfold wp, net_upd. destruct (nets s !! n); naive_solver. Qed.

Lemma wp_next_fate Q s : wp next_fate Q s <-> Q (fate (clock s)) (k_tick s).
Proof. reflexivity. Qed.

Lemma wp_ib_dealloc_device l Q s :
  wp (ib_dealloc_device l) Q s <->
  exists d, devs s !! l = Some d /\ registered (ibdev d) = false /\
            Q tt (k_devs (delete l (devs s)) s).
Proof.
  unfold wp, ib_dealloc_device. destruct (devs s !! l) as [d|]; [|naive_solver].
  destruct (registered (ibdev d)) eqn:E; split; try done;
    [intros (? & ? & ? & ?); congruence | eauto | intros (? & ? & ? & ?); by simplify_eq].
Qed.

Lemma wp_free_netdev n Q s :
  wp (free_netdev n) Q s <->
  exists nd, nets s !! n = Some nd /\ nd_registered nd = false /\
             Q tt (k_nets (delete n (nets s)) s).
Proof.
  unfold wp, free_netdev. destruct (nets s !! n) as [d|]; [|naive_solver].
  destruct (nd_registered d) eqn:E; split; try done;
    [intros (? & ? & ? & ?); congruence | eauto | intros (? & ? & ? & ?); by simplify_eq].
Qed.

Lemma wp_fail {A} f (Q : A -> kstate -> Prop) s : wp (fail f) Q s <-> False.
Proof. reflexivity. Qed.

End api_rules.

(** Compute an updated state field by field. *)
Ltac ksimpl :=
  unfold k_devs, k_nets, k_skbs, k_mrs, k_testing, k_next, k_tick, k_splat;
  cbn [devs nets skbs mrs testing_dev next_loc clock lock_splats].

(** Decide a condition on a known structure. *)
Ltac kcond :=
  match goal with
  | H : ?b = true |- if ?b then _ else _ => rewrite H
  | H : ?b = false |- if ?b then _ else _ => rewrite H
  | H : ?b = true |- if negb ?b then _ else _ => rewrite H; cbn [negb]
  | H : ?b = false |- if negb ?b then _ else _ => rewrite H; cbn [negb]
  | |- if ?b then _ else _ =>
      let b' := eval cbn in b in
      match b' with
      | true => change b with true; cbn iota
      | false => change b with false; cbn iota
      end
  | |- wp (match ?x with Some _ => _ | None => _ end) _ _ =>
      let x' := eval cbn in x in
      match x' with
      | Some _ => change x with x'; cbn iota beta
      | None => change x with x'; cbn iota beta
      end
  end.

(** Solve the [exists d, m !! l = Some d /\ _] left by a rule. *)
Ltac kfound :=
  match goal with
  | |- exists _, _ = Some _ /\ _ =>
      eexists; split; [first [eassumption | cbn; simplify_map_eq; reflexivity] | cbn beta]
  end.

Ltac kstep :=
  first
    [ wp_step
    | match goal with
      | |- wp (dev_get (DevAt _)) _ _ => apply wp_dev_get
      | |- wp (dev_set (DevAt _) _) _ _ => apply wp_dev_set
      | |- wp (dev_get (PrivOf _)) _ _ => apply wp_priv_get
      | |- wp (dev_set (PrivOf _) _) _ _ => apply wp_priv_set
      | |- wp (net_get _) _ _ => apply wp_net_get
      | |- wp (net_upd _ _) _ _ => apply wp_net_upd
      | |- wp next_fate _ _ => apply wp_next_fate
      | |- wp (ib_dealloc_device _) _ _ => apply wp_ib_dealloc_device
      | |- wp (free_netdev _) _ _ => apply wp_free_netdev
      | |- wp (dev_upd _ _) _ _ => unfold dev_upd
      | |- wp (ibdev_upd _ _) _ _ => unfold ibdev_upd
      | |- wp (spin_lock_init _ _) _ _ => unfold spin_lock_init
      | |- wp (spin_lock _ _ _) _ _ => unfold spin_lock
      | |- wp (spin_unlock _ _ _) _ _ => unfold spin_unlock
      | |- wp (netif_carrier_on _) _ _ => unfold netif_carrier_on
      | |- wp (netif_carrier_off _) _ _ => unfold netif_carrier_off
      | |- wp (netif_start_queue _) _ _ => unfold netif_start_queue
      | |- wp (netif_stop_queue _) _ _ => unfold netif_stop_queue
      | |- wp (netif_napi_add _) _ _ => unfold netif_napi_add
      | |- wp (eth_hw_addr_random _) _ _ => unfold eth_hw_addr_random
      | |- wp alloc_etherdev _ _ => unfold alloc_etherdev
      | |- wp (register_netdev _) _ _ => unfold register_netdev
      | |- wp (unregister_netdev _) _ _ => unfold unregister_netdev
      end
    | kfound
    | kcond ].

Ltac ksteps := repeat (kstep; ksimpl; rewrite ?insert_insert_eq).
