(* ===== verification/KernelNet.v ===== *)
(** * kernel-driver/ethernet.c

    The network side of the kernel driver: the [net_device_ops] of the [blueN]
    interfaces, creation and destruction of an interface, the default GID
    derived from its MAC address, and the two sysfs files. *)

From stdpp Require Import base list gmap strings numbers pretty.
From Stdlib Require Import ZArith Lia.
From S2P Require Import Prelude KernelApi.

#[local] Open Scope Z_scope.

(** ** Text output

    [snprintf]/[scnprintf] with the formats the driver uses: ["%d"], ["%pM"]
    (MAC address) and ["%pI6"] (IPv6 address, no zero compression). *)

Definition hex_digit (d : Z) : string :=
  match d with
  | 0 => "0" | 1 => "1" | 2 => "2" | 3 => "3" | 4 => "4" | 5 => "5" | 6 => "6"
  | 7 => "7" | 8 => "8" | 9 => "9" | 10 => "a" | 11 => "b" | 12 => "c"
  | 13 => "d" | 14 => "e" | _ => "f"
  end.

Definition hex_byte (b : Z) : string :=
  hex_digit (Z.land (Z.shiftr b 4) 15) +:+ hex_digit (Z.land b 15).

Fixpoint fmt_pM (mac : list Z) : string :=
  match mac with
  | [] => ""
  | [b] => hex_byte b
  | b :: rest => hex_byte b +:+ ":" +:+ fmt_pM rest
  end.

Fixpoint fmt_pI6 (raw : list Z) : string :=
  match raw with
  | [] => ""
  | [b] => hex_byte b
  | [a; b] => hex_byte a +:+ hex_byte b
  | a :: b :: rest => hex_byte a +:+ hex_byte b +:+ ":" +:+ fmt_pI6 rest
  end.

Definition newline : string := String (Ascii.ascii_of_nat 10) EmptyString.

(** What [scnprintf(buf, size, ...)] stores before the terminating NUL: at most
    [size - 1] characters. *)
Definition scnprintf (size : Z) (text : string) : string :=
  if size <=? 0 then "" else String.substring 0 (Z.to_nat (size - 1)) text.

Definition IFNAMSIZ : Z := 16.
Definition NETDEV_TX_OK : Z := 0.

(** ** GIDs *)

(** MAC XX:XX:XX:YY:YY:YY becomes the link-local GID
    fe80::XX:XX:XX:FF:FE:YY:YY:YY with the universal/local bit flipped. *)
Definition mac_to_eui64_gid (mac : list Z) : gid :=
  let m i := nth i mac 0 in
  [0xfe; 0x80] ++ replicate 6 0 ++
  [Z.lxor (m 0%nat) 0x02; m 1%nat; m 2%nat; 0xFF; 0xFE; m 3%nat; m 4%nat; m 5%nat].

Section ethernet.
Context {K : KernelEnv}.

(** ** Network device operations *)

Definition bluerdma_netdev_xmit (skb n : loc) : M kstate Z :=
  let dev := PrivOf n in
  spin_lock tx_lock with_tx_lock dev;;
  len ← (sk ← gets skbs; demand UseAfterFree (sk !! skb));
  net_upd n (fun nd => nd_with_tx (wrap 64 (nd_tx_packets nd + 1))
                                  (wrap 64 (nd_tx_bytes nd + len)) nd);;
  spin_unlock tx_lock with_tx_lock dev;;
  dev_kfree_skb_any skb;;
  mret NETDEV_TX_OK.

Definition bluerdma_netdev_open (n : loc) : M kstate Z :=
  let dev := PrivOf n in
  netif_carrier_on n;;
  netif_start_queue n;;
  napi_enable dev;;
  dev_upd dev (with_state IB_PORT_ACTIVE);;
  mret 0.

Definition bluerdma_netdev_stop (n : loc) : M kstate Z :=
  let dev := PrivOf n in
  napi_disable dev;;
  netif_stop_queue n;;
  netif_carrier_off n;;
  dev_upd dev (with_state IB_PORT_DOWN);;
  mret 0.

Definition bluerdma_netdev_change_mtu (n : loc) (new_mtu : Z) : M kstate Z :=
  net_upd n (nd_with_mtu new_mtu);;
  mret 0.

(** Nothing is received yet: the poll function completes with no work done. *)
Definition bluerdma_napi_poll (budget : Z) : M kstate Z :=
  let work_done := 0 in
  mret work_done.

Definition bluerdma_netdev_setup (n : loc) : M kstate unit :=
  let dev := PrivOf n in
  net_upd n (nd_with_setup NETIF_FEATURES ETH_MIN_MTU ETH_MAX_MTU BLUERDMA_DEFAULT_MTU);;
  netif_napi_add dev;;
  eth_hw_addr_random n;;
  spin_lock mac_lock with_mac_lock dev;;
  nd ← net_get n;
  dev_upd dev (with_mac_addr (nd_dev_addr nd));;
  spin_unlock mac_lock with_mac_lock dev;;
  spin_lock_init with_tx_lock dev;;
  spin_lock_init with_mac_lock dev;;
  netif_carrier_off n.

(** ** The GID table *)

Fixpoint clear_gid_table (todo i : nat) (t : list bluerdma_gid_entry) : list bluerdma_gid_entry :=
  match todo with
  | O => t
  | S k => clear_gid_table k (S i) (<[i := zero_gid_entry]> t)
  end.

Definition set_default_gid (mac : list Z) (t : list bluerdma_gid_entry) : list bluerdma_gid_entry :=
  alter (fun e => MkGidEntry (mac_to_eui64_gid mac) (ge_attr e) true) 0%nat t.

Definition bluerdma_init_gid_table (dev : devptr) : M kstate unit :=
  spin_lock_init with_gid_lock dev;;
  dev_upd dev (fun d => with_gid_table (clear_gid_table BLUERDMA_GID_TABLE_SIZE 0 (gid_table d)) d);;
  d ← dev_get dev;
  match netdev d with
  | Some _ => dev_upd dev (fun d => with_gid_table (set_default_gid (mac_addr d) (gid_table d)) d)
  | None => mret tt
  end.

(** ** Creating and destroying an interface *)

Definition bluerdma_create_netdev (dev : devptr) (i : Z) : M kstate Z :=
  on ← alloc_etherdev;
  match on with
  | None => mret (- ENOMEM)
  | Some n =>
      net_upd n (nd_with_name (scnprintf IFNAMSIZ ("blue" +:+ pretty i)));;
      dev_upd (PrivOf n) (with_id i);;
      dev_upd (PrivOf n) (with_netdev (Some n));;
      dev_upd dev (with_netdev (Some n));;
      bluerdma_netdev_setup n;;
      bluerdma_init_gid_table dev;;
      ret ← register_netdev n;
      if negb (ret =? 0) then
        free_netdev n;;
        dev_upd dev (with_netdev None);;
        mret ret
      else mret 0
  end.

Definition bluerdma_destroy_netdev (dev : devptr) : M kstate unit :=
  d ← dev_get dev;
  match netdev d with
  | Some n =>
      unregister_netdev n;;
      free_netdev n;;
      dev_upd dev (with_netdev None)
  | None => mret tt
  end.

(** ** sysfs *)

(** The text written so far, [buf], has length [len]. *)
Fixpoint show_gids_loop (t : list bluerdma_gid_entry) (buf : string) : string :=
  match t with
  | [] => buf
  | e :: rest =>
      if ge_valid e
      then show_gids_loop rest
             (buf +:+ scnprintf (PAGE_SIZE - Z.of_nat (String.length buf))
                        (fmt_pI6 (ge_gid e) +:+ newline))
      else show_gids_loop rest buf
  end.

Definition bluerdma_show_gids (l : loc) : M kstate (Z * string) :=
  let bdev := DevAt l in
  spin_lock gid_lock with_gid_lock bdev;;
  d ← dev_get bdev;
  let buf := show_gids_loop (gid_table d) "" in
  spin_unlock gid_lock with_gid_lock bdev;;
  mret (Z.of_nat (String.length buf), buf).

Definition bluerdma_show_mac (l : loc) : M kstate (Z * string) :=
  let bdev := DevAt l in
  d ← dev_get bdev;
  match netdev d with
  | Some n =>
      nd ← net_get n;
      let buf := scnprintf PAGE_SIZE (fmt_pM (nd_dev_addr nd) +:+ newline) in
      mret (Z.of_nat (String.length buf), buf)
  | None =>
      spin_lock mac_lock with_mac_lock bdev;;
      d ← dev_get bdev;
      let buf := scnprintf PAGE_SIZE (fmt_pM (mac_addr d) +:+ newline) in
      spin_unlock mac_lock with_mac_lock bdev;;
      mret (Z.of_nat (String.length buf), buf)
  end.

(** Mode 0444 is [0x124]. *)
Definition bluerdma_init_sysfs_attrs (dev : devptr) : M kstate unit :=
  dev_upd dev (with_attrs
    (MkDevAttr "gids" 0x124 (Some bluerdma_show_gids_fn) None)
    (MkDevAttr "mac" 0x124 (Some bluerdma_show_mac_fn) None)).

End ethernet.

#[global] Arguments scnprintf : simpl never.
#[global] Arguments mac_to_eui64_gid : simpl never.
#[global] Arguments clear_gid_table : simpl never.

(** The GID table and its lock are usable. *)
Record gid_table_ok (d : bluerdma_dev) : Prop := {
  gid_table_len : length (gid_table d) = BLUERDMA_GID_TABLE_SIZE;
  gid_lock_free : lk_held (gid_lock d) = false;
  gid_lock_ready : lk_init (gid_lock d) = true;
}.

(** The MAC address an EUI-64 GID was made from. *)
Definition eui64_gid_mac (g : gid) : list Z :=
  let b i := nth i g 0 in
  [Z.lxor (b 8%nat) 0x02; b 9%nat; b 10%nat; b 13%nat; b 14%nat; b 15%nat].

(** The lines of a GID table listing. *)
Definition gid_lines (t : list bluerdma_gid_entry) : string :=
  foldr (fun e acc => if ge_valid e then (fmt_pI6 (ge_gid e) +:+ newline) +:+ acc else acc) "" t.

Definition n_valid (t : list bluerdma_gid_entry) : nat :=
  length (filter (fun e => ge_valid e = true) t).

Section ethernet_facts.
Context {K : KernelEnv}.

(** *** Creating an interface *)

Definition created_gid_table (mac : list Z) (t : list bluerdma_gid_entry) :=
  set_default_gid mac (clear_gid_table BLUERDMA_GID_TABLE_SIZE 0 t).

(** What [bluerdma_create_netdev] leaves in the RDMA device. *)
Definition dev_after_create (n : loc) (d : bluerdma_dev) : bluerdma_dev :=
  with_gid_table (created_gid_table (mac_addr d) (gid_table d))
    (with_gid_lock LockFree (with_netdev (Some n) d)).

Record netdev_ready (n : loc) (i : Z) (mac : list Z) (nd : net_device) : Prop := {
  nr_name : nd_name nd = scnprintf IFNAMSIZ ("blue" +:+ pretty i);
  nr_registered : nd_registered nd = true;
  nr_carrier : nd_carrier nd = false;
  nr_mtu : nd_mtu nd = BLUERDMA_DEFAULT_MTU;
  nr_min_mtu : nd_min_mtu nd = ETH_MIN_MTU;
  nr_max_mtu : nd_max_mtu nd = ETH_MAX_MTU;
  nr_addr : nd_dev_addr nd = mac;
  nr_priv_mac : mac_addr (nd_priv nd) = mac;
  nr_priv_netdev : netdev (nd_priv nd) = Some n;
  nr_priv_id : id (nd_priv nd) = i;
  nr_priv_napi : napi (nd_priv nd) = MkNapi true false;
  nr_priv_tx_lock : tx_lock (nd_priv nd) = LockFree;
  nr_priv_mac_lock : mac_lock (nd_priv nd) = LockFree;
}.

Lemma wp_create_netdev l d i s :
  devs s !! l = Some d -> nets s !! next_loc s = None ->
  wp (bluerdma_create_netdev (DevAt l) i)
     (fun r s' =>
        testing_dev s' = testing_dev s /\ skbs s' = skbs s /\ mrs s' = mrs s /\
        let n := next_loc s in
        (r = 0 /\ next_loc s' = n + 1 /\
         fate (clock s) = 0 /\ fate (2 + clock s) = 0 /\ clock s' = (3 + clock s)%nat /\
         devs s' = <[l := dev_after_create n d]> (devs s) /\
         exists nd, nets s' = <[n := nd]> (nets s) /\
                    netdev_ready n i (rand_mac (S (clock s))) nd)
        \/
        (r <> 0 /\ n <= next_loc s' /\ nets s' = nets s /\
         (fate (clock s) <> 0 \/ fate (clock s) = 0 /\ fate (2 + clock s) <> 0) /\
         exists d', devs s' = <[l := d']> (devs s) /\ ibdev d' = ibdev d)) s.
Proof.
  destruct s as [dm nm sk mr td nx ck sp]; cbn.
  intros Hd Hfresh. unfold bluerdma_create_netdev.
  ksteps. destruct (fate ck =? 0) eqn:Hf; ksteps.
  - unfold bluerdma_netdev_setup, bluerdma_init_gid_table. ksteps. ksimpl.
    destruct (fate (S (S ck)) =? 0) eqn:Hf2; ksteps.
    + apply Z.eqb_eq in Hf, Hf2. do 3 (split; [done|]). left.
      repeat split; auto. eexists. split; [done | by constructor].
    + apply Z.eqb_neq in Hf2. apply Z.eqb_eq in Hf.
      split; [done|]. ksteps.
      do 3 (split; [done|]). right. repeat split; auto; [lia| |].
      * by rewrite delete_insert_id.
      * eexists. by split.
  - apply Z.eqb_neq in Hf.
    do 3 (split; [done|]). right. repeat split; auto; [lia|].
    exists d. split; [by rewrite insert_id | done].
Qed.

(** *** Opening and closing the interface *)

Definition opened (nd : net_device) : net_device :=
  nd_with_priv (with_state IB_PORT_ACTIVE (with_napi (MkNapi true true) (nd_priv nd)))
    (nd_with_queue true (nd_with_carrier true nd)).

Definition closed (nd : net_device) : net_device :=
  nd_with_priv (with_state IB_PORT_DOWN (with_napi (MkNapi true false) (nd_priv nd)))
    (nd_with_carrier false (nd_with_queue false nd)).

Lemma netdev_open_run n nd s :
  nets s !! n = Some nd -> napi (nd_priv nd) = MkNapi true false ->
  bluerdma_netdev_open n s = Done 0 (k_nets (<[n := opened nd]> (nets s)) s).
Proof.
  intros Hnd Hnapi.
  assert (Hw : wp (bluerdma_netdev_open n)
    (fun r s' => r = 0 /\ s' = k_nets (<[n := opened nd]> (nets s)) s) s).
  { destruct s; cbn in Hnd. unfold bluerdma_netdev_open, napi_enable. ksteps.
    cbn. rewrite Hnapi. ksteps. done. }
  by apply wp_run in Hw as (r & s' & -> & -> & ->).
Qed.

Lemma netdev_stop_run n nd s :
  nets s !! n = Some nd -> napi (nd_priv nd) = MkNapi true true ->
  bluerdma_netdev_stop n s = Done 0 (k_nets (<[n := closed nd]> (nets s)) s).
Proof.
  intros Hnd Hnapi.
  assert (Hw : wp (bluerdma_netdev_stop n)
    (fun r s' => r = 0 /\ s' = k_nets (<[n := closed nd]> (nets s)) s) s).
  { destruct s; cbn in Hnd. unfold bluerdma_netdev_stop, napi_disable. ksteps.
    rewrite Hnapi. ksteps. done. }
  by apply wp_run in Hw as (r & s' & -> & -> & ->).
Qed.

(** *** The default GID *)

(** The EUI-64 conversion of a 6-byte MAC address is a 16-byte link-local
    GID (prefix fe80::/64) with FF:FE in the middle, and the MAC address can be
    read back from it: two interfaces share a default GID only if they share a
    MAC address. *)
Theorem eui64_gid_roundtrip mac
    (Hlen : length mac = ETH_ALEN) (Hbytes : Forall (in_width 8) mac) :
  length (mac_to_eui64_gid mac) = 16%nat /\
  Forall (in_width 8) (mac_to_eui64_gid mac) /\
  take 8 (mac_to_eui64_gid mac) = [0xfe; 0x80; 0; 0; 0; 0; 0; 0] /\
  take 2 (drop 11 (mac_to_eui64_gid mac)) = [0xff; 0xfe] /\
  eui64_gid_mac (mac_to_eui64_gid mac) = mac.
Proof.
  do 6 (destruct mac as [|? mac]; [done|]). destruct mac; [|done].
  unfold mac_to_eui64_gid; cbn.
  repeat match goal with H : Forall _ (_ :: _) |- _ => inv H end.
  repeat split; try done.
  - rewrite !Forall_cons, Forall_nil.
    split_and!; auto; first [by unfold in_width | by apply lxor_range].
  - unfold eui64_gid_mac; cbn. by rewrite Z.lxor_assoc, Z.lxor_0_r.
Qed.

Lemma eui64_gid_roundtrip_witness :
  eui64_gid_mac (mac_to_eui64_gid [0x02; 0xBD; 0xBD; 0; 0; 7]) = [0x02; 0xBD; 0xBD; 0; 0; 7].
Proof.
  apply (eui64_gid_roundtrip [0x02; 0xBD; 0xBD; 0; 0; 7]); [reflexivity|].
  repeat constructor; cbn; lia.
Defined.

Lemma clear_gid_table_full (t : list bluerdma_gid_entry) :
  length t = BLUERDMA_GID_TABLE_SIZE ->
  clear_gid_table BLUERDMA_GID_TABLE_SIZE 0 t =
  replicate BLUERDMA_GID_TABLE_SIZE zero_gid_entry.
Proof.
  intros Hl. unfold BLUERDMA_GID_TABLE_SIZE in *.
  do 16 (destruct t as [|? t]; [done|]). by destruct t.
Qed.

(** *** sysfs output *)

Lemma scnprintf_fits size text :
  Z.of_nat (String.length text) < size -> scnprintf size text = text.
Proof.
  intros H. unfold scnprintf. destruct (Z.leb_spec size 0); [lia|].
  apply substring_all. lia.
Qed.

Lemma length_hex_byte b : String.length (hex_byte b) = 2%nat.
Proof.
  assert (Hd : forall d, String.length (hex_digit d) = 1%nat).
  { intros d. unfold hex_digit. repeat (case_match; try done). }
  unfold hex_byte. by rewrite length_append, !Hd.
Qed.

Lemma length_fmt_pI6 g : length g = 16%nat -> String.length (fmt_pI6 g) = 39%nat.
Proof.
  intros Hl. do 16 (destruct g as [|? g]; [done|]). destruct g; [|done].
  cbn [fmt_pI6]. rewrite !length_append, !length_hex_byte. reflexivity.
Qed.

Lemma length_gid_lines t :
  Forall (fun e => length (ge_gid e) = 16%nat) t ->
  String.length (gid_lines t) = (40 * n_valid t)%nat.
Proof.
  unfold n_valid. induction 1 as [|e t He Ht IH]; [done|].
  cbn [gid_lines foldr]. fold (gid_lines t).
  rewrite filter_cons. destruct (ge_valid e) eqn:Hv; case_decide; try congruence; auto.
  rewrite !length_append, length_fmt_pI6, IH by done. cbn [length newline String.length]. lia.
Qed.

Lemma n_valid_le t : (n_valid t <= length t)%nat.
Proof. apply length_filter. Qed.

Lemma show_gids_loop_spec t buf :
  Forall (fun e => length (ge_gid e) = 16%nat) t ->
  Z.of_nat (String.length buf + 40 * length t) < PAGE_SIZE ->
  show_gids_loop t buf = buf +:+ gid_lines t.
Proof.
  intros Ht. revert buf. induction Ht as [|e t He Ht IH]; intros buf Hb; cbn in *.
  - by rewrite append_nil_r.
  - destruct (ge_valid e).
    + assert (Hlen : String.length (fmt_pI6 (ge_gid e) +:+ newline) = 40%nat)
        by (rewrite length_append, length_fmt_pI6 by done; reflexivity).
      rewrite scnprintf_fits by lia.
      rewrite IH, append_assoc; [done|]. rewrite length_append. lia.
    + apply IH. lia.
Qed.

(** Reading the [gids] file of a device whose table is set up returns one
    line of exactly 40 characters for every valid entry, in index order, never
    truncated by the page-sized buffer, and leaves the device as it was. *)
Theorem show_gids_output {KOk : KernelEnvOk K} l d s
    (Hd : devs s !! l = Some d) (Hok : gid_table_ok d)
    (Hgids : Forall (fun e => length (ge_gid e) = 16%nat) (gid_table d)) :
  bluerdma_show_gids l s =
    Done (40 * Z.of_nat (n_valid (gid_table d)), gid_lines (gid_table d)) s.
Proof.
  assert (Hw : wp (bluerdma_show_gids l)
    (fun r s' => r = (40 * Z.of_nat (n_valid (gid_table d)), gid_lines (gid_table d))
                 /\ s' = s) s).
  { destruct Hok as [Hlen Hh Hi]. destruct s; cbn in Hd. unfold bluerdma_show_gids.
    ksteps. split; cbn [gid_table with_gid_lock].
    - rewrite show_gids_loop_spec; [|done|].
      + change ("" +:+ ?x) with x. rewrite length_gid_lines by done. f_equal. lia.
      + rewrite Hlen. pose proof page_size_min. cbn. lia.
    - f_equal. apply insert_id. rewrite Hd. f_equal.
      destruct d as [? ? ? ? ? ? ? ? ? [] ? ?]; cbn in *; by subst. }
  apply wp_run in Hw as (r & s' & -> & -> & ->). done.
Qed.

End ethernet_facts.

(** ** A concrete device for the witnesses

    Device 1 with interface 2, as [bluerdma_create_netdev] leaves them, with the
    interface open. *)
Definition demo_dev : bluerdma_dev := dev_after_create 2 zero_bluerdma_dev.

Definition demo_net : net_device :=
  MkNet "blue0" (with_napi (MkNapi true false) zero_bluerdma_dev) true 0 0 ETH_MIN_MTU
    ETH_MAX_MTU BLUERDMA_DEFAULT_MTU [0x02; 0xBD; 0xBD; 0; 0; 1] true true true true 0 0.

Definition demo_state : kstate :=
  MkK {[1 := demo_dev]} {[2 := demo_net]} ∅ ∅ [Some 1; None] 3 0 0.

Lemma show_gids_output_witness :
  @bluerdma_show_gids quiet_env 1 demo_state =
    Done (40, "fe80:0000:0000:0000:0200:00ff:fe00:0000" +:+ newline) demo_state.
Proof.
  rewrite (@show_gids_output quiet_env quiet_env_ok 1 demo_dev demo_state).
  - vm_compute. reflexivity.
  - vm_compute. reflexivity.
  - by constructor.
  - repeat constructor.
Defined.
