(* ===== verification/KernelVerbs.v ===== *)
(** * kernel-driver/verbs.c

    The verbs the kernel driver implements.  Data path and object creation are
    stubs in the source; queries and the GID table are real. *)

From stdpp Require Import base list gmap strings numbers.
From Stdlib Require Import ZArith Lia.
From S2P Require Import Prelude KernelApi KernelNet.

#[local] Open Scope Z_scope.

(** ** Port attributes *)

Inductive ib_phys_state : Set :=
| IB_PHYS_STATE_ZERO
| IB_PORT_PHYS_STATE_DISABLED
| IB_PORT_PHYS_STATE_LINK_UP.

(** The capability flags the driver sets, as the set of their names. *)
Inductive port_cap : Set := IB_PORT_CM_SUP | IB_PORT_DEVICE_MGMT_SUP.
Inductive core_cap : Set := RDMA_CORE_CAP_PROT_ROCE | RDMA_CORE_CAP_PROT_ROCE_UDP_ENCAP.

Record ib_port_attr := MkPortAttr {
  pa_state : ib_port_state;
  pa_max_mtu : Z;
  pa_active_mtu : Z;
  pa_gid_tbl_len : Z;
  pa_port_cap_flags : list port_cap;
  pa_max_msg_sz : Z;
  pa_bad_pkey_cntr : Z;
  pa_qkey_viol_cntr : Z;
  pa_pkey_tbl_len : Z;
  pa_sm_lid : Z;
  pa_lid : Z;
  pa_lmc : Z;
  pa_max_vl_num : Z;
  pa_sm_sl : Z;
  pa_subnet_timeout : Z;
  pa_init_type_reply : Z;
  pa_active_width : Z;
  pa_active_speed : Z;
  pa_phys_state : ib_phys_state;
}.

Record ib_port_immutable := MkImmutable {
  im_core_cap_flags : list core_cap;
  im_pkey_tbl_len : Z;
  im_gid_tbl_len : Z;
}.

(** [ERR_PTR]/pointer results. *)
Inductive ptr_or_err : Set := PtrOk (l : loc) | PtrErr (e : Z).

Section verbs.
Context {K : KernelEnv}.

(** ** Verbs that only log *)

Definition bluerdma_query_device : M kstate Z := mret 0.
Definition bluerdma_alloc_pd : M kstate Z := mret 0.
Definition bluerdma_dealloc_pd : M kstate Z := mret 0.
Definition bluerdma_create_qp : M kstate Z := mret 0.
Definition bluerdma_destroy_qp : M kstate Z := mret 0.
Definition bluerdma_modify_qp : M kstate Z := mret 0.
Definition bluerdma_post_send : M kstate Z := mret 0.
Definition bluerdma_post_recv : M kstate Z := mret 0.
Definition bluerdma_create_cq : M kstate Z := mret 0.
Definition bluerdma_destroy_cq : M kstate Z := mret 0.
Definition bluerdma_poll_cq : M kstate Z := mret 0.
Definition bluerdma_req_notify_cq : M kstate Z := mret 0.
Definition bluerdma_alloc_ucontext : M kstate Z := mret 0.
Definition bluerdma_dealloc_ucontext : M kstate unit := mret tt.

(** ** Ports *)

(** The attributes set before the network device is looked at. *)
Definition port_attr_base : ib_port_attr :=
  MkPortAttr IB_PORT_NOP 0 0 (Z.of_nat BLUERDMA_GID_TABLE_SIZE)
    [IB_PORT_CM_SUP; IB_PORT_DEVICE_MGMT_SUP] 0x80000000 0 0 1 0 0 0 1 0 0 0 0 0
    IB_PHYS_STATE_ZERO.

Definition phys_state_of (st : ib_port_state) : ib_phys_state :=
  match st with
  | IB_PORT_ACTIVE => IB_PORT_PHYS_STATE_LINK_UP
  | _ => IB_PORT_PHYS_STATE_DISABLED
  end.

Definition pa_with_phys (v : ib_phys_state) (a : ib_port_attr) : ib_port_attr :=
  MkPortAttr (pa_state a) (pa_max_mtu a) (pa_active_mtu a) (pa_gid_tbl_len a)
    (pa_port_cap_flags a) (pa_max_msg_sz a) (pa_bad_pkey_cntr a) (pa_qkey_viol_cntr a)
    (pa_pkey_tbl_len a) (pa_sm_lid a) (pa_lid a) (pa_lmc a) (pa_max_vl_num a)
    (pa_sm_sl a) (pa_subnet_timeout a) (pa_init_type_reply a) (pa_active_width a)
    (pa_active_speed a) v.

Definition pa_with_link (st : ib_port_state) (mtu speed width : Z) (a : ib_port_attr) : ib_port_attr :=
  MkPortAttr st mtu mtu (pa_gid_tbl_len a)
    (pa_port_cap_flags a) (pa_max_msg_sz a) (pa_bad_pkey_cntr a) (pa_qkey_viol_cntr a)
    (pa_pkey_tbl_len a) (pa_sm_lid a) (pa_lid a) (pa_lmc a) (pa_max_vl_num a)
    (pa_sm_sl a) (pa_subnet_timeout a) (pa_init_type_reply a) width speed
    (pa_phys_state a).

Definition bluerdma_query_port (l : loc) (port_num : Z) : M kstate (Z * ib_port_attr) :=
  let dev := DevAt l in
  d ← dev_get dev;
  let attr := port_attr_base in
  attr ← match netdev d with
         | None => mret attr
         | Some n =>
             nd ← net_get n;
             let '(speed, width) := ib_get_eth_speed l port_num in
             let mtu := ib_mtu_int_to_enum (nd_mtu nd) in
             let st := if nd_running nd && nd_carrier nd
                       then IB_PORT_ACTIVE else IB_PORT_DOWN in
             dev_upd dev (with_state st);;
             mret (pa_with_link st mtu speed width attr)
         end;
  d ← dev_get dev;
  mret (0, pa_with_phys (phys_state_of (state d)) attr).

(** [ib_query_port] of the RDMA core can fail on its own (the environment's
    code) before it calls the driver's [query_port]. *)
Definition bluerdma_get_port_immutable (l : loc) (port_num : Z)
    (old : ib_port_immutable) : M kstate (Z * ib_port_immutable) :=
  if negb (port_num =? 1) then mret (- EINVAL, old)
  else
    err ← next_fate;
    if negb (err =? 0) then mret (err, old)
    else
      _ ← bluerdma_query_port l port_num;
      mret (0, MkImmutable [RDMA_CORE_CAP_PROT_ROCE; RDMA_CORE_CAP_PROT_ROCE_UDP_ENCAP]
                 1 (Z.of_nat BLUERDMA_GID_TABLE_SIZE)).

Definition bluerdma_query_pkey : M kstate (Z * Z) :=
  let pkey := 1 in
  mret (0, pkey).

(** ** Memory regions *)

Definition bluerdma_get_dma_mr : M kstate ptr_or_err :=
  omr ← kzalloc_mr;
  match omr with
  | None => mret (PtrErr (- ENOMEM))
  | Some mr => mret (PtrOk mr)
  end.

Definition bluerdma_reg_user_mr : M kstate ptr_or_err :=
  omr ← kzalloc_mr;
  match omr with
  | None => mret (PtrErr (- ENOMEM))
  | Some mr => mret (PtrOk mr)
  end.

Definition bluerdma_dereg_mr (mr : loc) : M kstate Z :=
  kfree_mr mr;;
  mret 0.

(** ** GIDs *)

(** [index < 0 || index >= BLUERDMA_GID_TABLE_SIZE] *)
Definition bad_gid_index (index : Z) : bool :=
  (index <? 0) || (index >=? Z.of_nat BLUERDMA_GID_TABLE_SIZE).

(** [gid_table[index]], inside the array. *)
Definition gid_at (d : bluerdma_dev) (index : Z) : M kstate bluerdma_gid_entry :=
  demand OutOfBounds (gid_table d !! Z.to_nat index).

(** Returns the code and the GID, if one was copied out. *)
Definition bluerdma_query_gid (l : loc) (port_num index : Z) : M kstate (Z * option gid) :=
  let dev := DevAt l in
  if negb (port_num =? 1) then mret (- EINVAL, None)
  else if bad_gid_index index then mret (- EINVAL, None)
  else
    spin_lock gid_lock with_gid_lock dev;;
    d ← dev_get dev;
    e ← gid_at d index;
    let r := if negb (ge_valid e) then (- EAGAIN, None) else (0, Some (ge_gid e)) in
    spin_unlock gid_lock with_gid_lock dev;;
    mret r.

Definition bluerdma_add_gid (attr : ib_gid_attr) : M kstate Z :=
  let dev := DevAt (ga_device attr) in
  if negb (ga_port_num attr =? 1) then mret (- EINVAL)
  else if bad_gid_index (ga_index attr) then mret (- EINVAL)
  else
    spin_lock gid_lock with_gid_lock dev;;
    d ← dev_get dev;
    _ ← gid_at d (ga_index attr);
    dev_set dev (with_gid_table
      (<[Z.to_nat (ga_index attr) := MkGidEntry (ga_gid attr) attr true]> (gid_table d)) d);;
    spin_unlock gid_lock with_gid_lock dev;;
    mret 0.

Definition bluerdma_del_gid (attr : ib_gid_attr) : M kstate Z :=
  let dev := DevAt (ga_device attr) in
  if negb (ga_port_num attr =? 1) then mret (- EINVAL)
  else if bad_gid_index (ga_index attr) then mret (- EINVAL)
  else
    spin_lock gid_lock with_gid_lock dev;;
    d ← dev_get dev;
    e ← gid_at d (ga_index attr);
    dev_set dev (with_gid_table
      (<[Z.to_nat (ga_index attr) := MkGidEntry (ge_gid e) (ge_attr e) false]> (gid_table d)) d);;
    spin_unlock gid_lock with_gid_lock dev;;
    mret 0.

End verbs.

(** ** The GID table as an abstract map

    What the GID verbs promise to the RDMA core: a partial map from index to
    GID.  [add] binds, [del] unbinds, [query] reads; bad ports and indices are
    refused. *)

Inductive gid_op : Set :=
| QueryGid (port index : Z)
| AddGid (port index : Z) (g : gid)
| DelGid (port index : Z).

Definition gid_op_ok (port index : Z) : bool :=
  (port =? 1) && negb (bad_gid_index index).

Definition spec_gid_op (op : gid_op) (m : gmap Z gid) : (Z * option gid) * gmap Z gid :=
  match op with
  | QueryGid port index =>
      if gid_op_ok port index then
        match m !! index with
        | Some g => ((0, Some g), m)
        | None => ((- EAGAIN, None), m)
        end
      else ((- EINVAL, None), m)
  | AddGid port index g =>
      if gid_op_ok port index then ((0, None), <[index := g]> m) else ((- EINVAL, None), m)
  | DelGid port index =>
      if gid_op_ok port index then ((0, None), delete index m) else ((- EINVAL, None), m)
  end.

Fixpoint spec_gid_run (ops : list gid_op) (m : gmap Z gid) : list (Z * option gid) * gmap Z gid :=
  match ops with
  | [] => ([], m)
  | op :: rest =>
      let '(r, m1) := spec_gid_op op m in
      let '(rs, m2) := spec_gid_run rest m1 in
      (r :: rs, m2)
  end.

(** The same operations through the driver's verbs on device [l]. *)
Definition gid_attr_for (l port index : Z) (g : gid) : ib_gid_attr :=
  MkGidAttr l g index port.

Section gid_run.
Context {K : KernelEnv}.

Definition run_gid_op (l : loc) (op : gid_op) : M kstate (Z * option gid) :=
  match op with
  | QueryGid port index => bluerdma_query_gid l port index
  | AddGid port index g =>
      r ← bluerdma_add_gid (gid_attr_for l port index g); mret (r, None)
  | DelGid port index =>
      r ← bluerdma_del_gid (gid_attr_for l port index []); mret (r, None)
  end.

Fixpoint run_gid_ops (l : loc) (ops : list gid_op) : M kstate (list (Z * option gid)) :=
  match ops with
  | [] => mret []
  | op :: rest => r ← run_gid_op l op; rs ← run_gid_ops l rest; mret (r :: rs)
  end.

End gid_run.

(** The index's GID, if the entry is valid. *)
Definition gid_view (t : list bluerdma_gid_entry) (index : Z) : option gid :=
  if bad_gid_index index then None
  else match t !! Z.to_nat index with
       | Some e => if ge_valid e then Some (ge_gid e) else None
       | None => None
       end.

(** Device [l] of state [s] holds the map [m]. *)
Definition gid_rel (s : kstate) (l : loc) (m : gmap Z gid) : Prop :=
  exists d, devs s !! l = Some d /\ gid_table_ok d /\
            forall i, m !! i = gid_view (gid_table d) i.

(** Everything but the GID table and its lock on [l] is as before. *)
Definition only_gids_changed (l : loc) (s s' : kstate) : Prop :=
  exists d d',
    devs s !! l = Some d /\
    s' = k_devs (<[l := d']> (devs s)) s /\
    d' = with_gid_lock (gid_lock d') (with_gid_table (gid_table d') d).

Section gid_refinement.
Context {K : KernelEnv}.

Lemma gid_op_ok_spec port index :
  gid_op_ok port index =
  negb (negb (port =? 1)) && negb (bad_gid_index index).
Proof. unfold gid_op_ok. by rewrite negb_involutive. Qed.

Lemma gid_index_lookup (t : list bluerdma_gid_entry) index :
  length t = BLUERDMA_GID_TABLE_SIZE -> bad_gid_index index = false ->
  exists e, t !! Z.to_nat index = Some e.
Proof.
  intros Hl Hb. apply lookup_lt_is_Some. rewrite Hl.
  unfold bad_gid_index, BLUERDMA_GID_TABLE_SIZE in *.
  apply orb_false_elim in Hb as [?%Z.ltb_ge Hge]. rewrite Z.geb_leb in Hge.
  apply Z.leb_gt in Hge. lia.
Qed.

(** Writing entry [index] changes the view there and nowhere else. *)
Lemma gid_view_insert (t : list bluerdma_gid_entry) index e j :
  length t = BLUERDMA_GID_TABLE_SIZE -> bad_gid_index index = false ->
  gid_view (<[Z.to_nat index := e]> t) j =
  if decide (j = index) then (if ge_valid e then Some (ge_gid e) else None)
  else gid_view t j.
Proof.
  intros Hl Hb. unfold gid_view.
  destruct (gid_index_lookup t index Hl Hb) as [e0 He0].
  case_decide as Hj.
  - subst j. rewrite Hb, list_lookup_insert_eq; [done|]. by eapply lookup_lt_Some.
  - destruct (bad_gid_index j) eqn:Hbj; [done|].
    rewrite list_lookup_insert_ne; [done|].
    unfold bad_gid_index in *. lia.
Qed.

Lemma gid_lock_restore d v :
  gid_table_ok d ->
  with_gid_lock (MkLock (lk_init (gid_lock d)) false)
    (with_gid_table v (with_gid_lock (MkLock (lk_init (gid_lock d)) true) d)) =
  with_gid_table v d.
Proof.
  intros [_ Hh Hi]. destruct d as [? ? ? ? ? ? ? ? ? [] ? ?]; cbn in *; by subst.
Qed.

Lemma wp_query_gid l port index m s :
  gid_rel s l m ->
  wp (bluerdma_query_gid l port index)
     (fun r s' => r = fst (spec_gid_op (QueryGid port index) m) /\ s' = s) s.
Proof.
  intros (d & Hd & Hok & Hm). unfold bluerdma_query_gid; cbn [spec_gid_op].
  rewrite gid_op_ok_spec.
  destruct (negb (port =? 1)); [by ksteps|].
  destruct (bad_gid_index index) eqn:Hb; cbn; [by ksteps|].
  destruct (gid_index_lookup _ index (gid_table_len d Hok) Hb) as [e He].
  unfold spin_lock, spin_unlock, gid_at.
  ksteps. rewrite (gid_lock_free d Hok). ksteps. rewrite (gid_lock_ready d Hok). cbn.
  ksteps. split.
  - rewrite Hm. unfold gid_view. rewrite Hb, He. by destruct (ge_valid e).
  - rewrite ?insert_insert_eq, insert_id; [by destruct s|].
    rewrite Hd. f_equal. destruct Hok as [_ Hh Hi].
    destruct d as [? ? ? ? ? ? ? ? ? [] ? ?]; cbn in *; by subst.
Qed.

(** The state after entry [index] of device [l] has been replaced by [e]. *)
Definition gid_written (l : loc) (d : bluerdma_dev) (index : Z)
    (e : bluerdma_gid_entry) (s : kstate) : kstate :=
  k_devs (<[l := with_gid_table (<[Z.to_nat index := e]> (gid_table d)) d]> (devs s)) s.

Lemma wp_add_gid attr d s :
  devs s !! ga_device attr = Some d -> gid_table_ok d ->
  wp (bluerdma_add_gid attr)
     (fun r s' =>
        if gid_op_ok (ga_port_num attr) (ga_index attr)
        then r = 0 /\ s' = gid_written (ga_device attr) d (ga_index attr)
                             (MkGidEntry (ga_gid attr) attr true) s
        else r = - EINVAL /\ s' = s) s.
Proof.
  intros Hd Hok. unfold bluerdma_add_gid. rewrite gid_op_ok_spec.
  destruct (negb (ga_port_num attr =? 1)); [by ksteps|].
  destruct (bad_gid_index (ga_index attr)) eqn:Hb; cbn; [by ksteps|].
  destruct (gid_index_lookup _ _ (gid_table_len d Hok) Hb) as [e He].
  unfold spin_lock, spin_unlock, gid_at.
  ksteps. rewrite (gid_lock_free d Hok). ksteps. rewrite (gid_lock_ready d Hok). cbn.
  ksteps. split; [done|]. unfold gid_written. rewrite ?insert_insert_eq.
  by rewrite <- (gid_lock_restore d _ Hok), (gid_lock_ready d Hok).
Qed.

Lemma wp_del_gid attr d s :
  devs s !! ga_device attr = Some d -> gid_table_ok d ->
  wp (bluerdma_del_gid attr)
     (fun r s' =>
        if gid_op_ok (ga_port_num attr) (ga_index attr)
        then r = 0 /\ exists e, s' = gid_written (ga_device attr) d (ga_index attr) e s
                                /\ ge_valid e = false
        else r = - EINVAL /\ s' = s) s.
Proof.
  intros Hd Hok. unfold bluerdma_del_gid. rewrite gid_op_ok_spec.
  destruct (negb (ga_port_num attr =? 1)); [by ksteps|].
  destruct (bad_gid_index (ga_index attr)) eqn:Hb; cbn; [by ksteps|].
  destruct (gid_index_lookup _ _ (gid_table_len d Hok) Hb) as [e He].
  unfold spin_lock, spin_unlock, gid_at.
  ksteps. rewrite (gid_lock_free d Hok). ksteps. rewrite (gid_lock_ready d Hok). cbn.
  ksteps. split; [done|]. unfold gid_written. rewrite ?insert_insert_eq.
  exists (MkGidEntry (ge_gid e) (ge_attr e) false). split; [|done].
  by rewrite <- (gid_lock_restore d _ Hok), (gid_lock_ready d Hok).
Qed.

(** Writing an entry keeps the relation, for the map changed at that index. *)
Lemma gid_rel_written s l d index e (m m' : gmap Z gid) :
  devs s !! l = Some d -> gid_table_ok d -> bad_gid_index index = false ->
  (forall i, m !! i = gid_view (gid_table d) i) ->
  (forall j, m' !! j = if decide (j = index)
                       then (if ge_valid e then Some (ge_gid e) else None) else m !! j) ->
  gid_rel (gid_written l d index e s) l m'.
Proof.
  intros Hd Hok Hb Hm Hm'. unfold gid_rel, gid_written. cbn.
  eexists; split; [by simplify_map_eq|]. split.
  - destruct Hok. constructor; cbn; auto. by rewrite length_insert.
  - intros i. cbn. rewrite gid_view_insert, Hm', Hm; auto using gid_table_len.
Qed.

Lemma only_gids_changed_written l d index e s :
  devs s !! l = Some d -> only_gids_changed l s (gid_written l d index e s).
Proof.
  intros Hd. eexists d, _. repeat split; eauto.
Qed.

Lemma only_gids_changed_refl l d s : devs s !! l = Some d -> only_gids_changed l s s.
Proof.
  intros Hd. exists d, d. repeat split; auto; [|by destruct d].
  rewrite insert_id by done. by destruct s.
Qed.

Lemma only_gids_changed_trans l s1 s2 s3 :
  only_gids_changed l s1 s2 -> only_gids_changed l s2 s3 -> only_gids_changed l s1 s3.
Proof.
  intros (d & d2 & H1 & -> & E2) (e & d3 & H2 & -> & E3). cbn in *.
  rewrite lookup_insert_eq in H2. simplify_eq.
  exists d, d3. repeat split; auto.
  - by rewrite insert_insert_eq.
  - rewrite E3. rewrite E2. by destruct d.
Qed.

Lemma run_gid_op_refines l op m s :
  gid_rel s l m ->
  wp (run_gid_op l op)
     (fun r s' => r = fst (spec_gid_op op m) /\
                  gid_rel s' l (snd (spec_gid_op op m)) /\ only_gids_changed l s s') s.
Proof.
  intros Hrel. pose proof Hrel as (d & Hd & Hok & Hm).
  destruct op as [port index|port index g|port index]; cbn [run_gid_op].
  - eapply wp_mono; [by apply wp_query_gid|]. cbn beta. intros r s' [-> ->].
    split; [done|]. split; [|by eapply only_gids_changed_refl].
    cbn. destruct (gid_op_ok port index); [|done]. by destruct (m !! index).
  - apply wp_bind. eapply wp_mono; [by apply wp_add_gid|]. cbn.
    unfold gid_op_ok. intros r s' Hr. apply wp_ret.
    destruct (port =? 1); [|destruct Hr as [-> ->]; eauto using only_gids_changed_refl].
    destruct (bad_gid_index index) eqn:Hb; destruct Hr as [-> ->]; cbn;
      [eauto using only_gids_changed_refl|].
    split; [done|]. split; [|by apply only_gids_changed_written].
    eapply gid_rel_written; eauto. intros j. cbn.
    case_decide; subst; by simplify_map_eq.
  - apply wp_bind. eapply wp_mono; [by apply wp_del_gid|]. cbn.
    unfold gid_op_ok. intros r s' Hr. apply wp_ret.
    destruct (port =? 1); [|destruct Hr as [-> ->]; eauto using only_gids_changed_refl].
    destruct (bad_gid_index index) eqn:Hb; cbn in *.
    + destruct Hr as [-> ->]; eauto using only_gids_changed_refl.
    + destruct Hr as [-> (e & -> & He)].
      split; [done|]. split; [|by apply only_gids_changed_written].
      eapply gid_rel_written; eauto. intros j. rewrite He.
      case_decide; subst; by simplify_map_eq.
Qed.

(** C10: On a device whose GID table is set up, any sequence of [query_gid],
    [add_gid] and [del_gid] calls runs without fault, returns exactly what a
    partial map from index to GID returns, leaves the table representing the
    resulting map, and changes nothing else in the kernel state. *)
Theorem gid_verbs_refine_map l ops m s (Hrel : gid_rel s l m) :
  exists rs s',
    run_gid_ops l ops s = Done rs s' /\
    rs = fst (spec_gid_run ops m) /\
    gid_rel s' l (snd (spec_gid_run ops m)) /\
    only_gids_changed l s s'.
Proof.
  revert m s Hrel. induction ops as [|op ops IH]; intros m s Hrel.
  - destruct Hrel as (d & Hd & ?). exists [], s.
    repeat split; [by exists d | by eapply only_gids_changed_refl].
  - destruct (proj1 (wp_run _ _ _) (run_gid_op_refines l op m s Hrel))
      as (r & s1 & Hrun & Hr & Hrel1 & Hch1).
    destruct (spec_gid_op op m) as [r' m1] eqn:Hop; cbn in *; subst r'.
    destruct (IH m1 s1 Hrel1) as (rs & s2 & Hrun2 & Hrs & Hrel2 & Hch2).
    destruct (spec_gid_run ops m1) as [rs' m2] eqn:Hops; cbn in *; subst rs'.
    exists (r :: rs), s2. rewrite Hop, Hops. cbn.
    repeat split; auto; [|by eapply only_gids_changed_trans].
    unfold mbind, M_bind. by rewrite Hrun, Hrun2.
Qed.

(** *** Ports *)

Definition link_state (nd : net_device) : ib_port_state :=
  if nd_running nd && nd_carrier nd then IB_PORT_ACTIVE else IB_PORT_DOWN.

Lemma query_port_run l d n nd port s :
  devs s !! l = Some d -> netdev d = Some n -> nets s !! n = Some nd ->
  bluerdma_query_port l port s =
  Done (0, pa_with_phys (phys_state_of (link_state nd))
             (pa_with_link (link_state nd) (ib_mtu_int_to_enum (nd_mtu nd))
                (fst (ib_get_eth_speed l port)) (snd (ib_get_eth_speed l port))
                port_attr_base))
       (k_devs (<[l := with_state (link_state nd) d]> (devs s)) s).
Proof.
  intros Hd Hn Hnd.
  assert (Hw : wp (bluerdma_query_port l port)
    (fun r s' => r = (0, pa_with_phys (phys_state_of (link_state nd))
             (pa_with_link (link_state nd) (ib_mtu_int_to_enum (nd_mtu nd))
                (fst (ib_get_eth_speed l port)) (snd (ib_get_eth_speed l port))
                port_attr_base)) /\
       s' = k_devs (<[l := with_state (link_state nd) d]> (devs s)) s) s).
  { destruct s; cbn in Hd, Hnd. unfold bluerdma_query_port. ksteps.
    rewrite Hn. ksteps. destruct (ib_get_eth_speed l port). ksteps. done. }
  by apply wp_run in Hw as (r & s' & -> & -> & ->).
Qed.

(** Querying a port of a device that has an interface reports the link the
    interface has: ACTIVE and LINK_UP when it is running with carrier, DOWN and
    DISABLED otherwise, with the MTU of the interface and the fixed capabilities
    of the driver, and records that state in the device and changes nothing
    else. *)
Theorem query_port_reports_link l d n nd port s
    (Hd : devs s !! l = Some d) (Hn : netdev d = Some n) (Hnd : nets s !! n = Some nd) :
  let up := nd_running nd && nd_carrier nd in
  let st := if up then IB_PORT_ACTIVE else IB_PORT_DOWN in
  exists a,
    bluerdma_query_port l port s =
      Done (0, a) (k_devs (<[l := with_state st d]> (devs s)) s) /\
    pa_state a = st /\
    pa_phys_state a = (if up then IB_PORT_PHYS_STATE_LINK_UP else IB_PORT_PHYS_STATE_DISABLED) /\
    pa_max_mtu a = ib_mtu_int_to_enum (nd_mtu nd) /\
    pa_active_mtu a = ib_mtu_int_to_enum (nd_mtu nd) /\
    pa_gid_tbl_len a = Z.of_nat BLUERDMA_GID_TABLE_SIZE /\
    pa_pkey_tbl_len a = 1 /\ pa_max_msg_sz a = 2 ^ 31 /\ pa_lid a = 0.
Proof.
  intros up st. eexists. split; [by eapply query_port_run|].
  cbn. unfold link_state, st. fold up. by destruct up.
Qed.

(** Bringing the interface of a device up makes the device's port ACTIVE and
    bringing it down makes it DOWN, as seen by [query_port]; the handlers
    themselves touch only the interface, never the RDMA device. *)
Theorem link_state_visible l d n nd port s
    (Hd : devs s !! l = Some d) (Hn : netdev d = Some n) (Hnd : nets s !! n = Some nd)
    (Hrun : nd_running nd = true) (Hnapi : napi (nd_priv nd) = MkNapi true false) :
  exists s1 a1 s2 s3 a2 s4,
    bluerdma_netdev_open n s = Done 0 s1 /\ devs s1 = devs s /\
    bluerdma_query_port l port s1 = Done (0, a1) s2 /\
    pa_state a1 = IB_PORT_ACTIVE /\ pa_phys_state a1 = IB_PORT_PHYS_STATE_LINK_UP /\
    bluerdma_netdev_stop n s2 = Done 0 s3 /\ devs s3 = devs s2 /\
    bluerdma_query_port l port s3 = Done (0, a2) s4 /\
    pa_state a2 = IB_PORT_DOWN /\ pa_phys_state a2 = IB_PORT_PHYS_STATE_DISABLED.
Proof.
  eexists _, _, _, _, _, _.
  split; [by apply netdev_open_run|]. split; [reflexivity|].
  split; [eapply query_port_run; [exact Hd | exact Hn | apply lookup_insert_eq]|].
  cbn. unfold link_state; cbn. rewrite Hrun. do 2 (split; [reflexivity|]).
  split; [eapply netdev_stop_run; [apply lookup_insert_eq | reflexivity]|].
  split; [reflexivity|].
  split; [eapply query_port_run; [apply lookup_insert_eq | exact Hn | apply lookup_insert_eq]|].
  cbn. unfold link_state; cbn. by rewrite andb_false_r.
Qed.

End gid_refinement.

(** The table [bluerdma_create_netdev] sets up holds the default GID only. *)
Lemma created_gid_view mac t i :
  length t = BLUERDMA_GID_TABLE_SIZE ->
  ({[0 := mac_to_eui64_gid mac]} : gmap Z gid) !! i = gid_view (created_gid_table mac t) i.
Proof.
  intros Hl. unfold created_gid_table. rewrite clear_gid_table_full by done.
  unfold gid_view. destruct (decide (i = 0)) as [->|Hi]; [by rewrite lookup_singleton_eq|].
  rewrite lookup_singleton_ne by done.
  destruct (bad_gid_index i) eqn:Hb; [done|].
  destruct (Z.to_nat i) as [|k] eqn:Ek.
  - unfold bad_gid_index in Hb. lia.
  - unfold set_default_gid. rewrite list_lookup_alter_ne by done.
    destruct (replicate _ _ !! S k) as [e|] eqn:He; [|done].
    apply lookup_replicate in He as [-> _]. done.
Qed.

(** ** Witnesses *)

Definition demo_gids : gmap Z gid := {[0 := mac_to_eui64_gid (replicate ETH_ALEN 0)]}.

Lemma demo_gid_rel : gid_rel demo_state 1 demo_gids.
Proof.
  exists demo_dev. split; [done|]. split; [by constructor|]. intros i.
  by apply created_gid_view.
Qed.

Lemma gid_verbs_refine_map_witness :
  exists rs s',
    run_gid_ops 1 [QueryGid 1 0; AddGid 1 3 (replicate 16 7); QueryGid 1 3; DelGid 1 3; QueryGid 1 3]
      demo_state = Done rs s' /\
    rs = [(0, Some (mac_to_eui64_gid (replicate ETH_ALEN 0))); (0, None);
          (0, Some (replicate 16 7)); (0, None); (- EAGAIN, None)].
Proof.
  destruct (gid_verbs_refine_map 1
    [QueryGid 1 0; AddGid 1 3 (replicate 16 7); QueryGid 1 3; DelGid 1 3; QueryGid 1 3]
    demo_gids demo_state demo_gid_rel) as (rs & s' & Hrun & Hrs & _).
  exists rs, s'. split; [exact Hrun|]. rewrite Hrs. vm_compute. reflexivity.
Defined.

Lemma query_port_reports_link_witness :
  exists a, @bluerdma_query_port quiet_env 1 1 demo_state =
      Done (0, a) (k_devs (<[1 := with_state IB_PORT_ACTIVE demo_dev]> (devs demo_state)) demo_state)
    /\ pa_state a = IB_PORT_ACTIVE.
Proof.
  destruct (@query_port_reports_link quiet_env 1 demo_dev 2 demo_net 1 demo_state
              eq_refl eq_refl eq_refl) as (a & Hrun & Hst & _).
  exists a. split; [exact Hrun | exact Hst].
Defined.

Lemma link_state_visible_witness :
  exists s1 a1 s2, bluerdma_netdev_open 2 demo_state = Done 0 s1 /\
    @bluerdma_query_port quiet_env 1 1 s1 = Done (0, a1) s2 /\ pa_state a1 = IB_PORT_ACTIVE.
Proof.
  destruct (@link_state_visible quiet_env 1 demo_dev 2 demo_net 1 demo_state
              eq_refl eq_refl eq_refl eq_refl eq_refl)
    as (s1 & a1 & s2 & _ & _ & _ & Hopen & _ & Hq & Hst & _).
  exists s1, a1, s2. split; [exact Hopen|]. split; [exact Hq | exact Hst].
Defined.
