(* ===== verification/KernelMain.v ===== *)
(** * kernel-driver/main.c

    Module load and unload: the two test devices, their registration with the
    RDMA core, and the unwinding of a load that fails half-way. *)

From stdpp Require Import base list gmap strings numbers pretty.
From Stdlib Require Import ZArith Lia.
From S2P Require Import Prelude KernelApi KernelNet KernelVerbs.

#[local] Open Scope Z_scope.

Definition N_TESTING : nat := 2.

(** [enum rdma_driver_id]; only the value the driver uses. *)
Definition RDMA_DRIVER_UNKNOWN : Z := 0.
Definition RDMA_NODE_RNIC : Z := 4.

(** The methods of [bluerdma_device_ops]. *)
Inductive ib_method : Set :=
| M_query_device | M_query_port | M_alloc_pd | M_dealloc_pd | M_create_qp
| M_modify_qp | M_destroy_qp | M_post_send | M_post_recv | M_create_cq
| M_destroy_cq | M_poll_cq | M_req_notify_cq | M_get_dma_mr | M_reg_user_mr
| M_dereg_mr | M_get_port_immutable | M_alloc_ucontext | M_dealloc_ucontext
| M_query_gid | M_query_pkey | M_add_gid | M_del_gid.

Record ib_device_ops := MkIbOps {
  ops_driver_id : Z;
  ops_uverbs_abi_ver : Z;
  ops_methods : list ib_method;
  ops_obj_sizes : list string;
}.

Definition bluerdma_device_ops : ib_device_ops :=
  MkIbOps RDMA_DRIVER_UNKNOWN 1
    [M_query_device; M_query_port; M_alloc_pd; M_dealloc_pd; M_create_qp;
     M_modify_qp; M_destroy_qp; M_post_send; M_post_recv; M_create_cq;
     M_destroy_cq; M_poll_cq; M_req_notify_cq; M_get_dma_mr; M_reg_user_mr;
     M_dereg_mr; M_get_port_immutable; M_alloc_ucontext; M_dealloc_ucontext;
     M_query_gid; M_query_pkey; M_add_gid; M_del_gid]
    ["ib_cq"; "ib_pd"; "ib_qp"; "ib_ucontext"]%string.

(** The name [ib_register_device(ibdev, "bluerdma%d", NULL)] gives to the
    [k]-th device. *)
Definition ib_dev_name (k : Z) : string := "bluerdma" +:+ pretty k.

Section main.
Context {K : KernelEnv}.

(** [testing_dev[i]], inside the array. *)
Definition get_slot (i : nat) : M kstate (option loc) :=
  t ← gets testing_dev; demand OutOfBounds (t !! i).

Definition set_slot (i : nat) (v : option loc) : M kstate unit :=
  t ← gets testing_dev;
  if decide (i < length t)%nat then modify (k_testing (<[i := v]> t))
  else fail OutOfBounds.

(** The body of the clean-up loops: destroy the interface if there is one, free
    the device and clear its slot.  Reading through [testing_dev[i]] needs it to
    be non-NULL and live. *)
Definition drop_slot (i : nat) : M kstate unit :=
  o ← get_slot i;
  l ← demand NullDeref o;
  d ← dev_get (DevAt l);
  when (bool_decide (is_Some (netdev d))) (bluerdma_destroy_netdev (DevAt l));;
  ib_dealloc_device l;;
  set_slot i None.

(** [while (--i >= 0) { ... }] *)
Fixpoint unwind_testing (i : nat) : M kstate unit :=
  match i with
  | O => mret tt
  | S j => drop_slot j;; unwind_testing j
  end.

(** The [for] loop from index [i], [todo] iterations left. *)
Fixpoint new_testing_loop (todo i : nat) : M kstate Z :=
  match todo with
  | O => mret 0
  | S todo' =>
      odev ← ib_alloc_device;
      match odev with
      | None => unwind_testing i;; mret (- ENOMEM)
      | Some dev =>
          set_slot i (Some dev);;
          dev_upd (DevAt dev) (with_id (Z.of_nat i));;
          ret ← bluerdma_create_netdev (DevAt dev) (Z.of_nat i);
          if negb (ret =? 0) then
            ib_dealloc_device dev;;
            unwind_testing i;;
            mret ret
          else new_testing_loop todo' (S i)
      end
  end.

Definition bluerdma_new_testing : M kstate Z := new_testing_loop N_TESTING 0.

Fixpoint free_testing_loop (todo i : nat) : M kstate unit :=
  match todo with
  | O => mret tt
  | S todo' =>
      o ← get_slot i;
      when (bool_decide (is_Some o)) (drop_slot i);;
      free_testing_loop todo' (S i)
  end.

Definition bluerdma_free_testing : M kstate unit := free_testing_loop N_TESTING 0.

(** The fields [bluerdma_ib_device_add] sets before it registers a device. *)
Definition ib_prepare (i : ib_device) : ib_device :=
  MkIbDevice "bluerdma" RDMA_NODE_RNIC 1 num_possible_cpus 0 true
    (registered i) (sysfs_files i) (bound_netdev i).

(** [while (--i >= 0) ib_unregister_device(&testing_dev[i]->ibdev);] *)
Fixpoint unregister_down (i : nat) : M kstate unit :=
  match i with
  | O => mret tt
  | S j =>
      o ← get_slot j;
      l ← demand NullDeref o;
      ib_unregister_device l;;
      unregister_down j
  end.

Fixpoint device_add_loop (todo i : nat) : M kstate Z :=
  match todo with
  | O => mret 0
  | S todo' =>
      o ← get_slot i;
      l ← demand NullDeref o;
      ibdev_upd l ib_prepare;;
      bluerdma_init_sysfs_attrs (DevAt l);;
      ret ← ib_register_device l;
      if negb (ret =? 0) then
        unregister_down i;;
        bluerdma_free_testing;;
        mret ret
      else
        _ ← device_create_file l "gids";
        _ ← device_create_file l "mac";
        d ← dev_get (DevAt l);
        match netdev d with
        | Some n => _ ← ib_device_set_netdev l n 1; device_add_loop todo' (S i)
        | None => device_add_loop todo' (S i)
        end
  end.

Definition bluerdma_ib_device_add : M kstate Z :=
  ret ← bluerdma_new_testing;
  if negb (ret =? 0) then mret ret else device_add_loop N_TESTING 0.

Fixpoint device_remove_loop (todo i : nat) : M kstate unit :=
  match todo with
  | O => mret tt
  | S todo' =>
      o ← get_slot i;
      match o with
      | Some l =>
          device_remove_file l "gids";;
          device_remove_file l "mac";;
          ib_unregister_device l
      | None => mret tt
      end;;
      device_remove_loop todo' (S i)
  end.

Definition bluerdma_ib_device_remove : M kstate unit :=
  device_remove_loop N_TESTING 0;;
  bluerdma_free_testing.

Definition bluerdma_probe : M kstate Z :=
  ret ← bluerdma_ib_device_add;
  if negb (ret =? 0) then mret ret else mret 0.

Definition bluerdma_remove : M kstate unit := bluerdma_ib_device_remove.

(** [request_module] loads [ib_uverbs]; its result and that of the probe are
    dropped. *)
Definition bluerdma_init_module : M kstate Z :=
  _ ← next_fate;
  _ ← bluerdma_probe;
  mret 0.

Definition bluerdma_exit_module : M kstate unit := bluerdma_remove.

End main.

(** The state before the module is loaded. *)
Definition kernel_boot : kstate :=
  MkK ∅ ∅ ∅ ∅ (replicate N_TESTING None) 1 0 0.

(** ** Ownership

    [owns R P s ps]: the RDMA devices and interfaces in the store are exactly
    the pairs [ps], each interface belongs to the device it is paired with and
    is registered, device [j] is registered with the RDMA core when [R j], and
    every device satisfies [P]. *)

Record owns (R : nat -> bool) (P : bluerdma_dev -> Prop) (s : kstate)
    (ps : list (loc * loc)) : Prop := {
  own_nodup_dev : NoDup ps.*1;
  own_nodup_net : NoDup ps.*2;
  own_dom_dev : forall l, is_Some (devs s !! l) <-> l ∈ ps.*1;
  own_dom_net : forall n, is_Some (nets s !! n) <-> n ∈ ps.*2;
  own_fresh : forall l, l ∈ ps.*1 \/ l ∈ ps.*2 -> l < next_loc s;
  own_pair : forall j d n, ps !! j = Some (d, n) ->
    exists dv nd, devs s !! d = Some dv /\ netdev dv = Some n /\
      registered (ibdev dv) = R j /\ P dv /\
      nets s !! n = Some nd /\ nd_registered nd = true;
}.

Definition unreg : nat -> bool := fun _ => false.
Definition any_dev : bluerdma_dev -> Prop := fun _ => True.

(** Slots as a list of pointers. *)
Definition slots_of (ps : list (loc * loc)) : list (option loc) := Some <$> ps.*1.

(** Nothing allocated, every slot NULL: the state before a load. *)
Record clean (s : kstate) : Prop := {
  clean_devs : devs s = ∅;
  clean_nets : nets s = ∅;
  clean_slots : testing_dev s = replicate N_TESTING None;
}.

(** Nothing allocated, but one slot still points to a device that was freed. *)
Record dangling (s : kstate) : Prop := {
  dangling_devs : devs s = ∅;
  dangling_nets : nets s = ∅;
  dangling_slot : exists j d, (j < N_TESTING)%nat /\
    testing_dev s = <[j := Some d]> (replicate N_TESTING None);
}.

(** Every device is allocated, has its interface and is registered. *)
Definition loaded (P : bluerdma_dev -> Prop) (s : kstate) : Prop :=
  exists ps, length ps = N_TESTING /\ owns (fun _ => true) P s ps /\
             testing_dev s = slots_of ps.

Section lifecycle.
Context {K : KernelEnv}.

Lemma owns_nil R P s :
  owns R P s [] <-> devs s = ∅ /\ nets s = ∅.
Proof.
  split.
  - intros [_ _ Hd Hn _ _]. split; apply map_eq; intros i; rewrite lookup_empty.
    + destruct (devs s !! i) eqn:E; [|done].
      assert (i ∈ @nil loc) as H by (apply Hd; eauto). by apply not_elem_of_nil in H.
    + destruct (nets s !! i) eqn:E; [|done].
      assert (i ∈ @nil loc) as H by (apply Hn; eauto). by apply not_elem_of_nil in H.
  - intros [Hd Hn]. constructor; cbn; try constructor; try set_solver.
    all: rewrite ?Hd, ?Hn, ?lookup_empty; try (intros [? ?]); done.
Qed.

(** Removing the pair [(d, n)] from a state in which nothing is registered. *)
Lemma owns_delete P s ps1 d n ps2 s' :
  owns unreg P s (ps1 ++ (d, n) :: ps2) ->
  devs s' = delete d (devs s) -> nets s' = delete n (nets s) ->
  next_loc s <= next_loc s' ->
  owns unreg P s' (ps1 ++ ps2).
Proof.
  intros [H1 H2 H3 H4 H5 H6] Ed En Hnx.
  rewrite !fmap_app, !fmap_cons in *. cbn in *.
  apply NoDup_app in H1 as (N1 & N2 & N3). apply NoDup_cons in N3 as (N3 & N4).
  apply NoDup_app in H2 as (N5 & N6 & N7). apply NoDup_cons in N7 as (N7 & N8).
  constructor; rewrite ?fmap_app.
  - apply NoDup_app. repeat split; auto. set_solver.
  - apply NoDup_app. repeat split; auto. set_solver.
  - intros l. rewrite Ed. destruct (decide (l = d)) as [->|Hne].
    + rewrite lookup_delete_eq. split; [intros [? ?]; done | set_solver].
    + rewrite lookup_delete_ne, H3 by done. set_solver.
  - intros l. rewrite En. destruct (decide (l = n)) as [->|Hne].
    + rewrite lookup_delete_eq. split; [intros [? ?]; done | set_solver].
    + rewrite lookup_delete_ne, H4 by done. set_solver.
  - intros l Hl. assert (l < next_loc s); [|lia]. apply H5. set_solver.
  - intros j d' n' Hj.
    assert (Hin : (d', n') ∈ ps1 ++ ps2) by (by eapply list_elem_of_lookup_2).
    assert (Hd' : d' ∈ ps1.*1 ++ ps2.*1)
      by (rewrite <- fmap_app; by apply (list_elem_of_fmap_2 fst _ (d', n'))).
    assert (Hn' : n' ∈ ps1.*2 ++ ps2.*2)
      by (rewrite <- fmap_app; by apply (list_elem_of_fmap_2 snd _ (d', n'))).
    assert (Hin2 : (d', n') ∈ ps1 ++ (d, n) :: ps2) by set_solver.
    apply list_elem_of_lookup in Hin2 as [j' Hj'].
    destruct (H6 j' d' n' Hj') as (dv & nd & ? & ? & ? & ? & ? & ?).
    exists dv, nd. rewrite Ed, En, !lookup_delete_ne; [done| |]; set_solver.
Qed.

(** [bluerdma_destroy_netdev] followed by [ib_dealloc_device] and the clearing of
    the slot frees exactly one pair. *)
Lemma wp_drop_slot P i ps1 d n ps2 s :
  owns unreg P s (ps1 ++ (d, n) :: ps2) ->
  testing_dev s !! i = Some (Some d) ->
  wp (drop_slot i)
     (fun _ s' => owns unreg P s' (ps1 ++ ps2) /\
                  testing_dev s' = <[i := None]> (testing_dev s)) s.
Proof.
  intros Hown Hslot.
  destruct (own_pair _ _ _ _ Hown (length ps1) d n) as
    (dv & nd & Hd & Hn & Hreg & HP & Hnd & Hndr); [by apply list_lookup_middle|].
  pose proof (lookup_lt_Some _ _ _ Hslot) as Hlt.
  destruct s as [dm nm sk mr td nx ck sp]; cbn in *.
  unfold drop_slot, get_slot, set_slot, bluerdma_destroy_netdev. ksteps.
  rewrite Hn. cbn. ksteps. rewrite Hn. ksteps. split; [done|]. ksteps.
  split; [done|]. ksteps. case_decide; [|lia]. ksteps.
  split; [|done]. eapply owns_delete; [done| | |]; cbn; [|by rewrite delete_insert_eq|lia].
  by rewrite delete_insert_eq.
Qed.

Lemma nulls_shift i (rest : list (option loc)) :
  replicate i None ++ None :: rest = replicate (S i) None ++ rest.
Proof. by rewrite replicate_S_end, <- app_assoc. Qed.

Lemma wp_unwind_testing P ps rest s :
  owns unreg P s ps -> testing_dev s = slots_of ps ++ rest ->
  wp (unwind_testing (length ps))
     (fun _ s' => owns unreg P s' [] /\
                  testing_dev s' = replicate (length ps) None ++ rest) s.
Proof.
  revert rest s. induction ps as [|[d n] ps IH] using rev_ind; intros rest s Hown Hslots.
  - apply wp_ret. by split.
  - rewrite length_app; cbn. rewrite Nat.add_1_r. cbn [unwind_testing].
    unfold slots_of in Hslots. rewrite !fmap_app in Hslots; cbn in Hslots.
    apply wp_bind. eapply wp_mono.
    { apply (wp_drop_slot P (length ps) ps d n []); [done|].
      rewrite Hslots, <- app_assoc, lookup_app_r, !length_fmap, Nat.sub_diag;
        [done | by rewrite !length_fmap]. }
    cbn. intros _ s1 [Hown1 Hslots1]. rewrite app_nil_r in Hown1.
    eapply wp_mono; [apply (IH (None :: rest)); [done|]|].
    + rewrite Hslots1, Hslots, <- app_assoc. unfold slots_of.
      rewrite insert_app_r_alt; [|by rewrite !length_fmap].
      by rewrite !length_fmap, Nat.sub_diag.
    + intros _ s2 [Hown2 Hslots2]. split; [done|]. rewrite Hslots2.
      apply nulls_shift.
Qed.

(** A device that was just allocated and given its interface. *)
Definition zero_mac_gid : gid := mac_to_eui64_gid (replicate ETH_ALEN 0).

Definition with_zero_mac_gid (dv : bluerdma_dev) : Prop :=
  gid_table_ok dv /\
  forall i, ({[0 := zero_mac_gid]} : gmap Z gid) !! i = gid_view (gid_table dv) i.

Lemma fresh_dev_gid n i :
  with_zero_mac_gid (dev_after_create n (with_id i zero_bluerdma_dev)).
Proof. split; [by constructor|]. intros j. by apply created_gid_view. Qed.

Lemma owns_ext R P s s' ps :
  owns R P s ps -> devs s' = devs s -> nets s' = nets s ->
  next_loc s <= next_loc s' -> owns R P s' ps.
Proof.
  intros [H1 H2 H3 H4 H5 H6] Ed En Hnx. constructor; rewrite ?Ed, ?En; auto.
  intros l Hl. specialize (H5 l Hl). lia.
Qed.

Lemma owns_fresh_dev R P s ps l : owns R P s ps -> next_loc s <= l -> devs s !! l = None.
Proof.
  intros Hown Hl. destruct (devs s !! l) eqn:E; [|done].
  assert (l ∈ ps.*1) by (apply (own_dom_dev _ _ _ _ Hown); eauto).
  assert (l < next_loc s) by (apply (own_fresh _ _ _ _ Hown); auto). lia.
Qed.

Lemma owns_fresh_net R P s ps n : owns R P s ps -> next_loc s <= n -> nets s !! n = None.
Proof.
  intros Hown Hl. destruct (nets s !! n) eqn:E; [|done].
  assert (n ∈ ps.*2) by (apply (own_dom_net _ _ _ _ Hown); eauto).
  assert (n < next_loc s) by (apply (own_fresh _ _ _ _ Hown); auto). lia.
Qed.

(** Adding a new device with its interface. *)
Lemma owns_snoc P s s' ps dv nd :
  let d := next_loc s in let n := next_loc s + 1 in
  owns unreg P s ps ->
  devs s' = <[d := dv]> (devs s) -> nets s' = <[n := nd]> (nets s) ->
  n < next_loc s' -> netdev dv = Some n -> registered (ibdev dv) = false -> P dv ->
  nd_registered nd = true ->
  owns unreg P s' (ps ++ [(d, n)]).
Proof.
  intros d n Hown Ed En Hnx Hdn Hreg HP Hndr.
  pose proof (own_fresh _ _ _ _ Hown) as Hf.
  destruct Hown as [H1 H2 H3 H4 H5 H6].
  assert (Hnd : d ∉ ps.*1) by (intros Hin; specialize (Hf d (or_introl Hin)); lia).
  assert (Hnn : n ∉ ps.*2) by (intros Hin; specialize (Hf n (or_intror Hin)); lia).
  constructor; rewrite ?fmap_app; cbn.
  - apply NoDup_app. repeat split; auto; [set_solver | apply NoDup_singleton].
  - apply NoDup_app. repeat split; auto; [set_solver | apply NoDup_singleton].
  - intros l. rewrite Ed, elem_of_app, list_elem_of_singleton, <- H3.
    destruct (decide (l = d)) as [->|]; [rewrite lookup_insert_eq|rewrite lookup_insert_ne by done];
      naive_solver.
  - intros l. rewrite En, elem_of_app, list_elem_of_singleton, <- H4.
    destruct (decide (l = n)) as [->|]; [rewrite lookup_insert_eq|rewrite lookup_insert_ne by done];
      naive_solver.
  - intros l. rewrite !elem_of_app, !list_elem_of_singleton.
    intros [[Hl| ->]|[Hl| ->]]; [specialize (Hf l (or_introl Hl))| |specialize (Hf l (or_intror Hl))|]; lia.
  - intros j d' n' Hj. apply lookup_app_Some in Hj as [Hj|[_ Hj]].
    + destruct (H6 j d' n' Hj) as (dv' & nd' & ? & ? & ? & ? & ? & ?).
      exists dv', nd'. rewrite Ed, En, !lookup_insert_ne; [done| |].
      * intros <-. apply Hnn. apply (list_elem_of_fmap_2 snd _ (d', n)). by eapply list_elem_of_lookup_2.
      * intros <-. apply Hnd. apply (list_elem_of_fmap_2 fst _ (d, n')). by eapply list_elem_of_lookup_2.
    + apply list_lookup_singleton_Some in Hj as [_ [= <- <-]].
      exists dv, nd. rewrite Ed, En, !lookup_insert_eq. done.
Qed.

Lemma slots_insert ps x v rest :
  <[length ps := v]> (slots_of ps ++ x :: rest) = slots_of ps ++ v :: rest.
Proof.
  unfold slots_of. rewrite insert_app_r_alt; rewrite !length_fmap; [|lia].
  by rewrite Nat.sub_diag.
Qed.

Lemma slots_lookup ps x rest : (slots_of ps ++ x :: rest) !! length ps = Some x.
Proof. apply list_lookup_middle. unfold slots_of. by rewrite !length_fmap. Qed.

Lemma slots_of_snoc ps d n : slots_of (ps ++ [(d, n)]) = slots_of ps ++ [Some d].
Proof. unfold slots_of. by rewrite !fmap_app. Qed.

Lemma length_slots ps : length (slots_of ps) = length ps.
Proof. unfold slots_of. by rewrite !length_fmap. Qed.

Lemma nulls_insert i m (d : loc) :
  <[i := Some d]> (replicate (i + S m) None) = replicate i None ++ Some d :: replicate m None.
Proof.
  rewrite replicate_add, insert_app_r_alt; rewrite length_replicate; [|lia].
  by rewrite Nat.sub_diag.
Qed.

(** The outcomes of allocating [total] devices. *)
Definition new_testing_post (total : nat) (r : Z) (s : kstate) : Prop :=
  (r = 0 /\ exists ps, length ps = total /\ owns unreg with_zero_mac_gid s ps /\
                       testing_dev s = slots_of ps)
  \/ (r = - ENOMEM /\ devs s = ∅ /\ nets s = ∅ /\ testing_dev s = replicate total None)
  \/ (r <> 0 /\ devs s = ∅ /\ nets s = ∅ /\
      exists j d, (j < total)%nat /\ testing_dev s = <[j := Some d]> (replicate total None)).

Lemma wp_new_testing_loop todo ps s :
  owns unreg with_zero_mac_gid s ps ->
  testing_dev s = slots_of ps ++ replicate todo None ->
  wp (new_testing_loop todo (length ps)) (new_testing_post (length ps + todo)) s.
Proof.
  revert ps s. induction todo as [|todo IH]; intros ps s Hown Hslots.
  - apply wp_ret. left. split; [done|]. exists ps. rewrite Nat.add_0_r.
    by rewrite app_nil_r in Hslots.
  - cbn [new_testing_loop replicate] in *. unfold ib_alloc_device. ksteps.
    destruct (fate (clock s) =? 0) eqn:Hf; ksteps.
    + set (d := next_loc s). unfold set_slot. ksteps.
      case_decide as Hlt; [|rewrite Hslots, length_app, length_slots in Hlt; cbn in Hlt; lia].
      ksteps. eapply wp_mono.
      { apply (wp_create_netdev d (with_id (Z.of_nat (length ps)) zero_bluerdma_dev));
          cbn; [apply lookup_insert_eq|].
        eapply owns_fresh_net; [done|]. subst d. lia. }
      cbn. rewrite Hslots, slots_insert.
      intros r s1 (Htd & _ & _ & [(-> & Hnx & _ & _ & _ & Hdv & nd & Hnets & Hnd)
                                 | (Hr & Hnx & Hnets & _ & d' & Hdv & Hib)]);
        rewrite insert_insert_eq in Hdv.
      * ksteps. assert (Hown1 : owns unreg with_zero_mac_gid s1 (ps ++ [(d, d + 1)])).
        { eapply owns_snoc; eauto using fresh_dev_gid; [lia | by destruct Hnd]. }
        replace (S (length ps)) with (length (ps ++ [(d, d + 1)]))
          by (rewrite length_app; cbn; lia).
        replace (length ps + S todo)%nat with (length (ps ++ [(d, (d + 1)%Z)]) + todo)%nat
          by (rewrite length_app; cbn; lia).
        apply IH; [done|]. by rewrite Htd, slots_of_snoc, <- app_assoc.
      * rewrite (proj2 (Z.eqb_neq r 0) Hr). ksteps. rewrite Hdv.
        eexists; split; [apply lookup_insert_eq|]. rewrite Hib. split; [done|]. ksteps.
        eapply wp_mono; [apply (wp_unwind_testing with_zero_mac_gid ps
                                 (Some d :: replicate todo None)); [|done]|].
        -- eapply owns_ext; [done| | |]; cbn; [|done|lia].
           rewrite delete_insert_id; [done|]. eapply owns_fresh_dev; [done|]. lia.
        -- intros _ s2 [Hown2 Hslots2]. ksteps. right; right.
           apply owns_nil in Hown2 as [-> ->]. repeat split; auto.
           exists (length ps), d. split; [lia|]. by rewrite Hslots2, nulls_insert.
    + eapply wp_mono; [apply (wp_unwind_testing with_zero_mac_gid ps
                                 (replicate (S todo) None));
                       [by eapply owns_ext | done] |].
      cbn. intros _ s2 [Hown2 Hslots2]. ksteps. right; left.
      apply owns_nil in Hown2 as [-> ->]. repeat split; auto.
      by rewrite Hslots2, replicate_add.
Qed.

Lemma wp_free_testing_loop P i ps m s :
  owns unreg P s ps ->
  testing_dev s = replicate i None ++ slots_of ps ++ replicate m None ->
  wp (free_testing_loop (length ps + m) i)
     (fun _ s' => owns unreg P s' [] /\ testing_dev s' = replicate (i + length ps + m) None) s.
Proof.
  revert i m s. induction ps as [|[d n] ps IH]; intros i m s Hown Hslots; cbn [length Nat.add].
  - revert i s Hown Hslots. induction m as [|m IHm]; intros i s Hown Hslots; cbn.
    + apply wp_ret. split; [done|]. cbn in Hslots. by rewrite app_nil_r, !Nat.add_0_r in *.
    + unfold get_slot. ksteps. exists None. cbn in Hslots. rewrite Hslots.
      split; [apply list_lookup_middle; by rewrite length_replicate|]. cbn. ksteps.
      replace (i + 0 + S m)%nat with (S i + 0 + m)%nat by lia.
      apply IHm; [done|]. rewrite Hslots. apply nulls_shift.
  - assert (Hi : testing_dev s !! i = Some (Some d)).
    { rewrite Hslots. apply list_lookup_middle. by rewrite length_replicate. }
    cbn [free_testing_loop]. unfold get_slot at 1. ksteps.
    eapply wp_mono; [by apply (wp_drop_slot P i [] d n ps)|].
    cbn. intros _ s1 [Hown1 Hslots1].
    replace (i + S (length ps) + m)%nat with (S i + length ps + m)%nat by lia.
    apply IH; [done|]. rewrite Hslots1, Hslots.
    rewrite insert_app_r_alt; rewrite length_replicate; [|lia]. rewrite Nat.sub_diag.
    apply nulls_shift.
Qed.

Lemma owns_reg_ext R R' P s ps :
  (forall j, (j < length ps)%nat -> R' j = R j) -> owns R P s ps -> owns R' P s ps.
Proof.
  intros HR [H1 H2 H3 H4 H5 H6]. constructor; auto.
  intros j d n Hj. rewrite HR by (by eapply lookup_lt_Some). by apply H6.
Qed.

(** Changing one device in place. *)
Lemma owns_update R R' P s s' ps j d n dv' :
  owns R P s ps -> ps !! j = Some (d, n) ->
  devs s' = <[d := dv']> (devs s) -> nets s' = nets s -> next_loc s' = next_loc s ->
  netdev dv' = Some n -> P dv' -> R' j = registered (ibdev dv') ->
  (forall j', j' <> j -> R' j' = R j') ->
  owns R' P s' ps.
Proof.
  intros Hown Hj Ed En Enx Hn HP Hrj HR. destruct Hown as [H1 H2 H3 H4 H5 H6].
  destruct (H6 j d n Hj) as (dv & nd & Hd & Hdn & _ & _ & Hnd & Hndr).
  constructor; rewrite ?En, ?Enx; auto.
  - intros l. rewrite Ed, <- H3. destruct (decide (l = d)) as [->|].
    + rewrite lookup_insert_eq, Hd. split; by eauto.
    + by rewrite lookup_insert_ne.
  - intros j' d' n' Hj'. destruct (decide (j' = j)) as [->|Hne].
    + rewrite Hj in Hj'. injection Hj' as <- <-. exists dv', nd.
      rewrite Ed, lookup_insert_eq. repeat split; auto.
    + destruct (H6 j' d' n' Hj') as (dv2 & nd2 & ? & ? & ? & ? & ? & ?).
      exists dv2, nd2. rewrite Ed, lookup_insert_ne, HR; [done..|].
      intros <-. apply Hne. apply (NoDup_lookup ps.*1 _ _ d); auto.
      * by rewrite list_lookup_fmap, Hj'.
      * by rewrite list_lookup_fmap, Hj.
Qed.

(** [P] says nothing of the embedded [ib_device] and the sysfs attributes. *)
Class Stable (P : bluerdma_dev -> Prop) : Prop := {
  stable_ibdev : forall dv i, P dv -> P (with_ibdev i dv);
  stable_attrs : forall dv g m, P dv -> P (with_attrs g m dv);
}.

#[export] Instance any_dev_stable : Stable any_dev.
Proof. by constructor. Qed.

#[export] Instance zero_mac_gid_stable : Stable with_zero_mac_gid.
Proof.
  constructor; [intros dv i [Hok Hv] | intros dv g m [Hok Hv]];
    (split; [by destruct Hok | done]).
Qed.

(** [R] with entry [j] set to [b]. *)
Definition set_reg (j : nat) (b : bool) (R : nat -> bool) : nat -> bool :=
  fun j' => if Nat.eqb j' j then b else R j'.

Lemma wp_ibdev_upd R P `{!Stable P} s ps j d n f :
  owns R P s ps -> ps !! j = Some (d, n) ->
  wp (ibdev_upd d f)
     (fun _ s' => exists dv, devs s !! d = Some dv /\
        owns (set_reg j (registered (f (ibdev dv))) R) P s' ps /\
        s' = k_devs (<[d := with_ibdev (f (ibdev dv)) dv]> (devs s)) s) s.
Proof.
  intros Hown Hj. destruct (own_pair _ _ _ _ Hown j d n Hj) as
    (dv & nd & Hd & Hdn & Hreg & HP & Hnd & Hndr).
  ksteps. split; [|by destruct s].
  eapply (owns_update R _ P s _ ps j d n (with_ibdev (f (ibdev dv)) dv));
    eauto; [by apply stable_ibdev| |]; unfold set_reg.
  - by rewrite Nat.eqb_refl.
  - intros j' Hj'. by destruct (Nat.eqb_spec j' j).
Qed.

(** Registering device [j]. *)
Lemma wp_ib_register P `{!Stable P} R s ps j d n :
  owns R P s ps -> ps !! j = Some (d, n) -> R j = false ->
  wp (ib_register_device d)
     (fun r s' => testing_dev s' = testing_dev s /\
                  owns (set_reg j (r =? 0) R) P s' ps) s.
Proof.
  intros Hown Hj HR. destruct (own_pair _ _ _ _ Hown j d n Hj) as
    (dv & nd & Hd & Hdn & Hreg & HP & Hnd & Hndr). rewrite HR in Hreg.
  unfold ib_register_device. ksteps. 
  assert (Hown1 : owns R P (k_tick s) ps) by (by eapply owns_ext).
  destruct (fate (clock s) =? 0) eqn:Hf.
  - eapply wp_mono; [by apply (wp_ibdev_upd R P (k_tick s) ps j d n)|].
    cbn. intros _ s' (dv' & _ & Hown' & ->). ksteps. rewrite Hf. split; [done|].
    by eapply owns_ext.
  - ksteps. rewrite Hf. split; [done|]. eapply owns_reg_ext; [|done].
    intros j' _. unfold set_reg. by destruct (Nat.eqb_spec j' j) as [->|].
Qed.

(** Unregistering device [j]. *)
Lemma wp_ib_unregister P `{!Stable P} R s ps j d n :
  owns R P s ps -> ps !! j = Some (d, n) -> R j = true ->
  wp (ib_unregister_device d)
     (fun _ s' => testing_dev s' = testing_dev s /\ owns (set_reg j false R) P s' ps) s.
Proof.
  intros Hown Hj HR. destruct (own_pair _ _ _ _ Hown j d n Hj) as
    (dv & nd & Hd & Hdn & Hreg & HP & Hnd & Hndr). rewrite HR in Hreg.
  unfold ib_unregister_device. kstep. kstep. kfound. kstep. rewrite Hreg.
  eapply wp_mono; [by eapply (wp_ibdev_upd R P s ps j d n)|].
  cbn. intros _ s' (dv' & _ & Hown' & ->). done.
Qed.

(** An update of the embedded device that keeps its registration. *)
Lemma wp_ibdev_keep P `{!Stable P} R s ps j d n f :
  owns R P s ps -> ps !! j = Some (d, n) ->
  (forall i, registered (f i) = registered i) ->
  wp (ibdev_upd d f)
     (fun _ s' => testing_dev s' = testing_dev s /\ owns R P s' ps) s.
Proof.
  intros Hown Hj Hf. destruct (own_pair _ _ _ _ Hown j d n Hj) as
    (dv & nd & Hd & Hdn & Hreg & HP & Hnd & Hndr).
  eapply wp_mono; [by eapply (wp_ibdev_upd R P s ps j d n)|].
  cbn. intros _ s' (dv' & Hdv' & Hown' & ->). split; [done|].
  eapply owns_reg_ext; [|done]. intros j' _. unfold set_reg.
  rewrite Hd in Hdv'. injection Hdv' as <-. rewrite Hf.
  by destruct (Nat.eqb_spec j' j) as [->|].
Qed.

(** [owns] under the calls that leave the registrations alone.  [quietly m s ps]:
    [m] runs, keeps the slots, and every ownership of [ps] survives it. *)
Definition quietly {A} R P ps (m : M kstate A) (s : kstate) : Prop :=
  wp m (fun _ s' => testing_dev s' = testing_dev s /\ owns R P s' ps) s.

Lemma quietly_fallible P `{!Stable P} R s ps j d n f :
  owns R P s ps -> ps !! j = Some (d, n) ->
  (forall i, registered (f i) = registered i) ->
  quietly R P ps (r ← next_fate; when (r =? 0) (ibdev_upd d f);; mret r) s.
Proof.
  intros Hown Hj Hf. unfold quietly. ksteps.
  assert (Hown1 : owns R P (k_tick s) ps) by (by eapply owns_ext).
  destruct (fate (clock s) =? 0).
  - eapply wp_mono; [by eapply (wp_ibdev_keep P R (k_tick s) ps j d n)|].
    cbn. intros _ s' [Htd Hown']. by ksteps.
  - by ksteps.
Qed.

Lemma quietly_sysfs_attrs P `{!Stable P} R s ps j d n :
  owns R P s ps -> ps !! j = Some (d, n) ->
  quietly R P ps (bluerdma_init_sysfs_attrs (DevAt d)) s.
Proof.
  intros Hown Hj. destruct (own_pair _ _ _ _ Hown j d n Hj) as
    (dv & nd & Hd & Hdn & Hreg & HP & Hnd & Hndr).
  unfold quietly, bluerdma_init_sysfs_attrs. ksteps. split; [done|].
  eapply (owns_update R R P s _ ps j d n); eauto. by apply stable_attrs.
Qed.

Lemma wp_get_slot ps j d n Q s :
  testing_dev s = slots_of ps -> ps !! j = Some (d, n) ->
  Q (Some d) s -> wp (get_slot j) Q s.
Proof.
  intros Htd Hj HQ. unfold get_slot. ksteps. rewrite Htd. unfold slots_of.
  rewrite !list_lookup_fmap, Hj. by ksteps.
Qed.

Lemma wp_unregister_down P `{!Stable P} ps i s :
  (i <= length ps)%nat -> owns (fun j => (j <? i)%nat) P s ps ->
  testing_dev s = slots_of ps ->
  wp (unregister_down i)
     (fun _ s' => owns unreg P s' ps /\ testing_dev s' = slots_of ps) s.
Proof.
  revert s. induction i as [|i IH]; intros s Hle Hown Htd; cbn [unregister_down].
  - apply wp_ret. by split.
  - destruct (lookup_lt_is_Some_2 ps i) as [[d n] Hi]; [lia|].
    kstep. eapply wp_get_slot; eauto. ksteps.
    eapply wp_mono; [eapply (wp_ib_unregister P _ s ps i d n); eauto; apply Nat.ltb_lt; lia|].
    cbv beta. intros _ s' [Htd' Hown']. apply IH; [lia| |congruence].
    eapply owns_reg_ext; [|done]. intros j _. unfold set_reg.
    destruct (Nat.eqb_spec j i); [subst; apply Nat.ltb_irrefl|].
    apply Bool.eq_iff_eq_true. rewrite !Nat.ltb_lt. lia.
Qed.

Lemma wp_free_testing P ps s :
  length ps = N_TESTING -> owns unreg P s ps -> testing_dev s = slots_of ps ->
  wp bluerdma_free_testing (fun _ s' => clean s') s.
Proof.
  intros Hl Hown Htd. unfold bluerdma_free_testing. rewrite <- Hl.
  rewrite <- (Nat.add_0_r (length ps)).
  eapply wp_mono; [apply (wp_free_testing_loop P 0 ps 0 s); [done|]|].
  - cbn. by rewrite app_nil_r.
  - cbn. intros _ s' [Hown' Htd']. apply owns_nil in Hown' as [? ?].
    constructor; auto. by rewrite Htd', Nat.add_0_r, Hl.
Qed.

Lemma wp_device_add_loop P `{!Stable P} ps todo i s :
  length ps = N_TESTING -> (i + todo = length ps)%nat ->
  owns (fun j => (j <? i)%nat) P s ps -> testing_dev s = slots_of ps ->
  wp (device_add_loop todo i)
     (fun r s' => r = 0 /\ loaded P s' \/ r <> 0 /\ clean s') s.
Proof.
  intros Hl. revert i s. induction todo as [|todo IH]; intros i s Hi Hown Htd;
    cbn [device_add_loop].
  - apply wp_ret. left. split; [done|]. exists ps. split; [done|]. split; [|done].
    eapply owns_reg_ext; [|done]. intros j Hj. symmetry. apply Nat.ltb_lt. lia.
  - destruct (lookup_lt_is_Some_2 ps i) as [[d n] Hd]; [lia|].
    kstep. eapply wp_get_slot; eauto. do 2 kstep. exists d. split; [done|]. kstep.
    eapply wp_mono; [by eapply (wp_ibdev_keep P _ s ps i d n)|].
    cbv beta. intros _ s1 [Htd1 Hown1]. kstep.
    eapply wp_mono; [by eapply (quietly_sysfs_attrs P _ s1 ps i d n)|].
    cbv beta. intros _ s2 [Htd2 Hown2]. kstep.
    eapply wp_mono; [eapply (wp_ib_register P _ s2 ps i d n); eauto; apply Nat.ltb_irrefl|].
    cbv beta. intros r s3 [Htd3 Hown3]. destruct (r =? 0) eqn:Hr; cbn [negb].
    + assert (Hown3' : owns (fun j => (j <? S i)%nat) P s3 ps).
      { eapply owns_reg_ext; [|done]. intros j _. unfold set_reg.
        destruct (Nat.eqb_spec j i); apply Bool.eq_iff_eq_true; rewrite !Nat.ltb_lt; [|lia].
        split; [done|lia]. }
      kstep. eapply wp_mono; [by eapply (quietly_fallible P _ s3 ps i d n)|].
      cbv beta. intros _ s4 [Htd4 Hown4].
      kstep. eapply wp_mono; [by eapply (quietly_fallible P _ s4 ps i d n)|].
      cbv beta. intros _ s5 [Htd5 Hown5].
      destruct (own_pair _ _ _ _ Hown5 i d n Hd) as (dv & nd & Hdv & Hdn & _).
      kstep. apply wp_dev_get. exists dv. split; [done|]. rewrite Hdn.
      kstep. eapply wp_mono; [by eapply (quietly_fallible P _ s5 ps i d n)|].
      cbv beta. intros _ s6 [Htd6 Hown6]. apply IH; [lia|done|congruence].
    + assert (Hown3' : owns (fun j => (j <? i)%nat) P s3 ps).
      { eapply owns_reg_ext; [|done]. intros j _. unfold set_reg.
        destruct (Nat.eqb_spec j i); [subst; apply Nat.ltb_irrefl|done]. }
      kstep. eapply wp_mono; [eapply (wp_unregister_down P ps i s3); [lia|done|congruence]|].
      cbv beta. intros _ s4 [Hown4 Htd4].
      kstep. eapply wp_mono; [by apply (wp_free_testing P ps)|].
      cbv beta. intros _ s5 Hclean. kstep. right. split; [|done]. by apply Z.eqb_neq.
Qed.

Lemma wp_device_remove_loop P `{!Stable P} ps todo i s :
  (i + todo = length ps)%nat ->
  owns (fun j => (i <=? j)%nat) P s ps -> testing_dev s = slots_of ps ->
  wp (device_remove_loop todo i)
     (fun _ s' => owns unreg P s' ps /\ testing_dev s' = slots_of ps) s.
Proof.
  revert i s. induction todo as [|todo IH]; intros i s Hi Hown Htd; cbn [device_remove_loop].
  - apply wp_ret. split; [|done]. eapply owns_reg_ext; [|done].
    intros j Hj. symmetry. apply Nat.leb_gt. lia.
  - destruct (lookup_lt_is_Some_2 ps i) as [[d n] Hd]; [lia|].
    kstep. eapply wp_get_slot; eauto. kstep. kstep.
    eapply wp_mono; [by eapply (wp_ibdev_keep P _ s ps i d n)|].
    cbv beta. intros _ s1 [Htd1 Hown1]. kstep.
    eapply wp_mono; [by eapply (wp_ibdev_keep P _ s1 ps i d n)|].
    cbv beta. intros _ s2 [Htd2 Hown2].
    eapply wp_mono; [eapply (wp_ib_unregister P _ s2 ps i d n); eauto; apply Nat.leb_refl|].
    cbv beta. intros _ s3 [Htd3 Hown3]. apply IH; [lia| |congruence].
    eapply owns_reg_ext; [|done]. intros j _. unfold set_reg.
    destruct (Nat.eqb_spec j i); [subst; apply Nat.leb_gt; lia|].
    apply Bool.eq_iff_eq_true. rewrite !Nat.leb_le. lia.
Qed.

(** The outcome of a probe from a clean state. *)
Definition probe_post (r : Z) (s : kstate) : Prop :=
  (r = 0 /\ loaded with_zero_mac_gid s) \/ (r <> 0 /\ clean s) \/ (r <> 0 /\ dangling s).

Lemma wp_probe s : clean s -> wp bluerdma_probe probe_post s.
Proof.
  intros [Hdv Hnt Htd]. unfold bluerdma_probe, bluerdma_ib_device_add. kstep. kstep.
  eapply wp_mono; [apply (wp_new_testing_loop N_TESTING [] s); [by apply owns_nil|done]|].
  cbv beta. unfold probe_post.
  intros r s1 [(-> & ps & Hl & Hown & Hs) | [(-> & Hd & Hn & Hs) | (Hr & Hd & Hn & Hs)]].
  - cbn [Z.eqb negb]. eapply wp_mono;
      [apply (wp_device_add_loop with_zero_mac_gid ps N_TESTING 0); [done..| |done]|].
    + eapply owns_reg_ext; [|done]. done.
    + cbv beta. intros r' s' [[-> Hld]|[Hr' Hc]].
      * repeat kstep. auto.
      * rewrite (proj2 (Z.eqb_neq r' 0) Hr'). repeat kstep. auto.
  - repeat kstep. right; left. by repeat constructor.
  - rewrite (proj2 (Z.eqb_neq r 0) Hr). repeat kstep.
    rewrite (proj2 (Z.eqb_neq r 0) Hr). repeat kstep. right; right. by repeat constructor.
Qed.

Lemma wp_exit P `{!Stable P} s :
  loaded P s -> wp bluerdma_exit_module (fun _ s' => clean s') s.
Proof.
  intros (ps & Hl & Hown & Htd).
  unfold bluerdma_exit_module, bluerdma_remove, bluerdma_ib_device_remove. kstep.
  eapply wp_mono; [apply (wp_device_remove_loop P ps N_TESTING 0); [done| |done]|].
  - eapply owns_reg_ext; [|done]. done.
  - cbv beta. intros _ s1 [Hown1 Htd1]. by apply (wp_free_testing P ps).
Qed.

End lifecycle.

Section lifecycle_theorems.
Context {K : KernelEnv}.

Lemma dangling_exit_faults s : dangling s -> bluerdma_exit_module s = Fault UseAfterFree.
Proof.
  destruct s as [dm nm sk mr td nx ck sp]. intros [Hd Hn (j & d & Hj & Ht)]. cbn in *. subst.
  unfold N_TESTING in *. destruct j as [|[|j]]; [| |lia]; cbn.
  all: unfold bluerdma_exit_module, bluerdma_remove, bluerdma_ib_device_remove; cbn.
  all: reflexivity.
Qed.

(** C38: From a state in which nothing of the driver exists, [bluerdma_probe]
    never faults, whatever the kernel calls return.  When it returns 0 both test
    devices are allocated, registered with the RDMA core, and own a registered
    network interface.  When it fails, everything allocated on the way has been
    released: no device, no interface, and [testing_dev] holds NULL except, at
    worst, one stale pointer. *)
Theorem probe_all_or_nothing s (Hs : clean s) :
  exists r s', bluerdma_probe s = Done r s' /\
    ((r = 0 /\ loaded any_dev s') \/ (r <> 0 /\ clean s') \/ (r <> 0 /\ dangling s')).
Proof.
  destruct (proj1 (wp_run _ _ _) (wp_probe s Hs)) as (r & s' & -> & Hpost).
  exists r, s'. split; [done|]. destruct Hpost as [(-> & ps & Hl & Hown & Ht)|]; [|by auto].
  left. split; [done|]. exists ps. split; [done|]. split; [|done].
  destruct Hown as [H1 H2 H3 H4 H5 H6]. constructor; auto.
  intros j d n Hj. destruct (H6 j d n Hj) as (dv & nd & ? & ? & ? & ? & ? & ?).
  by exists dv, nd.
Qed.

(** A load that succeeded can be undone: [bluerdma_exit_module] runs without
    touching freed memory, frees every device and interface exactly once and
    leaves the state a first load starts from. *)
Theorem unload_after_load s s1 (Hs : clean s) (Hload : bluerdma_probe s = Done 0 s1) :
  exists s2, bluerdma_exit_module s1 = Done tt s2 /\ clean s2.
Proof.
  destruct (proj1 (wp_run _ _ _) (wp_probe s Hs)) as (r & s' & Hrun & Hpost).
  rewrite Hload in Hrun. injection Hrun as <- <-.
  destruct Hpost as [[_ Hld]|[[? _]|[? _]]]; [|done..].
  destruct (proj1 (wp_run _ _ _) (wp_exit _ _ Hld)) as ([] & s2 & -> & Hc). by exists s2.
Qed.

(** When the network interface of the first device cannot be allocated, the
    module still loads ([bluerdma_init_module] returns 0) with a stale pointer in
    [testing_dev], and unloading it dereferences the freed device. *)
Theorem failed_load_unload_use_after_free s (Hs : clean s)
    (Hdev : fate (S (clock s)) = 0) (Hnet : fate (S (S (clock s))) <> 0) :
  exists s1, bluerdma_init_module s = Done 0 s1 /\ dangling s1 /\
             bluerdma_exit_module s1 = Fault UseAfterFree.
Proof.
  destruct s as [dm nm sk mr td nx ck sp]. destruct Hs as [Hd Hn Ht]. cbn in *. subst.
  apply Z.eqb_neq in Hnet.
  assert (wp bluerdma_init_module (fun r s1 => r = 0 /\ dangling s1)
            (MkK ∅ ∅ sk mr (replicate N_TESTING None) nx ck sp)) as Hwp.
  { unfold bluerdma_init_module, bluerdma_probe, bluerdma_ib_device_add,
      bluerdma_new_testing, N_TESTING. cbn [new_testing_loop].
    unfold ib_alloc_device, set_slot. ksteps. rewrite Hdev. ksteps.
    case_decide as Hlt; [|cbn in Hlt; lia]. ksteps. unfold bluerdma_create_netdev. ksteps.
    change (negb (- ENOMEM =? 0)) with true. cbn iota. ksteps. split; [done|]. ksteps.
    change (negb (- ENOMEM =? 0)) with true. ksteps. split; [done|].
    rewrite delete_insert_eq, delete_empty. constructor; [done..|].
    exists 0%nat, nx. split; [unfold N_TESTING; lia|done]. }
  destruct (proj1 (wp_run _ _ _) Hwp) as (r & s1 & Hrun & -> & Hdang).
  exists s1. split; [exact Hrun|]. auto using dangling_exit_faults.
Qed.

(** After a successful load every device reports the same default GID at
    index 0, the EUI-64 GID of the all-zero MAC address, whatever addresses
    [eth_hw_addr_random] gave to the interfaces. *)
Theorem default_gid_ignores_mac s s1 (Hs : clean s) (Hload : bluerdma_probe s = Done 0 s1) i d :
  testing_dev s1 !! i = Some (Some d) ->
  exists dv, devs s1 !! d = Some dv /\ gid_view (gid_table dv) 0 = Some zero_mac_gid.
Proof.
  intros Hi. destruct (proj1 (wp_run _ _ _) (wp_probe s Hs)) as (r & s' & Hrun & Hpost).
  rewrite Hload in Hrun. injection Hrun as <- <-.
  destruct Hpost as [(_ & ps & _ & Hown & Ht)|[[? _]|[? _]]]; [|done..].
  rewrite Ht in Hi. unfold slots_of in Hi. rewrite !list_lookup_fmap in Hi.
  destruct (ps !! i) as [[d' n]|] eqn:Hps; cbn in Hi; [|done]. injection Hi as ->.
  destruct (own_pair _ _ _ _ Hown i d n Hps) as (dv & _ & Hd & _ & _ & [_ Hv] & _).
  exists dv. split; [done|]. by rewrite <- Hv.
Qed.

End lifecycle_theorems.

(** ** Witnesses *)

Lemma kernel_boot_clean : clean kernel_boot.
Proof. by constructor. Qed.

(** The state after a load in which every call succeeds. *)
Definition booted : kstate :=
  match @bluerdma_probe quiet_env kernel_boot with Done _ s => s | Fault _ => kernel_boot end.

Lemma booted_load : @bluerdma_probe quiet_env kernel_boot = Done 0 booted.
Proof. vm_compute. reflexivity. Qed.

(** An environment in which only the fallible call number [n] fails. *)
Definition failing_env (n : nat) : KernelEnv :=
  Build_KernelEnv (fun k => if Nat.eqb k n then 1 else 0) (@rand_mac quiet_env) 4
    (@ib_mtu_int_to_enum quiet_env) (@ib_get_eth_speed quiet_env) 0 4096.

Lemma probe_all_or_nothing_witness :
  exists r s', @bluerdma_probe (failing_env 1) kernel_boot = Done r s' /\ r <> 0.
Proof.
  destruct (@probe_all_or_nothing (failing_env 1) kernel_boot kernel_boot_clean)
    as (r & s' & Hrun & _).
  exists r, s'. split; [exact Hrun|]. vm_compute in Hrun. injection Hrun as <- _. lia.
Defined.

Lemma unload_after_load_witness :
  exists s2, bluerdma_exit_module booted = Done tt s2 /\ clean s2.
Proof.
  exact (@unload_after_load quiet_env kernel_boot booted kernel_boot_clean booted_load).
Defined.

Lemma failed_load_unload_use_after_free_witness :
  exists s1, @bluerdma_init_module (failing_env 2) kernel_boot = Done 0 s1 /\ dangling s1 /\
             bluerdma_exit_module s1 = Fault UseAfterFree.
Proof.
  apply (@failed_load_unload_use_after_free (failing_env 2) kernel_boot kernel_boot_clean);
    [reflexivity | vm_compute; discriminate].
Defined.

Lemma default_gid_ignores_mac_witness :
  exists dv, devs booted !! 3 = Some dv /\ gid_view (gid_table dv) 0 = Some zero_mac_gid.
Proof.
  apply (@default_gid_ignores_mac quiet_env kernel_boot booted kernel_boot_clean booted_load
           1 3).
  vm_compute. reflexivity.
Defined.
