(* ===== verification/Util.v ===== *)
(** * ccan/ilog.h, ccan/ilog.c, util/util.h and util/util.c

    Integer logarithms, alignment, masks and bit fields, the xorshift generator,
    and the small wrappers around libc.  [unsigned long] and [uint64_t] are 64
    bits wide. *)

From stdpp Require Import base list strings numbers.
From Stdlib Require Import ZArith Lia.
From S2P Require Import Prelude.

#[local] Open Scope Z_scope.
#[local] Open Scope cint_scope.

(** ** ccan/ilog.c *)

Definition DEBRUIJN_IDX32 : list Z :=
  [ 0;  1; 28;  2; 29; 14; 24;  3; 30; 22; 20; 15; 25; 17;  4;  8;
   31; 27; 13; 23; 21; 19; 16;  7; 26; 12; 18;  6; 11;  5; 10;  9].

Definition DEBRUIJN_IDX64 : list Z :=
  [ 0;  1;  2;  7;  3; 13;  8; 19;  4; 25; 14; 28;  9; 34; 20; 40;
    5; 17; 26; 38; 15; 46; 29; 48; 10; 31; 35; 54; 21; 50; 41; 57;
   63;  6; 12; 18; 24; 27; 33; 39; 16; 37; 45; 47; 30; 53; 49; 56;
   62; 11; 23; 32; 36; 44; 52; 55; 61; 22; 43; 51; 60; 42; 59; 58].

(** [_v |= _v >> k] for each [k] in turn. *)
Definition smear (ks : list Z) (v : Z) : Z :=
  fold_left (fun v k => Z.lor v (Z.shiftr v k)) ks v.

(** The de Bruijn versions (the default build). *)
Definition ilog32 (v : Z) : Z :=
  let ret := Z.b2z (0 <? v) in
  let v := smear [1; 2; 4; 8; 16] v in
  let v := Z.shiftr v 1 +{32} 1 in
  ret + nth (Z.to_nat (Z.land (Z.shiftr (v *{32} 0x77CB531) 27) 0x1F)) DEBRUIJN_IDX32 0.

Definition ilog32_nz (v : Z) : Z := ilog32 v.

Definition ilog64 (v : Z) : Z :=
  let ret := Z.b2z (0 <? v) in
  let v := smear [1; 2; 4; 8; 16; 32] v in
  let v := Z.shiftr v 1 +{64} 1 in
  ret + nth (Z.to_nat (Z.land (Z.shiftr (v *{64} 0x218A392CD3D5DBF) 58) 0x3F)) DEBRUIJN_IDX64 0.

Definition ilog64_nz (v : Z) : Z := ilog64 v.

(** The versions for a 32-bit [long]: the 64-bit value is cut to its upper or
    lower half first. *)
Definition ilog64_split (v : Z) : Z :=
  let ret := Z.b2z (0 <? v) in
  let m := Z.shiftl (Z.b2z (0xFFFFFFFF <? v)) 5 in
  let w := wrap 32 (Z.shiftr v m) in
  let ret := Z.lor ret m in
  let w := smear [1; 2; 4; 8; 16] w in
  let w := Z.shiftr w 1 +{32} 1 in
  ret + nth (Z.to_nat (Z.land (Z.shiftr (w *{32} 0x77CB531) 27) 0x1F)) DEBRUIJN_IDX32 0.

(** One step of the versions without a table ([ILOG_NODEBRUIJN]):
    [m = (v > lim) << sh; v >>= m; ret |= m]. *)
Definition halve (lim sh : Z) (p : Z * Z) : Z * Z :=
  let '(v, ret) := p in
  let m := Z.shiftl (Z.b2z (lim <? v)) sh in
  (Z.shiftr v m, Z.lor ret m).

Definition ilog32_nodebruijn (v : Z) : Z :=
  let p := (v, Z.b2z (0 <? v)) in
  let p := halve 0xFFFF 4 p in
  let p := halve 0xFF 3 p in
  let p := halve 0xF 2 p in
  let p := halve 3 1 p in
  snd p + Z.b2z (1 <? fst p).

Definition ilog64_nodebruijn (v : Z) : Z :=
  let ret := Z.b2z (0 <? v) in
  let m := Z.shiftl (Z.b2z (0xFFFFFFFF <? v)) 5 in
  let p := (wrap 32 (Z.shiftr v m), Z.lor ret m) in
  let p := halve 0xFFFF 4 p in
  let p := halve 0xFF 3 p in
  let p := halve 0xF 2 p in
  let p := halve 3 1 p in
  snd p + Z.b2z (1 <? fst p).

(** ** ccan/ilog.h

    The names [ilog32] and [ilog64] are macros in every file that includes ilog.h; the
    functions above are what they expand to only without the compiler's builtins. *)

(** What the preprocessor decides by: the widths of [int] and [long], the builtins the
    compiler has, and [ILOG_NODEBRUIJN]. *)
Record ilog_config := MkIlogConfig {
  int_bits : Z; long_bits : Z;
  HAVE_BUILTIN_CLZ : bool; HAVE_BUILTIN_CLZL : bool; HAVE_BUILTIN_CLZLL : bool;
  ILOG_NODEBRUIJN : bool
}.

(** buildlib/config.h.in on a machine with a 64-bit [long]. *)
Definition config_h : ilog_config := MkIlogConfig 32 64 true true false false.

(** [__builtin_clz] and its siblings on a word of [w] bits: the number of leading zeros.
    The result for 0 is undefined; [u] stands for whatever the compiler produces there. *)
Definition builtin_clz (w u v : Z) : Z :=
  if wrap w v =? 0 then u else w - 1 - Z.log2 (wrap w v).

Definition INT_MAX (c : ilog_config) : Z := 2 ^ (int_bits c - 1) - 1.
Definition LONG_MAX (c : ilog_config) : Z := 2 ^ (long_bits c - 1) - 1.

Definition builtin_ilog32_nz (c : ilog_config) (u : Z) : option (Z -> Z) :=
  if (2147483647 <=? INT_MAX c) && HAVE_BUILTIN_CLZ c then
    Some (fun v => int_bits c - builtin_clz (int_bits c) u v)
  else if (2147483647 <=? LONG_MAX c) && HAVE_BUILTIN_CLZL c then
    Some (fun v => int_bits c - builtin_clz (long_bits c) u v)
  else None.

Definition builtin_ilog64_nz (c : ilog_config) (u : Z) : option (Z -> Z) :=
  if (9223372036854775807 <=? INT_MAX c) && HAVE_BUILTIN_CLZ c then
    Some (fun v => int_bits c - builtin_clz (int_bits c) u v)
  else if (9223372036854775807 <=? LONG_MAX c) && HAVE_BUILTIN_CLZL c then
    Some (fun v => long_bits c - builtin_clz (long_bits c) u v)
  else if HAVE_BUILTIN_CLZLL c then Some (fun v => 64 - builtin_clz 64 u v)
  else None.

(** A value used as a condition. *)
Definition truth (v : Z) : bool := negb (v =? 0).

Definition STATIC_ILOG0 (v : Z) : Z := Z.b2z (truth v).
Definition STATIC_ILOG1 (v : Z) : Z := if truth (Z.land v 0x2) then 2 else STATIC_ILOG0 v.
Definition STATIC_ILOG2 (v : Z) : Z :=
  if truth (Z.land v 0xC) then 2 + STATIC_ILOG1 (Z.shiftr v 2) else STATIC_ILOG1 v.
Definition STATIC_ILOG3 (v : Z) : Z :=
  if truth (Z.land v 0xF0) then 4 + STATIC_ILOG2 (Z.shiftr v 4) else STATIC_ILOG2 v.
Definition STATIC_ILOG4 (v : Z) : Z :=
  if truth (Z.land v 0xFF00) then 8 + STATIC_ILOG3 (Z.shiftr v 8) else STATIC_ILOG3 v.
Definition STATIC_ILOG5 (v : Z) : Z :=
  if truth (Z.land v 0xFFFF0000) then 16 + STATIC_ILOG4 (Z.shiftr v 16) else STATIC_ILOG4 v.
Definition STATIC_ILOG6 (v : Z) : Z :=
  if truth (Z.land v 0xFFFFFFFF00000000) then 32 + STATIC_ILOG5 (Z.shiftr v 32) else STATIC_ILOG5 v.
Definition STATIC_ILOG_32 (v : Z) : Z := STATIC_ILOG5 (wrap 32 v).
Definition STATIC_ILOG_64 (v : Z) : Z := STATIC_ILOG6 (wrap 64 v).

(** The functions ilog.c compiles to. *)
Definition ilog32_function (c : ilog_config) (v : Z) : Z :=
  if ILOG_NODEBRUIJN c then ilog32_nodebruijn v else ilog32 v.
Definition ilog64_function (c : ilog_config) (v : Z) : Z :=
  if ILOG_NODEBRUIJN c then ilog64_nodebruijn v
  else if LONG_MAX c <? 9223372036854775807 then ilog64_split v else ilog64 v.

(** What the names expand to; [const] is [IS_COMPILE_CONSTANT] of the argument. *)
Definition ilog32_macro (c : ilog_config) (u : Z) (const : bool) (v : Z) : Z :=
  match builtin_ilog32_nz c u with
  | Some f => Z.land (f v) (- Z.b2z (truth v))
  | None => if const then STATIC_ILOG_32 v else ilog32_function c v
  end.
Definition ilog64_macro (c : ilog_config) (u : Z) (const : bool) (v : Z) : Z :=
  match builtin_ilog64_nz c u with
  | Some f => Z.land (f v) (- Z.b2z (truth v))
  | None => if const then STATIC_ILOG_64 v else ilog64_function c v
  end.

Definition ilog32_nz_macro (c : ilog_config) (u : Z) (const : bool) (v : Z) : Z :=
  match builtin_ilog32_nz c u with
  | Some f => f v
  | None => ilog32_macro c u const v
  end.
Definition ilog64_nz_macro (c : ilog_config) (u : Z) (const : bool) (v : Z) : Z :=
  match builtin_ilog64_nz c u with
  | Some f => f v
  | None => ilog64_macro c u const v
  end.

(** ** util/util.h *)

(** [__good_snprintf]: [rc] is an [int], compared as [size_t]. *)
Definition good_snprintf (len rc : Z) : bool := (wrap 64 rc <? len) && (0 <=? rc).

Record timespec := MkTs { tv_sec : Z; tv_nsec : Z }.

Definition ts_cmp (cmp : Z -> Z -> bool) (a b : timespec) : bool :=
  if tv_sec a =? tv_sec b then cmp (tv_nsec a) (tv_nsec b) else cmp (tv_sec a) (tv_sec b).

Definition BITS_PER_LONG : Z := 64.
Definition BITS_TO_LONGS (nr : Z) : Z := ((nr +{64} BITS_PER_LONG) -{64} 1) / BITS_PER_LONG.

Definition GENMASK (h l : Z) : Z :=
  Z.land ((ULONG_MAX -{64} (1 <<{64} l)) +{64} 1) (Z.shiftr ULONG_MAX (BITS_PER_LONG - 1 - h)).

Definition GENMASK_ULL (h l : Z) : Z :=
  Z.land (ULONG_MAX <<{64} l) (Z.shiftr ULONG_MAX (64 - 1 - h)).

Definition BIT (nr : Z) : Z := 1 <<{64} nr.

(** Position of the least significant set bit, from 0. *)
Fixpoint pos_ctz (p : positive) : Z :=
  match p with
  | xO q => 1 + pos_ctz q
  | _ => 0
  end.

(** [ffsl]/[__builtin_ffsll]: 1 + the least set bit, 0 for 0. *)
Definition ffs (x : Z) : Z :=
  match x with
  | Zpos p => 1 + pos_ctz p
  | _ => 0
  end.

Definition bf_shf (x : Z) : Z := ffs x - 1.

Definition FIELD_PREP (mask val : Z) : Z := Z.land (val <<{64} (bf_shf mask)) mask.
Definition FIELD_GET (mask reg : Z) : Z := Z.shiftr (Z.land reg mask) (bf_shf mask).

Definition align (val al : Z) : Z :=
  Z.land ((val +{64} al) -{64} 1) (~{64} (al -{64} 1)).

Definition align_down (val al : Z) : Z := align (val -{64} (al -{64} 1)) al.

(** A shift by the width of the type is undefined in C: [None]. *)
Definition shl_ull (x k : Z) : option Z := if k <? 64 then Some (x <<{64} k) else None.

Definition roundup_pow_of_two (n : Z) : option Z :=
  if n =? 1 then Some 1 else shl_ull 1 (ilog64_macro config_h 0 false (n -{64} 1)).

(** Division by zero is undefined: [None]. *)
Definition DIV_ROUND_UP (n d : Z) : option Z :=
  if d =? 0 then None else Some (((n +{64} d) -{64} 1) / d).

(** ** util/util.c *)

(** One draw from the xorshift generator: the value returned and the new seed
    are the same. *)
Definition xorshift32 (seed : Z) : Z :=
  let x := seed in
  let x := Z.lxor x (x <<{32} 13) in
  let x := Z.lxor x (Z.shiftr x 17) in
  let x := Z.lxor x (x <<{32} 5) in
  x.

Definition check_env (env_value : option string) : bool :=
  match env_value with
  | Some v => negb (String.eqb v "0")
  | None => false
  end.

(** ** Logarithms *)

Definition log2_spec (v : Z) : Z := if v =? 0 then 0 else Z.log2 v + 1.

(** The [k] most significant bits below [2^(n+1)] are set. *)
Definition top_set (n k v : Z) : Prop :=
  in_width (n + 1) v /\ forall i, 0 <= i -> n - k < i <= n -> Z.testbit v i = true.

Lemma top_set_step n k v :
  0 <= n -> 0 < k -> top_set n k v -> top_set n (2 * k) (Z.lor v (Z.shiftr v k)).
Proof.
  intros Hn Hk [Hr Ht]. split; [by auto with cint|].
  intros i Hi0 Hi. rewrite Z.lor_spec, Z.shiftr_spec by lia.
  destruct (Z.ltb_spec (n - k) i); [by rewrite Ht by lia|].
  by rewrite (Ht (i + k)), orb_true_r by lia.
Qed.

Lemma top_set_full n k v : 0 <= n < k -> top_set n k v -> v = 2 ^ (n + 1) - 1.
Proof.
  intros Hn [Hr Ht]. replace (2 ^ (n + 1) - 1) with (Z.ones (n + 1)) by
    (rewrite Z.ones_equiv; lia).
  apply Z.bits_inj'. intros i Hi. destruct (Z.ltb_spec i (n + 1)).
  - rewrite Z.ones_spec_low by lia. apply Ht; lia.
  - rewrite Z.ones_spec_high by lia. apply (testbit_high (n + 1)); [done|lia].
Qed.

Lemma top_set_log2 v : 0 < v -> top_set (Z.log2 v) 1 v.
Proof.
  intros Hv. pose proof (Z.log2_spec v Hv). split; [unfold in_width, Z.succ in *; lia|].
  intros i Hi0 Hi. replace i with (Z.log2 v) by lia. by apply Z.bit_log2.
Qed.

(** [ks] are 1, 2, 4, ... doubling from [k]. *)
Lemma smear_top n k ks v :
  0 <= n -> 0 < k -> ks = map (fun j => k * 2 ^ Z.of_nat j) (seq 0 (length ks)) ->
  top_set n k v -> top_set n (k * 2 ^ Z.of_nat (length ks)) (smear ks v).
Proof.
  intros Hn. revert k v. induction ks as [|k' ks IH]; intros k v Hk Heq Ht.
  - cbn. by rewrite Z.mul_1_r.
  - cbn [length seq map] in Heq. injection Heq as -> Heq. cbn [length].
    rewrite Nat2Z.inj_succ, Z.pow_succ_r by lia.
    replace (k * (2 * 2 ^ Z.of_nat (length ks))) with (2 * k * 2 ^ Z.of_nat (length ks)) by lia.
    change (Z.of_nat 0) with 0. rewrite Z.mul_1_r. cbn [smear fold_left].
    apply IH; [lia| |by apply top_set_step].
    rewrite Heq at 1. rewrite <- seq_shift, map_map. apply map_ext. intros j.
    rewrite Nat2Z.inj_succ, Z.pow_succ_r by lia. lia.
Qed.

(** Smearing, halving and adding one leaves the leading power of two. *)
Lemma smear_leading w ks v :
  0 < v -> in_width w v -> ks = map (fun j => 1 * 2 ^ Z.of_nat j) (seq 0 (length ks)) ->
  w <= 2 ^ Z.of_nat (length ks) ->
  Z.shiftr (smear ks v) 1 +{w} 1 = 2 ^ Z.log2 v.
Proof.
  intros Hv Hw Hks Hlen. pose proof (Z.log2_nonneg v).
  assert (Hlog : Z.log2 v < w) by (apply Z.log2_lt_pow2; unfold in_width in *; lia).
  rewrite (top_set_full (Z.log2 v) (1 * 2 ^ Z.of_nat (length ks)) (smear ks v)).
  - rewrite Z.shiftr_div_pow2, Z.pow_add_r by lia. change (2 ^ 1) with 2.
    assert (0 < 2 ^ Z.log2 v) by (apply Z.pow_pos_nonneg; lia).
    replace ((2 ^ Z.log2 v * 2 - 1) / 2) with (2 ^ Z.log2 v - 1)
      by (apply Z.div_unique with 1; lia).
    rewrite Z.sub_add. apply wrap_small. split; [lia|]. apply Z.pow_lt_mono_r; lia.
  - lia.
  - apply smear_top; auto with lia. by apply top_set_log2.
Qed.

Lemma debruijn32 n : 0 <= n < 32 ->
  nth (Z.to_nat (Z.land (Z.shiftr (2 ^ n *{32} 0x77CB531) 27) 0x1F)) DEBRUIJN_IDX32 0 = n.
Proof.
  intros Hn. apply Z.eqb_eq. revert n Hn.
  assert (Hall : forallb (fun n => nth (Z.to_nat (Z.land (Z.shiftr
      (2 ^ n *{32} 0x77CB531) 27) 0x1F)) DEBRUIJN_IDX32 0 =? n) (seqZ 0 32) = true)
    by (vm_compute; reflexivity).
  rewrite forallb_forall in Hall. intros n Hn. apply Hall.
  apply list_elem_of_In, elem_of_seqZ. lia.
Qed.

Lemma debruijn64 n : 0 <= n < 64 ->
  nth (Z.to_nat (Z.land (Z.shiftr (2 ^ n *{64} 0x218A392CD3D5DBF) 58) 0x3F)) DEBRUIJN_IDX64 0 = n.
Proof.
  intros Hn. apply Z.eqb_eq. revert n Hn.
  assert (Hall : forallb (fun n => nth (Z.to_nat (Z.land (Z.shiftr
      (2 ^ n *{64} 0x218A392CD3D5DBF) 58) 0x3F)) DEBRUIJN_IDX64 0 =? n) (seqZ 0 64) = true)
    by (vm_compute; reflexivity).
  rewrite forallb_forall in Hall. intros n Hn. apply Hall.
  apply list_elem_of_In, elem_of_seqZ. lia.
Qed.

Lemma log2_width w v : 0 < v -> in_width w v -> 0 <= Z.log2 v < w.
Proof.
  intros Hv Hw. split; [apply Z.log2_nonneg|]. apply Z.log2_lt_pow2; unfold in_width in *; lia.
Qed.

Lemma ilog32_log2 v : in_width 32 v -> ilog32 v = log2_spec v.
Proof.
  intros Hv. unfold log2_spec. destruct (Z.eqb_spec v 0) as [->|Hz]; [by vm_compute|].
  assert (0 < v) by (unfold in_width in Hv; lia).
  unfold ilog32. rewrite smear_leading, debruijn32 by (done || by apply log2_width).
  rewrite (proj2 (Z.ltb_lt 0 v)) by done. cbn [Z.b2z]. lia.
Qed.

Lemma ilog64_log2 v : in_width 64 v -> ilog64 v = log2_spec v.
Proof.
  intros Hv. unfold log2_spec. destruct (Z.eqb_spec v 0) as [->|Hz]; [by vm_compute|].
  assert (0 < v) by (unfold in_width in Hv; lia).
  unfold ilog64. rewrite smear_leading, debruijn64 by (done || by apply log2_width).
  rewrite (proj2 (Z.ltb_lt 0 v)) by done. cbn [Z.b2z]. lia.
Qed.

(** Adding a power of two by [|] when the bit is clear. *)
Lemma lor_pow2_add x k : 0 <= k -> Z.testbit x k = false -> Z.lor x (2 ^ k) = x + 2 ^ k.
Proof.
  intros Hk Hx. rewrite <- Z.add_lor_land.
  assert (Z.land x (2 ^ k) = 0) as ->; [|lia].
  apply Z.bits_inj'. intros i Hi. rewrite Z.land_spec, Z.bits_0, Z.pow2_bits_eqb by lia.
  destruct (Z.eqb_spec k i) as [<-|]; [by rewrite Hx | by rewrite andb_false_r].
Qed.

Lemma log2_shiftr v k : 0 <= k -> 2 ^ k <= v -> Z.log2 v = Z.log2 (Z.shiftr v k) + k.
Proof.
  intros Hk Hv. rewrite Z.log2_shiftr by (assert (0 < 2 ^ k) by (apply Z.pow_pos_nonneg; lia); lia).
  apply Z.log2_le_mono in Hv. rewrite Z.log2_pow2 in Hv by lia. lia.
Qed.

(** What the table-free versions keep: [v] is what is left of the input [v0],
    below [2^w], and [ret] counts what was shifted out, in multiples of [w]. *)
Definition halving (w v0 : Z) (p : Z * Z) : Prop :=
  0 < fst p < 2 ^ w /\ exists q, snd p = q * w + 1 /\ Z.log2 v0 = Z.log2 (fst p) + q * w.

Lemma halve_ok sh v0 p :
  0 < sh -> halving (2 ^ (sh + 1)) v0 p -> halving (2 ^ sh) v0 (halve (2 ^ 2 ^ sh - 1) sh p).
Proof.
  intros Hsh. destruct p as [v ret]. intros [Hv (q & Hret & Hlog)]; cbn in *.
  assert (Hp : 2 ^ (sh + 1) = 2 * 2 ^ sh) by (rewrite Z.pow_add_r; lia).
  assert (H2 : 2 ^ 1 <= 2 ^ sh) by (apply Z.pow_le_mono_r; lia).
  rewrite Hp in *. unfold halving, halve. destruct (Z.ltb_spec (2 ^ 2 ^ sh - 1) v); cbn [Z.b2z fst snd].
  - rewrite Z.shiftl_1_l.
    rewrite lor_pow2_add; [|lia|].
    + split.
      * rewrite Z.shiftr_div_pow2 by lia. rewrite Z.mul_comm, Z.pow_mul_r in Hv by lia.
        assert (0 < 2 ^ 2 ^ sh) by (apply Z.pow_pos_nonneg; lia).
        split; [apply Z.div_str_pos; lia|]. apply Z.div_lt_upper_bound; [lia|].
        rewrite <- Z.pow_2_r. exact (proj2 Hv).
      * exists (2 * q + 1). split; [lia|]. rewrite Hlog, (log2_shiftr v (2 ^ sh)); lia.
    + apply Bool.not_true_iff_false. rewrite Z.testbit_true by lia. intros Hbit.
      replace (ret / 2 ^ sh) with (2 * q) in Hbit; [rewrite Z.mul_comm, Z_mod_mult in Hbit; lia|].
      apply Z.div_unique with 1; lia.
  - rewrite Z.shiftl_0_l, Z.shiftr_0_r, Z.lor_0_r. split; [lia|]. exists (2 * q). split; lia.
Qed.

Lemma halve_all v0 p :
  halving 32 v0 p ->
  let p' := halve 3 1 (halve 0xF 2 (halve 0xFF 3 (halve 0xFFFF 4 p))) in
  snd p' + Z.b2z (1 <? fst p') = Z.log2 v0 + 1.
Proof.
  intros H. apply (halve_ok 4) in H; [|lia]. apply (halve_ok 3) in H; [|lia].
  apply (halve_ok 2) in H; [|lia]. apply (halve_ok 1) in H; [|lia].
  intros p'. change (halving 2 v0 p') in H. destruct H as [Hv (q & -> & ->)].
  assert (fst p' = 1 \/ fst p' = 2 \/ fst p' = 3) as [-> | [-> | ->]] by (cbn in Hv; lia);
    cbn; lia.
Qed.

Lemma b2z_pos v : 0 < v -> Z.b2z (0 <? v) = 1.
Proof. intros Hv. by rewrite (proj2 (Z.ltb_lt 0 v) Hv). Qed.

Lemma ilog32_nodebruijn_log2 v : in_width 32 v -> ilog32_nodebruijn v = log2_spec v.
Proof.
  intros Hv. unfold log2_spec. destruct (Z.eqb_spec v 0) as [->|Hz]; [done|].
  assert (0 < v) by (unfold in_width in Hv; lia).
  unfold ilog32_nodebruijn. apply (halve_all v). rewrite b2z_pos by done.
  split; [unfold in_width in Hv; cbn [fst]; lia|]. exists 0. cbn. lia.
Qed.

(** Both 64-bit versions that work on 32 bits keep the half with the leading bit. *)
Lemma halving_64 v :
  0 < v -> in_width 64 v ->
  halving 32 v (wrap 32 (Z.shiftr v (Z.shiftl (Z.b2z (0xFFFFFFFF <? v)) 5)),
                Z.lor 1 (Z.shiftl (Z.b2z (0xFFFFFFFF <? v)) 5)).
Proof.
  intros Hp Hv. destruct (Z.ltb_spec 0xFFFFFFFF v); cbn [Z.b2z].
  - change (Z.shiftl 1 5) with 32. change (Z.lor 1 32) with 33.
    assert (Hs : 0 < Z.shiftr v 32 < 2 ^ 32).
    { rewrite Z.shiftr_div_pow2 by lia. unfold in_width in Hv.
      split; [apply Z.div_str_pos; lia|]. apply Z.div_lt_upper_bound; lia. }
    rewrite wrap_small by (unfold in_width; lia). split; [done|]. exists 1.
    split; [done|]. cbn [fst]. rewrite (log2_shiftr v 32); lia.
  - rewrite Z.shiftl_0_l, Z.shiftr_0_r. rewrite wrap_small by (unfold in_width; lia).
    split; [cbn [fst]; lia|]. exists 0. split; [done|]. cbn [fst]. lia.
Qed.

Lemma ilog64_nodebruijn_log2 v : in_width 64 v -> ilog64_nodebruijn v = log2_spec v.
Proof.
  intros Hv. unfold log2_spec. destruct (Z.eqb_spec v 0) as [->|Hz]; [done|].
  assert (0 < v) by (unfold in_width in Hv; lia).
  unfold ilog64_nodebruijn. apply (halve_all v). rewrite b2z_pos by done.
  by apply halving_64.
Qed.

Lemma ilog64_split_log2 v : in_width 64 v -> ilog64_split v = log2_spec v.
Proof.
  intros Hv. unfold log2_spec. destruct (Z.eqb_spec v 0) as [->|Hz]; [by vm_compute|].
  assert (0 < v) by (unfold in_width in Hv; lia).
  destruct (halving_64 v) as [Hw (q & Hret & Hlog)]; [done..|]. cbn [fst snd] in *.
  unfold ilog64_split. rewrite b2z_pos by done. rewrite Hret.
  set (w := wrap 32 _) in *. assert (Hww : in_width 32 w) by (unfold in_width; lia). assert (0 < w) by lia.
  rewrite smear_leading, debruijn32 by (done || lia || by apply log2_width). lia.
Qed.

(** *** The macros *)

Lemma builtin_clz_log2 w u v : 0 < v -> in_width w v -> w - builtin_clz w u v = log2_spec v.
Proof.
  intros Hp Hv. unfold builtin_clz, log2_spec. rewrite wrap_small by done.
  rewrite !(proj2 (Z.eqb_neq v 0)) by lia. lia.
Qed.

Lemma masked_builtin w u v :
  in_width w v -> Z.land (w - builtin_clz w u v) (- Z.b2z (truth v)) = log2_spec v.
Proof.
  intros Hv. unfold truth. destruct (Z.eqb_spec v 0) as [->|Hz]; cbn [negb Z.b2z Z.opp].
  - by rewrite Z.land_0_r.
  - rewrite Z.land_m1_r. apply builtin_clz_log2; [|done]. unfold in_width in Hv. lia.
Qed.

(** One step of the constant version: the upper half decides. *)
Lemma static_step k (f : Z -> Z) v :
  0 < k -> (forall x, 0 <= x < 2 ^ k -> f x = log2_spec x) -> 0 <= v < 2 ^ (k + k) ->
  (if truth (Z.land v (Z.shiftl (Z.ones k) k)) then k + f (Z.shiftr v k) else f v) = log2_spec v.
Proof.
  intros Hk Hf Hv. assert (0 < 2 ^ k) by lia.
  assert (Hs : 0 <= Z.shiftr v k < 2 ^ k).
  { rewrite Z.shiftr_div_pow2 by lia. rewrite Z.pow_add_r in Hv by lia.
    split; [apply Z.div_pos; lia|apply Z.div_lt_upper_bound; lia]. }
  assert (Hl : Z.land v (Z.shiftl (Z.ones k) k) = Z.shiftl (Z.shiftr v k) k).
  { apply Z.bits_inj'. intros i Hi. rewrite Z.land_spec, !Z.shiftl_spec by lia.
    destruct (Z.ltb_spec i k).
    { by rewrite !(Z.testbit_neg_r _ (i - k)), andb_false_r by lia. }
    rewrite Z.shiftr_spec by lia. replace (i - k + k) with i by lia.
    destruct (Z.ltb_spec (i - k) k); [by rewrite Z.ones_spec_low, andb_true_r by lia|].
    rewrite <- (Z.mod_small _ _ Hv), Z.mod_pow2_bits_high by lia. done. }
  rewrite Hl, Z.shiftl_mul_pow2 by lia. unfold truth. destruct (Z.eqb_spec (Z.shiftr v k * 2 ^ k) 0) as [E|E].
  - assert (Hz : Z.shiftr v k = 0) by nia. rewrite Z.shiftr_div_pow2 in Hz by lia.
    apply Z.div_small_iff in Hz; [|lia]. apply Hf. lia.
  - assert (Hge : 2 ^ k <= v).
    { destruct (Z.le_gt_cases (2 ^ k) v); [done|]. exfalso. apply E.
      rewrite Z.shiftr_div_pow2, Z.div_small by lia. lia. }
    cbn [negb]. rewrite Hf by done. unfold log2_spec. rewrite (log2_shiftr v k) by lia.
    rewrite !(proj2 (Z.eqb_neq _ 0)) by (nia || lia). lia.
Qed.

Lemma static_ilog1_log2 v : 0 <= v < 2 ^ 2 -> STATIC_ILOG1 v = log2_spec v.
Proof. intros Hv. assert (v = 0 \/ v = 1 \/ v = 2 \/ v = 3) as [->|[->|[->| ->]]] by lia; done. Qed.

Lemma static_ilog5_log2 v : 0 <= v < 2 ^ 32 -> STATIC_ILOG5 v = log2_spec v.
Proof.
  intros ?. apply (static_step 16 STATIC_ILOG4); [lia| |done].
  intros ? ?. apply (static_step 8 STATIC_ILOG3); [lia| |done].
  intros ? ?. apply (static_step 4 STATIC_ILOG2); [lia| |done].
  intros ? ?. apply (static_step 2 STATIC_ILOG1); [lia|apply static_ilog1_log2|done].
Qed.

Lemma static_ilog6_log2 v : 0 <= v < 2 ^ 64 -> STATIC_ILOG6 v = log2_spec v.
Proof. intros ?. apply (static_step 32 STATIC_ILOG5); [lia|apply static_ilog5_log2|done]. Qed.

Lemma static_ilogs_log2 v :
  (in_width 32 v -> STATIC_ILOG_32 v = log2_spec v) /\ (in_width 64 v -> STATIC_ILOG_64 v = log2_spec v).
Proof.
  split; intros Hv; [unfold STATIC_ILOG_32|unfold STATIC_ILOG_64]; rewrite wrap_small by done;
    [by apply static_ilog5_log2|by apply static_ilog6_log2].
Qed.

(** The data models: [int] and [long] of 32 or 64 bits, [long] not the narrower. *)
Definition data_model (c : ilog_config) : Prop :=
  (int_bits c = 32 \/ int_bits c = 64) /\ (long_bits c = 32 \/ long_bits c = 64) /\
  int_bits c <= long_bits c.

(** The one selection that is wrong: [ilog32] through [__builtin_clzl] on a [long] wider
    than [unsigned], whose width it subtracts from. *)
Definition clzl_too_wide (c : ilog_config) : bool :=
  negb (HAVE_BUILTIN_CLZ c) && HAVE_BUILTIN_CLZL c && (int_bits c <? long_bits c).

Lemma builtin_ilog32_selected c u f :
  data_model c -> clzl_too_wide c = false -> builtin_ilog32_nz c u = Some f ->
  exists w, 32 <= w /\ forall v, f v = w - builtin_clz w u v.
Proof.
  intros (Hi & Hl & Hle) Hw. unfold builtin_ilog32_nz. unfold clzl_too_wide in Hw.
  destruct (2147483647 <=? INT_MAX c) eqn:E.
  2: { exfalso. apply Z.leb_gt in E. unfold INT_MAX in E. destruct Hi as [Hi|Hi]; rewrite Hi in E; lia. }
  destruct (HAVE_BUILTIN_CLZ c); cbn [andb].
  - intros [= <-]. exists (int_bits c). split; [lia|done].
  - destruct (HAVE_BUILTIN_CLZL c); [|by rewrite andb_false_r]. cbn [negb andb] in Hw.
    apply Z.ltb_ge in Hw. destruct (2147483647 <=? LONG_MAX c); [|done]. cbn [andb].
    intros Ef. injection Ef as <-. exists (int_bits c).
    split; [lia|]. intros v. by replace (long_bits c) with (int_bits c) by lia.
Qed.

Lemma builtin_ilog64_selected c u f :
  data_model c -> builtin_ilog64_nz c u = Some f -> forall v, f v = 64 - builtin_clz 64 u v.
Proof.
  intros (Hi & Hl & Hle). unfold builtin_ilog64_nz.
  assert (Hmax : forall b, b = 32 \/ b = 64 -> (9223372036854775807 <=? 2 ^ (b - 1) - 1) = true -> b = 64)
    by (intros b [-> | ->]; done).
  destruct (9223372036854775807 <=? INT_MAX c) eqn:E1, (HAVE_BUILTIN_CLZ c); cbn [andb].
  1: by intros [= <-]; rewrite (Hmax _ Hi E1).
  all: destruct (9223372036854775807 <=? LONG_MAX c) eqn:E2, (HAVE_BUILTIN_CLZL c); cbn [andb].
  1, 5, 9: by intros [= <-]; rewrite (Hmax _ Hl E2).
  all: destruct (HAVE_BUILTIN_CLZLL c); by intros [= <-].
Qed.

Lemma in_width_mono w w' v : w <= w' -> in_width w v -> in_width w' v.
Proof.
  unfold in_width. intros Hw Hv. destruct (Z.lt_ge_cases w 0).
  - rewrite Z.pow_neg_r in Hv by done. lia.
  - assert (2 ^ w <= 2 ^ w') by (apply Z.pow_le_mono_r; lia). lia.
Qed.

Lemma ilog32_macro_log2 c u const v :
  data_model c -> clzl_too_wide c = false -> in_width 32 v -> ilog32_macro c u const v = log2_spec v.
Proof.
  intros Hc Hw Hv. unfold ilog32_macro. destruct (builtin_ilog32_nz c u) as [f|] eqn:E.
  - destruct (builtin_ilog32_selected c u f) as (w & Hge & ->); [done..|].
    by apply masked_builtin, (in_width_mono 32).
  - destruct const; [by apply static_ilogs_log2|]. unfold ilog32_function.
    destruct (ILOG_NODEBRUIJN c); [by apply ilog32_nodebruijn_log2|by apply ilog32_log2].
Qed.

Lemma ilog64_macro_log2 c u const v :
  data_model c -> in_width 64 v -> ilog64_macro c u const v = log2_spec v.
Proof.
  intros Hc Hv. unfold ilog64_macro. destruct (builtin_ilog64_nz c u) as [f|] eqn:E.
  - rewrite (builtin_ilog64_selected c u f) by done. by apply masked_builtin.
  - destruct const; [by apply static_ilogs_log2|]. unfold ilog64_function.
    destruct (ILOG_NODEBRUIJN c); [by apply ilog64_nodebruijn_log2|].
    destruct (_ <? _); [by apply ilog64_split_log2|by apply ilog64_log2].
Qed.

Lemma ilog_nz_macros c u const v :
  data_model c -> 0 < v ->
  (clzl_too_wide c = false -> in_width 32 v -> ilog32_nz_macro c u const v = log2_spec v) /\
  (in_width 64 v -> ilog64_nz_macro c u const v = log2_spec v).
Proof.
  intros Hc Hp. split.
  - intros Hw Hv. unfold ilog32_nz_macro. destruct (builtin_ilog32_nz c u) as [f|] eqn:E.
    + destruct (builtin_ilog32_selected c u f) as (w & Hge & ->); [done..|].
      by apply builtin_clz_log2, (in_width_mono 32).
    + by apply ilog32_macro_log2.
  - intros Hv. unfold ilog64_nz_macro. destruct (builtin_ilog64_nz c u) as [f|] eqn:E.
    + rewrite (builtin_ilog64_selected c u f) by done. by apply builtin_clz_log2.
    + by apply ilog64_macro_log2.
Qed.

(** C40: every version of the integer logarithm the preprocessor can select, on machines
    whose [int] and [long] have 32 or 64 bits, computes the number of significant bits, 0
    for 0 and [log2 v + 1] otherwise: the macros on the compiler's builtins (those of this
    build), the versions for constants, and the functions with a de Bruijn table or
    without, on words or on halves; whatever the builtins give for 0, where their result
    is undefined.  The _nz names are promised for non-zero values only.  One selection is
    excluded: [ilog32] through [__builtin_clzl] where [long] is wider than [unsigned]
    (see the findings). *)
Theorem ilog_versions_agree c u const v (Hc : data_model c) (Hv : in_width 64 v) :
  ilog64_macro c u const v = log2_spec v /\ ilog64_function c v = log2_spec v /\
  STATIC_ILOG_64 v = log2_spec v /\
  (0 < v -> ilog64_nz_macro c u const v = log2_spec v) /\
  (v < 2 ^ 32 ->
     ilog32_function c v = log2_spec v /\ STATIC_ILOG_32 v = log2_spec v /\
     (clzl_too_wide c = false -> ilog32_macro c u const v = log2_spec v /\
        (0 < v -> ilog32_nz_macro c u const v = log2_spec v))).
Proof.
  split; [by apply ilog64_macro_log2|]. split.
  { unfold ilog64_function. destruct (ILOG_NODEBRUIJN c); [by apply ilog64_nodebruijn_log2|].
    destruct (_ <? _); [by apply ilog64_split_log2|by apply ilog64_log2]. }
  split; [by apply static_ilogs_log2|]. split; [intros Hp; by apply ilog_nz_macros|].
  intros Hlt. assert (Hv32 : in_width 32 v) by (unfold in_width in *; lia). split.
  { unfold ilog32_function.
    destruct (ILOG_NODEBRUIJN c); [by apply ilog32_nodebruijn_log2|by apply ilog32_log2]. }
  split; [by apply static_ilogs_log2|]. intros Hw.
  split; [by apply ilog32_macro_log2|]. intros Hp. by apply ilog_nz_macros.
Qed.

Lemma ilog_versions_agree_witness :
  ilog64_macro config_h 77 false 0x8000000000 = 40 /\
  STATIC_ILOG_32 0xFFFF = 16 /\ ilog32_macro config_h 77 false 0xFFFF = 16.
Proof.
  assert (Hc : data_model config_h) by (unfold data_model, config_h; cbn; lia).
  split; [|split].
  - destruct (ilog_versions_agree config_h 77 false 0x8000000000 Hc ltac:(unfold in_width; lia)) as [E _].
    rewrite E. reflexivity.
  - destruct (ilog_versions_agree config_h 77 false 0xFFFF Hc ltac:(unfold in_width; lia))
      as (_ & _ & _ & _ & H). destruct (H ltac:(lia)) as (_ & E & _). rewrite E. reflexivity.
  - destruct (ilog_versions_agree config_h 77 false 0xFFFF Hc ltac:(unfold in_width; lia))
      as (_ & _ & _ & _ & H). destruct (H ltac:(lia)) as (_ & _ & E).
    rewrite (proj1 (E eq_refl)). reflexivity.
Defined.

(** The excluded selection subtracts the leading zeros of a [long] from the width of
    [unsigned], and is 32 too small. *)
Theorem ilog32_clzl_too_small c u const v :
  int_bits c = 32 -> long_bits c = 64 -> clzl_too_wide c = true -> in_width 32 v -> 0 < v ->
  ilog32_macro c u const v = log2_spec v - 32.
Proof.
  unfold clzl_too_wide. intros Hi Hl Hw Hv Hp. apply andb_true_iff in Hw as [Hw _].
  apply andb_true_iff in Hw as [H1%negb_true_iff H2].
  unfold ilog32_macro, builtin_ilog32_nz, LONG_MAX. rewrite H1, H2, andb_false_r, Hi, Hl.
  change (2147483647 <=? 2 ^ (64 - 1) - 1) with true. cbn [andb].
  unfold truth. rewrite (proj2 (Z.eqb_neq v 0)) by lia. cbn [negb Z.b2z Z.opp].
  rewrite Z.land_m1_r. rewrite <- (builtin_clz_log2 64 u v) by (done || by apply (in_width_mono 32)). lia.
Qed.

(** ** Alignment *)

Lemma pow2_bounds k w : 0 <= k < w -> 0 < 2 ^ k /\ 2 * 2 ^ k <= 2 ^ w.
Proof.
  intros Hk. split; [apply Z.pow_pos_nonneg; lia|].
  rewrite <- Z.pow_succ_r by lia. apply Z.pow_le_mono_r; lia.
Qed.

(** [align] in closed form: round up, modulo [2^64]. *)
Lemma align_pow2 val k :
  0 <= k < 64 -> align val (2 ^ k) = wrap 64 (val + 2 ^ k - 1) / 2 ^ k * 2 ^ k.
Proof.
  intros Hk. destruct (pow2_bounds k 64 Hk) as [Hp Hp2]. unfold align.
  rewrite wrap_sub_l, (wrap_small 64 (2 ^ k - 1)) by (unfold in_width; lia).
  apply land_not_ones; [by apply wrap_range | lia].
Qed.

Lemma align_down_pow2 val k :
  in_width 64 val -> 0 <= k < 64 -> align_down val (2 ^ k) = val / 2 ^ k * 2 ^ k.
Proof.
  intros Hv Hk. destruct (pow2_bounds k 64 Hk) as [Hp Hp2].
  unfold align_down. rewrite align_pow2 by done.
  rewrite (wrap_small 64 (2 ^ k - 1)) by (unfold in_width; lia).
  unfold Z.sub at 1. rewrite <- Z.add_assoc, wrap_add_l.
  replace (val - (2 ^ k - 1) + (2 ^ k + - (1))) with val by lia. by rewrite wrap_small.
Qed.

(** For an alignment that is a power of two, [align] returns the least
    multiple that is not below the value, except for a value within one alignment
    of [2^64], where it returns 0; [align_down] always returns the greatest
    multiple that is not above it. *)
Theorem align_bounds val k (Hv : in_width 64 val) (Hk : 0 <= k < 64) :
  let a := align val (2 ^ k) in
  let d := align_down val (2 ^ k) in
  (2 ^ k | a) /\ (2 ^ k | d) /\ d <= val < d + 2 ^ k /\
  (val <= 2 ^ 64 - 2 ^ k -> val <= a < val + 2 ^ k) /\
  (2 ^ 64 - 2 ^ k < val -> a = 0).
Proof.
  destruct (pow2_bounds k 64 Hk) as [Hp Hp2]. intros a d. unfold a, d.
  rewrite align_pow2, align_down_pow2 by done. unfold in_width in Hv.
  pose proof (Z.div_mod val (2 ^ k)). pose proof (Z.mod_pos_bound val (2 ^ k)).
  split; [apply Z.divide_factor_r|]. split; [apply Z.divide_factor_r|]. split; [lia|].
  split; intros Hle.
  - rewrite wrap_small by (unfold in_width; lia).
    pose proof (Z.div_mod (val + 2 ^ k - 1) (2 ^ k)).
    pose proof (Z.mod_pos_bound (val + 2 ^ k - 1) (2 ^ k)). lia.
  - rewrite wrap_over by lia. rewrite Z.div_small by lia. lia.
Qed.

Lemma align_bounds_witness : 5000 <= align 5000 4096 < 5000 + 4096.
Proof.
  destruct (align_bounds 5000 12 ltac:(unfold in_width; lia) ltac:(lia)) as (_ & _ & _ & H & _).
  apply H. lia.
Defined.

(** [roundup_pow_of_two] returns the least power of two that is not below
    its argument for every argument from 1 to [2^63]; for 0 and above [2^63] it
    shifts by the width of the type, which C leaves undefined. *)
Theorem roundup_pow_of_two_spec n (Hn : in_width 64 n) :
  match roundup_pow_of_two n with
  | Some p => 1 <= n <= 2 ^ 63 /\ exists k, 0 <= k /\ p = 2 ^ k /\ n <= 2 ^ k < 2 * n
  | None => n = 0 \/ 2 ^ 63 < n
  end.
Proof.
  unfold in_width in Hn. unfold roundup_pow_of_two.
  destruct (Z.eqb_spec n 1) as [->|Hn1]; [split; [lia|]; exists 0; lia|].
  destruct (Z.eqb_spec n 0) as [->|Hn0]; [vm_compute; by left|].
  rewrite (wrap_small 64 (n - 1)) by (unfold in_width; lia).
  rewrite ilog64_macro_log2 by (unfold in_width, data_model; cbn; lia). unfold log2_spec.
  destruct (Z.eqb_spec (n - 1) 0); [lia|].
  pose proof (Z.log2_spec (n - 1) ltac:(lia)) as Hlog. unfold Z.succ in Hlog.
  pose proof (Z.log2_nonneg (n - 1)).
  assert (Hpow : 2 ^ (Z.log2 (n - 1) + 1) = 2 * 2 ^ Z.log2 (n - 1))
    by (rewrite Z.pow_add_r; lia).
  unfold shl_ull. destruct (Z.ltb_spec (Z.log2 (n - 1) + 1) 64) as [Hlt|Hge].
  - assert (2 ^ (Z.log2 (n - 1) + 1) <= 2 ^ 63) by (apply Z.pow_le_mono_r; lia).
    split; [lia|]. exists (Z.log2 (n - 1) + 1). split; [lia|].
    rewrite Z.shiftl_1_l, wrap_small by (unfold in_width; lia). lia.
  - right. assert (2 ^ 63 <= 2 ^ Z.log2 (n - 1)) by (apply Z.pow_le_mono_r; lia). lia.
Qed.

Lemma roundup_pow_of_two_spec_witness :
  match roundup_pow_of_two 4097 with
  | Some p => 1 <= 4097 <= 2 ^ 63 /\ exists k, 0 <= k /\ p = 2 ^ k /\ 4097 <= 2 ^ k < 2 * 4097
  | None => 4097 = 0 \/ 2 ^ 63 < 4097
  end.
Proof. apply (roundup_pow_of_two_spec 4097). unfold in_width. lia. Defined.

(** ** Bit fields *)

Lemma pos_ctz_spec p :
  0 <= pos_ctz p /\ Z.testbit (Zpos p) (pos_ctz p) = true /\
  forall j, 0 <= j < pos_ctz p -> Z.testbit (Zpos p) j = false.
Proof.
  induction p as [p IH|p IH|]; cbn [pos_ctz].
  - split; [lia|]. split; [done|]. lia.
  - destruct IH as (H1 & H2 & H3). split; [lia|].
    rewrite Pos2Z.inj_xO. split.
    + by rewrite Z.add_1_l, Z.double_bits_succ.
    + intros j Hj. destruct (Z.eq_dec j 0) as [->|]; [apply Z.testbit_even_0|].
      replace j with (Z.succ (j - 1)) by lia. rewrite Z.double_bits_succ. apply H3. lia.
  - split; [lia|]. split; [done|]. lia.
Qed.

(** [ffs] finds the least set bit. *)
Lemma ffs_spec x :
  0 < x -> 0 <= ffs x - 1 /\ Z.testbit x (ffs x - 1) = true /\
  forall j, 0 <= j < ffs x - 1 -> Z.testbit x j = false.
Proof.
  destruct x as [|p|p]; [lia| |lia]. intros _. cbn [ffs].
  replace (1 + pos_ctz p - 1) with (pos_ctz p) by lia. apply pos_ctz_spec.
Qed.

Lemma ffs_zero x : 0 <= x -> (ffs x = 0 <-> x = 0).
Proof.
  intros Hx. destruct x as [|p|p]; [done| |lia]. cbn [ffs].
  pose proof (proj1 (pos_ctz_spec p)). lia.
Qed.

Lemma testbit_ULONG_MAX i : 0 <= i -> Z.testbit ULONG_MAX i = (i <? 64).
Proof.
  intros Hi. change ULONG_MAX with (Z.ones 64). destruct (Z.ltb_spec i 64).
  - by apply Z.ones_spec_low.
  - by apply Z.ones_spec_high.
Qed.

(** Both mask macros build the bits from [l] to [h]. *)
Lemma testbit_GENMASK_ULL h l i :
  0 <= l <= h -> h < 64 -> 0 <= i ->
  Z.testbit (GENMASK_ULL h l) i = (l <=? i) && (i <=? h).
Proof.
  intros Hl Hh Hi. unfold GENMASK_ULL.
  rewrite Z.land_spec, testbit_wrap, Z.shiftr_spec, testbit_ULONG_MAX by lia.
  destruct (Z.leb_spec l i).
  - rewrite Z.shiftl_spec_high, testbit_ULONG_MAX by lia.
    destruct (Z.ltb_spec i 64), (Z.ltb_spec (i - l) 64), (Z.leb_spec i h),
      (Z.ltb_spec (i + (64 - 1 - h)) 64); done || lia.
  - rewrite Z.shiftl_spec_low by lia. by rewrite andb_false_r.
Qed.

Lemma GENMASK_eq h l : 0 <= l <= h -> h < 64 -> GENMASK h l = GENMASK_ULL h l.
Proof.
  intros Hl Hh. unfold GENMASK, GENMASK_ULL, BITS_PER_LONG. f_equal.
  destruct (pow2_bounds l 64) as [Hp Hp2]; [lia|].
  rewrite Z.shiftl_1_l, (wrap_small 64 (2 ^ l)) by (unfold in_width; lia).
  rewrite (wrap_small 64 (ULONG_MAX - 2 ^ l)) by (unfold in_width, ULONG_MAX; lia).
  unfold ULONG_MAX. rewrite wrap_small by (unfold in_width; lia).
  rewrite Z.shiftl_mul_pow2 by lia. unfold wrap.
  apply Z.mod_unique_pos with (2 ^ l - 1); lia.
Qed.

Lemma bf_shf_GENMASK h l : 0 <= l <= h -> h < 64 -> bf_shf (GENMASK_ULL h l) = l.
Proof.
  intros Hl Hh. unfold bf_shf. set (m := GENMASK_ULL h l).
  assert (Hb : forall i, 0 <= i -> Z.testbit m i = (l <=? i) && (i <=? h))
    by (intros; by apply testbit_GENMASK_ULL).
  assert (Hm : 0 < m).
  { assert (0 <= m) by (apply Z.land_nonneg; left; apply wrap_range; lia).
    assert (m <> 0); [|lia]. intros H0. specialize (Hb l ltac:(lia)).
    rewrite H0, Z.bits_0 in Hb. symmetry in Hb.
    rewrite (proj2 (Z.leb_le l l)), (proj2 (Z.leb_le l h)) in Hb by lia. done. }
  destruct (ffs_spec m Hm) as (H0 & H1 & H2).
  rewrite Hb, andb_true_iff, !Z.leb_le in H1 by lia.
  destruct (Z.eq_dec (ffs m - 1) l); [done|].
  specialize (H2 l ltac:(lia)). rewrite Hb in H2 by lia.
  rewrite (proj2 (Z.leb_le l l)), (proj2 (Z.leb_le l h)) in H2 by lia. done.
Qed.

(** With a mask of the bits [l] to [h], what [FIELD_PREP] stores
    [FIELD_GET] reads back, for any value that fits the field; storing what was
    read restores exactly the bits of the field, and no bit outside the mask is
    ever set. *)
Theorem field_roundtrip h l v reg (Hl : 0 <= l <= h) (Hh : h < 64)
    (Hv : in_width (h - l + 1) v) (Hreg : in_width 64 reg) :
  let m := GENMASK h l in
  FIELD_GET m (FIELD_PREP m v) = v /\
  FIELD_PREP m (FIELD_GET m reg) = Z.land reg m /\
  (forall i, 0 <= i -> ~ (l <= i <= h) -> Z.testbit (FIELD_PREP m v) i = false).
Proof.
  cbn zeta. rewrite GENMASK_eq by done. set (m := GENMASK_ULL h l).
  assert (Hb : forall i, 0 <= i -> Z.testbit m i = (l <=? i) && (i <=? h))
    by (intros; by apply testbit_GENMASK_ULL).
  assert (Hs : bf_shf m = l) by (by apply bf_shf_GENMASK).
  clearbody m. unfold FIELD_GET, FIELD_PREP. rewrite !Hs.
  split; [|split].
  - apply Z.bits_inj'. intros i Hi.
    rewrite Z.shiftr_spec, !Z.land_spec, testbit_wrap, Z.shiftl_spec, Hb by lia.
    replace (i + l - l) with i by lia.
    destruct (Z.leb_spec l (i + l)), (Z.leb_spec (i + l) h), (Z.ltb_spec (i + l) 64);
      rewrite ?andb_true_r, ?andb_false_r; try lia; try done.
    all: symmetry; apply (testbit_high (h - l + 1)); [done|lia].
  - apply Z.bits_inj'. intros i Hi.
    rewrite Z.land_spec, testbit_wrap, Z.land_spec by lia.
    destruct (Z.leb_spec l i) as [Hli|Hli].
    + rewrite Z.shiftl_spec_high, Z.shiftr_spec, Z.land_spec by lia.
      replace (i - l + l) with i by lia.
      destruct (Z.ltb_spec i 64); [|rewrite (testbit_high 64 reg) by (done || lia); done].
      by destruct (Z.testbit reg i), (Z.testbit m i).
    + rewrite Hb by lia. rewrite (proj2 (Z.leb_gt l i)) by lia. cbn.
      by rewrite !andb_false_r.
  - intros i Hi Hout. rewrite Z.land_spec, Hb by lia.
    destruct (Z.leb_spec l i), (Z.leb_spec i h); try lia; by rewrite andb_false_r.
Qed.

Lemma field_roundtrip_witness :
  FIELD_GET (GENMASK 11 4) (FIELD_PREP (GENMASK 11 4) 0xA5) = 0xA5.
Proof.
  apply (field_roundtrip 11 4 0xA5 0); unfold in_width; lia.
Defined.

(** ** The xorshift generator *)

Definition xsl (k x : Z) : Z := Z.lxor x (x <<{32} k).
Definition xsr (k x : Z) : Z := Z.lxor x (Z.shiftr x k).

Lemma xsl_width k x : 0 <= k -> in_width 32 x -> in_width 32 (xsl k x).
Proof. intros Hk Hx. unfold xsl. auto with cint. Qed.

Lemma xsr_width k x : 0 <= k -> in_width 32 x -> in_width 32 (xsr k x).
Proof. intros Hk Hx. unfold xsr. auto with cint. Qed.

(** Two words that agree on bits 0 to 31 are equal. *)
Lemma eq_bits32 x y :
  in_width 32 x -> in_width 32 y ->
  (forall i, 0 <= i < 32 -> Z.testbit x i = Z.testbit y i) -> x = y.
Proof.
  intros Hx Hy H. apply Z.bits_inj'. intros i Hi. destruct (Z.ltb_spec i 32); [by apply H; lia|].
  by rewrite (testbit_high 32 x), (testbit_high 32 y) by (done || lia).
Qed.

(** Bits are recovered from the low end: bit [i] of [x] is bit [i] of the result
    corrected by bit [i - k] of [x]. *)
Lemma xsl_inj k x y :
  0 < k -> in_width 32 x -> in_width 32 y -> xsl k x = xsl k y -> x = y.
Proof.
  intros Hk Hx Hy Heq. apply eq_bits32; [done..|]. intros i Hi.
  assert (Hb : forall z j, 0 <= j < 32 ->
    Z.testbit (xsl k z) j = xorb (Z.testbit z j) (Z.testbit (Z.shiftl z k) j)).
  { intros z j Hj. unfold xsl. rewrite Z.lxor_spec, testbit_wrap by lia.
    by rewrite (proj2 (Z.ltb_lt j 32)) by lia. }
  induction i as [i IH] using (well_founded_induction (Z.lt_wf 0)).
  pose proof (Hb x i Hi) as Hbx. pose proof (Hb y i Hi) as Hby.
  rewrite Heq, Hby, !Z.shiftl_spec in Hbx by lia.
  destruct (Z.ltb_spec (i - k) 0) as [Hneg|Hpos].
  - rewrite !(Z.testbit_neg_r _ (i - k)) in Hbx by lia. by rewrite !xorb_false_r in Hbx.
  - rewrite (IH (i - k)) in Hbx by lia.
    by destruct (Z.testbit x i), (Z.testbit y i), (Z.testbit y (i - k)).
Qed.

(** The same from the high end. *)
Lemma xsr_inj k x y :
  0 < k -> in_width 32 x -> in_width 32 y -> xsr k x = xsr k y -> x = y.
Proof.
  intros Hk Hx Hy Heq. apply eq_bits32; [done..|]. intros i Hi.
  assert (Hb : forall z j, 0 <= j -> Z.testbit (xsr k z) j =
    xorb (Z.testbit z j) (Z.testbit z (j + k)))
    by (intros z j Hj; unfold xsr; by rewrite Z.lxor_spec, Z.shiftr_spec by lia).
  remember (32 - i) as n eqn:Hn. revert i Hi Hn.
  induction n as [n IH] using (well_founded_induction (Z.lt_wf 0)). intros i Hi Hn.
  pose proof (Hb x i ltac:(lia)) as Hbx. pose proof (Hb y i ltac:(lia)) as Hby.
  rewrite Heq, Hby in Hbx. destruct (Z.ltb_spec (i + k) 32) as [Hlt|Hge].
  - rewrite (IH (32 - (i + k)) ltac:(lia) (i + k)) in Hbx by lia.
    by destruct (Z.testbit x i), (Z.testbit y i), (Z.testbit y (i + k)).
  - rewrite (testbit_high 32 x (i + k)), (testbit_high 32 y (i + k)) in Hbx by (done || lia).
    by rewrite !xorb_false_r in Hbx.
Qed.

(** [xorshift32] permutes the 32-bit words: different seeds give different
    next seeds, so a generator started on a non-zero seed, as the structure
    demands, never reaches 0, from which it could not leave. *)
Theorem xorshift32_permutes x y (Hx : in_width 32 x) (Hy : in_width 32 y) :
  in_width 32 (xorshift32 x) /\ (xorshift32 x = xorshift32 y <-> x = y) /\
  xorshift32 0 = 0 /\ (x <> 0 -> xorshift32 x <> 0).
Proof.
  assert (Hinj : forall a b, in_width 32 a -> in_width 32 b ->
    xorshift32 a = xorshift32 b -> a = b).
  { intros a b Ha Hb Heq. change (xsl 5 (xsr 17 (xsl 13 a)) = xsl 5 (xsr 17 (xsl 13 b))) in Heq.
    apply xsl_inj, xsr_inj, xsl_inj in Heq; auto using xsl_width, xsr_width with lia. }
  split; [|split; [|split]].
  - change (in_width 32 (xsl 5 (xsr 17 (xsl 13 x)))).
    auto using xsl_width, xsr_width with lia.
  - split; [by apply Hinj | congruence].
  - done.
  - intros Hn Hz. apply Hn. apply Hinj; [done | unfold in_width; lia | done].
Qed.

Lemma xorshift32_permutes_witness : xorshift32 2463534242 <> 0 /\ xorshift32 1 = 270369.
Proof.
  split; [|done].
  apply (xorshift32_permutes 2463534242 0); unfold in_width; lia.
Defined.
