(* ===== verification/Bitmap.v ===== *)
(** * util/bitmap.c and util/bitmap.h

    Bitmaps as arrays of 64-bit words, with the first-fit search used by the
    region allocators.  An access outside the array is a fault. *)

From stdpp Require Import base list numbers.
From Stdlib Require Import ZArith Lia.
From S2P Require Import Prelude Util.

#[local] Open Scope Z_scope.
#[local] Open Scope cint_scope.

(** [unsigned long *bmp] *)
Abbreviation words := (list Z).
Abbreviation B := (M words).

Definition BMP_WORD_INDEX (n : Z) : Z := n / BITS_PER_LONG.
Definition BMP_WORD_OFFSET (n : Z) : Z := n mod BITS_PER_LONG.
Definition BMP_FIRST_WORD_MASK (start : Z) : Z := ULONG_MAX <<{64} (BMP_WORD_OFFSET start).
Definition BMP_LAST_WORD_MASK (last : Z) : Z :=
  if BMP_WORD_OFFSET last =? 0 then ULONG_MAX else ~{64} (BMP_FIRST_WORD_MASK last).

(** [bmp[i]] *)
Definition rd (i : Z) : B Z :=
  bmp ← get; demand OutOfBounds (bmp !! Z.to_nat i).

(** [bmp[i] = f(bmp[i])] *)
Definition upd (i : Z) (f : Z -> Z) : B unit :=
  w ← rd i; modify (<[Z.to_nat i := f w]>).

(** The loop of [bitmap_find_first_bit]; [fuel] bounds the words visited. *)
Fixpoint find_first_loop (fuel : nat) (start last curr_idx curr_offset : Z) : B Z :=
  match fuel with
  | O => fail FuelOut
  | S fuel' =>
      if start <? last then
        w ← rd curr_idx;
        let bit := ffs (Z.shiftr w curr_offset) in
        if negb (bit =? 0) then mret (Z.min last ((start +{64} bit) -{64} 1))
        else find_first_loop fuel' (start +{64} (BITS_PER_LONG - curr_offset)) last
               (curr_idx +{64} 1) 0
      else mret last
  end.

Definition bitmap_find_first_bit (start last : Z) : B Z :=
  let curr_offset := BMP_WORD_OFFSET start in
  let curr_idx := BMP_WORD_INDEX start in
  c_assert (start <=? last);;
  bmp ← get;
  find_first_loop (S (length bmp)) start last curr_idx curr_offset.

(** [for (...; curr_idx < last_idx; curr_idx++) bmp[curr_idx] = v;]
    [todo] is [last_idx - curr_idx]. *)
Fixpoint set_words (v : Z) (todo : nat) (curr_idx : Z) : B unit :=
  match todo with
  | O => mret tt
  | S todo' => upd curr_idx (fun _ => v);; set_words v todo' (curr_idx + 1)
  end.

Definition bitmap_zero_region (start last : Z) : B unit :=
  let curr_idx := BMP_WORD_INDEX start in
  let last_idx := BMP_WORD_INDEX (last -{64} 1) in
  c_assert (start <=? last);;
  if last <=? start then mret tt
  else
    let start_mask := BMP_FIRST_WORD_MASK start in
    let last_mask := BMP_LAST_WORD_MASK last in
    if curr_idx =? last_idx then
      upd curr_idx (fun w => Z.land w (~{64} (Z.land start_mask last_mask)))
    else
      upd curr_idx (fun w => Z.land w (~{64} start_mask));;
      set_words 0 (Z.to_nat (last_idx - (curr_idx + 1))) (curr_idx + 1);;
      upd last_idx (fun w => Z.land w (~{64} last_mask)).

Definition bitmap_fill_region (start last : Z) : B unit :=
  let curr_idx := BMP_WORD_INDEX start in
  let last_idx := BMP_WORD_INDEX (last -{64} 1) in
  c_assert (start <=? last);;
  if last <=? start then mret tt
  else
    let start_mask := BMP_FIRST_WORD_MASK start in
    let last_mask := BMP_LAST_WORD_MASK last in
    if curr_idx =? last_idx then
      upd curr_idx (fun w => Z.lor w (Z.land start_mask last_mask))
    else
      upd curr_idx (fun w => Z.lor w start_mask);;
      set_words ULONG_MAX (Z.to_nat (last_idx - (curr_idx + 1))) (curr_idx + 1);;
      upd last_idx (fun w => Z.lor w last_mask).

(** [for (...; curr_idx < last_idx; curr_idx++) if (bmp[curr_idx] != v) return false;] *)
Fixpoint words_are (v : Z) (todo : nat) (curr_idx : Z) : B bool :=
  match todo with
  | O => mret true
  | S todo' =>
      w ← rd curr_idx;
      if negb (w =? v) then mret false else words_are v todo' (curr_idx + 1)
  end.

Definition bitmap_is_free_region (start region_size : Z) : B bool :=
  let curr_idx := BMP_WORD_INDEX start in
  let start_mask := BMP_FIRST_WORD_MASK start in
  let last_idx := BMP_WORD_INDEX ((start +{64} region_size) -{64} 1) in
  let last_mask := BMP_LAST_WORD_MASK (start +{64} region_size) in
  if curr_idx =? last_idx then
    w ← rd curr_idx; mret (Z.land (Z.land w start_mask) last_mask =? 0)
  else
    w ← rd curr_idx;
    if negb (Z.land w start_mask =? 0) then mret false
    else
      free ← words_are 0 (Z.to_nat (last_idx - (curr_idx + 1))) (curr_idx + 1);
      if negb free then mret false
      else w' ← rd last_idx; mret (Z.land w' last_mask =? 0).

Definition bitmap_set_bit (idx : Z) : B unit :=
  upd (idx / BITS_PER_LONG) (fun w => Z.lor w (1 <<{64} (idx mod BITS_PER_LONG))).

Definition bitmap_clear_bit (idx : Z) : B unit :=
  upd (idx / BITS_PER_LONG) (fun w => Z.land w (~{64} (1 <<{64} (idx mod BITS_PER_LONG)))).

Definition bitmap_test_bit (idx : Z) : B bool :=
  w ← rd (idx / BITS_PER_LONG);
  mret (negb (Z.land w (1 <<{64} (idx mod BITS_PER_LONG)) =? 0)).

(** The loop of [bitmap_find_free_region] from [start]; [fuel] bounds the start
    positions tried. *)
Fixpoint find_free_loop (fuel : nat) (start nbits region_size : Z) : B Z :=
  match fuel with
  | O => fail FuelOut
  | S fuel' =>
      if start +{64} region_size <=? nbits then
        taken ← bitmap_test_bit start;
        if (taken : bool) then find_free_loop fuel' (start +{64} 1) nbits region_size
        else
          free ← bitmap_is_free_region start region_size;
          if (free : bool) then mret start
          else find_free_loop fuel' (start +{64} 1) nbits region_size
      else mret nbits
  end.

Definition bitmap_find_free_region (nbits region_size : Z) : B Z :=
  if region_size =? 0 then mret 0
  else find_free_loop (S (Z.to_nat nbits)) 0 nbits region_size.

(** [memset] over the words that hold [nbits] bits. *)
Definition bitmap_fill (nbits : Z) : B unit :=
  set_words ULONG_MAX (Z.to_nat (BITS_TO_LONGS nbits)) 0.

Definition bitmap_zero (nbits : Z) : B unit :=
  set_words 0 (Z.to_nat (BITS_TO_LONGS nbits)) 0.

(** The mask of the last word in [bitmap_empty] and [bitmap_full]. *)
Definition tail_mask (nbits : Z) : Z :=
  if nbits mod BITS_PER_LONG =? 0 then ULONG_MAX
  else (1 <<{64} (nbits mod BITS_PER_LONG)) -{64} 1.

Definition bitmap_empty (nbits : Z) : B bool :=
  c_assert (negb (nbits =? 0));;
  ok ← words_are 0 (Z.to_nat (BITS_TO_LONGS nbits -{64} 1)) 0;
  if negb ok then mret false
  else w ← rd (BITS_TO_LONGS nbits -{64} 1); mret (Z.land w (tail_mask nbits) =? 0).

Definition bitmap_full (nbits : Z) : B bool :=
  c_assert (negb (nbits =? 0));;
  ok ← words_are ULONG_MAX (Z.to_nat (BITS_TO_LONGS nbits -{64} 1)) 0;
  if negb ok then mret false
  else
    w ← rd (BITS_TO_LONGS nbits -{64} 1);
    mret (Z.lxor (Z.land w (tail_mask nbits)) (tail_mask nbits) =? 0).

(** [calloc] of the words for [size] bits; [None] when it fails. *)
Definition bitmap_alloc0 (calloc_ok : bool) (size : Z) : option words :=
  if calloc_ok then Some (replicate (Z.to_nat (BITS_TO_LONGS size)) 0) else None.

Definition bitmap_alloc1 (calloc_ok : bool) (size : Z) : option words :=
  match bitmap_alloc0 calloc_ok size with
  | None => None
  | Some bmp =>
      match bitmap_fill size bmp with
      | Done _ bmp' => Some bmp'
      | Fault _ => None
      end
  end.

(** ** The bits of a bitmap *)

Definition bit (bmp : words) (i : Z) : bool :=
  match bmp !! Z.to_nat (i / BITS_PER_LONG) with
  | Some w => Z.testbit w (i mod BITS_PER_LONG)
  | None => false
  end.

Definition nbits_of (bmp : words) : Z := BITS_PER_LONG * Z.of_nat (length bmp).

(** Words are 64 bits wide, and bit indices fit an [unsigned long]. *)
Record bmp_ok (bmp : words) : Prop := {
  bmp_words : Forall (in_width 64) bmp;
  bmp_size : nbits_of bmp < 2 ^ 63;
}.

Definition in_region (start last i : Z) : bool := (start <=? i) && (i <? last).

Lemma in_region_true start last i : in_region start last i = true <-> start <= i < last.
Proof. unfold in_region. rewrite andb_true_iff, Z.leb_le, Z.ltb_lt. done. Qed.

(** Name quotient and remainder of a bit index. *)
Ltac split64 i :=
  pose proof (Z.div_mod i 64 ltac:(lia)); pose proof (Z.mod_pos_bound i 64 ltac:(lia)).

(** Equality of boolean comparisons. *)
Ltac bool_lia :=
  apply Bool.eq_iff_eq_true;
  rewrite ?andb_true_iff, ?orb_true_iff, ?Z.leb_le, ?Z.ltb_lt, ?Z.eqb_eq; lia.

Lemma bit_word bmp k w j :
  bmp !! k = Some w -> 0 <= j < 64 -> bit bmp (64 * Z.of_nat k + j) = Z.testbit w j.
Proof.
  intros Hk Hj. unfold bit, BITS_PER_LONG. set (i := 64 * Z.of_nat k + j).
  replace (i / 64) with (Z.of_nat k) by (apply Z.div_unique with j; lia).
  replace (i mod 64) with j by (apply Z.mod_unique with (Z.of_nat k); lia).
  by rewrite Nat2Z.id, Hk.
Qed.

Lemma bit_outside bmp i : nbits_of bmp <= i -> bit bmp i = false.
Proof.
  intros Hi. unfold bit, nbits_of, BITS_PER_LONG in *. split64 i.
  rewrite lookup_ge_None_2; [done|]. lia.
Qed.

(** A change of the words that acts on each bit by [F]. *)
Lemma bits_by_words (F : Z -> bool -> bool) bmp bmp' :
  length bmp' = length bmp ->
  (forall k w, bmp !! k = Some w -> exists w', bmp' !! k = Some w' /\ in_width 64 w' /\
     forall j, 0 <= j < 64 -> Z.testbit w' j = F (64 * Z.of_nat k + j) (Z.testbit w j)) ->
  Forall (in_width 64) bmp' /\
  forall i, 0 <= i < nbits_of bmp -> bit bmp' i = F i (bit bmp i).
Proof.
  intros Hlen Hw. split.
  - apply Forall_lookup. intros k w' Hk.
    destruct (lookup_lt_is_Some_2 bmp k) as [w Hkw];
      [rewrite <- Hlen; by eapply lookup_lt_Some|].
    destruct (Hw k w Hkw) as (w'' & Hk' & Hin & _). congruence.
  - intros i Hi. unfold nbits_of, BITS_PER_LONG in Hi. split64 i.
    destruct (lookup_lt_is_Some_2 bmp (Z.to_nat (i / 64))) as [w Hkw]; [lia|].
    destruct (Hw _ w Hkw) as (w' & Hk' & _ & Hb).
    unfold bit, BITS_PER_LONG. rewrite Hkw, Hk', Hb by lia. f_equal. lia.
Qed.

Lemma wp_rd i Q s : wp (rd i) Q s <-> exists w, s !! Z.to_nat i = Some w /\ Q w s.
Proof.
  unfold rd. rewrite wp_bind, wp_get, wp_demand. done.
Qed.

Lemma wp_upd i f Q s :
  wp (upd i f) Q s <->
  exists w, s !! Z.to_nat i = Some w /\ Q tt (<[Z.to_nat i := f w]> s).
Proof. unfold upd. rewrite wp_bind, wp_rd. done. Qed.

Lemma rd_ok i Q (s : words) :
  0 <= i < Z.of_nat (length s) -> (forall w, s !! Z.to_nat i = Some w -> Q w s) -> wp (rd i) Q s.
Proof.
  intros Hi HQ. apply wp_rd. destruct (lookup_lt_is_Some_2 s (Z.to_nat i)) as [w Hw]; [lia|].
  exists w. auto.
Qed.

Lemma upd_ok i f Q (s : words) :
  0 <= i < Z.of_nat (length s) ->
  (forall w, s !! Z.to_nat i = Some w -> Q tt (<[Z.to_nat i := f w]> s)) -> wp (upd i f) Q s.
Proof.
  intros Hi HQ. apply wp_upd. destruct (lookup_lt_is_Some_2 s (Z.to_nat i)) as [w Hw]; [lia|].
  exists w. auto.
Qed.

Lemma set_words_ok v todo c (s : words) :
  0 <= c -> c + Z.of_nat todo <= Z.of_nat (length s) ->
  wp (set_words v todo c)
     (fun _ s' => length s' = length s /\
        forall k, s' !! k = if decide (c <= Z.of_nat k < c + Z.of_nat todo)
                            then Some v else s !! k) s.
Proof.
  revert c s. induction todo as [|todo IH]; intros c s Hc Hlen; cbn [set_words].
  - apply wp_ret. split; [done|]. intros k. by case_decide; [lia|].
  - apply wp_bind. apply upd_ok; [lia|]. intros w Hw.
    eapply wp_mono; [apply IH; rewrite ?length_insert; lia|].
    cbv beta. rewrite length_insert. intros _ s' [Hl Hs]. split; [done|]. intros k.
    rewrite Hs. destruct (decide (Z.to_nat c = k)) as [<-|Hne].
    + rewrite list_lookup_insert_eq by lia. do 2 case_decide; done || lia.
    + rewrite list_lookup_insert_ne by done. do 2 case_decide; done || lia.
Qed.

(** ** Masks *)

Lemma first_mask_width n : in_width 64 (BMP_FIRST_WORD_MASK n).
Proof. by apply wrap_range. Qed.

Lemma testbit_first_mask n j :
  0 <= j < 64 -> Z.testbit (BMP_FIRST_WORD_MASK n) j = (n mod 64 <=? j).
Proof.
  intros Hj. unfold BMP_FIRST_WORD_MASK, BMP_WORD_OFFSET, BITS_PER_LONG.
  pose proof (Z.mod_pos_bound n 64 ltac:(lia)).
  rewrite testbit_wrap, (proj2 (Z.ltb_lt j 64)) by lia. cbn [andb].
  destruct (Z.leb_spec (n mod 64) j).
  - rewrite Z.shiftl_spec_high, testbit_ULONG_MAX by lia. apply Z.ltb_lt. lia.
  - by rewrite Z.shiftl_spec_low by lia.
Qed.

Lemma last_mask_width n : in_width 64 (BMP_LAST_WORD_MASK n).
Proof.
  unfold BMP_LAST_WORD_MASK. destruct (_ =? _); [unfold in_width, ULONG_MAX; lia|].
  apply wnot_range, first_mask_width.
Qed.

Lemma testbit_last_mask n j :
  0 <= j < 64 -> Z.testbit (BMP_LAST_WORD_MASK n) j = (n mod 64 =? 0) || (j <? n mod 64).
Proof.
  intros Hj. unfold BMP_LAST_WORD_MASK, BMP_WORD_OFFSET, BITS_PER_LONG.
  destruct (n mod 64 =? 0).
  - rewrite testbit_ULONG_MAX by lia. apply Z.ltb_lt. lia.
  - rewrite testbit_wnot by (apply first_mask_width || lia).
    rewrite testbit_first_mask, (proj2 (Z.ltb_lt j 64)) by lia.
    cbn. by rewrite Z.ltb_antisym.
Qed.

(** ** Setting and clearing a region

    Both region updates are one algorithm, with [g w m] writing [v] to the bits
    of [m] in [w]. *)
Section region.
Context (v : bool) (g : Z -> Z -> Z).
Context (g_width : forall w m, in_width 64 w -> in_width 64 m -> in_width 64 (g w m)).
Context (g_bits : forall w m j, in_width 64 w -> in_width 64 m -> 0 <= j < 64 ->
  Z.testbit (g w m) j = if Z.testbit m j then v else Z.testbit w j).

Definition region_upd (start last : Z) : B unit :=
  let curr_idx := BMP_WORD_INDEX start in
  let last_idx := BMP_WORD_INDEX (last -{64} 1) in
  c_assert (start <=? last);;
  if last <=? start then mret tt
  else
    let start_mask := BMP_FIRST_WORD_MASK start in
    let last_mask := BMP_LAST_WORD_MASK last in
    if curr_idx =? last_idx then upd curr_idx (fun w => g w (Z.land start_mask last_mask))
    else
      upd curr_idx (fun w => g w start_mask);;
      set_words (if v then ULONG_MAX else 0) (Z.to_nat (last_idx - (curr_idx + 1))) (curr_idx + 1);;
      upd last_idx (fun w => g w last_mask).

Definition region_F (start last : Z) (i : Z) (b : bool) : bool :=
  if in_region start last i then v else b.

(** The postcondition of a region update. *)
Definition region_post (start last : Z) (s s' : words) : Prop :=
  length s' = length s /\ Forall (in_width 64) s' /\
  forall i, 0 <= i -> bit s' i = if in_region start last i then v else bit s i.

Lemma region_post_intro start last s s' :
  last <= nbits_of s -> length s' = length s ->
  (forall k w, s !! k = Some w -> exists w', s' !! k = Some w' /\ in_width 64 w' /\
     forall j, 0 <= j < 64 ->
       Z.testbit w' j = region_F start last (64 * Z.of_nat k + j) (Z.testbit w j)) ->
  region_post start last s s'.
Proof.
  intros Hlast Hlen Hw. destruct (bits_by_words _ s s' Hlen Hw) as [Hok Hb].
  split; [done|]. split; [done|]. intros i Hi.
  destruct (Z.ltb_spec i (nbits_of s)); [by apply Hb; lia|].
  rewrite !bit_outside by (unfold nbits_of in *; rewrite ?Hlen; lia).
  unfold in_region. by destruct (Z.ltb_spec i last); [lia|rewrite andb_false_r].
Qed.

(** The word at the start, in the middle, or at the end of the region. *)
Lemma region_word start last k w m j :
  0 <= start < last -> in_width 64 w -> in_width 64 m -> 0 <= j < 64 ->
  Z.testbit m j = in_region start last (64 * Z.of_nat k + j) ->
  Z.testbit (g w m) j = region_F start last (64 * Z.of_nat k + j) (Z.testbit w j).
Proof. intros Hr Hw Hm Hj Hb. unfold region_F. by rewrite g_bits, Hb. Qed.

(** A word outside the region. *)
Lemma region_keep start last k w j :
  0 <= j < 64 -> 64 * Z.of_nat k + 64 <= start \/ last <= 64 * Z.of_nat k ->
  Z.testbit w j = region_F start last (64 * Z.of_nat k + j) (Z.testbit w j).
Proof.
  intros Hj Hk. unfold region_F. destruct (in_region _ _ _) eqn:E; [|done].
  apply in_region_true in E. lia.
Qed.

Lemma region_upd_ok start last s :
  0 <= start <= last -> last <= nbits_of s -> bmp_ok s ->
  wp (region_upd start last) (fun _ s' => region_post start last s s') s.
Proof.
  intros Hr Hlast [Hws Hsz]. unfold region_upd, BMP_WORD_INDEX, BITS_PER_LONG.
  assert (Hw64 : forall k w, s !! k = Some w -> in_width 64 w)
    by (intros; by eapply Forall_lookup_1).
  apply wp_bind, wp_assert. split; [apply Z.leb_le; lia|].
  apply wp_if. destruct (Z.leb_spec last start).
  { apply wp_ret. apply region_post_intro; [done..|]. intros k w Hk. exists w.
    split; [done|]. split; [by eapply Hw64|]. intros j Hj. unfold region_F.
    destruct (in_region _ _ _) eqn:E; [|done]. apply in_region_true in E. lia. }
  unfold nbits_of, BITS_PER_LONG in *.
  rewrite (wrap_small 64 (last - 1)) by (unfold in_width; lia).
  split64 start. split64 last. split64 (last - 1).
  pose proof (first_mask_width start) as Hfm. pose proof (last_mask_width last) as Hlm.
  apply wp_if. destruct (Z.eqb_spec (start / 64) ((last - 1) / 64)) as [Heq|Hne].
  - apply upd_ok; [lia|]. intros w0 Hw0.
    apply region_post_intro; [unfold nbits_of, BITS_PER_LONG; lia|apply length_insert|].
    intros k w Hk. destruct (decide (k = Z.to_nat (start / 64))) as [->|Hk'].
    + rewrite list_lookup_insert_eq by lia. rewrite Hk in Hw0. injection Hw0 as <-.
      assert (in_width 64 (Z.land (BMP_FIRST_WORD_MASK start) (BMP_LAST_WORD_MASK last)))
        by (apply land_range; [lia|done|unfold in_width in Hlm; lia]).
      eexists. split; [done|]. split; [eauto|]. intros j Hj.
      apply region_word; eauto; [lia|].
      rewrite Z.land_spec, testbit_first_mask, testbit_last_mask by done. unfold in_region. bool_lia.
    + rewrite list_lookup_insert_ne by lia. exists w. split; [done|]. split; [eauto|].
      intros j Hj. apply region_keep; lia.
  - assert (start / 64 < (last - 1) / 64) by lia.
    apply wp_bind, upd_ok; [lia|]. intros w0 Hw0.
    apply wp_bind. eapply wp_mono; [apply set_words_ok; rewrite ?length_insert; lia|].
    cbv beta. rewrite length_insert. intros _ s1 [Hl1 Hs1].
    apply upd_ok; [lia|]. intros w1 Hw1. rewrite Hs1 in Hw1.
    rewrite decide_False, list_lookup_insert_ne in Hw1 by lia.
    apply region_post_intro; [unfold nbits_of, BITS_PER_LONG; lia|by rewrite length_insert|].
    intros k w Hk. destruct (decide (k = Z.to_nat ((last - 1) / 64))) as [->|Hk'].
    + rewrite list_lookup_insert_eq by lia. rewrite Hk in Hw1. injection Hw1 as <-.
      eexists. split; [done|]. split; [eauto|]. intros j Hj.
      apply region_word; eauto; [lia|]. rewrite testbit_last_mask by done. unfold in_region. bool_lia.
    + rewrite list_lookup_insert_ne, Hs1 by lia. case_decide as Hmid.
      * eexists. split; [done|].
        split; [destruct v; unfold in_width, ULONG_MAX; lia|]. intros j Hj.
        unfold region_F. rewrite (proj2 (in_region_true _ _ _)) by lia.
        destruct v; [rewrite testbit_ULONG_MAX by lia; apply Z.ltb_lt; lia | apply Z.bits_0].
      * destruct (decide (k = Z.to_nat (start / 64))) as [->|Hk''].
        -- rewrite list_lookup_insert_eq by lia. rewrite Hk in Hw0. injection Hw0 as <-.
           eexists. split; [done|]. split; [eauto|]. intros j Hj.
           apply region_word; eauto; [lia|]. rewrite testbit_first_mask by done.
           unfold in_region. bool_lia.
        -- rewrite list_lookup_insert_ne by lia. exists w. split; [done|]. split; [eauto|].
           intros j Hj. apply region_keep; lia.
Qed.

End region.

(** ** Searching *)

(** No bit is set from [a] up to [b]. *)
Definition clear_between (s : words) (a b : Z) : Prop :=
  forall i, a <= i < b -> bit s i = false.

Lemma shiftr_zero_bits w off :
  0 <= off -> 0 <= w -> Z.shiftr w off = 0 -> forall j, off <= j -> Z.testbit w j = false.
Proof.
  intros Hoff Hw H0 j Hj. replace j with (j - off + off) by lia.
  rewrite <- Z.shiftr_spec by lia. by rewrite H0, Z.bits_0.
Qed.

(** The least set bit of a word from offset [off] on. *)
Lemma ffs_from s k w off :
  s !! k = Some w -> in_width 64 w -> 0 <= off < 64 ->
  let b := ffs (Z.shiftr w off) in
  let start := 64 * Z.of_nat k + off in
  (b = 0 /\ clear_between s start (64 * Z.of_nat k + 64)) \/
  (0 < b /\ off + b - 1 < 64 /\ clear_between s start (start + b - 1) /\
   bit s (start + b - 1) = true).
Proof.
  intros Hk Hw Hoff b start.
  assert (Hbit : forall i, start <= i < 64 * Z.of_nat k + 64 ->
    bit s i = Z.testbit w (i - 64 * Z.of_nat k)).
  { intros i Hi. rewrite <- (bit_word s k w) by (done || lia). f_equal. lia. }
  assert (Hsh : 0 <= Z.shiftr w off) by (apply Z.shiftr_nonneg; unfold in_width in Hw; lia).
  destruct (Z.eq_dec (Z.shiftr w off) 0) as [H0|Hne].
  - left. split; [unfold b; by rewrite H0|]. intros i Hi. rewrite Hbit by done.
    apply (shiftr_zero_bits w off); unfold in_width in Hw; lia.
  - right. destruct (ffs_spec (Z.shiftr w off)) as (Hb0 & Hb1 & Hb2); [lia|].
    fold b in Hb0, Hb1, Hb2. rewrite Z.shiftr_spec in Hb1 by lia.
    assert (Hlt : b - 1 + off < 64).
    { destruct (Z.ltb_spec (b - 1 + off) 64); [done|].
      by rewrite (testbit_high 64 w) in Hb1 by (done || lia). }
    split; [lia|]. split; [lia|]. split.
    + intros i Hi. rewrite Hbit by lia.
      specialize (Hb2 (i - 64 * Z.of_nat k - off) ltac:(lia)). rewrite Z.shiftr_spec in Hb2 by lia.
      rewrite <- Hb2. f_equal. lia.
    + rewrite Hbit by lia. rewrite <- Hb1. f_equal. lia.
Qed.

Lemma find_first_loop_ok fuel last idx off s :
  bmp_ok s -> 0 <= off < 64 -> 0 <= idx <= Z.of_nat (length s) ->
  last <= nbits_of s -> Z.of_nat (length s) < idx + Z.of_nat fuel ->
  let start := 64 * idx + off in
  wp (find_first_loop fuel start last idx off)
     (fun r s' => s' = s /\ Z.min start last <= r <= last /\ clear_between s start r /\
                  (r < last -> bit s r = true)) s.
Proof.
  intros [Hws Hsz] Hoff Hidx Hlast. revert idx off Hoff Hidx.
  induction fuel as [|fuel IH]; intros idx off Hoff Hidx Hfuel start; cbn [find_first_loop];
    [lia|]. unfold nbits_of, BITS_PER_LONG in *.
  apply wp_if. destruct (Z.ltb_spec start last) as [Hlt|Hge].
  - apply wp_bind, rd_ok; [lia|]. intros w Hw.
    assert (Hin : in_width 64 w) by (by eapply Forall_lookup_1).
    destruct (ffs_from s (Z.to_nat idx) w off Hw Hin Hoff) as [[Hb Hc]|(Hb & Hb64 & Hc & Hset)].
    + rewrite Hb. cbn [Z.eqb negb].
      rewrite (wrap_small 64 (start + (64 - off))), (wrap_small 64 (idx + 1))
        by (unfold in_width; lia).
      replace (start + (64 - off)) with (64 * (idx + 1) + 0) by lia.
      eapply wp_mono; [apply (IH (idx + 1) 0); lia|]. cbv beta.
      intros r s' (-> & Hr & Hcl & Hbit). split; [done|]. split; [lia|]. split; [|done].
      intros i Hi. destruct (Z.ltb_spec i (64 * idx + 64)); [apply Hc; lia | apply Hcl; lia].
    + rewrite (proj2 (Z.eqb_neq _ 0)) by lia. cbn [negb]. apply wp_ret.
      rewrite (wrap_small 64 (start + _)), wrap_small by (unfold in_width; lia).
      replace (64 * Z.of_nat (Z.to_nat idx) + off) with start in * by lia.
      set (b := ffs _) in *. split; [done|]. split; [lia|]. split.
      * intros i Hi. apply Hc. lia.
      * intros Hmin. by rewrite Z.min_r by lia.
  - apply wp_ret. split; [done|]. split; [lia|]. split; [intros i Hi; lia|lia].
Qed.

(** [bitmap_find_first_bit] returns the index of the first set bit between
    [start] and [last], or [last] when there is none; it reads no word outside
    the array and changes nothing. *)
Theorem find_first_bit_spec s start last (Hs : bmp_ok s)
    (Hr : 0 <= start <= last) (Hl : last <= nbits_of s) :
  exists r, bitmap_find_first_bit start last s = Done r s /\
    start <= r <= last /\ (forall i, start <= i < r -> bit s i = false) /\
    (r < last -> bit s r = true).
Proof.
  assert (Hwp : wp (bitmap_find_first_bit start last)
    (fun r s' => s' = s /\ Z.min start last <= r <= last /\ clear_between s start r /\
                 (r < last -> bit s r = true)) s).
  { unfold bitmap_find_first_bit, BMP_WORD_OFFSET, BMP_WORD_INDEX, BITS_PER_LONG.
    apply wp_bind, wp_assert. split; [apply Z.leb_le; lia|]. apply wp_bind, wp_get.
    split64 start. unfold nbits_of, BITS_PER_LONG in Hl.
    pose proof (find_first_loop_ok (S (length s)) last (start / 64) (start mod 64) s) as Hloop.
    rewrite <- H in Hloop. apply Hloop; unfold nbits_of, BITS_PER_LONG; done || lia. }
  apply wp_run in Hwp as (r & s' & -> & -> & Hr' & Hc & Hb).
  exists r. split; [done|]. split; [lia|]. by split.
Qed.

Lemma find_first_bit_spec_witness :
  exists r, bitmap_find_first_bit 3 128 [7; 16] = Done r [7; 16] /\ 3 <= r <= 128.
Proof.
  destruct (find_first_bit_spec [7; 16] 3 128) as (r & Hrun & Hr & _).
  - constructor; [repeat constructor; unfold in_width; lia | vm_compute; reflexivity].
  - lia.
  - vm_compute. discriminate.
  - exists r. split; [exact Hrun | exact Hr].
Defined.

(** A word has no bit of the mask set. *)
Lemma land_mask_zero w m :
  in_width 64 w -> in_width 64 m ->
  (Z.land w m =? 0) = true <->
  forall j, 0 <= j < 64 -> Z.testbit m j = true -> Z.testbit w j = false.
Proof.
  intros Hw Hm. rewrite Z.eqb_eq. split.
  - intros H0 j Hj Hmj. pose proof (Z.land_spec w m j) as Hl.
    rewrite H0, Z.bits_0, Hmj, andb_true_r in Hl. done.
  - intros H. apply Z.bits_inj'. intros j Hj. rewrite Z.land_spec, Z.bits_0.
    destruct (Z.ltb_spec j 64); [|by rewrite (testbit_high 64 w) by (done || lia)].
    destruct (Z.testbit m j) eqn:E; [by rewrite H by (done || lia) | apply andb_false_r].
Qed.

(** The bits of a region that lie in word [k]. *)
Lemma word_region_clear s k w m a b :
  s !! k = Some w -> in_width 64 w -> in_width 64 m ->
  (forall j, 0 <= j < 64 -> Z.testbit m j = in_region a b (64 * Z.of_nat k + j)) ->
  (Z.land w m =? 0) = true <->
  forall i, a <= i < b -> 64 * Z.of_nat k <= i < 64 * Z.of_nat k + 64 -> bit s i = false.
Proof.
  intros Hk Hw Hm Hreg. rewrite land_mask_zero by done. split.
  - intros H i Hi Hik. replace i with (64 * Z.of_nat k + (i - 64 * Z.of_nat k)) by lia.
    rewrite (bit_word s k w) by (done || lia). apply H; [lia|].
    rewrite Hreg by lia. apply in_region_true. lia.
  - intros H j Hj Hmj. rewrite <- (bit_word s k w) by done. rewrite Hreg in Hmj by done.
    apply in_region_true in Hmj. apply H; lia.
Qed.

Lemma words_are_ok v todo c s :
  0 <= c -> c + Z.of_nat todo <= Z.of_nat (length s) ->
  wp (words_are v todo c)
     (fun r s' => s' = s /\ (r = true <-> forall k, c <= Z.of_nat k < c + Z.of_nat todo ->
                                           s !! k = Some v)) s.
Proof.
  revert c. induction todo as [|todo IH]; intros c Hc Hlen; cbn [words_are].
  - apply wp_ret. split; [done|]. split; [intros; lia|done].
  - apply wp_bind, rd_ok; [lia|]. intros w Hw. destruct (Z.eqb_spec w v) as [->|Hne]; cbn [negb].
    + eapply wp_mono; [apply IH; lia|]. cbv beta. intros r s' [-> Hr]. split; [done|].
      rewrite Hr. split; intros H k Hk; [|apply H; lia].
      destruct (decide (k = Z.to_nat c)) as [->|]; [done|]. apply H. lia.
    + apply wp_ret. split; [done|]. split; [done|]. intros H.
      rewrite (H (Z.to_nat c)) in Hw by lia. congruence.
Qed.

(** The word all of whose bits are [b]. *)
Definition word_of (b : bool) : Z := if b then ULONG_MAX else 0.

Lemma testbit_word_of b j : 0 <= j < 64 -> Z.testbit (word_of b) j = b.
Proof.
  intros Hj. destruct b; [|apply Z.bits_0]. cbn. rewrite testbit_ULONG_MAX by lia.
  apply Z.ltb_lt. lia.
Qed.

Lemma word_of_width b : in_width 64 (word_of b).
Proof. destruct b; unfold in_width, word_of, ULONG_MAX; lia. Qed.

Lemma word_const b s k w :
  s !! k = Some w -> in_width 64 w ->
  w = word_of b <-> forall i, 64 * Z.of_nat k <= i < 64 * Z.of_nat k + 64 -> bit s i = b.
Proof.
  intros Hk Hw. split.
  - intros -> i Hi. replace i with (64 * Z.of_nat k + (i - 64 * Z.of_nat k)) by lia.
    rewrite (bit_word s k _ _ Hk) by lia. apply testbit_word_of. lia.
  - intros H. apply Z.bits_inj'. intros j Hj. destruct (Z.ltb_spec j 64).
    + rewrite <- (bit_word s k w), testbit_word_of by (done || lia). apply H. lia.
    + by rewrite (testbit_high 64 w), (testbit_high 64 (word_of b))
        by (done || lia || apply word_of_width).
Qed.

(** A run of words with all bits [b]. *)
Lemma words_const b s c n :
  Forall (in_width 64) s -> 0 <= c <= n -> n <= Z.of_nat (length s) ->
  (forall k, c <= Z.of_nat k < n -> s !! k = Some (word_of b)) <->
  (forall i, 64 * c <= i < 64 * n -> bit s i = b).
Proof.
  intros Hws Hc Hn. split.
  - intros H i Hi. split64 i.
    apply (word_const b s (Z.to_nat (i / 64)) (word_of b)); [apply H; lia|apply word_of_width|done|lia].
  - intros H k Hk. destruct (lookup_lt_is_Some_2 s k) as [w Hw]; [lia|].
    rewrite Hw. f_equal. apply (word_const b s k w); [done|by eapply Forall_lookup_1|].
    intros i Hi. apply H. lia.
Qed.

Lemma is_free_region_ok start size s :
  bmp_ok s -> 0 <= start -> 0 < size -> start + size <= nbits_of s ->
  wp (bitmap_is_free_region start size)
     (fun r s' => s' = s /\ (r = true <-> clear_between s start (start + size))) s.
Proof.
  intros [Hws Hsz] Hstart Hsize Hin. unfold bitmap_is_free_region, BMP_WORD_INDEX.
  unfold nbits_of, BITS_PER_LONG in *.
  rewrite (wrap_small 64 (start + size)), wrap_small by (unfold in_width; lia).
  set (last := start + size) in *. split64 start. split64 last. split64 (last - 1).
  pose proof (first_mask_width start) as Hfm. pose proof (last_mask_width last) as Hlm.
  assert (Hw64 : forall k w, s !! k = Some w -> in_width 64 w)
    by (intros; by eapply Forall_lookup_1).
  apply wp_if. destruct (Z.eqb_spec (start / 64) ((last - 1) / 64)) as [Heq|Hne].
  - apply wp_bind, rd_ok; [lia|]. intros w Hw. apply wp_ret. split; [done|].
    rewrite <- Z.land_assoc, (word_region_clear s (Z.to_nat (start / 64)) w _ start last); eauto.
    + split; intros Hc i Hi; [apply Hc; lia|]. intros _. by apply Hc.
    + apply land_range; [lia|done|unfold in_width in Hlm; lia].
    + intros j Hj. rewrite Z.land_spec, testbit_first_mask, testbit_last_mask by done.
      unfold in_region. bool_lia.
  - apply wp_bind, rd_ok; [lia|]. intros w Hw.
    pose proof (word_region_clear s (Z.to_nat (start / 64)) w _ start last Hw (Hw64 _ _ Hw) Hfm
      ltac:(intros j Hj; rewrite testbit_first_mask by done; unfold in_region; bool_lia)) as Hfirst.
    destruct (Z.land w _ =? 0); cbn [negb].
    2: { apply wp_ret. split; [done|]. split; [done|]. intros Hc. apply Hfirst.
         intros i Hi _. by apply Hc. }
    apply wp_bind. eapply wp_mono; [apply words_are_ok; lia|]. cbv beta.
    intros r s' [-> Hmid]. replace (start / 64 + 1 + _) with ((last - 1) / 64) in Hmid by lia.
    rewrite (words_const false) in Hmid by (done || lia). destruct r; cbn [negb].
    2: { apply wp_ret. split; [done|]. split; [done|]. intros Hc. apply Hmid.
         intros i Hi. apply Hc. lia. }
    apply wp_bind, rd_ok; [lia|]. intros w' Hw'. apply wp_ret. split; [done|].
    rewrite (word_region_clear s (Z.to_nat ((last - 1) / 64)) w' _ start last); eauto.
    + pose proof (proj1 Hfirst eq_refl) as Hf. pose proof (proj1 Hmid eq_refl) as Hm.
      split; [|intros Hc i Hi _; by apply Hc]. intros Hl i Hi.
      destruct (Z.ltb_spec i (64 * (start / 64) + 64)); [apply Hf; lia|].
      destruct (Z.ltb_spec i (64 * ((last - 1) / 64))); [apply Hm; lia | apply Hl; lia].
    + intros j Hj. rewrite testbit_last_mask by done. unfold in_region. bool_lia.
Qed.

Lemma land_pow2_testbit w n :
  in_width 64 w -> 0 <= n < 64 -> negb (Z.land w (1 <<{64} n) =? 0) = Z.testbit w n.
Proof.
  intros Hw Hn. rewrite Z.shiftl_1_l, wrap_small.
  2: { split; [apply Z.pow_nonneg; lia|apply Z.pow_lt_mono_r; lia]. }
  destruct (Z.testbit w n) eqn:E.
  - rewrite (proj2 (Z.eqb_neq _ 0)); [done|]. intros H0.
    pose proof (Z.land_spec w (2 ^ n) n) as Hl.
    by rewrite H0, Z.bits_0, E, Z.pow2_bits_true in Hl by lia.
  - rewrite (proj2 (Z.eqb_eq _ 0)); [done|]. apply Z.bits_inj'. intros j Hj.
    rewrite Z.land_spec, Z.bits_0, Z.pow2_bits_eqb by lia.
    destruct (Z.eqb_spec n j) as [<-|]; [by rewrite E | apply andb_false_r].
Qed.

Lemma test_bit_ok i s :
  bmp_ok s -> 0 <= i < nbits_of s ->
  wp (bitmap_test_bit i) (fun r s' => s' = s /\ r = bit s i) s.
Proof.
  intros [Hws _] Hi. unfold bitmap_test_bit. unfold nbits_of, BITS_PER_LONG in *. split64 i.
  apply wp_bind, rd_ok; [lia|]. intros w Hw. apply wp_ret. split; [done|].
  rewrite land_pow2_testbit by (lia || by eapply Forall_lookup_1).
  unfold bit, BITS_PER_LONG. by rewrite Hw.
Qed.

(** A region of [size] clear bits starts at [a]. *)
Definition free_at (s : words) (nbits size a : Z) : Prop :=
  0 <= a /\ a + size <= nbits /\ clear_between s a (a + size).

Lemma find_free_loop_ok fuel start nbits size s :
  bmp_ok s -> 0 < size < 2 ^ 63 -> 0 <= start <= nbits -> nbits <= nbits_of s ->
  nbits < start + Z.of_nat fuel ->
  wp (find_free_loop fuel start nbits size)
     (fun r s' => s' = s /\
        ((free_at s nbits size r /\ start <= r /\
          forall a, start <= a < r -> ~ free_at s nbits size a) \/
         (r = nbits /\ forall a, start <= a -> ~ free_at s nbits size a))) s.
Proof.
  intros Hok Hsize. revert start. pose proof (bmp_size _ Hok).
  induction fuel as [|fuel IH]; intros start Hstart Hn Hfuel; cbn [find_free_loop]; [lia|].
  rewrite (wrap_small 64 (start + size)), (wrap_small 64 (start + 1)) by (unfold in_width; lia).
  apply wp_if. destruct (Z.leb_spec (start + size) nbits) as [Hle|Hgt].
  - assert (Hnext : ~ free_at s nbits size start -> wp (find_free_loop fuel (start + 1) nbits size)
      (fun r s' => s' = s /\
        ((free_at s nbits size r /\ start <= r /\
          forall a, start <= a < r -> ~ free_at s nbits size a) \/
         (r = nbits /\ forall a, start <= a -> ~ free_at s nbits size a))) s).
    { intros Hnf. eapply wp_mono; [apply IH; lia|]. cbv beta.
      assert (Hcase : forall a, start <= a -> a = start \/ start + 1 <= a) by lia.
      intros r s' [-> [(Hf & Hr & Hmin)|(-> & Hno)]]; (split; [done|]); [left|right].
      - split; [done|]. split; [lia|]. intros a Ha.
        destruct (Hcase a ltac:(lia)) as [->|]; [done|]. apply Hmin. lia.
      - split; [done|]. intros a Ha. destruct (Hcase a Ha) as [->|]; auto. }
    apply wp_bind. eapply wp_mono; [apply test_bit_ok; [done|lia]|]. cbv beta.
    intros r s' [-> ->]. destruct (bit s start) eqn:Eb.
    + apply Hnext. intros (_ & _ & Hc). by rewrite (Hc start ltac:(lia)) in Eb.
    + apply wp_bind. eapply wp_mono; [apply is_free_region_ok; done || lia|]. cbv beta.
      intros r s' [-> Hr]. destruct r.
      * apply wp_ret. split; [done|]. left. split; [|split; [lia|intros; lia]].
        split; [lia|]. split; [lia|]. by apply Hr.
      * apply Hnext. intros (_ & _ & Hc). by apply Hr in Hc.
  - apply wp_ret. split; [done|]. right. split; [done|]. intros a Ha (_ & Hle & _). lia.
Qed.

(** Bitmaps are determined by their bits. *)
Lemma bmp_ext s s' :
  Forall (in_width 64) s -> Forall (in_width 64) s' -> length s' = length s ->
  (forall i, 0 <= i -> bit s' i = bit s i) -> s' = s.
Proof.
  intros Hs Hs' Hlen Hb. apply list_eq_same_length with (length s); [done|done|].
  intros k w' w Hlt Hw' Hw. apply Z.bits_inj'. intros j Hj.
  assert (Hin : in_width 64 w) by (by eapply (Forall_lookup_1 _ s)).
  assert (Hin' : in_width 64 w') by (by eapply (Forall_lookup_1 _ s')).
  destruct (Z.ltb_spec j 64).
  - rewrite <- (bit_word s k w), <- (bit_word s' k w') by (done || lia). apply Hb. lia.
  - by rewrite (testbit_high 64 w), (testbit_high 64 w') by (done || lia).
Qed.

Lemma fill_region_ok start last s :
  0 <= start <= last -> last <= nbits_of s -> bmp_ok s ->
  wp (bitmap_fill_region start last) (fun _ s' => region_post true start last s s') s.
Proof.
  apply (region_upd_ok true (fun w m => Z.lor w m)).
  - intros. by apply lor_range.
  - intros w m j Hw Hm Hj. rewrite Z.lor_spec.
    by destruct (Z.testbit m j); rewrite ?orb_true_r, ?orb_false_r.
Qed.

Lemma zero_region_ok start last s :
  0 <= start <= last -> last <= nbits_of s -> bmp_ok s ->
  wp (bitmap_zero_region start last) (fun _ s' => region_post false start last s s') s.
Proof.
  apply (region_upd_ok false (fun w m => Z.land w (~{64} m))).
  - intros w m Hw Hm. apply land_range; [lia|done|]. unfold in_width in Hm. lia.
  - intros w m j Hw Hm Hj. rewrite Z.land_spec, testbit_wnot by (done || lia).
    rewrite (proj2 (Z.ltb_lt j 64)) by lia. cbn [andb].
    by destruct (Z.testbit m j); rewrite ?andb_true_r, ?andb_false_r.
Qed.

Lemma region_post_bmp_ok v start last s s' :
  bmp_ok s -> region_post v start last s s' -> bmp_ok s' /\ nbits_of s' = nbits_of s.
Proof.
  intros [_ Hsz] (Hlen & Hws & _).
  assert (E : nbits_of s' = nbits_of s) by (unfold nbits_of; by rewrite Hlen).
  split; [constructor; [done | by rewrite E] | done].
Qed.

(** [bitmap_fill_region] sets and [bitmap_zero_region] clears exactly the
    bits from [start] up to but not including [last], for every alignment of the
    two ends to words; the array keeps its size and no other bit changes. *)
Theorem region_updates s start last (Hs : bmp_ok s)
    (Hr : 0 <= start <= last) (Hl : last <= nbits_of s) :
  exists s1 s2,
    bitmap_fill_region start last s = Done tt s1 /\
    bitmap_zero_region start last s = Done tt s2 /\
    bmp_ok s1 /\ bmp_ok s2 /\ nbits_of s1 = nbits_of s /\ nbits_of s2 = nbits_of s /\
    forall i, 0 <= i ->
      bit s1 i = (bit s i || in_region start last i) /\
      bit s2 i = (bit s i && negb (in_region start last i)).
Proof.
  destruct (proj1 (wp_run _ _ _) (fill_region_ok start last s Hr Hl Hs)) as ([] & s1 & -> & H1).
  destruct (proj1 (wp_run _ _ _) (zero_region_ok start last s Hr Hl Hs)) as ([] & s2 & -> & H2).
  destruct (region_post_bmp_ok _ _ _ _ _ Hs H1) as [Hok1 Hn1].
  destruct (region_post_bmp_ok _ _ _ _ _ Hs H2) as [Hok2 Hn2].
  exists s1, s2. do 6 (split; [done|]). intros i Hi.
  destruct H1 as (_ & _ & Hb1). destruct H2 as (_ & _ & Hb2).
  rewrite Hb1, Hb2 by done.
  by destruct (in_region start last i), (bit s i).
Qed.

Lemma demo_bmp_ok : bmp_ok [0xF0; 0; 1].
Proof. constructor; [repeat constructor; unfold in_width; lia | vm_compute; reflexivity]. Qed.

Lemma region_updates_witness :
  exists s1, bitmap_fill_region 60 130 [0xF0; 0; 1] = Done tt s1 /\ bit s1 129 = true.
Proof.
  destruct (region_updates [0xF0; 0; 1] 60 130 demo_bmp_ok ltac:(lia)
              ltac:(vm_compute; discriminate)) as (s1 & s2 & H1 & _ & _ & _ & _ & _ & Hb).
  exists s1. split; [exact H1|]. rewrite (proj1 (Hb 129 ltac:(lia))). vm_compute. reflexivity.
Defined.

(** [bitmap_find_free_region] is first fit: it returns the least index at
    which [size] clear bits start inside the first [nbits] bits, and returns
    [nbits] exactly when there is no such index. *)
Theorem find_free_region_first_fit s nbits size (Hs : bmp_ok s)
    (Hn : 0 <= nbits <= nbits_of s) (Hsize : 0 < size < 2 ^ 63) :
  exists r, bitmap_find_free_region nbits size s = Done r s /\
    ((free_at s nbits size r /\ forall a, a < r -> ~ free_at s nbits size a) \/
     (r = nbits /\ forall a, ~ free_at s nbits size a)).
Proof.
  assert (Hpos : forall a, free_at s nbits size a -> 0 <= a) by (by intros a (? & _)).
  assert (Hloop : wp (bitmap_find_free_region nbits size) (fun r s' => s' = s /\
    ((free_at s nbits size r /\ 0 <= r /\ forall a, 0 <= a < r -> ~ free_at s nbits size a) \/
     (r = nbits /\ forall a, 0 <= a -> ~ free_at s nbits size a))) s).
  { unfold bitmap_find_free_region. rewrite (proj2 (Z.eqb_neq size 0)) by lia.
    apply find_free_loop_ok; done || lia. }
  apply wp_run in Hloop as (r & s' & -> & -> & Hcase). exists r. split; [done|].
  destruct Hcase as [(Hf & Hr & Hmin)|(-> & Hno)]; [left|right]; (split; [done|]).
  - intros a Ha Hfa. apply (Hmin a); [|done]. split; [by apply Hpos | done].
  - intros a Hfa. apply (Hno a); [by apply Hpos | done].
Qed.

Lemma find_free_region_first_fit_witness :
  exists r, bitmap_find_free_region 192 70 [0xF0; 0; 1] = Done r [0xF0; 0; 1] /\
    ((free_at [0xF0; 0; 1] 192 70 r /\ forall a, a < r -> ~ free_at [0xF0; 0; 1] 192 70 a) \/
     (r = 192 /\ forall a, ~ free_at [0xF0; 0; 1] 192 70 a)).
Proof.
  apply (find_free_region_first_fit [0xF0; 0; 1] 192 70 demo_bmp_ok); [|lia].
  vm_compute. split; discriminate.
Defined.

(** Taking a region found free and giving it back is the identity: after
    [bitmap_find_free_region] returned [r], filling [r .. r + size) makes all of
    it taken without touching the rest, and clearing it again restores the very
    same bitmap. *)
Theorem region_alloc_release s nbits size r s' (Hs : bmp_ok s)
    (Hn : 0 <= nbits <= nbits_of s) (Hsize : 0 < size < 2 ^ 63)
    (Hfind : bitmap_find_free_region nbits size s = Done r s') (Hr : r <> nbits) :
  exists s1,
    bitmap_fill_region r (r + size) s' = Done tt s1 /\
    (forall i, 0 <= i -> bit s1 i = (bit s i || in_region r (r + size) i)) /\
    bitmap_zero_region r (r + size) s1 = Done tt s.
Proof.
  assert (Hloop : s' = s /\ free_at s nbits size r).
  { unfold bitmap_find_free_region in Hfind. rewrite (proj2 (Z.eqb_neq size 0)) in Hfind by lia.
    destruct (proj1 (wp_run _ _ _) (find_free_loop_ok (S (Z.to_nat nbits)) 0 nbits size s Hs Hsize
      ltac:(lia) ltac:(lia) ltac:(lia))) as (r0 & s0 & Hrun & -> & [(Hf & _)|[-> _]]);
      rewrite Hfind in Hrun; injection Hrun as -> ->; done. }
  destruct Hloop as [-> (Hr0 & Hrn & Hc)].
  destruct (proj1 (wp_run _ _ _) (fill_region_ok r (r + size) s ltac:(lia) ltac:(lia) Hs))
    as ([] & s1 & Hrun1 & H1).
  destruct (region_post_bmp_ok _ _ _ _ _ Hs H1) as [Hok1 Hn1].
  destruct (proj1 (wp_run _ _ _) (zero_region_ok r (r + size) s1 ltac:(lia) ltac:(lia) Hok1))
    as ([] & s2 & Hrun2 & H2).
  destruct H1 as (Hl1 & _ & Hb1). destruct H2 as (Hl2 & Hw2 & Hb2).
  exists s1. split; [done|]. split.
  - intros i Hi. rewrite Hb1 by done. by destruct (in_region _ _ i), (bit s i).
  - rewrite Hrun2. f_equal. apply bmp_ext; [apply Hs|done|congruence|].
    intros i Hi. rewrite Hb2, Hb1 by done.
    destruct (in_region r (r + size) i) eqn:E; [|done].
    symmetry. apply Hc. by apply in_region_true.
Qed.

Lemma region_alloc_release_witness :
  exists s1, bitmap_fill_region 8 78 [0xF0; 0; 0x10000] = Done tt s1 /\
    bitmap_zero_region 8 78 s1 = Done tt [0xF0; 0; 0x10000].
Proof.
  destruct (region_alloc_release [0xF0; 0; 0x10000] 192 70 8 [0xF0; 0; 0x10000])
    as (s1 & H1 & _ & H2).
  - constructor; [repeat constructor; unfold in_width; lia | vm_compute; reflexivity].
  - vm_compute. split; discriminate.
  - lia.
  - vm_compute. reflexivity.
  - lia.
  - exists s1. split; [exact H1 | exact H2].
Defined.

(** ** Whole bitmaps *)

Lemma bits_to_longs n : 0 < n < 2 ^ 63 -> BITS_TO_LONGS n = (n - 1) / 64 + 1.
Proof.
  intros Hn. unfold BITS_TO_LONGS, BITS_PER_LONG. rewrite wrap_sub_l, wrap_small
    by (unfold in_width; lia). replace (n + 64 - 1) with (n - 1 + 1 * 64) by lia.
  by rewrite Z.div_add by lia.
Qed.

Lemma tail_mask_eq n : tail_mask n = BMP_LAST_WORD_MASK n.
Proof.
  unfold tail_mask, BMP_LAST_WORD_MASK, BMP_FIRST_WORD_MASK, BMP_WORD_OFFSET, BITS_PER_LONG.
  pose proof (Z.mod_pos_bound n 64 ltac:(lia)). destruct (Z.eqb_spec (n mod 64) 0); [done|].
  set (k := n mod 64) in *. destruct (pow2_bounds k 64 ltac:(lia)) as [Hp Hp2].
  rewrite Z.shiftl_1_l, (wrap_small 64 (2 ^ k)), wrap_small by (unfold in_width; lia).
  unfold ULONG_MAX. rewrite Z.shiftl_mul_pow2 by lia.
  replace (wrap 64 ((2 ^ 64 - 1) * 2 ^ k)) with (2 ^ 64 - 2 ^ k); [lia|].
  unfold wrap. apply Z.mod_unique_pos with (2 ^ k - 1); lia.
Qed.

Lemma lxor_mask_zero w m :
  in_width 64 w -> in_width 64 m ->
  (Z.lxor (Z.land w m) m =? 0) = true <->
  forall j, 0 <= j < 64 -> Z.testbit m j = true -> Z.testbit w j = true.
Proof.
  intros Hw Hm. rewrite Z.eqb_eq. split.
  - intros H0 j Hj Hmj. assert (Hb : Z.testbit (Z.lxor (Z.land w m) m) j = false)
      by (by rewrite H0, Z.bits_0).
    rewrite Z.lxor_spec, Z.land_spec, Hmj, andb_true_r in Hb. by destruct (Z.testbit w j).
  - intros H. apply Z.bits_inj'. intros j Hj. rewrite Z.lxor_spec, Z.land_spec, Z.bits_0.
    destruct (Z.testbit m j) eqn:E; [|by rewrite andb_false_r].
    rewrite H; [done| |done]. destruct (Z.ltb_spec j 64); [lia|].
    by rewrite (testbit_high 64 m) in E by (done || lia).
Qed.

(** The shape shared by [bitmap_empty] and [bitmap_full]: the full words are
    compared with [word_of b], the last one under the mask by [test]. *)
Lemma all_bits_ok b (test : Z -> Z -> bool) n s :
  (forall w m, in_width 64 w -> in_width 64 m -> test w m = true <->
     forall j, 0 <= j < 64 -> Z.testbit m j = true -> Z.testbit w j = b) ->
  bmp_ok s -> 0 < n <= nbits_of s ->
  wp (c_assert (negb (n =? 0));;
      ok ← words_are (word_of b) (Z.to_nat (BITS_TO_LONGS n -{64} 1)) 0;
      if negb ok then mret false
      else w ← rd (BITS_TO_LONGS n -{64} 1); mret (test w (tail_mask n)))
     (fun r s' => s' = s /\ (r = true <-> forall i, 0 <= i < n -> bit s i = b)) s.
Proof.
  intros Htest [Hws Hsz] Hn. unfold nbits_of, BITS_PER_LONG in *. split64 n. split64 (n - 1).
  rewrite bits_to_longs, wrap_small by (unfold in_width; lia). rewrite Z.add_simpl_r.
  apply wp_bind, wp_assert. split; [by rewrite (proj2 (Z.eqb_neq n 0)) by lia|].
  apply wp_bind. eapply wp_mono; [apply words_are_ok; lia|]. cbv beta. intros ok s' [-> Hok].
  rewrite Z2Nat.id, Z.add_0_l in Hok by lia. rewrite (words_const b) in Hok by (done || lia).
  destruct ok; cbn [negb].
  2: { apply wp_ret. split; [done|]. split; [done|]. intros Hb. apply Hok. intros i Hi. apply Hb. lia. }
  pose proof (proj1 Hok eq_refl) as Hall. clear Hok.
  apply wp_bind, rd_ok; [lia|]. intros w Hw. apply wp_ret. split; [done|].
  rewrite tail_mask_eq, Htest by (apply last_mask_width || by eapply Forall_lookup_1).
  set (k := Z.to_nat ((n - 1) / 64)) in *. split.
  - intros Hb i Hi. destruct (Z.ltb_spec i (64 * ((n - 1) / 64))); [apply Hall; lia|].
    replace i with (64 * Z.of_nat k + (i - 64 * Z.of_nat k)) by lia.
    rewrite (bit_word s k w) by (done || lia). apply Hb; [lia|].
    rewrite testbit_last_mask by lia. rewrite orb_true_iff, Z.eqb_eq, Z.ltb_lt. lia.
  - intros Hb j Hj Hm. rewrite testbit_last_mask, orb_true_iff, Z.eqb_eq, Z.ltb_lt in Hm by lia.
    rewrite <- (bit_word s k w) by done. apply Hb. lia.
Qed.

(** [bitmap_empty] and [bitmap_full] decide whether all of the first
    [nbits] bits are clear, respectively set, whatever the bits behind them in
    the last word are. *)
Theorem empty_full_spec s nbits (Hs : bmp_ok s) (Hn : 0 < nbits <= nbits_of s) :
  exists e f,
    bitmap_empty nbits s = Done e s /\ bitmap_full nbits s = Done f s /\
    (e = true <-> forall i, 0 <= i < nbits -> bit s i = false) /\
    (f = true <-> forall i, 0 <= i < nbits -> bit s i = true).
Proof.
  destruct (proj1 (wp_run _ _ _) (all_bits_ok false (fun w m => Z.land w m =? 0) nbits s
    land_mask_zero Hs Hn)) as (e & s1 & He & -> & Hes).
  destruct (proj1 (wp_run _ _ _) (all_bits_ok true (fun w m => Z.lxor (Z.land w m) m =? 0) nbits s
    lxor_mask_zero Hs Hn)) as (f & s2 & Hf & -> & Hfs).
  exists e, f. done.
Qed.

Lemma empty_full_spec_witness :
  exists e f, bitmap_empty 4 [0xF0; 0; 1] = Done e [0xF0; 0; 1] /\
              bitmap_full 4 [0xF0; 0; 1] = Done f [0xF0; 0; 1].
Proof.
  destruct (empty_full_spec [0xF0; 0; 1] 4 demo_bmp_ok) as (e & f & He & Hf & _).
  - vm_compute. split; [reflexivity | discriminate].
  - exists e, f. split; [exact He | exact Hf].
Defined.
