(* ===== verification/CcanList.v ===== *)
(** * ccan/list.h and ccan/list.c

    The intrusive doubly linked list every component of rdma-core uses.  The
    heap maps the address of a [struct list_node] to its two pointers; reading
    or writing through an address that is not in the heap is a fault.  A
    [struct list_head] is the node of the same address.  The offset arithmetic
    between a node and the structure around it is not modelled: elements are
    named by the address of their node. *)

From stdpp Require Import base list gmap sets fin_maps.
From Stdlib Require Import ZArith Lia.
From S2P Require Import Prelude.

#[local] Open Scope Z_scope.

Record list_node := MkNode { next : Z; prev : Z }.

Abbreviation heap := (gmap Z list_node).
Abbreviation L := (M heap).

Definition load (p : Z) : L list_node := h ← get; demand UseAfterFree (h !! p).
Definition store (p : Z) (f : list_node -> list_node) : L unit :=
  n ← load p; modify (<[p := f n]>).

Definition get_next (p : Z) : L Z := n ← load p; mret (next n).
Definition get_prev (p : Z) : L Z := n ← load p; mret (prev n).
Definition set_next (p v : Z) : L unit := store p (fun n => MkNode v (prev n)).
Definition set_prev (p v : Z) : L unit := store p (fun n => MkNode (next n) v).

(** ** Operations *)

Definition list_head_init (h : Z) : L unit := set_prev h h;; set_next h h.
Definition list_node_init (n : Z) : L unit := set_prev n n;; set_next n n.

Definition list_add_after_ (p n : Z) : L unit :=
  pn ← get_next p;
  set_next n pn;;
  set_prev n p;;
  pn' ← get_next p;
  set_prev pn' n;;
  set_next p n.

Definition list_add_ (h n : Z) : L unit := list_add_after_ h n.

Definition list_add_before_ (p n : Z) : L unit :=
  set_next n p;;
  pp ← get_prev p;
  set_prev n pp;;
  pp' ← get_prev p;
  set_next pp' n;;
  set_prev p n.

Definition list_add_tail_ (h n : Z) : L unit := list_add_before_ h n.

Definition list_empty_ (h : Z) : L bool := n ← get_next h; mret (n =? h).
Definition list_empty_nocheck (h : Z) : L bool := n ← get_next h; mret (n =? h).

Definition list_del_ (n : Z) : L unit :=
  nn ← get_next n;
  np ← get_prev n;
  set_prev nn np;;
  np' ← get_prev n;
  nn' ← get_next n;
  set_next np' nn'.

Definition list_del_init_ (n : Z) : L unit := list_del_ n;; list_node_init n.

Definition list_del_from (h n : Z) : L unit :=
  e ← list_empty_ h;
  c_assert (negb e);;
  list_del_ n.

Definition list_swap_ (o n : Z) : L unit :=
  on ← load o;
  store n (fun _ => on);;
  nn ← get_next n;
  set_prev nn n;;
  np ← get_prev n;
  set_next np n.

(** [NULL] is [None]. *)
Definition list_top_ (h : Z) : L (option Z) :=
  e ← list_empty_ h;
  if (e : bool) then mret None else n ← get_next h; mret (Some n).

Definition list_pop_ (h : Z) : L (option Z) :=
  e ← list_empty_ h;
  if (e : bool) then mret None
  else n ← get_next h; list_del_ n;; mret (Some n).

Definition list_tail_ (h : Z) : L (option Z) :=
  e ← list_empty_ h;
  if (e : bool) then mret None else n ← get_prev h; mret (Some n).

Definition list_entry_or_null (h n : Z) : option Z := if n =? h then None else Some n.
Definition list_next (h i : Z) : L (option Z) := n ← get_next i; mret (list_entry_or_null h n).
Definition list_prev (h i : Z) : L (option Z) := n ← get_prev i; mret (list_entry_or_null h n).

Definition list_append_list_ (to from : Z) : L unit :=
  from_tail ← get_prev from;
  to_tail ← get_prev to;
  set_prev to from_tail;;
  set_next from_tail to;;
  set_next to_tail from;;
  set_prev from to_tail;;
  list_del_ from;;
  list_head_init from.

Definition list_prepend_list_ (to from : Z) : L unit :=
  from_tail ← get_prev from;
  to_head ← get_next to;
  set_next to from;;
  set_prev from to;;
  set_prev to_head from_tail;;
  set_next from_tail to_head;;
  list_del_ from;;
  list_head_init from.

(** [list_for_each(h, i, ...) body]: [dir] is [get_next] or [get_prev]; the
    body updates the local variables [a] of the function around the loop. *)
Fixpoint for_each_loop {A} (fuel : nat) (dir : Z -> L Z) (h i : Z)
    (body : A -> Z -> L A) (a : A) : L A :=
  match fuel with
  | O => fail FuelOut
  | S fuel' =>
      if i =? h then mret a
      else a' ← body a i; i' ← dir i; for_each_loop fuel' dir h i' body a'
  end.

Definition list_for_each {A} (fuel : nat) (h : Z) (body : A -> Z -> L A) (a : A) : L A :=
  i ← get_next h; for_each_loop fuel get_next h i body a.

Definition list_for_each_rev {A} (fuel : nat) (h : Z) (body : A -> Z -> L A) (a : A) : L A :=
  i ← get_prev h; for_each_loop fuel get_prev h i body a.

(** [list_for_each_safe(h, i, nxt, ...) body]: the successor is read before the
    body runs. *)
Fixpoint for_each_safe_loop {A} (fuel : nat) (h i nxt : Z)
    (body : A -> Z -> L A) (a : A) : L A :=
  match fuel with
  | O => fail FuelOut
  | S fuel' =>
      if i =? h then mret a
      else a' ← body a i; nxt' ← get_next nxt; for_each_safe_loop fuel' h nxt nxt' body a'
  end.

Definition list_for_each_safe {A} (fuel : nat) (h : Z) (body : A -> Z -> L A) (a : A) : L A :=
  i ← get_next h; nxt ← get_next i; for_each_safe_loop fuel h i nxt body a.

(** The walk of [list_check_node]: from [p] with successor [n] back to [node].
    [false] is the [NULL] of a corrupt list. *)
Fixpoint check_loop (fuel : nat) (node p n : Z) : L bool :=
  match fuel with
  | O => fail FuelOut
  | S fuel' =>
      if n =? node then pv ← get_prev node; mret (pv =? p)
      else
        pv ← get_prev n;
        if negb (pv =? p) then mret false
        else n' ← get_next n; check_loop fuel' node n n'
  end.

(** Every iteration visits a new node, so the size of the heap bounds them. *)
Definition list_check_node (node : Z) : L bool :=
  h ← get;
  n ← get_next node;
  check_loop (S (size h)) node node n.

Definition list_check (h : Z) : L bool := list_check_node h.

(** ** Rings

    The pointers of a heap as two maps; a write to one field updates one of
    them. *)

Definition nexts (h : heap) : gmap Z Z := next <$> h.
Definition prevs (h : heap) : gmap Z Z := prev <$> h.

Section chains.
Implicit Types (N P : gmap Z Z) (l : list Z).

Definition link N P (a b : Z) : Prop := N !! a = Some b /\ P !! b = Some a.

(** [a], the elements of [l] and [b] are linked one to the next. *)
Fixpoint chain N P (a : Z) (l : list Z) (b : Z) : Prop :=
  match l with
  | [] => link N P a b
  | x :: l' => link N P a x /\ chain N P x l' b
  end.

Lemma chain_app N P a l1 x l2 b :
  chain N P a (l1 ++ x :: l2) b <-> chain N P a l1 x /\ chain N P x l2 b.
Proof.
  revert a. induction l1 as [|y l1 IH]; intros a; cbn; [done|]. rewrite IH. tauto.
Qed.

Lemma chain_insert_next N P a l b c v :
  c ∉ a :: l -> chain N P a l b -> chain (<[c := v]> N) P a l b.
Proof.
  revert a. induction l as [|x l IH]; intros a Hc; cbn; unfold link.
  - intros [? ?]. rewrite lookup_insert_ne by set_solver. done.
  - intros [[? ?] ?]. rewrite lookup_insert_ne by set_solver.
    split; [done|]. apply IH; [set_solver|done].
Qed.

Lemma chain_insert_prev N P a l b c v :
  c ∉ l -> c <> b -> chain N P a l b -> chain N (<[c := v]> P) a l b.
Proof.
  revert a. induction l as [|x l IH]; intros a Hc Hb; cbn; unfold link.
  - intros [? ?]. by rewrite lookup_insert_ne.
  - intros [[? ?] ?]. rewrite (lookup_insert_ne P) by set_solver.
    split; [done|]. apply IH; [set_solver|done..].
Qed.

(** Chains only look at their own nodes. *)
Lemma chain_ext N P N' P' a l b :
  (forall c, c ∈ a :: l ++ [b] -> N' !! c = N !! c /\ P' !! c = P !! c) ->
  chain N P a l b -> chain N' P' a l b.
Proof.
  revert a. induction l as [|x l IH]; intros a Heq; cbn; unfold link.
  - destruct (Heq a) as [-> _]; [set_solver|]. destruct (Heq b) as [_ ->]; [set_solver|done].
  - destruct (Heq a) as [-> _]; [set_solver|]. destruct (Heq x) as [_ ->]; [set_solver|].
    intros [? ?]. split; [done|]. apply IH; [|done]. set_solver.
Qed.

End chains.

(** The nodes of [r], in this order, form a closed ring. *)
Definition ring (h : heap) (r : list Z) : Prop :=
  match r with
  | [] => False
  | x :: l => NoDup r /\ chain (nexts h) (prevs h) x l x
  end.

(** The list with head [h] holds the elements [l]. *)
Definition is_list (m : heap) (h : Z) (l : list Z) : Prop := ring m (h :: l).

Lemma ring_rotate m x l1 y l2 : ring m (x :: l1 ++ y :: l2) <-> ring m (y :: l2 ++ x :: l1).
Proof.
  cbn. rewrite !chain_app.
  assert (Hperm : x :: l1 ++ y :: l2 ≡ₚ y :: l2 ++ x :: l1)
    by apply (Permutation_app_comm (x :: l1) (y :: l2)).
  rewrite Hperm. tauto.
Qed.

(** [m'] differs from [m] at most at the nodes [xs]. *)
Definition outside (xs : list Z) (m m' : heap) : Prop :=
  (forall a, a ∉ xs -> m' !! a = m !! a) /\ dom m' = dom m.

Lemma node_ext (m m' : heap) a :
  nexts m' !! a = nexts m !! a -> prevs m' !! a = prevs m !! a -> m' !! a = m !! a.
Proof.
  unfold nexts, prevs. rewrite !lookup_fmap.
  destruct (m' !! a) as [[? ?]|], (m !! a) as [[? ?]|]; cbn; intros; simplify_eq; done.
Qed.

Lemma outside_intro xs m m' :
  dom m' = dom m ->
  (forall a, a ∉ xs -> nexts m' !! a = nexts m !! a /\ prevs m' !! a = prevs m !! a) ->
  outside xs m m'.
Proof. intros Hd H. split; [|done]. intros a Ha. destruct (H a Ha). by apply node_ext. Qed.

Lemma ring_outside m m' r xs :
  outside xs m m' -> (forall a, a ∈ r -> a ∉ xs) -> ring m r -> ring m' r.
Proof.
  intros [Ho _] Hd. destruct r as [|x l]; [done|]. intros [Hnd Hc]. split; [done|].
  eapply chain_ext; [|done]. intros c Hcin. unfold nexts, prevs. rewrite !lookup_fmap.
  rewrite Ho; [done|]. apply Hd. set_solver.
Qed.

(** *** Rules for loads and stores *)

(** The heap as its two pointer maps and its domain. *)
Definition view (m : heap) (N P : gmap Z Z) (D : gset Z) : Prop :=
  nexts m = N /\ prevs m = P /\ dom m = D.

Lemma view_self m : view m (nexts m) (prevs m) (dom m).
Proof. done. Qed.

Section rules.
Context (m : heap) (N P : gmap Z Z) (D : gset Z) (Hm : view m N P D).

Lemma wp_get_next p v Q : N !! p = Some v -> Q v m -> wp (get_next p) Q m.
Proof.
  destruct Hm as (<- & _ & _). unfold nexts. rewrite lookup_fmap. intros Hp HQ.
  destruct (m !! p) as [nd|] eqn:E; [|done]. injection Hp as <-.
  unfold get_next, load. wp_steps. by exists nd.
Qed.

Lemma wp_get_prev p v Q : P !! p = Some v -> Q v m -> wp (get_prev p) Q m.
Proof.
  destruct Hm as (_ & <- & _). unfold prevs. rewrite lookup_fmap. intros Hp HQ.
  destruct (m !! p) as [nd|] eqn:E; [|done]. injection Hp as <-.
  unfold get_prev, load. wp_steps. by exists nd.
Qed.

Lemma wp_store p f Q :
  p ∈ D -> (forall nd, m !! p = Some nd -> Q tt (<[p := f nd]> m)) -> wp (store p f) Q m.
Proof.
  destruct Hm as (_ & _ & <-). intros Hp HQ. apply elem_of_dom in Hp as [nd E].
  unfold store, load. wp_steps. exists nd. split; [done|]. wp_steps. by apply HQ.
Qed.

Lemma wp_set_next p v Q :
  p ∈ D -> (forall m', view m' (<[p := v]> N) P D -> Q tt m') -> wp (set_next p v) Q m.
Proof.
  intros Hp HQ. apply wp_store; [done|]. intros nd E. apply HQ.
  destruct Hm as (<- & <- & <-). split; [|split].
  - unfold nexts. by rewrite fmap_insert.
  - unfold prevs. rewrite fmap_insert. cbn. apply insert_id. by rewrite lookup_fmap, E.
  - rewrite dom_insert_L. set_solver.
Qed.

Lemma wp_set_prev p v Q :
  p ∈ D -> (forall m', view m' N (<[p := v]> P) D -> Q tt m') -> wp (set_prev p v) Q m.
Proof.
  intros Hp HQ. apply wp_store; [done|]. intros nd E. apply HQ.
  destruct Hm as (<- & <- & <-). split; [|split].
  - unfold nexts. rewrite fmap_insert. cbn. apply insert_id. by rewrite lookup_fmap, E.
  - unfold prevs. by rewrite fmap_insert.
  - rewrite dom_insert_L. set_solver.
Qed.

End rules.

(** Run one load or store. *)
Ltac lstep :=
  match goal with
  | |- wp (mbind _ _) _ _ => apply wp_bind
  | |- wp (mret _) _ _ => apply wp_ret
  | H : view ?m _ _ _ |- wp (get_next _) _ ?m =>
      eapply (wp_get_next m _ _ _ H); [by simplify_map_eq|]
  | H : view ?m _ _ _ |- wp (get_prev _) _ ?m =>
      eapply (wp_get_prev m _ _ _ H); [by simplify_map_eq|]
  | H : view ?m _ _ _ |- wp (set_next _ _) _ ?m =>
      apply (wp_set_next m _ _ _ H); [by eauto 2 with ccan|]; clear H;
      let m' := fresh "m" in intros m' H
  | H : view ?m _ _ _ |- wp (set_prev _ _) _ ?m =>
      apply (wp_set_prev m _ _ _ H); [by eauto 2 with ccan|]; clear H;
      let m' := fresh "m" in intros m' H
  end; cbv beta.

Lemma nexts_dom m a b : nexts m !! a = Some b -> a ∈ dom m.
Proof. intros H. unfold nexts in H. apply elem_of_dom. rewrite lookup_fmap in H.
  by destruct (m !! a); eauto. Qed.

Lemma prevs_dom m a b : prevs m !! a = Some b -> a ∈ dom m.
Proof. intros H. unfold prevs in H. apply elem_of_dom. rewrite lookup_fmap in H.
  by destruct (m !! a); eauto. Qed.

Create HintDb ccan.
#[export] Hint Resolve nexts_dom prevs_dom : ccan.

(** Conclude from the final pointer maps: the new ring, and nothing else
    changed. *)
Lemma ring_view m m' N' P' x l xs :
  view m' N' P' (dom m) -> NoDup (x :: l) -> chain N' P' x l x ->
  (forall a, a ∉ xs -> N' !! a = nexts m !! a /\ P' !! a = prevs m !! a) ->
  ring m' (x :: l) /\ outside xs m m'.
Proof.
  intros (<- & <- & Hd) Hnd Hc Ho. split; [by split|]. by apply outside_intro.
Qed.

(** *** The operations on rings, seen from the node they are given *)

Lemma ring_add_after m p l n :
  ring m (p :: l) -> n ∈ dom m -> n ∉ p :: l ->
  wp (list_add_after_ p n)
     (fun _ m' => ring m' (p :: n :: l) /\ outside (n :: p :: l) m m') m.
Proof.
  intros [Hnd Hc] Hn Hnp. pose proof (view_self m) as Hv. unfold list_add_after_.
  apply NoDup_cons in Hnd as [Hpl Hnd].
  assert (Hnd' : NoDup (p :: n :: l)) by (rewrite !NoDup_cons; set_solver).
  destruct l as [|y l]; cbn in Hc.
  - destruct Hc as [HN HP]. assert (n <> p) by set_solver.
    repeat lstep. eapply ring_view; [done..| |].
    + cbn. unfold link. by simplify_map_eq.
    + intros a Ha. rewrite !lookup_insert_ne by set_solver. done.
  - destruct Hc as [[HN HP] Hc]. assert (n <> p /\ n <> y /\ p <> y) as (? & ? & ?) by set_solver.
    repeat lstep. eapply ring_view; [done..| |].
    + cbn. split; [unfold link; by simplify_map_eq|]. split; [unfold link; by simplify_map_eq|].
      do 2 (apply chain_insert_next; [set_solver|]).
      apply NoDup_cons in Hnd as [Hyl _].
      do 2 (apply chain_insert_prev; [set_solver..|]). done.
    + intros a Ha. rewrite !lookup_insert_ne by set_solver. done.
Qed.

(** *** Open segments *)

Definition last_of (x : Z) (l : list Z) : Z := default x (last l).

Lemma last_of_cons x y l : last_of x (y :: l) = last_of y l.
Proof. unfold last_of. rewrite last_cons. by destruct (last l). Qed.

Lemma last_of_snoc x l y : last_of x (l ++ [y]) = y.
Proof. unfold last_of. by rewrite last_snoc. Qed.

Lemma last_of_in x l : last_of x l ∈ x :: l.
Proof.
  unfold last_of. destruct (last l) as [y|] eqn:E; cbn; [|set_solver].
  apply last_Some_elem_of in E. set_solver.
Qed.

Section segments.
Implicit Types (N P : gmap Z Z).

Fixpoint seg N P (x : Z) (l : list Z) : Prop :=
  match l with
  | [] => True
  | y :: l' => link N P x y /\ seg N P y l'
  end.

Lemma chain_seg N P x l b : chain N P x l b <-> seg N P x l /\ link N P (last_of x l) b.
Proof.
  revert x. induction l as [|y l IH]; intros x; cbn [chain seg].
  - tauto.
  - rewrite IH, last_of_cons. tauto.
Qed.

Lemma seg_insert_next N P x l c v :
  NoDup (x :: l) -> c = last_of x l \/ c ∉ x :: l -> seg N P x l -> seg (<[c := v]> N) P x l.
Proof.
  revert x. induction l as [|y l IH]; intros x Hnd Hc; cbn [seg]; [done|].
  rewrite last_of_cons in Hc. apply NoDup_cons in Hnd as [Hx Hnd].
  pose proof (last_of_in y l). intros [[? ?] ?].
  assert (c <> x) by set_solver. split; [unfold link; by rewrite lookup_insert_ne|].
  apply IH; [done| |done]. set_solver.
Qed.

Lemma seg_insert_prev N P x l c v : c ∉ l -> seg N P x l -> seg N (<[c := v]> P) x l.
Proof.
  revert x. induction l as [|y l IH]; intros x Hc; cbn [seg]; [done|].
  intros [[? ?] ?]. split; [unfold link; rewrite (lookup_insert_ne P) by set_solver; done|].
  apply IH; [set_solver|done].
Qed.

End segments.

(** What a ring says of its first and last node. *)
Lemma ring_ends m x l :
  ring m (x :: l) ->
  NoDup (x :: l) /\ seg (nexts m) (prevs m) x l /\
  nexts m !! last_of x l = Some x /\ prevs m !! x = Some (last_of x l).
Proof. intros [Hnd Hc]. apply chain_seg in Hc as [? [? ?]]. done. Qed.

Lemma ring_head_next m x l : ring m (x :: l) -> nexts m !! x = Some (default x (head l)).
Proof. intros [_ Hc]. destruct l as [|y l]; cbn in *; [apply Hc | apply Hc]. Qed.

Lemma ring_dom m r a : ring m r -> a ∈ r -> a ∈ dom m.
Proof.
  intros Hr Ha. apply list_elem_of_split in Ha as (l1 & l2 & ->).
  assert (Hrot : ring m (a :: l2 ++ l1)).
  { destruct l1 as [|x l1]; [by rewrite app_nil_r|]. by apply ring_rotate in Hr. }
  apply ring_head_next in Hrot. by eapply nexts_dom.
Qed.

(** Conclude with the ring given as a segment and its closing link. *)
Lemma ring_view_seg m m' N' P' x l xs :
  view m' N' P' (dom m) -> NoDup (x :: l) -> seg N' P' x l ->
  N' !! last_of x l = Some x -> P' !! x = Some (last_of x l) ->
  (forall a, a ∉ xs -> N' !! a = nexts m !! a /\ P' !! a = prevs m !! a) ->
  ring m' (x :: l) /\ outside xs m m'.
Proof.
  intros Hv Hnd Hs HN HP Ho. eapply ring_view; [done..| |done]. by apply chain_seg.
Qed.

(** Solve a goal of the form [chain of inserts !! a = original !! a]. *)
Ltac frame_ptrs :=
  let a := fresh "a" in let Ha := fresh "Ha" in
  intros a Ha; rewrite !lookup_insert_ne by set_solver; done.

Lemma ring_add_before m p l n :
  ring m (p :: l) -> n ∈ dom m -> n ∉ p :: l ->
  wp (list_add_before_ p n)
     (fun _ m' => ring m' (p :: l ++ [n]) /\ outside (n :: p :: l) m m') m.
Proof.
  intros Hr Hn Hnp. pose proof (view_self m) as Hv. unfold list_add_before_.
  destruct (ring_ends _ _ _ Hr) as (Hnd & Hs & HN & HP). pose proof (last_of_in p l) as Hq.
  set (q := last_of p l) in *. assert (n <> p /\ n <> q) as [? ?] by set_solver.
  repeat lstep. apply (ring_view m m3 _ _ _ _ _ Hv).
  - rewrite app_comm_cons. apply NoDup_app. set_solver by auto using NoDup_singleton.
  - apply chain_app. cbn. split; [|unfold link; by simplify_map_eq].
    apply chain_seg. split; [|unfold link; fold q; by simplify_map_eq].
    apply seg_insert_next; [done|by left|]. apply seg_insert_next; [done|by right|].
    apply NoDup_cons in Hnd as [? ?].
    do 2 (apply seg_insert_prev; [set_solver|]). done.
  - frame_ptrs.
Qed.

Lemma ring_del m n y l :
  ring m (n :: y :: l) ->
  wp (list_del_ n) (fun _ m' => ring m' (y :: l) /\ outside (y :: l) m m') m.
Proof.
  intros Hr. pose proof (view_self m) as Hv. unfold list_del_.
  destruct (ring_ends _ _ _ Hr) as (Hnd & [[HN1 HP1] Hs] & HN & HP).
  rewrite last_of_cons in *. pose proof (last_of_in y l) as Ht.
  set (t := last_of y l) in *. apply NoDup_cons in Hnd as [Hn Hnd].
  assert (n <> t /\ n <> y) as [? ?] by set_solver.
  repeat lstep. eapply ring_view_seg; [done..| | | |frame_ptrs].
  - apply seg_insert_next; [done|by left|]. apply seg_insert_prev; [|done].
    by apply NoDup_cons in Hnd as [? _].
  - fold t. by simplify_map_eq.
  - fold t. by simplify_map_eq.
Qed.

Lemma ring_self m n :
  n ∈ dom m ->
  wp (list_head_init n) (fun _ m' => ring m' [n] /\ outside [n] m m') m.
Proof.
  intros Hn. pose proof (view_self m) as Hv. unfold list_head_init. repeat lstep.
  eapply ring_view_seg; [done|by apply NoDup_singleton|done| | |frame_ptrs]; cbn;
    by simplify_map_eq.
Qed.

Lemma ring_swap m o y l n :
  ring m (o :: y :: l) -> n ∈ dom m -> n ∉ o :: y :: l ->
  wp (list_swap_ o n)
     (fun _ m' => ring m' (n :: y :: l) /\ outside (n :: y :: l) m m') m.
Proof.
  intros Hr Hn Hno. destruct (ring_ends _ _ _ Hr) as (Hnd & [[HN1 HP1] Hs] & HN & HP).
  rewrite last_of_cons in *. pose proof (last_of_in y l) as Ht.
  set (t := last_of y l) in *. apply NoDup_cons in Hnd as [Ho Hnd].
  assert (n <> t /\ n <> y /\ n <> o) as (? & ? & ?) by set_solver.
  assert (Hod : m !! o = Some (MkNode y t)).
  { unfold nexts, prevs in *. rewrite lookup_fmap in HN1, HP.
    destruct (m !! o) as [[? ?]|]; cbn in *; simplify_eq. done. }
  unfold list_swap_, load. wp_steps. exists (MkNode y t). split; [done|].
  lstep. apply (wp_store m _ _ _ (view_self m)); [done|]. intros nd _.
  assert (Hv : view (<[n := MkNode y t]> m) (<[n := y]> (nexts m)) (<[n := t]> (prevs m)) (dom m)).
  { unfold view, nexts, prevs. rewrite !fmap_insert, dom_insert_L. split; [done|].
    split; [done|]. set_solver. }
  repeat lstep. eapply ring_view_seg; [done|by apply NoDup_cons; set_solver|..|frame_ptrs].
  - cbn. split; [unfold link; by simplify_map_eq|].
    apply seg_insert_next; [done|by left|]. apply seg_insert_next; [done|right; set_solver|].
    apply NoDup_cons in Hnd as [? ?].
    do 2 (apply seg_insert_prev; [set_solver|]). done.
  - rewrite last_of_cons. fold t. by simplify_map_eq.
  - rewrite last_of_cons. fold t. by simplify_map_eq.
Qed.

Lemma outside_mono xs ys m m' : (forall a, a ∈ xs -> a ∈ ys) -> outside xs m m' -> outside ys m m'.
Proof. intros Hs [Ho Hd]. split; [|done]. intros a Ha. apply Ho. auto. Qed.

Lemma outside_trans xs m1 m2 m3 : outside xs m1 m2 -> outside xs m2 m3 -> outside xs m1 m3.
Proof. intros [H1 D1] [H2 D2]. split; [|congruence]. intros a Ha. by rewrite H2, H1. Qed.

Lemma outside_refl xs m : outside xs m m.
Proof. by split. Qed.

(** Two disjoint rings sewn into one: the last node of each is linked to the
    first of the other. *)
Definition sew (x y x_tail y_tail : Z) (N P : gmap Z Z) : gmap Z Z * gmap Z Z :=
  (<[x_tail := y]> (<[y_tail := x]> N), <[y := x_tail]> (<[x := y_tail]> P)).

Lemma sew_chain m x l1 y l2 :
  ring m (x :: l1) -> ring m (y :: l2) -> NoDup ((x :: l1) ++ y :: l2) ->
  let '(N, P) := sew x y (last_of x l1) (last_of y l2) (nexts m) (prevs m) in
  chain N P x (l1 ++ y :: l2) x.
Proof.
  intros H1 H2 Hd. unfold sew.
  destruct (ring_ends _ _ _ H1) as (Hnd1 & Hs1 & _ & _).
  destruct (ring_ends _ _ _ H2) as (Hnd2 & Hs2 & _ & _).
  pose proof (last_of_in x l1) as Ht1. pose proof (last_of_in y l2) as Ht2.
  set (t1 := last_of x l1) in *. set (t2 := last_of y l2) in *.
  apply NoDup_app in Hd as (_ & Hd & _).
  assert (Hd' : forall a, a ∈ y :: l2 -> a ∉ x :: l1) by (intros a Ha Ha'; by apply (Hd a)).
  pose proof (Hd t1 Ht1) as Ht1y. pose proof (Hd' t2 Ht2) as Ht2x.
  assert (Hxy : x ∉ y :: l2) by (apply Hd; set_solver).
  assert (Hyx : y ∉ x :: l1) by (apply Hd'; set_solver).
  clear Hd Hd'. assert (t1 <> t2 /\ x <> y) as [? ?] by (split; intros ->; set_solver).
  apply NoDup_cons in Hnd1 as Hx. apply NoDup_cons in Hnd2 as Hy.
  rewrite chain_app, !chain_seg. fold t1 t2. repeat split.
  - apply seg_insert_next; [done|by left|]. apply seg_insert_next; [done|right; set_solver|].
    do 2 (apply seg_insert_prev; [set_solver|]). done.
  - by simplify_map_eq.
  - by simplify_map_eq.
  - apply seg_insert_next; [done|right; set_solver|]. apply seg_insert_next; [done|by left|].
    do 2 (apply seg_insert_prev; [set_solver|]). done.
  - by simplify_map_eq.
  - by simplify_map_eq.
Qed.

(** Removing the head of the sewn-in list and making it empty. *)
Lemma drop_sewn_head m0 m x l1 y l2 :
  ring m (x :: l1 ++ y :: l2) -> outside (x :: l1 ++ y :: l2) m0 m ->
  wp (list_del_ y;; list_head_init y)
     (fun _ m' => is_list m' x (l1 ++ l2) /\ is_list m' y [] /\
                  outside (x :: l1 ++ y :: l2) m0 m') m.
Proof.
  intros Hr Hout. assert (Hnd : NoDup (x :: l1 ++ y :: l2)) by apply Hr.
  assert (Hy : y ∉ x :: l1 ++ l2).
  { rewrite app_comm_cons in *. apply NoDup_app in Hnd as (_ & Hd & Hn2).
    apply NoDup_cons in Hn2. set_solver. }
  assert (Hr' : ring m (y :: l2 ++ x :: l1)) by (by apply ring_rotate).
  assert (Hdel : wp (list_del_ y)
    (fun _ m1 => is_list m1 x (l1 ++ l2) /\ outside (x :: l1 ++ l2) m m1) m).
  { destruct l2 as [|z l2]; cbn [app] in Hr'.
    - eapply wp_mono; [by apply ring_del|]. cbv beta. by rewrite app_nil_r.
    - eapply wp_mono; [by apply ring_del|]. cbv beta. intros _ m1 [Hr1 Ho1].
      split; [by apply ring_rotate|]. eapply outside_mono; [|done]. set_solver. }
  apply wp_bind. eapply wp_mono; [done|]. cbv beta. intros _ m1 [Hl1 Ho1].
  assert (Hyd : y ∈ dom m1).
  { rewrite (proj2 Ho1). eapply ring_dom; [done|]. set_solver. }
  eapply wp_mono; [by apply ring_self|]. cbv beta. intros _ m2 [Hr2 Ho2].
  split; [eapply ring_outside; [done| |done]; set_solver|]. split; [done|].
  eapply outside_trans; [done|]. eapply outside_trans; (eapply outside_mono; [|done]); set_solver.
Qed.

Lemma list_append_ok m to l1 from l2 :
  is_list m to l1 -> is_list m from l2 -> NoDup ((to :: l1) ++ from :: l2) ->
  wp (list_append_list_ to from)
     (fun _ m' => is_list m' to (l1 ++ l2) /\ is_list m' from [] /\
                  outside (to :: l1 ++ from :: l2) m m') m.
Proof.
  intros H1 H2 Hd. pose proof (sew_chain m to l1 from l2 H1 H2 Hd) as Hc.
  destruct (ring_ends _ _ _ H1) as (_ & _ & HN1 & HP1).
  destruct (ring_ends _ _ _ H2) as (_ & _ & HN2 & HP2).
  pose proof (view_self m) as Hv. unfold list_append_list_. do 12 lstep.
  assert (Hr : ring m3 (to :: l1 ++ from :: l2) /\ outside (to :: l1 ++ from :: l2) m m3).
  { pose proof (last_of_in to l1). pose proof (last_of_in from l2).
    eapply ring_view; [done..|frame_ptrs]. }
  destruct Hr. by apply drop_sewn_head.
Qed.

Lemma list_prepend_ok m to l1 from l2 :
  is_list m to l1 -> is_list m from l2 -> NoDup ((to :: l1) ++ from :: l2) ->
  wp (list_prepend_list_ to from)
     (fun _ m' => is_list m' to (l2 ++ l1) /\ is_list m' from [] /\
                  outside (to :: from :: l2 ++ l1) m m') m.
Proof.
  intros H1 H2 Hd. pose proof (ring_head_next _ _ _ H1) as HN1.
  destruct (ring_ends _ _ _ H2) as (_ & _ & HN2 & HP2).
  pose proof (last_of_in from l2) as Ht.
  (* the ring of [to], started at its first element [x]; [to] is its last node *)
  assert (Hx : exists x l, x :: l ≡ₚ to :: l1 /\ default to (head l1) = x /\ last_of x l = to /\
    ring m (x :: l) /\ forall m' l', ring m' (x :: l ++ l') -> ring m' (to :: l' ++ l1)).
  { destruct l1 as [|z l1].
    - exists to, []. do 3 (split; [done|]). split; [exact H1|]. intros m' l'. by rewrite app_nil_r.
    - exists z, (l1 ++ [to]). rewrite last_of_snoc.
      split; [by rewrite app_comm_cons, Permutation_app_comm|]. do 2 (split; [done|]).
      split; [apply (ring_rotate m to []); exact H1|].
      intros m' l'. rewrite <- app_assoc. intros Hr. by apply (ring_rotate m' z l1 to l'). }
  destruct Hx as (x & l & Hperm & Hhead & Hlast & Hr & Hback). rewrite Hhead in HN1.
  assert (Hd' : NoDup ((x :: l) ++ from :: l2)) by (by rewrite Hperm).
  pose proof (sew_chain m x l from l2 Hr H2 Hd') as Hc. rewrite Hlast in Hc. unfold sew in Hc.
  apply NoDup_app in Hd as (_ & Hd & _).
  assert (to <> last_of from l2) by (intros E; apply (Hd to); [set_solver|by rewrite E]).
  assert (from <> x) by (intros ->; apply (Hd x); [rewrite <- Hperm|]; set_solver).
  rewrite (insert_insert_ne (nexts m)), (insert_insert_ne (prevs m)) in Hc by done.
  assert (x ∈ dom m) by (eapply ring_dom; [exact Hr|set_solver]).
  assert (x ∈ to :: l1) by (rewrite <- Hperm; set_solver).
  pose proof (view_self m) as Hv. unfold list_prepend_list_. do 12 lstep.
  assert (Hres : ring m3 (x :: l ++ from :: l2) /\ outside (to :: from :: l2 ++ l1) m m3).
  { eapply ring_view; [done..|frame_ptrs]. }
  destruct Hres as [Hres Ho]. apply Hback in Hres.
  apply (drop_sewn_head m m3 to [] from (l2 ++ l1)); [done|done].
Qed.

(** ** Lists as sequences

    What the list operations promise: the elements of the list in order. *)

Inductive list_op : Set :=
| OpAdd (n : Z) | OpAddTail (n : Z) | OpAddAfter (p n : Z) | OpAddBefore (p n : Z)
| OpDel (n : Z) | OpDelFrom (n : Z) | OpSwap (o n : Z)
| OpPop | OpTop | OpTail | OpEmpty | OpNext (i : Z) | OpPrev (i : Z).

Inductive list_res : Set := RUnit | RPtr (p : option Z) | RBool (b : bool).

Definition run_op (h : Z) (op : list_op) : L list_res :=
  match op with
  | OpAdd n => list_add_ h n;; mret RUnit
  | OpAddTail n => list_add_tail_ h n;; mret RUnit
  | OpAddAfter p n => list_add_after_ p n;; mret RUnit
  | OpAddBefore p n => list_add_before_ p n;; mret RUnit
  | OpDel n => list_del_ n;; mret RUnit
  | OpDelFrom n => list_del_from h n;; mret RUnit
  | OpSwap o n => list_swap_ o n;; mret RUnit
  | OpPop => p ← list_pop_ h; mret (RPtr p)
  | OpTop => p ← list_top_ h; mret (RPtr p)
  | OpTail => p ← list_tail_ h; mret (RPtr p)
  | OpEmpty => b ← list_empty_ h; mret (RBool b)
  | OpNext i => p ← list_next h i; mret (RPtr p)
  | OpPrev i => p ← list_prev h i; mret (RPtr p)
  end.

(** Replace each occurrence of [p] by [f p]. *)
Definition at_elem (p : Z) (f : list Z) (l : list Z) : list Z :=
  x ← l; if x =? p then f else [x].

(** The element after (before) [i]. *)
Fixpoint succ_of (i : Z) (l : list Z) : option Z :=
  match l with
  | [] => None
  | x :: l' => if x =? i then head l' else succ_of i l'
  end.

Definition spec_op (op : list_op) (l : list Z) : list_res * list Z :=
  match op with
  | OpAdd n => (RUnit, n :: l)
  | OpAddTail n => (RUnit, l ++ [n])
  | OpAddAfter p n => (RUnit, at_elem p [p; n] l)
  | OpAddBefore p n => (RUnit, at_elem p [n; p] l)
  | OpDel n | OpDelFrom n => (RUnit, at_elem n [] l)
  | OpSwap o n => (RUnit, at_elem o [n] l)
  | OpPop => (RPtr (head l), tail l)
  | OpTop => (RPtr (head l), l)
  | OpTail => (RPtr (last l), l)
  | OpEmpty => (RBool (bool_decide (l = [])), l)
  | OpNext i => (RPtr (succ_of i l), l)
  | OpPrev i => (RPtr (succ_of i (reverse l)), l)
  end.

(** A node that is added is allocated and not in the list yet; a node that is
    named otherwise is an element. *)
Definition op_ok (D : gset Z) (h : Z) (op : list_op) (l : list Z) : Prop :=
  match op with
  | OpAdd n | OpAddTail n => n ∈ D /\ n ∉ h :: l
  | OpAddAfter p n | OpAddBefore p n | OpSwap p n => p ∈ l /\ n ∈ D /\ n ∉ h :: l
  | OpDel n | OpDelFrom n | OpNext n | OpPrev n => n ∈ l
  | _ => True
  end.

Lemma at_elem_split p f l :
  NoDup l -> p ∈ l ->
  exists l1 l2, l = l1 ++ p :: l2 /\ p ∉ l1 /\ p ∉ l2 /\ at_elem p f l = l1 ++ f ++ l2.
Proof.
  intros Hnd Hp. apply list_elem_of_split in Hp as (l1 & l2 & ->). exists l1, l2.
  apply NoDup_app in Hnd as (_ & Hd & Hnd). apply NoDup_cons in Hnd as [Hp2 _].
  assert (Hp1 : p ∉ l1) by (intros Hin; apply (Hd p Hin); set_solver).
  do 3 (split; [done|]).
  assert (Hid : forall k, p ∉ k -> at_elem p f k = k).
  { induction k as [|x k IH]; intros Hk; [done|]. unfold at_elem in *. cbn.
    rewrite (proj2 (Z.eqb_neq x p)) by set_solver. cbn. f_equal. apply IH. set_solver. }
  assert (Happ : at_elem p f (l1 ++ p :: l2) = at_elem p f l1 ++ f ++ at_elem p f l2)
    by (unfold at_elem; rewrite bind_app; cbn; by rewrite Z.eqb_refl).
  by rewrite Happ, !Hid.
Qed.

(** Opening a list at one of its elements. *)
Lemma is_list_split m h l1 p l2 :
  is_list m h (l1 ++ p :: l2) <-> ring m (p :: l2 ++ h :: l1).
Proof. apply ring_rotate. Qed.

Lemma succ_of_split i l1 l2 : i ∉ l1 -> succ_of i (l1 ++ i :: l2) = head l2.
Proof.
  induction l1 as [|x l1 IH]; intros Hi; cbn; [by rewrite Z.eqb_refl|].
  rewrite (proj2 (Z.eqb_neq x i)) by set_solver. apply IH. set_solver.
Qed.

Lemma del_elem_ok m h l1 n l2 :
  is_list m h (l1 ++ n :: l2) ->
  wp (list_del_ n) (fun _ m' => is_list m' h (l1 ++ l2) /\ outside (h :: l1 ++ l2) m m') m.
Proof.
  intros Hl. apply is_list_split in Hl. destruct l2 as [|y l2]; cbn [app] in Hl.
  - eapply wp_mono; [by apply ring_del|]. cbv beta. by rewrite app_nil_r.
  - eapply wp_mono; [by apply ring_del|]. cbv beta. intros _ m' [Hr Ho].
    split; [by apply is_list_split|]. eapply outside_mono; [|done]. set_solver.
Qed.

Lemma del_in_list_ok m h l n :
  is_list m h l -> n ∈ l ->
  wp (list_del_ n) (fun _ m' => is_list m' h (at_elem n [] l) /\ outside (h :: l) m m') m.
Proof.
  intros Hl Hn. assert (Hnd : NoDup (h :: l)) by apply Hl. apply NoDup_cons in Hnd as [_ Hnd].
  destruct (at_elem_split n [] l) as (l1 & l2 & -> & Hp1 & Hp2 & ->); [done..|].
  eapply wp_mono; [by apply (del_elem_ok m h l1 n l2)|]. cbv beta. intros _ m' [Hr Ho].
  split; [done|]. eapply outside_mono; [|done]. set_solver.
Qed.

Lemma head_next_ok m h l Q :
  is_list m h l -> Q (default h (head l)) m -> wp (get_next h) Q m.
Proof.
  intros Hl HQ. eapply (wp_get_next m _ _ _ (view_self m)); [by apply ring_head_next|done].
Qed.

Lemma empty_ok m h l Q : is_list m h l -> Q (bool_decide (l = [])) m -> wp (list_empty_ h) Q m.
Proof.
  intros Hl HQ. unfold list_empty_. apply wp_bind. eapply head_next_ok; [done|].
  apply wp_ret. destruct l as [|x l]; cbn; [by rewrite Z.eqb_refl|].
  rewrite (proj2 (Z.eqb_neq x h)); [done|]. destruct Hl as [Hnd _].
  apply NoDup_cons in Hnd. set_solver.
Qed.

(** One operation implements its sequence counterpart, and touches no node
    besides the list and the node it is given. *)
Definition op_nodes (op : list_op) : list Z :=
  match op with
  | OpAdd n | OpAddTail n | OpAddAfter _ n | OpAddBefore _ n | OpSwap _ n => [n]
  | _ => []
  end.

Definition op_post (h : Z) (op : list_op) (l : list Z) (m : heap) (r : list_res) (m' : heap) :=
  r = fst (spec_op op l) /\ is_list m' h (snd (spec_op op l)) /\
  outside (op_nodes op ++ h :: l) m m'.

Lemma op_post_unit h op l m (c : L unit) l' :
  spec_op op l = (RUnit, l') ->
  wp c (fun _ m' => is_list m' h l' /\ outside (op_nodes op ++ h :: l) m m') m ->
  wp (c;; mret RUnit) (op_post h op l m) m.
Proof.
  intros Hs Hc. apply wp_bind. eapply wp_mono; [exact Hc|]. cbv beta. intros _ m' [? ?].
  apply wp_ret. unfold op_post. by rewrite Hs.
Qed.

Lemma op_post_pure h op l m r : spec_op op l = (r, l) -> is_list m h l -> op_post h op l m r m.
Proof. intros Hs Hl. unfold op_post. rewrite Hs. auto using outside_refl. Qed.

Lemma run_op_edit_ok h op l m :
  is_list m h l -> op_ok (dom m) h op l -> fst (spec_op op l) = RUnit ->
  wp (run_op h op) (op_post h op l m) m.
Proof.
  intros Hl Hok Hu. assert (Hnd : NoDup (h :: l)) by apply Hl.
  apply NoDup_cons in Hnd as [Hh Hnd].
  destruct op as [n|n|p n|p n|n|n|o n| | | | |i|i]; cbn in Hok, Hu; try discriminate;
    cbn [run_op]; (eapply op_post_unit; [reflexivity|]); cbn [op_nodes app].
  - destruct Hok. by apply ring_add_after.
  - destruct Hok. by apply ring_add_before.
  - destruct Hok as (Hp & Hn & Hnl). destruct (at_elem_split p [p; n] l) as
      (l1 & l2 & -> & Hp1 & Hp2 & ->); [done..|]. cbn [app].
    eapply wp_mono; [apply ring_add_after; [by apply is_list_split|done|set_solver]|].
    cbv beta. intros _ m' [Hr Ho]. split; [by apply (is_list_split m' h l1 p (n :: l2))|].
    eapply outside_mono; [|done]. set_solver.
  - destruct Hok as (Hp & Hn & Hnl). destruct (at_elem_split p [n; p] l) as
      (l1 & l2 & -> & Hp1 & Hp2 & ->); [done..|]. cbn [app].
    eapply wp_mono; [apply ring_add_before; [by apply is_list_split|done|set_solver]|].
    cbv beta. intros _ m' [Hr Ho]. split.
    + rewrite <- app_assoc in Hr. cbn in Hr. apply (is_list_split m' h (l1 ++ [n]) p l2) in Hr.
      by rewrite <- app_assoc in Hr.
    + eapply outside_mono; [|done]. set_solver.
  - by apply del_in_list_ok.
  - unfold list_del_from. apply wp_bind. eapply empty_ok; [done|].
    apply wp_bind, wp_assert. split; [destruct l; [set_solver|done]|].
    by apply del_in_list_ok.
  - destruct Hok as (Hp & Hn & Hnl). destruct (at_elem_split o [n] l) as
      (l1 & l2 & -> & Hp1 & Hp2 & ->); [done..|]. cbn [app].
    apply is_list_split in Hl. destruct (l2 ++ h :: l1) as [|y l'] eqn:E;
      [by destruct l2|].
    assert (Hperm : y :: l' ≡ₚ h :: l1 ++ l2)
      by (rewrite <- E, Permutation_app_comm; done).
    eapply wp_mono; [apply ring_swap; [done|done|rewrite Hperm; set_solver]|].
    cbv beta. intros _ m' [Hr Ho]. rewrite <- E in Hr. split; [by apply is_list_split|].
    eapply outside_mono; [|done]. intros a. rewrite Hperm. set_solver.
Qed.

Lemma run_op_read_ok h op l m :
  is_list m h l -> op_ok (dom m) h op l -> fst (spec_op op l) <> RUnit ->
  wp (run_op h op) (op_post h op l m) m.
Proof.
  intros Hl Hok Hu. assert (Hnd : NoDup (h :: l)) by apply Hl.
  apply NoDup_cons in Hnd as [Hh Hnd].
  destruct op as [n|n|p n|p n|n|n|o n| | | | |i|i]; cbn in Hok, Hu; try done; cbn [run_op];
    apply wp_bind.
  - unfold list_pop_. apply wp_bind. eapply empty_ok; [done|]. destruct l as [|x l].
    + rewrite bool_decide_true by done. repeat apply wp_ret. by apply op_post_pure.
    + rewrite bool_decide_false by done. apply wp_bind. eapply head_next_ok; [done|].
      apply wp_bind. eapply wp_mono; [by apply (del_elem_ok m h [] x l)|]. cbv beta.
      intros _ m' [Hr Ho]. repeat apply wp_ret. split; [done|]. split; [done|].
      eapply outside_mono; [|done]. cbn. set_solver.
  - unfold list_top_. apply wp_bind. eapply empty_ok; [done|]. destruct l as [|x l].
    + rewrite bool_decide_true by done. repeat apply wp_ret. by apply op_post_pure.
    + rewrite bool_decide_false by done. apply wp_bind. eapply head_next_ok; [done|].
      repeat apply wp_ret. by apply op_post_pure.
  - unfold list_tail_. apply wp_bind. eapply empty_ok; [done|]. destruct l as [|x l].
    + rewrite bool_decide_true by done. repeat apply wp_ret. by apply op_post_pure.
    + rewrite bool_decide_false by done. apply wp_bind.
      destruct (ring_ends _ _ _ Hl) as (_ & _ & _ & HP).
      eapply (wp_get_prev m _ _ _ (view_self m)); [done|]. repeat apply wp_ret.
      apply op_post_pure; [|done]. cbn [spec_op]. unfold last_of. rewrite last_cons.
      by destruct (last l).
  - eapply empty_ok; [done|]. apply wp_ret. by apply op_post_pure.
  - apply list_elem_of_split in Hok as (l1 & l2 & ->). unfold list_next. apply wp_bind.
    apply NoDup_app in Hnd as (_ & Hd & _).
    pose proof (proj1 (is_list_split m h l1 i l2) Hl) as Hr.
    eapply (wp_get_next m _ _ _ (view_self m)); [by apply ring_head_next|].
    repeat apply wp_ret. apply op_post_pure; [|done]. cbn [spec_op].
    rewrite succ_of_split by (intros Hin; apply (Hd i Hin); set_solver).
    unfold list_entry_or_null. destruct l2 as [|y l2]; cbn; [by rewrite Z.eqb_refl|].
    by rewrite (proj2 (Z.eqb_neq y h)) by set_solver.
  - apply list_elem_of_split in Hok as (l1 & l2 & ->). unfold list_prev. apply wp_bind.
    apply NoDup_app in Hnd as (_ & _ & Hd). apply NoDup_cons in Hd as [Hi _].
    pose proof (proj1 (is_list_split m h l1 i l2) Hl) as Hr.
    destruct (ring_ends _ _ _ Hr) as (_ & _ & _ & HP).
    eapply (wp_get_prev m _ _ _ (view_self m)); [done|].
    repeat apply wp_ret. apply op_post_pure; [|done]. cbn [spec_op].
    rewrite reverse_app, reverse_cons, <- app_assoc. cbn [app].
    rewrite succ_of_split by (by rewrite elem_of_reverse).
    unfold list_entry_or_null, last_of. rewrite last_app, last_cons, head_reverse.
    destruct (last l1) as [y|] eqn:E; cbn; [|by rewrite Z.eqb_refl].
    apply last_Some_elem_of in E. by rewrite (proj2 (Z.eqb_neq y h)) by set_solver.
Qed.

Lemma run_op_ok h op l m :
  is_list m h l -> op_ok (dom m) h op l -> wp (run_op h op) (op_post h op l m) m.
Proof.
  intros Hl Hok. destruct (fst (spec_op op l)) eqn:E;
    [by apply run_op_edit_ok | apply run_op_read_ok; congruence..].
Qed.

Fixpoint run_ops (h : Z) (ops : list list_op) : L (list list_res) :=
  match ops with
  | [] => mret []
  | op :: rest => r ← run_op h op; rs ← run_ops h rest; mret (r :: rs)
  end.

Fixpoint spec_ops (ops : list list_op) (l : list Z) : list list_res * list Z :=
  match ops with
  | [] => ([], l)
  | op :: rest =>
      let '(r, l1) := spec_op op l in
      let '(rs, l2) := spec_ops rest l1 in (r :: rs, l2)
  end.

Fixpoint ops_ok (D : gset Z) (h : Z) (ops : list list_op) (l : list Z) : Prop :=
  match ops with
  | [] => True
  | op :: rest => op_ok D h op l /\ ops_ok D h rest (snd (spec_op op l))
  end.

(** The nodes a sequence of operations may write: the head, the elements and the nodes
    the operations add. *)
Definition ops_nodes (h : Z) (ops : list list_op) (l : list Z) : list Z :=
  h :: l ++ (ops ≫= op_nodes).

Lemma spec_op_nodes op l a : a ∈ (spec_op op l).2 -> a ∈ l ++ op_nodes op.
Proof.
  assert (Hat : forall p f k, a ∈ at_elem p f k -> a ∈ k \/ a ∈ f /\ p ∈ k).
  { intros p f k. unfold at_elem. rewrite list_elem_of_bind.
    intros (x & Hx & Hk). destruct (Z.eqb_spec x p) as [Hxp|]; [subst p; tauto|].
    apply list_elem_of_singleton in Hx. subst x. tauto. }
  destruct op as [n|n|p n|p n|n|n|o n| | | | |i|i]; cbn; rewrite ?app_nil_r; try done.
  1: clear; set_solver.
  1-5: intros Ha%Hat; clear Hat; set_solver.
  clear; destruct l; set_solver.
Qed.

Lemma ops_nodes_step h op ops l a :
  a ∈ ops_nodes h ops (spec_op op l).2 -> a ∈ ops_nodes h (op :: ops) l.
Proof.
  unfold ops_nodes. rewrite bind_cons, !elem_of_cons, !elem_of_app.
  intros [?|[Ha%spec_op_nodes|?]]; [tauto| |tauto]. apply elem_of_app in Ha. tauto.
Qed.

Lemma run_ops_ok h ops m l :
  is_list m h l -> ops_ok (dom m) h ops l ->
  exists m', run_ops h ops m = Done (spec_ops ops l).1 m' /\
    is_list m' h (spec_ops ops l).2 /\ outside (ops_nodes h ops l) m m'.
Proof.
  revert m l. induction ops as [|op ops IH]; intros m l Hl Hok.
  - exists m. split; [done|]. split; [done|]. apply outside_refl.
  - destruct Hok as [Hop Hok].
    destruct (proj1 (wp_run _ _ _) (run_op_ok h op l m Hl Hop)) as (r & m1 & Hrun & Hr & Hl1 & Ho).
    rewrite <- (proj2 Ho) in Hok. destruct (IH m1 _ Hl1 Hok) as (m2 & Hrun2 & Hl2 & Ho2).
    assert (Hout : outside (ops_nodes h (op :: ops) l) m m2).
    { eapply outside_trans; (eapply outside_mono; [|done]); [|apply ops_nodes_step].
      unfold ops_nodes. rewrite bind_cons. set_solver. }
    clear Ho Ho2. cbn [run_ops spec_ops]. unfold mbind at 1, M_bind at 1. rewrite Hrun.
    destruct (spec_op op l) as [r' l1]; cbn in *. subst r'.
    destruct (spec_ops ops l1) as [rs' l2]; cbn in *.
    unfold mbind, M_bind. rewrite Hrun2. by exists m2.
Qed.

(** C39: any sequence of list operations whose arguments are legal (an added node is
    allocated and not linked, a named node is an element) runs without fault, returns what
    the same operations return on a mathematical sequence, and leaves a well-formed ring
    holding the resulting sequence.  No node is allocated or freed, and every node other
    than the head, the elements and the nodes added keeps both its links, so that every
    other list of the heap that has none of these nodes is as it was. *)
Theorem list_ops_refine_sequence m h l ops
    (Hl : is_list m h l) (Hok : ops_ok (dom m) h ops l) :
  exists rs m', run_ops h ops m = Done rs m' /\ rs = fst (spec_ops ops l) /\
    is_list m' h (snd (spec_ops ops l)) /\ dom m' = dom m /\
    (forall a, a <> h -> a ∉ l -> (forall op, op ∈ ops -> a ∉ op_nodes op) -> m' !! a = m !! a) /\
    (forall h2 l2, is_list m h2 l2 ->
       (forall a, a ∈ h2 :: l2 -> a <> h /\ a ∉ l /\ (forall op, op ∈ ops -> a ∉ op_nodes op)) ->
       is_list m' h2 l2).
Proof.
  destruct (run_ops_ok h ops m l Hl Hok) as (m' & Hrun & Hl' & Ho).
  assert (Hout : forall a, a <> h -> a ∉ l -> (forall op, op ∈ ops -> a ∉ op_nodes op) ->
            a ∉ ops_nodes h ops l).
  { intros a Hh Hal Hops. unfold ops_nodes. rewrite elem_of_cons, elem_of_app, list_elem_of_bind.
    intros [?|[?|(op & Ha & Hop)]]; [done..|]. by apply (Hops op). }
  exists (spec_ops ops l).1, m'. do 3 (split; [done|]). split; [apply Ho|]. split.
  - intros a H1 H2 H3. by apply Ho, Hout.
  - intros h2 l2 H2 Hd. eapply ring_outside; [exact Ho| |done].
    intros a (? & ? & ?)%Hd. by apply Hout.
Qed.

(** Three allocated nodes, the first a list head. *)
Definition demo_heap : heap := {[1 := MkNode 1 1; 2 := MkNode 0 0; 3 := MkNode 0 0]}.

Lemma demo_is_list : is_list demo_heap 1 [].
Proof. split; [by apply NoDup_singleton|]. cbn. split; vm_compute; reflexivity. Qed.

Lemma list_ops_refine_sequence_witness :
  exists rs m', run_ops 1 [OpAddTail 2; OpAdd 3; OpPrev 2; OpDel 3; OpPop; OpEmpty] demo_heap
      = Done rs m' /\
    rs = [RUnit; RUnit; RPtr (Some 3); RUnit; RPtr (Some 2); RBool true] /\ is_list m' 1 [].
Proof.
  destruct (list_ops_refine_sequence demo_heap 1 []
    [OpAddTail 2; OpAdd 3; OpPrev 2; OpDel 3; OpPop; OpEmpty] demo_is_list)
    as (rs & m' & Hrun & Hrs & Hl & _).
  - cbn. unfold demo_heap. repeat split; try set_solver.
  - exists rs, m'. split; [exact Hrun|]. split; [exact Hrs | exact Hl].
Defined.

(** [list_append_list] and [list_prepend_list] move all elements of the
    second list to the end, respectively to the front, of the first, in order,
    leave the second list empty, and touch no node outside the two lists. *)
Theorem list_concat m to l1 from l2 (Hto : is_list m to l1) (Hfrom : is_list m from l2)
    (Hdisj : NoDup ((to :: l1) ++ from :: l2)) :
  exists ma mp,
    list_append_list_ to from m = Done tt ma /\
    list_prepend_list_ to from m = Done tt mp /\
    is_list ma to (l1 ++ l2) /\ is_list ma from [] /\
    is_list mp to (l2 ++ l1) /\ is_list mp from [] /\
    forall a, a ∉ (to :: l1) ++ from :: l2 -> ma !! a = m !! a /\ mp !! a = m !! a.
Proof.
  destruct (proj1 (wp_run _ _ _) (list_append_ok m to l1 from l2 Hto Hfrom Hdisj))
    as ([] & ma & -> & Ha1 & Ha2 & [Hao _]).
  destruct (proj1 (wp_run _ _ _) (list_prepend_ok m to l1 from l2 Hto Hfrom Hdisj))
    as ([] & mp & -> & Hp1 & Hp2 & [Hpo _]).
  exists ma, mp. do 6 (split; [done|]). intros a Ha.
  split; [apply Hao | apply Hpo]; set_solver.
Qed.

Definition demo_heap2 : heap :=
  {[1 := MkNode 2 2; 2 := MkNode 1 1; 3 := MkNode 4 4; 4 := MkNode 3 3]}.

Lemma list_concat_witness :
  exists ma mp, list_append_list_ 1 3 demo_heap2 = Done tt ma /\
    list_prepend_list_ 1 3 demo_heap2 = Done tt mp /\
    is_list ma 1 [2; 4] /\ is_list mp 1 [4; 2].
Proof.
  assert (H1 : is_list demo_heap2 1 [2])
    by (split; [apply (bool_decide_eq_true_1 _); vm_compute; reflexivity|]; cbn; repeat split; vm_compute; reflexivity).
  assert (H3 : is_list demo_heap2 3 [4])
    by (split; [apply (bool_decide_eq_true_1 _); vm_compute; reflexivity|]; cbn; repeat split; vm_compute; reflexivity).
  destruct (list_concat demo_heap2 1 [2] 3 [4] H1 H3) as (ma & mp & Ha & Hp & Hla & _ & Hlp & _).
  - apply (bool_decide_eq_true_1 _); vm_compute; reflexivity.
  - exists ma, mp. split; [exact Ha|]. split; [exact Hp|]. split; [exact Hla | exact Hlp].
Defined.

(** *** Iteration *)

Section iteration.
Context {A : Type} (g : A -> Z -> A).

(** [l1] has been visited. *)
Lemma for_each_loop_ok m h l1 l fuel a :
  is_list m h (l1 ++ l) -> (length l < fuel)%nat ->
  wp (for_each_loop fuel get_next h (default h (head l)) (fun a i => mret (g a i)) a)
     (fun r m' => r = foldl g a l /\ m' = m) m.
Proof.
  revert l1 fuel a. induction l as [|x l IH]; intros l1 fuel a Hl Hf;
    (destruct fuel as [|fuel]; [cbn in Hf; lia|]); cbn [for_each_loop head].
  - rewrite Z.eqb_refl. by apply wp_ret.
  - assert (Hnd : NoDup (h :: l1 ++ x :: l)) by apply Hl. apply NoDup_cons in Hnd as [Hh _].
    change (default h (Some x)) with x. rewrite (proj2 (Z.eqb_neq x h)) by set_solver.
    apply wp_bind, wp_ret, wp_bind.
    eapply (wp_get_next m _ _ _ (view_self m)); [by apply ring_head_next, is_list_split|].
    replace (default x (head (l ++ h :: l1))) with (default h (head l)) by (by destruct l).
    eapply wp_mono; [apply (IH (l1 ++ [x])); [by rewrite <- app_assoc|cbn in Hf; lia]|done].
Qed.

Lemma for_each_rev_loop_ok m h l l2 fuel a :
  is_list m h (l ++ l2) -> (length l < fuel)%nat ->
  wp (for_each_loop fuel get_prev h (last_of h l) (fun a i => mret (g a i)) a)
     (fun r m' => r = foldl g a (reverse l) /\ m' = m) m.
Proof.
  revert l2 fuel a. induction l as [|x l IH] using rev_ind; intros l2 fuel a Hl Hf;
    (destruct fuel as [|fuel]; [lia|]); cbn [for_each_loop].
  - cbn. rewrite Z.eqb_refl. by apply wp_ret.
  - rewrite last_of_snoc, <- app_assoc in *. cbn [app] in Hl.
    assert (Hnd : NoDup (h :: l ++ x :: l2)) by apply Hl. apply NoDup_cons in Hnd as [Hh _].
    rewrite (proj2 (Z.eqb_neq x h)) by set_solver. apply wp_bind, wp_ret, wp_bind.
    pose proof (proj1 (is_list_split m h l x l2) Hl) as Hr.
    destruct (ring_ends _ _ _ Hr) as (_ & _ & _ & HP).
    eapply (wp_get_prev m _ _ _ (view_self m)); [done|].
    replace (last_of x (l2 ++ h :: l)) with (last_of h l)
      by (unfold last_of; rewrite last_app, last_cons; by destruct (last l)).
    rewrite reverse_snoc. cbn [foldl]. rewrite length_app in Hf. cbn in Hf.
    eapply wp_mono; [apply (IH (x :: l2)); [done|lia]|done].
Qed.

Context (f : Z -> bool).

(** [k] are the visited elements that were kept. *)
Lemma for_each_safe_loop_ok m h k l nxt fuel a :
  is_list m h (k ++ l) -> (length l < fuel)%nat ->
  (l <> [] -> nxt = default h (head (tail l))) ->
  wp (for_each_safe_loop fuel h (default h (head l)) nxt
        (fun a i => when (f i) (list_del_ i);; mret (g a i)) a)
     (fun r m' => r = foldl g a l /\ is_list m' h (k ++ filter (fun i => f i = false) l) /\
                  outside (h :: k ++ l) m m') m.
Proof.
  revert m k nxt fuel a. induction l as [|x l IH]; intros m k nxt fuel a Hl Hf Hnxt;
    (destruct fuel as [|fuel]; [cbn in Hf; lia|]); cbn [for_each_safe_loop].
  - cbn. rewrite Z.eqb_refl. apply wp_ret. auto using outside_refl.
  - rewrite Hnxt by done. clear Hnxt. cbn [head tail]. change (default h (Some x)) with x.
    assert (Hnd : NoDup (h :: k ++ x :: l)) by apply Hl. apply NoDup_cons in Hnd as [Hh _].
    rewrite (proj2 (Z.eqb_neq x h)) by set_solver. apply wp_bind.
    set (k' := if f x then k else k ++ [x]).
    assert (Hbody : wp (when (f x) (list_del_ x);; mret (g a x)) (fun r m' => r = g a x /\
      is_list m' h (k' ++ l) /\ outside (h :: k ++ x :: l) m m') m).
    { apply wp_bind, wp_when. unfold k'. destruct (f x).
      - eapply wp_mono; [by apply (del_elem_ok m h k x l)|]. cbv beta. intros _ m' [? Ho].
        apply wp_ret. split; [done|]. split; [done|]. eapply outside_mono; [|done]. set_solver.
      - apply wp_ret. rewrite <- app_assoc. auto using outside_refl. }
    eapply wp_mono; [exact Hbody|]. cbv beta. intros a' m1 (-> & Hl1 & Ho1). apply wp_bind.
    assert (Hn : exists nn, nexts m1 !! default h (head l) = Some nn /\
      (l <> [] -> nn = default h (head (tail l)))).
    { destruct l as [|y l]; cbn [head tail].
      - rewrite app_nil_r in Hl1. eexists. split; [by apply ring_head_next|done].
      - apply is_list_split in Hl1. eexists. split; [by apply ring_head_next|].
        intros _. by destruct l. }
    destruct Hn as (nn & HN & Hnn). eapply (wp_get_next m1 _ _ _ (view_self m1)); [done|].
    eapply wp_mono; [apply (IH m1 k'); [done|cbn in Hf; lia|done]|]. cbv beta.
    intros r m2 (-> & Hl2 & Ho2). split; [done|]. split.
    + rewrite filter_cons. unfold k' in Hl2. destruct (f x); case_decide; try done.
      by rewrite <- app_assoc in Hl2.
    + eapply outside_trans; [done|]. eapply outside_mono; [|done]. unfold k'.
      destruct (f x); set_solver.
Qed.

End iteration.

(** The loops visit every element exactly once, forwards and backwards in
    order, and [list_for_each_safe] still does so when the body deletes the
    element it is at: afterwards the list holds the elements that were not
    deleted. *)
Theorem list_iteration {A} (g : A -> Z -> A) (f : Z -> bool) m h l a fuel
    (Hl : is_list m h l) (Hfuel : (length l < fuel)%nat) :
  list_for_each fuel h (fun a i => mret (g a i)) a m = Done (foldl g a l) m /\
  list_for_each_rev fuel h (fun a i => mret (g a i)) a m = Done (foldl g a (reverse l)) m /\
  exists m',
    list_for_each_safe fuel h (fun a i => when (f i) (list_del_ i);; mret (g a i)) a m =
      Done (foldl g a l) m' /\
    is_list m' h (filter (fun i => f i = false) l) /\
    forall x, x ∉ h :: l -> m' !! x = m !! x.
Proof.
  assert (H1 : wp (list_for_each fuel h (fun a i => mret (g a i)) a)
    (fun r m' => r = foldl g a l /\ m' = m) m).
  { apply wp_bind. eapply head_next_ok; [done|]. by apply (for_each_loop_ok g m h [] l). }
  assert (H2 : wp (list_for_each_rev fuel h (fun a i => mret (g a i)) a)
    (fun r m' => r = foldl g a (reverse l) /\ m' = m) m).
  { destruct (ring_ends _ _ _ Hl) as (_ & _ & _ & HP).
    apply wp_bind. eapply (wp_get_prev m _ _ _ (view_self m)); [done|].
    apply (for_each_rev_loop_ok g m h l []); [by rewrite app_nil_r|done]. }
  assert (H3 : wp (list_for_each_safe fuel h (fun a i => when (f i) (list_del_ i);; mret (g a i)) a)
    (fun r m' => r = foldl g a l /\ is_list m' h ([] ++ filter (fun i => f i = false) l) /\
                 outside (h :: [] ++ l) m m') m).
  { apply wp_bind. eapply head_next_ok; [done|]. apply wp_bind.
    destruct l as [|x l]; cbn [head].
    - eapply head_next_ok; [done|]. by apply (for_each_safe_loop_ok g f m h [] []).
    - pose proof (proj1 (is_list_split m h [] x l) Hl) as Hr.
      eapply (wp_get_next m _ _ _ (view_self m)); [by apply ring_head_next|].
      apply (for_each_safe_loop_ok g f m h [] (x :: l)); [done|done|]. intros _. by destruct l. }
  apply wp_run in H1 as (r1 & m1 & -> & -> & ->).
  apply wp_run in H2 as (r2 & m2 & -> & -> & ->).
  apply wp_run in H3 as (r3 & m3 & -> & -> & Hl3 & [Ho3 _]).
  split; [done|]. split; [done|]. by exists m3.
Qed.

Lemma list_iteration_witness :
  list_for_each 2 1 (fun a i => mret (a + i)) 0 demo_heap2 = Done 2 demo_heap2.
Proof.
  apply (list_iteration Z.add (fun _ => true) demo_heap2 1 [2] 0 2); [|cbn; lia].
  split; [apply (bool_decide_eq_true_1 _); vm_compute; reflexivity|]. cbn. repeat split; vm_compute; reflexivity.
Defined.

(** *** The consistency check *)

(** Every pointer of a node leads to a node. *)
Definition closed (m : heap) : Prop :=
  forall a b, nexts m !! a = Some b -> b ∈ dom m.

Lemma ring_step m r a b :
  ring m r -> a ∈ r -> nexts m !! a = Some b -> b ∈ r /\ prevs m !! b = Some a.
Proof.
  intros Hr Ha Hb. apply list_elem_of_split in Ha as (l1 & l2 & ->).
  assert (Hrot : ring m (a :: l2 ++ l1)).
  { destruct l1 as [|x l1]; [by rewrite app_nil_r|]. by apply ring_rotate in Hr. }
  assert (Hin : forall c, c ∈ a :: l2 ++ l1 -> c ∈ l1 ++ a :: l2) by set_solver.
  destruct Hrot as [_ Hc]. destruct (l2 ++ l1) as [|y l]; cbn in Hc.
  - destruct Hc as [HN HP]. rewrite HN in Hb. injection Hb as <-. split; [apply Hin; set_solver|done].
  - destruct Hc as [[HN HP] _]. rewrite HN in Hb. injection Hb as <-.
    split; [apply Hin; set_solver|done].
Qed.

(** A walk along [next] from a node of a ring stays in the ring. *)
Lemma seg_in_ring m r x l :
  ring m r -> x ∈ r -> seg (nexts m) (prevs m) x l -> last_of x l ∈ r.
Proof.
  revert x. induction l as [|y l IH]; intros x Hr Hx; [done|].
  cbn [seg]. intros [[HN _] Hs]. rewrite last_of_cons. apply IH; [done| |done].
  by eapply ring_step.
Qed.

Lemma seg_app_inv (N P : gmap Z Z) x l1 y l2 :
  seg N P x (l1 ++ y :: l2) -> link N P (last_of x l1) y.
Proof.
  revert x. induction l1 as [|z l1 IH]; intros x; cbn [app seg]; [by intros [? ?]|].
  intros [_ Hs]. rewrite last_of_cons. by apply IH.
Qed.

(** The [prev] check makes the walk visit new nodes only. *)
Lemma seg_fresh (N P : gmap Z Z) x l n :
  NoDup (x :: l) -> seg N P x l -> n <> x -> P !! n = Some (last_of x l) -> n ∉ l.
Proof.
  intros Hnd Hs Hnx HP Hin. apply list_elem_of_split in Hin as (l1 & l2 & ->).
  destruct (seg_app_inv _ _ _ _ _ _ Hs) as [_ HP']. rewrite HP in HP'. injection HP' as Heq.
  assert (Hlast : last_of x (l1 ++ n :: l2) ∈ n :: l2).
  { unfold last_of. rewrite last_app, last_cons. destruct (last l2) as [z|] eqn:E; cbn; [|set_solver].
    apply last_Some_elem_of in E. set_solver. }
  rewrite Heq, app_comm_cons in *. apply NoDup_app in Hnd as (_ & Hd & _).
  apply (Hd (last_of x l1)); [apply last_of_in|done].
Qed.

Lemma seg_snoc (N P : gmap Z Z) x l n :
  seg N P x l -> link N P (last_of x l) n -> seg N P x (l ++ [n]).
Proof.
  revert x. induction l as [|y l IH]; intros x; cbn [app seg]; [by split|].
  intros [? ?] Hl. rewrite last_of_cons in Hl. split; [done|]. by apply IH.
Qed.

Lemma dom_next m a : a ∈ dom m -> exists b, nexts m !! a = Some b.
Proof. intros Ha. apply elem_of_dom in Ha as [nd E]. exists (next nd). unfold nexts. by rewrite lookup_fmap, E. Qed.

Lemma dom_prev m a : a ∈ dom m -> exists b, prevs m !! a = Some b.
Proof. intros Ha. apply elem_of_dom in Ha as [nd E]. exists (prev nd). unfold prevs. by rewrite lookup_fmap, E. Qed.

Lemma check_loop_ok m node l fuel n :
  closed m -> NoDup (node :: l) -> (forall a, a ∈ node :: l -> a ∈ dom m) ->
  seg (nexts m) (prevs m) node l -> nexts m !! last_of node l = Some n ->
  (fuel + length l = S (size m))%nat ->
  wp (check_loop fuel node (last_of node l) n)
     (fun b m' => m' = m /\ (b = true <-> exists r, ring m (node :: r))) m.
Proof.
  intros Hcl. revert l n. induction fuel as [|fuel IH]; intros l n Hnd Hdom Hs HN Hfuel.
  { exfalso. assert (Hsub : list_to_set (node :: l) ⊆ dom m) by set_solver.
    apply subseteq_size in Hsub. rewrite size_list_to_set, size_dom in Hsub by done.
    cbn in Hsub, Hfuel. lia. }
  cbn [check_loop].
  assert (Hno : forall q, prevs m !! n = Some q -> q <> last_of node l ->
    ~ exists r, ring m (node :: r)).
  { intros q Hq Hne [r Hr]. destruct (ring_step m (node :: r) (last_of node l) n) as [_ HP];
      [done|eapply seg_in_ring; [done|set_solver|done]|done|congruence]. }
  assert (Hnd' : n ∈ dom m) by (by eapply Hcl).
  destruct (dom_prev m n Hnd') as [q Hq].
  destruct (Z.eqb_spec n node) as [->|Hnn]; apply wp_bind;
    (eapply (wp_get_prev m _ _ _ (view_self m)); [done|]);
    destruct (Z.eqb_spec q (last_of node l)) as [->|Hne]; cbn [negb].
  - apply wp_ret. split; [done|]. split; [|done]. intros _. exists l. split; [done|].
    by apply chain_seg.
  - apply wp_ret. split; [done|]. split; [done|]. intros Hr. exfalso. by apply (Hno q).
  - assert (Hfresh : n ∉ l) by (by eapply seg_fresh).
    destruct (dom_next m n Hnd') as [n' Hn']. apply wp_bind.
    eapply (wp_get_next m _ _ _ (view_self m)); [done|].
    pose proof (IH (l ++ [n]) n') as IH'. rewrite last_of_snoc, length_app in IH'. cbn in IH'.
    apply IH'; clear IH'; [| |by apply seg_snoc|done|lia].
    + rewrite app_comm_cons. apply NoDup_app. set_solver by auto using NoDup_singleton.
    + set_solver.
  - apply wp_ret. split; [done|]. split; [done|]. intros Hr. exfalso. by apply (Hno q).
Qed.

(** On any heap whose pointers lead to nodes, [list_check] terminates and
    accepts exactly the nodes that sit on a well-formed ring: a list damaged in
    any [next] or [prev] pointer reachable from its head is reported. *)
Theorem list_check_decides m h (Hcl : closed m) (Hh : h ∈ dom m) :
  exists b, list_check h m = Done b m /\ (b = true <-> exists l, is_list m h l).
Proof.
  assert (Hwp : wp (list_check h)
    (fun b m' => m' = m /\ (b = true <-> exists r, ring m (h :: r))) m).
  { unfold list_check, list_check_node. apply wp_bind, wp_get, wp_bind.
    destruct (dom_next m h Hh) as [n Hn].
    eapply (wp_get_next m _ _ _ (view_self m)); [done|].
    apply (check_loop_ok m h []); [done|by apply NoDup_singleton| |done|done|cbn; lia].
    set_solver. }
  apply wp_run in Hwp as (b & m' & -> & -> & Hb). by exists b.
Qed.

Lemma list_check_decides_witness :
  exists b, list_check 1 demo_heap2 = Done b demo_heap2 /\ (b = true <-> exists l, is_list demo_heap2 1 l).
Proof.
  apply (list_check_decides demo_heap2 1).
  - intros a b Hab. assert (Hall : map_Forall (fun _ b => b ∈ dom demo_heap2) (nexts demo_heap2))
      by (apply (bool_decide_eq_true_1 _); vm_compute; reflexivity).
    exact (Hall a b Hab).
  - apply (bool_decide_eq_true_1 _); vm_compute; reflexivity.
Defined.
