(* ===== verification/IntervalSet.v ===== *)
(** * util/interval_set.c

    The free-range allocator: a set of 64-bit addresses kept as a sorted list of
    ranges.  The ranges are the elements of the ccan list in order (CcanList);
    the mutex around each operation makes it atomic, so an operation is a
    function of the list.  [calloc_ok] is the outcome of the one allocation an
    operation can make. *)

From stdpp Require Import base list sets numbers.
From Stdlib Require Import ZArith Lia.
From S2P Require Import Prelude Util.

#[local] Open Scope Z_scope.
#[local] Open Scope cint_scope.

Record iset_range := MkRange { start : Z; len : Z }.

Abbreviation iset := (list iset_range).

Definition iset_create (calloc_ok : bool) : option iset :=
  if calloc_ok then Some [] else None.

Definition range_overlap (s1 len1 s2 len2 : Z) : bool :=
  negb (((s1 <? s2) && (((s1 +{64} len1) -{64} 1) <? s2)) ||
        ((s2 <? s1) && (((s2 +{64} len2) -{64} 1) <? s1))).

Definition create_range (calloc_ok : bool) (s n : Z) : option iset_range :=
  if calloc_ok then Some (MkRange s n) else None.

(** [check_do_combine(iset, p, n, start, length)]: the new [p] and [n], [None]
    for a range that was deleted, and whether something was combined. *)
Definition check_do_combine (p n : option iset_range) (s l : Z) :
    option iset_range * option iset_range * bool :=
  let '(p1, combined2prev) :=
    match p with
    | Some r => if (start r +{64} len r) =? s
                then (Some (MkRange (start r) (len r +{64} l)), true) else (p, false)
    | None => (p, false)
    end in
  match n with
  | Some r =>
      if (s +{64} l) =? start r then
        match combined2prev, p1 with
        | true, Some q => (Some (MkRange (start q) (len q +{64} len r)), None, true)
        | _, _ => (p1, Some (MkRange s (len r +{64} l)), true)
        end
      else (p1, n, combined2prev)
  | None => (p1, n, combined2prev)
  end.

(** The [list_for_each] of [iset_insert_range]: the ranges passed over (latest
    first) and the rest, whose first range is the one that ended the loop;
    [None] when a range overlaps. *)
Fixpoint insert_scan (seen todo : iset) (s l : Z) : option (iset * iset) :=
  match todo with
  | [] => Some (seen, [])
  | r :: rest =>
      if range_overlap (start r) (len r) s l then None
      else if s <? start r then Some (seen, todo)
      else insert_scan (r :: seen) rest s l
  end.

(** Put back the neighbours of the insertion point. *)
Definition rebuild (seen : iset) (p n : option iset_range) (rest : iset) : iset :=
  reverse seen ++ option_list p ++ option_list n ++ rest.

(** The part of [iset_insert_range] after the loop, with [prev] the last range
    passed over and [r] the one that ended it; [None] when [calloc] fails. *)
Definition insert_at (calloc_ok : bool) (seen todo : iset) (s l : Z) : option iset :=
  let '(p', n', combined) := check_do_combine (head seen) (head todo) s l in
  if combined then Some (rebuild (tail seen) p' n' (tail todo))
  else
    match create_range calloc_ok s l with
    | None => None
    | Some rnew => Some (reverse seen ++ rnew :: todo)
    end.

Definition iset_insert_range (calloc_ok : bool) (s l : Z) (rs : iset) : Z * iset :=
  if (l =? 0) || (((s +{64} l) -{64} 1) <? s) then (EINVAL, rs)
  else
    match insert_scan [] rs s l with
    | None => (EINVAL, rs)
    | Some (seen, todo) =>
        match insert_at calloc_ok seen todo s l with
        | None => (ENOMEM, rs)
        | Some rs' => (0, rs')
        end
    end.

Definition power_of_two (x : Z) : bool := negb (x =? 0) && (Z.land x (x -{64} 1) =? 0).

(** The condition under which the search of [iset_alloc_range] stops at [r]. *)
Definition alloc_fits (l alignment : Z) (r : iset_range) : bool :=
  let astart := align (start r) alignment in
  (astart <=? ((astart +{64} l) -{64} 1)) &&
  (((astart +{64} l) -{64} 1) <=? ((start r +{64} len r) -{64} 1)).

Fixpoint alloc_scan (seen todo : iset) (l alignment : Z) : option (iset * iset_range * iset) :=
  match todo with
  | [] => None
  | r :: rest =>
      if alloc_fits l alignment r then Some (seen, r, rest)
      else alloc_scan (r :: seen) rest l alignment
  end.

(** What is left of the range [r] that was found (cases 1 to 4 of the source);
    [None] when [calloc] fails. *)
Definition take_from (calloc_ok : bool) (l alignment : Z) (r : iset_range) : option iset :=
  let astart := align (start r) alignment in
  if start r =? astart then
    if len r =? l then Some [] else Some [MkRange (start r +{64} l) (len r -{64} l)]
  else
    let rend := start r +{64} len r in
    if negb ((astart +{64} l) =? rend) then
      match create_range calloc_ok (astart +{64} l) ((rend -{64} astart) -{64} l) with
      | None => None
      | Some rnew => Some [MkRange (start r) (astart -{64} start r); rnew]
      end
    else Some [MkRange (start r) (astart -{64} start r)].

(** The error code, the start address when it is 0, and the new set. *)
Definition iset_alloc_range (calloc_ok : bool) (l alignment : Z) (rs : iset) :
    Z * option Z * iset :=
  if negb (power_of_two alignment) then (EINVAL, None, rs)
  else
    match alloc_scan [] rs l alignment with
    | None => (ENOSPC, None, rs)
    | Some (seen, r, rest) =>
        match take_from calloc_ok l alignment r with
        | None => (ENOMEM, None, rs)
        | Some m => (0, Some (align (start r) alignment), reverse seen ++ m ++ rest)
        end
    end.

(** ** The set of addresses *)

Definition fin (r : iset_range) : Z := start r + len r.

Definition range_ok (r : iset_range) : Prop :=
  0 <= start r /\ 0 < len r < 2 ^ 64 /\ fin r <= 2 ^ 64.

Definition in_range (r : iset_range) (x : Z) : Prop := start r <= x < fin r.

Definition mem (rs : iset) (x : Z) : Prop := Exists (fun r => in_range r x) rs.

(** Sorted, with a gap between neighbours: the canonical form of a set. *)
Fixpoint iset_ok (rs : iset) : Prop :=
  match rs with
  | [] => True
  | r :: rest =>
      range_ok r /\ Forall (fun r' => fin r < start r') rest /\ iset_ok rest
  end.

(** [a] lies before [b], with a gap. *)
Definition before (a b : iset) : Prop :=
  forall r r', r ∈ a -> r' ∈ b -> fin r < start r'.

Lemma iset_ok_app a b : iset_ok (a ++ b) <-> iset_ok a /\ iset_ok b /\ before a b.
Proof.
  unfold before. induction a as [|r a IH]; cbn.
  - split; [intros H; split; [done|]; split; [done|]; set_solver | by intros (_ & ? & _)].
  - rewrite IH, Forall_app, !list.Forall_forall. split.
    + intros (Hr & [Ha Hb] & H1 & H2 & H3). split_and!; try done.
      intros r1 r2 [->|H]%elem_of_cons H'; auto.
    + intros ((Hr & Ha & H1) & H2 & H3). split_and!; try done.
      * intros r' Hr'. apply H3; set_solver.
      * intros r1 r2 ? ?. apply H3; set_solver.
Qed.

Lemma iset_ok_range rs r : iset_ok rs -> r ∈ rs -> range_ok r.
Proof.
  induction rs as [|r0 rs IH]; [set_solver|]. intros (Hr & _ & Hok) [->|Hin]%elem_of_cons; auto.
Qed.

(** Putting a range between two parts. *)
Lemma iset_ok_splice a x b :
  iset_ok a -> iset_ok b -> range_ok x -> (forall r, r ∈ a -> fin r < start x) ->
  (forall r, r ∈ b -> fin x < start r) -> before a b -> iset_ok (a ++ x :: b).
Proof.
  intros Ha Hb Hx Hax Hxb Hab. apply iset_ok_app. split; [done|]. split.
  - cbn. split; [done|]. split; [by apply list.Forall_forall|done].
  - intros r r' Hr [->|Hr']%elem_of_cons; auto.
Qed.

Lemma mem_app a b x : mem (a ++ b) x <-> mem a x \/ mem b x.
Proof. apply Exists_app. Qed.

Lemma mem_cons r b x : mem (r :: b) x <-> in_range r x \/ mem b x.
Proof. apply Exists_cons. Qed.

Lemma mem_nil x : mem [] x <-> False.
Proof. apply Exists_nil. Qed.

Lemma mem_elem rs x : mem rs x <-> exists r, r ∈ rs /\ in_range r x.
Proof. apply list.Exists_exists. Qed.

(** The last address of a range, as the code computes it. *)
Lemma wrap_last s l : 0 <= s -> 0 < l -> s + l <= 2 ^ 64 -> (s +{64} l) -{64} 1 = s + l - 1.
Proof. intros. rewrite wrap_sub_l. apply wrap_small. unfold in_width. lia. Qed.

Lemma range_overlap_spec r s l :
  range_ok r -> 0 <= s -> 0 < l -> s + l <= 2 ^ 64 ->
  range_overlap (start r) (len r) s l = false <-> fin r <= s \/ s + l <= start r.
Proof.
  intros (H0 & H1 & H2) Hs Hl Hsl. unfold range_overlap, fin in *. rewrite !wrap_last by lia.
  rewrite negb_false_iff, orb_true_iff, !andb_true_iff, !Z.ltb_lt. lia.
Qed.

Lemma insert_scan_ok seen todo s l :
  iset_ok (reverse seen ++ todo) -> 0 <= s -> 0 < l -> s + l <= 2 ^ 64 ->
  (forall r, r ∈ seen -> fin r <= s) ->
  match insert_scan seen todo s l with
  | Some (seen', todo') =>
      reverse seen' ++ todo' = reverse seen ++ todo /\
      (forall r, r ∈ seen' -> fin r <= s) /\ (forall r, r ∈ todo' -> s + l <= start r)
  | None => exists r, r ∈ todo /\ ~ (fin r <= s \/ s + l <= start r)
  end.
Proof.
  intros Hok Hs Hl Hsl. revert seen Hok.
  induction todo as [|r todo IH]; intros seen Hok Hseen; cbn [insert_scan].
  - split; [done|]. split; [done|]. set_solver.
  - pose proof Hok as (_ & (Hr & Hgap & _) & _)%iset_ok_app.
    pose proof (range_overlap_spec r s l Hr Hs Hl Hsl) as Hov.
    destruct (range_overlap (start r) (len r) s l).
    + exists r. split; [set_solver|]. intros H. by apply Hov in H.
    + destruct (proj1 Hov eq_refl) as [Hle|Hge].
      * destruct (Z.ltb_spec s (start r)); [destruct Hr; unfold fin in *; lia|].
        specialize (IH (r :: seen)). rewrite reverse_cons, <- app_assoc in IH.
        specialize (IH Hok ltac:(set_solver)). destruct (insert_scan _ _ _ _) as [[? ?]|]; [done|].
        destruct IH as (r' & ? & ?). exists r'. set_solver.
      * destruct (Z.ltb_spec s (start r)); [|lia]. split; [done|]. split; [done|].
        rewrite list.Forall_forall in Hgap. destruct Hr as (? & ? & ?).
        intros r' [->|Hr']%elem_of_cons; [done|]. specialize (Hgap r' Hr'). unfold fin in *. lia.
Qed.

(** The set after an insertion between [a] and [b]. *)
Definition inserted (rs rs' : iset) (s l : Z) : Prop :=
  iset_ok rs' /\ forall x, mem rs' x <-> mem rs x \/ s <= x < s + l.

(** Replacing the ranges [m] by one range [x] that covers them and the new
    addresses. *)
Lemma inserted_splice a m b x s l :
  iset_ok (a ++ m ++ b) -> range_ok x ->
  (forall r, r ∈ a -> fin r < start x) -> (forall r, r ∈ b -> fin x < start r) ->
  (forall y, in_range x y <-> mem m y \/ s <= y < s + l) ->
  inserted (a ++ m ++ b) (a ++ x :: b) s l.
Proof.
  intros (Ha & (_ & Hb & _)%iset_ok_app & Hab)%iset_ok_app Hx Hax Hxb Hm. split.
  - apply iset_ok_splice; auto. intros r r' ? ?. apply Hab; set_solver.
  - intros y. rewrite !mem_app, mem_cons, Hm. tauto.
Qed.

(** The addresses of a 64-bit space that are neither in the set nor new. *)
Definition room_left (rs : iset) (s l : Z) : Prop :=
  exists y, 0 <= y < 2 ^ 64 /\ ~ mem rs y /\ ~ (s <= y < s + l).

(** The last range passed over, and the ranges before it. *)
Lemma seen_head seen todo p sn :
  seen = p :: sn -> iset_ok (reverse seen ++ todo) ->
  range_ok p /\ forall r, r ∈ sn -> fin r < start p.
Proof.
  intros -> (Hok & _ & _)%iset_ok_app. rewrite reverse_cons in Hok.
  apply iset_ok_app in Hok as (_ & (Hp & _) & Hb). split; [done|].
  intros r Hr. apply Hb; [by rewrite elem_of_reverse|set_solver].
Qed.

Lemma todo_head seen todo n td :
  todo = n :: td -> iset_ok (reverse seen ++ todo) ->
  range_ok n /\ forall r, r ∈ td -> fin n < start r.
Proof.
  intros -> (_ & (Hn & Hgap & _) & _)%iset_ok_app. split; [done|]. by apply list.Forall_forall.
Qed.

Section combine.
Context (seen todo : iset) (s l : Z).
Context (Hok : iset_ok (reverse seen ++ todo)) (Hs : 0 <= s) (Hl : 0 < l < 2 ^ 64)
  (Hsl : s + l <= 2 ^ 64) (Hroom : room_left (reverse seen ++ todo) s l)
  (Hseen : forall r, r ∈ seen -> fin r <= s) (Htodo : forall r, r ∈ todo -> s + l <= start r).

(** A range that covers the new addresses and members only is not all of the
    space. *)
Lemma combine_length a n :
  0 <= a -> a + n <= 2 ^ 64 ->
  (forall y, a <= y < a + n -> mem (reverse seen ++ todo) y \/ s <= y < s + l) -> n < 2 ^ 64.
Proof.
  intros Ha Han Hcov. destruct Hroom as (y0 & Hy0 & Hy1 & Hy2).
  destruct (Z.ltb_spec n (2 ^ 64)); [done|]. destruct (Hcov y0); [lia|done|done].
Qed.

Lemma combine_none :
  (forall p, head seen = Some p -> fin p <> s) -> (forall n, head todo = Some n -> s + l <> start n) ->
  inserted (reverse seen ++ todo) (reverse seen ++ MkRange s l :: todo) s l.
Proof.
  intros H1 H2. apply (inserted_splice (reverse seen) [] todo); [done| | | |].
  - unfold range_ok, fin. cbn. lia.
  - intros r Hr. rewrite elem_of_reverse in Hr. cbn.
    destruct seen as [|p sn] eqn:E; [set_solver|].
    destruct (seen_head _ _ _ _ eq_refl Hok) as [(? & ? & ?) Hsn].
    specialize (H1 p eq_refl). pose proof (Hseen p ltac:(set_solver)).
    apply elem_of_cons in Hr as [->|Hr]; [lia|]. specialize (Hsn r Hr). unfold fin in *. lia.
  - intros r Hr. change (fin (MkRange s l)) with (s + l).
    destruct todo as [|n td] eqn:E; [set_solver|].
    destruct (todo_head _ _ _ _ eq_refl Hok) as [(? & ? & ?) Htd].
    specialize (H2 n eq_refl). pose proof (Htodo n ltac:(set_solver)).
    apply elem_of_cons in Hr as [->|Hr]; [lia|]. specialize (Htd r Hr). unfold fin in *. lia.
  - intros y. rewrite mem_nil. unfold in_range, fin. cbn. lia.
Qed.

Lemma combine_prev p sn :
  seen = p :: sn -> fin p = s -> (forall n, head todo = Some n -> s + l <> start n) ->
  inserted (reverse seen ++ todo)
    (reverse sn ++ MkRange (start p) (len p +{64} l) :: todo) s l.
Proof.
  intros E Hp H2. destruct (seen_head _ _ _ _ E Hok) as [(? & ? & ?) Hsn].
  assert (Heq : reverse seen ++ todo = reverse sn ++ [p] ++ todo)
    by (by rewrite E, reverse_cons, <- app_assoc).
  assert (len p + l < 2 ^ 64).
  { unfold fin in Hp. apply (combine_length (start p) (len p + l)); [lia|lia|].
    intros y Hy. rewrite Heq, !mem_app, mem_cons. unfold in_range, fin. lia. }
  rewrite wrap_small by (unfold in_width; lia). rewrite Heq in *.
  apply inserted_splice; [done| | | |].
  - unfold range_ok, fin in *. cbn. lia.
  - intros r Hr. rewrite elem_of_reverse in Hr. auto.
  - intros r Hr. unfold fin in *. cbn. destruct todo as [|n td] eqn:E'; [set_solver|].
    specialize (H2 n eq_refl). pose proof (Htodo n ltac:(set_solver)).
    apply iset_ok_app in Hok as (_ & (_ & (Hn & Htd & _) & _)%iset_ok_app & _).
    rewrite list.Forall_forall in Htd. destruct Hn as (? & ? & ?).
    apply elem_of_cons in Hr as [->|Hr]; [lia|]. specialize (Htd r Hr). unfold fin in Htd. lia.
  - intros y. rewrite mem_cons, mem_nil. unfold in_range, fin in *. cbn. lia.
Qed.

Lemma combine_next n td :
  todo = n :: td -> s + l = start n -> (forall p, head seen = Some p -> fin p <> s) ->
  inserted (reverse seen ++ todo) (reverse seen ++ MkRange s (len n +{64} l) :: td) s l.
Proof.
  intros E Hn H1. destruct (todo_head _ _ _ _ E Hok) as [(? & ? & ?) Htd].
  assert (Heq : reverse seen ++ todo = reverse seen ++ [n] ++ td) by (by rewrite E).
  assert (len n + l < 2 ^ 64).
  { unfold fin in *. apply (combine_length s (len n + l)); [lia|lia|].
    intros y Hy. rewrite Heq, !mem_app, mem_cons. unfold in_range, fin. lia. }
  rewrite wrap_small by (unfold in_width; lia). rewrite Heq in *.
  apply inserted_splice; [done| | | |].
  - unfold range_ok, fin in *. cbn. lia.
  - intros r Hr. rewrite elem_of_reverse in Hr. cbn.
    destruct seen as [|p sn] eqn:E'; [set_solver|].
    specialize (H1 p eq_refl). pose proof (Hseen p ltac:(set_solver)).
    destruct (seen_head _ _ _ _ eq_refl Hok) as [(? & ? & ?) Hsn].
    apply elem_of_cons in Hr as [->|Hr]; [lia|]. specialize (Hsn r Hr). unfold fin in *. lia.
  - intros r Hr. specialize (Htd r Hr). unfold fin in *. cbn. lia.
  - intros y. rewrite mem_cons, mem_nil. unfold in_range, fin in *. cbn. lia.
Qed.

Lemma combine_both p sn n td :
  seen = p :: sn -> todo = n :: td -> fin p = s -> s + l = start n ->
  inserted (reverse seen ++ todo)
    (reverse sn ++ MkRange (start p) ((len p +{64} l) +{64} len n) :: td) s l.
Proof.
  intros E E' Hp Hn. destruct (seen_head _ _ _ _ E Hok) as [(? & ? & ?) Hsn].
  destruct (todo_head _ _ _ _ E' Hok) as [(? & ? & ?) Htd].
  assert (Heq : reverse seen ++ todo = reverse sn ++ [p; n] ++ td)
    by (by rewrite E, E', reverse_cons, <- app_assoc).
  assert (len p + l + len n < 2 ^ 64).
  { unfold fin in *. apply (combine_length (start p) (len p + l + len n)); [lia|lia|].
    intros y Hy. rewrite Heq, !mem_app, !mem_cons. unfold in_range, fin. lia. }
  rewrite wrap_add_l, wrap_small by (unfold in_width; lia). rewrite Heq in *.
  apply inserted_splice; [done| | | |].
  - unfold range_ok, fin in *. cbn. lia.
  - intros r Hr. rewrite elem_of_reverse in Hr. auto.
  - intros r Hr. specialize (Htd r Hr). unfold fin in *. cbn. lia.
  - intros y. rewrite !mem_cons, mem_nil. unfold in_range, fin in *. cbn. lia.
Qed.

Lemma insert_at_ok calloc_ok :
  match insert_at calloc_ok seen todo s l with
  | Some rs' => inserted (reverse seen ++ todo) rs' s l
  | None => calloc_ok = false
  end.
Proof.
  unfold insert_at, check_do_combine, create_range.
  assert (Hpw : forall p sn, seen = p :: sn -> start p +{64} len p = fin p).
  { intros p sn E. pose proof (Hseen p ltac:(rewrite E; set_solver)).
    destruct (seen_head _ _ _ _ E Hok) as [(? & ? & ?) _].
    unfold fin in *. apply wrap_small. unfold in_width. lia. }
  assert (Hnw : forall n td, todo = n :: td -> s +{64} l = s + l).
  { intros n td E. pose proof (Htodo n ltac:(rewrite E; set_solver)).
    destruct (todo_head _ _ _ _ E Hok) as [(? & ? & ?) _].
    unfold fin in *. apply wrap_small. unfold in_width. lia. }
  pose proof combine_none as Hnone. pose proof combine_prev as Hprev.
  pose proof combine_next as Hnext. pose proof combine_both as Hboth.
  destruct seen as [|p sn], todo as [|n td]; cbn [head tail];
    try (rewrite (Hpw p sn eq_refl)); try (rewrite (Hnw n td eq_refl));
    repeat match goal with
    | |- context [fin p =? s] => destruct (Z.eqb_spec (fin p) s)
    | |- context [s + l =? start n] => destruct (Z.eqb_spec (s + l) (start n))
    end; unfold rebuild, option_list; cbn [app start len];
    try (destruct calloc_ok; [|done]);
    solve [ apply Hnone; intros ? [= <-]; done
          | apply Hboth with (n := n); done
          | apply Hprev; [done|done|intros ? [= <-]; done]
          | apply Hnext; [done|done|intros ? [= <-]; done]
          | apply Hprev; done
          | apply Hnext; done
          | specialize (Hnext n td eq_refl); rewrite !reverse_cons, <- !app_assoc in *;
            apply Hnext; [done | intros ? [= <-]; done] ].
Qed.

End combine.

Lemma insert_ok calloc_ok s l rs (Hok : iset_ok rs)
    (Hs : in_width 64 s) (Hl : in_width 64 l) (Hroom : room_left rs s l) :
  let '(ret, rs') := iset_insert_range calloc_ok s l rs in
  (ret = 0 /\ 0 < l /\ s + l <= 2 ^ 64 /\ iset_ok rs' /\
   (forall x, mem rs' x <-> mem rs x \/ s <= x < s + l) /\
   (forall x, s <= x < s + l -> ~ mem rs x)) \/
  (ret = EINVAL /\ rs' = rs /\
   (l = 0 \/ 2 ^ 64 < s + l \/ exists x, s <= x < s + l /\ mem rs x)) \/
  (ret = ENOMEM /\ rs' = rs /\ calloc_ok = false).
Proof.
  unfold in_width in *. unfold iset_insert_range.
  destruct (Z.eqb_spec l 0) as [->|Hl0]; cbn [orb]; [by auto 10|].
  rewrite wrap_sub_l. destruct (Z.ltb_spec (2 ^ 64) (s + l)) as [Hbig|Hfit].
  { rewrite wrap_over by lia. rewrite (proj2 (Z.ltb_lt _ s)) by lia. auto 10. }
  rewrite wrap_small by (unfold in_width; lia). rewrite (proj2 (Z.ltb_ge _ s)) by lia.
  pose proof (insert_scan_ok [] rs s l Hok ltac:(lia) ltac:(lia) Hfit ltac:(set_solver)) as Hscan.
  destruct (insert_scan [] rs s l) as [[seen todo]|].
  - destruct Hscan as (Heq & Hseen & Htodo). cbn in Heq. rewrite <- Heq in *.
    pose proof (insert_at_ok seen todo s l Hok ltac:(lia) ltac:(lia) Hfit Hroom Hseen Htodo
      calloc_ok) as Hat.
    destruct (insert_at calloc_ok seen todo s l) as [rs'|]; [left|by auto].
    destruct Hat as [Hok' Hm]. split_and!; [done|lia|done|done|done|]. intros x Hx Hmx.
    apply mem_elem in Hmx as (r & Hr & Hrx). unfold in_range in Hrx.
    apply elem_of_app in Hr as [Hr|Hr]; [rewrite elem_of_reverse in Hr; specialize (Hseen r Hr)|
      specialize (Htodo r Hr)]; lia.
  - destruct Hscan as (r & Hr & Hov). right; left. split; [done|]. split; [done|].
    right; right. exists (Z.max (start r) s). destruct (iset_ok_range _ _ Hok Hr) as (? & ? & ?).
    unfold fin in *. split; [lia|]. apply mem_elem. exists r. split; [done|].
    unfold in_range, fin. lia.
Qed.

(** Inserting a range into a set either adds exactly its addresses, in
    canonical form (sorted, merged with its neighbours), or fails and leaves the
    set as it was: [EINVAL] when the range is empty, leaves the 64-bit space or
    overlaps the set, [ENOMEM] when a new node is needed and cannot be
    allocated.  The one assumption is that some address stays outside the set. *)
Theorem iset_insert_spec calloc_ok s l rs (Hok : iset_ok rs)
    (Hs : in_width 64 s) (Hl : in_width 64 l) (Hroom : room_left rs s l) :
  let '(ret, rs') := iset_insert_range calloc_ok s l rs in
  (ret = 0 /\ 0 < l /\ s + l <= 2 ^ 64 /\ iset_ok rs' /\
   (forall x, mem rs' x <-> mem rs x \/ s <= x < s + l) /\
   (forall x, s <= x < s + l -> ~ mem rs x)) \/
  (ret = EINVAL /\ rs' = rs /\
   (l = 0 \/ 2 ^ 64 < s + l \/ exists x, s <= x < s + l /\ mem rs x)) \/
  (ret = ENOMEM /\ rs' = rs /\ calloc_ok = false).
Proof. by apply insert_ok. Qed.

Definition demo_iset : iset := [MkRange 0x1000 0x1000; MkRange 0x4000 0x1000].

Lemma demo_iset_ok : iset_ok demo_iset.
Proof.
  cbn. unfold range_ok, fin. cbn. split_and!; try lia; try done.
  apply Forall_singleton. cbn. lia.
Qed.

Lemma iset_insert_spec_witness :
  let '(ret, rs') := iset_insert_range true 0x2000 0x2000 demo_iset in
  ret = 0 /\ rs' = [MkRange 0x1000 0x4000] /\ iset_ok rs'.
Proof.
  assert (Hroom : room_left demo_iset 0x2000 0x2000).
  { exists 0. split; [lia|]. split; [|lia]. unfold demo_iset.
    rewrite !mem_cons, mem_nil. unfold in_range, fin. cbn. lia. }
  pose proof (iset_insert_spec true 0x2000 0x2000 demo_iset demo_iset_ok
    ltac:(unfold in_width; lia) ltac:(unfold in_width; lia) Hroom) as H.
  change (iset_insert_range true 0x2000 0x2000 demo_iset) with (0, [MkRange 0x1000 0x4000]) in *.
  destruct H as [(_ & _ & _ & Hok & _)|[(Hf & _)|(Hf & _)]]; [|discriminate..].
  split; [reflexivity|]. split; [reflexivity | exact Hok].
Defined.

(** ** Allocation *)

Lemma power_of_two_spec x :
  in_width 64 x -> power_of_two x = true <-> exists k, 0 <= k < 64 /\ x = 2 ^ k.
Proof.
  intros Hx. unfold power_of_two, in_width in *. rewrite andb_true_iff, negb_true_iff.
  rewrite Z.eqb_neq, Z.eqb_eq. split.
  - intros [H0 Hl]. rewrite wrap_small in Hl by (unfold in_width; lia).
    pose proof (Z.log2_spec x ltac:(lia)) as Hlog. pose proof (Z.log2_nonneg x).
    exists (Z.log2 x). split; [split; [done|apply Z.log2_lt_pow2; lia]|].
    destruct (Z.eq_dec x (2 ^ Z.log2 x)) as [|Hne]; [done|]. exfalso.
    assert (Hlog' : Z.log2 (x - 1) = Z.log2 x) by (apply Z.log2_unique; lia).
    assert (Hb : Z.testbit (Z.land x (x - 1)) (Z.log2 x) = true).
    { rewrite Z.land_spec, Z.bit_log2, <- Hlog', Z.bit_log2; [done| |lia].
      assert (0 < 2 ^ Z.log2 x) by (apply Z.pow_pos_nonneg; lia). lia. }
    by rewrite Hl, Z.bits_0 in Hb.
  - intros (k & Hk & ->). destruct (pow2_bounds k 64 Hk) as [Hp Hp2]. split; [lia|].
    rewrite wrap_small by (unfold in_width; lia). apply Z.bits_inj'. intros i Hi.
    rewrite Z.land_spec, Z.bits_0, Z.pow2_bits_eqb by lia.
    destruct (Z.eqb_spec k i) as [<-|]; [|done]. cbn [andb].
    replace (2 ^ k - 1) with (Z.ones k) by (rewrite Z.ones_equiv; lia).
    apply Z.ones_spec_high. lia.
Qed.

(** Set difference with an interval. *)
Definition removed (rs rs' : iset) (a l : Z) : Prop :=
  iset_ok rs' /\ forall x, mem rs' x <-> mem rs x /\ ~ (a <= x < a + l).

(** Replacing one range [r] by the parts [m] that are left of it. *)
Lemma removed_splice a0 r b0 m a l :
  iset_ok (a0 ++ r :: b0) -> iset_ok m ->
  (forall q, q ∈ m -> start r <= start q /\ fin q <= fin r) ->
  start r <= a -> a + l <= fin r ->
  (forall y, mem m y <-> in_range r y /\ ~ (a <= y < a + l)) ->
  removed (a0 ++ r :: b0) (a0 ++ m ++ b0) a l.
Proof.
  intros (Ha & (Hr & Hgap & Hb) & Hab)%iset_ok_app Hm Hsub Hal Hfin Hmem.
  rewrite list.Forall_forall in Hgap. split.
  - rewrite !iset_ok_app. unfold before in *. split_and!; try done.
    + intros q q' Hq Hq'. destruct (Hsub q Hq). specialize (Hgap q' Hq'). lia.
    + intros q q' Hq Hq'. apply elem_of_app in Hq' as [Hq'|Hq'].
      * destruct (Hsub q' Hq'). specialize (Hab q r Hq ltac:(set_solver)). lia.
      * apply Hab; set_solver.
  - intros y. rewrite !mem_app, mem_cons, Hmem.
    assert (Hna : mem a0 y -> ~ (a <= y < a + l)).
    { intros (q & Hq & Hy)%mem_elem. specialize (Hab q r Hq ltac:(set_solver)).
      unfold in_range in Hy. lia. }
    assert (Hnb : mem b0 y -> ~ (a <= y < a + l)).
    { intros (q & Hq & Hy)%mem_elem. specialize (Hgap q Hq). unfold in_range in Hy. lia. }
    tauto.
Qed.

(** An allocation that found the range [r] takes [l] addresses at the aligned
    start out of it. *)
Lemma take_from_ok calloc_ok l k r :
  range_ok r -> 0 <= k < 64 -> 0 < l < 2 ^ 64 -> start r <= 2 ^ 64 - 2 ^ k ->
  let a := align (start r) (2 ^ k) in
  a + l <= fin r ->
  match take_from calloc_ok l (2 ^ k) r with
  | Some m => iset_ok m /\ (forall q, q ∈ m -> start r <= start q /\ fin q <= fin r) /\
              (forall y, mem m y <-> in_range r y /\ ~ (a <= y < a + l))
  | None => calloc_ok = false
  end.
Proof.
  intros (H0 & H1 & H2) Hk Hl Hst a Hfit. unfold fin in *.
  destruct (align_bounds (start r) k) as (_ & _ & _ & Hal & _);
    [unfold in_width; destruct (pow2_bounds k 64 Hk); lia|done|].
  specialize (Hal Hst). fold a in Hal. unfold take_from, create_range. fold a.
  destruct (Z.eqb_spec (start r) a) as [Heq|Hne].
  - destruct (Z.eqb_spec (len r) l) as [Hll|Hll].
    + split; [done|]. split; [set_solver|]. intros y. rewrite mem_nil. unfold in_range, fin. lia.
    + rewrite !wrap_small by (unfold in_width; lia). split_and!.
      * cbn. unfold range_ok, fin; cbn. split_and!; try lia; done.
      * intros q ->%list_elem_of_singleton. unfold fin. cbn. lia.
      * intros y. rewrite mem_cons, mem_nil. unfold in_range, fin. cbn. lia.
  - rewrite !wrap_sub_l, <- Z.sub_add_distr, wrap_sub_l. rewrite (wrap_small 64 (a - start r)) by (unfold in_width; lia).
    destruct (Z.eqb_spec (a +{64} l) (wrap 64 (start r + len r))) as [He|He]; cbn [negb].
    + assert (a + l = start r + len r).
      { destruct (Z.eq_dec (start r + len r) (2 ^ 64)) as [E|], (Z.eq_dec (a + l) (2 ^ 64));
          try lia; [rewrite E, (wrap_over 64 (2 ^ 64)) in He by lia |];
          rewrite ?wrap_small in He by (unfold in_width; lia); lia. }
      split_and!.
      * cbn. unfold range_ok, fin; cbn. split_and!; try lia; done.
      * intros q ->%list_elem_of_singleton. unfold fin. cbn. lia.
      * intros y. rewrite mem_cons, mem_nil. unfold in_range, fin. cbn. lia.
    + assert (a + l <> start r + len r) by congruence. destruct calloc_ok; [|done].
      rewrite !wrap_small by (unfold in_width; lia). split_and!.
      * cbn. rewrite Forall_singleton. unfold range_ok, fin; cbn. split_and!; try lia; done.
      * intros q [->| ->%list_elem_of_singleton]%elem_of_cons; unfold fin; cbn; lia.
      * intros y. rewrite !mem_cons, mem_nil. unfold in_range, fin. cbn. lia.
Qed.

Lemma alloc_fits_spec l k r :
  range_ok r -> 0 <= k < 64 -> 0 < l < 2 ^ 64 -> start r <= 2 ^ 64 - 2 ^ k ->
  alloc_fits l (2 ^ k) r = true <-> align (start r) (2 ^ k) + l <= fin r.
Proof.
  intros (H0 & H1 & H2) Hk Hl Hst. destruct (pow2_bounds k 64 Hk) as [Hp Hp2].
  destruct (align_bounds (start r) k) as (_ & _ & _ & Hal & _); [unfold in_width; lia|done|].
  specialize (Hal Hst). unfold alloc_fits, fin in *. set (a := align (start r) (2 ^ k)) in *.
  assert (Ha : a < 2 ^ 64).
  { destruct (align_bounds (start r) k) as ([q Hq] & _); [unfold in_width; lia|done|].
    fold a in Hq. assert (Hd : 2 ^ 64 = 2 ^ (64 - k) * 2 ^ k) by (rewrite <- Z.pow_add_r; f_equal; lia).
    nia. }
  rewrite (wrap_last (start r) (len r)) by lia. rewrite wrap_sub_l.
  rewrite andb_true_iff, !Z.leb_le. destruct (Z.leb_spec (a + l) (2 ^ 64)).
  - rewrite wrap_small by (unfold in_width; lia). lia.
  - rewrite wrap_over by lia. lia.
Qed.

Lemma alloc_scan_ok l k seen todo :
  match alloc_scan seen todo l k with
  | Some (seen', r, rest) =>
      reverse seen' ++ r :: rest = reverse seen ++ todo /\ alloc_fits l k r = true /\
      forall q, q ∈ seen' -> q ∈ seen \/ alloc_fits l k q = false
  | None => forall q, q ∈ todo -> alloc_fits l k q = false
  end.
Proof.
  revert seen. induction todo as [|r todo IH]; intros seen; cbn [alloc_scan]; [set_solver|].
  destruct (alloc_fits l k r) eqn:E; [by auto|]. specialize (IH (r :: seen)).
  destruct (alloc_scan (r :: seen) todo l k) as [[[seen' r'] rest]|].
  - destruct IH as (Heq & Hf & Hs). rewrite reverse_cons, <- app_assoc in Heq.
    split; [done|]. split; [done|]. intros q Hq. destruct (Hs q Hq) as [[->|?]%elem_of_cons|]; auto.
  - intros q [->|Hq]%elem_of_cons; auto.
Qed.

(** A run of member addresses lies inside one range. *)
Lemma run_in_range rs a n :
  iset_ok rs -> 0 < n -> (forall x, a <= x < a + n -> mem rs x) ->
  exists r, r ∈ rs /\ start r <= a /\ a + n <= fin r.
Proof.
  intros Hok Hn Hrun.
  assert (Hdisj : forall r r', r ∈ rs -> r' ∈ rs -> r = r' \/ fin r < start r' \/ fin r' < start r).
  { clear Hrun. induction rs as [|r0 rs IH]; [set_solver|]. destruct Hok as (_ & Hg & Hok).
    rewrite list.Forall_forall in Hg.
    intros r r' [->|Hr]%elem_of_cons [->|Hr']%elem_of_cons; auto. }
  destruct (proj1 (mem_elem rs a) (Hrun a ltac:(lia))) as (r & Hr & Ha).
  exists r. split; [done|]. unfold in_range in Ha. split; [lia|].
  destruct (Z.leb_spec (a + n) (fin r)); [done|]. exfalso.
  destruct (proj1 (mem_elem rs (fin r)) (Hrun (fin r) ltac:(lia))) as (r' & Hr' & Hf).
  unfold in_range in Hf. destruct (Hdisj r r' Hr Hr') as [->|[?|?]]; [lia|lia|].
  destruct (iset_ok_range _ _ Hok Hr') as (? & ? & ?). unfold fin in *. lia.
Qed.

(** A multiple of the alignment inside a range is not below the aligned start. *)
Lemma align_le_multiple k s a :
  in_width 64 s -> 0 <= k < 64 -> s <= 2 ^ 64 - 2 ^ k -> (2 ^ k | a) -> s <= a ->
  align s (2 ^ k) <= a.
Proof.
  intros Hs Hk Hst [q ->] Hle. destruct (align_bounds s k Hs Hk) as ([q' Hq'] & _ & _ & Hal & _).
  specialize (Hal Hst). rewrite Hq' in Hal |- *. destruct (pow2_bounds k 64 Hk).
  apply Z.mul_le_mono_nonneg_r; [lia|].
  apply Z.lt_succ_r, (Z.mul_lt_mono_pos_r (2 ^ k)); [lia|]. rewrite Z.mul_succ_l. lia.
Qed.

Lemma alloc_ok calloc_ok l k rs (Hok : iset_ok rs) (Hk : 0 <= k < 64)
    (Hl : 0 < l < 2 ^ 64) (Hlow : forall r, r ∈ rs -> start r <= 2 ^ 64 - 2 ^ k) :
  let free_run a := forall x, a <= x < a + l -> mem rs x in
  match iset_alloc_range calloc_ok l (2 ^ k) rs with
  | (ret, Some a, rs') =>
      ret = 0 /\ (2 ^ k | a) /\ free_run a /\ removed rs rs' a l /\
      (forall a', (2 ^ k | a') -> free_run a' -> a <= a')
  | (ret, None, rs') =>
      rs' = rs /\
      ((ret = ENOSPC /\ forall a', (2 ^ k | a') -> ~ free_run a') \/
       (ret = ENOMEM /\ calloc_ok = false))
  end.
Proof.
  intros free_run. destruct (pow2_bounds k 64 Hk) as [Hp Hp2]. unfold iset_alloc_range.
  rewrite (proj2 (power_of_two_spec (2 ^ k) ltac:(unfold in_width; lia)) ltac:(eauto)). cbn [negb].
  assert (Hfits : forall r, r ∈ rs -> alloc_fits l (2 ^ k) r = true <->
    align (start r) (2 ^ k) + l <= fin r).
  { intros r Hr. apply alloc_fits_spec; eauto using iset_ok_range. }
  assert (Hwidth : forall r, r ∈ rs -> in_width 64 (start r)).
  { intros r Hr. destruct (iset_ok_range _ _ Hok Hr) as (? & ? & ?). unfold in_width, fin in *. lia. }
  assert (Hrun : forall a', (2 ^ k | a') -> free_run a' ->
    exists r, r ∈ rs /\ alloc_fits l (2 ^ k) r = true /\ start r <= a' /\
              align (start r) (2 ^ k) <= a').
  { intros a' Hdiv Hfree. destruct (run_in_range rs a' l Hok ltac:(lia) Hfree) as (r & Hr & H1 & H2).
    pose proof (align_le_multiple k (start r) a' (Hwidth r Hr) Hk (Hlow r Hr) Hdiv H1).
    exists r. split; [done|]. split; [apply Hfits; [done|lia]|done]. }
  pose proof (alloc_scan_ok l (2 ^ k) [] rs) as Hscan.
  destruct (alloc_scan [] rs l (2 ^ k)) as [[[seen r] rest]|].
  2: { split; [done|]. left. split; [done|]. intros a' Hdiv Hfree.
       destruct (Hrun a' Hdiv Hfree) as (r & Hr & Hf & _). by rewrite (Hscan r Hr) in Hf. }
  destruct Hscan as (Heq & Hf & Hseen). cbn in Heq. subst rs.
  assert (Hr : r ∈ reverse seen ++ r :: rest) by set_solver.
  apply Hfits in Hf; [|done]. pose proof (iset_ok_range _ _ Hok Hr) as Hrok.
  destruct (align_bounds (start r) k (Hwidth r Hr) Hk) as (Hdiv & _ & _ & Hal & _).
  specialize (Hal (Hlow r Hr)).
  pose proof (take_from_ok calloc_ok l k r Hrok Hk Hl (Hlow r Hr) Hf) as Htake.
  destruct (take_from calloc_ok l (2 ^ k) r) as [m|]; [|by auto].
  set (a := align (start r) (2 ^ k)) in *. destruct Htake as (Hm & Hsub & Hmem).
  split; [done|]. split; [done|]. split; [|split].
  - intros x Hx. apply mem_elem. exists r. split; [done|]. unfold in_range. lia.
  - apply removed_splice; auto; lia.
  - intros a' Hdiv' Hfree. destruct (Hrun a' Hdiv' Hfree) as (q & Hq & Hqf & Hqs & Hqa).
    apply elem_of_app in Hq as [Hq|[->|Hq]%elem_of_cons]; [|done|].
    + rewrite elem_of_reverse in Hq. destruct (Hseen q Hq) as [?|Hn]; [set_solver|].
      by rewrite Hn in Hqf.
    + apply iset_ok_app in Hok as (_ & (_ & Hg & _) & _). rewrite list.Forall_forall in Hg.
      specialize (Hg q Hq). lia.
Qed.

(** An allocation is the aligned first fit: it returns the lowest aligned
    address at which [l] free addresses follow each other, and removes exactly
    these from the set, which stays canonical; it fails with [ENOSPC] exactly
    when there is no such address, and with [ENOMEM] only when a range has to be
    split and [calloc] fails, in both cases without changing the set.  The ranges
    must start at least one alignment below the top of the 64-bit space. *)
Theorem iset_alloc_spec calloc_ok l k rs (Hok : iset_ok rs) (Hk : 0 <= k < 64)
    (Hl : 0 < l < 2 ^ 64) (Hlow : forall r, r ∈ rs -> start r <= 2 ^ 64 - 2 ^ k) :
  let free_run a := forall x, a <= x < a + l -> mem rs x in
  match iset_alloc_range calloc_ok l (2 ^ k) rs with
  | (ret, Some a, rs') =>
      ret = 0 /\ (2 ^ k | a) /\ free_run a /\ removed rs rs' a l /\
      (forall a', (2 ^ k | a') -> free_run a' -> a <= a')
  | (ret, None, rs') =>
      rs' = rs /\
      ((ret = ENOSPC /\ forall a', (2 ^ k | a') -> ~ free_run a') \/
       (ret = ENOMEM /\ calloc_ok = false))
  end.
Proof. by apply alloc_ok. Qed.

Lemma iset_alloc_spec_witness :
  match iset_alloc_range true 0x800 (2 ^ 13) demo_iset with
  | (ret, Some a, rs') => ret = 0 /\ a = 0x4000 /\ removed demo_iset rs' a 0x800
  | (_, None, _) => False
  end.
Proof.
  pose proof (iset_alloc_spec true 0x800 13 demo_iset demo_iset_ok ltac:(lia) ltac:(lia)) as H.
  change (iset_alloc_range true 0x800 (2 ^ 13) demo_iset)
    with (0, Some 0x4000, [MkRange 0x1000 0x1000; MkRange 0x4800 0x800]) in *.
  destruct H as (H0 & _ & _ & Hr & _); [|split; [exact H0|]; split; [reflexivity | exact Hr]].
  unfold demo_iset. intros r Hr. apply elem_of_cons in Hr as [->|Hr]; [cbn; lia|].
  apply list_elem_of_singleton in Hr as ->. cbn. lia.
Defined.

(** Canonical sets with the same members are equal. *)
Lemma iset_canonical rs rs' :
  iset_ok rs -> iset_ok rs' -> (forall x, mem rs x <-> mem rs' x) -> rs = rs'.
Proof.
  assert (Hfirst : forall r l x, iset_ok (r :: l) -> mem (r :: l) x -> start r <= x).
  { intros r l x ((? & ? & ?) & Hg & _) Hx. rewrite list.Forall_forall in Hg.
    apply mem_cons in Hx as [Hx|(q & Hq & Hx)%mem_elem]; unfold in_range in Hx; [lia|].
    specialize (Hg q Hq). unfold fin in *. lia. }
  assert (Hself : forall r l, iset_ok (r :: l) -> mem (r :: l) (start r)).
  { intros r l ((? & ? & ?) & _). apply mem_cons. left. unfold in_range, fin. lia. }
  assert (Hend : forall r l, iset_ok (r :: l) -> ~ mem (r :: l) (fin r)).
  { intros r l (_ & Hg & _) Hx. rewrite list.Forall_forall in Hg.
    apply mem_cons in Hx as [Hx|(q & Hq & Hx)%mem_elem]; unfold in_range in Hx; [lia|].
    specialize (Hg q Hq). lia. }
  assert (Hrest : forall r l x, iset_ok (r :: l) -> mem l x <-> mem (r :: l) x /\ fin r <= x).
  { intros r l x (_ & Hg & _). rewrite list.Forall_forall in Hg. rewrite mem_cons. split.
    - intros Hx. split; [by right|]. apply mem_elem in Hx as (q & Hq & Hx).
      specialize (Hg q Hq). unfold in_range in Hx. lia.
    - intros [[Hx|Hx] Hle]; [unfold in_range in Hx; lia|done]. }
  revert rs'. induction rs as [|r rs IH]; intros [|r' rs'] Hok Hok' Hm.
  - done.
  - exfalso. apply (mem_nil (start r')), Hm, (Hself _ _ Hok').
  - exfalso. apply (mem_nil (start r)), Hm, (Hself _ _ Hok).
  - assert (Hst : start r = start r').
    { pose proof (Hfirst r' rs' (start r) Hok' (proj1 (Hm _) (Hself _ _ Hok))).
      pose proof (Hfirst r rs (start r') Hok (proj2 (Hm _) (Hself _ _ Hok'))). lia. }
    assert (Hfin : fin r = fin r').
    { pose proof (Hend r rs Hok) as He. pose proof (Hend r' rs' Hok') as He'.
      rewrite Hm, mem_cons in He. rewrite <- Hm, mem_cons in He'. unfold in_range in He, He'.
      destruct Hok as ((? & ? & ?) & _), Hok' as ((? & ? & ?) & _). unfold fin in *. lia. }
    assert (r = r') as -> by (destruct r, r'; unfold fin in *; cbn in *; f_equal; lia).
    f_equal. apply IH; [apply Hok|apply Hok'|]. intros x.
    by rewrite (Hrest r' rs x Hok), (Hrest r' rs' x Hok'), Hm.
Qed.

(** Returning an allocated range with [iset_insert_range] restores the very
    same list of ranges the allocation started from. *)
Theorem iset_alloc_free_roundtrip l k rs a rs' (Hok : iset_ok rs) (Hk : 0 <= k < 64)
    (Hl : 0 < l < 2 ^ 64) (Hlow : forall r, r ∈ rs -> start r <= 2 ^ 64 - 2 ^ k)
    (Hroom : exists y, 0 <= y < 2 ^ 64 /\ ~ mem rs y)
    (Halloc : iset_alloc_range true l (2 ^ k) rs = (0, Some a, rs')) :
  iset_insert_range true a l rs' = (0, rs).
Proof.
  pose proof (alloc_ok true l k rs Hok Hk Hl Hlow) as Hspec. cbn zeta in Hspec.
  rewrite Halloc in Hspec. destruct Hspec as (_ & _ & Hfree & [Hok' Hm] & _).
  assert (Hbound : 0 <= a /\ a + l <= 2 ^ 64).
  { destruct (run_in_range rs a l Hok ltac:(lia) Hfree) as (r & Hr & ? & ?).
    destruct (iset_ok_range _ _ Hok Hr) as (? & ? & ?). unfold fin in *. lia. }
  assert (Hroom' : room_left rs' a l).
  { destruct Hroom as (y & Hy & Hny). exists y. split; [done|]. split.
    - rewrite Hm. tauto.
    - intros Hya. by apply Hny, Hfree. }
  assert (Hnot : ~ exists x, a <= x < a + l /\ mem rs' x) by (intros (x & ? & ?%Hm); tauto).
  pose proof (insert_ok true a l rs' Hok' ltac:(unfold in_width; lia)
    ltac:(unfold in_width; lia) Hroom') as Hins.
  destruct (iset_insert_range true a l rs') as [ret rs2].
  destruct Hins as [(-> & _ & _ & Hok2 & Hm2 & _)|[(_ & _ & Hbad)|(_ & _ & Hbad)]];
    [|exfalso; destruct Hbad as [?|[?|?]]; [lia|lia|done]|done].
  f_equal. apply iset_canonical; [done..|]. intros x. rewrite Hm2, Hm.
  destruct (decide (a <= x < a + l)) as [Hx|Hx]; [|tauto]. specialize (Hfree x Hx). tauto.
Qed.

Lemma iset_alloc_free_roundtrip_witness :
  iset_insert_range true 0x4000 0x800 [MkRange 0x1000 0x1000; MkRange 0x4800 0x800]
    = (0, demo_iset).
Proof.
  apply (iset_alloc_free_roundtrip 0x800 13 demo_iset); [exact demo_iset_ok|lia|lia| | |].
  - unfold demo_iset. intros r Hr. apply elem_of_cons in Hr as [->|Hr]; [cbn; lia|].
    apply list_elem_of_singleton in Hr as ->. cbn. lia.
  - exists 0. split; [lia|]. unfold demo_iset. rewrite !mem_cons, mem_nil.
    unfold in_range, fin. cbn. lia.
  - reflexivity.
Defined.

(** Near the top of the address space the aligned start wraps around to 0,
    and the check against wrap-around does not see it: with the single free range
    of the last 16 addresses, a request for 4 addresses aligned to 4096 succeeds
    with address 0, which is not in the set, and leaves a set of ranges that no
    longer fit the address space. *)
Theorem iset_alloc_wraps_around :
  let rs := [MkRange (2 ^ 64 - 16) 16] in
  exists rs', iset_ok rs /\ iset_alloc_range true 4 4096 rs = (0, Some 0, rs') /\
    ~ mem rs 0 /\ ~ iset_ok rs'.
Proof.
  eexists. split_and!; [|vm_compute; reflexivity| |].
  - cbn. unfold range_ok, fin. cbn. split_and!; try lia; done.
  - rewrite mem_cons, mem_nil. unfold in_range, fin. cbn. lia.
  - cbn. intros (_ & Hg & _). rewrite Forall_singleton in Hg. unfold fin in Hg. cbn in Hg. lia.
Qed.
