(* ===== verification/VerbsOps.v ===== *)
(** * Verbs dispatch: struct verbs_context_ops (libibverbs/driver.h) and
    libibverbs/dummy_ops.c

    The table of provider operations, the dummy operations that stand in for the
    missing ones, and [verbs_set_ops], which a provider calls any number of times
    to install its operations.  A table maps each verb to a function pointer or
    NULL. *)

From stdpp Require Import base sets strings numbers list.
From Stdlib Require Import ZArith Lia.
From S2P Require Import Prelude.

#[local] Open Scope Z_scope.

(** The members of [struct verbs_context_ops], in order. *)
Inductive verb : Set :=
| advise_mr | alloc_dm | alloc_mw | alloc_null_mr | alloc_parent_domain | alloc_pd
| alloc_td | async_event | attach_counters_point_flow | attach_mcast | bind_mw | close_xrcd
| cq_event | create_ah | create_counters | create_cq | create_cq_ex | create_flow
| create_flow_action_esp | create_qp | create_qp_ex | create_rwq_ind_table | create_srq
| create_srq_ex | create_wq | dealloc_mw | dealloc_pd | dealloc_td | dereg_mr | destroy_ah
| destroy_counters | destroy_cq | destroy_flow | destroy_flow_action | destroy_qp
| destroy_rwq_ind_table | destroy_srq | destroy_wq | detach_mcast | free_context | free_dm
| get_srq_num | import_dm | import_mr | import_pd | modify_cq | modify_flow_action_esp
| modify_qp | modify_qp_rate_limit | modify_srq | modify_wq | open_qp | open_xrcd | poll_cq
| post_recv | post_send | post_srq_ops | post_srq_recv | query_device_ex | query_ece
| query_port | query_qp | query_qp_data_in_order | query_rt_values | query_srq
| read_counters | reg_dm_mr | reg_dmabuf_mr | reg_mr | req_notify_cq | rereg_mr | resize_cq
| set_ece | unimport_dm | unimport_mr | unimport_pd.

Definition all_verbs : list verb :=
  [advise_mr; alloc_dm; alloc_mw; alloc_null_mr; alloc_parent_domain; alloc_pd; alloc_td;
   async_event; attach_counters_point_flow; attach_mcast; bind_mw; close_xrcd; cq_event;
   create_ah; create_counters; create_cq; create_cq_ex; create_flow; create_flow_action_esp;
   create_qp; create_qp_ex; create_rwq_ind_table; create_srq; create_srq_ex; create_wq;
   dealloc_mw; dealloc_pd; dealloc_td; dereg_mr; destroy_ah; destroy_counters; destroy_cq;
   destroy_flow; destroy_flow_action; destroy_qp; destroy_rwq_ind_table; destroy_srq;
   destroy_wq; detach_mcast; free_context; free_dm; get_srq_num; import_dm; import_mr;
   import_pd; modify_cq; modify_flow_action_esp; modify_qp; modify_qp_rate_limit;
   modify_srq; modify_wq; open_qp; open_xrcd; poll_cq; post_recv; post_send; post_srq_ops;
   post_srq_recv; query_device_ex; query_ece; query_port; query_qp; query_qp_data_in_order;
   query_rt_values; query_srq; read_counters; reg_dm_mr; reg_dmabuf_mr; reg_mr;
   req_notify_cq; rereg_mr; resize_cq; set_ece; unimport_dm; unimport_mr; unimport_pd].

Definition verb_name (v : verb) : string :=
  match v with
  | advise_mr => "advise_mr"
  | alloc_dm => "alloc_dm"
  | alloc_mw => "alloc_mw"
  | alloc_null_mr => "alloc_null_mr"
  | alloc_parent_domain => "alloc_parent_domain"
  | alloc_pd => "alloc_pd"
  | alloc_td => "alloc_td"
  | async_event => "async_event"
  | attach_counters_point_flow => "attach_counters_point_flow"
  | attach_mcast => "attach_mcast"
  | bind_mw => "bind_mw"
  | close_xrcd => "close_xrcd"
  | cq_event => "cq_event"
  | create_ah => "create_ah"
  | create_counters => "create_counters"
  | create_cq => "create_cq"
  | create_cq_ex => "create_cq_ex"
  | create_flow => "create_flow"
  | create_flow_action_esp => "create_flow_action_esp"
  | create_qp => "create_qp"
  | create_qp_ex => "create_qp_ex"
  | create_rwq_ind_table => "create_rwq_ind_table"
  | create_srq => "create_srq"
  | create_srq_ex => "create_srq_ex"
  | create_wq => "create_wq"
  | dealloc_mw => "dealloc_mw"
  | dealloc_pd => "dealloc_pd"
  | dealloc_td => "dealloc_td"
  | dereg_mr => "dereg_mr"
  | destroy_ah => "destroy_ah"
  | destroy_counters => "destroy_counters"
  | destroy_cq => "destroy_cq"
  | destroy_flow => "destroy_flow"
  | destroy_flow_action => "destroy_flow_action"
  | destroy_qp => "destroy_qp"
  | destroy_rwq_ind_table => "destroy_rwq_ind_table"
  | destroy_srq => "destroy_srq"
  | destroy_wq => "destroy_wq"
  | detach_mcast => "detach_mcast"
  | free_context => "free_context"
  | free_dm => "free_dm"
  | get_srq_num => "get_srq_num"
  | import_dm => "import_dm"
  | import_mr => "import_mr"
  | import_pd => "import_pd"
  | modify_cq => "modify_cq"
  | modify_flow_action_esp => "modify_flow_action_esp"
  | modify_qp => "modify_qp"
  | modify_qp_rate_limit => "modify_qp_rate_limit"
  | modify_srq => "modify_srq"
  | modify_wq => "modify_wq"
  | open_qp => "open_qp"
  | open_xrcd => "open_xrcd"
  | poll_cq => "poll_cq"
  | post_recv => "post_recv"
  | post_send => "post_send"
  | post_srq_ops => "post_srq_ops"
  | post_srq_recv => "post_srq_recv"
  | query_device_ex => "query_device_ex"
  | query_ece => "query_ece"
  | query_port => "query_port"
  | query_qp => "query_qp"
  | query_qp_data_in_order => "query_qp_data_in_order"
  | query_rt_values => "query_rt_values"
  | query_srq => "query_srq"
  | read_counters => "read_counters"
  | reg_dm_mr => "reg_dm_mr"
  | reg_dmabuf_mr => "reg_dmabuf_mr"
  | reg_mr => "reg_mr"
  | req_notify_cq => "req_notify_cq"
  | rereg_mr => "rereg_mr"
  | resize_cq => "resize_cq"
  | set_ece => "set_ece"
  | unimport_dm => "unimport_dm"
  | unimport_mr => "unimport_mr"
  | unimport_pd => "unimport_pd"
  end.

(** Position in the structure; decides equality. *)
Definition verb_idx (v : verb) : nat :=
  match v with
  | advise_mr => 0 | alloc_dm => 1 | alloc_mw => 2 | alloc_null_mr => 3
  | alloc_parent_domain => 4 | alloc_pd => 5 | alloc_td => 6 | async_event => 7
  | attach_counters_point_flow => 8 | attach_mcast => 9 | bind_mw => 10 | close_xrcd => 11
  | cq_event => 12 | create_ah => 13 | create_counters => 14 | create_cq => 15
  | create_cq_ex => 16 | create_flow => 17 | create_flow_action_esp => 18 | create_qp => 19
  | create_qp_ex => 20 | create_rwq_ind_table => 21 | create_srq => 22 | create_srq_ex => 23
  | create_wq => 24 | dealloc_mw => 25 | dealloc_pd => 26 | dealloc_td => 27 | dereg_mr => 28
  | destroy_ah => 29 | destroy_counters => 30 | destroy_cq => 31 | destroy_flow => 32
  | destroy_flow_action => 33 | destroy_qp => 34 | destroy_rwq_ind_table => 35
  | destroy_srq => 36 | destroy_wq => 37 | detach_mcast => 38 | free_context => 39
  | free_dm => 40 | get_srq_num => 41 | import_dm => 42 | import_mr => 43 | import_pd => 44
  | modify_cq => 45 | modify_flow_action_esp => 46 | modify_qp => 47
  | modify_qp_rate_limit => 48 | modify_srq => 49 | modify_wq => 50 | open_qp => 51
  | open_xrcd => 52 | poll_cq => 53 | post_recv => 54 | post_send => 55 | post_srq_ops => 56
  | post_srq_recv => 57 | query_device_ex => 58 | query_ece => 59 | query_port => 60
  | query_qp => 61 | query_qp_data_in_order => 62 | query_rt_values => 63 | query_srq => 64
  | read_counters => 65 | reg_dm_mr => 66 | reg_dmabuf_mr => 67 | reg_mr => 68
  | req_notify_cq => 69 | rereg_mr => 70 | resize_cq => 71 | set_ece => 72
  | unimport_dm => 73 | unimport_mr => 74 | unimport_pd => 75
  end.

Lemma all_verbs_idx v : all_verbs !! verb_idx v = Some v.
Proof. by destruct v. Qed.

Lemma all_verbs_complete v : v ∈ all_verbs.
Proof. eapply list_elem_of_lookup_2, all_verbs_idx. Qed.

#[export] Instance verb_idx_inj : Inj (=) (=) verb_idx.
Proof.
  intros v w Heq. pose proof (all_verbs_idx v) as Hv. rewrite Heq, all_verbs_idx in Hv.
  congruence.
Qed.

#[export] Instance verb_eq_dec : EqDecision verb.
Proof.
  intros v w. destruct (decide (verb_idx v = verb_idx w)) as [H|H]; [left | right].
  - by apply (inj verb_idx).
  - congruence.
Defined.

(** Function pointers: a dummy operation, a function of the bluerdma provider, a
    function of libibverbs itself, or a symbol of a dynamically loaded library. *)
Inductive fn : Set :=
| FnDummy (v : verb)
| FnBlue (v : verb)
| FnCore (v : verb)
| FnLib (addr : Z).

(** NULL is [None]. *)
Abbreviation verbs_context_ops := (verb -> option fn).

(** ** The dummy operations *)

Inductive call_result : Set := RetInt (z : Z) | RetNull | RetVoid.

Definition IBV_REREG_MR_ERR_INPUT : Z := -1.

(** The result of calling a dummy operation and the value of [errno] after it, in
    three groups in the order of the file. *)
Definition dummy_ops_a_to_c (v : verb) (errno : Z) : option (call_result * Z) :=
  match v with
  | alloc_dm | alloc_mw | alloc_null_mr | alloc_parent_domain | alloc_pd | alloc_td |
    create_ah | create_counters | create_cq | create_cq_ex | create_flow |
    create_flow_action_esp | create_qp | create_qp_ex | create_rwq_ind_table | create_srq |
    create_srq_ex | create_wq
    => Some (RetNull, EOPNOTSUPP)
  | async_event | cq_event
    => Some (RetVoid, errno)
  | advise_mr | attach_counters_point_flow | attach_mcast | bind_mw | close_xrcd
    => Some (RetInt EOPNOTSUPP, errno)
  | _ => None
  end.

Definition dummy_ops_d_to_m (v : verb) (errno : Z) : option (call_result * Z) :=
  match v with
  | import_dm | import_mr | import_pd
    => Some (RetNull, EOPNOTSUPP)
  | free_context
    => Some (RetVoid, errno)
  | dealloc_mw | dealloc_pd | dealloc_td | dereg_mr | destroy_ah | destroy_counters |
    destroy_cq | destroy_flow | destroy_flow_action | destroy_qp | destroy_rwq_ind_table |
    destroy_srq | destroy_wq | detach_mcast | free_dm | get_srq_num | modify_cq |
    modify_flow_action_esp | modify_qp | modify_qp_rate_limit | modify_srq | modify_wq
    => Some (RetInt EOPNOTSUPP, errno)
  | _ => None
  end.

Definition dummy_ops_o_to_u (v : verb) (errno : Z) : option (call_result * Z) :=
  match v with
  | open_qp | open_xrcd | reg_dm_mr | reg_dmabuf_mr | reg_mr
    => Some (RetNull, EOPNOTSUPP)
  | rereg_mr => Some (RetInt IBV_REREG_MR_ERR_INPUT, EOPNOTSUPP)
  | query_qp_data_in_order => Some (RetInt 0, errno)
  | unimport_dm | unimport_mr | unimport_pd
    => Some (RetVoid, errno)
  | poll_cq | post_recv | post_send | post_srq_ops | post_srq_recv | query_device_ex |
    query_ece | query_port | query_qp | query_rt_values | query_srq | read_counters |
    req_notify_cq | resize_cq | set_ece
    => Some (RetInt EOPNOTSUPP, errno)
  | _ => None
  end.

Definition dummy_call (v : verb) (errno : Z) : call_result * Z :=
  match dummy_ops_a_to_c v errno, dummy_ops_d_to_m v errno, dummy_ops_o_to_u v errno with
  | Some r, _, _ | _, Some r, _ | _, _, Some r => r
  | None, None, None => (RetVoid, errno)
  end.

(** The outcome tells the caller that the operation is not supported. *)
Definition reports_failure (r : call_result * Z) : bool :=
  match r with
  | (RetNull, e) => e =? EOPNOTSUPP
  | (RetInt z, e) => (z =? EOPNOTSUPP) || ((z <? 0) && (e =? EOPNOTSUPP))
  | (RetVoid, _) => false
  end.

Definition verbs_dummy_ops : verbs_context_ops := fun v => Some (FnDummy v).

(** ** verbs_set_ops *)

(** Where the public pointer lives: in [struct verbs_context] or in the
    [struct ibv_context_ops] inside it. *)
Inductive place : Set := Vctx | Ctx.

(** [SET_OP] and [SET_OP2] set the private and the public pointer,
    [SET_PRIV_OP] the private one and the [_compat_] pointer, [SET_PRIV_OP_IC]
    the private one only. *)
Inductive set_macro : Set :=
| SetOp (p : place) | SetOp2 (p : place) | SetPrivOp (p : place) | SetPrivOpIc (p : place).

(** The body of [verbs_set_ops], line by line. *)
Definition set_ops_steps : list (set_macro * verb) :=
  [(SetOp Vctx, advise_mr); (SetOp Vctx, alloc_dm); (SetOp Ctx, alloc_mw);
   (SetOp Vctx, alloc_null_mr); (SetPrivOp Ctx, alloc_pd);
   (SetOp Vctx, alloc_parent_domain); (SetOp Vctx, alloc_td);
   (SetOp Vctx, attach_counters_point_flow); (SetOp Vctx, create_counters);
   (SetPrivOp Ctx, async_event); (SetPrivOp Ctx, attach_mcast); (SetOp Ctx, bind_mw);
   (SetOp Vctx, close_xrcd); (SetPrivOp Ctx, cq_event); (SetPrivOp Ctx, create_ah);
   (SetPrivOp Ctx, create_cq); (SetPrivOpIc Vctx, create_cq_ex); (SetOp2 Vctx, create_flow);
   (SetOp Vctx, create_flow_action_esp); (SetPrivOp Ctx, create_qp);
   (SetOp Vctx, create_qp_ex); (SetOp Vctx, create_rwq_ind_table);
   (SetPrivOp Ctx, create_srq); (SetOp Vctx, create_srq_ex); (SetOp Vctx, create_wq);
   (SetOp Ctx, dealloc_mw); (SetPrivOp Ctx, dealloc_pd); (SetOp Vctx, dealloc_td);
   (SetOp Vctx, destroy_counters); (SetPrivOp Ctx, dereg_mr); (SetPrivOp Ctx, destroy_ah);
   (SetPrivOp Ctx, destroy_cq); (SetOp2 Vctx, destroy_flow);
   (SetOp Vctx, destroy_flow_action); (SetPrivOp Ctx, destroy_qp);
   (SetOp Vctx, destroy_rwq_ind_table); (SetPrivOp Ctx, destroy_srq);
   (SetOp Vctx, destroy_wq); (SetPrivOp Ctx, detach_mcast); (SetPrivOpIc Ctx, free_context);
   (SetOp Vctx, free_dm); (SetOp Vctx, get_srq_num); (SetPrivOpIc Vctx, import_dm);
   (SetPrivOpIc Vctx, import_mr); (SetPrivOpIc Vctx, import_pd); (SetOp Vctx, modify_cq);
   (SetOp Vctx, modify_flow_action_esp); (SetPrivOp Ctx, modify_qp);
   (SetOp Vctx, modify_qp_rate_limit); (SetPrivOp Ctx, modify_srq); (SetOp Vctx, modify_wq);
   (SetOp Vctx, open_qp); (SetOp Vctx, open_xrcd); (SetOp Ctx, poll_cq);
   (SetOp Ctx, post_recv); (SetOp Ctx, post_send); (SetOp Vctx, post_srq_ops);
   (SetOp Ctx, post_srq_recv); (SetOp Vctx, query_device_ex); (SetPrivOpIc Vctx, query_ece);
   (SetPrivOpIc Ctx, query_port); (SetPrivOp Ctx, query_qp);
   (SetPrivOpIc Ctx, query_qp_data_in_order); (SetOp Vctx, query_rt_values);
   (SetOp Vctx, read_counters); (SetPrivOp Ctx, query_srq); (SetOp Vctx, reg_dm_mr);
   (SetPrivOpIc Vctx, reg_dmabuf_mr); (SetPrivOp Ctx, reg_mr); (SetOp Ctx, req_notify_cq);
   (SetPrivOp Ctx, rereg_mr); (SetPrivOp Ctx, resize_cq); (SetPrivOpIc Vctx, set_ece);
   (SetPrivOpIc Vctx, unimport_dm); (SetPrivOpIc Vctx, unimport_mr);
   (SetPrivOpIc Vctx, unimport_pd)].

(** [priv->ops] and the pointers of the context an application sees. *)
Record verbs_context := MkVctx {
  priv_ops : verb -> option fn;
  pub_ops : verb -> option fn;
}.

Definition upd_op (v : verb) (f : fn) (t : verb -> option fn) : verb -> option fn :=
  fun w => if decide (w = v) then Some f else t w.

Definition set_one (ops : verbs_context_ops) (c : verbs_context) (st : set_macro * verb) :
    verbs_context :=
  let '(m, v) := st in
  match ops v with
  | None => c
  | Some f =>
      match m with
      | SetPrivOpIc _ => MkVctx (upd_op v f (priv_ops c)) (pub_ops c)
      | _ => MkVctx (upd_op v f (priv_ops c)) (upd_op v f (pub_ops c))
      end
  end.

Definition verbs_set_ops (c : verbs_context) (ops : verbs_context_ops) : verbs_context :=
  fold_left (set_one ops) set_ops_steps c.

(** ** What installing operations does *)

(** The verbs with a public pointer. *)
Definition has_pub (v : verb) : bool :=
  existsb (fun st => bool_decide (snd st = v) &&
             match fst st with SetPrivOpIc _ => false | _ => true end) set_ops_steps.

(** [verbs_set_ops] touches every member exactly once. *)
Lemma steps_nodup : NoDup set_ops_steps.*2.
Proof. apply (bool_decide_eq_true_1 _). vm_compute. reflexivity. Qed.

Lemma steps_complete v : v ∈ set_ops_steps.*2.
Proof.
  assert (H : Forall (fun v => v ∈ set_ops_steps.*2) all_verbs)
    by (apply (bool_decide_eq_true_1 _); vm_compute; reflexivity).
  rewrite list.Forall_forall in H. apply H, all_verbs_complete.
Qed.

(** [ops v], or what was there before. *)
Definition or_keep (o old : option fn) : option fn := match o with Some _ => o | None => old end.

Lemma set_one_other ops c m v w :
  w <> v -> priv_ops (set_one ops c (m, v)) w = priv_ops c w /\
            pub_ops (set_one ops c (m, v)) w = pub_ops c w.
Proof.
  intros Hw. unfold set_one. destruct (ops v); [|done].
  destruct m; cbn [priv_ops pub_ops]; unfold upd_op; by rewrite !decide_False.
Qed.

Lemma fold_untouched ops steps c w :
  w ∉ steps.*2 ->
  priv_ops (fold_left (set_one ops) steps c) w = priv_ops c w /\
  pub_ops (fold_left (set_one ops) steps c) w = pub_ops c w.
Proof.
  revert c. induction steps as [|[m v] steps IH]; intros c Hw; [done|]. cbn [fold_left].
  cbn in Hw. apply not_elem_of_cons in Hw as [Hne Hw]. destruct (IH (set_one ops c (m, v)) Hw) as [-> ->].
  by apply set_one_other.
Qed.

Definition is_pub (m : set_macro) : bool := match m with SetPrivOpIc _ => false | _ => true end.

Lemma fold_set_ops ops steps c m v :
  NoDup steps.*2 -> (m, v) ∈ steps ->
  priv_ops (fold_left (set_one ops) steps c) v = or_keep (ops v) (priv_ops c v) /\
  pub_ops (fold_left (set_one ops) steps c) v =
    if is_pub m then or_keep (ops v) (pub_ops c v) else pub_ops c v.
Proof.
  revert c. induction steps as [|[m' v'] steps IH]; intros c Hnd Hin; [set_solver|].
  cbn [fold_left]. apply NoDup_cons in Hnd as [Hv' Hnd]. apply elem_of_cons in Hin as [[= <- <-]|Hin].
  - destruct (fold_untouched ops steps (set_one ops c (m, v)) v Hv') as [-> ->].
    unfold set_one. destruct (ops v); [|by destruct m].
    destruct m; cbn [priv_ops pub_ops is_pub or_keep]; unfold upd_op; by rewrite !decide_True.
  - assert (Hne : v <> v').
    { intros ->. apply Hv'. by apply (list_elem_of_fmap_2 snd _ (m, v')). }
    destruct (IH (set_one ops c (m', v')) Hnd Hin) as [-> ->].
    destruct (set_one_other ops c m' v' v Hne) as [-> ->]. done.
Qed.

Lemma has_pub_spec m v : (m, v) ∈ set_ops_steps -> has_pub v = is_pub m.
Proof.
  intros Hin. unfold has_pub. apply Bool.eq_iff_eq_true. rewrite existsb_exists. split.
  - intros ([m' v'] & Hin' & H). apply andb_true_iff in H as [Hv Hm].
    apply bool_decide_eq_true in Hv. cbn [fst snd] in Hv, Hm. subst v'. apply list_elem_of_In in Hin'.
    apply list_elem_of_lookup in Hin as [i Hi]. apply list_elem_of_lookup in Hin' as [j Hj].
    assert (i = j) as <-.
    { apply (NoDup_lookup _ _ _ v steps_nodup); rewrite list_lookup_fmap; [by rewrite Hi|by rewrite Hj]. }
    rewrite Hi in Hj. injection Hj as <-. done.
  - intros Hm. exists (m, v). split; [by apply list_elem_of_In|]. cbn.
    rewrite bool_decide_true by done. exact Hm.
Qed.

(** The effect of one call. *)
Lemma set_ops_spec c ops v :
  priv_ops (verbs_set_ops c ops) v = or_keep (ops v) (priv_ops c v) /\
  pub_ops (verbs_set_ops c ops) v =
    if has_pub v then or_keep (ops v) (pub_ops c v) else pub_ops c v.
Proof.
  pose proof (steps_complete v) as Hv. apply list_elem_of_fmap in Hv as ([m w] & -> & Hin).
  cbn [snd]. rewrite (has_pub_spec m w Hin). apply fold_set_ops; [apply steps_nodup|done].
Qed.

(** The pointer that the tables [ts], installed in this order, leave for [v]. *)
Fixpoint resolve (ts : list verbs_context_ops) (v : verb) (default : fn) : fn :=
  match ts with
  | [] => default
  | t :: rest => resolve rest v (match t v with Some f => f | None => default end)
  end.

(** Repeated installation, for any [set] with the effect of [verbs_set_ops]. *)
Section resolution.
Context (set : verbs_context -> verbs_context_ops -> verbs_context) (pub : verb -> bool).
Context (set_spec : forall c ops v,
  priv_ops (set c ops) v = or_keep (ops v) (priv_ops c v) /\
  pub_ops (set c ops) v = if pub v then or_keep (ops v) (pub_ops c v) else pub_ops c v).

Lemma resolve_set ts c v f :
  priv_ops c v = Some f -> (pub v = true -> pub_ops c v = Some f) ->
  priv_ops (fold_left set ts c) v = Some (resolve ts v f) /\
  pub_ops (fold_left set ts c) v =
    if pub v then Some (resolve ts v f) else pub_ops c v.
Proof.
  revert c f. induction ts as [|t ts IH]; intros c f Hpriv Hpub; cbn [fold_left resolve].
  - split; [done|]. destruct (pub v); [by apply Hpub|done].
  - destruct (set_spec c t v) as [Hp Hq].
    destruct (IH (set c t) (match t v with Some f' => f' | None => f end)) as [H1 H2].
    + rewrite Hp. by destruct (t v).
    + intros H. rewrite Hq, H, Hpub by done. by destruct (t v).
    + rewrite H1, H2, Hq. split; [done|]. by destruct (pub v).
Qed.

Lemma resolve_from_dummy ts c0 v :
  let c := fold_left set (verbs_dummy_ops :: ts) c0 in
  priv_ops c v = Some (resolve ts v (FnDummy v)) /\
  pub_ops c v = if pub v then Some (resolve ts v (FnDummy v)) else pub_ops c0 v.
Proof.
  cbn [fold_left]. destruct (set_spec c0 verbs_dummy_ops v) as [Hp Hq].
  destruct (resolve_set ts (set c0 verbs_dummy_ops) v (FnDummy v)) as [H1 H2].
  - exact Hp.
  - intros H. rewrite Hq, H. reflexivity.
  - split; [exact H1|]. rewrite H2, Hq. by destruct (pub v).
Qed.

End resolution.

(** A context whose operations start as the dummies and on which any number
    of tables are installed in turn never has a NULL operation: for every member
    of the structure the pointer in use is that of the last table that sets it,
    or the dummy; and the public pointer, for the members that have one, is
    always the same function as the private one. *)
Theorem set_ops_last_writer c0 ts v :
  let c := fold_left verbs_set_ops (verbs_dummy_ops :: ts) c0 in
  priv_ops c v = Some (resolve ts v (FnDummy v)) /\
  pub_ops c v = if has_pub v then Some (resolve ts v (FnDummy v)) else pub_ops c0 v.
Proof. exact (resolve_from_dummy verbs_set_ops has_pub set_ops_spec ts c0 v). Qed.
