(* ===== verification/Provider.v ===== *)
(** * The bluerdma provider (providers/bluerdma/bluerdma.c) and the device and
    context life cycle of libibverbs (libibverbs/device.c, parts of init.c)

    The state is the part of the process these functions own: heap blocks, open
    file descriptors, [dlopen] handles, driver objects created inside the loaded
    library, devices and contexts.  Using an object that was released is a fault.
    libc, the kernel and the library are the environment: a call that can fail
    returns the code [ufate] gives it, in program order. *)

From stdpp Require Import base sets gmap strings list.
From Stdlib Require Import ZArith Lia.
From S2P Require Import Prelude VerbsOps.

#[local] Open Scope Z_scope.

(** [dlsym name] is the address of an exported symbol of libbluerdma_rust.so.
    [get_ctx_write k]: the kernel answers the GET_CONTEXT command of time [k]
    through the write interface, which also opens the async fd. *)
Class UserEnv := {
  ufate : nat -> Z;
  dlsym : string -> option Z;
  get_ctx_write : nat -> bool;
}.

(** [struct bluerdma_device] with the fields of the [struct verbs_device] in it. *)
Record bluerdma_device := MkBdevice {
  bd_refcount : Z;
  bd_sysfs : option Z;
  bd_dev_name : string;
  bd_abi_version : Z;
  bd_driver_data : option Z;
  bd_ops_blk : option Z;
  bd_ops : verbs_context_ops;
  bd_dl_handle : bool;
  bd_driver_fns : bool;
}.

(** [struct bluerdma_context]. *)
Record bluerdma_context := MkBctx {
  cx_device : Z;
  cx_cmd_fd : Z;
  cx_async_fd : Z;
  cx_priv : option Z;
  cx_use_ioctl_write : bool;
  cx_ops : verbs_context;
}.

Record ustate := MkU {
  blocks : gset Z;
  bdevs : gmap Z bluerdma_device;
  bctxs : gmap Z bluerdma_context;
  fds : gset Z;
  dl_open : Z;
  drvs : gset Z;
  unext : Z;
  uclock : nat;
}.

Definition u_blocks (v : gset Z) (s : ustate) : ustate :=
  MkU v (bdevs s) (bctxs s) (fds s) (dl_open s) (drvs s) (unext s) (uclock s).
Definition u_bdevs (v : gmap Z bluerdma_device) (s : ustate) : ustate :=
  MkU (blocks s) v (bctxs s) (fds s) (dl_open s) (drvs s) (unext s) (uclock s).
Definition u_bctxs (v : gmap Z bluerdma_context) (s : ustate) : ustate :=
  MkU (blocks s) (bdevs s) v (fds s) (dl_open s) (drvs s) (unext s) (uclock s).
Definition u_fds (v : gset Z) (s : ustate) : ustate :=
  MkU (blocks s) (bdevs s) (bctxs s) v (dl_open s) (drvs s) (unext s) (uclock s).
Definition u_dl (v : Z) (s : ustate) : ustate :=
  MkU (blocks s) (bdevs s) (bctxs s) (fds s) v (drvs s) (unext s) (uclock s).
Definition u_drvs (v : gset Z) (s : ustate) : ustate :=
  MkU (blocks s) (bdevs s) (bctxs s) (fds s) (dl_open s) v (unext s) (uclock s).
Definition u_next (s : ustate) : ustate :=
  MkU (blocks s) (bdevs s) (bctxs s) (fds s) (dl_open s) (drvs s) (unext s + 1) (uclock s).
Definition u_tick (s : ustate) : ustate :=
  MkU (blocks s) (bdevs s) (bctxs s) (fds s) (dl_open s) (drvs s) (unext s) (S (uclock s)).

Abbreviation U := (M ustate).

Definition bd_with_refcount (v : Z) (d : bluerdma_device) : bluerdma_device :=
  MkBdevice v (bd_sysfs d) (bd_dev_name d) (bd_abi_version d) (bd_driver_data d)
    (bd_ops_blk d) (bd_ops d) (bd_dl_handle d) (bd_driver_fns d).
Definition bd_with_sysfs (v : option Z) (name : string) (d : bluerdma_device) : bluerdma_device :=
  MkBdevice (bd_refcount d) v name (bd_abi_version d) (bd_driver_data d)
    (bd_ops_blk d) (bd_ops d) (bd_dl_handle d) (bd_driver_fns d).
Definition bd_with_driver_data (v : option Z) (d : bluerdma_device) : bluerdma_device :=
  MkBdevice (bd_refcount d) (bd_sysfs d) (bd_dev_name d) (bd_abi_version d) v
    (bd_ops_blk d) (bd_ops d) (bd_dl_handle d) (bd_driver_fns d).
Definition bd_with_dl (d : bluerdma_device) : bluerdma_device :=
  MkBdevice (bd_refcount d) (bd_sysfs d) (bd_dev_name d) (bd_abi_version d) (bd_driver_data d)
    (bd_ops_blk d) (bd_ops d) true (bd_driver_fns d).
Definition bd_with_fns (d : bluerdma_device) : bluerdma_device :=
  MkBdevice (bd_refcount d) (bd_sysfs d) (bd_dev_name d) (bd_abi_version d) (bd_driver_data d)
    (bd_ops_blk d) (bd_ops d) (bd_dl_handle d) true.
Definition bd_with_ops (b : Z) (v : verbs_context_ops) (d : bluerdma_device) : bluerdma_device :=
  MkBdevice (bd_refcount d) (bd_sysfs d) (bd_dev_name d) (bd_abi_version d) (bd_driver_data d)
    (Some b) v (bd_dl_handle d) (bd_driver_fns d).

(** A device fresh from [calloc]. *)
Definition zero_bdevice (abi : Z) : bluerdma_device :=
  MkBdevice 0 None "" abi None None (fun _ => None) false false.

Definition cx_with_priv (p : Z) (w : bool) (o : verbs_context) (c : bluerdma_context) : bluerdma_context :=
  MkBctx (cx_device c) (cx_cmd_fd c) (cx_async_fd c) (Some p) w o.
Definition cx_with_ops (o : verbs_context) (c : bluerdma_context) : bluerdma_context :=
  MkBctx (cx_device c) (cx_cmd_fd c) (cx_async_fd c) (cx_priv c) (cx_use_ioctl_write c) o.
Definition cx_with_async_fd (fd : Z) (c : bluerdma_context) : bluerdma_context :=
  MkBctx (cx_device c) (cx_cmd_fd c) fd (cx_priv c) (cx_use_ioctl_write c) (cx_ops c).

(** All pointers NULL. *)
Definition zero_vctx : verbs_context := MkVctx (fun _ => None) (fun _ => None).

(** Compute field accesses. *)
Ltac ufields :=
  cbn [blocks bdevs bctxs fds dl_open drvs unext uclock
       u_blocks u_bdevs u_bctxs u_fds u_dl u_drvs u_next u_tick].
Ltac ufields_in H :=
  cbn [blocks bdevs bctxs fds dl_open drvs unext uclock
       u_blocks u_bdevs u_bctxs u_fds u_dl u_drvs u_next u_tick] in H.
Ltac bfields :=
  cbn [bd_refcount bd_sysfs bd_dev_name bd_abi_version bd_driver_data bd_ops_blk bd_ops
       bd_dl_handle bd_driver_fns bd_with_refcount bd_with_sysfs bd_with_driver_data
       bd_with_dl bd_with_fns bd_with_ops zero_bdevice
       cx_device cx_cmd_fd cx_async_fd cx_priv cx_use_ioctl_write cx_ops
       cx_with_priv cx_with_ops cx_with_async_fd].

Section provider.
Context {E : UserEnv}.

(** ** libc *)

Definition next_ufate : U Z := fun s => Done (ufate (uclock s)) (u_tick s).

(** A new address (or descriptor), distinct from all earlier ones. *)
Definition fresh : U Z := fun s => Done (unext s) (u_next s).

(** [calloc] of a block; NULL is [None]. *)
Definition calloc_blk : U (option Z) :=
  r ← next_ufate;
  if r =? 0 then
    a ← fresh; modify (fun s => u_blocks ({[a]} ∪ blocks s) s);; mret (Some a)
  else mret None.

(** [free(p)]; freeing NULL does nothing. *)
Definition free_blk (p : option Z) : U unit :=
  match p with
  | None => mret tt
  | Some a => s ← get;
      if decide (a ∈ blocks s) then modify (fun s => u_blocks (blocks s ∖ {[a]}) s)
      else fail DoubleFree
  end.

Definition open_fd : U (option Z) :=
  r ← next_ufate;
  if r =? 0 then
    a ← fresh; modify (fun s => u_fds ({[a]} ∪ fds s) s);; mret (Some a)
  else mret None.

(** [close(-1)] fails with EBADF and does nothing. *)
Definition close_fd (fd : Z) : U unit :=
  s ← get;
  if fd =? -1 then mret tt
  else if decide (fd ∈ fds s) then modify (fun s => u_fds (fds s ∖ {[fd]}) s) else fail ApiMisuse.

Definition dlopen : U bool :=
  r ← next_ufate;
  if r =? 0 then modify (fun s => u_dl (dl_open s + 1) s);; mret true else mret false.

Definition dlclose : U unit := modify (fun s => u_dl (dl_open s - 1) s).

Definition bdev_get (d : Z) : U bluerdma_device := s ← get; demand UseAfterFree (bdevs s !! d).
Definition bdev_upd (d : Z) (f : bluerdma_device -> bluerdma_device) : U unit :=
  v ← bdev_get d; modify (fun s => u_bdevs (<[d := f v]> (bdevs s)) s).
Definition bctx_get (c : Z) : U bluerdma_context := s ← get; demand UseAfterFree (bctxs s !! c).
Definition bctx_upd (c : Z) (f : bluerdma_context -> bluerdma_context) : U unit :=
  v ← bctx_get c; modify (fun s => u_bctxs (<[c := f v]> (bctxs s)) s).
Definition bdev_free (d : Z) : U unit :=
  _ ← bdev_get d; modify (fun s => u_bdevs (delete d (bdevs s)) s).
Definition bctx_free (c : Z) : U unit :=
  _ ← bctx_get c; modify (fun s => u_bctxs (delete c (bctxs s)) s).

(** ** The loaded library

    [bluerdma_new] returns a new driver object or NULL; [bluerdma_free] destroys
    one and ignores NULL. *)
Definition driver_new (name : string) : U (option Z) :=
  r ← next_ufate;
  if r =? 0 then
    a ← fresh; modify (fun s => u_drvs ({[a]} ∪ drvs s) s);; mret (Some a)
  else mret None.

Definition driver_free (p : option Z) : U unit :=
  match p with
  | None => mret tt
  | Some a => s ← get;
      if decide (a ∈ drvs s) then modify (fun s => u_drvs (drvs s ∖ {[a]}) s)
      else fail DoubleFree
  end.

(** ** bluerdma.c *)

(** [bluerdma_ctx_ops]: the operations the provider has a stub for. *)
Definition bluerdma_ctx_ops : verbs_context_ops := fun v =>
  match v with
  | query_device_ex | query_port | alloc_pd | dealloc_pd | reg_mr | dereg_mr | create_cq
  | poll_cq | req_notify_cq | destroy_cq | create_qp | query_qp | modify_qp | destroy_qp
  | post_send | post_recv | free_context => Some (FnBlue v)
  | _ => None
  end.

(** [SET_OP(op)]: the library's [bluerdma_<op>], where it exports one. *)
Definition set_op (v : verb) (ops : verbs_context_ops) : verbs_context_ops :=
  match dlsym ("bluerdma_" +:+ verb_name v) with
  | Some f => fun w => if decide (w = v) then Some (FnLib f) else ops w
  | None => ops
  end.

(** The operations [bluerdma_set_ops] looks up, in its order: all but
    [free_context]. *)
Definition bluerdma_set_ops_list : list verb :=
  filter (fun v => v <> free_context) all_verbs.

Definition bluerdma_set_ops (ops : verbs_context_ops) : verbs_context_ops :=
  fold_left (fun o v => set_op v o) bluerdma_set_ops_list ops.

Definition bluerdma_uninit_device (d : Z) : U unit :=
  dev ← bdev_get d;
  c_assert (bd_dl_handle dev);;
  free_blk (bd_ops_blk dev);;
  (if bd_driver_fns dev then driver_free (bd_driver_data dev) else fail NullDeref);;
  dlclose;;
  bdev_free d.

Definition bluerdma_device_alloc (abi_ver : Z) : U (option Z) :=
  r ← next_ufate;
  if negb (r =? 0) then mret None
  else
    dev ← fresh;
    modify (fun s => u_bdevs (<[dev := zero_bdevice abi_ver]> (bdevs s)) s);;
    dl_handler ← dlopen;
    if negb dl_handler then bdev_free dev;; mret None
    else
      bdev_upd dev bd_with_dl;;
      match dlsym "bluerdma_init", dlsym "bluerdma_new", dlsym "bluerdma_free" with
      | Some _, Some _, Some _ =>
          bdev_upd dev bd_with_fns;;
          ops ← calloc_blk;
          match ops with
          | None =>
              v ← bdev_get dev;
              driver_free (bd_driver_data v);;
              dlclose;;
              bdev_free dev;;
              mret None
          | Some b =>
              bdev_upd dev (bd_with_ops b (bluerdma_set_ops (fun _ => None)));;
              mret (Some dev)
          end
      | _, _, _ => dlclose;; bdev_free dev;; mret None
      end.

(** ** libibverbs/init.c and device.c *)

(** [try_driver] once [alloc_device] has returned the device [d]: it takes over
    the sysfs description and holds the first reference.  The sysfs path fits
    [dev_path] here. *)
Definition try_driver_attach (d sysfs : Z) (sysfs_name : string) : U unit :=
  bdev_upd d (bd_with_refcount 1);;
  bdev_upd d (bd_with_sysfs (Some sysfs) sysfs_name).

Definition ibverbs_device_hold (d : Z) : U unit :=
  v ← bdev_get d; bdev_upd d (bd_with_refcount (bd_refcount v + 1)).

Definition ibverbs_device_put (d : Z) : U unit :=
  v ← bdev_get d;
  bdev_upd d (bd_with_refcount (bd_refcount v - 1));;
  when (bd_refcount v =? 1)
    (free_blk (bd_sysfs v);; bluerdma_uninit_device d).

Definition ENOTTY : Z := 25.
Definition EPROTONOSUPPORT : Z := 93.

(** The default build, with neither VERBS_IOCTL_ONLY nor VERBS_WRITE_ONLY. *)
Definition has_ioctl_write : U bool :=
  rc ← next_ufate;
  mret (negb (rc =? EPROTONOSUPPORT) && negb (rc =? ENOTTY)).

(** [true] is the return value -1. *)
Definition verbs_init_context (c d cmd_fd : Z) : U bool :=
  ibverbs_device_hold d;;
  modify (fun s => u_bctxs (<[c := MkBctx d cmd_fd (-1) None false zero_vctx]> (bctxs s)) s);;
  priv ← calloc_blk;
  match priv with
  | None => close_fd cmd_fd;; mret true
  | Some p =>
      w ← has_ioctl_write;
      bctx_upd c (cx_with_priv p w (verbs_set_ops zero_vctx verbs_dummy_ops));;
      mret false
  end.

Definition verbs_init_and_alloc_context (d cmd_fd : Z) : U (option Z) :=
  r ← next_ufate;
  if negb (r =? 0) then close_fd cmd_fd;; mret None
  else
    c ← fresh;
    err ← verbs_init_context c d cmd_fd;
    if (err : bool) then bctx_free c;; mret None else mret (Some c).

Definition verbs_uninit_context (c : Z) : U unit :=
  v ← bctx_get c;
  free_blk (cx_priv v);;
  when (negb (cx_cmd_fd v =? -1)) (close_fd (cx_cmd_fd v));;
  when (negb (cx_async_fd v =? -1)) (close_fd (cx_async_fd v));;
  ibverbs_device_put (cx_device v).

(** The answer of the write interface carries the async fd; the ioctl one leaves
    it at -1.  The completion vectors and the core support mask are left out. *)
Definition ibv_cmd_get_context (c : Z) : U Z :=
  r ← next_ufate;
  if negb (r =? 0) then mret r
  else
    s ← get;
    if get_ctx_write (uclock s) then
      fd ← fresh;
      modify (fun s => u_fds ({[fd]} ∪ fds s) s);;
      bctx_upd c (cx_with_async_fd fd);;
      mret 0
    else mret 0.

Definition ibv_cmd_alloc_async_fd (c : Z) : U Z :=
  r ← next_ufate;
  if negb (r =? 0) then mret r
  else
    fd ← fresh;
    modify (fun s => u_fds ({[fd]} ∪ fds s) s);;
    bctx_upd c (cx_with_async_fd fd);;
    mret 0.

(** The last part of [bluerdma_alloc_context]: installing the operations and
    creating the driver object. *)
Definition install_ops (c d : Z) : U (option Z) :=
  dev ← bdev_get d;
  v ← bctx_get c;
  bctx_upd c (cx_with_ops
    (verbs_set_ops (verbs_set_ops (cx_ops v) bluerdma_ctx_ops) (bd_ops dev)));;
  (if bd_driver_fns dev then
     drv ← driver_new (bd_dev_name dev);
     bdev_upd d (bd_with_driver_data drv)
   else fail NullDeref);;
  mret (Some c).

Definition bluerdma_alloc_context (d cmd_fd : Z) : U (option Z) :=
  context ← verbs_init_and_alloc_context d cmd_fd;
  match context with
  | None => mret None
  | Some c =>
      ret ← ibv_cmd_get_context c;
      if negb (ret =? 0) then verbs_uninit_context c;; bctx_free c;; mret None
      else
        install_ops c d
  end.

Definition bluerdma_free_context (c : Z) : U unit :=
  verbs_uninit_context c;; bctx_free c.

(** The compatibility pointers and ABI placeholders are left out. *)
Definition set_lib_ops (o : verbs_context) : verbs_context :=
  MkVctx (priv_ops o)
    (upd_op query_port (FnCore query_port) (upd_op create_cq_ex (FnCore create_cq_ex) (pub_ops o))).

(** [ops->free_context] through the private table. *)
Definition ibv_close_device (c : Z) : U unit :=
  v ← bctx_get c;
  match priv_ops (cx_ops v) free_context with
  | Some (FnBlue free_context) => bluerdma_free_context c
  | Some (FnDummy _) => mret tt
  | None => fail NullDeref
  | Some _ => fail ApiMisuse
  end.

(** The end of [verbs_open_device]: the operations of libibverbs and, where
    GET_CONTEXT did not bring one, the async descriptor. *)
Definition finish_open (c : Z) (sysfs : option Z) : U (option Z) :=
  v ← bctx_get c;
  bctx_upd c (cx_with_ops (set_lib_ops (cx_ops v)));;
  match sysfs with
  | None => mret (Some c)
  | Some _ =>
      if cx_async_fd v =? -1 then
        ret ← ibv_cmd_alloc_async_fd c;
        if negb (ret =? 0) then ibv_close_device c;; mret None else mret (Some c)
      else mret (Some c)
  end.

Definition verbs_open_device (d : Z) : U (option Z) :=
  dev ← bdev_get d;
  cmd ← (match bd_sysfs dev with None => mret (Some (-1)) | Some _ => open_fd end);
  match cmd with
  | None => mret None
  | Some cmd_fd =>
      context_ex ← bluerdma_alloc_context d cmd_fd;
      match context_ex with
      | None => mret None
      | Some c => finish_open c (bd_sysfs dev)
      end
  end.


#[local] Opaque verbs_set_ops.

(** ** Rules for the primitive operations *)

Lemma wp_next_ufate Q s : wp next_ufate Q s <-> Q (ufate (uclock s)) (u_tick s).
Proof. done. Qed.

Lemma wp_fresh Q s : wp fresh Q s <-> Q (unext s) (u_next s).
Proof. done. Qed.

Lemma wp_calloc_blk Q s :
  Q None (u_tick s) ->
  Q (Some (unext s)) (u_blocks ({[unext s]} ∪ blocks s) (u_next (u_tick s))) ->
  wp calloc_blk Q s.
Proof. intros H1 H2. unfold calloc_blk. apply wp_bind, wp_next_ufate, wp_if. by case_match. Qed.

Lemma wp_open_fd Q s :
  Q None (u_tick s) ->
  Q (Some (unext s)) (u_fds ({[unext s]} ∪ fds s) (u_next (u_tick s))) ->
  wp open_fd Q s.
Proof. intros H1 H2. unfold open_fd. apply wp_bind, wp_next_ufate, wp_if. by case_match. Qed.

Lemma wp_driver_new name Q s :
  Q None (u_tick s) ->
  Q (Some (unext s)) (u_drvs ({[unext s]} ∪ drvs s) (u_next (u_tick s))) ->
  wp (driver_new name) Q s.
Proof. intros H1 H2. unfold driver_new. apply wp_bind, wp_next_ufate, wp_if. by case_match. Qed.

Lemma wp_dlopen Q s :
  Q false (u_tick s) -> Q true (u_dl (dl_open s + 1) (u_tick s)) -> wp dlopen Q s.
Proof. intros H1 H2. unfold dlopen. apply wp_bind, wp_next_ufate, wp_if. by case_match. Qed.

Lemma wp_free_blk a Q s :
  a ∈ blocks s -> Q tt (u_blocks (blocks s ∖ {[a]}) s) -> wp (free_blk (Some a)) Q s.
Proof. intros Ha HQ. unfold free_blk. apply wp_bind, wp_get. by rewrite decide_True. Qed.

Lemma wp_driver_free p Q s :
  (forall a, p = Some a -> a ∈ drvs s) ->
  Q tt (u_drvs (drvs s ∖ (match p with Some a => {[a]} | None => ∅ end)) s) ->
  wp (driver_free p) Q s.
Proof.
  intros Ha HQ. destruct p as [a|]; unfold driver_free.
  - apply wp_bind, wp_get. rewrite decide_True; [done|]. by apply Ha.
  - apply wp_ret. rewrite difference_empty_L in HQ. by destruct s.
Qed.

Lemma wp_close_fd fd Q s :
  fd <> -1 -> fd ∈ fds s -> Q tt (u_fds (fds s ∖ {[fd]}) s) -> wp (close_fd fd) Q s.
Proof.
  intros Hm Ha HQ. unfold close_fd. apply wp_bind, wp_get.
  destruct (Z.eqb_spec fd (-1)); [done|]. by rewrite decide_True.
Qed.

Lemma wp_bdev_get d v Q s : bdevs s !! d = Some v -> Q v s -> wp (bdev_get d) Q s.
Proof. intros Hd HQ. unfold bdev_get. apply wp_bind, wp_get, wp_demand. eauto. Qed.

Lemma wp_bdev_upd d v f Q s :
  bdevs s !! d = Some v -> Q tt (u_bdevs (<[d := f v]> (bdevs s)) s) -> wp (bdev_upd d f) Q s.
Proof. intros Hd HQ. unfold bdev_upd. apply wp_bind. eapply wp_bdev_get; done. Qed.

Lemma wp_bctx_get c v Q s : bctxs s !! c = Some v -> Q v s -> wp (bctx_get c) Q s.
Proof. intros Hd HQ. unfold bctx_get. apply wp_bind, wp_get, wp_demand. eauto. Qed.

Lemma wp_bctx_upd c v f Q s :
  bctxs s !! c = Some v -> Q tt (u_bctxs (<[c := f v]> (bctxs s)) s) -> wp (bctx_upd c f) Q s.
Proof. intros Hd HQ. unfold bctx_upd. apply wp_bind. eapply wp_bctx_get; done. Qed.

Lemma wp_bdev_free d v Q s :
  bdevs s !! d = Some v -> Q tt (u_bdevs (delete d (bdevs s)) s) -> wp (bdev_free d) Q s.
Proof. intros Hd HQ. unfold bdev_free. apply wp_bind. eapply wp_bdev_get; done. Qed.

Lemma wp_bctx_free c v Q s :
  bctxs s !! c = Some v -> Q tt (u_bctxs (delete c (bctxs s)) s) -> wp (bctx_free c) Q s.
Proof. intros Hd HQ. unfold bctx_free. apply wp_bind. eapply wp_bctx_get; done. Qed.

(** All addresses in use were handed out before. *)
Record fresh_ok (s : ustate) : Prop := {
  fo_next : 0 <= unext s;
  fo_blocks : forall x, x ∈ blocks s -> x < unext s;
  fo_fds : forall x, x ∈ fds s -> 0 <= x < unext s;
  fo_drvs : forall x, x ∈ drvs s -> x < unext s;
  fo_bdevs : forall x v, bdevs s !! x = Some v -> x < unext s;
  fo_bctxs : forall x v, bctxs s !! x = Some v -> x < unext s;
}.

Definition opt_set (o : option Z) : gset Z := match o with Some x => {[x]} | None => ∅ end.

(** Descriptors a context owns; -1 is none. *)
Definition fd_set (fd : Z) : gset Z := if fd =? -1 then ∅ else {[fd]}.

(** The operations of a context the provider has set up. *)
Definition bluerdma_vctx (lib : verbs_context_ops) : verbs_context :=
  fold_left verbs_set_ops [verbs_dummy_ops; bluerdma_ctx_ops; lib] zero_vctx.

(** ** Contexts: what allocation and release change *)

(** [s'] is [s] with blocks [b], devices [m], contexts [x], descriptors [f] and
    driver objects [r]; time and the address supply may have advanced. *)
Record moved (s s' : ustate) (b : gset Z) (m : gmap Z bluerdma_device)
    (x : gmap Z bluerdma_context) (f r : gset Z) : Prop := {
  mv_blocks : blocks s' = b;
  mv_bdevs : bdevs s' = m;
  mv_bctxs : bctxs s' = x;
  mv_fds : fds s' = f;
  mv_drvs : drvs s' = r;
  mv_dl : dl_open s' = dl_open s;
  mv_next : unext s <= unext s';
}.

(** A new address: handed out between [s] and [s']. *)
Definition new_in (s s' : ustate) (x : Z) : Prop := unext s <= x < unext s'.

(** A successful [alloc_context] on device [d] (contents [v]). *)
Record ctx_allocated (d : Z) (v : bluerdma_device) (fd : Z) (s s' : ustate) (c : Z)
    (p a : Z) (dd : option Z) (w : bool) : Prop := {
  ca_c : new_in s s' c;
  ca_p : new_in s s' p;
  ca_a : a = -1 \/ new_in s s' a;
  ca_dd : forall x, dd = Some x -> new_in s s' x;
  ca_moved : moved s s' ({[p]} ∪ blocks s)
    (<[d := bd_with_driver_data dd (bd_with_refcount (bd_refcount v + 1) v)]> (bdevs s))
    (<[c := MkBctx d fd a (Some p) w (bluerdma_vctx (bd_ops v))]> (bctxs s))
    (fd_set a ∪ fds s) (opt_set dd ∪ drvs s);
}.

(** The failing exits: the command descriptor is closed and nothing else stays,
    except that the device keeps one more reference when the private part of the
    context could not be allocated. *)
Definition alloc_failed (d : Z) (v : bluerdma_device) (fd : Z) (s s' : ustate) : Prop :=
  exists n, (n = bd_refcount v \/ n = bd_refcount v + 1) /\
  moved s s' (blocks s) (<[d := bd_with_refcount n v]> (bdevs s)) (bctxs s)
    (fds s ∖ {[fd]}) (drvs s).

(** Resolve a lookup in an updated map. *)
Ltac ulookup :=
  repeat (rewrite lookup_insert_eq || (rewrite lookup_insert_ne by (congruence || lia)));
  first [reflexivity | eassumption].

Ltac ustep :=
  ufields; bfields;
  match goal with
  | |- wp (mbind _ _) _ _ => apply wp_bind
  | |- wp next_ufate _ _ => apply wp_next_ufate
  | |- wp fresh _ _ => apply wp_fresh
  | |- wp calloc_blk _ _ => apply wp_calloc_blk
  | |- wp open_fd _ _ => apply wp_open_fd
  | |- wp (driver_new _) _ _ => apply wp_driver_new
  | |- wp dlopen _ _ => apply wp_dlopen
  | |- wp (bdev_get _) _ _ => eapply wp_bdev_get; [ufields; ulookup|]
  | |- wp (bctx_get _) _ _ => eapply wp_bctx_get; [ufields; ulookup|]
  | |- wp (bdev_upd _ _) _ _ => eapply wp_bdev_upd; [ufields; ulookup|]
  | |- wp (bctx_upd _ _) _ _ => eapply wp_bctx_upd; [ufields; ulookup|]
  | |- wp (bdev_free _) _ _ => eapply wp_bdev_free; [ufields; ulookup|]
  | |- wp (bctx_free _) _ _ => eapply wp_bctx_free; [ufields; ulookup|]
  | |- wp (free_blk (Some _)) _ _ => apply wp_free_blk; [ufields; set_solver|]
  | _ => wp_step
  end; cbn beta iota.

(** Releasing a context while the device has other references. *)
Lemma uninit_context_keep c d fd a p w o v Q s :
  bctxs s !! c = Some (MkBctx d fd a (Some p) w o) -> bdevs s !! d = Some v ->
  bd_refcount v <> 1 -> p ∈ blocks s -> fd ∈ fds s -> fd <> -1 ->
  (a = -1 \/ a ∈ fds s /\ a <> fd) ->
  Q tt (u_bdevs (<[d := bd_with_refcount (bd_refcount v - 1) v]> (bdevs s))
         (u_fds (fds s ∖ {[fd]} ∖ fd_set a) (u_blocks (blocks s ∖ {[p]}) s))) ->
  wp (verbs_uninit_context c) Q s.
Proof.
  intros Hc Hd Hn Hp Hfd Hm Ha HQ. unfold verbs_uninit_context, ibverbs_device_put.
  do 2 ustep. do 2 ustep. apply wp_bind, wp_when. destruct (Z.eqb_spec fd (-1)); [done|].
  apply wp_close_fd; [done|done|]. apply wp_bind, wp_when. bfields.
  unfold fd_set in HQ. destruct (Z.eqb_spec a (-1)) as [Em|Em]; cbn [negb].
  - rewrite difference_empty_L in HQ. do 4 ustep. apply wp_when.
    destruct (Z.eqb_spec (bd_refcount v) 1); [done|]. exact HQ.
  - destruct Ha as [?|[Ha Hne]]; [done|]. apply wp_close_fd; [done|ufields; set_solver|].
    do 4 ustep. apply wp_when. destruct (Z.eqb_spec (bd_refcount v) 1); [done|]. exact HQ.
Qed.

Lemma fresh_mono s s' :
  fresh_ok s -> unext s <= unext s' ->
  (forall x, x ∈ blocks s' -> x ∈ blocks s \/ new_in s s' x) ->
  (forall x, x ∈ fds s' -> x ∈ fds s \/ new_in s s' x) ->
  (forall x, x ∈ drvs s' -> x ∈ drvs s \/ new_in s s' x) ->
  (forall x, is_Some (bdevs s' !! x) -> is_Some (bdevs s !! x) \/ new_in s s' x) ->
  (forall x, is_Some (bctxs s' !! x) -> is_Some (bctxs s !! x) \/ new_in s s' x) ->
  fresh_ok s'.
Proof.
  unfold new_in. intros [Hn Hb Hf Hr Hd Hc] Hle Hb' Hf' Hr' Hd' Hc'. split.
  - lia.
  - intros x [?%Hb|?]%Hb'; lia.
  - intros x [?%Hf|?]%Hf'; lia.
  - intros x [?%Hr|?]%Hr'; lia.
  - intros x v Hx. destruct (Hd' x) as [[u Hu]|?]; [eauto|apply Hd in Hu; lia|lia].
  - intros x v Hx. destruct (Hc' x) as [[u Hu]|?]; [eauto|apply Hc in Hu; lia|lia].
Qed.

Lemma fresh_bctx s : fresh_ok s -> bctxs s !! unext s = None.
Proof. intros Hf. destruct (bctxs s !! unext s) eqn:Hx; [apply (fo_bctxs s Hf) in Hx; lia|done]. Qed.

Lemma fresh_bdev s : fresh_ok s -> bdevs s !! unext s = None.
Proof. intros Hf. destruct (bdevs s !! unext s) eqn:Hx; [apply (fo_bdevs s Hf) in Hx; lia|done]. Qed.

(** Where an updated map can be defined. *)
Lemma is_Some_insert {A} (m : gmap Z A) k (x : A) j :
  is_Some (<[k := x]> m !! j) -> j = k \/ is_Some (m !! j).
Proof. rewrite lookup_insert_is_Some. naive_solver. Qed.

(** Freshness of a state given by [moved]. *)
Ltac solve_fresh :=
  eapply fresh_mono; [eassumption|ufields; lia|..]; ufields; unfold new_in; ufields; intros ?;
  [set_unfold; naive_solver lia..| |];
  let H := fresh in intros H;
  repeat (apply is_Some_insert in H as [->|H]; [first [left; eauto; fail | right; lia]|]);
  left; exact H.

(** The descriptor of a failing [verbs_init_context] is closed by it. *)
Lemma init_and_alloc_spec d v fd Q s :
  fresh_ok s -> bdevs s !! d = Some v -> fd ∈ fds s ->
  (forall s', alloc_failed d v fd s s' -> Q None s') ->
  (forall s' c p w, fresh_ok s' -> new_in s s' c -> new_in s s' p ->
     moved s s' ({[p]} ∪ blocks s)
       (<[d := bd_with_refcount (bd_refcount v + 1) v]> (bdevs s))
       (<[c := MkBctx d fd (-1) (Some p) w (verbs_set_ops zero_vctx verbs_dummy_ops)]> (bctxs s))
       (fds s) (drvs s) -> Q (Some c) s') ->
  wp (verbs_init_and_alloc_context d fd) Q s.
Proof.
  intros Hf Hd Hfd HN HS. pose proof (fo_fds s Hf fd Hfd).
  unfold verbs_init_and_alloc_context, verbs_init_context, ibverbs_device_hold, has_ioctl_write.
  do 3 ustep. destruct (ufate (uclock s) =? 0); cbn [negb].
  2:{ ustep. apply wp_close_fd; [lia|done|]. apply wp_ret, HN. exists (bd_refcount v).
      split; [by left|]. split; ufields; try done.
      rewrite insert_id; [done|]. rewrite Hd. by destruct v. }
  repeat ustep.
  - apply wp_close_fd; [lia|done|]. repeat ustep. apply HN.
    exists (bd_refcount v + 1). split; [by right|]. split; ufields; try done; try lia.
    rewrite delete_insert_id; [done|]. by apply fresh_bctx.
  - eapply (HS _ _ (unext s + 1)); ufields; [|unfold new_in; ufields; lia..|].
    + solve_fresh.
    + split; ufields; try done; try lia. rewrite insert_insert_eq. bfields. done.
Qed.

Lemma union_minus (x : Z) (X : gset Z) : x ∉ X -> ({[x]} ∪ X) ∖ {[x]} = X.
Proof. set_solver. Qed.

(** GET_CONTEXT only adds the async descriptor, when the write interface is used. *)
Lemma get_context_spec c x Q s :
  bctxs s !! c = Some x -> cx_async_fd x = -1 ->
  (forall r, r <> 0 -> Q r (u_tick s)) ->
  Q 0 (u_tick s) ->
  Q 0 (u_bctxs (<[c := cx_with_async_fd (unext s) x]> (bctxs s))
        (u_fds ({[unext s]} ∪ fds s) (u_next (u_tick s)))) ->
  wp (ibv_cmd_get_context c) Q s.
Proof.
  intros Hc Ha HE HI HW. unfold ibv_cmd_get_context. do 3 ustep.
  destruct (Z.eqb_spec (ufate (uclock s)) 0); cbn [negb].
  - do 3 ustep. case_match; repeat ustep; [exact HW|exact HI].
  - ustep. by apply HE.
Qed.

Lemma install_ops_spec c d x v (Q : option Z -> ustate -> Prop) s :
  bctxs s !! c = Some x -> bdevs s !! d = Some v -> bd_driver_fns v = true ->
  (forall s' dd, (forall y, dd = Some y -> new_in s s' y) ->
     moved s s' (blocks s) (<[d := bd_with_driver_data dd v]> (bdevs s))
       (<[c := cx_with_ops (verbs_set_ops (verbs_set_ops (cx_ops x) bluerdma_ctx_ops) (bd_ops v)) x]>
          (bctxs s)) (fds s) (opt_set dd ∪ drvs s) -> Q (Some c) s') ->
  wp (install_ops c d) Q s.
Proof.
  intros Hc Hd Hfn HQ. unfold install_ops. repeat ustep. rewrite Hfn. repeat ustep.
  - apply (HQ _ None); [done|]. split; ufields; try done. set_solver.
  - apply (HQ _ (Some (unext s))).
    + intros y [= <-]. unfold new_in. ufields. lia.
    + split; ufields; try done. lia.
Qed.

(** [bluerdma_alloc_context] after GET_CONTEXT succeeded: [s1] is [s] with the
    context set up, [a] its async descriptor if it has one already. *)
Lemma alloc_context_success d v fd s s1 c p a w (Q : option Z -> ustate -> Prop) :
  bd_driver_fns v = true -> new_in s s1 c -> new_in s s1 p -> (a = -1 \/ new_in s s1 a) ->
  moved s s1 ({[p]} ∪ blocks s) (<[d := bd_with_refcount (bd_refcount v + 1) v]> (bdevs s))
    (<[c := MkBctx d fd a (Some p) w (verbs_set_ops zero_vctx verbs_dummy_ops)]> (bctxs s))
    (fd_set a ∪ fds s) (drvs s) ->
  (forall s' dd, ctx_allocated d v fd s s' c p a dd w -> Q (Some c) s') ->
  wp (install_ops c d) Q s1.
Proof.
  unfold new_in. intros Hfn Hc Hp Ha [Eb Ed Ec Ef Er El En] HS.
  eapply (install_ops_spec c d); [rewrite Ec; by rewrite lookup_insert_eq
    |rewrite Ed; by rewrite lookup_insert_eq|done|].
  bfields. intros s' dd Hdd [Fb Fd Fc Ff Fr Fl Fn]. unfold new_in in Hdd.
  eapply (HS _ dd). split; unfold new_in; try lia.
  - intros y Hy. specialize (Hdd y Hy). lia.
  - split; try congruence; try lia.
    + rewrite Fd, Ed, insert_insert_eq. done.
    + rewrite Fc, Ec, insert_insert_eq. done.
Qed.

(** ... and after it failed. *)
Lemma alloc_context_failure d v fd s s1 c p w Q :
  fresh_ok s -> 1 <= bd_refcount v -> fd ∈ fds s -> new_in s s1 c -> new_in s s1 p ->
  moved s s1 ({[p]} ∪ blocks s) (<[d := bd_with_refcount (bd_refcount v + 1) v]> (bdevs s))
    (<[c := MkBctx d fd (-1) (Some p) w (verbs_set_ops zero_vctx verbs_dummy_ops)]> (bctxs s))
    (fds s) (drvs s) ->
  (forall s', alloc_failed d v fd s s' -> Q None s') ->
  wp (verbs_uninit_context c;; bctx_free c;; mret (@None Z)) Q s1.
Proof.
  unfold new_in. intros Hf Hr Hfd Hc Hp [Eb Ed Ec Ef Er El En] HN. pose proof (fo_fds s Hf fd Hfd).
  ustep. eapply (uninit_context_keep c d fd (-1) p).
  - rewrite Ec. by rewrite lookup_insert_eq.
  - rewrite Ed. by rewrite lookup_insert_eq.
  - bfields. lia.
  - rewrite Eb. set_solver.
  - by rewrite Ef.
  - lia.
  - by left.
  - ustep. eapply wp_bctx_free; [ufields; rewrite Ec; by rewrite lookup_insert_eq|].
    apply wp_ret, HN. exists (bd_refcount v). split; [by left|]. split; ufields; try done.
    + rewrite Eb. apply union_minus. intros Hx%(fo_blocks s Hf). lia.
    + rewrite Ed, insert_insert_eq. unfold bd_with_refcount. bfields. by rewrite Z.add_simpl_r.
    + rewrite Ec. apply delete_insert_id. destruct (bctxs s !! c) eqn:Hx; [|done].
      apply (fo_bctxs s Hf) in Hx. lia.
    + rewrite Ef. set_solver.
Qed.

Lemma alloc_context_spec d v fd Q s :
  fresh_ok s -> bdevs s !! d = Some v -> bd_driver_fns v = true -> 1 <= bd_refcount v ->
  fd ∈ fds s ->
  (forall s', alloc_failed d v fd s s' -> Q None s') ->
  (forall s' c p a dd w, ctx_allocated d v fd s s' c p a dd w -> Q (Some c) s') ->
  wp (bluerdma_alloc_context d fd) Q s.
Proof.
  intros Hf Hd Hfn Hr Hfd HN HS. unfold bluerdma_alloc_context. apply wp_bind.
  eapply init_and_alloc_spec; [done..|by intros; apply wp_ret, HN|].
  intros s1 c p w Hf1 Hc Hp [Eb Ed Ec Ef Er El En]. apply wp_bind. unfold new_in in Hc, Hp.
  eapply get_context_spec; [rewrite Ec; by rewrite lookup_insert_eq|done|..]; cbn [negb Z.eqb].
  - intros r Hr0. destruct (Z.eqb_spec r 0); [done|]. cbn [negb].
    by eapply (alloc_context_failure d v fd s _ c p w).
  - eapply (alloc_context_success d v fd s _ c p (-1) w); unfold new_in; ufields; try done; [by left| |eauto].
    split; ufields; try done. rewrite Ef. cbn. set_solver.
  - pose proof (fo_next s1 Hf1).
    eapply (alloc_context_success d v fd s _ c p (unext s1) w); unfold new_in; ufields;
      [done|lia|lia|right; lia| |eauto].
    split; ufields; try done; [by rewrite Ec, insert_insert_eq| |lia].
    rewrite Ef. unfold fd_set. destruct (Z.eqb_spec (unext s1) (-1)); [lia|done].
Qed.

(** ** Operation dispatch *)

(** Installing the library's symbols for the verbs of a list. *)
Lemma set_op_fold l o v :
  fold_left (fun o v => set_op v o) l o v =
    if decide (v ∈ l) then
      match dlsym ("bluerdma_" +:+ verb_name v) with Some f => Some (FnLib f) | None => o v end
    else o v.
Proof.
  revert o. induction l as [|w l IH]; intros o; cbn [fold_left]; [done|].
  rewrite IH. unfold set_op.
  destruct (decide (v = w)) as [->|Hne].
  - rewrite (decide_True (P := w ∈ w :: l)) by set_solver.
    destruct (dlsym ("bluerdma_" +:+ verb_name w)); repeat case_decide; done.
  - rewrite (decide_ext (v ∈ w :: l) (v ∈ l)) by set_solver.
    destruct (dlsym ("bluerdma_" +:+ verb_name w)); [|done]. rewrite (decide_False (P := v = w)) by done.
    done.
Qed.

Lemma bluerdma_set_ops_spec o v :
  bluerdma_set_ops o v =
    if decide (v = free_context) then o v
    else match dlsym ("bluerdma_" +:+ verb_name v) with Some f => Some (FnLib f) | None => o v end.
Proof.
  unfold bluerdma_set_ops. rewrite set_op_fold.
  assert (H : v ∈ bluerdma_set_ops_list <-> v <> free_context).
  { unfold bluerdma_set_ops_list. rewrite list_elem_of_filter.
    pose proof (all_verbs_complete v). tauto. }
  repeat case_decide; tauto || done.
Qed.

#[local] Opaque bluerdma_set_ops.

Lemma bluerdma_vctx_ops lib v :
  priv_ops (bluerdma_vctx lib) v = Some (resolve [bluerdma_ctx_ops; lib] v (FnDummy v)) /\
  pub_ops (bluerdma_vctx lib) v =
    if has_pub v then Some (resolve [bluerdma_ctx_ops; lib] v (FnDummy v)) else None.
Proof. exact (resolve_from_dummy verbs_set_ops has_pub set_ops_spec [bluerdma_ctx_ops; lib] zero_vctx v). Qed.

#[local] Opaque bluerdma_vctx.

Lemma set_lib_ops_priv o : priv_ops (set_lib_ops o) = priv_ops o.
Proof. done. Qed.

Lemma resolve_free_context :
  resolve [bluerdma_ctx_ops; bluerdma_set_ops (fun _ => None)] free_context (FnDummy free_context) =
    FnBlue free_context.
Proof. cbn [resolve bluerdma_ctx_ops]. rewrite bluerdma_set_ops_spec. by rewrite decide_True. Qed.

(** Contexts are released by the provider whatever the library exports. *)
Lemma vctx_free_context :
  priv_ops (set_lib_ops (bluerdma_vctx (bluerdma_set_ops (fun _ => None)))) free_context =
    Some (FnBlue free_context).
Proof.
  rewrite set_lib_ops_priv. etrans; [apply bluerdma_vctx_ops|]. by rewrite resolve_free_context.
Qed.

(** ** Opening and closing *)

(** A device that [bluerdma_device_alloc] and [try_driver] have set up. *)
Record dev_ready (v : bluerdma_device) : Prop := {
  dr_fns : bd_driver_fns v = true;
  dr_dl : bd_dl_handle v = true;
  dr_ops : bd_ops v = bluerdma_set_ops (fun _ => None);
  dr_sysfs : is_Some (bd_sysfs v);
  dr_ref : 1 <= bd_refcount v;
}.

(** A context an application holds. *)
Definition open_ctx (d fd a p : Z) (w : bool) : bluerdma_context :=
  MkBctx d fd a (Some p) w (set_lib_ops (bluerdma_vctx (bluerdma_set_ops (fun _ => None)))).

Record opened (d : Z) (v : bluerdma_device) (s s' : ustate) (c fd a p : Z) (dd : option Z)
    (w : bool) : Prop := {
  op_c : new_in s s' c;
  op_p : new_in s s' p;
  op_fd : new_in s s' fd;
  op_a : new_in s s' a;
  op_ne : a <> fd;
  op_dd : forall x, dd = Some x -> new_in s s' x;
  op_moved : moved s s' ({[p]} ∪ blocks s)
    (<[d := bd_with_driver_data dd (bd_with_refcount (bd_refcount v + 1) v)]> (bdevs s))
    (<[c := open_ctx d fd a p w]> (bctxs s))
    ({[fd]} ∪ ({[a]} ∪ fds s)) (opt_set dd ∪ drvs s);
}.

(** What a failed open can leave behind on the device: nothing, a reference, or
    a driver object in place of the previous one. *)
Inductive residue (v : bluerdma_device) (s s' : ustate) : bluerdma_device -> option Z -> Prop :=
| ResNone : residue v s s' v None
| ResRef : residue v s s' (bd_with_refcount (bd_refcount v + 1) v) None
| ResDriver dd : (forall x, dd = Some x -> new_in s s' x) ->
    residue v s s' (bd_with_driver_data dd v) dd.

Definition open_failed (d : Z) (v : bluerdma_device) (s s' : ustate) : Prop :=
  exists v' dd, residue v s s' v' dd /\
  moved s s' (blocks s) (<[d := v']> (bdevs s)) (bctxs s) (fds s) (opt_set dd ∪ drvs s).

(** Closing a context that is not the last user of its device. *)
Lemma close_keep c d fd a p w v (Q : unit -> ustate -> Prop) s :
  bctxs s !! c = Some (MkBctx d fd a (Some p) w (set_lib_ops (bluerdma_vctx (bluerdma_set_ops (fun _ => None))))) ->
  bdevs s !! d = Some v ->
  bd_refcount v <> 1 -> p ∈ blocks s -> fd ∈ fds s -> fd <> -1 ->
  (a = -1 \/ a ∈ fds s /\ a <> fd) ->
  Q tt (u_bctxs (delete c (bctxs s))
         (u_bdevs (<[d := bd_with_refcount (bd_refcount v - 1) v]> (bdevs s))
           (u_fds (fds s ∖ {[fd]} ∖ fd_set a) (u_blocks (blocks s ∖ {[p]}) s)))) ->
  wp (ibv_close_device c) Q s.
Proof.
  intros Hc Hd Hn Hp Hfd Hm Ha HQ. unfold ibv_close_device, bluerdma_free_context.
  do 2 ustep. bfields. rewrite vctx_free_context. ustep. eapply uninit_context_keep; [eassumption..|].
  repeat ustep. exact HQ.
Qed.

Lemma bd_same_refcount v : bd_with_refcount (bd_refcount v) v = v.
Proof. by destruct v. Qed.

(** [s0] is the state before the open, [s1] the one after [open_cdev]. *)
Lemma finish_open_spec d v y s0 s1 s c p a dd w (Q : option Z -> ustate -> Prop) :
  let fd := unext s0 in
  fresh_ok s0 -> bdevs s0 !! d = Some v -> dev_ready v ->
  s1 = u_fds ({[fd]} ∪ fds s0) (u_next (u_tick s0)) ->
  ctx_allocated d v fd s1 s c p a dd w ->
  (forall s', open_failed d v s0 s' -> Q None s') ->
  (forall s' a', opened d v s0 s' c fd a' p dd w -> Q (Some c) s') ->
  wp (finish_open c (Some y)) Q s.
Proof.
  intros fd Hf Hd Hr -> [Hc Hp Ha Hdd [Eb Ed Ec Ef Er El En]] HN HS. unfold new_in in *.
  ufields_in Hc. ufields_in Hp. ufields_in Ha. ufields_in Hdd. ufields_in En. ufields_in Ed.
  ufields_in Eb. ufields_in Ec. ufields_in Ef. ufields_in Er. ufields_in El.
  rewrite (dr_ops v Hr) in Ec. pose proof (fo_next s0 Hf) as H0. pose proof (dr_ref v Hr) as H1.
  assert (Hnf : forall x, unext s0 <= x -> x ∉ fds s0) by (intros x Hx Hin; apply (fo_fds s0 Hf) in Hin; lia).
  assert (Hdn : forall x, dd = Some x -> unext s0 <= x < unext s) by (intros x Hx; specialize (Hdd x Hx); lia).
  unfold finish_open. apply wp_bind. eapply wp_bctx_get; [rewrite Ec; by rewrite lookup_insert_eq|].
  ustep. eapply wp_bctx_upd; [rewrite Ec; by rewrite lookup_insert_eq|]. bfields. ustep.
  rewrite Ec, insert_insert_eq. unfold fd_set in Ef.
  destruct (Z.eqb_spec a (-1)) as [->|Hm].
  - unfold ibv_cmd_alloc_async_fd. do 4 ustep.
    destruct (Z.eqb_spec (ufate (uclock s)) 0) as [Hz|Hz]; cbn [negb].
    + repeat ustep. eapply (HS _ (unext s)). split; unfold new_in; ufields; try lia.
      * intros x Hx. specialize (Hdn x Hx). lia.
      * split; ufields; try done; try lia.
        -- by rewrite insert_insert_eq.
        -- rewrite Ef. set_solver.
    + ustep. destruct (Z.eqb_spec (ufate (uclock s)) 0); [done|]. cbn [negb]. ustep.
      eapply (close_keep c d fd (-1) p w); ufields;
        [by rewrite lookup_insert_eq|rewrite Ed; by rewrite lookup_insert_eq|bfields; lia
        |rewrite Eb; set_solver|rewrite Ef; set_solver|lia|by left|].
      ustep. apply HN. eexists _, dd. split; [by apply ResDriver|]. split; ufields.
      * rewrite Eb. apply union_minus. intros Hx%(fo_blocks s0 Hf). lia.
      * rewrite Ed, insert_insert_eq. unfold bd_with_refcount, bd_with_driver_data. bfields.
        by rewrite Z.add_simpl_r.
      * apply delete_insert_id. destruct (bctxs s0 !! c) eqn:Hx; [|done].
        apply (fo_bctxs s0 Hf) in Hx. lia.
      * rewrite Ef. change (fd_set (-1)) with (∅ : gset Z). specialize (Hnf fd). set_solver by lia.
      * done.
      * done.
      * lia.
  - ustep. eapply (HS _ a). destruct Ha as [?|Ha]; [done|].
    split; unfold new_in; ufields; try lia.
    + done.
    + split; ufields; try done; try lia. rewrite Ef. set_solver.
Qed.

Lemma open_spec d v Q s :
  fresh_ok s -> bdevs s !! d = Some v -> dev_ready v ->
  (forall s', open_failed d v s s' -> Q None s') ->
  (forall s' c fd a p dd w, opened d v s s' c fd a p dd w -> Q (Some c) s') ->
  wp (verbs_open_device d) Q s.
Proof.
  intros Hf Hd Hr HN HS. destruct (dr_sysfs v Hr) as [y Hy].
  unfold verbs_open_device. do 2 ustep. rewrite Hy. do 2 ustep.
  - ustep. apply HN. eexists _, _. split; [apply ResNone|].
    split; ufields; try done. + by rewrite insert_id. + cbn. set_solver.
  - ustep. eapply alloc_context_spec.
    + solve_fresh.
    + exact Hd.
    + apply Hr.
    + apply Hr.
    + ufields. set_solver.
    + intros s' (n & Hn & [Eb Ed Ec Ef Er El En]). ustep. apply HN.
      ufields_in Ef. rewrite union_minus in Ef
        by (intros Hx%(fo_fds s Hf); lia). ufields_in En.
      assert (residue v s s' (bd_with_refcount n v) None) as Hres.
      { destruct Hn as [-> | ->]; [rewrite bd_same_refcount; constructor|constructor]. }
      eexists _, None. split; [exact Hres|]. split; try done; [|lia]. rewrite Er. cbn. set_solver.
    + intros s' c p a dd w Hca. eapply (finish_open_spec d v y s); [done..|exact Hca|exact HN|].
      intros s2 a' Ho. eapply HS, Ho.
Qed.

(** ** Devices *)

(** The device [bluerdma_device_alloc] builds, with operations block [b]. *)
Definition new_bdevice (abi b : Z) : bluerdma_device :=
  bd_with_ops b (bluerdma_set_ops (fun _ => None)) (bd_with_fns (bd_with_dl (zero_bdevice abi))).

Lemma device_alloc_spec abi Q s :
  fresh_ok s ->
  (forall s', moved s s' (blocks s) (bdevs s) (bctxs s) (fds s) (drvs s) -> Q None s') ->
  (forall s' b, let d := unext s in
     new_in s s' d -> new_in s s' b ->
     moved (u_dl (dl_open s + 1) s) s' ({[b]} ∪ blocks s) (<[d := new_bdevice abi b]> (bdevs s))
       (bctxs s) (fds s) (drvs s) -> Q (Some d) s') ->
  wp (bluerdma_device_alloc abi) Q s.
Proof.
  intros Hf HN HS. pose proof (fresh_bdev s Hf) as Hnew.
  unfold bluerdma_device_alloc. do 3 ustep. destruct (ufate (uclock s) =? 0); cbn [negb].
  2:{ ustep. by apply HN. }
  repeat ustep; cbn [negb].
  - repeat ustep. apply HN. split; ufields; try done; try lia. by apply delete_insert_id.
  - repeat ustep.
    repeat case_match; unfold dlclose; repeat ustep; ufields; try lia;
      first [ apply HN; split; ufields; try done; try lia; rewrite ?insert_insert_eq;
                by apply delete_insert_id
            | apply wp_driver_free; [done|]; repeat ustep; apply HN; split; ufields; try done; try lia;
                [rewrite ?insert_insert_eq; by apply delete_insert_id|by rewrite difference_empty_L]
            | eapply (HS _ (unext s + 1)); unfold new_in; ufields; [lia..|]; split; ufields; try done; try lia;
                by rewrite !insert_insert_eq ].
Qed.

(** Dropping the last reference destroys the device and all it owns. *)
Lemma device_put_last d v b y (Q : unit -> ustate -> Prop) s :
  bdevs s !! d = Some v -> bd_refcount v = 1 -> bd_dl_handle v = true -> bd_driver_fns v = true ->
  bd_ops_blk v = Some b -> bd_sysfs v = Some y -> b <> y -> b ∈ blocks s -> y ∈ blocks s ->
  (forall x, bd_driver_data v = Some x -> x ∈ drvs s) ->
  Q tt (u_bdevs (delete d (bdevs s)) (u_dl (dl_open s - 1)
         (u_drvs (drvs s ∖ opt_set (bd_driver_data v)) (u_blocks (blocks s ∖ {[y]} ∖ {[b]}) s)))) ->
  wp (ibverbs_device_put d) Q s.
Proof.
  intros Hd Hn Hdl Hfn Hb Hy Hne Hbs Hys Hdd HQ.
  unfold ibverbs_device_put, bluerdma_uninit_device, dlclose. do 4 ustep. rewrite Hn. cbn [Z.eqb Pos.eqb].
  apply wp_when. rewrite Hy. repeat ustep. split; [exact Hdl|]. rewrite Hb, Hfn.
  repeat ustep. apply wp_driver_free; [exact Hdd|]. repeat ustep. ufields. rewrite delete_insert_eq. exact HQ.
Qed.

(** ** Properties *)

(** The pointer a verb of an open context ends up with. *)
Definition dispatched (v : verb) : fn :=
  match (if decide (v = free_context) then None else dlsym ("bluerdma_" +:+ verb_name v)) with
  | Some f => FnLib f
  | None => match bluerdma_ctx_ops v with Some f => f | None => FnDummy v end
  end.

Lemma resolve_dispatched v :
  resolve [bluerdma_ctx_ops; bluerdma_set_ops (fun _ => None)] v (FnDummy v) = dispatched v.
Proof.
  cbn [resolve]. rewrite bluerdma_set_ops_spec. unfold dispatched.
  case_decide; [done|]. by destruct (dlsym _).
Qed.

Lemma open_ctx_ops d fd a p w v :
  priv_ops (cx_ops (open_ctx d fd a p w)) v = Some (dispatched v) /\
  pub_ops (cx_ops (open_ctx d fd a p w)) v =
    if decide (v = query_port \/ v = create_cq_ex) then Some (FnCore v)
    else if has_pub v then Some (dispatched v) else None.
Proof.
  unfold open_ctx. bfields. rewrite set_lib_ops_priv. rewrite <- resolve_dispatched.
  split; [apply bluerdma_vctx_ops|]. unfold set_lib_ops. cbn [pub_ops]. unfold upd_op.
  destruct (decide (v = query_port)) as [->|H1]; [by rewrite decide_True by tauto|].
  destruct (decide (v = create_cq_ex)) as [->|H2]; [by rewrite decide_True by tauto|].
  rewrite decide_False by tauto. apply bluerdma_vctx_ops.
Qed.

(** In every context [ibv_open_device] returns for a bluerdma device, each
    verb is bound to the symbol [bluerdma_<verb>] of the loaded library when it
    exports one, else to the provider's own function when it has one, else to the
    failing dummy; [free_context] is the provider's function whatever the library
    exports; the public pointers agree with the private ones except
    [query_port] and [create_cq_ex], which go through libibverbs. *)
Theorem open_device_dispatch d dev s c s' :
  fresh_ok s -> bdevs s !! d = Some dev -> dev_ready dev ->
  verbs_open_device d s = Done (Some c) s' ->
  dispatched free_context = FnBlue free_context /\
  exists x, bctxs s' !! c = Some x /\ cx_device x = d /\
  forall v, priv_ops (cx_ops x) v = Some (dispatched v) /\
    pub_ops (cx_ops x) v =
      (if decide (v = query_port \/ v = create_cq_ex) then Some (FnCore v)
       else if has_pub v then Some (dispatched v) else None).
Proof.
  intros Hf Hd Hr Hrun. split; [done|].
  assert (H : wp (verbs_open_device d) (fun r s' => forall c, r = Some c ->
    exists fd a p w, bctxs s' !! c = Some (open_ctx d fd a p w)) s).
  { eapply open_spec; [done..|by intros|]. intros s1 c1 fd a p dd w [_ _ _ _ _ _ Hm] c2 [= <-].
    exists fd, a, p, w. rewrite (mv_bctxs _ _ _ _ _ _ _ Hm). by rewrite lookup_insert_eq. }
  unfold wp in H. rewrite Hrun in H. destruct (H c eq_refl) as (fd & a & p & w & Hx).
  eexists. split; [exact Hx|]. split; [done|]. intros v.
  apply open_ctx_ops.
Qed.

(** Closing a context right after it was opened gives everything back: heap
    blocks, descriptors, contexts, [dlopen] handles and the references of every
    device are as before the open.  What remains is the driver object the open
    created, which replaces the one the device had. *)
Theorem open_close_restores d dev s c s1 :
  fresh_ok s -> bdevs s !! d = Some dev -> dev_ready dev ->
  verbs_open_device d s = Done (Some c) s1 ->
  exists s2 dd, ibv_close_device c s1 = Done tt s2 /\
    moved s s2 (blocks s) (<[d := bd_with_driver_data dd dev]> (bdevs s)) (bctxs s) (fds s)
      (opt_set dd ∪ drvs s) /\
    (forall x, dd = Some x -> x ∉ drvs s).
Proof.
  intros Hf Hd Hr Hrun. pose proof (dr_ref dev Hr).
  assert (H0 : wp (verbs_open_device d) (fun r s' => forall c, r = Some c ->
    exists fd a p dd w, opened d dev s s' c fd a p dd w) s).
  { eapply open_spec; [done..|by intros|]. intros s' c' fd a p dd w Ho c2 [= <-]. eauto 6. }
  unfold wp in H0. rewrite Hrun in H0.
  destruct (H0 c eq_refl) as (fd & a & p & dd & w & [Hc Hp Hfd Ha Hne Hdd [Eb Ed Ec Ef Er El En]]).
  pose proof (fo_next s Hf). unfold new_in in *.
  assert (Hdn : forall x, dd = Some x -> x ∉ drvs s).
  { intros x Hx Hin%(fo_drvs s Hf). specialize (Hdd x Hx). lia. }
  assert (Hclose : wp (ibv_close_device c) (fun _ s2 =>
    moved s s2 (blocks s) (<[d := bd_with_driver_data dd dev]> (bdevs s)) (bctxs s) (fds s)
      (opt_set dd ∪ drvs s)) s1).
  { eapply (close_keep c d fd a p w); [rewrite Ec; by rewrite lookup_insert_eq
      |rewrite Ed; by rewrite lookup_insert_eq|bfields; lia|rewrite Eb; set_solver
      |rewrite Ef; set_solver|lia|right; split; [rewrite Ef; set_solver|done]|].
    split; ufields; try done.
    - rewrite Eb. apply union_minus. intros Hx%(fo_blocks s Hf). lia.
    - rewrite Ed, insert_insert_eq. unfold bd_with_refcount, bd_with_driver_data. bfields.
      by rewrite Z.add_simpl_r.
    - rewrite Ec. apply delete_insert_id. destruct (bctxs s !! c) eqn:Hx; [|done].
      apply (fo_bctxs s Hf) in Hx. lia.
    - rewrite Ef. unfold fd_set. destruct (Z.eqb_spec a (-1)); [lia|].
      rewrite union_minus; [apply union_minus|]; set_unfold; intros Hx.
      + apply (fo_fds s Hf) in Hx. lia.
      + destruct Hx as [->|Hx]; [done|]. apply (fo_fds s Hf) in Hx. lia. }
  apply wp_run in Hclose as ([] & s2 & Hrun2 & Hm). eauto 6.
Qed.

(** An open that fails closes its descriptors, frees its blocks and leaves no
    context.  The only traces it can leave are on the device itself: one reference
    too many (no memory for the private part of the context) or a new driver
    object (no async descriptor). *)
Theorem failed_open_cleans_up d dev s s' :
  fresh_ok s -> bdevs s !! d = Some dev -> dev_ready dev ->
  verbs_open_device d s = Done None s' ->
  open_failed d dev s s'.
Proof.
  intros Hf Hd Hr Hrun.
  assert (H0 : wp (verbs_open_device d) (fun r s' => r = None -> open_failed d dev s s') s).
  { eapply open_spec; [done..|by intros|by intros]. }
  unfold wp in H0. rewrite Hrun in H0. by apply H0.
Qed.

End provider.

(** ** Examples *)

(** The symbols libbluerdma_rust.so exports (dtld-ibverbs/src/rxe/ctx_ops.rs). *)
Definition rust_exports : list string :=
  ["bluerdma_init"; "bluerdma_new"; "bluerdma_free"; "bluerdma_alloc_pd"; "bluerdma_dealloc_pd";
   "bluerdma_query_device_ex"; "bluerdma_query_port"; "bluerdma_create_cq"; "bluerdma_destroy_cq";
   "bluerdma_create_qp"; "bluerdma_destroy_qp"; "bluerdma_modify_qp"; "bluerdma_query_qp";
   "bluerdma_reg_mr"; "bluerdma_dereg_mr"; "bluerdma_post_send"; "bluerdma_post_recv";
   "bluerdma_poll_cq"].

Fixpoint index_of (x : string) (l : list string) (k : Z) : option Z :=
  match l with
  | [] => None
  | y :: l => if decide (x = y) then Some k else index_of x l (k + 1)
  end.

(** Every call succeeds except those at the times of [bad]. *)
Definition rust_env (bad : list nat) : UserEnv := {|
  ufate k := if decide (k ∈ bad) then 12 else 0;
  dlsym n := index_of n rust_exports 4096;
  get_ctx_write _ := false;
|}.

(** The verbs an application can use with that library. *)
Definition supported_verbs : list verb :=
  [alloc_pd; dealloc_pd; query_device_ex; query_port; create_cq; destroy_cq; create_qp; destroy_qp;
   modify_qp; query_qp; reg_mr; dereg_mr; post_send; post_recv; poll_cq; req_notify_cq; free_context].

Definition is_dummy (f : fn) : bool := match f with FnDummy _ => true | _ => false end.

(** Void hooks, and the query whose answer 0 means no guarantee. *)
Definition silent_verbs : list verb :=
  [async_event; cq_event; free_context; unimport_dm; unimport_mr; unimport_pd; query_qp_data_in_order].

(** With the symbols the Rust library exports, the verbs an application can
    use are exactly the seventeen of [supported_verbs]; every other verb runs a
    dummy.  Calling a dummy never looks like success: it returns NULL or an error
    code that says the operation is not supported, except for the six functions
    that return nothing and the data ordering query, whose 0 promises nothing. *)
Theorem unsupported_verbs_fail bad v errno :
  is_dummy (@dispatched (rust_env bad) v) = negb (bool_decide (v ∈ supported_verbs)) /\
  reports_failure (dummy_call v errno) = negb (bool_decide (v ∈ silent_verbs)).
Proof.
  assert (H : @dispatched (rust_env bad) v = @dispatched (rust_env []) v) by done. rewrite H.
  destruct v; split; vm_compute; reflexivity.
Qed.

(** A process with one probed device: the device at 0, its operations at 1, its
    sysfs description at 2. *)
Definition demo_bdevice {E : UserEnv} : bluerdma_device :=
  bd_with_sysfs (Some 2) "uverbs0" (bd_with_refcount 1 (new_bdevice 1 1)).
Definition demo_state {E : UserEnv} : ustate :=
  MkU {[1; 2]} {[0 := demo_bdevice]} ∅ ∅ 1 ∅ 3 0.

Lemma demo_fresh {E : UserEnv} : fresh_ok demo_state.
Proof.
  split; cbn [demo_state blocks bdevs bctxs fds drvs unext]; try (set_solver by lia).
  intros x v [<- _]%lookup_singleton_Some. lia.
Qed.

Lemma demo_ready {E : UserEnv} : dev_ready demo_bdevice.
Proof. by split. Qed.

Lemma demo_lookup {E : UserEnv} : bdevs demo_state !! 0 = Some demo_bdevice.
Proof. done. Qed.

Definition returns_ctx {S} (r : res S (option Z)) : bool :=
  match r with Done (Some _) _ => true | _ => false end.
Definition returns_null {S} (r : res S (option Z)) : bool :=
  match r with Done None _ => true | _ => false end.

Lemma open_device_dispatch_witness :
  let E := rust_env [] in
  exists c s' x, verbs_open_device 0 demo_state = Done (Some c) s' /\ bctxs s' !! c = Some x /\
    priv_ops (cx_ops x) post_send = Some (FnLib 4111) /\
    priv_ops (cx_ops x) req_notify_cq = Some (FnBlue req_notify_cq) /\
    priv_ops (cx_ops x) create_srq = Some (FnDummy create_srq).
Proof.
  set (E := rust_env []).
  assert (H : returns_ctx (@verbs_open_device E 0 demo_state) = true) by (vm_compute; reflexivity).
  destruct (@verbs_open_device E 0 demo_state) as [[c|] s'|] eqn:Hrun; try discriminate H.
  destruct (open_device_dispatch 0 demo_bdevice demo_state c s' demo_fresh demo_lookup demo_ready Hrun)
    as (_ & x & Hx & _ & Hops).
  exists c, s', x. split; [done|]. split; [done|].
  split; [|split]; (etrans; [apply Hops|]); vm_compute; reflexivity.
Defined.

Lemma open_close_restores_witness :
  let E := rust_env [] in
  exists c s1 s2 dd, verbs_open_device 0 demo_state = Done (Some c) s1 /\
    ibv_close_device c s1 = Done tt s2 /\
    moved demo_state s2 {[1; 2]} {[0 := bd_with_driver_data dd demo_bdevice]} ∅ ∅ (opt_set dd ∪ ∅).
Proof.
  set (E := rust_env []).
  assert (H : returns_ctx (@verbs_open_device E 0 demo_state) = true) by (vm_compute; reflexivity).
  destruct (@verbs_open_device E 0 demo_state) as [[c|] s1|] eqn:Hrun; try discriminate H.
  destruct (open_close_restores 0 demo_bdevice demo_state c s1 demo_fresh demo_lookup demo_ready Hrun)
    as (s2 & dd & Hclose & Hm & _).
  exists c, s1, s2, dd. split; [done|]. split; [done|]. exact Hm.
Defined.

(** The private part of the context cannot be allocated. *)
Lemma failed_open_cleans_up_witness :
  let E := rust_env [2%nat] in
  exists s', verbs_open_device 0 demo_state = Done None s' /\
    open_failed 0 demo_bdevice demo_state s' /\ bd_refcount <$> bdevs s' !! 0 = Some 2.
Proof.
  set (E := rust_env [2%nat]).
  assert (H : match @verbs_open_device E 0 demo_state with
              | Done None s' => bool_decide (bd_refcount <$> bdevs s' !! 0 = Some 2)
              | _ => false end = true) by (vm_compute; reflexivity).
  destruct (@verbs_open_device E 0 demo_state) as [[c|] s'|] eqn:Hrun; try discriminate H.
  exists s'. split; [done|]. split; [|by apply bool_decide_eq_true in H].
  exact (failed_open_cleans_up 0 demo_bdevice demo_state s' demo_fresh demo_lookup demo_ready Hrun).
Defined.
