(* ===== verification/Lifecycle.v ===== *)
(** * Sequences of device and context operations

    An application obtains devices from the device list, opens and closes them and
    drops them.  Here any legal sequence of those operations is shown to run
    without a fault and without losing a heap block or a descriptor. *)

From stdpp Require Import base sets gmap strings list fin_maps relations.
From Stdlib Require Import ZArith Lia.
From S2P Require Import Prelude VerbsOps Provider.

#[local] Open Scope Z_scope.
#[local] Opaque verbs_set_ops bluerdma_set_ops bluerdma_vctx.

(** ** Who owns what *)

Inductive resource : Set := RBlk (x : Z) | RFd (x : Z) | RDrv (x : Z).
Inductive owner : Set := ODev (d : Z) | OCtx (c : Z).

Definition res_addr (r : resource) : Z := match r with RBlk x | RFd x | RDrv x => x end.

Definition held (s : ustate) (r : resource) : Prop :=
  match r with RBlk x => x ∈ blocks s | RFd x => x ∈ fds s | RDrv x => x ∈ drvs s end.

Definition dev_owns (v : bluerdma_device) (r : resource) : Prop :=
  match r with
  | RBlk x => bd_ops_blk v = Some x \/ bd_sysfs v = Some x
  | RFd _ => False
  | RDrv x => bd_driver_data v = Some x
  end.

Definition ctx_owns (v : bluerdma_context) (r : resource) : Prop :=
  match r with
  | RBlk x => cx_priv v = Some x
  | RFd x => cx_cmd_fd v = x \/ cx_async_fd v = x
  | RDrv _ => False
  end.

Definition owns (s : ustate) (o : owner) (r : resource) : Prop :=
  match o with
  | ODev d => exists v, bdevs s !! d = Some v /\ dev_owns v r
  | OCtx c => exists v, bctxs s !! c = Some v /\ ctx_owns v r
  end.

(** Everything owned is held, by one owner, and every block and descriptor is
    owned.  Driver objects may be orphaned. *)
Record owned_ok (s : ustate) : Prop := {
  ow_held : forall o r, owns s o r -> held s r;
  ow_unique : forall o1 o2 r, owns s o1 r -> owns s o2 r -> o1 = o2;
  ow_noleak : forall r, held s r -> match r with RDrv _ => True | _ => exists o, owns s o r end;
}.

Lemma new_not_held s s' r : fresh_ok s -> new_in s s' (res_addr r) -> ~ held s r.
Proof.
  intros Hf. unfold new_in. intros Hn Hh. destruct r; cbn in *;
    [apply (fo_blocks s Hf) in Hh|apply (fo_fds s Hf) in Hh|apply (fo_drvs s Hf) in Hh]; lia.
Qed.

(** New resources, each given to one owner; a device may give up its driver
    object. *)
Lemma owned_extend s s' (f : resource -> owner) :
  owned_ok s ->
  (forall o r, owns s' o r -> owns s o r \/ (~ held s r /\ o = f r /\ held s' r)) ->
  (forall r, held s r -> held s' r) ->
  (forall r, held s' r -> held s r \/ owns s' (f r) r) ->
  (forall o r, owns s o r -> match r with RDrv _ => True | _ => owns s' o r end) ->
  owned_ok s'.
Proof.
  intros [Hh Hu Hl] Hnew Hkeep Hheld Hown. split.
  - intros o r [Ho|(_ & _ & H)]%Hnew; [eauto|done].
  - intros o1 o2 r [H1|(N1 & -> & _)]%Hnew [H2|(N2 & -> & _)]%Hnew.
    + eauto.
    + exfalso. eauto.
    + exfalso. eauto.
    + done.
  - intros r Hr. destruct (Hheld r Hr) as [Hr0|Ho].
    + specialize (Hl r Hr0). destruct r; [| |done]; destruct Hl as [o Ho]; exists o;
        exact (Hown o _ Ho).
    + destruct r; eauto.
Qed.

(** The owners in [P] and all they own disappear. *)
Lemma owned_shrink s s' (P : owner -> Prop) :
  owned_ok s ->
  (forall o r, owns s' o r <-> owns s o r /\ ~ P o) ->
  (forall r, held s' r <-> held s r /\ ~ exists o, P o /\ owns s o r) ->
  owned_ok s'.
Proof.
  intros [Hh Hu Hl] Hown Hheld. split.
  - intros o r [Ho Hn]%Hown. apply Hheld. split; [eauto|]. intros (o' & HP & Ho').
    rewrite (Hu o o' r Ho Ho') in Hn. done.
  - intros o1 o2 r [H1 _]%Hown [H2 _]%Hown. eauto.
  - intros r [Hr Hn]%Hheld. specialize (Hl r Hr).
    destruct r; [| |done]; destruct Hl as [o Ho]; exists o; apply Hown; split; eauto.
Qed.

(** ** Counting the contexts of a device *)

Definition ctxs_of (d : Z) (m : gmap Z bluerdma_context) : gmap Z bluerdma_context :=
  filter (fun kv => cx_device kv.2 = d) m.
Definition refs (d : Z) (m : gmap Z bluerdma_context) : Z := Z.of_nat (size (ctxs_of d m)).

Lemma refs_insert d m c x :
  m !! c = None ->
  refs d (<[c := x]> m) = refs d m + if decide (cx_device x = d) then 1 else 0.
Proof.
  intros Hc. unfold refs, ctxs_of. case_decide as Hx.
  - rewrite map_filter_insert_True by done. rewrite map_size_insert_None; [lia|].
    apply map_lookup_filter_None. by left.
  - rewrite map_filter_insert_False by done. rewrite delete_id by done. lia.
Qed.

Lemma refs_delete d m c x :
  m !! c = Some x ->
  refs d m = refs d (delete c m) + if decide (cx_device x = d) then 1 else 0.
Proof.
  intros Hc. rewrite <- (refs_insert d (delete c m) c x) by apply lookup_delete_eq.
  by rewrite insert_delete_id.
Qed.

Lemma refs_nonneg d m : 0 <= refs d m.
Proof. unfold refs. lia. Qed.

Lemma refs_pos d m c x : m !! c = Some x -> cx_device x = d -> 1 <= refs d m.
Proof.
  intros Hc Hd. rewrite (refs_delete d m c x Hc), decide_True by done.
  pose proof (refs_nonneg d (delete c m)). lia.
Qed.

Section lifecycle.
Context {E : UserEnv}.

(** ** The invariant

    [e d] is the number of references to device [d] that the device lists of the
    application hold. *)
Record inv (e : Z -> Z) (s : ustate) : Prop := {
  iv_fresh : fresh_ok s;
  iv_owned : owned_ok s;
  iv_ready : forall d v, bdevs s !! d = Some v -> dev_ready v;
  iv_blks : forall d v, bdevs s !! d = Some v ->
    exists b y, bd_ops_blk v = Some b /\ bd_sysfs v = Some y /\ b <> y;
  iv_refs : forall d v, bdevs s !! d = Some v -> e d + refs d (bctxs s) <= bd_refcount v;
  iv_ctx : forall c x, bctxs s !! c = Some x -> is_Some (bdevs s !! cx_device x) /\
    exists fd a p w, x = open_ctx (cx_device x) fd a p w /\ fd <> a;
  iv_ext : forall d, 0 <= e d;
  iv_ext_dev : forall d, 1 <= e d -> is_Some (bdevs s !! d);
  iv_dl : dl_open s = Z.of_nat (size (bdevs s));
}.

Lemma inv_held_blk e s o x : inv e s -> owns s o (RBlk x) -> x ∈ blocks s.
Proof. intros Hi Ho. exact (ow_held s (iv_owned e s Hi) o _ Ho). Qed.

Lemma inv_held_fd e s o x : inv e s -> owns s o (RFd x) -> x ∈ fds s /\ 0 <= x.
Proof.
  intros Hi Ho. pose proof (ow_held s (iv_owned e s Hi) o _ Ho) as Hx. split; [exact Hx|].
  apply (fo_fds s (iv_fresh e s Hi)) in Hx. lia.
Qed.

(** [v'] owns the same blocks as [v]; [dd] is what is new. *)
Record dev_changed (s s' : ustate) (v v' : bluerdma_device) (dd : option Z) : Prop := {
  dc_ready : dev_ready v';
  dc_ops : bd_ops_blk v' = bd_ops_blk v;
  dc_sysfs : bd_sysfs v' = bd_sysfs v;
  dc_new : forall x, dd = Some x -> new_in s s' x;
  dc_drv : bd_driver_data v' = dd \/ (dd = None /\ bd_driver_data v' = bd_driver_data v);
}.

Lemma size_update (m : gmap Z bluerdma_device) d v v' :
  m !! d = Some v -> size (<[d := v']> m) = size m.
Proof. intros H. rewrite map_size_insert_Some; [done|by eexists]. Qed.

(** The devices after an update. *)
Lemma update_case (m m' : gmap Z bluerdma_device) d v v' :
  m !! d = Some v -> m' = <[d := v']> m ->
  (forall k, is_Some (m' !! k) <-> is_Some (m !! k)) /\
  (forall k u, m' !! k = Some u -> (k = d /\ u = v') \/ (k <> d /\ m !! k = Some u)).
Proof.
  intros Hd ->. split; intros k; destruct (decide (k = d)) as [->|].
  - rewrite lookup_insert_eq, Hd. split; intros _; by eexists.
  - by rewrite lookup_insert_ne.
  - rewrite lookup_insert_eq. intros u [= <-]. by left.
  - rewrite lookup_insert_ne by done. by right.
Qed.

Lemma owned_dev_update s s' d v v' dd :
  fresh_ok s -> owned_ok s -> bdevs s !! d = Some v -> dev_changed s s' v v' dd ->
  moved s s' (blocks s) (<[d := v']> (bdevs s)) (bctxs s) (fds s) (opt_set dd ∪ drvs s) ->
  owned_ok s'.
Proof.
  intros Hfr How Hd [Hr Hob Hsy Hnew Hdrv] [Eb Ed Ec Ef Er El En].
  destruct (update_case _ _ d v v' Hd Ed) as [_ Hcase].
  apply (owned_extend s s' (fun _ => ODev d)); [done|..].
  - intros [k|c] r Ho; cbn in Ho.
    + destruct Ho as (u & Hu & Hr0). destruct (Hcase k u Hu) as [[-> ->]|[Hne Hu']].
      2:{ left. cbn. eauto. }
      destruct r as [x|x|x]; cbn in Hr0; [left|done|].
      * cbn. exists v. rewrite <- Hob, <- Hsy. eauto.
      * destruct Hdrv as [Hdd|[-> Hdd]].
         -- right. rewrite Hdd in Hr0. split; [exact (new_not_held s s' (RDrv x) Hfr (Hnew x Hr0))|]. split; [done|].
            cbn. rewrite Er, Hr0. set_solver.
         -- left. cbn. exists v. rewrite <- Hdd. eauto.
    + left. cbn. by rewrite <- Ec.
  - intros [x|x|x]; cbn; rewrite ?Eb, ?Ef, ?Er; set_solver.
  - intros [x|x|x]; cbn; rewrite ?Eb, ?Ef, ?Er; [by left..|].
    intros [Hx|Hx]%elem_of_union; [right|by left]. exists v'. rewrite Ed, lookup_insert_eq.
    split; [done|]. destruct dd as [z|]; cbn in Hx; [|set_solver].
    apply elem_of_singleton in Hx as ->. by destruct Hdrv as [->|[? _]].
  - intros [k|c] r Ho; cbn in Ho; destruct r as [x|x|x]; try done; cbn; [| |by rewrite Ec..].
    + destruct Ho as (u & Hu & Ho). rewrite Ed. destruct (decide (k = d)) as [->|].
      * rewrite lookup_insert_eq. exists v'. rewrite Hob, Hsy. rewrite Hd in Hu.
         injection Hu as <-. done.
      * rewrite lookup_insert_ne by done. eauto.
    + destruct Ho as (u & Hu & []).
Qed.

(** One device changes its counter or its driver object; nothing else happens. *)
Lemma inv_dev_update e e' s s' d v v' dd :
  inv e s -> bdevs s !! d = Some v -> dev_changed s s' v v' dd ->
  moved s s' (blocks s) (<[d := v']> (bdevs s)) (bctxs s) (fds s) (opt_set dd ∪ drvs s) ->
  e' d + refs d (bctxs s) <= bd_refcount v' -> 0 <= e' d -> (forall d', d' <> d -> e' d' = e d') ->
  inv e' s'.
Proof.
  intros Hi Hd Hch Hmv Hle Hpos Hoth. destruct Hi as [Hfr How Hrd Hbl Hrf Hcx Hex Hed Hdl].
  destruct (update_case _ _ d v v' Hd (mv_bdevs _ _ _ _ _ _ _ Hmv)) as [Hsome Hcase].
  split.
  - destruct Hch as [_ _ _ Hnew _], Hmv as [Eb _ Ec Ef Er _ En].
    eapply fresh_mono; [exact Hfr|exact En|..]; rewrite ?Eb, ?Ec, ?Ef; try by left.
    + rewrite Er. intros x [Hx|Hx]%elem_of_union; [right|by left].
      apply Hnew. destruct dd; cbn in Hx; set_solver.
    + intros x Hx. left. by apply Hsome.
  - by eapply (owned_dev_update s s' d v v' dd).
  - intros k u Hu. destruct (Hcase k u Hu) as [[-> ->]|[_ Hu']]; [apply Hch|eauto].
  - intros k u Hu. destruct (Hcase k u Hu) as [[-> ->]|[_ Hu']]; [|eauto].
    rewrite (dc_ops _ _ _ _ _ Hch), (dc_sysfs _ _ _ _ _ Hch). eauto.
  - intros k u Hu. rewrite (mv_bctxs _ _ _ _ _ _ _ Hmv).
    destruct (Hcase k u Hu) as [[-> ->]|[Hne Hu']]; [done|]. rewrite Hoth by done. eauto.
  - intros c x Hx. rewrite (mv_bctxs _ _ _ _ _ _ _ Hmv) in Hx. rewrite Hsome. eauto.
  - intros k. destruct (decide (k = d)) as [->|]; [done|]. by rewrite Hoth.
  - intros k Hk. apply Hsome. destruct (decide (k = d)) as [->|]; [by eexists|].
    rewrite Hoth in Hk by done. eauto.
  - rewrite (mv_dl _ _ _ _ _ _ _ Hmv), (mv_bdevs _ _ _ _ _ _ _ Hmv), (size_update _ _ v) by done. done.
Qed.

(** A new context of device [d], which has a reference to spare. *)
Lemma owned_add_ctx s s' d c fd a p w :
  owned_ok s -> bctxs s !! c = None -> p ∉ blocks s -> fd ∉ fds s -> a ∉ fds s ->
  moved s s' ({[p]} ∪ blocks s) (bdevs s) (<[c := open_ctx d fd a p w]> (bctxs s))
    ({[fd]} ∪ ({[a]} ∪ fds s)) (drvs s) ->
  owned_ok s'.
Proof.
  intros How Hc Hp Hfd Ha [Eb Ed Ec Ef Er El En].
  apply (owned_extend s s' (fun _ => OCtx c)); [done|..].
  - intros [k|k] r Ho; cbn in Ho; [left; cbn; by rewrite <- Ed|].
    rewrite Ec in Ho. destruct Ho as (x & Hx & Ho). destruct (decide (k = c)) as [->|].
    + rewrite lookup_insert_eq in Hx. injection Hx as <-. right.
      destruct r as [x|x|x]; cbn in Ho |- *; [injection Ho as <-|destruct Ho as [<-|<-]|done];
        (split; [done|]); split; try done; rewrite ?Eb, ?Ef; set_solver.
    + rewrite lookup_insert_ne in Hx by done. left. cbn. eauto.
  - intros [x|x|x]; cbn; rewrite ?Eb, ?Ef, ?Er; set_solver.
  - intros [x|x|x]; cbn; rewrite ?Eb, ?Ef, ?Er, Ec, lookup_insert_eq; [| |by left].
    + intros [->%elem_of_singleton|Hx]%elem_of_union; [right; by eexists|by left].
    + intros [->%elem_of_singleton|[->%elem_of_singleton|Hx]%elem_of_union]%elem_of_union;
        [right; eexists; split; [done|]; by left|right; eexists; split; [done|]; by right|by left].
  - intros [k|k] r Ho.
    + destruct r; [| |done]; cbn; rewrite Ed; exact Ho.
    + assert (k <> c) by (intros ->; destruct Ho as (x & Hx & _); congruence).
      destruct r; [| |done]; cbn; rewrite Ec, lookup_insert_ne by done; exact Ho.
Qed.

Lemma inv_add_ctx e s s' d v c fd a p w :
  inv e s -> bdevs s !! d = Some v -> e d + refs d (bctxs s) + 1 <= bd_refcount v ->
  bctxs s !! c = None -> p ∉ blocks s -> fd ∉ fds s -> a ∉ fds s -> fd <> a ->
  c < unext s' -> p < unext s' -> 0 <= fd < unext s' -> 0 <= a < unext s' ->
  moved s s' ({[p]} ∪ blocks s) (bdevs s) (<[c := open_ctx d fd a p w]> (bctxs s))
    ({[fd]} ∪ ({[a]} ∪ fds s)) (drvs s) ->
  inv e s'.
Proof.
  intros Hi Hd Hle Hc Hp Hfd Ha Hne Lc Lp Lfd La Hm.
  assert (How : owned_ok s') by (eapply (owned_add_ctx s s' d c fd a p w); [apply Hi|done..]).
  destruct Hi as [Hfr _ Hrd Hbl Hrf Hcx Hex Hed Hdl], Hm as [Eb Ed Ec Ef Er El En].
  split; rewrite ?Ed; try done.
  - destruct Hfr as [H0 H1 H2 H3 H4 H5]. split; rewrite ?Eb, ?Ed, ?Ec, ?Ef, ?Er.
    + lia.
    + intros x [->%elem_of_singleton|?%H1]%elem_of_union; lia.
    + intros x [->%elem_of_singleton|[->%elem_of_singleton|?%H2]%elem_of_union]%elem_of_union; lia.
    + intros x ?%H3. lia.
    + intros x u ?%H4. lia.
    + intros x u [[<- _]|[_ ?%H5]]%lookup_insert_Some; lia.
  - intros k u Hu. rewrite Ec, refs_insert by done. specialize (Hrf k u Hu). cbn [open_ctx cx_device].
    case_decide as Hk; [|lia]. subst k. rewrite Hd in Hu. injection Hu as <-. lia.
  - intros k x. rewrite Ec. intros [[<- <-]|[_ Hx]]%lookup_insert_Some; [|eauto].
    split; [by eexists|]. exists fd, a, p, w. done.
  - by rewrite El.
Qed.

(** Opening preserves the invariant. *)
Lemma inv_opened e s s' d v c fd a p dd w :
  inv e s -> bdevs s !! d = Some v -> opened d v s s' c fd a p dd w -> inv e s'.
Proof.
  intros Hi Hd [Hc Hp Hfd Ha Hne Hdd [Eb Ed Ec Ef Er El En]].
  pose proof (iv_fresh e s Hi) as Hfr. pose proof (fo_next s Hfr).
  set (v' := bd_with_driver_data dd (bd_with_refcount (bd_refcount v + 1) v)) in *.
  set (sm := MkU (blocks s) (bdevs s') (bctxs s) (fds s) (dl_open s) (drvs s') (unext s') 0).
  pose proof (iv_refs e s Hi d v Hd) as Hrf.
  assert (Hsm : inv e sm).
  { eapply (inv_dev_update e e s sm d v v' dd); [done|done| | | |apply (iv_ext e s Hi)|done].
    - destruct (iv_ready e s Hi d v Hd). split; try done; [|by left]. split; cbn; try done. lia.
    - by split.
    - cbn. lia. }
  unfold new_in in *. pose proof (iv_fresh e s Hi) as [_ Hb Hf _ _ Hx].
  eapply (inv_add_ctx e sm s' d v' c fd a p w); cbn [sm blocks bdevs bctxs fds dl_open drvs unext];
    [done|rewrite Ed; by rewrite lookup_insert_eq|cbn; lia|..|lia|lia|lia|lia|].
  - destruct (bctxs s !! c) eqn:Hy; [|done]. apply Hx in Hy. lia.
  - intros ?%Hb. lia.
  - intros ?%Hf. lia.
  - intros ?%Hf. lia.
  - done.
  - split; cbn; try done.
Qed.

(** A failed open too. *)
Lemma inv_open_failed e s s' d v :
  inv e s -> bdevs s !! d = Some v -> open_failed d v s s' -> inv e s'.
Proof.
  intros Hi Hd (v' & dd & Hres & Hm). pose proof (iv_refs e s Hi d v Hd) as Hrf.
  destruct (iv_ready e s Hi d v Hd) as [R1 R2 R3 R4 R5].
  eapply (inv_dev_update e e s s' d v v' dd); [done|done| |done| |apply (iv_ext e s Hi)|done].
  - destruct Hres as [| |dd Hdd]; split; try done; try (by right); try (by left);
      split; cbn; try done; lia.
  - destruct Hres; cbn; lia.
Qed.

(** The state without context [c] and what it owns. *)
Definition drop_ctx (c fd a p : Z) (s : ustate) : ustate :=
  u_bctxs (delete c (bctxs s)) (u_fds (fds s ∖ {[fd]} ∖ {[a]}) (u_blocks (blocks s ∖ {[p]}) s)).

Lemma inv_drop_ctx e s c d fd a p w :
  inv e s -> bctxs s !! c = Some (open_ctx d fd a p w) -> inv e (drop_ctx c fd a p s).
Proof.
  intros [Hfr How Hrd Hbl Hrf Hcx Hex Hed Hdl] Hc. unfold drop_ctx. split; ufields; try done.
  - eapply fresh_mono; [exact Hfr|..]; ufields; [lia|set_solver..| |]; intros x Hx; left; [done|].
    by apply lookup_delete_is_Some in Hx as [_ Hx].
  - eapply (owned_shrink s _ (eq (OCtx c))); [done|..].
    + intros [k|k] r; cbn; [naive_solver|]. setoid_rewrite lookup_delete_Some. split.
      * intros (x & [Hne Hx] & Ho). split; [eauto|]. congruence.
      * intros ((x & Hx & Ho) & Hne). exists x. split; [|done]. split; [|done]. congruence.
    + intros r. assert (Hown : (exists o, OCtx c = o /\ owns s o r) <-> ctx_owns (open_ctx d fd a p w) r).
      { split; [intros (o & <- & x & Hx & Ho); congruence|]. intros Ho. exists (OCtx c). cbn. eauto. }
      rewrite Hown. destruct r as [x|x|x]; cbn; rewrite ?elem_of_difference, ?elem_of_singleton; naive_solver.
  - intros k u Hu. specialize (Hrf k u Hu). rewrite (refs_delete k _ c _ Hc) in Hrf. case_decide; lia.
  - intros k x [_ Hx]%lookup_delete_Some. eauto.
Qed.

(** The state without device [d] (contents [v]) and what it owns. *)
Definition destroy_dev (d : Z) (v : bluerdma_device) (b y : Z) (s : ustate) : ustate :=
  u_bdevs (delete d (bdevs s)) (u_dl (dl_open s - 1)
    (u_drvs (drvs s ∖ opt_set (bd_driver_data v)) (u_blocks (blocks s ∖ {[y]} ∖ {[b]}) s))).

Lemma owned_destroy s d v b y :
  owned_ok s -> bdevs s !! d = Some v -> bd_ops_blk v = Some b -> bd_sysfs v = Some y ->
  owned_ok (destroy_dev d v b y s).
Proof.
  intros How Hd Hb Hy. eapply (owned_shrink s _ (eq (ODev d))); [done|..]; unfold destroy_dev; ufields.
  - intros [k|k] r; cbn; [|naive_solver]. setoid_rewrite lookup_delete_Some. split.
    + intros (x & [Hne Hx] & Ho). split; [eauto|]. congruence.
    + intros ((x & Hx & Ho) & Hne). exists x. split; [|done]. split; [|done]. congruence.
  - intros r. assert (Hown : (exists o, ODev d = o /\ owns s o r) <-> dev_owns v r).
    { split; [intros (o & <- & x & Hx & Ho); congruence|]. intros Ho. exists (ODev d). cbn. eauto. }
    rewrite Hown. destruct r as [x|x|x]; cbn; rewrite ?Hb, ?Hy, ?elem_of_difference, ?elem_of_singleton;
      [naive_solver..|]. destruct (bd_driver_data v); set_solver.
Qed.

Lemma inv_destroy e s d v b y :
  inv e s -> bdevs s !! d = Some v -> e d = 0 -> refs d (bctxs s) = 0 ->
  bd_ops_blk v = Some b -> bd_sysfs v = Some y ->
  inv e (destroy_dev d v b y s).
Proof.
  intros [Hfr How Hrd Hbl Hrf Hcx Hex Hed Hdl] Hd He Hr0 Hb Hy.
  pose proof (owned_destroy s d v b y How Hd Hb Hy) as How'. unfold destroy_dev in *.
  split; ufields; try done.
  - eapply fresh_mono; [exact Hfr|..]; ufields; [lia|set_solver..| |]; intros x Hx; left; [|done].
    by apply lookup_delete_is_Some in Hx as [_ Hx].
  - intros k u [_ Hu]%lookup_delete_Some. eauto.
  - intros k u [_ Hu]%lookup_delete_Some. eauto.
  - intros k u [_ Hu]%lookup_delete_Some. eauto.
  - intros c x Hx. destruct (Hcx c x Hx) as [Hs Hw]. split; [|done].
    rewrite lookup_delete_ne; [done|]. intros Heq. pose proof (refs_pos d _ c x Hx (eq_sym Heq)). lia.
  - intros k Hk. rewrite lookup_delete_ne; [eauto|]. intros <-. lia.
  - rewrite map_size_delete_Some by (by eexists). rewrite Hdl.
    assert (size (bdevs s) <> 0%nat); [|lia]. intros Hz%map_size_empty_inv. rewrite Hz in Hd. done.
Qed.

(** ** The operations of an application *)

(** Find a device: its sysfs description is allocated, and the device takes it
    over or it is freed again. *)
Definition probe_device (abi_ver : Z) (sysfs_name : string) : U (option Z) :=
  sysfs ← calloc_blk;
  match sysfs with
  | None => mret None
  | Some y =>
      vdev ← bluerdma_device_alloc abi_ver;
      match vdev with
      | None => free_blk (Some y);; mret None
      | Some d => try_driver_attach d y sysfs_name;; mret (Some d)
      end
  end.

Inductive app_op : Set :=
| Probe (abi_ver : Z) (sysfs_name : string)
| Hold (d : Z)
| Put (d : Z)
| Open (d : Z)
| Close (c : Z).

Definition run_op (o : app_op) : U (option Z) :=
  match o with
  | Probe abi_ver name => probe_device abi_ver name
  | Hold d => ibverbs_device_hold d;; mret None
  | Put d => ibverbs_device_put d;; mret None
  | Open d => verbs_open_device d
  | Close c => ibv_close_device c;; mret None
  end.

(** A device is used only while a device list refers to it, a context only until
    it is closed. *)
Definition legal (e : Z -> Z) (s : ustate) (o : app_op) : Prop :=
  match o with
  | Probe _ _ => True
  | Hold d | Put d | Open d => 1 <= e d
  | Close c => is_Some (bctxs s !! c)
  end.

Definition bump (d k : Z) (e : Z -> Z) : Z -> Z := fun x => if decide (x = d) then e d + k else e x.

Definition ext_after (o : app_op) (r : option Z) (e : Z -> Z) : Z -> Z :=
  match o with
  | Probe _ _ => match r with Some d => bump d 1 e | None => e end
  | Hold d => bump d 1 e
  | Put d => bump d (-1) e
  | Open _ | Close _ => e
  end.

Lemma bump_eq d k e : bump d k e d = e d + k.
Proof. unfold bump. by rewrite decide_True. Qed.
Lemma bump_ne d k e x : x <> d -> bump d k e x = e x.
Proof. unfold bump. intros H. by rewrite decide_False. Qed.

(** Only time passes. *)
Lemma inv_same e s s' :
  inv e s -> moved s s' (blocks s) (bdevs s) (bctxs s) (fds s) (drvs s) -> inv e s'.
Proof.
  intros [Hfr [O1 O2 O3] Hrd Hbl Hrf Hcx Hex Hed Hdl] [Eb Ed Ec Ef Er El En].
  destruct s as [b d c f l r n k], s' as [b' d' c' f' l' r' n' k']. cbn in *. subst.
  split; try done. destruct Hfr as [F0 F1 F2 F3 F4 F5]; cbn in *. split; cbn.
  - lia.
  - intros x ?%F1. lia.
  - intros x ?%F2. lia.
  - intros x ?%F3. lia.
  - intros x u ?%F4. lia.
  - intros x u ?%F5. lia.
Qed.

(** The device of a successful probe. *)
Definition probed (abi b y : Z) (name : string) : bluerdma_device :=
  bd_with_sysfs (Some y) name (bd_with_refcount 1 (new_bdevice abi b)).

Lemma probed_ready abi b y name : dev_ready (probed abi b y name).
Proof. by split. Qed.

Lemma owned_add_dev s s' d abi b y name :
  owned_ok s -> bdevs s !! d = None -> b ∉ blocks s -> y ∉ blocks s ->
  moved (u_dl (dl_open s + 1) s) s' ({[b]} ∪ ({[y]} ∪ blocks s))
    (<[d := probed abi b y name]> (bdevs s)) (bctxs s) (fds s) (drvs s) ->
  owned_ok s'.
Proof.
  intros How Hd Hb Hy [Eb Ed Ec Ef Er El En].
  apply (owned_extend s s' (fun _ => ODev d)); [done|..].
  - intros [k|k] r Ho; cbn in Ho; [|left; cbn; by rewrite <- Ec].
    rewrite Ed in Ho. destruct Ho as (x & Hx & Ho).
    apply lookup_insert_Some in Hx as [[<- <-]|[_ Hx]]; [right|left; cbn; eauto].
    destruct r as [x|x|x]; cbn in Ho |- *; [|done|done].
    destruct Ho as [[= <-]|[= <-]]; (split; [done|]); (split; [done|]); rewrite Eb; set_solver.
  - intros [x|x|x]; cbn; rewrite ?Eb, ?Ef, ?Er; set_solver.
  - intros [x|x|x]; cbn; rewrite ?Eb, ?Ef, ?Er, Ed, lookup_insert_eq; [|by left..].
    intros [->%elem_of_singleton|[->%elem_of_singleton|Hx]%elem_of_union]%elem_of_union;
      [right; eexists; split; [done|]; by left|right; eexists; split; [done|]; by right|by left].
  - intros [k|k] r Ho.
    + assert (k <> d) by (intros ->; destruct Ho as (x & Hx & _); congruence).
      destruct r; [| |done]; cbn; rewrite Ed, lookup_insert_ne by done; exact Ho.
    + destruct r; [| |done]; cbn; rewrite Ec; exact Ho.
Qed.

Lemma inv_add_dev e s s' d abi b y name :
  inv e s -> bdevs s !! d = None -> b ∉ blocks s -> y ∉ blocks s -> b <> y ->
  d < unext s' -> b < unext s' -> y < unext s' ->
  moved (u_dl (dl_open s + 1) s) s' ({[b]} ∪ ({[y]} ∪ blocks s))
    (<[d := probed abi b y name]> (bdevs s)) (bctxs s) (fds s) (drvs s) ->
  inv (bump d 1 e) s'.
Proof.
  intros Hi Hd Hb Hy Hne Ld Lb Ly Hm.
  assert (How : owned_ok s') by (eapply (owned_add_dev s s' d abi b y name); [apply Hi|done..]).
  destruct Hi as [Hfr _ Hrd Hbl Hrf Hcx Hex Hed Hdl], Hm as [Eb Ed Ec Ef Er El En].
  ufields_in Eb. ufields_in Ed. ufields_in El. ufields_in En.
  assert (He : e d = 0).
  { pose proof (Hex d). destruct (decide (1 <= e d)) as [[u Hu]%Hed|]; [congruence|lia]. }
  assert (Hr0 : refs d (bctxs s) = 0).
  { unfold refs. enough (ctxs_of d (bctxs s) = ∅) as -> by done. apply map_empty. intros c.
    apply map_lookup_filter_None. right. intros x Hx Hdx. cbn in Hdx. destruct (Hcx c x Hx) as [[u Hu] _]. congruence. }
  split; try done.
  - destruct Hfr as [H0 H1 H2 H3 H4 H5]. split; rewrite ?Eb, ?Ed, ?Ec, ?Ef, ?Er; ufields.
    + lia.
    + intros x [->%elem_of_singleton|[->%elem_of_singleton|?%H1]%elem_of_union]%elem_of_union; lia.
    + intros x ?%H2. lia.
    + intros x ?%H3. lia.
    + intros x u [[<- _]|[_ ?%H4]]%lookup_insert_Some; lia.
    + intros x u ?%H5. lia.
  - intros k u. rewrite Ed. intros [[<- <-]|[_ Hu]]%lookup_insert_Some; [apply probed_ready|eauto].
  - intros k u. rewrite Ed. intros [[<- <-]|[_ Hu]]%lookup_insert_Some; [|eauto]. exists b, y. done.
  - intros k u. rewrite Ed, Ec. ufields. intros [[<- <-]|[Hk Hu]]%lookup_insert_Some.
    + rewrite bump_eq, He, Hr0. done.
    + rewrite bump_ne by congruence. eauto.
  - intros c x. rewrite Ec, Ed. ufields. intros Hx. destruct (Hcx c x Hx) as [[u Hu] Hw].
    split; [|done]. rewrite lookup_insert_ne by congruence. by eexists.
  - intros k. destruct (decide (k = d)) as [->|]; [rewrite bump_eq; lia|]. rewrite bump_ne by done. eauto.
  - intros k Hk. rewrite Ed. destruct (decide (k = d)) as [->|]; [rewrite lookup_insert_eq; by eexists|].
    rewrite lookup_insert_ne by done. rewrite bump_ne in Hk by done. eauto.
  - rewrite El, Ed, map_size_insert_None by done. lia.
Qed.

(** ** Every operation preserves the invariant *)

Lemma put_keep d v (Q : unit -> ustate -> Prop) s :
  bdevs s !! d = Some v -> bd_refcount v <> 1 ->
  Q tt (u_bdevs (<[d := bd_with_refcount (bd_refcount v - 1) v]> (bdevs s)) s) ->
  wp (ibverbs_device_put d) Q s.
Proof.
  intros Hd Hn HQ. unfold ibverbs_device_put. apply wp_bind. eapply wp_bdev_get; [done|].
  apply wp_bind. eapply wp_bdev_upd; [done|]. apply wp_when.
  destruct (Z.eqb_spec (bd_refcount v) 1); [done|exact HQ].
Qed.

(** Dropping a reference nobody else accounts for.  The contexts [m] the
    references are counted against need not be those of the state. *)
Lemma put_spec e e' s m d v (Q : unit -> ustate -> Prop) :
  inv e (u_bctxs m s) -> bdevs s !! d = Some v ->
  e' d + refs d m + 1 <= bd_refcount v -> 0 <= e' d ->
  (forall k, k <> d -> e' k = e k) ->
  (forall s', bctxs s' = bctxs s -> inv e' (u_bctxs m s') -> Q tt s') ->
  wp (ibverbs_device_put d) Q s.
Proof.
  intros Hi Hd Hle Hpos Hoth HQ. pose proof (refs_nonneg d m).
  destruct (iv_ready e _ Hi d v Hd) as [R1 R2 R3 R4 R5].
  assert (Hup : forall n, 1 <= n -> e' d + refs d m <= n ->
    inv e' (u_bctxs m (u_bdevs (<[d := bd_with_refcount n v]> (bdevs s)) s))).
  { intros n H1 H2. eapply (inv_dev_update e e' (u_bctxs m s) _ d v (bd_with_refcount n v) None);
      [done|done| | |done|done|done].
    - split; try done; first [by right|by split].
    - split; ufields; try done. cbn. set_solver. }
  destruct (Z.eq_dec (bd_refcount v) 1) as [Hn|Hn].
  - destruct (iv_blks e _ Hi d v Hd) as (b & y & Hb & Hy & Hne).
    assert (Hi' : inv e' (u_bctxs m s)).
    { specialize (Hup 1). rewrite <- Hn, bd_same_refcount, insert_id in Hup by done. apply Hup; lia. }
    eapply (device_put_last d v b y); try done.
    + eapply (inv_held_blk e (u_bctxs m s) (ODev d)); [done|]. exists v. cbn. eauto.
    + eapply (inv_held_blk e (u_bctxs m s) (ODev d)); [done|]. exists v. cbn. eauto.
    + intros x Hx. eapply (ow_held _ (iv_owned e _ Hi) (ODev d) (RDrv x)). exists v. cbn. eauto.
    + apply HQ; [done|]. eapply (inv_destroy e' _ d v b y Hi'); try done; ufields; lia.
  - eapply put_keep; [done..|]. apply HQ; [done|]. apply Hup; lia.
Qed.

(** Closing a context: its own resources, then the device reference. *)
Lemma close_run c d fd a p w (Q : unit -> ustate -> Prop) s :
  bctxs s !! c = Some (open_ctx d fd a p w) ->
  p ∈ blocks s -> fd ∈ fds s -> a ∈ fds s -> fd <> -1 -> a <> -1 -> a <> fd ->
  wp (ibverbs_device_put d)
    (fun _ s' => bctxs s' !! c = Some (open_ctx d fd a p w) /\ Q tt (u_bctxs (delete c (bctxs s')) s'))
    (u_fds (fds s ∖ {[fd]} ∖ {[a]}) (u_blocks (blocks s ∖ {[p]}) s)) ->
  wp (ibv_close_device c) Q s.
Proof.
  intros Hc Hp Hfd Ha Hfm Ham Hne Hput.
  unfold ibv_close_device, bluerdma_free_context, verbs_uninit_context.
  apply wp_bind. eapply wp_bctx_get; [done|]. unfold open_ctx at 1. bfields. rewrite vctx_free_context.
  apply wp_bind, wp_bind. eapply wp_bctx_get; [done|]. apply wp_bind. cbn [open_ctx cx_priv].
  apply wp_free_blk; [done|]. cbn [open_ctx cx_cmd_fd cx_async_fd cx_device].
  apply wp_bind, wp_when. destruct (Z.eqb_spec fd (-1)); [done|]. apply wp_close_fd; [done|done|].
  apply wp_bind, wp_when. destruct (Z.eqb_spec a (-1)); [done|]. apply wp_close_fd; [done|ufields; set_solver|].
  eapply wp_mono; [exact Hput|]. intros [] s' [Hc' HQ]. eapply wp_bctx_free; [exact Hc'|exact HQ].
Qed.

Lemma close_step e s c :
  inv e s -> is_Some (bctxs s !! c) -> wp (ibv_close_device c) (fun _ s' => inv e s') s.
Proof.
  intros Hi [x Hx]. destruct (iv_ctx e s Hi c x Hx) as [[v Hv] (fd & a & p & w & Heq & Hne)].
  set (d := cx_device x) in *. rewrite Heq in Hx.
  assert (Hown : forall r, ctx_owns (open_ctx d fd a p w) r -> owns s (OCtx c) r) by (cbn; eauto).
  pose proof (inv_held_blk e s _ p Hi (Hown (RBlk p) eq_refl)) as Hp.
  destruct (inv_held_fd e s _ fd Hi (Hown (RFd fd) (or_introl eq_refl))) as [Hfd Hfd0].
  destruct (inv_held_fd e s _ a Hi (Hown (RFd a) (or_intror eq_refl))) as [Ha Ha0].
  pose proof (iv_refs e s Hi d v Hv) as Hrf. rewrite (refs_delete d _ c _ Hx), decide_True in Hrf by done.
  eapply (close_run c d fd a p w); [exact Hx|exact Hp|exact Hfd|exact Ha|lia|lia|congruence|].
  eapply (put_spec e e _ (delete c (bctxs s)) d v);
    [exact (inv_drop_ctx e s c d fd a p w Hi Hx)|exact Hv|lia|apply (iv_ext e s Hi)|done|].
  intros s' Hc Hi'. rewrite Hc. split; [exact Hx|exact Hi'].
Qed.

Lemma hold_step e s d :
  inv e s -> 1 <= e d -> wp (ibverbs_device_hold d) (fun _ s' => inv (bump d 1 e) s') s.
Proof.
  intros Hi Hd. destruct (iv_ext_dev e s Hi d Hd) as [v Hv]. pose proof (iv_refs e s Hi d v Hv).
  destruct (iv_ready e s Hi d v Hv) as [R1 R2 R3 R4 R5].
  unfold ibverbs_device_hold. apply wp_bind. eapply wp_bdev_get; [done|]. eapply wp_bdev_upd; [done|].
  eapply (inv_dev_update e _ s _ d v (bd_with_refcount (bd_refcount v + 1) v) None);
    [done|done| | | | |].
  - split; try done; first [by right|split; cbn; done || lia].
  - split; ufields; try done. cbn. set_solver.
  - rewrite bump_eq. cbn. lia.
  - rewrite bump_eq. lia.
  - intros k Hk. by apply bump_ne.
Qed.

Lemma u_bctxs_id s : u_bctxs (bctxs s) s = s.
Proof. by destruct s. Qed.

Lemma put_step e s d :
  inv e s -> 1 <= e d -> wp (ibverbs_device_put d) (fun _ s' => inv (bump d (-1) e) s') s.
Proof.
  intros Hi Hd. destruct (iv_ext_dev e s Hi d Hd) as [v Hv]. pose proof (iv_refs e s Hi d v Hv).
  apply (put_spec e (bump d (-1) e) s (bctxs s) d v).
  - by rewrite u_bctxs_id.
  - exact Hv.
  - rewrite bump_eq. lia.
  - rewrite bump_eq. lia.
  - intros k Hk. by apply bump_ne.
  - intros s' Hc Hi'. by rewrite <- Hc, u_bctxs_id in Hi'.
Qed.

Lemma open_step e s d :
  inv e s -> 1 <= e d -> wp (verbs_open_device d) (fun _ s' => inv e s') s.
Proof.
  intros Hi Hd. destruct (iv_ext_dev e s Hi d Hd) as [v Hv].
  eapply open_spec; [apply (iv_fresh e s Hi)|exact Hv|exact (iv_ready e s Hi d v Hv)|..].
  - intros s' Hf. by eapply inv_open_failed.
  - intros s' c fd a p dd w Ho. by eapply inv_opened.
Qed.

Lemma probe_step e s abi name :
  inv e s ->
  wp (probe_device abi name)
    (fun r s' => inv (match r with Some d => bump d 1 e | None => e end) s') s.
Proof.
  intros Hi. pose proof (iv_fresh e s Hi) as Hfr.
  assert (Hny : unext s ∉ blocks s) by (intros ?%(fo_blocks s Hfr); lia).
  unfold probe_device. apply wp_bind, wp_calloc_blk; cbn beta iota.
  { apply wp_ret, (inv_same e s); [done|]. by split. }
  set (s1 := u_blocks _ _). assert (Hfr1 : fresh_ok s1).
  { eapply fresh_mono; [exact Hfr|..]; unfold s1, new_in; ufields; [lia|..]; intros x Hx;
      try (by left). apply elem_of_union in Hx as [->%elem_of_singleton|Hx]; [right; lia|by left]. }
  apply wp_bind, device_alloc_spec; [exact Hfr1|..]; cbn beta iota.
  - intros s' [Eb Ed Ec Ef Er El En]. unfold s1 in *. ufields_in Eb. ufields_in En.
    apply wp_bind, wp_free_blk; [rewrite Eb; set_solver|].
    apply wp_ret, (inv_same e s); [done|]. split; ufields; try done; [|lia].
    rewrite Eb. by apply union_minus.
  - intros s' b. unfold s1, new_in. ufields. intros Hd Hb [Eb Ed Ec Ef Er El En]. unfold try_driver_attach.
    ufields_in Eb. ufields_in Ed. ufields_in Ec. ufields_in Ef. ufields_in Er. ufields_in El. ufields_in En.
    apply wp_bind, wp_bind. eapply wp_bdev_upd; [rewrite Ed; by rewrite lookup_insert_eq|].
    eapply wp_bdev_upd; [ufields; by rewrite lookup_insert_eq|]. apply wp_ret. ufields.
    eapply (inv_add_dev e s _ (unext s + 1) abi b (unext s) name);
      [done| | | done|lia|ufields; lia..|].
    + destruct (bdevs s !! (unext s + 1)) eqn:Hx; [apply (fo_bdevs s Hfr) in Hx; lia|done].
    + intros ?%(fo_blocks s Hfr). lia.
    + split; ufields; try done; [|lia]. by rewrite insert_insert_eq, Ed, insert_insert_eq.
Qed.

(** One legal operation. *)
Lemma inv_step e s o :
  inv e s -> legal e s o -> wp (run_op o) (fun r s' => inv (ext_after o r e) s') s.
Proof.
  intros Hi Hl. destruct o as [abi name|d|d|d|c]; cbn [run_op legal ext_after] in *.
  - by apply probe_step.
  - apply wp_bind. by eapply wp_mono; [apply (hold_step e)|].
  - apply wp_bind. by eapply wp_mono; [apply (put_step e)|].
  - by apply open_step.
  - apply wp_bind. by eapply wp_mono; [apply (close_step e)|].
Qed.

(** A fresh process, and what a sequence of legal operations reaches. *)
Definition ustart : ustate := MkU ∅ ∅ ∅ ∅ 0 ∅ 0 0.

Inductive app_step : ustate * (Z -> Z) -> ustate * (Z -> Z) -> Prop :=
| AppStep s e o r s' :
    legal e s o -> run_op o s = Done r s' -> app_step (s, e) (s', ext_after o r e).

Lemma start_owns o r : ~ owns ustart o r.
Proof. destruct o; intros (v & Hv & _); unfold ustart in Hv; ufields_in Hv; by rewrite lookup_empty in Hv. Qed.

Lemma inv_start : inv (fun _ => 0) ustart.
Proof.
  split; try (unfold ustart; ufields; intros; simplify_map_eq; done || lia).
  split.
  - intros o r []%start_owns.
  - intros o1 o2 r []%start_owns.
  - intros [x|x|x] Hx; cbn in Hx; set_solver.
Qed.

Lemma inv_reachable s e : rtc app_step (ustart, fun _ => 0) (s, e) -> inv e s.
Proof.
  intros Hr. change (inv (s, e).2 (s, e).1). revert Hr.
  generalize (s, e) as x. intros x Hr.
  refine (rtc_ind_r (fun y => inv y.2 y.1) (ustart, fun _ => 0) inv_start _ x Hr).
  intros y z _ Hstep Hi. destruct Hstep as [s0 e0 o r s' Hl Hrun]. cbn in *.
  pose proof (inv_step e0 s0 o Hi Hl) as H. unfold wp in H. by rewrite Hrun in H.
Qed.

(** C5: Starting from a fresh process, whatever calls fail along the way, every
    legal operation (finding, holding, dropping and opening a device, closing a
    context) runs without a use after free, double free, bad descriptor or NULL
    dereference.  At every point the device of an open context is alive with at
    least one reference per context and list entry, every heap block belongs to
    exactly one live device or context and every descriptor to exactly one live
    context, and there is one [dlopen] handle per live device. *)
Theorem lifecycle_safe s e :
  rtc app_step (ustart, fun _ => 0) (s, e) ->
  (forall o, legal e s o -> exists r s', run_op o s = Done r s') /\
  (forall c x, bctxs s !! c = Some x -> exists v, bdevs s !! cx_device x = Some v /\
     e (cx_device x) + refs (cx_device x) (bctxs s) <= bd_refcount v) /\
  (forall x, x ∈ blocks s <-> exists o, owns s o (RBlk x)) /\
  (forall x, x ∈ fds s <-> exists o, owns s o (RFd x)) /\
  (forall o1 o2 r, owns s o1 r -> owns s o2 r -> o1 = o2) /\
  dl_open s = Z.of_nat (size (bdevs s)).
Proof.
  intros Hi%inv_reachable. pose proof (iv_owned e s Hi) as [Hh Hu Hn].
  split; [|split; [|split; [|split; [|split]]]].
  - intros o Hl. pose proof (inv_step e s o Hi Hl) as (r & s' & Hrun & _)%wp_run. eauto.
  - intros c x Hx. destruct (iv_ctx e s Hi c x Hx) as [[v Hv] _]. exists v. split; [done|].
    exact (iv_refs e s Hi _ v Hv).
  - intros x. split; [exact (Hn (RBlk x))|]. intros [o Ho]. exact (Hh o _ Ho).
  - intros x. split; [exact (Hn (RFd x))|]. intros [o Ho]. exact (Hh o _ Ho).
  - exact Hu.
  - exact (iv_dl e s Hi).
Qed.

(** Symbolic execution of a run whose results are known. *)
Ltac lstep :=
  ufields;
  match goal with
  | |- wp (mbind _ _) _ _ => apply wp_bind
  | |- wp next_ufate _ _ => apply wp_next_ufate
  | |- wp fresh _ _ => apply wp_fresh
  | |- wp (bdev_get _) _ _ => eapply wp_bdev_get; [eassumption|]
  | |- wp (bdev_upd _ _) _ _ => eapply wp_bdev_upd; [eassumption|]
  | |- wp (bctx_free _) _ _ => eapply wp_bctx_free; [ufields; apply lookup_insert_eq|]
  | _ => wp_step
  end; cbn beta iota.
Ltac lsteps := repeat lstep; ufields.

(** Opening a device that already has a driver object orphans that object:
    it stays allocated in the library and neither the device nor anything else
    refers to it any more, so that no later call can free it. *)
Theorem reopen_orphans_driver s e d v x c s' :
  rtc app_step (ustart, fun _ => 0) (s, e) -> bdevs s !! d = Some v -> bd_driver_data v = Some x ->
  verbs_open_device d s = Done (Some c) s' ->
  x ∈ drvs s' /\ forall o, ~ owns s' o (RDrv x).
Proof.
  intros Hi%inv_reachable Hd Hx Hrun. pose proof (iv_fresh e s Hi) as Hfr.
  assert (Hown : owns s (ODev d) (RDrv x)) by (exists v; done).
  pose proof (ow_held s (iv_owned e s Hi) _ _ Hown) as Hin. cbn in Hin.
  assert (H : wp (verbs_open_device d) (fun r s' => r = Some c ->
    exists fd a p dd w, opened d v s s' c fd a p dd w) s).
  { eapply open_spec; [done|done|by eapply iv_ready|by intros|].
    intros s1 c1 fd a p dd w Ho [= ->]. eauto 6. }
  unfold wp in H. rewrite Hrun in H.
  destruct (H eq_refl) as (fd & a & p & dd & w & [_ _ _ _ _ Hdd [Eb Ed Ec Ef Er El En]]).
  split; [rewrite Er; set_solver|]. intros [k|k] (u & Hu & Ho); [|done]. cbn in Ho.
  rewrite Ed in Hu. apply lookup_insert_Some in Hu as [[<- <-]|[Hne Hu]].
  - cbn in Ho. apply Hdd in Ho. unfold new_in in Ho. apply (fo_drvs s Hfr) in Hin. lia.
  - assert (owns s (ODev k) (RDrv x)) as Hk by (exists u; done).
    pose proof (ow_unique s (iv_owned e s Hi) _ _ _ Hown Hk). congruence.
Qed.

(** When [open_cdev] and the allocation of the context succeed and the
    allocation of its private part fails, the open returns NULL but keeps a
    reference to the device: after the application drops its only reference the
    device, its library handle and its memory are still there. *)
Theorem failed_init_context_pins_device s e d v :
  rtc app_step (ustart, fun _ => 0) (s, e) -> bdevs s !! d = Some v -> bd_refcount v = 1 ->
  ufate (uclock s) = 0 -> ufate (S (uclock s)) = 0 -> ufate (S (S (uclock s))) <> 0 ->
  exists s1 s2, verbs_open_device d s = Done None s1 /\ ibverbs_device_put d s1 = Done tt s2 /\
    bdevs s2 !! d = Some v /\ blocks s2 = blocks s /\ dl_open s2 = dl_open s.
Proof.
  intros Hi%inv_reachable Hd Hn F0 F1 F2. pose proof (iv_fresh e s Hi) as Hfr.
  destruct (dr_sysfs v (iv_ready e s Hi d v Hd)) as [y Hy]. pose proof (fo_next s Hfr).
  assert (H1 : wp (verbs_open_device d) (fun r s1 => r = None /\ blocks s1 = blocks s /\
    dl_open s1 = dl_open s /\ bdevs s1 = <[d := bd_with_refcount 2 v]> (bdevs s)) s).
  { unfold verbs_open_device, open_fd, bluerdma_alloc_context, verbs_init_and_alloc_context,
      verbs_init_context, ibverbs_device_hold, calloc_blk.
    lsteps. rewrite Hy. lsteps. rewrite F0. cbn [Z.eqb]. lsteps. rewrite F1. cbn [Z.eqb negb]. lsteps.
    destruct (Z.eqb_spec (ufate (S (S (uclock s)))) 0); [done|]. lsteps.
    apply wp_close_fd; [lia|ufields; set_solver|]. lsteps. ufields. by rewrite Hn. }
  apply wp_run in H1 as (r & s1 & Hrun & -> & Eb & El & Ed).
  assert (H2 : wp (ibverbs_device_put d) (fun _ s2 => bdevs s2 !! d = Some v /\
    blocks s2 = blocks s /\ dl_open s2 = dl_open s) s1).
  { eapply (put_keep d (bd_with_refcount 2 v)); [rewrite Ed; by rewrite lookup_insert_eq|done|].
    ufields. rewrite lookup_insert_eq. split; [|done]. rewrite <- (bd_same_refcount v) at 3. by rewrite Hn. }
  apply wp_run in H2 as ([] & s2 & Hrun2 & H2). exists s1, s2. tauto.
Qed.

End lifecycle.

(** ** Examples *)

#[local] Instance legal_dec e s o : Decision (legal e s o).
Proof. destruct o; cbn; apply _. Defined.

(** Run a list of operations, checking that each is legal. *)
Fixpoint run_ops {E : UserEnv} (os : list app_op) (s : ustate) (e : Z -> Z) :
    option (ustate * (Z -> Z)) :=
  match os with
  | [] => Some (s, e)
  | o :: os =>
      if decide (legal e s o) then
        match run_op o s with
        | Done r s' => run_ops os s' (ext_after o r e)
        | Fault _ => None
        end
      else None
  end.

Lemma run_ops_reach {E : UserEnv} os s e x : run_ops os s e = Some x -> rtc app_step (s, e) x.
Proof.
  revert s e. induction os as [|o os IH]; intros s e; cbn [run_ops]; [intros [= <-]; constructor|].
  case_decide as Hl; [|done]. destruct (run_op o s) as [r s'|] eqn:Hrun; [|done].
  intros H. eapply rtc_l; [by constructor|]. by apply IH.
Qed.

(** Device 1 is found and opened twice; the first context is 4. *)
Lemma lifecycle_safe_witness :
  let E := rust_env [] in
  exists s e, rtc app_step (ustart, fun _ => 0) (s, e) /\ 1 <= e 1 /\ is_Some (bctxs s !! 4) /\
    exists r s', run_op (Close 4) s = Done r s'.
Proof.
  set (E := rust_env []).
  assert (H : match @run_ops E [Probe 1 "uverbs0"; Open 1; Open 1] ustart (fun _ => 0) with
              | Some (s, e) => bool_decide (1 <= e 1) && bool_decide (is_Some (bctxs s !! 4))
              | None => false end = true) by (vm_compute; reflexivity).
  destruct (@run_ops E _ ustart (fun _ => 0)) as [[s e]|] eqn:Hrun; [|discriminate H].
  apply andb_true_iff in H as [He Hc]. apply bool_decide_eq_true in He, Hc.
  pose proof (run_ops_reach _ _ _ _ Hrun) as Hreach.
  exists s, e. split; [done|]. split; [done|]. split; [done|].
  exact (proj1 (lifecycle_safe s e Hreach) (Close 4) Hc).
Defined.

Lemma reopen_orphans_driver_witness :
  let E := rust_env [] in
  exists s e c x s', rtc app_step (ustart, fun _ => 0) (s, e) /\
    verbs_open_device 1 s = Done (Some c) s' /\ x ∈ drvs s' /\ forall o, ~ owns s' o (RDrv x).
Proof.
  set (E := rust_env []).
  assert (H : match @run_ops E [Probe 1 "uverbs0"; Open 1] ustart (fun _ => 0) with
              | Some (s, e) => returns_ctx (@verbs_open_device E 1 s) &&
                  bool_decide (is_Some (bdevs s !! 1 ≫= bd_driver_data))
              | None => false end = true) by (vm_compute; reflexivity).
  destruct (@run_ops E _ ustart (fun _ => 0)) as [[s e]|] eqn:Hrun; [|discriminate H].
  pose proof (run_ops_reach _ _ _ _ Hrun) as Hreach. apply andb_true_iff in H as [Hopen Hx].
  apply bool_decide_eq_true in Hx as [x Hx]. apply bind_Some in Hx as (v & Hv & Hx).
  destruct (@verbs_open_device E 1 s) as [[c|] s'|] eqn:Ho; try discriminate Hopen.
  exists s, e, c, x, s'. split; [done|]. split; [done|].
  exact (reopen_orphans_driver s e 1 v x c s' Hreach Hv Hx Ho).
Defined.

(** The device is found with calls 0 to 3; call 6 is the allocation of the private
    part of the context. *)
Lemma failed_init_context_pins_device_witness :
  let E := rust_env [6%nat] in
  exists s e s1 s2, rtc app_step (ustart, fun _ => 0) (s, e) /\
    verbs_open_device 1 s = Done None s1 /\ ibverbs_device_put 1 s1 = Done tt s2 /\
    is_Some (bdevs s2 !! 1).
Proof.
  set (E := rust_env [6%nat]).
  assert (H : match @run_ops E [Probe 1 "uverbs0"] ustart (fun _ => 0) with
              | Some (s, e) => bool_decide (uclock s = 4%nat) &&
                  bool_decide (bd_refcount <$> bdevs s !! 1 = Some 1)
              | None => false end = true) by (vm_compute; reflexivity).
  destruct (@run_ops E _ ustart (fun _ => 0)) as [[s e]|] eqn:Hrun; [|discriminate H].
  pose proof (run_ops_reach _ _ _ _ Hrun) as Hreach. apply andb_true_iff in H as [Hk Hn].
  apply bool_decide_eq_true in Hk, Hn. apply fmap_Some in Hn as (v & Hv & Hn).
  destruct (failed_init_context_pins_device s e 1 v Hreach Hv (eq_sym Hn)) as (s1 & s2 & H1 & H2 & H3 & _).
  - rewrite Hk. reflexivity.
  - rewrite Hk. reflexivity.
  - rewrite Hk. discriminate.
  - exists s, e, s1, s2. split; [done|]. split; [done|]. split; [done|]. by eexists.
Defined.
