(* ===== verification/Discovery.v ===== *)
(** * Device discovery (libibverbs/init.c, the tables of driver.h and bluerdma.c)

    Matching the devices found in sysfs to providers and keeping the device list
    up to date.  The lists of the source are lists here, in order.  The contents of
    sysfs, the providers that can be loaded and whether a provider's
    [alloc_device] succeeds are the environment. *)

From stdpp Require Import base strings sets list.
From Stdlib Require Import ZArith Lia Ascii.
From S2P Require Import Prelude.

#[local] Open Scope string_scope.
#[local] Open Scope Z_scope.

(** ** fnmatch(3)

    With flags 0 and the patterns of the match tables, which use no bracket
    expressions and no backslashes. *)
Fixpoint fnmatch (p : string) : string -> bool :=
  match p with
  | EmptyString => fun s => match s with EmptyString => true | _ => false end
  | String c p' =>
      if Ascii.eqb c "*" then
        fix star s :=
          fnmatch p' s || match s with EmptyString => false | String _ s' => star s' end
      else if Ascii.eqb c "?" then
        fun s => match s with EmptyString => false | String _ s' => fnmatch p' s' end
      else
        fun s => match s with EmptyString => false | String x s' => Ascii.eqb x c && fnmatch p' s' end
  end.

(** ** Match tables *)

Definition RDMA_DRIVER_UNKNOWN : Z := 0.
Definition IBV_SYSFS_NAME_MAX : Z := 64.
Definition IBV_SYSFS_PATH_MAX : Z := 256.

(** [struct verbs_match_ent]; the sentinel is the end of the list. *)
Inductive verbs_match_ent : Set :=
| MatchPci (vendor device : Z)
| MatchModalias (pattern : string)
| MatchDriverId (id : Z).

Definition VERBS_NAME_MATCH (prefix : string) : verbs_match_ent :=
  MatchModalias ("rdma_device:*N" +:+ prefix +:+ "*").

Inductive ibv_node_type : Set :=
| NODE_UNKNOWN | NODE_CA | NODE_SWITCH | NODE_ROUTER | NODE_RNIC | NODE_USNIC | NODE_USNIC_UDP
| NODE_UNSPECIFIED.

Inductive ibv_transport_type : Set :=
| TRANSPORT_UNKNOWN | TRANSPORT_IB | TRANSPORT_IWARP | TRANSPORT_USNIC | TRANSPORT_USNIC_UDP
| TRANSPORT_UNSPECIFIED.

Record verbs_sysfs_dev := MkSysfs {
  sd_match : option verbs_match_ent;
  sd_read_modalias : bool;
  sd_sysfs_name : string;
  sd_ibdev_name : string;
  sd_modalias : string;
  sd_driver_id : Z;
  sd_node_type : ibv_node_type;
  sd_ibdev_idx : Z;
  sd_abi_ver : Z;
  sd_time_created : Z * Z;
}.

Definition sd_with_match (m : option verbs_match_ent) (s : verbs_sysfs_dev) : verbs_sysfs_dev :=
  MkSysfs m (sd_read_modalias s) (sd_sysfs_name s) (sd_ibdev_name s) (sd_modalias s)
    (sd_driver_id s) (sd_node_type s) (sd_ibdev_idx s) (sd_abi_ver s) (sd_time_created s).
Definition sd_with_modalias (v : string) (s : verbs_sysfs_dev) : verbs_sysfs_dev :=
  MkSysfs (sd_match s) true (sd_sysfs_name s) (sd_ibdev_name s) v
    (sd_driver_id s) (sd_node_type s) (sd_ibdev_idx s) (sd_abi_ver s) (sd_time_created s).

(** [struct verbs_device_ops], the part discovery uses. *)
Record verbs_device_ops := MkDevOps {
  do_name : string;
  do_min_abi : Z;
  do_max_abi : Z;
  do_match_table : option (list verbs_match_ent);
  do_match_device : option (verbs_sysfs_dev -> bool);
}.

(** [struct verbs_device] after [try_driver]. *)
Record verbs_device := MkVdev {
  vd_driver : string;
  vd_sysfs : verbs_sysfs_dev;
  vd_node_type : ibv_node_type;
  vd_transport : ibv_transport_type;
  vd_dev_name : string;
  vd_name : string;
}.

(** bluerdma.c *)
Definition hca_table : list verbs_match_ent :=
  [MatchDriverId RDMA_DRIVER_UNKNOWN; VERBS_NAME_MATCH "bluerdma"].

Definition bluerdma_dev_ops : verbs_device_ops :=
  MkDevOps "bluerdma" 1 1 (Some hca_table) None.

(** [modalias_file ibdev] is the contents of device/modalias, when the file can be
    read and is not empty; [alloc_device k] tells whether the [k]-th call of an
    [alloc_device] function succeeds; [loadable] are the providers
    [load_drivers] registers. *)
Class DiscEnv := {
  modalias_file : string -> option string;
  sysfs_path : string;
  alloc_device : nat -> bool;
  loadable : list verbs_device_ops;
  kernel_abi_version : option Z;
}.

Section discovery.
Context {E : DiscEnv}.

(** ** Matching *)

Definition hex_digit (n : Z) : ascii :=
  match n with
  | 0 => "0" | 1 => "1" | 2 => "2" | 3 => "3" | 4 => "4" | 5 => "5" | 6 => "6" | 7 => "7"
  | 8 => "8" | 9 => "9" | 10 => "A" | 11 => "B" | 12 => "C" | 13 => "D" | 14 => "E" | _ => "F"
  end%char.

(** [%0<n>X]. *)
Fixpoint hex_pad (n : nat) (x : Z) (acc : string) : string :=
  match n with
  | O => acc
  | S n => hex_pad n (x / 16) (String (hex_digit (x mod 16)) acc)
  end.

Definition match_modalias (ent : verbs_match_ent) (value : string) : bool :=
  match ent with
  | MatchModalias m => fnmatch m value
  | MatchPci vendor device =>
      fnmatch ("pci:v" +:+ hex_pad 8 vendor "" +:+ "d" +:+ hex_pad 8 device "" +:+ "sv*") value
  | MatchDriverId _ => false
  end.

(** The first entry of a table that matches [value]. *)
Definition find_modalias (table : list verbs_match_ent) (value : string) : option verbs_match_ent :=
  List.find (fun i => match_modalias i value) table.

Definition match_modalias_device (table : list verbs_match_ent) (s : verbs_sysfs_dev) :
    option verbs_match_ent * verbs_sysfs_dev :=
  if sd_read_modalias s then (find_modalias table (sd_modalias s), s)
  else
    match modalias_file (sd_ibdev_name s) with
    | None => (None, sd_with_modalias "" s)
    | Some v => let s := sd_with_modalias v s in (find_modalias table (sd_modalias s), s)
    end.

Definition str_len (s : string) : Z := Z.of_nat (String.length s).

Definition match_name (table : list verbs_match_ent) (s : verbs_sysfs_dev) : option verbs_match_ent :=
  let name_ma := "rdma_device:N" +:+ sd_ibdev_name s in
  if str_len name_ma <? 100 then find_modalias table name_ma else None.

Definition match_driver_id (table : list verbs_match_ent) (s : verbs_sysfs_dev) :
    option verbs_match_ent :=
  if sd_driver_id s =? RDMA_DRIVER_UNKNOWN then None
  else List.find (fun i => match i with MatchDriverId id => id =? sd_driver_id s | _ => false end) table.

Definition match_device (ops : verbs_device_ops) (s : verbs_sysfs_dev) : bool * verbs_sysfs_dev :=
  let s :=
    match do_match_table ops with
    | None => s
    | Some table =>
        let s := sd_with_match (match_driver_id table s) s in
        let s := match sd_match s with
                 | Some _ => s
                 | None => sd_with_match (match_name table s) s
                 end in
        match sd_match s with
        | Some _ => s
        | None => let '(m, s) := match_modalias_device table s in sd_with_match m s
        end
    end in
  let ok :=
    match do_match_device ops with
    | Some f => f s
    | None => match sd_match s with Some _ => true | None => false end
    end in
  (ok && negb ((sd_abi_ver s <? do_min_abi ops) || (do_max_abi ops <? sd_abi_ver s)), s).

Definition decode_knode_type (knode_type : Z) : ibv_node_type :=
  match knode_type with
  | 1 => NODE_CA
  | 2 => NODE_SWITCH
  | 3 => NODE_ROUTER
  | 4 => NODE_RNIC
  | 5 => NODE_USNIC
  | 6 => NODE_USNIC_UDP
  | 7 => NODE_UNSPECIFIED
  | _ => NODE_UNKNOWN
  end.

(** ** Binding a device to a provider *)

Definition transport_of (t : ibv_node_type) : ibv_transport_type :=
  match t with
  | NODE_CA | NODE_SWITCH | NODE_ROUTER => TRANSPORT_IB
  | NODE_RNIC => TRANSPORT_IWARP
  | NODE_USNIC => TRANSPORT_USNIC
  | NODE_USNIC_UDP => TRANSPORT_USNIC_UDP
  | NODE_UNSPECIFIED => TRANSPORT_UNSPECIFIED
  | NODE_UNKNOWN => TRANSPORT_UNKNOWN
  end.

(** The state is the number of [alloc_device] calls made. *)
Abbreviation D := (M nat).

Definition next_alloc : D bool := k ← get; modify S;; mret (alloc_device k).

Definition dev_path_fits (s : verbs_sysfs_dev) : bool :=
  str_len (sysfs_path +:+ "/class/infiniband_verbs/" +:+ sd_sysfs_name s) <? IBV_SYSFS_PATH_MAX.

Definition try_driver (ops : verbs_device_ops) (s : verbs_sysfs_dev) :
    D (option verbs_device * verbs_sysfs_dev) :=
  let '(ok, s) := match_device ops s in
  if negb ok then mret (None, s)
  else
    vdev ← next_alloc;
    if negb vdev then mret (None, s)
    else if dev_path_fits s then
      mret (Some (MkVdev (do_name ops) s (sd_node_type s) (transport_of (sd_node_type s))
                    (sd_sysfs_name s) (sd_ibdev_name s)), s)
    else mret (None, s).

(** The first loop of [try_drivers]: only the providers whose table names the
    device's driver id. *)
Fixpoint try_by_driver_id (drivers : list verbs_device_ops) (s : verbs_sysfs_dev) :
    D (option verbs_device * verbs_sysfs_dev) :=
  match drivers with
  | [] => mret (None, s)
  | d :: rest =>
      table ← demand NullDeref (do_match_table d);
      match match_driver_id table s with
      | None => try_by_driver_id rest s
      | Some _ =>
          r ← try_driver d s;
          match r with
          | (Some dev, s) => mret (Some dev, s)
          | (None, s) => try_by_driver_id rest s
          end
      end
  end.

(** The second loop. *)
Fixpoint try_each (drivers : list verbs_device_ops) (s : verbs_sysfs_dev) :
    D (option verbs_device * verbs_sysfs_dev) :=
  match drivers with
  | [] => mret (None, s)
  | d :: rest =>
      r ← try_driver d s;
      match r with
      | (Some dev, s) => mret (Some dev, s)
      | (None, s) => try_each rest s
      end
  end.

Definition try_drivers (drivers : list verbs_device_ops) (s : verbs_sysfs_dev) :
    D (option verbs_device * verbs_sysfs_dev) :=
  r ← (if sd_driver_id s =? RDMA_DRIVER_UNKNOWN then mret (None, s)
       else try_by_driver_id drivers s);
  match r with
  | (Some dev, s) => mret (Some dev, s)
  | (None, s) => try_each drivers s
  end.

(** Returns the sysfs devices left over, the device list and the count. *)
Fixpoint try_all_drivers (drivers : list verbs_device_ops) (sysfs_list : list verbs_sysfs_dev)
    (device_list : list verbs_device) (num_devices : Z) :
    D (list verbs_sysfs_dev * list verbs_device * Z) :=
  match sysfs_list with
  | [] => mret ([], device_list, num_devices)
  | s :: rest =>
      r ← try_drivers drivers s;
      match r with
      | (Some vdev, _) => try_all_drivers drivers rest (vdev :: device_list) (num_devices + 1)
      | (None, s) =>
          q ← try_all_drivers drivers rest device_list num_devices;
          let '(rem, dl, n) := q in mret (s :: rem, dl, n)
      end
  end.

(** ** The device list *)

Definition same_sysfs_dev (s1 s2 : verbs_sysfs_dev) : bool :=
  if negb (String.eqb (sd_sysfs_name s1) (sd_sysfs_name s2)) then false
  else if negb (sd_ibdev_idx s1 =? sd_ibdev_idx s2) then false
  else if (sd_ibdev_idx s1 =? -1) &&
    (if fst (sd_time_created s1) =? fst (sd_time_created s2)
     then negb (snd (sd_time_created s1) =? snd (sd_time_created s2))
     else true) then false
  else true.

(** Remove the first entry of [l] that [f] accepts. *)
Fixpoint remove_first {A} (f : A -> bool) (l : list A) : option (list A) :=
  match l with
  | [] => None
  | x :: l => if f x then Some l else (fun l' => x :: l') <$> remove_first f l
  end.

(** The first loop of [ibverbs_get_device_list]: devices still there keep their
    place and drop the new description; the others lose the list's reference.
    Returns the devices kept, those put, the remaining descriptions and the
    count. *)
Fixpoint keep_known (device_list : list verbs_device) (sysfs_list : list verbs_sysfs_dev) :
    list verbs_device * list verbs_device * list verbs_sysfs_dev * Z :=
  match device_list with
  | [] => ([], [], sysfs_list, 0)
  | v :: rest =>
      match remove_first (same_sysfs_dev (vd_sysfs v)) sysfs_list with
      | Some sysfs_list' =>
          let '(kept, put, rem, n) := keep_known rest sysfs_list' in (v :: kept, put, rem, n + 1)
      | None => let '(kept, put, rem, n) := keep_known rest sysfs_list in (kept, v :: put, rem, n)
      end
  end.

Record lib_state := MkLib {
  driver_list : list verbs_device_ops;
  drivers_loaded : bool;
  device_list : list verbs_device;
  abi_ver : Z;
}.

Definition IB_USER_VERBS_MIN_ABI_VERSION : Z := 3.
Definition IB_USER_VERBS_MAX_ABI_VERSION : Z := 6.
Definition ENOSYS : Z := 38.

Definition check_abi_version (l : lib_state) : Z * lib_state :=
  if negb (abi_ver l =? 0) then (0, l)
  else
    match kernel_abi_version with
    | None => (ENOSYS, l)
    | Some v =>
        let l := MkLib (driver_list l) (drivers_loaded l) (device_list l) v in
        if (v <? IB_USER_VERBS_MIN_ABI_VERSION) || (IB_USER_VERBS_MAX_ABI_VERSION <? v)
        then (ENOSYS, l) else (0, l)
    end.

(** [found] is what [find_sysfs_devs_nl] or [find_sysfs_devs] listed, or the error
    of the latter.  Returns the count or a negative error, the state, and the
    devices put. *)
Definition ibverbs_get_device_list (found : Z + list verbs_sysfs_dev) (l : lib_state) :
    D (Z * lib_state * list verbs_device) :=
  match found with
  | inl err => mret (- err, l, [])
  | inr sysfs_list =>
      let '(ret, l) := match sysfs_list with [] => (0, l) | _ => check_abi_version l end in
      if negb (ret =? 0) then mret (- ret, l, [])
      else
        let '(kept, put, rem, n) := keep_known (device_list l) sysfs_list in
        r ← try_all_drivers (driver_list l) rem kept n;
        let '(rem, dl, n) := r in
        if match rem with [] => true | _ => drivers_loaded l end then
          mret (n, MkLib (driver_list l) (drivers_loaded l) dl (abi_ver l), put)
        else
          let drivers := (driver_list l ++ loadable)%list in
          r ← try_all_drivers drivers rem dl n;
          let '(_, dl, n) := r in
          mret (n, MkLib drivers true dl (abi_ver l), put)
  end.

(** ** Patterns *)

Definition plain (c : ascii) : bool := negb (Ascii.eqb c "*") && negb (Ascii.eqb c "?").

Fixpoint all_plain (s : string) : bool :=
  match s with EmptyString => true | String c s => plain c && all_plain s end.

(** A literal prefix of the pattern is a prefix of the string. *)
Lemma fnmatch_lit l p s :
  all_plain l = true ->
  fnmatch (l +:+ p) s = true <-> exists s', s = l +:+ s' /\ fnmatch p s' = true.
Proof.
  revert s. induction l as [|c l IH]; intros s; cbn [all_plain].
  - intros _. split; [by exists s|]. by intros (s' & -> & H).
  - unfold plain. intros [[Hs Hq]%andb_true_iff Hl]%andb_true_iff. apply negb_true_iff in Hs, Hq.
    change (String c l +:+ p) with (String c (l +:+ p)). cbn [fnmatch]. rewrite Hs, Hq.
    destruct s as [|x s].
    + split; [done|]. by intros (s' & H & _).
    + rewrite andb_true_iff, Ascii.eqb_eq, IH by done. split.
      * intros (-> & s' & -> & H). by exists s'.
      * intros (s' & H & Hm). injection H as -> ->. eauto.
Qed.

(** A star matches any string. *)
Lemma fnmatch_star p s :
  fnmatch (String "*" p) s = true <-> exists a b, s = a +:+ b /\ fnmatch p b = true.
Proof.
  change (fnmatch (String "*" p)) with
    (fix star s := fnmatch p s || match s with EmptyString => false | String _ s' => star s' end).
  induction s as [|x s IH]; rewrite orb_true_iff.
  - split.
    + intros [H|?]; [by exists "", ""|done].
    + intros ([|] & b & H & Hm); [|done]. change ("" +:+ b) with b in H. subst b. by left.
  - rewrite IH. split.
    + intros [H|(a & b & -> & H)]; [by exists "", (String x s)|by exists (String x a), b].
    + intros ([|y a] & b & H & Hm).
      * left. change ("" +:+ b) with b in H. by subst b.
      * right. injection H as -> ->. by exists a, b.
Qed.

Lemma str_app_nil s : s = s +:+ "".
Proof. induction s as [|c s IH]; [done|]. change (String c s = String c (s +:+ "")). by f_equal. Qed.

Lemma str_app_assoc a b c : (a +:+ b) +:+ c = a +:+ b +:+ c.
Proof. induction a as [|x a IH]; [done|]. change (String x ((a +:+ b) +:+ c) = String x (a +:+ b +:+ c)). by f_equal. Qed.

(** [sub] occurs in [s]. *)
Definition occurs_in (sub s : string) : Prop := exists a b, s = a +:+ sub +:+ b.

(** What [VERBS_NAME_MATCH] accepts. *)
Lemma name_match_spec prefix v :
  all_plain prefix = true ->
  match_modalias (VERBS_NAME_MATCH prefix) v = true <->
  exists a, v = "rdma_device:" +:+ a /\ occurs_in ("N" +:+ prefix) a.
Proof.
  intros Hp. unfold VERBS_NAME_MATCH, match_modalias.
  change ("rdma_device:*N" +:+ prefix +:+ "*") with ("rdma_device:" +:+ String "*" (String "N" (prefix +:+ "*"))).
  rewrite fnmatch_lit by done.
  assert (H1 : forall a, fnmatch (String "*" (String "N" (prefix +:+ "*"))) a = true <-> occurs_in ("N" +:+ prefix) a).
  { intros a. rewrite fnmatch_star. unfold occurs_in.
    change (String "N" (prefix +:+ "*")) with (("N" +:+ prefix) +:+ "*").
    split.
    - intros (x & b & -> & Hb). rewrite fnmatch_lit in Hb by done. destruct Hb as (s' & -> & _). eauto.
    - intros (x & b & ->). exists x, (("N" +:+ prefix) +:+ b). split; [done|].
      rewrite fnmatch_lit by done. exists b. split; [done|].
      change "*" with (String "*" ""). rewrite fnmatch_star. exists b, "". split; [|done].
      apply str_app_nil. }
  split; intros (a & -> & H); exists a; split; try done; by apply H1.
Qed.

Lemma occurs_prefix sub x s : occurs_in (x +:+ sub) (x +:+ sub +:+ s).
Proof. exists "", s. by rewrite str_app_assoc. Qed.

(** ** What matching leaves alone *)

Definition ident (s : verbs_sysfs_dev) : string * Z * (Z * Z) :=
  (sd_sysfs_name s, sd_ibdev_idx s, sd_time_created s).

(** The parts of a description that no provider changes. *)
Record same_desc (s s' : verbs_sysfs_dev) : Prop := {
  se_name : sd_sysfs_name s' = sd_sysfs_name s;
  se_ibdev : sd_ibdev_name s' = sd_ibdev_name s;
  se_driver : sd_driver_id s' = sd_driver_id s;
  se_node : sd_node_type s' = sd_node_type s;
  se_idx : sd_ibdev_idx s' = sd_ibdev_idx s;
  se_abi : sd_abi_ver s' = sd_abi_ver s;
  se_time : sd_time_created s' = sd_time_created s;
}.

#[export] Instance same_desc_equiv : Equivalence same_desc.
Proof.
  split; [by intros s|by intros s1 s2 []|]. intros s1 s2 s3 [] []. split; congruence.
Qed.

Lemma same_sysfs_ident s1 s2 s1' s2' :
  ident s1 = ident s1' -> ident s2 = ident s2' -> same_sysfs_dev s1 s2 = same_sysfs_dev s1' s2'.
Proof. unfold ident, same_sysfs_dev. intros [= -> -> ->] [= -> -> ->]. done. Qed.

Lemma same_sysfs_refl s : same_sysfs_dev s s = true.
Proof.
  unfold same_sysfs_dev. rewrite String.eqb_refl, !Z.eqb_refl. cbn. by rewrite andb_false_r.
Qed.

Lemma same_desc_ident s s' : same_desc s s' -> ident s' = ident s.
Proof. intros []. unfold ident. congruence. Qed.

Lemma same_desc_match m s : same_desc s (sd_with_match m s).
Proof. by split. Qed.
Lemma same_desc_modalias v s : same_desc s (sd_with_modalias v s).
Proof. by split. Qed.

Lemma match_modalias_device_same table s : same_desc s (match_modalias_device table s).2.
Proof. unfold match_modalias_device. repeat case_match; cbn; done || apply same_desc_modalias. Qed.

Lemma match_device_same ops s : same_desc s (match_device ops s).2.
Proof.
  unfold match_device. cbn [snd]. destruct (do_match_table ops) as [table|]; [|done].
  set (s1 := sd_with_match (match_driver_id table s) s).
  set (s2 := match sd_match s1 with Some _ => s1 | None => sd_with_match (match_name table s1) s1 end).
  assert (H2 : same_desc s s2).
  { unfold s2. destruct (sd_match s1); unfold s1; by split. }
  destruct (sd_match s2); [done|].
  pose proof (match_modalias_device_same table s2) as H3.
  destruct (match_modalias_device table s2) as [m s3]. etrans; [exact H2|]. etrans; [exact H3|].
  apply same_desc_match.
Qed.

(** ** The bluerdma table *)

Lemma find_hca v :
  find_modalias hca_table v =
    if match_modalias (VERBS_NAME_MATCH "bluerdma") v then Some (VERBS_NAME_MATCH "bluerdma") else None.
Proof. unfold find_modalias, hca_table. cbn [List.find]. done. Qed.

Lemma hca_driver_id s : match_driver_id hca_table s = None.
Proof.
  unfold match_driver_id. destruct (Z.eqb_spec (sd_driver_id s) RDMA_DRIVER_UNKNOWN) as [|Hne]; [done|].
  cbn [hca_table List.find]. destruct (Z.eqb_spec RDMA_DRIVER_UNKNOWN (sd_driver_id s)); [congruence|done].
Qed.

#[local] Opaque fnmatch match_modalias find_modalias hca_table VERBS_NAME_MATCH.

(** The modalias string the table is tried on. *)
Definition modalias_of (s : verbs_sysfs_dev) : option string :=
  if sd_read_modalias s then Some (sd_modalias s) else modalias_file (sd_ibdev_name s).

Lemma modalias_device_hca s :
  (match_modalias_device hca_table s).1 = modalias_of s ≫= find_modalias hca_table.
Proof.
  unfold match_modalias_device, modalias_of. destruct (sd_read_modalias s); [done|].
  by destruct (modalias_file (sd_ibdev_name s)).
Qed.

Lemma match_name_spec s :
  match_name hca_table s =
    if (str_len (sd_ibdev_name s) <? 87) &&
       match_modalias (VERBS_NAME_MATCH "bluerdma") ("rdma_device:N" +:+ sd_ibdev_name s)
    then Some (VERBS_NAME_MATCH "bluerdma") else None.
Proof.
  unfold match_name. rewrite find_hca.
  assert (str_len ("rdma_device:N" +:+ sd_ibdev_name s) = 13 + str_len (sd_ibdev_name s)) as ->.
  { unfold str_len. change (String.length ("rdma_device:N" +:+ sd_ibdev_name s))
      with (13 + String.length (sd_ibdev_name s))%nat. lia. }
  destruct (Z.ltb_spec (13 + str_len (sd_ibdev_name s)) 100), (Z.ltb_spec (str_len (sd_ibdev_name s)) 87);
    try lia; done.
Qed.

(** The entry [match_device] selects for the bluerdma provider. *)
Definition hca_match (s : verbs_sysfs_dev) : option verbs_match_ent :=
  match match_name hca_table s with
  | Some m => Some m
  | None => modalias_of s ≫= find_modalias hca_table
  end.

Lemma match_device_hca s :
  sd_match (match_device bluerdma_dev_ops s).2 = hca_match s /\
  (match_device bluerdma_dev_ops s).1 = bool_decide (is_Some (hca_match s)) && (sd_abi_ver s =? 1).
Proof.
  pose proof (match_device_same bluerdma_dev_ops s) as Hsame. unfold hca_match.
  unfold match_device in *. cbn [bluerdma_dev_ops do_match_table do_match_device do_min_abi do_max_abi] in *.
  rewrite hca_driver_id in *. change (sd_match (sd_with_match None s)) with (@None verbs_match_ent) in *.
  cbn beta iota zeta in *. change (match_name hca_table (sd_with_match None s)) with (match_name hca_table s) in *.
  pose proof (modalias_device_hca s) as Hm.
  assert (Habi : forall x y, y = x -> negb ((y <? 1) || (1 <? y)) = (x =? 1)).
  { intros x y ->. destruct (Z.ltb_spec x 1), (Z.ltb_spec 1 x), (Z.eqb_spec x 1); try lia; done. }
  destruct (match_name hca_table s) as [m|] eqn:Hn; cbn [sd_match sd_with_match] in *.
  - split; [done|]. cbn [fst]. rewrite (Habi (sd_abi_ver s)) by done. by rewrite bool_decide_true.
  - change (modalias_of s) with (modalias_of (sd_with_match None (sd_with_match None s))).
    pose proof (modalias_device_hca (sd_with_match None (sd_with_match None s))) as Hm'.
    destruct (match_modalias_device hca_table (sd_with_match None (sd_with_match None s))) as [m s'].
    cbn [fst snd sd_match sd_with_match] in *. rewrite <- Hm'. split; [done|].
    rewrite (Habi (sd_abi_ver s)) by exact (se_abi _ _ Hsame). by destruct m.
Qed.

Lemma find_hca_some v :
  is_Some (find_modalias hca_table v) <-> match_modalias (VERBS_NAME_MATCH "bluerdma") v = true.
Proof. rewrite find_hca. destruct (match_modalias _ v); split; try done; by intros [? ?]. Qed.

Lemma name_occurs a n : "rdma_device:N" +:+ n = "rdma_device:" +:+ a <-> a = "N" +:+ n.
Proof.
  split; [|by intros ->]. change ("rdma_device:N" +:+ n) with ("rdma_device:" +:+ ("N" +:+ n)).
  intros H. by apply (inj (String.app "rdma_device:")) in H.
Qed.

(** A device is accepted by the bluerdma provider exactly when its kernel ABI
    is 1 and either its name fits the 100 byte buffer and starts with "bluerdma"
    (or contains "Nbluerdma"), or its modalias is an rdma_device one that contains
    "Nbluerdma".  The name is tried whether or not there is a modalias, and the
    entry that is selected is never the driver id one. *)
Theorem bluerdma_match_iff s :
  ((match_device bluerdma_dev_ops s).1 = true <->
   sd_abi_ver s = 1 /\
   ((str_len (sd_ibdev_name s) < 87 /\ occurs_in "Nbluerdma" ("N" +:+ sd_ibdev_name s)) \/
    exists a, modalias_of s = Some ("rdma_device:" +:+ a) /\ occurs_in "Nbluerdma" a)) /\
  (sd_match (match_device bluerdma_dev_ops s).2 = None \/
   sd_match (match_device bluerdma_dev_ops s).2 = Some (VERBS_NAME_MATCH "bluerdma")).
Proof.
  destruct (match_device_hca s) as [-> ->]. unfold hca_match. rewrite match_name_spec. split.
  - rewrite andb_true_iff, Z.eqb_eq, bool_decide_eq_true, Logic.and_comm. apply and_iff_compat_l.
    assert (Hn : (str_len (sd_ibdev_name s) <? 87) &&
        match_modalias (VERBS_NAME_MATCH "bluerdma") ("rdma_device:N" +:+ sd_ibdev_name s) = true <->
      str_len (sd_ibdev_name s) < 87 /\ occurs_in "Nbluerdma" ("N" +:+ sd_ibdev_name s)).
    { rewrite andb_true_iff, Z.ltb_lt, name_match_spec by done. apply and_iff_compat_l.
      setoid_rewrite name_occurs. split; [by intros (a & -> & H)|eauto]. }
    assert (Hm : is_Some (modalias_of s ≫= find_modalias hca_table) <->
      exists a, modalias_of s = Some ("rdma_device:" +:+ a) /\ occurs_in "Nbluerdma" a).
    { destruct (modalias_of s) as [v|]; cbn [mbind option_bind].
      - rewrite find_hca_some, name_match_spec by done. split.
        + intros (a & -> & H). eauto.
        + intros (a & [= ->] & H). eauto.
      - split; [by intros [? ?]|by intros (? & ? & _)]. }
    rewrite <- Hn, <- Hm. destruct (_ && _); [|split; [by right|by intros [|]]].
    split; [by left|by eexists].
  - destruct (_ && _); [by right|]. destruct (modalias_of s) as [v|]; [|by left]. cbn [mbind option_bind].
    rewrite find_hca. destruct (match_modalias _ v); [by right|by left].
Qed.

(** ** Binding *)

(** [v] is the device a provider of [drivers] made for the description [s]. *)
Definition bound (drivers : list verbs_device_ops) (s : verbs_sysfs_dev) (v : verbs_device) : Prop :=
  same_desc s (vd_sysfs v) /\ vd_dev_name v = sd_sysfs_name s /\ vd_name v = sd_ibdev_name s /\
  exists ops s0, ops ∈ drivers /\ same_desc s s0 /\ (match_device ops s0).1 = true /\
    vd_driver v = do_name ops.

(** Attempts with provider [ops] on [s] cannot fail. *)
Definition surely (ops : verbs_device_ops) (s : verbs_sysfs_dev) : Prop :=
  (forall k, alloc_device k = true) /\ dev_path_fits s = true /\
  forall s', same_desc s s' -> (match_device ops s').1 = true.

Lemma surely_same ops s s' : surely ops s -> same_desc s s' -> surely ops s'.
Proof.
  intros (Ha & Hf & Hm) Hs. split; [done|]. split.
  - unfold dev_path_fits in *. by rewrite (se_name _ _ Hs).
  - intros s2 H2. apply Hm. by etrans.
Qed.

Lemma bound_mono drivers drivers' s s0 v :
  drivers ⊆ drivers' -> same_desc s s0 -> bound drivers s0 v -> bound drivers' s v.
Proof.
  intros Hd Hs (H1 & H2 & H3 & ops & s1 & Hin & H4 & H5 & H6).
  split; [by etrans|]. rewrite H2, H3, (se_name _ _ Hs), (se_ibdev _ _ Hs).
  split; [done|]. split; [done|]. exists ops, s1. split; [set_solver|]. split; [by etrans|]. done.
Qed.

(** The result of an attempt on [s] with the providers [drivers]. *)
Definition attempt (drivers : list verbs_device_ops) (s : verbs_sysfs_dev)
    (r : option verbs_device * verbs_sysfs_dev) : Prop :=
  match r with
  | (Some v, s') => bound drivers s v
  | (None, s') => same_desc s s' /\ forall ops, ops ∈ drivers -> ~ surely ops s
  end.

Lemma try_driver_spec ops s k : wp (try_driver ops s) (fun r _ => attempt [ops] s r) k.
Proof.
  unfold try_driver. pose proof (match_device_same ops s) as Hs.
  destruct (match_device ops s) as [ok s'] eqn:Hmd. cbn [snd] in Hs.
  assert (Hsure : surely ops s -> ok = true /\ alloc_device k = true /\ dev_path_fits s' = true).
  { intros H. pose proof (surely_same _ _ _ H Hs) as (Ha & Hf & _). destruct H as (_ & _ & Hm).
    split; [|done]. specialize (Hm s ltac:(done)). by rewrite Hmd in Hm. }
  destruct ok; cbn [negb].
  2:{ apply wp_ret. split; [done|]. intros o ->%list_elem_of_singleton (? & _)%Hsure. done. }
  unfold next_alloc. wp_steps. destruct (alloc_device k); cbn [negb].
  2:{ apply wp_ret. split; [done|]. intros o ->%list_elem_of_singleton (_ & ? & _)%Hsure. done. }
  wp_steps. destruct (dev_path_fits s').
  2:{ apply wp_ret. split; [done|]. intros o ->%list_elem_of_singleton (_ & _ & ?)%Hsure. done. }
  apply wp_ret. split; [done|]. cbn [vd_dev_name vd_name vd_driver].
  rewrite (se_name _ _ Hs), (se_ibdev _ _ Hs). split; [done|]. split; [done|].
  exists ops, s. split; [set_solver|]. split; [done|]. by rewrite Hmd.
Qed.

Lemma attempt_none_cons ops drivers s s1 r :
  attempt [ops] s (None, s1) -> attempt drivers s1 r -> attempt (ops :: drivers) s r.
Proof.
  intros [Hs Hn] Hr. destruct r as [[v|] s2]; cbn in *.
  - eapply bound_mono; [|exact Hs|exact Hr]. set_solver.
  - destruct Hr as [Hs2 Hn2]. split; [by etrans|]. intros o [->|Ho]%elem_of_cons Hsu.
    + by apply (Hn ops); [set_solver|].
    + apply (Hn2 o Ho). by eapply surely_same.
Qed.

Lemma attempt_some_cons ops drivers s v s1 :
  attempt [ops] s (Some v, s1) -> attempt (ops :: drivers) s (Some v, s1).
Proof. cbn. intros H. eapply bound_mono; [|done|exact H]. set_solver. Qed.

Lemma try_each_spec drivers s k : wp (try_each drivers s) (fun r _ => attempt drivers s r) k.
Proof.
  revert s k. induction drivers as [|d drivers IH]; intros s k; cbn [try_each].
  - apply wp_ret. split; [done|]. set_solver.
  - apply wp_bind. eapply wp_mono; [apply try_driver_spec|]. intros [[v|] s1] k1 H1.
    + apply wp_ret. by apply attempt_some_cons.
    + eapply wp_mono; [apply IH|]. intros r k2 H2. by eapply attempt_none_cons.
Qed.

(** Providers have a match table. *)
Definition have_tables (drivers : list verbs_device_ops) : Prop :=
  Forall (fun d => is_Some (do_match_table d)) drivers.

Lemma try_by_driver_id_spec drivers s k :
  have_tables drivers ->
  wp (try_by_driver_id drivers s)
    (fun r _ => match r with (Some v, _) => bound drivers s v | (None, s') => same_desc s s' end) k.
Proof.
  intros Ht. revert s k. induction Ht as [|d drivers [t Ht] _ IH]; intros s k; cbn [try_by_driver_id].
  - by apply wp_ret.
  - apply wp_bind, wp_demand. exists t. split; [done|].
    assert (Hrest : forall s' k', same_desc s s' -> wp (try_by_driver_id drivers s')
      (fun r _ => match r with (Some v, _) => bound (d :: drivers) s v | (None, s') => same_desc s s' end) k').
    { intros s' k' Hs. eapply wp_mono; [apply IH|]. intros [[v|] s2] k2 H2; [|by etrans].
      eapply bound_mono; [|exact Hs|exact H2]. set_solver. }
    destruct (match_driver_id t s) as [m|]; [|by apply Hrest].
    apply wp_bind. eapply wp_mono; [apply try_driver_spec|]. intros [[v|] s1] k1 H1.
    + apply wp_ret. exact (attempt_some_cons d drivers s v s1 H1).
    + apply Hrest, H1.
Qed.

Lemma try_drivers_spec drivers s k :
  have_tables drivers -> wp (try_drivers drivers s) (fun r _ => attempt drivers s r) k.
Proof.
  intros Ht. unfold try_drivers. apply wp_bind. eapply wp_mono with
    (Q := fun r _ => match r with (Some v, _) => bound drivers s v | (None, s') => same_desc s s' end).
  { apply wp_if. destruct (sd_driver_id s =? RDMA_DRIVER_UNKNOWN); [by apply wp_ret|].
    by apply try_by_driver_id_spec. }
  intros [[v|] s1] k1 H1; [by apply wp_ret|].
  eapply wp_mono; [apply try_each_spec|]. intros [[v|] s2] k2 H2.
  - eapply bound_mono; [|exact H1|exact H2]. set_solver.
  - destruct H2 as [Hs Hn]. split; [by etrans|]. intros ops Ho Hsu. apply (Hn ops Ho).
    by eapply surely_same.
Qed.

(** The outcome of a pass over the new descriptions. *)
Record passed (drivers : list verbs_device_ops) (l rem : list verbs_sysfs_dev)
    (new : list verbs_device) : Prop := {
  pa_new : forall v, v ∈ new -> exists s, s ∈ l /\ bound drivers s v;
  pa_all : forall s, s ∈ l -> (exists v, v ∈ new /\ same_desc s (vd_sysfs v)) \/
    (exists s', s' ∈ rem /\ same_desc s s');
  pa_rem : forall s', s' ∈ rem -> exists s, s ∈ l /\ same_desc s s' /\
    forall ops, ops ∈ drivers -> ~ surely ops s;
}.

Lemma try_all_spec drivers l dl n k :
  have_tables drivers ->
  wp (try_all_drivers drivers l dl n) (fun r _ =>
    exists new, r.1.2 = (new ++ dl)%list /\ r.2 = n + Z.of_nat (length new) /\
    passed drivers l r.1.1 new) k.
Proof.
  intros Ht. revert dl n k. induction l as [|s l IH]; intros dl n k; cbn [try_all_drivers].
  - apply wp_ret. exists []. split; [done|]. split; [cbn; lia|]. split; set_solver.
  - apply wp_bind. eapply wp_mono; [by apply try_drivers_spec|]. intros [[v|] s1] k1 H1.
    + eapply wp_mono; [apply IH|]. intros [[rem dl'] n'] k2 (new & Hdl & Hn & [P1 P2 P3]).
      cbn [fst snd] in *. exists (new ++ [v])%list. split; [by rewrite Hdl, <- app_assoc|].
      split; [rewrite length_app; cbn; lia|]. split.
      * intros v' [Hv'%P1|Hv']%elem_of_app; [set_solver|]. apply list_elem_of_singleton in Hv' as ->.
        exists s. split; [set_solver|done].
      * intros s' [->|Hs']%elem_of_cons; [left; exists v; split; [set_solver|apply H1]|].
        destruct (P2 s' Hs') as [(v' & Hv' & Hsd)|H]; [left; exists v'; split; [set_solver|done]|by right].
      * intros s' (s0 & Hs0 & H)%P3. exists s0. split; [set_solver|done].
    + destruct H1 as [Hs Hno]. apply wp_bind. eapply wp_mono; [apply IH|].
      intros [[rem dl'] n'] k2 (new & Hdl & Hn & [P1 P2 P3]). apply wp_ret. cbn [fst snd] in *.
      exists new. split; [done|]. split; [done|]. split.
      * intros v (s' & Hs' & Hb)%P1. exists s'. split; [set_solver|done].
      * intros s' [->|Hs']%elem_of_cons; [right; exists s1; split; [set_solver|done]|].
        destruct (P2 s' Hs') as [H|(s2 & Hs2 & Hsd)]; [by left|right; exists s2; split; [set_solver|done]].
      * intros s' [->|H%P3]%elem_of_cons; [exists s; split; [set_solver|done]|].
        destruct H as (s0 & Hs0 & H). exists s0. split; [set_solver|done].
Qed.

(** ** Refreshing the list *)

Lemma remove_first_spec {A} (f : A -> bool) l :
  match remove_first f l with
  | Some l' => exists x, f x = true /\ l ≡ₚ x :: l'
  | None => forall x, x ∈ l -> f x = false
  end.
Proof.
  induction l as [|y l IH]; cbn [remove_first]; [set_solver|].
  destruct (f y) eqn:Hy; [by exists y|].
  destruct (remove_first f l) as [l'|]; cbn [fmap option_fmap option_map].
  - destruct IH as (x & Hx & Hl). exists x. split; [done|]. rewrite Hl. apply Permutation_swap.
  - intros x [->|Hx]%elem_of_cons; [done|by apply IH].
Qed.

(** [v] stands for the description [s]. *)
Definition stands_for (v : verbs_device) (s : verbs_sysfs_dev) : Prop :=
  same_sysfs_dev (vd_sysfs v) s = true.

Record sorted_out (dl kept put : list verbs_device) (l rem : list verbs_sysfs_dev) : Prop := {
  so_split : dl ≡ₚ kept ++ put;
  so_kept : forall v, v ∈ kept -> exists s, s ∈ l /\ stands_for v s;
  so_put : forall v s, v ∈ put -> s ∈ rem -> ~ stands_for v s;
  so_all : forall s, s ∈ l -> s ∈ rem \/ exists v, v ∈ kept /\ stands_for v s;
  so_rem : forall s, s ∈ rem -> s ∈ l;
}.

Lemma keep_known_spec dl l :
  let '(kept, put, rem, n) := keep_known dl l in
  n = Z.of_nat (length kept) /\ sorted_out dl kept put l rem.
Proof.
  revert l. induction dl as [|v dl IH]; intros l; cbn [keep_known].
  { split; [done|]. split; set_solver. }
  pose proof (remove_first_spec (same_sysfs_dev (vd_sysfs v)) l) as Hrm.
  destruct (remove_first (same_sysfs_dev (vd_sysfs v)) l) as [l'|].
  - destruct Hrm as (x & Hx & Hl). specialize (IH l').
    destruct (keep_known dl l') as [[[kept put] rem] n]. destruct IH as [-> [S1 S2 S3 S4 S5]].
    split; [cbn [length]; lia|].
    assert (Hin : forall s, s ∈ l <-> s = x \/ s ∈ l') by (intros s; rewrite Hl; apply elem_of_cons).
    split; [by rewrite S1|..].
    + intros u [->|(s & Hs & Hst)%S2]%elem_of_cons; [exists x|exists s]; rewrite Hin; eauto.
    + exact S3.
    + intros s [->|Hs]%Hin; [right; exists v; split; [set_solver|done]|].
      destruct (S4 s Hs) as [?|(u & Hu & Hst)]; [by left|right; exists u; split; [set_solver|done]].
    + intros s Hs%S5. rewrite Hin. by right.
  - specialize (IH l). destruct (keep_known dl l) as [[[kept put] rem] n].
    destruct IH as [-> [S1 S2 S3 S4 S5]]. split; [done|]. split; try done.
    + rewrite S1. apply Permutation_middle.
    + intros u s [->|Hu]%elem_of_cons Hs; [|by apply S3]. unfold stands_for. by rewrite Hrm by auto.
Qed.

(** The outcome of a refresh with the providers [drivers]. *)
Record refreshed (drivers : list verbs_device_ops) (l : list verbs_sysfs_dev)
    (dl dl' put : list verbs_device) (n : Z) : Prop := {
  rf_count : n = Z.of_nat (length dl');
  rf_split : exists new kept, dl' = (new ++ kept)%list /\ dl ≡ₚ kept ++ put /\
    forall v, v ∈ new -> exists s, s ∈ l /\ bound drivers s v;
  rf_live : forall v, v ∈ dl' -> exists s, s ∈ l /\ stands_for v s;
  rf_all : forall s, s ∈ l -> (exists v, v ∈ dl' /\ stands_for v s) \/
    forall ops, ops ∈ drivers -> ~ surely ops s;
}.

Lemma same_desc_stands s v : same_desc s (vd_sysfs v) -> stands_for v s.
Proof.
  intros H. unfold stands_for. rewrite (same_sysfs_ident _ s s s); [apply same_sysfs_refl| |done].
  by apply same_desc_ident.
Qed.

(** A second pass over what the first one left, with more providers. *)
Lemma passed_trans d1 d2 l rem1 rem2 new1 new2 :
  d1 ⊆ d2 -> passed d1 l rem1 new1 -> passed d2 rem1 rem2 new2 ->
  passed d2 l rem2 (new2 ++ new1).
Proof.
  intros Hd [P1 P2 P3] [Q1 Q2 Q3]. split.
  - intros v [(s & Hs & Hb)%Q1|(s & Hs & Hb)%P1]%elem_of_app.
    + destruct (P3 s Hs) as (s0 & Hs0 & Hsd & _). exists s0. split; [done|]. by apply (bound_mono d2 d2 s0 s).
    + exists s. split; [done|]. by apply (bound_mono d1 d2 s s).
  - intros s Hs. destruct (P2 s Hs) as [(v & Hv & Hsd)|(s1 & Hs1 & Hsd)].
    + left. exists v. split; [set_solver|done].
    + destruct (Q2 s1 Hs1) as [(v & Hv & Hsd')|(s2 & Hs2 & Hsd')].
      * left. exists v. split; [set_solver|]. by etrans.
      * right. exists s2. split; [done|]. by etrans.
  - intros s2 (s1 & Hs1 & Hsd & Hno)%Q3. destruct (P3 s1 Hs1) as (s & Hs & Hsd' & _).
    exists s. split; [done|]. split; [by etrans|]. intros ops Ho Hsu. apply (Hno ops Ho).
    by eapply surely_same.
Qed.

(** The list after sorting out the known devices and binding the others. *)
Lemma refresh_done drivers l rem rem' dl kept put new n :
  sorted_out dl kept put l rem -> passed drivers rem rem' new ->
  n = Z.of_nat (length (new ++ kept)) ->
  refreshed drivers l dl (new ++ kept) put n.
Proof.
  intros [S1 S2 S3 S4 S5] [P1 P2 P3] Hn. split; [done|..].
  - exists new, kept. split; [done|]. split; [done|]. intros v (s & Hs & Hb)%P1. eauto.
  - intros v [(s & Hs & Hb)%P1|Hv]%elem_of_app; [|by apply S2].
    exists s. split; [by apply S5|]. apply same_desc_stands, Hb.
  - intros s Hs. destruct (S4 s Hs) as [Hr|(v & Hv & Hst)].
    2:{ left. exists v. split; [set_solver|done]. }
    destruct (P2 s Hr) as [(v & Hv & Hsd)|(s' & Hs' & Hsd)].
    + left. exists v. split; [set_solver|]. by apply same_desc_stands.
    + right. destruct (P3 s' Hs') as (s0 & _ & Hsd0 & Hno). intros ops Ho Hsu.
      apply (Hno ops Ho). eapply surely_same; [exact Hsu|]. etrans; [exact Hsd|]. by symmetry.
Qed.

(** The kernel's verbs ABI passes the check: it was recorded by an earlier call, or it
    is one the library speaks. *)
Definition abi_supported (l : lib_state) : Prop :=
  abi_ver l <> 0 \/ exists v, kernel_abi_version = Some v /\
    IB_USER_VERBS_MIN_ABI_VERSION <= v <= IB_USER_VERBS_MAX_ABI_VERSION.

Lemma check_abi_ok l :
  abi_supported l ->
  exists v, check_abi_version l = (0, MkLib (driver_list l) (drivers_loaded l) (device_list l) v).
Proof.
  intros H. unfold check_abi_version. destruct (Z.eqb_spec (abi_ver l) 0) as [H0|H0]; cbn [negb].
  - destruct H as [?|(v & -> & H1 & H2)]; [done|]. exists v.
    destruct (Z.ltb_spec v IB_USER_VERBS_MIN_ABI_VERSION), (Z.ltb_spec IB_USER_VERBS_MAX_ABI_VERSION v);
      try lia. done.
  - exists (abi_ver l). by destruct l.
Qed.

(** The providers in use after a refresh that had devices left to bind. *)
Definition all_drivers (l : lib_state) : list verbs_device_ops :=
  if drivers_loaded l then driver_list l else (driver_list l ++ loadable)%list.

Lemma refresh_spec found l k :
  have_tables (all_drivers l) -> abi_supported l ->
  wp (ibverbs_get_device_list (inr found) l) (fun r _ =>
    refreshed (all_drivers l) found (device_list l) (device_list r.1.2) r.2 r.1.1) k.
Proof.
  intros Ht Habi. unfold ibverbs_get_device_list.
  assert (Hc : exists v, (match found with [] => (0, l) | _ => check_abi_version l end) =
    (0, MkLib (driver_list l) (drivers_loaded l) (device_list l) v)).
  { destruct found; [exists (abi_ver l); by destruct l|by apply check_abi_ok]. }
  destruct Hc as [v ->]. cbn [Z.eqb negb driver_list drivers_loaded device_list abi_ver].
  pose proof (keep_known_spec (device_list l) found) as Hk.
  destruct (keep_known (device_list l) found) as [[[kept put] rem] n]. destruct Hk as [-> Hso].
  assert (Hsub : driver_list l ⊆ all_drivers l) by (unfold all_drivers; case_match; set_solver).
  apply wp_bind. eapply wp_mono.
  { apply try_all_spec. unfold have_tables in *. rewrite list.Forall_forall in *. eauto. }
  intros [[rem1 dl1] n1] k1 (new1 & Hdl & Hn & Hp1). cbn [fst snd] in *. subst dl1 n1.
  assert (Hp0 : (rem1 = [] \/ drivers_loaded l = true) -> passed (all_drivers l) rem rem1 new1).
  { intros [-> | Hl]; [|by unfold all_drivers; rewrite Hl].
    apply (passed_trans (driver_list l) _ _ [] [] new1 []); [done|done|]. split; set_solver. }
  destruct (match rem1 with [] => true | _ => drivers_loaded l end) eqn:Hd.
  - apply wp_ret. cbn [fst snd device_list]. eapply refresh_done; [exact Hso|apply Hp0|rewrite length_app; lia].
    destruct rem1; [by left|by right].
  - assert (Hl : drivers_loaded l = false) by (by destruct rem1).
    assert (Had : all_drivers l = (driver_list l ++ loadable)%list) by (unfold all_drivers; by rewrite Hl).
    apply wp_bind. eapply wp_mono; [apply try_all_spec; by rewrite <- Had|].
    intros [[rem2 dl2] n2] k2 (new2 & Hdl & Hn & Hp2). cbn [fst snd] in *. subst dl2 n2.
    apply wp_ret. cbn [fst snd device_list]. rewrite <- Had in Hp2. rewrite app_assoc.
    eapply refresh_done; [exact Hso|by eapply passed_trans|rewrite !length_app; lia].
Qed.

(** Refreshing the device list never fails part way.  Afterwards the count
    returned is the length of the list, so the array the caller allocates holds
    it; the list consists of devices bound in this call followed by old devices,
    and the old devices that are not in it are exactly the ones whose reference
    is dropped; every listed device stands for a device the kernel reports now;
    and every reported device is listed, unless each provider could refuse it. *)
Theorem device_list_refresh found l k :
  have_tables (all_drivers l) -> abi_supported l ->
  exists n l' put k', ibverbs_get_device_list (inr found) l k = Done (n, l', put) k' /\
    refreshed (all_drivers l) found (device_list l) (device_list l') put n.
Proof.
  intros Ht Ha. pose proof (refresh_spec found l k Ht Ha) as ([[n l'] put] & k' & H & Hr)%wp_run.
  by exists n, l', put, k'.
Qed.

Lemma bluerdma_surely s name :
  (forall k, alloc_device k = true) -> dev_path_fits s = true -> sd_abi_ver s = 1 ->
  sd_ibdev_name s = "bluerdma" +:+ name -> str_len (sd_ibdev_name s) < 87 ->
  surely bluerdma_dev_ops s.
Proof.
  intros Ha Hf Habi Hname Hlen. split; [done|]. split; [done|]. intros s' Hs.
  destruct (match_device_hca s') as [_ ->]. unfold hca_match. rewrite match_name_spec.
  rewrite (se_ibdev _ _ Hs), (se_abi _ _ Hs), Habi.
  assert (match_modalias (VERBS_NAME_MATCH "bluerdma") ("rdma_device:N" +:+ sd_ibdev_name s) = true) as ->.
  { apply name_match_spec; [done|]. exists ("N" +:+ sd_ibdev_name s). split; [done|].
    rewrite Hname. apply (occurs_prefix "bluerdma" "N" name). }
  destruct (Z.ltb_spec (str_len (sd_ibdev_name s)) 87); [done|lia].
Qed.

(** Every device the kernel reports under a name that starts with "bluerdma"
    (as the kernel module registers them) and with ABI 1 is in the device list
    after a refresh, when the bluerdma provider is registered or can be loaded and
    its device allocation succeeds, whatever other providers there are and
    whatever driver id and modalias the device has. *)
Theorem bluerdma_device_listed found l k s name :
  have_tables (all_drivers l) -> abi_supported l -> bluerdma_dev_ops ∈ all_drivers l ->
  (forall j, alloc_device j = true) -> s ∈ found -> dev_path_fits s = true -> sd_abi_ver s = 1 ->
  sd_ibdev_name s = "bluerdma" +:+ name -> str_len (sd_ibdev_name s) < 87 ->
  exists n l' put k' v, ibverbs_get_device_list (inr found) l k = Done (n, l', put) k' /\
    v ∈ device_list l' /\ stands_for v s.
Proof.
  intros Ht Ha Hb Hal Hs Hf Habi Hname Hlen.
  pose proof (refresh_spec found l k Ht Ha) as ([[n l'] put] & k' & H & Hr)%wp_run.
  destruct (rf_all _ _ _ _ _ _ Hr s Hs) as [(v & Hv & Hst)|Hno].
  - by exists n, l', put, k', v.
  - exfalso. apply (Hno _ Hb). by eapply bluerdma_surely.
Qed.

(** The check of the kernel's verbs ABI protects only the first call.  When the
    kernel reports a version the library does not support, the first refresh that
    finds a device fails with ENOSYS and changes no list; but the version has been
    recorded by then, and every later refresh takes it as checked and fills the
    device list. *)
Theorem abi_check_passes_on_retry s found l k v :
  abi_ver l = 0 -> kernel_abi_version = Some v -> v <> 0 ->
  (v < IB_USER_VERBS_MIN_ABI_VERSION \/ IB_USER_VERBS_MAX_ABI_VERSION < v) ->
  have_tables (all_drivers l) ->
  exists l1, ibverbs_get_device_list (inr (s :: found)) l k = Done (- ENOSYS, l1, []) k /\
    device_list l1 = device_list l /\
    forall found2 k1, exists n l2 put k2,
      ibverbs_get_device_list (inr found2) l1 k1 = Done (n, l2, put) k2 /\
      refreshed (all_drivers l) found2 (device_list l) (device_list l2) put n.
Proof.
  intros H0 Hk Hv Hbad Ht. set (l1 := MkLib (driver_list l) (drivers_loaded l) (device_list l) v).
  exists l1. split; [|split; [done|]].
  - unfold ibverbs_get_device_list, check_abi_version. rewrite H0, Hk. cbn [Z.eqb negb].
    fold l1. destruct (Z.ltb_spec v IB_USER_VERBS_MIN_ABI_VERSION),
      (Z.ltb_spec IB_USER_VERBS_MAX_ABI_VERSION v); try lia; reflexivity.
  - intros found2 k1.
    pose proof (refresh_spec found2 l1 k1 Ht (or_introl Hv)) as ([[n l2] put] & k2 & H & Hr)%wp_run.
    by exists n, l2, put, k2.
Qed.

End discovery.

(** ** Examples *)

(** A machine with the rxe and bluerdma providers installed. *)
Definition demo_disc : DiscEnv := {|
  modalias_file _ := None;
  sysfs_path := "/sys";
  alloc_device _ := true;
  loadable := [MkDevOps "rxe" 1 2 (Some [MatchDriverId 15; VERBS_NAME_MATCH "rxe"]) None; bluerdma_dev_ops];
  kernel_abi_version := Some 6;
|}.

Definition demo_sysfs (i : string) (t : Z) : verbs_sysfs_dev :=
  MkSysfs None false ("uverbs" +:+ i) ("bluerdma" +:+ i) "" 0 NODE_CA (-1) 1 (t, 0).

Definition demo_lib : lib_state := MkLib [] false [] 0.

Lemma demo_tables : have_tables (@all_drivers demo_disc demo_lib).
Proof. repeat constructor; by eexists. Qed.

Lemma demo_abi : @abi_supported demo_disc demo_lib.
Proof. right. exists 6. by repeat split. Qed.

Lemma device_list_refresh_witness :
  let E := demo_disc in
  exists l' k', ibverbs_get_device_list (inr [demo_sysfs "0" 7; demo_sysfs "1" 7]) demo_lib 0%nat =
      Done (2, l', []) k' /\
    refreshed (all_drivers demo_lib) [demo_sysfs "0" 7; demo_sysfs "1" 7] [] (device_list l') [] 2.
Proof.
  destruct (@device_list_refresh demo_disc [demo_sysfs "0" 7; demo_sysfs "1" 7] demo_lib 0%nat
    demo_tables demo_abi) as (n & l' & put & k' & H & Hr).
  exists l', k'. vm_compute in H. injection H as <- <- <- <-. split; [vm_compute; reflexivity|exact Hr].
Defined.

Lemma bluerdma_device_listed_witness :
  let E := demo_disc in
  exists n l' put k' v,
    ibverbs_get_device_list (inr [demo_sysfs "0" 7]) demo_lib 0%nat = Done (n, l', put) k' /\
    v ∈ device_list l' /\ stands_for v (demo_sysfs "0" 7).
Proof.
  apply (@bluerdma_device_listed demo_disc [demo_sysfs "0" 7] demo_lib 0%nat (demo_sysfs "0" 7) "0"
    demo_tables demo_abi).
  - right. left.
  - done.
  - left.
  - vm_compute. reflexivity.
  - reflexivity.
  - reflexivity.
  - vm_compute. reflexivity.
Defined.

(** A kernel that speaks version 7. *)
Definition demo_disc7 : DiscEnv := {|
  modalias_file _ := None;
  sysfs_path := "/sys";
  alloc_device _ := true;
  loadable := [bluerdma_dev_ops];
  kernel_abi_version := Some 7;
|}.

Lemma abi_check_passes_on_retry_witness :
  let E := demo_disc7 in
  exists l1 n l2 put k2,
    ibverbs_get_device_list (inr [demo_sysfs "0" 7]) demo_lib 0%nat = Done (- ENOSYS, l1, []) 0%nat /\
    ibverbs_get_device_list (inr [demo_sysfs "0" 7]) l1 0%nat = Done (n, l2, put) k2 /\
    n = Z.of_nat (length (device_list l2)).
Proof.
  destruct (@abi_check_passes_on_retry demo_disc7 (demo_sysfs "0" 7) [] demo_lib 0%nat 7)
    as (l1 & H1 & _ & H2).
  - reflexivity.
  - reflexivity.
  - lia.
  - right. reflexivity.
  - repeat constructor; by eexists.
  - destruct (H2 [demo_sysfs "0" 7] 0%nat) as (n & l2 & put & k2 & Hrun & Hr).
    exists l1, n, l2, put, k2. split; [done|]. split; [done|]. exact (rf_count _ _ _ _ _ _ Hr).
Defined.
