(* ===== verification/ProviderStubs.v ===== *)
(** * The provider's own verbs (providers/bluerdma/bluerdma.c)

    The functions of [bluerdma_ctx_ops] that are used for the verbs the loaded
    library does not export.  They keep objects that remember their context, and
    log through it, so that a context must outlive its objects. *)

From stdpp Require Import base sets gmap list.
From Stdlib Require Import ZArith Lia.
From S2P Require Import Prelude Provider.

#[local] Open Scope Z_scope.

Inductive obj_kind : Set := Pd | Cq | Qp | Mr.

#[export] Instance obj_kind_eq_dec : EqDecision obj_kind.
Proof. solve_decision. Defined.

(** An object and the context it belongs to. *)
Record vobj := MkObj { ob_kind : obj_kind; ob_context : Z }.

Record stub_state := MkStub {
  live_ctxs : gset Z;
  objs : gmap Z vobj;
  snext : Z;
  sclock : nat;
}.

Definition st_objs (m : gmap Z vobj) (s : stub_state) : stub_state :=
  MkStub (live_ctxs s) m (snext s) (sclock s).
Definition st_new (s : stub_state) : stub_state :=
  MkStub (live_ctxs s) (objs s) (snext s + 1) (sclock s).
Definition st_tick (s : stub_state) : stub_state :=
  MkStub (live_ctxs s) (objs s) (snext s) (S (sclock s)).

Abbreviation T := (M stub_state).

Section stubs.
Context {E : UserEnv}.

(** [verbs_info] reads the log level of the context. *)
Definition verbs_info (context : Z) : T unit :=
  s ← get; if decide (context ∈ live_ctxs s) then mret tt else fail UseAfterFree.

(** [calloc] of an object whose context is then set. *)
Definition calloc_obj (k : obj_kind) (context : Z) : T (option Z) :=
  s ← get;
  modify st_tick;;
  if ufate (sclock s) =? 0 then
    modify (fun s => st_new (st_objs (<[snext s := MkObj k context]> (objs s)) s));;
    mret (Some (snext s))
  else mret None.

(** Access to an object of the expected type. *)
Definition obj_get (k : obj_kind) (p : Z) : T vobj :=
  s ← get;
  o ← demand UseAfterFree (objs s !! p);
  if decide (ob_kind o = k) then mret o else fail ApiMisuse.

Definition free_obj (p : Z) : T unit := modify (fun s => st_objs (delete p (objs s)) s).

Definition bluerdma_query_device (context : Z) : T Z := verbs_info context;; mret 0.
Definition bluerdma_query_port (context port : Z) : T Z := verbs_info context;; mret 0.

Definition bluerdma_alloc_pd (context : Z) : T (option Z) :=
  verbs_info context;; calloc_obj Pd context.

Definition bluerdma_dealloc_pd (pd : Z) : T Z :=
  o ← obj_get Pd pd; verbs_info (ob_context o);; free_obj pd;; mret 0.

Definition bluerdma_create_cq (context cqe comp_vector : Z) : T (option Z) :=
  verbs_info context;; calloc_obj Cq context.

Definition bluerdma_destroy_cq (ibcq : Z) : T Z :=
  o ← obj_get Cq ibcq; verbs_info (ob_context o);; free_obj ibcq;; mret 0.

Definition bluerdma_create_qp (ibpd : Z) : T (option Z) :=
  o ← obj_get Pd ibpd; verbs_info (ob_context o);; calloc_obj Qp (ob_context o).

Definition bluerdma_query_qp (ibqp : Z) : T Z :=
  o ← obj_get Qp ibqp; verbs_info (ob_context o);; mret 0.

Definition bluerdma_modify_qp (ibqp : Z) : T Z :=
  o ← obj_get Qp ibqp; verbs_info (ob_context o);; mret 0.

Definition bluerdma_destroy_qp (ibqp : Z) : T Z :=
  o ← obj_get Qp ibqp; verbs_info (ob_context o);; free_obj ibqp;; mret 0.

Definition bluerdma_reg_mr (pd addr length hca_va access : Z) : T (option Z) :=
  o ← obj_get Pd pd; verbs_info (ob_context o);; calloc_obj Mr (ob_context o).

Definition bluerdma_dereg_mr (vmr : Z) : T Z :=
  o ← obj_get Mr vmr; verbs_info (ob_context o);; free_obj vmr;; mret 0.

Definition bluerdma_poll_cq (ibcq ne : Z) : T Z :=
  o ← obj_get Cq ibcq; verbs_info (ob_context o);; mret 0.

Definition bluerdma_post_send (ibqp : Z) : T Z :=
  o ← obj_get Qp ibqp; verbs_info (ob_context o);; mret 0.

Definition bluerdma_post_recv (ibqp : Z) : T Z :=
  o ← obj_get Qp ibqp; verbs_info (ob_context o);; mret 0.

Definition bluerdma_req_notify_cq (ibcq solicited_only : Z) : T Z :=
  o ← obj_get Cq ibcq; verbs_info (ob_context o);; mret 0.

(** ** Sequences of verbs *)

Inductive verb_call : Set :=
| QueryDevice (c : Z) | QueryPort (c port : Z)
| AllocPd (c : Z) | DeallocPd (p : Z)
| CreateCq (c cqe vec : Z) | DestroyCq (p : Z) | PollCq (p ne : Z) | ReqNotifyCq (p sol : Z)
| CreateQp (pd : Z) | QueryQp (p : Z) | ModifyQp (p : Z) | DestroyQp (p : Z)
| PostSend (p : Z) | PostRecv (p : Z)
| RegMr (pd addr len va acc : Z) | DeregMr (p : Z).

(** A created object is [Some]; other verbs return [None] for the result 0. *)
Definition zero_only (m : T Z) : T (option Z) :=
  r ← m; if r =? 0 then mret None else fail AssertFail.

Definition run_call (v : verb_call) : T (option Z) :=
  match v with
  | QueryDevice c => zero_only (bluerdma_query_device c)
  | QueryPort c port => zero_only (bluerdma_query_port c port)
  | AllocPd c => bluerdma_alloc_pd c
  | DeallocPd p => zero_only (bluerdma_dealloc_pd p)
  | CreateCq c cqe vec => bluerdma_create_cq c cqe vec
  | DestroyCq p => zero_only (bluerdma_destroy_cq p)
  | PollCq p ne => zero_only (bluerdma_poll_cq p ne)
  | ReqNotifyCq p sol => zero_only (bluerdma_req_notify_cq p sol)
  | CreateQp pd => bluerdma_create_qp pd
  | QueryQp p => zero_only (bluerdma_query_qp p)
  | ModifyQp p => zero_only (bluerdma_modify_qp p)
  | DestroyQp p => zero_only (bluerdma_destroy_qp p)
  | PostSend p => zero_only (bluerdma_post_send p)
  | PostRecv p => zero_only (bluerdma_post_recv p)
  | RegMr pd addr len va acc => bluerdma_reg_mr pd addr len va acc
  | DeregMr p => zero_only (bluerdma_dereg_mr p)
  end.

(** What a verb needs: a live context or a live object of the right type; and
    what it does: create an object of a type, destroy one, or nothing. *)
Inductive needs : Set := NeedCtx (c : Z) | NeedObj (k : obj_kind) (p : Z).
Inductive effect : Set := Create (k : obj_kind) | Destroy | Nothing.

Definition signature (v : verb_call) : needs * effect :=
  match v with
  | QueryDevice c | QueryPort c _ => (NeedCtx c, Nothing)
  | AllocPd c => (NeedCtx c, Create Pd)
  | CreateCq c _ _ => (NeedCtx c, Create Cq)
  | DeallocPd p => (NeedObj Pd p, Destroy)
  | DestroyCq p => (NeedObj Cq p, Destroy)
  | DestroyQp p => (NeedObj Qp p, Destroy)
  | DeregMr p => (NeedObj Mr p, Destroy)
  | PollCq p _ | ReqNotifyCq p _ => (NeedObj Cq p, Nothing)
  | CreateQp pd => (NeedObj Pd pd, Create Qp)
  | RegMr pd _ _ _ _ => (NeedObj Pd pd, Create Mr)
  | QueryQp p | ModifyQp p | PostSend p | PostRecv p => (NeedObj Qp p, Nothing)
  end.

(** The context a need is met with. *)
Definition meets (s : stub_state) (n : needs) (c : Z) : Prop :=
  match n with
  | NeedCtx c' => c' = c /\ c ∈ live_ctxs s
  | NeedObj k p => objs s !! p = Some (MkObj k c)
  end.

(** Contexts outlive their objects, and addresses are fresh. *)
Record stub_inv (s : stub_state) : Prop := {
  si_live : forall p o, objs s !! p = Some o -> ob_context o ∈ live_ctxs s;
  si_fresh : forall p o, objs s !! p = Some o -> p < snext s;
}.

(** The objects after a verb with result [r] on context [c]. *)
Definition objs_after (v : verb_call) (c : Z) (r : option Z) (m : gmap Z vobj) : gmap Z vobj :=
  match signature v, r with
  | (_, Create k), Some p => <[p := MkObj k c]> m
  | (NeedObj _ p, Destroy), _ => delete p m
  | _, _ => m
  end.

Lemma meets_live s n c : stub_inv s -> meets s n c -> c ∈ live_ctxs s.
Proof. intros Hi. destruct n; cbn; [by intros [-> ?]|]. intros H%(si_live s Hi). done. Qed.

Lemma wp_verbs_info c Q s : c ∈ live_ctxs s -> Q tt s -> wp (verbs_info c) Q s.
Proof. intros Hc HQ. unfold verbs_info. wp_steps. by rewrite decide_True. Qed.

Lemma wp_obj_get k p c Q s : objs s !! p = Some (MkObj k c) -> Q (MkObj k c) s -> wp (obj_get k p) Q s.
Proof. intros Hp HQ. unfold obj_get. wp_steps. eexists. split; [done|]. by rewrite decide_True. Qed.

Lemma wp_calloc_obj k c Q s :
  Q None (st_tick s) ->
  Q (Some (snext s)) (st_new (st_objs (<[snext s := MkObj k c]> (objs s)) (st_tick s))) ->
  wp (calloc_obj k c) Q s.
Proof. intros H1 H2. unfold calloc_obj. wp_steps. by destruct (ufate (sclock s) =? 0). Qed.

(** The three shapes of verbs. *)
Lemma create_shape (s : stub_state) c k (Q : option Z -> stub_state -> Prop) :
  stub_inv s -> c ∈ live_ctxs s ->
  (forall r s', stub_inv s' -> live_ctxs s' = live_ctxs s ->
     objs s' = match r with Some p => <[p := MkObj k c]> (objs s) | None => objs s end ->
     (forall p, r = Some p -> objs s !! p = None) -> Q r s') ->
  wp (calloc_obj k c) Q s.
Proof.
  intros [H1 H2] Hc HQ. apply wp_calloc_obj; apply HQ; try done.
  - split; cbn; intros p o [[<- <-]|[_ Ho]]%lookup_insert_Some; [done|eauto|lia|apply H2 in Ho; lia].
  - intros p [= <-]. destruct (objs s !! snext s) eqn:Hx; [apply H2 in Hx; lia|done].
Qed.

Lemma destroy_shape (s : stub_state) c p (Q : option Z -> stub_state -> Prop) :
  stub_inv s -> c ∈ live_ctxs s ->
  (forall s', stub_inv s' -> live_ctxs s' = live_ctxs s -> objs s' = delete p (objs s) -> Q None s') ->
  wp (zero_only (verbs_info c;; free_obj p;; mret 0)) Q s.
Proof.
  intros [H1 H2] Hc HQ. unfold zero_only, free_obj. apply wp_bind, wp_bind, wp_verbs_info; [done|]. wp_steps.
  apply HQ; try done. split; cbn; intros q o [_ Ho]%lookup_delete_Some; eauto.
Qed.

Lemma nothing_shape (s : stub_state) c (Q : option Z -> stub_state -> Prop) :
  c ∈ live_ctxs s -> Q None s -> wp (zero_only (verbs_info c;; mret 0)) Q s.
Proof. intros Hc HQ. unfold zero_only. apply wp_bind, wp_bind, wp_verbs_info; [done|]. by wp_steps. Qed.

Lemma zero_only_obj k p c (f : vobj -> T Z) Q s :
  objs s !! p = Some (MkObj k c) -> wp (zero_only (f (MkObj k c))) Q s ->
  wp (zero_only (o ← obj_get k p; f o)) Q s.
Proof.
  intros Hp. unfold zero_only. rewrite !wp_bind. intros H. eapply wp_obj_get; [exact Hp|exact H].
Qed.

(** Each of the provider's own verbs, called on a live context or on a live
    object of the type it expects, returns without touching freed memory: a
    creating verb returns NULL and changes nothing or returns a new object that
    belongs to the context of its parent, a destroying verb removes exactly its
    object, the others return 0 and change nothing; and objects keep belonging to
    live contexts. *)
Theorem stub_verbs_track_objects s v c :
  stub_inv s -> meets s (signature v).1 c ->
  exists r s', run_call v s = Done r s' /\ stub_inv s' /\ live_ctxs s' = live_ctxs s /\
    objs s' = objs_after v c r (objs s) /\ (forall p, r = Some p -> objs s !! p = None).
Proof.
  intros Hi Hm. pose proof (meets_live s _ c Hi Hm) as Hc. apply wp_run.
  destruct v; cbn [signature fst meets] in Hm; cbn [run_call]; 
    try match type of Hm with _ /\ _ => destruct Hm as [-> _] end;
    try (apply nothing_shape; done);
    try (eapply zero_only_obj; [exact Hm|]; apply nothing_shape; done);
    try (eapply zero_only_obj; [exact Hm|]; apply destroy_shape; [done|done|];
         by intros s' ? ? ?; split_and!);
    try (apply wp_bind; eapply wp_obj_get; [exact Hm|]);
    apply wp_bind, wp_verbs_info; try done; apply create_shape; try done;
    intros [q|] s' ???; done.
Qed.

End stubs.

(** A queue pair on the protection domain 1 of context 7. *)
Lemma stub_verbs_track_objects_witness :
  let E := rust_env [] in
  exists r s', run_call (CreateQp 1) (MkStub {[7]} {[1 := MkObj Pd 7]} 2 0) = Done r s' /\
    r = Some 2 /\ objs s' = <[2 := MkObj Qp 7]> {[1 := MkObj Pd 7]}.
Proof.
  destruct (@stub_verbs_track_objects (rust_env []) (MkStub {[7]} {[1 := MkObj Pd 7]} 2 0) (CreateQp 1) 7)
    as (r & s' & H & _ & _ & Hobj & _).
  - split; cbn; intros p o [<- <-]%lookup_singleton_Some; [set_solver|lia].
  - reflexivity.
  - exists r, s'. split; [done|]. assert (r = Some 2) as -> by (by vm_compute in H; injection H as <- _).
    split; [done|exact Hobj].
Defined.
