(* ===== verification/MemTree.v ===== *)
(** * The tree of memory ranges

    libibverbs/memory.c: a red-black tree of nodes with parent pointers, ordered by the
    start of their range.  The heap maps the address of a node to its members; a pointer
    of 0 is [NULL], and reading or writing through [NULL] or a freed node is a fault.
    The file has the operations of the tree, trees with a focus as they lie in the heap,
    and rotations; loops are bounded by the number of nodes.  The other proofs are in
    [RedBlack]. *)

From Stdlib Require Import ZArith Lia.
From stdpp Require Import base list gmap fin_maps sorting.
From S2P Require Import Prelude.

#[local] Open Scope Z_scope.

(** ** The code *)

Inductive color : Set := IBV_RED | IBV_BLACK.

#[export] Instance color_eq_dec : EqDecision color.
Proof. solve_decision. Defined.

Record ibv_mem_node : Set := mk_node {
  n_color : color; n_parent : Z; n_left : Z; n_right : Z; n_start : Z; n_end : Z; n_refcnt : Z }.

Record mm : Type := mk_mm { mm_root : Z; nodes : gmap Z ibv_mem_node }.

Definition node_at (p : Z) : M mm ibv_mem_node :=
  s ← get;
  if p =? 0 then fail NullDeref else demand UseAfterFree (nodes s !! p).

Definition upd (p : Z) (f : ibv_mem_node -> ibv_mem_node) : M mm unit :=
  n ← node_at p; modify (fun s => mk_mm (mm_root s) (<[p := f n]> (nodes s))).

Definition set_root (p : Z) : M mm unit := modify (fun s => mk_mm p (nodes s)).

Definition free (p : Z) : M mm unit :=
  node_at p;; modify (fun s => mk_mm (mm_root s) (delete p (nodes s))).

Definition with_color (c : color) (n : ibv_mem_node) : ibv_mem_node :=
  mk_node c (n_parent n) (n_left n) (n_right n) (n_start n) (n_end n) (n_refcnt n).
Definition with_parent (p : Z) (n : ibv_mem_node) : ibv_mem_node :=
  mk_node (n_color n) p (n_left n) (n_right n) (n_start n) (n_end n) (n_refcnt n).
Definition with_left (p : Z) (n : ibv_mem_node) : ibv_mem_node :=
  mk_node (n_color n) (n_parent n) p (n_right n) (n_start n) (n_end n) (n_refcnt n).
Definition with_right (p : Z) (n : ibv_mem_node) : ibv_mem_node :=
  mk_node (n_color n) (n_parent n) (n_left n) p (n_start n) (n_end n) (n_refcnt n).

(** The two halves of every function are mirror images: [Left] and [Right] name the
    member. *)
Inductive dir : Set := Left | Right.

#[export] Instance dir_eq_dec : EqDecision dir.
Proof. solve_decision. Defined.

Definition flip (d : dir) : dir := match d with Left => Right | Right => Left end.
Definition child (d : dir) (n : ibv_mem_node) : Z := match d with Left => n_left n | Right => n_right n end.
Definition with_child (d : dir) (p : Z) : ibv_mem_node -> ibv_mem_node :=
  match d with Left => with_left p | Right => with_right p end.

(** Number of rounds that every loop ends within. *)
Definition rounds (s : mm) : nat := S (S (size (nodes s))).

(** [while (node->right) node = node->right;] and its mirror image *)
Fixpoint outermost (fuel : nat) (d : dir) (p : Z) : M mm Z :=
  match fuel with
  | O => fail FuelOut
  | S fuel' => n ← node_at p; if child d n =? 0 then mret p else outermost fuel' d (child d n)
  end.

(** [while (node->parent && node == node->parent->left) node = node->parent;
    node = node->parent;] *)
Fixpoint climb (fuel : nat) (d : dir) (p : Z) : M mm Z :=
  match fuel with
  | O => fail FuelOut
  | S fuel' =>
      n ← node_at p;
      if n_parent n =? 0 then mret (n_parent n)
      else
        pn ← node_at (n_parent n);
        if p =? child d pn then climb fuel' d (n_parent n) else mret (n_parent n)
  end.

Definition neighbour (d : dir) (p : Z) : M mm Z :=
  s ← get;
  n ← node_at p;
  if negb (child d n =? 0) then outermost (rounds s) (flip d) (child d n)
  else climb (rounds s) d p.

Definition mm_prev (p : Z) : M mm Z := neighbour Left p.
Definition mm_next (p : Z) : M mm Z := neighbour Right p.

(** [if (node->parent) { ... } else mm_root = tmp;] *)
Definition replace_child (parent node tmp : Z) : M mm unit :=
  if negb (parent =? 0) then
    pn ← node_at parent;
    if n_right pn =? node then upd parent (with_right tmp) else upd parent (with_left tmp)
  else set_root tmp.

Definition rotate (d : dir) (node : Z) : M mm unit :=
  n ← node_at node;
  let tmp := child (flip d) n in
  t ← node_at tmp;
  upd node (with_child (flip d) (child d t));;
  n ← node_at node;
  when (negb (child (flip d) n =? 0)) (upd (child (flip d) n) (with_parent node));;
  n ← node_at node;
  replace_child (n_parent n) node tmp;;
  n ← node_at node;
  upd tmp (with_parent (n_parent n));;
  upd tmp (with_child d node);;
  upd node (with_parent tmp).

Definition mm_rotate_right : Z -> M mm unit := rotate Right.
Definition mm_rotate_left : Z -> M mm unit := rotate Left.

(** [p && p->color == IBV_RED] *)
Definition is_red (p : Z) : M mm bool :=
  if p =? 0 then mret false else n ← node_at p; mret (bool_decide (n_color n = IBV_RED)).

Definition blacken_root : M mm unit := s ← get; upd (mm_root s) (with_color IBV_BLACK).

(** One round of the loop; [d] is [Left] in its first half.  The result is the next
    [node]. *)
Definition add_round (d : dir) (node parent gp : Z) : M mm Z :=
  g ← node_at gp;
  let uncle := child (flip d) g in
  r ← is_red uncle;
  if (r : bool) then
    upd parent (with_color IBV_BLACK);;
    upd uncle (with_color IBV_BLACK);;
    upd gp (with_color IBV_RED);;
    mret gp
  else
    pn ← node_at parent;
    np ← (if node =? child (flip d) pn then
            rotate d parent;;
            n ← node_at parent;
            mret (parent, n_parent n)
          else mret (node, parent));
    upd np.2 (with_color IBV_BLACK);;
    upd gp (with_color IBV_RED);;
    rotate (flip d) gp;;
    mret np.1.

Fixpoint add_loop (fuel : nat) (node : Z) : M mm unit :=
  match fuel with
  | O => fail FuelOut
  | S fuel' =>
      n ← node_at node;
      r ← is_red (n_parent n);
      if (r : bool) then
        let parent := n_parent n in
        pn ← node_at parent;
        let gp := n_parent pn in
        g ← node_at gp;
        node' ← add_round (if parent =? n_left g then Left else Right) node parent gp;
        add_loop fuel' node'
      else mret tt
  end.

Definition mm_add_rebalance (node : Z) : M mm unit :=
  s ← get;
  add_loop (rounds s) node;;
  blacken_root.

(** The last node on the way down to where [start] belongs. *)
Fixpoint add_search (fuel : nat) (start node parent : Z) : M mm Z :=
  match fuel with
  | O => fail FuelOut
  | S fuel' =>
      if node =? 0 then mret parent
      else
        n ← node_at node;
        add_search fuel' start (if n_start n <? start then n_right n else n_left n) node
  end.

Definition mm_add (new : Z) : M mm unit :=
  s ← get;
  nn ← node_at new;
  parent ← add_search (rounds s) (n_start nn) (mm_root s) 0;
  pn ← node_at parent;
  (if n_start pn <? n_start nn then upd parent (with_right new) else upd parent (with_left new));;
  upd new (with_parent parent);;
  upd new (with_left 0);;
  upd new (with_right 0);;
  upd new (with_color IBV_RED);;
  mm_add_rebalance new.

(** [if (p) p->parent = q;] and [if (p) p->color = c;] *)
Definition set_parent_if (p q : Z) : M mm unit := when (negb (p =? 0)) (upd p (with_parent q)).
Definition set_color_if (p : Z) (c : color) : M mm unit := when (negb (p =? 0)) (upd p (with_color c)).

(** A node with two children: the last node of its left subtree takes its place. *)
Definition remove_inner (node : Z) : M mm (color * Z * Z) :=
  s ← get;
  n ← node_at node;
  tmp ← outermost (rounds s) Right (n_left n);
  t ← node_at tmp;
  let nodecol := n_color t in
  let child := n_left t in
  upd tmp (with_color (n_color n));;
  parent ← (if negb (n_parent t =? node) then
              let parent := n_parent t in
              upd parent (with_right (n_left t));;
              set_parent_if (n_left t) parent;;
              upd tmp (with_left (n_left n));;
              upd (n_left n) (with_parent tmp);;
              mret parent
            else mret tmp);
  upd tmp (with_right (n_right n));;
  upd (n_right n) (with_parent tmp);;
  upd tmp (with_parent (n_parent n));;
  (if negb (n_parent n =? 0) then
     pn ← node_at (n_parent n);
     if n_left pn =? node then upd (n_parent n) (with_left tmp) else upd (n_parent n) (with_right tmp)
   else set_root tmp);;
  mret (nodecol, child, parent).

(** A node with at most one child. *)
Definition remove_outer (node : Z) : M mm (color * Z * Z) :=
  n ← node_at node;
  let child := if negb (n_left n =? 0) then n_left n else n_right n in
  let parent := n_parent n in
  set_parent_if child parent;;
  (if negb (parent =? 0) then
     pn ← node_at parent;
     if n_left pn =? node then upd parent (with_left child) else upd parent (with_right child)
   else set_root child);;
  mret (n_color n, child, parent).

Definition is_black (p : Z) : M mm bool := b ← is_red p; mret (negb b).

(** A round of the loop for a [child] on side [d] of [parent], first part: a red sibling
    is rotated away.  The result is [sib]. *)
Definition black_sibling (d : dir) (parent : Z) : M mm Z :=
  pn ← node_at parent;
  let sib := child (flip d) pn in
  sn ← node_at sib;
  if bool_decide (n_color sn = IBV_RED) then
    upd parent (with_color IBV_RED);;
    upd sib (with_color IBV_BLACK);;
    rotate d parent;;
    pn ← node_at parent;
    mret (child (flip d) pn)
  else mret sib.

(** The nephew on side [d] is red and the other one is not: it becomes [sib]. *)
Definition raise_nephew (d : dir) (parent sib : Z) : M mm Z :=
  sn ← node_at sib;
  set_color_if (child d sn) IBV_BLACK;;
  upd sib (with_color IBV_RED);;
  rotate (flip d) sib;;
  pn ← node_at parent;
  mret (child (flip d) pn).

(** The other nephew is red: [sib] takes the place of [parent]. *)
Definition raise_sibling (d : dir) (parent sib : Z) : M mm unit :=
  pn ← node_at parent;
  upd sib (with_color (n_color pn));;
  upd parent (with_color IBV_BLACK);;
  sn ← node_at sib;
  set_color_if (child (flip d) sn) IBV_BLACK;;
  rotate d parent.

(** The whole round; the result is the next [child] and [parent], or that the loop is
    left. *)
Definition remove_round (d : dir) (parent : Z) : M mm (option (Z * Z)) :=
  sib ← black_sibling d parent;
  sn ← node_at sib;
  near ← is_black (child d sn);
  far ← is_black (child (flip d) sn);
  if (near : bool) && (far : bool) then
    upd sib (with_color IBV_RED);;
    pn ← node_at parent;
    mret (Some (parent, n_parent pn))
  else
    sib ← (if (far : bool) then raise_nephew d parent sib else mret sib);
    raise_sibling d parent sib;;
    mret None.

(** The result is [child] after the loop. *)
Fixpoint remove_loop (fuel : nat) (child parent : Z) : M mm Z :=
  match fuel with
  | O => fail FuelOut
  | S fuel' =>
      b ← is_black child;
      s ← get;
      if (b : bool) && negb (child =? mm_root s) then
        pn ← node_at parent;
        o ← remove_round (if n_left pn =? child then Left else Right) parent;
        match o with
        | Some (child, parent) => remove_loop fuel' child parent
        | None => gets mm_root
        end
      else mret child
  end.

Definition mm_remove (node : Z) : M mm unit :=
  n ← node_at node;
  '(nodecol, child, parent) ←
    (if negb (n_left n =? 0) && negb (n_right n =? 0) then remove_inner node else remove_outer node);
  free node;;
  if bool_decide (nodecol = IBV_RED) then mret tt
  else
    s ← get;
    child ← remove_loop (rounds s) child parent;
    set_color_if child IBV_BLACK.

Fixpoint find_start_loop (fuel : nat) (start node : Z) : M mm Z :=
  match fuel with
  | O => fail FuelOut
  | S fuel' =>
      if node =? 0 then mret node
      else
        n ← node_at node;
        if (n_start n <=? start) && (start <=? n_end n) then mret node
        else find_start_loop fuel' start (if n_start n <? start then n_right n else n_left n)
  end.

Definition mm_find_start (start : Z) : M mm Z :=
  s ← get; find_start_loop (rounds s) start (mm_root s).

(** ** Trees and contexts *)

Record range : Set := mk_range { r_start : Z; r_end : Z; r_cnt : Z }.

Inductive tree : Set :=
| Leaf
| Node (c : color) (l : tree) (a : Z) (x : range) (r : tree).

Definition root (t : tree) : Z := match t with Leaf => 0 | Node _ _ a _ _ => a end.
Definition tcolor (t : tree) : color := match t with Leaf => IBV_BLACK | Node c _ _ _ _ => c end.

(** In order: the address of each node with its range. *)
Fixpoint items (t : tree) : list (Z * range) :=
  match t with Leaf => [] | Node _ l a x r => items l ++ (a, x) :: items r end.

Definition addrs (t : tree) : list Z := (items t).*1.

(** A node with [t1] on side [d]. *)
Definition mk (d : dir) (c : color) (t1 : tree) (a : Z) (x : range) (t2 : tree) : tree :=
  match d with Left => Node c t1 a x t2 | Right => Node c t2 a x t1 end.

(** The way from a subtree to the root: at each step the node above, on which side of it
    the subtree hangs, and its other subtree. *)
Record frame : Set := mk_frame { f_dir : dir; f_color : color; f_addr : Z; f_range : range; f_sib : tree }.

Definition fill (f : frame) (t : tree) : tree := mk (f_dir f) (f_color f) t (f_addr f) (f_range f) (f_sib f).

Fixpoint plug (K : list frame) (t : tree) : tree := match K with [] => t | f :: K' => plug K' (fill f t) end.

Definition above (K : list frame) : Z := match K with [] => 0 | f :: _ => f_addr f end.

Fixpoint top (K : list frame) (r : Z) : Z := match K with [] => r | f :: K' => top K' (f_addr f) end.

Definition addrsK (K : list frame) : list Z := K ≫= (fun f => f_addr f :: addrs (f_sib f)).

(** The items before and after the subtree. *)
Fixpoint before (K : list frame) : list (Z * range) :=
  match K with
  | [] => []
  | f :: K' => before K' ++ match f_dir f with Left => [] | Right => items (f_sib f) ++ [(f_addr f, f_range f)] end
  end.

Fixpoint after (K : list frame) : list (Z * range) :=
  match K with
  | [] => []
  | f :: K' => match f_dir f with Left => (f_addr f, f_range f) :: items (f_sib f) | Right => [] end ++ after K'
  end.

Lemma mk_flip d c t1 a x t2 : mk d c t1 a x t2 = mk (flip d) c t2 a x t1.
Proof. by destruct d. Qed.

Lemma flip_flip d : flip (flip d) = d.
Proof. by destruct d. Qed.

Lemma root_mk d c t1 a x t2 : root (mk d c t1 a x t2) = a.
Proof. by destruct d. Qed.

Lemma root_plug K : forall t, root (plug K t) = top K (root t).
Proof. induction K as [|f K IH]; intros t; [done|]. cbn. rewrite IH. unfold fill. by rewrite root_mk. Qed.

Lemma plug_app K1 : forall K2 t, plug (K1 ++ K2) t = plug K2 (plug K1 t).
Proof. induction K1 as [|f K1 IH]; intros K2 t; [done|]. cbn. apply IH. Qed.

Lemma items_plug K : forall t, items (plug K t) = before K ++ items t ++ after K.
Proof.
  induction K as [|f K IH]; intros t; cbn [plug before after]; [by rewrite app_nil_r|].
  rewrite IH. unfold fill, mk. destruct (f_dir f); cbn [items]; by rewrite <- ?app_assoc.
Qed.

Lemma addrs_mk d c t1 a x t2 : addrs (mk d c t1 a x t2) ≡ₚ a :: addrs t1 ++ addrs t2.
Proof.
  unfold addrs. destruct d; cbn [mk items]; rewrite fmap_app, fmap_cons; cbn [fst].
  - by rewrite Permutation_middle.
  - rewrite <- Permutation_middle. by rewrite (Permutation_app_comm (items t1).*1).
Qed.

Lemma addrsK_cons f K : addrsK (f :: K) = f_addr f :: addrs (f_sib f) ++ addrsK K.
Proof. done. Qed.

Lemma addrs_fill f t K : addrs (fill f t) ++ addrsK K ≡ₚ addrs t ++ addrsK (f :: K).
Proof.
  unfold fill. rewrite addrs_mk, addrsK_cons. cbn [app]. by rewrite <- Permutation_middle, app_assoc.
Qed.

Lemma addrs_plug K : forall t, addrs (plug K t) ≡ₚ addrs t ++ addrsK K.
Proof.
  induction K as [|f K IH]; intros t; cbn [plug]; [by rewrite app_nil_r|]. by rewrite IH, addrs_fill.
Qed.

(** ** Trees in the heap *)

Definition node_of (d : dir) (c : color) (par p1 p2 : Z) (x : range) : ibv_mem_node :=
  match d with
  | Left => mk_node c par p1 p2 (r_start x) (r_end x) (r_cnt x)
  | Right => mk_node c par p2 p1 (r_start x) (r_end x) (r_cnt x)
  end.

Fixpoint rep (h : gmap Z ibv_mem_node) (par : Z) (t : tree) : Prop :=
  match t with
  | Leaf => True
  | Node c l a x r =>
      a <> 0 /\ h !! a = Some (node_of Left c par (root l) (root r) x) /\ rep h a l /\ rep h a r
  end.

(** The nodes above a subtree whose root is at [r]. *)
Fixpoint repK (h : gmap Z ibv_mem_node) (K : list frame) (r : Z) : Prop :=
  match K with
  | [] => True
  | f :: K' =>
      f_addr f <> 0 /\
      h !! f_addr f = Some (node_of (f_dir f) (f_color f) (above K') r (root (f_sib f)) (f_range f)) /\
      rep h (f_addr f) (f_sib f) /\ repK h K' (f_addr f)
  end.

Record wf (s : mm) (K : list frame) (t : tree) : Prop := {
  w_root : mm_root s = top K (root t);
  w_rep : rep (nodes s) (above K) t;
  w_ctx : repK (nodes s) K (root t);
  w_dup : NoDup (addrs t ++ addrsK K);
  w_dom : forall p, is_Some (nodes s !! p) <-> p ∈ addrs t ++ addrsK K }.

Section rep_lemmas.
Implicit Types (h : gmap Z ibv_mem_node) (K : list frame) (t : tree) (s : mm).

Lemma rep_mk h par d c t1 a x t2 :
  rep h par (mk d c t1 a x t2) <->
  a <> 0 /\ h !! a = Some (node_of d c par (root t1) (root t2) x) /\ rep h a t1 /\ rep h a t2.
Proof. destruct d; cbn; naive_solver. Qed.

Lemma rep_nonzero h par t p : rep h par t -> p ∈ addrs t -> p <> 0.
Proof.
  unfold addrs. revert par. induction t as [|c l IHl a x r IHr]; intros par; cbn [rep items]; [intros _ Hp; by apply elem_of_nil in Hp|].
  intros (Ha & _ & Hl & Hr). rewrite fmap_app, fmap_cons, elem_of_app, elem_of_cons. cbn.
  intros [?|[->|?]]; [by eapply IHl|done|by eapply IHr].
Qed.

Lemma repK_nonzero h K r p : repK h K r -> p ∈ addrsK K -> p <> 0.
Proof.
  revert r. induction K as [|f K IH]; intros r; [intros _ Hp; by apply elem_of_nil in Hp|].
  intros (Ha & _ & Hs & HK). rewrite addrsK_cons, elem_of_cons, elem_of_app.
  intros [->|[?|?]]; [done|by eapply rep_nonzero|by eapply IH].
Qed.

Lemma root_in t : root t <> 0 -> root t ∈ addrs t.
Proof. destruct t as [|c l a x r]; [done|]. intros _. unfold addrs. cbn. rewrite fmap_app, fmap_cons. cbn. set_solver. Qed.

Lemma rep_root h par t : rep h par t -> root t = 0 -> t = Leaf.
Proof. destruct t; [done|]. by intros (? & _). Qed.

(** A subtree only depends on its own nodes. *)
Lemma rep_ext h h' par t : (forall p, p ∈ addrs t -> h' !! p = h !! p) -> rep h par t -> rep h' par t.
Proof.
  revert par. induction t as [|c l IHl a x r IHr]; intros par; cbn [rep]; [done|]. unfold addrs. cbn [items].
  rewrite fmap_app, fmap_cons. cbn [fst]. intros He (Ha & Hn & Hl & Hr). split_and!; [done| | |].
  - rewrite He; [done|set_solver].
  - apply IHl; [|done]. intros p Hp. apply He. set_solver.
  - apply IHr; [|done]. intros p Hp. apply He. set_solver.
Qed.

(** The same with another parent for its root. *)
Lemma rep_reparent h h' par par' t :
  (forall p, p ∈ addrs t -> p <> root t -> h' !! p = h !! p) ->
  (t <> Leaf -> h' !! root t = with_parent par' <$> h !! root t) -> NoDup (addrs t) ->
  rep h par t -> rep h' par' t.
Proof.
  destruct t as [|c l a x r]; [done|]. cbn [rep root]. unfold addrs. cbn [items]. rewrite fmap_app, fmap_cons. cbn [fst].
  intros He Hr Hd (Ha & Hn & Hl & Hrr). apply NoDup_app in Hd as (Hdl & Hlr & Hd). apply NoDup_cons in Hd as [Har Hdr].
  split_and!; [done| | |].
  - by rewrite Hr, Hn.
  - eapply rep_ext; [|exact Hl]. intros p Hp. apply He; [set_solver|]. intros ->. apply (Hlr a Hp). set_solver.
  - eapply rep_ext; [|exact Hrr]. intros p Hp. apply He; [set_solver|]. by intros ->.
Qed.

Lemma repK_ext h h' K r : (forall p, p ∈ addrsK K -> h' !! p = h !! p) -> repK h K r -> repK h' K r.
Proof.
  revert r. induction K as [|f K IH]; intros r; [done|]. unfold addrsK. cbn [mbind list_bind repK].
  intros He (Ha & Hn & Hs & HK). split_and!; [done| | |].
  - rewrite He; [done|set_solver].
  - eapply rep_ext; [|exact Hs]. intros p Hp. apply He. set_solver.
  - apply IH; [|done]. intros p Hp. apply He. set_solver.
Qed.

(** The same with another subtree. *)
Lemma repK_rehole h h' K r r' :
  (forall p, p ∈ addrsK K -> p <> above K -> h' !! p = h !! p) ->
  (forall f K', K = f :: K' -> h' !! f_addr f = with_child (f_dir f) r' <$> h !! f_addr f) -> NoDup (addrsK K) ->
  repK h K r -> repK h' K r'.
Proof.
  destruct K as [|f K]; [done|]. unfold addrsK. cbn [mbind list_bind repK above]. fold (addrsK K).
  intros He Hr Hd (Ha & Hn & Hs & HK). cbn [app] in Hd. apply NoDup_cons in Hd as [Hni Hd]. split_and!; [done| | |].
  - rewrite (Hr f K eq_refl), Hn. by destruct (f_dir f).
  - eapply rep_ext; [|exact Hs]. intros p Hp. apply He; [set_solver|]. intros ->. apply Hni. set_solver.
  - eapply repK_ext; [|exact HK]. intros p Hp. apply He; [set_solver|]. intros ->. apply Hni. set_solver.
Qed.

(** Moving the focus. *)
Lemma wf_up s f K t : wf s (f :: K) t <-> wf s K (fill f t).
Proof.
  pose proof (addrs_fill f t K) as Hp.
  split; intros [Hr Hrep HK Hd Hdom]; unfold fill in *; rewrite ?root_mk in *.
  - cbn [repK above top] in *. destruct HK as (Ha & Hn & Hs & HK). split; rewrite ?root_mk; try done.
    + apply rep_mk. done.
    + by rewrite Hp.
    + intros p. by rewrite Hp.
  - apply rep_mk in Hrep as (Ha & Hn & H1 & H2). split; try done.
    + by rewrite <- Hp.
    + intros p. by rewrite <- Hp.
Qed.

Lemma wf_plug s K t : wf s K t <-> wf s [] (plug K t).
Proof. revert t. induction K as [|f K IH]; intros t; [done|]. rewrite wf_up. apply IH. Qed.

End rep_lemmas.

(** ** Running the code on a tree *)

(** Membership in appended lists. *)
Ltac mem := repeat rewrite ?elem_of_app, ?elem_of_cons, ?elem_of_nil in *; tauto.

Lemma wp_node_at s p n (Q : ibv_mem_node -> mm -> Prop) : p <> 0 -> nodes s !! p = Some n -> Q n s -> wp (node_at p) Q s.
Proof. intros Hp Hn HQ. unfold wp, node_at, get, mbind, M_bind. by rewrite (proj2 (Z.eqb_neq _ _) Hp), Hn. Qed.

Lemma wp_upd_node s p n f (Q : unit -> mm -> Prop) :
  p <> 0 -> nodes s !! p = Some n -> Q tt (mk_mm (mm_root s) (<[p := f n]> (nodes s))) -> wp (upd p f) Q s.
Proof. intros Hp Hn HQ. unfold upd. apply wp_bind. eapply wp_node_at; [done|exact Hn|exact HQ]. Qed.

(** A lookup in an updated heap, and the steps of straight-line code. *)
Ltac heap_lookup :=
  cbn [nodes mm_root]; repeat first [rewrite lookup_insert_eq | rewrite lookup_insert_ne by congruence];
  first [eassumption | reflexivity].

Ltac heap_step :=
  match goal with
  | |- wp (mbind _ _) _ _ => apply wp_bind
  | |- wp (node_at _) _ _ => eapply wp_node_at; [assumption | heap_lookup |]
  | |- wp (upd _ _) _ _ => eapply wp_upd_node; [assumption | heap_lookup |]
  | |- wp (when _ _) _ _ => apply wp_when
  | |- wp (mret _) _ _ => apply wp_ret
  | |- wp (set_root _) _ _ => apply wp_modify
  end; cbn [n_color n_parent n_left n_right n_start n_end n_refcnt child with_child with_parent with_left with_right
    with_color flip node_of mm_root nodes negb].

Lemma node_insert_is_Some (h : gmap Z ibv_mem_node) i n p : is_Some (h !! i) -> is_Some (<[i := n]> h !! p) <-> is_Some (h !! p).
Proof. intros Hi. rewrite lookup_insert_is_Some'. split; [intros [<-|?]; done|tauto]. Qed.

Ltac heap_dom := repeat (rewrite node_insert_is_Some; [|solve [eexists; heap_lookup]]); done.

Section run.
Implicit Types (h : gmap Z ibv_mem_node) (K : list frame) (t : tree) (s : mm).

Lemma wf_refocus s K t K' t' : wf s K t -> plug K t = plug K' t' -> wf s K' t'.
Proof. rewrite (wf_plug s K t), (wf_plug s K' t'). by intros Hw <-. Qed.

(** What is known of the node in focus. *)
Lemma wf_node s K d c t1 a x t2 :
  wf s K (mk d c t1 a x t2) -> a <> 0 /\ nodes s !! a = Some (node_of d c (above K) (root t1) (root t2) x).
Proof. intros [_ Hr _ _ _]. apply rep_mk in Hr. tauto. Qed.

Lemma wp_focus s K d c t1 a x t2 (Q : ibv_mem_node -> mm -> Prop) :
  wf s K (mk d c t1 a x t2) -> Q (node_of d c (above K) (root t1) (root t2) x) s -> wp (node_at a) Q s.
Proof. intros Hw HQ. destruct (wf_node _ _ _ _ _ _ _ _ Hw). by eapply wp_node_at. Qed.

(** Changing the color or the range of the node in focus. *)
Lemma wf_update s K d c t1 a x t2 c' x' :
  wf s K (mk d c t1 a x t2) ->
  wf (mk_mm (mm_root s) (<[a := node_of d c' (above K) (root t1) (root t2) x']> (nodes s))) K (mk d c' t1 a x' t2).
Proof.
  intros [Hr Hrep HK Hd Hdom]. assert (Hp : forall y z, addrs (mk d y t1 a z t2) ≡ₚ a :: addrs t1 ++ addrs t2) by (intros; apply addrs_mk).
  rewrite Hp in Hd. cbn [app] in Hd. apply NoDup_cons in Hd as [Hni Hd]. apply rep_mk in Hrep as (Ha & Hn & H1 & H2).
  rewrite root_mk in *. split; rewrite ?root_mk; cbn [nodes mm_root]; [done| | | |].
  - apply rep_mk. rewrite lookup_insert_eq. split_and!; [done|done| |]; (eapply rep_ext; [|eassumption]); intros p Hpp;
      rewrite lookup_insert_ne; [done|set_solver|done|set_solver].
  - eapply repK_ext; [|exact HK]. intros p Hpp. rewrite lookup_insert_ne; [done|set_solver].
  - rewrite Hp. cbn [app]. apply NoDup_cons. by split.
  - intros p. rewrite Hp, <- (Hp c x), <- Hdom, lookup_insert_is_Some'. split; [|tauto]. intros [<-|?]; [by eexists|done].
Qed.

Lemma wp_color s K d c t1 a x t2 c' (Q : unit -> mm -> Prop) :
  wf s K (mk d c t1 a x t2) -> (forall s', wf s' K (mk d c' t1 a x t2) -> Q tt s') -> wp (upd a (with_color c')) Q s.
Proof.
  intros Hw HQ. destruct (wf_node _ _ _ _ _ _ _ _ Hw) as [Ha Hn]. eapply wp_upd_node; [done|exact Hn|]. apply HQ.
  pose proof (wf_update s K d c t1 a x t2 c' x Hw) as Hu. by destruct d.
Qed.

(** [p && p->color == IBV_RED] of a subtree. *)
Lemma wp_is_red s K t (Q : bool -> mm -> Prop) :
  wf s K t -> Q (bool_decide (tcolor t = IBV_RED)) s -> wp (is_red (root t)) Q s.
Proof.
  intros Hw HQ. unfold is_red. destruct t as [|c l a x r]; [done|]. cbn [root tcolor] in *.
  destruct (wf_node s K Left c l a x r Hw) as [Ha Hn]. rewrite (proj2 (Z.eqb_neq _ _) Ha). apply wp_bind.
  by eapply wp_node_at.
Qed.

(** *** Rotations *)

(** The heap after a rotation at [a], which pulled up [b] and moved [y] across. *)
Lemma wf_rotated s s' K d c c1 y b xb z' a xa z :
  wf s K (mk (flip d) c (mk d c1 y b xb z') a xa z) ->
  nodes s' !! a = Some (node_of (flip d) c b (root y) (root z) xa) ->
  nodes s' !! b = Some (node_of d c1 (above K) a (root z') xb) ->
  (y <> Leaf -> nodes s' !! root y = with_parent a <$> nodes s !! root y) ->
  (forall f K', K = f :: K' -> nodes s' !! f_addr f = with_child (f_dir f) b <$> nodes s !! f_addr f) ->
  (forall p, p <> 0 -> p <> a -> p <> b -> p <> root y -> p <> above K -> nodes s' !! p = nodes s !! p) ->
  (forall p, is_Some (nodes s' !! p) <-> is_Some (nodes s !! p)) ->
  mm_root s' = top K b ->
  wf s' K (mk d c1 (mk (flip d) c y a xa z) b xb z').
Proof.
  intros [Hr Hrep HK Hd Hdom] Ha Hb Hy Hf Hrest Hsome Hroot.
  set (A := addrs (mk (flip d) c (mk d c1 y b xb z') a xa z)) in *.
  assert (HA : A ≡ₚ a :: b :: addrs y ++ addrs z' ++ addrs z).
  { unfold A. by rewrite addrs_mk, addrs_mk; cbn [app]; rewrite <- app_assoc. }
  assert (HA' : addrs (mk d c1 (mk (flip d) c y a xa z) b xb z') ≡ₚ A).
  { rewrite HA, addrs_mk, addrs_mk. cbn [app]. rewrite perm_swap, <- app_assoc. by rewrite (Permutation_app_comm (addrs z)). }
  assert (Hnz : forall p, p ∈ A -> p <> 0) by (intros p Hp; exact (rep_nonzero _ _ _ _ Hrep Hp)).
  apply rep_mk in Hrep as (Ha0 & Hna & Hrb & Hrz). apply rep_mk in Hrb as (Hb0 & Hnb & Hry & Hrz'). rewrite !root_mk in *.
  assert (Hdup : NoDup (a :: b :: addrs y ++ addrs z' ++ addrs z ++ addrsK K)).
  { rewrite HA in Hd. cbn [app] in Hd. by rewrite <- !app_assoc in Hd. }
  assert (Hin : forall p, p ∈ addrs y ++ addrs z' ++ addrs z -> p ∈ A) by (intros p Hp; rewrite HA; do 2 apply list_elem_of_further; done).
  assert (HnzK : K <> [] -> above K <> 0) by (destruct K as [|f K]; [done|intros _; cbn in HK |- *; tauto]).
  assert (HinK : K <> [] -> above K ∈ addrsK K) by (destruct K as [|f K]; [done|intros _; rewrite addrsK_cons; set_solver]).
  assert (Hout : forall p, p ∈ addrs y ++ addrs z' ++ addrs z -> p <> above K /\ p <> a /\ p <> b).
  { intros p Hp. apply NoDup_cons in Hdup as [Hni Hdup]. apply NoDup_cons in Hdup as [Hni' Hdup].
    split_and!; [|intros ->; apply Hni; mem|intros ->; apply Hni'; mem]. intros ->. destruct K as [|f K]; [by apply (Hnz 0); [apply Hin|]|].
    rewrite (app_assoc (addrs z')), (app_assoc (addrs y)) in Hdup. apply NoDup_app in Hdup as (_ & Hdj & _).
    apply (Hdj (above (f :: K))); [done|by apply HinK]. }
  assert (Hyz : forall p, p ∈ addrs z' ++ addrs z -> p <> root y).
  { intros p Hp ->. apply NoDup_cons in Hdup as [_ Hdup]. apply NoDup_cons in Hdup as [_ Hdup].
    apply NoDup_app in Hdup as (_ & Hdj & _). apply (Hdj (root y)); [|mem].
    apply root_in. apply Hnz, Hin. mem. }
  split; rewrite ?root_mk; [done| | | |].
  - apply rep_mk. rewrite root_mk. split_and!; [done|done|apply rep_mk; split_and!; [done|done| |]|].
    + eapply rep_reparent; [| | |exact Hry]; [|done|].
      * intros p Hp Hpy. destruct (Hout p); [mem|]. apply Hrest; [apply Hnz, Hin; mem|tauto|tauto|done|done].
      * apply NoDup_cons in Hdup as [_ Hdup]. apply NoDup_cons in Hdup as [_ Hdup]. by apply NoDup_app in Hdup as [? _].
    + eapply rep_ext; [|exact Hrz]. intros p Hp. destruct (Hout p); [mem|].
      apply Hrest; [apply Hnz, Hin; mem|tauto|tauto|apply Hyz; mem|done].
    + eapply rep_ext; [|exact Hrz']. intros p Hp. destruct (Hout p); [mem|].
      apply Hrest; [apply Hnz, Hin; mem|tauto|tauto|apply Hyz; mem|done].
  - eapply repK_rehole; [|exact Hf| |exact HK].
    + intros p Hp Hpk. apply Hrest; [exact (repK_nonzero _ _ _ _ HK Hp)| | | |done]; intros ->.
      * apply NoDup_cons in Hdup as [Hni _]. apply Hni. mem.
      * apply NoDup_cons in Hdup as [_ [Hni _]%NoDup_cons]. apply Hni. mem.
      * assert (root y <> 0) by exact (repK_nonzero _ _ _ _ HK Hp). apply NoDup_cons in Hdup as [_ [_ Hdup]%NoDup_cons].
        apply NoDup_app in Hdup as (_ & Hdj & _). apply (Hdj (root y)); [by apply root_in|mem].
    + apply NoDup_cons in Hdup as [_ [_ Hdup]%NoDup_cons]. rewrite !app_assoc in Hdup. by apply NoDup_app in Hdup as (_ & _ & ?).
  - by rewrite HA'.
  - intros p. rewrite HA', Hsome. apply Hdom.
Qed.

(** The addresses of a rotation are distinct. *)
Lemma rotate_distinct s K d c c1 y b xb z' a xa z :
  wf s K (mk (flip d) c (mk d c1 y b xb z') a xa z) ->
  a <> b /\ (root y <> 0 -> root y <> a /\ root y <> b) /\
  (above K <> 0 -> above K <> a /\ above K <> b /\ above K <> root y) /\
  (forall f K', K = f :: K' -> root (f_sib f) <> a).
Proof.
  intros [_ Hrep HK Hd _]. apply rep_mk in Hrep as (Ha0 & _). rewrite addrs_mk, addrs_mk in Hd. cbn [app] in Hd. rewrite <- !app_assoc in Hd.
  apply NoDup_cons in Hd as [Ha Hd]. apply NoDup_cons in Hd as [Hb Hd]. split; [intros ->; apply Ha; mem|].
  split_and!.
  - intros Hy%root_in. split; intros E; rewrite E in Hy; [apply Ha|apply Hb]; mem.
  - destruct K as [|f K]; [done|]. cbn [above]. intros Hf. rewrite addrsK_cons in *.
    split_and!; intros E; [apply Ha; rewrite <- E; mem|apply Hb; rewrite <- E; mem|].
    apply NoDup_app in Hd as (_ & Hdj & _). apply (Hdj (f_addr f)); [rewrite E; apply root_in; congruence|mem].
  - intros f K' ->. rewrite addrsK_cons in *. intros E. apply Ha. rewrite <- E.
    assert (root (f_sib f) ∈ addrs (f_sib f)) by (apply root_in; congruence). mem.
Qed.

Lemma wp_rotate s K d c c1 y b xb z' a xa z (Q : unit -> mm -> Prop) :
  wf s K (mk (flip d) c (mk d c1 y b xb z') a xa z) ->
  (forall s', wf s' K (mk d c1 (mk (flip d) c y a xa z) b xb z') -> Q tt s') -> wp (rotate d a) Q s.
Proof.
  intros Hw HQ. destruct (rotate_distinct _ _ _ _ _ _ _ _ _ _ _ _ Hw) as (Hab & Hy & HK & Hsib).
  pose proof (fun s' => wf_rotated s s' K d c c1 y b xb z' a xa z Hw) as Hrot.
  pose proof (w_root _ _ _ Hw) as Hroot. rewrite root_mk in Hroot.
  pose proof (w_rep _ _ _ Hw) as Hrep. apply rep_mk in Hrep as (Ha0 & Hna & Hrb & _). rewrite root_mk in Hna.
  apply rep_mk in Hrb as (Hb0 & Hnb & Hry & _). pose proof (w_ctx _ _ _ Hw) as Hctx. rewrite root_mk in Hctx.
  assert (Hfun : forall p n, nodes s !! p = Some n -> is_Some (nodes s !! p)) by (intros; by eexists).
  unfold rotate, replace_child. destruct d, y as [|cy yl ya yx yr], K as [|[df cf af xf sf] K]; cbn [flip node_of] in *;
    cbn [root rep above repK f_dir f_addr f_sib f_color f_range top] in *;
    try (pose proof (Hsib _ _ eq_refl) as Hsf; destruct df); cbn [node_of root f_sib] in *;
    try (destruct Hry as (Hy0 & Hny & _); destruct (Hy Hy0)); try (destruct Hctx as (Hf0 & Hnf & _); destruct (HK Hf0) as (? & ? & ?)).
  all: repeat (heap_step || (rewrite Z.eqb_refl; cbn [negb]) || (rewrite (proj2 (Z.eqb_neq _ _)) by assumption; cbn [negb])).
  all: apply HQ, Hrot; cbn [nodes mm_root];
    [heap_lookup | heap_lookup | intros Hl; try done; rewrite Hny; heap_lookup
    | intros f' K' E; try discriminate; injection E as <- <-; cbn [f_addr f_dir]; rewrite Hnf; heap_lookup
    | intros p Hp0 Hpa Hpb Hpy Hpk; heap_lookup
    | intros p; heap_dom
    | done].
Qed.

End run.
