(* ===== verification/RedBlack.v ===== *)
(** * The tree of memory ranges is a sorted list

    Proofs about the operations of libibverbs/memory.c modelled in [MemTree]: adding and
    removing a node keep the tree a balanced red-black tree and insert into or delete
    from the list of its ranges, and the searches find in the tree what is in the list.
    No operation reads through [NULL] or a freed node, and every loop ends within the
    number of its rounds. *)

From Stdlib Require Import ZArith Lia.
From stdpp Require Import base list gmap fin_maps sorting.
From S2P Require Import Prelude MemTree.

#[local] Open Scope Z_scope.

(** ** Red-black trees *)

(** The color of the root and the number of black nodes on every way down. *)
Inductive rb : color -> nat -> tree -> Prop :=
| rb_leaf : rb IBV_BLACK 0 Leaf
| rb_red n l a x r : rb IBV_BLACK n l -> rb IBV_BLACK n r -> rb IBV_RED n (Node IBV_RED l a x r)
| rb_black n c1 c2 l a x r : rb c1 n l -> rb c2 n r -> rb IBV_BLACK (S n) (Node IBV_BLACK l a x r).

(** A context takes a subtree whose root has the color and which has the height. *)
Inductive fits : list frame -> color -> nat -> Prop :=
| fits_top n : fits [] IBV_BLACK n
| fits_red d a x sib K n : rb IBV_BLACK n sib -> fits K IBV_RED n -> fits (mk_frame d IBV_RED a x sib :: K) IBV_BLACK n
| fits_black d a x sib K n c c' :
    rb c' n sib -> fits K IBV_BLACK (S n) -> fits (mk_frame d IBV_BLACK a x sib :: K) c n.

Definition balanced (t : tree) : Prop := exists n, rb IBV_BLACK n t.

Create HintDb rbt discriminated.
#[export] Hint Constructors rb fits : rbt.

Lemma rb_mk_red d n t1 a x t2 : rb IBV_BLACK n t1 -> rb IBV_BLACK n t2 -> rb IBV_RED n (mk d IBV_RED t1 a x t2).
Proof. destruct d; cbn; auto with rbt. Qed.

Lemma rb_mk_black d n c1 c2 t1 a x t2 : rb c1 n t1 -> rb c2 n t2 -> rb IBV_BLACK (S n) (mk d IBV_BLACK t1 a x t2).
Proof. destruct d; cbn; eauto with rbt. Qed.

#[export] Hint Resolve rb_mk_red rb_mk_black : rbt.

Lemma rb_mk_inv d c c' n t1 a x t2 :
  rb c' n (mk d c t1 a x t2) ->
  c' = c /\ match c with
  | IBV_RED => rb IBV_BLACK n t1 /\ rb IBV_BLACK n t2
  | IBV_BLACK => exists m c1 c2, n = S m /\ rb c1 m t1 /\ rb c2 m t2
  end.
Proof. destruct d; cbn; intros H; inversion H; subst; split; try done; eexists _, _, _; eauto. Qed.

Lemma rb_color c n t : rb c n t -> tcolor t = c.
Proof. by destruct 1. Qed.

Lemma fits_weaken K n : fits K IBV_RED n -> fits K IBV_BLACK n.
Proof. inversion 1; subst. eauto with rbt. Qed.

Lemma fits_plug K : forall c n t, fits K c n -> rb c n t -> balanced (plug K t).
Proof.
  induction K as [|f K IH]; intros c n t Hf Ht; inversion Hf; subst; cbn [plug fill f_dir f_color f_addr f_range f_sib].
  - by exists n.
  - eapply IH; [eassumption|]. unfold fill. cbn. auto with rbt.
  - eapply IH; [eassumption|]. unfold fill. cbn. eauto with rbt.
Qed.

Lemma unplug K : forall t, balanced (plug K t) -> exists c n, rb c n t /\ fits K c n.
Proof.
  induction K as [|[d c a x sib] K IH]; intros t Hb.
  { destruct Hb as [n Hn]. exists IBV_BLACK, n. auto with rbt. }
  destruct (IH _ Hb) as (c' & n & Hr & Hf). apply rb_mk_inv in Hr as [-> Hr]. cbn [f_color] in *.
  cbn [f_dir f_addr f_range f_sib] in *. destruct c.
  - destruct Hr. exists IBV_BLACK, n. auto with rbt.
  - destruct Hr as (m & c1 & c2 & -> & H1 & H2). exists c1, m. eauto with rbt.
Qed.

Lemma items_plug_eq K t t' : items t = items t' -> items (plug K t) = items (plug K t').
Proof. intros E. by rewrite !items_plug, E. Qed.

(** Equal up to bracketing. *)
Ltac assoc := repeat (rewrite <- app_assoc || rewrite <- app_comm_cons); reflexivity.

(** ** Adding a node *)

Section add.
Implicit Types (K : list frame) (t : tree) (s : mm).

(** The root of a sibling is another node. *)
Lemma sibling_distinct s f K t : wf s (f :: K) t -> root t <> 0 \/ root (f_sib f) <> 0 -> root (f_sib f) <> root t.
Proof.
  intros [_ _ _ Hd _] Hz E. rewrite addrsK_cons in Hd. apply NoDup_app in Hd as (_ & Hdj & _).
  assert (Ht : root t ∈ addrs t) by (apply root_in; destruct Hz; congruence).
  apply (Hdj (root t) Ht). assert (root t ∈ addrs (f_sib f)) by (rewrite <- E; apply root_in; destruct Hz; congruence). mem.
Qed.

(** On which side of the node above a subtree hangs. *)
Lemma side_test s f K t : wf s (f :: K) t -> root t <> 0 \/ root (f_sib f) <> 0 ->
  forall d, (root t =? child d (node_of (f_dir f) (f_color f) (above K) (root t) (root (f_sib f)) (f_range f))) = bool_decide (d = f_dir f).
Proof.
  intros Hw Hz d. pose proof (sibling_distinct s f K t Hw Hz) as Hs.
  destruct d, (f_dir f); cbn; try apply Z.eqb_refl; apply Z.eqb_neq; congruence.
Qed.

(** Going up, and down to one side or the other. *)
Lemma wf_rise s f K t : wf s (f :: K) t -> wf s K (fill f t).
Proof. apply wf_up. Qed.

Lemma wf_whole s K t : wf s K t -> wf s [] (plug K t).
Proof. apply wf_plug. Qed.

Lemma wf_down s K d c t1 a x t2 : wf s K (mk d c t1 a x t2) -> wf s (mk_frame d c a x t2 :: K) t1.
Proof. intros Hw. by apply wf_up. Qed.

Lemma wf_down_other s K d c t1 a x t2 : wf s K (mk d c t1 a x t2) -> wf s (mk_frame (flip d) c a x t1 :: K) t2.
Proof. rewrite mk_flip. apply wf_down. Qed.

(** What a round of the loop leaves: the next node, red, higher up. *)
Definition add_state (K : list frame) (t : tree) (node : Z) (s : mm) : Prop :=
  exists K' t' n, node = root t' /\ wf s K' t' /\ rb IBV_RED n t' /\ fits K' IBV_BLACK n /\
    items (plug K' t') = items (plug K t) /\ (length K' < length K)%nat.

(** The uncle is black: the rotations end the loop. *)
Lemma wp_add_finish s K2 d gp xg u a xa P z n (Q : Z -> mm -> Prop) K t :
  wf s (mk_frame d IBV_BLACK gp xg u :: K2) (mk d IBV_RED P a xa z) ->
  rb IBV_RED n P -> rb IBV_BLACK n z -> rb IBV_BLACK n u -> fits K2 IBV_BLACK (S n) ->
  items (plug (mk_frame d IBV_BLACK gp xg u :: K2) (mk d IBV_RED P a xa z)) = items (plug K t) -> (S (length K2) < length K)%nat ->
  (forall node s', add_state K t node s' -> Q node s') ->
  wp (upd a (with_color IBV_BLACK);; upd gp (with_color IBV_RED);; rotate (flip d) gp;; mret (root P)) Q s.
Proof.
  intros Hw HP Hz Hu HK Hit Hlen HQ. apply wp_bind. eapply wp_color; [exact Hw|]. intros s1 Hw1. apply wf_rise in Hw1.
  apply wp_bind. eapply wp_color; [exact Hw1|]. intros s2 Hw2. apply wp_bind. cbn [f_sib f_range f_dir f_addr] in Hw2.
  eapply (wp_rotate s2 K2 (flip d) IBV_RED IBV_BLACK z a xa P gp xg u).
  { rewrite flip_flip, (mk_flip (flip d)), flip_flip. exact Hw2. }
  intros s3 Hw3. rewrite flip_flip in Hw3. apply wp_ret. apply HQ. apply wf_down_other in Hw3. rewrite flip_flip in Hw3.
  exists (mk_frame d IBV_BLACK a xa (mk d IBV_RED z gp xg u) :: K2), P, n. split_and!; [done|exact Hw3|done| |rewrite <- Hit|done].
  - eapply fits_black; [|done]. by apply rb_mk_red.
  - cbn [plug]. apply items_plug_eq. unfold fill. cbn [f_dir f_color f_addr f_range f_sib].
    destruct d; cbn [mk items]; assoc.
Qed.

Lemma wp_add_rotate s K2 d df p xp sib gp xg u t n (Q : Z -> mm -> Prop) :
  let f := mk_frame df IBV_RED p xp sib in
  let g := mk_frame d IBV_BLACK gp xg u in
  wf s (f :: g :: K2) t -> rb IBV_RED n t -> rb IBV_BLACK n sib -> rb IBV_BLACK n u -> fits K2 IBV_BLACK (S n) ->
  (forall node s', add_state (f :: g :: K2) t node s' -> Q node s') ->
  wp (pn ← node_at p;
      np ← (if root t =? child (flip d) pn then rotate d p;; n ← node_at p; mret (p, n_parent n) else mret (root t, p));
      upd np.2 (with_color IBV_BLACK);; upd gp (with_color IBV_RED);; rotate (flip d) gp;; mret np.1) Q s.
Proof.
  intros f g Hw Ht Hsib Hu HK HQ. apply wp_bind. eapply (wp_focus s (g :: K2) df); [by apply wf_rise in Hw|].
  cbn beta. apply wp_bind. assert (Ht0 : root t <> 0).
  { destruct t; [by inversion Ht|]. apply (wf_node s (f :: g :: K2) Left) in Hw. tauto. }
  rewrite (side_test s f (g :: K2) t Hw (or_introl Ht0)). cbn [f_dir f]. destruct (decide (flip d = df)) as [<-|Hdf].
  - rewrite bool_decide_eq_true_2 by done. inversion Ht as [|n' l a x r Hl Hr|]; subst.
    assert (exists y z', Node IBV_RED l a x r = mk d IBV_RED y a x z' /\ rb IBV_BLACK n y /\ rb IBV_BLACK n z') as (y & z' & E & Hy & Hz).
    { destruct d; [by exists l, r|by exists r, l]. }
    rewrite E in *. cbn [root] in *. apply wp_bind. eapply (wp_rotate s (g :: K2)); [by apply wf_rise in Hw|]. intros s1 Hw1.
    apply wp_bind. eapply wp_focus; [exact (wf_down _ _ _ _ _ _ _ _ Hw1)|]. apply wp_ret. cbn [fst snd].
    replace (n_parent _) with a by (by destruct d). rewrite <- (root_mk (flip d) IBV_RED y p xp sib).
    eapply (wp_add_finish s1 K2 d gp xg u a x _ z' n Q (f :: g :: K2) (mk d IBV_RED y a x z'));
      [exact Hw1|by apply rb_mk_red|done|done|done| |cbn; lia|exact HQ].
    cbn [plug]. apply items_plug_eq. unfold fill, f, g. cbn [f_dir f_color f_addr f_range f_sib].
    destruct d; cbn [mk items flip]; assoc.
  - rewrite bool_decide_eq_false_2 by done. apply wp_ret. cbn [fst snd].
    assert (df = d) as -> by (destruct d, df; done).
    eapply (wp_add_finish s K2 d gp xg u p xp t sib n Q (f :: g :: K2) t); [by apply wf_rise in Hw|done|done|done|done|done|cbn; lia|exact HQ].
Qed.

Lemma wp_add_round s K2 d df p xp sib gp xg u t n cu (Q : Z -> mm -> Prop) :
  let f := mk_frame df IBV_RED p xp sib in
  let g := mk_frame d IBV_BLACK gp xg u in
  wf s (f :: g :: K2) t -> rb IBV_RED n t -> rb IBV_BLACK n sib -> rb cu n u -> fits K2 IBV_BLACK (S n) ->
  (forall node s', add_state (f :: g :: K2) t node s' -> Q node s') ->
  wp (add_round d (root t) p gp) Q s.
Proof.
  intros f g Hw Ht Hsib Hu HK HQ. pose proof Hw as Hg. apply wf_rise in Hg. pose proof Hg as Hgg. apply wf_rise in Hgg.
  unfold add_round. apply wp_bind. eapply (wp_focus s K2 d); [exact Hgg|]. cbn beta zeta.
  replace (child (flip d) _) with (root u) by (by destruct d). apply wp_bind.
  eapply (wp_is_red s (mk_frame (flip d) IBV_BLACK gp xg (fill f t) :: K2)); [exact (wf_down_other _ _ _ _ _ _ _ _ Hgg)|].
  rewrite (rb_color _ _ _ Hu). destruct cu; cbn [bool_decide].
  - rewrite bool_decide_eq_true_2 by done. inversion Hu as [|n' ul ua ux ur Hul Hur|]; subst. cbn [root].
    apply wp_bind. eapply (wp_color s (g :: K2)); [exact Hg|]. intros s1 Hw1. apply wf_rise in Hw1. apply wf_down_other in Hw1.
    apply wp_bind. eapply (wp_color s1 _ Left IBV_RED ul ua ux ur IBV_BLACK); [exact Hw1|]. intros s2 Hw2. apply wf_rise in Hw2.
    apply wp_bind. eapply wp_color; [exact Hw2|]. intros s3 Hw3. apply wp_ret. apply HQ.
    exists K2, (mk d IBV_RED (mk df IBV_BLACK t p xp sib) gp xg (Node IBV_BLACK ul ua ux ur)), (S n).
    cbn [f_dir f_color f_addr f_range f_sib] in Hw3. rewrite (mk_flip (flip d)), flip_flip in Hw3.
    split_and!; [by rewrite root_mk|exact Hw3| |done| |cbn; lia].
    + apply rb_mk_red; [by eapply rb_mk_black|by eapply (rb_mk_black Left)].
    + cbn [plug]. apply items_plug_eq. by destruct d, df.
  - rewrite bool_decide_eq_false_2 by done. by eapply wp_add_rotate.
Qed.

(** Every node is on the way up at most once. *)
Lemma wf_size s K t : wf s K t -> size (nodes s) = length (addrs t ++ addrsK K).
Proof.
  intros [_ _ _ Hd Hdom]. rewrite <- (size_list_to_set (C := gset Z)) by done. rewrite <- size_dom. f_equal.
  apply set_eq. intros p. rewrite elem_of_dom, elem_of_list_to_set. apply Hdom.
Qed.

Lemma wf_depth s K t : wf s K t -> (length K <= size (nodes s))%nat.
Proof.
  intros Hw. rewrite (wf_size _ _ _ Hw), length_app. clear Hw. induction K as [|f K IH]; [cbn; lia|].
  rewrite addrsK_cons. cbn. rewrite length_app. lia.
Qed.

(** The loop: the tree has the same items and is balanced up to the color of its root. *)
Lemma wp_add_loop fuel : forall s K t n (Q : unit -> mm -> Prop),
  (length K < fuel)%nat -> wf s K t -> rb IBV_RED n t -> fits K IBV_BLACK n ->
  (forall s' T c m, wf s' [] T -> rb c m T -> items T = items (plug K t) -> Q tt s') ->
  wp (add_loop fuel (root t)) Q s.
Proof.
  induction fuel as [|fuel IH]; intros s K t n Q Hl Hw Ht HK HQ; [lia|]. cbn [add_loop].
  inversion Ht as [|n' l a x r Hlt Hrt|]; subst. apply wp_bind. eapply (wp_focus s K Left IBV_RED l a x r); [exact Hw|].
  cbn [node_of n_parent]. apply wp_bind. destruct K as [|f K1].
  { cbn [above]. apply wp_ret. apply wp_ret. by eapply HQ. }
  cbn [above]. pose proof Hw as Hp. apply wf_rise in Hp.
  assert (Er : root (fill f (Node IBV_RED l a x r)) = f_addr f) by (unfold fill; by rewrite root_mk).
  rewrite <- Er. eapply wp_is_red; [exact Hp|]. inversion HK as [|d p xp sib K' n' Hsib HK1|d p xp sib K' n' c c' Hsib HK1]; subst.
  - replace (tcolor _) with IBV_RED by (by destruct d). rewrite bool_decide_eq_true_2 by done. rewrite Er. cbn [f_addr] in *.
    inversion HK1 as [| |dg gp xg u K2 n'' c c' Hu HK2]; subst. apply wp_bind. eapply wp_focus; [exact Hp|].
    replace (n_parent _) with gp by (by destruct d). cbn zeta. apply wp_bind. pose proof Hp as Hg. apply wf_rise in Hg.
    eapply wp_focus; [exact Hg|]. cbn [f_dir f_addr f_range f_sib f_color] in *.
    pose proof (side_test _ _ _ _ Hp) as Hside. rewrite Er in Hside. cbn [f_dir f_addr f_range f_sib f_color] in Hside.
    assert (Hp0 : p <> 0) by (apply wf_node in Hp; tauto). specialize (Hside (or_introl Hp0) Left). cbn [child] in Hside. rewrite Er.
    rewrite Hside. apply wp_bind. replace (if bool_decide (Left = dg) then Left else Right) with dg by (by destruct dg).
    eapply wp_add_round; [exact Hw|exact Ht|exact Hsib|exact Hu|exact HK2|].
    intros node s' (K' & t' & m & -> & Hw' & Ht' & HK' & Hit & Hlen). cbn [length] in *.
    eapply (IH s' K' t' m); [lia|exact Hw'|exact Ht'|exact HK'|]. intros s'' T c m' HwT HrT HiT. eapply HQ; [exact HwT|exact HrT|by rewrite HiT].
  - replace (tcolor _) with IBV_BLACK by (by destruct d). rewrite bool_decide_eq_false_2 by done. apply wp_ret.
    destruct (fits_plug _ _ _ _ (fits_black d p xp sib K1 n IBV_RED c' Hsib HK1) Ht) as [m Hm].
    eapply HQ; [|exact Hm|done]. by apply wf_plug in Hw.
Qed.

Lemma wp_blacken_root s T c m (Q : unit -> mm -> Prop) :
  wf s [] T -> rb c m T -> T <> Leaf ->
  (forall s' T', wf s' [] T' -> balanced T' -> items T' = items T -> Q tt s') -> wp blacken_root Q s.
Proof.
  intros Hw HT HT0 HQ. unfold blacken_root. apply wp_bind, wp_get. rewrite (w_root _ _ _ Hw).
  destruct T as [|c' l a x r]; [done|]. eapply (wp_color s [] Left); [exact Hw|]. intros s' Hw'. eapply HQ; [exact Hw'| |done].
  inversion HT; subst; eexists; by eapply (rb_mk_black Left).
Qed.

(** *** Where a node is added *)

Definition starts_before (start : Z) (i : Z * range) : Prop := r_start i.2 < start.

(** The ranges in order. *)
Definition sorted (l : list (Z * range)) : Prop := StronglySorted (fun i j => r_start i.2 < r_start j.2) l.

Lemma sorted_app l1 l2 :
  sorted (l1 ++ l2) <-> sorted l1 /\ sorted l2 /\ forall i j, i ∈ l1 -> j ∈ l2 -> r_start i.2 < r_start j.2.
Proof.
  unfold sorted. induction l1 as [|i l1 IH]; cbn [app].
  - split; [intros H; split_and!; [constructor|done|intros i j Hi; by apply elem_of_nil in Hi]|by intros (_ & ? & _)].
  - split.
    + intros H. apply StronglySorted_inv in H as [H Hi]. apply IH in H as (H1 & H2 & H3). rewrite Forall_app in Hi.
      destruct Hi as [Hi1 Hi2]. split_and!; [by constructor|done|]. intros i' j [->|Hi']%elem_of_cons Hj; [|by apply H3].
      rewrite list.Forall_forall in Hi2. by apply Hi2.
    + intros (H1 & H2 & H3). apply StronglySorted_inv in H1 as [H1 Hi]. constructor.
      * apply IH. split_and!; [done|done|]. intros i' j Hi' Hj. apply H3; [by right|done].
      * apply Forall_app. split; [done|]. apply list.Forall_forall. intros j Hj. apply H3; [by left|done].
Qed.

Lemma wp_add_search start s t : forall fuel K (Q : Z -> mm -> Prop),
  rep (nodes s) (above K) t -> (length (items t) < fuel)%nat -> sorted (items t) ->
  Forall (starts_before start) (before K) -> Forall (fun i => ~ starts_before start i) (after K) ->
  (forall K', plug K' Leaf = plug K t -> Forall (starts_before start) (before K') ->
     Forall (fun i => ~ starts_before start i) (after K') -> Q (above K') s) ->
  wp (add_search fuel start (root t) (above K)) Q s.
Proof.
  induction t as [|c l IHl a x r IHr]; intros fuel K Q Hrep Hf Hs Hb Ha HQ; (destruct fuel as [|fuel]; [lia|]); cbn [add_search root].
  { cbn. by apply HQ. }
  destruct Hrep as (Ha0 & Hn & Hl & Hr). rewrite (proj2 (Z.eqb_neq _ _) Ha0). apply wp_bind. eapply wp_node_at; [done|exact Hn|].
  cbn [node_of n_start n_left n_right items] in *. rewrite length_app in Hf. cbn [length] in Hf.
  apply sorted_app in Hs as (Hsl & Hsr & Hlr). pose proof (StronglySorted_inv Hsr) as [Hsr' Hxr].
  rewrite list.Forall_forall in Hxr. cbn in Hxr. destruct (Z.ltb_spec (r_start x) start).
  - apply (IHr fuel (mk_frame Right c a x l :: K)); [done|lia|done| |done|].
    + cbn [before f_dir f_sib f_addr f_range]. apply Forall_app. split; [done|]. apply Forall_app. split; [|by apply Forall_singleton].
      apply list.Forall_forall. intros i Hi. unfold starts_before. specialize (Hlr i (a, x) Hi (list_elem_of_here _ _)). cbn in Hlr. lia.
    + intros K' E. apply HQ. by rewrite E.
  - apply (IHl fuel (mk_frame Left c a x r :: K)); [done|lia|done|by cbn; rewrite app_nil_r| |].
    + cbn [after f_dir f_sib f_addr f_range]. apply Forall_app. split; [|done]. constructor; [unfold starts_before; cbn; lia|].
      apply list.Forall_forall. intros i Hi. unfold starts_before. specialize (Hxr i Hi). lia.
    + intros K' E. apply HQ. by rewrite E.
Qed.

(** Linking a new leaf. *)
Lemma wf_linked s f K new x par nn :
  wf s (f :: K) Leaf -> new <> 0 -> nodes s !! new = None -> nodes s !! f_addr f = Some par ->
  nn = mk_node IBV_RED (f_addr f) 0 0 (r_start x) (r_end x) (r_cnt x) ->
  wf (mk_mm (mm_root s) (<[new := nn]> (<[f_addr f := with_child (f_dir f) new par]> (nodes s)))) (f :: K) (Node IBV_RED Leaf new x Leaf).
Proof.
  intros [Hr Hrep HK Hd Hdom] Hn0 Hnew Hpar ->. cbn [app addrs items fmap list_fmap] in *.
  assert (Hni : new ∉ addrsK (f :: K)) by (rewrite <- Hdom, Hnew; by intros [? ?]).
  assert (Hfn : f_addr f <> new) by (intros <-; congruence).
  split; cbn [mm_root nodes root rep].
  - exact Hr.
  - cbn [above]. rewrite lookup_insert_eq. done.
  - eapply repK_rehole; [| | |exact HK].
    + intros p Hp Hpf. cbn [above] in Hpf. rewrite !lookup_insert_ne; [done|done|intros ->; done].
    + intros f' K' [= <- <-]. rewrite lookup_insert_ne, lookup_insert_eq by done. by rewrite Hpar.
    + done.
  - cbn. apply NoDup_cons. done.
  - intros p. rewrite lookup_insert_is_Some', node_insert_is_Some by (by eexists). rewrite Hdom.
    change (addrs (Node IBV_RED Leaf new x Leaf) ++ addrsK (f :: K)) with (new :: addrsK (f :: K)).
    rewrite (elem_of_cons (addrsK (f :: K))). split; intros [->|?]; auto.
Qed.

Lemma split_unique {A} (P : A -> Prop) l1 l2 l1' l2' :
  l1 ++ l2 = l1' ++ l2' -> Forall P l1 -> Forall (fun i => ~ P i) l2 -> Forall P l1' -> Forall (fun i => ~ P i) l2' ->
  l1 = l1' /\ l2 = l2'.
Proof.
  revert l1'. induction l1 as [|i l1 IH]; intros [|i' l1'] E H1 H2 H1' H2'; cbn in E; [done| | |].
  - subst l2. apply Forall_cons in H2 as [? _]. by apply Forall_cons in H1' as [? _].
  - subst l2'. apply Forall_cons in H2' as [? _]. by apply Forall_cons in H1 as [? _].
  - injection E as -> E. apply Forall_cons in H1 as [_ H1]. apply Forall_cons in H1' as [_ H1'].
    destruct (IH l1' E) as [-> ->]; done.
Qed.

(** The side of the last node on the way that a new one is linked to. *)
Lemma link_side f K start :
  Forall (starts_before start) (before (f :: K)) -> Forall (fun i => ~ starts_before start i) (after (f :: K)) ->
  (r_start (f_range f) <? start) = bool_decide (f_dir f = Right).
Proof.
  cbn [before after]. rewrite !Forall_app. intros [_ Hb] [Ha _]. destruct (f_dir f).
  - apply Forall_cons in Ha as [Ha _]. unfold starts_before in Ha. cbn in Ha. apply Z.ltb_ge. lia.
  - rewrite Forall_app in Hb. destruct Hb as [_ Hb]. rewrite Forall_singleton in Hb.
    rewrite bool_decide_eq_true_2 by done. by apply Z.ltb_lt.
Qed.

Lemma wp_add_link s0 f K new nn (k : unit -> M mm unit) (Q : unit -> mm -> Prop) :
  let x := mk_range (n_start nn) (n_end nn) (n_refcnt nn) in
  wf s0 (f :: K) Leaf -> new <> 0 -> nodes s0 !! new = None ->
  Forall (starts_before (n_start nn)) (before (f :: K)) -> Forall (fun i => ~ starts_before (n_start nn) i) (after (f :: K)) ->
  (forall s', wf s' (f :: K) (Node IBV_RED Leaf new x Leaf) -> wp (k tt) Q s') ->
  wp (pn ← node_at (f_addr f);
      (if n_start pn <? n_start nn then upd (f_addr f) (with_right new) else upd (f_addr f) (with_left new));;
      upd new (with_parent (f_addr f));; upd new (with_left 0);; upd new (with_right 0);; upd new (with_color IBV_RED) ≫= k)
    Q (mk_mm (mm_root s0) (<[new := nn]> (nodes s0))).
Proof.
  intros x Hw Hn0 Hnew Hb Ha HQ. pose proof (w_ctx _ _ _ Hw) as (Hf0 & Hnf & _). set (par := node_of _ _ _ _ _ _) in Hnf.
  assert (Hfn : f_addr f <> new) by (intros E; rewrite E in Hnf; congruence).
  pose proof (link_side f K (n_start nn) Hb Ha) as Hside. assert (Es : n_start par = r_start (f_range f)) by (unfold par; by destruct (f_dir f)).
  apply wp_bind. eapply wp_node_at; [done|heap_lookup|]. rewrite Es, Hside. apply wp_bind.
  assert (Hup : wp (upd (f_addr f) (with_child (f_dir f) new)) (fun _ s' => wp (upd new (with_parent (f_addr f));; upd new (with_left 0);;
    upd new (with_right 0);; upd new (with_color IBV_RED) ≫= k) Q s') (mk_mm (mm_root s0) (<[new := nn]> (nodes s0)))).
  { eapply wp_upd_node; [done|heap_lookup|]. do 4 (apply wp_bind; eapply wp_upd_node; [done|heap_lookup|]).
    cbn [mm_root nodes]. rewrite !insert_insert_eq, (insert_insert_ne _ (f_addr f) new) by done. rewrite !insert_insert_eq. apply HQ.
    eapply (wf_linked s0 f K new x par); [done|done|done|done|]. by unfold x. }
  by destruct (f_dir f).
Qed.

Lemma wp_mm_add s0 T new nn l1 l2 (Q : unit -> mm -> Prop) :
  wf s0 [] T -> T <> Leaf -> balanced T -> new <> 0 -> nodes s0 !! new = None -> sorted (items T) ->
  items T = l1 ++ l2 -> Forall (starts_before (n_start nn)) l1 -> Forall (fun i => ~ starts_before (n_start nn) i) l2 ->
  (forall s' T', wf s' [] T' -> balanced T' -> items T' = l1 ++ (new, mk_range (n_start nn) (n_end nn) (n_refcnt nn)) :: l2 -> Q tt s') ->
  wp (mm_add new) Q (mk_mm (mm_root s0) (<[new := nn]> (nodes s0))).
Proof.
  intros Hw HT Hbal Hn0 Hnew Hs Hit H1 H2 HQ. unfold mm_add. apply wp_bind, wp_get. apply wp_bind.
  eapply wp_node_at; [done|heap_lookup|]. apply wp_bind. cbn [mm_root]. rewrite (w_root _ _ _ Hw : mm_root s0 = root T) at 2.
  assert (Hni : new ∉ addrs T).
  { pose proof (w_dom _ _ _ Hw new) as Hd. rewrite Hnew, app_nil_r in Hd. intros Hin%Hd. by destruct Hin. }
  eapply (wp_add_search _ _ T _ []); [| |done|constructor|constructor|].
  - eapply rep_ext; [|exact (w_rep _ _ _ Hw)]. intros p Hp. cbn. apply lookup_insert_ne. by intros ->.
  - unfold rounds. cbn [nodes]. rewrite map_size_insert_None by done. pose proof (wf_size _ _ _ Hw) as Hz.
    unfold addrs in Hz. rewrite app_nil_r, length_fmap in Hz. lia.
  - intros [|f K] E Hb Ha; [cbn [plug] in E; congruence|]. change (plug [] T) with T in E. cbn [above].
    assert (Hwf : wf s0 (f :: K) Leaf) by (eapply wf_refocus; [exact Hw|by rewrite <- E]).
    eapply wp_add_link; [exact Hwf|done|done|done|done|]. intros s' Hw'.
    destruct (unplug (f :: K) Leaf) as (c & n & Hr & Hf); [by rewrite E|]. inversion Hr; subst c n.
    unfold mm_add_rebalance. apply wp_bind, wp_get. apply wp_bind.
    assert (Ei : items (plug (f :: K) (Node IBV_RED Leaf new (mk_range (n_start nn) (n_end nn) (n_refcnt nn)) Leaf)) =
      l1 ++ (new, mk_range (n_start nn) (n_end nn) (n_refcnt nn)) :: l2).
    { rewrite items_plug. cbn [items app]. rewrite <- E in Hit. rewrite (items_plug (f :: K)) in Hit. cbn [items app] in Hit.
      destruct (split_unique _ _ _ _ _ Hit Hb Ha H1 H2) as [-> ->]. done. }
    eapply (wp_add_loop (rounds s') s' (f :: K) (Node IBV_RED Leaf new _ Leaf) 0);
      [unfold rounds; pose proof (wf_depth _ _ _ Hw'); lia|exact Hw'|auto with rbt|done|].
    intros s'' T' c m HwT HrT HiT. rewrite Ei in HiT. eapply wp_blacken_root; [exact HwT|exact HrT| |].
    + intros ->. cbn in HiT. by destruct l1.
    + intros s3 T3 Hw3 Hb3 Hi3. eapply HQ; [exact Hw3|done|by rewrite Hi3].
Qed.

End add.

(** ** Searching *)

Section search.
Implicit Types (K : list frame) (t : tree) (s : mm).

(** The last node on one side of a subtree. *)
Lemma wp_outermost d s t : forall fuel K (Q : Z -> mm -> Prop),
  wf s K t -> t <> Leaf -> (length (items t) <= fuel)%nat ->
  (forall J c a x y, plug J (mk d c Leaf a x y) = t -> Forall (fun f => f_dir f = d) J -> wf s (J ++ K) (mk d c Leaf a x y) -> Q a s) ->
  wp (outermost fuel d (root t)) Q s.
Proof.
  assert (Hmk : forall t, t <> Leaf -> exists c t1 a x t2, t = mk d c t1 a x t2 /\ (length (items t1) < length (items t))%nat).
  { intros [|c l a x r] Ht; [done|]. cbn [items]. rewrite length_app. cbn [length].
    destruct d; [exists c, l, a, x, r|exists c, r, a, x, l]; (split; [done|lia]). }
  intros fuel. revert t. induction fuel as [|fuel IH]; intros t K Q Hw Ht Hf HQ; destruct (Hmk t Ht) as (c & t1 & a & x & t2 & -> & Hlen); [lia|].
  cbn [outermost]. rewrite root_mk. apply wp_bind. eapply wp_focus; [exact Hw|]. replace (child d _) with (root t1) by (by destruct d).
  destruct (Z.eqb_spec (root t1) 0) as [E|E].
  - apply wp_ret. pose proof (wf_down _ _ _ _ _ _ _ _ Hw) as H1. apply (rep_root _ _ _ (w_rep _ _ _ H1)) in E. subst t1.
    eapply (HQ []); [done|constructor|exact Hw].
  - eapply (IH t1); [exact (wf_down _ _ _ _ _ _ _ _ Hw)|by intros ->|lia|]. intros J c' a' x' y Hp HJ HwJ.
    eapply (HQ (J ++ [mk_frame d c a x t2])); [by rewrite plug_app, Hp|apply Forall_app; split; [done|by constructor]|].
    rewrite <- app_assoc. exact HwJ.
Qed.

Lemma rounds_items s K t : wf s K t -> (length (items t) <= rounds s)%nat.
Proof.
  intros Hw. unfold rounds. pose proof (wf_size _ _ _ Hw) as Hz. rewrite length_app in Hz. unfold addrs in Hz. rewrite length_fmap in Hz. lia.
Qed.

Lemma before_app J K : before (J ++ K) = before K ++ before J.
Proof. induction J as [|f J IH]; cbn; [by rewrite app_nil_r|]. by rewrite IH, app_assoc. Qed.

Lemma after_app J K : after (J ++ K) = after J ++ after K.
Proof. induction J as [|f J IH]; cbn; [done|]. by rewrite IH, app_assoc. Qed.

(** The node of an item. *)
Lemma focus_item T a x : forall l1 l2, items T = l1 ++ (a, x) :: l2 ->
  exists K c l r, T = plug K (Node c l a x r) /\ l1 = before K ++ items l /\ l2 = items r ++ after K.
Proof.
  induction T as [|c l IHl b y r IHr]; intros l1 l2 E; [by destruct l1|]. cbn [items] in E.
  apply app_eq_inv in E as [([|i k] & E1 & E2)|([|i k] & E1 & E2)]; cbn [app] in E2; injection E2 as E2; subst.
  - rewrite app_nil_r in E1. exists [], c, l, r. cbn. by rewrite app_nil_r.
  - destruct (IHl _ _ E1) as (K & c' & l' & r' & -> & -> & ->).
    exists (K ++ [mk_frame Left c b y r]), c', l', r'. rewrite plug_app, before_app, after_app. cbn.
    split_and!; [done|done|by rewrite app_nil_r, <- app_assoc].
  - exists [], c, l, r. cbn. by rewrite !app_nil_r.
  - destruct (IHr _ _ ltac:(eassumption)) as (K & c' & l' & r' & -> & -> & ->).
    exists (K ++ [mk_frame Right c b y l]), c', l', r'. rewrite plug_app, before_app, after_app. cbn. split_and!; [done|by rewrite <- !app_assoc|by rewrite app_nil_r].
Qed.

Lemma wf_root_nonzero s K t : wf s K t -> t <> Leaf -> root t <> 0.
Proof. intros Hw Ht. destruct t as [|c l a x r]; [done|]. apply (wf_node s K Left) in Hw. tauto. Qed.

Lemma wp_climb d s K : forall fuel t (Q : Z -> mm -> Prop),
  wf s K t -> t <> Leaf -> (length K < fuel)%nat ->
  (forall J K', K = J ++ K' -> Forall (fun f => f_dir f = d) J -> (forall f K'', K' = f :: K'' -> f_dir f = flip d) -> Q (above K') s) ->
  wp (climb fuel d (root t)) Q s.
Proof.
  induction K as [|f K IH]; intros fuel t Q Hw Ht Hf HQ; (destruct fuel as [|fuel]; [cbn in Hf; lia|]); cbn [climb]; apply wp_bind;
    destruct t as [|c l a x r]; try done; (eapply (wp_focus s _ Left c l a x r); [exact Hw|]); cbn [node_of n_parent above].
  - apply wp_ret. by apply (HQ [] []).
  - pose proof Hw as Hp. apply wf_rise in Hp. assert (Er : root (fill f (Node c l a x r)) = f_addr f) by (unfold fill; by rewrite root_mk).
    destruct (wf_node _ _ _ _ _ _ _ _ Hp) as [Hf0 _]. rewrite (proj2 (Z.eqb_neq _ _) Hf0). apply wp_bind. eapply wp_focus; [exact Hp|].
    pose proof (wf_root_nonzero _ _ _ Hw ltac:(done)) as Ha0. pose proof (side_test _ _ _ _ Hw (or_introl Ha0) d) as Hs. cbn [root] in Hs |- *.
    rewrite Hs. destruct (decide (d = f_dir f)) as [E|E].
    + rewrite bool_decide_eq_true_2 by done. rewrite <- Er. apply IH; [done|unfold fill; by destruct (f_dir f)|cbn in Hf; lia|].
      intros J K' EK HJ HK'. apply (HQ (f :: J) K'); [by rewrite EK|by constructor|done].
    + rewrite bool_decide_eq_false_2 by done. apply wp_ret. apply (HQ [] (f :: K)); [done|constructor|].
      intros f' K'' [= <- <-]. by destruct d, (f_dir f).
Qed.

Lemma before_left J : Forall (fun f => f_dir f = Left) J -> before J = [].
Proof. induction 1 as [|f J Hf HJ IH]; cbn; [done|by rewrite Hf, IH]. Qed.

Lemma after_right J : Forall (fun f => f_dir f = Right) J -> after J = [].
Proof. induction 1 as [|f J Hf HJ IH]; cbn; [done|by rewrite Hf, IH]. Qed.

(** The neighbours of a node are those of its item in the list; there is none at the end. *)
Definition last_addr (l : list (Z * range)) : Z := default 0 (fst <$> last l).
Definition head_addr (l : list (Z * range)) : Z := default 0 (fst <$> head l).

Lemma wp_mm_prev s T a x l1 l2 (Q : Z -> mm -> Prop) :
  wf s [] T -> items T = l1 ++ (a, x) :: l2 -> Q (last_addr l1) s -> wp (mm_prev a) Q s.
Proof.
  intros Hw Hit HQ. destruct (focus_item _ _ _ _ _ Hit) as (K & c & l & r & -> & -> & ->).
  apply (wf_refocus _ _ _ K (Node c l a x r)) in Hw; [|done]. unfold mm_prev, neighbour. apply wp_bind, wp_get. apply wp_bind.
  eapply (wp_focus s K Left); [exact Hw|]. cbn [node_of child n_left flip]. destruct l as [|cl ll al xl rl].
  - cbn [root]. rewrite Z.eqb_refl. cbn [negb]. change a with (root (Node c Leaf a x r)). eapply wp_climb; [exact Hw|done|unfold rounds; pose proof (wf_depth _ _ _ Hw); lia|].
    intros J K' -> HJ HK'. replace (above K') with (last_addr (before (J ++ K') ++ items Leaf)); [exact HQ|].
    rewrite before_app, (before_left _ HJ), !app_nil_r. destruct K' as [|f K'']; [done|]. cbn [before above].
    rewrite (HK' f K'' eq_refl). cbn [flip]. unfold last_addr. by rewrite app_assoc, last_snoc.
  - pose proof (wf_down s K Left _ _ _ _ _ Hw) as Hl. rewrite (proj2 (Z.eqb_neq _ _) (wf_root_nonzero _ _ _ Hl ltac:(done))). cbn [negb].
    eapply wp_outermost; [exact Hl|done|exact (rounds_items _ _ _ Hl)|]. intros J c' a' x' y E HJ _. rewrite <- E, items_plug, (after_right _ HJ) in HQ.
    cbn [mk items] in HQ. unfold last_addr in HQ. by rewrite app_nil_r, !app_assoc, last_snoc in HQ.
Qed.

Lemma wp_mm_next s T a x l1 l2 (Q : Z -> mm -> Prop) :
  wf s [] T -> items T = l1 ++ (a, x) :: l2 -> Q (head_addr l2) s -> wp (mm_next a) Q s.
Proof.
  intros Hw Hit HQ. destruct (focus_item _ _ _ _ _ Hit) as (K & c & l & r & -> & -> & ->).
  apply (wf_refocus _ _ _ K (Node c l a x r)) in Hw; [|done]. unfold mm_next, neighbour. apply wp_bind, wp_get. apply wp_bind.
  eapply (wp_focus s K Left); [exact Hw|]. cbn [node_of child n_right flip]. destruct r as [|cr lr ar xr rr].
  - cbn [root]. rewrite Z.eqb_refl. cbn [negb]. change a with (root (Node c l a x Leaf)). eapply wp_climb; [exact Hw|done|unfold rounds; pose proof (wf_depth _ _ _ Hw); lia|].
    intros J K' -> HJ HK'. replace (above K') with (head_addr (items Leaf ++ after (J ++ K'))); [exact HQ|].
    rewrite after_app, (after_right _ HJ). cbn [app items]. destruct K' as [|f K'']; [done|]. cbn [after above].
    by rewrite (HK' f K'' eq_refl).
  - pose proof (wf_down_other s K Left _ _ _ _ _ Hw) as Hr. rewrite (proj2 (Z.eqb_neq _ _) (wf_root_nonzero _ _ _ Hr ltac:(done))). cbn [negb].
    eapply wp_outermost; [exact Hr|done|exact (rounds_items _ _ _ Hr)|]. intros J c' a' x' y E HJ _. rewrite <- E, items_plug, (before_left _ HJ) in HQ. exact HQ.
Qed.

End search.
