(* ===== verification/TreeRemove.v ===== *)
(** * Removing a node from the tree of memory ranges

    [__mm_remove] of libibverbs/memory.c ([MemTree.mm_remove]): a node is taken out of a
    balanced tree, or has the last node of its left subtree take its place, and the loop
    that follows makes the tree balanced again. *)

From Stdlib Require Import ZArith Lia.
From stdpp Require Import base list gmap fin_maps sorting.
From S2P Require Import Prelude MemTree RedBlack.

#[local] Open Scope Z_scope.

(** ** The loop *)

Definition blacken (t : tree) : tree := match t with Leaf => Leaf | Node _ l a x r => Node IBV_BLACK l a x r end.

(** A subtree that lacks a black node, in the context it was in. *)
Definition short (K : list frame) (t : tree) (n : nat) : Prop :=
  fits K IBV_BLACK (S n) /\ (rb IBV_BLACK n t \/ (tcolor t = IBV_RED /\ rb IBV_BLACK (S n) (blacken t))).

(** A subtree that is right once its root is black. *)
Definition settled (K : list frame) (t : tree) : Prop := exists n, rb IBV_BLACK n (blacken t) /\ fits K IBV_BLACK n.

Section remove_loop.
Implicit Types (K : list frame) (t : tree) (s : mm).

Lemma blacken_black n t : rb IBV_BLACK n t -> blacken t = t.
Proof. by inversion 1. Qed.

Lemma items_blacken t : items (blacken t) = items t.
Proof. by destruct t. Qed.

Lemma blacken_mk d c t1 a x t2 : blacken (mk d c t1 a x t2) = mk d IBV_BLACK t1 a x t2.
Proof. by destruct d. Qed.

Lemma tcolor_mk d c t1 a x t2 : tcolor (mk d c t1 a x t2) = c.
Proof. by destruct d. Qed.

(** A tree with a black node on every way down has a root. *)
Lemma rb_open d c n t : rb c n t -> (0 < n)%nat \/ c = IBV_RED -> exists t1 a x t2, t = mk d c t1 a x t2.
Proof.
  intros [|m l a x r Hl Hr|m c1 c2 l a x r Hl Hr] Hn; [destruct Hn; [lia|done]| |];
    (destruct d; [exists l, a, x, r; done|exists r, a, x, l; done]).
Qed.

Lemma wp_is_black s K t (Q : bool -> mm -> Prop) :
  wf s K t -> Q (bool_decide (tcolor t = IBV_BLACK)) s -> wp (is_black (root t)) Q s.
Proof.
  intros Hw HQ. unfold is_black. apply wp_bind. eapply wp_is_red; [exact Hw|]. apply wp_ret.
  destruct (tcolor t); exact HQ.
Qed.

Lemma wp_set_color_if s K t c (Q : unit -> mm -> Prop) :
  wf s K t -> (forall s' t', wf s' K t' -> t' = match t with Leaf => Leaf | Node _ l a x r => Node c l a x r end -> Q tt s') ->
  wp (set_color_if (root t) c) Q s.
Proof.
  intros Hw HQ. unfold set_color_if. destruct t as [|c0 l a x r]; cbn [root].
  - apply wp_ret. by eapply HQ.
  - destruct (wf_node s K Left c0 l a x r Hw) as [Ha _]. rewrite (proj2 (Z.eqb_neq _ _) Ha). cbn [negb when].
    eapply (wp_color s K Left); [exact Hw|]. intros s' Hw'. by eapply HQ.
Qed.

(** What a round leaves: the next child, one step higher or red, or a tree that is right. *)
Definition round_post (K0 : list frame) (t0 : tree) (o : option (Z * Z)) (s : mm) : Prop :=
  match o with
  | Some (ch, p) =>
      exists K t n, ch = root t /\ p = above K /\ wf s K t /\ short K t n /\ items (plug K t) = items (plug K0 t0) /\
        ((length K < length K0)%nat \/ tcolor t = IBV_RED)
  | None => exists T m, wf s [] T /\ rb IBV_BLACK m T /\ T <> Leaf /\ items T = items (plug K0 t0)
  end.

Lemma fits_inv d c p xp sib K n :
  fits (mk_frame d c p xp sib :: K) IBV_BLACK n ->
  match c with
  | IBV_RED => rb IBV_BLACK n sib /\ fits K IBV_RED n
  | IBV_BLACK => exists c', rb c' n sib /\ fits K IBV_BLACK (S n)
  end.
Proof. inversion 1; subst; eauto. Qed.

(** The sibling of a subtree that lacks a black node. *)
Lemma fits_sibling d c p xp sib K n : fits (mk_frame d c p xp sib :: K) IBV_BLACK n -> exists c', rb c' n sib.
Proof. intros H. apply fits_inv in H. destruct c; [|destruct H]; naive_solver. Qed.

Lemma wp_black_sibling s d c p xp sib K t n (Q : Z -> mm -> Prop) :
  wf s (mk_frame d c p xp sib :: K) t -> fits (mk_frame d c p xp sib :: K) IBV_BLACK (S n) ->
  (forall s' c' sib' K', wf s' (mk_frame d c' p xp sib' :: K') t -> fits (mk_frame d c' p xp sib' :: K') IBV_BLACK (S n) ->
     rb IBV_BLACK (S n) sib' -> items (plug (mk_frame d c' p xp sib' :: K') t) = items (plug (mk_frame d c p xp sib :: K) t) ->
     K' = K \/ c' = IBV_RED /\ length K' = S (length K) -> Q (root sib') s') ->
  wp (black_sibling d p) Q s.
Proof.
  intros Hw Hf HQ. destruct (fits_sibling _ _ _ _ _ _ _ Hf) as [cs Hs].
  destruct (rb_open d _ _ _ Hs) as (y & b & xb & z & ->); [left; lia|].
  pose proof Hw as Hp. apply wf_rise in Hp. unfold fill in Hp. cbn [f_dir f_color f_addr f_range f_sib] in Hp.
  unfold black_sibling. apply wp_bind. eapply wp_focus; [exact Hp|].
  replace (child (flip d) _) with b by (rewrite root_mk; by destruct d). apply wp_bind.
  eapply wp_focus; [exact (wf_down_other _ _ _ _ _ _ _ _ Hp)|]. replace (n_color _) with cs by (by destruct d).
  destruct cs.
  - rewrite bool_decide_eq_true_2 by done. destruct (rb_mk_inv _ _ _ _ _ _ _ _ Hs) as [_ [Hy Hz]].
    destruct c; [apply fits_inv in Hf as [Hs' _]; apply rb_mk_inv in Hs' as [? _]; done|].
    apply fits_inv in Hf as (c' & _ & HK). apply wp_bind. eapply wp_color; [exact Hp|]. intros s1 H1. apply wf_down_other in H1.
    apply wp_bind. eapply wp_color; [exact H1|]. intros s2 H2. apply wf_rise in H2. unfold fill in H2. cbn [f_dir f_color f_addr f_range f_sib] in H2.
    apply wp_bind. eapply wp_rotate; [exact H2|]. intros s3 H3. apply wf_down in H3. apply wp_bind. eapply wp_focus; [exact H3|].
    apply wp_ret. replace (child (flip d) _) with (root y) by (by destruct d). apply wf_down_other in H3. rewrite flip_flip in H3.
    eapply HQ; [exact H3| |exact Hy| |by right].
    + apply fits_red; [done|]. eapply fits_black; [exact Hz|]. done.
    + cbn [plug]. apply items_plug_eq. unfold fill. cbn [f_dir f_color f_addr f_range f_sib]. destruct d; cbn [mk items]; assoc.
  - rewrite bool_decide_eq_false_2 by done. apply wp_ret. rewrite <- (root_mk d IBV_BLACK y b xb z).
    eapply HQ; [exact Hw|exact Hf|exact Hs|done|by left].
Qed.

(** After the last rotation the tree is right. *)
Lemma wp_raise_sibling s d c p xp y b xb z K t n cy (Q : unit -> mm -> Prop) :
  let f := mk_frame d c p xp (mk d IBV_BLACK y b xb z) in
  wf s (f :: K) t -> fits (f :: K) IBV_BLACK (S n) -> rb IBV_BLACK n t -> rb cy n y -> rb IBV_RED n z ->
  (forall s' T m, wf s' [] T -> rb IBV_BLACK m T -> T <> Leaf -> items T = items (plug (f :: K) t) -> Q tt s') ->
  wp (raise_sibling d p b) Q s.
Proof.
  intros f Hw Hf Ht Hy Hz HQ. pose proof Hw as Hp. apply wf_rise in Hp. unfold fill in Hp. cbn [f f_dir f_color f_addr f_range f_sib] in Hp.
  unfold raise_sibling. apply wp_bind. eapply wp_focus; [exact Hp|]. replace (n_color _) with c by (by destruct d).
  apply wf_down_other in Hp. apply wp_bind. eapply wp_color; [exact Hp|]. intros s1 H1. apply wf_rise in H1.
  unfold fill in H1. cbn [f_dir f_color f_addr f_range f_sib] in H1. rewrite (mk_flip (flip d)), flip_flip in H1.
  apply wp_bind. eapply wp_color; [exact H1|]. intros s2 H2. apply wf_down_other in H2. apply wp_bind. eapply wp_focus; [exact H2|].
  replace (child (flip d) _) with (root z) by (by destruct d). apply wf_down_other in H2. apply wp_bind.
  eapply wp_set_color_if; [exact H2|]. intros s3 t' H3 Et.
  assert (Hz' : rb IBV_BLACK (S n) t' /\ items t' = items z) by (inversion Hz; subst; split; [by eapply (rb_mk_black Left)|done]).
  clear Et. destruct Hz' as [Hz' Ez]. apply wf_rise, wf_rise in H3. unfold fill in H3. cbn [f_dir f_color f_addr f_range f_sib] in H3.
  rewrite (mk_flip (flip d) c t'), flip_flip in H3. eapply wp_rotate; [exact H3|]. intros s4 H4. rewrite (mk_flip (flip d)), flip_flip in H4.
  assert (HT : balanced (plug K (mk d c (mk d IBV_BLACK t p xp y) b xb t'))).
  { unfold f in Hf. apply fits_inv in Hf. destruct c.
    - destruct Hf as [_ HK]. eapply fits_plug; [exact HK|]. apply rb_mk_red; [by eapply rb_mk_black|done].
    - destruct Hf as (c' & _ & HK). eapply fits_plug; [exact HK|]. eapply rb_mk_black; [by eapply rb_mk_black|exact Hz']. }
  destruct HT as [m Hm]. eapply HQ; [exact (wf_whole _ _ _ H4)|exact Hm| |].
  - intros E. apply (f_equal items) in E. rewrite items_plug in E. destruct d; cbn in E; rewrite <- ?app_assoc in E; by destruct (before K), (items t), (items t').
  - cbn [plug]. apply items_plug_eq. unfold fill, f. cbn [f_dir f_color f_addr f_range f_sib].
    destruct d; cbn [mk items]; rewrite Ez; assoc.
Qed.

Lemma wp_raise_nephew s d c p xp near b xb far K t n (Q : Z -> mm -> Prop) :
  let f := mk_frame d c p xp (mk d IBV_BLACK near b xb far) in
  wf s (f :: K) t -> rb IBV_RED n near -> rb IBV_BLACK n far ->
  (forall s' y e xe z, let f' := mk_frame d c p xp (mk d IBV_BLACK y e xe z) in
     wf s' (f' :: K) t -> rb IBV_BLACK n y -> rb IBV_RED n z -> items (plug (f' :: K) t) = items (plug (f :: K) t) -> Q e s') ->
  wp (raise_nephew d p b) Q s.
Proof.
  intros f Hw Hn Hfar HQ. destruct (rb_open (flip d) _ _ _ Hn) as (y & e & xe & z & ->); [by right|].
  apply rb_mk_inv in Hn as [_ [Hy Hz]]. pose proof Hw as Hp. apply wf_rise in Hp. unfold fill in Hp. cbn [f f_dir f_color f_addr f_range f_sib] in Hp.
  apply wf_down_other in Hp. unfold raise_nephew. apply wp_bind. eapply wp_focus; [exact Hp|].
  replace (child d _) with (root (mk (flip d) IBV_RED y e xe z)) by (by destruct d). apply wf_down in Hp. apply wp_bind.
  eapply wp_set_color_if; [exact Hp|]. intros s1 t' H1 Et.
  assert (t' = mk (flip d) IBV_BLACK y e xe z) as -> by (by destruct d). clear Et. apply wf_rise in H1.
  apply wp_bind. eapply wp_color; [exact H1|]. intros s2 H2. cbn [f_dir f_color f_addr f_range f_sib] in H2.
  apply wp_bind. eapply (wp_rotate s2 _ (flip d)); [rewrite flip_flip; exact H2|]. intros s3 H3. rewrite flip_flip in H3.
  apply wf_rise in H3. unfold fill in H3. cbn [f_dir f_color f_addr f_range f_sib] in H3. apply wp_bind. eapply wp_focus; [exact H3|].
  apply wp_ret. replace (child (flip d) _) with e by (rewrite root_mk; by destruct d).
  rewrite (mk_flip (flip d) IBV_BLACK), flip_flip in H3. apply wf_down_other in H3. rewrite flip_flip in H3.
  eapply HQ; [exact H3|exact Hz|by apply rb_mk_red|].
  cbn [plug]. apply items_plug_eq. unfold fill, f. cbn [f_dir f_color f_addr f_range f_sib]. destruct d; cbn [flip mk items]; assoc.
Qed.

(** Both nephews are black: the sibling becomes red, and the node above lacks a black
    node. *)
Lemma short_up d c p xp y b xb z K t n :
  fits (mk_frame d c p xp (mk d IBV_BLACK y b xb z) :: K) IBV_BLACK (S n) -> rb IBV_BLACK n t -> rb IBV_BLACK n y -> rb IBV_BLACK n z ->
  short K (mk d c t p xp (mk d IBV_RED y b xb z)) (if c is IBV_RED then n else S n).
Proof.
  intros Hf Ht Hy Hz. pose proof (rb_mk_red d n y b xb z Hy Hz) as Hs.
  pose proof (rb_mk_black d n _ _ t p xp _ Ht Hs) as HB. apply fits_inv in Hf. unfold short. rewrite blacken_mk, tcolor_mk.
  destruct c; [destruct Hf as [_ HK]; apply fits_weaken in HK; auto|]. destruct Hf as (c' & _ & HK). auto.
Qed.

Lemma wp_remove_round s d c p xp sib K t n (Q : option (Z * Z) -> mm -> Prop) :
  let f := mk_frame d c p xp sib in
  wf s (f :: K) t -> fits (f :: K) IBV_BLACK (S n) -> rb IBV_BLACK n t ->
  (forall o s', round_post (f :: K) t o s' -> Q o s') -> wp (remove_round d p) Q s.
Proof.
  intros f Hw Hf Ht HQ. unfold remove_round. apply wp_bind. eapply wp_black_sibling; [exact Hw|exact Hf|].
  clear s Hw Hf. intros s c' sib' K' Hw Hf Hs Hit HK'. destruct (rb_open d _ _ _ Hs) as (y & b & xb & z & ->); [left; lia|].
  apply rb_mk_inv in Hs as [_ (m & cy & cz & [= <-] & Hy & Hz)]. rewrite root_mk. pose proof Hw as Hp. apply wf_rise in Hp.
  unfold fill in Hp. cbn [f_dir f_color f_addr f_range f_sib] in Hp. pose proof Hp as Hb. apply wf_down_other in Hb.
  apply wp_bind. eapply wp_focus; [exact Hb|]. replace (child d _) with (root y) by (by destruct d).
  replace (child (flip d) _) with (root z) by (by destruct d). apply wp_bind. eapply wp_is_black; [exact (wf_down _ _ _ _ _ _ _ _ Hb)|].
  apply wp_bind. eapply wp_is_black; [exact (wf_down_other _ _ _ _ _ _ _ _ Hb)|]. rewrite (rb_color _ _ _ Hy), (rb_color _ _ _ Hz).
  assert (Hlast : forall s y' e xe z' cy', wf s (mk_frame d c' p xp (mk d IBV_BLACK y' e xe z') :: K') t -> rb cy' n y' -> rb IBV_RED n z' ->
    items (plug (mk_frame d c' p xp (mk d IBV_BLACK y' e xe z') :: K') t) = items (plug (f :: K) t) ->
    wp (raise_sibling d p e;; mret None) Q s).
  { intros s1 y' e xe z' cy' H1 Hy' Hz' Hit'. apply wp_bind. eapply wp_raise_sibling; [exact H1| |exact Ht|exact Hy'|exact Hz'|].
    - apply fits_inv in Hf. destruct c'; [apply fits_red|eapply fits_black]; try (by destruct Hf as (? & ? & ?)); [apply (rb_mk_black d n cy' IBV_RED); done|apply Hf|apply (rb_mk_black d n cy' IBV_RED); done].
    - intros s2 T m HwT HT HT0 HiT. apply wp_ret. apply HQ. exists T, m. by rewrite HiT. }
  destruct (decide (cz = IBV_RED)) as [->|Hz0].
  - rewrite (bool_decide_eq_false_2 (IBV_RED = IBV_BLACK)), andb_false_r by done. apply wp_bind, wp_ret. by eapply Hlast.
  - assert (cz = IBV_BLACK) as -> by (by destruct cz). rewrite (bool_decide_eq_true_2 (IBV_BLACK = IBV_BLACK)), andb_true_r by done.
    destruct cy.
    + rewrite bool_decide_eq_false_2 by done. apply wp_bind. eapply wp_raise_nephew; [exact Hw|exact Hy|exact Hz|].
      intros s1 y' e xe z' f' H1 Hy' Hz' Hi. eapply Hlast; [exact H1|exact Hy'|exact Hz'|]. unfold f' in Hi. by rewrite Hi, Hit.
    + rewrite bool_decide_eq_true_2 by done. apply wp_bind. eapply wp_color; [exact Hb|]. intros s1 H1. apply wf_rise in H1.
      unfold fill in H1. cbn [f_dir f_color f_addr f_range f_sib] in H1. rewrite (mk_flip (flip d)), flip_flip in H1. apply wp_bind.
      eapply wp_focus; [exact H1|]. apply wp_ret. replace (n_parent _) with (above K') by (by destruct d). apply HQ.
      exists K', (mk d c' t p xp (mk d IBV_RED y b xb z)), (if c' is IBV_RED then n else S n). rewrite root_mk, tcolor_mk.
      split_and!; [done|done|exact H1|by apply short_up| |].
      * etrans; [|exact Hit]. cbn [plug]. apply items_plug_eq. by destruct d.
      * destruct HK' as [->|[-> _]]; [left; cbn; lia|by right].
Qed.

Lemma top_in f K : top K (f_addr f) ∈ addrsK (f :: K).
Proof. revert f. induction K as [|g K IH]; intros f; cbn [top]; rewrite addrsK_cons; [mem|]. specialize (IH g). mem. Qed.

Lemma not_root s f K t : wf s (f :: K) t -> root t <> mm_root s.
Proof.
  intros Hw E. rewrite (w_root _ _ _ Hw) in E. cbn [top] in E. pose proof (wf_whole _ _ _ Hw) as Hp. cbn [plug] in Hp.
  pose proof (top_in f K) as Htop.
  destruct Hw as [_ Hrep HK Hd _]. rewrite <- E in Htop. pose proof (repK_nonzero _ _ _ _ HK Htop) as H0.
  apply NoDup_app in Hd as (_ & Hdj & _). by apply (Hdj (root t)); [apply root_in|].
Qed.

(** The loop ends at a subtree that only has to become black. *)
Lemma wp_remove_loop fuel : forall s K t n (Q : Z -> mm -> Prop),
  (S (if tcolor t is IBV_RED then 0 else S (length K)) <= fuel)%nat -> wf s K t -> short K t n ->
  (forall s' K' t', wf s' K' t' -> settled K' t' -> items (plug K' t') = items (plug K t) -> Q (root t') s') ->
  wp (remove_loop fuel (root t) (above K)) Q s.
Proof.
  induction fuel as [|fuel IH]; intros s K t n Q Hl Hw Hsh HQ; [lia|]. cbn [remove_loop].
  apply wp_bind. eapply wp_is_black; [exact Hw|]. apply wp_bind, wp_get. destruct Hsh as [HK [Ht|[Ht HB]]].
  - rewrite (rb_color _ _ _ Ht), bool_decide_eq_true_2 by done. rewrite (rb_color _ _ _ Ht) in Hl. cbn [andb].
    destruct K as [|f K].
    { rewrite (w_root _ _ _ Hw). cbn [top]. rewrite Z.eqb_refl. cbn [negb]. apply wp_ret. eapply HQ; [exact Hw| |done].
      exists n. rewrite (blacken_black _ _ Ht). auto with rbt. }
    rewrite (proj2 (Z.eqb_neq _ _) (not_root _ _ _ _ Hw)). cbn [negb above]. pose proof Hw as Hp. apply wf_rise in Hp.
    apply wp_bind. eapply wp_focus; [exact Hp|]. destruct f as [d c p xp sib]. cbn [f_dir f_color f_addr f_range f_sib] in *.
    destruct (fits_sibling _ _ _ _ _ _ _ HK) as [cs Hs]. destruct (rb_open Left _ _ _ Hs) as (y & b & xb & z & ->); [left; lia|].
    assert (Hb : b <> 0) by (apply wf_down_other in Hp; apply (wf_node _ _ Left cs y b xb z) in Hp; tauto).
    pose proof (side_test _ _ _ _ Hw (or_intror Hb) Left) as Hside. cbn [child f_dir f_color f_addr f_range f_sib] in Hside.
    rewrite (Z.eqb_sym (n_left _)), Hside. apply wp_bind. replace (if bool_decide (Left = d) then Left else Right) with d by (by destruct d).
    eapply wp_remove_round; [exact Hw|exact HK|exact Ht|]. intros [[ch par]|] s'; cbn [round_post].
    + intros (K' & t' & m & -> & -> & Hw' & Hsh & Hit & Hm). eapply IH; [|exact Hw'|exact Hsh|].
      * cbn [length] in *. destruct (tcolor t'); [lia|destruct Hm; [lia|done]].
      * intros s2 K2 t2 H2 Hs2 Hi2. eapply HQ; [exact H2|exact Hs2|by rewrite Hi2].
    + intros (T & m & HwT & HT & HT0 & Hit). apply wp_gets. rewrite (w_root _ _ _ HwT).
      eapply HQ; [exact HwT| |exact Hit]. exists m. rewrite (blacken_black _ _ HT). auto with rbt.
  - rewrite Ht, bool_decide_eq_false_2 by done. cbn [andb]. apply wp_ret. eapply HQ; [exact Hw| |done]. by exists (S n).
Qed.

(** The loop and the line after it. *)
Lemma wp_remove_fixup s K t n (Q : unit -> mm -> Prop) :
  wf s K t -> short K t n ->
  (forall s' T, wf s' [] T -> balanced T -> items T = items (plug K t) -> Q tt s') ->
  wp (s ← get; child ← remove_loop (rounds s) (root t) (above K); set_color_if child IBV_BLACK) Q s.
Proof.
  intros Hw Hsh HQ. apply wp_bind, wp_get. apply wp_bind. eapply wp_remove_loop; [|exact Hw|exact Hsh|].
  { unfold rounds. pose proof (wf_depth _ _ _ Hw). destruct (tcolor t); lia. }
  intros s' K' t' Hw' [m [HB HK']] Hit. eapply wp_set_color_if; [exact Hw'|]. intros s2 t2 H2 E2.
  change (t2 = blacken t') in E2. subst t2. eapply HQ; [exact (wf_whole _ _ _ H2)|by eapply fits_plug|].
  rewrite <- Hit. apply items_plug_eq, items_blacken.
Qed.

End remove_loop.

(** ** Taking a node out *)

Section unlink.
Implicit Types (K : list frame) (t : tree) (s : mm).

Definition relinked (K : list frame) (p : Z) (s : mm) : mm :=
  match K with
  | [] => mk_mm p (nodes s)
  | f :: _ => mk_mm (mm_root s) (alter (with_child (f_dir f) p) (f_addr f) (nodes s))
  end.

Lemma wf_zero s K t : wf s K t -> nodes s !! 0 = None.
Proof.
  intros Hw. apply eq_None_not_Some. intros H. apply (w_dom _ _ _ Hw), elem_of_app in H as [H|H].
  - by apply (rep_nonzero _ _ _ _ (w_rep _ _ _ Hw) H).
  - by apply (repK_nonzero _ _ _ _ (w_ctx _ _ _ Hw) H).
Qed.

Lemma alter_insert (h : gmap Z ibv_mem_node) p n (f : ibv_mem_node -> ibv_mem_node) : h !! p = Some n -> alter f p h = <[p := f n]> h.
Proof. intros Hn. apply map_eq. intros q. destruct (decide (p = q)) as [<-|Hq]; [by rewrite lookup_alter_eq, lookup_insert_eq, Hn|by rewrite lookup_alter_ne, lookup_insert_ne]. Qed.

Lemma wp_upd_alter s p f (Q : unit -> mm -> Prop) :
  p <> 0 -> is_Some (nodes s !! p) -> Q tt (mk_mm (mm_root s) (alter f p (nodes s))) -> wp (upd p f) Q s.
Proof. intros Hp [n Hn] HQ. eapply wp_upd_node; [done|exact Hn|]. by rewrite <- (alter_insert _ _ _ _ Hn). Qed.

Lemma wp_set_parent_if s p q (Q : unit -> mm -> Prop) :
  nodes s !! 0 = None -> (p <> 0 -> is_Some (nodes s !! p)) -> Q tt (mk_mm (mm_root s) (alter (with_parent q) p (nodes s))) ->
  wp (set_parent_if p q) Q s.
Proof.
  intros H0 Hp HQ. unfold set_parent_if. destruct (Z.eqb_spec p 0) as [->|Hp0]; cbn [negb when].
  - apply wp_ret. rewrite alter_id in HQ; [by destruct s|]. intros x Hx. congruence.
  - apply wp_upd_alter; auto.
Qed.

(** [if (parent) { if (parent->left == node) ... } else mm_root = p;] *)
Lemma wp_relink s K a p (Q : unit -> mm -> Prop) :
  (forall f K', K = f :: K' -> f_addr f <> 0 /\ exists n, nodes s !! f_addr f = Some n /\ child (f_dir f) n = a /\ child (flip (f_dir f)) n <> a) ->
  Q tt (relinked K p s) ->
  wp (if negb (above K =? 0) then
        pn ← node_at (above K);
        if n_left pn =? a then upd (above K) (with_left p) else upd (above K) (with_right p)
      else set_root p) Q s.
Proof.
  intros HK HQ. destruct K as [|f K]; [done|]. destruct (HK f K eq_refl) as (H0 & n & Hn & Hc & Hs). cbn [above relinked] in *.
  rewrite (proj2 (Z.eqb_neq _ _) H0). cbn [negb]. apply wp_bind. eapply wp_node_at; [done|exact Hn|]. cbn beta.
  destruct (f_dir f); cbn [child flip with_child] in *.
  - rewrite Hc, Z.eqb_refl. by apply wp_upd_alter.
  - rewrite (proj2 (Z.eqb_neq _ _) Hs). by apply wp_upd_alter.
Qed.

(** The heap without the node in focus, which has one subtree. *)
Lemma wf_spliced s s' K d c t a x :
  wf s K (mk d c t a x Leaf) ->
  (t <> Leaf -> nodes s' !! root t = with_parent (above K) <$> nodes s !! root t) ->
  (forall f K', K = f :: K' -> nodes s' !! f_addr f = with_child (f_dir f) (root t) <$> nodes s !! f_addr f) ->
  (forall p, p <> a -> p <> root t -> p <> above K -> nodes s' !! p = nodes s !! p) ->
  nodes s' !! a = None -> nodes s' !! 0 = None -> mm_root s' = top K (root t) ->
  wf s' K t.
Proof.
  intros Hw Ht HK Hrest Ha Hz Hroot. pose proof Hw as [Hr Hrep HKr Hd Hdom].
  assert (Hperm : addrs (mk d c t a x Leaf) ≡ₚ a :: addrs t) by (rewrite addrs_mk; by rewrite app_nil_r).
  rewrite Hperm in Hd. cbn [app] in Hd. apply NoDup_cons in Hd as [Hni Hd]. pose proof (rep_nonzero _ _ _ (above K) Hrep) as Hnz.
  apply rep_mk in Hrep as (Ha0 & Hn & Hrt & _). rewrite root_mk in *. apply NoDup_app in Hd as (Hdt & Hdj & HdK).
  assert (HaK : forall p, p ∈ addrs t -> p <> above K).
  { intros p Hp ->. destruct K as [|f K]; [by apply (rep_nonzero _ _ _ 0 Hrt)|]. apply (Hdj _ Hp). rewrite addrsK_cons. mem. }
  assert (HtK : forall p, p ∈ addrsK K -> p <> root t).
  { intros p Hp ->. apply (Hdj (root t)); [|done]. apply root_in. exact (repK_nonzero _ _ _ _ HKr Hp). }
  split.
  - exact Hroot.
  - eapply rep_reparent; [|exact Ht|done|exact Hrt]. intros p Hp Hpt. apply Hrest; [intros ->; mem|done|by apply HaK].
  - eapply repK_rehole; [|exact HK|done|exact HKr]. intros p Hp HpK. apply Hrest; [intros ->; mem|by apply HtK|done].
  - apply NoDup_app. done.
  - intros p. destruct (decide (p = a)) as [->|Hpa]; [rewrite Ha; split; [by intros []|done]|].
    destruct (decide (p = 0)) as [->|Hp0].
    { rewrite Hz. split; [by intros []|]. intros [H|H]%elem_of_app; [by apply (rep_nonzero _ _ _ _ Hrt) in H|by apply (repK_nonzero _ _ _ _ HKr) in H]. }
    assert (Hsame : is_Some (nodes s' !! p) <-> is_Some (nodes s !! p)).
    { destruct (decide (p = root t)) as [->|Hpt]; [rewrite Ht by (by destruct t); by rewrite fmap_is_Some|].
      destruct (decide (p = above K)) as [->|HpK]; [|by rewrite Hrest]. destruct K as [|f K]; [done|]. cbn [above].
      rewrite (HK f K eq_refl). by rewrite fmap_is_Some. }
    rewrite Hsame, Hdom, Hperm. cbn [app]. rewrite elem_of_cons. tauto.
Qed.

(** The heap with a new node in the place of the one in focus. *)
Lemma wf_renamed s s' K c l a x r b xb :
  wf s K (Node c l a x r) -> b <> 0 -> nodes s !! b = None ->
  nodes s' !! b = Some (node_of Left c (above K) (root l) (root r) xb) ->
  (l <> Leaf -> nodes s' !! root l = with_parent b <$> nodes s !! root l) ->
  (r <> Leaf -> nodes s' !! root r = with_parent b <$> nodes s !! root r) ->
  (forall f K', K = f :: K' -> nodes s' !! f_addr f = with_child (f_dir f) b <$> nodes s !! f_addr f) ->
  (forall p, p <> a -> p <> b -> p <> root l -> p <> root r -> p <> above K -> nodes s' !! p = nodes s !! p) ->
  nodes s' !! a = None -> nodes s' !! 0 = None -> mm_root s' = top K b ->
  wf s' K (Node c l b xb r).
Proof.
  intros Hw Hb0 Hb Hnb Hl Hr HK Hrest Ha Hz Hroot. pose proof Hw as [_ Hrep HKr Hd Hdom].
  assert (Hperm : forall a x, addrs (Node c l a x r) ≡ₚ a :: addrs l ++ addrs r) by (intros; apply (addrs_mk Left)).
  assert (Hbi : b ∉ addrs (Node c l a x r) ++ addrsK K) by (rewrite <- Hdom, Hb; by intros []). rewrite Hperm in Hbi.
  rewrite Hperm in Hd. cbn [app] in Hd, Hbi. apply NoDup_cons in Hd as [Hni Hd]. destruct Hrep as (Ha0 & Hn & Hrl & Hrr).
  pose proof Hd as Hd'. apply NoDup_app in Hd as (Hdlr & HdjK & HdK). apply NoDup_app in Hdlr as (Hdl & Hdj & Hdr).
  assert (Hlz : forall p, p ∈ addrs l ++ addrs r -> p <> 0) by (intros p [H|H]%elem_of_app; [exact (rep_nonzero _ _ _ _ Hrl H)|exact (rep_nonzero _ _ _ _ Hrr H)]).
  assert (HaK : forall p, p ∈ addrs l ++ addrs r -> p <> above K).
  { intros p Hp ->. destruct K as [|f K]; [by apply (Hlz 0)|]. apply (HdjK _ Hp). rewrite addrsK_cons. mem. }
  assert (Hlr : forall p, p ∈ addrs l -> p <> root r).
  { intros p Hp ->. apply (Hdj _ Hp), root_in, Hlz. mem. }
  assert (Hrl' : forall p, p ∈ addrs r -> p <> root l).
  { intros p Hp ->. apply (Hdj (root l)); [|done]. apply root_in, Hlz. mem. }
  assert (HKlr : forall p t, (t = l \/ t = r) -> p ∈ addrsK K -> p <> root t).
  { intros p t Ht Hp ->. pose proof (repK_nonzero _ _ _ _ HKr Hp) as H0. apply (HdjK (root t)); [|done]. apply root_in in H0. destruct Ht; subst; mem. }
  split.
  - exact Hroot.
  - split_and!; [done|exact Hnb| |].
    + eapply rep_reparent; [|exact Hl|done|exact Hrl]. intros p Hp Hpt. apply Hrest; [intros ->; mem|intros ->; mem|done|by apply Hlr|apply HaK; mem].
    + eapply rep_reparent; [|exact Hr|done|exact Hrr]. intros p Hp Hpt. apply Hrest; [intros ->; mem|intros ->; mem|by apply Hrl'|done|apply HaK; mem].
  - eapply repK_rehole; [|exact HK|done|exact HKr]. intros p Hp HpK. apply Hrest; [intros ->; mem|intros ->; mem|apply HKlr; auto|apply HKlr; auto|done].
  - rewrite Hperm. cbn [app]. apply NoDup_cons. split; [mem|done].
  - intros p. rewrite Hperm. cbn [app]. destruct (decide (p = b)) as [->|Hpb]; [rewrite Hnb; split; [intros _; mem|by eexists]|].
    destruct (decide (p = a)) as [->|Hpa]; [rewrite Ha; split; [by intros []|]; intros [?|?]%elem_of_cons; [done|mem]|].
    destruct (decide (p = 0)) as [->|Hp0].
    { rewrite Hz. split; [by intros []|]. intros [?|[H|H]%elem_of_app]%elem_of_cons; [congruence|by apply Hlz in H|by apply (repK_nonzero _ _ _ _ HKr) in H]. }
    assert (Hsame : is_Some (nodes s' !! p) <-> is_Some (nodes s !! p)).
    { destruct (decide (p = root l)) as [->|Hpl]; [rewrite Hl by (by destruct l); by rewrite fmap_is_Some|].
      destruct (decide (p = root r)) as [->|Hpr]; [rewrite Hr by (by destruct r); by rewrite fmap_is_Some|].
      destruct (decide (p = above K)) as [->|HpK]; [|by rewrite Hrest]. destruct K as [|f K]; [done|]. cbn [above].
      rewrite (HK f K eq_refl). by rewrite fmap_is_Some. }
    rewrite Hsame, Hdom, Hperm. cbn [app]. rewrite !elem_of_cons. tauto.
Qed.

(** What is known of the node above the focus. *)
Lemma wf_link s f K t : wf s (f :: K) t -> f_addr f <> root t /\ f_addr f <> 0 /\
  nodes s !! f_addr f = Some (node_of (f_dir f) (f_color f) (above K) (root t) (root (f_sib f)) (f_range f)).
Proof.
  intros [_ _ (H0 & Hn & _) Hd _]. split_and!; [|done|done]. intros E. apply NoDup_app in Hd as (_ & Hdj & _).
  apply (Hdj (root t)); [apply root_in; congruence|]. rewrite addrsK_cons, <- E. mem.
Qed.

Lemma wf_child_test s f K t : wf s (f :: K) t -> t <> Leaf ->
  let n := node_of (f_dir f) (f_color f) (above K) (root t) (root (f_sib f)) (f_range f) in
  child (f_dir f) n = root t /\ child (flip (f_dir f)) n <> root t.
Proof.
  intros Hw Ht. assert (H0 : root t <> 0).
  { destruct t as [|c l a x r]; [done|]. apply (wf_node s _ Left) in Hw. tauto. }
  pose proof (sibling_distinct _ _ _ _ Hw (or_introl H0)). by destruct (f_dir f).
Qed.

Definition freed (a : Z) (s : mm) : mm := mk_mm (mm_root s) (delete a (nodes s)).

Lemma wp_free s a (Q : unit -> mm -> Prop) : a <> 0 -> is_Some (nodes s !! a) -> Q tt (freed a s) -> wp (free a) Q s.
Proof. intros Ha [n Hn] HQ. unfold free. apply wp_bind. eapply wp_node_at; [done|exact Hn|]. by apply wp_modify. Qed.

Lemma lookup_relinked_ne K p s q : (forall f K', K = f :: K' -> q <> f_addr f) -> nodes (relinked K p s) !! q = nodes s !! q.
Proof. intros Hq. destruct K as [|f K]; [done|]. cbn. rewrite lookup_alter_ne; [done|]. specialize (Hq f K eq_refl). congruence. Qed.

Lemma lookup_relinked f K p s : nodes (relinked (f :: K) p s) !! f_addr f = with_child (f_dir f) p <$> nodes s !! f_addr f.
Proof. cbn. by rewrite lookup_alter_eq. Qed.

Lemma lookup_relinked_none K p s q : nodes s !! q = None -> nodes (relinked K p s) !! q = None.
Proof. intros Hq. destruct K as [|f K]; [done|]. cbn. by rewrite lookup_alter_None. Qed.

Lemma root_relinked K a p s : mm_root s = top K a -> mm_root (relinked K p s) = top K p.
Proof. by destruct K. Qed.

(** A node with at most one subtree. *)
Lemma wp_remove_outer s K d c t a x (Q : color * Z * Z -> mm -> Prop) :
  wf s K (mk d c t a x Leaf) ->
  (forall s', is_Some (nodes s' !! a) -> wf (freed a s') K t -> Q (c, root t, above K) s') -> wp (remove_outer a) Q s.
Proof.
  intros Hw HQ. unfold remove_outer. destruct (wf_node _ _ _ _ _ _ _ _ Hw) as [Ha0 Hn]. pose proof (wf_zero _ _ _ Hw) as Hz.
  assert (Hta : root t <> a).
  { intros E. pose proof (w_dup _ _ _ Hw) as Hd. rewrite addrs_mk in Hd. apply NoDup_app in Hd as (Hd & _). apply NoDup_cons in Hd as [Hd _].
    apply Hd. apply elem_of_app. left. rewrite <- E. apply root_in. congruence. }
  apply wp_bind. eapply wp_focus; [exact Hw|]. cbn zeta.
  replace (if negb (n_left _ =? 0) then _ else _) with (root t) by (destruct d; cbn [node_of n_left n_right root]; [destruct (Z.eqb_spec (root t) 0) as [->|]; done|done]).
  replace (n_parent _) with (above K) by (by destruct d). replace (n_color _) with c by (by destruct d).
  pose proof (wf_down _ _ _ _ _ _ _ _ Hw) as Ht. assert (Hts : root t <> 0 -> is_Some (nodes s !! root t)).
  { intros H0. apply (w_dom _ _ _ Ht), elem_of_app. left. by apply root_in. }
  assert (HKn : forall f K', K = f :: K' -> f_addr f <> a /\ f_addr f <> root t /\ f_addr f <> 0 /\
    exists n, nodes s !! f_addr f = Some n /\ child (f_dir f) n = a /\ child (flip (f_dir f)) n <> a).
  { intros f K' ->. destruct (wf_link _ _ _ _ Hw) as (H1 & H2 & H3). rewrite root_mk in *. split_and!; [done| |done|].
    - intros E. pose proof (w_dup _ _ _ Ht) as Hd. apply NoDup_app in Hd as (_ & Hdj & _). apply (Hdj (root t)); [apply root_in; congruence|].
      rewrite <- E, !addrsK_cons. mem.
    - eexists. split; [exact H3|]. pose proof (wf_child_test _ _ _ _ Hw) as Hc. rewrite root_mk in Hc. apply Hc. by destruct d. }
  apply wp_bind. eapply wp_set_parent_if; [done|exact Hts|]. apply wp_bind. apply wp_relink.
  { intros f K' E. destruct (HKn f K' E) as (H1 & H2 & H3 & n & H4 & H5). split; [done|]. exists n. cbn [nodes]. by rewrite lookup_alter_ne by congruence. }
  apply wp_ret. apply HQ.
  - rewrite lookup_relinked_ne; [cbn [nodes]; rewrite lookup_alter_ne by done; by rewrite Hn|]. intros f K' E. destruct (HKn f K' E). congruence.
  - eapply wf_spliced; [exact Hw| | | | | |]; unfold freed; cbn [nodes mm_root].
    + intros _. rewrite lookup_delete_ne, lookup_relinked_ne; [cbn [nodes]; by rewrite lookup_alter_eq| |congruence].
      intros f K' E. destruct (HKn f K' E) as (? & ? & _). congruence.
    + intros f K' ->. destruct (HKn f K' eq_refl) as (? & ? & _). rewrite lookup_delete_ne, lookup_relinked by congruence.
      cbn [nodes]. by rewrite lookup_alter_ne by congruence.
    + intros p Hp1 Hp2 Hp3. rewrite lookup_delete_ne, lookup_relinked_ne by (congruence || by intros f K' ->). cbn [nodes]. by rewrite lookup_alter_ne.
    + apply lookup_delete_eq.
    + rewrite lookup_delete_ne by done. apply lookup_relinked_none. cbn [nodes]. by rewrite lookup_alter_None.
    + apply (root_relinked K (root (mk d c t a x Leaf))). exact (w_root _ _ _ Hw).
Qed.

Lemma addrsK_app J K : addrsK (J ++ K) = addrsK J ++ addrsK K.
Proof. unfold addrsK. apply bind_app. Qed.

(** Addresses in different parts of the tree. *)
Lemma inner_distinct s J K c a x r ct tl tm xt :
  wf s (J ++ mk_frame Left c a x r :: K) (Node ct tl tm xt Leaf) ->
  NoDup ([tm] ++ [a] ++ addrs tl ++ addrsK J ++ addrs r ++ addrsK K).
Proof.
  intros Hw. pose proof (w_dup _ _ _ Hw) as Hd. change (Node ct tl tm xt Leaf) with (mk Left ct tl tm xt Leaf) in Hd.
  rewrite addrs_mk, app_nil_r, addrsK_app, addrsK_cons in Hd. cbn [app f_addr f_sib] in *.
  rewrite (app_assoc (addrs tl)), <- Permutation_middle, <- app_assoc in Hd. exact Hd.
Qed.

(** Lookups in a heap of altered nodes. *)
Ltac alters :=
  repeat first [rewrite lookup_delete_eq | rewrite lookup_delete_ne by congruence | rewrite lookup_alter_eq
    | rewrite lookup_alter_ne by congruence | rewrite lookup_relinked_ne by (intros ?f ?K' ?E; naive_solver)
    | progress cbn [nodes mm_root freed]].

(** The addresses that the code touches when a node has two subtrees: [tm] takes the
    place of [a], [y] is its subtree, [p] and [l] are on the way from it to [a]. *)
Record touched (K : list frame) (tm a y p l r : Z) : Prop := {
  d_zero : tm <> 0 /\ a <> 0 /\ p <> 0 /\ l <> 0 /\ r <> 0;
  d_tm : tm <> a /\ tm <> y /\ tm <> r;
  d_a : a <> y /\ a <> p /\ a <> l /\ a <> r;
  d_y : y <> p /\ y <> l /\ y <> r;
  d_r : r <> p /\ r <> l;
  d_K : forall f K', K = f :: K' -> f_addr f <> 0 /\ f_addr f <> tm /\ f_addr f <> a /\ f_addr f <> y /\ f_addr f <> p /\ f_addr f <> l /\ f_addr f <> r }.

Lemma NoDup_app_ne {A} (l1 l2 : list A) p q : NoDup (l1 ++ l2) -> p ∈ l1 -> q ∈ l2 -> p <> q.
Proof. intros (_ & Hd & _)%NoDup_app Hp Hq ->. by apply (Hd q). Qed.

Ltac ne :=
  match goal with
  | H : NoDup (?l1 ++ ?l2) |- ?p <> ?q => solve [apply (NoDup_app_ne l1 l2 p q H); mem | apply not_eq_sym, (NoDup_app_ne l1 l2 q p H); mem]
  end.

Lemma wf_touched s J K c a x r ct tl tm xt p l :
  wf s (J ++ mk_frame Left c a x r :: K) (Node ct tl tm xt Leaf) -> r <> Leaf ->
  p ∈ [tm] ++ addrsK J -> l ∈ [tm] ++ addrsK J -> touched K tm a (root tl) p l (root r).
Proof.
  intros Hw Hr Hp Hl. pose proof (inner_distinct _ _ _ _ _ _ _ _ _ _ _ Hw) as H0. pose proof H0 as H1. apply NoDup_app in H1 as (_ & _ & H1).
  pose proof H1 as H2. apply NoDup_app in H2 as (_ & _ & H2). pose proof H2 as H3. apply NoDup_app in H3 as (_ & _ & H3).
  pose proof H3 as H4. apply NoDup_app in H4 as (_ & _ & H4).
  assert (Hnz : forall q, q ∈ [tm] ++ [a] ++ addrs tl ++ addrsK J ++ addrs r ++ addrsK K -> q <> 0).
  { intros q Hq ->. assert (Hin : 0 ∈ addrs (Node ct tl tm xt Leaf) ++ addrsK (J ++ mk_frame Left c a x r :: K)).
    { change (Node ct tl tm xt Leaf) with (mk Left ct tl tm xt Leaf). rewrite addrs_mk, app_nil_r, addrsK_app, addrsK_cons. cbn [f_addr f_sib]. mem. }
    apply (w_dom _ _ _ Hw) in Hin. rewrite (wf_zero _ _ _ Hw) in Hin. by destruct Hin. }
  assert (Hrr : root r ∈ addrs r).
  { apply root_in. destruct r as [|cr rl ra rx rr]; [done|]. apply Hnz. assert (ra ∈ addrs (mk Left cr rl ra rx rr)) by (rewrite addrs_mk; mem). cbn [mk root] in *. mem. }
  assert (Hy : root tl = 0 \/ root tl ∈ addrs tl) by (destruct (decide (root tl = 0)); [by left|right; by apply root_in]).
  assert (HyN : forall q, q ∈ [tm] ++ [a] ++ addrsK J ++ addrs r ++ addrsK K -> root tl <> q).
  { intros q Hq. destruct Hy as [->|Hy]; [apply not_eq_sym, Hnz; mem|]. clear Hp Hl. repeat rewrite elem_of_app in Hq.
    destruct Hq as [Hq|[Hq|Hq]]; ne. }
  assert (HpJ : forall q, q ∈ [tm] ++ addrsK J -> a <> q /\ root r <> q) by (intros q [Hq|Hq]%elem_of_app; split; clear Hp Hl; ne).
  destruct (HpJ p Hp), (HpJ l Hl). split; split_and?; try done; try (apply Hnz; mem); try (apply HyN; mem); try (apply not_eq_sym, HyN; mem); try (clear Hp Hl; ne).
  intros f K' ->. assert (Hf : f_addr f ∈ addrsK (f :: K')) by (rewrite addrsK_cons; mem).
  assert (HfJ : forall q, q ∈ [tm] ++ addrsK J -> f_addr f <> q) by (intros q [Hq|Hq]%elem_of_app; clear Hp Hl; ne).
  split_and!; try done; try (apply Hnz; mem); try (apply not_eq_sym, HyN; mem); try (by apply HfJ); clear Hp Hl; ne.
Qed.

(** The node that takes the place is the left child. *)
Lemma wf_inner_first s K c a x r ct tl tm xt :
  wf s (mk_frame Left c a x r :: K) (Node ct tl tm xt Leaf) -> r <> Leaf ->
  wf (freed a (relinked K tm (mk_mm (mm_root s) (alter (with_parent (above K)) tm (alter (with_parent tm) (root r)
    (alter (with_right (root r)) tm (alter (with_color c) tm (nodes s)))))))) (mk_frame Left c tm xt r :: K) tl.
Proof.
  intros Hw Hr. pose proof (wf_touched s [] K _ _ _ _ _ _ _ _ tm tm Hw Hr ltac:(mem) ltac:(mem)) as [H0 H1 H2 H3 H4 HK]. destruct_and!.
  pose proof (wf_zero _ _ _ Hw) as Hz. destruct (wf_node s _ Left _ _ _ _ _ Hw) as [_ Hn]. cbn [node_of above f_addr root] in Hn.
  set (s1 := mk_mm (mm_root s) (delete tm (alter (with_left (root tl)) a (alter (with_parent a) (root tl) (nodes s))))).
  assert (W1 : wf s1 (mk_frame Left c a x r :: K) tl).
  { eapply (wf_spliced s s1 _ Left ct tl tm xt Hw); unfold s1; cbn [nodes mm_root above f_addr].
    - intros _. by alters.
    - intros f K' [= <- <-]. cbn [f_addr f_dir]. by alters.
    - intros p Hp1 Hp2 Hp3. by alters.
    - by alters.
    - alters. by rewrite !lookup_alter_None.
    - rewrite (w_root _ _ _ Hw). done. }
  apply wf_rise in W1. unfold fill in W1. cbn [f_dir f_color f_addr f_range f_sib mk] in W1.
  apply (wf_down _ K Left c tl tm xt r). cbn [mk]. apply (wf_renamed s1 _ K c tl a x r tm xt W1); unfold s1; cbn [nodes mm_root freed].
  - tauto.
  - by alters.
  - alters. by rewrite Hn.
  - intros Ht. alters. destruct tl as [|c' l' a' x' r']; [done|]. cbn [root].
    apply (wf_down _ _ Left) in Hw. apply (wf_node s _ Left) in Hw as [_ ->]. done.
  - intros _. by alters.
  - intros f K' ->. rewrite lookup_delete_ne, lookup_relinked by (destruct (HK f K' eq_refl); naive_solver). cbn [nodes].
    destruct (HK f K' eq_refl) as (? & ? & ? & ? & ? & ? & ?). by alters.
  - intros p Hp1 Hp2 Hp3 Hp4 Hp5. rewrite lookup_delete_ne, lookup_relinked_ne by (congruence || by intros f K' ->). by alters.
  - by alters.
  - rewrite lookup_delete_ne by tauto. apply lookup_relinked_none. cbn [nodes]. by rewrite !lookup_alter_None.
  - apply (root_relinked K a). rewrite (w_root _ _ _ Hw). done.
Qed.

(** The node that takes the place is further down. *)
Lemma wf_inner_deep s g J K c a x r ct tl tm xt :
  wf s ((g :: J) ++ mk_frame Left c a x r :: K) (Node ct tl tm xt Leaf) -> r <> Leaf -> f_dir g = Right ->
  let l := top J (f_addr g) in
  wf (freed a (relinked K tm (mk_mm (mm_root s) (alter (with_parent (above K)) tm (alter (with_parent tm) (root r)
    (alter (with_right (root r)) tm (alter (with_parent tm) l (alter (with_left l) tm (alter (with_parent (f_addr g)) (root tl)
    (alter (with_right (root tl)) (f_addr g) (alter (with_color c) tm (nodes s))))))))))))
    ((g :: J) ++ mk_frame Left c tm xt r :: K) tl.
Proof.
  intros Hw Hr Hg l. pose proof (inner_distinct _ _ _ _ _ _ _ _ _ _ _ Hw) as Hd. pose proof (top_in g J) as Hl. fold l in Hl.
  assert (Hg' : f_addr g ∈ addrsK (g :: J)) by (rewrite addrsK_cons; mem).
  assert (tm <> l) by ne. assert (tm <> f_addr g) by ne.
  pose proof (wf_touched s (g :: J) K _ _ _ _ _ _ _ _ (f_addr g) l Hw Hr ltac:(mem) ltac:(mem)) as [? ? ? ? ? HK]. destruct_and!. clear Hd Hl Hg'.
  pose proof (wf_zero _ _ _ Hw) as Hz. destruct (wf_node s _ Left _ _ _ _ _ Hw) as [_ Hn]. cbn [node_of above f_addr root] in Hn.
  set (s1 := mk_mm (mm_root s) (delete tm (alter (with_right (root tl)) (f_addr g) (alter (with_parent (f_addr g)) (root tl) (nodes s))))).
  assert (W1 : wf s1 ((g :: J) ++ mk_frame Left c a x r :: K) tl).
  { eapply (wf_spliced s s1 _ Left ct tl tm xt Hw); unfold s1; cbn [nodes mm_root above f_addr app].
    - intros _. by alters.
    - intros f K' [= <- <-]. rewrite Hg. by alters.
    - intros p Hp1 Hp2 Hp3. by alters.
    - by alters.
    - alters. by rewrite !lookup_alter_None.
    - rewrite (w_root _ _ _ Hw). done. }
  apply (wf_refocus _ _ _ K (Node c (plug (g :: J) tl) a x r)) in W1; [|by rewrite plug_app].
  assert (El : root (plug (g :: J) tl) = l) by (rewrite root_plug; done).
  eapply (wf_refocus _ K (Node c (plug (g :: J) tl) tm xt r)); [|by rewrite plug_app].
  apply (wf_renamed s1 _ K c (plug (g :: J) tl) a x r tm xt W1); rewrite ?El; unfold s1; cbn [nodes mm_root freed].
  - done.
  - by alters.
  - alters. by rewrite Hn.
  - intros _. destruct (decide (f_addr g = l)) as [E|E]; [rewrite E in *|]; by alters.
  - intros _. by alters.
  - intros f K' ->. rewrite lookup_delete_ne, lookup_relinked by (destruct (HK f K' eq_refl); naive_solver). cbn [nodes].
    destruct (HK f K' eq_refl) as (? & ? & ? & ? & ? & ? & ?). by alters.
  - intros p Hp1 Hp2 Hp3 Hp4 Hp5. rewrite lookup_delete_ne, lookup_relinked_ne by (congruence || by intros f K' ->).
    destruct (decide (p = f_addr g)) as [->|Hpg]; [by alters|]. destruct (decide (p = root tl)) as [->|Hpt]; by alters.
  - by alters.
  - rewrite lookup_delete_ne by done. apply lookup_relinked_none. cbn [nodes]. by rewrite !lookup_alter_None.
  - apply (root_relinked K a). cbn [mm_root]. rewrite (w_root _ _ _ Hw), <- root_plug, plug_app, root_plug. done.
Qed.

Lemma wf_root_some s K t : wf s K t -> t <> Leaf -> root t <> 0 /\ is_Some (nodes s !! root t).
Proof. intros Hw Ht. destruct t as [|c l a x r]; [done|]. destruct (wf_node s K Left c l a x r Hw) as [H0 Hn].
  cbn [root]. by rewrite Hn.
Qed.

Lemma alter_is_Some (h : gmap Z ibv_mem_node) f p q : is_Some (alter f p h !! q) <-> is_Some (h !! q).
Proof. destruct (decide (p = q)) as [<-|Hq]; [by rewrite lookup_alter_eq, fmap_is_Some|by rewrite lookup_alter_ne]. Qed.

Lemma wp_remove_inner s K c l a x r (Q : color * Z * Z -> mm -> Prop) :
  wf s K (Node c l a x r) -> l <> Leaf -> r <> Leaf ->
  (forall s' J ct tl tm xt, l = plug J (Node ct tl tm xt Leaf) -> is_Some (nodes s' !! a) ->
     wf (freed a s') (J ++ mk_frame Left c tm xt r :: K) tl -> Forall (fun f => f_dir f = Right) J ->
     Q (ct, root tl, above (J ++ mk_frame Left c tm xt r :: K)) s') ->
  wp (remove_inner a) Q s.
Proof.
  intros Hw Hl Hr HQ. unfold remove_inner. apply wp_bind, wp_get. apply wp_bind. eapply (wp_focus s K Left); [exact Hw|].
  cbn [node_of n_left n_right n_parent n_color]. apply wp_bind. pose proof (wf_down s K Left _ _ _ _ _ Hw) as Hd.
  eapply wp_outermost; [exact Hd|done|exact (rounds_items _ _ _ Hd)|]. intros J ct tm xt tl El HJ HwJ.
  apply wp_bind. eapply wp_focus; [exact HwJ|]. cbn [mk node_of n_left n_right n_parent n_color root] in *.
  destruct (wf_node s K Left _ _ _ _ _ Hw) as [Ha0 Hna]. destruct (wf_node _ _ Right _ _ _ _ _ HwJ) as [Htm0 Hntm].
  assert (HfK : forall f K', K = f :: K' -> f_addr f <> 0 /\ exists n, nodes s !! f_addr f = Some n /\ child (f_dir f) n = a /\ child (flip (f_dir f)) n <> a).
  { intros f K' ->. destruct (wf_link _ _ _ _ Hw) as (_ & ? & H3). split; [done|]. eexists. split; [exact H3|].
    pose proof (wf_child_test _ _ _ _ Hw) as Hc. by apply Hc. }
  destruct (wf_root_some _ _ _ (wf_down_other s K Left _ _ _ _ _ Hw) Hr) as [Hr0 Hrs].
  apply wp_bind. apply wp_upd_alter; [done|by rewrite Hntm|]. cbn [mm_root nodes].
  assert (Htail : forall h par, is_Some (h !! a) -> is_Some (h !! tm) -> is_Some (h !! root r) ->
    (forall f K', K = f :: K' -> tm <> f_addr f /\ root r <> f_addr f /\ h !! f_addr f = nodes s !! f_addr f) ->
    wf (freed a (relinked K tm (mk_mm (mm_root s) (alter (with_parent (above K)) tm (alter (with_parent tm) (root r)
      (alter (with_right (root r)) tm h)))))) (J ++ mk_frame Left c tm xt r :: K) tl -> par = above (J ++ mk_frame Left c tm xt r :: K) ->
    wp (upd tm (with_right (root r));; upd (root r) (with_parent tm);; upd tm (with_parent (above K));;
        (if negb (above K =? 0) then pn ← node_at (above K); if n_left pn =? a then upd (above K) (with_left tm) else upd (above K) (with_right tm)
         else set_root tm);; mret (ct, root tl, par)) Q (mk_mm (mm_root s) h)).
  { intros h par Hsa Hst Hsr Hsf HwF ->. apply wp_bind. apply wp_upd_alter; [done|done|]. apply wp_bind. apply wp_upd_alter; [done|by apply alter_is_Some|].
    apply wp_bind. apply wp_upd_alter; [done|cbn [nodes]; by rewrite !alter_is_Some|]. apply wp_bind. apply wp_relink; cbn [nodes mm_root].
    - intros f K' EK. destruct (HfK f K' EK) as (? & n & Hn & ?), (Hsf f K' EK) as (? & ? & Hh). split; [done|]. exists n.
      rewrite !lookup_alter_ne by done. by rewrite Hh.
    - apply wp_ret. eapply HQ; [by rewrite El| |exact HwF|done]. destruct K as [|f K]; cbn; by rewrite !alter_is_Some. }
  cbn [mm_root nodes] in Htail. apply wp_bind. destruct J as [|g J].
  - cbn [app above f_addr] in *. rewrite Z.eqb_refl. cbn [negb]. apply wp_ret.
    pose proof (wf_touched s [] K _ _ _ _ _ _ _ _ tm tm HwJ Hr ltac:(mem) ltac:(mem)) as [? ? ? ? ? HK].
    apply Htail; [by rewrite alter_is_Some, Hna|by rewrite alter_is_Some, Hntm|by rewrite alter_is_Some| |by eapply wf_inner_first|done].
    intros f K' EK. destruct (HK f K' EK) as (? & ? & ? & ? & ? & ? & ?). by rewrite lookup_alter_ne by done.
  - cbn [app above] in *. assert (Erl : root l = top J (f_addr g)) by (rewrite <- El, root_plug; done).
    pose proof (wf_touched s (g :: J) K _ _ _ _ _ _ _ _ (f_addr g) (root l) HwJ Hr) as HT. rewrite Erl in HT.
    destruct HT as [H0 ? Ha ? ? HK]; [rewrite addrsK_cons; mem|pose proof (top_in g J); mem|].
    destruct (wf_link s g _ _ HwJ) as (_ & Hg0 & Hng). rewrite (proj2 (Z.eqb_neq (f_addr g) a)) by (destruct Ha as (? & ? & ?); congruence). cbn [negb].
    assert (Hls : is_Some (nodes s !! root l)) by (apply (wf_root_some _ _ _ Hd Hl)). rewrite Erl in *.
    apply wp_bind. apply wp_upd_alter; [done|cbn [nodes]; by rewrite alter_is_Some, Hng|]. apply wp_bind. apply wp_set_parent_if.
    { cbn [nodes]. rewrite !lookup_alter_None. exact (wf_zero _ _ _ Hw). }
    { intros Ht0. cbn [nodes]. rewrite !alter_is_Some. apply (wf_down s _ Left) in HwJ. apply (wf_root_some _ _ _ HwJ). by intros ->. }
    apply wp_bind. apply wp_upd_alter; [done|cbn [nodes]; by rewrite !alter_is_Some, Hntm|].
    apply wp_bind. apply wp_upd_alter; [tauto|cbn [nodes]; by rewrite !alter_is_Some|]. apply wp_ret. cbn [nodes mm_root].
    apply Htail; [by rewrite !alter_is_Some, Hna|by rewrite !alter_is_Some, Hntm|by rewrite !alter_is_Some| | |done].
    + intros f K' EK. destruct (HK f K' EK) as (? & ? & ? & ? & ? & ? & ?). by rewrite !lookup_alter_ne by done.
    + apply Forall_cons in HJ as [Hg _]. by eapply (wf_inner_deep s g J).
Qed.

(** ** The whole removal *)

(** Balance does not depend on where the nodes are. *)
Lemma fits_rename J d c a x a' x' r K ct n :
  fits (J ++ mk_frame d c a x r :: K) ct n -> fits (J ++ mk_frame d c a' x' r :: K) ct n.
Proof.
  revert ct n. induction J as [|g J IH]; intros ct n H; cbn [app] in *; inversion H; subst; eauto with rbt.
Qed.

(** A node with one subtree is gone: a red one leaves the tree right, a black one leaves
    the subtree lacking a black node. *)
Lemma removed_state K d c t a x n :
  rb c n (mk d c t a x Leaf) -> fits K c n ->
  match c with IBV_RED => balanced (plug K t) | IBV_BLACK => exists m, short K t m end.
Proof.
  intros Hr Hf. apply rb_mk_inv in Hr as [_ Hr]. destruct c.
  - destruct Hr as [Ht HL]. eapply fits_plug; [exact (fits_weaken _ _ Hf)|exact Ht].
  - destruct Hr as (m & c1 & c2 & -> & Ht & HL). inversion HL; subst. exists 0%nat. split; [done|].
    destruct c1; [right|by left]. split; [exact (rb_color _ _ _ Ht)|]. inversion Ht; subst. by eapply (rb_mk_black Left).
Qed.

Lemma items_last J ct tl tm xt : Forall (fun f => f_dir f = Right) J ->
  items (plug J (Node ct tl tm xt Leaf)) = items (plug J tl) ++ [(tm, xt)].
Proof.
  intros HJ. rewrite !items_plug, (after_right _ HJ). cbn [items]. by rewrite !app_nil_r, app_assoc.
Qed.

Lemma leaf_or_node t : t = Leaf \/ t <> Leaf.
Proof. destruct t; [by left|by right]. Qed.

Lemma wp_mm_remove s T a x l1 l2 (Q : unit -> mm -> Prop) :
  wf s [] T -> balanced T -> items T = l1 ++ (a, x) :: l2 ->
  (forall s' T', wf s' [] T' -> balanced T' -> items T' = l1 ++ l2 -> Q tt s') -> wp (mm_remove a) Q s.
Proof.
  intros Hw Hb Hit HQ. destruct (focus_item _ _ _ _ _ Hit) as (K & c & l & r & -> & -> & ->).
  apply (wf_refocus _ _ _ K (Node c l a x r)) in Hw; [|done]. unfold mm_remove.
  destruct (wf_node s K Left _ _ _ _ _ Hw) as [Ha0 _]. apply wp_bind. eapply (wp_focus s K Left); [exact Hw|]. cbn [node_of n_left n_right].
  assert (Hrest : forall s' K' d ct t tm xt n, is_Some (nodes s' !! a) -> wf (freed a s') K' t -> rb ct n (mk d ct t tm xt Leaf) -> fits K' ct n ->
    items (plug K' t) = (before K ++ items l) ++ items r ++ after K ->
    wp (free a;; (if bool_decide (ct = IBV_RED) then mret tt else s ← get; child ← remove_loop (rounds s) (root t) (above K'); set_color_if child IBV_BLACK)) Q s').
  { intros s' K' d ct t tm xt n Ha Hwf Hrb Hf Hi. apply wp_bind. apply wp_free; [done|done|]. pose proof (removed_state _ _ _ _ _ _ _ Hrb Hf) as Hst.
    destruct ct; [rewrite bool_decide_eq_true_2 by done|rewrite bool_decide_eq_false_2 by done].
    - apply wp_ret. eapply HQ; [exact (wf_whole _ _ _ Hwf)|exact Hst|exact Hi].
    - destruct Hst as [m Hm]. eapply wp_remove_fixup; [exact Hwf|exact Hm|]. intros s2 T2 H2 Hb2 Hi2. eapply HQ; [exact H2|exact Hb2|by rewrite Hi2]. }
  apply wp_bind. destruct (leaf_or_node l) as [->|Hl]; [|destruct (leaf_or_node r) as [->|Hr]].
  - cbn [root]. rewrite Z.eqb_refl. cbn [negb andb]. eapply (wp_remove_outer s K Right c r a x); [exact Hw|]. intros s' Hs Hwf.
    destruct (unplug _ _ Hb) as (c0 & n & Hrb & Hf). pose proof (rb_color _ _ _ Hrb) as <-. eapply (Hrest s' K Right c r a x n); [done|done|exact Hrb|exact Hf|].
    rewrite items_plug. cbn [items]. by rewrite app_nil_r.
  - cbn [root]. rewrite Z.eqb_refl, andb_false_r. eapply (wp_remove_outer s K Left c l a x); [exact Hw|]. intros s' Hs Hwf.
    destruct (unplug _ _ Hb) as (c0 & n & Hrb & Hf). pose proof (rb_color _ _ _ Hrb) as <-. eapply (Hrest s' K Left c l a x n); [done|done|exact Hrb|exact Hf|].
    rewrite items_plug. cbn [items app]. by rewrite <- app_assoc.
  - destruct (wf_root_some _ _ _ (wf_down s K Left _ _ _ _ _ Hw) Hl) as [Hl0 _].
    destruct (wf_root_some _ _ _ (wf_down_other s K Left _ _ _ _ _ Hw) Hr) as [Hr0 _].
    rewrite (proj2 (Z.eqb_neq _ _) Hl0), (proj2 (Z.eqb_neq _ _) Hr0). cbn [negb andb].
    eapply wp_remove_inner; [exact Hw|done|done|]. intros s' J ct tl tm xt -> Hs Hwf HJ.
    destruct (unplug (J ++ mk_frame Left c a x r :: K) (Node ct tl tm xt Leaf)) as (c0 & n & Hrb & Hf); [by rewrite plug_app|].
    pose proof (rb_color _ _ _ Hrb) as <-. eapply (Hrest s' _ Left ct tl tm xt n); [done|exact Hwf|exact Hrb|exact (fits_rename _ _ _ _ _ tm xt _ _ _ _ Hf)|].
    rewrite plug_app. cbn [plug]. rewrite items_plug. unfold fill. cbn [f_dir f_color f_addr f_range f_sib mk items].
    rewrite (items_last _ _ _ _ _ HJ). assoc.
Qed.

End unlink.
