(* ===== verification/Fork.v ===== *)
(** * Memory that must not be copied on fork

    libibverbs/memory.c on top of the tree of [MemTree]: the ranges of registered memory
    with their reference counts, and the [madvise] calls that mark them.  The C library
    and the kernel are parameters ([Host]), with what the code relies on in [HostLaws]. *)

From Stdlib Require Import ZArith Lia Ascii String.
From stdpp Require Import base list gmap fin_maps strings.
From S2P Require Import Prelude MemTree.

#[local] Open Scope cint_scope.
#[local] Open Scope Z_scope.

Inductive advice : Set := MADV_DONTFORK | MADV_DOFORK.

#[export] Instance advice_eq_dec : EqDecision advice.
Proof. solve_decision. Defined.

(** ** The host

    [malloc] returns 0 or an address with whatever is in the memory there; [smaps] are
    the lines that [fgets] reads, when the file can be opened; [posix_memalign] returns
    its error and the address. *)
Class Host : Type := {
  host : Type;
  malloc : gmap Z ibv_mem_node -> host -> Z * ibv_mem_node * host;
  madvise : Z -> Z -> advice -> host -> Z * host;
  posix_memalign : Z -> Z -> host -> Z * Z * host;
  release : Z -> host -> host;
  getenv_hugepages : host -> bool;
  sysconf_pagesize : host -> Z;
  errno : host -> Z;
  get_copy_on_fork : host -> bool;
  smaps : host -> option (list string);
  dontcopy : host -> Z -> bool }.

(** [dontcopy o v]: the page of [v] is left out of the child's memory. *)
Class HostLaws (H : Host) : Prop := {
  malloc_fresh h o p n o' : malloc h o = (p, n, o') -> p = 0 \/ h !! p = None;
  malloc_dontcopy h o v : dontcopy (malloc h o).2 v = dontcopy o v;
  memalign_dontcopy a n o v : dontcopy (posix_memalign a n o).2 v = dontcopy o v;
  release_dontcopy a o v : dontcopy (release a o) v = dontcopy o v;
  madvise_dontcopy a n adv o o' v : madvise a n adv o = (0, o') ->
    dontcopy o' v = if (a <=? v) && (v <? a + n) then bool_decide (adv = MADV_DONTFORK) else dontcopy o v }.

Record fork `{Host} : Type := mk_fork {
  mem : mm; mm_mutex : bool; page_size : Z; huge_page_enabled : bool; too_late : bool; os : host }.

Arguments mk_fork {H}.

Section code.
Context `{Host}.

Definition set_mem (m : mm) (s : fork) : fork := mk_fork m (mm_mutex s) (page_size s) (huge_page_enabled s) (too_late s) (os s).
Definition set_mutex (b : bool) (s : fork) : fork := mk_fork (mem s) b (page_size s) (huge_page_enabled s) (too_late s) (os s).
Definition set_page_size (n : Z) (s : fork) : fork := mk_fork (mem s) (mm_mutex s) n (huge_page_enabled s) (too_late s) (os s).
Definition set_huge (s : fork) : fork := mk_fork (mem s) (mm_mutex s) (page_size s) true (too_late s) (os s).
Definition set_too_late (s : fork) : fork := mk_fork (mem s) (mm_mutex s) (page_size s) (huge_page_enabled s) true (os s).
Definition set_os (o : host) (s : fork) : fork := mk_fork (mem s) (mm_mutex s) (page_size s) (huge_page_enabled s) (too_late s) o.

(** An operation of the tree, and a call of the host. *)
Definition on_tree {A} (m : M mm A) : M fork A := fun s =>
  match m (mem s) with Done a m' => Done a (set_mem m' s) | Fault u => Fault u end.

Definition syscall {A} (f : host -> A * host) : M fork A := fun s => Done (f (os s)).1 (set_os (f (os s)).2 s).

Definition pthread_mutex_lock : M fork unit := fun s => if mm_mutex s then Fault ApiMisuse else Done tt (set_mutex true s).
Definition pthread_mutex_unlock : M fork unit := modify (set_mutex false).

(** [int] arithmetic of the reference counts. *)
Definition add_int (x y : Z) : Z := to_signed 32 (x + y).

(** *** Page sizes *)

Fixpoint strstr (s sub : string) : bool :=
  String.prefix sub s || match s with EmptyString => false | String _ s' => strstr s' sub end.

Definition is_space (c : ascii) : bool := (N_of_ascii c =? 32)%N || ((9 <=? N_of_ascii c)%N && (N_of_ascii c <=? 13)%N).

Fixpoint skip (p : ascii -> bool) (s : string) : string :=
  match s with String c s' => if p c then skip p s' else s | EmptyString => EmptyString end.

Definition digit (base : Z) (c : ascii) : option Z :=
  let n := Z.of_N (N_of_ascii c) in
  let d := if (48 <=? n) && (n <=? 57) then n - 48 else if (97 <=? n) && (n <=? 102) then n - 87
           else if (65 <=? n) && (n <=? 70) then n - 55 else base in
  if d <? base then Some d else None.

Fixpoint digits (base acc : Z) (s : string) : Z * string :=
  match s with
  | String c s' => match digit base c with Some d => digits base (acc * base + d) s' | None => (acc, s) end
  | EmptyString => (acc, s)
  end.

(** The conversions [%lu] and [%lx] of [sscanf], for numbers as smaps has them: without
    sign or prefix, and below 2^64. *)
Definition scan_number (base : Z) (s : string) : option (Z * string) :=
  match skip is_space s with
  | String c s' => match digit base c with Some d => Some (digits base d s') | None => None end
  | EmptyString => None
  end.

(** [sscanf(buf, "%lx-%lx", ...)], when it returns 2 *)
Definition scan_range (s : string) : option (Z * Z) :=
  '(a, r) ← scan_number 16 s;
  match r with
  | String c r' => if Ascii.eqb c "-" then '(b, _) ← scan_number 16 r'; Some (a, b) else None
  | EmptyString => None
  end.

(** [sscanf(buf, "%*s %lu", &size)], when it returns 1 *)
Definition scan_size (s : string) : option Z :=
  match skip is_space s with
  | EmptyString => None
  | w => fst <$> scan_number 10 (skip (fun c => negb (is_space c)) w)
  end.

Fixpoint smaps_page_size (dflt : Z) (lines : list string) : Z :=
  match lines with
  | [] => dflt
  | buf :: lines' =>
      if strstr buf "KernelPageSize:" then
        match scan_size buf with Some size => size *{64} 1024 | None => smaps_page_size dflt lines' end
      else smaps_page_size dflt lines'
  end.

Fixpoint find_page_size (dflt base : Z) (lines : list string) : Z :=
  match lines with
  | [] => dflt
  | buf :: lines' =>
      match scan_range buf with
      | Some (range_start, range_end) =>
          if (range_start <=? base) && (base <? range_end) then smaps_page_size dflt lines'
          else find_page_size dflt base lines'
      | None => find_page_size dflt base lines'
      end
  end.

Definition get_page_size (base : Z) (s : fork) : Z :=
  match smaps (os s) with
  | Some lines => find_page_size (page_size s) base lines
  | None => page_size s
  end.

(** *** Initialization *)

Inductive ibv_fork_status : Set := IBV_FORK_DISABLED | IBV_FORK_ENABLED | IBV_FORK_UNNEEDED.

Definition ibv_is_fork_initialized : M fork ibv_fork_status :=
  s ← get;
  if get_copy_on_fork (os s) then mret IBV_FORK_UNNEEDED
  else mret (if negb (mm_root (mem s) =? 0) then IBV_FORK_ENABLED else IBV_FORK_DISABLED).

Definition UINTPTR_MAX : Z := 2 ^ 64 - 1.

(** [x & ~(size - 1)] *)
Definition page_down (x size : Z) : Z := Z.land x (~{64} (size -{64} 1)).

Definition ibv_fork_init : M fork Z :=
  s ← get;
  when (getenv_hugepages (os s)) (modify set_huge);;
  s ← get;
  if negb (mm_root (mem s) =? 0) then mret 0
  else
    st ← ibv_is_fork_initialized;
    match st with
    | IBV_FORK_UNNEEDED => mret 0
    | _ =>
        if too_late s then mret EINVAL
        else
          modify (set_page_size (sysconf_pagesize (os s)));;
          s ← get;
          if page_size s <? 0 then mret (errno (os s))
          else
            '(err, tmp) ← syscall (posix_memalign (page_size s) (page_size s));
            if negb (err =? 0) then mret ENOMEM
            else
              s ← get;
              let size := if huge_page_enabled s then get_page_size tmp s else page_size s in
              let tmp_aligned := if huge_page_enabled s then page_down tmp size else tmp in
              r1 ← syscall (madvise tmp_aligned size MADV_DONTFORK);
              r ← (if negb (r1 =? 0) then mret r1 else syscall (madvise tmp_aligned size MADV_DOFORK));
              syscall (fun o => (tt, release tmp o));;
              if negb (r =? 0) then mret ENOSYS
              else
                s ← get;
                '(p, _) ← syscall (malloc (nodes (mem s)));
                if p =? 0 then mret ENOMEM
                else
                  modify (fun s => set_mem (mk_mm p (<[p := mk_node IBV_BLACK 0 0 0 0 UINTPTR_MAX 0]> (nodes (mem s)))) s);;
                  mret 0
    end.

(** *** Ranges *)

Definition with_end (x : Z) (n : ibv_mem_node) : ibv_mem_node :=
  mk_node (n_color n) (n_parent n) (n_left n) (n_right n) (n_start n) x (n_refcnt n).
Definition with_refcnt (x : Z) (n : ibv_mem_node) : ibv_mem_node :=
  mk_node (n_color n) (n_parent n) (n_left n) (n_right n) (n_start n) (n_end n) x.

Definition merge_ranges (node prev : Z) : M mm Z :=
  n ← node_at node;
  upd prev (with_end (n_end n));;
  upd prev (with_refcnt (n_refcnt n));;
  mm_remove node;;
  mret prev.

Definition split_range (node cut_line : Z) : M fork Z :=
  s ← get;
  '(new_node, junk) ← syscall (malloc (nodes (mem s)));
  if new_node =? 0 then mret 0
  else
    n ← on_tree (node_at node);
    on_tree (modify (fun m => mk_mm (mm_root m) (<[new_node :=
      mk_node (n_color junk) (n_parent junk) (n_left junk) (n_right junk) cut_line (n_end n) (n_refcnt n)]> (nodes m))));;
    on_tree (upd node (with_end (cut_line -{64} 1)));;
    on_tree (mm_add new_node);;
    mret new_node.

Definition get_start_node (start inc : Z) : M fork Z :=
  node ← on_tree (mm_find_start start);
  n ← on_tree (node_at node);
  if n_start n <? start then split_range node start
  else
    tmp ← on_tree (mm_prev node);
    if negb (tmp =? 0) then
      t ← on_tree (node_at tmp);
      if n_refcnt t =? add_int (n_refcnt n) inc then on_tree (merge_ranges node tmp) else mret node
    else mret node.

(** [if (tmp && tmp->refcnt == node->refcnt) node = merge_ranges(...);]; the range that
    is merged goes away. *)
Definition undo_merge (node tmp gone into : Z) : M fork Z :=
  if negb (tmp =? 0) then
    t ← on_tree (node_at tmp);
    n ← on_tree (node_at node);
    if n_refcnt t =? n_refcnt n then on_tree (merge_ranges gone into) else mret node
  else mret node.

Definition undo_node (node start inc : Z) : M fork Z :=
  n ← on_tree (node_at node);
  node ← (if n_start n <? start then
            tmp ← split_range node start;
            if negb (tmp =? 0) then
              on_tree (upd node (fun n => with_refcnt (add_int (n_refcnt n) inc) n));;
              mret tmp
            else mret 0
          else mret node);
  if node =? 0 then mret 0
  else
    tmp ← on_tree (mm_prev node);
    node ← undo_merge node tmp node tmp;
    tmp ← on_tree (mm_next node);
    undo_merge node tmp tmp node.

Definition do_madvise (addr length : Z) (advice_ : advice) (range_page_size : Z) : M fork Z :=
  ret ← syscall (madvise addr length advice_);
  if (ret =? 0) || bool_decide (advice_ = MADV_DONTFORK) then mret ret
  else
    when (range_page_size <? length)
      (mapM (fun i => syscall (madvise (addr + i * range_page_size) range_page_size MADV_DOFORK))
         (seqZ 0 ((length + range_page_size - 1) / range_page_size));; mret tt);;
    mret 0.

(** How the loop is left: at its end with the current [node], with [goto out], or with
    [goto again] and a new [end]. *)
Inductive left_loop : Set :=
| Ended (node : Z)
| Out (ret : Z)
| Again (end_ : Z).

Fixpoint madvise_loop (fuel : nat) (start end_ : Z) (advice_ : advice) (inc range_page_size : Z) (rolling_back : bool) (node : Z)
    : M fork left_loop :=
  match fuel with
  | O => fail FuelOut
  | S fuel' =>
      if node =? 0 then mret (Ended node)
      else
        n ← on_tree (node_at node);
        if end_ <? n_start n then mret (Ended node)
        else
          ok ← (if end_ <? n_end n then p ← split_range node (end_ +{64} 1); mret (negb (p =? 0)) else mret true);
          if negb ok then mret (Out (-1))
          else
            n ← on_tree (node_at node);
            ret ← (if ((inc =? -1) && (n_refcnt n =? 1)) || ((inc =? 1) && (n_refcnt n =? 0)) then
                     if n_start n <? start then do_madvise start (n_end n -{64} start +{64} 1) advice_ range_page_size
                     else do_madvise (n_start n) (n_end n -{64} n_start n +{64} 1) advice_ range_page_size
                   else mret 0);
            if negb (ret =? 0) then
              node ← undo_node node start inc;
              if rolling_back || (node =? 0) then mret (Out ret)
              else n ← on_tree (node_at node); mret (Again (n_end n))
            else
              on_tree (upd node (fun n => with_refcnt (add_int (n_refcnt n) inc) n));;
              node ← on_tree (mm_next node);
              madvise_loop fuel' start end_ advice_ inc range_page_size rolling_back node
  end.

(** From the label [again]; [inr] is a [goto again] with a new [end]. *)
Definition madvise_again (start end_ : Z) (advice_ : advice) (range_page_size : Z) (rolling_back : bool) : M fork (Z + Z) :=
  let inc := if bool_decide (advice_ = MADV_DONTFORK) then 1 else -1 in
  node ← get_start_node start inc;
  if node =? 0 then mret (inl (-1))
  else
    s ← get;
    o ← madvise_loop (S (rounds (mem s))) start end_ advice_ inc range_page_size rolling_back node;
    match o with
    | Out ret => mret (inl ret)
    | Again end_ => mret (inr end_)
    | Ended node =>
        when (negb (node =? 0))
          (tmp ← on_tree (mm_prev node);
           when (negb (tmp =? 0))
             (n ← on_tree (node_at node);
              t ← on_tree (node_at tmp);
              when (n_refcnt n =? n_refcnt t) (on_tree (merge_ranges node tmp);; mret tt)));;
        mret (inl 0)
    end.

Definition range_page_size (base : Z) (s : fork) : Z := if huge_page_enabled s then get_page_size base s else page_size s.

Definition range_start (base rps : Z) : Z := page_down base rps.
Definition range_end (base size rps : Z) : Z := page_down (base +{64} size +{64} rps -{64} 1) rps -{64} 1.

Definition ibv_madvise_range (base size : Z) (advice_ : advice) : M fork Z :=
  if (size =? 0) || (base =? 0) then mret 0
  else
    rps ← gets (range_page_size base);
    let start := range_start base rps in
    let end_ := range_end base size rps in
    pthread_mutex_lock;;
    o ← madvise_again start end_ advice_ rps false;
    ret ← match o with
          | inl ret => mret ret
          | inr end_ =>
              madvise_again start end_ (if bool_decide (advice_ = MADV_DONTFORK) then MADV_DOFORK else MADV_DONTFORK) rps true;;
              mret (-1)
          end;
    pthread_mutex_unlock;;
    mret ret.

Definition ibv_dontfork_range (base size : Z) : M fork Z :=
  s ← get;
  if negb (mm_root (mem s) =? 0) then ibv_madvise_range base size MADV_DONTFORK
  else modify set_too_late;; mret 0.

Definition ibv_dofork_range (base size : Z) : M fork Z :=
  s ← get;
  if negb (mm_root (mem s) =? 0) then ibv_madvise_range base size MADV_DOFORK
  else modify set_too_late;; mret 0.

End code.

(** ** Reading smaps *)

Section smaps.
Open Scope string_scope.

(** The size is the kernel page size of the mapping that has the address, in bytes. *)
Lemma page_size_of_mapping dflt base pre hdr body kps post a b n :
  Forall (fun l => forall a b, scan_range l = Some (a, b) -> ~ (a <= base < b)) pre ->
  scan_range hdr = Some (a, b) -> a <= base < b ->
  Forall (fun l => strstr l "KernelPageSize:" = false) body ->
  strstr kps "KernelPageSize:" = true -> scan_size kps = Some n -> 0 <= n < 2 ^ 54 ->
  find_page_size dflt base (pre ++ hdr :: body ++ kps :: post) = n * 1024.
Proof.
  intros Hpre Hhdr Hab Hbody Hk Hn Hlt. induction Hpre as [|l pre Hl Hpre IH]; cbn [app find_page_size].
  - rewrite Hhdr, (proj2 (Z.leb_le _ _)), (proj2 (Z.ltb_lt _ _)) by lia. cbn [andb].
    induction Hbody as [|l body Hl Hbody IH]; cbn [app smaps_page_size]; [|by rewrite Hl].
    rewrite Hk, Hn. apply wrap_small. unfold in_width. lia.
  - destruct (scan_range l) as [[a' b']|] eqn:E; [|exact IH]. specialize (Hl a' b' eq_refl).
    destruct (Z.leb_spec a' base), (Z.ltb_spec base b'); cbn [andb]; try exact IH. lia.
Qed.

Lemma page_size_of_mapping_example :
  find_page_size 4096 0x7f0000201000
    ["00400000-0040b000 r-xp 00000000 08:01 131 /bin/cat"; "Size: 44 kB"; "KernelPageSize:        4 kB";
     "7f0000200000-7f0000400000 rw-s 00000000 00:0f 7 /dev/hugepages/x"; "Size: 2048 kB"; "KernelPageSize:     2048 kB"; "AnonHugePages: 0 kB"]
  = 2 * 1024 * 1024.
Proof. vm_compute. done. Qed.

End smaps.
