(* ===== verification/ForkRange.v ===== *)
(** * Ranges and their reference counts

    The operations of [Fork] on the list of ranges that the tree of [MemTree] holds.  The
    ranges tile the address space; the count of an address is that of its range; two
    neighbours have different counts.  While the kernel and [malloc] do not fail,
    [ibv_dontfork_range] and [ibv_dofork_range] add one to and take one from the count of
    every address of the pages that they are called for, and a page is kept from the
    child of a fork exactly while its count is positive. *)

From Stdlib Require Import ZArith Lia String.
From stdpp Require Import base list gmap fin_maps strings sorting.
From S2P Require Import Prelude MemTree RedBlack TreeRemove Fork.

#[local] Open Scope cint_scope.
#[local] Open Scope Z_scope.

Definition item : Type := Z * range.

(** ** Lists of ranges *)

Definition covers (i : item) (v : Z) : Prop := r_start i.2 <= v <= r_end i.2.

(** The ranges follow each other from [lo] to [hi]. *)
Fixpoint tiles (lo : Z) (l : list item) (hi : Z) : Prop :=
  match l with
  | [] => lo = hi + 1
  | i :: l' => r_start i.2 = lo /\ lo <= r_end i.2 /\ tiles (r_end i.2 + 1) l' hi
  end.

(** The counts are those of [g]. *)
Definition counts (g : Z -> Z) (l : list item) : Prop := Forall (fun i => forall v, covers i v -> r_cnt i.2 = g v) l.

Definition differ (i j : item) : Prop := r_cnt i.2 <> r_cnt j.2.

(** A relation between the last of one list and the first of another. *)
Definition seam (R : item -> item -> Prop) (l1 l2 : list item) : Prop :=
  forall i j, last l1 = Some i -> head l2 = Some j -> R i j.

Fixpoint uneven (l : list item) : Prop :=
  match l with [] => True | i :: l' => seam differ [i] l' /\ uneven l' end.

Lemma tiles_app lo l1 l2 hi : tiles lo (l1 ++ l2) hi <-> exists m, tiles lo l1 (m - 1) /\ tiles m l2 hi.
Proof.
  revert lo. induction l1 as [|i l1 IH]; intros lo; cbn.
  - split; [intros H; exists lo; split; [lia|done]|]. intros (m & E & H). by replace lo with m by lia.
  - rewrite IH. naive_solver.
Qed.

Lemma tiles_le lo l hi : tiles lo l hi -> lo <= hi + 1.
Proof. revert lo. induction l as [|i l IH]; intros lo; cbn; [lia|]. intros (? & ? & H%IH). lia. Qed.

Lemma tiles_bounds lo l hi i : tiles lo l hi -> i ∈ l -> lo <= r_start i.2 <= r_end i.2 /\ r_end i.2 <= hi.
Proof.
  revert lo. induction l as [|j l IH]; intros lo; cbn; [intros _ H; by apply elem_of_nil in H|].
  intros (E & Hle & Ht) [->|Hi]%elem_of_cons.
  - apply tiles_le in Ht. lia.
  - specialize (IH _ Ht Hi). lia.
Qed.

Lemma tiles_sorted lo l hi : tiles lo l hi -> sorted l.
Proof.
  revert lo. induction l as [|i l IH]; intros lo; cbn; [constructor|]. intros (E & Hle & Ht). constructor; [by eapply IH|].
  apply list.Forall_forall. intros j Hj. destruct (tiles_bounds _ _ _ _ Ht Hj). lia.
Qed.

(** The ranges before and after one of them. *)
Lemma tiles_mid lo l1 i l2 hi : tiles lo (l1 ++ i :: l2) hi <->
  tiles lo l1 (r_start i.2 - 1) /\ r_start i.2 <= r_end i.2 /\ tiles (r_end i.2 + 1) l2 hi.
Proof.
  rewrite tiles_app. cbn. split.
  - intros (m & H1 & <- & H2 & H3). done.
  - intros (H1 & H2 & H3). eexists. split; [exact H1|done].
Qed.

Lemma tiles_split lo l1 a x l2 hi b cut k k' :
  tiles lo (l1 ++ (a, x) :: l2) hi -> r_start x < cut <= r_end x ->
  tiles lo (l1 ++ (a, mk_range (r_start x) (cut - 1) k) :: (b, mk_range cut (r_end x) k') :: l2) hi.
Proof. rewrite !tiles_mid. cbn. intros (H1 & H2 & H3) Hc. split_and!; [done|lia|lia|lia|done]. Qed.

Lemma tiles_merge lo l1 p xp a x l2 hi k :
  tiles lo (l1 ++ (p, xp) :: (a, x) :: l2) hi -> tiles lo (l1 ++ (p, mk_range (r_start xp) (r_end x) k) :: l2) hi.
Proof. rewrite !tiles_mid. cbn. intros (H1 & H2 & H3 & H4 & H5). split_and!; [done|lia|done]. Qed.

Lemma counts_app g l1 l2 : counts g (l1 ++ l2) <-> counts g l1 /\ counts g l2.
Proof. apply Forall_app. Qed.

Lemma uneven_app l1 l2 : uneven (l1 ++ l2) <-> uneven l1 /\ uneven l2 /\ seam differ l1 l2.
Proof.
  induction l1 as [|i l1 IH]; cbn [app uneven].
  - split; [intros H; split_and!; [done|done|by intros i j]|tauto].
  - rewrite IH. unfold seam. destruct l1 as [|k l1]; cbn [app last head]; [naive_solver|].
    change (last (i :: k :: l1)) with (last (k :: l1)). naive_solver.
Qed.

(** Bounds of the ranges at hand. *)
Ltac cov := unfold covers in *; cbn [fst snd r_start r_end r_cnt] in *; lia.

(** ** The tree as a list *)

Definition valid (m : mm) (l : list item) : Prop := exists T, wf m [] T /\ balanced T /\ items T = l.

Definition range_of (n : ibv_mem_node) : range := mk_range (n_start n) (n_end n) (n_refcnt n).

Section tree.
Implicit Types (m : mm) (l : list item).

Lemma wp_node_v m l1 a x l2 (Q : ibv_mem_node -> mm -> Prop) :
  valid m (l1 ++ (a, x) :: l2) -> (forall n, range_of n = x -> Q n m) -> wp (node_at a) Q m.
Proof.
  intros (T & Hw & _ & Hit) HQ. destruct (focus_item _ _ _ _ _ Hit) as (K & c & l & r & -> & _ & _).
  apply (wf_refocus _ _ _ K (Node c l a x r)) in Hw; [|done]. eapply (wp_focus m K Left); [exact Hw|]. apply HQ. by destruct x.
Qed.

(** Writing to the members of the range. *)
Definition only_range (f : ibv_mem_node -> ibv_mem_node) : Prop :=
  forall n, n_color (f n) = n_color n /\ n_parent (f n) = n_parent n /\ n_left (f n) = n_left n /\ n_right (f n) = n_right n.

Lemma valid_update m l1 a x l2 :
  valid m (l1 ++ (a, x) :: l2) ->
  exists n, a <> 0 /\ nodes m !! a = Some n /\ range_of n = x /\ forall f x', only_range f -> range_of (f n) = x' ->
    valid (mk_mm (mm_root m) (<[a := f n]> (nodes m))) (l1 ++ (a, x') :: l2).
Proof.
  intros (T & Hw & Hb & Hit). destruct (focus_item _ _ _ _ _ Hit) as (K & c & l & r & -> & -> & ->).
  apply (wf_refocus _ _ _ K (Node c l a x r)) in Hw; [|done]. destruct (wf_node m K Left _ _ _ _ _ Hw) as [H0 Hn].
  exists (node_of Left c (above K) (root l) (root r) x). split_and!; [done|done|by destruct x|]. intros f x' Hf Hx.
  assert (E : f (node_of Left c (above K) (root l) (root r) x) = node_of Left c (above K) (root l) (root r) x').
  { specialize (Hf (node_of Left c (above K) (root l) (root r) x)) as (H1 & H2 & H3 & H4). subst x'.
    destruct (f (node_of Left c (above K) (root l) (root r) x)) as [c' p' l' r' s' e' k']. cbn in *. congruence. }
  rewrite E. exists (plug K (Node c l a x' r)). split_and!.
  - apply wf_whole. apply (wf_update m K Left c l a x r c x' Hw).
  - destruct (unplug _ _ Hb) as (c' & n & Hr & HK). eapply fits_plug; [exact HK|]. inversion Hr; subst; eauto with rbt.
  - rewrite items_plug. cbn [items]. assoc.
Qed.

Lemma wp_upd_v m l1 a x l2 f x' (Q : unit -> mm -> Prop) :
  valid m (l1 ++ (a, x) :: l2) -> only_range f -> (forall n, range_of n = x -> range_of (f n) = x') ->
  (forall m', valid m' (l1 ++ (a, x') :: l2) -> Q tt m') -> wp (upd a f) Q m.
Proof.
  intros Hv Hf Hx HQ. destruct (valid_update _ _ _ _ _ Hv) as (n & H0 & Hn & Hr & Hu). eapply wp_upd_node; [done|exact Hn|].
  apply HQ, Hu; [done|by apply Hx].
Qed.

Lemma wp_prev_v m l1 a x l2 (Q : Z -> mm -> Prop) :
  valid m (l1 ++ (a, x) :: l2) -> Q (last_addr l1) m -> wp (mm_prev a) Q m.
Proof. intros (T & Hw & _ & Hit) HQ. by eapply wp_mm_prev. Qed.

Lemma wp_next_v m l1 a x l2 (Q : Z -> mm -> Prop) :
  valid m (l1 ++ (a, x) :: l2) -> Q (head_addr l2) m -> wp (mm_next a) Q m.
Proof. intros (T & Hw & _ & Hit) HQ. by eapply wp_mm_next. Qed.

Lemma valid_nonzero m l1 a x l2 : valid m (l1 ++ (a, x) :: l2) -> a <> 0.
Proof.
  intros (T & Hw & _ & Hit). destruct (focus_item _ _ _ _ _ Hit) as (K & c & l & r & -> & _ & _).
  apply (wf_refocus _ _ _ K (Node c l a x r)) in Hw; [|done]. apply (wf_node m K Left) in Hw. tauto.
Qed.

Lemma wp_find_start_loop s start t : forall fuel par lo hi (Q : Z -> mm -> Prop),
  rep (nodes s) par t -> (length (items t) < fuel)%nat -> tiles lo (items t) hi -> lo <= start <= hi ->
  (forall l1 a x l2, items t = l1 ++ (a, x) :: l2 -> covers (a, x) start -> Q a s) ->
  wp (find_start_loop fuel start (root t)) Q s.
Proof.
  induction t as [|c l IHl a x r IHr]; intros fuel par lo hi Q Hrep Hf Ht Hs HQ; [cbn in Ht; lia|]. destruct fuel as [|fuel]; [lia|].
  cbn [find_start_loop root]. destruct Hrep as (Ha0 & Hn & Hl & Hr). rewrite (proj2 (Z.eqb_neq _ _) Ha0). apply wp_bind.
  eapply wp_node_at; [done|exact Hn|]. cbn [node_of n_start n_end n_left n_right items] in *. rewrite length_app in Hf. cbn [length] in Hf.
  apply tiles_mid in Ht as (Hl' & Hx & Hr'). cbn [snd] in *.
  destruct ((r_start x <=? start) && (start <=? r_end x)) eqn:E.
  - apply wp_ret. eapply HQ; [done|]. unfold covers. cbn. lia.
  - destruct (Z.ltb_spec (r_start x) start).
    + eapply IHr; [exact Hr|lia|exact Hr'|lia|]. intros l1 b y l2 Ei. eapply (HQ (items l ++ (a, x) :: l1) _ y l2). rewrite Ei. assoc.
    + eapply IHl; [exact Hl|lia|exact Hl'|lia|]. intros l1 b y l2 Ei. eapply (HQ l1 _ y (l2 ++ (a, x) :: items r)). rewrite Ei. assoc.
Qed.

Lemma wp_find_v m l lo hi start (Q : Z -> mm -> Prop) :
  valid m l -> tiles lo l hi -> lo <= start <= hi ->
  (forall l1 a x l2, l = l1 ++ (a, x) :: l2 -> covers (a, x) start -> Q a m) -> wp (mm_find_start start) Q m.
Proof.
  intros (T & Hw & _ & <-) Ht Hs HQ. unfold mm_find_start. apply wp_bind, wp_get. rewrite (w_root _ _ _ Hw). cbn [top].
  eapply wp_find_start_loop; [exact (w_rep _ _ _ Hw)| |exact Ht|exact Hs|exact HQ].
  unfold rounds. pose proof (wf_size _ _ _ Hw) as Hz. rewrite app_nil_r in Hz. unfold addrs in Hz. rewrite length_fmap in Hz. lia.
Qed.

Lemma only_end e : only_range (with_end e).
Proof. by intros []. Qed.

Lemma only_refcnt k : only_range (with_refcnt k).
Proof. by intros []. Qed.

Lemma step_over l1 (i : item) l2 : l1 ++ i :: l2 = (l1 ++ [i]) ++ l2.
Proof. assoc. Qed.

Lemma last_addr_snoc l p x : last_addr (l ++ [(p, x)]) = p.
Proof. unfold last_addr. by rewrite last_snoc. Qed.

Lemma wp_merge_ranges m l1 p xp a x l2 (Q : Z -> mm -> Prop) :
  valid m (l1 ++ (p, xp) :: (a, x) :: l2) ->
  (forall m', valid m' (l1 ++ (p, mk_range (r_start xp) (r_end x) (r_cnt x)) :: l2) -> Q p m') ->
  wp (merge_ranges a p) Q m.
Proof.
  intros Hv HQ. unfold merge_ranges. apply wp_bind. eapply wp_node_v; [rewrite (step_over l1) in Hv; exact Hv|]. intros n Hn.
  assert (Hx : n_end n = r_end x /\ n_refcnt n = r_cnt x) by (by rewrite <- Hn). destruct Hx as [-> ->].
  apply wp_bind. eapply (wp_upd_v m l1 p xp _ _ (mk_range (r_start xp) (r_end x) (r_cnt xp))); [exact Hv|apply only_end|by intros n' <-|]. intros m1 H1.
  apply wp_bind. eapply (wp_upd_v m1 l1 p _ _ _ (mk_range (r_start xp) (r_end x) (r_cnt x))); [exact H1|apply only_refcnt| |].
  { intros n' E. injection E as E1 E2 E3. unfold range_of. cbn. by rewrite E1, E2. }
  intros m2 (T & Hw & Hb & Hit). cbn [r_start r_end r_cnt] in Hit. apply wp_bind. rewrite (step_over l1) in Hit.
  eapply wp_mm_remove; [exact Hw|exact Hb|exact Hit|]. intros m3 T' Hw' Hb' Hit'. apply wp_ret, HQ. exists T'. split_and!; [done|done|].
  rewrite Hit'. assoc.
Qed.

Lemma wp_add_v p h new nn l1 l2 (Q : unit -> mm -> Prop) :
  valid (mk_mm p h) (l1 ++ l2) -> l1 <> [] -> new <> 0 -> h !! new = None -> sorted (l1 ++ l2) ->
  Forall (starts_before (n_start nn)) l1 -> Forall (fun i => ~ starts_before (n_start nn) i) l2 ->
  (forall m', valid m' (l1 ++ (new, range_of nn) :: l2) -> Q tt m') -> wp (mm_add new) Q (mk_mm p (<[new := nn]> h)).
Proof.
  intros (T & Hw & Hb & Hit) Hl1 Hn0 Hnew Hs H1 H2 HQ. rewrite <- Hit in Hs.
  refine (wp_mm_add (mk_mm p h) T new nn l1 l2 Q Hw _ Hb Hn0 Hnew Hs Hit H1 H2 _).
  - intros ->. cbn in Hit. by destruct l1.
  - intros m' T' Hw' Hb' Hit'. apply HQ. by exists T'.
Qed.

End tree.

(** ** One call *)

Section calls.
Context {H : Host} {HL : HostLaws H}.
Implicit Types (s : fork) (l : list item).

(** Only the tree and the host may differ, and no page is marked or unmarked. *)
Definition unchanged (s s' : fork) : Prop :=
  mm_mutex s' = mm_mutex s /\ page_size s' = page_size s /\ huge_page_enabled s' = huge_page_enabled s /\
  too_late s' = too_late s /\ forall v, dontcopy (os s') v = dontcopy (os s) v.

#[local] Instance unchanged_pre : PreOrder unchanged.
Proof. split; [by intros s|]. intros s1 s2 s3 (?&?&?&?&E1) (?&?&?&?&E2). split_and!; try congruence. Qed.

Lemma wp_tree {A} (m : M mm A) (Q : A -> fork -> Prop) s :
  wp (on_tree m) Q s <-> wp m (fun a m' => Q a (set_mem m' s)) (mem s).
Proof. unfold wp, on_tree. by destruct (m (mem s)). Qed.

Lemma set_mem_id s : set_mem (mem s) s = s.
Proof. by destruct s. Qed.

Lemma wp_syscall {A} (f : host -> A * host) (Q : A -> fork -> Prop) s :
  Q (f (os s)).1 (set_os (f (os s)).2 s) -> wp (syscall f) Q s.
Proof. done. Qed.

Lemma sorted_update l1 a x x' l2 : sorted (l1 ++ (a, x) :: l2) -> r_start x' = r_start x -> sorted (l1 ++ (a, x') :: l2).
Proof.
  intros Hs E. apply sorted_app in Hs as (H1 & H2 & H3). apply StronglySorted_inv in H2 as [H2 Hx]. apply sorted_app. split_and!; [done| |].
  - constructor; [done|]. cbn in *. by rewrite E.
  - intros i j Hi [->|Hj]%elem_of_cons; [cbn; rewrite E; apply (H3 i (a, x) Hi); left|apply H3; [done|by right]].
Qed.

(** Where [__mm_add] puts the second half of a range. *)
Lemma tiles_cut lo l1 a x l2 hi cut e :
  tiles lo (l1 ++ (a, x) :: l2) hi -> r_start x < cut <= r_end x ->
  Forall (starts_before cut) (l1 ++ [(a, mk_range (r_start x) e (r_cnt x))]) /\ Forall (fun i => ~ starts_before cut i) l2.
Proof.
  intros (H1 & Hx & H2)%tiles_mid Hc. cbn [snd] in *. unfold starts_before. split; [apply Forall_app; split; [|apply Forall_singleton; cbn; lia]|];
    apply list.Forall_forall; intros i Hi; [pose proof (tiles_bounds _ _ _ _ H1 Hi)|pose proof (tiles_bounds _ _ _ _ H2 Hi)]; lia.
Qed.

Lemma wp_split_any s l1 a x l2 cut lo hi (Q : Z -> fork -> Prop) :
  valid (mem s) (l1 ++ (a, x) :: l2) -> tiles lo (l1 ++ (a, x) :: l2) hi -> 0 <= lo -> hi <= UINTPTR_MAX -> r_start x < cut <= r_end x ->
  (forall s', (exists h o, (malloc h o).1.1 = 0) -> mem s' = mem s -> unchanged s s' -> Q 0 s') ->
  (forall s' new, valid (mem s') (l1 ++ (a, mk_range (r_start x) (cut - 1) (r_cnt x)) :: (new, mk_range cut (r_end x) (r_cnt x)) :: l2) ->
     unchanged s s' -> new <> 0 -> Q new s') ->
  wp (split_range a cut) Q s.
Proof.
  intros Hv Ht Hlo Hhi Hc HQ0 HQ. unfold split_range. apply wp_bind, wp_get. apply wp_bind, wp_syscall.
  assert (Hd : forall v, dontcopy (malloc (nodes (mem s)) (os s)).2 v = dontcopy (os s) v) by (intros v; apply malloc_dontcopy).
  destruct (malloc (nodes (mem s)) (os s)) as [[p junk] o] eqn:E. cbn [fst snd] in *. destruct (Z.eqb_spec p 0) as [->|Hok].
  { apply wp_ret, HQ0; [|done|done]. exists (nodes (mem s)), (os s). by rewrite E. }
  destruct (malloc_fresh _ _ _ _ _ E) as [|Hp]; [done|].
  pose proof (tiles_bounds _ _ _ (a, x) Ht) as Hb. cbn [snd] in Hb. specialize (Hb ltac:(set_solver)).
  destruct (valid_update _ _ _ _ _ Hv) as (n & Ha0 & Hn & Hr & Hu). apply wp_bind, wp_tree. eapply wp_node_at; [done|exact Hn|].
  apply wp_bind, wp_tree, wp_modify. apply wp_bind, wp_tree. cbn [mem set_mem set_os mm_root nodes].
  assert (Hap : a <> p) by congruence. eapply wp_upd_node; [done|cbn [nodes]; rewrite lookup_insert_ne by done; exact Hn|]. cbn [mem set_mem set_os mm_root nodes].
  rewrite wrap_small by (unfold in_width, UINTPTR_MAX in *; lia). apply wp_bind, wp_tree. cbn [mem set_mem set_os].
  rewrite insert_insert_ne by done. set (nn := mk_node _ _ _ _ cut _ _).
  destruct (tiles_cut _ _ _ _ _ _ cut (cut - 1) Ht Hc) as [Hl1 Hl2].
  assert (Hv' : valid (mk_mm (mm_root (mem s)) (<[a := with_end (cut - 1) n]> (nodes (mem s))))
    ((l1 ++ [(a, mk_range (r_start x) (cut - 1) (r_cnt x))]) ++ l2)) by (rewrite <- step_over; apply Hu; [apply only_end|by rewrite <- Hr]).
  eapply wp_add_v; [exact Hv'|by destruct l1|done|by rewrite lookup_insert_ne| |exact Hl1|exact Hl2|].
  - rewrite <- step_over. eapply sorted_update; [eapply tiles_sorted; exact Ht|done].
  - intros m' Hm'. apply wp_ret. apply HQ; [|split_and!; try done; intros v; cbn|done].
    + replace (range_of nn) with (mk_range cut (r_end x) (r_cnt x)) in Hm' by (by rewrite <- Hr). by rewrite <- step_over in Hm'.
Qed.

Lemma wp_split_range s l1 a x l2 cut lo hi (Q : Z -> fork -> Prop) :
  (forall h o, (malloc h o).1.1 <> 0) ->
  valid (mem s) (l1 ++ (a, x) :: l2) -> tiles lo (l1 ++ (a, x) :: l2) hi -> 0 <= lo -> hi <= UINTPTR_MAX -> r_start x < cut <= r_end x ->
  (forall s' new, valid (mem s') (l1 ++ (a, mk_range (r_start x) (cut - 1) (r_cnt x)) :: (new, mk_range cut (r_end x) (r_cnt x)) :: l2) ->
     unchanged s s' -> new <> 0 -> Q new s') ->
  wp (split_range a cut) Q s.
Proof.
  intros Hok Hv Ht Hlo Hhi Hc HQ. eapply wp_split_any; [exact Hv|exact Ht|done..| |exact HQ]. intros s' (h & o & E). by destruct (Hok h o).
Qed.

(** Where the rest of the ranges starts. *)
Definition pos (l : list item) : Z := match l with i :: _ => r_start i.2 | [] => UINTPTR_MAX + 1 end.

Definition same_settings (s s' : fork) : Prop :=
  mm_mutex s' = mm_mutex s /\ page_size s' = page_size s /\ huge_page_enabled s' = huge_page_enabled s /\ too_late s' = too_late s.

#[local] Instance same_settings_pre : PreOrder same_settings.
Proof. split; [by intros s|]. intros s1 s2 s3 (?&?&?&?) (?&?&?&?). split_and!; congruence. Qed.

Lemma unchanged_same s s' : unchanged s s' -> same_settings s s'.
Proof. by intros (?&?&?&?&_). Qed.

(** The tree holds the counts [f], and a page is marked while its count is positive. *)
Record holds_counts (f : Z -> Z) (s : fork) (l : list item) : Prop := {
  h_valid : valid (mem s) l;
  h_tiles : tiles 0 l UINTPTR_MAX;
  h_counts : counts f l;
  h_uneven : uneven l;
  h_marks : forall v, 0 <= v <= UINTPTR_MAX -> dontcopy (os s) v = (0 <? f v) }.

Section one_call.
Context (f g : Z -> Z) (start end_ : Z) (advice_ : advice).
Let inc : Z := if bool_decide (advice_ = MADV_DONTFORK) then 1 else -1.
Context (malloc_ok : forall h o, (malloc h o).1.1 <> 0).
Context (madvise_ok : forall a n adv o, (madvise a n adv o).1 = 0).
Context (Hrange : 0 <= start <= end_) (Hend : end_ < UINTPTR_MAX).
Context (Hfg : forall v, g v = if (start <=? v) && (v <=? end_) then f v + inc else f v).
Context (Hf : forall v, 0 <= f v < 2 ^ 31) (Hg : forall v, 0 <= g v < 2 ^ 31).

(** In the loop: the ranges of [l1] are done, those of [rest] are not. *)
Record in_loop (s0 : fork) (l1 rest : list item) (s : fork) : Prop := {
  i_valid : valid (mem s) (l1 ++ rest);
  i_tiles : tiles 0 (l1 ++ rest) UINTPTR_MAX;
  i_done : counts g l1;
  i_rest : counts (fun v => if v <=? end_ then g v - inc else g v) rest;
  i_marks : forall v, 0 <= v <= UINTPTR_MAX -> dontcopy (os s) v = if v <? pos rest then 0 <? g v else 0 <? f v;
  i_uneven1 : uneven l1;
  i_uneven2 : uneven rest;
  i_seam : seam (fun i j => r_start j.2 <= end_ -> r_cnt i.2 <> r_cnt j.2 + inc) l1 rest;
  i_same : same_settings s0 s }.

Lemma inc_cases : (inc = 1 /\ advice_ = MADV_DONTFORK) \/ (inc = -1 /\ advice_ = MADV_DOFORK).
Proof. unfold inc. destruct advice_; [left|right]; (split; [|done]); [by rewrite bool_decide_eq_true_2|by rewrite bool_decide_eq_false_2]. Qed.

Lemma add_int_count x y : 0 <= x + y < 2 ^ 31 -> add_int x y = x + y.
Proof. intros Hx. unfold add_int, to_signed. rewrite wrap_small by (unfold in_width; lia). by rewrite (proj2 (Z.ltb_lt _ _)) by lia. Qed.

(** Counts do not see the addresses. *)
Lemma uneven_same l1 a a' x x' l2 : r_cnt x' = r_cnt x -> uneven (l1 ++ (a, x) :: l2) -> uneven (l1 ++ (a', x') :: l2).
Proof.
  intros E. rewrite !uneven_app. cbn [uneven]. unfold seam, differ. cbn [last head]. intros (H1 & [H2 H3] & H4). split_and!; [done| |done|].
  - intros i j [= <-] Hj. cbn. rewrite E. by apply (H2 (a, x)).
  - intros i j Hi [= <-]. cbn. rewrite E. by apply (H4 i (a, x)).
Qed.

Lemma g_before v : v < start -> g v = f v.
Proof. intros Hv. by rewrite Hfg, (proj2 (Z.leb_gt _ _)) by lia. Qed.

Lemma g_inside v : start <= v <= end_ -> g v = f v + inc.
Proof. intros Hv. by rewrite Hfg, !(proj2 (Z.leb_le _ _)) by lia. Qed.

Lemma g_after v : end_ < v -> g v = f v.
Proof. intros Hv. by rewrite Hfg, (proj2 (Z.leb_gt v end_)), andb_false_r by lia. Qed.

Lemma counts_before l hi : tiles 0 l hi -> hi < start -> counts f l -> counts g l.
Proof.
  intros Ht Hhi Hc. apply list.Forall_forall. intros i Hi v Hv. unfold counts in Hc. rewrite list.Forall_forall in Hc.
  destruct (tiles_bounds _ _ _ _ Ht Hi) as [_ Hb]. rewrite (Hc i Hi v Hv), g_before; [done|cov].
Qed.

Lemma counts_after lo l hi : tiles lo l hi -> start <= lo -> counts f l -> counts (fun v => if v <=? end_ then g v - inc else g v) l.
Proof.
  intros Ht Hlo Hc. apply list.Forall_forall. intros i Hi v Hv. unfold counts in Hc. rewrite list.Forall_forall in Hc.
  destruct (tiles_bounds _ _ _ _ Ht Hi) as [Hb _]. rewrite (Hc i Hi v Hv).
  destruct (Z.leb_spec v end_); [rewrite g_inside by cov; lia|by rewrite g_after].
Qed.

(** [get_start_node] *)
Lemma wp_get_start_node s l (Q : Z -> fork -> Prop) :
  valid (mem s) l -> tiles 0 l UINTPTR_MAX -> counts f l -> uneven l ->
  (forall v, 0 <= v <= UINTPTR_MAX -> dontcopy (os s) v = (0 <? f v)) ->
  (forall s' l1 a x l2, in_loop s l1 ((a, x) :: l2) s' -> covers (a, x) start -> Q a s') -> wp (get_start_node start inc) Q s.
Proof.
  intros Hv Ht Hc Hu Hm HQ. assert (Hinc : inc <> 0) by (destruct inc_cases; lia). unfold get_start_node. apply wp_bind, wp_tree.
  eapply wp_find_v; [exact Hv|exact Ht|lia|]. intros l1 a x l2 -> Hx. unfold covers in Hx. cbn [snd] in Hx.
  rewrite set_mem_id.  apply counts_app in Hc as [Hc1 Hc2]. apply Forall_cons in Hc2 as [Hcx Hc2]. cbn [snd] in Hcx.
  apply wp_bind, wp_tree. eapply wp_node_v; [exact Hv|]. intros n Hn. rewrite set_mem_id.
  replace (n_start n) with (r_start x) by (by rewrite <- Hn).
  pose proof Ht as (T1 & Tx & T2)%tiles_mid. cbn [snd] in *. destruct (Z.ltb_spec (r_start x) start) as [Hlt|Hge].
  - eapply wp_split_range; [done|exact Hv|exact Ht|lia|lia|lia|]. intros s' new Hv' Hun Hnew.
    apply (HQ s' (l1 ++ [(a, mk_range (r_start x) (start - 1) (r_cnt x))]) new (mk_range start (r_end x) (r_cnt x)) l2); [|cov].
    pose proof (tiles_split _ _ _ _ _ _ new start (r_cnt x) (r_cnt x) Ht ltac:(lia)) as Ht'. rewrite step_over in Hv', Ht'.
    assert (Htn : tiles start ((new, mk_range start (r_end x) (r_cnt x)) :: l2) UINTPTR_MAX) by (cbn; split_and!; [done|lia|done]).
    destruct Hun as (E1 & E2 & E3 & E4 & E5). split; [exact Hv'|exact Ht'| | | | | | |done].
    + apply counts_app. split; [eapply counts_before; [exact T1|lia|done]|]. apply Forall_singleton. unfold covers. cbn. intros v Hvx.
      rewrite g_before by lia. apply Hcx. cov.
    + eapply counts_after; [exact Htn|lia|]. constructor; [|done]. intros v Hvn. apply Hcx. cov.
    + intros v Hvr. rewrite E5, Hm by done. cbn [pos snd r_start]. destruct (Z.ltb_spec v start); [|done]. by rewrite g_before by lia.
    + apply uneven_app in Hu as (U1 & _ & U3). apply uneven_app. split_and!; [done|split; [by intros ? ?|done]|]. intros i j Hi [= <-]. by apply (U3 i (a, x)).
    + eapply uneven_app. eapply (uneven_same []); [|apply uneven_app in Hu as (_ & U2 & _); exact U2]. done.
    + intros i j Hi [= <-] _. rewrite last_snoc in Hi. injection Hi as <-. cbn. lia.
  - assert (Es : r_start x = start) by lia. pose proof (g_inside start ltac:(lia)) as Egs. rewrite <- (Hcx start) in Egs by cov.
    assert (Htx : tiles start ((a, x) :: l2) UINTPTR_MAX) by (cbn; split_and!; [done|lia|done]).
    assert (Hrest : counts (fun v => if v <=? end_ then g v - inc else g v) ((a, x) :: l2)) by (eapply counts_after; [exact Htx|lia|by constructor]).
    assert (Hdone : counts g l1) by (eapply counts_before; [exact T1|lia|done]).
    assert (Hhere : seam (fun i j => r_start j.2 <= end_ -> r_cnt i.2 <> r_cnt j.2 + inc) l1 ((a, x) :: l2) -> wp (mret a) Q s).
    { intros Hseam. apply wp_ret. apply (HQ s l1 a x l2); [|cov]. pose proof Hu as (U1 & U2 & _)%uneven_app. split; try done.
      intros v Hvr. rewrite Hm by done. cbn [pos snd]. destruct (Z.ltb_spec v (r_start x)); [|done]. by rewrite g_before by lia. }
    apply wp_bind, wp_tree. eapply wp_prev_v; [exact Hv|]. rewrite set_mem_id. destruct l1 as [|[p xp] l1 _] using rev_ind; [by apply Hhere|].
    rewrite last_addr_snoc. rewrite <- step_over in Hv, Ht, Hu.
    rewrite (proj2 (Z.eqb_neq _ _) (valid_nonzero _ _ _ _ _ Hv)). cbn [negb]. apply wp_bind, wp_tree. eapply wp_node_v; [exact Hv|].
    intros np Hnp. rewrite set_mem_id. replace (n_refcnt np) with (r_cnt xp) by (by rewrite <- Hnp).
    replace (n_refcnt n) with (r_cnt x) by (by rewrite <- Hn). rewrite add_int_count by (specialize (Hg start); lia).
    destruct (Z.eqb_spec (r_cnt xp) (r_cnt x + inc)) as [Ec|Ec].
    + apply wp_tree. eapply wp_merge_ranges; [exact Hv|]. intros m' Hv'. apply tiles_mid in T1 as (T1 & Txp & Txp'). cbn [snd tiles] in *.
      apply counts_app in Hdone as [Hdone Hxp]. apply Forall_cons in Hxp as [Hxp _]. cbn [snd] in Hxp.
      pose proof Hu as (U1 & [U2 U3] & U4)%uneven_app. cbn [uneven] in U3.
      apply (HQ _ l1 p (mk_range (r_start xp) (r_end x) (r_cnt x)) l2); [|cov]. split.
      * exact Hv'.
      * eapply tiles_merge. exact Ht.
      * exact Hdone.
      * apply Forall_cons in Hrest as [Hx' Hrest]. constructor; [|done]. cbn [snd r_cnt] in *. intros v Hvx.
        destruct (Z.lt_ge_cases v start); [|apply Hx'; cov]. rewrite (proj2 (Z.leb_le v end_)) by lia. specialize (Hxp v ltac:(cov)). lia.
      * intros v Hvr. cbn [os set_mem pos snd r_start]. rewrite Hm by done. destruct (Z.ltb_spec v (r_start xp)); [|done]. by rewrite g_before by lia.
      * exact U1.
      * eapply (uneven_same [] a); [|exact U3]. done.
      * intros i j Hi [= <-] _. cbn. rewrite <- Ec. by apply (U4 i (p, xp)).
      * done.
    + apply Hhere. intros i j Hi [= <-] _. rewrite last_snoc in Hi. by injection Hi as <-.
Qed.

Lemma wp_do_madvise s a n rps (Q : Z -> fork -> Prop) :
  (forall s', mem s' = mem s -> same_settings s s' ->
     (forall v, dontcopy (os s') v = if (a <=? v) && (v <? a + n) then bool_decide (advice_ = MADV_DONTFORK) else dontcopy (os s) v) -> Q 0 s') ->
  wp (do_madvise a n advice_ rps) Q s.
Proof.
  intros HQ. unfold do_madvise. apply wp_bind, wp_syscall. specialize (madvise_ok a n advice_ (os s)).
  destruct (madvise a n advice_ (os s)) as [r o] eqn:E. cbn [fst snd] in *. subst r. cbn [Z.eqb orb]. apply wp_ret, HQ; [done|done|].
  intros v. cbn [os set_os]. by apply madvise_dontcopy.
Qed.

(** The pages of a range are marked when its count leaves zero and unmarked when it
    becomes zero; what lies before [start] was merged with the range and is as it
    should be. *)
Lemma wp_mark s x rps (Q : Z -> fork -> Prop) :
  0 <= r_start x <= r_end x -> r_end x <= end_ -> start <= r_end x ->
  (forall v, r_start x <= v <= r_end x -> r_cnt x + inc = g v /\ dontcopy (os s) v = (0 <? f v)) ->
  (forall s', mem s' = mem s -> same_settings s s' ->
     (forall v, dontcopy (os s') v = if (r_start x <=? v) && (v <=? r_end x) then 0 <? g v else dontcopy (os s) v) -> Q 0 s') ->
  wp (if ((inc =? -1) && (r_cnt x =? 1)) || ((inc =? 1) && (r_cnt x =? 0)) then
        if r_start x <? start then do_madvise start (r_end x -{64} start +{64} 1) advice_ rps
        else do_madvise (r_start x) (r_end x -{64} r_start x +{64} 1) advice_ rps
      else mret 0) Q s.
Proof.
  intros Hx Hxe Hxs Hc HQ.
  assert (Hout : forall v, r_start x <= v <= r_end x -> v < start \/ (((inc =? -1) && (r_cnt x =? 1)) || ((inc =? 1) && (r_cnt x =? 0))) = false ->
    dontcopy (os s) v = (0 <? g v)).
  { intros v Hv Hcase. destruct (Hc v Hv) as [Ec Em]. rewrite Em. destruct (Z.lt_ge_cases v start) as [Hlt|Hge]; [by rewrite g_before|].
    destruct Hcase as [?|Hcase]; [lia|]. pose proof (g_inside v ltac:(lia)) as Eg. pose proof (Hf v). pose proof (Hg v).
    destruct inc_cases as [[-> _]|[-> _]]; destruct (Z.ltb_spec 0 (f v)), (Z.ltb_spec 0 (g v)); lia. }
  assert (Hdo : forall a, a = Z.max start (r_start x) -> (((inc =? -1) && (r_cnt x =? 1)) || ((inc =? 1) && (r_cnt x =? 0))) = true ->
    wp (do_madvise a (r_end x -{64} a +{64} 1) advice_ rps) Q s).
  { intros a Ea Hcase. unfold UINTPTR_MAX in Hend. rewrite (wrap_small 64 (r_end x - a)) by (unfold in_width; lia).
    rewrite wrap_small by (unfold in_width; lia). apply wp_do_madvise. intros s' Hm Hs Hd. apply HQ; [done|done|]. intros v. rewrite Hd.
    destruct (Z.leb_spec (r_start x) v), (Z.leb_spec v (r_end x)), (Z.leb_spec a v), (Z.ltb_spec v (a + (r_end x - a + 1))); try lia; cbn [andb]; try done.
    - destruct (Hc v ltac:(lia)) as [Ec _]. destruct inc_cases as [[Ei ->]|[Ei ->]]; rewrite Ei in *; destruct (Z.ltb_spec 0 (g v)); try done; lia.
    - apply Hout; [lia|]. left. lia. }
  destruct (((inc =? -1) && (r_cnt x =? 1)) || ((inc =? 1) && (r_cnt x =? 0))) eqn:Hcase.
  - destruct (Z.ltb_spec (r_start x) start); apply Hdo; try done; lia.
  - apply wp_ret, HQ; [done|done|]. intros v. destruct (Z.leb_spec (r_start x) v), (Z.leb_spec v (r_end x)); try done. cbn [andb]. apply Hout; [lia|by right].
Qed.

(** One range of the loop, after it was cut at [end_]. *)
Lemma in_loop_step s0 l1 a x l2 s s' m' :
  valid m' (l1 ++ (a, mk_range (r_start x) (r_end x) (r_cnt x + inc)) :: l2) ->
  tiles 0 (l1 ++ (a, x) :: l2) UINTPTR_MAX -> counts g l1 -> r_end x <= end_ ->
  (forall v, r_start x <= v <= r_end x -> r_cnt x + inc = g v) ->
  counts (fun v => if v <=? end_ then g v - inc else g v) l2 ->
  (forall v, 0 <= v <= UINTPTR_MAX -> dontcopy (os s) v = if v <? r_start x then 0 <? g v else 0 <? f v) ->
  (forall v, dontcopy (os s') v = if (r_start x <=? v) && (v <=? r_end x) then 0 <? g v else dontcopy (os s) v) ->
  uneven l1 -> seam (fun i j => r_start j.2 <= end_ -> r_cnt i.2 <> r_cnt j.2 + inc) l1 ((a, x) :: l2) ->
  uneven l2 -> (forall j, head l2 = Some j -> r_start j.2 <= end_ -> r_cnt x <> r_cnt j.2) -> same_settings s0 s' ->
  in_loop s0 (l1 ++ [(a, mk_range (r_start x) (r_end x) (r_cnt x + inc))]) l2 (set_mem m' s').
Proof.
  intros Hv Ht H1 Hxe Hx H2 Hm Hm' U1 Hs U2 Hj Hset. apply tiles_mid in Ht as (T1 & Tx & T2). cbn [snd] in *. split.
  - by rewrite <- step_over.
  - rewrite <- step_over. by apply tiles_mid.
  - apply counts_app. split; [done|]. apply Forall_singleton. intros v Hvx. cbn [snd r_cnt]. apply Hx. cov.
  - done.
  - intros v Hvr. cbn [os set_mem]. rewrite Hm', Hm by done.
    assert (Ep : pos l2 = r_end x + 1) by (destruct l2 as [|j l2]; cbn in *; [unfold UINTPTR_MAX in *; lia|tauto]). rewrite Ep.
    destruct (Z.leb_spec (r_start x) v), (Z.leb_spec v (r_end x)), (Z.ltb_spec v (r_start x)), (Z.ltb_spec v (r_end x + 1)); try done; lia.
  - apply uneven_app. split_and!; [done|split; [by intros ? ?|done]|]. intros i j Hi [= <-]. unfold differ. cbn [snd r_cnt].
    apply (Hs i (a, x)); [done|done|cbn; lia].
  - done.
  - intros i j Hi Hjl Hje. rewrite last_snoc in Hi. injection Hi as <-. cbn [snd r_cnt]. specialize (Hj j Hjl Hje). lia.
  - done.
Qed.

(** Cutting the last range at [end_]. *)
Lemma wp_cut s l1 a x l2 (Q : bool -> fork -> Prop) :
  valid (mem s) (l1 ++ (a, x) :: l2) -> tiles 0 (l1 ++ (a, x) :: l2) UINTPTR_MAX -> r_start x <= end_ ->
  counts (fun v => if v <=? end_ then g v - inc else g v) ((a, x) :: l2) -> uneven ((a, x) :: l2) ->
  (forall s' x' l2', valid (mem s') (l1 ++ (a, x') :: l2') -> tiles 0 (l1 ++ (a, x') :: l2') UINTPTR_MAX -> unchanged s s' ->
     r_start x' = r_start x -> r_cnt x' = r_cnt x -> r_end x' = Z.min end_ (r_end x) ->
     counts (fun v => if v <=? end_ then g v - inc else g v) l2' -> uneven l2' ->
     (forall j, head l2' = Some j -> r_start j.2 <= end_ -> r_cnt x' <> r_cnt j.2) -> (length l2' = length l2 \/ end_ < pos l2') -> Q true s') ->
  wp (if end_ <? r_end x then p ← split_range a (end_ +{64} 1); mret (negb (p =? 0)) else mret true) Q s.
Proof.
  intros Hv Ht Hx Hc [Hu1 Hu2] HQ. pose proof Ht as (T1 & Tx & T2)%tiles_mid. cbn [snd] in *. apply Forall_cons in Hc as [Hcx Hc2]. cbn [snd] in Hcx.
  apply tiles_le in T1. apply tiles_le in T2. unfold UINTPTR_MAX in *. destruct (Z.ltb_spec end_ (r_end x)) as [Hlt|Hge].
  - rewrite wrap_small by (unfold in_width; lia). apply wp_bind.
    eapply (wp_split_range s l1 a x l2 (end_ + 1)); [done|exact Hv|exact Ht|lia|unfold UINTPTR_MAX; lia|lia|]. intros s' new Hv' Hun Hnew.
    rewrite (proj2 (Z.eqb_neq _ _) Hnew). apply wp_ret.
    apply (HQ s' (mk_range (r_start x) (end_ + 1 - 1) (r_cnt x)) ((new, mk_range (end_ + 1) (r_end x) (r_cnt x)) :: l2));
      [exact Hv'|eapply tiles_split; [exact Ht|lia]|exact Hun|done|done|cbn; lia| |exact (uneven_same [] a new x (mk_range (end_ + 1) (r_end x) (r_cnt x)) l2 eq_refl (conj Hu1 Hu2))| |right; cbn; lia].
    + constructor; [|done]. cbn [snd r_cnt]. intros v Hvx. apply Hcx. cov.
    + intros j [= <-]. cbn. lia.
  - apply wp_ret. apply (HQ s x l2); [exact Hv|exact Ht|done|done|done|lia|done|done| |by left]. intros j Hj _. by apply (Hu1 (a, x) j).
Qed.

Lemma wp_madvise_loop rps rb s0 fuel : forall s l1 rest (Q : left_loop -> fork -> Prop),
  in_loop s0 l1 rest s -> (forall i, head rest = Some i -> start <= r_end i.2) -> (0 < fuel)%nat -> (pos rest <= end_ -> (S (length rest) < fuel)%nat) ->
  (forall s' l1' rest', in_loop s0 l1' rest' s' -> end_ < pos rest' -> Q (Ended (head_addr rest')) s') ->
  wp (madvise_loop fuel start end_ advice_ inc rps rb (head_addr rest)) Q s.
Proof.
  induction fuel as [|fuel IH]; intros s l1 rest Q Hin Hst Hfu0 Hfu HQ; [lia|]. cbn [madvise_loop]. destruct rest as [|[a x] l2].
  { unfold head_addr. cbn. apply wp_ret. eapply (HQ s l1 []); [done|cbn; lia]. }
  change (head_addr ((a, x) :: l2)) with a. pose proof Hin as [Hv Ht H1 H2 Hm U1 U2 Hs Hset].
  rewrite (proj2 (Z.eqb_neq _ _) (valid_nonzero _ _ _ _ _ Hv)). apply wp_bind, wp_tree. eapply wp_node_v; [exact Hv|]. intros n Hn. rewrite set_mem_id.
  replace (n_start n) with (r_start x) by (by rewrite <- Hn). replace (n_end n) with (r_end x) by (by rewrite <- Hn). cbn [pos snd] in *.
  destruct (Z.ltb_spec end_ (r_start x)) as [Hlt|Hge].
  { apply wp_ret. by eapply (HQ s l1 ((a, x) :: l2)). }
  apply wp_bind. eapply wp_cut; [exact Hv|exact Ht|exact Hge|exact H2|exact U2|]. clear Hv. intros s1 x' l2' Hv Ht' Hun Es Ec Ee H2' U2' Hj Hlen.
  cbn [negb]. apply wp_bind, wp_tree. eapply wp_node_v; [exact Hv|]. clear n Hn. intros n Hn. rewrite set_mem_id.
  replace (n_start n) with (r_start x') by (by rewrite <- Hn). replace (n_end n) with (r_end x') by (by rewrite <- Hn).
  replace (n_refcnt n) with (r_cnt x') by (by rewrite <- Hn). clear n Hn. apply wp_bind. pose proof (tiles_bounds _ _ _ (a, x') Ht' ltac:(set_solver)) as Hb. cbn [snd] in Hb.
  pose proof (Hst (a, x) eq_refl) as Hsx. cbn [snd] in Hsx. apply Forall_cons in H2 as [Hcx _]. cbn [snd] in Hcx.
  assert (Hcnt : forall v, r_start x' <= v <= r_end x' -> r_cnt x' + inc = g v).
  { intros v Hvx. specialize (Hcx v ltac:(cov)). cbn beta in Hcx. rewrite (proj2 (Z.leb_le v end_)) in Hcx by lia. lia. }
  destruct Hun as (E1 & E2 & E3 & E4 & E5). eapply wp_mark; [lia|lia|lia| |].
  { intros v Hvx. split; [by apply Hcnt|]. rewrite E5, Hm by lia. by rewrite (proj2 (Z.ltb_ge _ _)) by lia. }
  intros s2 Hmem Hset2 Hm2. cbn [Z.eqb negb]. rewrite <- Hmem in Hv. apply wp_bind, wp_tree.
  eapply (wp_upd_v _ l1 a x' l2' _ (mk_range (r_start x') (r_end x') (r_cnt x' + inc))); [exact Hv|by intros []| |].
  { intros n En. unfold range_of. cbn. rewrite add_int_count; [by rewrite <- En|]. replace (n_refcnt n) with (r_cnt x') by (by rewrite <- En).
    rewrite (Hcnt (r_start x')) by lia. apply Hg. }
  intros m3 Hv3. apply wp_bind, wp_tree. cbn [mem set_mem]. eapply wp_next_v; [exact Hv3|].
  assert (Hin' : in_loop s0 (l1 ++ [(a, mk_range (r_start x') (r_end x') (r_cnt x' + inc))]) l2' (set_mem m3 (set_mem m3 s2))).
  { eapply (in_loop_step s0 l1 a x' l2' s1 s2 m3); try done; try lia.
    - intros v Hvr. by rewrite E5, Es, Hm.
    - intros i j Hi [= <-]. cbn [snd]. rewrite Es, Ec. by apply (Hs i (a, x)).
    - transitivity s; [done|]. transitivity s1; done. }
  eapply IH; [exact Hin'| |cbn [length] in Hfu; lia| |exact HQ].
  - intros i Hi. destruct l2' as [|i' l2']; [done|]. injection Hi as ->. apply tiles_mid in Ht' as (_ & _ & T2). cbn in T2. lia.
  - intros Hp. cbn [length] in Hfu. destruct Hlen; lia.
Qed.

(** After the loop: the range after [end_] is merged with the one before when the counts
    are equal. *)
Lemma in_loop_end s0 s l1 rest : in_loop s0 l1 rest s -> end_ < pos rest ->
  counts g (l1 ++ rest) /\ forall v, 0 <= v <= UINTPTR_MAX -> dontcopy (os s) v = (0 <? g v).
Proof.
  intros [Hv Ht H1 H2 Hm U1 U2 Hs Hset] Hp. pose proof Ht as (p & T1 & T2)%tiles_app.
  assert (Hge : forall i, i ∈ rest -> end_ < r_start i.2).
  { intros i Hi. destruct (tiles_bounds _ _ _ _ T2 Hi) as [Hb _]. destruct rest as [|j rest]; [by apply elem_of_nil in Hi|]. cbn in *. lia. }
  split.
  - apply counts_app. split; [done|]. apply list.Forall_forall. intros i Hi v Hv'. unfold counts in H2. rewrite list.Forall_forall in H2.
    rewrite (H2 i Hi v Hv'). specialize (Hge i Hi). by rewrite (proj2 (Z.leb_gt _ _)) by cov.
  - intros v Hvr. rewrite Hm by done. destruct (Z.ltb_spec v (pos rest)); [done|]. by rewrite g_after by lia.
Qed.

Lemma in_loop_holds s0 s l1 rest : in_loop s0 l1 rest s -> end_ < pos rest -> seam differ l1 rest -> holds_counts g s (l1 ++ rest).
Proof.
  intros Hin Hp Hd. destruct (in_loop_end _ _ _ _ Hin Hp) as [Hc Hm']. destruct Hin. split; try done. by apply uneven_app.
Qed.

Lemma wp_last_merge s0 s l1 rest (Q : unit -> fork -> Prop) :
  in_loop s0 l1 rest s -> end_ < pos rest ->
  (forall s' l, holds_counts g s' l -> same_settings s0 s' -> Q tt s') ->
  wp (when (negb (head_addr rest =? 0))
        (tmp ← on_tree (mm_prev (head_addr rest));
         when (negb (tmp =? 0))
           (n ← on_tree (node_at (head_addr rest));
            t ← on_tree (node_at tmp);
            when (n_refcnt n =? n_refcnt t) (on_tree (merge_ranges (head_addr rest) tmp);; mret tt)))) Q s.
Proof.
  intros Hin Hp HQ. pose proof Hin as [Hv Ht H1 H2 Hm U1 U2 Hs Hset]. destruct rest as [|[a x] l2].
  { apply wp_ret. eapply HQ; [|done]. eapply in_loop_holds; [exact Hin|done|by intros i j]. }
  change (head_addr ((a, x) :: l2)) with a. rewrite (proj2 (Z.eqb_neq _ _) (valid_nonzero _ _ _ _ _ Hv)). cbn [negb when].
  apply wp_bind, wp_tree. eapply wp_prev_v; [exact Hv|]. rewrite set_mem_id. destruct l1 as [|[p xp] l1 _] using rev_ind.
  { apply wp_ret. eapply HQ; [|done]. eapply in_loop_holds; [exact Hin|done|by intros i j]. }
  rewrite last_addr_snoc. pose proof Hv as Hv'. rewrite <- step_over in Hv'. rewrite (proj2 (Z.eqb_neq _ _) (valid_nonzero _ _ _ _ _ Hv')). cbn [negb when].
  apply wp_bind, wp_tree. eapply wp_node_v; [exact Hv|]. intros n Hn. rewrite set_mem_id. apply wp_bind, wp_tree. eapply wp_node_v; [exact Hv'|].
  intros np Hnp. rewrite set_mem_id. replace (n_refcnt n) with (r_cnt x) by (by rewrite <- Hn). replace (n_refcnt np) with (r_cnt xp) by (by rewrite <- Hnp).
  destruct (Z.eqb_spec (r_cnt x) (r_cnt xp)) as [E|E].
  - cbn [when]. apply wp_bind, wp_tree. eapply wp_merge_ranges; [exact Hv'|]. intros m' Hm'. apply wp_ret. eapply HQ; [|done].
    destruct (in_loop_end _ _ _ _ Hin Hp) as [Hc Hmk]. rewrite <- step_over in Ht, Hc. apply uneven_app in U1 as (U1 & _ & Hsp).
    apply counts_app in Hc as [Hc1 Hc]. apply Forall_cons in Hc as [Hcp Hc]. apply Forall_cons in Hc as [Hcx Hc2]. cbn [snd] in *.
    apply tiles_mid in Ht as Hb. cbn in Hb. split.
    + exact Hm'.
    + eapply tiles_merge. exact Ht.
    + apply counts_app. split; [done|]. constructor; [|done]. cbn [snd r_cnt]. intros v Hvx.
      destruct (Z.le_gt_cases v (r_end xp)); [rewrite E; apply Hcp; cov|apply Hcx; cov].
    + apply uneven_app. split_and!; [done|exact (uneven_same [] a p x (mk_range (r_start xp) (r_end x) (r_cnt x)) l2 eq_refl U2)|].
      intros i j Hi [= <-]. unfold differ. cbn [snd r_cnt]. rewrite E. by apply (Hsp i (p, xp)).
    + exact Hmk.
  - cbn [when]. apply wp_ret. eapply HQ; [|done]. eapply in_loop_holds; [exact Hin|done|]. intros i j Hi [= <-]. rewrite last_snoc in Hi.
    injection Hi as <-. unfold differ. cbn. lia.
Qed.

Lemma valid_length m l : valid m l -> length l = size (nodes m).
Proof.
  intros (T & Hw & _ & <-). rewrite (wf_size _ _ _ Hw), app_nil_r. unfold addrs. by rewrite length_fmap.
Qed.

Lemma wp_madvise_again s l rps rb (Q : Z + Z -> fork -> Prop) :
  holds_counts f s l -> (forall s' l', holds_counts g s' l' -> same_settings s s' -> Q (inl 0) s') ->
  wp (madvise_again start end_ advice_ rps rb) Q s.
Proof.
  intros [Hv Ht Hc Hu Hm] HQ. unfold madvise_again. fold inc. apply wp_bind. eapply wp_get_start_node; [exact Hv|exact Ht|exact Hc|exact Hu|exact Hm|].
  intros s1 l1 a x l2 Hin Hx. pose proof (i_valid _ _ _ _ Hin) as Hv1. rewrite (proj2 (Z.eqb_neq _ _) (valid_nonzero _ _ _ _ _ Hv1)).
  apply wp_bind, wp_get. apply wp_bind. change a with (head_addr ((a, x) :: l2)). eapply wp_madvise_loop; [exact Hin| |lia| |].
  - intros i [= <-]. cov.
  - intros _. unfold rounds. pose proof (valid_length _ _ Hv1) as Hlen. rewrite length_app in Hlen. lia.
  - intros s2 l1' rest' Hin' Hp. apply wp_bind. eapply wp_last_merge; [exact Hin'|exact Hp|]. intros s3 l3 H3 Hs3. apply wp_ret. by eapply HQ.
Qed.

End one_call.

(** *** Pages *)

(** The pages of [size] bytes at [base], when nothing overflows. *)
Record aligned (base size rps : Z) : Prop := {
  al_size : 0 < base /\ 0 < size;
  al_pages : exists k, 0 <= k < 64 /\ rps = 2 ^ k;
  al_fits : base + size + rps < 2 ^ 64 }.

Lemma page_down_div x k : 0 <= k < 64 -> 0 <= x < 2 ^ 64 -> page_down x (2 ^ k) = x / 2 ^ k * 2 ^ k.
Proof.
  intros Hk Hx. unfold page_down. assert (0 < 2 ^ k <= 2 ^ 63) by (split; [lia|apply Z.pow_le_mono_r; lia]).
  rewrite (wrap_small 64 (2 ^ k - 1)) by (unfold in_width; lia). apply land_not_ones; [exact Hx|lia].
Qed.

(** The first and the last address are those of the first and the last page. *)
Lemma range_pages base size rps : aligned base size rps ->
  range_start base rps = base / rps * rps /\ range_end base size rps = (base + size - 1) / rps * rps + rps - 1.
Proof.
  intros [[Hb Hs] (k & Hk & ->) Hfit]. assert (0 < 2 ^ k <= 2 ^ 63) by (split; [lia|apply Z.pow_le_mono_r; lia]).
  unfold range_start, range_end. split; [apply page_down_div; lia|].
  rewrite (wrap_small 64 (base + size)), (wrap_small 64 (base + size + 2 ^ k)), (wrap_small 64 (base + size + 2 ^ k - 1)) by (unfold in_width; lia).
  rewrite page_down_div by lia. replace (base + size + 2 ^ k - 1) with (base + size - 1 + 1 * 2 ^ k) by lia. rewrite Z.div_add by lia.
  pose proof (Z.div_mod (base + size - 1) (2 ^ k) ltac:(lia)). pose proof (Z.mod_pos_bound (base + size - 1) (2 ^ k) ltac:(lia)).
  rewrite wrap_small by (unfold in_width; nia). lia.
Qed.

Lemma range_bounds base size rps : aligned base size rps ->
  0 <= range_start base rps <= base /\ base + size - 1 <= range_end base size rps /\ range_end base size rps < UINTPTR_MAX.
Proof.
  intros Ha. destruct (range_pages _ _ _ Ha) as [-> ->]. destruct Ha as [[Hb Hs] (k & Hk & ->) Hfit].
  assert (0 < 2 ^ k) by lia. unfold UINTPTR_MAX.
  pose proof (Z.div_mod base (2 ^ k) ltac:(lia)). pose proof (Z.mod_pos_bound base (2 ^ k) ltac:(lia)).
  pose proof (Z.div_mod (base + size - 1) (2 ^ k) ltac:(lia)). pose proof (Z.mod_pos_bound (base + size - 1) (2 ^ k) ltac:(lia)).
  pose proof (Z.div_pos base (2 ^ k) ltac:(lia) ltac:(lia)). split_and!; nia.
Qed.

(** *** The calls *)

Definition inc_of (adv : advice) : Z := match adv with MADV_DONTFORK => 1 | MADV_DOFORK => -1 end.

(** The counts after a call. *)
Definition after_call (adv : advice) (lo hi : Z) (f : Z -> Z) (v : Z) : Z :=
  if (lo <=? v) && (v <=? hi) then f v + inc_of adv else f v.

Definition small_counts (f : Z -> Z) : Prop := forall v, 0 <= f v < 2 ^ 31.

Lemma wp_ibv_madvise_range s l f base size adv (Q : Z -> fork -> Prop) :
  (forall h o, (malloc h o).1.1 <> 0) -> (forall a n adv o, (madvise a n adv o).1 = 0) ->
  let rps := range_page_size base s in
  let f' := after_call adv (range_start base rps) (range_end base size rps) f in
  holds_counts f s l -> aligned base size rps -> small_counts f -> small_counts f' -> mm_mutex s = false ->
  (forall s' l', holds_counts f' s' l' -> same_settings s s' -> Q 0 s') ->
  wp (ibv_madvise_range base size adv) Q s.
Proof.
  intros Hmal Hmad rps f' Hh Hal Hf Hf' Hmx HQ. unfold ibv_madvise_range. destruct (range_bounds _ _ _ Hal) as (Hb1 & Hb2 & Hb3).
  pose proof (al_size _ _ _ Hal). rewrite (proj2 (Z.eqb_neq size 0)), (proj2 (Z.eqb_neq base 0)) by lia. cbn [orb].
  apply wp_bind, wp_gets. fold rps. apply wp_bind. unfold wp at 1, pthread_mutex_lock. rewrite Hmx. fold rps. apply wp_bind.
  eapply (wp_madvise_again f f' (range_start base rps) (range_end base size rps) adv); [done|done|lia|lia| |done|done| |].
  - intros v. unfold f', after_call, inc_of. by destruct adv.
  - destruct Hh. by split.
  - intros s' l' [? ? ? ? ?] (E1 & E2 & E3 & E4). apply wp_bind, wp_ret. apply wp_bind, wp_modify, wp_ret. eapply HQ; [by split|].
    split_and!; [by cbn|exact E2|exact E3|exact E4].
Qed.

Lemma valid_root m l : valid m l -> l <> [] -> mm_root m <> 0.
Proof.
  intros (T & Hw & _ & Hit) Hl. rewrite (w_root _ _ _ Hw). cbn [top]. apply (wf_root_nonzero _ _ _ Hw). intros ->. by cbn in Hit.
Qed.

Lemma holds_root f s l : holds_counts f s l -> mm_root (mem s) <> 0.
Proof. intros [Hv Ht _ _ _]. eapply valid_root; [exact Hv|]. intros ->. cbn in Ht. unfold UINTPTR_MAX in Ht. lia. Qed.

(** A program registers and unregisters memory. *)
Inductive call : Set := Dontfork (base size : Z) | Dofork (base size : Z).

Definition run_call (c : call) : M fork Z :=
  match c with Dontfork base size => ibv_dontfork_range base size | Dofork base size => ibv_dofork_range base size end.

Definition call_range (ps : Z) (c : call) : Z * Z :=
  match c with Dontfork base size | Dofork base size => (base / ps * ps, (base + size - 1) / ps * ps + ps - 1) end.

(** The specification: how many registrations an address is in. *)
Definition spec_call (ps : Z) (c : call) (f : Z -> Z) : Z -> Z :=
  let r := call_range ps c in
  after_call (match c with Dontfork _ _ => MADV_DONTFORK | Dofork _ _ => MADV_DOFORK end) r.1 r.2 f.

(** The calls are for memory that fits in the address space, and memory is unregistered
    no more often than it was registered. *)
Fixpoint legal (ps : Z) (cs : list call) (f : Z -> Z) : Prop :=
  match cs with
  | [] => True
  | c :: cs' =>
      (match c with Dontfork base size | Dofork base size => aligned base size ps end) /\
      small_counts (spec_call ps c f) /\ legal ps cs' (spec_call ps c f)
  end.

Definition spec_calls (ps : Z) (cs : list call) (f : Z -> Z) : Z -> Z := fold_left (fun f c => spec_call ps c f) cs f.

Fixpoint run_calls (cs : list call) : M fork (list Z) :=
  match cs with [] => mret [] | c :: cs' => r ← run_call c; rs ← run_calls cs'; mret (r :: rs) end.

(** The calls of the host succeed. *)
Record host_ok : Prop := {
  ok_malloc : forall h o, (malloc h o).1.1 <> 0;
  ok_madvise : forall a n adv o, (madvise a n adv o).1 = 0;
  ok_memalign : forall a n o, (posix_memalign a n o).1.1 = 0 }.

Lemma wp_run_call s l f c ps (Q : Z -> fork -> Prop) :
  host_ok -> holds_counts f s l -> small_counts f -> huge_page_enabled s = false -> page_size s = ps -> mm_mutex s = false ->
  (match c with Dontfork base size | Dofork base size => aligned base size ps end) -> small_counts (spec_call ps c f) ->
  (forall s' l', holds_counts (spec_call ps c f) s' l' -> same_settings s s' -> Q 0 s') -> wp (run_call c) Q s.
Proof.
  intros Hok Hh Hf Hhuge Hps Hmx Hal Hf' HQ. pose proof (holds_root _ _ _ Hh) as Hr. apply Z.eqb_neq in Hr.
  destruct c as [base size|base size]; cbn [run_call]; unfold ibv_dontfork_range, ibv_dofork_range; apply wp_bind, wp_get; rewrite Hr; cbn [negb];
    (eapply (wp_ibv_madvise_range s l f); [exact (ok_malloc Hok)|exact (ok_madvise Hok)|exact Hh| |exact Hf| |exact Hmx|]);
    unfold range_page_size; rewrite Hhuge, Hps; try exact Hal; destruct (range_pages _ _ _ Hal) as [-> ->]; [exact Hf'|exact HQ|exact Hf'|exact HQ].
Qed.

Lemma wp_run_calls cs : forall s l f ps (Q : list Z -> fork -> Prop),
  host_ok -> holds_counts f s l -> small_counts f -> huge_page_enabled s = false -> page_size s = ps -> mm_mutex s = false -> legal ps cs f ->
  (forall s' l', holds_counts (spec_calls ps cs f) s' l' -> same_settings s s' -> Q (replicate (length cs) 0) s') -> wp (run_calls cs) Q s.
Proof.
  induction cs as [|c cs IH]; intros s l f ps Q Hok Hh Hf Hhuge Hps Hmx Hl HQ; cbn [run_calls]; [by apply wp_ret, (HQ s l)|].
  destruct Hl as (Hal & Hf' & Hl). apply wp_bind. eapply wp_run_call; [done|exact Hh|done|done|exact Hps|done|exact Hal|exact Hf'|].
  intros s1 l1 H1 Hs1. pose proof Hs1 as (E1 & E2 & E3 & E4). apply wp_bind. eapply (IH s1 l1 _ ps); [done|exact H1|done|congruence|congruence|congruence|exact Hl|].
  intros s2 l2 H2 Hs2. apply wp_ret. eapply HQ; [exact H2|]. by transitivity s1.
Qed.

(** A process that has not registered memory yet. *)
Record fresh_process (k : Z) (s : fork) : Prop := {
  fp_mem : mem s = mk_mm 0 ∅;
  fp_mutex : mm_mutex s = false;
  fp_too_late : too_late s = false;
  fp_huge : huge_page_enabled s = false;
  fp_getenv : forall o, getenv_hugepages o = false;
  fp_cow : forall o, get_copy_on_fork o = false;
  fp_k : 0 <= k < 31;
  fp_page : forall o, sysconf_pagesize o = 2 ^ k;
  fp_marks : forall v, dontcopy (os s) v = false }.

(** The tree of one range that [ibv_fork_init] makes. *)
Lemma valid_fresh p : p <> 0 -> valid (mk_mm p (<[p := mk_node IBV_BLACK 0 0 0 0 UINTPTR_MAX 0]> ∅)) [(p, mk_range 0 UINTPTR_MAX 0)].
Proof.
  intros Hp. exists (Node IBV_BLACK Leaf p (mk_range 0 UINTPTR_MAX 0) Leaf). split_and!; [split| |done].
  - done.
  - cbn. by rewrite lookup_insert_eq.
  - done.
  - apply NoDup_singleton.
  - intros q. cbn [nodes]. rewrite lookup_insert_is_Some', lookup_empty. cbn. rewrite elem_of_cons, elem_of_nil. split; [intros [->|[? ?]]; [by left|done]|intros [->|[]]; by left].
  - exists 1%nat. by eapply (rb_mk_black Left); constructor.
Qed.

Lemma holds_fresh s p : p <> 0 -> (forall v, dontcopy (os s) v = false) ->
  mem s = mk_mm p (<[p := mk_node IBV_BLACK 0 0 0 0 UINTPTR_MAX 0]> ∅) -> holds_counts (fun _ => 0) s [(p, mk_range 0 UINTPTR_MAX 0)].
Proof.
  intros Hp Hm E. split.
  - rewrite E. by apply valid_fresh.
  - cbn. unfold UINTPTR_MAX. split_and!; lia.
  - apply Forall_singleton. done.
  - by split; [intros ? ?|].
  - intros v _. by rewrite Hm.
Qed.

Lemma wp_ibv_fork_init k s (Q : Z -> fork -> Prop) :
  host_ok -> fresh_process k s ->
  (forall s' l, holds_counts (fun _ => 0) s' l -> mm_mutex s' = false -> huge_page_enabled s' = false -> page_size s' = 2 ^ k -> Q 0 s') ->
  wp ibv_fork_init Q s.
Proof.
  intros Hok [Hmem Hmx Htl Hhuge Henv Hcow Hk Hpage Hm] HQ. unfold ibv_fork_init. apply wp_bind, wp_get. rewrite Henv. apply wp_bind, wp_ret.
  apply wp_bind, wp_get. rewrite Hmem. cbn [mm_root Z.eqb negb]. apply wp_bind. unfold ibv_is_fork_initialized. apply wp_bind, wp_get. rewrite Hcow, Hmem.
  apply wp_ret. cbn [mm_root Z.eqb negb]. rewrite Htl. apply wp_bind, wp_modify. apply wp_bind, wp_get. cbn [page_size set_page_size]. rewrite Hpage.
  rewrite (proj2 (Z.ltb_ge (2 ^ k) 0)) by lia. apply wp_bind, wp_syscall. cbn [os set_page_size].
  pose proof (ok_memalign Hok (2 ^ k) (2 ^ k) (os s)) as E1. pose proof (memalign_dontcopy (2 ^ k) (2 ^ k) (os s)) as D1.
  destruct (posix_memalign (2 ^ k) (2 ^ k) (os s)) as [[err tmp] o1]. cbn [fst snd] in *. subst err. cbn [Z.eqb negb].
  apply wp_bind, wp_get. cbn [huge_page_enabled set_os set_page_size page_size]. rewrite Hhuge. apply wp_bind, wp_syscall. cbn [os set_os].
  pose proof (ok_madvise Hok tmp (2 ^ k) MADV_DONTFORK o1) as E2. pose proof (madvise_dontcopy tmp (2 ^ k) MADV_DONTFORK o1) as D2.
  destruct (madvise tmp (2 ^ k) MADV_DONTFORK o1) as [r2 o2]. cbn [fst snd] in *. subst r2. cbn [Z.eqb negb]. apply wp_bind, wp_syscall. cbn [os set_os].
  pose proof (ok_madvise Hok tmp (2 ^ k) MADV_DOFORK o2) as E3. pose proof (madvise_dontcopy tmp (2 ^ k) MADV_DOFORK o2) as D3.
  destruct (madvise tmp (2 ^ k) MADV_DOFORK o2) as [r3 o3]. cbn [fst snd] in *. subst r3. apply wp_bind, wp_syscall. cbn [os set_os Z.eqb negb].
  apply wp_bind, wp_get. apply wp_bind, wp_syscall. cbn [os set_os mem set_page_size].
  match goal with |- context [malloc ?h ?o] =>
    pose proof (ok_malloc Hok h o) as E4; pose proof (malloc_dontcopy h o) as D4; destruct (malloc h o) as [[p junk] o4] end.
  cbn [fst snd] in *. rewrite (proj2 (Z.eqb_neq _ _) E4).
  apply wp_bind, wp_modify, wp_ret. eapply HQ; [|done|done|done]. apply (holds_fresh _ p E4); [|cbn; by rewrite Hmem].
  intros v. cbn [os set_mem set_os]. rewrite D4, release_dontcopy, (D3 _ _ eq_refl), (D2 _ _ eq_refl), D1, Hm. by destruct ((tmp <=? v) && (v <? tmp + 2 ^ k)).
Qed.

End calls.

(** ** What is shown *)

(** C7: while nothing fails, the calls of a process with [ibv_fork_init] refine the counts:
    none of them faults, all return 0, the mutex is released, the count of an address is
    the number of registrations that its page is in, and the page is kept from a child
    exactly while that number is positive.  Assumed are a host whose [malloc], [madvise] and
    [posix_memalign] never fail, a kernel that does not copy on fork, pages of one size, and
    calls for memory inside the address space that unregister no more than was registered.
    After a refused [madvise] the counts are wrong (see the findings); that the calls stay
    safe then is the claim on failures of this memory. *)
Theorem fork_counts_refine {H : Host} {HL : HostLaws H} k s cs (Hok : host_ok) (Hs : fresh_process k s) (Hl : legal (2 ^ k) cs (fun _ => 0)) :
  exists s' l, (r ← ibv_fork_init; rs ← run_calls cs; mret (r :: rs)) s = Done (replicate (S (length cs)) 0) s' /\
    holds_counts (spec_calls (2 ^ k) cs (fun _ => 0)) s' l /\ mm_mutex s' = false.
Proof.
  assert (Hw : wp (r ← ibv_fork_init; rs ← run_calls cs; mret (r :: rs)) (fun rs s' => rs = replicate (S (length cs)) 0 /\
    exists l, holds_counts (spec_calls (2 ^ k) cs (fun _ => 0)) s' l /\ mm_mutex s' = false) s).
  { apply wp_bind. eapply wp_ibv_fork_init; [exact Hok|exact Hs|]. intros s1 l1 H1 Hm1 Hh1 Hp1. apply wp_bind.
    eapply (wp_run_calls cs s1 l1 _ (2 ^ k)); [done|exact H1|by intros v|done|done|done|done|]. intros s2 l2 H2 (E & _). apply wp_ret.
    split; [done|]. exists l2. split; [done|congruence]. }
  apply wp_run in Hw as (rs & s' & E & -> & l & Hh & Hmx). by exists s', l.
Qed.

(** *** A host *)

Definition max_key (h : gmap Z ibv_mem_node) : Z := map_fold (fun k _ m => Z.max k m) 0 h.

Lemma max_key_ge h : 0 <= max_key h /\ forall k n, h !! k = Some n -> k <= max_key h.
Proof.
  unfold max_key. apply (map_fold_weak_ind (fun m h => 0 <= m /\ forall k n, h !! k = Some n -> k <= m)).
  - split; [done|]. intros k n Hk. by rewrite lookup_empty in Hk.
  - intros i x m r Hi [H0 IH]. split; [lia|]. intros k n Hk. destruct (decide (i = k)) as [->|Hne]; [lia|].
    rewrite lookup_insert_ne in Hk by done. specialize (IH k n Hk). lia.
Qed.

(** [madvise] refuses the addresses of [refuses]; [malloc] succeeds [budget] times. *)
Record demo_os : Type := mk_demo { marks : list (Z * Z * advice); mallocs : nat }.

Fixpoint marked (l : list (Z * Z * advice)) (v : Z) : bool :=
  match l with
  | [] => false
  | (a, n, adv) :: l' => if (a <=? v) && (v <? a + n) then bool_decide (adv = MADV_DONTFORK) else marked l' v
  end.

Definition demo_host (refuses : Z -> bool) (budget : option nat) : Host := {|
  host := demo_os;
  malloc h o := if bool_decide (budget = Some (mallocs o)) then (0, mk_node IBV_RED 7 7 7 7 7 7, o)
                else (1 + max_key h, mk_node IBV_RED 7 7 7 7 7 7, mk_demo (marks o) (S (mallocs o)));
  madvise a n adv o := if refuses a then (-1, o) else (0, mk_demo ((a, n, adv) :: marks o) (mallocs o));
  posix_memalign _ _ o := (0, 0x7000, o);
  release _ o := o;
  getenv_hugepages _ := false;
  sysconf_pagesize _ := 4096;
  errno _ := 0;
  get_copy_on_fork _ := false;
  smaps _ := None;
  dontcopy o v := marked (marks o) v |}.

#[export] Instance demo_laws refuses budget : HostLaws (demo_host refuses budget).
Proof.
  split; cbn; try done.
  - intros h o p n o'. case_bool_decide; intros [= <- <- <-]; [by left|right]. apply eq_None_not_Some. intros [x Hx].
    apply max_key_ge in Hx. lia.
  - intros h o v. by case_bool_decide.
  - intros a n adv o o' v. by destruct (refuses a); intros [= <-].
Qed.

Lemma demo_ok : @host_ok (demo_host (fun _ => false) None).
Proof. split; cbn; try done. intros h o. rewrite bool_decide_eq_false_2 by done. cbn. pose proof (max_key_ge h) as [? _]. lia. Qed.

Definition demo_start {refuses budget} : @fork (demo_host refuses budget) :=
  @mk_fork (demo_host refuses budget) (mk_mm 0 ∅) false 0 false false (mk_demo [] 0).

Definition demo_calls : list call := [Dontfork 0x10010 0x2000; Dontfork 0x11000 0x100; Dofork 0x10010 0x2000].

Lemma fork_counts_refine_witness : exists s' l,
  (r ← ibv_fork_init; rs ← run_calls demo_calls; mret (r :: rs)) (@demo_start (fun _ => false) None) = Done [0; 0; 0; 0] s' /\
    holds_counts (spec_calls 4096 demo_calls (fun _ => 0)) s' l /\ mm_mutex s' = false.
Proof.
  apply (fork_counts_refine (H := demo_host (fun _ => false) None) 12 demo_start demo_calls demo_ok).
  - split; try done; lia.
  - assert (Hal : forall b n, 0 < b < 2 ^ 20 -> 0 < n < 2 ^ 20 -> aligned b n (2 ^ 12)) by (intros b n Hb Hn; split; [lia|exists 12; lia|lia]).
    cbn [legal demo_calls]. unfold small_counts, spec_call, after_call, call_range. cbn [inc_of fst snd].
    split_and!; try (apply Hal; lia); try done; intros v; repeat case_match; lia.
Defined.

(** *** Failures *)

(** One refused [madvise] unprotects the memory that is registered later: the roll-back
    takes one from the count of the range that was not counted yet, and of everything
    that was merged with it, here up to the end of the address space.  The next
    registration there finds a count of -1, returns 0, and its page is not marked. *)
Lemma failed_madvise_unprotects :
  match (r ← ibv_fork_init; rs ← run_calls [Dontfork 0x10000 0x1000; Dontfork 0x20000 0x1000]; mret (r :: rs))
          (@demo_start (fun a => a =? 0x10000) None) with
  | Done rs s' => rs = [0; -1; 0] /\ dontcopy (os s') 0x20000 = false /\ mm_mutex s' = false
  | Fault _ => False
  end.
Proof. vm_compute. done. Qed.

(** When [malloc] fails in the loop, what was counted before stays counted: after the
    only registration is undone, two pages are still marked. *)
Lemma failed_malloc_leaves_counts :
  match (r ← ibv_fork_init; rs ← run_calls [Dontfork 0x10000 0x1000; Dontfork 0xf000 0x4000; Dofork 0x10000 0x1000]; mret (r :: rs))
          (@demo_start (fun _ => false) (Some 4%nat)) with
  | Done rs s' => rs = [0; 0; -1; 0] /\ dontcopy (os s') 0xf000 = true /\ dontcopy (os s') 0x10000 = true
  | Fault _ => False
  end.
Proof. vm_compute. done. Qed.

(** Memory that was registered before makes [ibv_fork_init] fail with [EINVAL]. *)
Lemma fork_init_too_late {H : Host} s base size :
  mm_root (mem s) = 0 -> get_copy_on_fork (os s) = false ->
  exists s', (ibv_dontfork_range base size;; ibv_fork_init) s = Done EINVAL s' /\ mem s' = mem s.
Proof.
  intros Hr Hc. assert (Hw : wp (ibv_dontfork_range base size;; ibv_fork_init) (fun r s' => r = EINVAL /\ mem s' = mem s) s).
  { apply wp_bind. unfold ibv_dontfork_range. apply wp_bind, wp_get. rewrite Hr. cbn [Z.eqb negb]. apply wp_bind, wp_modify, wp_ret.
    unfold ibv_fork_init. apply wp_bind, wp_get. apply wp_bind. cbn [os set_too_late]. destruct (getenv_hugepages (os s));
      [apply wp_modify|apply wp_ret]; (apply wp_bind, wp_get); cbn [mem set_huge set_too_late]; rewrite Hr; cbn [Z.eqb negb]; apply wp_bind;
      unfold ibv_is_fork_initialized; (apply wp_bind, wp_get); cbn [os mem set_huge set_too_late]; rewrite Hc, Hr; by apply wp_ret. }
  apply wp_run in Hw as (r & s' & E & -> & Hm). by exists s'.
Qed.

(** *** The tree *)

Fixpoint height (t : tree) : nat := match t with Leaf => 0 | Node _ l _ _ r => S (Nat.max (height l) (height r)) end.

Lemma rb_height c n t : rb c n t ->
  (height t <= 2 * n + if c is IBV_RED then 1 else 0)%nat /\ (2 ^ n <= length (items t) + 1)%nat.
Proof.
  induction 1 as [|n l a x r Hl [IHl Sl] Hr [IHr Sr]|n c1 c2 l a x r Hl [IHl Sl] Hr [IHr Sr]]; cbn [height items length]; rewrite ?length_app;
    cbn [length]; [split; [lia|done]|split; lia|].
  rewrite Nat.pow_succ_r'. split; [destruct c1, c2; lia|lia].
Qed.

(** C9: The tree refines a sorted list of ranges: adding (behind some range, as the callers
    do: the first range of the process starts at 0), removing, the neighbours and the search
    do in the heap of nodes what they do in the list, without a fault and within the bounds
    on their loops, and the tree stays so balanced that a way down it is no
    longer than twice the logarithm of its size. *)
Theorem range_tree_refines_list m l (Hv : valid m l) (Hs : sorted l) :
  (exists T, wf m [] T /\ items T = l /\ (height T <= 2 * Nat.log2 (length l + 1))%nat) /\
  (forall new nn l1 l2, l = l1 ++ l2 -> l1 <> [] -> new <> 0 -> nodes m !! new = None ->
     Forall (starts_before (n_start nn)) l1 -> Forall (fun i => ~ starts_before (n_start nn) i) l2 ->
     exists m', mm_add new (mk_mm (mm_root m) (<[new := nn]> (nodes m))) = Done tt m' /\ valid m' (l1 ++ (new, range_of nn) :: l2)) /\
  (forall l1 a x l2, l = l1 ++ (a, x) :: l2 ->
     mm_prev a m = Done (last_addr l1) m /\ mm_next a m = Done (head_addr l2) m /\
     exists m', mm_remove a m = Done tt m' /\ valid m' (l1 ++ l2)) /\
  (forall lo hi v, tiles lo l hi -> lo <= v <= hi -> exists a x, mm_find_start v m = Done a m /\ (a, x) ∈ l /\ covers (a, x) v).
Proof.
  split_and!.
  - destruct Hv as (T & Hw & [n Hb] & <-). exists T. split_and!; [done|done|]. destruct (rb_height _ _ _ Hb) as [Hh Hn].
    apply Nat.log2_le_mono in Hn. rewrite Nat.log2_pow2 in Hn by lia. unfold item. lia.
  - intros new nn l1 l2 -> Hl1 Hn0 Hnew H1 H2. assert (Hv' : valid (mk_mm (mm_root m) (nodes m)) (l1 ++ l2)) by (by destruct m).
    assert (Hw : wp (mm_add new) (fun _ m' => valid m' (l1 ++ (new, range_of nn) :: l2)) (mk_mm (mm_root m) (<[new := nn]> (nodes m)))) by (by eapply wp_add_v).
    apply wp_run in Hw as ([] & m' & E & Hm'). by exists m'.
  - intros l1 a x l2 ->. split_and!.
    + assert (Hw : wp (mm_prev a) (fun r m' => r = last_addr l1 /\ m' = m) m) by (by eapply wp_prev_v).
      by apply wp_run in Hw as (r & m' & E & -> & ->).
    + assert (Hw : wp (mm_next a) (fun r m' => r = head_addr l2 /\ m' = m) m) by (by eapply wp_next_v).
      by apply wp_run in Hw as (r & m' & E & -> & ->).
    + destruct Hv as (T & Hw & Hb & Hit). assert (Hr : wp (mm_remove a) (fun _ m' => valid m' (l1 ++ l2)) m).
      { eapply wp_mm_remove; [exact Hw|exact Hb|exact Hit|]. intros m' T' Hw' Hb' Hit'. by exists T'. }
      apply wp_run in Hr as ([] & m' & E & Hm'). by exists m'.
  - intros lo hi v Ht Hvr. assert (Hw : wp (mm_find_start v) (fun a m' => m' = m /\ exists x, (a, x) ∈ l /\ covers (a, x) v) m).
    { eapply wp_find_v; [exact Hv|exact Ht|exact Hvr|]. intros l1 a x l2 -> Hc. split; [done|]. exists x. split; [set_solver|done]. }
    apply wp_run in Hw as (a & m' & E & -> & x & Hin & Hc). by exists a, x.
Qed.

(** Two ranges, the second one below the first one's node. *)
Definition demo_tree : mm :=
  mk_mm 16 (<[16 := mk_node IBV_BLACK 0 0 32 0 99 1]> (<[32 := mk_node IBV_RED 16 0 0 100 UINTPTR_MAX 0]> ∅)).

Lemma demo_tree_valid : valid demo_tree [(16, mk_range 0 99 1); (32, mk_range 100 UINTPTR_MAX 0)].
Proof.
  exists (Node IBV_BLACK Leaf 16 (mk_range 0 99 1) (Node IBV_RED Leaf 32 (mk_range 100 UINTPTR_MAX 0) Leaf)). split_and!; [split| |done].
  - done.
  - cbn. by split_and!.
  - done.
  - cbn. apply NoDup_cons. split; [by intros ?%list_elem_of_singleton|apply NoDup_singleton].
  - intros p. unfold demo_tree. cbn [nodes]. rewrite !lookup_insert_is_Some', lookup_empty. cbn. rewrite !elem_of_cons, elem_of_nil.
    split; [intros [<-|[<-|[? ?]]]; [by left|by right; left|done]|intros [->|[->|[]]]; [by left|by right; left]].
  - exists 1%nat. eapply (rb_mk_black Left); [constructor|]. apply (rb_mk_red Left); constructor.
Qed.

Lemma range_tree_refines_list_witness :
  mm_prev 32 demo_tree = Done 16 demo_tree /\ (exists m', mm_remove 16 demo_tree = Done tt m' /\ valid m' [(32, mk_range 100 UINTPTR_MAX 0)]).
Proof.
  assert (Hs : sorted [(16, mk_range 0 99 1); (32, mk_range 100 UINTPTR_MAX 0)]).
  { apply (tiles_sorted 0 _ UINTPTR_MAX). cbn. unfold UINTPTR_MAX. split_and!; lia. }
  destruct (range_tree_refines_list demo_tree _ demo_tree_valid Hs) as (_ & _ & Hn & _). split.
  - exact (proj1 (Hn [(16, mk_range 0 99 1)] 32 _ [] eq_refl)).
  - exact (proj2 (proj2 (Hn [] 16 _ [(32, mk_range 100 UINTPTR_MAX 0)] eq_refl))).
Defined.
