(* ===== verification/ForkSafe.v ===== *)
(** * The ranges of memory whatever fails

    [ForkRange] follows the counts while the calls of the host succeed.  Here [malloc],
    [madvise] and [posix_memalign] may fail at any point, pages may be huge, and the
    kernel may copy on fork: the error and roll-back paths of libibverbs/memory.c run as
    well.  The counts are not what they should be after a failure (see the lemmas on
    failures in [ForkRange]), but no call touches memory it must not, the mutex is
    released, and the tree stays a balanced tree of ranges that tile the address space. *)

From Stdlib Require Import ZArith Lia String.
From stdpp Require Import base list gmap fin_maps strings sorting.
From S2P Require Import Prelude MemTree RedBlack TreeRemove Fork ForkRange.

#[local] Open Scope cint_scope.
#[local] Open Scope Z_scope.

Section safe.
Context {H : Host} {HL : HostLaws H}.
Implicit Types (s : fork) (l : list item).

(** The tree is one of ranges that tile the address space. *)
Definition tiled s l : Prop := valid (mem s) l /\ tiles 0 l UINTPTR_MAX.

#[local] Instance settings_pre : PreOrder same_settings.
Proof. split; [by intros s|]. intros s1 s2 s3 (?&?&?&?) (?&?&?&?). split_and!; congruence. Qed.

Lemma tiled_set_mem s m l : valid m l -> tiles 0 l UINTPTR_MAX -> tiled (set_mem m s) l /\ same_settings s (set_mem m s).
Proof. by split. Qed.

Lemma tiled_mem s s' l : tiled s l -> mem s' = mem s -> tiled s' l.
Proof. intros [Hv Ht] E. split; [by rewrite E|done]. Qed.

(** ** The steps of a call *)

Lemma wp_split_tiled s l1 a x l2 cut (Q : Z -> fork -> Prop) :
  tiled s (l1 ++ (a, x) :: l2) -> r_start x < cut <= r_end x ->
  (forall s', tiled s' (l1 ++ (a, x) :: l2) -> same_settings s s' -> Q 0 s') ->
  (forall s' new, tiled s' (l1 ++ (a, mk_range (r_start x) (cut - 1) (r_cnt x)) :: (new, mk_range cut (r_end x) (r_cnt x)) :: l2) ->
     same_settings s s' -> new <> 0 -> Q new s') ->
  wp (split_range a cut) Q s.
Proof.
  intros [Hv Ht] Hc HQ0 HQ. eapply wp_split_any; [exact Hv|exact Ht|lia|lia|done| |].
  - intros s' _ Hm Hun. apply HQ0; [split; [by rewrite Hm|done]|by apply unchanged_same].
  - intros s' new Hv' Hun Hnew. apply HQ; [split; [done|by eapply tiles_split]|by apply unchanged_same|done].
Qed.

Lemma wp_merge_tiled s l1 p xp a x l2 (Q : Z -> fork -> Prop) :
  tiled s (l1 ++ (p, xp) :: (a, x) :: l2) ->
  (forall s', tiled s' (l1 ++ (p, mk_range (r_start xp) (r_end x) (r_cnt x)) :: l2) -> same_settings s s' -> Q p s') ->
  wp (on_tree (merge_ranges a p)) Q s.
Proof.
  intros [Hv Ht] HQ. apply wp_tree. eapply wp_merge_ranges; [exact Hv|]. intros m' Hv'. apply HQ; [|done]. split; [done|by eapply tiles_merge].
Qed.

Lemma wp_node_tiled s l1 a x l2 (Q : ibv_mem_node -> fork -> Prop) :
  tiled s (l1 ++ (a, x) :: l2) -> (forall n, range_of n = x -> Q n s) -> wp (on_tree (node_at a)) Q s.
Proof. intros [Hv _] HQ. apply wp_tree. eapply wp_node_v; [exact Hv|]. intros n Hn. rewrite set_mem_id. by apply HQ. Qed.

Lemma wp_refcnt_tiled s l1 a x l2 k (Q : unit -> fork -> Prop) :
  tiled s (l1 ++ (a, x) :: l2) ->
  (forall s' c, tiled s' (l1 ++ (a, mk_range (r_start x) (r_end x) c) :: l2) -> same_settings s s' -> Q tt s') ->
  wp (on_tree (upd a (fun n => with_refcnt (add_int (n_refcnt n) k) n))) Q s.
Proof.
  intros [Hv Ht] HQ. apply wp_tree.
  eapply (wp_upd_v _ l1 a x l2 _ (mk_range (r_start x) (r_end x) (add_int (r_cnt x) k))); [exact Hv|by intros []| |].
  - intros n <-. done.
  - intros m' Hv'. eapply HQ; [|done]. split; [exact Hv'|]. apply tiles_mid. by apply tiles_mid in Ht.
Qed.

(** [get_start_node] gives the range that [start] is in, unless [malloc] fails. *)
Lemma wp_start_tiled s l start k (Q : Z -> fork -> Prop) :
  tiled s l -> 0 <= start <= UINTPTR_MAX ->
  (forall s' l', tiled s' l' -> same_settings s s' -> Q 0 s') ->
  (forall s' l1 a x l2, tiled s' (l1 ++ (a, x) :: l2) -> start <= r_end x -> same_settings s s' -> Q a s') ->
  wp (get_start_node start k) Q s.
Proof.
  intros Hl Hs HQ0 HQ. pose proof Hl as [Hv Ht]. unfold get_start_node. apply wp_bind, wp_tree.
  eapply wp_find_v; [exact Hv|exact Ht|lia|]. intros l1 a x l2 -> Hx. unfold covers in Hx. cbn [snd] in Hx. rewrite set_mem_id.
  apply wp_bind. eapply wp_node_tiled; [exact Hl|]. intros n Hn. replace (n_start n) with (r_start x) by (by rewrite <- Hn).
  destruct (Z.ltb_spec (r_start x) start) as [Hlt|Hge].
  - eapply wp_split_tiled; [exact Hl|lia| |].
    + intros s' Hl' Hs'. by eapply HQ0.
    + intros s' new Hl' Hs' _. rewrite step_over in Hl'. eapply HQ; [exact Hl'|cbn; lia|done].
  - apply wp_bind, wp_tree. eapply wp_prev_v; [exact Hv|]. rewrite set_mem_id.
    destruct l1 as [|[p xp] l1 _] using rev_ind; [apply wp_ret; eapply (HQ s []); [exact Hl|lia|done]|].
    rewrite last_addr_snoc. pose proof Hl as Hl'. rewrite <- step_over in Hl'.
    rewrite (proj2 (Z.eqb_neq _ _) (valid_nonzero _ _ _ _ _ (proj1 Hl'))). cbn [negb]. apply wp_bind.
    eapply wp_node_tiled; [exact Hl'|]. intros np Hnp. destruct (_ =? _).
    + eapply wp_merge_tiled; [exact Hl'|]. intros s' Hm Hs'. eapply HQ; [exact Hm|cbn; lia|done].
    + apply wp_ret. eapply HQ; [exact Hl|lia|done].
Qed.

Lemma wp_madvise_pages (addr rps : Z) ks : forall s (Q : list Z -> fork -> Prop),
  (forall rs s', mem s' = mem s -> same_settings s s' -> Q rs s') ->
  wp (mapM (fun i => syscall (madvise (addr + i * rps) rps MADV_DOFORK)) ks) Q s.
Proof.
  induction ks as [|i ks IH]; intros s Q HQ; cbn [mapM]; [by apply wp_ret, HQ|]. apply wp_bind, wp_syscall. apply wp_bind, IH.
  intros rs s' Hm Hs. apply wp_ret, HQ; [done|]. destruct Hs as (?&?&?&?). by split_and!.
Qed.

Lemma wp_do_madvise_any s a n adv rps (Q : Z -> fork -> Prop) :
  (forall r s', mem s' = mem s -> same_settings s s' -> Q r s') -> wp (do_madvise a n adv rps) Q s.
Proof.
  intros HQ. unfold do_madvise. apply wp_bind, wp_syscall. destruct ((_ =? 0) || _); [by apply wp_ret, HQ|]. apply wp_bind, wp_when.
  destruct (rps <? n); [|by apply wp_ret, HQ]. apply wp_bind, wp_madvise_pages. intros rs s' Hm Hs. apply wp_ret, wp_ret, HQ; [done|].
  destruct Hs as (?&?&?&?). by split_and!.
Qed.

(** [undo_node] merges the range with its neighbours again. *)
Lemma wp_undo_merge_prev s l1 a x l2 (Q : Z -> fork -> Prop) start :
  tiled s (l1 ++ (a, x) :: l2) -> start <= r_end x ->
  (forall s' l1' b y l2', tiled s' (l1' ++ (b, y) :: l2') -> start <= r_end y -> same_settings s s' -> Q b s') ->
  wp (undo_merge a (last_addr l1) a (last_addr l1)) Q s.
Proof.
  intros Hl Hx HQ. unfold undo_merge. destruct l1 as [|[p xp] l1 _] using rev_ind; [apply wp_ret; by eapply (HQ s [])|].
  rewrite last_addr_snoc. pose proof Hl as Hl'. rewrite <- step_over in Hl'.
  rewrite (proj2 (Z.eqb_neq _ _) (valid_nonzero _ _ _ _ _ (proj1 Hl'))). cbn [negb].
  apply wp_bind. eapply wp_node_tiled; [exact Hl'|]. intros np _. apply wp_bind. eapply wp_node_tiled; [exact Hl|]. intros n _.
  destruct (_ =? _); [|apply wp_ret; by eapply HQ]. eapply wp_merge_tiled; [exact Hl'|]. intros s' Hm Hs. by eapply HQ.
Qed.

Lemma wp_undo_merge_next s l1 a x l2 (Q : Z -> fork -> Prop) start :
  tiled s (l1 ++ (a, x) :: l2) -> start <= r_end x ->
  (forall s' l1' b y l2', tiled s' (l1' ++ (b, y) :: l2') -> start <= r_end y -> same_settings s s' -> Q b s') ->
  wp (undo_merge a (head_addr l2) (head_addr l2) a) Q s.
Proof.
  intros Hl Hx HQ. unfold undo_merge. destruct l2 as [|[p xp] l2]; [apply wp_ret; by eapply (HQ s l1 a x [])|].
  change (head_addr ((p, xp) :: l2)) with p. pose proof Hl as Hl'. rewrite step_over in Hl'.
  rewrite (proj2 (Z.eqb_neq _ _) (valid_nonzero _ _ _ _ _ (proj1 Hl'))). cbn [negb].
  apply wp_bind. eapply wp_node_tiled; [exact Hl'|]. intros np _. apply wp_bind. eapply wp_node_tiled; [exact Hl|]. intros n _.
  destruct (_ =? _); [|apply wp_ret; by eapply HQ]. eapply wp_merge_tiled; [exact Hl|]. intros s' Hm Hs. eapply HQ; [exact Hm| |done].
  cbn [r_end]. destruct Hl as [_ Ht]. apply tiles_mid in Ht as (_ & _ & Ht). cbn in Ht. lia.
Qed.

Lemma wp_undo_tiled s l1 a x l2 start k (Q : Z -> fork -> Prop) :
  tiled s (l1 ++ (a, x) :: l2) -> start <= r_end x ->
  (forall s' l', tiled s' l' -> same_settings s s' -> Q 0 s') ->
  (forall s' l1' b y l2', tiled s' (l1' ++ (b, y) :: l2') -> start <= r_end y -> same_settings s s' -> Q b s') ->
  wp (undo_node a start k) Q s.
Proof.
  intros Hl Hx HQ0 HQ. unfold undo_node. apply wp_bind. eapply wp_node_tiled; [exact Hl|]. intros n Hn.
  replace (n_start n) with (r_start x) by (by rewrite <- Hn). apply wp_bind.
  assert (Hmerge : forall s1 l1 b y l2, tiled s1 (l1 ++ (b, y) :: l2) -> start <= r_end y -> same_settings s s1 ->
    wp (if b =? 0 then mret 0 else tmp ← on_tree (mm_prev b); node ← undo_merge b tmp b tmp; tmp ← on_tree (mm_next node); undo_merge node tmp tmp node) Q s1).
  { clear l1 a x l2 Hl Hx n Hn. intros s1 l1 b y l2 Hl Hy Hs1. rewrite (proj2 (Z.eqb_neq _ _) (valid_nonzero _ _ _ _ _ (proj1 Hl))).
    apply wp_bind, wp_tree. eapply wp_prev_v; [apply Hl|]. rewrite set_mem_id. apply wp_bind. eapply wp_undo_merge_prev; [exact Hl|exact Hy|].
    intros s2 l1' c z l2' Hl2 Hz Hs2. apply wp_bind, wp_tree. eapply wp_next_v; [apply Hl2|]. rewrite set_mem_id.
    eapply wp_undo_merge_next; [exact Hl2|exact Hz|]. intros s3 l1'' d u l2'' Hl3 Hu Hs3. eapply HQ; [exact Hl3|done|].
    transitivity s1; [done|]. by transitivity s2. }
  destruct (Z.ltb_spec (r_start x) start) as [Hlt|Hge].
  - apply wp_bind. eapply wp_split_tiled; [exact Hl|lia| |].
    + intros s' Hl' Hs'. cbn. apply wp_ret, wp_ret. by eapply HQ0.
    + intros s' new Hl' Hs' Hnew. rewrite (proj2 (Z.eqb_neq _ _) Hnew). cbn [negb]. apply wp_bind. eapply wp_refcnt_tiled; [exact Hl'|].
      intros s2 c Hl2 Hs2. apply wp_ret. rewrite step_over in Hl2. eapply Hmerge; [exact Hl2|cbn; lia|by transitivity s'].
  - apply wp_ret. eapply Hmerge; [exact Hl|lia|done].
Qed.
(** ** The loop *)

Section one_range.
Context (start end_ : Z) (Hrange : 0 <= start <= end_) (Hend : end_ <= UINTPTR_MAX).

Lemma wp_cut_tiled s l1 a x l2 (Q : bool -> fork -> Prop) :
  tiled s (l1 ++ (a, x) :: l2) -> r_start x <= end_ -> start <= r_end x ->
  (forall s' l', tiled s' l' -> same_settings s s' -> Q false s') ->
  (forall s' x' l2', tiled s' (l1 ++ (a, x') :: l2') -> same_settings s s' -> start <= r_end x' ->
     (length l2' = length l2 \/ end_ < pos l2') -> Q true s') ->
  wp (if end_ <? r_end x then p ← split_range a (end_ +{64} 1); mret (negb (p =? 0)) else mret true) Q s.
Proof.
  intros Hl Hx Hsx HQ0 HQ. pose proof (tiles_bounds _ _ _ (a, x) (proj2 Hl) ltac:(set_solver)) as Hb. cbn [snd] in Hb. unfold UINTPTR_MAX in *.
  destruct (Z.ltb_spec end_ (r_end x)) as [Hlt|Hge].
  - rewrite wrap_small by (unfold in_width; lia). apply wp_bind. eapply wp_split_tiled; [exact Hl|lia| |].
    + intros s' Hl' Hs'. apply wp_ret. by eapply HQ0.
    + intros s' new Hl' Hs' Hnew. apply wp_ret. rewrite (proj2 (Z.eqb_neq _ _) Hnew). eapply HQ; [exact Hl'|done|cbn; lia|right; cbn; lia].
  - apply wp_ret. eapply (HQ s x l2); [done|done|done|by left].
Qed.

(** After a refused [madvise]: the range is put back, and the call rolls back what it did
    before or gives up. *)
Lemma wp_refused_tiled s l1 a x l2 k rb ret (Q : left_loop -> fork -> Prop) :
  tiled s (l1 ++ (a, x) :: l2) -> start <= r_end x ->
  (forall s' l r, tiled s' l -> same_settings s s' -> Q (Out r) s') ->
  (forall s' l e, tiled s' l -> same_settings s s' -> start <= e <= UINTPTR_MAX -> Q (Again e) s') ->
  wp (node ← undo_node a start k; if rb || (node =? 0) then mret (Out ret) else n ← on_tree (node_at node); mret (Again (n_end n))) Q s.
Proof.
  intros Hl Hx HO HA. apply wp_bind. eapply wp_undo_tiled; [exact Hl|exact Hx| |].
  - intros s' l' Hl' Hs'. rewrite orb_true_r. apply wp_ret. by eapply HO.
  - intros s' l1' b y l2' Hl' Hy Hs'. destruct (rb || (b =? 0)); [apply wp_ret; by eapply HO|].
    apply wp_bind. eapply wp_node_tiled; [exact Hl'|]. intros n Hn. apply wp_ret. replace (n_end n) with (r_end y) by (by rewrite <- Hn).
    eapply HA; [exact Hl'|done|]. pose proof (tiles_bounds _ _ _ (b, y) (proj2 Hl') ltac:(set_solver)) as Hb. cbn [snd] in Hb. lia.
Qed.

Lemma wp_loop_tiled adv k rps rb fuel : forall s l1 rest (Q : left_loop -> fork -> Prop),
  tiled s (l1 ++ rest) -> (forall i, head rest = Some i -> start <= r_end i.2) -> (0 < fuel)%nat -> (pos rest <= end_ -> (S (length rest) < fuel)%nat) ->
  (forall s' l1' rest', tiled s' (l1' ++ rest') -> same_settings s s' -> Q (Ended (head_addr rest')) s') ->
  (forall s' l r, tiled s' l -> same_settings s s' -> Q (Out r) s') ->
  (forall s' l e, tiled s' l -> same_settings s s' -> start <= e <= UINTPTR_MAX -> Q (Again e) s') ->
  wp (madvise_loop fuel start end_ adv k rps rb (head_addr rest)) Q s.
Proof.
  induction fuel as [|fuel IH]; intros s l1 rest Q Hl Hst Hfu0 Hfu HE HO HA; [lia|]. cbn [madvise_loop]. destruct rest as [|[a x] l2].
  { unfold head_addr. cbn. apply wp_ret. by eapply (HE s l1 []). }
  change (head_addr ((a, x) :: l2)) with a. rewrite (proj2 (Z.eqb_neq _ _) (valid_nonzero _ _ _ _ _ (proj1 Hl))).
  apply wp_bind. eapply wp_node_tiled; [exact Hl|]. intros n Hn. replace (n_start n) with (r_start x) by (by rewrite <- Hn).
  replace (n_end n) with (r_end x) by (by rewrite <- Hn). cbn [pos snd] in *.
  destruct (Z.ltb_spec end_ (r_start x)) as [Hlt|Hge]; [apply wp_ret; by eapply (HE s l1 ((a, x) :: l2))|].
  pose proof (Hst (a, x) eq_refl) as Hsx. cbn [snd] in Hsx. apply wp_bind. eapply wp_cut_tiled; [exact Hl|exact Hge|exact Hsx| |].
  { intros s' l' Hl' Hs'. cbn. apply wp_ret. by eapply HO. }
  intros s1 x' l2' Hl1 Hs1 Hx' Hlen. cbn [negb]. apply wp_bind. eapply wp_node_tiled; [exact Hl1|]. clear n Hn. intros n _. apply wp_bind.
  assert (Hnext : forall r s2, mem s2 = mem s1 -> same_settings s1 s2 ->
    wp (if negb (r =? 0) then node ← undo_node a start k; if rb || (node =? 0) then mret (Out r) else n ← on_tree (node_at node); mret (Again (n_end n))
        else on_tree (upd a (fun n => with_refcnt (add_int (n_refcnt n) k) n));; node ← on_tree (mm_next a); madvise_loop fuel start end_ adv k rps rb node) Q s2).
  { intros r s2 Hm Hs2. pose proof (tiled_mem _ _ _ Hl1 Hm) as Hl2. assert (Hs02 : same_settings s s2) by (by transitivity s1).
    destruct (negb (r =? 0)).
    - eapply wp_refused_tiled; [exact Hl2|exact Hx'| |].
      + intros s' l' r' Hl' Hs'. eapply HO; [exact Hl'|by transitivity s2].
      + intros s' l' e Hl' Hs' He. eapply HA; [exact Hl'|by transitivity s2|done].
    - apply wp_bind. eapply wp_refcnt_tiled; [exact Hl2|]. intros s3 c Hl3 Hs3. assert (Hs03 : same_settings s s3) by (by transitivity s2).
      apply wp_bind, wp_tree. eapply wp_next_v; [apply Hl3|]. rewrite set_mem_id. rewrite step_over in Hl3. eapply IH; [exact Hl3| |cbn [length] in Hfu; lia| | | |].
      + intros i Hi. destruct l2' as [|i' l2']; [done|]. injection Hi as ->. destruct Hl1 as [_ Ht]. apply tiles_mid in Ht as (_ & _ & T2). cbn in T2. lia.
      + intros Hp. cbn [length] in Hfu. destruct Hlen; lia.
      + intros s' l1' rest' Hl' Hs'. eapply HE; [exact Hl'|by transitivity s3].
      + intros s' l' r' Hl' Hs'. eapply HO; [exact Hl'|by transitivity s3].
      + intros s' l' e Hl' Hs' He. eapply HA; [exact Hl'|by transitivity s3|done]. }
  destruct ((_ && _) || _); [destruct (_ <? _); apply wp_do_madvise_any; exact Hnext|apply wp_ret, Hnext; done].
Qed.

Lemma wp_again_tiled s l adv rps rb (Q : Z + Z -> fork -> Prop) :
  tiled s l ->
  (forall s' l' r, tiled s' l' -> same_settings s s' -> Q (inl r) s') ->
  (forall s' l' e, tiled s' l' -> same_settings s s' -> start <= e <= UINTPTR_MAX -> Q (inr e) s') ->
  wp (madvise_again start end_ adv rps rb) Q s.
Proof.
  intros Hl HL0 HR. unfold madvise_again. apply wp_bind. eapply wp_start_tiled; [exact Hl|lia| |].
  { intros s' l' Hl' Hs'. cbn. apply wp_ret. by eapply HL0. }
  intros s1 l1 a x l2 Hl1 Hx Hs1. rewrite (proj2 (Z.eqb_neq _ _) (valid_nonzero _ _ _ _ _ (proj1 Hl1))). apply wp_bind, wp_get. apply wp_bind.
  change a with (head_addr ((a, x) :: l2)). eapply wp_loop_tiled; [exact Hl1| |lia| | | |].
  - intros i [= <-]. done.
  - intros _. unfold rounds. pose proof (valid_length _ _ (proj1 Hl1)) as Hlen. rewrite length_app in Hlen. lia.
  - intros s2 l1' rest' Hl2 Hs2. assert (Hs02 : same_settings s s2) by (by transitivity s1).
    apply wp_bind, wp_when. destruct rest' as [|[b y] rest']; [cbn; apply wp_ret; by eapply HL0|].
    change (head_addr ((b, y) :: rest')) with b. destruct (negb (b =? 0)); [|apply wp_ret; by eapply HL0].
    apply wp_bind, wp_tree. eapply wp_prev_v; [apply Hl2|]. rewrite set_mem_id. apply wp_when.
    destruct l1' as [|[p xp] l1' _] using rev_ind; [cbn; apply wp_ret; by eapply HL0|]. rewrite last_addr_snoc.
    pose proof Hl2 as Hl2'. rewrite <- step_over in Hl2'. destruct (negb (p =? 0)); [|apply wp_ret; by eapply HL0].
    apply wp_bind. eapply wp_node_tiled; [exact Hl2|]. intros n _. apply wp_bind. eapply wp_node_tiled; [exact Hl2'|]. intros np _.
    apply wp_when. destruct (_ =? _); [|apply wp_ret; by eapply HL0]. apply wp_bind. eapply wp_merge_tiled; [exact Hl2'|].
    intros s3 Hl3 Hs3. apply wp_ret, wp_ret. eapply HL0; [exact Hl3|by transitivity s2].
  - intros s2 l' r Hl2 Hs2. apply wp_ret. eapply HL0; [exact Hl2|by transitivity s1].
  - intros s2 l' e Hl2 Hs2 He. apply wp_ret. eapply HR; [exact Hl2|by transitivity s1|done].
Qed.
End one_range.
(** ** Calls *)

(** A size of pages: a power of two, up to 1 TB. *)
Definition page_ok (n : Z) : Prop := exists k, 0 <= k <= 40 /\ n = 2 ^ k.

(** What the system says about pages: [sysconf] fails or gives such a size, and the sizes
    in smaps are such. *)
Record host_pages : Prop := {
  pages_sysconf : forall o, sysconf_pagesize o < 0 \/ page_ok (sysconf_pagesize o);
  pages_smaps : forall o lines dflt base, smaps o = Some lines -> page_ok dflt -> page_ok (find_page_size dflt base lines) }.

(** The memory of a call ends before the last pages of the address space. *)
Definition call_fits (c : call) : Prop :=
  match c with Dontfork base size | Dofork base size => 0 <= base /\ 0 <= size /\ base + size + 2 ^ 40 < 2 ^ 64 end.

Lemma range_page_ok s base : host_pages -> page_ok (page_size s) -> page_ok (range_page_size base s).
Proof.
  intros Hp Hs. unfold range_page_size, get_page_size. destruct (huge_page_enabled s); [|done].
  destruct (smaps (os s)) as [lines|] eqn:E; [|done]. by eapply pages_smaps.
Qed.

Lemma wp_range_tiled s l base size adv (Q : Z -> fork -> Prop) :
  host_pages -> page_ok (page_size s) -> tiled s l -> mm_mutex s = false -> 0 <= base -> 0 <= size -> base + size + 2 ^ 40 < 2 ^ 64 ->
  (forall r s' l', tiled s' l' -> same_settings s s' -> Q r s') -> wp (ibv_madvise_range base size adv) Q s.
Proof.
  intros Hp Hps Hl Hmx Hb Hs Hfit HQ. unfold ibv_madvise_range. destruct ((size =? 0) || (base =? 0)) eqn:E; [apply wp_ret; by eapply HQ|].
  apply orb_false_iff in E as [E1%Z.eqb_neq E2%Z.eqb_neq]. apply wp_bind, wp_gets. destruct (range_page_ok s base Hp Hps) as (k & Hk & Erps).
  set (rps := range_page_size base s) in *.
  assert (Hal : aligned base size rps).
  { assert (2 ^ k <= 2 ^ 40) by (apply Z.pow_le_mono_r; lia). split; [lia|exists k; split; [lia|done]|lia]. }
  destruct (range_bounds _ _ _ Hal) as (Hb1 & Hb2 & Hb3). apply wp_bind. unfold wp at 1, pthread_mutex_lock. rewrite Hmx. apply wp_bind.
  assert (Hl1 : tiled (set_mutex true s) l) by done.
  assert (Hdone : forall r s1 l', tiled s1 l' -> same_settings (set_mutex true s) s1 -> wp (pthread_mutex_unlock;; mret r) Q s1).
  { intros r s1 l' Hl' (F1 & F2 & F3 & F4). apply wp_bind, wp_modify, wp_ret. eapply HQ; [exact Hl'|]. by split_and!. }
  eapply wp_again_tiled; [lia|lia|exact Hl1| |].
  - intros s1 l' r Hl' Hs1. apply wp_bind, wp_ret. by eapply Hdone.
  - intros s1 l' e Hl' Hs1 He. apply wp_bind, wp_bind. eapply (wp_again_tiled _ e); [lia|lia|exact Hl'| |].
    + intros s2 l2 r Hl2 Hs2. apply wp_ret. eapply Hdone; [exact Hl2|by transitivity s1].
    + intros s2 l2 e' Hl2 Hs2 _. apply wp_ret. eapply Hdone; [exact Hl2|by transitivity s1].
Qed.

(** The programs: initialization, registering and unregistering, in any order. *)
Inductive entry : Set := ForkInit | Range (c : call).

Definition run_entry (e : entry) : M fork Z := match e with ForkInit => ibv_fork_init | Range c => run_call c end.

Fixpoint run_entries (es : list entry) : M fork (list Z) :=
  match es with [] => mret [] | e :: es' => r ← run_entry e; rs ← run_entries es'; mret (r :: rs) end.

Definition entry_fits (e : entry) : Prop := match e with ForkInit => True | Range c => call_fits c end.

(** Between calls: the mutex is free, and there is no tree, or one that tiles the address
    space and whose nodes are all the memory in use. *)
Definition sound s : Prop :=
  mm_mutex s = false /\ (mem s = mk_mm 0 ∅ \/ (exists l, tiled s l) /\ page_ok (page_size s)).

Lemma tiled_root s l : tiled s l -> mm_root (mem s) <> 0.
Proof. intros [Hv Ht]. eapply valid_root; [exact Hv|]. intros ->. cbn in Ht. unfold UINTPTR_MAX in Ht. lia. Qed.

Lemma wp_run_call_sound s c (Q : Z -> fork -> Prop) :
  host_pages -> sound s -> call_fits c -> (forall r s', sound s' -> Q r s') -> wp (run_call c) Q s.
Proof.
  intros Hp [Hmx Hm] Hc HQ.
  assert (Hgo : forall base size adv, 0 <= base /\ 0 <= size /\ base + size + 2 ^ 40 < 2 ^ 64 ->
    wp (s ← get; if negb (mm_root (mem s) =? 0) then ibv_madvise_range base size adv else modify set_too_late;; mret 0) Q s).
  { intros base size adv (Hb & Hs & Hf). apply wp_bind, wp_get. destruct Hm as [Hm|[[l Hl] Hps]].
    - rewrite Hm. cbn. apply wp_bind, wp_modify, wp_ret, HQ. split; [done|]. left. exact Hm.
    - rewrite (proj2 (Z.eqb_neq _ _) (tiled_root _ _ Hl)). cbn [negb]. eapply wp_range_tiled; [done|done|exact Hl|done..|].
      intros r s' l' Hl' (F1 & F2 & F3 & F4). apply HQ. split; [congruence|]. right. split; [by exists l'|by rewrite F2]. }
  destruct c as [base size|base size]; by apply Hgo.
Qed.

Lemma fresh_tiled s p : p <> 0 -> mem s = mk_mm p (<[p := mk_node IBV_BLACK 0 0 0 0 UINTPTR_MAX 0]> ∅) -> tiled s [(p, mk_range 0 UINTPTR_MAX 0)].
Proof. intros Hp E. split; [rewrite E; by apply valid_fresh|]. cbn. unfold UINTPTR_MAX. split_and!; lia. Qed.

Lemma wp_fork_init_sound s (Q : Z -> fork -> Prop) : host_pages -> sound s -> (forall r s', sound s' -> Q r s') -> wp ibv_fork_init Q s.
Proof.
  intros Hp Hs HQ. unfold ibv_fork_init. apply wp_bind, wp_get. apply wp_bind, wp_when.
  assert (Hgo : forall s, sound s -> wp (s ← get; if negb (mm_root (mem s) =? 0) then mret 0 else
    st ← ibv_is_fork_initialized; match st with IBV_FORK_UNNEEDED => mret 0 | _ => if too_late s then mret EINVAL else
      modify (set_page_size (sysconf_pagesize (os s)));; s ← get; if page_size s <? 0 then mret (errno (os s)) else
      '(err, tmp) ← syscall (posix_memalign (page_size s) (page_size s)); if negb (err =? 0) then mret ENOMEM else
      s ← get; let size := if huge_page_enabled s then get_page_size tmp s else page_size s in
      let tmp_aligned := if huge_page_enabled s then page_down tmp size else tmp in
      r1 ← syscall (madvise tmp_aligned size MADV_DONTFORK);
      r ← (if negb (r1 =? 0) then mret r1 else syscall (madvise tmp_aligned size MADV_DOFORK));
      syscall (fun o => (tt, release tmp o));; if negb (r =? 0) then mret ENOSYS else
      s ← get; '(p, _) ← syscall (malloc (nodes (mem s))); if p =? 0 then mret ENOMEM else
      modify (fun s => set_mem (mk_mm p (<[p := mk_node IBV_BLACK 0 0 0 0 UINTPTR_MAX 0]> (nodes (mem s)))) s);; mret 0 end) Q s).
  { clear s Hs. intros s Hs. apply wp_bind, wp_get. destruct (mm_root (mem s) =? 0) eqn:Er; cbn [negb]; [|by apply wp_ret, HQ].
    apply Z.eqb_eq in Er. destruct Hs as [Hmx [Hm|[[l Hl] _]]]; [|by destruct (tiled_root _ _ Hl)].
    assert (Hempty : forall s', mem s' = mem s -> mm_mutex s' = mm_mutex s -> sound s') by (intros s' E1 E2; split; [congruence|left; congruence]).
    apply wp_bind. unfold ibv_is_fork_initialized. apply wp_bind, wp_get. destruct (get_copy_on_fork (os s)); apply wp_ret; [by apply wp_ret, HQ, Hempty|].
    rewrite Er. cbn [Z.eqb negb]. destruct (too_late s); [by apply wp_ret, HQ, Hempty|]. apply wp_bind, wp_modify. apply wp_bind, wp_get. cbn [page_size set_page_size os].
    destruct (Z.ltb_spec (sysconf_pagesize (os s)) 0) as [|Hpos]; [by apply wp_ret, HQ, Hempty|].
    destruct (pages_sysconf Hp (os s)) as [|Hok]; [lia|]. apply wp_bind, wp_syscall. destruct (posix_memalign _ _ _) as [[err tmp] o1]. cbn [fst snd].
    destruct (err =? 0); cbn [negb]; [|by apply wp_ret, HQ, Hempty]. apply wp_bind, wp_get. cbv zeta. apply wp_bind, wp_syscall. apply wp_bind.
    assert (Hrest : forall r s1, mem s1 = mem s -> mm_mutex s1 = mm_mutex s -> page_size s1 = sysconf_pagesize (os s) ->
      wp (syscall (fun o => (tt, release tmp o));; if negb (r =? 0) then mret ENOSYS else
        s ← get; '(p, _) ← syscall (malloc (nodes (mem s))); if p =? 0 then mret ENOMEM else
        modify (fun s => set_mem (mk_mm p (<[p := mk_node IBV_BLACK 0 0 0 0 UINTPTR_MAX 0]> (nodes (mem s)))) s);; mret 0) Q s1).
    { intros r s1 E1 E2 E3. apply wp_bind, wp_syscall. destruct (r =? 0); cbn [negb]; [|by apply wp_ret, HQ, Hempty]. apply wp_bind, wp_get.
      apply wp_bind, wp_syscall. destruct (malloc _ _) as [[p junk] o2]. cbn [fst snd]. destruct (Z.eqb_spec p 0) as [|Hp0]; [by apply wp_ret, HQ, Hempty|].
      apply wp_bind, wp_modify, wp_ret, HQ. split; [cbn; congruence|]. right. split; [|cbn; by rewrite E3]. eexists. apply (fresh_tiled _ p Hp0).
      cbn. by rewrite E1, Hm. }
    destruct (negb _); [apply wp_ret|apply wp_syscall]; by apply Hrest. }
  destruct (getenv_hugepages (os s)); [apply wp_modify|]; apply Hgo; [|done]. destruct Hs as [Hmx Hs]. split; [done|exact Hs].
Qed.

Lemma wp_run_entries es : forall s (Q : list Z -> fork -> Prop),
  host_pages -> sound s -> Forall entry_fits es -> (forall rs s', length rs = length es -> sound s' -> Q rs s') -> wp (run_entries es) Q s.
Proof.
  induction es as [|e es IH]; intros s Q Hp Hs Hf HQ; cbn [run_entries]; [by apply wp_ret, HQ|]. apply Forall_cons in Hf as [He Hf].
  assert (Hrest : forall r s', sound s' -> wp (rs ← run_entries es; mret (r :: rs)) Q s').
  { intros r s' Hs'. apply wp_bind, IH; [done..|]. intros rs s2 Hl Hs2. apply wp_ret, HQ; [cbn; by rewrite Hl|done]. }
  apply wp_bind. destruct e as [|c]; cbn [run_entry]; [by apply wp_fork_init_sound|by apply wp_run_call_sound].
Qed.
End safe.

(** ** What is shown *)

(** C8: whatever fails, the calls that protect memory on fork are safe.  In a process that
    has not used them yet, any sequence of [ibv_fork_init], [ibv_dontfork_range] and
    [ibv_dofork_range], in any order and any number, for memory that ends 1 TB before the
    end of the address space or earlier, runs to its end without touching memory it must
    not, with every [malloc], [madvise] and [posix_memalign] succeeding or failing as it
    likes, with normal or huge pages and with or without copy-on-fork: after each failure
    the splits and merges are undone or left such that the mutex is released and there is
    no tree yet, or a balanced tree whose ranges follow each other from address 0 to the
    last one, and which holds every node that is allocated.  Assumed is that page sizes are
    powers of two of at most 1 TB. *)
Theorem fork_calls_safe {H : Host} {HL : HostLaws H} s es
    (Hp : host_pages) (Hm : mem s = mk_mm 0 ∅) (Hmx : mm_mutex s = false) (Hf : Forall entry_fits es) :
  exists rs s', run_entries es s = Done rs s' /\ length rs = length es /\ mm_mutex s' = false /\
    (mem s' = mk_mm 0 ∅ \/ exists l, valid (mem s') l /\ tiles 0 l UINTPTR_MAX /\ length l = size (nodes (mem s'))).
Proof.
  assert (Hw : wp (run_entries es) (fun rs s' => length rs = length es /\ sound s') s).
  { apply wp_run_entries; [done|split; [done|by left]|done|done]. }
  apply wp_run in Hw as (rs & s' & E & Hlen & Hmx' & Hs). exists rs, s'. do 3 (split; [done|]).
  destruct Hs as [Hs|[[l [Hv Ht]] _]]; [by left|right]. exists l. split_and!; [done|done|by apply valid_length].
Qed.

(** The host refuses to mark one page, and memory runs out after six nodes. *)
Definition demo_later : list entry :=
  [ForkInit; Range (Dontfork 0x10000 0x1000); Range (Dontfork 0x20000 0x1000); Range (Dontfork 0x30010 0x5000); Range (Dofork 0x20000 0x1000)].

Lemma fork_calls_safe_witness : exists rs s',
  run_entries demo_later (@demo_start (fun a => a =? 0x10000) (Some 6%nat)) = Done rs s' /\ rs = [0; -1; 0; -1; 0] /\ mm_mutex s' = false.
Proof.
  destruct (fork_calls_safe (H := demo_host (fun a => a =? 0x10000) (Some 6%nat)) demo_start demo_later) as (rs & s' & E & _ & Hmx & _).
  - split; [intros o; right; exists 12; split; [lia|reflexivity]|]. intros o lines dflt base E. discriminate E.
  - reflexivity.
  - reflexivity.
  - repeat constructor; cbn; lia.
  - exists rs, s'. split; [exact E|]. split; [|exact Hmx].
    assert (Hrs : match run_entries demo_later (@demo_start (fun a => a =? 0x10000) (Some 6%nat)) with Done r _ => r | Fault _ => [] end = [0; -1; 0; -1; 0])
      by (vm_compute; reflexivity).
    rewrite E in Hrs. exact Hrs.
Defined.
