(* ===== verification/VerbsMr.v ===== *)
(** * Memory regions of libibverbs

    The entry points of libibverbs/verbs.c that register, change and remove memory
    regions, on top of [Fork]: they keep the memory of a region from being copied on
    fork and ask the provider for the rest.  The provider is a parameter ([MrProvider]),
    with what its operations promise in [MrProviderLaws]. *)

From Stdlib Require Import ZArith Lia.
From stdpp Require Import base list gmap fin_maps.
From S2P Require Import Prelude MemTree Fork ForkRange.

#[local] Open Scope cint_scope.
#[local] Open Scope Z_scope.

(** ** The code *)

Definition IBV_ACCESS_ON_DEMAND : Z := 64.
Definition IBV_ACCESS_OPTIONAL_RANGE : Z := 0x3ff00000.
Definition IBV_REREG_MR_CHANGE_TRANSLATION : Z := 1.
Definition IBV_REREG_MR_CHANGE_PD : Z := 2.
Definition IBV_REREG_MR_CHANGE_ACCESS : Z := 4.
Definition IBV_REREG_MR_FLAGS_SUPPORTED : Z := 7.

Definition IBV_REREG_MR_ERR_INPUT : Z := -1.
Definition IBV_REREG_MR_ERR_DONT_FORK_NEW : Z := -2.
Definition IBV_REREG_MR_ERR_DO_FORK_OLD : Z := -3.
Definition IBV_REREG_MR_ERR_CMD : Z := -4.
Definition IBV_REREG_MR_ERR_CMD_AND_DO_FORK_NEW : Z := -5.

Inductive ibv_mr_type : Set := IBV_MR_TYPE_MR | IBV_MR_TYPE_NULL_MR | IBV_MR_TYPE_IMPORTED_MR | IBV_MR_TYPE_DMABUF_MR.

#[export] Instance ibv_mr_type_eq_dec : EqDecision ibv_mr_type.
Proof. solve_decision. Defined.

Record verbs_mr : Set := mk_mr { mr_pd : Z; mr_addr : Z; mr_length : Z; mr_type : ibv_mr_type; mr_access : Z }.

(** The operations of the provider.  [reg_mr] and [reg_dmabuf_mr] return 0 or the
    address of a region with the members that the provider sets; the others return an
    error. *)
Class MrProvider : Type := {
  prov : Type;
  reg_mr : gmap Z verbs_mr -> Z -> Z -> Z -> Z -> Z -> prov -> Z * verbs_mr * prov;
  reg_dmabuf_mr : gmap Z verbs_mr -> Z -> Z -> Z -> Z -> Z -> Z -> prov -> Z * verbs_mr * prov;
  rereg_mr : Z -> Z -> Z -> Z -> Z -> Z -> prov -> Z * prov;
  dereg_mr : Z -> prov -> Z * prov;
  optional_mr_access : bool }.

(** Regions are at addresses not in use; [reg_mr] makes an ordinary region, which is not
    recorded as on-demand unless it was asked to be, and [reg_dmabuf_mr] records its type.
    The provider in C allocates a zeroed region (bluerdma.c:154-170) and keeps these laws;
    the library in Rust allocates an [ibv_mr] only, and what is read of the region around it
    is not covered. *)
Class MrProviderLaws (P : MrProvider) : Prop := {
  reg_mr_fresh h pd a n iova acc p x m o : reg_mr h pd a n iova acc p = (x, m, o) -> x = 0 \/ h !! x = None;
  reg_mr_ordinary h pd a n iova acc p x m o : reg_mr h pd a n iova acc p = (x, m, o) -> x <> 0 ->
    mr_type m = IBV_MR_TYPE_MR /\ (Z.land acc IBV_ACCESS_ON_DEMAND = 0 -> Z.land (mr_access m) IBV_ACCESS_ON_DEMAND = 0);
  reg_dmabuf_mr_records h pd a n iova fd acc p x m o : reg_dmabuf_mr h pd a n iova fd acc p = (x, m, o) -> x <> 0 ->
    h !! x = None /\ mr_type m = IBV_MR_TYPE_DMABUF_MR }.

(** Providers that go through [ibv_cmd_reg_mr] also record that a region is on-demand; the
    provider in C of this repository does not. *)
Definition records_on_demand (P : MrProvider) : Prop :=
  forall h pd a n iova acc p x m o, reg_mr h pd a n iova acc p = (x, m, o) -> x <> 0 ->
    Z.land (mr_access m) IBV_ACCESS_ON_DEMAND = Z.land acc IBV_ACCESS_ON_DEMAND.

Record verbs `{Host} `{MrProvider} : Type := mk_verbs { v_fork : fork; v_mrs : gmap Z verbs_mr; v_prov : prov; v_errno : Z }.
Arguments mk_verbs {H H0}.

Section code.
Context `{Host} `{MrProvider}.

Definition on_fork {A} (m : M fork A) : M verbs A := fun s =>
  match m (v_fork s) with Done a f => Done a (mk_verbs f (v_mrs s) (v_prov s) (v_errno s)) | Fault u => Fault u end.

Definition on_prov {A} (f : prov -> A * prov) : M verbs A := fun s =>
  Done (f (v_prov s)).1 (mk_verbs (v_fork s) (v_mrs s) (f (v_prov s)).2 (v_errno s)).

Definition mr_at (p : Z) : M verbs verbs_mr :=
  s ← get; if p =? 0 then fail NullDeref else demand UseAfterFree (v_mrs s !! p).

Definition set_mr (p : Z) (m : verbs_mr) : M verbs unit :=
  modify (fun s => mk_verbs (v_fork s) (<[p := m]> (v_mrs s)) (v_prov s) (v_errno s)).

Definition del_mr (p : Z) : M verbs unit :=
  modify (fun s => mk_verbs (v_fork s) (delete p (v_mrs s)) (v_prov s) (v_errno s)).

Definition set_errno (e : Z) : M verbs unit := modify (fun s => mk_verbs (v_fork s) (v_mrs s) (v_prov s) e).

Definition has_flag (x flag : Z) : bool := negb (Z.land x flag =? 0).

Definition ibv_reg_mr_iova2 (pd addr length iova access : Z) : M verbs Z :=
  let odp_mr := has_flag access IBV_ACCESS_ON_DEMAND in
  let access := if optional_mr_access then access else Z.land access (~{32} IBV_ACCESS_OPTIONAL_RANGE) in
  e ← (if negb odp_mr then on_fork (ibv_dontfork_range addr length) else mret 0);
  if negb (e =? 0) then mret 0
  else
    s ← get;
    '(mr, m) ← on_prov (reg_mr (v_mrs s) pd addr length iova access);
    if negb (mr =? 0) then
      set_mr mr (mk_mr pd addr length (mr_type m) (mr_access m));;
      mret mr
    else
      (if negb odp_mr then on_fork (ibv_dofork_range addr length);; mret tt else mret tt);;
      mret mr.

Definition ibv_reg_mr (pd addr length access : Z) : M verbs Z := ibv_reg_mr_iova2 pd addr length addr access.
Definition ibv_reg_mr_iova (pd addr length iova access : Z) : M verbs Z := ibv_reg_mr_iova2 pd addr length iova access.

Definition ibv_reg_dmabuf_mr (pd offset length iova fd access : Z) : M verbs Z :=
  s ← get;
  '(mr, m) ← on_prov (reg_dmabuf_mr (v_mrs s) pd offset length iova fd access);
  if mr =? 0 then mret 0
  else
    set_mr mr (mk_mr pd offset length (mr_type m) (mr_access m));;
    mret mr.

(** The checks before a region is changed. *)
Definition rereg_input_ok (m : verbs_mr) (flags addr length access : Z) : bool :=
  bool_decide (mr_type m = IBV_MR_TYPE_MR)
  && negb (has_flag flags (~{32} IBV_REREG_MR_FLAGS_SUPPORTED))
  && negb (has_flag flags IBV_REREG_MR_CHANGE_TRANSLATION && ((length =? 0) || (addr =? 0)))
  && negb (negb (access =? 0) && negb (has_flag flags IBV_REREG_MR_CHANGE_ACCESS)).

Definition ibv_rereg_mr (mr flags pd addr length access : Z) : M verbs Z :=
  m ← mr_at mr;
  if negb (rereg_input_ok m flags addr length access) then
    set_errno EINVAL;;
    mret IBV_REREG_MR_ERR_INPUT
  else
    let trans := has_flag flags IBV_REREG_MR_CHANGE_TRANSLATION in
    e ← (if trans then on_fork (ibv_dontfork_range addr length) else mret 0);
    if negb (e =? 0) then mret IBV_REREG_MR_ERR_DONT_FORK_NEW
    else
      err ← on_prov (rereg_mr mr flags pd addr length access);
      if err =? 0 then
        (if has_flag flags IBV_REREG_MR_CHANGE_PD then
           m ← mr_at mr; set_mr mr (mk_mr pd (mr_addr m) (mr_length m) (mr_type m) (mr_access m))
         else mret tt);;
        if trans then
          m' ← mr_at mr;
          set_mr mr (mk_mr (mr_pd m') addr length (mr_type m') (mr_access m'));;
          err ← on_fork (ibv_dofork_range (mr_addr m) (mr_length m));
          mret (if negb (err =? 0) then IBV_REREG_MR_ERR_DO_FORK_OLD else err)
        else mret err
      else if trans then
        e ← on_fork (ibv_dofork_range addr length);
        mret (if negb (e =? 0) then IBV_REREG_MR_ERR_CMD_AND_DO_FORK_NEW else IBV_REREG_MR_ERR_CMD)
      else mret IBV_REREG_MR_ERR_CMD.

(** A region that the provider removed is gone. *)
Definition ibv_dereg_mr (mr : Z) : M verbs Z :=
  m ← mr_at mr;
  ret ← on_prov (dereg_mr mr);
  (if ret =? 0 then del_mr mr else mret tt);;
  (if (ret =? 0) && bool_decide (mr_type m = IBV_MR_TYPE_MR) && negb (has_flag (mr_access m) IBV_ACCESS_ON_DEMAND)
   then on_fork (ibv_dofork_range (mr_addr m) (mr_length m));; mret tt
   else mret tt);;
  mret ret.

End code.

(** ** Regions and counts *)

Section counts.
Context {H : Host} {HL : HostLaws H} {P : MrProvider} {PL : MrProviderLaws P}.
Implicit Types (s : verbs) (h : gmap Z verbs_mr) (m : verbs_mr).

(** A region whose memory is kept from being copied. *)
Definition plain m : bool := bool_decide (mr_type m = IBV_MR_TYPE_MR) && negb (has_flag (mr_access m) IBV_ACCESS_ON_DEMAND).

Definition mr_pages (ps : Z) (m : verbs_mr) : Z * Z := call_range ps (Dontfork (mr_addr m) (mr_length m)).

(** A region counts for an address of its pages. *)
Definition in_mr (ps v : Z) (m : verbs_mr) : bool :=
  plain m && ((mr_pages ps m).1 <=? v) && (v <=? (mr_pages ps m).2).

Definition count_of (ps : Z) h (v : Z) : Z := Z.of_nat (size (filter (fun '(_, m) => in_mr ps v m = true) h)).

Lemma count_insert ps h p m v : h !! p = None -> count_of ps (<[p := m]> h) v = count_of ps h v + Z.b2z (in_mr ps v m).
Proof.
  intros Hp. unfold count_of. destruct (in_mr ps v m) eqn:E.
  - rewrite map_filter_insert_True by done. rewrite map_size_insert_None; [cbn; lia|]. by apply map_lookup_filter_None; left.
  - rewrite map_filter_insert_False by (rewrite E; done). rewrite delete_id by done. cbn. lia.
Qed.

Lemma count_delete ps h p m v : h !! p = Some m -> count_of ps (delete p h) v = count_of ps h v - Z.b2z (in_mr ps v m).
Proof.
  intros Hp. rewrite <- (insert_delete_id h p m Hp) at 2. rewrite count_insert by apply lookup_delete_eq. lia.
Qed.

Lemma count_update ps h p m m' v : h !! p = Some m ->
  count_of ps (<[p := m']> h) v = count_of ps h v - Z.b2z (in_mr ps v m) + Z.b2z (in_mr ps v m').
Proof.
  intros Hp. rewrite <- insert_delete_eq, count_insert by apply lookup_delete_eq. by rewrite (count_delete _ _ _ _ _ Hp).
Qed.

Lemma count_bound ps h v : 0 <= count_of ps h v <= Z.of_nat (size h).
Proof. unfold count_of. split; [lia|]. apply inj_le. apply map_subseteq_size, map_filter_subseteq. Qed.

Lemma holds_counts_ext f g (s : fork) l : (forall v, f v = g v) -> holds_counts f s l -> holds_counts g s l.
Proof.
  intros E [? ? Hc ? Hm]. split; try done.
  - eapply Forall_impl; [exact Hc|]. intros i Hi v Hv. rewrite <- E. by apply Hi.
  - intros v Hv. rewrite <- E. by apply Hm.
Qed.

Lemma wp_on_fork {A} (m : M fork A) (Q : A -> verbs -> Prop) s :
  wp (on_fork m) Q s <-> wp m (fun a f => Q a (mk_verbs f (v_mrs s) (v_prov s) (v_errno s))) (v_fork s).
Proof. unfold wp, on_fork. by destruct (m (v_fork s)). Qed.

Lemma wp_on_prov {A} (f : prov -> A * prov) (Q : A -> verbs -> Prop) s :
  Q (f (v_prov s)).1 (mk_verbs (v_fork s) (v_mrs s) (f (v_prov s)).2 (v_errno s)) -> wp (on_prov f) Q s.
Proof. done. Qed.

(** What holds between the calls: the counts are those of the regions. *)
Record fork_ready (ps : Z) (f : Z -> Z) (s : fork) : Prop := {
  fr_counts : exists l, holds_counts f s l;
  fr_huge : huge_page_enabled s = false;
  fr_page : page_size s = ps;
  fr_mutex : mm_mutex s = false }.

Record mr_inv (ps : Z) (n : nat) s : Prop := {
  mi_fork : fork_ready ps (count_of ps (v_mrs s)) (v_fork s);
  mi_size : (size (v_mrs s) <= n)%nat;
  mi_mrs : forall p m, v_mrs s !! p = Some m -> p <> 0 /\ (plain m = true -> aligned (mr_addr m) (mr_length m) ps) }.

Lemma wp_fork_call ps f c fk (Q : Z -> fork -> Prop) :
  host_ok -> fork_ready ps f fk -> small_counts f -> (match c with Dontfork a n | Dofork a n => aligned a n ps end) ->
  small_counts (spec_call ps c f) -> (forall fk', fork_ready ps (spec_call ps c f) fk' -> Q 0 fk') -> wp (run_call c) Q fk.
Proof.
  intros Hok [[l Hh] Hhuge Hp Hm] Hf Hal Hf' HQ. eapply wp_run_call; [done|exact Hh|done|done|exact Hp|done|exact Hal|exact Hf'|].
  intros s' l' Hh' (E1 & E2 & E3 & E4). apply HQ. split; [by exists l'|congruence|congruence|congruence].
Qed.

Lemma fork_ready_ext ps f g fk : (forall v, f v = g v) -> fork_ready ps f fk -> fork_ready ps g fk.
Proof. intros E [[l Hl] ? ? ?]. split; try done. exists l. by eapply holds_counts_ext. Qed.

(** The pages of a region that is new, and of one that is gone. *)
Lemma spec_dontfork ps m f v : plain m = true ->
  spec_call ps (Dontfork (mr_addr m) (mr_length m)) f v = f v + Z.b2z (in_mr ps v m).
Proof. intros Hp. unfold spec_call, after_call, in_mr, mr_pages. rewrite Hp. cbn [andb inc_of]. destruct (_ && _); cbn; lia. Qed.

Lemma spec_dofork ps m f v : plain m = true ->
  spec_call ps (Dofork (mr_addr m) (mr_length m)) f v = f v - Z.b2z (in_mr ps v m).
Proof. intros Hp. unfold spec_call, after_call, in_mr, mr_pages. rewrite Hp. cbn [andb inc_of call_range]. destruct (_ && _); cbn; lia. Qed.

Context (Hok : host_ok).

Definition bounded (n : nat) : Prop := Z.of_nat n + 1 < 2 ^ 31.

Lemma small_count ps h n : (size h <= n)%nat -> bounded n -> small_counts (count_of ps h).
Proof. unfold bounded. intros Hs Hn v. pose proof (count_bound ps h v). lia. Qed.

Lemma b2z_bound b : 0 <= Z.b2z b <= 1.
Proof. by destruct b. Qed.

Lemma small_more ps h n m : (size h <= n)%nat -> bounded n -> plain m = true ->
  small_counts (spec_call ps (Dontfork (mr_addr m) (mr_length m)) (count_of ps h)).
Proof.
  unfold bounded. intros Hs Hn Hp v. rewrite (spec_dontfork ps m _ v Hp). pose proof (count_bound ps h v). pose proof (b2z_bound (in_mr ps v m)). lia.
Qed.

(** Protecting memory for a region, and giving it up again. *)
Lemma wp_protect ps n s m (Q : Z -> verbs -> Prop) :
  mr_inv ps n s -> bounded n -> plain m = true -> aligned (mr_addr m) (mr_length m) ps ->
  (forall fk, fork_ready ps (fun v => count_of ps (v_mrs s) v + Z.b2z (in_mr ps v m)) fk -> Q 0 (mk_verbs fk (v_mrs s) (v_prov s) (v_errno s))) ->
  wp (on_fork (ibv_dontfork_range (mr_addr m) (mr_length m))) Q s.
Proof.
  intros [Hf Hs Hm] Hn Hp Hal HQ. apply wp_on_fork.
  eapply (wp_fork_call ps _ (Dontfork (mr_addr m) (mr_length m))); [done|exact Hf|by eapply small_count|exact Hal|by eapply small_more|].
  intros fk Hfk. apply HQ. eapply fork_ready_ext; [|exact Hfk]. intros v. by apply spec_dontfork.
Qed.

Lemma wp_unprotect ps n h h' fk m (Q : Z -> fork -> Prop) :
  fork_ready ps (fun v => count_of ps h v + Z.b2z (in_mr ps v m)) fk -> (size h <= n)%nat -> bounded n -> plain m = true ->
  aligned (mr_addr m) (mr_length m) ps -> (forall v, count_of ps h v = count_of ps h' v) ->
  (forall fk', fork_ready ps (count_of ps h') fk' -> Q 0 fk') ->
  wp (ibv_dofork_range (mr_addr m) (mr_length m)) Q fk.
Proof.
  intros Hf Hs Hn Hp Hal Hc HQ. eapply (wp_fork_call ps _ (Dofork (mr_addr m) (mr_length m))); [done|exact Hf| |exact Hal| |].
  - intros v. pose proof (count_bound ps h v). pose proof (b2z_bound (in_mr ps v m)). unfold bounded in Hn. lia.
  - intros v. rewrite spec_dofork by done. pose proof (count_bound ps h v). unfold bounded in Hn. lia.
  - intros fk' Hfk. apply HQ. eapply fork_ready_ext; [|exact Hfk]. intros v. rewrite spec_dofork by done. rewrite <- Hc. lia.
Qed.

Lemma odp_masked access : Z.land (if optional_mr_access then access else Z.land access (~{32} IBV_ACCESS_OPTIONAL_RANGE)) IBV_ACCESS_ON_DEMAND =
  Z.land access IBV_ACCESS_ON_DEMAND.
Proof. destruct optional_mr_access; [done|]. rewrite <- Z.land_assoc. done. Qed.

Lemma wp_reg_mr_iova2 ps n s pd addr length iova access (Q : Z -> verbs -> Prop) :
  mr_inv ps n s -> bounded n -> aligned addr length ps -> (has_flag access IBV_ACCESS_ON_DEMAND = true -> records_on_demand P) ->
  (forall r s', mr_inv ps (S n) s' -> Q r s') -> wp (ibv_reg_mr_iova2 pd addr length iova access) Q s.
Proof.
  intros Hinv Hn Hal Hrec HQ. pose proof Hinv as [Hf Hsz Hm]. unfold ibv_reg_mr_iova2. set (acc := if optional_mr_access then _ else _).
  pose proof (odp_masked access : Z.land acc _ = _) as Hacc.
  assert (Hset : forall fk x m o, fork_ready ps (count_of ps (<[x := m]> (v_mrs s))) fk -> x <> 0 -> v_mrs s !! x = None ->
    mr_addr m = addr -> mr_length m = length -> mr_inv ps (S n) (mk_verbs fk (<[x := m]> (v_mrs s)) o (v_errno s))).
  { intros fk x m o Hfk Hx0 Hx Ea El. split; cbn [v_fork v_mrs]; [done|rewrite map_size_insert_None by done; lia|].
    intros p m' [[<- <-]|[Hne Hp]]%lookup_insert_Some; [by rewrite Ea, El|by apply Hm]. }
  destruct (has_flag access IBV_ACCESS_ON_DEMAND) eqn:Hodp; cbn [negb].
  - apply wp_bind, wp_ret. cbn [Z.eqb negb]. apply wp_bind, wp_get. apply wp_bind, wp_on_prov.
    destruct (reg_mr (v_mrs s) pd addr length iova acc (v_prov s)) as [[x m] o] eqn:E. cbn [fst snd].
    destruct (Z.eqb_spec x 0) as [->|Hx]; cbn [negb].
    + apply wp_bind, wp_ret, wp_ret. apply HQ. split; [done|cbn; lia|done].
    + apply wp_bind, wp_modify, wp_ret. apply HQ. destruct (reg_mr_fresh _ _ _ _ _ _ _ _ _ _ E) as [?|Hx']; [done|].
      pose proof (Hrec eq_refl _ _ _ _ _ _ _ _ _ _ E Hx) as Ea. apply Hset; try done. eapply fork_ready_ext; [|exact Hf].
      intros v. rewrite count_insert by done. unfold in_mr, plain, has_flag. cbn [mr_type mr_access].
      rewrite Ea, Hacc. unfold has_flag in Hodp. rewrite Hodp, andb_false_r. cbn. lia.
  - set (m0 := mk_mr pd addr length IBV_MR_TYPE_MR 0). apply wp_bind. eapply (wp_protect ps n s m0); [exact Hinv|exact Hn|done|exact Hal|].
    intros fk Hfk. cbn [Z.eqb negb]. apply wp_bind, wp_get. apply wp_bind, wp_on_prov. cbn [v_mrs v_prov v_fork v_errno].
    destruct (reg_mr (v_mrs s) pd addr length iova acc (v_prov s)) as [[x m] o] eqn:E. cbn [fst snd].
    destruct (Z.eqb_spec x 0) as [->|Hx]; cbn [negb].
    + apply wp_bind, wp_bind, wp_on_fork. cbn [v_mrs v_prov v_fork v_errno].
      eapply (wp_unprotect ps n (v_mrs s) (v_mrs s) fk m0); [exact Hfk|done|done|done|exact Hal|done|]. intros fk' Hfk'.
      apply wp_ret, wp_ret. apply HQ. split; [done|cbn; lia|done].
    + apply wp_bind, wp_modify, wp_ret. apply HQ. destruct (reg_mr_fresh _ _ _ _ _ _ _ _ _ _ E) as [?|Hx']; [done|].
      assert (H0 : Z.land access IBV_ACCESS_ON_DEMAND = 0) by (unfold has_flag in Hodp; by apply negb_false_iff, Z.eqb_eq in Hodp).
      destruct (reg_mr_ordinary _ _ _ _ _ _ _ _ _ _ E Hx) as [Et Ea]. rewrite Hacc in Ea. apply Hset; try done. eapply fork_ready_ext; [|exact Hfk].
      intros v. rewrite count_insert by done. f_equal. unfold in_mr, plain, mr_pages, has_flag. cbn [mr_type mr_access mr_addr mr_length m0].
      by rewrite (Ea H0), Et.
Qed.

Lemma wp_mr_at s p m (Q : verbs_mr -> verbs -> Prop) : p <> 0 -> v_mrs s !! p = Some m -> Q m s -> wp (mr_at p) Q s.
Proof. intros Hp Hm HQ. unfold mr_at. apply wp_bind, wp_get. rewrite (proj2 (Z.eqb_neq _ _) Hp). by rewrite Hm. Qed.

Lemma mr_inv_more ps n s : mr_inv ps n s -> mr_inv ps (S n) s.
Proof. intros [? ? ?]. split; try done. lia. Qed.

Lemma wp_dereg_mr ps n s mr m (Q : Z -> verbs -> Prop) :
  mr_inv ps n s -> bounded n -> v_mrs s !! mr = Some m ->
  (forall r s', mr_inv ps n s' -> Q r s') -> wp (ibv_dereg_mr mr) Q s.
Proof.
  intros [Hf Hsz Hm] Hn Hmr HQ. destruct (Hm _ _ Hmr) as [Hp0 Hal]. unfold ibv_dereg_mr. apply wp_bind. eapply wp_mr_at; [done|exact Hmr|].
  apply wp_bind, wp_on_prov. destruct (dereg_mr mr (v_prov s)) as [r o]. cbn [fst snd]. destruct (Z.eqb_spec r 0) as [->|Hr]; cbn [andb].
  2: { apply wp_bind, wp_ret. apply wp_bind, wp_ret, wp_ret. apply HQ. by split. }
  apply wp_bind, wp_modify. fold (plain m). cbn [v_fork v_mrs v_prov v_errno].
  assert (Hinv : forall fk, fork_ready ps (count_of ps (delete mr (v_mrs s))) fk -> mr_inv ps n (mk_verbs fk (delete mr (v_mrs s)) o (v_errno s))).
  { intros fk Hfk. split; cbn [v_fork v_mrs]; [done| |].
    - etrans; [|exact Hsz]. apply map_subseteq_size, delete_subseteq.
    - intros p m' [_ Hp]%lookup_delete_Some. by apply Hm. }
  destruct (plain m) eqn:Hpl.
  - apply wp_bind, wp_bind, wp_on_fork. cbn [v_fork v_mrs v_prov v_errno].
    eapply (wp_unprotect ps n (delete mr (v_mrs s)) (delete mr (v_mrs s)) _ m); [|etrans; [|exact Hsz]; apply map_subseteq_size, delete_subseteq|done|done|by apply Hal|done|].
    + eapply fork_ready_ext; [|exact Hf]. intros v. rewrite (count_delete _ _ _ _ _ Hmr). lia.
    + intros fk Hfk. apply wp_ret, wp_ret. by apply HQ, Hinv.
  - apply wp_bind, wp_ret, wp_ret. apply HQ, Hinv. eapply fork_ready_ext; [|exact Hf]. intros v. rewrite (count_delete _ _ _ _ _ Hmr).
    unfold in_mr. rewrite Hpl. cbn. lia.
Qed.

(** The region has new memory: the old memory is given up. *)
Lemma wp_translate ps n s fk o mr m m' addr length (Q : Z -> verbs -> Prop) :
  mr_inv ps n s -> bounded n -> v_mrs s !! mr = Some m -> plain m = true -> aligned addr length ps ->
  mr_addr m' = mr_addr m -> mr_length m' = mr_length m -> mr_type m' = mr_type m -> mr_access m' = mr_access m ->
  (forall v, count_of ps (<[mr := m']> (v_mrs s)) v = count_of ps (v_mrs s) v) ->
  fork_ready ps (fun v => count_of ps (v_mrs s) v + Z.b2z (in_mr ps v (mk_mr 0 addr length IBV_MR_TYPE_MR 0))) fk ->
  (forall r s', mr_inv ps n s' -> Q r s') ->
  wp (m' ← mr_at mr;
      set_mr mr (mk_mr (mr_pd m') addr length (mr_type m') (mr_access m'));;
      err ← on_fork (ibv_dofork_range (mr_addr m) (mr_length m));
      mret (if negb (err =? 0) then IBV_REREG_MR_ERR_DO_FORK_OLD else err)) Q
    (mk_verbs fk (<[mr := m']> (v_mrs s)) o (v_errno s)).
Proof.
  intros [Hf Hsz Hm] Hn Hmr Hpl Hal Ea El Et Eac Hc Hfk HQ. destruct (Hm _ _ Hmr) as [Hp0 Halm]. apply wp_bind.
  eapply wp_mr_at; [done|cbn [v_mrs]; by rewrite lookup_insert_eq|]. apply wp_bind, wp_modify. cbn [v_fork v_mrs v_prov v_errno]. rewrite insert_insert_eq.
  set (m2 := mk_mr (mr_pd m') addr length (mr_type m') (mr_access m')). assert (Hpl2 : plain m2 = true) by (unfold plain, m2; cbn; by rewrite Et, Eac).
  assert (Hin : forall v, in_mr ps v m2 = in_mr ps v (mk_mr 0 addr length IBV_MR_TYPE_MR 0)) by (intros v; unfold in_mr; by rewrite Hpl2).
  apply wp_bind, wp_on_fork. cbn [v_fork v_mrs v_prov v_errno].
  eapply (wp_unprotect ps n (<[mr := m2]> (v_mrs s)) (<[mr := m2]> (v_mrs s)) fk m); [|by rewrite map_size_insert_Some|done|done|by apply Halm|done|].
  - eapply fork_ready_ext; [|exact Hfk]. intros v. cbn beta. rewrite (count_update _ _ _ _ _ _ Hmr), Hin. lia.
  - intros fk' Hfk'. apply wp_ret. apply HQ. split; cbn [v_fork v_mrs]; [done|by rewrite map_size_insert_Some|].
    intros p m3 [[<- <-]|[Hne Hp]]%lookup_insert_Some; [done|by apply Hm].
Qed.

Lemma wp_rereg_mr ps n s mr m flags pd addr length access (Q : Z -> verbs -> Prop) :
  mr_inv ps n s -> bounded n -> v_mrs s !! mr = Some m ->
  (has_flag flags IBV_REREG_MR_CHANGE_TRANSLATION = true -> plain m = true /\ aligned addr length ps) ->
  (forall r s', mr_inv ps n s' -> Q r s') -> wp (ibv_rereg_mr mr flags pd addr length access) Q s.
Proof.
  intros Hinv Hn Hmr Htr HQ. pose proof Hinv as [Hf Hsz Hm]. destruct (Hm _ _ Hmr) as [Hp0 Hal]. unfold ibv_rereg_mr. apply wp_bind.
  eapply wp_mr_at; [done|exact Hmr|]. destruct (rereg_input_ok m flags addr length access); cbn [negb].
  2: { apply wp_bind, wp_modify, wp_ret. apply HQ. by split. }
  assert (Hpd : forall fk o (Q' : unit -> verbs -> Prop),
    (forall m', mr_addr m' = mr_addr m -> mr_length m' = mr_length m -> mr_type m' = mr_type m -> mr_access m' = mr_access m ->
      (forall v, count_of ps (<[mr := m']> (v_mrs s)) v = count_of ps (v_mrs s) v) ->
      Q' tt (mk_verbs fk (<[mr := m']> (v_mrs s)) o (v_errno s))) ->
    wp (if has_flag flags IBV_REREG_MR_CHANGE_PD then m ← mr_at mr; set_mr mr (mk_mr pd (mr_addr m) (mr_length m) (mr_type m) (mr_access m)) else mret tt) Q'
      (mk_verbs fk (v_mrs s) o (v_errno s))).
  { intros fk o Q' HQ'. destruct (has_flag flags IBV_REREG_MR_CHANGE_PD).
    - apply wp_bind. eapply wp_mr_at; [done|exact Hmr|]. apply wp_modify. apply HQ'; try done.
      intros v. rewrite (count_update _ _ _ _ _ _ Hmr). unfold in_mr, plain, mr_pages. cbn. lia.
    - apply wp_ret. rewrite <- (insert_id (v_mrs s) mr m Hmr) at 1. apply HQ'; try done. intros v. by rewrite insert_id. }
  destruct (has_flag flags IBV_REREG_MR_CHANGE_TRANSLATION) eqn:Htrans.
  - destruct (Htr eq_refl) as [Hpl Hal']. set (m1 := mk_mr 0 addr length IBV_MR_TYPE_MR 0). apply wp_bind.
    eapply (wp_protect ps n s m1); [exact Hinv|done|done|exact Hal'|]. intros fk Hfk. cbn [Z.eqb negb]. apply wp_bind, wp_on_prov. cbn [v_fork v_mrs v_prov v_errno].
    destruct (rereg_mr mr flags pd addr length access (v_prov s)) as [err o]. cbn [fst snd]. destruct (Z.eqb_spec err 0) as [->|Herr].
    + apply wp_bind. apply Hpd. intros m' Ea El Et Eac Hc. by eapply wp_translate.
    + apply wp_bind, wp_on_fork. cbn [v_fork v_mrs v_prov v_errno].
      eapply (wp_unprotect ps n (v_mrs s) (v_mrs s) fk m1); [exact Hfk|done|done|done|exact Hal'|done|]. intros fk' Hfk'. apply wp_ret. apply HQ. by split.
  - apply wp_bind, wp_ret. cbn [Z.eqb negb]. apply wp_bind, wp_on_prov. destruct (rereg_mr mr flags pd addr length access (v_prov s)) as [err o]. cbn [fst snd].
    destruct (Z.eqb_spec err 0) as [->|Herr].
    + apply wp_bind. apply Hpd. intros m' Ea El Et Eac Hc. apply wp_ret. apply HQ. split; cbn [v_fork v_mrs].
      * eapply fork_ready_ext; [|exact Hf]. intros v. by rewrite Hc.
      * by rewrite map_size_insert_Some.
      * intros p m3 [[<- <-]|[Hne Hp]]%lookup_insert_Some; [|by apply Hm]. split; [done|]. rewrite Ea, El. unfold plain. rewrite Et, Eac. exact Hal.
    + apply wp_ret. apply HQ. by split.
Qed.

Lemma wp_reg_dmabuf_mr ps n s pd offset length iova fd access (Q : Z -> verbs -> Prop) :
  mr_inv ps n s -> (forall r s', mr_inv ps (S n) s' -> Q r s') -> wp (ibv_reg_dmabuf_mr pd offset length iova fd access) Q s.
Proof.
  intros [Hf Hsz Hm] HQ. unfold ibv_reg_dmabuf_mr. apply wp_bind, wp_get. apply wp_bind, wp_on_prov.
  destruct (reg_dmabuf_mr (v_mrs s) pd offset length iova fd access (v_prov s)) as [[x m] o] eqn:E. cbn [fst snd].
  destruct (Z.eqb_spec x 0) as [->|Hx]; [apply wp_ret; apply HQ; split; [done|cbn; lia|done]|].
  destruct (reg_dmabuf_mr_records _ _ _ _ _ _ _ _ _ _ _ E Hx) as [Hx' Et]. apply wp_bind, wp_modify, wp_ret. apply HQ.
  set (m1 := mk_mr pd offset length (mr_type m) (mr_access m)). assert (Hpl : plain m1 = false) by (unfold plain, m1; cbn; by rewrite Et).
  split; cbn [v_fork v_mrs].
  - eapply fork_ready_ext; [|exact Hf]. intros v. rewrite count_insert by done. unfold in_mr. rewrite Hpl. cbn. lia.
  - rewrite map_size_insert_None by done. lia.
  - intros p m' [[<- <-]|[Hne Hp]]%lookup_insert_Some; [|by apply Hm]. split; [done|]. by rewrite Hpl.
Qed.

(** *** Programs *)

Inductive vcall : Set :=
| VReg (pd addr length iova access : Z)
| VDmabuf (pd offset length iova fd access : Z)
| VRereg (mr flags pd addr length access : Z)
| VDereg (mr : Z).

Definition run_v (c : vcall) : M verbs Z :=
  match c with
  | VReg pd addr length iova access => ibv_reg_mr_iova2 pd addr length iova access
  | VDmabuf pd offset length iova fd access => ibv_reg_dmabuf_mr pd offset length iova fd access
  | VRereg mr flags pd addr length access => ibv_rereg_mr mr flags pd addr length access
  | VDereg mr => ibv_dereg_mr mr
  end.

(** The memory fits in the address space; on-demand regions are made only by providers
    that record it; a region that is changed or removed is there, and the memory of an
    on-demand region is not changed. *)
Definition legal_v (ps : Z) s (c : vcall) : Prop :=
  match c with
  | VReg _ addr length _ access => aligned addr length ps /\ (has_flag access IBV_ACCESS_ON_DEMAND = true -> records_on_demand P)
  | VDmabuf _ _ _ _ _ _ => True
  | VRereg mr flags _ addr length _ =>
      exists m, v_mrs s !! mr = Some m /\ (has_flag flags IBV_REREG_MR_CHANGE_TRANSLATION = true -> plain m = true /\ aligned addr length ps)
  | VDereg mr => is_Some (v_mrs s !! mr)
  end.

(** The states of a process that starts with [ibv_fork_init]. *)
Inductive reach (k : Z) : nat -> verbs -> Prop :=
| reach_init fk fk' o : fresh_process k fk -> ibv_fork_init fk = Done 0 fk' -> reach k 0 (mk_verbs fk' ∅ o 0)
| reach_call n s c r s' : reach k n s -> legal_v (2 ^ k) s c -> run_v c s = Done r s' -> reach k (S n) s'.

Lemma wp_run_v ps n s c : mr_inv ps n s -> bounded n -> legal_v ps s c -> wp (run_v c) (fun _ s' => mr_inv ps (S n) s') s.
Proof.
  intros Hinv Hn Hl. destruct c as [pd addr length iova access|pd offset length iova fd access|mr flags pd addr length access|mr]; cbn [run_v legal_v] in *.
  - destruct Hl. by eapply wp_reg_mr_iova2.
  - by eapply wp_reg_dmabuf_mr.
  - destruct Hl as (m & Hm & Htr). eapply wp_rereg_mr; [done|done|exact Hm|exact Htr|]. intros r s' Hs'. by apply mr_inv_more.
  - destruct Hl as [m Hm]. eapply wp_dereg_mr; [done|done|exact Hm|]. intros r s' Hs'. by apply mr_inv_more.
Qed.

Lemma reach_inv k n s : reach k n s -> bounded n -> mr_inv (2 ^ k) n s.
Proof.
  induction 1 as [fk fk' o Hfresh Hinit|n s c r s' Hr IH Hl Hrun]; intros Hn.
  - pose proof (wp_ibv_fork_init k fk (fun r fk1 => r = 0 /\ fork_ready (2 ^ k) (fun _ => 0) fk1) Hok Hfresh) as Hw.
    destruct (proj1 (wp_run _ _ _) (Hw ltac:(intros s' l Hh Hm Hhu Hp; split; [done|]; split; [by exists l|done|done|done]))) as (r & s1 & E & _ & Hf).
    rewrite Hinit in E. injection E as <- <-. split; cbn [v_fork v_mrs]; [|done|intros p m Hp; by rewrite lookup_empty in Hp].
    eapply fork_ready_ext; [|exact Hf]. intros v. unfold count_of. by rewrite map_filter_empty.
  - assert (Hn' : bounded n) by (unfold bounded in *; lia). specialize (IH Hn').
    destruct (proj1 (wp_run _ _ _) (wp_run_v _ _ _ c IH Hn' Hl)) as (r' & s1 & E & Hs1). rewrite Hrun in E. by injection E as <- <-.
Qed.

End counts.

(** ** What is shown *)

(** C6: while the calls of the host succeed ([malloc], [madvise] and [posix_memalign], with
    pages of one size and without copy-on-fork, after [ibv_fork_init]), and whether the
    provider accepts or refuses, between the calls that register, change and remove memory
    regions the count of an address is the number of ordinary regions that its page is in,
    the page is kept from a child exactly while there is one, no lock is held, and the next
    call ends without a fault.  Excluded are on-demand regions of providers that do not
    record the flag, like the one in C of this repository, and changing the memory of an
    on-demand region: both give up memory that was never protected (see the findings).  The
    provider is only held to hand out fresh regions, not to record an ordinary region as
    on-demand, and to record the type. *)
Theorem regions_protected {H : Host} {HL : HostLaws H} {P : MrProvider} {PL : MrProviderLaws P} k n s
    (Hok : host_ok) (Hr : reach k n s) (Hn : bounded n) :
  (forall v, 0 <= v <= UINTPTR_MAX -> dontcopy (os (v_fork s)) v = true <->
     exists p m, v_mrs s !! p = Some m /\ in_mr (2 ^ k) v m = true) /\
  (exists l, holds_counts (count_of (2 ^ k) (v_mrs s)) (v_fork s) l) /\
  mm_mutex (v_fork s) = false /\
  forall c, legal_v (2 ^ k) s c -> exists r s', run_v c s = Done r s'.
Proof.
  pose proof (reach_inv Hok _ _ _ Hr Hn) as Hinv. pose proof Hinv as [[[l Hh] _ _ Hmx] _ _]. split_and!; [|by exists l|done|].
  - intros v Hv. rewrite (h_marks _ _ _ Hh v Hv), Z.ltb_lt. unfold count_of. split.
    + intros Hpos. destruct (map_choose (filter (fun '(_, m) => in_mr (2 ^ k) v m = true) (v_mrs s))) as (p & m & Hp).
      { intros E. rewrite E, map_size_empty in Hpos. lia. }
      apply map_lookup_filter_Some in Hp as [Hp Hin]. by exists p, m.
    + intros (p & m & Hp & Hin). assert (Hf : filter (fun '(_, m) => in_mr (2 ^ k) v m = true) (v_mrs s) !! p = Some m) by (by apply map_lookup_filter_Some).
      assert (size (filter (fun '(_, m) => in_mr (2 ^ k) v m = true) (v_mrs s)) <> 0%nat); [|lia].
      intros E. apply map_size_empty_inv in E. rewrite E, lookup_empty in Hf. done.
  - intros c Hl. destruct (proj1 (wp_run _ _ _) (wp_run_v Hok _ _ _ c Hinv Hn Hl)) as (r & s' & E & _). by exists r, s'.
Qed.

(** *** A provider *)

Definition max_mr (h : gmap Z verbs_mr) : Z := map_fold (fun k _ m => Z.max k m) 0 h.

Lemma max_mr_ge h : 0 <= max_mr h /\ forall k n, h !! k = Some n -> k <= max_mr h.
Proof.
  unfold max_mr. apply (map_fold_weak_ind (fun m h => 0 <= m /\ forall k n, h !! k = Some n -> k <= m)).
  - split; [done|]. intros k n Hk. by rewrite lookup_empty in Hk.
  - intros i x m r Hi [H0 IH]. split; [lia|]. intros k n Hk. destruct (decide (i = k)) as [->|Hne]; [lia|].
    rewrite lookup_insert_ne in Hk by done. specialize (IH k n Hk). lia.
Qed.

(** A provider whose calls succeed; [record] is what it stores of the access flags. *)
Definition demo_provider (record : Z -> Z) : MrProvider := {|
  prov := unit;
  reg_mr h _ _ _ _ acc o := (1 + max_mr h, mk_mr 0 0 0 IBV_MR_TYPE_MR (record acc), o);
  reg_dmabuf_mr h _ _ _ _ _ acc o := (1 + max_mr h, mk_mr 0 0 0 IBV_MR_TYPE_DMABUF_MR (record acc), o);
  rereg_mr _ _ _ _ _ _ o := (0, o);
  dereg_mr _ o := (0, o);
  optional_mr_access := true |}.

Lemma max_mr_fresh h : h !! (1 + max_mr h) = None.
Proof. apply eq_None_not_Some. intros [x Hx]. apply max_mr_ge in Hx. lia. Qed.

#[export] Instance demo_provider_laws record :
  (forall acc, Z.land acc IBV_ACCESS_ON_DEMAND = 0 -> Z.land (record acc) IBV_ACCESS_ON_DEMAND = 0) -> MrProviderLaws (demo_provider record).
Proof.
  intros Hr. split; cbn.
  - intros h pd a n iova acc p x m o E. injection E as <- _ _. right. apply max_mr_fresh.
  - intros h pd a n iova acc p x m o E. injection E as <- <- _. intros _. split; [done|apply Hr].
  - intros h pd a n iova fd acc p x m o E _. injection E as <- <- _. split; [apply max_mr_fresh|done].
Qed.

Definition demo_verbs {record} : @verbs (demo_host (fun _ => false) None) (demo_provider record) :=
  @mk_verbs (demo_host (fun _ => false) None) (demo_provider record) demo_start ∅ tt 0.

(** [ibv_fork_init] and then the calls. *)
Fixpoint run_vs {H : Host} {P : MrProvider} (cs : list vcall) : M verbs (list Z) :=
  match cs with [] => mret [] | c :: cs' => r ← run_v c; rs ← run_vs cs'; mret (r :: rs) end.

Definition demo_v {record} (cs : list vcall) : res (@verbs (demo_host (fun _ => false) None) (demo_provider record)) (list Z) :=
  (r ← on_fork ibv_fork_init; rs ← run_vs cs; mret (r :: rs)) demo_verbs.

(** Memory of a region that is still there is unprotected by changing an on-demand
    region: [ibv_rereg_mr] gives up the old memory, which was never protected for it. *)
Theorem rereg_on_demand_unprotects :
  match @demo_v id [VReg 1 0x10000 0x1000 0x10000 1; VReg 1 0x10000 0x1000 0x10000 IBV_ACCESS_ON_DEMAND;
                    VRereg 2 IBV_REREG_MR_CHANGE_TRANSLATION 1 0x20000 0x1000 0] with
  | Done rs s' => rs = [0; 1; 2; 0] /\ v_mrs s' !! 1 = Some (mk_mr 1 0x10000 0x1000 IBV_MR_TYPE_MR 1) /\ dontcopy (os (v_fork s')) 0x10000 = false
  | Fault _ => False
  end.
Proof. vm_compute. done. Qed.

(** The provider in C stores no access flags: removing an on-demand region does the
    same. *)
Lemma unrecorded_access_unprotects :
  match @demo_v (fun _ => 0) [VReg 1 0x10000 0x1000 0x10000 1; VReg 1 0x10000 0x1000 0x10000 IBV_ACCESS_ON_DEMAND; VDereg 2] with
  | Done rs s' => rs = [0; 1; 2; 0] /\ v_mrs s' !! 1 = Some (mk_mr 1 0x10000 0x1000 IBV_MR_TYPE_MR 0) /\ dontcopy (os (v_fork s')) 0x10000 = false
  | Fault _ => False
  end.
Proof. vm_compute. done. Qed.

Lemma demo_fresh_process : @fresh_process (demo_host (fun _ => false) None) 12 demo_start.
Proof. split; try done; lia. Qed.

Lemma demo_init : exists fk', ibv_fork_init (@demo_start (fun _ => false) None) = Done 0 fk'.
Proof. eexists. vm_compute. reflexivity. Qed.

(** The provider in C, which stores no flags, keeps the laws. *)
#[export] Instance bluerdma_provider_laws : MrProviderLaws (demo_provider (fun _ => 0)).
Proof. by apply demo_provider_laws. Qed.

Definition demo_regions : @verbs (demo_host (fun _ => false) None) (demo_provider (fun _ => 0)) :=
  match ibv_fork_init (@demo_start (fun _ => false) None) with
  | Done _ fk' =>
      match run_v (VReg 1 0x10010 0x2000 0x10010 1) (@mk_verbs (demo_host (fun _ => false) None) (demo_provider (fun _ => 0)) fk' ∅ tt 0) with
      | Done _ s => s
      | Fault _ => demo_verbs
      end
  | Fault _ => demo_verbs
  end.

Lemma demo_regions_reach : reach 12 1 demo_regions.
Proof.
  destruct demo_init as [fk' E].
  assert (E1 : exists r, run_v (VReg 1 0x10010 0x2000 0x10010 1) (@mk_verbs (demo_host (fun _ => false) None) (demo_provider (fun _ => 0)) fk' ∅ tt 0)
    = Done r demo_regions).
  { unfold demo_regions. rewrite E. vm_compute in E. injection E as <-. eexists. vm_compute. reflexivity. }
  destruct E1 as [r E1]. eapply (@reach_call (demo_host (fun _ => false) None) (demo_provider (fun _ => 0))); [|..|exact E1].
  - exact (@reach_init (demo_host (fun _ => false) None) (demo_provider (fun _ => 0)) 12 _ _ tt demo_fresh_process E).
  - cbn [legal_v]. split; [split; [lia|exists 12; lia|lia]|]. intros Hf. vm_compute in Hf. discriminate Hf.
Qed.

Lemma regions_protected_witness :
  dontcopy (os (v_fork demo_regions)) 0x11000 = true /\
  (dontcopy (os (v_fork demo_regions)) 0x11000 = true <-> exists p m, v_mrs demo_regions !! p = Some m /\ in_mr 4096 0x11000 m = true) /\
  (exists r s', run_v (VDereg 1) demo_regions = Done r s').
Proof.
  destruct (regions_protected (H := demo_host (fun _ => false) None) (P := demo_provider (fun _ => 0)) 12 1 demo_regions demo_ok
    demo_regions_reach ltac:(unfold bounded; lia)) as (Hd & _ & _ & Hc).
  split; [vm_compute; reflexivity|]. split.
  - apply (Hd 0x11000). unfold UINTPTR_MAX. lia.
  - apply Hc. cbn [legal_v]. eexists. vm_compute. reflexivity.
Defined.
