(* ===== verification/VerbsAh.v ===== *)
(** * Rates, GID tables and address handles

    Parts of libibverbs/verbs.c: the conversions of [enum ibv_rate], the searches in the
    GID and P_Key tables of a port, and [ibv_init_ah_from_wc], which makes the attributes
    of an address handle that leads back to the sender of a packet.  The answers of the
    kernel about the tables are parameters. *)

From Stdlib Require Import ZArith Lia.
From stdpp Require Import base list.
From S2P Require Import Prelude.

#[local] Open Scope cint_scope.
#[local] Open Scope Z_scope.

(** ** Rates *)

Inductive ibv_rate : Set :=
| IBV_RATE_MAX | IBV_RATE_2_5_GBPS | IBV_RATE_5_GBPS | IBV_RATE_10_GBPS | IBV_RATE_20_GBPS | IBV_RATE_30_GBPS
| IBV_RATE_40_GBPS | IBV_RATE_60_GBPS | IBV_RATE_80_GBPS | IBV_RATE_120_GBPS | IBV_RATE_14_GBPS | IBV_RATE_56_GBPS
| IBV_RATE_112_GBPS | IBV_RATE_168_GBPS | IBV_RATE_25_GBPS | IBV_RATE_100_GBPS | IBV_RATE_200_GBPS | IBV_RATE_300_GBPS
| IBV_RATE_28_GBPS | IBV_RATE_50_GBPS | IBV_RATE_400_GBPS | IBV_RATE_600_GBPS | IBV_RATE_800_GBPS | IBV_RATE_1200_GBPS.

Definition ibv_rate_to_mult (rate : ibv_rate) : Z :=
  match rate with
  | IBV_RATE_2_5_GBPS => 1 | IBV_RATE_5_GBPS => 2 | IBV_RATE_10_GBPS => 4 | IBV_RATE_20_GBPS => 8
  | IBV_RATE_30_GBPS => 12 | IBV_RATE_40_GBPS => 16 | IBV_RATE_60_GBPS => 24 | IBV_RATE_80_GBPS => 32
  | IBV_RATE_120_GBPS => 48 | IBV_RATE_28_GBPS => 11 | IBV_RATE_50_GBPS => 20 | IBV_RATE_400_GBPS => 160
  | IBV_RATE_600_GBPS => 240 | IBV_RATE_800_GBPS => 320 | IBV_RATE_1200_GBPS => 480
  | _ => -1
  end.

Definition mult_to_ibv_rate (mult : Z) : ibv_rate :=
  match mult with
  | 1 => IBV_RATE_2_5_GBPS | 2 => IBV_RATE_5_GBPS | 4 => IBV_RATE_10_GBPS | 8 => IBV_RATE_20_GBPS
  | 12 => IBV_RATE_30_GBPS | 16 => IBV_RATE_40_GBPS | 24 => IBV_RATE_60_GBPS | 32 => IBV_RATE_80_GBPS
  | 48 => IBV_RATE_120_GBPS | 11 => IBV_RATE_28_GBPS | 20 => IBV_RATE_50_GBPS | 160 => IBV_RATE_400_GBPS
  | 240 => IBV_RATE_600_GBPS | 320 => IBV_RATE_800_GBPS | 480 => IBV_RATE_1200_GBPS
  | _ => IBV_RATE_MAX
  end.

Definition ibv_rate_to_mbps (rate : ibv_rate) : Z :=
  match rate with
  | IBV_RATE_2_5_GBPS => 2500 | IBV_RATE_5_GBPS => 5000 | IBV_RATE_10_GBPS => 10000 | IBV_RATE_20_GBPS => 20000
  | IBV_RATE_30_GBPS => 30000 | IBV_RATE_40_GBPS => 40000 | IBV_RATE_60_GBPS => 60000 | IBV_RATE_80_GBPS => 80000
  | IBV_RATE_120_GBPS => 120000 | IBV_RATE_14_GBPS => 14062 | IBV_RATE_56_GBPS => 56250 | IBV_RATE_112_GBPS => 112500
  | IBV_RATE_168_GBPS => 168750 | IBV_RATE_25_GBPS => 25781 | IBV_RATE_100_GBPS => 103125 | IBV_RATE_200_GBPS => 206250
  | IBV_RATE_300_GBPS => 309375 | IBV_RATE_28_GBPS => 28125 | IBV_RATE_50_GBPS => 53125 | IBV_RATE_400_GBPS => 425000
  | IBV_RATE_600_GBPS => 637500 | IBV_RATE_800_GBPS => 850000 | IBV_RATE_1200_GBPS => 1275000
  | IBV_RATE_MAX => -1
  end.

Definition mbps_to_ibv_rate (mbps : Z) : ibv_rate :=
  match mbps with
  | 2500 => IBV_RATE_2_5_GBPS | 5000 => IBV_RATE_5_GBPS | 10000 => IBV_RATE_10_GBPS | 20000 => IBV_RATE_20_GBPS
  | 30000 => IBV_RATE_30_GBPS | 40000 => IBV_RATE_40_GBPS | 60000 => IBV_RATE_60_GBPS | 80000 => IBV_RATE_80_GBPS
  | 120000 => IBV_RATE_120_GBPS | 14062 => IBV_RATE_14_GBPS | 56250 => IBV_RATE_56_GBPS | 112500 => IBV_RATE_112_GBPS
  | 168750 => IBV_RATE_168_GBPS | 25781 => IBV_RATE_25_GBPS | 103125 => IBV_RATE_100_GBPS | 206250 => IBV_RATE_200_GBPS
  | 309375 => IBV_RATE_300_GBPS | 28125 => IBV_RATE_28_GBPS | 53125 => IBV_RATE_50_GBPS | 425000 => IBV_RATE_400_GBPS
  | 637500 => IBV_RATE_600_GBPS | 850000 => IBV_RATE_800_GBPS | 1275000 => IBV_RATE_1200_GBPS
  | _ => IBV_RATE_MAX
  end.

(** ** The GID table of a port *)

Definition ENODATA : Z := 61.
Definition EPROTONOSUPPORT : Z := 93.

Inductive ibv_gid_type : Set := IBV_GID_TYPE_IB | IBV_GID_TYPE_ROCE_V1 | IBV_GID_TYPE_ROCE_V2.
Inductive gid_type_sysfs : Set := IB_ROCE_V1 | ROCE_V2.

#[export] Instance gid_type_sysfs_eq_dec : EqDecision gid_type_sysfs.
Proof. solve_decision. Defined.

Record ibv_gid_entry : Set := mk_gid_entry { ge_gid : list Z; ge_type : ibv_gid_type }.

Section tables.
(** [__ibv_query_gid_ex]: an error or an entry.  The content of a P_Key file: nothing when
    it cannot be read, or the number that [sscanf] finds in it. *)
Context (query_gid_ex : Z -> Z -> Z + ibv_gid_entry) (read_pkey : Z -> Z -> option (option Z)).

Definition ibv_query_gid (port_num index : Z) : option (list Z) :=
  match query_gid_ex port_num index with
  | inr entry => Some (ge_gid entry)
  | inl ret => if ret =? ENODATA then Some (replicate 16 0) else None
  end.

Definition ibv_query_gid_type (port_num index : Z) : option gid_type_sysfs :=
  match query_gid_ex port_num index with
  | inr entry => Some (match ge_type entry with IBV_GID_TYPE_IB | IBV_GID_TYPE_ROCE_V1 => IB_ROCE_V1 | IBV_GID_TYPE_ROCE_V2 => ROCE_V2 end)
  | inl ret => if ret =? ENODATA then Some IB_ROCE_V1 else None
  end.

(** [None] when the fuel is used up. *)
Fixpoint find_gid_loop (fuel : nat) (port_num : Z) (gid : list Z) (gid_type : gid_type_sysfs) (i : Z) : option Z :=
  match fuel with
  | O => None
  | S fuel' =>
      match ibv_query_gid port_num i with
      | None => Some (-1)
      | Some sgid =>
          match ibv_query_gid_type port_num i with
          | None => Some (-1)
          | Some sgid_type =>
              if bool_decide (sgid = gid) && bool_decide (gid_type = sgid_type) then Some i
              else find_gid_loop fuel' port_num gid gid_type (i + 1)
          end
      end
  end.

Definition ibv_find_gid_index (fuel : nat) (port_num : Z) (gid : list Z) (gid_type : gid_type_sysfs) : option Z :=
  find_gid_loop fuel port_num gid gid_type 0.

(** Big-endian, as the P_Keys of packets are. *)
Definition htobe16 (x : Z) : Z := (x mod 256) * 256 + x / 256.

Definition ibv_query_pkey (port_num index : Z) : option Z :=
  match read_pkey port_num index with
  | Some (Some val) => Some (htobe16 (wrap 16 val))
  | _ => None
  end.

Fixpoint ibv_get_pkey_index (fuel : nat) (port_num pkey i : Z) : option Z :=
  match fuel with
  | O => None
  | S fuel' =>
      match ibv_query_pkey port_num i with
      | None => Some (-1)
      | Some pkey_i => if pkey =? pkey_i then Some i else ibv_get_pkey_index fuel' port_num pkey (i + 1)
      end
  end.

(** ** Address handles *)

(** The 40 bytes before a received packet: a global routing header, or, from byte 20 on,
    an IPv4 header. *)
Definition byte (b : list Z) (i : nat) : Z := nth i b 0.
Definition bytes (b : list Z) (i n : nat) : list Z := take n (drop i b).

Definition be32 (b : list Z) (i : nat) : Z := byte b i * 2 ^ 24 + byte b (i + 1) * 2 ^ 16 + byte b (i + 2) * 2 ^ 8 + byte b (i + 3).

Definition version_tclass_flow (grh : list Z) : Z := be32 grh 0.
Definition next_hdr (grh : list Z) : Z := byte grh 6.
Definition hop_limit (grh : list Z) : Z := byte grh 7.
Definition grh_sgid (grh : list Z) : list Z := bytes grh 8 16.
Definition grh_dgid (grh : list Z) : list Z := bytes grh 24 16.

Definition ip_version (ip4h : list Z) : Z := byte ip4h 0 / 16.
Definition ip_ihl (ip4h : list Z) : Z := byte ip4h 0 mod 16.
Definition ip_tos (ip4h : list Z) : Z := byte ip4h 1.
Definition ip_ttl (ip4h : list Z) : Z := byte ip4h 8.
Definition ip_check (ip4h : list Z) : Z := byte ip4h 10 + byte ip4h 11 * 256.
Definition ip_saddr (ip4h : list Z) : list Z := bytes ip4h 12 4.
Definition ip_daddr (ip4h : list Z) : list Z := bytes ip4h 16 4.

(** 16-bit words of the host, which is little-endian. *)
Fixpoint hwords (b : list Z) : list Z := match b with x :: y :: b' => (x + y * 256) :: hwords b' | _ => [] end.

Definition fold_once (sum : Z) : Z := Z.land sum 0xffff + Z.shiftr sum 16.

Definition ipv4_calc_hdr_csum (data : list Z) : Z :=
  let sum := fold_left (fun s x => s +{32} x) data 0 in
  wrap 16 (~{32} (fold_once sum)).

(** The header with [check] cleared. *)
Definition unchecked (ip4h : list Z) : list Z := take 10 ip4h ++ [0; 0] ++ drop 12 ip4h.

(** -1 with [EPROTONOSUPPORT]. *)
Definition get_grh_header_version (grh : list Z) : Z :=
  let ip6h_version := Z.land (Z.shiftr (version_tclass_flow grh) 28) 0xf in
  let ip4h := bytes grh 20 20 in
  if negb (ip6h_version =? 6) then (if ip_version ip4h =? 4 then 4 else -1)
  else if negb (ip_ihl ip4h =? 5) then 6
  else if ip_check ip4h =? ipv4_calc_hdr_csum (hwords (unchecked ip4h)) then 4
  else 6.

Record ibv_ah_attr : Set := mk_ah {
  ah_dgid : list Z; ah_flow_label : Z; ah_sgid_index : Z; ah_hop_limit : Z; ah_traffic_class : Z;
  ah_dlid : Z; ah_sl : Z; ah_src_path_bits : Z; ah_is_global : bool; ah_port_num : Z }.

Record ibv_wc : Set := mk_wc { wc_slid : Z; wc_sl : Z; wc_dlid_path_bits : Z; wc_grh : bool }.

Definition set_ah_attr_generic_fields (wc : ibv_wc) (grh : list Z) (port_num : Z) : ibv_ah_attr :=
  mk_ah (replicate 16 0) (Z.land (version_tclass_flow grh) 0xFFFFF) 0 0 0 (wc_slid wc) (wc_sl wc) (wc_dlid_path_bits wc) false port_num.

Definition map_ipv4_addr_to_ipv6 (ipv4 : list Z) : list Z := replicate 10 0 ++ [0xff; 0xff] ++ ipv4.

(** The fields of the route, or nothing with an error. *)
Definition set_ah_attr_by_ipv4 (fuel : nat) (ah_attr : ibv_ah_attr) (ip4h : list Z) (port_num : Z) : option (option ibv_ah_attr) :=
  if byte (ip_daddr ip4h) 0 / 16 =? 14 then Some None
  else
    match ibv_find_gid_index fuel port_num (map_ipv4_addr_to_ipv6 (ip_daddr ip4h)) ROCE_V2 with
    | None => None
    | Some ret =>
        if ret <? 0 then Some None
        else Some (Some (mk_ah (map_ipv4_addr_to_ipv6 (ip_saddr ip4h)) (ah_flow_label ah_attr) (wrap 8 ret) (ip_ttl ip4h) (ip_tos ip4h)
               (ah_dlid ah_attr) (ah_sl ah_attr) (ah_src_path_bits ah_attr) (ah_is_global ah_attr) (ah_port_num ah_attr)))
    end.

Definition IPPROTO_UDP : Z := 17.
Definition IB_NEXT_HDR : Z := 0x1b.

Definition set_ah_attr_by_ipv6 (fuel : nat) (ah_attr : ibv_ah_attr) (grh : list Z) (port_num : Z) : option (option ibv_ah_attr) :=
  if byte (grh_dgid grh) 0 =? 0xFF then Some None
  else
    let search sgid_type :=
      match ibv_find_gid_index fuel port_num (grh_dgid grh) sgid_type with
      | None => None
      | Some ret =>
          if ret <? 0 then Some None
          else Some (Some (mk_ah (grh_sgid grh) (ah_flow_label ah_attr) (wrap 8 ret) (hop_limit grh)
                 (Z.land (Z.shiftr (version_tclass_flow grh) 20) 0xFF)
                 (ah_dlid ah_attr) (ah_sl ah_attr) (ah_src_path_bits ah_attr) (ah_is_global ah_attr) (ah_port_num ah_attr)))
      end in
    if next_hdr grh =? IPPROTO_UDP then search ROCE_V2
    else if next_hdr grh =? IB_NEXT_HDR then search IB_ROCE_V1
    else Some None.

Definition global (a : ibv_ah_attr) : ibv_ah_attr :=
  mk_ah (ah_dgid a) (ah_flow_label a) (ah_sgid_index a) (ah_hop_limit a) (ah_traffic_class a) (ah_dlid a) (ah_sl a) (ah_src_path_bits a)
    true (ah_port_num a).

Definition ibv_init_ah_from_wc (fuel : nat) (port_num : Z) (wc : ibv_wc) (grh : list Z) : option (option ibv_ah_attr) :=
  let ah_attr := set_ah_attr_generic_fields wc grh port_num in
  if wc_grh wc then
    let version := get_grh_header_version grh in
    if version =? 4 then set_ah_attr_by_ipv4 fuel (global ah_attr) (bytes grh 20 20) port_num
    else if version =? 6 then set_ah_attr_by_ipv6 fuel (global ah_attr) grh port_num
    else Some None
  else Some (Some ah_attr).

End tables.

(** ** What is shown *)

(** The conversions of rates are inverse to each other on the rates that have a
    multiplier, and on all rates for Mbit/s. *)
Theorem rate_conversions r :
  (ibv_rate_to_mult r <> -1 -> mult_to_ibv_rate (ibv_rate_to_mult r) = r) /\
  (r <> IBV_RATE_MAX -> mbps_to_ibv_rate (ibv_rate_to_mbps r) = r) /\
  (forall m, mult_to_ibv_rate m = r -> r <> IBV_RATE_MAX -> ibv_rate_to_mult r = m) /\
  (forall m, mbps_to_ibv_rate m = r -> r <> IBV_RATE_MAX -> ibv_rate_to_mbps r = m).
Proof.
  split_and!; [by destruct r|by destruct r| |]; intros m <-; unfold mult_to_ibv_rate, mbps_to_ibv_rate; repeat case_match; done.
Qed.

(** *** Searching *)

Section search.
Context (q : Z -> Z -> Z + ibv_gid_entry).

(** The entry that the table has at an index, an empty one included. *)
Definition gid_at (port_num i : Z) : option (list Z * gid_type_sysfs) :=
  match ibv_query_gid q port_num i, ibv_query_gid_type q port_num i with Some g, Some t => Some (g, t) | _, _ => None end.

Lemma find_gid_loop_unfold fuel port gid t i :
  find_gid_loop q (S fuel) port gid t i =
    match gid_at port i with None => Some (-1) | Some e => if bool_decide (e = (gid, t)) then Some i else find_gid_loop q fuel port gid t (i + 1) end.
Proof.
  cbn [find_gid_loop]. unfold gid_at. destruct (ibv_query_gid q port i) as [g|], (ibv_query_gid_type q port i) as [t'|]; try done.
  repeat case_bool_decide; naive_solver.
Qed.

(** With a table of [n] entries the search ends: at the first entry that matches, or with
    an error when there is none. *)
Lemma find_gid_loop_spec n port gid t : forall k i fuel,
  i + Z.of_nat k = n -> 0 <= i -> gid_at port n = None -> (forall j, i <= j < n -> is_Some (gid_at port j)) -> (k < fuel)%nat ->
  exists r, find_gid_loop q fuel port gid t i = Some r /\
    ((i <= r < n /\ gid_at port r = Some (gid, t) /\ forall j, i <= j < r -> gid_at port j <> Some (gid, t)) \/
     (r = -1 /\ forall j, i <= j < n -> gid_at port j <> Some (gid, t))).
Proof.
  induction k as [|k IH]; intros i fuel Hn Hi Hend Hall Hf; (destruct fuel as [|fuel]; [lia|]); rewrite find_gid_loop_unfold.
  - replace i with n by lia. rewrite Hend. exists (-1). split; [done|]. right. split; [done|]. intros j. lia.
  - destruct (Hall i ltac:(lia)) as [e He]. rewrite He. case_bool_decide as E.
    + exists i. split; [done|]. left. split_and!; [lia|lia|by rewrite He, E|lia].
    + destruct (IH (i + 1) fuel) as (r & Hr & Hcase); [lia|lia|done|intros j Hj; apply Hall; lia|lia|]. exists r. split; [done|].
      assert (Hne : gid_at port i <> Some (gid, t)) by (rewrite He; congruence).
      destruct Hcase as [(H1 & H2 & H3)|[-> H3]]; [left|right]; split_and!; try done; try lia; intros j Hj; (destruct (decide (j = i)) as [->|]; [done|]; apply H3; lia).
Qed.

End search.

(** *** Checksums *)

Definition sum (l : list Z) : Z := foldr Z.add 0 l.

(** The one's complement sum of the words, as RFC 1071 has it. *)
Definition ones_sum (s : Z) : Z := if s =? 0 then 0 else (s - 1) mod 65535 + 1.

(** The header carries its checksum. *)
Definition checked (h : list Z) : Prop := ip_check h = 65535 - ones_sum (sum (hwords (unchecked h))).

Lemma wrapped_sum l s : 0 <= s -> Forall (fun x => 0 <= x < 65536) l -> s + 65536 * Z.of_nat (length l) < 2 ^ 32 ->
  fold_left (fun s x => s +{32} x) l s = s + sum l /\ 0 <= sum l <= 65535 * Z.of_nat (length l).
Proof.
  intros Hs Hl. revert s Hs. induction Hl as [|x l Hx Hl IH]; intros s Hs Hb; cbn [fold_left sum foldr length] in *; [lia|].
  rewrite wrap_small by (unfold in_width; lia). fold (sum l). destruct (IH (s + x) ltac:(lia) ltac:(lia)) as [-> Hr]. unfold sum in *. lia.
Qed.

Lemma fold_once_div s : 0 <= s -> fold_once s = s mod 65536 + s / 65536.
Proof. intros Hs. unfold fold_once. change 0xffff with (Z.ones 16). by rewrite Z.land_ones, Z.shiftr_div_pow2 by lia. Qed.

(** One folding is enough unless its result has a carry; then the result is one too
    large. *)
Lemma csum_folded s : 0 < s <= 655350 ->
  wrap 16 (~{32} (fold_once s)) = 65535 - ones_sum s + (if 65536 <=? fold_once s then 1 else 0).
Proof.
  intros Hs. rewrite fold_once_div by lia. unfold ones_sum. rewrite (proj2 (Z.eqb_neq s 0)) by lia.
  pose proof (Z.div_mod s 65536 ltac:(lia)) as Hd. pose proof (Z.mod_pos_bound s 65536 ltac:(lia)) as Hm.
  assert (Hq : 0 <= s / 65536 <= 9) by (split; [apply Z.div_pos; lia|]; enough (s / 65536 < 10) by lia; apply Z.div_lt_upper_bound; lia).
  set (q := s / 65536) in *. set (r := s mod 65536) in *. unfold wrap. destruct (Z.leb_spec 65536 (r + q)) as [Hc|Hc].
  - replace (2 ^ 32 - 1 - (r + q)) with (131071 - (r + q) + 65534 * 2 ^ 16) by lia. rewrite Z.mod_add, Z.mod_small by lia.
    replace (s - 1) with (r + q - 65536 + (q + 1) * 65535) by lia. rewrite Z.mod_add, Z.mod_small by lia. lia.
  - replace (2 ^ 32 - 1 - (r + q)) with (65535 - (r + q) + 65535 * 2 ^ 16) by lia. rewrite Z.mod_add, Z.mod_small by lia.
    replace (s - 1) with (r + q - 1 + q * 65535) by lia. rewrite Z.mod_add, Z.mod_small by lia. lia.
Qed.

Lemma hwords_range b : Forall (fun x => 0 <= x < 256) b -> Forall (fun x => 0 <= x < 65536) (hwords b).
Proof.
  assert (Hs : forall n b, (length b <= n)%nat -> Forall (fun x => 0 <= x < 256) b -> Forall (fun x => 0 <= x < 65536) (hwords b)).
  { clear b. induction n as [|n IH]; intros [|x [|y b]] Hn Hb; cbn [hwords length] in *; try constructor; try lia.
    - apply Forall_cons in Hb as [? Hb]. apply Forall_cons in Hb as [? _]. lia.
    - apply IH; [lia|]. apply Forall_cons in Hb as [_ Hb]. by apply Forall_cons in Hb as [_ ?]. }
  intros Hb. by apply (Hs (length b)).
Qed.

Lemma grh_version_nibble grh : Forall (fun x => 0 <= x < 256) grh -> (4 <= length grh)%nat ->
  Z.land (Z.shiftr (version_tclass_flow grh) 28) 0xf = byte grh 0 / 16.
Proof.
  intros Hb Hl. do 4 (destruct grh as [|? grh]; [cbn in Hl; lia|]). repeat (apply Forall_cons in Hb as [? Hb]).
  unfold version_tclass_flow, be32, byte. cbn [nth Nat.add]. change 0xf with (Z.ones 4). rewrite Z.land_ones, Z.shiftr_div_pow2 by lia.
  Z.to_euclidean_division_equations. lia.
Qed.

Lemma header_words h : length h = 20%nat -> Forall (fun x => 0 <= x < 256) h -> byte h 0 = 0x45 ->
  length (hwords (unchecked h)) = 10%nat /\ Forall (fun x => 0 <= x < 65536) (hwords (unchecked h)) /\ 0 < sum (hwords (unchecked h)).
Proof.
  intros Hl Hb H0. do 20 (destruct h as [|? h]; [done|]). destruct h; [|done].
  assert (Hr : Forall (fun x => 0 <= x < 65536) (hwords (unchecked [z; z0; z1; z2; z3; z4; z5; z6; z7; z8; z9; z10; z11; z12; z13; z14; z15; z16; z17; z18]))).
  { apply hwords_range. unfold unchecked. cbn [take drop app]. repeat (apply Forall_cons in Hb as [? Hb]). repeat constructor; lia. }
  split_and!; [done|exact Hr|]. unfold byte in H0. cbn [nth] in H0. subst z. cbn [unchecked take drop app hwords sum foldr] in *.
  repeat (apply Forall_cons in Hr as [? Hr]). lia.
Qed.

(** A packet with an IPv4 header that carries its checksum is taken for IPv4, unless the
    bytes before the header look like IPv6 and the sum of the header needs to be folded
    twice; then it is taken for IPv6. *)
Theorem ipv4_headers_recognised grh
    (Hl : length grh = 40%nat) (Hb : Forall (fun x => 0 <= x < 256) grh) (H0 : byte grh 20 = 0x45) (Hc : checked (bytes grh 20 20)) :
  get_grh_header_version grh =
    if (byte grh 0 / 16 =? 6) && (65536 <=? fold_once (sum (hwords (unchecked (bytes grh 20 20))))) then 6 else 4.
Proof.
  set (h := bytes grh 20 20) in *. assert (Hlh : length h = 20%nat) by (unfold h, bytes; rewrite length_take, length_drop; lia).
  assert (Hbh : Forall (fun x => 0 <= x < 256) h) by (unfold h, bytes; by apply Forall_take, Forall_drop).
  assert (H0h : byte h 0 = 0x45).
  { unfold h, bytes, byte in *. do 40 (destruct grh as [|? grh]; [done|]). exact H0. }
  destruct (header_words h Hlh Hbh H0h) as (Hlw & Hrw & Hpos). unfold get_grh_header_version. fold h. rewrite grh_version_nibble by (done || lia).
  unfold ip_version, ip_ihl. rewrite H0h. change (0x45 / 16 =? 4) with true. change (0x45 mod 16 =? 5) with true. cbn [negb].
  destruct (byte grh 0 / 16 =? 6); cbn [negb andb]; [|done]. rewrite Hc. unfold ipv4_calc_hdr_csum.
  destruct (wrapped_sum (hwords (unchecked h)) 0 ltac:(lia) Hrw ltac:(rewrite Hlw; lia)) as [-> Hs]. rewrite Hlw in Hs.
  rewrite Z.add_0_l, csum_folded by lia. destruct (65536 <=? _); [|by rewrite Z.add_0_r, Z.eqb_refl].
  by rewrite (proj2 (Z.eqb_neq _ _)) by lia.
Qed.

Definition demo_grh : list Z :=
  replicate 20 0x60 ++ [0x45; 0; 0; 60; 184; 75; 0x40; 0; 64; 17; 254; 255; 192; 168; 1; 10; 192; 168; 1; 11].

Lemma ipv4_headers_recognised_witness : get_grh_header_version demo_grh = 6.
Proof. rewrite (ipv4_headers_recognised demo_grh); [vm_compute; done|done|unfold demo_grh; cbn; repeat constructor; lia|done|vm_compute; done]. Defined.

(** *** Packets

    The 40 bytes before a payload by the formats of the protocols: a global routing header,
    which is an IPv6 header, or 20 bytes that mean nothing and an IPv4 header without
    options and with its checksum. *)

Definition be16_bytes (x : Z) : list Z := [x / 256; x mod 256].

(** 16-bit words of the network, and the checksum of RFC 791 and RFC 1071 over them. *)
Fixpoint nwords (b : list Z) : list Z := match b with x :: y :: b' => (x * 256 + y) :: nwords b' | _ => [] end.
Definition internet_checksum (b : list Z) : Z := 65535 - ones_sum (sum (nwords b)).

Inductive packet : Set :=
| V6Packet (tclass flow payload_len next hop : Z) (src dst : list Z)
| V4Packet (before : list Z) (tos tot_len id frag ttl protocol : Z) (src dst : list Z).

Definition v4_header (check tos tot_len id frag ttl protocol : Z) (src dst : list Z) : list Z :=
  [0x45; tos] ++ be16_bytes tot_len ++ be16_bytes id ++ be16_bytes frag ++ [ttl; protocol] ++ be16_bytes check ++ src ++ dst.

Definition wire (p : packet) : list Z :=
  match p with
  | V6Packet tclass flow payload_len next hop src dst =>
      [0x60 + tclass / 16; tclass mod 16 * 16 + flow / 65536; flow / 256 mod 256; flow mod 256] ++
      be16_bytes payload_len ++ [next; hop] ++ src ++ dst
  | V4Packet before tos tot_len id frag ttl protocol src dst =>
      before ++ v4_header (internet_checksum (v4_header 0 tos tot_len id frag ttl protocol src dst))
        tos tot_len id frag ttl protocol src dst
  end.

Definition octets (n : nat) (b : list Z) : Prop := length b = n /\ Forall (fun x => 0 <= x < 256) b.

Definition packet_wf (p : packet) : Prop :=
  match p with
  | V6Packet tclass flow payload_len next hop src dst =>
      in_width 8 tclass /\ in_width 20 flow /\ in_width 16 payload_len /\ in_width 8 next /\ in_width 8 hop /\ octets 16 src /\ octets 16 dst
  | V4Packet before tos tot_len id frag ttl protocol src dst =>
      octets 20 before /\ in_width 8 tos /\ in_width 16 tot_len /\ in_width 16 id /\ in_width 16 frag /\ in_width 8 ttl /\
      in_width 8 protocol /\ octets 4 src /\ octets 4 dst
  end.

(** The packets that can be told apart.  The 20 bytes before an IPv4 header do not start
    like IPv6, or adding the words of the header and folding the sum once leaves no carry;
    the last 20 bytes of an IPv6 header are not an IPv4 header without options whose
    checksum agrees with the sum folded once. *)
Definition words_once (h : list Z) : Z := let s := sum (hwords (unchecked h)) in s mod 65536 + s / 65536.

Definition unambiguous (p : packet) : Prop :=
  match p with
  | V6Packet _ _ _ _ _ src dst =>
      let h := drop 12 src ++ dst in
      byte h 0 mod 16 <> 5 \/ byte h 10 + byte h 11 * 256 <> 65535 - words_once h mod 65536
  | V4Packet before tos tot_len id frag ttl protocol src dst =>
      byte before 0 / 16 <> 6 \/ words_once (v4_header 0 tos tot_len id frag ttl protocol src dst) < 65536
  end.

(** Who sent a packet to which GID, and how; nothing for packets sent to a group and for
    IPv6 packets of another protocol. *)
Definition v4_gid (a : list Z) : list Z := [0; 0; 0; 0; 0; 0; 0; 0; 0; 0; 0xff; 0xff] ++ a.

Definition packet_route (p : packet) : option (list Z * list Z * gid_type_sysfs) :=
  match p with
  | V4Packet _ _ _ _ _ _ _ src dst =>
      if (224 <=? byte dst 0) && (byte dst 0 <=? 239) then None else Some (v4_gid src, v4_gid dst, ROCE_V2)
  | V6Packet _ _ _ next _ src dst =>
      if byte dst 0 =? 255 then None
      else if next =? 17 then Some (src, dst, ROCE_V2)
      else if next =? 27 then Some (src, dst, IB_ROCE_V1)
      else None
  end.

Definition packet_hops (p : packet) : Z := match p with V6Packet _ _ _ _ hop _ _ => hop | V4Packet _ _ _ _ _ ttl _ _ _ => ttl end.
Definition packet_class (p : packet) : Z := match p with V6Packet tclass _ _ _ _ _ _ => tclass | V4Packet _ tos _ _ _ _ _ _ _ => tos end.

(** *** Recognising them *)

Lemma words_swapped b : Forall (fun x => 0 <= x < 256) b -> Nat.even (length b) = true ->
  (exists k, sum (hwords b) = 256 * sum (nwords b) - 65535 * k) /\ (0 < sum (hwords b) <-> 0 < sum (nwords b)) /\
  0 <= sum (hwords b) /\ 0 <= sum (nwords b).
Proof.
  assert (Hs : forall n b, (length b <= n)%nat -> Forall (fun x => 0 <= x < 256) b -> Nat.even (length b) = true ->
    (exists k, sum (hwords b) = 256 * sum (nwords b) - 65535 * k) /\ (0 < sum (hwords b) <-> 0 < sum (nwords b)) /\
    0 <= sum (hwords b) /\ 0 <= sum (nwords b)).
  { clear b. induction n as [|n IH]; intros [|x [|y b]] Hn Hb He; cbn [hwords nwords length sum foldr] in *; try done; try lia.
    - split; [by exists 0|lia].
    - split; [by exists 0|lia].
    - apply Forall_cons in Hb as [Hx Hb]. apply Forall_cons in Hb as [Hy Hb].
      destruct (IH b ltac:(lia) Hb He) as ((k & Hk) & Hp & H1 & H2). unfold sum in *. split; [|lia]. exists (k + x). lia. }
  intros Hb He. by apply (Hs (length b)).
Qed.

Lemma ones_sum_spec s : 0 < s -> 1 <= ones_sum s <= 65535 /\ exists k, ones_sum s = s + 65535 * k.
Proof.
  intros Hs. unfold ones_sum. rewrite (proj2 (Z.eqb_neq s 0)) by lia.
  pose proof (Z.mod_pos_bound (s - 1) 65535 ltac:(lia)). pose proof (Z.div_mod (s - 1) 65535 ltac:(lia)).
  split; [lia|]. exists (- ((s - 1) / 65535)). lia.
Qed.

(** The checksum does not depend on the order of the bytes in a word. *)
Lemma checksum_swapped b : Forall (fun x => 0 <= x < 256) b -> Nat.even (length b) = true -> 0 < sum (hwords b) ->
  let c := internet_checksum b in
  in_width 16 c /\ c / 256 + c mod 256 * 256 = 65535 - ones_sum (sum (hwords b)).
Proof.
  intros Hb He Hp. destruct (words_swapped b Hb He) as ((k & Hk) & Hpos & _). unfold internet_checksum.
  destruct (ones_sum_spec (sum (hwords b)) Hp) as (H1 & k1 & E1).
  destruct (ones_sum_spec (sum (nwords b)) ltac:(lia)) as (H2 & k2 & E2). cbv zeta.
  set (c := 65535 - ones_sum (sum (nwords b))). assert (Hc : c = 65535 - ones_sum (sum (nwords b))) by done. clearbody c.
  pose proof (Z.div_mod c 256 ltac:(lia)). pose proof (Z.mod_pos_bound c 256 ltac:(lia)).
  split; [unfold in_width; lia|]. set (q := c / 256) in *. set (r := c mod 256) in *.
  assert (exists t, q + r * 256 - (65535 - ones_sum (sum (hwords b))) = 65535 * t)
    as [t Ht] by (exists (255 + k1 - k - 256 * k2 - q); lia). nia.
Qed.

Lemma octets_4 b : octets 4 b -> exists x y z w, b = [x; y; z; w] /\ 0 <= x < 256 /\ 0 <= y < 256 /\ 0 <= z < 256 /\ 0 <= w < 256.
Proof.
  intros [Hl Hb]. do 4 (destruct b as [|? b]; [done|]). destruct b; [|done]. repeat (apply Forall_cons in Hb as [? Hb]). by eexists _, _, _, _.
Qed.

Lemma be16_octets x : in_width 16 x -> 0 <= x / 256 < 256 /\ 0 <= x mod 256 < 256.
Proof. unfold in_width. intros Hx. pose proof (Z.mod_pos_bound x 256 ltac:(lia)). split; [|lia]. split; [apply Z.div_pos; lia|apply Z.div_lt_upper_bound; lia]. Qed.

(** The fields of a header, where the code looks for them. *)
Lemma v4_header_fields check tos tot_len id frag ttl protocol src dst :
  in_width 16 check -> in_width 8 tos -> in_width 16 tot_len -> in_width 16 id -> in_width 16 frag -> in_width 8 ttl ->
  in_width 8 protocol -> octets 4 src -> octets 4 dst ->
  let h := v4_header check tos tot_len id frag ttl protocol src dst in
  octets 20 h /\ byte h 0 = 0x45 /\ ip_tos h = tos /\ ip_ttl h = ttl /\ ip_saddr h = src /\ ip_daddr h = dst /\
  ip_check h = check / 256 + check mod 256 * 256 /\ unchecked h = v4_header 0 tos tot_len id frag ttl protocol src dst.
Proof.
  intros Hc Ht Hl Hi Hf Htt Hp (? & ? & ? & ? & -> & ? & ? & ? & ?)%octets_4 (? & ? & ? & ? & -> & ? & ? & ? & ?)%octets_4 h.
  destruct (be16_octets _ Hc), (be16_octets _ Hl), (be16_octets _ Hi), (be16_octets _ Hf). unfold in_width in Ht, Htt, Hp.
  split; [split; [done|]|done]. unfold h, v4_header, be16_bytes. cbn [app]. repeat apply Forall_cons_2; try apply Forall_nil_2; lia.
Qed.

Lemma v4_recognised before tos tot_len id frag ttl protocol src dst :
  let p := V4Packet before tos tot_len id frag ttl protocol src dst in
  packet_wf p -> unambiguous p -> get_grh_header_version (wire p) = 4.
Proof.
  intros p (Hbe & Ht & Hl & Hi & Hf & Htt & Hp & Hs & Hd) Hu. unfold p in *. cbn [wire unambiguous] in *.
  assert (H0 : in_width 16 0) by (unfold in_width; lia).
  destruct (v4_header_fields 0 tos tot_len id frag ttl protocol src dst) as ([Hl0 Hb0] & Hv0 & _ & _ & _ & _ & _ & Hun0); [done..|].
  set (h0 := v4_header 0 _ _ _ _ _ _ _ _) in *.
  destruct (header_words h0 Hl0 Hb0 Hv0) as (_ & _ & Hpos). rewrite Hun0 in Hpos.
  destruct (checksum_swapped h0 Hb0 ltac:(by rewrite Hl0) Hpos) as [Hcw Hce].
  destruct (v4_header_fields (internet_checksum h0) tos tot_len id frag ttl protocol src dst)
    as ([Hl1 Hb1] & Hv1 & _ & _ & _ & _ & Hc1 & Hun1); [done..|].
  set (h := v4_header (internet_checksum h0) _ _ _ _ _ _ _ _) in *. destruct Hbe as [Hbl Hbb].
  assert (Hby : bytes (before ++ h) 20 20 = h) by (unfold bytes; rewrite drop_app_length', take_ge by lia; done).
  rewrite ipv4_headers_recognised; [| by rewrite length_app, Hbl, Hl1|by apply Forall_app_2| |].
  - rewrite Hby, Hun1. fold h0. destruct (Z.eqb_spec (byte (before ++ h) 0 / 16) 6) as [E|E]; [|done].
    destruct (Z.leb_spec 65536 (fold_once (sum (hwords h0)))) as [Hle|]; [|done]. exfalso.
    rewrite fold_once_div in Hle by lia. unfold words_once in Hu. rewrite Hun0 in Hu. destruct Hu as [Hu|Hu]; [|lia].
    apply Hu. rewrite <- E. destruct before; [done|]. done.
  - unfold byte. rewrite app_nth2 by lia. rewrite Hbl. exact Hv1.
  - unfold checked. rewrite Hby, Hun1, Hc1. fold h0. exact Hce.
Qed.

(** The fields of a global routing header. *)
Lemma v6_fields tclass flow payload_len next hop src dst :
  let p := V6Packet tclass flow payload_len next hop src dst in
  packet_wf p ->
  version_tclass_flow (wire p) = 6 * 2 ^ 28 + tclass * 2 ^ 20 + flow /\ next_hdr (wire p) = next /\ hop_limit (wire p) = hop /\
  grh_sgid (wire p) = src /\ grh_dgid (wire p) = dst /\ bytes (wire p) 20 20 = drop 12 src ++ dst.
Proof.
  intros p (Ht & Hf & _ & _ & _ & [Hs _] & [Hd _]). unfold p, in_width in *. cbn [wire]. split_and!; try done.
  - unfold version_tclass_flow, be32, byte. cbn [nth app Nat.add]. Z.to_euclidean_division_equations. lia.
  - unfold grh_sgid, bytes. cbn [be16_bytes app drop]. by rewrite drop_0, take_app_length'.
  - unfold grh_dgid, bytes. cbn [be16_bytes app]. change 24%nat with (8 + 16)%nat. rewrite <- drop_drop. cbn [drop].
    rewrite drop_0, drop_app_length', take_ge by lia. done.
  - unfold bytes. cbn [be16_bytes app]. change (drop 20 ?l) with (drop (8 + 12) l). rewrite <- drop_drop. cbn [drop].
    rewrite drop_0, drop_app_le, take_ge by (rewrite ?length_app, ?length_drop; lia). done.
Qed.

Lemma unchecked_words h : octets 20 h -> length (hwords (unchecked h)) = 10%nat /\ Forall (fun x => 0 <= x < 65536) (hwords (unchecked h)).
Proof.
  intros [Hl Hb]. split.
  - do 20 (destruct h as [|? h]; [done|]). by destruct h.
  - apply hwords_range. unfold unchecked. apply Forall_app_2; [by apply Forall_take|].
    apply Forall_app_2; [|by apply Forall_drop]. repeat apply Forall_cons_2; try apply Forall_nil_2; lia.
Qed.

(** The checksum of the code, whatever the header. *)
Lemma calc_hdr_csum h : octets 20 h -> ipv4_calc_hdr_csum (hwords (unchecked h)) = 65535 - words_once h mod 65536.
Proof.
  intros Hh. destruct (unchecked_words h Hh) as [Hl Hr]. unfold ipv4_calc_hdr_csum.
  destruct (wrapped_sum (hwords (unchecked h)) 0 ltac:(lia) Hr ltac:(rewrite Hl; lia)) as [-> Hs]. rewrite Hl in Hs.
  rewrite Z.add_0_l, fold_once_div by lia. unfold words_once. set (s := sum _) in *.
  assert (Hf : 0 <= s mod 65536 + s / 65536 < 2 ^ 20).
  { pose proof (Z.mod_pos_bound s 65536 ltac:(lia)). assert (0 <= s / 65536 < 65536); [|lia].
    split; [apply Z.div_pos; lia|apply Z.div_lt_upper_bound; lia]. }
  set (f := s mod 65536 + s / 65536) in *. unfold wrap. change (2 ^ 16) with 65536.
  pose proof (Z.div_mod f 65536 ltac:(lia)). pose proof (Z.mod_pos_bound f 65536 ltac:(lia)).
  symmetry. apply (Z.mod_unique_pos _ _ (65535 - f / 65536)); lia.
Qed.

Lemma v6_recognised tclass flow payload_len next hop src dst :
  let p := V6Packet tclass flow payload_len next hop src dst in
  packet_wf p -> unambiguous p -> get_grh_header_version (wire p) = 6.
Proof.
  intros p Hwf Hu. destruct (v6_fields _ _ _ _ _ _ _ Hwf) as (Hv & _ & _ & _ & _ & Hby).
  destruct Hwf as (Ht & Hf & _ & _ & _ & [Hs Hsb] & [Hd Hdb]). unfold get_grh_header_version. fold p in Hv, Hby. rewrite Hv, Hby.
  unfold in_width in Ht, Hf.
  assert (Z.land (Z.shiftr (6 * 2 ^ 28 + tclass * 2 ^ 20 + flow) 28) 0xf = 6) as ->.
  { change 0xf with (Z.ones 4). rewrite Z.land_ones, Z.shiftr_div_pow2 by lia. Z.to_euclidean_division_equations. lia. }
  cbn [Z.eqb negb Pos.eqb]. unfold p in Hu. cbn [unambiguous] in Hu. set (h := drop 12 src ++ dst) in *.
  assert (Hh : octets 20 h).
  { split; [unfold h; rewrite length_app, length_drop; lia|]. apply Forall_app_2; [by apply Forall_drop|done]. }
  unfold ip_ihl. destruct (Z.eqb_spec (byte h 0 mod 16) 5) as [E|]; [|done]. cbn [negb]. destruct Hu as [Hu|Hu]; [done|].
  rewrite calc_hdr_csum by done. unfold ip_check. by rewrite (proj2 (Z.eqb_neq _ _)) by done.
Qed.

(** *** Replies *)

Section replies.
Context (q : Z -> Z -> Z + ibv_gid_entry) (port n : Z).
Context (Hn : 0 <= n <= 256) (Hend : gid_at q port n = None) (Hall : forall j, 0 <= j < n -> is_Some (gid_at q port j)).

(** The attributes lead from the GID at [j] to [src], with the hops and the class of the
    packet. *)
Definition leads_back (wc : ibv_wc) (p : packet) (src : list Z) (j : Z) (o : option ibv_ah_attr) : Prop :=
  exists a, o = Some a /\ ah_dgid a = src /\ ah_sgid_index a = j /\ ah_hop_limit a = packet_hops p /\ ah_traffic_class a = packet_class p /\
    ah_is_global a = true /\ ah_port_num a = port /\ ah_dlid a = wc_slid wc /\ ah_sl a = wc_sl wc /\ ah_src_path_bits a = wc_dlid_path_bits wc.

Definition reply_ok (wc : ibv_wc) (p : packet) (o : option ibv_ah_attr) : Prop :=
  match packet_route p with
  | None => o = None
  | Some (src, dst, t) =>
      (exists j, 0 <= j < n /\ gid_at q port j = Some (dst, t) /\ (forall i, 0 <= i < j -> gid_at q port i <> Some (dst, t)) /\ leads_back wc p src j o) \/
      ((forall i, 0 <= i < n -> gid_at q port i <> Some (dst, t)) /\ o = None)
  end.

Lemma find_reply fuel wc p src dst t (mk : Z -> ibv_ah_attr) : (Z.to_nat n < fuel)%nat ->
  (forall j, 0 <= j < 256 -> leads_back wc p src j (Some (mk (wrap 8 j)))) ->
  exists o, (match ibv_find_gid_index q fuel port dst t with None => None | Some ret => if ret <? 0 then Some None else Some (Some (mk (wrap 8 ret))) end) = Some o /\
    ((exists j, 0 <= j < n /\ gid_at q port j = Some (dst, t) /\ (forall i, 0 <= i < j -> gid_at q port i <> Some (dst, t)) /\ leads_back wc p src j o) \/
     ((forall i, 0 <= i < n -> gid_at q port i <> Some (dst, t)) /\ o = None)).
Proof.
  intros Hf Hmk. unfold ibv_find_gid_index. destruct (find_gid_loop_spec q n port dst t (Z.to_nat n) 0 fuel) as (r & -> & Hr); [lia|lia|done|done|done|].
  destruct Hr as [(H1 & H2 & H3)|[-> H3]].
  - rewrite (proj2 (Z.ltb_ge r 0)) by lia. eexists. split; [done|]. left. exists r. split_and!; [lia|lia|done|done|]. apply Hmk. lia.
  - exists None. split; [done|]. by right.
Qed.

Lemma group_v4 x : 0 <= x < 256 -> (x / 16 =? 14) = (224 <=? x) && (x <=? 239).
Proof.
  intros Hx. pose proof (Z.div_mod x 16 ltac:(lia)). pose proof (Z.mod_pos_bound x 16 ltac:(lia)).
  destruct (Z.eqb_spec (x / 16) 14), (Z.leb_spec 224 x), (Z.leb_spec x 239); cbn; lia.
Qed.

Lemma v4_reply fuel wc before tos tot_len id frag ttl protocol src dst :
  let p := V4Packet before tos tot_len id frag ttl protocol src dst in
  wc_grh wc = true -> packet_wf p -> unambiguous p -> (Z.to_nat n < fuel)%nat ->
  exists o, ibv_init_ah_from_wc q fuel port wc (wire p) = Some o /\ reply_ok wc p o.
Proof.
  intros p Hg Hwf Hu Hf. unfold ibv_init_ah_from_wc, reply_ok. rewrite Hg.
  pose proof (v4_recognised _ _ _ _ _ _ _ _ _ Hwf Hu) as Hv. fold p in Hv. rewrite Hv. cbn [Z.eqb Pos.eqb].
  assert (Hck : in_width 16 (internet_checksum (v4_header 0 tos tot_len id frag ttl protocol src dst))).
  { destruct Hwf as (_ & Ht & Hl & Hi & Hfr & Htt & Hpr & Hs & Hd).
    destruct (v4_header_fields 0 tos tot_len id frag ttl protocol src dst) as ([Hl0 Hb0] & Hv0 & _ & _ & _ & _ & _ & Hun0); [unfold in_width; lia|done..|].
    destruct (header_words _ Hl0 Hb0 Hv0) as (_ & _ & Hpos). rewrite Hun0 in Hpos.
    apply (checksum_swapped _ Hb0 ltac:(by rewrite Hl0) Hpos). }
  destruct Hwf as ([Hbl _] & Ht & Hl & Hi & Hfr & Htt & Hpr & Hs & Hd).
  destruct (v4_header_fields _ tos tot_len id frag ttl protocol src dst Hck) as ([Hl1 _] & _ & Etos & Ettl & Es & Ed & _); [done..|].
  unfold p. cbn [wire packet_route]. set (h := v4_header (internet_checksum _) _ _ _ _ _ _ _ _) in *.
  assert (Hby : bytes (before ++ h) 20 20 = h) by (unfold bytes; rewrite drop_app_length', take_ge by lia; done). rewrite Hby.
  unfold set_ah_attr_by_ipv4. rewrite Ed, Es, Etos, Ettl. rewrite group_v4 by (destruct (octets_4 _ Hd) as (? & ? & ? & ? & -> & ? & _); done).
  destruct ((224 <=? byte dst 0) && _); [by exists None|].
  apply (find_reply fuel wc _ _ _ _ (fun j => mk_ah _ _ j _ _ _ _ _ _ _)); [done|]. intros j Hj. eexists. split; [done|]. cbn.
  by rewrite wrap_small by (unfold in_width; lia).
Qed.

Lemma v6_reply fuel wc tclass flow payload_len next hop src dst :
  let p := V6Packet tclass flow payload_len next hop src dst in
  wc_grh wc = true -> packet_wf p -> unambiguous p -> (Z.to_nat n < fuel)%nat ->
  exists o, ibv_init_ah_from_wc q fuel port wc (wire p) = Some o /\ reply_ok wc p o.
Proof.
  intros p Hg Hwf Hu Hf. unfold ibv_init_ah_from_wc, reply_ok. rewrite Hg.
  pose proof (v6_recognised _ _ _ _ _ _ _ Hwf Hu) as Hv. fold p in Hv. rewrite Hv. cbn [Z.eqb Pos.eqb].
  destruct (v6_fields _ _ _ _ _ _ _ Hwf) as (Ev & En & Eh & Es & Ed & _). fold p in Ev, En, Eh, Es, Ed.
  destruct Hwf as (Ht & Hfl & _). unfold in_width in Ht, Hfl.
  assert (Hc : Z.land (Z.shiftr (version_tclass_flow (wire p)) 20) 0xFF = tclass).
  { rewrite Ev. change 0xFF with (Z.ones 8). rewrite Z.land_ones, Z.shiftr_div_pow2 by lia. Z.to_euclidean_division_equations. lia. }
  unfold set_ah_attr_by_ipv6. rewrite Ed, Es, En, Eh, Hc. unfold p. cbn [packet_route].
  destruct (byte dst 0 =? 0xFF); [by exists None|]. unfold IPPROTO_UDP, IB_NEXT_HDR.
  destruct (next =? 17); [|destruct (next =? 27); [|by exists None]];
    (apply (find_reply fuel wc _ _ _ _ (fun j => mk_ah _ _ j _ _ _ _ _ _ _)); [done|]; intros j Hj; eexists; split; [done|]; cbn;
     by rewrite wrap_small by (unfold in_width; lia)).
Qed.

(** C30: the attributes made from a received packet with a routing header lead back to its
    sender.  For the bytes of a RoCE packet as the protocols lay them out, a global routing
    header or 20 arbitrary bytes and an IPv4 header without options and with its checksum,
    the reply goes to the source address from the first GID of the port that has the
    destination address and the right type, with the hop limit and the traffic class of
    the packet, over the port and to the LID the completion names; without such a GID, and
    for packets sent to a group or, under IPv6, of a protocol other than UDP and IBA, there
    is an error.  The tables have at most 256 entries (the index is stored in 8 bits), and
    the packet is one that can be told apart: an IPv4 packet whose leading bytes do not
    start like IPv6 or whose header sum does not carry again after one folding (with the
    carry it is taken for IPv6, see the findings), an IPv6 packet whose last 20 bytes are
    not by accident an IPv4 header with a matching checksum.  Without a routing header the
    reply goes to the LID of the completion. *)
Theorem replies_go_back fuel wc p (Hwf : packet_wf p) (Hu : unambiguous p) (Hf : (Z.to_nat n < fuel)%nat) :
  exists o, ibv_init_ah_from_wc q fuel port wc (wire p) = Some o /\
    if wc_grh wc then reply_ok wc p o
    else exists a, o = Some a /\ ah_is_global a = false /\ ah_port_num a = port /\ ah_dlid a = wc_slid wc /\ ah_sl a = wc_sl wc.
Proof.
  destruct (wc_grh wc) eqn:Hg.
  - destruct p; [by apply v6_reply|by apply v4_reply].
  - unfold ibv_init_ah_from_wc. rewrite Hg. eexists. split; [done|]. by eexists.
Qed.

End replies.

(** One entry: a RoCE v2 GID of an IPv4 address. *)
Definition demo_table (port i : Z) : Z + ibv_gid_entry :=
  if i =? 0 then inr (mk_gid_entry (map_ipv4_addr_to_ipv6 [192; 168; 1; 11]) IBV_GID_TYPE_ROCE_V2) else inl EINVAL.

Definition demo_packet : packet := V4Packet (replicate 20 0x60) 0 60 7 0x4000 64 17 [192; 168; 1; 10] [192; 168; 1; 11].

Lemma replies_go_back_witness : exists o,
  ibv_init_ah_from_wc demo_table 2 1 (mk_wc 7 3 0 true) (wire demo_packet) = Some o /\ reply_ok demo_table 1 1 (mk_wc 7 3 0 true) demo_packet o.
Proof.
  apply (replies_go_back demo_table 1 1).
  - lia.
  - done.
  - intros j Hj. replace j with 0 by lia. by eexists.
  - unfold packet_wf, demo_packet, octets, in_width. split_and!; try lia; try done; repeat constructor; lia.
  - right. vm_compute. reflexivity.
  - lia.
Defined.

(** A P_Key is found at the first index that has it. *)
Lemma pkey_index_first read_pkey port pkey n : forall k i fuel,
  i + Z.of_nat k = n -> 0 <= i -> (k < fuel)%nat -> ibv_query_pkey read_pkey port n = Some pkey ->
  (forall j, i <= j < n -> exists x, ibv_query_pkey read_pkey port j = Some x /\ x <> pkey) ->
  ibv_get_pkey_index read_pkey fuel port pkey i = Some n.
Proof.
  induction k as [|k IH]; intros i fuel Hk Hi Hf Hend Hall; (destruct fuel as [|fuel]; [lia|]); cbn [ibv_get_pkey_index].
  - replace i with n by lia. by rewrite Hend, Z.eqb_refl.
  - destruct (Hall i ltac:(lia)) as (x & -> & Hx). rewrite (proj2 (Z.eqb_neq pkey x)) by done. apply IH; [lia|lia|lia|done|]. intros j Hj. apply Hall. lia.
Qed.
