(* ===== verification/VerbsObj.v ===== *)
(** * Completion channels, completion queues and queue pairs of libibverbs

    The entry points of libibverbs/verbs.c (and [verbs_init_cq] of device.c) that keep
    state of their own next to the provider's: the number of completion queues that use a
    channel, the events that were acknowledged, and the state of a queue pair.  The
    provider and the kernel are parameters ([ObjProvider]). *)

From Stdlib Require Import ZArith Lia.
From stdpp Require Import base list gmap fin_maps.
From S2P Require Import Prelude.

#[local] Open Scope cint_scope.
#[local] Open Scope Z_scope.

(** ** The code *)

Definition IBV_QP_STATE : Z := 1.
Definition EBUSY : Z := 16.

Record ibv_comp_channel : Set := mk_chan { ch_fd : Z; ch_refcnt : Z }.
Record ibv_cq : Set := mk_cq { cq_channel : Z; cq_context : Z; cq_comp_events_completed : Z; cq_async_events_completed : Z }.

(** [malloc] and [create_cq] return 0 or an address; [create_channel_cmd] is the command
    that creates a channel, with its descriptor; [read_event] is the handle that is read
    from a channel. *)
Class ObjProvider : Type := {
  prov : Type;
  malloc : gmap Z ibv_comp_channel -> prov -> Z * prov;
  create_channel_cmd : prov -> Z * Z * prov;
  close : Z -> prov -> prov;
  create_cq : gmap Z ibv_cq -> Z -> Z -> Z -> prov -> Z * prov;
  destroy_cq : Z -> prov -> Z * prov;
  cq_event : Z -> prov -> prov;
  read_event : Z -> prov -> option Z * prov;
  modify_qp : Z -> Z -> Z -> prov -> Z * prov;
  query_qp : Z -> Z -> prov -> Z * Z * prov }.

Class ObjProviderLaws (P : ObjProvider) : Prop := {
  malloc_fresh h p x o : malloc h p = (x, o) -> x = 0 \/ h !! x = None;
  create_cq_fresh h cqe ch v p x o : create_cq h cqe ch v p = (x, o) -> x = 0 \/ h !! x = None }.

Record objs `{ObjProvider} : Type := mk_objs {
  o_chans : gmap Z ibv_comp_channel; o_cqs : gmap Z ibv_cq; o_qps : gmap Z Z; o_mutex : bool; o_prov : prov }.
Arguments mk_objs {H}.

Section code.
Context `{ObjProvider}.

Definition on_prov {A} (f : prov -> A * prov) : M objs A := fun s =>
  Done (f (o_prov s)).1 (mk_objs (o_chans s) (o_cqs s) (o_qps s) (o_mutex s) (f (o_prov s)).2).

Definition lock : M objs unit := fun s =>
  if o_mutex s then Fault ApiMisuse else Done tt (mk_objs (o_chans s) (o_cqs s) (o_qps s) true (o_prov s)).
Definition unlock : M objs unit := modify (fun s => mk_objs (o_chans s) (o_cqs s) (o_qps s) false (o_prov s)).

Definition chan_at (p : Z) : M objs ibv_comp_channel := s ← get; if p =? 0 then fail NullDeref else demand UseAfterFree (o_chans s !! p).
Definition cq_at (p : Z) : M objs ibv_cq := s ← get; if p =? 0 then fail NullDeref else demand UseAfterFree (o_cqs s !! p).
Definition set_chan (p : Z) (c : ibv_comp_channel) : M objs unit :=
  modify (fun s => mk_objs (<[p := c]> (o_chans s)) (o_cqs s) (o_qps s) (o_mutex s) (o_prov s)).
Definition free_chan (p : Z) : M objs unit :=
  modify (fun s => mk_objs (delete p (o_chans s)) (o_cqs s) (o_qps s) (o_mutex s) (o_prov s)).
Definition set_cq (p : Z) (c : ibv_cq) : M objs unit :=
  modify (fun s => mk_objs (o_chans s) (<[p := c]> (o_cqs s)) (o_qps s) (o_mutex s) (o_prov s)).
Definition free_cq (p : Z) : M objs unit :=
  modify (fun s => mk_objs (o_chans s) (delete p (o_cqs s)) (o_qps s) (o_mutex s) (o_prov s)).

Definition ibv_create_comp_channel : M objs Z :=
  s ← get;
  channel ← on_prov (malloc (o_chans s));
  if channel =? 0 then mret 0
  else
    '(err, fd) ← on_prov create_channel_cmd;
    if negb (err =? 0) then mret 0
    else set_chan channel (mk_chan fd 0);; mret channel.

Definition ibv_destroy_comp_channel (channel : Z) : M objs Z :=
  c ← chan_at channel;
  lock;;
  c ← chan_at channel;
  ret ← (if negb (ch_refcnt c =? 0) then mret EBUSY
         else on_prov (fun p => (tt, close (ch_fd c) p));; free_chan channel;; mret 0);
  unlock;;
  mret ret.

Definition verbs_init_cq (cq channel cq_context_ : Z) : M objs unit :=
  set_cq cq (mk_cq channel 0 0 0);;
  (if negb (channel =? 0) then
     lock;;
     c ← chan_at channel;
     set_chan channel (mk_chan (ch_fd c) (ch_refcnt c + 1));;
     unlock
   else mret tt);;
  set_cq cq (mk_cq channel cq_context_ 0 0).

Definition ibv_create_cq (cqe cq_context_ channel comp_vector : Z) : M objs Z :=
  s ← get;
  cq ← on_prov (create_cq (o_cqs s) cqe channel comp_vector);
  (if negb (cq =? 0) then verbs_init_cq cq channel cq_context_ else mret tt);;
  mret cq.

(** A completion queue that the provider destroyed is gone. *)
Definition ibv_destroy_cq (cq : Z) : M objs Z :=
  c ← cq_at cq;
  let channel := cq_channel c in
  ret ← on_prov (destroy_cq cq);
  (if ret =? 0 then free_cq cq else mret tt);;
  (if negb (channel =? 0) && (ret =? 0) then
     chan_at channel;;
     lock;;
     ch ← chan_at channel;
     set_chan channel (mk_chan (ch_fd ch) (ch_refcnt ch - 1));;
     unlock
   else mret tt);;
  mret ret.

(** The result is the queue and its [cq_context], or nothing. *)
Definition ibv_get_cq_event (channel : Z) : M objs (option (Z * Z)) :=
  c ← chan_at channel;
  ev ← on_prov (read_event (ch_fd c));
  match ev with
  | None => mret None
  | Some cq => q ← cq_at cq; on_prov (fun p => (tt, cq_event cq p));; mret (Some (cq, cq_context q))
  end.

Definition ibv_ack_cq_events (cq nevents : Z) : M objs unit :=
  c ← cq_at cq;
  set_cq cq (mk_cq (cq_channel c) (cq_context c) (cq_comp_events_completed c +{32} nevents) (cq_async_events_completed c)).

Definition set_qp_state (qp st : Z) : M objs unit :=
  modify (fun s => mk_objs (o_chans s) (o_cqs s) (<[qp := st]> (o_qps s)) (o_mutex s) (o_prov s)).

Definition ibv_modify_qp (qp qp_state attr_mask : Z) : M objs Z :=
  s ← get;
  demand UseAfterFree (o_qps s !! qp);;
  ret ← on_prov (modify_qp qp qp_state attr_mask);
  if negb (ret =? 0) then mret ret
  else
    (if negb (Z.land attr_mask IBV_QP_STATE =? 0) then set_qp_state qp qp_state else mret tt);;
    mret 0.

(** The result is an error and the state that the provider reports. *)
Definition ibv_query_qp (qp attr_mask : Z) : M objs (Z * Z) :=
  s ← get;
  demand UseAfterFree (o_qps s !! qp);;
  '(ret, st) ← on_prov (query_qp qp attr_mask);
  if negb (ret =? 0) then mret (ret, st)
  else
    (if negb (Z.land attr_mask IBV_QP_STATE =? 0) then set_qp_state qp st else mret tt);;
    mret (0, st).

End code.

(** ** Channels and their users *)

Section channels.
Context {P : ObjProvider} {PL : ObjProviderLaws P}.
Implicit Types (s : objs) (h : gmap Z ibv_cq).

(** How many queues use a channel. *)
Definition users h (ch : Z) : Z := Z.of_nat (size (filter (fun '(_, c) => cq_channel c = ch) h)).

Record obj_inv s : Prop := {
  oi_chans : forall p c, o_chans s !! p = Some c -> p <> 0 /\ ch_refcnt c = users (o_cqs s) p;
  oi_cqs : forall q c, o_cqs s !! q = Some c -> q <> 0 /\ (cq_channel c <> 0 -> is_Some (o_chans s !! cq_channel c));
  oi_mutex : o_mutex s = false }.

Lemma users_insert h q c ch : h !! q = None -> users (<[q := c]> h) ch = users h ch + (if bool_decide (cq_channel c = ch) then 1 else 0).
Proof.
  intros Hq. unfold users. case_bool_decide as E.
  - rewrite map_filter_insert_True by done. rewrite map_size_insert_None; [lia|]. by apply map_lookup_filter_None; left.
  - rewrite map_filter_insert_False by done. rewrite delete_id by done. lia.
Qed.

Lemma users_delete h q c ch : h !! q = Some c -> users (delete q h) ch = users h ch - (if bool_decide (cq_channel c = ch) then 1 else 0).
Proof. intros Hq. rewrite <- (insert_delete_id h q c Hq) at 2. rewrite users_insert by apply lookup_delete_eq. lia. Qed.

Lemma users_update h q c c' ch : h !! q = Some c -> cq_channel c' = cq_channel c -> users (<[q := c']> h) ch = users h ch.
Proof.
  intros Hq E. rewrite <- insert_delete_eq, users_insert by apply lookup_delete_eq. rewrite (users_delete _ _ _ _ Hq), E. lia.
Qed.

Lemma users_none h ch : users h ch = 0 <-> forall q c, h !! q = Some c -> cq_channel c <> ch.
Proof.
  unfold users. split.
  - intros E q c Hq Hc. assert (Hf : filter (fun '(_, c) => cq_channel c = ch) h !! q = Some c) by (by apply map_lookup_filter_Some).
    assert (E' : size (filter (fun '(_, c) => cq_channel c = ch) h) = 0%nat) by lia. apply map_size_empty_inv in E'. by rewrite E', lookup_empty in Hf.
  - intros Hall. replace (filter _ h) with (∅ : gmap Z ibv_cq); [done|]. symmetry. apply map_empty. intros q. apply map_lookup_filter_None.
    right. intros c Hq. by apply (Hall q c).
Qed.

Lemma wp_obj_prov {A} (f : prov -> A * prov) (Q : A -> objs -> Prop) s :
  Q (f (o_prov s)).1 (mk_objs (o_chans s) (o_cqs s) (o_qps s) (o_mutex s) (f (o_prov s)).2) -> wp (on_prov f) Q s.
Proof. done. Qed.

Lemma wp_chan_at s p c (Q : ibv_comp_channel -> objs -> Prop) : p <> 0 -> o_chans s !! p = Some c -> Q c s -> wp (chan_at p) Q s.
Proof. intros Hp Hc HQ. unfold chan_at. apply wp_bind, wp_get. rewrite (proj2 (Z.eqb_neq _ _) Hp). by rewrite Hc. Qed.

Lemma wp_cq_at s p c (Q : ibv_cq -> objs -> Prop) : p <> 0 -> o_cqs s !! p = Some c -> Q c s -> wp (cq_at p) Q s.
Proof. intros Hp Hc HQ. unfold cq_at. apply wp_bind, wp_get. rewrite (proj2 (Z.eqb_neq _ _) Hp). by rewrite Hc. Qed.

Lemma wp_lock s (Q : unit -> objs -> Prop) : o_mutex s = false -> Q tt (mk_objs (o_chans s) (o_cqs s) (o_qps s) true (o_prov s)) -> wp lock Q s.
Proof. intros Hm HQ. unfold wp, lock. by rewrite Hm. Qed.

Ltac o := cbn [o_chans o_cqs o_qps o_mutex o_prov].

Lemma wp_create_comp_channel s (Q : Z -> objs -> Prop) : obj_inv s -> (forall r s', obj_inv s' -> Q r s') -> wp ibv_create_comp_channel Q s.
Proof.
  intros [Hch Hcq Hm] HQ. unfold ibv_create_comp_channel. apply wp_bind, wp_get. apply wp_bind, wp_obj_prov.
  destruct (malloc (o_chans s) (o_prov s)) as [x o1] eqn:E. cbn [fst snd]. destruct (Z.eqb_spec x 0) as [->|Hx]; [apply wp_ret, HQ; by split|].
  destruct (malloc_fresh _ _ _ _ E) as [?|Hx']; [done|]. apply wp_bind, wp_obj_prov. o. destruct (create_channel_cmd o1) as [[err fd] o2]. cbn [fst snd].
  destruct (Z.eqb_spec err 0) as [->|He]; cbn [negb]; [|apply wp_ret, HQ; by split].
  apply wp_bind, wp_modify, wp_ret, HQ. split; o; [| |done].
  - intros p c [[<- <-]|[Hne Hp]]%lookup_insert_Some; [|by apply Hch]. split; [done|]. cbn. symmetry. apply users_none. intros q c Hq Hc.
    destruct (Hcq q c Hq) as [_ Hs]. rewrite Hc in Hs. destruct (Hs Hx) as [? ?]. congruence.
  - intros q c Hq. destruct (Hcq q c Hq) as [H0 Hs]. split; [done|]. intros Hc. apply lookup_insert_is_Some'. right. by apply Hs.
Qed.

(** A channel is destroyed when no queue uses it, and refused otherwise. *)
Lemma wp_destroy_comp_channel s ch c (Q : Z -> objs -> Prop) : obj_inv s -> o_chans s !! ch = Some c ->
  (users (o_cqs s) ch <> 0 -> Q EBUSY s) ->
  (users (o_cqs s) ch = 0 -> forall s', obj_inv s' -> o_chans s' = delete ch (o_chans s) -> o_cqs s' = o_cqs s -> Q 0 s') ->
  wp (ibv_destroy_comp_channel ch) Q s.
Proof.
  intros [Hch Hcq Hm] Hc Hbusy Hfree. destruct (Hch _ _ Hc) as [H0 Hr]. unfold ibv_destroy_comp_channel. apply wp_bind. eapply wp_chan_at; [done|exact Hc|].
  apply wp_bind, wp_lock; [done|]. apply wp_bind. eapply wp_chan_at; [done|exact Hc|]. apply wp_bind. rewrite Hr.
  destruct (Z.eqb_spec (users (o_cqs s) ch) 0) as [E|E]; cbn [negb].
  - apply wp_bind, wp_obj_prov. apply wp_bind, wp_modify, wp_ret. apply wp_bind, wp_modify, wp_ret. apply Hfree; [done| |done|done]. split; o; [| |done].
    + intros p c' [_ Hp]%lookup_delete_Some. by apply Hch.
    + intros q c' Hq. destruct (Hcq q c' Hq) as [Hq0 Hs]. split; [done|]. intros Hn. destruct (Hs Hn) as [x Hx]. exists x.
      rewrite lookup_delete_ne; [done|]. intros ->. exact (proj1 (users_none _ _) E q c' Hq eq_refl).
  - apply wp_ret. apply wp_bind, wp_modify, wp_ret. o. rewrite <- Hm. destruct s. by apply Hbusy.
Qed.

Lemma wp_create_cq s cqe ctx ch v (Q : Z -> objs -> Prop) : obj_inv s -> (ch = 0 \/ is_Some (o_chans s !! ch)) ->
  (forall r s', obj_inv s' -> Q r s') -> wp (ibv_create_cq cqe ctx ch v) Q s.
Proof.
  intros [Hch Hcq Hm] Hl HQ. unfold ibv_create_cq. apply wp_bind, wp_get. apply wp_bind, wp_obj_prov.
  destruct (create_cq (o_cqs s) cqe ch v (o_prov s)) as [x o1] eqn:E. cbn [fst snd]. apply wp_bind.
  destruct (Z.eqb_spec x 0) as [->|Hx]; cbn [negb]; [apply wp_ret, wp_ret, HQ; by split|].
  destruct (create_cq_fresh _ _ _ _ _ _ _ E) as [?|Hx']; [done|]. unfold verbs_init_cq. apply wp_bind, wp_modify. o. apply wp_bind.
  destruct (Z.eqb_spec ch 0) as [->|Hc0]; cbn [negb].
  - apply wp_ret, wp_modify, wp_ret, HQ. o. rewrite insert_insert_eq. split; o; [| |done].
    + intros p c Hp. destruct (Hch p c Hp) as [Hp0 Hr]. split; [done|]. rewrite users_insert by done. cbn. rewrite bool_decide_eq_false_2 by congruence. lia.
    + intros q c [[<- <-]|[Hne Hq]]%lookup_insert_Some; [done|by apply Hcq].
  - destruct Hl as [?|[c Hc]]; [done|]. apply wp_bind, wp_lock; [done|]. o. apply wp_bind. eapply wp_chan_at; [done|exact Hc|].
    apply wp_bind, wp_modify. o. apply wp_modify, wp_modify. o. apply wp_ret, HQ. rewrite insert_insert_eq. split; o; [| |done].
    + intros p c' Hp. rewrite users_insert by done. cbn. apply lookup_insert_Some in Hp as [[<- <-]|[Hne Hp]].
      * rewrite bool_decide_eq_true_2 by done. cbn. destruct (Hch _ _ Hc) as [_ Hr]. split; [done|]. by rewrite Hr.
      * rewrite bool_decide_eq_false_2 by done. destruct (Hch _ _ Hp). split; [done|]. lia.
    + intros q c' Hq. assert (Hmono : forall y, is_Some (o_chans s !! y) -> is_Some (<[ch := mk_chan (ch_fd c) (ch_refcnt c + 1)]> (o_chans s) !! y)) by
        (intros y Hy; apply lookup_insert_is_Some'; by right).
      apply lookup_insert_Some in Hq as [[<- <-]|[Hne Hq]]; [split; [done|]; intros _; cbn; eexists; apply lookup_insert_eq|].
      destruct (Hcq q c' Hq) as [Hq0 Hs]. split; [done|]. intros Hn. by apply Hmono, Hs.
Qed.

Lemma wp_destroy_cq s cq c (Q : Z -> objs -> Prop) : obj_inv s -> o_cqs s !! cq = Some c ->
  (forall r s', obj_inv s' -> Q r s') -> wp (ibv_destroy_cq cq) Q s.
Proof.
  intros [Hch Hcq Hm] Hc HQ. destruct (Hcq _ _ Hc) as [H0 Hs]. unfold ibv_destroy_cq. apply wp_bind. eapply wp_cq_at; [done|exact Hc|].
  apply wp_bind, wp_obj_prov. destruct (destroy_cq cq (o_prov s)) as [ret o1]. cbn [fst snd]. apply wp_bind.
  destruct (Z.eqb_spec ret 0) as [->|Hr]; [|apply wp_ret, wp_bind; rewrite andb_false_r; apply wp_ret, wp_ret, HQ; by split].
  apply wp_modify. o. apply wp_bind. rewrite andb_true_r. destruct (Z.eqb_spec (cq_channel c) 0) as [E|E]; cbn [negb].
  - apply wp_ret, wp_ret, HQ. split; o; [| |done].
    + intros p c' Hp. destruct (Hch _ _ Hp) as [Hp0 Hr]. split; [done|]. rewrite (users_delete _ _ _ _ Hc), bool_decide_eq_false_2 by congruence. lia.
    + intros q c' [_ Hq]%lookup_delete_Some. by apply Hcq.
  - destruct (Hs E) as [ch Hx]. apply wp_bind. eapply wp_chan_at; [done|exact Hx|]. apply wp_bind, wp_lock; [done|]. o.
    apply wp_bind. eapply wp_chan_at; [done|exact Hx|]. apply wp_bind, wp_modify. o. apply wp_modify. o. apply wp_ret, HQ. split; o; [| |done].
    + intros p c' Hp. rewrite (users_delete _ _ _ _ Hc). apply lookup_insert_Some in Hp as [[<- <-]|[Hne Hp]].
      * rewrite bool_decide_eq_true_2 by done. destruct (Hch _ _ Hx) as [_ Hr]. split; [done|]. cbn. by rewrite Hr.
      * rewrite bool_decide_eq_false_2 by done. destruct (Hch _ _ Hp). split; [done|]. lia.
    + intros q c' [_ Hq]%lookup_delete_Some. destruct (Hcq q c' Hq) as [Hq0 Hs']. split; [done|]. intros Hn. apply lookup_insert_is_Some'. right. by apply Hs'.
Qed.

Lemma wp_ack_cq_events s cq c n (Q : unit -> objs -> Prop) : obj_inv s -> o_cqs s !! cq = Some c ->
  (forall s', obj_inv s' -> Q tt s') -> wp (ibv_ack_cq_events cq n) Q s.
Proof.
  intros [Hch Hcq Hm] Hc HQ. destruct (Hcq _ _ Hc) as [H0 Hs]. unfold ibv_ack_cq_events. apply wp_bind. eapply wp_cq_at; [done|exact Hc|].
  apply wp_modify, HQ. split; o; [| |done].
  - intros p c' Hp. erewrite users_update; [by apply Hch|exact Hc|done].
  - intros q c' [[<- <-]|[Hne Hq]]%lookup_insert_Some; [done|by apply Hcq].
Qed.

(** An event names a completion queue that is still there. *)
Lemma wp_get_cq_event s ch c (Q : option (Z * Z) -> objs -> Prop) : obj_inv s -> o_chans s !! ch = Some c ->
  (forall q o, read_event (ch_fd c) (o_prov s) = (Some q, o) -> is_Some (o_cqs s !! q)) ->
  (forall r s', obj_inv s' -> Q r s') -> wp (ibv_get_cq_event ch) Q s.
Proof.
  intros [Hch Hcq Hm] Hc Hev HQ. unfold ibv_get_cq_event. apply wp_bind. eapply wp_chan_at; [by eapply Hch|exact Hc|].
  apply wp_bind, wp_obj_prov. destruct (read_event (ch_fd c) (o_prov s)) as [[q|] o1] eqn:E; cbn [fst snd]; [|apply wp_ret, HQ; by split].
  destruct (Hev q o1 eq_refl) as [x Hx]. apply wp_bind. eapply wp_cq_at; [by eapply Hcq|exact Hx|]. apply wp_bind, wp_obj_prov. o.
  apply wp_ret, HQ. by split.
Qed.

(** ** Sequences of calls *)

Inductive call : Set :=
  | CreateChannel | DestroyChannel (ch : Z) | CreateCq (cqe ctx ch v : Z) | DestroyCq (cq : Z)
  | GetCqEvent (ch : Z) | AckCqEvents (cq n : Z).

(** What the manual pages ask of the caller: handles of live objects.  An event that is
    read names a queue that was not destroyed: a queue is destroyed after its events were
    acknowledged. *)
Definition allowed s (c : call) : Prop :=
  match c with
  | CreateChannel => True
  | DestroyChannel ch => is_Some (o_chans s !! ch)
  | CreateCq _ _ ch _ => ch = 0 \/ is_Some (o_chans s !! ch)
  | DestroyCq cq | AckCqEvents cq _ => is_Some (o_cqs s !! cq)
  | GetCqEvent ch => exists c, o_chans s !! ch = Some c /\
      (forall q o, read_event (ch_fd c) (o_prov s) = (Some q, o) -> is_Some (o_cqs s !! q))
  end.

Definition perform (c : call) : M objs unit :=
  match c with
  | CreateChannel => ibv_create_comp_channel;; mret tt
  | DestroyChannel ch => ibv_destroy_comp_channel ch;; mret tt
  | CreateCq cqe ctx ch v => ibv_create_cq cqe ctx ch v;; mret tt
  | DestroyCq cq => ibv_destroy_cq cq;; mret tt
  | GetCqEvent ch => ibv_get_cq_event ch;; mret tt
  | AckCqEvents cq n => ibv_ack_cq_events cq n;; mret tt
  end.

Inductive obj_reach : objs -> Prop :=
  | obj_start p : obj_reach (mk_objs ∅ ∅ ∅ false p)
  | obj_step s c s' : obj_reach s -> allowed s c -> perform c s = Done tt s' -> obj_reach s'.

Lemma perform_ok s c : obj_inv s -> allowed s c -> wp (perform c) (fun _ => obj_inv) s.
Proof.
  intros Hi Ha. destruct c as [|ch|cqe ctx ch v|cq|ch|cq n]; cbn [perform allowed] in *; apply wp_bind.
  - apply wp_create_comp_channel; [done|]. by intros.
  - destruct Ha as [c Hc]. by eapply wp_destroy_comp_channel.
  - apply wp_create_cq; [done..|]. by intros.
  - destruct Ha as [c Hc]. by eapply wp_destroy_cq.
  - destruct Ha as (c & Hc & Hev). by eapply wp_get_cq_event.
  - destruct Ha as [c Hc]. by eapply wp_ack_cq_events.
Qed.

Lemma obj_reach_inv s : obj_reach s -> obj_inv s.
Proof.
  induction 1 as [p|s c s' _ IH Ha E]; [by split|]. pose proof (perform_ok s c IH Ha) as Hw. unfold wp in Hw. by rewrite E in Hw.
Qed.

(** C22: after any sequence of calls on live handles (the events of the kernel too name live
    queues), the reference count of a channel is the number of completion queues that use
    it and the lock is free; the next call on live handles returns without touching freed
    memory; destroying a channel is refused with EBUSY, and changes nothing, exactly while
    some queue uses it, so a queue never keeps a pointer to a channel that is gone. *)
Theorem channels_outlive_queues s : obj_reach s ->
  o_mutex s = false /\
  (forall ch c, o_chans s !! ch = Some c -> ch_refcnt c = users (o_cqs s) ch) /\
  (forall q c, o_cqs s !! q = Some c -> cq_channel c <> 0 -> is_Some (o_chans s !! cq_channel c)) /\
  (forall c, allowed s c -> exists s', perform c s = Done tt s') /\
  (forall ch, is_Some (o_chans s !! ch) -> exists s',
     if decide (users (o_cqs s) ch = 0) then ibv_destroy_comp_channel ch s = Done 0 s' /\ o_chans s' = delete ch (o_chans s) /\ o_cqs s' = o_cqs s
     else ibv_destroy_comp_channel ch s = Done EBUSY s).
Proof.
  intros Hr. pose proof (obj_reach_inv s Hr) as Hi. split; [by apply oi_mutex|]. split; [by intros ch c Hc; apply (oi_chans s Hi)|].
  split; [by intros q c Hq; apply (oi_cqs s Hi q c Hq)|]. split.
  - intros c Ha. destruct (proj1 (wp_run _ _ _) (perform_ok s c Hi Ha)) as ([] & s' & E & _). by exists s'.
  - intros ch [c Hc]. set (Q r s' := if decide (users (o_cqs s) ch = 0) then r = 0 /\ o_chans s' = delete ch (o_chans s) /\ o_cqs s' = o_cqs s else r = EBUSY /\ s' = s).
    assert (Hw : wp (ibv_destroy_comp_channel ch) Q s).
    { eapply wp_destroy_comp_channel; [exact Hi|exact Hc|..]; unfold Q.
      - intros Hn. by rewrite decide_False.
      - intros E s' _ E1 E2. by rewrite decide_True. }
    destruct (proj1 (wp_run _ _ _) Hw) as (r & s' & E & HQ). exists s'. unfold Q in HQ. rewrite E. case_decide; [by destruct HQ as (-> & ? & ?)|by destruct HQ as (-> & ->)].
Qed.

(** ** Queue pair states *)

(** The state that libibverbs keeps for a queue pair follows the calls that succeeded with
    [IBV_QP_STATE], and nothing else. *)
Lemma modify_qp_state s qp old st mask : o_qps s !! qp = Some old ->
  exists ret s', ibv_modify_qp qp st mask s = Done ret s' /\
    o_qps s' = (if (ret =? 0) && Z.odd mask then <[qp := st]> (o_qps s) else o_qps s).
Proof.
  intros Hq. unfold ibv_modify_qp. apply wp_run. apply wp_bind, wp_get. rewrite Hq. apply wp_bind, wp_ret, wp_bind, wp_obj_prov.
  destruct (modify_qp qp st mask (o_prov s)) as [ret o1]. cbn [fst snd]. assert (Em : negb (Z.land mask IBV_QP_STATE =? 0) = Z.odd mask).
  { unfold IBV_QP_STATE. change 1 with (Z.ones 1). rewrite Z.land_ones, Zmod_odd by lia. by destruct (Z.odd mask). }
  destruct (Z.eqb_spec ret 0) as [->|Hr]; cbn [negb]; [|apply wp_ret; by rewrite (proj2 (Z.eqb_neq _ _) Hr)]. apply wp_bind. rewrite Em.
  destruct (Z.odd mask); [by apply wp_modify, wp_ret|by apply wp_ret, wp_ret].
Qed.

End channels.

(** ** A provider *)

(** Addresses and descriptors are handed out in order; no event is ever read. *)
#[local] Instance demo_provider : ObjProvider := {|
  prov := unit;
  malloc h p := (1 + map_fold (fun k _ acc => Z.max k acc) 0 h, p);
  create_channel_cmd p := (0, 5, p);
  close _ p := p;
  create_cq h _ _ _ p := (1 + map_fold (fun k _ acc => Z.max k acc) 0 h, p);
  destroy_cq _ p := (0, p);
  cq_event _ p := p;
  read_event _ p := (None, p);
  modify_qp _ _ _ p := (0, p);
  query_qp _ _ p := (0, 3, p) |}.

Lemma above_all {A} (h : gmap Z A) k x : h !! k = Some x -> k <= map_fold (fun k _ acc => Z.max k acc) 0 h.
Proof.
  revert k x. induction h as [|i y m Hi Hf IH] using map_first_key_ind; [done|]. intros k x Hk.
  rewrite map_fold_insert_first_key by done. apply lookup_insert_Some in Hk as [[-> ->]|[_ Hk]]; [lia|]. specialize (IH _ _ Hk). lia.
Qed.

#[local] Instance demo_obj_laws : ObjProviderLaws demo_provider.
Proof.
  assert (Hf : forall A (h : gmap Z A) x, 1 + map_fold (fun k _ acc => Z.max k acc) 0 h = x -> h !! x = None).
  { intros A h x <-. apply eq_None_not_Some. intros [y Hy]. apply above_all in Hy. lia. }
  split; cbn; intros; right; eapply Hf; congruence.
Qed.

(** A channel with one queue on it. *)
Definition demo_objs : @objs demo_provider := mk_objs {[1 := mk_chan 5 1]} {[1 := mk_cq 1 7 0 0]} ∅ false (tt : @prov demo_provider).

Lemma demo_objs_reach : obj_reach demo_objs.
Proof.
  eapply (obj_step (mk_objs {[1 := mk_chan 5 0]} ∅ ∅ false (tt : @prov demo_provider)) (CreateCq 16 7 1 0)); [|right; by eexists|vm_compute; reflexivity].
  eapply (obj_step _ CreateChannel); [apply (obj_start (tt : @prov demo_provider))|done|vm_compute; reflexivity].
Qed.

Lemma channels_outlive_queues_witness : ibv_destroy_comp_channel 1 demo_objs = Done EBUSY demo_objs.
Proof.
  pose proof (channels_outlive_queues demo_objs demo_objs_reach) as (_ & _ & _ & _ & Hd).
  destruct (Hd 1) as [s' E]; [by eexists|]. rewrite decide_False in E by (vm_compute; discriminate). exact E.
Defined.
