(* ===== verification/UverbsCmd.v ===== *)
(** * The commands of libibverbs for queue pairs and work requests

    Models [libibverbs/cmd.c] (modifying and querying a queue pair, posting
    work requests, polling, address handles), the header that
    [cmd_fallback.c] puts before a command, and the copies of
    [libibverbs/marshall.c], over the structures of [libibverbs/verbs.h],
    [libibverbs/sa.h] and [kernel-headers/rdma/ib_user_verbs.h].

    A C structure is a record of integers; an assignment to a narrower member
    is a [wrap], one to a signed member a [to_signed].  The kernel at the
    other end of the command file is the class [Uverbs]; its documented
    behaviour is the class [UverbsLaws].  A list of work requests is the list
    of its elements, and a pointer into it a position. *)

From stdpp Require Import base sets list option numbers.
From Stdlib Require Import ZArith Lia.
From S2P Require Import Prelude.

Local Open Scope Z_scope.
Local Open Scope cint_scope.

(** ** The structures *)

Record ibv_ah_attr : Set := mk_ah_attr {
  ah_dgid : list Z; ah_flow_label : Z; ah_sgid_index : Z; ah_hop_limit : Z; ah_traffic_class : Z;
  ah_dlid : Z; ah_sl : Z; ah_src_path_bits : Z; ah_static_rate : Z; ah_is_global : Z; ah_port_num : Z }.

Record ibv_qp_cap : Set := mk_cap {
  max_send_wr : Z; max_recv_wr : Z; max_send_sge : Z; max_recv_sge : Z; max_inline_data : Z }.

Record ibv_qp_attr : Set := mk_qp_attr {
  a_qp_state : Z; a_cur_qp_state : Z; a_path_mtu : Z; a_path_mig_state : Z; a_qkey : Z; a_rq_psn : Z; a_sq_psn : Z;
  a_dest_qp_num : Z; a_qp_access_flags : Z; a_cap : ibv_qp_cap; a_ah_attr : ibv_ah_attr; a_alt_ah_attr : ibv_ah_attr;
  a_pkey_index : Z; a_alt_pkey_index : Z; a_en_sqd_async_notify : Z; a_sq_draining : Z; a_max_rd_atomic : Z;
  a_max_dest_rd_atomic : Z; a_min_rnr_timer : Z; a_port_num : Z; a_timeout : Z; a_retry_cnt : Z; a_rnr_retry : Z;
  a_alt_port_num : Z; a_alt_timeout : Z; a_rate_limit : Z }.

Record ibv_qp : Set := mk_qp {
  qp_handle : Z; qp_context : Z; qp_send_cq : Z; qp_recv_cq : Z; qp_srq : Z; qp_type : Z }.

Record ibv_qp_init_attr : Set := mk_init_attr {
  i_qp_context : Z; i_send_cq : Z; i_recv_cq : Z; i_srq : Z; i_cap : ibv_qp_cap; i_qp_type : Z; i_sq_sig_all : Z }.

(** The kernel's structures; members named [reserved] are left out where the
    code leaves them unset or sets them to zero. *)
Record ib_uverbs_qp_dest : Set := mk_dest {
  d_dgid : list Z; d_flow_label : Z; d_dlid : Z; d_sgid_index : Z; d_hop_limit : Z; d_traffic_class : Z;
  d_sl : Z; d_src_path_bits : Z; d_static_rate : Z; d_is_global : Z; d_port_num : Z }.

Record ib_uverbs_modify_qp : Set := mk_modify_qp {
  m_dest : ib_uverbs_qp_dest; m_alt_dest : ib_uverbs_qp_dest; m_qp_handle : Z; m_attr_mask : Z; m_qkey : Z;
  m_rq_psn : Z; m_sq_psn : Z; m_dest_qp_num : Z; m_qp_access_flags : Z; m_pkey_index : Z; m_alt_pkey_index : Z;
  m_qp_state : Z; m_cur_qp_state : Z; m_path_mtu : Z; m_path_mig_state : Z; m_en_sqd_async_notify : Z;
  m_max_rd_atomic : Z; m_max_dest_rd_atomic : Z; m_min_rnr_timer : Z; m_port_num : Z; m_timeout : Z;
  m_retry_cnt : Z; m_rnr_retry : Z; m_alt_port_num : Z; m_alt_timeout : Z }.

Record ib_uverbs_query_qp_resp : Set := mk_query_qp_resp {
  q_dest : ib_uverbs_qp_dest; q_alt_dest : ib_uverbs_qp_dest; q_cap : ibv_qp_cap; q_qkey : Z; q_rq_psn : Z; q_sq_psn : Z;
  q_dest_qp_num : Z; q_qp_access_flags : Z; q_pkey_index : Z; q_alt_pkey_index : Z; q_qp_state : Z; q_cur_qp_state : Z;
  q_path_mtu : Z; q_path_mig_state : Z; q_sq_draining : Z; q_max_rd_atomic : Z; q_max_dest_rd_atomic : Z;
  q_min_rnr_timer : Z; q_port_num : Z; q_timeout : Z; q_retry_cnt : Z; q_rnr_retry : Z; q_alt_port_num : Z;
  q_alt_timeout : Z; q_sq_sig_all : Z }.

Record ib_uverbs_qp_attr : Set := mk_kern_qp_attr {
  k_qp_state : Z; k_cur_qp_state : Z; k_path_mtu : Z; k_path_mig_state : Z; k_qkey : Z; k_rq_psn : Z; k_sq_psn : Z;
  k_dest_qp_num : Z; k_qp_access_flags : Z; k_ah_attr : ibv_ah_attr; k_alt_ah_attr : ibv_ah_attr; k_cap : ibv_qp_cap;
  k_pkey_index : Z; k_alt_pkey_index : Z; k_en_sqd_async_notify : Z; k_sq_draining : Z; k_max_rd_atomic : Z;
  k_max_dest_rd_atomic : Z; k_min_rnr_timer : Z; k_port_num : Z; k_timeout : Z; k_retry_cnt : Z; k_rnr_retry : Z;
  k_alt_port_num : Z; k_alt_timeout : Z }.

Record ibv_sa_path_rec : Set := mk_path_rec {
  p_dgid : list Z; p_sgid : list Z; p_dlid : Z; p_slid : Z; p_raw_traffic : Z; p_flow_label : Z; p_hop_limit : Z;
  p_traffic_class : Z; p_reversible : Z; p_numb_path : Z; p_pkey : Z; p_sl : Z; p_mtu_selector : Z; p_mtu : Z;
  p_rate_selector : Z; p_rate : Z; p_packet_life_time_selector : Z; p_packet_life_time : Z; p_preference : Z }.

Record ib_user_path_rec : Set := mk_user_path_rec {
  u_dgid : list Z; u_sgid : list Z; u_dlid : Z; u_slid : Z; u_raw_traffic : Z; u_flow_label : Z; u_reversible : Z;
  u_mtu : Z; u_pkey : Z; u_hop_limit : Z; u_traffic_class : Z; u_numb_path : Z; u_sl : Z; u_mtu_selector : Z;
  u_rate_selector : Z; u_rate : Z; u_packet_life_time_selector : Z; u_packet_life_time : Z; u_preference : Z }.

(** ** The copies of marshall.c *)

Definition ibv_copy_ah_attr_from_kern (src : ibv_ah_attr) : ibv_ah_attr :=
  mk_ah_attr (take 16 (ah_dgid src)) (ah_flow_label src) (ah_sgid_index src) (ah_hop_limit src) (ah_traffic_class src)
    (ah_dlid src) (ah_sl src) (ah_src_path_bits src) (ah_static_rate src) (ah_is_global src) (ah_port_num src).

(** [dst] keeps [qp_state] and [rate_limit]. *)
Definition ibv_copy_qp_attr_from_kern (dst : ibv_qp_attr) (src : ib_uverbs_qp_attr) : ibv_qp_attr :=
  mk_qp_attr (a_qp_state dst) (k_cur_qp_state src) (k_path_mtu src) (k_path_mig_state src) (k_qkey src) (k_rq_psn src)
    (k_sq_psn src) (k_dest_qp_num src) (k_qp_access_flags src) (k_cap src)
    (ibv_copy_ah_attr_from_kern (k_ah_attr src)) (ibv_copy_ah_attr_from_kern (k_alt_ah_attr src))
    (k_pkey_index src) (k_alt_pkey_index src) (k_en_sqd_async_notify src) (k_sq_draining src) (k_max_rd_atomic src)
    (k_max_dest_rd_atomic src) (k_min_rnr_timer src) (k_port_num src) (k_timeout src) (k_retry_cnt src) (k_rnr_retry src)
    (k_alt_port_num src) (k_alt_timeout src) (a_rate_limit dst).

Definition ibv_copy_path_rec_from_kern (src : ib_user_path_rec) : ibv_sa_path_rec :=
  mk_path_rec (take 16 (u_dgid src)) (take 16 (u_sgid src)) (u_dlid src) (u_slid src) (to_signed 32 (u_raw_traffic src))
    (u_flow_label src) (u_hop_limit src) (u_traffic_class src) (to_signed 32 (u_reversible src)) (u_numb_path src)
    (u_pkey src) (u_sl src) (u_mtu_selector src) (wrap 8 (u_mtu src)) (u_rate_selector src) (u_rate src)
    (u_packet_life_time_selector src) (u_packet_life_time src) (u_preference src).

Definition ibv_copy_path_rec_to_kern (src : ibv_sa_path_rec) : ib_user_path_rec :=
  mk_user_path_rec (take 16 (p_dgid src)) (take 16 (p_sgid src)) (p_dlid src) (p_slid src) (wrap 32 (p_raw_traffic src))
    (p_flow_label src) (wrap 32 (p_reversible src)) (p_mtu src) (p_pkey src) (p_hop_limit src) (p_traffic_class src)
    (p_numb_path src) (p_sl src) (p_mtu_selector src) (p_rate_selector src) (p_rate src)
    (p_packet_life_time_selector src) (p_packet_life_time src) (p_preference src).

(** ** The kernel behind the command file *)

(** What precedes a command: the header of the write interface (with the
    number of bytes written), its extended form, or the attributes of the
    ioctl. *)
Inductive ib_hdr : Set :=
| HdrWrite (command in_words out_words req_size : Z)
| HdrWriteEx (command in_words out_words provider_in_words provider_out_words req_size : Z)
| HdrIoctl (write_method core_in core_out uhw_in uhw_out : Z).

Record ibv_sge : Set := mk_sge { sge_addr : Z; sge_length : Z; sge_lkey : Z }.

(** The part of the union [wr] the code has written. *)
Inductive send_wr_union : Set :=
| WrUnset
| WrRdma (remote_addr rkey : Z)
| WrAtomic (remote_addr compare_add swap rkey : Z)
| WrUd (ah remote_qpn remote_qkey : Z).

Record ib_uverbs_send_wr : Set := mk_uverbs_send_wr {
  us_wr_id : Z; us_num_sge : Z; us_opcode : Z; us_send_flags : Z; us_imm_data : Z; us_wr : send_wr_union }.

Record ib_uverbs_recv_wr : Set := mk_uverbs_recv_wr { ur_wr_id : Z; ur_num_sge : Z }.

(** [ib_uverbs_post_send], [ib_uverbs_post_recv] and
    [ib_uverbs_post_srq_recv]: the work requests, then all their elements. *)
Record ib_uverbs_post (W : Set) : Set := mk_post {
  post_handle : Z; wr_count : Z; sge_count : Z; wqe_size : Z; post_wrs : list W; post_sges : list ibv_sge }.
Arguments mk_post {W}.
Arguments post_handle {W}.
Arguments wr_count {W}.
Arguments sge_count {W}.
Arguments wqe_size {W}.
Arguments post_wrs {W}.
Arguments post_sges {W}.

Record ib_uverbs_wc : Set := mk_uverbs_wc {
  uw_wr_id : Z; uw_status : Z; uw_opcode : Z; uw_vendor_err : Z; uw_byte_len : Z; uw_imm_data : Z; uw_qp_num : Z;
  uw_src_qp : Z; uw_wc_flags : Z; uw_pkey_index : Z; uw_slid : Z; uw_sl : Z; uw_dlid_path_bits : Z; uw_port_num : Z }.

Record ibv_wc : Set := mk_wc {
  wc_wr_id : Z; wc_status : Z; wc_opcode : Z; wc_vendor_err : Z; wc_byte_len : Z; wc_imm_data : Z; wc_qp_num : Z;
  wc_src_qp : Z; wc_wc_flags : Z; wc_pkey_index : Z; wc_slid : Z; wc_sl : Z; wc_dlid_path_bits : Z }.

(** Every command gives the error number, zero for success, and the response
    when the kernel has written one. *)
Class Uverbs : Type := {
  kst : Type;
  answer (A : Type) := kst -> Z * option A * kst;
  k_modify_qp : ib_hdr -> ib_uverbs_modify_qp -> answer unit;
  k_modify_qp_ex : ib_hdr -> ib_uverbs_modify_qp -> option Z -> answer unit;
  k_query_qp : ib_hdr -> Z -> Z -> answer ib_uverbs_query_qp_resp;
  k_post_send : ib_hdr -> ib_uverbs_post ib_uverbs_send_wr -> answer Z;
  k_post_recv : ib_hdr -> ib_uverbs_post ib_uverbs_recv_wr -> answer Z;
  k_post_srq_recv : ib_hdr -> ib_uverbs_post ib_uverbs_recv_wr -> answer Z;
  k_poll_cq : ib_hdr -> Z -> Z -> answer (list ib_uverbs_wc);
  k_create_ah : ib_hdr -> Z -> ibv_ah_attr -> answer Z;
  k_req_notify_cq : ib_hdr -> Z -> Z -> answer unit;
  (** The attributes of a queue pair that are valid in its state, as a mask. *)
  k_valid : kst -> Z -> Z;
}.

Record ibv_context : Set := mk_context { VERBS_WRITE_ONLY : bool; VERBS_IOCTL_ONLY : bool; use_ioctl_write : bool }.

Definition IB_USER_VERBS_CMD_CREATE_AH : Z := 5.
Definition IB_USER_VERBS_CMD_POLL_CQ : Z := 21.
Definition IB_USER_VERBS_CMD_REQ_NOTIFY_CQ : Z := 23.
Definition IB_USER_VERBS_CMD_QUERY_QP : Z := 25.
Definition IB_USER_VERBS_CMD_MODIFY_QP : Z := 26.
Definition IB_USER_VERBS_CMD_POST_SEND : Z := 28.
Definition IB_USER_VERBS_CMD_POST_RECV : Z := 29.
Definition IB_USER_VERBS_CMD_POST_SRQ_RECV : Z := 36.
Definition IB_USER_VERBS_CMD_FLAG_EXTENDED : Z := 2 ^ 31.

(** The sizes of [ib_uverbs_cmd_hdr] and of [ex_hdr]. *)
Definition SIZEOF_CMD_HDR : Z := 8.
Definition SIZEOF_EX_HDR : Z := 24.

Section commands.
Context {K : Uverbs}.

Definition syscall {A} (k : answer A) : M kst (Z * option A) := fun s => let '(ret, resp, s') := k s in Done (ret, resp) s'.

(** An attribute longer than 65535 bytes is refused before the call. *)
Definition ioctl_write {A} (kernel : ib_hdr -> answer A) (write_method core_req_size req_size core_resp_size resp_size : Z) :
    M kst (Z * option A) :=
  let uhw_in := req_size -{64} core_req_size in
  let uhw_out := resp_size -{64} core_resp_size in
  if (UINT16_MAX <? core_req_size) || (UINT16_MAX <? core_resp_size) || (UINT16_MAX <? uhw_in) || (UINT16_MAX <? uhw_out)
  then mret (EINVAL, None)
  else syscall (kernel (HdrIoctl write_method core_req_size core_resp_size uhw_in uhw_out)).

Definition check_divide (val div : Z) : M kst Z := _ ← c_assert (val mod div =? 0); mret (val / div).

Definition ioctl_path (ctx : ibv_context) : bool := negb (VERBS_WRITE_ONLY ctx) && (VERBS_IOCTL_ONLY ctx || use_ioctl_write ctx).

Definition _execute_cmd_write {A} (ctx : ibv_context) (kernel : ib_hdr -> answer A)
    (write_method core_req_size req_size core_resp_size resp_size : Z) : M kst (Z * option A) :=
  if ioctl_path ctx then
    ioctl_write kernel write_method (core_req_size - SIZEOF_CMD_HDR) (req_size - SIZEOF_CMD_HDR) core_resp_size resp_size
  else
    in_words ← check_divide req_size 4;
    out_words ← check_divide resp_size 4;
    syscall (kernel (HdrWrite write_method (wrap 16 in_words) (wrap 16 out_words) req_size)).

Definition _execute_cmd_write_ex {A} (ctx : ibv_context) (kernel : ib_hdr -> answer A)
    (write_method core_req_size req_size core_resp_size resp_size : Z) : M kst (Z * option A) :=
  let command := Z.lor IB_USER_VERBS_CMD_FLAG_EXTENDED write_method in
  if ioctl_path ctx then
    ioctl_write kernel command (core_req_size - SIZEOF_EX_HDR) (req_size - SIZEOF_EX_HDR) core_resp_size resp_size
  else
    in_words ← check_divide (core_req_size - SIZEOF_EX_HDR) 8;
    out_words ← check_divide core_resp_size 8;
    provider_in_words ← check_divide (req_size -{64} core_req_size) 8;
    provider_out_words ← check_divide (resp_size -{64} core_resp_size) 8;
    syscall (kernel (HdrWriteEx command (wrap 16 in_words) (wrap 16 out_words)
      (wrap 16 provider_in_words) (wrap 16 provider_out_words) req_size)).

(** ** Modifying and querying a queue pair *)

Definition IBV_QP_STATE : Z := 2 ^ 0.
Definition IBV_QP_CUR_STATE : Z := 2 ^ 1.
Definition IBV_QP_EN_SQD_ASYNC_NOTIFY : Z := 2 ^ 2.
Definition IBV_QP_ACCESS_FLAGS : Z := 2 ^ 3.
Definition IBV_QP_PKEY_INDEX : Z := 2 ^ 4.
Definition IBV_QP_PORT : Z := 2 ^ 5.
Definition IBV_QP_QKEY : Z := 2 ^ 6.
Definition IBV_QP_AV : Z := 2 ^ 7.
Definition IBV_QP_PATH_MTU : Z := 2 ^ 8.
Definition IBV_QP_TIMEOUT : Z := 2 ^ 9.
Definition IBV_QP_RETRY_CNT : Z := 2 ^ 10.
Definition IBV_QP_RNR_RETRY : Z := 2 ^ 11.
Definition IBV_QP_RQ_PSN : Z := 2 ^ 12.
Definition IBV_QP_MAX_QP_RD_ATOMIC : Z := 2 ^ 13.
Definition IBV_QP_ALT_PATH : Z := 2 ^ 14.
Definition IBV_QP_MIN_RNR_TIMER : Z := 2 ^ 15.
Definition IBV_QP_SQ_PSN : Z := 2 ^ 16.
Definition IBV_QP_MAX_DEST_RD_ATOMIC : Z := 2 ^ 17.
Definition IBV_QP_PATH_MIG_STATE : Z := 2 ^ 18.
Definition IBV_QP_CAP : Z := 2 ^ 19.
Definition IBV_QP_DEST_QPN : Z := 2 ^ 20.
Definition IBV_QP_RATE_LIMIT : Z := 2 ^ 25.

Definition masked (attr_mask bit : Z) : bool := negb (Z.land attr_mask bit =? 0).

(** [dest], filled from an address vector. *)
Definition dest_of (a : ibv_ah_attr) : ib_uverbs_qp_dest :=
  mk_dest (take 16 (ah_dgid a)) (ah_flow_label a) (ah_dlid a) (ah_sgid_index a) (ah_hop_limit a) (ah_traffic_class a)
    (ah_sl a) (ah_src_path_bits a) (ah_static_rate a) (ah_is_global a) (ah_port_num a).

(** The members outside the mask keep what the caller's buffer holds. *)
Definition copy_modify_qp_fields (qp : ibv_qp) (attr : ibv_qp_attr) (attr_mask : Z) (cmd : ib_uverbs_modify_qp) : ib_uverbs_modify_qp :=
  let upd {A} (bit : Z) (new old : A) := if masked attr_mask bit then new else old in
  mk_modify_qp (upd IBV_QP_AV (dest_of (a_ah_attr attr)) (m_dest cmd))
    (upd IBV_QP_ALT_PATH (dest_of (a_alt_ah_attr attr)) (m_alt_dest cmd))
    (qp_handle qp) (wrap 32 attr_mask)
    (upd IBV_QP_QKEY (a_qkey attr) (m_qkey cmd))
    (upd IBV_QP_RQ_PSN (a_rq_psn attr) (m_rq_psn cmd))
    (upd IBV_QP_SQ_PSN (a_sq_psn attr) (m_sq_psn cmd))
    (upd IBV_QP_DEST_QPN (a_dest_qp_num attr) (m_dest_qp_num cmd))
    (upd IBV_QP_ACCESS_FLAGS (a_qp_access_flags attr) (m_qp_access_flags cmd))
    (upd IBV_QP_PKEY_INDEX (a_pkey_index attr) (m_pkey_index cmd))
    (upd IBV_QP_ALT_PATH (a_alt_pkey_index attr) (m_alt_pkey_index cmd))
    (upd IBV_QP_STATE (wrap 8 (a_qp_state attr)) (m_qp_state cmd))
    (upd IBV_QP_CUR_STATE (wrap 8 (a_cur_qp_state attr)) (m_cur_qp_state cmd))
    (upd IBV_QP_PATH_MTU (wrap 8 (a_path_mtu attr)) (m_path_mtu cmd))
    (upd IBV_QP_PATH_MIG_STATE (wrap 8 (a_path_mig_state attr)) (m_path_mig_state cmd))
    (upd IBV_QP_EN_SQD_ASYNC_NOTIFY (a_en_sqd_async_notify attr) (m_en_sqd_async_notify cmd))
    (upd IBV_QP_MAX_QP_RD_ATOMIC (a_max_rd_atomic attr) (m_max_rd_atomic cmd))
    (upd IBV_QP_MAX_DEST_RD_ATOMIC (a_max_dest_rd_atomic attr) (m_max_dest_rd_atomic cmd))
    (upd IBV_QP_MIN_RNR_TIMER (a_min_rnr_timer attr) (m_min_rnr_timer cmd))
    (upd IBV_QP_PORT (a_port_num attr) (m_port_num cmd))
    (upd IBV_QP_TIMEOUT (a_timeout attr) (m_timeout cmd))
    (upd IBV_QP_RETRY_CNT (a_retry_cnt attr) (m_retry_cnt cmd))
    (upd IBV_QP_RNR_RETRY (a_rnr_retry attr) (m_rnr_retry cmd))
    (upd IBV_QP_ALT_PATH (a_alt_port_num attr) (m_alt_port_num cmd))
    (upd IBV_QP_ALT_PATH (a_alt_timeout attr) (m_alt_timeout cmd)).

(** [attr_mask & ~(IBV_QP_RATE_LIMIT - 1)], on an [int]. *)
Definition beyond_write (attr_mask : Z) : bool := negb (Z.land attr_mask (Z.lnot (IBV_QP_RATE_LIMIT - 1)) =? 0).

Definition SIZEOF_MODIFY_QP : Z := 120.
Definition SIZEOF_MODIFY_QP_EX : Z := 144.
Definition SIZEOF_QUERY_QP : Z := 24.
Definition SIZEOF_QUERY_QP_RESP : Z := 128.

Definition ibv_cmd_modify_qp (ctx : ibv_context) (qp : ibv_qp) (attr : ibv_qp_attr) (attr_mask : Z)
    (cmd : ib_uverbs_modify_qp) (cmd_size : Z) : M kst Z :=
  if beyond_write attr_mask then mret EOPNOTSUPP
  else
    let cmd := copy_modify_qp_fields qp attr attr_mask cmd in
    '(ret, _) ← _execute_cmd_write ctx (fun h => k_modify_qp h cmd) IB_USER_VERBS_CMD_MODIFY_QP SIZEOF_MODIFY_QP cmd_size 0 0;
    mret ret.

(** The offset of [rate_limit] is 136. *)
Definition ibv_cmd_modify_qp_ex (ctx : ibv_context) (qp : ibv_qp) (attr : ibv_qp_attr) (attr_mask : Z)
    (cmd : ib_uverbs_modify_qp) (rate_limit : option Z) (cmd_size resp_size : Z) : M kst Z :=
  let cmd := copy_modify_qp_fields qp attr attr_mask cmd in
  let execute rate_limit :=
    '(ret, _) ← _execute_cmd_write_ex ctx (fun h => k_modify_qp_ex h cmd rate_limit) IB_USER_VERBS_CMD_MODIFY_QP
      SIZEOF_MODIFY_QP_EX cmd_size 8 resp_size;
    mret ret in
  if masked attr_mask IBV_QP_RATE_LIMIT then
    if 136 + 4 <=? cmd_size then execute (Some (a_rate_limit attr)) else mret EINVAL
  else execute rate_limit.

(** [ah_attr], filled from the response; the array of the kernel has 16 bytes. *)
Definition ah_of_dest (d : ib_uverbs_qp_dest) : ibv_ah_attr :=
  mk_ah_attr (take 16 (d_dgid d)) (d_flow_label d) (d_sgid_index d) (d_hop_limit d) (d_traffic_class d)
    (d_dlid d) (d_sl d) (d_src_path_bits d) (d_static_rate d) (d_is_global d) (d_port_num d).

(** [attr] keeps [en_sqd_async_notify] and [rate_limit]. *)
Definition query_attr (attr : ibv_qp_attr) (resp : ib_uverbs_query_qp_resp) : ibv_qp_attr :=
  mk_qp_attr (q_qp_state resp) (q_cur_qp_state resp) (q_path_mtu resp) (q_path_mig_state resp) (q_qkey resp)
    (q_rq_psn resp) (q_sq_psn resp) (q_dest_qp_num resp) (q_qp_access_flags resp) (q_cap resp)
    (ah_of_dest (q_dest resp)) (ah_of_dest (q_alt_dest resp)) (q_pkey_index resp) (q_alt_pkey_index resp)
    (a_en_sqd_async_notify attr) (q_sq_draining resp) (q_max_rd_atomic resp) (q_max_dest_rd_atomic resp)
    (q_min_rnr_timer resp) (q_port_num resp) (q_timeout resp) (q_retry_cnt resp) (q_rnr_retry resp)
    (q_alt_port_num resp) (q_alt_timeout resp) (a_rate_limit attr).

Definition ibv_cmd_query_qp (ctx : ibv_context) (qp : ibv_qp) (attr : ibv_qp_attr) (attr_mask : Z)
    (init_attr : ibv_qp_init_attr) (cmd_size : Z) : M kst (Z * ibv_qp_attr * ibv_qp_init_attr) :=
  if beyond_write attr_mask then mret (EOPNOTSUPP, attr, init_attr)
  else
    '(ret, resp) ← _execute_cmd_write ctx (fun h => k_query_qp h (qp_handle qp) (wrap 32 attr_mask)) IB_USER_VERBS_CMD_QUERY_QP
      SIZEOF_QUERY_QP cmd_size SIZEOF_QUERY_QP_RESP SIZEOF_QUERY_QP_RESP;
    if negb (ret =? 0) then mret (ret, attr, init_attr)
    else
      resp ← demand ApiMisuse resp;
      mret (0, query_attr attr resp,
            mk_init_attr (qp_context qp) (qp_send_cq qp) (qp_recv_cq qp) (qp_srq qp) (q_cap resp) (qp_type qp) (q_sq_sig_all resp)).

(** ** Posting work requests *)

(** The union [wr] of a work request, as its four words: [rdma] is
    [remote_addr] in the first and [rkey] in the low half of the second,
    [atomic] the three words and [rkey] in the fourth, [ud] the pointer [ah],
    then [remote_qpn] and [remote_qkey] in the halves of the second. *)
Record wr_words : Set := mk_words { w0 : Z; w1 : Z; w2 : Z; w3 : Z }.

Record ibv_send_wr : Set := mk_send_wr {
  s_wr_id : Z; s_sg_list : list ibv_sge; s_num_sge : Z; s_opcode : Z; s_send_flags : Z; s_imm_data : Z; s_wr : wr_words }.

Record ibv_recv_wr : Set := mk_recv_wr { r_wr_id : Z; r_sg_list : list ibv_sge; r_num_sge : Z }.

Definition IBV_QPT_UD : Z := 4.
Definition IBV_WR_RDMA_WRITE : Z := 0.
Definition IBV_WR_RDMA_WRITE_WITH_IMM : Z := 1.
Definition IBV_WR_RDMA_READ : Z := 4.
Definition IBV_WR_ATOMIC_CMP_AND_SWP : Z := 5.
Definition IBV_WR_ATOMIC_FETCH_AND_ADD : Z := 6.

(** The handle of the [ibv_ah] at an address. *)
Context (ah_handle : Z -> option Z).

Definition send_union (type opcode : Z) (wr : wr_words) : M kst send_wr_union :=
  if type =? IBV_QPT_UD then
    ah ← demand NullDeref (ah_handle (w0 wr));
    mret (WrUd ah (wrap 32 (w1 wr)) (wrap 32 (Z.shiftr (w1 wr) 32)))
  else if (opcode =? IBV_WR_RDMA_WRITE) || (opcode =? IBV_WR_RDMA_WRITE_WITH_IMM) || (opcode =? IBV_WR_RDMA_READ) then
    mret (WrRdma (w0 wr) (wrap 32 (w1 wr)))
  else if (opcode =? IBV_WR_ATOMIC_CMP_AND_SWP) || (opcode =? IBV_WR_ATOMIC_FETCH_AND_ADD) then
    mret (WrAtomic (w0 wr) (w1 wr) (w2 wr) (wrap 32 (w3 wr)))
  else mret WrUnset.

Definition send_to_kern (type : Z) (i : ibv_send_wr) : M kst ib_uverbs_send_wr :=
  u ← send_union type (s_opcode i) (s_wr i);
  mret (mk_uverbs_send_wr (s_wr_id i) (wrap 32 (s_num_sge i)) (s_opcode i) (s_send_flags i) (s_imm_data i) u).

Definition recv_to_kern (i : ibv_recv_wr) : M kst ib_uverbs_recv_wr :=
  mret (mk_uverbs_recv_wr (r_wr_id i) (wrap 32 (r_num_sge i))).

(** The sizes of the command with its header, of the work requests and of an
    element. *)
Definition SIZEOF_POST : Z := 32.
Definition SIZEOF_SEND_WR : Z := 56.
Definition SIZEOF_RECV_WR : Z := 16.
Definition SIZEOF_SGE : Z := 16.

Section lists.
Context {U W : Set} (sizeof_n : Z) (to_kern : U -> M kst W) (sg_list : U -> list ibv_sge) (num_sge : U -> Z).

Definition count_wrs (wr : list U) : Z := foldl (fun c _ => c +{32} 1) 0 wr.
Definition count_sges (wr : list U) : Z := foldl (fun c i => c +{32} num_sge i) 0 wr.

(** [cmd_size] is an [int]. *)
Definition cmd_size_of (wr : list U) : Z :=
  to_signed 32 (wrap 32 (SIZEOF_POST + count_wrs wr * sizeof_n + count_sges wr * SIZEOF_SGE)).

(** A write that ends at byte [last] of a buffer of [cmd_size] bytes. *)
Definition fits (cmd_size last : Z) : M kst unit := if last <=? cmd_size then mret tt else fail OutOfBounds.

(** The second loop: [n] and [s] hold what has been written. *)
Fixpoint fill (cmd_size wr_count : Z) (wr : list U) (n : list W) (s : list ibv_sge) : M kst (list W * list ibv_sge) :=
  match wr with
  | [] => mret (n, s)
  | i :: rest =>
      _ ← fits cmd_size (SIZEOF_POST + (Z.of_nat (length n) + 1) * sizeof_n);
      tmp ← to_kern i;
      let num := wrap 32 (num_sge i) in
      if num =? 0 then fill cmd_size wr_count rest (n ++ [tmp]) s
      else
        _ ← (if num <=? Z.of_nat (length (sg_list i)) then mret tt else fail OutOfBounds);
        _ ← fits cmd_size (SIZEOF_POST + wr_count * sizeof_n + (Z.of_nat (length s) + num) * SIZEOF_SGE);
        fill cmd_size wr_count rest (n ++ [tmp]) (s ++ take (Z.to_nat num) (sg_list i))
  end.

(** [while (--wr_count) i = i->next], from position [i] of a list of [len]. *)
Fixpoint walk (steps i len : nat) : M kst nat :=
  match steps with
  | O => mret i
  | S steps => if decide (i < len)%nat then walk steps (S i) len else fail NullDeref
  end.

(** The result and, when it is set, the position [*bad_wr] points to. *)
Definition ibv_cmd_post (ctx : ibv_context) (kernel : ib_hdr -> ib_uverbs_post W -> answer Z) (method handle : Z) (wr : list U) :
    M kst (Z * option nat) :=
  let cmd_size := cmd_size_of wr in
  _ ← fits cmd_size SIZEOF_POST;
  '(n, s) ← fill cmd_size (count_wrs wr) wr [] [];
  let cmd := mk_post handle (count_wrs wr) (count_sges wr) sizeof_n n s in
  '(ret, bad_wr) ← _execute_cmd_write ctx (fun h => kernel h cmd) method cmd_size cmd_size 4 4;
  let bad := default 0 bad_wr in
  if negb (bad =? 0) then
    i ← walk (Z.to_nat (bad - 1)) 0 (length wr);
    mret (ret, Some i)
  else mret (ret, if negb (ret =? 0) then Some 0%nat else None).
End lists.

Definition ibv_cmd_post_send (ctx : ibv_context) (ibqp : ibv_qp) (wr : list ibv_send_wr) : M kst (Z * option nat) :=
  ibv_cmd_post SIZEOF_SEND_WR (send_to_kern (qp_type ibqp)) s_sg_list s_num_sge
    ctx k_post_send IB_USER_VERBS_CMD_POST_SEND (qp_handle ibqp) wr.

Definition ibv_cmd_post_recv (ctx : ibv_context) (ibqp : ibv_qp) (wr : list ibv_recv_wr) : M kst (Z * option nat) :=
  ibv_cmd_post SIZEOF_RECV_WR recv_to_kern r_sg_list r_num_sge
    ctx k_post_recv IB_USER_VERBS_CMD_POST_RECV (qp_handle ibqp) wr.

Definition ibv_cmd_post_srq_recv (ctx : ibv_context) (srq_handle : Z) (wr : list ibv_recv_wr) : M kst (Z * option nat) :=
  ibv_cmd_post SIZEOF_RECV_WR recv_to_kern r_sg_list r_num_sge
    ctx k_post_srq_recv IB_USER_VERBS_CMD_POST_SRQ_RECV srq_handle wr.

(** ** Completions, notifications and address handles *)

Definition wc_of (w : ib_uverbs_wc) : ibv_wc :=
  mk_wc (uw_wr_id w) (uw_status w) (uw_opcode w) (uw_vendor_err w) (uw_byte_len w) (uw_imm_data w) (uw_qp_num w)
    (uw_src_qp w) (uw_wc_flags w) (uw_pkey_index w) (uw_slid w) (uw_sl w) (uw_dlid_path_bits w).

Definition SIZEOF_POLL_CQ : Z := 24.
Definition SIZEOF_POLL_CQ_RESP : Z := 8.
Definition SIZEOF_WC : Z := 48.

(** [malloc_ok] is whether the response could be allocated; [wc] is the
    caller's array.  The response has room for [ne] completions. *)
Definition ibv_cmd_poll_cq (malloc_ok : bool) (ctx : ibv_context) (cq_handle ne : Z) (wc : list ibv_wc) : M kst (Z * list ibv_wc) :=
  let rsize := to_signed 32 (wrap 32 (SIZEOF_POLL_CQ_RESP + ne * SIZEOF_WC)) in
  if negb malloc_ok then mret (-1, wc)
  else
    '(ret, resp) ← _execute_cmd_write ctx (fun h => k_poll_cq h cq_handle (wrap 32 ne)) IB_USER_VERBS_CMD_POLL_CQ
      SIZEOF_POLL_CQ SIZEOF_POLL_CQ rsize rsize;
    if negb (ret =? 0) then mret (-1, wc)
    else
      resp ← demand ApiMisuse resp;
      if (Z.of_nat (length resp) <=? ne) && (length resp <=? length wc)%nat then
        mret (Z.of_nat (length resp), (wc_of <$> resp) ++ drop (length resp) wc)
      else fail OutOfBounds.

Definition ibv_cmd_req_notify_cq (ctx : ibv_context) (cq_handle solicited_only : Z) : M kst Z :=
  '(ret, _) ← _execute_cmd_write ctx (fun h => k_req_notify_cq h cq_handle (if solicited_only =? 0 then 0 else 1))
    IB_USER_VERBS_CMD_REQ_NOTIFY_CQ 16 16 0 0;
  mret ret.

(** The handle of the new address handle, or the error. *)
Definition ibv_cmd_create_ah (ctx : ibv_context) (pd_handle : Z) (attr : ibv_ah_attr) (resp_size : Z) : M kst (Z * option Z) :=
  let cmd := mk_ah_attr (take 16 (ah_dgid attr)) (ah_flow_label attr) (ah_sgid_index attr) (ah_hop_limit attr)
    (ah_traffic_class attr) (ah_dlid attr) (ah_sl attr) (ah_src_path_bits attr) (ah_static_rate attr) (ah_is_global attr)
    (ah_port_num attr) in
  '(ret, resp) ← _execute_cmd_write ctx (fun h => k_create_ah h pd_handle cmd) IB_USER_VERBS_CMD_CREATE_AH 64 64 4 resp_size;
  if negb (ret =? 0) then mret (ret, None)
  else
    ah ← demand ApiMisuse resp;
    mret (0, Some ah).
End commands.

(** ** What the kernel promises *)

(** A header describes a command of [req] bytes and a response of [resp]. *)
Definition describes (h : ib_hdr) (req resp : Z) : Prop :=
  match h with
  | HdrWrite _ in_words out_words n => n = req /\ in_words * 4 = req /\ out_words * 4 = resp
  | HdrWriteEx _ _ _ _ _ _ => False
  | HdrIoctl _ core_in core_out uhw_in uhw_out => core_in + uhw_in = req - SIZEOF_CMD_HDR /\ core_out + uhw_out = resp
  end.

(** The response has the values of the command for the attributes of [bits]. *)
Definition stored (bits : Z) (cmd : ib_uverbs_modify_qp) (r : ib_uverbs_query_qp_resp) : Prop :=
  let set b P := masked bits b = true -> P in
  set IBV_QP_STATE (q_qp_state r = m_qp_state cmd) /\ set IBV_QP_ACCESS_FLAGS (q_qp_access_flags r = m_qp_access_flags cmd) /\
  set IBV_QP_PKEY_INDEX (q_pkey_index r = m_pkey_index cmd) /\ set IBV_QP_PORT (q_port_num r = m_port_num cmd) /\
  set IBV_QP_QKEY (q_qkey r = m_qkey cmd) /\ set IBV_QP_AV (q_dest r = m_dest cmd) /\
  set IBV_QP_PATH_MTU (q_path_mtu r = m_path_mtu cmd) /\ set IBV_QP_TIMEOUT (q_timeout r = m_timeout cmd) /\
  set IBV_QP_RETRY_CNT (q_retry_cnt r = m_retry_cnt cmd) /\ set IBV_QP_RNR_RETRY (q_rnr_retry r = m_rnr_retry cmd) /\
  set IBV_QP_RQ_PSN (q_rq_psn r = m_rq_psn cmd) /\ set IBV_QP_MAX_QP_RD_ATOMIC (q_max_rd_atomic r = m_max_rd_atomic cmd) /\
  set IBV_QP_ALT_PATH (q_alt_dest r = m_alt_dest cmd /\ q_alt_pkey_index r = m_alt_pkey_index cmd /\
    q_alt_port_num r = m_alt_port_num cmd /\ q_alt_timeout r = m_alt_timeout cmd) /\
  set IBV_QP_MIN_RNR_TIMER (q_min_rnr_timer r = m_min_rnr_timer cmd) /\ set IBV_QP_SQ_PSN (q_sq_psn r = m_sq_psn cmd) /\
  set IBV_QP_MAX_DEST_RD_ATOMIC (q_max_dest_rd_atomic r = m_max_dest_rd_atomic cmd) /\
  set IBV_QP_PATH_MIG_STATE (q_path_mig_state r = m_path_mig_state cmd) /\
  set IBV_QP_DEST_QPN (q_dest_qp_num r = m_dest_qp_num cmd).

(** The attributes that may differ from one query to the next ([ibv_query_qp(3)], NOTES):
    the state, the migration state and the address vector; and those a query does not
    report: the current state, the notification and the capabilities of a modification. *)
Definition UNSTABLE : Z :=
  foldr Z.lor 0 [IBV_QP_STATE; IBV_QP_PATH_MIG_STATE; IBV_QP_AV; IBV_QP_CUR_STATE; IBV_QP_EN_SQD_ASYNC_NOTIFY; IBV_QP_CAP].

(** The attributes a query is held to after a modification: set by the modification, asked
    for by the query, valid in the state of the queue pair, and not among those. *)
Definition held (set_mask query_mask valid : Z) : Z :=
  Z.ldiff (Z.land set_mask (Z.land query_mask valid)) UNSTABLE.

(** [ibv_query_qp(3)]: the mask is the minimum list of attributes to retrieve, and values
    are valid if they have been set with [ibv_modify_qp], the exact list depending on the
    state.  The work request an error is reported for is one of the command's. *)
Class UverbsLaws (K : Uverbs) : Prop := {
  query_after_modify h cmd s o s' : describes h SIZEOF_MODIFY_QP 0 -> k_modify_qp h cmd s = (0, o, s') ->
    forall h' mask r s'', describes h' SIZEOF_QUERY_QP SIZEOF_QUERY_QP_RESP -> k_query_qp h' (m_qp_handle cmd) mask s' = (0, r, s'') ->
    exists resp, r = Some resp /\ stored (held (m_attr_mask cmd) mask (k_valid s' (m_qp_handle cmd))) cmd resp;
  send_bad_wr h cmd s ret b s' : k_post_send h cmd s = (ret, Some b, s') -> 0 <= b <= wr_count cmd;
  recv_bad_wr h cmd s ret b s' : k_post_recv h cmd s = (ret, Some b, s') -> 0 <= b <= wr_count cmd;
}.

(** ** Lemmas *)

#[local] Ltac qp_bits :=
  unfold IBV_QP_STATE, IBV_QP_CUR_STATE, IBV_QP_EN_SQD_ASYNC_NOTIFY, IBV_QP_ACCESS_FLAGS, IBV_QP_PKEY_INDEX, IBV_QP_PORT,
    IBV_QP_QKEY, IBV_QP_AV, IBV_QP_PATH_MTU, IBV_QP_TIMEOUT, IBV_QP_RETRY_CNT, IBV_QP_RNR_RETRY, IBV_QP_RQ_PSN,
    IBV_QP_MAX_QP_RD_ATOMIC, IBV_QP_ALT_PATH, IBV_QP_MIN_RNR_TIMER, IBV_QP_SQ_PSN, IBV_QP_MAX_DEST_RD_ATOMIC,
    IBV_QP_PATH_MIG_STATE, IBV_QP_DEST_QPN in *.

Lemma masked_testbit m i : 0 <= i -> masked m (2 ^ i) = Z.testbit m i.
Proof.
  intros Hi. unfold masked. destruct (Z.testbit m i) eqn:E.
  - destruct (Z.eqb_spec (Z.land m (2 ^ i)) 0) as [H|]; [|done].
    apply (f_equal (fun z => Z.testbit z i)) in H. by rewrite Z.land_spec, E, Z.pow2_bits_true, Z.bits_0 in H.
  - replace (Z.land m (2 ^ i)) with 0; [done|]. apply Z.bits_inj'. intros j Hj. rewrite Z.bits_0, Z.land_spec.
    destruct (decide (i = j)) as [->|Hn]; [by rewrite E|]. by rewrite Z.pow2_bits_false, andb_false_r.
Qed.

Lemma masked_wrap m i : 0 <= i < 32 -> masked (wrap 32 m) (2 ^ i) = masked m (2 ^ i).
Proof. intros Hi. rewrite !masked_testbit by lia. rewrite testbit_wrap by lia. destruct (i <? 32) eqn:E; [done|lia]. Qed.

Lemma masked_land a b i : 0 <= i -> masked (Z.land a b) (2 ^ i) = masked a (2 ^ i) && masked b (2 ^ i).
Proof. intros Hi. by rewrite !masked_testbit, Z.land_spec by lia. Qed.

Lemma masked_held set_mask query_mask valid i :
  0 <= i < 32 -> masked (held set_mask query_mask valid) (2 ^ i) = masked (held (wrap 32 set_mask) (wrap 32 query_mask) valid) (2 ^ i).
Proof.
  intros Hi. unfold held. rewrite !masked_testbit, !Z.ldiff_spec, !Z.land_spec, !testbit_wrap by lia.
  by rewrite (proj2 (Z.ltb_lt i 32)) by lia.
Qed.

Lemma held_set set_mask query_mask valid :
  Z.land set_mask (held set_mask query_mask valid) = held set_mask query_mask valid.
Proof.
  apply Z.bits_inj'. intros i Hi. unfold held. rewrite Z.land_spec, Z.ldiff_spec, Z.land_spec.
  by destruct (Z.testbit set_mask i).
Qed.

Lemma stored_held set_mask query_mask valid cmd r :
  stored (held (wrap 32 set_mask) (wrap 32 query_mask) valid) cmd r -> stored (held set_mask query_mask valid) cmd r.
Proof. unfold stored. cbv zeta. qp_bits. by rewrite <- !masked_held by lia. Qed.

Section facts.
Context {K : Uverbs}.

(** Commands below 64K bytes get a header that describes them, on both
    paths. *)
Lemma execute_run {A} ctx (kernel : ib_hdr -> answer A) method core req core_resp resp s :
  SIZEOF_CMD_HDR <= core <= req -> req <= UINT16_MAX -> 0 <= core_resp <= resp -> resp <= UINT16_MAX -> req mod 4 = 0 -> resp mod 4 = 0 ->
  exists h, describes h req resp /\
    _execute_cmd_write ctx kernel method core req core_resp resp s = (let '(ret, r, s') := kernel h s in Done (ret, r) s').
Proof.
  unfold SIZEOF_CMD_HDR, UINT16_MAX. intros. unfold _execute_cmd_write, ioctl_write. destruct (ioctl_path ctx).
  - rewrite !wrap_small by (split; unfold SIZEOF_CMD_HDR; lia). unfold SIZEOF_CMD_HDR, UINT16_MAX.
    rewrite !(proj2 (Z.ltb_ge _ _)) by lia. cbn [orb]. eexists. split; [|reflexivity]. cbn. unfold SIZEOF_CMD_HDR. lia.
  - unfold check_divide, c_assert. rewrite !(proj2 (Z.eqb_eq _ _)) by done. cbn.
    eexists. split; [|reflexivity]. cbn. rewrite !wrap_small by (split; [apply Z.div_pos; lia|apply Z.div_lt_upper_bound; lia]).
    pose proof (Z.div_mod req 4). pose proof (Z.div_mod resp 4). lia.
Qed.
End facts.

(** The paths of the kernel and the library hold the same address vector. *)
Definition ah_wf (a : ibv_ah_attr) : Prop := length (ah_dgid a) = 16%nat.

Lemma ah_dest_round_trip a : ah_wf a -> ah_of_dest (dest_of a) = a.
Proof. intros H. destruct a. unfold ah_wf, ah_of_dest, dest_of in *. cbn in *. by rewrite !take_ge by (rewrite ?length_take; lia). Qed.

(** Attributes [b] are those of [a] wherever [mask] says so, for the attributes a query
    reports: [IBV_QP_CAP], [IBV_QP_CUR_STATE] and [IBV_QP_EN_SQD_ASYNC_NOTIFY] are not. *)
Definition agree (mask : Z) (a b : ibv_qp_attr) : Prop :=
  let set bit P := masked mask bit = true -> P in
  set IBV_QP_STATE (a_qp_state b = a_qp_state a) /\ set IBV_QP_ACCESS_FLAGS (a_qp_access_flags b = a_qp_access_flags a) /\
  set IBV_QP_PKEY_INDEX (a_pkey_index b = a_pkey_index a) /\ set IBV_QP_PORT (a_port_num b = a_port_num a) /\
  set IBV_QP_QKEY (a_qkey b = a_qkey a) /\ set IBV_QP_AV (a_ah_attr b = a_ah_attr a) /\
  set IBV_QP_PATH_MTU (a_path_mtu b = a_path_mtu a) /\ set IBV_QP_TIMEOUT (a_timeout b = a_timeout a) /\
  set IBV_QP_RETRY_CNT (a_retry_cnt b = a_retry_cnt a) /\ set IBV_QP_RNR_RETRY (a_rnr_retry b = a_rnr_retry a) /\
  set IBV_QP_RQ_PSN (a_rq_psn b = a_rq_psn a) /\ set IBV_QP_MAX_QP_RD_ATOMIC (a_max_rd_atomic b = a_max_rd_atomic a) /\
  set IBV_QP_ALT_PATH (a_alt_ah_attr b = a_alt_ah_attr a /\ a_alt_pkey_index b = a_alt_pkey_index a /\
    a_alt_port_num b = a_alt_port_num a /\ a_alt_timeout b = a_alt_timeout a) /\
  set IBV_QP_MIN_RNR_TIMER (a_min_rnr_timer b = a_min_rnr_timer a) /\ set IBV_QP_SQ_PSN (a_sq_psn b = a_sq_psn a) /\
  set IBV_QP_MAX_DEST_RD_ATOMIC (a_max_dest_rd_atomic b = a_max_dest_rd_atomic a) /\
  set IBV_QP_PATH_MIG_STATE (a_path_mig_state b = a_path_mig_state a) /\
  set IBV_QP_DEST_QPN (a_dest_qp_num b = a_dest_qp_num a).

(** The enumerations have fewer than 256 values. *)
Definition attr_wf (a : ibv_qp_attr) : Prop :=
  in_width 8 (a_qp_state a) /\ in_width 8 (a_path_mtu a) /\ in_width 8 (a_path_mig_state a) /\
  ah_wf (a_ah_attr a) /\ ah_wf (a_alt_ah_attr a).

Lemma copied_agree qp attr mask cmd attr0 resp bits : attr_wf attr -> stored bits (copy_modify_qp_fields qp attr mask cmd) resp ->
  agree (Z.land mask bits) attr (query_attr attr0 resp).
Proof.
  intros (H1 & H2 & H3 & H4 & H5). unfold stored, agree, copy_modify_qp_fields, query_attr. cbn. qp_bits.
  rewrite !masked_land by lia. intros Hs. repeat match type of Hs with _ /\ _ => destruct Hs as [?Hm Hs] end.
  repeat (match goal with |- _ /\ _ => split | |- masked _ _ && _ = true -> _ => intros [Hb Hb']%andb_true_iff end);
    (match goal with Hb : masked bits ?b = true, H : masked bits ?b = true -> _ |- _ => specialize (H Hb) end);
    (match goal with Hb : masked mask ?b = true, H : context [masked mask ?b] |- _ => rewrite ?Hb in H end);
    repeat (match goal with Hb : masked mask ?b = true, H : context [if masked mask ?b then _ else _] |- _ => rewrite ?Hb in H end);
    rewrite ?wrap_small in * by done; destruct_and?;
    first [congruence | match goal with H : _ = dest_of _ |- _ => by rewrite H, ah_dest_round_trip end].
Qed.

(** ** Modified attributes are read back *)

Section round_trip.
Context {K : Uverbs} {L : UverbsLaws K}.

(** C25: attributes survive the way to the kernel and back, on the write and on the ioctl
    interface.  After a modification that succeeded, a query that succeeds on the same
    queue pair fills the caller's structure with the values the modification gave, for
    every attribute that was set, is asked for by the query and is valid in the state of
    the queue pair, except those the manual page of ibv_query_qp lets differ (state,
    migration state, address vector) and those a query does not report (capabilities,
    current state, drained notification).  For all attributes a query reports, these three
    included, the structure has the caller's value wherever the kernel's response has the
    value of the command.  A query that fails leaves the caller's structures as they were;
    neither call touches memory it must not.  The kernel is held to the manual page only. *)
Theorem modified_attributes_read_back ctx qp attr mask cmd s s' attr0 mask0 init0
    (Hwf : attr_wf attr) (Hm : ibv_cmd_modify_qp ctx qp attr mask cmd SIZEOF_MODIFY_QP s = Done 0 s') :
  wp (ibv_cmd_query_qp ctx qp attr0 mask0 init0 SIZEOF_QUERY_QP)
    (fun '(ret, attr', init') s'' =>
       if decide (ret = 0) then
         agree (held mask mask0 (k_valid s' (qp_handle qp))) attr attr' /\
         (exists h resp, k_query_qp h (qp_handle qp) (wrap 32 mask0) s' = (0, Some resp, s'') /\
            forall bits, stored bits (copy_modify_qp_fields qp attr mask cmd) resp -> agree (Z.land mask bits) attr attr') /\
         a_cap attr' = i_cap init' /\ i_qp_type init' = qp_type qp
       else attr' = attr0 /\ init' = init0) s'.
Proof.
  unfold ibv_cmd_modify_qp in Hm. destruct (beyond_write mask); [done|].
  destruct (execute_run ctx (fun h => k_modify_qp h (copy_modify_qp_fields qp attr mask cmd)) IB_USER_VERBS_CMD_MODIFY_QP
    SIZEOF_MODIFY_QP SIZEOF_MODIFY_QP 0 0 s) as (h & Hh & Hrun); [done..|].
  unfold mbind, M_bind in Hm. rewrite Hrun in Hm. clear Hrun.
  destruct (k_modify_qp h _ s) as [[ret1 r1] s2] eqn:Ek. injection Hm as -> ->.
  unfold ibv_cmd_query_qp. destruct (beyond_write mask0); [apply wp_ret; by case_decide|].
  destruct (execute_run ctx (fun h => k_query_qp h (qp_handle qp) (wrap 32 mask0)) IB_USER_VERBS_CMD_QUERY_QP
    SIZEOF_QUERY_QP SIZEOF_QUERY_QP SIZEOF_QUERY_QP_RESP SIZEOF_QUERY_QP_RESP s') as (h' & Hh' & Hrun'); [done..|].
  apply wp_bind. unfold wp at 1. rewrite Hrun'. destruct (k_query_qp h' _ _ s') as [[ret2 r2] s3] eqn:Eq.
  destruct (Z.eqb_spec ret2 0) as [->|Hn]; cbn [negb]; [|apply wp_ret; by case_decide].
  destruct (query_after_modify h _ _ _ _ Hh Ek h' _ _ _ Hh' Eq) as (resp & -> & Hs).
  apply (stored_held mask mask0), (copied_agree _ _ _ _ attr0) in Hs; [|done]. cbn. rewrite held_set in Hs.
  split; [done|]. split; [|done]. exists h', resp. split; [done|]. intros bits Hb. by eapply copied_agree.
Qed.
End round_trip.

(** ** Address vectors and path records *)

Definition path_wf (p : ibv_sa_path_rec) : Prop :=
  length (p_dgid p) = 16%nat /\ length (p_sgid p) = 16%nat /\ - 2 ^ 31 <= p_raw_traffic p < 2 ^ 31 /\
  - 2 ^ 31 <= p_reversible p < 2 ^ 31 /\ in_width 8 (p_mtu p).

Lemma signed_round_trip x : - 2 ^ 31 <= x < 2 ^ 31 -> to_signed 32 (wrap 32 x) = x.
Proof.
  intros H. unfold to_signed. rewrite wrap_wrap. destruct (decide (0 <= x)).
  - rewrite wrap_small by (split; lia). destruct (x <? 2 ^ (32 - 1)) eqn:E; lia.
  - rewrite wrap_under by lia. destruct (x + 2 ^ 32 <? 2 ^ (32 - 1)) eqn:E; lia.
Qed.

(** A path record is the same after the kernel's form. *)
Lemma path_record_round_trip p : path_wf p -> ibv_copy_path_rec_from_kern (ibv_copy_path_rec_to_kern p) = p.
Proof.
  intros (H1 & H2 & H3 & H4 & H5). destruct p. unfold ibv_copy_path_rec_from_kern, ibv_copy_path_rec_to_kern. cbn in *.
  by rewrite !signed_round_trip, wrap_small, !take_ge by (rewrite ?length_take; done || lia).
Qed.

(** The other way round it is only when the MTU fits in eight bits. *)
Lemma kernel_mtu_truncated u : length (u_dgid u) = 16%nat -> length (u_sgid u) = 16%nat -> in_width 32 (u_raw_traffic u) ->
  in_width 32 (u_reversible u) -> in_width 32 (u_mtu u) ->
  ibv_copy_path_rec_to_kern (ibv_copy_path_rec_from_kern u) = u <-> u_mtu u < 256.
Proof.
  intros H1 H2 H3 H4 H5. destruct u. unfold ibv_copy_path_rec_from_kern, ibv_copy_path_rec_to_kern. cbn in *.
  assert (Hs : forall x, in_width 32 x -> wrap 32 (to_signed 32 x) = x).
  { intros x [Hx Hx']. unfold to_signed. rewrite (wrap_small 32 x) by done. destruct (x <? 2 ^ (32 - 1)) eqn:E; [by apply wrap_small|].
    rewrite wrap_under by lia. lia. }
  rewrite !Hs, !take_ge by (rewrite ?length_take; done || lia). unfold in_width in *. split.
  - intros [= E]. pose proof (wrap_range 8 u_mtu0). unfold in_width in *. lia.
  - intros E. by rewrite wrap_small by (split; lia).
Qed.

(** [ibv_copy_qp_attr_from_kern] does not write [qp_state]. *)
Lemma copied_state_is_stale dst src : a_qp_state (ibv_copy_qp_attr_from_kern dst src) = a_qp_state dst.
Proof. done. Qed.

(** [IBV_QP_CAP] tells the kernel to change capabilities that the command
    does not carry. *)
Lemma capabilities_not_sent qp attr cap mask cmd :
  copy_modify_qp_fields qp (mk_qp_attr (a_qp_state attr) (a_cur_qp_state attr) (a_path_mtu attr) (a_path_mig_state attr)
    (a_qkey attr) (a_rq_psn attr) (a_sq_psn attr) (a_dest_qp_num attr) (a_qp_access_flags attr) cap (a_ah_attr attr)
    (a_alt_ah_attr attr) (a_pkey_index attr) (a_alt_pkey_index attr) (a_en_sqd_async_notify attr) (a_sq_draining attr)
    (a_max_rd_atomic attr) (a_max_dest_rd_atomic attr) (a_min_rnr_timer attr) (a_port_num attr) (a_timeout attr)
    (a_retry_cnt attr) (a_rnr_retry attr) (a_alt_port_num attr) (a_alt_timeout attr) (a_rate_limit attr)) mask cmd =
  copy_modify_qp_fields qp attr mask cmd.
Proof. done. Qed.

(** ** Posted work requests arrive as they were posted *)

(** The elements of a command, as its work requests count them. *)
Fixpoint regroup (counts : list Z) (s : list ibv_sge) : list (list ibv_sge) :=
  match counts with
  | [] => []
  | c :: counts => take (Z.to_nat c) s :: regroup counts (drop (Z.to_nat c) s)
  end.

Section posting.
Context {K : Uverbs} {U W : Set} (sizeof_n : Z) (to_kern : U -> M kst W) (sg_list : U -> list ibv_sge) (num_sge : U -> Z).
Context (carries : U -> W -> Prop).

Definition total (wr : list U) : Z := foldr (fun i c => num_sge i + c) 0 wr.
Definition post_size (wr : list U) : Z := SIZEOF_POST + Z.of_nat (length wr) * sizeof_n + total wr * SIZEOF_SGE.

(** A work request whose list has the elements it counts, and that the kernel
    has a form for. *)
Definition sound (i : U) : Prop :=
  0 <= num_sge i <= Z.of_nat (length (sg_list i)) /\ exists k, carries i k /\ forall s, to_kern i s = Done k s.

Lemma foldl_count {X} (f : X -> Z) l c : Forall (fun x => 0 <= f x) l -> 0 <= c ->
  c + foldr (fun i c => f i + c) 0 l < 2 ^ 32 -> foldl (fun c i => c +{32} f i) c l = c + foldr (fun i c => f i + c) 0 l.
Proof.
  intros Hf. revert c. induction Hf as [|x l Hx Hf IH]; intros c Hc Hb; cbn [foldl foldr] in *; [lia|].
  assert (0 <= foldr (fun i c => f i + c) 0 l) by (clear -Hf; induction Hf; cbn; lia).
  rewrite wrap_small by (split; lia). rewrite IH by lia. lia.
Qed.

Lemma foldr_ones {X} (l : list X) : foldr (fun _ c => 1 + c) 0 l = Z.of_nat (length l).
Proof. induction l as [|x l IH]; cbn [foldr length]; [done|]. rewrite IH. lia. Qed.

Lemma sound_nonneg wr : Forall sound wr -> Forall (fun i => 0 <= num_sge i) wr.
Proof. apply Forall_impl. unfold sound. lia. Qed.

Lemma total_nonneg wr : Forall sound wr -> 0 <= total wr.
Proof. intros H%sound_nonneg. unfold total. induction H; cbn; lia. Qed.

Lemma sizes wr : 16 <= sizeof_n -> Forall sound wr -> post_size wr <= UINT16_MAX ->
  count_wrs wr = Z.of_nat (length wr) /\ count_sges num_sge wr = total wr /\ cmd_size_of sizeof_n num_sge wr = post_size wr.
Proof.
  intros Hn Hs Hb. pose proof (total_nonneg _ Hs). unfold post_size, SIZEOF_POST, SIZEOF_SGE, UINT16_MAX in *.
  assert (Hc : count_wrs wr = Z.of_nat (length wr)).
  { unfold count_wrs. rewrite (foldl_count (fun _ => 1)); rewrite ?foldr_ones; [lia| |lia|nia]. apply Forall_true. lia. }
  assert (Hg : count_sges num_sge wr = total wr).
  { unfold count_sges. rewrite foldl_count; [unfold total; lia|by apply sound_nonneg|lia|]. unfold total in *. nia. }
  split_and!; [done..|]. unfold cmd_size_of, SIZEOF_POST, SIZEOF_SGE. rewrite Hc, Hg. rewrite wrap_small by (split; nia).
  unfold to_signed. rewrite wrap_small by (split; nia). rewrite (proj2 (Z.ltb_lt _ _)) by nia. done.
Qed.

Lemma fill_wrs_run size wr : forall n s st, 16 <= sizeof_n -> Forall sound wr ->
  let count := Z.of_nat (length n + length wr) in
  SIZEOF_POST + count * sizeof_n + (Z.of_nat (length s) + total wr) * SIZEOF_SGE <= size -> total wr < 2 ^ 32 ->
  exists ks, Forall2 carries wr ks /\
    fill sizeof_n to_kern sg_list num_sge size count wr n s st =
      Done (n ++ ks, s ++ concat ((fun i => take (Z.to_nat (num_sge i)) (sg_list i)) <$> wr)) st.
Proof.
  induction wr as [|i wr IH]; intros n s st Hn Hs count Hb Ht.
  { exists []. split; [done|]. cbn. by rewrite !app_nil_r. }
  apply Forall_cons_1 in Hs as [[Hi (k & Hk & Hrun)] Hs]. pose proof (total_nonneg _ Hs).
  unfold total in Hb, Ht. cbn [foldr] in Hb, Ht. fold (total wr) in Hb, Ht. subst count. cbn [length] in *.
  unfold SIZEOF_POST, SIZEOF_SGE in *. cbn [fill]. unfold fits, mbind, M_bind.
  rewrite (proj2 (Z.leb_le _ _)) by (unfold SIZEOF_POST; nia). cbn. rewrite Hrun.
  rewrite wrap_small by (split; lia).
  destruct (Z.eqb_spec (num_sge i) 0) as [E|E].
  - destruct (IH (n ++ [k]) s st) as (ks & Hks & Hf); rewrite ?length_app in *; cbn [length] in *; [done|done|nia|nia|].
    exists (k :: ks). split; [by constructor|]. rewrite E. cbn [Z.to_nat fmap list_fmap concat take app].
    replace (length n + S (length wr))%nat with (length n + 1 + length wr)%nat by lia. rewrite Hf. by rewrite <-app_assoc.
  - rewrite (proj2 (Z.leb_le _ _)) by lia. cbn. rewrite (proj2 (Z.leb_le _ _)) by (unfold SIZEOF_POST, SIZEOF_SGE; nia). cbn.
    destruct (IH (n ++ [k]) (s ++ take (Z.to_nat (num_sge i)) (sg_list i)) st) as (ks & Hks & Hf);
      rewrite ?length_app, ?length_take in *; cbn [length] in *; [done|done|nia|nia|].
    exists (k :: ks). split; [by constructor|].
    replace (length n + S (length wr))%nat with (length n + 1 + length wr)%nat by lia. rewrite Hf. cbn. by rewrite <-!app_assoc.
Qed.

Lemma regroup_concat wr rest : Forall sound wr ->
  regroup (num_sge <$> wr) (concat ((fun i => take (Z.to_nat (num_sge i)) (sg_list i)) <$> wr) ++ rest) =
  (fun i => take (Z.to_nat (num_sge i)) (sg_list i)) <$> wr.
Proof.
  induction 1 as [|i wr [Hi _] Hs IH]; [done|]. cbn.
  assert (Hl : length (take (Z.to_nat (num_sge i)) (sg_list i)) = Z.to_nat (num_sge i)) by (rewrite length_take; lia).
  rewrite <-app_assoc. f_equal.
  - by rewrite take_app_length'.
  - by rewrite drop_app_length', IH.
Qed.

Lemma walk_run steps : forall i len s, (i + steps <= len)%nat -> walk steps i len s = Done (i + steps)%nat s.
Proof.
  induction steps as [|k IH]; intros i len s H; cbn [walk]; [by rewrite Nat.add_0_r|].
  rewrite decide_True by lia. rewrite IH by lia. f_equal. lia.
Qed.

(** What the caller is told of an answer of the kernel. *)
Definition reported (ret : Z) (bad : option Z) : option nat :=
  if default 0 bad =? 0 then (if ret =? 0 then None else Some 0%nat) else Some (Z.to_nat (default 0 bad - 1)).

(** The command for a list of work requests, as the kernel gets it. *)
Definition delivers (handle : Z) (wr : list U) (cmd : ib_uverbs_post W) : Prop :=
  post_handle cmd = handle /\ wqe_size cmd = sizeof_n /\ wr_count cmd = Z.of_nat (length wr) /\
  sge_count cmd = Z.of_nat (length (post_sges cmd)) /\ Forall2 carries wr (post_wrs cmd) /\
  regroup (num_sge <$> wr) (post_sges cmd) = (fun i => take (Z.to_nat (num_sge i)) (sg_list i)) <$> wr.

Lemma length_elements wr : Forall sound wr ->
  Z.of_nat (length (concat ((fun i => take (Z.to_nat (num_sge i)) (sg_list i)) <$> wr))) = total wr.
Proof.
  induction 1 as [|i wr [Hi _] Hs IH]; [done|]. cbn [fmap list_fmap concat]. rewrite length_app, length_take.
  unfold total in *. cbn [foldr]. lia.
Qed.

Lemma post_run ctx kernel method handle wr s : 16 <= sizeof_n -> sizeof_n mod 4 = 0 -> Forall sound wr -> post_size wr <= UINT16_MAX ->
  (forall h cmd s ret b s', kernel h cmd s = (ret, Some b, s') -> 0 <= b <= wr_count cmd) ->
  exists h cmd, describes h (post_size wr) 4 /\ delivers handle wr cmd /\
    ibv_cmd_post sizeof_n to_kern sg_list num_sge ctx kernel method handle wr s =
      (let '(ret, bad, s') := kernel h cmd s in Done (ret, reported ret bad) s').
Proof.
  intros Hn Hmod Hs Hb Hlaw. destruct (sizes wr Hn Hs Hb) as (Hc & Hg & Hsz). pose proof (total_nonneg _ Hs) as Ht.
  unfold post_size, SIZEOF_POST, SIZEOF_SGE, UINT16_MAX in Hb.
  destruct (fill_wrs_run (post_size wr) wr [] [] s Hn Hs) as (ks & Hks & Hf); [unfold post_size; cbn [length Nat.add]; lia|nia|].
  cbn [length Nat.add app] in Hf. set (els := concat _) in Hf.
  destruct (execute_run ctx (fun h => kernel h (mk_post handle (Z.of_nat (length wr)) (total wr) sizeof_n ks els)) method
    (post_size wr) (post_size wr) 4 4 s) as (h & Hh & Hrun);
    [unfold post_size, SIZEOF_POST, SIZEOF_SGE, SIZEOF_CMD_HDR; nia|unfold post_size, SIZEOF_POST, SIZEOF_SGE, UINT16_MAX; lia
    |lia|done| |done|].
  { unfold post_size, SIZEOF_POST, SIZEOF_SGE. rewrite (Z.div_mod sizeof_n 4), Hmod by lia.
    replace (32 + _ + _) with ((8 + Z.of_nat (length wr) * (sizeof_n / 4) + total wr * 4) * 4) by lia. apply Z_mod_mult. }
  exists h, (mk_post handle (Z.of_nat (length wr)) (total wr) sizeof_n ks els). split; [done|]. split.
  { split_and!; try done; cbn; [symmetry; by apply length_elements|]. rewrite <-(app_nil_r els). by apply regroup_concat. }
  unfold ibv_cmd_post. rewrite Hc, Hg, Hsz. unfold fits, mbind, M_bind.
  rewrite (proj2 (Z.leb_le _ _)) by (unfold post_size, SIZEOF_POST, SIZEOF_SGE; nia). cbn [mret M_ret]. rewrite Hf, Hrun.
  destruct (kernel h _ s) as [[ret bad] s'] eqn:Ek. unfold reported.
  destruct (Z.eqb_spec (default 0 bad) 0) as [E|E]; cbn [negb]; [by destruct (ret =? 0)|].
  destruct bad as [b|]; [|done]. apply Hlaw in Ek. cbn in Ek, E |- *. rewrite walk_run by lia. done.
Qed.
End posting.

(** What the kernel's form of a send carries. *)
Definition send_carried (ah_handle : Z -> option Z) (type : Z) (i : ibv_send_wr) (k : ib_uverbs_send_wr) : Prop :=
  us_wr_id k = s_wr_id i /\ us_num_sge k = s_num_sge i /\ us_opcode k = s_opcode i /\ us_send_flags k = s_send_flags i /\
  us_imm_data k = s_imm_data i /\
  (if type =? IBV_QPT_UD
   then exists ah, ah_handle (w0 (s_wr i)) = Some ah /\ us_wr k = WrUd ah (w1 (s_wr i) mod 2 ^ 32) (w1 (s_wr i) / 2 ^ 32 mod 2 ^ 32)
   else us_wr k = if decide (s_opcode i ∈ [IBV_WR_RDMA_WRITE; IBV_WR_RDMA_WRITE_WITH_IMM; IBV_WR_RDMA_READ])
                  then WrRdma (w0 (s_wr i)) (w1 (s_wr i) mod 2 ^ 32)
                  else if decide (s_opcode i ∈ [IBV_WR_ATOMIC_CMP_AND_SWP; IBV_WR_ATOMIC_FETCH_AND_ADD])
                  then WrAtomic (w0 (s_wr i)) (w1 (s_wr i)) (w2 (s_wr i)) (w3 (s_wr i) mod 2 ^ 32)
                  else WrUnset).

(** A send whose list has its elements, and whose address handle exists when
    the queue pair is a datagram one. *)
Definition send_sound (ah_handle : Z -> option Z) (type : Z) (i : ibv_send_wr) : Prop :=
  0 <= s_num_sge i <= Z.of_nat (length (s_sg_list i)) /\ s_num_sge i < 2 ^ 32 /\
  (type = IBV_QPT_UD -> is_Some (ah_handle (w0 (s_wr i)))).

Lemma send_converted {K : Uverbs} ah_handle type i : send_sound ah_handle type i ->
  sound (send_to_kern ah_handle type) s_sg_list s_num_sge (send_carried ah_handle type) i.
Proof.
  intros (Hi & Hb & Ha). split; [done|]. unfold send_carried, send_to_kern, send_union, mbind, M_bind.
  assert (Hw : wrap 32 (s_num_sge i) = s_num_sge i) by (apply wrap_small; split; lia).
  destruct (Z.eqb_spec type IBV_QPT_UD) as [E|E].
  - destruct (Ha E) as [ah Hah]. eexists (mk_uverbs_send_wr _ _ _ _ _ _). rewrite Hah. split; [|intros s; reflexivity]. cbn.
    rewrite Hw. split_and!; try done. exists ah. split; [done|]. by rewrite Z.shiftr_div_pow2.
  - destruct (_ || _ || _) eqn:E1; [|destruct ((s_opcode i =? IBV_WR_ATOMIC_CMP_AND_SWP) || _) eqn:E2];
      (eexists (mk_uverbs_send_wr _ _ _ _ _ _); split; [|intros s; reflexivity]); cbn [us_wr_id us_num_sge us_opcode
        us_send_flags us_imm_data us_wr]; rewrite Hw; (split_and!; [done..|]);
      rewrite ?orb_true_iff, ?orb_false_iff, ?Z.eqb_eq, ?Z.eqb_neq in *.
    + by rewrite decide_True by set_solver.
    + by rewrite decide_False, decide_True by set_solver.
    + by rewrite !decide_False by set_solver.
Qed.

Lemma recv_converted {K : Uverbs} i : 0 <= r_num_sge i <= Z.of_nat (length (r_sg_list i)) -> r_num_sge i < 2 ^ 32 ->
  sound recv_to_kern r_sg_list r_num_sge (fun i k => ur_wr_id k = r_wr_id i /\ ur_num_sge k = r_num_sge i) i.
Proof.
  intros Hi Hb. split; [done|]. eexists. split; [|intros s; reflexivity]. cbn. by rewrite wrap_small by (split; lia).
Qed.

Section delivered.
Context {K : Uverbs} {L : UverbsLaws K} (ah_handle : Z -> option Z).

(** C24: a posted list reaches the kernel whole.  For a list of sends that
    count no more elements than they have and whose command stays below 64K
    bytes, [ibv_cmd_post_send] hands the kernel one command with a header of
    the right size that carries every work request in order, with the remote
    address, key or address handle its operation needs, and from whose
    elements each request's own are cut out by the counts alone; the caller
    gets the kernel's result and, on an error, the position of the request the
    kernel names (the first if it names none). *)
Theorem sends_delivered_whole ctx qp wr s (Hs : Forall (send_sound ah_handle (qp_type qp)) wr)
    (Hb : post_size SIZEOF_SEND_WR s_num_sge wr <= UINT16_MAX) :
  exists h cmd, describes h (post_size SIZEOF_SEND_WR s_num_sge wr) 4 /\
    delivers SIZEOF_SEND_WR s_sg_list s_num_sge (send_carried ah_handle (qp_type qp)) (qp_handle qp) wr cmd /\
    ibv_cmd_post_send ah_handle ctx qp wr s =
      (let '(ret, bad, s') := k_post_send h cmd s in Done (ret, reported ret bad) s').
Proof.
  apply post_run; [done..| |done|exact send_bad_wr]. revert Hs. apply Forall_impl. apply send_converted.
Qed.

(** The same for receives. *)
Lemma receives_delivered_whole ctx qp wr s :
  Forall (fun i => 0 <= r_num_sge i <= Z.of_nat (length (r_sg_list i)) /\ r_num_sge i < 2 ^ 32) wr ->
  post_size SIZEOF_RECV_WR r_num_sge wr <= UINT16_MAX ->
  exists h cmd, describes h (post_size SIZEOF_RECV_WR r_num_sge wr) 4 /\
    delivers SIZEOF_RECV_WR r_sg_list r_num_sge (fun i k => ur_wr_id k = r_wr_id i /\ ur_num_sge k = r_num_sge i)
      (qp_handle qp) wr cmd /\
    ibv_cmd_post_recv ctx qp wr s =
      (let '(ret, bad, s') := k_post_recv h cmd s in Done (ret, reported ret bad) s').
Proof.
  intros Hs Hb. apply post_run; [done..| |done|exact recv_bad_wr]. revert Hs. apply Forall_impl.
  intros i [Hi Hi']. by apply recv_converted.
Qed.
End delivered.

Section others.
Context {K : Uverbs}.

(** The kernel gets the address vector of the caller. *)
Lemma create_ah_sends_vector ctx pd_handle attr s : ah_wf attr ->
  exists h, describes h 64 4 /\ ibv_copy_ah_attr_from_kern attr = attr /\
    ibv_cmd_create_ah ctx pd_handle attr 4 s =
      match k_create_ah h pd_handle attr s with
      | (0, Some ah, s') => Done (0, Some ah) s'
      | (0, None, _) => Fault ApiMisuse
      | (ret, _, s') => Done (ret, None) s'
      end.
Proof.
  intros Hwf. destruct (execute_run ctx (fun h => k_create_ah h pd_handle attr) IB_USER_VERBS_CMD_CREATE_AH 64 64 4 4 s)
    as (h & Hh & Hrun); [done..|]. exists h. split; [done|].
  assert (E : ibv_copy_ah_attr_from_kern attr = attr).
  { destruct attr. unfold ibv_copy_ah_attr_from_kern, ah_wf in *. cbn in *. by rewrite take_ge by lia. }
  split; [done|]. unfold ibv_copy_ah_attr_from_kern in E. unfold ibv_cmd_create_ah. rewrite E.
  unfold mbind, M_bind. rewrite Hrun. destruct (k_create_ah h pd_handle attr s) as [[[|p|p] [ah|]] s']; done.
Qed.

(** A poll copies the kernel's completions to the front of the array and says
    how many; it leaves the array alone when it fails. *)
Lemma poll_copies ctx cq ne wc s : 0 <= ne <= 1000 -> (Z.to_nat ne <= length wc)%nat ->
  (forall h ne s o s', k_poll_cq h cq ne s = (0, o, s') -> exists l, o = Some l /\ Z.of_nat (length l) <= ne) ->
  wp (ibv_cmd_poll_cq true ctx cq ne wc)
    (fun '(n, wc') _ => n = -1 /\ wc' = wc \/
       exists l, n = Z.of_nat (length l) /\ n <= ne /\ take (length l) wc' = wc_of <$> l /\ drop (length l) wc' = drop (length l) wc) s.
Proof.
  intros Hne Hlen Hlaw. unfold ibv_cmd_poll_cq. cbn [negb]. set (rsize := to_signed _ _).
  assert (Hr : rsize = 8 + ne * 48).
  { unfold rsize, to_signed, SIZEOF_POLL_CQ_RESP, SIZEOF_WC. rewrite wrap_wrap, wrap_small by (split; lia).
    by rewrite (proj2 (Z.ltb_lt _ _)) by lia. }
  destruct (execute_run ctx (fun h => k_poll_cq h cq (wrap 32 ne)) IB_USER_VERBS_CMD_POLL_CQ SIZEOF_POLL_CQ SIZEOF_POLL_CQ
    rsize rsize s) as (h & Hh & Hrun); [done|done|lia|unfold UINT16_MAX; lia|done| |].
  { rewrite Hr. replace (8 + ne * 48) with ((2 + ne * 12) * 4) by lia. apply Z_mod_mult. }
  apply wp_bind. unfold wp at 1. rewrite Hrun. destruct (k_poll_cq h cq (wrap 32 ne) s) as [[ret o] s'] eqn:E.
  destruct (Z.eqb_spec ret 0) as [->|]; cbn [negb]; [|apply wp_ret; by left].
  destruct (Hlaw _ _ _ _ _ E) as (l & -> & Hl). rewrite wrap_small in Hl by (split; lia). cbn [demand].
  apply wp_bind, wp_ret. rewrite (proj2 (Z.leb_le _ _)), (proj2 (Nat.leb_le _ _)) by lia. cbn [andb]. apply wp_ret. right.
  exists l. split_and!; [done..|by rewrite take_app_length' by (by rewrite length_fmap)|by rewrite drop_app_length' by (by rewrite length_fmap)].
Qed.
End others.

(** A list of receives of exactly 256K bytes is announced as empty: the
    header counts its words in sixteen bits. *)
Lemma long_list_announced_empty {K : Uverbs} (k : ib_hdr -> answer Z) ctx s : ioctl_path ctx = false ->
  _execute_cmd_write ctx k IB_USER_VERBS_CMD_POST_RECV (2 ^ 18) (2 ^ 18) 4 4 s =
  syscall (k (HdrWrite IB_USER_VERBS_CMD_POST_RECV 0 1 (2 ^ 18))) s.
Proof. intros E. unfold _execute_cmd_write. by rewrite E. Qed.

(** ** A kernel that keeps the promises *)

Definition zero_dest : ib_uverbs_qp_dest := mk_dest (replicate 16 0) 0 0 0 0 0 0 0 0 0 0.
Definition zero_cap : ibv_qp_cap := mk_cap 0 0 0 0 0.
Definition zero_modify : ib_uverbs_modify_qp :=
  mk_modify_qp zero_dest zero_dest 0 0 0 0 0 0 0 0 0 0 0 0 0 0 0 0 0 0 0 0 0 0 0.

Definition resp_of (m : ib_uverbs_modify_qp) : ib_uverbs_query_qp_resp :=
  mk_query_qp_resp (m_dest m) (m_alt_dest m) zero_cap (m_qkey m) (m_rq_psn m) (m_sq_psn m) (m_dest_qp_num m)
    (m_qp_access_flags m) (m_pkey_index m) (m_alt_pkey_index m) (m_qp_state m) (m_cur_qp_state m) (m_path_mtu m)
    (m_path_mig_state m) 0 (m_max_rd_atomic m) (m_max_dest_rd_atomic m) (m_min_rnr_timer m) (m_port_num m) (m_timeout m)
    (m_retry_cnt m) (m_rnr_retry m) (m_alt_port_num m) (m_alt_timeout m) 0.

(** It remembers the last modification and rejects the last work request of
    every list. *)
#[local] Instance demo_kernel : Uverbs := {|
  kst := ib_uverbs_modify_qp;
  k_modify_qp h cmd _ := (0, None, cmd);
  k_modify_qp_ex h cmd _ _ := (0, None, cmd);
  k_query_qp h _ _ s := (0, Some (resp_of s), s);
  k_post_send h cmd s := (EINVAL, if 0 <=? wr_count cmd then Some (wr_count cmd) else None, s);
  k_post_recv h cmd s := (0, None, s);
  k_post_srq_recv h cmd s := (0, None, s);
  k_poll_cq h _ _ s := (0, Some [], s);
  k_create_ah h _ _ s := (0, Some 1, s);
  k_req_notify_cq h _ _ s := (0, None, s);
  k_valid _ _ := 2 ^ 21 - 1;
|}.

#[local] Instance demo_kernel_laws : UverbsLaws demo_kernel.
Proof.
  split.
  - intros h cmd s o s' _ [= _ <-] h' mask r s'' _ [= <- _]. exists (resp_of cmd). split; [done|]. unfold stored. cbn. naive_solver.
  - intros h cmd s ret b s' E. cbn in E. destruct (0 <=? wr_count cmd) eqn:E1; simplify_eq. lia.
  - intros h cmd s ret b s' [=].
Qed.

Definition demo_state : @kst demo_kernel := zero_modify.
Definition demo_qp : ibv_qp := mk_qp 7 0 0 0 0 2.
Definition demo_ah : ibv_ah_attr := mk_ah_attr (Z.of_nat <$> seq 0 16) 5 1 64 0 9 2 0 3 1 1.
Definition demo_attr : ibv_qp_attr :=
  mk_qp_attr 3 0 4 1 17 100 200 42 7 zero_cap demo_ah demo_ah 1 2 0 0 4 8 12 1 14 7 6 2 15 0.
Definition demo_mask : Z := 2 ^ 21 - 1.
Definition demo_ctx : ibv_context := mk_context false false false.

Definition demo_init : ibv_qp_init_attr := mk_init_attr 0 0 0 0 zero_cap 0 0.

Lemma modified_attributes_read_back_witness : exists s',
  ibv_cmd_modify_qp demo_ctx demo_qp demo_attr demo_mask zero_modify SIZEOF_MODIFY_QP demo_state = Done 0 s' /\
  wp (ibv_cmd_query_qp demo_ctx demo_qp demo_attr demo_mask demo_init SIZEOF_QUERY_QP)
    (fun '(ret, attr', init') s'' =>
       if decide (ret = 0) then
         agree (held demo_mask demo_mask (k_valid s' (qp_handle demo_qp))) demo_attr attr' /\
         (exists h resp, k_query_qp h (qp_handle demo_qp) (wrap 32 demo_mask) s' = (0, Some resp, s'') /\
            forall bits, stored bits (copy_modify_qp_fields demo_qp demo_attr demo_mask zero_modify) resp ->
              agree (Z.land demo_mask bits) demo_attr attr') /\
         a_cap attr' = i_cap init' /\ i_qp_type init' = qp_type demo_qp
       else attr' = demo_attr /\ init' = demo_init) s' /\
  masked (held demo_mask demo_mask (k_valid s' (qp_handle demo_qp))) IBV_QP_DEST_QPN = true.
Proof.
  eexists. split; [vm_compute; reflexivity|]. split; [|vm_compute; reflexivity].
  apply (modified_attributes_read_back demo_ctx demo_qp demo_attr demo_mask zero_modify demo_state); [|vm_compute; reflexivity].
  repeat split; vm_compute; congruence.
Defined.

Definition demo_sends : list ibv_send_wr := [
  mk_send_wr 1 [mk_sge 0x1000 64 5; mk_sge 0x2000 32 5] 2 0 2 0 (mk_words 0x9000 77 0 0);
  mk_send_wr 2 [] 0 2 0 0 (mk_words 0 0 0 0);
  mk_send_wr 3 [mk_sge 0x3000 8 6] 1 5 0 0 (mk_words 0x9100 1 2 78)].

Lemma sends_delivered_whole_witness : exists h cmd,
  delivers SIZEOF_SEND_WR s_sg_list s_num_sge (send_carried (fun _ => None) 2) 7 demo_sends cmd /\
  describes h 248 4 /\
  ibv_cmd_post_send (fun _ => None) demo_ctx demo_qp demo_sends demo_state = Done (EINVAL, Some 2%nat) demo_state.
Proof.
  destruct (sends_delivered_whole (fun _ => None) demo_ctx demo_qp demo_sends demo_state) as (h & cmd & Hh & Hd & Hr).
  - repeat first [apply Forall_nil_2 | apply Forall_cons_2]; (repeat split; vm_compute; congruence).
  - vm_compute. congruence.
  - exists h, cmd. split; [exact Hd|]. split; [exact Hh|]. vm_compute. reflexivity.
Defined.
