(* ===== verification/Indexer.v ===== *)
(** * librdmacm: the indexer and the index map

    Models [librdmacm/indexer.c] and [librdmacm/indexer.h]: the two-level
    tables that give a connection or a socket its number.  A table has 64
    slots for chunks of 1024 words.  A word of the indexer is the union of a
    64-bit pointer and a 32-bit link of the free list, so writing the link
    keeps the upper half of the word.  Whether [calloc] succeeds is an argument
    of the operations that call it.  An access through an empty slot is a null
    dereference, one past the table an out-of-bounds access. *)

From Stdlib Require Import ZArith Lia.
From stdpp Require Import base sets gmap list option numbers.
From S2P Require Import Prelude.

Local Open Scope Z_scope.
Local Open Scope cint_scope.

Definition IDX_ENTRY_BITS : Z := 10.
Definition IDX_ENTRY_SIZE : Z := 1024.
Definition IDX_ARRAY_SIZE : Z := 64.
Definition IDX_MAX_INDEX : Z := 65535.

Definition idx_array_index (index : Z) : Z := Z.shiftr index IDX_ENTRY_BITS.
Definition idx_entry_index (index : Z) : Z := Z.land index (IDX_ENTRY_SIZE - 1).

(** [calloc(IDX_ENTRY_SIZE, 8)]. *)
Definition nulls : list Z := replicate 1024 0.

(** ** The table both share *)

Notation table := (list (option (list Z))).

(** [array[i]], where [i] may be negative. *)
Definition slot (a : table) (i : Z) : option (option (list Z)) := if i <? 0 then None else a !! Z.to_nat i.

Definition chunk_of {S} (a : table) (index : Z) : M S (list Z) :=
  c ← demand OutOfBounds (slot a (idx_array_index index));
  demand NullDeref c.

Definition read_entry {S} (a : table) (index : Z) : M S Z :=
  entry ← chunk_of a index;
  demand OutOfBounds (entry !! Z.to_nat (idx_entry_index index)).

Definition write_entry {S} (a : table) (index : Z) (w : Z) : M S table :=
  entry ← chunk_of a index;
  mret (<[Z.to_nat (idx_array_index index) := Some (<[Z.to_nat (idx_entry_index index) := w]> entry)]> a).

(** ** The indexer *)

Record indexer : Set := mk_indexer { idx_array : table; free_list : Z; idx_size : Z }.

(** The member [next] of the union: its low half, read as an [int]. *)
Definition next_of (w : Z) : Z := to_signed 32 w.
Definition set_next (w next : Z) : Z := w - wrap 32 w + wrap 32 next.

(** The loop over [i] from [IDX_ENTRY_SIZE - 2] down to zero. *)
Fixpoint link_entries (i : nat) (start_index : Z) (entry : list Z) : list Z :=
  match i with
  | O => entry
  | S i => link_entries i start_index (alter (fun w => set_next w (start_index + Z.of_nat i + 1)) i entry)
  end.

Definition idx_grow (calloc_ok : bool) : M indexer Z :=
  idx ← get;
  if IDX_ARRAY_SIZE <=? idx_size idx then mret (-1)
  else if negb calloc_ok then
    _ ← modify (fun idx => mk_indexer (<[Z.to_nat (idx_size idx) := None]> (idx_array idx)) (free_list idx) (idx_size idx));
    mret (-1)
  else
    let start_index := Z.shiftl (idx_size idx) IDX_ENTRY_BITS in
    let entry := alter (fun w => set_next w (free_list idx)) 1023%nat nulls in
    let entry := link_entries 1023 start_index entry in
    let first := if start_index =? 0 then start_index + 1 else start_index in
    _ ← modify (fun idx => mk_indexer (<[Z.to_nat (idx_size idx) := Some entry]> (idx_array idx)) first (idx_size idx + 1));
    mret first.

Definition idx_insert (calloc_ok : bool) (item : Z) : M indexer Z :=
  idx ← get;
  index ← (if free_list idx =? 0 then idx_grow calloc_ok else mret (free_list idx));
  if index <=? 0 then mret index
  else
    idx ← get;
    w ← read_entry (idx_array idx) index;
    a ← write_entry (idx_array idx) index item;
    _ ← modify (fun idx => mk_indexer a (next_of w) (idx_size idx));
    mret index.

Definition idx_remove (index : Z) : M indexer Z :=
  idx ← get;
  item ← read_entry (idx_array idx) index;
  a ← write_entry (idx_array idx) index (set_next item (free_list idx));
  _ ← modify (fun idx => mk_indexer a index (idx_size idx));
  mret item.

Definition idx_replace (index item : Z) : M indexer unit :=
  idx ← get;
  a ← write_entry (idx_array idx) index item;
  modify (fun idx => mk_indexer a (free_list idx) (idx_size idx)).

Definition idx_at (index : Z) : M indexer Z :=
  idx ← get;
  read_entry (idx_array idx) index.

(** The caller clears [free_list] and [size]; the slots may hold anything. *)
Definition idx_init (garbage : table) : indexer := mk_indexer garbage 0 0.

(** ** The index map *)

Definition idm_grow (calloc_ok : bool) (index : Z) : M table Z :=
  a ← get;
  _ ← demand OutOfBounds (slot a (idx_array_index index));
  _ ← modify (<[Z.to_nat (idx_array_index index) := if calloc_ok then Some nulls else None]>);
  mret (if calloc_ok then index else -1).

Definition idm_set (calloc_ok : bool) (index item : Z) : M table Z :=
  if IDX_MAX_INDEX <? index then mret (-1)
  else
    a ← get;
    c ← demand OutOfBounds (slot a (idx_array_index index));
    ret ← (if negb (bool_decide (is_Some c)) then idm_grow calloc_ok index else mret 0);
    if ret <? 0 then mret (-1)
    else
      a ← get;
      a ← write_entry a index item;
      _ ← modify (fun _ => a);
      mret index.

Definition idm_clear (index : Z) : M table Z :=
  a ← get;
  item ← read_entry a index;
  a ← write_entry a index 0;
  _ ← modify (fun _ => a);
  mret item.

Definition idm_at (index : Z) : M table Z :=
  a ← get;
  read_entry a index.

Definition idm_lookup (index : Z) : M table Z :=
  if index <=? IDX_MAX_INDEX then
    a ← get;
    c ← demand OutOfBounds (slot a (idx_array_index index));
    if bool_decide (is_Some c) then idm_at index else mret 0
  else mret 0.

(** ** A table as the words at its indices *)

Definition word (a : table) (i : Z) : option Z :=
  if i <? 0 then None else
  match a !! Z.to_nat (i / 1024) with
  | Some (Some c) => c !! Z.to_nat (i mod 1024)
  | _ => None
  end.

Lemma array_index_div i : idx_array_index i = i / 1024.
Proof. unfold idx_array_index, IDX_ENTRY_BITS. by rewrite Z.shiftr_div_pow2. Qed.

Lemma entry_index_mod i : idx_entry_index i = i mod 1024.
Proof. unfold idx_entry_index, IDX_ENTRY_SIZE. change (1024 - 1) with (Z.ones 10). by rewrite Z.land_ones. Qed.

Lemma index_split i j : 0 <= i -> 0 <= j -> Z.to_nat (i / 1024) = Z.to_nat (j / 1024) -> Z.to_nat (i mod 1024) = Z.to_nat (j mod 1024) -> i = j.
Proof.
  intros Hi Hj H1 H2. pose proof (Z.div_mod i 1024). pose proof (Z.div_mod j 1024). pose proof (Z.mod_pos_bound i 1024).
  pose proof (Z.mod_pos_bound j 1024). pose proof (Z.div_pos i 1024). pose proof (Z.div_pos j 1024). lia.
Qed.

Lemma read_entry_run {S} a i w (s : S) : word a i = Some w -> read_entry a i s = Done w s.
Proof.
  unfold word, read_entry, chunk_of, slot. rewrite array_index_div, entry_index_mod. intros H.
  destruct (Z.ltb_spec i 0); [done|]. pose proof (Z.div_pos i 1024). rewrite (proj2 (Z.ltb_ge _ _)) by lia.
  unfold mbind, M_bind, demand. destruct (a !! _) as [[c|]|]; cbn; [by rewrite H|done..].
Qed.

(** The table after a write at [i]. *)
Definition written (a : table) (i w : Z) (a' : table) : Prop :=
  length a' = length a /\ word a' i = Some w /\ (forall j, j <> i -> word a' j = word a j) /\
  (forall k, (exists c, a !! k = Some (Some c) /\ length c = 1024%nat) -> exists c, a' !! k = Some (Some c) /\ length c = 1024%nat) /\
  (forall k, is_Some (a' !! k ≫= id) -> is_Some (a !! k ≫= id)).

Lemma write_run {S} a i w w0 (s : S) : word a i = Some w0 -> exists a', write_entry a i w s = Done a' s /\ written a i w a'.
Proof.
  unfold word, write_entry, chunk_of, slot. rewrite array_index_div, entry_index_mod. intros H.
  destruct (Z.ltb_spec i 0); [done|]. pose proof (Z.div_pos i 1024). rewrite (proj2 (Z.ltb_ge _ _)) by lia.
  unfold mbind, M_bind, demand. destruct (a !! _) as [[c|]|] eqn:E; [|done..]. cbn. eexists. split; [reflexivity|].
  pose proof (lookup_lt_Some _ _ _ E). pose proof (lookup_lt_Some _ _ _ H). split_and!.
  - apply length_insert.
  - unfold word. rewrite (proj2 (Z.ltb_ge _ _)) by lia. rewrite list_lookup_insert_eq by done. by apply list_lookup_insert_eq.
  - intros j Hj. unfold word. destruct (Z.ltb_spec j 0); [done|]. destruct (decide (Z.to_nat (j / 1024) = Z.to_nat (i / 1024))) as [Ej|Ej].
    + rewrite Ej, list_lookup_insert_eq, E by done. apply list_lookup_insert_ne. intros Em. apply Hj. by apply index_split.
    + by rewrite list_lookup_insert_ne by done.
  - intros k (c' & Hk & Hl). destruct (decide (k = Z.to_nat (i / 1024))) as [->|Hn].
    + rewrite list_lookup_insert_eq by done. eexists. split; [done|]. rewrite length_insert. congruence.
    + rewrite list_lookup_insert_ne by done. eauto.
  - intros k Hk. destruct (decide (k = Z.to_nat (i / 1024))) as [->|Hn]; [by rewrite E|]. by rewrite list_lookup_insert_ne in Hk.
Qed.

(** ** The free list *)

Fixpoint chain (a : table) (start : Z) (fl : list Z) : Prop :=
  match fl with
  | [] => start = 0
  | i :: fl => start = i /\ exists w, word a i = Some w /\ chain a (next_of w) fl
  end.

Lemma free_chain_ext a a' fl : (forall i, i ∈ fl -> word a' i = word a i) -> forall start, chain a start fl -> chain a' start fl.
Proof.
  induction fl as [|i fl IH]; intros Hw start Hc; [done|]. destruct Hc as (-> & w & Hi & Hc). split; [done|].
  exists w. split; [rewrite Hw by set_solver; done|]. apply IH; [|done]. set_solver.
Qed.

Lemma wrap_set_next w n : wrap 32 (set_next w n) = wrap 32 n.
Proof.
  unfold set_next, wrap. rewrite Zplus_mod_idemp_r, <-Zplus_mod_idemp_l.
  rewrite Zminus_mod_idemp_r, Z.sub_diag. done.
Qed.

Lemma next_set_next w n : 0 <= n < 2 ^ 31 -> next_of (set_next w n) = n.
Proof.
  intros H. unfold next_of, to_signed. rewrite wrap_set_next, wrap_small by (split; lia).
  by rewrite (proj2 (Z.ltb_lt _ _)) by lia.
Qed.

Lemma link_entries_lookup start n : forall e k,
  link_entries n start e !! k = if decide (k < n)%nat then (fun w => set_next w (start + Z.of_nat k + 1)) <$> e !! k else e !! k.
Proof.
  induction n as [|n IH]; intros e k; cbn [link_entries]; [done|]. rewrite IH. destruct (decide (k = n)) as [->|Hn].
  - rewrite decide_False, decide_True by lia. apply list_lookup_alter_eq.
  - rewrite list_lookup_alter_ne by done. repeat case_decide; lia || done.
Qed.

Lemma length_link_entries n start : forall e, length (link_entries n start e) = length e.
Proof. induction n as [|n IH]; intros e; cbn [link_entries]; [done|]. rewrite IH. apply length_alter. Qed.

(** The chunk [idx_grow] makes when the free list is empty. *)
Definition fresh (start : Z) : list Z := link_entries 1023 start (alter (fun w => set_next w 0) 1023%nat nulls).

Lemma fresh_next start k : (k < 1024)%nat -> 0 <= start < 2 ^ 30 ->
  exists w, fresh start !! k = Some w /\ next_of w = if decide (k = 1023)%nat then 0 else start + Z.of_nat k + 1.
Proof.
  intros Hk Hs. unfold fresh. rewrite link_entries_lookup. destruct (decide (k = 1023)%nat) as [->|Hn].
  - rewrite decide_False, list_lookup_alter_eq by lia; unfold nulls; rewrite lookup_replicate_2 by lia. eexists. split; [done|]. by apply next_set_next.
  - rewrite decide_True, list_lookup_alter_ne by lia; unfold nulls; rewrite lookup_replicate_2 by lia. eexists. split; [done|]. apply next_set_next. lia.
Qed.

Lemma chain_seq a n : forall start last, last = start + Z.of_nat n -> 
  (forall i, start <= i < last -> exists w, word a i = Some w /\ next_of w = if decide (i + 1 = last) then 0 else i + 1) ->
  (0 < n)%nat -> chain a start (seqZ start (Z.of_nat n)).
Proof.
  induction n as [|n IH]; intros start last Hl Hw Hn; [lia|].
  rewrite seqZ_cons by lia. split; [done|]. destruct (Hw start) as (w & Hw1 & Hw2); [lia|]. exists w. split; [done|].
  replace (Z.pred (Z.of_nat (S n))) with (Z.of_nat n) by lia. rewrite Hw2. destruct n as [|n].
  - rewrite decide_True by lia. done.
  - rewrite decide_False by lia. apply (IH _ last); [lia| |lia]. intros i Hi. apply Hw. lia.
Qed.

(** ** The invariant *)

Record idx_inv (s : indexer) (fl : list Z) (m : gmap Z Z) : Prop := mk_inv {
  inv_length : length (idx_array s) = 64%nat;
  inv_size : 0 <= idx_size s <= 64;
  inv_chunks k : (k < Z.to_nat (idx_size s))%nat -> exists c, idx_array s !! k = Some (Some c) /\ length c = 1024%nat;
  inv_chain : chain (idx_array s) (free_list s) fl;
  inv_free i : i ∈ fl -> 1 <= i < idx_size s * 1024;
  inv_nodup : NoDup fl;
  inv_dom i : is_Some (m !! i) <-> 1 <= i < idx_size s * 1024 /\ i ∉ fl;
  inv_item i v : m !! i = Some v -> word (idx_array s) i = Some v;
}.

Lemma word_in_range (a : table) size i : (forall k, (k < Z.to_nat size)%nat -> exists c, a !! k = Some (Some c) /\ length c = 1024%nat) ->
  0 <= i < size * 1024 -> exists w, word a i = Some w.
Proof.
  intros Hc Hi. unfold word. rewrite (proj2 (Z.ltb_ge _ _)) by lia.
  assert (i / 1024 < size) by (apply Z.div_lt_upper_bound; lia). pose proof (Z.div_pos i 1024).
  destruct (Hc (Z.to_nat (i / 1024))) as (c & -> & Hl); [lia|]. pose proof (Z.mod_pos_bound i 1024).
  apply lookup_lt_is_Some_2. lia.
Qed.

(** Indices that were handed out or are ready to be. *)
Lemma inv_word s fl m i : idx_inv s fl m -> i ∈ fl \/ is_Some (m !! i) -> exists w, word (idx_array s) i = Some w.
Proof.
  intros Hi H. apply (word_in_range _ (idx_size s)); [apply Hi|]. destruct H as [H|H].
  - apply (inv_free _ _ _ Hi) in H. lia.
  - apply (inv_dom _ _ _ Hi) in H. lia.
Qed.

Lemma word_new_chunk (a : table) k c i : (k < length a)%nat -> 0 <= i ->
  word (<[k := Some c]> a) i = if decide (Z.to_nat (i / 1024) = k) then c !! Z.to_nat (i mod 1024) else word a i.
Proof.
  intros Hk Hi. unfold word. rewrite (proj2 (Z.ltb_ge _ _)) by lia. case_decide as E.
  - by rewrite E, list_lookup_insert_eq.
  - by rewrite list_lookup_insert_ne.
Qed.

Lemma fresh_word (a : table) size i : (Z.to_nat size < length a)%nat -> 0 <= size < 64 -> size * 1024 <= i < (size + 1) * 1024 ->
  exists w, word (<[Z.to_nat size := Some (fresh (size * 1024))]> a) i = Some w /\
    next_of w = if decide (i + 1 = (size + 1) * 1024) then 0 else i + 1.
Proof.
  intros Hl Hs Hi. rewrite word_new_chunk by lia.
  assert (E : i / 1024 = size) by (symmetry; apply (Z.div_unique i 1024 size (i - size * 1024)); lia).
  assert (Em : i mod 1024 = i - size * 1024) by (pose proof (Z.div_mod i 1024); lia).
  rewrite decide_True by lia. rewrite Em. destruct (fresh_next (size * 1024) (Z.to_nat (i - size * 1024))) as (w & Hw & Hn); [lia..|].
  exists w. split; [done|]. rewrite Hn. repeat case_decide; lia.
Qed.

(** Growing an exhausted table makes 1024 indices free, all but index zero. *)
Lemma grow_inv s m : idx_inv s [] m -> idx_size s < 64 ->
  exists s' first n, idx_grow true s = Done first s' /\ 1 <= first /\ idx_inv s' (seqZ first n) m /\ 0 < n.
Proof.
  intros Hi Hlt. destruct Hi as [Hlen Hsize Hchunks Hchain _ _ Hdom Hitem]. cbn in Hchain.
  unfold idx_grow, IDX_ARRAY_SIZE, IDX_ENTRY_BITS. cbn [negb]. unfold mbind, M_bind, get.
  rewrite (proj2 (Z.leb_gt _ _)) by lia. cbn [modify mret M_ret]. rewrite Hchain, Z.shiftl_mul_pow2 by lia. change (2 ^ 10) with 1024.
  fold (fresh (idx_size s * 1024)). set (first := if idx_size s * 1024 =? 0 then _ else _).
  assert (Hf : idx_size s * 1024 <= first /\ 1 <= first <= idx_size s * 1024 + 1).
  { unfold first. destruct (Z.eqb_spec (idx_size s * 1024) 0); lia. }
  exists (mk_indexer (<[Z.to_nat (idx_size s) := Some (fresh (idx_size s * 1024))]> (idx_array s)) first (idx_size s + 1)),
    first, ((idx_size s + 1) * 1024 - first).
  split; [done|]. split; [lia|]. split; [|lia]. split; cbn [idx_array free_list idx_size].
  - by rewrite length_insert.
  - lia.
  - intros k Hk. destruct (decide (k = Z.to_nat (idx_size s))) as [->|Hn].
    + rewrite list_lookup_insert_eq by lia. eexists. split; [done|]. unfold fresh.
      rewrite length_link_entries, length_alter. apply length_replicate.
    + rewrite list_lookup_insert_ne by done. apply Hchunks. lia.
  - rewrite <-(Z2Nat.id ((idx_size s + 1) * 1024 - first)) by lia. apply (chain_seq _ _ _ ((idx_size s + 1) * 1024)); [lia| |lia].
    intros i Hi'. apply fresh_word; lia.
  - intros i Hi'%elem_of_seqZ. lia.
  - apply NoDup_seqZ.
  - intros i. rewrite Hdom, elem_of_seqZ. unfold first. destruct (Z.eqb_spec (idx_size s * 1024) 0); set_solver by lia.
  - intros i v Hv. assert (H : is_Some (m !! i)) by eauto. apply Hdom in H as [H _]. rewrite word_new_chunk by lia.
    assert (i / 1024 < idx_size s) by (apply Z.div_lt_upper_bound; lia). pose proof (Z.div_pos i 1024).
    rewrite decide_False by lia. by apply Hitem.
Qed.

(** Writing at an index that is in use. *)
Lemma inv_write s fl m i v a' : idx_inv s fl m -> is_Some (m !! i) -> written (idx_array s) i v a' ->
  idx_inv (mk_indexer a' (free_list s) (idx_size s)) fl (<[i := v]> m).
Proof.
  intros Hi Hm (W1 & W2 & W3 & W4 & _). destruct Hi as [Hlen Hsize Hchunks Hchain Hfree Hnd Hdom Hitem].
  pose proof (proj1 (Hdom i) Hm) as [Hr Hnf]. split; cbn [idx_array free_list idx_size]; try done.
  - congruence.
  - auto.
  - apply (free_chain_ext (idx_array s)); [|done]. intros j Hj. apply W3. by intros ->.
  - intros j. rewrite <-Hdom. rewrite lookup_insert_is_Some. destruct (decide (i = j)); naive_solver.
  - intros j u. destruct (decide (i = j)) as [->|Hn].
    + rewrite lookup_insert_eq. congruence.
    + rewrite lookup_insert_ne by done. intros Hu. rewrite W3 by done. auto.
Qed.

(** Taking the head of the free list. *)
Lemma inv_take s i fl m v w a' : idx_inv s (i :: fl) m -> word (idx_array s) i = Some w -> written (idx_array s) i v a' ->
  m !! i = None /\ idx_inv (mk_indexer a' (next_of w) (idx_size s)) fl (<[i := v]> m).
Proof.
  intros Hi Hw (W1 & W2 & W3 & W4 & _). destruct Hi as [Hlen Hsize Hchunks Hchain Hfree Hnd Hdom Hitem].
  apply list.NoDup_cons in Hnd as [Hni Hnd]. destruct Hchain as (_ & w' & Hw' & Hchain). simplify_eq.
  assert (Hm : m !! i = None) by (apply eq_None_not_Some; rewrite Hdom; set_solver).
  split; [done|]. split; cbn [idx_array free_list idx_size]; try done.
  - congruence.
  - auto.
  - apply (free_chain_ext (idx_array s)); [|done]. intros j Hj. apply W3. by intros ->.
  - intros j Hj. apply Hfree. set_solver.
  - intros j. rewrite lookup_insert_is_Some, Hdom, not_elem_of_cons. specialize (Hfree i (list_elem_of_here _ _)).
    destruct (decide (i = j)) as [<-|Hn]; split; tauto || naive_solver.
  - intros j u. destruct (decide (i = j)) as [->|Hn].
    + rewrite lookup_insert_eq. congruence.
    + rewrite lookup_insert_ne by done. intros Hu. rewrite W3 by done. auto.
Qed.

(** Returning an index to the free list. *)
Lemma inv_give s i fl m v a' : idx_inv s fl m -> m !! i = Some v -> written (idx_array s) i (set_next v (free_list s)) a' ->
  idx_inv (mk_indexer a' i (idx_size s)) (i :: fl) (delete i m).
Proof.
  intros Hi Hm (W1 & W2 & W3 & W4 & _). destruct Hi as [Hlen Hsize Hchunks Hchain Hfree Hnd Hdom Hitem].
  assert (Hr : is_Some (m !! i)) by eauto. apply Hdom in Hr as [Hr Hnf].
  assert (Hn : 0 <= free_list s < 2 ^ 31).
  { destruct fl as [|j fl]; [cbn in Hchain; lia|]. destruct Hchain as [-> _]. specialize (Hfree j). set_solver by lia. }
  split; cbn [idx_array free_list idx_size]; try done.
  - congruence.
  - auto.
  - split; [done|]. eexists. split; [done|]. rewrite next_set_next by done.
    apply (free_chain_ext (idx_array s)); [|done]. intros j Hj. apply W3. by intros ->.
  - intros j [->|Hj]%elem_of_cons; auto.
  - by apply list.NoDup_cons.
  - intros j. rewrite lookup_delete_is_Some, Hdom. set_solver.
  - intros j u [Hne Hu]%lookup_delete_Some. rewrite W3 by done. auto.
Qed.

(** ** The indexer as a map *)

Inductive op : Set := Insert (calloc_ok : bool) (item : Z) | Remove (index : Z) | Replace (index item : Z) | At (index : Z).

Definition exec (o : op) : M indexer Z :=
  match o with
  | Insert calloc_ok item => idx_insert calloc_ok item
  | Remove index => idx_remove index
  | Replace index item => _ ← idx_replace index item; mret 0
  | At index => idx_at index
  end.

(** The caller gives back, replaces and looks up indices it holds. *)
Definition allowed (m : gmap Z Z) (o : op) : Prop :=
  match o with
  | Insert _ _ => True
  | Remove index | Replace index _ | At index => is_Some (m !! index)
  end.

(** An insertion gives an index that nobody holds; it fails only when all
    indices made so far are held and there are no more or no memory for more.
    The other operations give the item. *)
Definition result_ok (m : gmap Z Z) (o : op) (ret : Z) : Prop :=
  match o with
  | Insert calloc_ok _ =>
      1 <= ret <= IDX_MAX_INDEX /\ m !! ret = None \/
      ret = -1 /\ exists n, (forall i, is_Some (m !! i) <-> 1 <= i < n) /\ (n = IDX_MAX_INDEX + 1 \/ calloc_ok = false)
  | Remove index | At index => m !! index = Some ret
  | Replace _ _ => ret = 0
  end.

Definition after (m : gmap Z Z) (o : op) (ret : Z) : gmap Z Z :=
  match o with
  | Insert _ item => if ret <? 0 then m else <[ret := item]> m
  | Remove index => delete index m
  | Replace index item => <[index := item]> m
  | At _ => m
  end.

Lemma take_first s i fl m item : idx_inv s (i :: fl) m ->
  exists s', (w ← read_entry (idx_array s) i; a ← write_entry (idx_array s) i item;
              _ ← modify (fun idx => mk_indexer a (next_of w) (idx_size idx)); mret i) s = Done i s' /\
    result_ok m (Insert true item) i /\ idx_inv s' fl (<[i := item]> m).
Proof.
  intros Hi. destruct (inv_word s _ m i Hi) as [w Hw]; [set_solver|].
  destruct (write_run (idx_array s) i item w s Hw) as (a' & Ha & Hwr).
  destruct (inv_take s i fl m item w a' Hi Hw Hwr) as [Hm Hi'].
  exists (mk_indexer a' (next_of w) (idx_size s)). split; [|split; [|done]].
  - unfold mbind, M_bind. rewrite (read_entry_run _ _ w), Ha by done. done.
  - left. split; [|done]. pose proof (inv_free _ _ _ Hi i). pose proof (inv_size _ _ _ Hi). unfold IDX_MAX_INDEX. set_solver by lia.
Qed.

Lemma insert_step s fl m ok item : idx_inv s fl m ->
  exists ret s' fl', idx_insert ok item s = Done ret s' /\ result_ok m (Insert ok item) ret /\
    idx_inv s' fl' (after m (Insert ok item) ret).
Proof.
  intros Hi. destruct fl as [|i fl].
  - pose proof (inv_chain _ _ _ Hi) as Hc. cbn in Hc. pose proof (inv_size _ _ _ Hi) as Hs.
    destruct (decide (idx_size s = 64 \/ ok = false)) as [Hf|Hf].
    + assert (Hres : result_ok m (Insert ok item) (-1)).
      { right. split; [done|]. exists (idx_size s * 1024). split; [|unfold IDX_MAX_INDEX; naive_solver lia].
        intros i. rewrite (inv_dom _ _ _ Hi). set_solver. }
      unfold idx_insert, idx_grow, mbind, M_bind, get. rewrite Hc. cbn [Z.eqb]. unfold IDX_ARRAY_SIZE.
      destruct (Z.leb_spec 64 (idx_size s)) as [Hge|Hge]; [by exists (-1), s, []|].
      destruct Hf as [?| ->]; [lia|]. eexists (-1), _, []. split; [reflexivity|]. split; [done|]. cbn [after Z.ltb Z.compare].
      destruct Hi as [Hlen Hsize Hchunks Hchain Hfree Hnd Hdom Hitem]. split; cbn [idx_array free_list idx_size]; try done.
      * by rewrite length_insert.
      * intros k Hk. rewrite list_lookup_insert_ne by lia. by apply Hchunks.
      * intros i v Hv. assert (H : is_Some (m !! i)) by eauto. apply Hdom in H as [H _].
        rewrite <-(Hitem i v Hv). unfold word. assert (i / 1024 < idx_size s) by (apply Z.div_lt_upper_bound; lia).
        pose proof (Z.div_pos i 1024). by rewrite list_lookup_insert_ne by lia.
    + destruct ok; [|tauto]. destruct (grow_inv s m Hi) as (s1 & first & n & Hg & H1 & Hi1 & Hn); [lia|].
      rewrite seqZ_cons in Hi1 by done. destruct (take_first _ _ _ _ item Hi1) as (s' & Hr & Hres & Hi').
      exists first, s'. eexists. split_and!; [|done|cbn [after]; rewrite (proj2 (Z.ltb_ge _ _)) by lia; exact Hi'].
      unfold idx_insert. unfold mbind at 1 2, M_bind at 1 2, get at 1. rewrite Hc. cbn [Z.eqb]. rewrite Hg.
      rewrite (proj2 (Z.leb_gt _ _)) by lia. exact Hr.
  - pose proof (inv_free _ _ _ Hi i) as Hf. destruct (inv_chain _ _ _ Hi) as [Hc _].
    destruct (take_first _ _ _ _ item Hi) as (s' & Hr & Hres & Hi').
    assert (1 <= i) by set_solver. exists i, s', fl.
    split_and!; [|left; by destruct Hres as [|[-> _]]|cbn [after]; rewrite (proj2 (Z.ltb_ge _ _)) by lia; exact Hi'].
    unfold idx_insert. unfold mbind at 1 2, M_bind at 1 2, get at 1. rewrite Hc, (proj2 (Z.eqb_neq _ _)) by lia.
    cbn [mret M_ret]. rewrite (proj2 (Z.leb_gt _ _)) by lia. exact Hr.
Qed.

Lemma exec_step s fl m o : idx_inv s fl m -> allowed m o ->
  exists ret s' fl', exec o s = Done ret s' /\ result_ok m o ret /\ idx_inv s' fl' (after m o ret).
Proof.
  intros Hi Ha. destruct o as [ok item|i|i item|i]; cbn [allowed exec result_ok after] in *.
  - by apply insert_step with fl.
  - destruct Ha as [v Hv]. pose proof (inv_item _ _ _ Hi _ _ Hv) as Hw.
    destruct (write_run (idx_array s) i (set_next v (free_list s)) v s Hw) as (a' & Ha & Hwr).
    exists v, (mk_indexer a' i (idx_size s)), (i :: fl). split_and!; [|done|by eapply inv_give].
    unfold idx_remove, mbind, M_bind, get. rewrite (read_entry_run _ _ v), Ha by done. done.
  - destruct (inv_word s fl m i Hi) as [w Hw]; [by right|].
    destruct (write_run (idx_array s) i item w s Hw) as (a' & Ha' & Hwr).
    exists 0, (mk_indexer a' (free_list s) (idx_size s)), fl. split_and!; [|done|by apply inv_write].
    unfold idx_replace, mbind, M_bind, get. rewrite Ha'. done.
  - destruct Ha as [v Hv]. exists v, s, fl. split_and!; [|done..].
    unfold idx_at, mbind, M_bind, get. by apply read_entry_run, (inv_item _ _ _ Hi).
Qed.

(** The states an indexer goes through, with the indices its callers hold. *)
Inductive history : indexer -> gmap Z Z -> Prop :=
| history_init garbage : length garbage = 64%nat -> history (idx_init garbage) ∅
| history_step s m o ret s' : history s m -> allowed m o -> exec o s = Done ret s' -> history s' (after m o ret).

Lemma history_inv s m : history s m -> exists fl, idx_inv s fl m.
Proof.
  induction 1 as [garbage Hl|s m o ret s' Hh [fl Hi] Ha He].
  - exists []. split; cbn; try done; try lia; [set_solver|apply NoDup_nil_2|].
    intros i. rewrite lookup_empty. split; [by intros []|lia].
  - destruct (exec_step s fl m o Hi Ha) as (ret' & s'' & fl' & He' & _ & Hi'). rewrite He in He'. simplify_eq. by exists fl'.
Qed.

(** C29: the indexer is a map from indices to items.  After any sequence of
    operations in which callers give back, replace and look up only indices
    they hold, from whatever the slots first contained, the next operation
    touches no memory outside the table: an insertion gives an index between 1
    and 65535 that nobody holds, and fails only when every index made so far
    is held and the table is full or memory is out; a look-up or a removal
    gives the item last stored; and the items of all other indices stay,
    although links of the free list and items share the same words. *)
Theorem indexer_refines_map s m o (Hh : history s m) (Ha : allowed m o) :
  exists ret s', exec o s = Done ret s' /\ result_ok m o ret /\ history s' (after m o ret) /\
    forall i v, after m o ret !! i = Some v -> exec (At i) s' = Done v s'.
Proof.
  destruct (history_inv s m Hh) as [fl Hi]. destruct (exec_step s fl m o Hi Ha) as (ret & s' & fl' & He & Hr & Hi').
  exists ret, s'. split_and!; [done..|by eapply history_step|]. intros i v Hv.
  unfold exec, idx_at, mbind, M_bind, get. by apply read_entry_run, (inv_item _ _ _ Hi').
Qed.

Definition demo_slots : table := replicate 64 None.

Lemma indexer_refines_map_witness : exists s ret s', history s (<[1 := 700]> ∅) /\
  exec (Insert true 800) s = Done ret s' /\ history s' (after (<[1 := 700]> ∅) (Insert true 800) ret).
Proof.
  assert (Hh : exists s, history s (<[1 := 700]> ∅)).
  { eexists. change (<[1 := 700]> ∅) with (after ∅ (Insert true 700) 1).
    eapply history_step; [apply (history_init demo_slots); reflexivity|exact I|vm_compute; reflexivity]. }
  destruct Hh as [s Hh]. destruct (indexer_refines_map s _ (Insert true 800) Hh I) as (ret & s' & He & _ & Hh' & _).
  exists s, ret, s'. auto.
Defined.

(** ** The index map *)

Definition idm_wf (a : table) : Prop :=
  length a = 64%nat /\ forall k c, a !! k = Some (Some c) -> length c = 1024%nat.

(** The item of an index; null when its chunk does not exist. *)
Definition idm_view (a : table) (i : Z) : Z := default 0 (word a i).

Lemma slot_in_range (a : table) i : length a = 64%nat -> 0 <= i <= IDX_MAX_INDEX ->
  exists c, slot a (idx_array_index i) = Some c /\ a !! Z.to_nat (i / 1024) = Some c.
Proof.
  intros Hl Hi. unfold IDX_MAX_INDEX in Hi. rewrite array_index_div. unfold slot. pose proof (Z.div_pos i 1024).
  assert (i / 1024 < 64) by (apply Z.div_lt_upper_bound; lia). rewrite (proj2 (Z.ltb_ge _ _)) by lia.
  destruct (lookup_lt_is_Some_2 a (Z.to_nat (i / 1024))) as [c Hc]; [lia|]. by exists c.
Qed.

(** A look-up gives the item, for any index that is not negative. *)
Lemma idm_lookup_run a i : idm_wf a -> 0 <= i -> idm_lookup i a = Done (idm_view a i) a.
Proof.
  intros [Hl Hc] Hi. unfold idm_lookup. destruct (Z.leb_spec i IDX_MAX_INDEX) as [Hle|Hgt].
  - destruct (slot_in_range a i Hl) as (c & Hs & Ha); [done|]. unfold mbind, M_bind, get. rewrite Hs. cbn [demand mret M_ret].
    case_bool_decide as E.
    + destruct E as [e ->]. unfold idm_at, mbind, M_bind, get. assert (Hw : exists w, word a i = Some w).
      { unfold word. rewrite (proj2 (Z.ltb_ge _ _)), Ha by lia. apply lookup_lt_is_Some_2. rewrite (Hc _ _ Ha).
        pose proof (Z.mod_pos_bound i 1024). lia. }
      destruct Hw as [w Hw]. unfold idm_view. rewrite Hw. by apply read_entry_run.
    + unfold idm_view, word. rewrite (proj2 (Z.ltb_ge _ _)), Ha by lia. destruct c; [naive_solver|done].
  - unfold idm_view, word. rewrite (proj2 (Z.ltb_ge _ _)) by lia. unfold IDX_MAX_INDEX in Hgt.
    assert (64 <= i / 1024) by (apply Z.div_le_lower_bound; lia). by rewrite lookup_ge_None_2 by lia.
Qed.

(** An entry of a chunk that exists can be written. *)
Lemma idm_write a i v : idm_wf a -> 0 <= i -> (exists c, a !! Z.to_nat (i / 1024) = Some (Some c)) ->
  exists a', write_entry a i v a = Done a' a /\ idm_wf a' /\ idm_view a' i = v /\ forall j, j <> i -> idm_view a' j = idm_view a j.
Proof.
  intros [Hl Hc] Hi [c Ha]. assert (Hw : exists w, word a i = Some w).
  { unfold word. rewrite (proj2 (Z.ltb_ge _ _)), Ha by lia. apply lookup_lt_is_Some_2. rewrite (Hc _ _ Ha).
    pose proof (Z.mod_pos_bound i 1024). lia. }
  destruct Hw as [w Hw]. destruct (write_run a i v w a Hw) as (a' & Hr & W1 & W2 & W3 & W4 & W5).
  exists a'. split; [done|]. unfold idm_view. rewrite W2. split_and!; [split; [congruence|]|done|intros j Hj; by rewrite W3].
  intros k c' Hk. destruct (W5 k) as [c'' Hk']; [rewrite Hk; by eexists|].
  destruct (a !! k) as [o|] eqn:E; [|done]. cbn in Hk'. unfold id in Hk'. subst o.
  destruct (W4 k) as (c3 & Hc3 & Hl3); [eauto|]. congruence.
Qed.

(** A chunk of nulls in an empty slot changes no item. *)
Lemma idm_new_chunk a k : idm_wf a -> a !! k = Some None ->
  idm_wf (<[k := Some nulls]> a) /\ forall j, idm_view (<[k := Some nulls]> a) j = idm_view a j.
Proof.
  intros [Hl Hc] Hk. pose proof (lookup_lt_Some _ _ _ Hk). split; [split|].
  - by rewrite length_insert.
  - intros k' c. destruct (decide (k = k')) as [<-|Hn].
    + rewrite list_lookup_insert_eq by done. intros E. replace c with nulls by congruence. apply length_replicate.
    + rewrite list_lookup_insert_ne by done. apply Hc.
  - intros j. unfold idm_view. destruct (Z.ltb_spec j 0) as [Hj|Hj]; [unfold word; by rewrite (proj2 (Z.ltb_lt _ _))|].
    rewrite word_new_chunk by done. case_decide as E; [|done]. unfold word. rewrite (proj2 (Z.ltb_ge _ _)), E, Hk by done.
    pose proof (Z.mod_pos_bound j 1024). unfold nulls. by rewrite lookup_replicate_2 by lia.
Qed.

(** Setting an item: the index is refused above the maximum, an error when
    there is no memory for a chunk, and otherwise holds the item, all other
    indices as before. *)
Lemma idm_set_run a ok i v : idm_wf a -> 0 <= i ->
  exists ret a', idm_set ok i v a = Done ret a' /\ idm_wf a' /\
    (ret = -1 /\ (IDX_MAX_INDEX < i \/ ok = false) /\ (forall j, idm_view a' j = idm_view a j) \/
     ret = i /\ idm_view a' i = v /\ forall j, j <> i -> idm_view a' j = idm_view a j).
Proof.
  intros Hwf Hi. unfold idm_set. destruct (Z.ltb_spec IDX_MAX_INDEX i) as [Hgt|Hle].
  { exists (-1), a. split_and!; [done..|]. left. auto. }
  destruct Hwf as [Hl Hc]. destruct (slot_in_range a i Hl) as (c & Hs & Ha); [done|].
  assert (Hk : (Z.to_nat (i / 1024) < length a)%nat) by (by eapply lookup_lt_Some).
  unfold mbind, M_bind, get. rewrite Hs. cbn [demand mret M_ret].
  destruct c as [e|].
  - destruct (idm_write a i v (conj Hl Hc)) as (a' & Hw & Hwf' & Hv & Ho); [lia|by exists e|].
    exists i, a'. cbn. rewrite Hw. split_and!; [done..|by right].
  - rewrite bool_decide_false by (by intros []). cbn [negb]. unfold idm_grow, mbind, M_bind, get. rewrite Hs. cbn.
    rewrite array_index_div. destruct ok.
    + rewrite (proj2 (Z.ltb_ge _ _)) by lia.
      destruct (idm_new_chunk a (Z.to_nat (i / 1024)) (conj Hl Hc) Ha) as [Hwf' Hsame].
      set (a1 := <[_ := _]> a) in *.
      destruct (idm_write a1 i v Hwf') as (a' & Hw & Hwf'' & Hv & Ho);
        [lia|eexists; by apply list_lookup_insert_eq|].
      exists i, a'. rewrite Hw. split_and!; [done..|]. right. split_and!; [done..|]. intros j Hj. by rewrite Ho, Hsame.
    + exists (-1), (<[Z.to_nat (i / 1024) := None]> a). rewrite list_insert_id by done. split_and!; [done..|]. left. auto.
Qed.

(** Clearing gives the item and leaves null. *)
Lemma idm_clear_run a i c : idm_wf a -> 0 <= i -> a !! Z.to_nat (i / 1024) = Some (Some c) ->
  exists a', idm_clear i a = Done (idm_view a i) a' /\ idm_wf a' /\ idm_view a' i = 0 /\
    forall j, j <> i -> idm_view a' j = idm_view a j.
Proof.
  intros Hwf Hi Ha. destruct (idm_write a i 0 Hwf Hi) as (a' & Hw & Hwf' & Hv & Ho); [by exists c|].
  exists a'. split_and!; try done. unfold idm_clear, mbind, M_bind, get.
  assert (Hx : exists w, word a i = Some w).
  { unfold word. rewrite (proj2 (Z.ltb_ge _ _)), Ha by lia. apply lookup_lt_is_Some_2. rewrite (proj2 Hwf _ _ Ha).
    pose proof (Z.mod_pos_bound i 1024). lia. }
  destruct Hx as [w Hx]. unfold idm_view. rewrite Hx, (read_entry_run _ _ w), Hw by done. done.
Qed.

(** A negative index passes the check against the maximum. *)
Lemma negative_index_out_of_bounds a i : i < 0 -> idm_lookup i a = Fault OutOfBounds.
Proof.
  intros Hi. unfold idm_lookup, IDX_MAX_INDEX. rewrite (proj2 (Z.leb_le _ _)) by lia. unfold mbind, M_bind, get, slot.
  rewrite array_index_div, (proj2 (Z.ltb_lt _ _)); [done|]. apply Z.div_lt_upper_bound; lia.
Qed.
