(* ===== verification/RustBase.v ===== *)
(** * What the Rust driver uses of its language and of its bit vectors

    The build profile (whether overflow checks and [debug_assert!] are compiled in),
    arithmetic on unsigned integers under it, [for] loops, and the interface of the
    bitvec crate: the operations the driver calls with the behaviour their
    documentation promises.  A panic is the fault [Panic]. *)

From Stdlib Require Import ZArith Lia.
From stdpp Require Import base list gmap numbers.
From S2P Require Import Prelude.

#[local] Open Scope Z_scope.
#[local] Open Scope cint_scope.

(** ** Language *)

(** Cargo compiles overflow checks and [debug_assert!] into the dev profile and
    leaves both out of the release profile. *)
Class Profile : Set := { debug_assertions : bool }.

Definition dev_profile : Profile := {| debug_assertions := true |}.
Definition release_profile : Profile := {| debug_assertions := false |}.

Definition panic {S A} : M S A := fail Panic.

(** [x + y], [x - y], [x * y] on [w]-bit unsigned integers. *)
Definition uadd `{Profile} {S} (w x y : Z) : M S Z :=
  if x + y <? 2 ^ w then mret (x + y)
  else if debug_assertions then panic else mret (x +{w} y).

Definition usub `{Profile} {S} (w x y : Z) : M S Z :=
  if y <=? x then mret (x - y)
  else if debug_assertions then panic else mret (x -{w} y).

Definition umul `{Profile} {S} (w x y : Z) : M S Z :=
  if x * y <? 2 ^ w then mret (x * y)
  else if debug_assertions then panic else mret (x *{w} y).

(** [x.div_ceil(y)] on unsigned integers. *)
Definition div_ceil (x y : Z) : Z := x / y + (if 0 <? x mod y then 1 else 0).

(** [for i in l { body(i) }] *)
Fixpoint for_each {S A} (l : list A) (body : A -> M S unit) : M S unit :=
  match l with
  | [] => mret tt
  | a :: l' => body a;; for_each l' body
  end.

(** A method of a field, called on the struct that holds it. *)
Definition zoom {S T A} (field : S -> T) (put : T -> S -> S) (m : M T A) : M S A := fun s =>
  match m (field s) with
  | Done a t => Done a (put t s)
  | Fault f => Fault f
  end.

(** [usize::try_from(x).ok()] of a signed integer. *)
Definition usize_try_from (x : Z) : option Z := if 0 <=? x then Some x else None.

(** [o.or(p)] *)
Definition option_or {A} (o p : option A) : option A :=
  match o with Some a => Some a | None => p end.

(** ** The bitvec crate

    [bv_bits] lists the bits from index 0 up; [None] stands for a panic. *)
Class BitVec (V : Type) : Type := {
  bv_bits : V -> list bool;
  bv_new : V;
  bv_resize : V -> Z -> bool -> V;
  bv_get : V -> Z -> option bool;
  bv_set : V -> Z -> bool -> option V;
  bv_fill_range : V -> Z -> Z -> bool -> option V;
  bv_fill : V -> bool -> V;
  bv_shift_left : V -> Z -> option V;
  bv_first_zero : V -> option Z;
}.

Definition bv_len {V} `{BitVec V} (v : V) : Z := Z.of_nat (length (bv_bits v)).

(** [resize] truncates or extends with copies of the value; [get] is [None] and [set]
    panics past the end; a range of indices must be ordered and inside the vector; [fill] keeps the length; [shift_left] moves the bits towards index 0, clears
    the bits vacated at the end and panics when shifting by more than the length;
    [first_zero] is the index of the first clear bit. *)
Class BitVecLaws (V : Type) `{BitVec V} : Prop := {
  bv_bits_new : bv_bits bv_new = [];
  bv_bits_resize v n b :
    bv_bits (bv_resize v n b) =
    take (Z.to_nat n) (bv_bits v) ++ replicate (Z.to_nat n - length (bv_bits v)) b;
  bv_set_inside v i b :
    0 <= i < bv_len v ->
    bv_bits <$> bv_set v i b = Some (<[Z.to_nat i := b]> (bv_bits v));
  bv_set_outside v i b : bv_len v <= i -> bv_set v i b = None;
  bv_get_bits v i : 0 <= i -> bv_get v i = bv_bits v !! Z.to_nat i;
  bv_fill_range_inside v lo hi b :
    0 <= lo <= hi -> hi <= bv_len v ->
    bv_bits <$> bv_fill_range v lo hi b =
    Some (take (Z.to_nat lo) (bv_bits v) ++ replicate (Z.to_nat (hi - lo)) b ++
          drop (Z.to_nat hi) (bv_bits v));
  bv_fill_range_outside v lo hi b :
    hi < lo \/ bv_len v < hi -> bv_fill_range v lo hi b = None;
  bv_bits_fill v b : bv_bits (bv_fill v b) = replicate (length (bv_bits v)) b;
  bv_shift_left_inside v n :
    0 <= n <= bv_len v ->
    bv_bits <$> bv_shift_left v n =
    Some (drop (Z.to_nat n) (bv_bits v) ++ replicate (Z.to_nat n) false);
  bv_shift_left_outside v n : bv_len v < n -> bv_shift_left v n = None;
  bv_first_zero_some v i :
    bv_first_zero v = Some i ->
    0 <= i /\ bv_bits v !! Z.to_nat i = Some false /\
    forall j, 0 <= j < i -> bv_bits v !! Z.to_nat j = Some true;
  bv_first_zero_none v :
    bv_first_zero v = None -> Forall (fun b => b = true) (bv_bits v);
}.

(** A list of booleans is such a vector. *)
Fixpoint list_first_zero (l : list bool) : option Z :=
  match l with
  | [] => None
  | false :: _ => Some 0
  | true :: l' => Z.succ <$> list_first_zero l'
  end.

#[export] Instance list_bitvec : BitVec (list bool) := {|
  bv_bits l := l;
  bv_new := [];
  bv_resize l n b := take (Z.to_nat n) l ++ replicate (Z.to_nat n - length l) b;
  bv_set l i b :=
    if (0 <=? i) && (i <? Z.of_nat (length l)) then Some (<[Z.to_nat i := b]> l) else None;
  bv_get l i := l !! Z.to_nat i;
  bv_fill_range l lo hi b :=
    if (lo <=? hi) && (hi <=? Z.of_nat (length l))
    then Some (take (Z.to_nat lo) l ++ replicate (Z.to_nat (hi - lo)) b ++
               drop (Z.to_nat hi) l)
    else None;
  bv_fill l b := replicate (length l) b;
  bv_shift_left l n :=
    if n <=? Z.of_nat (length l)
    then Some (drop (Z.to_nat n) l ++ replicate (Z.to_nat n) false) else None;
  bv_first_zero := list_first_zero;
|}.

Lemma list_first_zero_some l i :
  list_first_zero l = Some i ->
  0 <= i /\ l !! Z.to_nat i = Some false /\
  forall j, 0 <= j < i -> l !! Z.to_nat j = Some true.
Proof.
  revert i. induction l as [|b l IH]; intros i; [done|].
  destruct b; cbn.
  - destruct (list_first_zero l) as [k|]; cbn; [|done]. intros [= <-].
    destruct (IH k eq_refl) as (Hk & Hz & Hlt).
    split; [lia|]. split.
    + replace (Z.to_nat (Z.succ k)) with (S (Z.to_nat k)) by lia. exact Hz.
    + intros j Hj. destruct (decide (j = 0)) as [->|]; [reflexivity|].
      replace (Z.to_nat j) with (S (Z.to_nat (j - 1))) by lia. apply (Hlt (j - 1)). lia.
  - intros [= <-]. split; [lia|]. split; [done|lia].
Qed.

Lemma list_first_zero_none l :
  list_first_zero l = None -> Forall (fun b => b = true) l.
Proof.
  induction l as [|[] l IH]; cbn; [constructor| |done].
  destruct (list_first_zero l); cbn; [done|]. intros _. constructor; auto.
Qed.

#[export] Instance list_bitvec_laws : BitVecLaws (list bool).
Proof.
  split; unfold bv_len; cbn.
  - done.
  - done.
  - intros v i b Hi. by rewrite (proj2 (Z.leb_le 0 i)), (proj2 (Z.ltb_lt i _)) by lia.
  - intros v i b Hi. by rewrite (proj2 (Z.ltb_ge i _)), andb_false_r by lia.
  - done.
  - intros v lo hi b H1 H2. by rewrite (proj2 (Z.leb_le lo _)), (proj2 (Z.leb_le hi _)) by lia.
  - intros v lo hi b [H1|H1]; [by rewrite (proj2 (Z.leb_gt lo _)) by lia|].
    by rewrite (proj2 (Z.leb_gt hi _)), andb_false_r by lia.
  - done.
  - intros v n Hn. by rewrite (proj2 (Z.leb_le n _)) by lia.
  - intros v n Hn. by rewrite (proj2 (Z.leb_gt n _)) by lia.
  - apply list_first_zero_some.
  - apply list_first_zero_none.
Qed.

(** ** Lemmas *)

Lemma wp_zoom {S T A} (field : S -> T) (put : T -> S -> S) (m : M T A) Q s :
  wp (zoom field put m) Q s <-> wp m (fun a t => Q a (put t s)) (field s).
Proof. unfold wp, zoom. by destruct (m (field s)). Qed.

Lemma zoom_done {S T A} (field : S -> T) (put : T -> S -> S) (m : M T A) s a t :
  m (field s) = Done a t -> zoom field put m s = Done a (put t s).
Proof. unfold zoom. by intros ->. Qed.

Lemma for_each_wp {S A} (l : list A) (body : A -> M S unit) (I : list A -> S -> Prop) s :
  I [] s ->
  (forall done a rest s, l = done ++ a :: rest -> I done s ->
     wp (body a) (fun _ s' => I (done ++ [a]) s') s) ->
  wp (for_each l body) (fun _ s' => I l s') s.
Proof.
  intros H0 Hstep.
  cut (forall done rest s, l = done ++ rest -> I done s ->
         wp (for_each rest body) (fun _ s' => I l s') s); [intros H; by apply (H [])|].
  intros done rest. revert done. induction rest as [|a rest IH]; intros done s' Hl HI; cbn.
  - rewrite app_nil_r in Hl. subst. exact HI.
  - apply wp_bind. eapply wp_mono; [by eapply Hstep|]. intros [] s'' HI'.
    apply (IH (done ++ [a])); [|done]. by rewrite Hl, <- app_assoc.
Qed.

Lemma div_ceil_spec x y : 0 <= x -> 0 < y -> (div_ceil x y - 1) * y < x <= div_ceil x y * y \/ x = 0 /\ div_ceil x y = 0.
Proof.
  intros Hx Hy. unfold div_ceil.
  pose proof (Z.div_mod x y ltac:(lia)). pose proof (Z.mod_pos_bound x y Hy).
  destruct (Z.ltb_spec 0 (x mod y)); [left; nia|].
  destruct (decide (x = 0)) as [->|]; [right; rewrite Z.div_0_l by lia; lia|].
  left. nia.
Qed.

(** A bit of a resized, updated or shifted vector. *)
Lemma lookup_shift_false (l : list bool) n i :
  (drop n l ++ replicate n false) !! i = Some true <-> l !! (n + i)%nat = Some true.
Proof.
  rewrite lookup_app, lookup_drop. destruct (l !! (n + i)%nat) eqn:E; [done|].
  split; [|done]. intros H. apply lookup_replicate in H. naive_solver.
Qed.

Lemma lookup_resize_false (l : list bool) n i :
  (length l <= n)%nat ->
  (take n l ++ replicate (n - length l) false) !! i = Some true <-> l !! i = Some true.
Proof.
  intros Hn. rewrite take_ge by done. rewrite lookup_app.
  destruct (l !! i); [done|]. split; [|done].
  intros H. apply lookup_replicate in H. naive_solver.
Qed.

Lemma filter_all {A} (P : A -> Prop) `{forall x, Decision (P x)} l :
  Forall P l -> base.filter P l = l.
Proof. induction 1; [done|]. rewrite filter_cons_True by done. by f_equal. Qed.

Lemma filter_none {A} (P : A -> Prop) `{forall x, Decision (P x)} l :
  Forall (fun x => ~ P x) l -> base.filter P l = [].
Proof. induction 1; [done|]. by rewrite filter_cons_False. Qed.

Lemma exists_snoc {A} (P : A -> Prop) (l : list A) (a : A) :
  (exists i, i ∈ l ++ [a] /\ P i) <-> (exists i, i ∈ l /\ P i) \/ P a.
Proof.
  split.
  - intros (i & [Hi|Hi]%elem_of_app & HP); [by left; exists i|].
    apply list_elem_of_singleton in Hi as ->. by right.
  - intros [(i & Hi & HP)|HP]; [exists i | exists a]; (split; [|done]); apply elem_of_app.
    + by left.
    + right. by apply list_elem_of_singleton.
Qed.

(** Unsigned arithmetic that stays in range is exact in both profiles. *)
Lemma uadd_run `{Profile} {S} w x y (s : S) : x + y < 2 ^ w -> uadd w x y s = Done (x + y) s.
Proof. intros Hx. unfold uadd. by rewrite (proj2 (Z.ltb_lt _ _)). Qed.

Lemma umul_run `{Profile} {S} w x y (s : S) : x * y < 2 ^ w -> umul w x y s = Done (x * y) s.
Proof. intros Hxy. unfold umul. by rewrite (proj2 (Z.ltb_lt _ _)) by done. Qed.

Lemma usub_run `{Profile} {S} w x y (s : S) : y <= x -> usub w x y s = Done (x - y) s.
Proof. intros Hx. unfold usub. by rewrite (proj2 (Z.leb_le _ _)). Qed.

Lemma wp_uadd `{Profile} {S} w x y Q (s : S) : x + y < 2 ^ w -> Q (x + y) s -> wp (uadd w x y) Q s.
Proof. intros Hx HQ. unfold wp. by rewrite uadd_run. Qed.

Lemma wp_usub `{Profile} {S} w x y Q (s : S) : y <= x -> Q (x - y) s -> wp (usub w x y) Q s.
Proof. intros Hx HQ. unfold wp. by rewrite usub_run. Qed.

(** ** Invariants of computations that may panic *)

(** Where it returns, a computation keeps [P]. *)
Definition keeps {S A} (P : S -> Prop) (m : M S A) : Prop :=
  forall s a s', m s = Done a s' -> P s -> P s'.

Section keeps_rules.
Context {S : Type} (P : S -> Prop).

Lemma keeps_ret {A} (a : A) : keeps P (mret a).
Proof. by intros s b s' [= _ <-]. Qed.

Lemma keeps_fail {A} f : keeps P (fail f : M S A).
Proof. by intros s a s'. Qed.

Lemma keeps_bind {A B} (m : M S A) (k : A -> M S B) :
  keeps P m -> (forall a, keeps P (k a)) -> keeps P (m ≫= k).
Proof.
  intros Hm Hk s b s'. unfold mbind, M_bind. destruct (m s) as [a s1|] eqn:E; [|done].
  intros Ek HP. by eapply Hk, Hm.
Qed.

Lemma keeps_gets {A} (f : S -> A) : keeps P (gets f).
Proof. by intros s b s' [= _ <-]. Qed.

Lemma keeps_get : keeps P get.
Proof. by intros s b s' [= _ <-]. Qed.

Lemma keeps_modify (f : S -> S) : (forall s, P s -> P (f s)) -> keeps P (modify f).
Proof. intros Hf s b s' [= _ <-]. apply Hf. Qed.

Lemma keeps_demand {A} f (o : option A) : keeps P (demand f o).
Proof. destruct o; [apply keeps_ret|apply keeps_fail]. Qed.

Lemma keeps_zoom {T A} (field : S -> T) (put : T -> S -> S) (m : M T A) :
  (forall t s, P s -> P (put t s)) -> keeps P (zoom field put m).
Proof.
  intros Hp s a s'. unfold zoom. destruct (m (field s)); [|done]. intros [= _ <-]. apply Hp.
Qed.

Lemma keeps_uadd `{Profile} w x y : keeps P (uadd w x y).
Proof. unfold uadd. case_match; [apply keeps_ret|]. case_match; [apply keeps_fail|apply keeps_ret]. Qed.

Lemma keeps_usub `{Profile} w x y : keeps P (usub w x y).
Proof. unfold usub. case_match; [apply keeps_ret|]. case_match; [apply keeps_fail|apply keeps_ret]. Qed.

Lemma keeps_umul `{Profile} w x y : keeps P (umul w x y).
Proof. unfold umul. case_match; [apply keeps_ret|]. case_match; [apply keeps_fail|apply keeps_ret]. Qed.

Lemma keeps_for_each {A} (l : list A) body : (forall a, keeps P (body a)) -> keeps P (for_each l body).
Proof. intros Hb. induction l as [|a l IH]; [apply keeps_ret|]. apply keeps_bind; [apply Hb|done]. Qed.

End keeps_rules.

Create HintDb keeps discriminated.
#[export] Hint Resolve keeps_ret keeps_fail keeps_gets keeps_get keeps_demand keeps_uadd keeps_usub keeps_umul : keeps.

(** Goes through a computation; what is left are the updates of the state. *)
Ltac keeps := repeat first
  [ progress intros | solve [auto with keeps] | apply keeps_bind | apply keeps_modify | apply keeps_zoom
  | apply keeps_for_each | case_match ].
