(* ===== verification/Psn.v ===== *)
(** * Packet and message sequence numbers

    rust-driver/src/rdma_utils/psn.rs and msn.rs: 24-bit packet sequence numbers and
    16-bit message sequence numbers, their wrap-around arithmetic and their order.
    The theorems relate both to unbounded numbers: the wire number of [n] is [psn_of n]. *)

From Stdlib Require Import ZArith Lia.
From stdpp Require Import base list numbers.
From S2P Require Import Prelude RustBase.

#[local] Open Scope Z_scope.
#[local] Open Scope cint_scope.

(** ** constants.rs *)

Definition MAX_PSN_SIZE_BITS : Z := 24.
Definition MAX_PSN_WINDOW : Z := Z.shiftl 1 (MAX_PSN_SIZE_BITS - 1).
Definition PSN_MASK : Z := Z.shiftl 1 MAX_PSN_SIZE_BITS - 1.
Definition MAX_SEND_WR : Z := 0x8000.

(** ** psn.rs *)

Definition Psn : Set := Z.

Definition psn_cmp (self other : Psn) : comparison :=
  let x := Z.land (self -{32} other) PSN_MASK in
  if x =? 0 then Eq else if MAX_PSN_WINDOW <? x then Lt else Gt.

Definition psn_add (self : Psn) (rhs : Z) : Psn := Z.land (self +{32} rhs) PSN_MASK.

Definition psn_sub (self : Psn) (rhs : Z) : Psn := Z.land (self -{32} rhs) PSN_MASK.

(** The comparison operators that the standard library derives from [cmp]. *)
Definition psn_lt (a b : Psn) : bool := match psn_cmp a b with Lt => true | _ => false end.
Definition psn_le (a b : Psn) : bool := match psn_cmp a b with Gt => false | _ => true end.
Definition psn_gt (a b : Psn) : bool := match psn_cmp a b with Gt => true | _ => false end.
Definition psn_ge (a b : Psn) : bool := match psn_cmp a b with Lt => false | _ => true end.

(** ** msn.rs *)

Definition Msn : Set := Z.

Definition msn_distance (self rhs : Msn) : Z := self -{16} rhs.

Definition msn_advance {S} (self : Msn) (dlt : Z) : M S Msn :=
  if dlt <? 2 ^ 16 then mret (self +{16} dlt) else panic.

Definition msn_partial_cmp (self other : Msn) : comparison :=
  let x := self -{16} other in
  if x =? 0 then Eq else if MAX_SEND_WR <? x then Lt else Gt.

Definition msn_sub (self rhs : Msn) : Msn := self -{16} rhs.

(** ** Unbounded numbers and their wire form *)

Definition psn_of (n : Z) : Psn := n mod 2 ^ 24.
Definition msn_of (n : Z) : Msn := n mod 2 ^ 16.

Lemma land_PSN_MASK x : Z.land x PSN_MASK = x mod 2 ^ 24.
Proof. change PSN_MASK with (Z.ones 24). by apply Z.land_ones. Qed.

Lemma mod24_wrap32 x : wrap 32 x mod 2 ^ 24 = x mod 2 ^ 24.
Proof.
  unfold wrap. change (2 ^ 32) with (2 ^ 24 * 2 ^ 8). 
  rewrite Z.rem_mul_r by lia. rewrite Z.mul_comm, Z.mod_add by lia. by rewrite Zmod_mod.
Qed.

Lemma psn_of_range n : in_width 24 (psn_of n).
Proof. apply Z.mod_pos_bound. lia. Qed.

Lemma psn_of_small n : in_width 24 n -> psn_of n = n.
Proof. apply Z.mod_small. Qed.

Lemma psn_add_of n k : psn_add (psn_of n) k = psn_of (n + k).
Proof. unfold psn_add, psn_of. by rewrite land_PSN_MASK, mod24_wrap32, Zplus_mod_idemp_l. Qed.

Lemma psn_sub_of n m : psn_sub (psn_of n) (psn_of m) = psn_of (n - m).
Proof.
  unfold psn_sub, psn_of. rewrite land_PSN_MASK, mod24_wrap32.
  by rewrite Zminus_mod_idemp_l, Zminus_mod_idemp_r.
Qed.

Lemma psn_sub_of_l n k : psn_sub (psn_of n) k = psn_of (n - k).
Proof. unfold psn_sub, psn_of. by rewrite land_PSN_MASK, mod24_wrap32, Zminus_mod_idemp_l. Qed.

(** The order of two packets less than half the number space apart. *)
Lemma psn_cmp_of n m :
  - 2 ^ 23 < n - m <= 2 ^ 23 -> psn_cmp (psn_of n) (psn_of m) = (n ?= m).
Proof.
  intros H. unfold psn_cmp, psn_of.
  rewrite land_PSN_MASK, mod24_wrap32, Zminus_mod_idemp_l, Zminus_mod_idemp_r.
  change MAX_PSN_WINDOW with (2 ^ 23). cbv zeta.
  destruct (Z.compare_spec n m) as [->|Hlt|Hgt].
  - by rewrite Z.sub_diag.
  - assert (E : (n - m) mod 2 ^ 24 = n - m + 2 ^ 24) by (apply wrap_under; lia). rewrite E.
    by rewrite (proj2 (Z.eqb_neq _ _)), (proj2 (Z.ltb_lt _ _)) by lia.
  - rewrite Z.mod_small by lia.
    by rewrite (proj2 (Z.eqb_neq _ _)), (proj2 (Z.ltb_ge _ _)) by lia.
Qed.

Lemma psn_cmp_half n : psn_cmp (psn_of (n - 2 ^ 23)) (psn_of n) = Gt.
Proof.
  unfold psn_cmp, psn_of. rewrite land_PSN_MASK, mod24_wrap32, Zminus_mod_idemp_l, Zminus_mod_idemp_r.
  replace (n - 2 ^ 23 - n) with (- 2 ^ 23) by lia. reflexivity.
Qed.

Lemma msn_cmp_of n m :
  - 2 ^ 15 < n - m <= 2 ^ 15 -> msn_partial_cmp (msn_of n) (msn_of m) = (n ?= m).
Proof.
  intros H. unfold msn_partial_cmp, msn_of, wrap.
  rewrite Zminus_mod_idemp_l, Zminus_mod_idemp_r. change MAX_SEND_WR with (2 ^ 15). cbv zeta.
  destruct (Z.compare_spec n m) as [->|Hlt|Hgt].
  - by rewrite Z.sub_diag.
  - assert (E : (n - m) mod 2 ^ 16 = n - m + 2 ^ 16) by (apply wrap_under; lia). rewrite E.
    by rewrite (proj2 (Z.eqb_neq _ _)), (proj2 (Z.ltb_lt _ _)) by lia.
  - rewrite Z.mod_small by lia.
    by rewrite (proj2 (Z.eqb_neq _ _)), (proj2 (Z.ltb_ge _ _)) by lia.
Qed.

Lemma msn_distance_of n m : 0 <= n - m < 2 ^ 16 -> msn_distance (msn_of n) (msn_of m) = n - m.
Proof.
  intros H. unfold msn_distance, msn_of, wrap.
  rewrite Zminus_mod_idemp_l, Zminus_mod_idemp_r. by apply Z.mod_small.
Qed.

Lemma msn_advance_of {S} n k (s : S) :
  0 <= k < 2 ^ 16 -> msn_advance (msn_of n) k s = Done (msn_of (n + k)) s.
Proof.
  intros H. unfold msn_advance, msn_of, wrap.
  rewrite (proj2 (Z.ltb_lt _ _)) by lia. by rewrite Zplus_mod_idemp_l.
Qed.

Lemma psn_cmp_range_lt n m : - 2 ^ 23 < n - m <= 2 ^ 23 -> psn_lt (psn_of n) (psn_of m) = (n <? m).
Proof. intros H. unfold psn_lt. by rewrite psn_cmp_of, Z.ltb_compare. Qed.

Lemma psn_cmp_range_le n m : - 2 ^ 23 < n - m <= 2 ^ 23 -> psn_le (psn_of n) (psn_of m) = (n <=? m).
Proof. intros H. unfold psn_le. by rewrite psn_cmp_of, Z.leb_compare. Qed.

Lemma psn_cmp_range_gt n m : - 2 ^ 23 < n - m <= 2 ^ 23 -> psn_gt (psn_of n) (psn_of m) = (m <? n).
Proof. intros H. unfold psn_gt. rewrite psn_cmp_of, Z.ltb_compare, (Z.compare_antisym n m) by done. by destruct (n ?= m). Qed.

Lemma psn_cmp_range_ge n m : - 2 ^ 23 < n - m <= 2 ^ 23 -> psn_ge (psn_of n) (psn_of m) = (m <=? n).
Proof. intros H. unfold psn_ge. rewrite psn_cmp_of, Z.leb_compare, (Z.compare_antisym n m) by done. by destruct (n ?= m). Qed.

(** ** Properties *)

(** On packets less than 2^23 apart the order and the arithmetic of [Psn] are
    those of the unbounded packet numbers; the order of [Msn] is that of message
    numbers less than 2^15 apart.  Exactly half the number space apart each packet
    comes after the other: [cmp] is then no order. *)
Theorem sequence_number_order (n m k : Z) :
  - 2 ^ 23 < n - m < 2 ^ 23 ->
  psn_cmp (psn_of n) (psn_of m) = (n ?= m) /\
  psn_add (psn_of n) k = psn_of (n + k) /\
  psn_add (psn_of m) (psn_sub (psn_of n) (psn_of m)) = psn_of n /\
  psn_cmp (psn_of (n + 2 ^ 23)) (psn_of n) = Gt /\
  psn_cmp (psn_of n) (psn_of (n + 2 ^ 23)) = Gt /\
  (- 2 ^ 15 < n - m < 2 ^ 15 -> msn_partial_cmp (msn_of n) (msn_of m) = (n ?= m)).
Proof.
  intros H. repeat split.
  - apply psn_cmp_of. lia.
  - apply psn_add_of.
  - rewrite psn_sub_of, psn_add_of. unfold psn_of. rewrite Zplus_mod_idemp_r. f_equal. lia.
  - rewrite psn_cmp_of by lia. by apply Z.compare_gt_iff; lia.
  - rewrite <- (psn_cmp_half (n + 2 ^ 23)). do 2 f_equal. lia.
  - intros. apply msn_cmp_of. lia.
Qed.

Lemma sequence_number_order_witness :
  psn_cmp (psn_of (2 ^ 24 + 2)) (psn_of (2 ^ 24 - 1)) = Gt.
Proof.
  exact (proj1 (sequence_number_order (2 ^ 24 + 2) (2 ^ 24 - 1) 0 ltac:(lia))).
Defined.
