(* ===== verification/PsnTracker.v ===== *)
(** * Tracking acknowledged packets

    rust-driver/src/rdma_utils/psn_tracker.rs: the window of acknowledged packet
    sequence numbers kept by both ends of a queue pair, as a base PSN and a bit vector.
    The abstract window of this file holds unbounded packet numbers and a finite set;
    the tracker refines it as long as the window does not cross a multiple of 2^24,
    and loses acknowledgements that do. *)

From Stdlib Require Import ZArith Lia.
From stdpp Require Import base list gmap sets numbers.
From S2P Require Import Prelude RustBase Psn.

#[local] Open Scope Z_scope.
#[local] Open Scope cint_scope.

(** ** The code *)

Section tracker.
Context {V : Type} `{BitVec V}.

Record PsnTracker : Type := mk_tracker { base_psn : Psn; inner : V }.

Definition default_tracker : PsnTracker := mk_tracker 0 bv_new.

Definition set_inner (v : V) : M PsnTracker unit :=
  modify (fun t => mk_tracker (base_psn t) v).

Definition rstart (t : PsnTracker) (psn : Psn) : Z :=
  let x := psn -{32} base_psn t in
  if negb (Z.land (Z.shiftr x 23) 1 =? 0)
  then to_signed 32 (Z.lor x 0xFF000000)
  else to_signed 32 x.

Definition try_advance : M PsnTracker (option Psn) :=
  t ← get;
  let pos := default (bv_len (inner t)) (bv_first_zero (inner t)) in
  if pos =? 0 then mret None
  else
    v ← demand Panic (bv_shift_left (inner t) pos);
    let base := psn_add (base_psn t) (wrap 32 pos) in
    modify (fun _ => mk_tracker base v);;
    mret (Some base).

(** [self.inner.set(i, true)] *)
Definition set_bit (i : Z) : M PsnTracker unit :=
  t ← get;
  v ← demand Panic (bv_set (inner t) i true);
  set_inner v.

Definition ack_bitmap (now_psn : Psn) (bitmap : Z) : M PsnTracker (option Psn) :=
  t ← get;
  let rs := rstart t now_psn in
  let rend := rs + 128 in
  match usize_try_from rend with
  | Some x => when (bv_len (inner t) <? x) (set_inner (bv_resize (inner t) x false))
  | None => mret tt
  end;;
  for_each (seqZ (Z.max rs 0) (rend - Z.max rs 0)) (fun i =>
    let x := i - rs in
    when (Z.land (Z.shiftr bitmap x) 1 =? 1) (set_bit i));;
  try_advance.

Definition ack_before (psn : Psn) : M PsnTracker (option Psn) :=
  t ← get;
  match usize_try_from (rstart t psn) with
  | None => mret None
  | Some rs =>
      v ← (if bv_len (inner t) <=? rs then mret (bv_fill (inner t) false)
           else demand Panic (bv_shift_left (inner t) rs));
      modify (fun _ => mk_tracker psn v);;
      mret (Some psn)
  end.

Definition ack_range (psn_low psn_high : Psn) : M PsnTracker (option Psn) :=
  t ← get;
  if psn_le psn_low (base_psn t) then ack_before psn_high
  else match usize_try_from (rstart t psn_low) with
  | None => mret None
  | Some rs =>
      match usize_try_from (rstart t psn_high) with
      | None => mret None
      | Some rend =>
          when (bv_len (inner t) <=? rend) (set_inner (bv_resize (inner t) (rend + 1) false));;
          for_each (seqZ rs (rend - rs)) set_bit;;
          mret None
      end
  end.

Definition ack_one (psn : Psn) : M PsnTracker (option Psn) :=
  t ← get;
  match usize_try_from (rstart t psn) with
  | None => mret None
  | Some rs =>
      when (bv_len (inner t) <=? rs) (set_inner (bv_resize (inner t) (rs + 1) false));;
      set_bit rs;;
      try_advance
  end.

(** The tracker of received packets, fed by the device's own acknowledgements. *)
Record LocalAckTracker : Type := mk_local { l_tracker : PsnTracker; l_psn_pre : Psn }.

Definition l_call {A} : M PsnTracker A -> M LocalAckTracker A :=
  zoom l_tracker (fun t s => mk_local t (l_psn_pre s)).

Definition local_set_pre (psn : Psn) : M LocalAckTracker unit :=
  modify (fun s => if psn_lt (l_psn_pre s) psn then mk_local (l_tracker s) psn else s).

Definition local_ack_one (psn : Psn) : M LocalAckTracker (option Psn) :=
  l_call (ack_one psn).

Definition local_ack_bitmap (base : Psn) (bitmap : Z) : M LocalAckTracker (option Psn) :=
  s ← get;
  x ← l_call (ack_range (l_psn_pre s) base);
  y ← l_call (ack_bitmap base bitmap);
  local_set_pre base;;
  mret (option_or y x).

Definition local_nak_bitmap (psn_pre : Psn) (pre_bitmap : Z) (psn_now : Psn) (now_bitmap : Z) :
    M LocalAckTracker (option Psn) :=
  s ← get;
  x ← l_call (ack_range (l_psn_pre s) psn_pre);
  y ← l_call (ack_bitmap psn_pre pre_bitmap);
  z ← l_call (ack_bitmap psn_now now_bitmap);
  local_set_pre psn_now;;
  mret (option_or (option_or z y) x).

Definition local_base_psn (s : LocalAckTracker) : Psn := base_psn (l_tracker s).

(** The tracker of sent packets, fed by the peer's acknowledgements. *)
Record RemoteAckTracker : Type := mk_remote {
  r_tracker : PsnTracker; r_msn_pre : Z; r_psn_pre : Psn }.

Definition r_call {A} : M PsnTracker A -> M RemoteAckTracker A :=
  zoom r_tracker (fun t s => mk_remote t (r_msn_pre s) (r_psn_pre s)).

Definition remote_ack_before (psn : Psn) : M RemoteAckTracker (option Psn) :=
  r_call (ack_before psn).

Definition remote_nak_bitmap (msn : Z) (psn_pre : Psn) (pre_bitmap : Z) (psn_now : Psn)
    (now_bitmap : Z) : M RemoteAckTracker (option Psn) :=
  s ← get;
  x ← (if msn =? r_msn_pre s +{16} 1 then r_call (ack_range (r_psn_pre s) psn_pre)
       else mret None);
  y ← r_call (ack_bitmap psn_pre pre_bitmap);
  z ← r_call (ack_bitmap psn_now now_bitmap);
  modify (fun s => if psn_lt (r_psn_pre s) psn_now
                   then mk_remote (r_tracker s) msn psn_now else s);;
  mret (option_or (option_or z y) x).

End tracker.

Arguments PsnTracker : clear implicits.
Arguments LocalAckTracker : clear implicits.
Arguments RemoteAckTracker : clear implicits.

(** ** The abstract window

    Everything below the base is acknowledged; the set holds the acknowledged
    numbers from the base on. *)

Record window : Set := mk_window { w_base : Z; w_set : gset Z }.

Definition acked (w : window) (n : Z) : Prop := n < w_base w \/ n ∈ w_set w.

Definition mark (ns : gset Z) (w : window) : window :=
  mk_window (w_base w) (w_set w ∪ filter (fun n => w_base w <= n) ns).

(** Move the base to the first number that is not acknowledged. *)
Fixpoint settle_n (k : nat) (w : window) : window :=
  match k with
  | O => w
  | S k' =>
      if bool_decide (w_base w ∈ w_set w)
      then settle_n k' (mk_window (w_base w + 1) (w_set w ∖ {[w_base w]})) else w
  end.

Definition settle (w : window) : window := settle_n (size (w_set w)) w.

(** What a call is documented to report: the new base if it moved, and nothing if it did
    not (psn_tracker.rs:95-96, 118-119, 139-140 and 154-155). *)
Definition report (w w' : window) : option Z :=
  if w_base w <? w_base w' then Some (w_base w') else None.

Definition range_set (lo hi : Z) : gset Z := list_to_set (seqZ lo (hi - lo)).

Definition bitmap_set (n bitmap : Z) : gset Z :=
  filter (fun k => Z.testbit bitmap (k - n) = true) (range_set n (n + 128)).

Definition w_ack_one (n : Z) (w : window) : option Z * window :=
  if n <? w_base w then (None, w)
  else let w' := settle (mark {[n]} w) in (report w w', w').

Definition w_ack_bitmap (n bitmap : Z) (w : window) : option Z * window :=
  let w' := settle (mark (bitmap_set n bitmap) w) in (report w w', w').

Definition w_ack_before (n : Z) (w : window) : option Z * window :=
  let w' := if n <? w_base w then w else mk_window n (filter (fun k => n <= k) (w_set w)) in
  (report w w', w').

Definition w_ack_range (lo hi : Z) (w : window) : option Z * window :=
  if lo <=? w_base w then w_ack_before hi w
  else if hi <? w_base w then (None, w)
  else (None, mark (range_set lo hi) w).

(** ** The window *)

Definition window_wf (w : window) : Prop := forall n, n ∈ w_set w -> w_base w <= n.

Lemma elem_of_range_set n lo hi : n ∈ range_set lo hi <-> lo <= n < hi.
Proof. unfold range_set. rewrite elem_of_list_to_set, elem_of_seqZ. lia. Qed.

Lemma elem_of_bitmap_set k n bitmap :
  k ∈ bitmap_set n bitmap <-> n <= k < n + 128 /\ Z.testbit bitmap (k - n) = true.
Proof. unfold bitmap_set. rewrite elem_of_filter, elem_of_range_set. tauto. Qed.

Lemma settle_n_spec k w :
  window_wf w -> (size (w_set w) <= k)%nat ->
  let w' := settle_n k w in
  w_base w <= w_base w' /\
  (forall n, w_base w <= n < w_base w' -> n ∈ w_set w) /\
  w_base w' ∉ w_set w /\
  (forall n, n ∈ w_set w' <-> n ∈ w_set w /\ w_base w' <= n).
Proof.
  revert w. induction k as [|k IH]; intros w Hwf Hk; cbn.
  - assert (Hs : size (w_set w) = 0%nat) by lia. apply size_empty_inv in Hs.
    split; [lia|]. split; [lia|]. split; [set_solver|].
    intros n. specialize (Hwf n). set_solver.
  - case_bool_decide as Hin.
    + destruct (IH (mk_window (w_base w + 1) (w_set w ∖ {[w_base w]}))) as (H1 & H2 & H3 & H4).
      * intros n [Hn Hne]%elem_of_difference. specialize (Hwf n Hn). cbn in *.
        rewrite elem_of_singleton in Hne. lia.
      * cbn. rewrite size_difference by set_solver. rewrite size_singleton. lia.
      * cbn in *. set (w' := settle_n k _) in *. split; [lia|]. split; [|split].
        -- intros n Hn. destruct (decide (n = w_base w)) as [->|]; [done|].
           assert (n ∈ w_set w ∖ {[w_base w]}) by (apply H2; lia). set_solver.
        -- intros Hb. apply H3. rewrite elem_of_difference, elem_of_singleton.
           split; [done|lia].
        -- intros n. rewrite H4, elem_of_difference, elem_of_singleton.
           split; [tauto|]. intros [Hn Hle]. split; [split; [done|lia]|done].
    + split; [lia|]. split; [lia|]. split; [done|].
      intros n. specialize (Hwf n). tauto.
Qed.

Lemma settle_spec w :
  window_wf w ->
  w_base w <= w_base (settle w) /\
  (forall n, w_base w <= n < w_base (settle w) -> n ∈ w_set w) /\
  w_base (settle w) ∉ w_set w /\
  (forall n, n ∈ w_set (settle w) <-> n ∈ w_set w /\ w_base (settle w) <= n).
Proof. intros Hwf. exact (settle_n_spec _ w Hwf (le_n _)). Qed.

(** The settled base is the only number with these properties. *)
Lemma settle_base_unique w b :
  window_wf w -> w_base w <= b ->
  (forall n, w_base w <= n < b -> n ∈ w_set w) -> b ∉ w_set w -> w_base (settle w) = b.
Proof.
  intros Hwf Hb Hlt Hn. destruct (settle_spec w Hwf) as (H1 & H2 & H3 & _).
  destruct (Z.lt_trichotomy (w_base (settle w)) b) as [|[|]]; [|done|].
  - exfalso. apply H3, Hlt. lia.
  - exfalso. apply Hn, H2. lia.
Qed.

Lemma settle_acked w n : window_wf w -> acked (settle w) n <-> acked w n.
Proof.
  intros Hwf. destruct (settle_spec w Hwf) as (H1 & H2 & H3 & H4). unfold acked.
  rewrite H4. split.
  - intros [Hlt|[Hin _]]; [|by right].
    destruct (decide (n < w_base w)); [by left|right; apply H2; lia].
  - intros [Hlt|Hin]; [left; lia|].
    destruct (decide (n < w_base (settle w))); [by left|right; split; [done|lia]].
Qed.

Lemma mark_acked ns w n : acked (mark ns w) n <-> acked w n \/ n ∈ ns.
Proof.
  unfold acked, mark. cbn. rewrite elem_of_union, elem_of_filter.
  destruct (decide (n < w_base w)); [tauto|]. split; [tauto|].
  intros [[?|?]|?]; [tauto|tauto|]. right; right. split; [lia|done].
Qed.

Lemma mark_wf ns w : window_wf w -> window_wf (mark ns w).
Proof. intros Hwf n. cbn. rewrite elem_of_union, elem_of_filter. intros [?|[? _]]; auto. Qed.

Lemma settle_wf w : window_wf w -> window_wf (settle w).
Proof. intros Hwf n Hn. destruct (settle_spec w Hwf) as (_ & _ & _ & H4). by apply H4 in Hn as [_ ?]. Qed.

(** ** Refinement *)

Section refinement.
Context {V : Type} `{BitVec V} `{!BitVecLaws V}.
Implicit Types (t : PsnTracker V) (w : window).

(** The tracker [t] stands for the window [w]. *)
Definition tracks t w : Prop :=
  base_psn t = psn_of (w_base w) /\
  forall n, n ∈ w_set w <->
    w_base w <= n /\ bv_bits (inner t) !! Z.to_nat (n - w_base w) = Some true.

Lemma tracks_wf t w : tracks t w -> window_wf w.
Proof. intros [_ Hs] n Hn. by apply Hs in Hn as [? _]. Qed.

(** Less than half the number space away, and not past the next multiple of 2^24. *)
Definition in_reach w (n : Z) : Prop :=
  - 2 ^ 23 < n - w_base w < 2 ^ 23 /\ (n < w_base w \/ n / 2 ^ 24 = w_base w / 2 ^ 24).

Lemma rstart_eq t psn :
  rstart t psn =
  let x := psn -{32} base_psn t in
  if Z.testbit x 23 then to_signed 32 (Z.lor x 0xFF000000) else to_signed 32 x.
Proof.
  unfold rstart. cbv zeta. set (x := psn -{32} base_psn t).
  assert (Z.land (Z.shiftr x 23) 1 = Z.b2z (Z.testbit x 23)) as ->; [|by destruct (Z.testbit x 23)].
  rewrite (Z.land_ones _ 1), Z.testbit_odd by lia. apply Zmod_odd.
Qed.

Lemma to_signed_neg x : 0 < x <= 2 ^ 31 -> to_signed 32 (2 ^ 32 - x) = - x.
Proof.
  intros Hx. unfold to_signed. rewrite (wrap_small 32) by (unfold in_width; lia).
  rewrite (proj2 (Z.ltb_ge _ _)) by lia. lia.
Qed.

Lemma to_signed_pos x : 0 <= x < 2 ^ 31 -> to_signed 32 x = x.
Proof.
  intros Hx. unfold to_signed. rewrite (wrap_small 32) by (unfold in_width; lia).
  by rewrite (proj2 (Z.ltb_lt _ _)) by lia.
Qed.

(** Bit 23 of the low three bytes. *)
Lemma testbit_23 x :
  0 <= x < 2 ^ 32 -> Z.testbit x 23 = (2 ^ 23 <=? x mod 2 ^ 24).
Proof.
  intros Hx. apply eq_true_iff_eq. rewrite Z.leb_le, Z.testbit_true by lia.
  Z.div_mod_to_equations. lia.
Qed.

Lemma lor_high x : 0 <= x < 2 ^ 32 -> Z.lor x 0xFF000000 = 2 ^ 32 - 2 ^ 24 + x mod 2 ^ 24.
Proof.
  intros Hx. change 0xFF000000 with (Z.shiftl 255 24).
  rewrite Z.add_comm. change (2 ^ 32 - 2 ^ 24) with (Z.shiftl 255 24).
  apply Z.bits_inj'. intros i Hi. rewrite Z.lor_spec.
  rewrite Z.add_nocarry_lxor, Z.lxor_spec.
  - destruct (Z.ltb_spec i 24).
    + rewrite Z.shiftl_spec_low by lia. rewrite Z.mod_pow2_bits_low by lia.
      by rewrite orb_false_r, xorb_false_r.
    + rewrite Z.mod_pow2_bits_high by lia. rewrite xorb_false_l, Z.shiftl_spec by lia.
      destruct (Z.ltb_spec i 32).
      * assert (Z.testbit 255 (i - 24) = true) as ->; [|by rewrite orb_true_r].
        change 255 with (Z.ones 8). apply Z.ones_spec_low. lia.
      * rewrite (testbit_high 32 x) by (unfold in_width; lia). done.
  - apply Z.bits_inj'. intros j Hj. rewrite Z.land_spec, Z.bits_0.
    destruct (Z.ltb_spec j 24).
    + rewrite Z.shiftl_spec_low by lia. apply andb_false_r.
    + by rewrite Z.mod_pow2_bits_high by lia.
Qed.

(** The signed distance from the base, when the code computes it right. *)
Lemma rstart_reach t w n : tracks t w -> in_reach w n -> rstart t (psn_of n) = n - w_base w.
Proof.
  intros [Hb _] [Hd He]. rewrite rstart_eq. cbv zeta. rewrite Hb.
  set (b := w_base w) in *. clearbody b. unfold psn_of.
  pose proof (Z.mod_pos_bound n (2 ^ 24) ltac:(lia)).
  pose proof (Z.mod_pos_bound b (2 ^ 24) ltac:(lia)).
  pose proof (Z.div_mod n (2 ^ 24) ltac:(lia)).
  pose proof (Z.div_mod b (2 ^ 24) ltac:(lia)).
  set (x := wrap 32 (n mod 2 ^ 24 - b mod 2 ^ 24)).
  assert (Hx : 0 <= x < 2 ^ 32) by (apply wrap_range; lia).
  rewrite testbit_23 by done. assert (Hm : x mod 2 ^ 24 = (n - b) mod 2 ^ 24).
  { unfold x. by rewrite mod24_wrap32, <- Zminus_mod. }
  rewrite Hm. destruct (decide (n < b)).
  - assert (E : (n - b) mod 2 ^ 24 = n - b + 2 ^ 24) by (apply wrap_under; lia).
    rewrite E. rewrite (proj2 (Z.leb_le _ _)) by lia.
    rewrite lor_high by done. rewrite Hm, E.
    replace (2 ^ 32 - 2 ^ 24 + (n - b + 2 ^ 24)) with (2 ^ 32 - (b - n)) by lia.
    rewrite to_signed_neg by lia. lia.
  - rewrite (Z.mod_small (n - b)) by lia. rewrite (proj2 (Z.leb_gt _ _)) by lia.
    assert (n / 2 ^ 24 = b / 2 ^ 24) as He' by (destruct He; [lia|done]).
    assert (x = n - b) as ->; [|apply to_signed_pos; lia].
    unfold x. rewrite wrap_small by (unfold in_width; lia). lia.
Qed.

(** Past the next multiple of 2^24 the distance comes out negative. *)
Lemma rstart_wrapped t w n :
  tracks t w -> 0 < n - w_base w < 2 ^ 23 -> n / 2 ^ 24 <> w_base w / 2 ^ 24 ->
  rstart t (psn_of n) = n - w_base w - 2 ^ 24.
Proof.
  intros [Hb _] Hd He. rewrite rstart_eq. cbv zeta. rewrite Hb.
  set (b := w_base w) in *. clearbody b. unfold psn_of.
  pose proof (Z.mod_pos_bound n (2 ^ 24) ltac:(lia)).
  pose proof (Z.mod_pos_bound b (2 ^ 24) ltac:(lia)).
  pose proof (Z.div_mod n (2 ^ 24) ltac:(lia)).
  pose proof (Z.div_mod b (2 ^ 24) ltac:(lia)).
  set (x := wrap 32 (n mod 2 ^ 24 - b mod 2 ^ 24)).
  assert (Hx : 0 <= x < 2 ^ 32) by (apply wrap_range; lia).
  rewrite testbit_23 by done. assert (Hm : x mod 2 ^ 24 = (n - b) mod 2 ^ 24).
  { unfold x. by rewrite mod24_wrap32, <- Zminus_mod. }
  rewrite Hm, (Z.mod_small (n - b)) by lia. rewrite (proj2 (Z.leb_gt _ _)) by lia.
  assert (n / 2 ^ 24 = b / 2 ^ 24 + 1) by lia.
  assert (x = 2 ^ 32 - (2 ^ 24 - (n - b))) as ->; [|rewrite to_signed_neg; lia].
  unfold x. rewrite wrap_under by lia. lia.
Qed.

(** *** Bits *)

Lemma resize_bits (v : V) n i :
  bv_len v <= n ->
  bv_bits (bv_resize v n false) !! i = Some true <-> bv_bits v !! i = Some true.
Proof.
  unfold bv_len. intros Hn. rewrite bv_bits_resize. apply lookup_resize_false. lia.
Qed.

Lemma resize_len (v : V) n : bv_len v <= n -> bv_len (bv_resize v n false) = n.
Proof.
  unfold bv_len. intros Hn. rewrite bv_bits_resize, length_app, length_replicate.
  rewrite length_take. lia.
Qed.

Lemma bv_set_run (v : V) i :
  0 <= i < bv_len v ->
  exists v', bv_set v i true = Some v' /\ bv_len v' = bv_len v /\
    forall j, bv_bits v' !! j = Some true <-> bv_bits v !! j = Some true \/ j = Z.to_nat i.
Proof.
  intros Hi. pose proof (bv_set_inside v i true Hi) as E.
  destruct (bv_set v i true) as [v'|]; [|done]. cbn in E. injection E as E.
  exists v'. split; [done|]. unfold bv_len in *. rewrite E. split; [by rewrite length_insert|].
  intros j. destruct (decide (j = Z.to_nat i)) as [->|Hne].
  - rewrite list_lookup_insert_eq by lia. tauto.
  - rewrite list_lookup_insert_ne by done. tauto.
Qed.

Lemma bv_shift_run (v : V) n :
  0 <= n <= bv_len v ->
  exists v', bv_shift_left v n = Some v' /\
    forall j, bv_bits v' !! j = Some true <-> bv_bits v !! (Z.to_nat n + j)%nat = Some true.
Proof.
  intros Hn. pose proof (bv_shift_left_inside v n Hn) as E.
  destruct (bv_shift_left v n) as [v'|]; [|done]. cbn in E. injection E as E.
  exists v'. split; [done|]. intros j. rewrite E. apply lookup_shift_false.
Qed.

(** Where [try_advance] moves to: the first bit that is not set. *)
Lemma first_clear (v : V) :
  let pos := default (bv_len v) (bv_first_zero v) in
  0 <= pos <= bv_len v /\ bv_bits v !! Z.to_nat pos <> Some true /\
    forall j, 0 <= j < pos -> bv_bits v !! Z.to_nat j = Some true.
Proof.
  unfold bv_len. destruct (bv_first_zero v) as [i|] eqn:E; cbn.
  - apply bv_first_zero_some in E as (Hi & Hz & Hlt).
    pose proof (lookup_lt_Some _ _ _ Hz). rewrite Hz. split; [lia|done].
  - apply bv_first_zero_none in E. rewrite Nat2Z.id. split; [lia|]. split.
    + by rewrite lookup_ge_None_2.
    + intros j Hj. destruct (lookup_lt_is_Some_2 (bv_bits v) (Z.to_nat j)) as [b Hb]; [lia|].
      rewrite Hb. f_equal. by eapply (Forall_lookup_1 _ _ _ _ E).
Qed.

(** Setting the bits of a list of positions that satisfy [p]. *)
Lemma set_bits_wp (p : Z -> bool) l t :
  Forall (fun i => 0 <= i < bv_len (inner t)) l ->
  wp (for_each l (fun i => when (p i) (set_bit i)))
     (fun _ t' => base_psn t' = base_psn t /\
    forall j, bv_bits (inner t') !! j = Some true <->
          bv_bits (inner t) !! j = Some true \/ exists i, i ∈ l /\ p i = true /\ j = Z.to_nat i) t.
Proof.
  intros Hl.
  apply wp_mono with (fun (_ : unit) t' => base_psn t' = base_psn t /\
      bv_len (inner t') = bv_len (inner t) /\
      forall j, bv_bits (inner t') !! j = Some true <->
        bv_bits (inner t) !! j = Some true \/ exists i, i ∈ l /\ p i = true /\ j = Z.to_nat i);
    [|tauto].
  apply (for_each_wp l _ (fun done t' => base_psn t' = base_psn t /\
      bv_len (inner t') = bv_len (inner t) /\
      forall j, bv_bits (inner t') !! j = Some true <->
        bv_bits (inner t) !! j = Some true \/ exists i, i ∈ done /\ p i = true /\ j = Z.to_nat i)).
  { split; [done|]. split; [done|]. intros j. set_solver. }
  intros ds a rest t' -> (Hb & Hlen & Hbits).
  apply Forall_app in Hl as [_ Hl]. apply Forall_cons_1 in Hl as [Ha _]. apply wp_when.
  destruct (p a) eqn:Hp.
  - destruct (bv_set_run (inner t') a) as (v & Hv & Hvl & Hvb); [lia|].
    unfold set_bit, set_inner. wp_steps. exists v. split; [done|]. wp_steps. cbn.
    split; [done|]. split; [lia|]. intros j. rewrite Hvb, Hbits.
    rewrite (exists_snoc (fun i => p i = true /\ j = Z.to_nat i)), Hp. tauto.
  - split; [done|]. split; [done|]. intros j. rewrite Hbits.
    rewrite (exists_snoc (fun i => p i = true /\ j = Z.to_nat i)), Hp. naive_solver.
Qed.

(** *** Operations *)

(** A call run from [t] returns what the abstract operation reports and ends in a
    tracker of the abstract result. *)
Definition implements (m : M (PsnTracker V) (option Psn)) (a : option Z * window) t : Prop :=
  wp m (fun r t' => r = psn_of <$> a.1 /\ tracks t' a.2) t.

Lemma tracks_resize t w n :
  tracks t w -> bv_len (inner t) <= n ->
  tracks (mk_tracker (base_psn t) (bv_resize (inner t) n false)) w.
Proof.
  intros [Hb Hs] Hn. split; [done|]. intros k. cbn. by rewrite resize_bits, Hs.
Qed.

Lemma tracks_mark t t' w (ns : gset Z) (p : Z -> bool) (l : list Z) :
  tracks t w -> base_psn t' = base_psn t ->
  (forall j, bv_bits (inner t') !! j = Some true <->
     bv_bits (inner t) !! j = Some true \/ exists i, i ∈ l /\ p i = true /\ j = Z.to_nat i) ->
  (forall i, i ∈ l -> 0 <= i) ->
  (forall n, w_base w <= n -> n ∈ ns <-> n - w_base w ∈ l /\ p (n - w_base w) = true) ->
  tracks t' (mark ns w).
Proof.
  intros [Hb Hs] Hb' Hbits Hl Hns. split; [cbn; congruence|].
  intros n. cbn. rewrite elem_of_union, elem_of_filter, Hs, Hbits.
  destruct (decide (w_base w <= n)) as [Hle|]; [|naive_solver].
  rewrite Hns by done. split; [|intros [_ [?|(i & Hi & Hp & Ej)]]; [naive_solver|]].
  - intros [[_ ?]|[_ [? ?]]]; (split; [done|]); [by left|right; by exists (n - w_base w)].
  - assert (n - w_base w = i) as -> by (specialize (Hl i Hi); lia). tauto.
Qed.

Lemma try_advance_wp t w :
  tracks t w -> implements try_advance (report w (settle w), settle w) t.
Proof.
  intros Ht. pose proof (tracks_wf _ _ Ht) as Hwf. destruct Ht as [Hb Hs].
  unfold implements, try_advance. wp_steps. cbv zeta.
  pose proof (first_clear (inner t)) as Hpos. cbv zeta in Hpos.
  set (pos := default (bv_len (inner t)) (bv_first_zero (inner t))) in *.
  destruct Hpos as (Hpos & Hclear & Hset).
  assert (Hbase : w_base (settle w) = w_base w + pos).
  { apply settle_base_unique; [done|lia| |].
    - intros n Hn. apply Hs. split; [lia|]. apply Hset. lia.
    - rewrite Hs. intros [_ Hc]. apply Hclear. by replace (w_base w + pos - w_base w) with pos in Hc by lia. }
  assert (Hset' : forall n, n ∈ w_set (settle w) <-> n ∈ w_set w /\ w_base (settle w) <= n)
    by apply (settle_spec w Hwf).
  unfold report. rewrite Hbase. destruct (Z.eqb_spec pos 0) as [E|E].
  - rewrite (proj2 (Z.ltb_ge _ _)) by lia. split; [done|]. split; cbn [fst snd]; [rewrite Hbase, Hb; f_equal; lia|].
    intros n. rewrite Hset', Hbase, Hs. replace (w_base w + pos) with (w_base w) by lia. tauto.
  - rewrite (proj2 (Z.ltb_lt _ _)) by lia.
    destruct (bv_shift_run (inner t) pos Hpos) as (v & Hv & Hvb).
    wp_steps. exists v. split; [done|]. wp_steps.
    assert (Hnb : psn_add (base_psn t) (wrap 32 pos) = psn_of (w_base w + pos)).
    { rewrite Hb, <- psn_add_of. unfold psn_add. by rewrite wrap_add_r. }
    split; [cbn; by rewrite Hnb|]. split; [cbn; by rewrite Hnb, Hbase|].
    intros n. cbn. rewrite Hset', Hbase, Hvb, Hs.
    destruct (decide (w_base w + pos <= n)); [|naive_solver lia].
    replace (Z.to_nat pos + Z.to_nat (n - (w_base w + pos)))%nat
      with (Z.to_nat (n - w_base w)) by lia.
    assert (w_base w <= n) by lia. tauto.
Qed.

Lemma ack_one_wp t w n :
  tracks t w -> in_reach w n -> implements (ack_one (psn_of n)) (w_ack_one n w) t.
Proof.
  intros Ht Hr. unfold implements, ack_one. wp_steps.
  rewrite (rstart_reach t w n Ht Hr). unfold w_ack_one, usize_try_from.
  destruct (Z.ltb_spec n (w_base w)).
  { by rewrite (proj2 (Z.leb_gt _ _)) by lia. }
  rewrite (proj2 (Z.leb_le _ _)) by lia.
  assert (Hgo : forall t', tracks t' w -> n - w_base w < bv_len (inner t') ->
    wp (set_bit (n - w_base w);; try_advance)
       (fun r t'' => r = psn_of <$> report w (settle (mark {[n]} w)) /\
                     tracks t'' (settle (mark {[n]} w))) t').
  { intros t' Ht' Hlen.
    pose proof (set_bits_wp (fun _ => true) [n - w_base w] t') as Hb.
    cbn in Hb. rewrite Forall_singleton in Hb. specialize (Hb ltac:(lia)).
    wp_steps. rewrite wp_bind in Hb. eapply wp_mono; [exact Hb|].
    intros [] t'' [Hb1 Hb2]. refine (try_advance_wp t'' (mark {[n]} w) _).
    apply (tracks_mark t' t'' w _ (fun _ => true) [n - w_base w]); auto.
    - intros i ->%list_elem_of_singleton. lia.
    - intros k Hk. rewrite elem_of_singleton, list_elem_of_singleton. split; [intros ->; done|]. lia. }
  apply wp_bind, wp_when. destruct (Z.leb_spec (bv_len (inner t)) (n - w_base w)).
  - apply wp_modify, Hgo.
    + apply tracks_resize; [done|lia].
    + cbn. rewrite resize_len by lia. lia.
  - apply Hgo; [done|lia].
Qed.

(** [ack_before] does as documented, except that a call for the base itself, which moves
    nothing, returns the base. *)
Definition before_returns (n : Z) (w : window) : option Z :=
  if n =? w_base w then Some n else (w_ack_before n w).1.

Lemma before_returns_back n w : n < w_base w -> before_returns n w = None.
Proof.
  intros Hn. unfold before_returns, w_ack_before, report.
  rewrite (proj2 (Z.eqb_neq _ _)), (proj2 (Z.ltb_lt n _)) by lia. cbn. by rewrite Z.ltb_irrefl.
Qed.

Lemma before_returns_forward n w : w_base w <= n -> before_returns n w = Some n.
Proof.
  intros Hn. unfold before_returns, w_ack_before, report. destruct (Z.eqb_spec n (w_base w)); [done|].
  rewrite (proj2 (Z.ltb_ge n _)) by lia. cbn. by rewrite (proj2 (Z.ltb_lt _ _)) by lia.
Qed.

Lemma ack_before_wp t w n :
  tracks t w -> in_reach w n ->
  implements (ack_before (psn_of n)) (before_returns n w, (w_ack_before n w).2) t.
Proof.
  intros Ht Hr. unfold implements, ack_before. wp_steps.
  rewrite (rstart_reach t w n Ht Hr). unfold usize_try_from.
  destruct (Z.ltb_spec n (w_base w)) as [Hlt|Hge].
  { rewrite (proj2 (Z.leb_gt _ _)) by lia. cbn [fst snd]. rewrite before_returns_back by done.
    unfold w_ack_before. by rewrite (proj2 (Z.ltb_lt _ _)) by done. }
  cbn [fst snd]. rewrite before_returns_forward by done. unfold w_ack_before.
  rewrite (proj2 (Z.ltb_ge _ _)) by done. cbn [snd].
  rewrite (proj2 (Z.leb_le _ _)) by lia. destruct Ht as [Hb Hs].
  assert (Hgo : forall v, (forall j, bv_bits v !! j = Some true <->
      bv_bits (inner t) !! (Z.to_nat (n - w_base w) + j)%nat = Some true) ->
    tracks (mk_tracker (psn_of n) v) (mk_window n (filter (fun k => n <= k) (w_set w)))).
  { intros v Hv. split; [done|]. intros k. cbn. rewrite elem_of_filter, Hs, Hv.
    destruct (decide (n <= k)); [|tauto].
    replace (Z.to_nat (n - w_base w) + Z.to_nat (k - n))%nat with (Z.to_nat (k - w_base w)) by lia.
    assert (w_base w <= k) by lia. tauto. }
  apply wp_bind, wp_if. destruct (Z.leb_spec (bv_len (inner t)) (n - w_base w)) as [Hlen|].
  - wp_steps. split; [done|]. apply Hgo. intros j. rewrite bv_bits_fill. unfold bv_len in Hlen.
    split; intros Hj; [by apply lookup_replicate in Hj as [? _]|].
    apply lookup_lt_Some in Hj. lia.
  - destruct (bv_shift_run (inner t) (n - w_base w)) as (v & Hv & Hvb); [lia|].
    wp_steps. exists v. split; [done|]. wp_steps. split; [done|]. by apply Hgo.
Qed.

Definition range_returns (lo hi : Z) (w : window) : option Z :=
  if lo <=? w_base w then before_returns hi w else None.

Lemma ack_range_wp t w lo hi :
  tracks t w -> in_reach w lo -> in_reach w hi ->
  implements (ack_range (psn_of lo) (psn_of hi)) (range_returns lo hi w, (w_ack_range lo hi w).2) t.
Proof.
  intros Ht Hlo Hhi. unfold implements, ack_range. wp_steps.
  rewrite (rstart_reach t w lo Ht Hlo), (rstart_reach t w hi Ht Hhi).
  rewrite (proj1 Ht), psn_cmp_range_le by (destruct Hlo; lia). unfold range_returns, w_ack_range.
  destruct (Z.leb_spec lo (w_base w)); [by apply ack_before_wp|].
  unfold usize_try_from at 1. rewrite (proj2 (Z.leb_le _ _)) by lia.
  unfold usize_try_from. destruct (Z.ltb_spec hi (w_base w)).
  { by rewrite (proj2 (Z.leb_gt _ _)) by lia. }
  rewrite (proj2 (Z.leb_le _ _)) by lia.
  assert (Hgo : forall t', tracks t' w -> hi - w_base w < bv_len (inner t') ->
    wp (for_each (seqZ (lo - w_base w) (hi - w_base w - (lo - w_base w))) set_bit;; mret (@None Psn))
       (fun r t'' => r = None /\ tracks t'' (mark (range_set lo hi) w)) t').
  { intros t' Ht' Hlen.
    pose proof (set_bits_wp (fun _ => true)
      (seqZ (lo - w_base w) (hi - w_base w - (lo - w_base w))) t') as Hb.
    wp_steps. eapply wp_mono; [apply Hb|].
    - apply list.Forall_forall. intros i Hi%elem_of_seqZ. lia.
    - intros [] t'' [Hb1 Hb2]. wp_steps. split; [done|].
      eapply (tracks_mark t' t'' w _ _ _ Ht' Hb1 Hb2).
      + intros i Hi%elem_of_seqZ. lia.
      + intros k Hk. rewrite elem_of_range_set, elem_of_seqZ. lia. }
  apply wp_bind, wp_when. destruct (Z.leb_spec (bv_len (inner t)) (hi - w_base w)).
  - apply wp_modify, Hgo; [apply tracks_resize; [done|lia]|].
    cbn. rewrite resize_len by lia. lia.
  - apply Hgo; [done|lia].
Qed.

Lemma land_1_testbit x i : 0 <= i -> (Z.land (Z.shiftr x i) 1 =? 1) = Z.testbit x i.
Proof.
  intros Hi. rewrite (Z.land_ones _ 1), Z.testbit_odd by lia. change (2 ^ 1) with 2.
  rewrite Zmod_odd. by destruct (Z.odd _).
Qed.

Lemma ack_bitmap_wp t w n bitmap :
  tracks t w -> in_reach w n ->
  implements (ack_bitmap (psn_of n) bitmap) (w_ack_bitmap n bitmap w) t.
Proof.
  intros Ht Hr. unfold implements, ack_bitmap. apply wp_bind, wp_get.
  rewrite (rstart_reach t w n Ht Hr). cbv zeta. set (r := n - w_base w).
  assert (Hgo : forall t', tracks t' w -> r + 128 <= bv_len (inner t') ->
    wp (for_each (seqZ (Z.max r 0) (r + 128 - Z.max r 0)) (fun i =>
          when (Z.land (Z.shiftr bitmap (i - r)) 1 =? 1) (set_bit i));; try_advance)
       (fun o t'' => o = psn_of <$> (w_ack_bitmap n bitmap w).1 /\
                     tracks t'' (w_ack_bitmap n bitmap w).2) t').
  { intros t' Ht' Hlen. apply wp_bind. eapply wp_mono.
    - apply set_bits_wp. apply list.Forall_forall. intros i Hi%elem_of_seqZ. lia.
    - intros [] t'' [Hb1 Hb2]. cbn beta.
      refine (try_advance_wp t'' (mark (bitmap_set n bitmap) w) _).
      eapply (tracks_mark t' t'' w _ _ _ Ht' Hb1 Hb2).
      + intros i Hi%elem_of_seqZ. lia.
      + intros k Hk. rewrite elem_of_bitmap_set, elem_of_seqZ.
        replace (k - w_base w - r) with (k - n) by lia.
        destruct (decide (n <= k)); [rewrite land_1_testbit by lia|].
        * split; intros [? ?]; (split; [lia|done]).
        * split; intros [? _]; lia. }
  unfold usize_try_from. apply wp_bind. destruct (Z.leb_spec 0 (r + 128)).
  - apply wp_when. destruct (Z.ltb_spec (bv_len (inner t)) (r + 128)).
    + apply wp_modify, Hgo; [apply tracks_resize; [done|lia]|].
      cbn. rewrite resize_len by lia. lia.
    + by apply Hgo.
  - apply wp_ret, Hgo; [done|]. unfold bv_len. lia.
Qed.

(** ** Acknowledgements as data *)

Inductive ack : Set :=
| AckOne (n : Z)
| AckBitmap (n bitmap : Z)
| AckBefore (n : Z)
| AckRange (lo hi : Z).

Definition run_ack (a : ack) : M (PsnTracker V) (option Psn) :=
  match a with
  | AckOne n => ack_one (psn_of n)
  | AckBitmap n bitmap => ack_bitmap (psn_of n) bitmap
  | AckBefore n => ack_before (psn_of n)
  | AckRange lo hi => ack_range (psn_of lo) (psn_of hi)
  end.

Definition w_step (a : ack) : window -> option Z * window :=
  match a with
  | AckOne n => w_ack_one n
  | AckBitmap n bitmap => w_ack_bitmap n bitmap
  | AckBefore n => w_ack_before n
  | AckRange lo hi => w_ack_range lo hi
  end.

(** The packets an acknowledgement is for. *)
Definition covers (a : ack) (n : Z) : Prop :=
  match a with
  | AckOne k => n = k
  | AckBitmap k bitmap => k <= n < k + 128 /\ Z.testbit bitmap (n - k) = true
  | AckBefore k => n < k
  | AckRange lo hi => lo <= n < hi
  end.

Definition ack_in_reach w (a : ack) : Prop :=
  match a with
  | AckOne n | AckBitmap n _ | AckBefore n => in_reach w n
  | AckRange lo hi => in_reach w lo /\ in_reach w hi
  end.

(** The calls that name the base itself as the first packet not acknowledged: there is
    nothing to move. *)
Definition names_base (a : ack) (w : window) : bool :=
  match a with
  | AckBefore n => n =? w_base w
  | AckRange lo hi => (lo <=? w_base w) && (hi =? w_base w)
  | _ => false
  end.

(** What the code returns: what it is documented to report, except on those calls. *)
Definition returns (a : ack) (w : window) : option Z :=
  if names_base a w then Some (w_base w) else (w_step a w).1.

Lemma before_returns_step n w : before_returns n w = returns (AckBefore n) w.
Proof. unfold before_returns, returns. cbn. by destruct (Z.eqb_spec n (w_base w)) as [->|]. Qed.

Lemma range_returns_step lo hi w : range_returns lo hi w = returns (AckRange lo hi) w.
Proof.
  unfold range_returns, before_returns, returns, w_ack_range. cbn. unfold w_ack_range.
  destruct (lo <=? w_base w), (Z.eqb_spec hi (w_base w)) as [->|]; cbn; try done; by destruct (_ <? _).
Qed.

Lemma run_ack_wp t w a :
  tracks t w -> ack_in_reach w a -> implements (run_ack a) (returns a w, (w_step a w).2) t.
Proof.
  destruct a as [n|n bitmap|n|lo hi]; cbn [ack_in_reach run_ack]; intros Ht Hr.
  - by apply ack_one_wp.
  - by apply ack_bitmap_wp.
  - rewrite <- before_returns_step. by apply ack_before_wp.
  - rewrite <- range_returns_step. destruct Hr. by apply ack_range_wp.
Qed.

(** On the calls that name the base, nothing moves and nothing is to be reported. *)
Lemma names_base_report a w : names_base a w = true -> (w_step a w).1 = None.
Proof.
  destruct a as [n|n bitmap|n|lo hi]; cbn; try done; unfold w_ack_range, w_ack_before, report.
  - intros ->%Z.eqb_eq. rewrite Z.ltb_irrefl. cbn. by rewrite Z.ltb_irrefl.
  - intros [-> ->%Z.eqb_eq]%andb_true_iff. rewrite Z.ltb_irrefl. cbn. by rewrite Z.ltb_irrefl.
Qed.

Lemma w_ack_before_acked n w k :
  acked (w_ack_before n w).2 k <-> acked w k \/ k < n.
Proof.
  unfold w_ack_before, acked. cbn. destruct (Z.ltb_spec n (w_base w)); cbn.
  { split; [tauto|]. intros [?|?]; [done|left; lia]. }
  rewrite elem_of_filter. destruct (decide (k < n)); [tauto|].
  assert (n <= k) by lia. assert (~ k < w_base w) by lia. tauto.
Qed.

Lemma w_step_acked a w n :
  window_wf w -> acked (w_step a w).2 n <-> acked w n \/ covers a n.
Proof.
  intros Hwf. destruct a as [k|k bitmap|k|lo hi]; cbn.
  - unfold w_ack_one. destruct (Z.ltb_spec k (w_base w)); cbn.
    + split; [tauto|]. intros [?| ->]; [done|left; lia].
    + rewrite settle_acked by by apply mark_wf. by rewrite mark_acked, elem_of_singleton.
  - unfold w_ack_bitmap. cbn. rewrite settle_acked by by apply mark_wf.
    by rewrite mark_acked, elem_of_bitmap_set.
  - apply w_ack_before_acked.
  - unfold w_ack_range. destruct (Z.leb_spec lo (w_base w)).
    + rewrite w_ack_before_acked. unfold acked.
      destruct (decide (n < w_base w)); [tauto|].
      split; (intros [[?|?]|?]; [lia|tauto|right; lia]).
    + destruct (Z.ltb_spec hi (w_base w)); cbn; [split; [tauto|intros [?|?]; [done|lia]]|].
      by rewrite mark_acked, elem_of_range_set.
Qed.

Lemma w_step_wf a w : window_wf w -> window_wf (w_step a w).2.
Proof.
  intros Hwf. destruct a as [k|k bitmap|k|lo hi]; cbn.
  - unfold w_ack_one. destruct (k <? w_base w); cbn; [done|]. by apply settle_wf, mark_wf.
  - by apply settle_wf, mark_wf.
  - unfold w_ack_before. destruct (k <? w_base w); cbn; [done|].
    by intros n [? _]%elem_of_filter.
  - unfold w_ack_range, w_ack_before.
    destruct (lo <=? w_base w), (hi <? w_base w); cbn; try done; [|by apply mark_wf].
    by intros n [? _]%elem_of_filter.
Qed.

(** The base is the first packet that is not acknowledged. *)
Definition settled w : Prop := w_base w ∉ w_set w.

Lemma settle_settled w : window_wf w -> settled (settle w).
Proof.
  intros Hwf Hin. destruct (settle_spec w Hwf) as (_ & _ & H3 & H4).
  apply H3. by apply H4 in Hin as [? _].
Qed.

Lemma w_ack_one_settled n w : window_wf w -> settled w -> settled (w_step (AckOne n) w).2.
Proof.
  intros Hwf Hs. cbn. unfold w_ack_one. destruct (n <? w_base w); cbn; [done|].
  by apply settle_settled, mark_wf.
Qed.

Lemma w_ack_bitmap_settled n bitmap w : window_wf w -> settled (w_step (AckBitmap n bitmap) w).2.
Proof. intros Hwf. by apply settle_settled, mark_wf. Qed.

(** Every abstract operation reports by the one rule of the comments. *)
Lemma w_step_reports a w : (w_step a w).1 = report w (w_step a w).2.
Proof.
  destruct a as [n|n bitmap|n|lo hi]; cbn; unfold w_ack_one, w_ack_bitmap, w_ack_range, w_ack_before.
  - destruct (n <? w_base w); cbn; [|done]. unfold report. by rewrite Z.ltb_irrefl.
  - done.
  - done.
  - destruct (lo <=? w_base w), (hi <? w_base w); cbn; try done; unfold report; cbn; by rewrite Z.ltb_irrefl.
Qed.

(** Sequences of acknowledgements. *)
Definition w_steps (acks : list ack) w : window := foldl (fun w a => (w_step a w).2) w acks.

Fixpoint acks_in_reach w (acks : list ack) : Prop :=
  match acks with
  | [] => True
  | a :: acks' => ack_in_reach w a /\ acks_in_reach (w_step a w).2 acks'
  end.

Lemma w_steps_app acks1 acks2 w : w_steps (acks1 ++ acks2) w = w_steps acks2 (w_steps acks1 w).
Proof. apply foldl_app. Qed.

Lemma w_steps_wf acks w : window_wf w -> window_wf (w_steps acks w).
Proof.
  unfold w_steps. revert w. induction acks as [|a acks IH]; intros w Hwf; cbn; [done|].
  by apply IH, w_step_wf.
Qed.

Lemma w_steps_acked acks w n :
  window_wf w -> acked (w_steps acks w) n <-> acked w n \/ exists a, a ∈ acks /\ covers a n.
Proof.
  unfold w_steps. revert w. induction acks as [|a acks IH]; intros w Hwf; cbn.
  - set_solver.
  - rewrite IH by by apply w_step_wf. rewrite w_step_acked by done.
    setoid_rewrite elem_of_cons. naive_solver.
Qed.

(** *** The local tracker *)

(** What the receive side feeds to the local tracker. *)
Inductive local_event : Set :=
| LocalOne (n : Z)
| LocalBitmap (n bitmap : Z)
| LocalNak (psn_pre pre_bitmap psn_now now_bitmap : Z).

Definition run_local (e : local_event) : M (LocalAckTracker V) (option Psn) :=
  match e with
  | LocalOne n => local_ack_one (psn_of n)
  | LocalBitmap n bitmap => local_ack_bitmap (psn_of n) bitmap
  | LocalNak p pb n nb => local_nak_bitmap (psn_of p) pb (psn_of n) nb
  end.

Fixpoint run_locals (es : list local_event) : M (LocalAckTracker V) unit :=
  match es with
  | [] => mret tt
  | e :: es' => run_local e;; run_locals es'
  end.

(** The packets an event acknowledges, and the position the next one continues from. *)
Definition local_acks (pre : Z) (e : local_event) : list ack :=
  match e with
  | LocalOne n => [AckOne n]
  | LocalBitmap n bitmap => [AckRange pre n; AckBitmap n bitmap]
  | LocalNak p pb n nb => [AckRange pre p; AckBitmap p pb; AckBitmap n nb]
  end.

Definition local_pre (pre : Z) (e : local_event) : Z :=
  match e with
  | LocalOne _ => pre
  | LocalBitmap n _ | LocalNak _ _ n _ => Z.max pre n
  end.

Fixpoint local_trace (pre : Z) (es : list local_event) : list ack :=
  match es with
  | [] => []
  | e :: es' => local_acks pre e ++ local_trace (local_pre pre e) es'
  end.

Definition local_ok w (pre : Z) (e : local_event) : Prop :=
  acks_in_reach w (local_acks pre e) /\
  match e with
  | LocalOne _ => True
  | LocalBitmap n _ | LocalNak _ _ n _ => - 2 ^ 23 < pre - n <= 2 ^ 23
  end.

Fixpoint locals_ok w (pre : Z) (es : list local_event) : Prop :=
  match es with
  | [] => True
  | e :: es' => local_ok w pre e /\ locals_ok (w_steps (local_acks pre e) w) (local_pre pre e) es'
  end.

Definition local_tracks (s : LocalAckTracker V) w (pre : Z) : Prop :=
  tracks (l_tracker s) w /\ settled w /\ l_psn_pre s = psn_of pre.

Lemma l_call_ack (s : LocalAckTracker V) w a Q :
  tracks (l_tracker s) w -> ack_in_reach w a ->
  (forall r t, tracks t (w_step a w).2 -> Q r (mk_local t (l_psn_pre s))) ->
  wp (l_call (run_ack a)) Q s.
Proof.
  intros Ht Hr HQ. apply wp_zoom. eapply wp_mono; [by apply run_ack_wp|].
  cbn. intros r t [_ Ht']. by apply HQ.
Qed.

Lemma local_set_pre_tracks t w pre n :
  tracks t w -> settled w -> - 2 ^ 23 < pre - n <= 2 ^ 23 ->
  local_tracks (if psn_lt (psn_of pre) (psn_of n) then mk_local t (psn_of n)
                else mk_local t (psn_of pre)) w (Z.max pre n).
Proof.
  intros Ht Hs Hd. rewrite psn_cmp_range_lt by done.
  destruct (Z.ltb_spec pre n); (split; [done|split; [done|]]); cbn; f_equal; lia.
Qed.

Lemma run_local_wp s w pre e :
  local_tracks s w pre -> local_ok w pre e ->
  wp (run_local e) (fun _ s' => local_tracks s' (w_steps (local_acks pre e) w) (local_pre pre e)) s.
Proof.
  intros (Ht & Hs & Hp) [Hr Hd]. pose proof (tracks_wf _ _ Ht) as Hwf.
  destruct e as [n|n bitmap|p pb n nb]; cbn in Hr, Hd; cbn [run_local local_pre].
  - destruct Hr as [Hr _]. apply (l_call_ack s w (AckOne n)); [done..|].
    intros r t Ht'. split; [done|]. split; [|done]. by apply w_ack_one_settled.
  - destruct Hr as (Hr1 & Hr2 & _). unfold local_ack_bitmap.
    apply wp_bind, wp_get. rewrite Hp.
    apply wp_bind, (l_call_ack s w (AckRange pre n)); [done..|].
    rewrite Hp. intros x t1 Ht1. apply wp_bind. eapply (l_call_ack _ _ (AckBitmap n bitmap)); [done..|].
    intros y t2 Ht2. unfold local_set_pre. wp_steps.
    apply local_set_pre_tracks; [done| |done].
    by apply w_ack_bitmap_settled, (w_step_wf (AckRange pre n)).
  - destruct Hr as (Hr1 & Hr2 & Hr3 & _). unfold local_nak_bitmap.
    apply wp_bind, wp_get. rewrite Hp.
    apply wp_bind, (l_call_ack s w (AckRange pre p)); [done..|].
    rewrite Hp. intros x t1 Ht1. apply wp_bind. eapply (l_call_ack _ _ (AckBitmap p pb)); [done..|].
    intros y t2 Ht2. apply wp_bind. eapply (l_call_ack _ _ (AckBitmap n nb)); [done..|].
    intros z t3 Ht3. unfold local_set_pre. wp_steps.
    apply local_set_pre_tracks; [done| |done].
    by apply w_ack_bitmap_settled, (w_step_wf (AckBitmap p pb)), (w_step_wf (AckRange pre p)).
Qed.

Lemma run_locals_wp es s w pre :
  local_tracks s w pre -> locals_ok w pre es ->
  wp (run_locals es) (fun _ s' =>
    exists pre', local_tracks s' (w_steps (local_trace pre es) w) pre') s.
Proof.
  revert s w pre. induction es as [|e es IH]; intros s w pre Ht Hok; cbn [run_locals local_trace].
  - by exists pre.
  - destruct Hok as [He Hok]. apply wp_bind. eapply wp_mono; [by apply run_local_wp|].
    intros _r s' Ht'. rewrite w_steps_app. by apply IH.
Qed.

(** *** Acknowledgements that the tracker loses *)

Lemma lost_past_wrap t w n bitmap :
  tracks t w -> 0 < n - w_base w < 2 ^ 23 -> n / 2 ^ 24 <> w_base w / 2 ^ 24 ->
  ack_one (psn_of n) t = Done None t /\ ack_before (psn_of n) t = Done None t /\
  ack_bitmap (psn_of n) bitmap t = try_advance t.
Proof.
  intros Ht Hd He. pose proof (rstart_wrapped t w n Ht Hd He) as Hr.
  unfold ack_one, ack_before, ack_bitmap, get, mbind, M_bind, usize_try_from. cbv zeta.
  rewrite Hr. rewrite (proj2 (Z.leb_gt 0 (n - w_base w - 2 ^ 24))) by lia.
  rewrite (proj2 (Z.leb_gt 0 (n - w_base w - 2 ^ 24 + 128))) by lia.
  split; [done|]. split; [done|]. rewrite seqZ_nil by lia. done.
Qed.

Lemma settled_stays t w : tracks t w -> settled w -> try_advance t = Done None t.
Proof.
  intros [_ Hs] Hset. unfold try_advance, get, mbind, M_bind. cbv zeta.
  pose proof (first_clear (inner t)) as (Hp & _ & Hlt).
  set (pos := default (bv_len (inner t)) (bv_first_zero (inner t))) in *.
  destruct (Z.eqb_spec pos 0); [done|]. exfalso. apply Hset, Hs. split; [lia|].
  rewrite Z.sub_diag. apply Hlt. lia.
Qed.

End refinement.

(** ** Properties *)

(** C1: the tracker refines the abstract window.  Every acknowledgement in reach of the
    base (less than 2^23 away and not past the next multiple of 2^24) runs without a panic
    and leaves a tracker of the abstract result, in which exactly the packets acknowledged
    before or covered by this call are acknowledged.  It returns what its comment
    documents, the new base if the base moved and nothing if it did not, on every call but
    one kind: ack_before of the base itself, and ack_range up to the base from a number not
    past it, move nothing and yet return the base, against the comments at
    psn_tracker.rs:118-119 and 154-155 (see the findings). *)
Theorem psn_tracker_refines {V} `{BitVec V} `{!BitVecLaws V} (t : PsnTracker V) (w : window) (a : ack) :
  tracks t w -> ack_in_reach w a ->
  exists r t', run_ack a t = Done r t' /\
    tracks t' (w_step a w).2 /\
    (forall n, acked (w_step a w).2 n <-> acked w n \/ covers a n) /\
    (names_base a w = false -> r = psn_of <$> report w (w_step a w).2) /\
    (names_base a w = true -> report w (w_step a w).2 = None /\ r = Some (psn_of (w_base w))).
Proof.
  intros Ht Hr. pose proof (run_ack_wp t w a Ht Hr) as Hw.
  apply wp_run in Hw as (r & t' & Hrun & -> & Ht'). exists (psn_of <$> returns a w), t'.
  split; [done|]. split; [done|].
  split; [intros n; by apply w_step_acked, (tracks_wf t)|].
  rewrite <- w_step_reports. unfold returns. split; intros E; rewrite E; [done|].
  split; [by apply names_base_report|done].
Qed.

Definition small_pair (w : window) (n : Z) : bool :=
  (0 <=? n) && (n <? 2 ^ 23) && (0 <=? w_base w) && (w_base w <? 2 ^ 23).

Lemma in_reach_small w n : small_pair w n = true -> in_reach w n.
Proof.
  unfold small_pair. rewrite !andb_true_iff, !Z.leb_le, !Z.ltb_lt. intros (((? & ?) & ?) & ?).
  split; [lia|]. right. by rewrite !Z.div_small by lia.
Qed.

Lemma tracks_default {V} `{BitVec V} `{!BitVecLaws V} (b : Z) :
  tracks (mk_tracker (psn_of b) bv_new) (mk_window b ∅).
Proof.
  split; [done|]. intros n. cbn. rewrite bv_bits_new. split; [set_solver|]. by intros [_ ?].
Qed.

Lemma psn_tracker_refines_witness :
  exists t' : PsnTracker (list bool),
    run_ack (AckBitmap 7 5) (mk_tracker (psn_of 7) bv_new) = Done (Some 8) t' /\
    acked (w_step (AckBitmap 7 5) (mk_window 7 ∅)).2 9.
Proof.
  destruct (psn_tracker_refines (mk_tracker (psn_of 7) bv_new) (mk_window 7 ∅) (AckBitmap 7 5))
    as (r & t' & Hr & Ht & Ha & Hn & _).
  - apply tracks_default.
  - cbn. unfold in_reach. cbn. split; [lia|right; reflexivity].
  - exists t'. rewrite Hr, Hn by reflexivity. split; [reflexivity|]. apply Ha. right. cbn. split; [lia|reflexivity].
Defined.

(** The local tracker, run on any sequence of acknowledgements in reach, never panics,
    and its base is the first packet not acknowledged: every packet from the old base up
    to it is covered by some acknowledgement, and it is not. *)
Theorem local_tracker_base_first_missing {V} `{BitVec V} `{!BitVecLaws V}
    (s : LocalAckTracker V) (w : window) (pre : Z) (es : list local_event) :
  local_tracks s w pre -> locals_ok w pre es ->
  exists s' b, run_locals es s = Done tt s' /\ local_base_psn s' = psn_of b /\
    w_base w <= b /\
    (forall n, w_base w <= n < b ->
       n ∈ w_set w \/ exists a, a ∈ local_trace pre es /\ covers a n) /\
    ~ (exists a, a ∈ local_trace pre es /\ covers a b) /\ b ∉ w_set w.
Proof.
  intros Ht Hok. pose proof (tracks_wf _ _ (proj1 Ht)) as Hwf.
  pose proof (run_locals_wp es s w pre Ht Hok) as Hw.
  apply wp_run in Hw as ([] & s' & Hrun & pre' & Ht' & Hs' & _).
  pose proof (w_steps_acked (local_trace pre es) w) as Ha.
  set (w' := w_steps (local_trace pre es) w) in *.
  exists s', (w_base w'). split; [done|]. split; [apply Ht'|].
  assert (Hb : ~ acked w' (w_base w')) by (intros [?|?]; [lia|done]).
  rewrite Ha in Hb by done. unfold acked in Hb. split; [lia|]. split; [|tauto].
  intros n Hn. assert (acked w' n) as Hn' by (left; lia).
  rewrite Ha in Hn' by done. destruct Hn' as [[?|?]|?]; [lia|tauto|tauto].
Qed.

Lemma local_tracker_base_first_missing_witness :
  exists s' b, run_locals [LocalOne 1; LocalBitmap 2 1; LocalNak 4 1 6 3]
      (mk_local (mk_tracker (psn_of 0) (bv_new : list bool)) (psn_of 0)) = Done tt s' /\
    local_base_psn s' = psn_of b /\ b ∉ (∅ : gset Z).
Proof.
  destruct (local_tracker_base_first_missing
    (mk_local (mk_tracker (psn_of 0) (bv_new : list bool)) (psn_of 0)) (mk_window 0 ∅) 0
    [LocalOne 1; LocalBitmap 2 1; LocalNak 4 1 6 3]) as (s' & b & H1 & H2 & _ & _ & _ & H3).
  - split; [apply tracks_default|]. split; [|reflexivity]. unfold settled. cbn. set_solver.
  - cbn -[w_step w_steps in_reach]. repeat split; try lia; apply in_reach_small; by vm_compute.
  - exists s', b. exact (conj H1 (conj H2 H3)).
Defined.

(** An acknowledgement past the next multiple of 2^24 is lost.  With a settled
    tracker, any packet less than 2^23 ahead of the base but in the next cycle of the
    number space is ignored by every call, although it has not been acknowledged: the
    difference is not reduced to 24 bits, so it comes out negative. *)
Theorem acks_past_wrap_are_lost {V} `{BitVec V} `{!BitVecLaws V}
    (t : PsnTracker V) (w : window) (n bitmap : Z) :
  tracks t w -> settled w -> 0 < n - w_base w < 2 ^ 23 -> n / 2 ^ 24 <> w_base w / 2 ^ 24 ->
  ack_one (psn_of n) t = Done None t /\
  ack_before (psn_of n) t = Done None t /\
  ack_bitmap (psn_of n) bitmap t = Done None t.
Proof.
  intros Ht Hs Hd He. destruct (lost_past_wrap t w n bitmap Ht Hd He) as (H1 & H2 & H3).
  by rewrite H3, (settled_stays t w).
Qed.

Lemma acks_past_wrap_are_lost_witness :
  ack_before (psn_of (2 ^ 24)) (mk_tracker (psn_of (2 ^ 24 - 2)) (bv_new : list bool)) =
  Done None (mk_tracker (psn_of (2 ^ 24 - 2)) bv_new).
Proof.
  apply (acks_past_wrap_are_lost _ (mk_window (2 ^ 24 - 2) ∅) (2 ^ 24) 0).
  - apply tracks_default.
  - unfold settled. cbn. set_solver.
  - cbn. lia.
  - vm_compute. discriminate.
Defined.
