(* ===== verification/WorkReq.v ===== *)
(** * Work requests

    rust-driver/src/rdma_utils/types.rs and workers/send/types.rs: the work requests an
    application posts, their translation from the C structures of libibverbs, the
    receive requests sent to the peer as 24 bytes, and the chunks a send request is cut
    into, built by a builder whose stages are types. *)

From Stdlib Require Import ZArith Lia.
From stdpp Require Import base list numbers.
From S2P Require Import Prelude RustBase Psn.

#[local] Open Scope Z_scope.
#[local] Open Scope cint_scope.

(** ** error.rs: the errors of the driver, without their messages *)

Inductive RdmaError : Set :=
| DeviceError | InvalidInput | NotFound | ResourceExhausted | ConnectionError
| MemoryError | QpError | CqError | Timeout | IoError (os_error : option Z)
| AddrParseError | SerdeError | Unimplemented | Config.

#[export] Instance RdmaError_eq_dec : EqDecision RdmaError.
Proof. solve_decision. Defined.

Definition ECONNREFUSED : Z := 111.
Definition ETIMEDOUT : Z := 110.
Definition EIO : Z := 5.

Definition to_errno (e : RdmaError) : Z :=
  match e with
  | InvalidInput => EINVAL
  | NotFound => ENOENT
  | ResourceExhausted => ENOSPC
  | ConnectionError => ECONNREFUSED
  | MemoryError => ENOMEM
  | Timeout => ETIMEDOUT
  | IoError e => default EIO e
  | _ => EIO
  end.

(** [Result<A>] *)
Inductive result (A : Type) : Type :=
| Ok (a : A)
| Err (e : RdmaError).
Arguments Ok {A} a.
Arguments Err {A} e.

(** ** Opcodes and the C structures (libibverbs/verbs.h) *)

Inductive WorkReqOpCode : Set :=
| OpRdmaWrite | OpRdmaWriteWithImm | OpSend | OpSendWithImm | OpRdmaRead
| OpAtomicCmpAndSwp | OpAtomicFetchAndAdd | OpLocalInv | OpBindMw | OpSendWithInv
| OpTso | OpDriver1 | OpRdmaReadResp | OpRdmaAck | OpFlush | OpAtomicWrite.

#[export] Instance WorkReqOpCode_eq_dec : EqDecision WorkReqOpCode.
Proof. solve_decision. Defined.

Definition IBV_WR_RDMA_WRITE : Z := 0.
Definition IBV_WR_RDMA_WRITE_WITH_IMM : Z := 1.
Definition IBV_WR_SEND : Z := 2.
Definition IBV_WR_SEND_WITH_IMM : Z := 3.
Definition IBV_WR_RDMA_READ : Z := 4.

Definition IBV_SEND_SIGNALED : Z := Z.shiftl 1 1.
Definition IBV_SEND_SOLICITED : Z := Z.shiftl 1 2.

Record ibv_sge : Set := mk_sge { sge_addr : Z; sge_length : Z; sge_lkey : Z }.

(** [sg_list] points to an array; the unions are read through the members the driver
    uses. *)
Record ibv_send_wr : Set := mk_ibv_send_wr {
  swr_wr_id : Z; swr_sg_list : list ibv_sge; swr_num_sge : Z; swr_opcode : Z;
  swr_send_flags : Z; swr_imm_data : Z; swr_remote_addr : Z; swr_rkey : Z }.

Record ibv_recv_wr : Set := mk_ibv_recv_wr {
  rwr_wr_id : Z; rwr_sg_list : list ibv_sge; rwr_num_sge : Z }.

(** ** rdma_utils/types.rs *)

Record SendWrBase : Set := mk_base {
  b_wr_id : Z; b_send_flags : Z; b_laddr : Z; b_length : Z; b_lkey : Z; b_imm_data : Z;
  b_opcode : WorkReqOpCode }.

Record SendWrRdma : Set := mk_rdma { r_base : SendWrBase; raddr : Z; rkey : Z }.

Inductive SendWr : Set :=
| WrRdma (wr : SendWrRdma)
| WrSend (wr : SendWrBase).

Definition send_wr_opcode (opcode : Z) : option WorkReqOpCode :=
  if opcode =? IBV_WR_RDMA_WRITE then Some OpRdmaWrite
  else if opcode =? IBV_WR_RDMA_WRITE_WITH_IMM then Some OpRdmaWriteWithImm
  else if opcode =? IBV_WR_RDMA_READ then Some OpRdmaRead
  else if opcode =? IBV_WR_SEND then Some OpSend
  else if opcode =? IBV_WR_SEND_WITH_IMM then Some OpSendWithImm
  else None.

(** [*wr.sg_list] *)
Definition first_sge {S} (l : list ibv_sge) : M S ibv_sge := demand NullDeref (head l).

Definition SendWr_new {S} (wr : ibv_send_wr) : M S (result SendWr) :=
  match usize_try_from (swr_num_sge wr) with
  | None => mret (Err InvalidInput)
  | Some num_sge =>
      if negb (num_sge =? 1) then mret (Err Unimplemented)
      else
        sge ← first_sge (swr_sg_list wr);
        match send_wr_opcode (swr_opcode wr) with
        | None => mret (Err Unimplemented)
        | Some opcode =>
            let base := mk_base (swr_wr_id wr) (swr_send_flags wr) (sge_addr sge)
              (sge_length sge) (sge_lkey sge) (swr_imm_data wr) opcode in
            mret (match opcode with
                  | OpRdmaWrite | OpRdmaWriteWithImm | OpRdmaRead =>
                      Ok (WrRdma (mk_rdma base (swr_remote_addr wr) (swr_rkey wr)))
                  | OpSend | OpSendWithImm => Ok (WrSend base)
                  | _ => Err Unimplemented
                  end)
        end
  end.

Record RecvWr : Set := mk_recv { rv_wr_id : Z; rv_addr : Z; rv_length : Z; rv_lkey : Z }.

#[export] Instance RecvWr_eq_dec : EqDecision RecvWr.
Proof. solve_decision. Defined.

Definition RecvWr_new {S} (wr : ibv_recv_wr) : M S (option RecvWr) :=
  match usize_try_from (rwr_num_sge wr) with
  | None => mret None
  | Some num_sge =>
      if negb (num_sge =? 1) then mret None
      else
        sge ← first_sge (rwr_sg_list wr);
        mret (Some (mk_recv (rwr_wr_id wr) (sge_addr sge) (sge_length sge) (sge_lkey sge)))
  end.

(** [x.to_be_bytes()] of an [n]-byte integer and its inverse. *)
Fixpoint to_be_bytes (n : nat) (x : Z) : list Z :=
  match n with
  | O => []
  | S n' => (Z.shiftr x (8 * Z.of_nat n') mod 256) :: to_be_bytes n' x
  end.

Fixpoint from_be_bytes (l : list Z) : Z :=
  match l with
  | [] => 0
  | b :: l' => b * 2 ^ (8 * Z.of_nat (length l')) + from_be_bytes l'
  end.

(** [bytes[at..at + length src].copy_from_slice(src)] *)
Definition copy_from_slice (bytes : list Z) (at_ : nat) (src : list Z) : list Z :=
  take at_ bytes ++ src ++ drop (at_ + length src) bytes.

Definition slice (bytes : list Z) (lo hi : nat) : list Z := take (hi - lo) (drop lo bytes).

Definition recv_to_bytes (wr : RecvWr) : list Z :=
  let bytes := replicate 24 0 in
  let bytes := copy_from_slice bytes 0 (to_be_bytes 8 (rv_wr_id wr)) in
  let bytes := copy_from_slice bytes 8 (to_be_bytes 8 (rv_addr wr)) in
  let bytes := copy_from_slice bytes 16 (to_be_bytes 4 (rv_length wr)) in
  copy_from_slice bytes 20 (to_be_bytes 4 (rv_lkey wr)).

Definition recv_from_bytes (bytes : list Z) : RecvWr :=
  mk_recv (from_be_bytes (slice bytes 0 8)) (from_be_bytes (slice bytes 8 16))
    (from_be_bytes (slice bytes 16 20)) (from_be_bytes (slice bytes 20 24)).

(** ** workers/send/types.rs *)

Inductive ChunkPos : Set := PosFirst | PosMiddle | PosLast | PosOnly.

#[export] Instance ChunkPos_eq_dec : EqDecision ChunkPos.
Proof. solve_decision. Defined.

Record QpParams : Set := mk_qp_params {
  qpp_msn : Z; qpp_qp_type : Z; qpp_sqpn : Z; qpp_mac_addr : Z; qpp_dqpn : Z;
  qpp_dqp_ip : Z; qpp_pmtu : Z }.

Record WrChunk : Set := mk_chunk {
  c_opcode : WorkReqOpCode; c_qp_type : Z; c_sqpn : Z; c_mac_addr : Z; c_dqpn : Z;
  c_dqp_ip : Z; c_pmtu : Z; c_flags : Z; c_raddr : Z; c_rkey : Z; c_total_len : Z;
  c_lkey : Z; c_imm : Z; c_laddr : Z; c_len : Z; c_is_first : bool; c_is_last : bool;
  c_msn : Z; c_psn : Psn; c_is_retry : bool; c_enable_ecn : bool }.

Definition chunk_default : WrChunk :=
  mk_chunk OpRdmaWrite 0 0 0 0 0 0 0 0 0 0 0 0 0 0 false false 0 0 false false.

(** The stages of the builder: which setters have been called is part of its type. *)
Inductive stage : Set := Initial | WithQpParams | WithIbvParams | WithChunkInfo.

Record WrChunkBuilder (s : stage) : Set := mk_builder { bld_inner : WrChunk }.
Arguments mk_builder {s} bld_inner.
Arguments bld_inner {s} w.

Definition new_with_opcode (opcode : WorkReqOpCode) : WrChunkBuilder Initial :=
  mk_builder (mk_chunk opcode 0 0 0 0 0 0 0 0 0 0 0 0 0 0 false false 0 0 false false).

Definition set_qp_params (b : WrChunkBuilder Initial) (q : QpParams) :
    WrChunkBuilder WithQpParams :=
  let c := bld_inner b in
  mk_builder (mk_chunk (c_opcode c) (qpp_qp_type q) (qpp_sqpn q) (qpp_mac_addr q) (qpp_dqpn q)
    (qpp_dqp_ip q) (qpp_pmtu q) (c_flags c) (c_raddr c) (c_rkey c) (c_total_len c) (c_lkey c)
    (c_imm c) (c_laddr c) (c_len c) (c_is_first c) (c_is_last c) (qpp_msn q) (c_psn c)
    (c_is_retry c) (c_enable_ecn c)).

Definition set_ibv_params (b : WrChunkBuilder WithQpParams) (flags rkey total_len lkey imm : Z) :
    WrChunkBuilder WithIbvParams :=
  let c := bld_inner b in
  mk_builder (mk_chunk (c_opcode c) (c_qp_type c) (c_sqpn c) (c_mac_addr c) (c_dqpn c)
    (c_dqp_ip c) (c_pmtu c) flags (c_raddr c) rkey total_len lkey imm (c_laddr c) (c_len c)
    (c_is_first c) (c_is_last c) (c_msn c) (c_psn c) (c_is_retry c) (c_enable_ecn c)).

Definition set_chunk_meta (b : WrChunkBuilder WithIbvParams) (psn : Psn) (laddr raddr len : Z)
    (pos : ChunkPos) : WrChunkBuilder WithChunkInfo :=
  let c := bld_inner b in
  let is_first := match pos with PosFirst | PosOnly => true | _ => c_is_first c end in
  let is_last := match pos with PosLast | PosOnly => true | _ => c_is_last c end in
  mk_builder (mk_chunk (c_opcode c) (c_qp_type c) (c_sqpn c) (c_mac_addr c) (c_dqpn c)
    (c_dqp_ip c) (c_pmtu c) (c_flags c) raddr (c_rkey c) (c_total_len c) (c_lkey c) (c_imm c)
    laddr len is_first is_last (c_msn c) psn (c_is_retry c) (c_enable_ecn c)).

Definition chunk_set_is_retry (c : WrChunk) : WrChunk :=
  mk_chunk (c_opcode c) (c_qp_type c) (c_sqpn c) (c_mac_addr c) (c_dqpn c)
    (c_dqp_ip c) (c_pmtu c) (c_flags c) (c_raddr c) (c_rkey c) (c_total_len c) (c_lkey c)
    (c_imm c) (c_laddr c) (c_len c) (c_is_first c) (c_is_last c) (c_msn c) (c_psn c)
    true (c_enable_ecn c).

Definition builder_set_is_retry (b : WrChunkBuilder WithChunkInfo) : WrChunkBuilder WithChunkInfo :=
  mk_builder (chunk_set_is_retry (bld_inner b)).

Definition build (b : WrChunkBuilder WithChunkInfo) : WrChunk := bld_inner b.

(** ** Lemmas *)

Lemma length_to_be_bytes n x : length (to_be_bytes n x) = n.
Proof. induction n; cbn; auto. Qed.

Lemma from_to_be_bytes n x :
  from_be_bytes (to_be_bytes n x) = x mod 2 ^ (8 * Z.of_nat n).
Proof.
  induction n as [|n IH]; [by rewrite Z.mod_1_r|].
  cbn [to_be_bytes from_be_bytes]. rewrite IH, length_to_be_bytes.
  rewrite Z.shiftr_div_pow2 by lia.
  replace (8 * Z.of_nat (S n)) with (8 * Z.of_nat n + 8) by lia.
  rewrite Z.pow_add_r by lia. change (2 ^ 8) with 256. rewrite Z.rem_mul_r by lia.
  ring.
Qed.

(** The 24 bytes are the four fields one after the other. *)
Lemma recv_to_bytes_eq wr :
  recv_to_bytes wr = to_be_bytes 8 (rv_wr_id wr) ++ to_be_bytes 8 (rv_addr wr) ++
                     to_be_bytes 4 (rv_length wr) ++ to_be_bytes 4 (rv_lkey wr).
Proof. reflexivity. Qed.

Definition recv_fits (wr : RecvWr) : Prop :=
  in_width 64 (rv_wr_id wr) /\ in_width 64 (rv_addr wr) /\
  in_width 32 (rv_length wr) /\ in_width 32 (rv_lkey wr).

Lemma recv_bytes_roundtrip_lemma wr :
  recv_fits wr -> recv_from_bytes (recv_to_bytes wr) = wr.
Proof.
  intros (H1 & H2 & H3 & H4). rewrite recv_to_bytes_eq. unfold recv_from_bytes.
  change (slice _ 0 8) with (to_be_bytes 8 (rv_wr_id wr)).
  change (slice _ 8 16) with (to_be_bytes 8 (rv_addr wr)).
  change (slice _ 16 20) with (to_be_bytes 4 (rv_length wr)).
  change (slice _ 20 24) with (to_be_bytes 4 (rv_lkey wr)).
  rewrite !from_to_be_bytes. destruct wr as [a b c d]. cbn in *.
  f_equal; by apply Z.mod_small.
Qed.
