(* ===== verification/Qp.v ===== *)
(** * Queue pair numbers, handles and send contexts

    rust-driver/src/rdma_utils/qp.rs and pd.rs, and the completion queue handles of
    workers/completion.rs: the bitmaps that hand out numbers, the window of outstanding
    packets and messages of a send queue, and the number of packets a request reserves. *)

From Stdlib Require Import ZArith Lia.
From stdpp Require Import base list gmap sets numbers.
From S2P Require Import Prelude RustBase Psn.

#[local] Open Scope Z_scope.
#[local] Open Scope cint_scope.

(** ** constants.rs *)

Definition MAX_QP_CNT : Z := 1024.
Definition QPN_KEY_PART_WIDTH : Z := 8.
Definition MAX_CQ_CNT : Z := 1024.
Definition MAX_PD_CNT : Z := 256.

(** ** Handles *)

Section handles.
Context {V : Type} `{BitVec V}.

(** [let i = bitmap.first_zero()?; bitmap.set(i, true)] *)
Definition bitmap_claim : M V (option Z) :=
  v ← get;
  match bv_first_zero v with
  | None => mret None
  | Some index =>
      v' ← demand Panic (bv_set v (wrap 32 index) true);
      modify (fun _ => v');;
      mret (Some (wrap 32 index))
  end.

(** [let ret = bitmap.get(i).is_some_and(|x| *x); bitmap.set(i, false)] *)
Definition bitmap_release (index : Z) : M V bool :=
  v ← get;
  let ret := match bv_get v index with Some b => b | None => false end in
  v' ← demand Panic (bv_set v index false);
  modify (fun _ => v');;
  mret ret.

Definition QpManager_new {S} : M S V :=
  demand Panic (bv_set (bv_resize bv_new MAX_QP_CNT false) 0 true).

(** [key] is the random number drawn by the call. *)
Definition create_qp (key : Z) : M V (option Z) :=
  index ← bitmap_claim;
  mret ((fun i => Z.lor (i <<{32} QPN_KEY_PART_WIDTH) key) <$> index).

Definition qpn_to_index (qpn : Z) : Z := Z.shiftr qpn QPN_KEY_PART_WIDTH.

Definition destroy_qp (qpn : Z) : M V bool := bitmap_release (qpn_to_index qpn).

Definition CqManager_new : V := bv_resize bv_new MAX_CQ_CNT false.
Definition create_cq : M V (option Z) := bitmap_claim.
Definition destroy_cq (handle : Z) : M V bool := bitmap_release handle.

Definition PdTable_new {S} : M S V :=
  demand Panic (bv_set (bv_resize bv_new MAX_PD_CNT false) 0 true).
Definition pd_alloc : M V (option Z) := bitmap_claim.
Definition pd_dealloc (handle : Z) : M V bool := bitmap_release handle.

End handles.

(** ** QpTable *)

Section table.
Context {T : Type}.

Definition QpTable : Type := list T.

Definition QpTable_new_with (t : T) : QpTable := replicate (Z.to_nat MAX_QP_CNT) t.

Definition get_qp (q : QpTable) (qpn : Z) : option T := q !! Z.to_nat (qpn_to_index qpn).

(** [map_qp_mut]: apply [f] to the entry, if there is one. *)
Definition map_qp_mut {R} (q : QpTable) (qpn : Z) (f : T -> R * T) : option R * QpTable :=
  match get_qp q qpn with
  | Some t => (Some (f t).1, <[Z.to_nat (qpn_to_index qpn) := (f t).2]> q)
  | None => (None, q)
  end.

Definition replace_qp (q : QpTable) (qpn : Z) (t : T) : option T * QpTable :=
  match get_qp q qpn with
  | Some x => (Some x, <[Z.to_nat (qpn_to_index qpn) := t]> q)
  | None => (None, q)
  end.

End table.
Arguments QpTable T : clear implicits.

(** ** The send window *)

Record SendQueueContext : Set := mk_sq {
  sq_msn : Msn; sq_psn : Psn; sq_psn_acked : Psn; sq_msn_acked : Msn }.

Definition sq_default : SendQueueContext := mk_sq 0 0 0 0.

Definition next_wr (num_psn : Z) (c : SendQueueContext) : option (Msn * Psn) * SendQueueContext :=
  let outstanding_num_psn := psn_sub (sq_psn c) (sq_psn_acked c) in
  let outstanding_num_msn := sq_msn c -{16} sq_msn_acked c in
  if (MAX_PSN_WINDOW <? psn_add outstanding_num_psn num_psn)
     || (MAX_SEND_WR <=? outstanding_num_msn)
  then (None, c)
  else
    let next_msn := sq_msn c +{16} 1 in
    let next_psn := psn_add (sq_psn c) num_psn in
    (Some (sq_msn c, sq_psn c), mk_sq next_msn next_psn (sq_psn_acked c) (sq_msn_acked c)).

Definition update_psn_acked (psn : Psn) (c : SendQueueContext) : SendQueueContext :=
  mk_sq (sq_msn c) (sq_psn c) psn (sq_msn_acked c).

Definition update_msn_acked (msn : Msn) (c : SendQueueContext) : SendQueueContext :=
  mk_sq (sq_msn c) (sq_psn c) (sq_psn_acked c) msn.

(** ** Packets of a request *)

(** The values of [enum ibv_mtu] in libibverbs/verbs.h. *)
Definition convert_ibv_mtu_to_u16 (ibv_mtu : Z) : option Z :=
  if ibv_mtu =? 1 then Some 256
  else if ibv_mtu =? 2 then Some 512
  else if ibv_mtu =? 3 then Some 1024
  else if ibv_mtu =? 4 then Some 2048
  else if ibv_mtu =? 5 then Some 4096
  else None.

Definition saturating_add (w x y : Z) : Z := Z.min (2 ^ w - 1) (x + y).
Definition saturating_sub (x y : Z) : Z := Z.max 0 (x - y).

(** [pmtu.checked_sub(1)] cannot fail: every value above is at least 256. *)
Definition num_psn (pmtu addr length : Z) : option Z :=
  match convert_ibv_mtu_to_u16 pmtu with
  | None => None
  | Some pmtu =>
      let pmtu_mask := pmtu - 1 in
      let next_align_addr := Z.land (saturating_add 64 addr pmtu_mask) (~{64} pmtu_mask) in
      let gap := saturating_sub next_align_addr addr in
      let rest := if gap <=? length then length - gap else length in
      let n := div_ceil rest pmtu in
      if n <? 2 ^ 32 then Some n else None
  end.

(** ** Lemmas on handles *)

Section handle_lemmas.
Context {V : Type} `{BitVec V} `{!BitVecLaws V}.
Implicit Types v : V.

(** The numbers a bitmap has given out. *)
Definition used v (i : Z) : Prop := 0 <= i /\ bv_bits v !! Z.to_nat i = Some true.

Lemma used_in_range v i : used v i -> 0 <= i < bv_len v.
Proof. intros [Hi Hu]. apply lookup_lt_Some in Hu. unfold bv_len. lia. Qed.

Lemma bv_set_used v i b :
  0 <= i < bv_len v ->
  exists v', bv_set v i b = Some v' /\ bv_len v' = bv_len v /\
    forall j, used v' j <-> if decide (j = i) then b = true else used v j.
Proof.
  intros Hi. pose proof (bv_set_inside v i b Hi) as E.
  destruct (bv_set v i b) as [v'|]; [|done]. cbn in E. injection E as E.
  exists v'. split; [done|]. unfold used, bv_len in *. rewrite E.
  split; [by rewrite length_insert|].
  intros j. destruct (decide (j = i)) as [->|Hne].
  - rewrite list_lookup_insert_eq by lia. naive_solver lia.
  - destruct (decide (0 <= j)); [|naive_solver].
    rewrite list_lookup_insert_ne by lia. tauto.
Qed.

(** [bitmap_claim] takes the smallest number that is free. *)
Lemma bitmap_claim_spec v :
  bv_len v <= 2 ^ 32 ->
  match bitmap_claim v with
  | Done (Some i) v' =>
      0 <= i < bv_len v /\ ~ used v i /\ (forall j, 0 <= j < i -> used v j) /\
      bv_len v' = bv_len v /\ (forall j, used v' j <-> used v j \/ j = i)
  | Done None v' => v' = v /\ forall i, 0 <= i < bv_len v -> used v i
  | Fault _ => False
  end.
Proof.
  intros Hlen. unfold bitmap_claim, get, modify, demand, mbind, M_bind, mret, M_ret.
  destruct (bv_first_zero v) as [i|] eqn:E.
  - apply bv_first_zero_some in E as (Hi & Hz & Hlt).
    pose proof (lookup_lt_Some _ _ _ Hz) as Hl. unfold bv_len in Hlen.
    rewrite wrap_small by (unfold in_width; lia).
    destruct (bv_set_used v i true) as (v' & -> & Hl' & Hu); [unfold bv_len; lia|].
    split; [unfold bv_len; lia|]. split; [intros [_ ?]; congruence|].
    split; [intros j Hj; split; [lia|by apply Hlt]|]. split; [done|].
    intros j. rewrite Hu. case_decide; tauto.
  - apply bv_first_zero_none in E. split; [done|]. intros i Hi. split; [lia|].
    destruct (lookup_lt_is_Some_2 (bv_bits v) (Z.to_nat i)) as [b Hb]; [unfold bv_len in Hi; lia|].
    rewrite Hb. f_equal. by eapply (Forall_lookup_1 _ _ _ _ E).
Qed.

(** [bitmap_release] frees a number and reports whether it was taken; past the end of
    the bitmap it panics. *)
Lemma bitmap_release_spec v i :
  0 <= i ->
  match bitmap_release i v with
  | Done b v' =>
      i < bv_len v /\ (b = true <-> used v i) /\ bv_len v' = bv_len v /\
      (forall j, used v' j <-> used v j /\ j <> i)
  | Fault f => f = Panic /\ bv_len v <= i
  end.
Proof.
  intros Hi. unfold bitmap_release, get, modify, demand, mbind, M_bind, mret, M_ret, fail.
  rewrite bv_get_bits by done. destruct (decide (i < bv_len v)) as [Hlt|Hge].
  - destruct (bv_set_used v i false) as (v' & -> & Hl & Hu); [lia|].
    split; [done|]. split; [|split; [done|]].
    + unfold used. destruct (bv_bits v !! Z.to_nat i) as [[]|]; naive_solver lia.
    + intros j. rewrite Hu. case_decide; naive_solver.
  - rewrite bv_set_outside by lia. split; [done|lia].
Qed.

(** Queue pairs in use: their indices are distinct, index 0 is reserved. *)
Definition qp_inv v (live : list Z) : Prop :=
  bv_len v = MAX_QP_CNT /\ NoDup (qpn_to_index <$> live) /\
  (forall qpn, qpn ∈ live -> 1 <= qpn_to_index qpn) /\
  forall i, used v i <-> i = 0 \/ i ∈ qpn_to_index <$> live.

Lemma qp_inv_new : wp (S := unit) QpManager_new (fun v _ => qp_inv v []) tt.
Proof.
  unfold QpManager_new. apply wp_demand.
  assert (Hb : bv_bits (bv_resize (bv_new : V) MAX_QP_CNT false) = replicate 1024 false).
  { rewrite bv_bits_resize, bv_bits_new. done. }
  destruct (bv_set_used (bv_resize (bv_new : V) MAX_QP_CNT false) 0 true) as (v & Hv & Hl & Hu).
  { unfold bv_len. rewrite Hb, length_replicate. lia. }
  exists v. split; [done|]. split; [rewrite Hl; unfold bv_len; by rewrite Hb, length_replicate|].
  split; [constructor|]. split; [by intros q Hq%elem_of_nil|]. intros i. rewrite Hu. case_decide; [tauto|].
  split; [|intros [?|Hf]; [done|by apply elem_of_nil in Hf]]. intros [_ Hi]. rewrite Hb in Hi. by apply lookup_replicate in Hi as [? _].
Qed.

Lemma qpn_index_key i key :
  0 <= i < 2 ^ 24 -> 0 <= key < 2 ^ 8 ->
  qpn_to_index (Z.lor (i <<{32} QPN_KEY_PART_WIDTH) key) = i.
Proof.
  intros Hi Hk. unfold qpn_to_index, QPN_KEY_PART_WIDTH.
  rewrite Z.shiftl_mul_pow2 by lia. rewrite wrap_small by (unfold in_width; lia).
  rewrite Z.shiftr_lor, <- Z.shiftl_mul_pow2, Z.shiftr_shiftl_l by lia.
  rewrite Z.sub_diag, Z.shiftl_0_r, (Z.shiftr_div_pow2 key), (Z.div_small key) by lia.
  apply Z.lor_0_r.
Qed.

Lemma create_qp_wp v live key :
  qp_inv v live -> 0 <= key < 2 ^ QPN_KEY_PART_WIDTH ->
  wp (create_qp key) (fun r v' =>
    match r with
    | Some qpn => 1 <= qpn_to_index qpn < MAX_QP_CNT /\
                  qpn_to_index qpn ∉ qpn_to_index <$> live /\ qp_inv v' (qpn :: live)
    | None => v' = v /\ length live = 1023%nat
    end) v.
Proof.
  intros (Hlen & Hnd & Hge & Hu) Hkey. unfold create_qp. apply wp_bind.
  pose proof (bitmap_claim_spec v) as Hc. unfold MAX_QP_CNT in Hlen.
  specialize (Hc ltac:(lia)). unfold wp at 1.
  destruct (bitmap_claim v) as [[i|] v'|]; [| |done].
  - destruct Hc as (Hi & Hfree & _ & Hlen' & Hu'). apply wp_ret. cbn.
    rewrite (qpn_index_key i key) by (unfold QPN_KEY_PART_WIDTH in *; lia).
    assert (i <> 0) by (intros ->; apply Hfree, Hu; by left).
    assert (i ∉ qpn_to_index <$> live) by (intros ?; apply Hfree, Hu; by right).
    unfold MAX_QP_CNT. split; [lia|]. split; [done|].
    split; [unfold MAX_QP_CNT; lia|]. cbn [fmap list_fmap]. cbn.
    rewrite (qpn_index_key i key) by (unfold QPN_KEY_PART_WIDTH in *; lia).
    split; [by constructor|]. split.
    + intros q [->|Hq]%elem_of_cons; [|by apply Hge].
      rewrite (qpn_index_key i key) by (unfold QPN_KEY_PART_WIDTH in *; lia). lia.
    + intros j. rewrite Hu', Hu, elem_of_cons. tauto.
  - destruct Hc as (-> & Hall). apply wp_ret. cbn. split; [done|].
    rewrite <- (length_fmap qpn_to_index live).
    assert (Hperm : qpn_to_index <$> live ≡ₚ seqZ 1 1023).
    { apply NoDup_Permutation; [done|apply NoDup_seqZ|]. intros j. rewrite elem_of_seqZ. split.
      - intros Hj. assert (used v j) as Hj' by (apply Hu; by right).
        apply used_in_range in Hj'. apply list_elem_of_fmap in Hj as (q & -> & Hq).
        specialize (Hge q Hq). lia.
      - intros Hj. destruct (proj1 (Hu j)) as [->|]; [apply Hall; lia|lia|done]. }
    rewrite Hperm. by rewrite length_seqZ.
Qed.

Lemma destroy_qp_wp v live1 live2 qpn qpn' :
  qp_inv v (live1 ++ qpn :: live2) -> qpn_to_index qpn' = qpn_to_index qpn ->
  wp (destroy_qp qpn') (fun r v' => r = true /\ qp_inv v' (live1 ++ live2)) v.
Proof.
  intros (Hlen & Hnd & Hge & Hu) Hidx. unfold destroy_qp. rewrite Hidx.
  assert (Hused : used v (qpn_to_index qpn)).
  { apply Hu. right. rewrite fmap_app, elem_of_app. right. cbn. left. }
  pose proof (bitmap_release_spec v (qpn_to_index qpn)) as Hr.
  pose proof (used_in_range _ _ Hused). specialize (Hr ltac:(lia)). unfold wp.
  destruct (bitmap_release (qpn_to_index qpn) v) as [b v'|]; [|destruct Hr; lia].
  destruct Hr as (_ & Hb & Hlen' & Hu'). split; [by apply Hb|].
  rewrite fmap_app in Hnd. cbn in Hnd. apply list.NoDup_app in Hnd as (Hn1 & Hn12 & Hn2).
  apply list.NoDup_cons in Hn2 as [Hni Hn2].
  split; [lia|]. split; [|split].
  - rewrite fmap_app. apply list.NoDup_app. split; [done|]. split; [|done].
    intros j Hj Hj'. eapply Hn12; [done|]. by right.
  - intros q Hq. apply Hge. set_solver.
  - intros j. rewrite Hu', Hu, !fmap_app, !elem_of_app. cbn. rewrite elem_of_cons.
    specialize (Hge qpn ltac:(set_solver)).
    split; [tauto|]. intros [->|[Hj|Hj]]; (split; [tauto|]).
    + lia.
    + intros ->. eapply Hn12; [done|]. by left.
    + by intros ->.
Qed.

End handle_lemmas.

(** ** The send window in unbounded numbers *)

Definition sq_of (psn acked msn msn_acked : Z) : SendQueueContext :=
  mk_sq (msn_of msn) (psn_of psn) (psn_of acked) (msn_of msn_acked).

Lemma next_wr_of num p a m ma :
  0 <= m - ma < 2 ^ 16 ->
  next_wr num (sq_of p a m ma) =
  if ((p - a + num) mod 2 ^ 24 <=? 2 ^ 23) && (m - ma <? 2 ^ 15)
  then (Some (msn_of m, psn_of p), sq_of (p + num) a (m + 1) ma)
  else (None, sq_of p a m ma).
Proof.
  intros Hm. unfold next_wr, sq_of. cbn [sq_psn sq_msn sq_psn_acked sq_msn_acked].
  rewrite psn_sub_of, !psn_add_of. unfold msn_of, wrap.
  rewrite Zminus_mod_idemp_l, Zminus_mod_idemp_r, (Z.mod_small (m - ma)) by done.
  rewrite Zplus_mod_idemp_l. change MAX_PSN_WINDOW with (2 ^ 23). change MAX_SEND_WR with (2 ^ 15).
  rewrite (Z.ltb_antisym (psn_of _)), (Z.leb_antisym (m - ma)). unfold psn_of at 1.
  by destruct (_ <=? _), (m - ma <? 2 ^ 15).
Qed.

(** ** Packet counts *)

Lemma mtu_pow2 m p : convert_ibv_mtu_to_u16 m = Some p -> exists k, 8 <= k <= 12 /\ p = 2 ^ k.
Proof.
  unfold convert_ibv_mtu_to_u16.
  repeat case_match; intros [= <-]; [exists 8|exists 9|exists 10|exists 11|exists 12]; lia.
Qed.

(** The distance from [addr] up to the next multiple of [p]. *)
Definition gap (p addr : Z) : Z := - addr mod p.

Lemma gap_spec p addr : 0 < p -> 0 <= gap p addr < p /\ (addr + gap p addr) mod p = 0.
Proof.
  intros Hp. unfold gap. split; [by apply Z.mod_pos_bound|].
  rewrite Zplus_mod_idemp_r. by rewrite Z.add_opp_diag_r.
Qed.

Lemma div_ceil_le x y : 0 <= x -> 0 < y -> 0 <= div_ceil x y <= x.
Proof.
  intros Hx Hy. destruct (div_ceil_spec x y Hx Hy) as [H|[-> ->]]; [nia|lia].
Qed.

Lemma num_psn_eq m p addr length :
  convert_ibv_mtu_to_u16 m = Some p -> 0 <= addr -> addr + p <= 2 ^ 64 ->
  in_width 32 length ->
  num_psn m addr length =
  Some (div_ceil (if gap p addr <=? length then length - gap p addr else length) p).
Proof.
  intros Hm Ha Hp [Hl0 Hl1]. unfold num_psn. rewrite Hm.
  destruct (mtu_pow2 m p Hm) as (k & Hk & ->).
  assert (0 < 2 ^ k) by (apply Z.pow_pos_nonneg; lia).
  assert (2 ^ k <= 2 ^ 12) by (apply Z.pow_le_mono_r; lia).
  assert (Hg : saturating_sub (Z.land (saturating_add 64 addr (2 ^ k - 1)) (~{64} (2 ^ k - 1))) addr
               = gap (2 ^ k) addr).
  { unfold saturating_add, saturating_sub. rewrite Z.min_r by lia.
    rewrite land_not_ones by (unfold in_width; lia). unfold gap.
    set (P := 2 ^ k) in *. clearbody P.
    pose proof (Z.div_mod (addr + (P - 1)) P ltac:(lia)).
    pose proof (Z.mod_pos_bound (addr + (P - 1)) P ltac:(lia)).
    apply Z.mod_unique_pos with (- ((addr + (P - 1)) / P)); lia. }
  rewrite Hg. cbv zeta. pose proof (gap_spec (2 ^ k) addr) as [Hgap _]; [done|].
  set (rest := if gap (2 ^ k) addr <=? length then length - gap (2 ^ k) addr else length).
  assert (0 <= rest <= length) by (unfold rest; destruct (Z.leb_spec (gap (2 ^ k) addr) length); lia).
  pose proof (div_ceil_le rest (2 ^ k) ltac:(lia) ltac:(lia)). rewrite (proj2 (Z.ltb_lt _ _)) by lia. done.
Qed.

(** ** Properties *)

(** Queue pair numbers.  A fresh manager has none in use; [create_qp] returns a number
    whose index is in range, not reserved and not in use, and gives up only with all 1023
    in use; [destroy_qp] of a number in use succeeds and makes its index available again,
    whatever key the number carries; of a number past the table it panics. *)
Theorem qp_numbers_unique {V} `{BitVec V} `{!BitVecLaws V} (v : V) (live : list Z) (key : Z) :
  qp_inv v live -> 0 <= key < 2 ^ QPN_KEY_PART_WIDTH ->
  (exists v0, QpManager_new tt = Done v0 tt /\ qp_inv (v0 : V) []) /\
  (exists r v', create_qp key v = Done r v' /\
     match r with
     | Some qpn => 1 <= qpn_to_index qpn < MAX_QP_CNT /\
                   qpn_to_index qpn ∉ qpn_to_index <$> live /\ qp_inv v' (qpn :: live)
     | None => v' = v /\ length live = 1023%nat
     end) /\
  (forall live1 qpn live2 qpn', live = live1 ++ qpn :: live2 ->
     qpn_to_index qpn' = qpn_to_index qpn ->
     exists v', destroy_qp qpn' v = Done true v' /\ qp_inv v' (live1 ++ live2)) /\
  (forall qpn, MAX_QP_CNT <= qpn_to_index qpn -> destroy_qp qpn v = Fault Panic).
Proof.
  intros Hinv Hkey. split; [|split; [|split]].
  - pose proof (qp_inv_new (V := V)) as Hn. apply wp_run in Hn as (v0 & [] & Hn & Hi). by exists v0.
  - by apply wp_run, create_qp_wp.
  - intros live1 qpn live2 qpn' -> Hidx.
    pose proof (destroy_qp_wp v live1 live2 qpn qpn' Hinv Hidx) as Hd.
    apply wp_run in Hd as (r & v' & Hd & -> & Hi). by exists v'.
  - intros qpn Hq. destruct Hinv as [Hlen _]. unfold MAX_QP_CNT in *.
    pose proof (bitmap_release_spec v (qpn_to_index qpn)) as Hr. unfold destroy_qp.
    destruct (bitmap_release (qpn_to_index qpn) v) as [b v'|f].
    + destruct Hr as [? _]; lia.
    + destruct Hr as [-> _]; [lia|done].
Qed.

Definition fresh_qps : list bool := true :: replicate 1023 false.

Lemma fresh_qps_inv : qp_inv fresh_qps [].
Proof.
  pose proof (qp_inv_new (V := list bool)) as Hn. apply wp_run in Hn as (v & [] & Hn & Hi).
  assert (QpManager_new tt = Done fresh_qps tt) as Hf by (vm_compute; reflexivity).
  congruence.
Qed.

Lemma qp_numbers_unique_witness :
  (exists r v', create_qp 7 fresh_qps = Done r v' /\ is_Some r) /\
  destroy_qp (2 ^ 31) fresh_qps = Fault Panic.
Proof.
  destruct (qp_numbers_unique fresh_qps [] 7 fresh_qps_inv) as (_ & (r & v' & Hc & Hr) & _ & Hd).
  - vm_compute. split; [discriminate|reflexivity].
  - split; [exists r, v'; split; [exact Hc|]|apply Hd; vm_compute; discriminate].
    destruct r; [eexists; reflexivity|]. destruct Hr as [_ Hr]. discriminate.
Defined.

(** C31: the send window.  While the outstanding packets and those of the request together
    stay below 2^24, [next_wr] accepts the request exactly when together they are at most
    2^23 and fewer than 2^15 messages are outstanding before it (so that at most 2^15 are
    outstanding with it); it then hands out the next message and packet number and advances
    by one message and the packets of the request, and otherwise changes nothing. *)
Theorem send_window (num p a m ma : Z) :
  0 <= p - a -> 0 <= num -> p - a + num < 2 ^ 24 -> 0 <= m - ma < 2 ^ 16 ->
  next_wr num (sq_of p a m ma) =
  if (p - a + num <=? 2 ^ 23) && (m - ma <? 2 ^ 15)
  then (Some (msn_of m, psn_of p), sq_of (p + num) a (m + 1) ma)
  else (None, sq_of p a m ma).
Proof. intros H1 H2 H3 H4. rewrite next_wr_of by done. by rewrite Z.mod_small by lia. Qed.

Lemma send_window_witness :
  next_wr 3 (sq_of (2 ^ 24 - 1) (2 ^ 24 - 2) 5 5) =
  (Some (msn_of 5, psn_of (2 ^ 24 - 1)), sq_of (2 ^ 24 + 2) (2 ^ 24 - 2) 6 5).
Proof. exact (send_window 3 (2 ^ 24 - 1) (2 ^ 24 - 2) 5 5 ltac:(lia) ltac:(lia) ltac:(lia) ltac:(lia)). Defined.

(** The window check forgets full cycles.  With the window full, a request of 2^23
    packets (2 GiB at a 256-byte path MTU) is accepted as well: the sum of outstanding
    and requested packets is reduced to 24 bits before it is compared, and the queue
    then looks empty with 2^24 packets outstanding. *)
Theorem window_check_wraps (a m ma : Z) :
  0 <= m - ma < 2 ^ 15 ->
  next_wr (2 ^ 23) (sq_of (a + 2 ^ 23) a m ma) =
    (Some (msn_of m, psn_of (a + 2 ^ 23)), sq_of (a + 2 ^ 24) a (m + 1) ma) /\
  sq_psn (sq_of (a + 2 ^ 24) a (m + 1) ma) = sq_psn_acked (sq_of (a + 2 ^ 24) a (m + 1) ma).
Proof.
  intros Hm. rewrite next_wr_of by lia.
  replace (a + 2 ^ 23 - a + 2 ^ 23) with (2 ^ 24) by lia.
  rewrite (proj2 (Z.ltb_lt (m - ma) _)) by lia. split.
  - cbn -[Z.add]. do 2 f_equal. lia.
  - cbn -[Z.add Z.pow]. unfold psn_of. replace (a + 2 ^ 24) with (a + 1 * 2 ^ 24) by lia. by rewrite Z.mod_add.
Qed.

Lemma window_check_wraps_witness :
  (next_wr (2 ^ 23) (sq_of (0 + 2 ^ 23) 0 1 0)).1 = Some (1, 2 ^ 23).
Proof. by rewrite (proj1 (window_check_wraps 0 1 0 ltac:(lia))). Defined.
