(* ===== verification/Fragmenter.v ===== *)
(** * Cutting requests into chunks and packets

    rust-driver/src/rdma_utils/fragmenter.rs: the iterators that cut a work request into
    64 KiB chunks for the device (first transmission) or into packets (retransmission),
    both at addresses aligned to the path MTU, and number them.  The theorems say that
    the pieces tile the request, that both numberings are the same function of the
    remote address, and how the numbers used compare with the numbers reserved. *)

From Stdlib Require Import ZArith Lia.
From stdpp Require Import base list numbers.
From S2P Require Import Prelude RustBase Psn WorkReq Qp.

#[local] Open Scope Z_scope.
#[local] Open Scope cint_scope.

Definition WR_CHUNK_SIZE : Z := 0x10000.

Record Fragment : Set := mk_fragment { f_addr : Z; f_len : Z; f_pos : ChunkPos }.

Record Fragmenter : Set := mk_fragmenter {
  fr_segment_size : Z; fr_align : Z; fr_base_addr : Z; fr_end_addr : Z }.

Record IntoIter : Set := mk_iter {
  it_segment_size : Z; it_align : Z; it_current_addr : Z; it_current_pos : ChunkPos;
  it_end_addr : Z; it_total_segments : Z; it_count : Z }.

(** The iterator behind chunks and packets. *)
Record IntoIterChunk : Set := mk_iter_chunk {
  ic_inner : IntoIter; ic_psn : Psn; ic_builder : WrChunkBuilder WithIbvParams;
  ic_laddr : Z; ic_pmtu : Z; ic_is_retry : bool }.

Section code.
Context `{Profile}.

Definition Fragmenter_new {S} (segment_size align base_addr length : Z) : M S Fragmenter :=
  end_addr ← uadd 64 base_addr length;
  mret (mk_fragmenter segment_size align base_addr end_addr).

(** [(addr + segment_size) & !(align - 1)] *)
Definition cut_addr {S} (addr segment_size align : Z) : M S Z :=
  a ← uadd 64 addr segment_size;
  m ← usub 64 align 1;
  mret (Z.land a (~{64} m)).

Definition num_segments {S} (f : Fragmenter) : M S Z :=
  if fr_end_addr f <=? fr_base_addr f then mret 0
  else
    first_aligned ← cut_addr (fr_base_addr f) (fr_segment_size f) (fr_align f);
    let remaining_after_first := saturating_sub (fr_end_addr f) first_aligned in
    uadd 64 (div_ceil remaining_after_first (fr_segment_size f)) 1.

Definition into_iter {S} (f : Fragmenter) : M S IntoIter :=
  n ← num_segments f;
  let current_pos := if n =? 1 then PosOnly else PosFirst in
  mret (mk_iter (fr_segment_size f) (fr_align f) (fr_base_addr f) current_pos
          (fr_end_addr f) n n).

Definition iter_next : M IntoIter (option Fragment) :=
  it ← get;
  if it_count it =? 0 then mret None
  else
    cut ← cut_addr (it_current_addr it) (it_segment_size it) (it_align it);
    let end_ := Z.min cut (it_end_addr it) in
    len ← usub 64 end_ (it_current_addr it);
    let fragment := mk_fragment (it_current_addr it) len (it_current_pos it) in
    current_addr ← uadd 64 (it_current_addr it) len;
    count ← usub 64 (it_count it) 1;
    let next_pos :=
      match count =? 1, it_current_pos it with
      | _, PosOnly => PosOnly
      | true, _ | false, PosLast => PosLast
      | false, (PosFirst | PosMiddle) => PosMiddle
      end in
    modify (fun _ => mk_iter (it_segment_size it) (it_align it) current_addr next_pos
                       (it_end_addr it) (it_total_segments it) count);;
    mret (Some fragment).

(** [ExactSizeIterator::len] *)
Definition iter_len (it : IntoIter) : Z := it_total_segments it.

(** Run an iterator to its end. *)
Fixpoint collect {S A} (next : M S (option A)) (fuel : nat) : M S (list A) :=
  match fuel with
  | O => fail FuelOut
  | S fuel' =>
      o ← next;
      match o with
      | None => mret []
      | Some a => l ← collect next fuel'; mret (a :: l)
      end
  end.

(** [ChunkFragmenter::into_iter] *)
Definition chunk_into_iter {S} (wr : SendWrRdma) (qp_param : QpParams) (base_psn : Psn)
    (chunk_size : Z) (is_retry : bool) : M S IntoIterChunk :=
  let b := r_base wr in
  let builder :=
    set_ibv_params (set_qp_params (new_with_opcode (b_opcode b)) qp_param)
      (wrap 8 (b_send_flags b)) (rkey wr) (b_length b) (b_lkey b) (b_imm_data b) in
  pmtu ← demand Panic (convert_ibv_mtu_to_u16 (qpp_pmtu qp_param));
  f ← Fragmenter_new chunk_size pmtu (raddr wr) (b_length b);
  inner ← into_iter f;
  mret (mk_iter_chunk inner base_psn builder (b_laddr b) pmtu is_retry).

Definition iter_chunk_next : M IntoIterChunk (option WrChunk) :=
  o ← zoom ic_inner
        (fun inner s => mk_iter_chunk inner (ic_psn s) (ic_builder s) (ic_laddr s) (ic_pmtu s)
                          (ic_is_retry s)) iter_next;
  match o with
  | None => mret None
  | Some f =>
      s ← get;
      let builder := set_chunk_meta (ic_builder s) (ic_psn s) (ic_laddr s) (f_addr f)
                       (wrap 32 (f_len f)) (f_pos f) in
      let chunk := if ic_is_retry s then build (builder_set_is_retry builder) else build builder in
      let num_packets := wrap 32 (div_ceil (f_len f) (ic_pmtu s)) in
      laddr ← uadd 64 (ic_laddr s) (f_len f);
      modify (fun _ => mk_iter_chunk (ic_inner s) (psn_add (ic_psn s) num_packets)
                         (ic_builder s) laddr (ic_pmtu s) (ic_is_retry s));;
      mret (Some chunk)
  end.

(** [WrChunkFragmenter] and [WrPacketFragmenter] *)
Definition wr_chunk_iter {S} (wr : SendWrRdma) (qp_param : QpParams) (base_psn : Psn) :
    M S IntoIterChunk :=
  chunk_into_iter wr qp_param base_psn WR_CHUNK_SIZE false.

Definition wr_packet_iter {S} (wr : SendWrRdma) (qp_param : QpParams) (base_psn : Psn) :
    M S IntoIterChunk :=
  pmtu ← demand Panic (convert_ibv_mtu_to_u16 (qpp_pmtu qp_param));
  chunk_into_iter wr qp_param base_psn pmtu true.

(** The whole sequence an iterator yields. *)
Definition all_chunks (it : IntoIterChunk) : res IntoIterChunk (list WrChunk) :=
  collect iter_chunk_next (S (Z.to_nat (it_count (ic_inner it)))) it.

End code.

(** Running an iterator, one call at a time. *)
Lemma collect_nil {S A} (next : M S (option A)) n s s' :
  next s = Done None s' -> collect next (Datatypes.S n) s = Done [] s'.
Proof. intros Hn. cbn [collect]. unfold mbind, M_bind. by rewrite Hn. Qed.

Lemma collect_cons {S A} (next : M S (option A)) n s s' s'' a l :
  next s = Done (Some a) s' -> collect next n s' = Done l s'' ->
  collect next (Datatypes.S n) s = Done (a :: l) s''.
Proof. intros Hn Hl. cbn [collect]. unfold mbind, M_bind. by rewrite Hn, Hl. Qed.

Lemma div_ceil_step seg x : 0 < seg -> 0 < x -> div_ceil x seg = div_ceil (saturating_sub x seg) seg + 1.
Proof.
  intros Hseg Hx. unfold saturating_sub. destruct (decide (x <= seg)).
  - rewrite Z.max_l by lia. destruct (div_ceil_spec x seg) as [Hs|[? _]]; [lia..| |lia].
    change (div_ceil 0 seg) with 0. nia.
  - rewrite Z.max_r by lia. unfold div_ceil.
    replace (x - seg) with (x + -1 * seg) by lia. rewrite Z.div_add, Z.mod_add by lia. lia.
Qed.

(** ** Pieces of a range *)

Section pieces.
Context `{Profile}.
Context (seg k e : Z) (Hk : 0 <= k < 64) (Hseg : 0 < seg) (Hdiv : (2 ^ k | seg)).
#[local] Notation align := (2 ^ k).

(** The end of the piece that starts at [a], before the end of the range is considered. *)
Definition cut (a : Z) : Z := (a + seg) / align * align.

Lemma align_pos : 0 < align.
Proof. apply Z.pow_pos_nonneg; lia. Qed.

Lemma cut_bounds a : 0 <= a -> a < cut a <= a + seg.
Proof.
  intros Ha. pose proof align_pos. destruct Hdiv as [q Hq]. unfold cut.
  pose proof (Z.div_mod (a + seg) align ltac:(lia)).
  pose proof (Z.mod_pos_bound (a + seg) align ltac:(lia)).
  assert (1 <= q) by nia. assert (2 ^ k <= seg) by nia. lia.
Qed.

Lemma cut_mod a : cut a mod align = 0.
Proof. pose proof align_pos. unfold cut. apply Z.mod_mul. lia. Qed.

Lemma cut_aligned a : a mod align = 0 -> cut a = a + seg.
Proof.
  intros Ha. pose proof align_pos. destruct Hdiv as [q Hq]. unfold cut.
  pose proof (Z.div_mod a align ltac:(lia)) as Hd. rewrite Ha in Hd.
  replace (a + seg) with ((a / align + q) * align) by lia. by rewrite Z.div_mul by lia.
Qed.

Lemma cut_addr_run {S} a (s : S) :
  0 <= a -> a + seg < 2 ^ 64 -> cut_addr a seg align s = Done (cut a) s.
Proof.
  intros Ha Hb. pose proof align_pos. unfold cut_addr, mbind, M_bind.
  rewrite uadd_run, usub_run by lia. unfold mret, M_ret, cut. f_equal.
  apply land_not_ones; [unfold in_width|]; lia.
Qed.

(** How many pieces are left from [a] on. *)
Definition pieces_left (a : Z) : Z :=
  if e <=? a then 0 else div_ceil (saturating_sub e (cut a)) seg + 1.

Lemma pieces_left_step a :
  0 <= a < e -> pieces_left (Z.min (cut a) e) = pieces_left a - 1.
Proof.
  intros Ha. pose proof (cut_bounds a ltac:(lia)) as Hc. unfold pieces_left at 2.
  rewrite (proj2 (Z.leb_gt e a)) by lia. unfold pieces_left. destruct (decide (e <= cut a)).
  - rewrite (proj2 (Z.leb_le e _)) by lia. unfold saturating_sub. rewrite Z.max_l by lia.
    change (div_ceil 0 seg) with 0. lia.
  - rewrite (proj2 (Z.leb_gt e _)) by lia. rewrite Z.min_l by lia.
    rewrite (cut_aligned (cut a)) by apply cut_mod.
    assert (Hx : saturating_sub e (cut a) = e - cut a) by (unfold saturating_sub; lia).
    rewrite Hx, (div_ceil_step seg (e - cut a)) by lia. unfold saturating_sub.
    replace (e - (cut a + seg)) with (e - cut a - seg) by lia. lia.
Qed.

Lemma pieces_left_nonneg a : 0 <= pieces_left a.
Proof.
  unfold pieces_left. destruct (Z.leb_spec e a); [lia|].
  pose proof (div_ceil_le (saturating_sub e (cut a)) seg). unfold saturating_sub in *. lia.
Qed.

Lemma pieces_left_pos a : a < e -> 0 < pieces_left a.
Proof.
  intros Ha. unfold pieces_left. rewrite (proj2 (Z.leb_gt _ _)) by lia.
  pose proof (div_ceil_le (saturating_sub e (cut a)) seg). unfold saturating_sub in *. lia.
Qed.

(** The pieces of a list follow each other from [a] to the end of the range; none is
    empty or longer than [seg], and all but the last end at an aligned address. *)
Fixpoint tiles (a : Z) (l : list Fragment) : Prop :=
  match l with
  | [] => a = e
  | f :: l' =>
      f_addr f = a /\ 0 < f_len f <= seg /\
      (l' = [] \/ (a + f_len f) mod align = 0) /\ tiles (a + f_len f) l'
  end.

(** The positions the iterator assigns to [n] pieces when the next one is [pos]. *)
Definition next_pos (count : Z) (pos : ChunkPos) : ChunkPos :=
  match count =? 1, pos with
  | _, PosOnly => PosOnly
  | true, _ | false, PosLast => PosLast
  | false, (PosFirst | PosMiddle) => PosMiddle
  end.

Fixpoint pos_from (n : nat) (pos : ChunkPos) : list ChunkPos :=
  match n with
  | O => []
  | S n' => pos :: pos_from n' (next_pos (Z.of_nat n') pos)
  end.

Record iter_ok (it : IntoIter) : Prop := {
  io_seg : it_segment_size it = seg;
  io_align : it_align it = align;
  io_end : it_end_addr it = e;
  io_cur : 0 <= it_current_addr it <= e;
  io_count : it_count it = pieces_left (it_current_addr it) }.

Lemma iter_next_none it : iter_ok it -> it_current_addr it = e -> iter_next it = Done None it.
Proof.
  intros Hok Hc. unfold iter_next, get, mbind, M_bind. rewrite (io_count _ Hok), Hc.
  unfold pieces_left. by rewrite Z.leb_refl.
Qed.

Lemma iter_next_some it :
  iter_ok it -> it_current_addr it < e -> e + seg <= 2 ^ 64 ->
  let a := it_current_addr it in
  let end_ := Z.min (cut a) e in
  exists it', iter_next it = Done (Some (mk_fragment a (end_ - a) (it_current_pos it))) it' /\
    iter_ok it' /\ it_current_addr it' = end_ /\ it_count it' = it_count it - 1 /\
    it_current_pos it' = next_pos (it_count it - 1) (it_current_pos it).
Proof.
  intros Hok Hlt Hb a end_. destruct Hok as [H1 H2 H3 H4 H5].
  pose proof (pieces_left_pos (it_current_addr it) Hlt).
  pose proof (cut_bounds (it_current_addr it) ltac:(lia)).
  unfold iter_next, get, mbind, M_bind. rewrite (proj2 (Z.eqb_neq (it_count it) 0)) by lia.
  rewrite H1, H2, cut_addr_run by lia. rewrite H3. fold a. fold end_.
  assert (a < end_ <= e) by (unfold end_, a in *; lia).
  rewrite usub_run, uadd_run, usub_run by lia. unfold modify, mret, M_ret.
  eexists. split; [reflexivity|]. cbn. split; [|split; [lia|done]].
  split; cbn; [done..|lia|].
  rewrite H5. change (it_current_addr it) with a.
  rewrite <- (pieces_left_step a) by (unfold a; lia). f_equal. fold end_. lia.
Qed.

(** Running the iterator to its end. *)
Lemma collect_fragments n it :
  iter_ok it -> it_count it = Z.of_nat n -> e + seg <= 2 ^ 64 ->
  exists l it', collect iter_next (S n) it = Done l it' /\
    tiles (it_current_addr it) l /\ f_pos <$> l = pos_from n (it_current_pos it) /\
    length l = n.
Proof.
  revert it. induction n as [|n IH]; intros it Hok Hn Hb.
  - assert (it_current_addr it = e) as Hc.
    { pose proof (io_cur _ Hok). destruct (decide (it_current_addr it < e)); [|lia].
      pose proof (pieces_left_pos (it_current_addr it)). pose proof (io_count _ Hok). lia. }
    exists [], it. split; [by apply collect_nil, iter_next_none|done].
  - assert (it_current_addr it < e) as Hc.
    { destruct (decide (it_current_addr it < e)); [done|].
      pose proof (io_count _ Hok) as Hcnt. unfold pieces_left in Hcnt.
      rewrite (proj2 (Z.leb_le _ _)) in Hcnt by lia. lia. }
    destruct (iter_next_some it Hok Hc Hb) as (it' & Hrun & Hok' & Hcur & Hcnt & Hpos).
    destruct (IH it' Hok' ltac:(lia) Hb) as (l & it'' & Hl & Ht & Hp & Hlen).
    set (a := it_current_addr it) in *. set (c := Z.min (cut a) e) in *.
    exists (mk_fragment a (c - a) (it_current_pos it) :: l), it''.
    split; [|split; [|split]].
    + by eapply collect_cons.
    + pose proof (io_cur _ Hok) as Ha. fold a in Ha. pose proof (cut_bounds a ltac:(lia)).
      cbn [tiles f_addr f_len]. replace (a + (c - a)) with c by lia.
      split; [done|]. split; [unfold c; lia|]. split; [|by rewrite <- Hcur].
      destruct (decide (e <= cut a)).
      * left. destruct l as [|f l]; [done|]. exfalso. cbn [tiles] in Ht. rewrite Hcur in Ht.
        assert (it_count it' = 0) as Hz.
        { rewrite (io_count _ Hok'), Hcur. unfold pieces_left.
          rewrite (proj2 (Z.leb_le _ _)) by (unfold c; lia). done. }
        cbn in Hlen. lia.
      * right. unfold c. rewrite Z.min_l by lia. apply cut_mod.
    + cbn. rewrite Hp, Hpos. do 3 f_equal. lia.
    + cbn. by rewrite Hlen.
Qed.

End pieces.

(** ** From the constructor to the iterator *)

(** The positions of [n] pieces. *)
Definition positions (n : nat) : list ChunkPos :=
  match n with
  | O => []
  | S O => [PosOnly]
  | S (S m) => PosFirst :: replicate m PosMiddle ++ [PosLast]
  end.

Lemma pos_from_middle m :
  pos_from (S m) (if Z.of_nat (S m) =? 1 then PosLast else PosMiddle) =
  replicate m PosMiddle ++ [PosLast].
Proof.
  induction m as [|m IH]; [done|].
  rewrite (proj2 (Z.eqb_neq _ _)) by lia. cbn [pos_from replicate app].
  f_equal. rewrite <- IH. cbn [pos_from]. unfold next_pos.
  by destruct (Z.of_nat (S m) =? 1).
Qed.

Lemma pos_from_start n :
  pos_from n (if Z.of_nat n =? 1 then PosOnly else PosFirst) = positions n.
Proof.
  destruct n as [|[|m]]; [done..|]. rewrite (proj2 (Z.eqb_neq _ _)) by lia.
  cbn [positions]. rewrite <- pos_from_middle. unfold next_pos.
  cbn [pos_from]. unfold next_pos. by destruct (Z.of_nat (S m) =? 1).
Qed.

Section start.
Context `{Profile}.

Lemma into_iter_run {S} seg k base len (s : S) :
  0 <= k < 64 -> 0 < seg -> (2 ^ k | seg) -> 0 <= base -> 0 <= len ->
  base + len + seg <= 2 ^ 64 ->
  exists f it, Fragmenter_new seg (2 ^ k) base len s = Done f s /\ into_iter f s = Done it s /\
    iter_ok seg k (base + len) it /\ it_current_addr it = base /\
    iter_len it = it_count it /\
    it_current_pos it = (if it_count it =? 1 then PosOnly else PosFirst).
Proof.
  intros Hk Hseg Hdiv Hb Hl Ho. pose proof (cut_bounds seg k Hk Hseg Hdiv base Hb).
  exists (mk_fragmenter seg (2 ^ k) base (base + len)).
  exists (mk_iter seg (2 ^ k) base
    (if pieces_left seg k (base + len) base =? 1 then PosOnly else PosFirst) (base + len)
    (pieces_left seg k (base + len) base) (pieces_left seg k (base + len) base)).
  split; [unfold Fragmenter_new, mbind, M_bind; by rewrite uadd_run by lia|].
  split; [|split; [split; cbn; (done || lia)|done]].
  unfold into_iter, num_segments, mbind, M_bind, pieces_left. cbn [fr_end_addr fr_base_addr].
  destruct (Z.leb_spec (base + len) base); [done|]. cbn.
  rewrite cut_addr_run by lia.
  pose proof (div_ceil_le (saturating_sub (base + len) (cut seg k base)) seg) as Hd.
  unfold saturating_sub in *. rewrite uadd_run by lia. done.
Qed.

End start.

(** ** Chunks and packets *)

Definition chunk_at (b : WrChunkBuilder WithIbvParams) (retry : bool) (psn : Psn) (laddr : Z)
    (f : Fragment) : WrChunk :=
  let b' := set_chunk_meta b psn laddr (f_addr f) (wrap 32 (f_len f)) (f_pos f) in
  if retry then build (builder_set_is_retry b') else build b'.

Fixpoint chunks_of (b : WrChunkBuilder WithIbvParams) (retry : bool) (pmtu : Z) (psn : Psn)
    (laddr : Z) (l : list Fragment) : list WrChunk :=
  match l with
  | [] => []
  | f :: l' => chunk_at b retry psn laddr f ::
      chunks_of b retry pmtu (psn_add psn (div_ceil (f_len f) pmtu)) (laddr + f_len f) l'
  end.

Lemma collect_inv {S A} (next : M S (option A)) n s s'' l :
  collect next (Datatypes.S n) s = Done l s'' ->
  (next s = Done None s'' /\ l = []) \/
  (exists a s' l', next s = Done (Some a) s' /\ collect next n s' = Done l' s'' /\ l = a :: l').
Proof.
  cbn [collect]. unfold mbind, M_bind. destruct (next s) as [[a|] s'|]; [| |done].
  - destruct (collect next n s') as [l' s2|] eqn:E; [|done]. intros [= <- <-]. right. eauto 7.
  - intros [= <- <-]. by left.
Qed.

Definition total_len (l : list Fragment) : Z := foldr (fun f n => f_len f + n) 0 l.

Lemma collect_chunks `{Profile} n inner psn b laddr pmtu retry l inner' :
  collect iter_next n inner = Done l inner' ->
  Forall (fun f => 0 <= f_len f) l -> laddr + total_len l < 2 ^ 64 ->
  exists s', collect iter_chunk_next n (mk_iter_chunk inner psn b laddr pmtu retry) =
             Done (chunks_of b retry pmtu psn laddr l) s' /\ ic_inner s' = inner'.
Proof.
  revert inner psn laddr l. induction n as [|n IH]; intros inner psn laddr l Hc Hf Hl; [done|].
  apply collect_inv in Hc as [[Hn ->]|(f & in1 & l' & Hn & Hc & ->)].
  - eexists. split; [apply collect_nil|].
    + unfold iter_chunk_next, mbind, M_bind. by erewrite zoom_done by exact Hn.
    + done.
  - apply Forall_cons_1 in Hf as [Hf Hf'].
    assert (0 <= total_len l') by (clear - Hf'; unfold total_len; induction Hf'; cbn in *; lia).
    change (total_len (f :: l')) with (f_len f + total_len l') in Hl.
    destruct (IH in1 (psn_add psn (div_ceil (f_len f) pmtu)) (laddr + f_len f) l' Hc Hf' ltac:(lia))
      as (s' & Hs' & Hin).
    exists s'. split; [|done]. eapply collect_cons; [|exact Hs'].
    unfold iter_chunk_next, mbind, M_bind. erewrite zoom_done by exact Hn. cbn.
    rewrite uadd_run by lia. unfold modify, mret, M_ret, chunk_at. cbn.
    unfold psn_add. by rewrite wrap_add_r.
Qed.

(** The builder that [ChunkFragmenter::into_iter] prepares. *)
Definition template (wr : SendWrRdma) (q : QpParams) : WrChunkBuilder WithIbvParams :=
  let b := r_base wr in
  set_ibv_params (set_qp_params (new_with_opcode (b_opcode b)) q)
    (wrap 8 (b_send_flags b)) (rkey wr) (b_length b) (b_lkey b) (b_imm_data b).

(** The chunk for the piece [f] of a request: the piece itself, the local address at the
    same distance from the start, the number of its first packet counted in pages of the
    path MTU, the marks of the first and the last piece, and the parameters of the request
    and of the queue pair. *)
Record chunk_for (wr : SendWrRdma) (q : QpParams) (retry : bool) (p base : Z)
    (f : Fragment) (c : WrChunk) : Prop := {
  cf_raddr : c_raddr c = f_addr f;
  cf_len : c_len c = f_len f;
  cf_laddr : c_laddr c = b_laddr (r_base wr) + (f_addr f - raddr wr);
  cf_psn : c_psn c = psn_of (base + (f_addr f / p - raddr wr / p));
  cf_first : c_is_first c = bool_decide (f_addr f = raddr wr);
  cf_last : c_is_last c = bool_decide (f_addr f + f_len f = raddr wr + b_length (r_base wr));
  cf_retry : c_is_retry c = retry;
  cf_request : (c_opcode c, c_flags c, c_rkey c, c_total_len c, c_lkey c, c_imm c) =
    (b_opcode (r_base wr), wrap 8 (b_send_flags (r_base wr)), rkey wr,
     b_length (r_base wr), b_lkey (r_base wr), b_imm_data (r_base wr));
  cf_qp : (c_msn c, c_qp_type c, c_sqpn c, c_mac_addr c, c_dqpn c, c_dqp_ip c, c_pmtu c) =
    (qpp_msn q, qpp_qp_type q, qpp_sqpn q, qpp_mac_addr q, qpp_dqpn q, qpp_dqp_ip q, qpp_pmtu q) }.

Definition pos_first (pos : ChunkPos) : bool :=
  match pos with PosFirst | PosOnly => true | _ => false end.
Definition pos_last (pos : ChunkPos) : bool :=
  match pos with PosLast | PosOnly => true | _ => false end.

Lemma chunk_at_for wr q retry p base n laddr f :
  laddr = b_laddr (r_base wr) + (f_addr f - raddr wr) ->
  n = base + (f_addr f / p - raddr wr / p) -> in_width 32 (f_len f) ->
  pos_first (f_pos f) = bool_decide (f_addr f = raddr wr) ->
  pos_last (f_pos f) = bool_decide (f_addr f + f_len f = raddr wr + b_length (r_base wr)) ->
  chunk_for wr q retry p base f (chunk_at (template wr q) retry (psn_of n) laddr f).
Proof.
  intros Hl Hn Hw Hf Hlast. unfold chunk_at. rewrite (wrap_small 32) by done.
  destruct retry; split; cbn; try congruence; rewrite <- ?Hf, <- ?Hlast; by destruct (f_pos f).
Qed.

(** Pages from an address to a later aligned one. *)
Lemma div_ceil_pages p a c :
  0 < p -> a < c -> c mod p = 0 -> div_ceil (c - a) p = c / p - a / p.
Proof.
  intros Hp Hac Hc. unfold div_ceil. pose proof (Z.div_mod c p ltac:(lia)).
  pose proof (Z.div_mod a p ltac:(lia)). pose proof (Z.mod_pos_bound a p Hp).
  replace (c - a) with ((c / p - a / p) * p - a mod p) by lia.
  destruct (decide (a mod p = 0)) as [->|].
  - rewrite Z.sub_0_r, Z.div_mul, Z.mod_mul by lia. cbn. lia.
  - replace ((c / p - a / p) * p - a mod p) with (p - a mod p + (c / p - a / p - 1) * p) by lia.
    rewrite Z.div_add, Z.mod_add by lia. rewrite Z.div_small, Z.mod_small by lia.
    rewrite (proj2 (Z.ltb_lt _ _)) by lia. lia.
Qed.

Lemma tiles_end seg k e a l : tiles seg k e a l -> a <= e /\ (l <> [] -> a < e).
Proof.
  revert a. induction l as [|f l IH]; intros a; cbn.
  - intros ->. split; [lia|done].
  - intros (_ & Hlen & _ & Ht). apply IH in Ht as [? _]. split; lia.
Qed.

Lemma chunks_numbered wr q retry seg k base l a pos :
  0 <= k -> seg < 2 ^ 32 -> 0 <= raddr wr <= a ->
  tiles seg k (raddr wr + b_length (r_base wr)) a l ->
  f_pos <$> l = pos_from (length l) pos ->
  pos_first pos = bool_decide (a = raddr wr) ->
  (l <> [] -> pos_last pos = bool_decide (length l = 1%nat)) ->
  Forall2 (chunk_for wr q retry (2 ^ k) base) l
    (chunks_of (template wr q) retry (2 ^ k) (psn_of (base + (a / 2 ^ k - raddr wr / 2 ^ k)))
       (b_laddr (r_base wr) + (a - raddr wr)) l).
Proof.
  intros Hk Hseg. assert (0 < 2 ^ k) by (apply Z.pow_pos_nonneg; lia).
  revert a pos. induction l as [|f l IH]; intros a pos Ha Ht Hpos Hfirst Hlast; cbn; [constructor|].
  cbn [tiles] in Ht. destruct Ht as (Hfa & Hlen & Hal & Ht).
  cbn in Hpos. injection Hpos as Hp Hpos.
  assert (Hend : a + f_len f = raddr wr + b_length (r_base wr) <-> l = []).
  { destruct l as [|g l]; [cbn in Ht; done|].
    apply tiles_end in Ht as [_ Ht]. specialize (Ht ltac:(done)). split; [lia|done]. }
  constructor.
  - apply chunk_at_for; rewrite ?Hfa; [done|done|unfold in_width; lia| |].
    + by rewrite Hp.
    + rewrite Hp, Hlast by done. apply bool_decide_ext. rewrite Hend. cbn.
      destruct l; cbn; split; (done || lia || intros ?; lia || discriminate).
  - destruct l as [|g l']; [constructor|]. set (l := g :: l') in *.
    destruct Hal as [?|Hal]; [done|].
    rewrite psn_add_of. replace (f_len f) with (a + f_len f - a) at 1 by lia.
    rewrite div_ceil_pages by lia.
    replace (base + (a / 2 ^ k - raddr wr / 2 ^ k) + ((a + f_len f) / 2 ^ k - a / 2 ^ k))
      with (base + ((a + f_len f) / 2 ^ k - raddr wr / 2 ^ k)) by lia.
    replace (b_laddr (r_base wr) + (a - raddr wr) + f_len f)
      with (b_laddr (r_base wr) + (a + f_len f - raddr wr)) by lia.
    assert (pos <> PosOnly /\ pos <> PosLast) as [Hn1 Hn2].
    { specialize (Hlast ltac:(done)). rewrite bool_decide_eq_false_2 in Hlast by (unfold l; cbn; lia).
      by destruct pos. }
    apply (IH _ (next_pos (Z.of_nat (length l)) pos)); [lia|done|done| |].
    + rewrite bool_decide_eq_false_2 by lia. unfold next_pos.
      destruct pos; try done; by destruct (Z.of_nat (length l) =? 1).
    + intros _. unfold next_pos. destruct (Z.eqb_spec (Z.of_nat (length l)) 1).
      * rewrite bool_decide_eq_true_2 by lia. by destruct pos.
      * rewrite bool_decide_eq_false_2 by lia. by destruct pos.
Qed.

(** ** Both fragmenters *)

Definition seg_of (retry : bool) (p : Z) : Z := if retry then p else WR_CHUNK_SIZE.

Definition iter_of `{Profile} {S} (retry : bool) (wr : SendWrRdma) (q : QpParams) (psn : Psn) :
    M S IntoIterChunk :=
  if retry then wr_packet_iter wr q psn else wr_chunk_iter wr q psn.

(** The addresses of the request do not wrap around. *)
Record request_ok (wr : SendWrRdma) : Prop := {
  rq_raddr : 0 <= raddr wr;
  rq_laddr : 0 <= b_laddr (r_base wr);
  rq_length : in_width 32 (b_length (r_base wr));
  rq_remote : raddr wr + b_length (r_base wr) + WR_CHUNK_SIZE <= 2 ^ 64;
  rq_local : b_laddr (r_base wr) + b_length (r_base wr) < 2 ^ 64 }.

Lemma tiles_total seg k e a l :
  tiles seg k e a l -> total_len l = e - a /\ Forall (fun f => 0 <= f_len f) l.
Proof.
  revert a. induction l as [|f l IH]; intros a; cbn [tiles].
  - intros ->. split; [unfold total_len; cbn; lia|constructor].
  - intros (_ & Hlen & _ & Ht). apply IH in Ht as [Hs Hf].
    change (total_len (f :: l)) with (f_len f + total_len l). split; [lia|]. constructor; [lia|done].
Qed.

Lemma seg_of_ok retry k :
  8 <= k <= 12 ->
  0 < seg_of retry (2 ^ k) <= WR_CHUNK_SIZE /\ (2 ^ k | seg_of retry (2 ^ k)).
Proof.
  intros Hk. unfold seg_of, WR_CHUNK_SIZE.
  assert (0 < 2 ^ k <= 2 ^ 12) by (split; [apply Z.pow_pos_nonneg|apply Z.pow_le_mono_r]; lia).
  destruct retry; (split; [lia|]); [by exists 1; lia|].
  exists (2 ^ (16 - k)). rewrite <- Z.pow_add_r by lia. by replace (16 - k + k) with 16 by lia.
Qed.

(** Everything the iterators yield, in one statement. *)
Lemma all_chunks_run `{Profile} {S} (s : S) retry wr q k base :
  convert_ibv_mtu_to_u16 (qpp_pmtu q) = Some (2 ^ k) -> 8 <= k <= 12 -> request_ok wr ->
  let seg := seg_of retry (2 ^ k) in
  let e := raddr wr + b_length (r_base wr) in
  exists it s' frags chunks,
    iter_of retry wr q (psn_of base) s = Done it s /\ all_chunks it = Done chunks s' /\
    tiles seg k e (raddr wr) frags /\ f_pos <$> frags = positions (length frags) /\
    Forall2 (chunk_for wr q retry (2 ^ k) base) frags chunks /\
    Z.of_nat (length chunks) = pieces_left seg k e (raddr wr).
Proof.
  intros Hp Hk [Ha Hla Hlen Hr Hl] seg e. destruct (seg_of_ok retry k Hk) as [Hseg Hdiv].
  fold seg in Hseg, Hdiv. unfold WR_CHUNK_SIZE in *.
  destruct (into_iter_run seg k (raddr wr) (b_length (r_base wr)) s)
    as (f & inner & Hf & Hi & Hok & Hcur & Hil & Hpos);
    [lia|lia|done|done|destruct Hlen; lia|lia|]. fold e in Hok.
  pose proof (io_count _ _ _ _ Hok) as Hcnt. rewrite Hcur in Hcnt.
  assert (Hnn : 0 <= pieces_left seg k e (raddr wr)) by (apply pieces_left_nonneg; lia).
  destruct (collect_fragments seg k e ltac:(lia) ltac:(lia) Hdiv (Z.to_nat (it_count inner)) inner)
    as (frags & inner' & Hc & Ht & Hps & Hn); [done|lia|unfold e; lia|]. rewrite Hcur in Ht.
  destruct (tiles_total _ _ _ _ _ Ht) as [Htot Hnonneg].
  destruct (collect_chunks _ inner (psn_of base) (template wr q) (b_laddr (r_base wr)) (2 ^ k) retry
              frags inner' Hc Hnonneg) as (s' & Hs' & _); [lia|].
  assert (Hfrom : f_pos <$> frags =
    pos_from (length frags) (if Z.of_nat (length frags) =? 1 then PosOnly else PosFirst)).
  { rewrite Hps, Hpos, Hn. by rewrite Z2Nat.id by lia. }
  assert (HF : Forall2 (chunk_for wr q retry (2 ^ k) base) frags
    (chunks_of (template wr q) retry (2 ^ k) (psn_of base) (b_laddr (r_base wr)) frags)).
  { pose proof (chunks_numbered wr q retry seg k base frags (raddr wr) _
      ltac:(lia) ltac:(lia) ltac:(lia) Ht Hfrom) as HF.
    rewrite !Z.sub_diag, !Z.add_0_r in HF. apply HF.
    - rewrite bool_decide_eq_true_2 by done. by destruct (Z.of_nat (length frags) =? 1).
    - intros _. destruct (Z.eqb_spec (Z.of_nat (length frags)) 1);
        [rewrite bool_decide_eq_true_2 by lia|rewrite bool_decide_eq_false_2 by lia]; done. }
  exists (mk_iter_chunk inner (psn_of base) (template wr q) (b_laddr (r_base wr)) (2 ^ k) retry), s',
    frags, (chunks_of (template wr q) retry (2 ^ k) (psn_of base) (b_laddr (r_base wr)) frags).
  split; [|split; [exact Hs'|split; [done|split; [by rewrite Hfrom, pos_from_start|split; [done|]]]]].
  - unfold iter_of, wr_packet_iter, wr_chunk_iter, chunk_into_iter, mbind, M_bind, demand.
    destruct retry; rewrite Hp; unfold seg, seg_of in Hf; cbn [mret M_ret]; unfold mret, M_ret;
      rewrite Hf, Hi; done.
  - rewrite <- (Forall2_length HF). lia.
Qed.

(** ** Each call uses up one piece *)

Lemma uadd_cases `{Profile} {S} w x y (s : S) :
  (exists v, uadd w x y s = Done v s) \/ uadd w x y s = Fault Panic.
Proof. unfold uadd. repeat case_match; [left; by eexists|by right|left; by eexists]. Qed.

Lemma usub_cases `{Profile} {S} w x y (s : S) :
  (exists v, usub w x y s = Done v s) \/ usub w x y s = Fault Panic.
Proof. unfold usub. repeat case_match; [left; by eexists|by right|left; by eexists]. Qed.

Lemma cut_addr_cases `{Profile} {S} a seg al (s : S) :
  (exists v, cut_addr a seg al s = Done v s) \/ cut_addr a seg al s = Fault Panic.
Proof.
  unfold cut_addr, mbind, M_bind. destruct (uadd_cases 64 a seg s) as [[v ->]| ->]; [|by right].
  destruct (usub_cases 64 al 1 s) as [[v' ->]| ->]; [left; by eexists|by right].
Qed.

Lemma iter_next_count `{Profile} it :
  0 <= it_count it ->
  match iter_next it with
  | Done (Some _) it' => 0 < it_count it /\ it_count it' = it_count it - 1
  | Done None it' => it_count it = 0
  | Fault f => f = Panic
  end.
Proof.
  intros Hc. unfold iter_next, get, mbind, M_bind. destruct (Z.eqb_spec (it_count it) 0); [done|].
  destruct (cut_addr_cases (it_current_addr it) (it_segment_size it) (it_align it) it)
    as [[v ->]| ->]; [|done].
  destruct (usub_cases 64 (Z.min v (it_end_addr it)) (it_current_addr it) it) as [[len ->]| ->]; [|done].
  destruct (uadd_cases 64 (it_current_addr it) len it) as [[c ->]| ->]; [|done].
  rewrite usub_run by lia. cbn. lia.
Qed.

Lemma iter_chunk_next_count `{Profile} it :
  0 <= it_count (ic_inner it) ->
  match iter_chunk_next it with
  | Done (Some _) it' => 0 < it_count (ic_inner it) /\
                         it_count (ic_inner it') = it_count (ic_inner it) - 1
  | Done None it' => it_count (ic_inner it) = 0
  | Fault f => f = Panic
  end.
Proof.
  intros Hc. pose proof (iter_next_count (ic_inner it) Hc) as Hn.
  unfold iter_chunk_next, zoom, get, mbind, M_bind.
  destruct (iter_next (ic_inner it)) as [[f|] inner|f]; [|done|done]. cbn.
  match goal with |- context [uadd 64 ?x ?y ?s] => destruct (uadd_cases 64 x y s) as [[v ->]| ->] end;
    [done|done].
Qed.

(** ** Packets reserved and packets used *)

Lemma packets_eq p k a len :
  p = 2 ^ k -> 0 <= k -> 0 <= a -> 0 <= len ->
  pieces_left p k (a + len) a =
  div_ceil (if gap p a <=? len then len - gap p a else len) p +
  (if (gap p a <=? len) && negb (a mod p =? 0) then 1 else 0).
Proof.
  intros -> Hk Ha Hl. set (p := 2 ^ k).
  assert (Hp : 0 < p) by (apply Z.pow_pos_nonneg; lia).
  pose proof (Z.div_mod a p ltac:(lia)). pose proof (Z.mod_pos_bound a p Hp).
  assert (Hcut : cut p k a = a - a mod p + p).
  { unfold cut. fold p. replace (a + p) with (a + 1 * p) by lia. rewrite Z.div_add by lia. lia. }
  assert (Hgap : gap p a = if a mod p =? 0 then 0 else p - a mod p).
  { unfold gap. destruct (Z.eqb_spec (a mod p) 0).
    - rewrite Z.mod_opp_l_z by lia. done.
    - apply Z.mod_opp_l_nz; lia. }
  unfold pieces_left. rewrite Hcut, Hgap. destruct (Z.leb_spec (a + len) a).
  { assert (len = 0) as -> by lia. destruct (Z.eqb_spec (a mod p) 0); cbn; [done|].
    rewrite (proj2 (Z.leb_gt _ _)) by lia. done. }
  unfold saturating_sub. destruct (Z.eqb_spec (a mod p) 0) as [E|E]; cbn [negb].
  - rewrite E, (proj2 (Z.leb_le 0 len)), andb_false_r by lia.
    rewrite !Z.sub_0_r, Z.add_0_r, (div_ceil_step p len) by lia.
    unfold saturating_sub. do 3 f_equal. lia.
  - destruct (Z.leb_spec (p - a mod p) len); cbn [andb].
    + do 2 f_equal. lia.
    + rewrite Z.max_l by lia. destruct (div_ceil_spec len p) as [Hs|[? _]]; [lia|lia| |lia].
      change (div_ceil 0 p) with 0. nia.
Qed.

(** Packet by packet, the page advances by one. *)
Lemma tiles_last_page k e a l f :
  0 <= k -> tiles (2 ^ k) k e a l -> list.last l = Some f ->
  f_addr f / 2 ^ k = a / 2 ^ k + (Z.of_nat (length l) - 1).
Proof.
  intros Hk. assert (Hp : 0 < 2 ^ k) by (apply Z.pow_pos_nonneg; lia).
  revert a. induction l as [|g l IH]; intros a Ht Hlast; [done|].
  cbn [tiles] in Ht. destruct Ht as (Hg & Hlen & Hal & Ht). destruct l as [|h l].
  - injection Hlast as ->. rewrite Hg. cbn. lia.
  - destruct Hal as [|Hal]; [done|]. rewrite (IH (a + f_len g) Ht) by exact Hlast.
    assert ((a + f_len g) / 2 ^ k = a / 2 ^ k + 1); [|cbn; lia].
    pose proof (Z.div_mod a (2 ^ k) ltac:(lia)). pose proof (Z.mod_pos_bound a (2 ^ k) Hp).
    pose proof (Z.div_mod (a + f_len g) (2 ^ k) ltac:(lia)). nia.
Qed.

(** ** Properties *)

(** C3: cutting a range into pieces.  For any alignment that is a power of two, any piece
    size that is a multiple of it and any range that ends at least one piece size below the
    top of the 64-bit address space, the iterator runs to its end in both build profiles; it
    yields as many pieces as it announces; they tile the range, end at aligned addresses and
    are marked First, Middle, Last or Only. *)
Theorem fragments_tile `{Profile} (seg k base len : Z) :
  0 <= k < 64 -> 0 < seg -> (2 ^ k | seg) -> 0 <= base -> 0 <= len ->
  base + len + seg <= 2 ^ 64 ->
  exists f it l it',
    Fragmenter_new seg (2 ^ k) base len tt = Done f tt /\ into_iter f tt = Done it tt /\
    collect iter_next (S (Z.to_nat (iter_len it))) it = Done l it' /\
    Z.of_nat (length l) = iter_len it /\
    tiles seg k (base + len) base l /\ f_pos <$> l = positions (length l).
Proof.
  intros Hk Hseg Hdiv Hb Hl Ho.
  destruct (into_iter_run (S := unit) seg k base len tt)
    as (f & it & Hf & Hi & Hok & Hcur & Hil & Hpos); [done..|].
  pose proof (io_count _ _ _ _ Hok) as Hcnt. rewrite Hcur in Hcnt.
  assert (0 <= it_count it) by (rewrite Hcnt; apply pieces_left_nonneg; lia).
  destruct (collect_fragments seg k (base + len) Hk Hseg Hdiv (Z.to_nat (it_count it)) it)
    as (l & it' & Hc & Ht & Hps & Hn); [done|lia|lia|].
  exists f, it, l, it'. rewrite Hil, Hcur in *. split; [done|]. split; [done|]. split; [done|].
  split; [lia|]. split; [done|]. rewrite Hps, Hpos, <- pos_from_start, Hn.
  by rewrite Z2Nat.id by lia.
Qed.

Lemma fragments_tile_witness :
  exists f it l it', @Fragmenter_new dev_profile _ 1024 (2 ^ 8) 1 2048 tt = Done f tt /\
    @into_iter dev_profile _ f tt = Done it tt /\
    @collect _ _ (@iter_next dev_profile) (S (Z.to_nat (iter_len it))) it = Done l it' /\
    f_pos <$> l = positions (length l).
Proof.
  destruct (@fragments_tile dev_profile 1024 8 1 2048) as (f & it & l & it' & H1 & H2 & H3 & _ & _ & H4);
    [lia|lia|by exists 4|lia|lia|lia|].
  exists f, it, l, it'. exact (conj H1 (conj H2 (conj H3 H4))).
Defined.

(** C33: chunks and packets of a request.  Both iterators run to their end; every chunk
    carries the parameters of the request and of the queue pair, matching local and remote
    addresses, and the marks of the first and last piece; its packet number is the base
    plus the number of path-MTU pages between the start of the request and its own start.
    So a retransmitted packet has the number it had inside its chunk. *)
Theorem chunks_and_packets_numbered `{Profile} (retry : bool) (wr : SendWrRdma) (q : QpParams)
    (p base : Z) :
  convert_ibv_mtu_to_u16 (qpp_pmtu q) = Some p -> request_ok wr ->
  exists it s' frags chunks,
    iter_of retry wr q (psn_of base) tt = Done it tt /\ all_chunks it = Done chunks s' /\
    tiles (seg_of retry p) (Z.log2 p) (raddr wr + b_length (r_base wr)) (raddr wr) frags /\
    Forall2 (chunk_for wr q retry p base) frags chunks.
Proof.
  intros Hp Hok. destruct (mtu_pow2 _ _ Hp) as (k & Hk & ->). rewrite Z.log2_pow2 by lia.
  destruct (all_chunks_run tt retry wr q k base Hp Hk Hok) as (it & s' & fr & ch & H1 & H2 & H3 & _ & H4 & _).
  by exists it, s', fr, ch.
Qed.

Definition sample_wr (addr len : Z) : SendWrRdma :=
  mk_rdma (mk_base 1 2 0x5000 len 7 0 OpRdmaWrite) addr 9.
Definition sample_qp : QpParams := mk_qp_params 4 2 0x100 0xA 0x200 0xB 1.

Lemma sample_ok addr len : 0 <= addr < 2 ^ 32 -> 0 <= len < 2 ^ 32 -> request_ok (sample_wr addr len).
Proof. intros Ha Hl. split; cbn; unfold in_width, WR_CHUNK_SIZE; lia. Qed.

Lemma chunks_and_packets_numbered_witness :
  exists it s' chunks,
    @iter_of release_profile _ true (sample_wr 1 512) sample_qp (psn_of 10) tt = Done it tt /\
    @all_chunks release_profile it = Done chunks s'.
Proof.
  destruct (@chunks_and_packets_numbered release_profile true (sample_wr 1 512) sample_qp 256 10)
    as (it & s' & fr & ch & H1 & H2 & _); [reflexivity|apply sample_ok; lia|].
  exists it, s', ch. exact (conj H1 H2).
Defined.

(** Packets reserved and packets sent.  [num_psn] reserves exactly the packets the
    fragmenter cuts when the remote address is aligned to the path MTU or the request ends
    before the first aligned address; for every other request it reserves one number too
    few, so the last packet shares its number with the first one of the next request. *)
Theorem num_psn_misses_first_packet `{Profile} (wr : SendWrRdma) (q : QpParams) (p base : Z) :
  convert_ibv_mtu_to_u16 (qpp_pmtu q) = Some p -> request_ok wr ->
  exists it s' chunks n,
    wr_packet_iter wr q (psn_of base) tt = Done it tt /\ all_chunks it = Done chunks s' /\
    num_psn (qpp_pmtu q) (raddr wr) (b_length (r_base wr)) = Some n /\
    Z.of_nat (length chunks) =
      n + (if (gap p (raddr wr) <=? b_length (r_base wr)) && negb (raddr wr mod p =? 0)
           then 1 else 0) /\
    (forall c, list.last chunks = Some c -> c_psn c = psn_of (base + (Z.of_nat (length chunks) - 1))).
Proof.
  intros Hp Hok. destruct (mtu_pow2 _ _ Hp) as (k & Hk & ->).
  destruct (all_chunks_run tt true wr q k base Hp Hk Hok) as (it & s' & fr & ch & H1 & H2 & Ht & _ & HF & H3).
  destruct Hok as [Ha _ Hl Hr _]. unfold WR_CHUNK_SIZE in Hr.
  assert (2 ^ k <= 2 ^ 12) by (apply Z.pow_le_mono_r; lia).
  exists it, s', ch. eexists. split; [exact H1|]. split; [exact H2|].
  split; [apply (num_psn_eq _ _ _ _ Hp); [done|destruct Hl; lia|done]|].
  split; [rewrite H3; unfold seg_of; apply packets_eq; [done|lia|done|by destruct Hl]|].
  intros c Hc. rewrite last_lookup in Hc.
  destruct (Forall2_lookup_r _ _ _ _ _ HF Hc) as (f & Hf & Hcf).
  rewrite (cf_psn _ _ _ _ _ _ _ Hcf). rewrite <- (Forall2_length HF) in Hf |- *.
  rewrite <- last_lookup in Hf. rewrite (tiles_last_page k _ _ _ _ ltac:(lia) Ht Hf).
  f_equal. lia.
Qed.

Lemma num_psn_misses_first_packet_witness :
  exists chunks n, num_psn 1 1 256 = Some n /\ Z.of_nat (length (A := WrChunk) chunks) = n + 1.
Proof.
  destruct (@num_psn_misses_first_packet dev_profile (sample_wr 1 256) sample_qp 256 0)
    as (it & s' & ch & n & _ & _ & H3 & H4 & _); [reflexivity|apply sample_ok; lia|].
  exists ch, n. exact (conj H3 H4).
Defined.

(** C34: termination.  Whatever state an iterator is in, stepping it ends: with fuel for its
    count of remaining pieces plus the final call it never runs out, in either profile. *)
Theorem chunk_iterator_terminates `{Profile} (it : IntoIterChunk) (fuel : nat) :
  0 <= it_count (ic_inner it) < Z.of_nat fuel ->
  collect iter_chunk_next fuel it <> Fault FuelOut.
Proof.
  revert it. induction fuel as [|n IH]; intros it Hc; [lia|].
  cbn [collect]. unfold mbind, M_bind. pose proof (iter_chunk_next_count it ltac:(lia)) as Hn.
  destruct (iter_chunk_next it) as [[c|] it'|f]; [|done|by intros [= ->]].
  specialize (IH it' ltac:(lia)). by destruct (collect iter_chunk_next n it').
Qed.

Lemma chunk_iterator_terminates_witness :
  @collect _ _ (@iter_chunk_next dev_profile) 4
    (mk_iter_chunk (mk_iter 5 3 1 PosOnly 0 9 3) 0 (template (sample_wr 0 0) sample_qp) 0 0 true)
  <> Fault FuelOut.
Proof. apply chunk_iterator_terminates. cbn. lia. Defined.
