(* ===== verification/RingBuf.v ===== *)
(** * Descriptor rings

    rust-driver/src/ringbuf/dma_rb.rs and desc.rs: rings of 4096 slots shared with the
    device, indexed by 13-bit counters whose top bit tells a full ring from an empty one.
    A ring the driver fills refines a bounded queue; a ring the device fills is read by
    the valid bit of its descriptors and refines a queue as well. *)

From Stdlib Require Import ZArith Lia.
From stdpp Require Import base list numbers.
From S2P Require Import Prelude RustBase.

#[local] Open Scope Z_scope.
#[local] Open Scope cint_scope.

Definition RING_BUF_LEN_BITS : Z := 12.
Definition RING_BUF_LEN : Z := Z.shiftl 1 RING_BUF_LEN_BITS.
Definition RING_BUF_LEN_MASK : Z := Z.shiftl 1 RING_BUF_LEN_BITS - 1.
Definition RING_BUF_LEN_WRAP_MASK : Z := Z.shiftl 1 (RING_BUF_LEN_BITS + 1) - 1.

(** ** The code *)

Section ring.
Context {T : Type} (zeroed : T).

(** [slots] is the memory behind [ptr]; reading or writing past it is a fault. *)
Record DmaRingBuf : Type := mk_ring { slots : list T; rb_head : Z; rb_tail : Z }.

Definition head_idx (r : DmaRingBuf) : Z := Z.land (rb_head r) RING_BUF_LEN_MASK.
Definition tail_idx (r : DmaRingBuf) : Z := Z.land (rb_tail r) RING_BUF_LEN_MASK.

Definition rb_len (r : DmaRingBuf) : Z :=
  Z.land (rb_head r -{64} rb_tail r) RING_BUF_LEN_WRAP_MASK.

Definition rb_remaining `{Profile} : M DmaRingBuf Z :=
  r ← get; usub 64 RING_BUF_LEN (rb_len r).

Definition rb_is_empty (r : DmaRingBuf) : bool := rb_head r =? rb_tail r.
Definition rb_is_full (r : DmaRingBuf) : bool := Z.lxor (rb_head r) (rb_tail r) =? RING_BUF_LEN.

Definition inc_head (r : DmaRingBuf) : DmaRingBuf :=
  mk_ring (slots r) (Z.land (rb_head r +{64} 1) RING_BUF_LEN_WRAP_MASK) (rb_tail r).
Definition inc_tail (r : DmaRingBuf) : DmaRingBuf :=
  mk_ring (slots r) (rb_head r) (Z.land (rb_tail r +{64} 1) RING_BUF_LEN_WRAP_MASK).

Definition set_tail (tail : Z) (r : DmaRingBuf) : DmaRingBuf := mk_ring (slots r) (rb_head r) tail.
Definition set_head (head : Z) (r : DmaRingBuf) : DmaRingBuf := mk_ring (slots r) head (rb_tail r).

Definition read_index (index : Z) : M DmaRingBuf T :=
  r ← get; demand OutOfBounds (slots r !! Z.to_nat index).

(** [self.ptr.add(index).write_volatile(value)] *)
Definition write_index (index : Z) (value : T) : M DmaRingBuf unit :=
  r ← get;
  if index <? Z.of_nat (length (slots r))
  then modify (fun r => mk_ring (<[Z.to_nat index := value]> (slots r)) (rb_head r) (rb_tail r))
  else fail OutOfBounds.

Definition zero_index (index : Z) : M DmaRingBuf unit := write_index index zeroed.

Definition read_and_advance (index : Z) : M DmaRingBuf T :=
  value ← read_index index;
  zero_index index;;
  modify inc_tail;;
  mret value.

Definition rb_new {S} (mem : list T) : M S DmaRingBuf :=
  if RING_BUF_LEN <=? Z.of_nat (length mem) then mret (mk_ring mem 0 0) else panic.

Definition rb_push (value : T) : M DmaRingBuf bool :=
  r ← get;
  if rb_len r =? RING_BUF_LEN then mret false
  else
    write_index (head_idx r) value;;
    modify inc_head;;
    mret true.

Definition rb_pop (cond : T -> bool) : M DmaRingBuf (option T) :=
  r ← get;
  value ← read_index (tail_idx r);
  if cond value then (v ← read_and_advance (tail_idx r); mret (Some v)) else mret None.

Definition rb_pop_two (cond require_next : T -> bool) : M DmaRingBuf (option T * option T) :=
  r ← get;
  let idx_first := tail_idx r in
  let idx_next := Z.land (idx_first +{64} 1) RING_BUF_LEN_MASK in
  value_first ← read_index idx_first;
  value_next ← read_index idx_next;
  match cond value_first, cond value_next, require_next value_first with
  | true, true, true =>
      v1 ← read_and_advance idx_first;
      v2 ← read_and_advance idx_next;
      mret (Some v1, Some v2)
  | true, _, false => v1 ← read_and_advance idx_first; mret (Some v1, None)
  | true, false, true | false, _, _ => mret (None, None)
  end.

End ring.
Arguments DmaRingBuf T : clear implicits.

(** ** Descriptors: 32 bytes, flags in the last one *)

Definition desc_bytes : Set := list Z.

Definition zero_desc : desc_bytes := replicate 32 0.

(** [desc[31] >> 7 == 1] and [(desc[31] >> 6) & 1 == 1] *)
Definition is_valid (desc : desc_bytes) : bool := Z.shiftr (nth 31 desc 0) 7 =? 1.
Definition has_next (desc : desc_bytes) : bool := Z.land (Z.shiftr (nth 31 desc 0) 6) 1 =? 1.

(** The traits of desc.rs. *)
Class DescSerialize (A : Type) : Type := serialize : A -> desc_bytes.
Class DescDeserialize (A : Type) : Type := deserialize : desc_bytes -> A.

Definition desc_push `{DescSerialize A} (value : A) : M (DmaRingBuf desc_bytes) bool :=
  rb_push (serialize value).

Definition desc_pop `{DescDeserialize A} : M (DmaRingBuf desc_bytes) (option A) :=
  d ← rb_pop zero_desc is_valid; mret (deserialize <$> d).

Definition desc_pop_two `{DescDeserialize A} `{DescDeserialize B} :
    M (DmaRingBuf desc_bytes) (option A * option B) :=
  ab ← rb_pop_two zero_desc is_valid has_next;
  mret (deserialize <$> ab.1, deserialize <$> ab.2).

(** ** Rings as queues *)

Section queue.
Context {T : Type}.
Implicit Types (r : DmaRingBuf T) (q : list T).

(** The slot at distance [i] from the tail. *)
Definition slot r (i : Z) : option T := slots r !! Z.to_nat ((rb_tail r + i) mod 4096).

(** The driver's ring: the queue lies between tail and head. *)
Record holds r q : Prop := {
  h_slots : length (slots r) = Z.to_nat 4096;
  h_tail : 0 <= rb_tail r < 8192;
  h_head : rb_head r = (rb_tail r + Z.of_nat (length q)) mod 8192;
  h_len : Z.of_nat (length q) <= 4096;
  h_at : forall i x, q !! i = Some x -> slot r (Z.of_nat i) = Some x }.

(** The device's ring: the queue starts at the tail, its entries satisfy [cond], and no
    other slot does. *)
Record inbox (cond : T -> bool) r q : Prop := {
  i_slots : length (slots r) = Z.to_nat 4096;
  i_tail : 0 <= rb_tail r < 8192;
  i_len : Z.of_nat (length q) <= 4096;
  i_valid : Forall (fun x => cond x = true) q;
  i_at : forall i x, q !! i = Some x -> slot r (Z.of_nat i) = Some x;
  i_rest : forall j, Z.of_nat (length q) <= j < 4096 ->
    exists x, slot r j = Some x /\ cond x = false }.

(** What the device does with its ring: write the next slot. *)
Definition device_write r q (x : T) : DmaRingBuf T :=
  mk_ring (<[Z.to_nat ((rb_tail r + Z.of_nat (length q)) mod 4096) := x]> (slots r))
    (rb_head r) (rb_tail r).

Lemma land_mask x : Z.land x RING_BUF_LEN_MASK = x mod 4096.
Proof. change RING_BUF_LEN_MASK with (Z.ones 12). by apply Z.land_ones. Qed.

Lemma land_wrap_mask x : Z.land x RING_BUF_LEN_WRAP_MASK = x mod 8192.
Proof. change RING_BUF_LEN_WRAP_MASK with (Z.ones 13). by apply Z.land_ones. Qed.

Lemma mod_mod_mult x a b : 0 < a -> 0 < b -> (x mod (a * b)) mod a = x mod a.
Proof. intros. rewrite Z.rem_mul_r, Z.mul_comm, Z.mod_add by lia. apply Zmod_mod. Qed.

Lemma wrap64_mod8192 x : wrap 64 x mod 8192 = x mod 8192.
Proof. unfold wrap. apply (mod_mod_mult x 8192 (2 ^ 51)); lia. Qed.

Lemma mod8192_mod4096 x : (x mod 8192) mod 4096 = x mod 4096.
Proof. apply (mod_mod_mult x 4096 2); lia. Qed.

Lemma slot_index_ne a b : 0 <= b - a < 4096 -> a mod 4096 = b mod 4096 -> a = b.
Proof. intros H1 H2. Z.div_mod_to_equations. lia. Qed.

Lemma slot_index_range x : 0 <= x mod 4096 < 4096.
Proof. apply Z.mod_pos_bound. lia. Qed.

(** Distinct distances are distinct slots. *)
Lemma slot_insert_ne l h t x i j :
  0 <= i < 4096 -> 0 <= j < 4096 -> i <> j ->
  slot (mk_ring (<[Z.to_nat ((t + i) mod 4096) := x]> l) h t) j = slot (mk_ring l h t) j.
Proof.
  intros Hi Hj Hij. unfold slot. cbn. apply list_lookup_insert_ne.
  pose proof (slot_index_range (t + i)). pose proof (slot_index_range (t + j)).
  intros E. apply Z2Nat.inj in E; [|lia..].
  destruct (decide (i <= j)).
  - apply slot_index_ne in E; lia.
  - symmetry in E. apply slot_index_ne in E; lia.
Qed.

Lemma slot_insert_eq l h t x i :
  length l = Z.to_nat 4096 ->
  slot (mk_ring (<[Z.to_nat ((t + i) mod 4096) := x]> l) h t) i = Some x.
Proof.
  intros Hl. unfold slot. cbn. apply list_lookup_insert_eq.
  pose proof (slot_index_range (t + i)). lia.
Qed.

(** Moving the tail by one slot. *)
Lemma slot_inc_tail l h t i :
  slot (mk_ring l h ((t + 1) mod 8192)) i = slot (mk_ring l h t) (i + 1).
Proof.
  unfold slot. cbn. f_equal. f_equal.
  rewrite <- mod8192_mod4096, Zplus_mod_idemp_l, mod8192_mod4096. f_equal. lia.
Qed.

Lemma rb_len_holds r q : holds r q -> rb_len r = Z.of_nat (length q).
Proof.
  intros [_ Ht Hh Hl _]. unfold rb_len. rewrite land_wrap_mask, wrap64_mod8192, Hh.
  rewrite Zminus_mod_idemp_l. rewrite Z.mod_small; lia.
Qed.

Lemma write_index_run i x r :
  0 <= i < Z.of_nat (length (slots r)) ->
  write_index i x r = Done tt (mk_ring (<[Z.to_nat i := x]> (slots r)) (rb_head r) (rb_tail r)).
Proof.
  intros Hi. unfold write_index, get, modify, mbind, M_bind. by rewrite (proj2 (Z.ltb_lt _ _)) by lia.
Qed.

Lemma rb_push_run r q x :
  holds r q ->
  if bool_decide (length q = Z.to_nat 4096) then rb_push x r = Done false r
  else exists r', rb_push x r = Done true r' /\ holds r' (q ++ [x]).
Proof.
  intros Hr. pose proof (rb_len_holds r q Hr) as Hlen. destruct Hr as [Hs Ht Hh Hl Hat].
  unfold rb_push, get, mbind, M_bind. rewrite Hlen. change RING_BUF_LEN with 4096.
  case_bool_decide as Hfull; [by rewrite (proj2 (Z.eqb_eq _ _)) by lia|].
  rewrite (proj2 (Z.eqb_neq _ _)) by lia. unfold head_idx. rewrite land_mask.
  pose proof (slot_index_range (rb_head r)). rewrite write_index_run by lia.
  unfold modify, mret, M_ret. eexists. split; [done|]. unfold inc_head. cbn [slots rb_head rb_tail].
  rewrite land_wrap_mask, wrap64_mod8192, Hh, mod8192_mod4096, Zplus_mod_idemp_l.
  split; cbn.
  - by rewrite length_insert.
  - done.
  - rewrite length_app. cbn. f_equal. lia.
  - rewrite length_app. cbn. lia.
  - intros i y Hi. destruct (decide (i = length q)) as [->|Hne].
    + rewrite lookup_app_r, Nat.sub_diag in Hi by lia. injection Hi as ->. by apply slot_insert_eq.
    + assert (i < length q)%nat.
      { apply lookup_lt_Some in Hi. rewrite length_app in Hi. cbn in Hi. lia. }
      rewrite lookup_app_l in Hi by done.
      rewrite slot_insert_ne by lia. by apply (Hat i y).
Qed.

Lemma set_tail_holds r q k :
  holds r q -> (k <= length q)%nat ->
  holds (set_tail ((rb_tail r + Z.of_nat k) mod 8192) r) (drop k q).
Proof.
  intros [Hs Ht Hh Hl Hat] Hk. split; cbn; rewrite ?length_drop.
  - done.
  - apply Z.mod_pos_bound. lia.
  - rewrite Hh, Zplus_mod_idemp_l. f_equal. lia.
  - lia.
  - intros i x Hi. rewrite lookup_drop in Hi. apply Hat in Hi. rewrite <- Hi. unfold slot. cbn.
    do 2 f_equal. rewrite <- mod8192_mod4096, Zplus_mod_idemp_l, mod8192_mod4096. f_equal. lia.
Qed.

Lemma land_tail_idx r : tail_idx r = (rb_tail r + 0) mod 4096.
Proof. unfold tail_idx. by rewrite land_mask, Z.add_0_r. Qed.

Lemma read_slot i x r : slot r i = Some x -> read_index ((rb_tail r + i) mod 4096) r = Done x r.
Proof.
  unfold slot, read_index, get, demand, mbind, M_bind. by intros ->.
Qed.

Section consumer.
Context (zeroed : T) (cond : T -> bool) (Hzero : cond zeroed = false).

(** The entry at the tail is taken out of the queue. *)
Lemma read_and_advance_run r x q :
  inbox cond r (x :: q) ->
  exists r', read_and_advance zeroed ((rb_tail r + 0) mod 4096) r = Done x r' /\
    inbox cond r' q /\ rb_tail r' = (rb_tail r + 1) mod 8192.
Proof using Hzero.
  intros [Hs Ht Hl Hv Hat Hrest]. cbn in Hl.
  assert (Hx : slot r 0 = Some x) by exact (Hat 0%nat x eq_refl).
  apply Forall_cons_1 in Hv as [_ Hv].
  unfold read_and_advance, zero_index, mbind, M_bind. rewrite (read_slot 0 x r Hx).
  pose proof (slot_index_range (rb_tail r + 0)). rewrite write_index_run by lia.
  unfold modify, mret, M_ret. eexists. split; [done|].
  unfold inc_tail. cbn [slots rb_head rb_tail]. rewrite land_wrap_mask, wrap64_mod8192.
  split; [|done]. split; cbn.
  - by rewrite length_insert.
  - apply Z.mod_pos_bound. lia.
  - lia.
  - done.
  - intros i y Hi. rewrite slot_inc_tail. pose proof (lookup_lt_Some _ _ _ Hi).
    rewrite slot_insert_ne by lia. replace (Z.of_nat i + 1) with (Z.of_nat (S i)) by lia.
    by apply (Hat (S i) y).
  - intros j Hj. rewrite slot_inc_tail. destruct (decide (j = 4095)) as [->|].
    + exists zeroed. split; [|done]. unfold slot. cbn.
      replace ((rb_tail r + (4095 + 1)) mod 4096) with ((rb_tail r + 0) mod 4096).
      * apply list_lookup_insert_eq. lia.
      * rewrite Z.add_0_r. replace (rb_tail r + (4095 + 1)) with (rb_tail r + 1 * 4096) by lia.
        by rewrite Z.mod_add.
    + rewrite slot_insert_ne by lia. apply (Hrest (j + 1)). cbn. lia.
Qed.

Lemma rb_pop_run r q :
  inbox cond r q ->
  match q with
  | [] => rb_pop zeroed cond r = Done None r
  | x :: q' => exists r', rb_pop zeroed cond r = Done (Some x) r' /\ inbox cond r' q'
  end.
Proof using Hzero.
  intros Hi. unfold rb_pop, get, mbind, M_bind. rewrite land_tail_idx. destruct q as [|x q'].
  - destruct (i_rest _ _ _ Hi 0) as (y & Hy & Hc); [cbn; lia|].
    by rewrite (read_slot 0 y r Hy), Hc.
  - rewrite (read_slot 0 x r) by exact (i_at _ _ _ Hi 0%nat x eq_refl).
    pose proof (i_valid _ _ _ Hi) as Hv. apply Forall_cons_1 in Hv as [-> _].
    destruct (read_and_advance_run r x q' Hi) as (r' & -> & Hi' & _). by exists r'.
Qed.

Lemma idx_next_eq r : Z.land ((rb_tail r + 0) mod 4096 +{64} 1) RING_BUF_LEN_MASK = (rb_tail r + 1) mod 4096.
Proof.
  pose proof (slot_index_range (rb_tail r + 0)). rewrite land_mask, wrap_small by (unfold in_width; lia).
  rewrite Zplus_mod_idemp_l. f_equal. lia.
Qed.

Lemma rb_pop_two_run (require_next : T -> bool) r q :
  inbox cond r q ->
  match q with
  | [] => rb_pop_two zeroed cond require_next r = Done (None, None) r
  | [x] =>
      if require_next x then rb_pop_two zeroed cond require_next r = Done (None, None) r
      else exists r', rb_pop_two zeroed cond require_next r = Done (Some x, None) r' /\ inbox cond r' []
  | x :: y :: q' =>
      if require_next x
      then exists r', rb_pop_two zeroed cond require_next r = Done (Some x, Some y) r' /\
                      inbox cond r' q'
      else exists r', rb_pop_two zeroed cond require_next r = Done (Some x, None) r' /\
                      inbox cond r' (y :: q')
  end.
Proof using Hzero.
  intros Hi. unfold rb_pop_two, get, mbind, M_bind. rewrite land_tail_idx, idx_next_eq.
  assert (Hslot : forall j : nat, (j < 4096)%nat -> exists z, slot r (Z.of_nat j) = Some z /\
            cond z = bool_decide (j < length q)%nat /\ (forall y, q !! j = Some y -> z = y)).
  { intros j Hj. destruct (q !! j) as [y|] eqn:E.
    - exists y. split; [by apply (i_at _ _ _ Hi)|]. pose proof (lookup_lt_Some _ _ _ E).
      rewrite bool_decide_eq_true_2 by done. split; [|congruence].
      by apply (Forall_lookup_1 _ _ _ _ (i_valid _ _ _ Hi) E).
    - apply lookup_ge_None in E. rewrite bool_decide_eq_false_2 by lia.
      destruct (i_rest _ _ _ Hi (Z.of_nat j)) as (z & Hz & Hc); [lia|]. by exists z. }
  destruct (Hslot 0%nat ltac:(lia)) as (z0 & Hz0 & Hc0 & He0).
  destruct (Hslot 1%nat ltac:(lia)) as (z1 & Hz1 & Hc1 & He1). cbn in Hz0, Hz1.
  rewrite (read_slot 0 z0 r Hz0), (read_slot 1 z1 r Hz1), Hc0, Hc1. clear Hc0 Hc1 Hslot.
  destruct q as [|x q]; [done|]. rewrite (He0 x eq_refl).
  destruct (read_and_advance_run r x q Hi) as (r1 & Hr1 & Hi1 & Ht1).
  rewrite (bool_decide_eq_true_2 (0 < length (x :: q))%nat) by (cbn; lia).
  destruct q as [|y q].
  - rewrite bool_decide_eq_false_2 by (cbn; lia).
    destruct (require_next x); [done|]. rewrite Hr1. by exists r1.
  - rewrite bool_decide_eq_true_2 by (cbn; lia).
    destruct (require_next x); rewrite Hr1; [|by exists r1].
    destruct (read_and_advance_run r1 y q Hi1) as (r2 & Hr2 & Hi2 & _).
    replace ((rb_tail r + 1) mod 4096) with ((rb_tail r1 + 0) mod 4096)
      by (rewrite Ht1, Z.add_0_r; apply mod8192_mod4096).
    rewrite Hr2. by exists r2.
Qed.

Lemma device_write_inbox r q x :
  inbox cond r q -> (length q < Z.to_nat 4096)%nat -> cond x = true ->
  inbox cond (device_write r q x) (q ++ [x]).
Proof.
  intros [Hs Ht Hl Hv Hat Hrest] Hlt Hx. unfold device_write. split; cbn.
  - by rewrite length_insert.
  - done.
  - rewrite length_app. cbn. lia.
  - apply Forall_app. split; [done|]. by constructor.
  - intros i y Hi. destruct (decide (i = length q)) as [->|Hne].
    + rewrite lookup_app_r, Nat.sub_diag in Hi by lia. injection Hi as ->. by apply slot_insert_eq.
    + assert (i < length q)%nat.
      { apply lookup_lt_Some in Hi. rewrite length_app in Hi. cbn in Hi. lia. }
      rewrite lookup_app_l in Hi by done. rewrite slot_insert_ne by lia. by apply (Hat i y).
  - intros j Hj. rewrite length_app in Hj. cbn in Hj.
    rewrite slot_insert_ne by lia. apply Hrest. lia.
Qed.

Lemma inbox_set_head r q h : inbox cond r q -> inbox cond (set_head h r) q.
Proof. intros [? ? ? ? Ha Hr]. by split. Qed.

End consumer.
End queue.

Lemma lxor_4096 t : 0 <= t < 8192 -> Z.lxor t 4096 = (t + 4096) mod 8192.
Proof.
  intros Ht. assert (Hall : forallb (fun t => Z.lxor t 4096 =? (t + 4096) mod 8192) (seqZ 0 8192) = true)
    by (vm_compute; reflexivity).
  rewrite forallb_forall in Hall. apply Z.eqb_eq, Hall, list_elem_of_In, elem_of_seqZ. lia.
Qed.

Lemma rb_is_full_holds {T} (r : DmaRingBuf T) q :
  holds r q -> rb_is_full r = bool_decide (length q = Z.to_nat 4096).
Proof.
  intros [_ Ht Hh Hl _]. unfold rb_is_full. rewrite Hh. change RING_BUF_LEN with 4096.
  apply eq_true_iff_eq. rewrite Z.eqb_eq, bool_decide_eq_true.
  set (h := (rb_tail r + Z.of_nat (length q)) mod 8192).
  assert (Z.lxor h (rb_tail r) = 4096 <-> h = Z.lxor (rb_tail r) 4096) as ->.
  { split; intros E.
    - rewrite <- E, (Z.lxor_comm h), <- Z.lxor_assoc, Z.lxor_nilpotent. by rewrite Z.lxor_0_l.
    - rewrite E, (Z.lxor_comm (rb_tail r)), Z.lxor_assoc, Z.lxor_nilpotent. by rewrite Z.lxor_0_r. }
  rewrite lxor_4096 by done. unfold h. split; intros E.
  - Z.div_mod_to_equations. lia.
  - do 2 f_equal. lia.
Qed.

Lemma rb_is_empty_holds {T} (r : DmaRingBuf T) q :
  holds r q -> rb_is_empty r = bool_decide (q = []).
Proof.
  intros [_ Ht Hh Hl _]. unfold rb_is_empty. rewrite Hh.
  apply eq_true_iff_eq. rewrite Z.eqb_eq, bool_decide_eq_true, <- length_zero_iff_nil.
  split; intros E; [Z.div_mod_to_equations; lia|]. rewrite E, Z.add_0_r. by apply Z.mod_small.
Qed.

(** ** Properties *)

(** C4: a ring the driver fills refines a queue of at most 4096 entries.  Its length,
    emptiness, fullness and room are those of the queue; [push] appends or, on a full
    ring, refuses and changes nothing; setting the tail to the position the device has
    reached removes the entries it has consumed. *)
Theorem ring_refines_queue `{Profile} {T} (r : DmaRingBuf T) (q : list T) (x : T) (k : nat) :
  holds r q -> (k <= length q)%nat ->
  rb_len r = Z.of_nat (length q) /\
  rb_is_empty r = bool_decide (q = []) /\
  rb_is_full r = bool_decide (length q = Z.to_nat 4096) /\
  rb_remaining r = Done (4096 - Z.of_nat (length q)) r /\
  (if bool_decide (length q = Z.to_nat 4096) then rb_push x r = Done false r
   else exists r', rb_push x r = Done true r' /\ holds r' (q ++ [x])) /\
  holds (set_tail ((rb_tail r + Z.of_nat k) mod 8192) r) (drop k q).
Proof.
  intros Hr Hk. pose proof (rb_len_holds r q Hr) as Hl. split; [done|].
  split; [by apply rb_is_empty_holds|]. split; [by apply rb_is_full_holds|].
  split; [|split; [by apply rb_push_run|by apply set_tail_holds]].
  unfold rb_remaining, get, mbind, M_bind. rewrite usub_run; rewrite Hl; [done|].
  apply (h_len _ _ Hr).
Qed.

Definition empty_ring (t : Z) : DmaRingBuf Z := mk_ring (replicate (Z.to_nat 4096) 0) t t.

Lemma empty_ring_holds t : 0 <= t < 8192 -> holds (empty_ring t) [].
Proof.
  intros Ht. split; cbn [empty_ring slots rb_head rb_tail length].
  - apply length_replicate.
  - done.
  - rewrite Z.add_0_r. by rewrite Z.mod_small.
  - lia.
  - by intros i y Hi.
Qed.

Lemma ring_refines_queue_witness :
  exists r', rb_push 5 (empty_ring 8191) = Done true r' /\ holds r' [5].
Proof.
  destruct (@ring_refines_queue dev_profile Z (empty_ring 8191) [] 5 0
    (empty_ring_holds 8191 ltac:(lia)) (le_n 0)) as (_ & _ & _ & _ & Hp & _).
  exact Hp.
Defined.

(** A ring the device fills refines a queue read by valid bits.  The device appends by
    writing the next slot; [pop] takes the oldest entry and clears its slot, or returns
    nothing; [pop_two] takes an entry with its successor when the entry asks for one,
    alone when it does not, and nothing while the successor has not arrived. *)
Theorem device_ring_refines_queue {T} (zeroed : T) (cond require_next : T -> bool)
    (r : DmaRingBuf T) (q : list T) (x : T) :
  cond zeroed = false -> inbox cond r q ->
  ((length q < Z.to_nat 4096)%nat -> cond x = true -> inbox cond (device_write r q x) (q ++ [x])) /\
  match q with
  | [] => rb_pop zeroed cond r = Done None r
  | y :: q' => exists r', rb_pop zeroed cond r = Done (Some y) r' /\ inbox cond r' q'
  end /\
  match q with
  | [] => rb_pop_two zeroed cond require_next r = Done (None, None) r
  | [y] =>
      if require_next y then rb_pop_two zeroed cond require_next r = Done (None, None) r
      else exists r', rb_pop_two zeroed cond require_next r = Done (Some y, None) r' /\
                      inbox cond r' []
  | y :: z :: q' =>
      if require_next y
      then exists r', rb_pop_two zeroed cond require_next r = Done (Some y, Some z) r' /\
                      inbox cond r' q'
      else exists r', rb_pop_two zeroed cond require_next r = Done (Some y, None) r' /\
                      inbox cond r' (z :: q')
  end.
Proof.
  intros Hz Hi. split; [by apply device_write_inbox|].
  split; [by apply rb_pop_run|by apply rb_pop_two_run].
Qed.

Definition fresh_device_ring : DmaRingBuf desc_bytes :=
  mk_ring (replicate (Z.to_nat 4096) zero_desc) 0 4095.

Lemma fresh_device_ring_inbox : inbox is_valid fresh_device_ring [].
Proof.
  split; cbn [fresh_device_ring slots rb_head rb_tail length].
  - apply length_replicate.
  - lia.
  - lia.
  - constructor.
  - by intros i y Hi.
  - intros j Hj. exists zero_desc. split; [|reflexivity]. unfold slot.
    cbn [fresh_device_ring slots rb_tail]. apply lookup_replicate_2.
    pose proof (slot_index_range (4095 + j)). lia.
Qed.

Lemma device_ring_refines_queue_witness :
  inbox is_valid (device_write fresh_device_ring [] (replicate 31 0 ++ [128])) [replicate 31 0 ++ [128]].
Proof.
  destruct (device_ring_refines_queue zero_desc is_valid has_next fresh_device_ring []
    (replicate 31 0 ++ [128]) eq_refl fresh_device_ring_inbox) as [Hw _].
  apply Hw; [cbn [length]; lia|reflexivity].
Defined.
