(* ===== verification/Descriptors.v ===== *)
(** * Descriptors

    rust-driver/src/descriptors: the 32-byte records exchanged with the device.  Each is
    four 64-bit chunks of bit fields; the bilge crate generates the constructors and
    accessors of the fields, and enters as an interface.  The last byte of a descriptor
    holds the bits by which the rings recognise it. *)

From Stdlib Require Import ZArith Lia.
From stdpp Require Import base list numbers.
From S2P Require Import Prelude RustBase Psn WorkReq RingBuf.

#[local] Open Scope Z_scope.

(** ** Bit fields *)

(** The fields of a struct with widths [ws] lie one after the other, from the least
    significant bit up. *)
Fixpoint pack (ws vs : list Z) : Z :=
  match ws, vs with
  | w :: ws', v :: vs' => v + 2 ^ w * pack ws' vs'
  | _, _ => 0
  end.

Fixpoint unpack (ws : list Z) (x : Z) : list Z :=
  match ws with
  | [] => []
  | w :: ws' => x mod 2 ^ w :: unpack ws' (x / 2 ^ w)
  end.

(** The bilge crate: [T::new(fields)], [x.field()] and [x.set_field(v)] of a struct with
    the given widths, and [uN::from_u32(v)], which panics ([None]) where [v] needs more
    than [N] bits. *)
Class Bilge : Type := {
  bits_new : list Z -> list Z -> Z;
  bits_get : list Z -> nat -> Z -> Z;
  bits_set : list Z -> nat -> Z -> Z -> Z;
  uint_from : Z -> Z -> option Z;
}.

Class BilgeLaws `{Bilge} : Prop := {
  bits_new_pack ws vs : Forall2 in_width ws vs -> bits_new ws vs = pack ws vs;
  bits_get_field ws i x : bits_get ws i x = default 0 (unpack ws x !! i);
  bits_set_field ws i v x : bits_set ws i v x = pack ws (<[i := v]> (unpack ws x));
  uint_from_fits w v : in_width w v -> uint_from w v = Some v;
  uint_from_large w v : 2 ^ w <= v -> uint_from w v = None;
}.

#[export] Instance packed_bilge : Bilge := {|
  bits_new := pack;
  bits_get ws i x := default 0 (unpack ws x !! i);
  bits_set ws i v x := pack ws (<[i := v]> (unpack ws x));
  uint_from w v := if v <? 2 ^ w then Some v else None;
|}.

#[export] Instance packed_bilge_laws : BilgeLaws.
Proof.
  split; try done; intros w v Hv; cbn; unfold in_width in *.
  - by rewrite (proj2 (Z.ltb_lt _ _)) by lia.
  - by rewrite (proj2 (Z.ltb_ge _ _)) by lia.
Qed.

(** [uN::masked_new(v)] *)
Definition masked_new (w v : Z) : Z := v mod 2 ^ w.

(** ** mod.rs: descriptors as bytes *)

Fixpoint to_le_bytes (n : nat) (x : Z) : list Z :=
  match n with
  | O => []
  | S n' => x mod 256 :: to_le_bytes n' (x / 256)
  end.

Fixpoint from_le_bytes (l : list Z) : Z :=
  match l with
  | [] => 0
  | b :: l' => b + 256 * from_le_bytes l'
  end.

(** Every descriptor type is a struct of four chunks. *)
Record desc : Set := mk_desc { d_c0 : Z; d_c1 : Z; d_c2 : Z; d_c3 : Z }.

(** [impl_desc_serde!]: the chunks in memory order, on a little-endian host. *)
#[export] Instance desc_serialize : DescSerialize desc := fun d =>
  to_le_bytes 8 (d_c0 d) ++ to_le_bytes 8 (d_c1 d) ++ to_le_bytes 8 (d_c2 d) ++ to_le_bytes 8 (d_c3 d).

#[export] Instance desc_deserialize : DescDeserialize desc := fun d =>
  mk_desc (from_le_bytes (slice d 0 8)) (from_le_bytes (slice d 8 16))
    (from_le_bytes (slice d 16 24)) (from_le_bytes (slice d 24 32)).

Section code.
Context `{Bilge}.

(** ** mod.rs: the common header *)

Definition RingBufDescCommonHead : list Z := [8; 1; 5; 1; 1].

Definition head_op_code (h : Z) : Z := bits_get RingBufDescCommonHead 0 h.
Definition head_has_next (h : Z) : bool := bits_get RingBufDescCommonHead 3 h =? 1.
Definition head_valid (h : Z) : bool := bits_get RingBufDescCommonHead 4 h =? 1.
Definition head_set_has_next (b : bool) (h : Z) : Z := bits_set RingBufDescCommonHead 3 (Z.b2z b) h.

Definition new_with_op_code (op_code : Z) : Z :=
  let this := 0 in
  let this := bits_set RingBufDescCommonHead 0 op_code this in
  bits_set RingBufDescCommonHead 4 1 this.

(** [opcode as u8] *)
Definition opcode_num (o : WorkReqOpCode) : Z :=
  match o with
  | OpRdmaWrite => 0 | OpRdmaWriteWithImm => 1 | OpSend => 2 | OpSendWithImm => 3
  | OpRdmaRead => 4 | OpAtomicCmpAndSwp => 5 | OpAtomicFetchAndAdd => 6 | OpLocalInv => 7
  | OpBindMw => 8 | OpSendWithInv => 9 | OpTso => 10 | OpDriver1 => 11 | OpRdmaReadResp => 12
  | OpRdmaAck => 13 | OpFlush => 14 | OpAtomicWrite => 15
  end.

Definition new_send_desc (opcode : WorkReqOpCode) : Z := new_with_op_code (opcode_num opcode).

(** ** send.rs *)

Definition SendQueueReqDescSeg0Chunk0 : list Z := [3; 5; 24; 4; 4; 24].
Definition SendQueueReqDescSeg0Chunk1 : list Z := [64].
Definition SendQueueReqDescSeg0Chunk2 : list Z := [32; 32].
Definition SendQueueReqDescSeg0Chunk3 : list Z := [32; 16; 16].

Definition SendQueueReqDescSeg0_new (op_code : WorkReqOpCode)
    (msn psn qp_type dqpn flags dqp_ip raddr rkey total_len : Z) : desc :=
  let common_header := head_set_has_next true (new_send_desc op_code) in
  let c3 := bits_new SendQueueReqDescSeg0Chunk3 [total_len; msn; common_header] in
  let c2 := bits_new SendQueueReqDescSeg0Chunk2 [dqp_ip; rkey] in
  let c1 := bits_new SendQueueReqDescSeg0Chunk1 [raddr] in
  let c0 := bits_new SendQueueReqDescSeg0Chunk0
    [0; masked_new 5 flags; masked_new 24 dqpn; 0; masked_new 4 qp_type; masked_new 24 psn] in
  mk_desc c0 c1 c2 c3.

Definition seg0_msn (d : desc) : Z := bits_get SendQueueReqDescSeg0Chunk3 1 (d_c3 d).
Definition seg0_psn (d : desc) : Z := bits_get SendQueueReqDescSeg0Chunk0 5 (d_c0 d).
Definition seg0_qp_type (d : desc) : Z := bits_get SendQueueReqDescSeg0Chunk0 4 (d_c0 d).
Definition seg0_dqpn (d : desc) : Z := bits_get SendQueueReqDescSeg0Chunk0 2 (d_c0 d).
Definition seg0_flags (d : desc) : Z := bits_get SendQueueReqDescSeg0Chunk0 1 (d_c0 d).
Definition seg0_dqp_ip (d : desc) : Z := bits_get SendQueueReqDescSeg0Chunk2 0 (d_c2 d).
Definition seg0_raddr (d : desc) : Z := bits_get SendQueueReqDescSeg0Chunk1 0 (d_c1 d).
Definition seg0_rkey (d : desc) : Z := bits_get SendQueueReqDescSeg0Chunk2 1 (d_c2 d).
Definition seg0_total_len (d : desc) : Z := bits_get SendQueueReqDescSeg0Chunk3 0 (d_c3 d).

Definition SendQueueReqDescSeg1Chunk0 : list Z := [64].
Definition SendQueueReqDescSeg1Chunk1 : list Z := [32; 32].
Definition SendQueueReqDescSeg1Chunk2 : list Z := [16; 48].
Definition SendQueueReqDescSeg1Chunk3 : list Z := [32; 8; 1; 1; 1; 1; 1; 3; 16].

Definition SendQueueReqDescSeg1_new (op_code : WorkReqOpCode) (pmtu : Z)
    (is_first is_last is_retry enable_ecn : bool) (sqpn imm mac_addr lkey len laddr : Z) : desc :=
  let common_header := new_send_desc op_code in
  let c3 := bits_new SendQueueReqDescSeg1Chunk3
    [imm; wrap 8 sqpn; 0; Z.b2z enable_ecn; Z.b2z is_retry; Z.b2z is_last; Z.b2z is_first;
     masked_new 3 pmtu; common_header] in
  let c2 := bits_new SendQueueReqDescSeg1Chunk2 [wrap 16 (Z.shiftr sqpn 8); masked_new 48 mac_addr] in
  let c1 := bits_new SendQueueReqDescSeg1Chunk1 [len; lkey] in
  let c0 := bits_new SendQueueReqDescSeg1Chunk0 [laddr] in
  mk_desc c0 c1 c2 c3.

Definition seg1_pmtu (d : desc) : Z := bits_get SendQueueReqDescSeg1Chunk3 7 (d_c3 d).
Definition seg1_is_first (d : desc) : bool := bits_get SendQueueReqDescSeg1Chunk3 6 (d_c3 d) =? 1.
Definition seg1_is_last (d : desc) : bool := bits_get SendQueueReqDescSeg1Chunk3 5 (d_c3 d) =? 1.
Definition seg1_is_retry (d : desc) : bool := bits_get SendQueueReqDescSeg1Chunk3 4 (d_c3 d) =? 1.
Definition seg1_enable_ecn (d : desc) : bool := bits_get SendQueueReqDescSeg1Chunk3 3 (d_c3 d) =? 1.
Definition seg1_sqpn_low_8bits (d : desc) : Z := bits_get SendQueueReqDescSeg1Chunk3 1 (d_c3 d).
Definition seg1_imm (d : desc) : Z := bits_get SendQueueReqDescSeg1Chunk3 0 (d_c3 d).
Definition seg1_mac_addr (d : desc) : Z := bits_get SendQueueReqDescSeg1Chunk2 1 (d_c2 d).
Definition seg1_sqpn_high_16bits (d : desc) : Z := bits_get SendQueueReqDescSeg1Chunk2 0 (d_c2 d).
Definition seg1_lkey (d : desc) : Z := bits_get SendQueueReqDescSeg1Chunk1 1 (d_c1 d).
Definition seg1_len (d : desc) : Z := bits_get SendQueueReqDescSeg1Chunk1 0 (d_c1 d).
Definition seg1_laddr (d : desc) : Z := bits_get SendQueueReqDescSeg1Chunk0 0 (d_c0 d).

(** ** cmd.rs *)

Definition RingbufDescCmdQueueCommonHead : list Z := [8; 1; 7].
Definition CmdQueueReqDescHeaderChunk : list Z := [16; 16].

Inductive CmdQueueDescOperators : Set :=
| UpdateMrTable | UpdatePgt | ManageQp | SetNetworkParam | SetRawPacketReceiveMeta.

(** [operator as u8] *)
Definition operator_num (o : CmdQueueDescOperators) : Z :=
  match o with
  | UpdateMrTable => 0 | UpdatePgt => 1 | ManageQp => 2 | SetNetworkParam => 3
  | SetRawPacketReceiveMeta => 4
  end.

Definition new_cmd_desc (operator : CmdQueueDescOperators) : Z := new_with_op_code (operator_num operator).

Definition new_with_user_data (user_data : Z) : Z :=
  let this := 0 in bits_set RingbufDescCmdQueueCommonHead 0 user_data this.

Definition CmdQueueReqDescUpdateMrTableChunk0 : list Z := [7; 17; 8; 32].
Definition CmdQueueReqDescUpdateMrTableChunk1 : list Z := [32; 32].
Definition CmdQueueReqDescUpdateMrTableChunk2 : list Z := [64].
Definition CmdQueueReqDescUpdateMrTableChunk3 : list Z := [32; 32].

Definition CmdQueueReqDescUpdateMrTable_new {S}
    (user_data mr_base_va mr_length mr_key pd_handler acc_flags pgt_offset : Z) : M S desc :=
  let header := bits_new CmdQueueReqDescHeaderChunk
    [new_with_user_data user_data; new_cmd_desc UpdateMrTable] in
  let c3 := bits_new CmdQueueReqDescUpdateMrTableChunk3 [0; header] in
  let c2 := bits_new CmdQueueReqDescUpdateMrTableChunk2 [mr_base_va] in
  let c1 := bits_new CmdQueueReqDescUpdateMrTableChunk1 [mr_key; mr_length] in
  pgt_offset ← demand Panic (uint_from 17 pgt_offset);
  let c0 := bits_new CmdQueueReqDescUpdateMrTableChunk0 [0; pgt_offset; acc_flags; pd_handler] in
  mret (mk_desc c0 c1 c2 c3).

Definition mr_mr_base_va (d : desc) : Z := bits_get CmdQueueReqDescUpdateMrTableChunk2 0 (d_c2 d).
Definition mr_mr_length (d : desc) : Z := bits_get CmdQueueReqDescUpdateMrTableChunk1 1 (d_c1 d).
Definition mr_mr_key (d : desc) : Z := bits_get CmdQueueReqDescUpdateMrTableChunk1 0 (d_c1 d).
Definition mr_acc_flags (d : desc) : Z := bits_get CmdQueueReqDescUpdateMrTableChunk0 2 (d_c0 d).
Definition mr_pgt_offset (d : desc) : Z := bits_get CmdQueueReqDescUpdateMrTableChunk0 1 (d_c0 d).

Definition CmdQueueReqDescUpdatePGTChunk0 : list Z := [64].
Definition CmdQueueReqDescUpdatePGTChunk1 : list Z := [32; 32].
Definition CmdQueueReqDescUpdatePGTChunk2 : list Z := [64].
Definition CmdQueueReqDescUpdatePGTChunk3 : list Z := [32; 32].

Definition CmdQueueReqDescUpdatePGT_new
    (user_data dma_addr start_index zero_based_entry_count : Z) : desc :=
  let headers := bits_new CmdQueueReqDescHeaderChunk
    [new_with_user_data user_data; new_cmd_desc UpdatePgt] in
  let c3 := bits_new CmdQueueReqDescUpdatePGTChunk3 [0; headers] in
  let c2 := bits_new CmdQueueReqDescUpdatePGTChunk2 [dma_addr] in
  let c1 := bits_new CmdQueueReqDescUpdatePGTChunk1 [zero_based_entry_count; start_index] in
  let c0 := bits_new CmdQueueReqDescUpdatePGTChunk0 [0] in
  mk_desc c0 c1 c2 c3.

Definition pgt_dma_addr (d : desc) : Z := bits_get CmdQueueReqDescUpdatePGTChunk2 0 (d_c2 d).
Definition pgt_start_index (d : desc) : Z := bits_get CmdQueueReqDescUpdatePGTChunk1 1 (d_c1 d).
Definition pgt_zero_based_entry_count (d : desc) : Z :=
  bits_get CmdQueueReqDescUpdatePGTChunk1 0 (d_c1 d).

Definition CmdQueueReqDescQpManagementChunk0 : list Z := [48; 16].
Definition CmdQueueReqDescQpManagementChunk1 : list Z := [16; 5; 3; 4; 4; 8; 24].
Definition CmdQueueReqDescQpManagementChunk2 : list Z := [32; 24; 6; 1; 1].
Definition CmdQueueReqDescQpManagementChunk3 : list Z := [32; 16; 16].

Definition CmdQueueReqDescQpManagement_new (user_data ip_addr qpn : Z) (is_error is_valid : bool)
    (peer_qpn rq_access_flags qp_type pmtu local_udp_port peer_mac_addr : Z) : desc :=
  let c3 := bits_new CmdQueueReqDescQpManagementChunk3
    [ip_addr; new_with_user_data user_data; new_cmd_desc ManageQp] in
  let c2 := bits_new CmdQueueReqDescQpManagementChunk2
    [0; masked_new 24 qpn; 0; Z.b2z is_error; Z.b2z is_valid] in
  let c1 := bits_new CmdQueueReqDescQpManagementChunk1
    [0; 0; masked_new 3 pmtu; 0; masked_new 4 qp_type; rq_access_flags; masked_new 24 peer_qpn] in
  let c0 := bits_new CmdQueueReqDescQpManagementChunk0 [masked_new 48 peer_mac_addr; local_udp_port] in
  mk_desc c0 c1 c2 c3.

Definition qpm_ip_addr (d : desc) : Z := bits_get CmdQueueReqDescQpManagementChunk3 0 (d_c3 d).
Definition qpm_qpn (d : desc) : Z := bits_get CmdQueueReqDescQpManagementChunk2 1 (d_c2 d).
Definition qpm_is_error (d : desc) : bool := bits_get CmdQueueReqDescQpManagementChunk2 3 (d_c2 d) =? 1.
Definition qpm_is_valid (d : desc) : bool := bits_get CmdQueueReqDescQpManagementChunk2 4 (d_c2 d) =? 1.
Definition qpm_peer_qpn (d : desc) : Z := bits_get CmdQueueReqDescQpManagementChunk1 6 (d_c1 d).
Definition qpm_rq_access_flags (d : desc) : Z := bits_get CmdQueueReqDescQpManagementChunk1 5 (d_c1 d).
Definition qpm_qp_type (d : desc) : Z := bits_get CmdQueueReqDescQpManagementChunk1 4 (d_c1 d).
Definition qpm_pmtu (d : desc) : Z := bits_get CmdQueueReqDescQpManagementChunk1 2 (d_c1 d).
Definition qpm_local_udp_port (d : desc) : Z := bits_get CmdQueueReqDescQpManagementChunk0 1 (d_c0 d).
Definition qpm_peer_mac_addr (d : desc) : Z := bits_get CmdQueueReqDescQpManagementChunk0 0 (d_c0 d).

Definition CmdQueueReqDescSetNetworkParamChunk0 : list Z := [16; 48].
Definition CmdQueueReqDescSetNetworkParamChunk1 : list Z := [32; 32].
Definition CmdQueueReqDescSetNetworkParamChunk2 : list Z := [32; 32].
Definition CmdQueueReqDescSetNetworkParamChunk3 : list Z := [32; 16; 16].

Definition CmdQueueReqDescSetNetworkParam_new (user_data gateway netmask ip_addr mac_addr : Z) : desc :=
  let c3 := bits_new CmdQueueReqDescSetNetworkParamChunk3
    [0; new_with_user_data user_data; new_cmd_desc SetNetworkParam] in
  let c2 := bits_new CmdQueueReqDescSetNetworkParamChunk2 [netmask; gateway] in
  let c1 := bits_new CmdQueueReqDescSetNetworkParamChunk1 [0; ip_addr] in
  let c0 := bits_new CmdQueueReqDescSetNetworkParamChunk0 [0; masked_new 48 mac_addr] in
  mk_desc c0 c1 c2 c3.

Definition net_gateway (d : desc) : Z := bits_get CmdQueueReqDescSetNetworkParamChunk2 1 (d_c2 d).
Definition net_netmask (d : desc) : Z := bits_get CmdQueueReqDescSetNetworkParamChunk2 0 (d_c2 d).
Definition net_ip_addr (d : desc) : Z := bits_get CmdQueueReqDescSetNetworkParamChunk1 1 (d_c1 d).
Definition net_mac_addr (d : desc) : Z := bits_get CmdQueueReqDescSetNetworkParamChunk0 1 (d_c0 d).

Definition CmdQueueReqDescSetRawPacketReceiveMetaChunk2 : list Z := [64].
Definition CmdQueueReqDescSetRawPacketReceiveMetaChunk3 : list Z := [32; 16; 16].

Definition CmdQueueReqDescSetRawPacketReceiveMeta_new (user_data write_base_addr : Z) : desc :=
  let c3 := bits_new CmdQueueReqDescSetRawPacketReceiveMetaChunk3
    [0; new_with_user_data user_data; new_cmd_desc SetRawPacketReceiveMeta] in
  let c2 := bits_new CmdQueueReqDescSetRawPacketReceiveMetaChunk2 [write_base_addr] in
  mk_desc (bits_new [64] [0]) (bits_new [64] [0]) c2 c3.

Definition raw_write_base_addr (d : desc) : Z :=
  bits_get CmdQueueReqDescSetRawPacketReceiveMetaChunk2 0 (d_c2 d).

End code.

(** ** Lemmas: bit fields *)

Definition offset (ws : list Z) (i : nat) : Z := foldr Z.add 0 (take i ws).

Lemma in_width_nonneg w v : in_width w v -> 0 <= w.
Proof. unfold in_width. intros Hv. destruct (decide (0 <= w)); [done|]. rewrite Z.pow_neg_r in Hv by lia. lia. Qed.

Lemma masked_in_width w v : 0 <= w -> in_width w (masked_new w v).
Proof. intros Hw. apply Z.mod_pos_bound. apply Z.pow_pos_nonneg; lia. Qed.

Lemma b2z_in_width b : in_width 1 (Z.b2z b).
Proof. unfold in_width. destruct b; cbn; lia. Qed.

Lemma b2z_eqb b : (Z.b2z b =? 1) = b.
Proof. by destruct b. Qed.

Lemma unpack_pack ws vs : Forall2 in_width ws vs -> unpack ws (pack ws vs) = vs.
Proof.
  induction 1 as [|w v ws vs Hv _ IH]; [done|]. cbn. pose proof (in_width_nonneg _ _ Hv).
  unfold in_width in Hv. rewrite (Z.mul_comm (2 ^ w)), Z.mod_add, Z.div_add by lia.
  rewrite Z.mod_small, Z.div_small, Z.add_0_l by lia. by rewrite IH.
Qed.

Lemma pack_in_width ws vs : Forall2 in_width ws vs -> in_width (foldr Z.add 0 ws) (pack ws vs).
Proof.
  induction 1 as [|w v ws vs Hv Hvs IH]; [done|]. cbn. pose proof (in_width_nonneg _ _ Hv).
  pose proof (in_width_nonneg _ _ IH). unfold in_width in *. rewrite Z.pow_add_r by done. nia.
Qed.

Lemma pack_nonneg ws vs : Forall2 in_width ws vs -> 0 <= pack ws vs.
Proof. intros Hv. by apply pack_in_width in Hv as [? _]. Qed.

Lemma unpack_in_width ws x : Forall (Z.le 0) ws -> Forall2 in_width ws (unpack ws x).
Proof.
  intros Hw. revert x. induction Hw as [|w ws Hw _ IH]; intros x; cbn; constructor; [|done].
  apply Z.mod_pos_bound. apply Z.pow_pos_nonneg; lia.
Qed.

Lemma offset_nonneg ws i : Forall (Z.le 0) ws -> 0 <= offset ws i.
Proof.
  unfold offset. intros Hw. revert i. induction Hw as [|w ws Hw _ IH]; intros [|i]; cbn; try lia.
  specialize (IH i). lia.
Qed.

Lemma unpack_lookup ws i w x :
  Forall (Z.le 0) ws -> 0 <= x -> ws !! i = Some w ->
  unpack ws x !! i = Some (x / 2 ^ offset ws i mod 2 ^ w).
Proof.
  intros Hw. revert i x. induction Hw as [|w' ws Hw' Hws IH]; intros i x Hx Hi; [done|].
  destruct i as [|i].
  - injection Hi as ->. cbn. by rewrite Z.div_1_r.
  - assert (Hp : 0 < 2 ^ w') by (apply Z.pow_pos_nonneg; lia). pose proof (offset_nonneg ws i Hws) as Ho.
    change (unpack ws (x / 2 ^ w') !! i = Some (x / 2 ^ (w' + offset ws i) mod 2 ^ w)).
    rewrite (IH i _ (Z.div_pos _ _ Hx Hp) Hi), Z.pow_add_r, Z.div_div by lia. done.
Qed.

(** ** Lemmas: bytes *)

Lemma from_to_le_bytes n x : in_width (8 * Z.of_nat n) x -> from_le_bytes (to_le_bytes n x) = x.
Proof.
  revert x. induction n as [|n IH]; intros x Hx; cbn [to_le_bytes from_le_bytes].
  - unfold in_width in Hx. cbn in Hx. lia.
  - rewrite IH; [pose proof (Z.div_mod x 256); lia|]. unfold in_width in *.
    rewrite Nat2Z.inj_succ in Hx. replace (8 * Z.succ (Z.of_nat n)) with (8 + 8 * Z.of_nat n) in Hx by lia.
    rewrite Z.pow_add_r in Hx by lia. change (2 ^ 8) with 256 in Hx.
    split; [apply Z.div_pos; lia|]. apply Z.div_lt_upper_bound; lia.
Qed.

Definition desc_ok (d : desc) : Prop :=
  in_width 64 (d_c0 d) /\ in_width 64 (d_c1 d) /\ in_width 64 (d_c2 d) /\ in_width 64 (d_c3 d).

Lemma desc_roundtrip d : desc_ok d -> deserialize (serialize d) = d.
Proof.
  intros (H0 & H1 & H2 & H3). destruct d as [c0 c1 c2 c3]. cbn [d_c0 d_c1 d_c2 d_c3] in *.
  unfold serialize, desc_serialize, deserialize, desc_deserialize. cbn [d_c0 d_c1 d_c2 d_c3].
  change (slice _ 0 8) with (to_le_bytes 8 c0). change (slice _ 8 16) with (to_le_bytes 8 c1).
  change (slice _ 16 24) with (to_le_bytes 8 c2). change (slice _ 24 32) with (to_le_bytes 8 c3).
  by rewrite !from_to_le_bytes.
Qed.

Lemma serialize_bytes d :
  length (serialize d) = 32%nat /\ Forall (in_width 8) (serialize d).
Proof.
  assert (Hb : forall n x, Forall (in_width 8) (to_le_bytes n x)).
  { intros n. induction n as [|n IH]; intros x; cbn; constructor; [|done].
    apply Z.mod_pos_bound. lia. }
  split; [done|]. unfold serialize, desc_serialize. rewrite !Forall_app. repeat split; apply Hb.
Qed.

(** The last byte, where the rings look for the valid and next bits. *)
Lemma serialize_last d : 0 <= d_c3 d -> nth 31 (serialize d) 0 = d_c3 d / 2 ^ 56 mod 256.
Proof.
  intros H3. change (nth 31 (serialize d) 0)
    with (d_c3 d / 256 / 256 / 256 / 256 / 256 / 256 / 256 mod 256).
  by rewrite !Z.div_div by lia.
Qed.

(** ** Lemmas: constructors *)

(** The number of a header with the given operation and bits. *)
Definition head_of (op : Z) (next valid : bool) : Z := op + 2 ^ 14 * Z.b2z next + 2 ^ 15 * Z.b2z valid.

Lemma head_of_width op next valid : in_width 8 op -> in_width 16 (head_of op next valid).
Proof. unfold in_width, head_of. destruct next, valid; cbn [Z.b2z]; lia. Qed.

Lemma head_of_pack op next valid :
  pack RingBufDescCommonHead [op; 0; 0; Z.b2z next; Z.b2z valid] = head_of op next valid.
Proof. unfold RingBufDescCommonHead, head_of. cbn [pack]. lia. Qed.

(** A chunk whose last 16 bits are a header. *)
Lemma header_chunk ws vs h :
  Forall2 in_width ws vs -> foldr Z.add 0 ws = 48 ->
  pack (ws ++ [16]) (vs ++ [h]) = pack ws vs + 2 ^ 48 * h.
Proof.
  intros Hv <-. induction Hv as [|w v ws vs Hv Hvs IH]; [cbn; lia|]. cbn [app pack foldr].
  rewrite IH. pose proof (in_width_nonneg _ _ Hv). apply pack_in_width in Hvs.
  pose proof (in_width_nonneg _ _ Hvs). rewrite Z.pow_add_r by lia. lia.
Qed.

Lemma ring_bits c0 c1 c2 a op next valid :
  in_width 48 a -> in_width 8 op ->
  is_valid (serialize (mk_desc c0 c1 c2 (a + 2 ^ 48 * head_of op next valid))) = valid /\
  has_next (serialize (mk_desc c0 c1 c2 (a + 2 ^ 48 * head_of op next valid))) = next.
Proof.
  intros Ha Hop. unfold is_valid, has_next, in_width, head_of in *. rewrite serialize_last.
  2:{ cbn [d_c3]. destruct next, valid; cbn [Z.b2z]; lia. }
  cbn [d_c3].
  replace ((a + 2 ^ 48 * (op + 2 ^ 14 * Z.b2z next + 2 ^ 15 * Z.b2z valid)) / 2 ^ 56)
    with (2 ^ 6 * Z.b2z next + 2 ^ 7 * Z.b2z valid); [by destruct next, valid|].
  apply (Z.div_unique_pos _ _ _ (a + 2 ^ 48 * op)); lia.
Qed.

Section laws.
Context `{BilgeLaws}.

Lemma get_new ws vs i v :
  Forall2 in_width ws vs -> vs !! i = Some v -> bits_get ws i (bits_new ws vs) = v.
Proof. intros Hv Hi. by rewrite bits_new_pack, bits_get_field, unpack_pack, Hi. Qed.

Lemma new_with_op_code_eq op : in_width 8 op -> new_with_op_code op = head_of op false true.
Proof.
  intros Hop. unfold new_with_op_code. rewrite !bits_set_field.
  change (unpack RingBufDescCommonHead 0) with [0; 0; 0; 0; 0]. cbn [insert list_insert].
  rewrite unpack_pack; [exact (head_of_pack op false true)|].
  unfold RingBufDescCommonHead, in_width in *. repeat (constructor; [lia|]). constructor.
Qed.

Lemma set_has_next_eq op next : in_width 8 op ->
  head_set_has_next next (head_of op false true) = head_of op next true.
Proof.
  intros Hop. unfold head_set_has_next. rewrite bits_set_field, <- head_of_pack.
  rewrite unpack_pack; [exact (head_of_pack op next true)|].
  unfold RingBufDescCommonHead, in_width in *. cbn [Z.b2z]. repeat (constructor; [lia|]). constructor.
Qed.

Lemma get_head op next valid :
  in_width 8 op ->
  head_op_code (head_of op next valid) = op /\ head_has_next (head_of op next valid) = next /\
  head_valid (head_of op next valid) = valid.
Proof.
  intros Hop. unfold head_op_code, head_has_next, head_valid. rewrite !bits_get_field, <- head_of_pack.
  rewrite unpack_pack; [cbn; by rewrite !b2z_eqb|].
  unfold RingBufDescCommonHead, in_width in *.
  repeat (constructor; [first [apply b2z_in_width|lia]|]). constructor.
Qed.

Lemma opcode_num_width o : in_width 8 (opcode_num o).
Proof. unfold in_width. destruct o; cbn; lia. Qed.

Lemma operator_num_width o : in_width 8 (operator_num o).
Proof. unfold in_width. destruct o; cbn; lia. Qed.

End laws.

(** The values given to a constructor fit its fields. *)
Ltac fields := repeat (constructor; [first [assumption | apply masked_in_width; lia
  | apply b2z_in_width | apply wrap_range; lia | apply head_of_width, opcode_num_width
  | apply head_of_width, operator_num_width | apply head_of_width; unfold in_width; lia
  | unfold in_width; lia]|]); constructor.

(** Reads the fields of constructed chunks. *)
Ltac read_fields := repeat match goal with
  | |- context [bits_get ?ws ?i (bits_new ?ws ?vs)] =>
      erewrite (get_new ws vs i); [|fields|reflexivity]
  end.

Lemma masked_small w v : in_width w v -> masked_new w v = v.
Proof. apply Z.mod_small. Qed.
