(* ===== verification/SendQueue.v ===== *)
(** * The send queues

    rust-driver/src/workers/send/worker.rs and types.rs: a send worker turns chunks into
    pairs of descriptors, puts each pair on the ring of its queue and tells the device
    how far the ring is filled.  A chunk that finds no room goes back to the local queue.
    The two registers of the queue belong to the device and enter as parameters. *)

From Stdlib Require Import ZArith Lia.
From stdpp Require Import base list numbers.
From S2P Require Import Prelude RustBase Psn WorkReq RingBuf Descriptors.

#[local] Open Scope Z_scope.

(** The registers of a queue: the tail read for the [n]-th time with the ring as given,
    and whether a write of the head succeeds.  [None] and [false] stand for I/O errors. *)
Class SendRing : Type := {
  read_tail : nat -> DmaRingBuf desc_bytes -> option Z;
  write_head : Z -> bool;
}.

(** The device moves the tail forward over the entries between tail and head; the
    registers of a working device can be read and written. *)
Class SendRingLaws `{SendRing} : Prop := {
  read_tail_in_ring n r : exists k,
    0 <= k <= rb_len r /\ read_tail n r = Some ((rb_tail r + k) mod 8192);
  write_head_ok h : write_head h = true;
}.

(** A device that has taken everything by the time it is asked. *)
#[export] Instance eager_ring : SendRing := {|
  read_tail _ r := Some ((rb_tail r + rb_len r) mod 8192);
  write_head _ := true;
|}.

#[export] Instance eager_ring_laws : SendRingLaws.
Proof.
  split; [|done]. intros n r. exists (rb_len r). split; [|done].
  split; [|lia]. unfold rb_len. rewrite land_wrap_mask. apply Z.mod_pos_bound. lia.
Qed.

Section code.
Context `{Profile} `{Bilge} `{SendRing}.

Record SendQueueSync : Type := mk_sqs {
  sqs_queue : DmaRingBuf desc_bytes; sqs_head_reg : option Z; sqs_reads : nat }.

Definition on_queue {A} : M (DmaRingBuf desc_bytes) A -> M SendQueueSync A :=
  zoom sqs_queue (fun q s => mk_sqs q (sqs_head_reg s) (sqs_reads s)).

Definition sync_tail : M SendQueueSync unit :=
  s ← get;
  tail_ptr ← demand Panic (read_tail (sqs_reads s) (sqs_queue s));
  modify (fun s => mk_sqs (set_tail tail_ptr (sqs_queue s)) (sqs_head_reg s) (S (sqs_reads s))).

Definition sync_head : M SendQueueSync unit :=
  s ← get;
  let head := wrap 32 (rb_head (sqs_queue s)) in
  if write_head head then modify (fun s => mk_sqs (sqs_queue s) (Some head) (sqs_reads s)) else panic.

(** [assert!(self.send_queue.push(desc), "full send queue")] *)
Definition push_desc (d : desc) : M SendQueueSync unit :=
  b ← on_queue (desc_push d);
  if (b : bool) then mret tt else panic.

Definition sqs_send (descs : list desc) : M SendQueueSync bool :=
  let len := Z.of_nat (length descs) in
  remaining ← on_queue rb_remaining;
  when (remaining <? len) sync_tail;;
  remaining ← on_queue rb_remaining;
  if remaining <? len then mret false
  else
    for_each descs push_desc;;
    mret true.

(** The local queue is first-in first-out. *)
Record SendWorker : Type := mk_sw { sw_local : list WrChunk; sw_sq : SendQueueSync }.

Definition on_sq {A} : M SendQueueSync A -> M SendWorker A :=
  zoom sw_sq (fun q s => mk_sw (sw_local s) q).

Definition seg0_of (wr : WrChunk) : desc :=
  SendQueueReqDescSeg0_new (c_opcode wr) (c_msn wr) (c_psn wr) (c_qp_type wr) (c_dqpn wr)
    (c_flags wr) (c_dqp_ip wr) (c_raddr wr) (c_rkey wr) (c_total_len wr).

Definition seg1_of (wr : WrChunk) : desc :=
  SendQueueReqDescSeg1_new (c_opcode wr) (c_pmtu wr) (c_is_first wr) (c_is_last wr)
    (c_is_retry wr) (c_enable_ecn wr) (c_sqpn wr) (c_imm wr) (c_mac_addr wr) (c_lkey wr)
    (c_len wr) (c_laddr wr).

(** The loop of [process]; the result is [has_new_desc]. *)
Fixpoint process_wrs (wrs : list (option WrChunk)) (has_new_desc : bool) : M SendWorker bool :=
  match wrs with
  | [] => mret has_new_desc
  | None :: wrs' => process_wrs wrs' has_new_desc
  | Some wr :: wrs' =>
      b ← on_sq (sqs_send [seg0_of wr; seg1_of wr]);
      if (b : bool) then process_wrs wrs' true
      else
        modify (fun s => mk_sw (sw_local s ++ [wr]) (sw_sq s));;
        process_wrs wrs' has_new_desc
  end.

Definition send_process (wrs : list (option WrChunk)) : M SendWorker unit :=
  has_new_desc ← process_wrs wrs false;
  when has_new_desc (on_sq sync_head).

End code.

(** ** Lemmas: what the device reads *)

(** A chunk as the device finds it in its two descriptors. *)
Definition wire_chunk `{Bilge} (op : WorkReqOpCode) (d0 d1 : desc) : WrChunk :=
  mk_chunk op (seg0_qp_type d0) (Z.lor (Z.shiftl (seg1_sqpn_high_16bits d1) 8) (seg1_sqpn_low_8bits d1))
    (seg1_mac_addr d1) (seg0_dqpn d0) (seg0_dqp_ip d0) (seg1_pmtu d1) (seg0_flags d0) (seg0_raddr d0)
    (seg0_rkey d0) (seg0_total_len d0) (seg1_lkey d1) (seg1_imm d1) (seg1_laddr d1) (seg1_len d1)
    (seg1_is_first d1) (seg1_is_last d1) (seg0_msn d0) (seg0_psn d0) (seg1_is_retry d1)
    (seg1_enable_ecn d1).

(** The fields of a chunk fit the fields of the descriptors. *)
Record chunk_fits (c : WrChunk) : Prop := {
  cf_qp_type : in_width 4 (c_qp_type c); cf_sqpn : in_width 24 (c_sqpn c);
  cf_mac : in_width 48 (c_mac_addr c); cf_dqpn : in_width 24 (c_dqpn c);
  cf_ip : in_width 32 (c_dqp_ip c); cf_pmtu : in_width 3 (c_pmtu c);
  cf_flags : in_width 5 (c_flags c); cf_raddr : in_width 64 (c_raddr c);
  cf_rkey : in_width 32 (c_rkey c); cf_total : in_width 32 (c_total_len c);
  cf_lkey : in_width 32 (c_lkey c); cf_imm : in_width 32 (c_imm c);
  cf_laddr : in_width 64 (c_laddr c); cf_len : in_width 32 (c_len c);
  cf_msn : in_width 16 (c_msn c); cf_psn : in_width 24 (c_psn c) }.

Lemma sqpn_split x : in_width 24 x -> Z.lor (Z.shiftl (wrap 16 (Z.shiftr x 8)) 8) (wrap 8 x) = x.
Proof.
  intros Hx. unfold in_width in Hx. unfold wrap. rewrite Z.shiftr_div_pow2, Z.shiftl_mul_pow2 by lia.
  rewrite (Z.mod_small (x / 2 ^ 8)) by (split; [apply Z.div_pos; lia|apply Z.div_lt_upper_bound; lia]).
  assert (E : Z.land (x / 2 ^ 8 * 2 ^ 8) (x mod 2 ^ 8) = 0).
  { apply Z.bits_inj'. intros n Hn. rewrite Z.land_spec, Z.bits_0.
    destruct (decide (n < 8)); [by rewrite Z.mul_pow2_bits_low|].
    rewrite Z.mod_pow2_bits_high by lia. apply andb_false_r. }
  pose proof (Z.add_lor_land (x / 2 ^ 8 * 2 ^ 8) (x mod 2 ^ 8)) as Ha. rewrite E in Ha.
  pose proof (Z.div_mod x (2 ^ 8)). lia.
Qed.

Section wire.
Context `{BilgeLaws}.
Implicit Types c : WrChunk.

Lemma send_head c : new_send_desc (c_opcode c) = head_of (opcode_num (c_opcode c)) false true.
Proof. apply new_with_op_code_eq, opcode_num_width. Qed.

Lemma wire_chunk_of c : chunk_fits c -> wire_chunk (c_opcode c) (seg0_of c) (seg1_of c) = c.
Proof.
  intros [? ? ? ? ? ? ? ? ? ? ? ? ? ? ? ?]. unfold wire_chunk, seg0_of, seg1_of,
    SendQueueReqDescSeg0_new, SendQueueReqDescSeg1_new. rewrite send_head, set_has_next_eq by apply opcode_num_width.
  unfold seg0_qp_type, seg1_sqpn_high_16bits, seg1_sqpn_low_8bits, seg1_mac_addr, seg0_dqpn, seg0_dqp_ip,
    seg1_pmtu, seg0_flags, seg0_raddr, seg0_rkey, seg0_total_len, seg1_lkey, seg1_imm, seg1_laddr, seg1_len,
    seg1_is_first, seg1_is_last, seg0_msn, seg0_psn, seg1_is_retry, seg1_enable_ecn.
  cbn [d_c0 d_c1 d_c2 d_c3]. read_fields. rewrite sqpn_split, !b2z_eqb by done.
  rewrite !masked_small by done. by destruct c.
Qed.

Lemma seg0_ok c : chunk_fits c ->
  desc_ok (seg0_of c) /\ is_valid (serialize (seg0_of c)) = true /\ has_next (serialize (seg0_of c)) = true.
Proof.
  intros [? ? ? ? ? ? ? ? ? ? ? ? ? ? ? ?]. unfold seg0_of, SendQueueReqDescSeg0_new.
  rewrite send_head, set_has_next_eq by apply opcode_num_width.
  rewrite !bits_new_pack by fields. split.
  - unfold desc_ok. cbn [d_c0 d_c1 d_c2 d_c3]. split_and!; refine (pack_in_width _ _ _); fields.

  - change SendQueueReqDescSeg0Chunk3 with ([32; 16] ++ [16]).
    change [c_total_len c; c_msn c; head_of (opcode_num (c_opcode c)) true true]
      with ([c_total_len c; c_msn c] ++ [head_of (opcode_num (c_opcode c)) true true]).
    rewrite header_chunk by first [fields|done]. apply ring_bits; [|apply opcode_num_width].
    refine (pack_in_width [32; 16] _ _). fields.
Qed.

Lemma seg1_ok c : chunk_fits c ->
  desc_ok (seg1_of c) /\ is_valid (serialize (seg1_of c)) = true /\ has_next (serialize (seg1_of c)) = false.
Proof.
  intros [? ? ? ? ? ? ? ? ? ? ? ? ? ? ? ?]. unfold seg1_of, SendQueueReqDescSeg1_new.
  rewrite send_head. rewrite !bits_new_pack by fields. split.
  - unfold desc_ok. cbn [d_c0 d_c1 d_c2 d_c3]. split_and!; refine (pack_in_width _ _ _); fields.
  - change SendQueueReqDescSeg1Chunk3 with ([32; 8; 1; 1; 1; 1; 1; 3] ++ [16]).
    match goal with |- context [pack _ [?a; ?b; ?c; ?d; ?e; ?f; ?g; ?h; ?i]] =>
      change [a; b; c; d; e; f; g; h; i] with ([a; b; c; d; e; f; g; h] ++ [i]) end.
    rewrite header_chunk by first [fields|done]. apply ring_bits; [|apply opcode_num_width].
    refine (pack_in_width [32; 8; 1; 1; 1; 1; 1; 3] _ _). fields.
Qed.

End wire.

(** ** Lemmas: the worker *)

Section process.
Context `{Profile} `{BilgeLaws} `{SendRingLaws}.
Implicit Types (s : SendQueueSync) (w : SendWorker) (q : list desc_bytes).

Lemma remaining_run s q :
  holds (sqs_queue s) q -> on_queue rb_remaining s = Done (4096 - Z.of_nat (length q)) s.
Proof.
  intros Hq. unfold on_queue, zoom, rb_remaining, mbind, M_bind, get.
  rewrite (rb_len_holds _ _ Hq). pose proof (h_len _ _ Hq). change RING_BUF_LEN with 4096.
  rewrite usub_run by lia. by destruct s.
Qed.

Lemma sync_tail_run s q :
  holds (sqs_queue s) q ->
  exists k s', sync_tail s = Done tt s' /\ (k <= length q)%nat /\
    holds (sqs_queue s') (drop k q) /\ sqs_head_reg s' = sqs_head_reg s.
Proof.
  intros Hq. destruct (read_tail_in_ring (sqs_reads s) (sqs_queue s)) as (k & Hk & Hr).
  rewrite (rb_len_holds _ _ Hq) in Hk. exists (Z.to_nat k). eexists.
  unfold sync_tail, mbind, M_bind, get. rewrite Hr. split; [reflexivity|]. split; [lia|].
  split; [|done]. cbn [sqs_queue].
  replace (rb_tail (sqs_queue s) + k) with (rb_tail (sqs_queue s) + Z.of_nat (Z.to_nat k)) by lia.
  apply set_tail_holds; [done|lia].
Qed.

(** Pushing onto a ring with room for everything. *)
Lemma push_all_run descs s q :
  holds (sqs_queue s) q -> (length q + length descs <= Z.to_nat 4096)%nat ->
  exists s', for_each descs push_desc s = Done tt s' /\ holds (sqs_queue s') (q ++ (serialize <$> descs)) /\ sqs_head_reg s' = sqs_head_reg s.
Proof.
  revert s q. induction descs as [|d descs IH]; intros s q Hq Hl; cbn [for_each].
  { exists s. by rewrite app_nil_r. }
  pose proof (rb_push_run (sqs_queue s) q (serialize d) Hq) as Hp. cbn [length] in Hl.
  rewrite bool_decide_eq_false_2 in Hp by lia. destruct Hp as (r' & Hp & Hr').
  unfold push_desc, mbind, M_bind, on_queue, zoom, desc_push. rewrite Hp.
  destruct (IH (mk_sqs r' (sqs_head_reg s) (sqs_reads s)) (q ++ [serialize d])) as (s' & Hs & Hq' & Hh).
  { done. } { rewrite length_app. cbn [length]. lia. }
  exists s'. split; [exact Hs|]. rewrite <- app_assoc in Hq'. done.
Qed.

(** A pair of descriptors goes onto the ring whole or not at all. *)
Lemma sqs_send_run d0 d1 s q :
  holds (sqs_queue s) q ->
  exists k b s', sqs_send [d0; d1] s = Done b s' /\ (k <= length q)%nat /\
    sqs_head_reg s' = sqs_head_reg s /\
    holds (sqs_queue s') (drop k q ++ if b then [serialize d0; serialize d1] else []) /\
    (b = false -> (Z.to_nat 4096 < length q - k + 2)%nat) /\
    ((length q + 2 <= Z.to_nat 4096)%nat -> k = O /\ b = true).
Proof.
  intros Hq. unfold sqs_send, mbind, M_bind. rewrite (remaining_run s q Hq).
  change (Z.of_nat (length [d0; d1])) with 2. destruct (Z.ltb_spec (4096 - Z.of_nat (length q)) 2) as [Hr|Hr].
  - cbn [when]. destruct (sync_tail_run s q Hq) as (k & s1 & E1 & Hk & Hq1 & Hh1). rewrite E1.
    rewrite (remaining_run s1 _ Hq1). pose proof (length_drop q k) as Hd.
    destruct (Z.ltb_spec (4096 - Z.of_nat (length (drop k q))) 2) as [Hr'|Hr'].
    + exists k, false, s1. rewrite app_nil_r. split_and!; try done; lia.
    + destruct (push_all_run [d0; d1] s1 (drop k q) Hq1) as (s2 & E2 & Hq2 & Hh2).
      { cbn [length]. lia. }
      exists k, true, s2. rewrite E2. split_and!; try done; [congruence|lia].
  - cbn [when mret M_ret].
    rewrite (remaining_run s q Hq). rewrite (proj2 (Z.ltb_ge _ _)) by lia.
    destruct (push_all_run [d0; d1] s q Hq) as (s2 & E2 & Hq2 & Hh2); [cbn [length]; lia|].
    exists O, true, s2. rewrite E2, drop_0. split_and!; try done; lia.
Qed.

(** The descriptors of the chunks that were sent. *)
Definition pairs_of (cs : list WrChunk) : list desc_bytes :=
  cs ≫= fun c => [serialize (seg0_of c); serialize (seg1_of c)].

(** [sent] and [kept] are [cs] split in two, each in the order of [cs]. *)
Inductive splits {A} : list A -> list A -> list A -> Prop :=
| splits_nil : splits [] [] []
| splits_sent c cs sent kept : splits cs sent kept -> splits (c :: cs) (c :: sent) kept
| splits_kept c cs sent kept : splits cs sent kept -> splits (c :: cs) sent (c :: kept).

Lemma drop_part {A} k k' (l x : list A) :
  (k <= length l)%nat -> drop k' (drop k l ++ x) = drop (k + k') (l ++ x).
Proof. intros Hk. rewrite <- drop_app_le by done. by rewrite drop_drop. Qed.

Lemma process_wrs_run wrs new w q :
  holds (sqs_queue (sw_sq w)) q ->
  exists k sent kept w', process_wrs wrs new w = Done (match sent with [] => new | _ => true end) w' /\
    splits (omap id wrs) sent kept /\ (k <= length (q ++ pairs_of sent))%nat /\
    sqs_head_reg (sw_sq w') = sqs_head_reg (sw_sq w) /\
    sw_local w' = sw_local w ++ kept /\
    holds (sqs_queue (sw_sq w')) (drop k (q ++ pairs_of sent)) /\
    ((length q + 2 * length (omap id wrs) <= Z.to_nat 4096)%nat -> k = O /\ kept = []).
Proof.
  revert new w q. induction wrs as [|[c|] wrs IH]; intros new w q Hq; cbn [process_wrs].
  - exists O, [], [], w. unfold pairs_of.
    cbn [mbind list_bind]. rewrite !app_nil_r, drop_0. split_and!; try done; [constructor|lia].
  - unfold mbind, M_bind, on_sq, zoom. change (omap id (Some c :: wrs)) with (c :: omap id wrs).
    destruct (sqs_send_run (seg0_of c) (seg1_of c) (sw_sq w) q Hq) as (k & b & s1 & E1 & Hk & Hh & Hq1 & Hf & Hroom).
    rewrite E1. destruct b.
    + destruct (IH true (mk_sw (sw_local w) s1) _ Hq1) as (k' & sent & kept & w' & E2 & Hs & Hk' & Hh' & Hl & Hq' & Hr).
      exists (k + k')%nat, (c :: sent), kept, w'.
      change (pairs_of (c :: sent)) with ([serialize (seg0_of c); serialize (seg1_of c)] ++ pairs_of sent).
      rewrite <- app_assoc, drop_part in Hq' by done. cbn [length]. rewrite <- app_assoc, length_app, length_drop in Hk'.
      split_and!; [rewrite E2; by destruct sent|by constructor|rewrite length_app; lia|by rewrite Hh'|done|exact Hq'|].
      intros Hlen. destruct Hroom as [-> _]; [lia|]. rewrite drop_0, length_app in Hr. cbn [length] in Hr.
      apply Hr. lia.
    + rewrite app_nil_r in Hq1. cbn [modify].
      destruct (IH new (mk_sw (sw_local w ++ [c]) s1) _ Hq1) as (k' & sent & kept & w' & E2 & Hs & Hk' & Hh' & Hl & Hq' & Hr).
      exists (k + k')%nat, sent, (c :: kept), w'. rewrite drop_part in Hq' by done. rewrite length_app, length_drop in Hk'.
      split_and!; [exact E2|by constructor|rewrite length_app; lia|by rewrite Hh'|rewrite Hl; cbn [sw_local]; by rewrite <- app_assoc|exact Hq'|].
      cbn [length]. intros Hlen. destruct Hroom as [_ Hroom]; [lia|done].
  - exact (IH new w q Hq).
Qed.

Lemma sync_head_run s :
  sync_head s = Done tt (mk_sqs (sqs_queue s) (Some (wrap 32 (rb_head (sqs_queue s)))) (sqs_reads s)).
Proof. unfold sync_head, mbind, M_bind, get. by rewrite write_head_ok. Qed.

End process.

(** ** Properties *)

(** What reaches the device.  For a chunk whose fields fit the fields of the
    descriptors, the two descriptors are 32 bytes each that the ring recognises as a valid
    entry with a successor and a valid entry without one; read back, they give every
    field of the chunk. *)
Theorem send_descriptors_roundtrip `{BilgeLaws} (c : WrChunk) :
  chunk_fits c ->
  let b0 := serialize (seg0_of c) in
  let b1 := serialize (seg1_of c) in
  length b0 = 32%nat /\ length b1 = 32%nat /\ Forall (in_width 8) (b0 ++ b1) /\
  is_valid b0 = true /\ has_next b0 = true /\ is_valid b1 = true /\ has_next b1 = false /\
  wire_chunk (c_opcode c) (deserialize b0) (deserialize b1) = c.
Proof.
  intros Hc b0 b1. destruct (seg0_ok c Hc) as (D0 & Hv0 & Hn0). destruct (seg1_ok c Hc) as (D1 & Hv1 & Hn1).
  destruct (serialize_bytes (seg0_of c)) as [L0 B0]. destruct (serialize_bytes (seg1_of c)) as [L1 B1].
  unfold b0, b1. rewrite !desc_roundtrip by done. split_and!; try done; [by apply Forall_app|].
  by apply wire_chunk_of.
Qed.

Definition sample_chunk : WrChunk :=
  mk_chunk OpRdmaWrite 2 0x1F4 0xAABBCCDDEE0A 0x2F7 0x0A000002 5 2 0x7000 11 8192 22 33 0x9000 4096
    true false 7 0xFFFFFF false false.

Lemma sample_chunk_fits : chunk_fits sample_chunk.
Proof. by split. Qed.

Lemma send_descriptors_roundtrip_witness :
  wire_chunk OpRdmaWrite (deserialize (serialize (seg0_of sample_chunk)))
    (deserialize (serialize (seg1_of sample_chunk))) = sample_chunk.
Proof.
  destruct (send_descriptors_roundtrip sample_chunk sample_chunk_fits) as (_ & _ & _ & _ & _ & _ & _ & E).
  exact E.
Defined.

(** The send worker loses no chunk and sends none twice.  Whatever the worker polled
    and however far the device has come, processing runs without a panic; the chunks are
    split into those whose two descriptors are now on the ring, side by side and in order
    behind what the device had not taken, and those put back in order; the device is told
    the new head if anything was put on the ring; and with room for all of them none is
    put back. *)
Theorem send_worker_keeps_chunks `{Profile} `{BilgeLaws} `{SendRingLaws} wrs (w : SendWorker) q :
  holds (sqs_queue (sw_sq w)) q ->
  exists k sent kept w', send_process wrs w = Done tt w' /\
    splits (omap id wrs) sent kept /\ sw_local w' = sw_local w ++ kept /\
    holds (sqs_queue (sw_sq w')) (drop k (q ++ pairs_of sent)) /\
    sqs_head_reg (sw_sq w') =
      match sent with [] => sqs_head_reg (sw_sq w) | _ => Some (rb_head (sqs_queue (sw_sq w'))) end /\
    ((length q + 2 * length (omap id wrs) <= Z.to_nat 4096)%nat -> k = O /\ kept = []).
Proof.
  intros Hq. destruct (process_wrs_run wrs false w q Hq) as (k & sent & kept & w' & E & Hs & Hk & Hh & Hl & Hq' & Hr).
  exists k, sent, kept. unfold send_process, mbind, M_bind. rewrite E. destruct sent as [|c sent].
  - exists w'. split_and!; done.
  - eexists. cbn [when]. unfold on_sq, zoom. rewrite sync_head_run. split; [reflexivity|].
    split_and!; try done. cbn [sw_sq sqs_head_reg sqs_queue]. f_equal. apply wrap_small.
    pose proof (h_head _ _ Hq') as Eh. unfold in_width. rewrite Eh. pose proof (Z.mod_pos_bound
      (rb_tail (sqs_queue (sw_sq w')) + Z.of_nat (length (drop k (q ++ pairs_of (c :: sent))))) 8192). lia.
Qed.

Definition fresh_send_ring : DmaRingBuf desc_bytes := mk_ring (replicate (Z.to_nat 4096) zero_desc) 0 0.

Lemma fresh_send_ring_holds : holds fresh_send_ring [].
Proof.
  split; unfold fresh_send_ring; cbn [slots rb_head rb_tail length]; first [apply length_replicate|lia|done].
Qed.

Lemma send_worker_keeps_chunks_witness :
  exists w', send_process (H := dev_profile) [Some sample_chunk; None]
      (mk_sw [] (mk_sqs fresh_send_ring None 0)) = Done tt w' /\
    sw_local w' = [] /\ holds (sqs_queue (sw_sq w')) (pairs_of [sample_chunk]).
Proof.
  destruct (send_worker_keeps_chunks (H := dev_profile) [Some sample_chunk; None]
    (mk_sw [] (mk_sqs fresh_send_ring None 0)) [] fresh_send_ring_holds)
    as (k & sent & kept & w' & E & Hs & Hl & Hq & _ & Hr).
  destruct Hr as [-> ->]; [change (length (omap id [Some sample_chunk; None])) with 1%nat; cbn [length]; lia|]. exists w'. rewrite drop_0 in Hq.
  inversion Hs as [|? ? s' ? Hs'|]; subst. inversion Hs'; subst. done.
Defined.
