(* ===== verification/CmdQueue.v ===== *)
(** * The command queue

    rust-driver/src/cmd/configurator.rs and types.rs: the driver programs the tables of
    the device by descriptors on a request ring and waits for an answer on a response
    ring before it goes on.  The device runs beside the driver; it is a parameter that
    gets a turn before each time the driver looks, and may read the driver's DMA buffer
    in its turns. *)

From Stdlib Require Import ZArith Lia.
From stdpp Require Import base list numbers.
From S2P Require Import Prelude RustBase RingBuf Descriptors.

#[local] Open Scope Z_scope.
#[local] Open Scope cint_scope.

(** The registers of the two rings and the turns of the device.  A turn sees the DMA
    buffer and both rings, and may write the response ring; [None] is an I/O error. *)
Class CmdDevice (Dev : Type) : Type := {
  req_write_head : Z -> Dev -> Dev;
  req_read_tail : Dev -> option Z;
  resp_write_tail : Z -> Dev -> Dev;
  resp_read_head : Dev -> option Z;
  dev_turn : list Z -> list desc_bytes -> list desc_bytes -> Dev -> Dev * list desc_bytes;
}.

(** ** types.rs *)

Inductive CmdQueueDesc : Set :=
| CqUpdateMrTable (d : desc) | CqUpdatePGT (d : desc) | CqManageQP (d : desc)
| CqSetNetworkParam (d : desc) | CqSetRawPacketReceiveMeta (d : desc).

Definition CmdQueue_push (d : CmdQueueDesc) : M (DmaRingBuf desc_bytes) bool :=
  match d with
  | CqUpdateMrTable d => desc_push d
  | CqUpdatePGT d => desc_push d
  | CqManageQP d => desc_push d
  | CqSetNetworkParam d => desc_push d
  | CqSetRawPacketReceiveMeta d => desc_push d
  end.

(** [CmdRespQueueDesc] keeps the 32 bytes. *)
Definition CmdRespQueueDesc : Set := desc_bytes.

#[export] Instance CmdRespQueueDesc_deserialize : DescDeserialize CmdRespQueueDesc := fun d => d.

Definition CmdRespQueue_try_pop : M (DmaRingBuf desc_bytes) (option CmdRespQueueDesc) := desc_pop.

Record MttUpdate : Set := mk_mtt_update {
  mu_mr_base_va : Z; mu_mr_length : Z; mu_mr_key : Z; mu_pd_handler : Z; mu_acc_flags : Z;
  mu_base_pgt_offset : Z }.

Record PgtUpdate : Set := mk_pgt_update {
  pu_dma_addr : Z; pu_pgt_offset : Z; pu_zero_based_entry_count : Z }.

Record UpdateQp : Set := mk_update_qp {
  uq_ip_addr : Z; uq_qpn : Z; uq_peer_qpn : Z; uq_rq_access_flags : Z; uq_qp_type : Z;
  uq_pmtu : Z; uq_local_udp_port : Z; uq_peer_mac_addr : Z }.

(** What [set_network] uses of a [NetworkConfig]. *)
Record NetworkConfig : Set := mk_net_config { nc_ip : Z; nc_mask : Z; nc_gateway : option Z }.

Definition CARD_MAC_ADDRESS : Z := 0xAABBCCDDEE0A.

(** ** configurator.rs *)

Record CmdQp : Type := mk_cmd_qp {
  req_queue : DmaRingBuf desc_bytes; resp_queue : DmaRingBuf desc_bytes }.

Section code.
Context `{Bilge} {Dev : Type} `{CmdDevice Dev}.

(** The configurator and the device its registers belong to. *)
Record CommandConfigurator : Type := mk_cc { cmd_qp : CmdQp; cc_dev : Dev }.

Definition on_req {A} : M (DmaRingBuf desc_bytes) A -> M CommandConfigurator A :=
  zoom (fun c => req_queue (cmd_qp c))
    (fun q c => mk_cc (mk_cmd_qp q (resp_queue (cmd_qp c))) (cc_dev c)).
Definition on_resp {A} : M (DmaRingBuf desc_bytes) A -> M CommandConfigurator A :=
  zoom (fun c => resp_queue (cmd_qp c))
    (fun q c => mk_cc (mk_cmd_qp (req_queue (cmd_qp c)) q) (cc_dev c)).
Definition on_dev (f : Dev -> Dev) : M CommandConfigurator unit :=
  modify (fun c => mk_cc (cmd_qp c) (f (cc_dev c))).

Definition device_runs (dma : list Z) : M CommandConfigurator unit :=
  modify (fun c =>
    let q := cmd_qp c in
    let r := resp_queue q in
    let '(dev, mem) := dev_turn dma (slots (req_queue q)) (slots r) (cc_dev c) in
    mk_cc (mk_cmd_qp (req_queue q) (mk_ring mem (rb_head r) (rb_tail r))) dev).

(** [QpUpdate]: its [num] goes from call to call. *)
Definition qu_push (num : Z) (d : CmdQueueDesc) : M CommandConfigurator Z :=
  on_req (CmdQueue_push d);;
  mret (num +{64} 1).

Definition qu_flush (dma : list Z) : M CommandConfigurator unit :=
  head ← gets (fun c => wrap 32 (rb_head (req_queue (cmd_qp c))));
  on_dev (req_write_head head);;
  device_runs dma;;
  tail_ptr ← gets (fun c => req_read_tail (cc_dev c));
  match tail_ptr with
  | Some tail_ptr => on_req (modify (set_tail tail_ptr))
  | None => mret tt
  end.

(** What [wait] does with a response. *)
Definition qu_answered (dma : list Z) : M CommandConfigurator unit :=
  tail ← gets (fun c => wrap 32 (rb_tail (resp_queue (cmd_qp c))));
  on_dev (resp_write_tail tail);;
  device_runs dma;;
  head_ptr ← gets (fun c => resp_read_head (cc_dev c));
  match head_ptr with
  | Some head_ptr => on_resp (modify (set_head head_ptr))
  | None => mret tt
  end.

(** [fuel] bounds the rounds of the loop. *)
Fixpoint qu_wait (fuel : nat) (dma : list Z) (num : Z) : M CommandConfigurator unit :=
  if num =? 0 then mret tt
  else match fuel with
  | O => fail FuelOut
  | S fuel' =>
      device_runs dma;;
      resp ← on_resp CmdRespQueue_try_pop;
      match resp with
      | Some _ => qu_answered dma;; qu_wait fuel' dma (num -{64} 1)
      | None => qu_wait fuel' dma num
      end
  end.

(** The end of each command. *)
Definition submit (fuel : nat) (dma : list Z) (d : CmdQueueDesc) : M CommandConfigurator unit :=
  num ← qu_push 0 d;
  qu_flush dma;;
  qu_wait fuel dma num.

Definition update_mtt (fuel : nat) (dma : list Z) (update : MttUpdate) : M CommandConfigurator unit :=
  update_mr_table ← CmdQueueReqDescUpdateMrTable_new 0 (mu_mr_base_va update) (mu_mr_length update)
    (mu_mr_key update) (mu_pd_handler update) (mu_acc_flags update) (mu_base_pgt_offset update);
  submit fuel dma (CqUpdateMrTable update_mr_table).

Definition update_pgt (fuel : nat) (dma : list Z) (update : PgtUpdate) : M CommandConfigurator unit :=
  let desc := CmdQueueReqDescUpdatePGT_new 0 (pu_dma_addr update) (pu_pgt_offset update)
    (pu_zero_based_entry_count update) in
  submit fuel dma (CqUpdatePGT desc).

Definition cmd_update_qp (fuel : nat) (dma : list Z) (entry : UpdateQp) : M CommandConfigurator unit :=
  let desc := CmdQueueReqDescQpManagement_new 0 (uq_ip_addr entry) (uq_qpn entry) false true
    (uq_peer_qpn entry) (uq_rq_access_flags entry) (uq_qp_type entry) (uq_pmtu entry)
    (uq_local_udp_port entry) (uq_peer_mac_addr entry) in
  submit fuel dma (CqManageQP desc).

Definition set_network (fuel : nat) (dma : list Z) (param : NetworkConfig) : M CommandConfigurator unit :=
  let desc := CmdQueueReqDescSetNetworkParam_new 0 (default 0 (nc_gateway param)) (nc_mask param)
    (nc_ip param) CARD_MAC_ADDRESS in
  submit fuel dma (CqSetNetworkParam desc).

Definition set_raw_packet_recv_buffer (fuel : nat) (dma : list Z) (phys_addr : Z) :
    M CommandConfigurator unit :=
  submit fuel dma (CqSetRawPacketReceiveMeta (CmdQueueReqDescSetRawPacketReceiveMeta_new 0 phys_addr)).

End code.
Arguments CommandConfigurator Dev : clear implicits.

(** ** What is relied on of the device *)

(** A device as far as it can be observed: the head it was told, how many requests it has
    taken and answered (modulo 8192), the requests it has taken and not executed, and the
    requests it has executed with the DMA buffer it found then. *)
Record CmdObs : Set := mk_obs {
  o_head : Z; o_taken : Z; o_answered : Z; o_fetched : list desc_bytes;
  o_log : list (desc_bytes * list Z) }.

(** A turn that does something: the next request is taken, or the oldest one taken is
    executed and answered in the next slot of the response ring. *)
Inductive device_step (dma : list Z) (req resp : list desc_bytes) : CmdObs -> CmdObs -> list desc_bytes -> Prop :=
| step_fetch o x :
    o_taken o <> o_head o -> default zero_desc (req !! Z.to_nat (o_taken o mod 4096)) = x ->
    device_step dma req resp o
      (mk_obs (o_head o) ((o_taken o + 1) mod 8192) (o_answered o) (o_fetched o ++ [x]) (o_log o)) resp
| step_answer o x l r :
    o_fetched o = x :: l -> is_valid r = true ->
    device_step dma req resp o
      (mk_obs (o_head o) (o_taken o) ((o_answered o + 1) mod 8192) l (o_log o ++ [(x, dma)]))
      (<[Z.to_nat (o_answered o mod 4096) := r]> resp).

Definition busy (o : CmdObs) : Prop := o_taken o <> o_head o \/ o_fetched o <> [].

Class CmdDeviceView (Dev : Type) : Type := { observe : Dev -> CmdObs; delay : Dev -> nat }.

(** Register accesses succeed and do what they say, a turn is idle or a step, and a device
    with work does not stay idle for ever. *)
Class CmdDeviceLaws (Dev : Type) `{CmdDevice Dev} `{CmdDeviceView Dev} : Prop := {
  observe_write_head h (d : Dev) : observe (req_write_head h d) =
    let o := observe d in mk_obs h (o_taken o) (o_answered o) (o_fetched o) (o_log o);
  observe_write_tail t (d : Dev) : observe (resp_write_tail t d) = observe d;
  read_tail_taken (d : Dev) : req_read_tail d = Some (o_taken (observe d));
  read_head_answered (d : Dev) : resp_read_head d = Some (o_answered (observe d));
  turn_steps dma req resp (d : Dev) :
    let '(d', resp') := dev_turn dma req resp d in
    device_step dma req resp (observe d) (observe d') resp' \/
    (observe d' = observe d /\ resp' = resp /\ (busy (observe d) -> (delay d' < delay d)%nat));
}.

(** A device that works one step in each turn. *)
Definition answer_desc : desc_bytes := replicate 31 0 ++ [128].

#[export] Instance prompt_device : CmdDevice CmdObs := {|
  req_write_head h o := mk_obs h (o_taken o) (o_answered o) (o_fetched o) (o_log o);
  req_read_tail o := Some (o_taken o);
  resp_write_tail _ o := o;
  resp_read_head o := Some (o_answered o);
  dev_turn dma req resp o :=
    match o_fetched o with
    | x :: l => (mk_obs (o_head o) (o_taken o) ((o_answered o + 1) mod 8192) l (o_log o ++ [(x, dma)]),
                 <[Z.to_nat (o_answered o mod 4096) := answer_desc]> resp)
    | [] =>
        if o_taken o =? o_head o then (o, resp)
        else (mk_obs (o_head o) ((o_taken o + 1) mod 8192) (o_answered o)
                [default zero_desc (req !! Z.to_nat (o_taken o mod 4096))] (o_log o), resp)
    end;
|}.

#[export] Instance prompt_device_view : CmdDeviceView CmdObs := {| observe o := o; delay _ := O |}.

#[export] Instance prompt_device_laws : CmdDeviceLaws CmdObs.
Proof.
  split; try done. intros dma req resp o. cbn [dev_turn prompt_device observe prompt_device_view delay].
  destruct (o_fetched o) as [|x l] eqn:E.
  - destruct (Z.eqb_spec (o_taken o) (o_head o)) as [Ht|Ht].
    + right. split; [done|]. split; [done|]. unfold busy. rewrite E. tauto.
    + left. pose proof (step_fetch dma req resp o _ Ht eq_refl) as Hs. by rewrite E in Hs.
  - left. by constructor.
Qed.

(** ** Lemmas: one command *)

Section lockstep.
Context {Dev : Type} `{CmdDeviceLaws Dev}.
Implicit Types (c : CommandConfigurator Dev) (x : desc_bytes) (dma : list Z).

Notation req c := (req_queue (cmd_qp c)).
Notation resp c := (resp_queue (cmd_qp c)).
Notation obs c := (observe (cc_dev c)).

(** Nothing is under way: every request was taken, executed and answered, and every
    answer was read.  The driver may not have seen that the last request was taken. *)
Record at_rest c : Prop := {
  ar_req : exists q, holds (req c) q /\ (length q <= 1)%nat;
  ar_resp : inbox is_valid (resp c) [];
  ar_head : o_head (obs c) = rb_head (req c);
  ar_taken : o_taken (obs c) = rb_head (req c);
  ar_fetched : o_fetched (obs c) = [];
  ar_answered : o_answered (obs c) = rb_tail (resp c) }.

Inductive stage : Set := Queued | Fetched | Answered.

(** A command [x] on its way; [log] is the log before it, [n] bounds what the driver
    believes to be on the request ring. *)
Record serving (n : nat) x dma (log : list (desc_bytes * list Z)) (st : stage) c : Prop := {
  sv_req : exists q, holds (req c) q /\ (length q <= n)%nat /\
    (st = Queued -> exists q', q = q' ++ [x] /\
      o_taken (obs c) = (rb_tail (req c) + Z.of_nat (length q')) mod 8192);
  sv_head : o_head (obs c) = rb_head (req c);
  sv_taken : st <> Queued -> o_taken (obs c) = rb_head (req c);
  sv_fetched : o_fetched (obs c) = match st with Fetched => [x] | _ => [] end;
  sv_log : o_log (obs c) = match st with Answered => log ++ [(x, dma)] | _ => log end;
  sv_resp : match st with
            | Answered => (exists r, inbox is_valid (resp c) [r]) /\
                          o_answered (obs c) = (rb_tail (resp c) + 1) mod 8192
            | _ => inbox is_valid (resp c) [] /\ o_answered (obs c) = rb_tail (resp c)
            end }.

Definition later (st : stage) : stage := match st with Queued => Fetched | _ => Answered end.

Lemma head_after r (q : list desc_bytes) x : holds r (q ++ [x]) ->
  rb_head r = ((rb_tail r + Z.of_nat (length q)) mod 8192 + 1) mod 8192 /\
  (rb_tail r + Z.of_nat (length q)) mod 8192 <> rb_head r /\
  default zero_desc (slots r !! Z.to_nat ((rb_tail r + Z.of_nat (length q)) mod 8192 mod 4096)) = x.
Proof.
  intros Hr. pose proof (h_head _ _ Hr) as E. rewrite length_app in E. cbn [length] in E.
  assert (E' : rb_head r = ((rb_tail r + Z.of_nat (length q)) mod 8192 + 1) mod 8192)
    by (rewrite E, Zplus_mod_idemp_l; f_equal; lia).
  split; [done|]. split; [rewrite E'; Z.div_mod_to_equations; lia|]. rewrite mod8192_mod4096.
  pose proof (h_at _ _ Hr (length q) x) as Hx. unfold slot in Hx. rewrite Hx; [done|].
  rewrite lookup_app_r, Nat.sub_diag by lia. done.
Qed.

(** A turn brings the command one stage further or takes from the delay. *)
Lemma turn_serving n x dma log st c :
  serving n x dma log st c ->
  exists c', device_runs dma c = Done tt c' /\
    (serving n x dma log (later st) c' \/
     (serving n x dma log st c' /\ (st <> Answered -> delay (cc_dev c') < delay (cc_dev c))%nat)).
Proof.
  intros Hs. unfold device_runs, modify.
  pose proof (turn_steps dma (slots (req c)) (slots (resp c)) (cc_dev c)) as Ht.
  destruct (dev_turn dma _ _ (cc_dev c)) as [d' mem]. eexists. split; [reflexivity|]. destruct Hs as [(q & Hq & Hl & Hqx) Hh Hk Hf Hg Hr].
  destruct Ht as [Ht|(Eo & -> & Hd)].
  - left. inversion Ht as [o y Hne Hy E1 Eo E3|o y l r Hy Hv E1 Eo E3]; subst o mem.
    + destruct st; [|by rewrite Hk in Hne..]. destruct (Hqx eq_refl) as (q' & -> & Et).
      destruct (head_after _ _ _ Hq) as (Eh & _ & Ex). rewrite Et, Ex in *. subst y.
      split; cbn [cmd_qp req_queue resp_queue cc_dev later]; rewrite <- Eo; cbn [o_head o_taken o_answered o_fetched o_log].
      * exists (q' ++ [x]). done.
      * done.
      * intros _. by rewrite Eh.
      * by rewrite Hf.
      * done.
      * by destruct (resp c).
    + destruct st; rewrite Hf in Hy; [done| |done]. injection Hy as <- <-. destruct Hr as [Hr Ea].
      split; cbn [cmd_qp req_queue resp_queue cc_dev later]; rewrite <- Eo; cbn [o_head o_taken o_answered o_fetched o_log].
      * by exists q.
      * done.
      * intros _. by apply Hk.
      * done.
      * by rewrite Hg.
      * rewrite Ea. split; [|done]. exists r. pose proof (device_write_inbox is_valid _ [] r Hr) as Hi.
        unfold device_write in Hi. cbn [length Z.of_nat app] in Hi. rewrite Z.add_0_r in Hi. apply Hi; [lia|done].
  - right. split.
    + split; cbn [cmd_qp req_queue resp_queue cc_dev later]; rewrite ?Eo; try done; [by exists q|]. by destruct (resp c).
    + intros Hst. apply Hd. destruct st; [left|right; by rewrite Hf|done].
      destruct (Hqx eq_refl) as (q' & -> & Et). destruct (head_after _ _ _ Hq) as (_ & Hne & _). by rewrite Et, Hh.
Qed.

Lemma rest_turn dma c : at_rest c ->
  exists c', device_runs dma c = Done tt c' /\ at_rest c' /\ o_log (obs c') = o_log (obs c).
Proof.
  intros [Hq Hr Hh Ht Hf Ha]. unfold device_runs, modify.
  pose proof (turn_steps dma (slots (req c)) (slots (resp c)) (cc_dev c)) as Hs.
  destruct (dev_turn dma _ _ (cc_dev c)) as [d' mem]. eexists. split; [reflexivity|].
  destruct Hs as [Hs|(Eo & -> & _)].
  - inversion Hs as [o y Hne|o y l r Hy]; [congruence|]. by rewrite Hf in Hy.
  - cbn [cc_dev]. rewrite Eo. split; [|done].
    split; cbn [cmd_qp req_queue resp_queue cc_dev]; rewrite ?Eo; try done. by destruct (resp c).
Qed.

(** The driver learns how far the device has come. *)
Lemma set_tail_serving n x dma log st c :
  serving n x dma log st c ->
  exists c', on_req (modify (set_tail (o_taken (obs c)))) c = Done tt c' /\ serving 1 x dma log st c'.
Proof.
  intros [(q & Hq & Hl & Hqx) Hh Hk Hf Hg Hr]. eexists. split; [reflexivity|].
  split; cbn [cmd_qp req_queue resp_queue cc_dev set_tail rb_head rb_tail]; try done.
  destruct st.
  2, 3: exists []; rewrite Hk, (h_head _ _ Hq) by done; pose proof (set_tail_holds _ _ (length q) Hq) as Hd;
    rewrite drop_all in Hd; split; [by apply Hd|]; split; [cbn; lia|done].
  destruct (Hqx eq_refl) as (q' & -> & Et). rewrite Et. exists [x].
  pose proof (set_tail_holds _ _ (length q') Hq) as Hd. rewrite length_app, drop_app_length in Hd.
  split; [apply Hd; lia|]. split; [done|]. intros _. exists []. split; [done|].
  cbn [length Z.of_nat set_tail rb_tail]. by rewrite Z.add_0_r, Zmod_mod.
Qed.

Definition q_desc (d : CmdQueueDesc) : desc :=
  match d with
  | CqUpdateMrTable d | CqUpdatePGT d | CqManageQP d | CqSetNetworkParam d | CqSetRawPacketReceiveMeta d => d
  end.

Lemma push_tail (x : desc_bytes) r b r' : rb_push x r = Done b r' -> rb_tail r' = rb_tail r.
Proof.
  unfold rb_push, write_index, get, modify, mbind, M_bind, mret, M_ret.
  destruct (rb_len r =? RING_BUF_LEN); [by intros [= _ <-]|].
  destruct (_ <? _); [|done]. by intros [= _ <-].
Qed.

Lemma pop_tail r (x : desc_bytes) r' :
  rb_pop zero_desc is_valid r = Done (Some x) r' -> rb_tail r' = (rb_tail r + 1) mod 8192.
Proof.
  unfold rb_pop, read_and_advance, zero_index, write_index, read_index, get, modify, mbind, M_bind, mret, M_ret.
  destruct (slots r !! _) as [v|]; [|done]. cbn [demand mret M_ret]. destruct (is_valid v); [|done].
  destruct (slots r !! _); [|done]. cbn [demand mret M_ret]. destruct (_ <? _); [|done]. intros [= _ <-].
  unfold inc_tail. cbn [rb_tail]. by rewrite land_wrap_mask, wrap64_mod8192.
Qed.

Lemma push_flush dma d c :
  at_rest c ->
  exists st c1 c', qu_push 0 d c = Done 1 c1 /\ qu_flush dma c1 = Done tt c' /\
    serving 1 (serialize (q_desc d)) dma (o_log (obs c)) st c'.
Proof.
  intros [(q & Hq & Hl) Hr Hh Ht Hf Ha]. set (x := serialize (q_desc d)).
  assert (Ep : CmdQueue_push d (req c) = rb_push x (req c)) by (by destruct d).
  pose proof (rb_push_run (req c) q x Hq) as Hp. rewrite bool_decide_eq_false_2 in Hp by lia.
  destruct Hp as (r' & Er & Hr'). pose proof (push_tail _ _ _ _ Er) as Etl.
  assert (Hw : wrap 32 (rb_head r') = rb_head r').
  { apply wrap_small. unfold in_width. rewrite (h_head _ _ Hr').
    pose proof (Z.mod_pos_bound (rb_tail r' + Z.of_nat (length (q ++ [x]))) 8192). lia. }
  set (c1 := mk_cc (mk_cmd_qp r' (resp c)) (cc_dev c)).
  set (c2 := mk_cc (cmd_qp c1) (req_write_head (rb_head r') (cc_dev c1))).
  assert (Hs : serving 2 x dma (o_log (obs c)) Queued c2).
  { split; unfold c2, c1; cbn [cmd_qp req_queue resp_queue cc_dev]; rewrite observe_write_head;
      cbn [o_head o_taken o_answered o_fetched o_log]; try done.
    exists (q ++ [x]). split; [done|]. split; [rewrite length_app; cbn; lia|]. intros _. exists q.
    split; [done|]. rewrite Ht, Etl. apply (h_head _ _ Hq). }
  destruct (turn_serving _ _ _ _ _ _ Hs) as (c3 & E3 & H3).
  assert (H3' : exists st, serving 2 x dma (o_log (obs c)) st c3) by (destruct H3 as [?|[? _]]; eexists; done).
  destruct H3' as (st & Hst). destruct (set_tail_serving _ _ _ _ _ _ Hst) as (c4 & E4 & H4).
  exists st, c1, c4. split_and!; [| |done].
  - unfold qu_push, on_req, zoom, mbind, M_bind. by rewrite Ep, Er.
  - unfold qu_flush, gets, mbind, M_bind. cbn [cmd_qp req_queue c1]. rewrite Hw.
    change (on_dev (req_write_head (rb_head r')) c1) with (Done tt c2). cbn beta iota. rewrite E3.
    by rewrite read_tail_taken.
Qed.

Lemma answered_run n x dma log c :
  serving n x dma log Answered c -> (n <= 1)%nat ->
  exists r c1 c', on_resp CmdRespQueue_try_pop c = Done (Some r) c1 /\ qu_answered dma c1 = Done tt c' /\
    at_rest c' /\ o_log (obs c') = log ++ [(x, dma)].
Proof.
  intros [(q & Hq & Hl & _) Hh Hk Hf Hg [[r Hr] Ha]] Hn.
  destruct (rb_pop_run zero_desc is_valid eq_refl (resp c) [r] Hr) as (q' & Ep & Hi).
  pose proof (pop_tail _ _ _ Ep) as Et. set (c1 := mk_cc (mk_cmd_qp (req c) q') (cc_dev c)).
  set (c2 := mk_cc (cmd_qp c1) (resp_write_tail (wrap 32 (rb_tail q')) (cc_dev c1))).
  assert (H2 : at_rest c2).
  { split; unfold c2, c1; cbn [cmd_qp req_queue resp_queue cc_dev]; rewrite ?observe_write_tail; try done.
    - exists q. split; [done|lia].
    - by apply Hk.
    - by rewrite Ha, Et. }
  destruct (rest_turn dma c2 H2) as (c3 & E3 & H3 & Hlog).
  eexists r, c1, _. split_and!.
  - unfold on_resp, zoom, CmdRespQueue_try_pop, desc_pop, mbind, M_bind. by rewrite Ep.
  - unfold qu_answered, gets, mbind, M_bind. change (on_dev _ c1) with (Done tt c2). cbn beta iota. rewrite E3.
    rewrite read_head_answered. reflexivity.
  - destruct H3 as [? ? ? ? ? ?]. split; cbn [cmd_qp req_queue resp_queue cc_dev set_head rb_tail]; try done.
    by apply inbox_set_head.
  - cbn [cc_dev]. rewrite Hlog. unfold c2, c1. cbn [cc_dev]. by rewrite observe_write_tail.
Qed.

Lemma wait_round fuel dma c c1 :
  device_runs dma c = Done tt c1 ->
  qu_wait (S fuel) dma 1 c =
    (resp ← on_resp CmdRespQueue_try_pop;
     match resp with Some _ => qu_answered dma;; qu_wait fuel dma 0 | None => qu_wait fuel dma 1 end) c1.
Proof. intros E. cbn [qu_wait Z.eqb Pos.eqb]. unfold mbind at 1, M_bind at 1. by rewrite E. Qed.

(** With enough rounds the loop ends, the command done. *)
Definition completes x dma log c : Prop :=
  exists n c', (forall fuel, (n <= fuel)%nat -> qu_wait fuel dma 1 c = Done tt c') /\
    at_rest c' /\ o_log (obs c') = log ++ [(x, dma)].

Lemma wait_answered x dma log c c1 :
  device_runs dma c = Done tt c1 -> serving 1 x dma log Answered c1 -> completes x dma log c.
Proof.
  intros E Hs. destruct (answered_run _ _ _ _ _ Hs (le_n 1)) as (r & c2 & c' & E2 & E3 & Hr & Hl).
  exists 1%nat, c'. split; [|done]. intros [|fuel] Hf; [lia|]. rewrite (wait_round _ _ _ _ E).
  unfold mbind, M_bind. rewrite E2, E3. by destruct fuel.
Qed.

Lemma wait_more x dma log c c1 :
  device_runs dma c = Done tt c1 -> inbox is_valid (resp c1) [] ->
  completes x dma log c1 -> completes x dma log c.
Proof.
  intros E Hi (n & c' & Hw & Hr). exists (S n), c'. split; [|done]. intros [|fuel] Hf; [lia|].
  rewrite (wait_round _ _ _ _ E). unfold on_resp, zoom, CmdRespQueue_try_pop, desc_pop, mbind, M_bind.
  rewrite (rb_pop_run zero_desc is_valid eq_refl _ [] Hi). unfold mret, M_ret, fmap, option_fmap, option_map.
  replace (mk_cc (mk_cmd_qp (req c1) (resp c1)) (cc_dev c1)) with c1 by (by destruct c1 as [[? ?] ?]).
  apply Hw. lia.
Qed.

(** Stages still to go. *)
Definition togo (st : stage) : nat := match st with Queued => 2 | Fetched => 1 | Answered => 0 end.

Lemma wait_run x dma log m : forall st k c,
  m = togo st -> k = delay (cc_dev c) -> serving 1 x dma log st c -> completes x dma log c.
Proof.
  induction m as [m IHm] using lt_wf_ind. intros st k.
  induction k as [k IHk] using lt_wf_ind. intros c -> -> Hs.
  destruct (turn_serving _ _ _ _ _ _ Hs) as (c1 & E & [Hn|[Hn Hd]]).
  - destruct st; [|by apply (wait_answered x dma log c c1)..].
    apply (wait_more x dma log c c1 E); [apply (sv_resp _ _ _ _ _ _ Hn)|].
    apply (IHm 1%nat ltac:(cbn; lia) Fetched _ c1 eq_refl eq_refl Hn).
  - destruct st; [| |by apply (wait_answered x dma log c c1)].
    all: apply (wait_more x dma log c c1 E); [apply (sv_resp _ _ _ _ _ _ Hn)|].
    all: apply (IHk (delay (cc_dev c1)) (Hd ltac:(done)) c1 eq_refl eq_refl Hn).
Qed.

Lemma submit_run dma d c :
  at_rest c ->
  exists n c', (forall fuel, (n <= fuel)%nat -> submit fuel dma d c = Done tt c') /\
    at_rest c' /\ o_log (obs c') = o_log (obs c) ++ [(serialize (q_desc d), dma)].
Proof.
  intros Hc. destruct (push_flush dma d c Hc) as (st & c1 & c2 & E1 & E2 & Hs).
  destruct (wait_run _ _ _ _ _ _ _ eq_refl eq_refl Hs) as (n & c' & Hw & Hr). exists n, c'. split; [|done].
  intros fuel Hf. unfold submit, mbind, M_bind. rewrite E1, E2. by apply Hw.
Qed.

End lockstep.

(** ** Lemmas: what the device reads *)

Inductive Command : Set :=
| CmMtt (u : MttUpdate) | CmPgt (u : PgtUpdate) | CmQp (u : UpdateQp) | CmNetwork (p : NetworkConfig)
| CmRawRecv (phys_addr : Z).

Definition run_command `{Bilge} `{CmdDevice Dev} (fuel : nat) (dma : list Z) (c : Command) :
    M (CommandConfigurator Dev) unit :=
  match c with
  | CmMtt u => update_mtt fuel dma u
  | CmPgt u => update_pgt fuel dma u
  | CmQp u => cmd_update_qp fuel dma u
  | CmNetwork p => set_network fuel dma p
  | CmRawRecv a => set_raw_packet_recv_buffer fuel dma a
  end.

(** A request as the device decodes it, by its operation code. *)
Definition read_command `{Bilge} (b : desc_bytes) : option Command :=
  let d := deserialize b in
  let op := head_op_code (bits_get CmdQueueReqDescQpManagementChunk3 2 (d_c3 d)) in
  if op =? operator_num UpdateMrTable then
    Some (CmMtt (mk_mtt_update (mr_mr_base_va d) (mr_mr_length d) (mr_mr_key d)
      (bits_get CmdQueueReqDescUpdateMrTableChunk0 3 (d_c0 d)) (mr_acc_flags d) (mr_pgt_offset d)))
  else if op =? operator_num UpdatePgt then
    Some (CmPgt (mk_pgt_update (pgt_dma_addr d) (pgt_start_index d) (pgt_zero_based_entry_count d)))
  else if op =? operator_num ManageQp then
    Some (CmQp (mk_update_qp (qpm_ip_addr d) (qpm_qpn d) (qpm_peer_qpn d) (qpm_rq_access_flags d)
      (qpm_qp_type d) (qpm_pmtu d) (qpm_local_udp_port d) (qpm_peer_mac_addr d)))
  else if op =? operator_num SetNetworkParam then
    Some (CmNetwork (mk_net_config (net_ip_addr d) (net_netmask d) (Some (net_gateway d))))
  else if op =? operator_num SetRawPacketReceiveMeta then Some (CmRawRecv (raw_write_base_addr d))
  else None.

(** A missing gateway is sent as address 0. *)
Definition seen (c : Command) : Command :=
  match c with
  | CmNetwork p => CmNetwork (mk_net_config (nc_ip p) (nc_mask p) (Some (default 0 (nc_gateway p))))
  | _ => c
  end.

Definition command_fits (c : Command) : Prop :=
  match c with
  | CmMtt u => in_width 64 (mu_mr_base_va u) /\ in_width 32 (mu_mr_length u) /\ in_width 32 (mu_mr_key u) /\
      in_width 32 (mu_pd_handler u) /\ in_width 8 (mu_acc_flags u) /\ in_width 17 (mu_base_pgt_offset u)
  | CmPgt u => in_width 64 (pu_dma_addr u) /\ in_width 32 (pu_pgt_offset u) /\
      in_width 32 (pu_zero_based_entry_count u)
  | CmQp u => in_width 32 (uq_ip_addr u) /\ in_width 24 (uq_qpn u) /\ in_width 24 (uq_peer_qpn u) /\
      in_width 8 (uq_rq_access_flags u) /\ in_width 4 (uq_qp_type u) /\ in_width 3 (uq_pmtu u) /\
      in_width 16 (uq_local_udp_port u) /\ in_width 48 (uq_peer_mac_addr u)
  | CmNetwork p => in_width 32 (nc_ip p) /\ in_width 32 (nc_mask p) /\ in_width 32 (default 0 (nc_gateway p))
  | CmRawRecv a => in_width 64 a
  end.

Section wire.
Context `{BilgeLaws}.

Lemma no_user_data : new_with_user_data 0 = 0.
Proof. unfold new_with_user_data. by rewrite bits_set_field. Qed.

Lemma cmd_head o : new_cmd_desc o = head_of (operator_num o) false true.
Proof. apply new_with_op_code_eq, operator_num_width. Qed.

(** The chunk of headers is a chunk of fields. *)
Lemma nested_header o :
  bits_new [32; 32] [0; bits_new CmdQueueReqDescHeaderChunk [0; head_of (operator_num o) false true]] =
  bits_new [32; 16; 16] [0; 0; head_of (operator_num o) false true].
Proof.
  pose proof (head_of_width _ false true (operator_num_width o)) as Hw.
  assert (Hp : Forall2 in_width CmdQueueReqDescHeaderChunk [0; head_of (operator_num o) false true]) by fields.
  rewrite !bits_new_pack; [|fields|done|].
  - unfold CmdQueueReqDescHeaderChunk. cbn [pack]. lia.
  - constructor; [unfold in_width; lia|]. constructor; [|constructor]. rewrite bits_new_pack by done.
    exact (pack_in_width _ _ Hp).
Qed.

(** The operation code of a command, with the first 32 bits of the chunk given. *)
Lemma cmd_op v o : in_width 32 v ->
  head_op_code (bits_get CmdQueueReqDescQpManagementChunk3 2
    (bits_new [32; 16; 16] [v; 0; head_of (operator_num o) false true])) = operator_num o.
Proof.
  intros Hv. erewrite (get_new [32; 16; 16]); [|fields|reflexivity]. apply get_head, operator_num_width.
Qed.

Lemma new_width ws vs : Forall2 in_width ws vs -> foldr Z.add 0 ws = 64 -> in_width 64 (bits_new ws vs).
Proof. intros Hv <-. rewrite bits_new_pack by done. by apply pack_in_width. Qed.

Ltac read_cmd :=
  rewrite no_user_data, cmd_head, ?nested_header;
  rewrite desc_roundtrip by
    (unfold desc_ok; cbn [d_c0 d_c1 d_c2 d_c3]; split_and!; apply new_width; first [reflexivity|fields]);
  cbn [d_c0 d_c1 d_c2 d_c3]; rewrite cmd_op by first [assumption|unfold in_width; lia];
  cbn [operator_num Z.eqb Pos.eqb].

Lemma read_mtt va len key pd acc off c3 :
  command_fits (CmMtt (mk_mtt_update va len key pd acc off)) ->
  forall d, d = mk_desc (bits_new CmdQueueReqDescUpdateMrTableChunk0 [0; off; acc; pd])
    (bits_new CmdQueueReqDescUpdateMrTableChunk1 [key; len]) (bits_new CmdQueueReqDescUpdateMrTableChunk2 [va]) c3 ->
  mk_mtt_update (mr_mr_base_va d) (mr_mr_length d) (mr_mr_key d)
    (bits_get CmdQueueReqDescUpdateMrTableChunk0 3 (d_c0 d)) (mr_acc_flags d) (mr_pgt_offset d) =
  mk_mtt_update va len key pd acc off.
Proof.
  cbn -[in_width]. intros (? & ? & ? & ? & ? & ?) d ->.
  unfold mr_mr_base_va, mr_mr_length, mr_mr_key, mr_acc_flags, mr_pgt_offset. cbn [d_c0 d_c1 d_c2 d_c3].
  by read_fields.
Qed.

(** The command codec: every command is one descriptor, which reads back as the command. *)
Lemma command_submits `{CmdDevice Dev} (c : Command) :
  command_fits c ->
  exists x, (forall fuel dma (s : CommandConfigurator Dev), run_command fuel dma c s = submit fuel dma x s) /\
    read_command (serialize (q_desc x)) = Some (seen c).
Proof.
  intros Hfit. destruct c as [[va len key pd acc off]|[a off n]|[ip qpn peer fl ty mtu port mac]|[ip mask gw]|a].
  - pose proof Hfit as Hf. cbn -[in_width] in Hf. destruct Hf as (? & ? & ? & ? & ? & Hoff). cbn [run_command seen].
    eexists (CqUpdateMrTable _). split.
    + intros. unfold update_mtt, CmdQueueReqDescUpdateMrTable_new, mbind, M_bind.
      cbn [mu_mr_base_va mu_mr_length mu_mr_key mu_pd_handler mu_acc_flags mu_base_pgt_offset].
      rewrite uint_from_fits by done. reflexivity.
    + unfold read_command. cbn [q_desc]. read_cmd. f_equal. f_equal. by eapply read_mtt.
  - cbn -[in_width] in Hfit. destruct Hfit as (? & ? & ?). cbn [run_command seen]. eexists (CqUpdatePGT _). split; [reflexivity|].
    unfold read_command, CmdQueueReqDescUpdatePGT_new. cbn [q_desc pu_dma_addr pu_pgt_offset pu_zero_based_entry_count].
    read_cmd. unfold pgt_dma_addr, pgt_start_index, pgt_zero_based_entry_count. cbn [d_c0 d_c1 d_c2 d_c3].
    by read_fields.
  - cbn -[in_width] in Hfit. destruct Hfit as (? & ? & ? & ? & ? & ? & ? & ?). cbn [run_command seen]. eexists (CqManageQP _). split; [reflexivity|].
    unfold read_command, CmdQueueReqDescQpManagement_new.
    cbn [q_desc uq_ip_addr uq_qpn uq_peer_qpn uq_rq_access_flags uq_qp_type uq_pmtu uq_local_udp_port uq_peer_mac_addr].
    read_cmd. unfold qpm_ip_addr, qpm_qpn, qpm_peer_qpn, qpm_rq_access_flags, qpm_qp_type, qpm_pmtu,
      qpm_local_udp_port, qpm_peer_mac_addr. cbn [d_c0 d_c1 d_c2 d_c3]. read_fields. by rewrite !masked_small.
  - cbn -[in_width] in Hfit. destruct Hfit as (? & ? & ?). cbn [run_command seen]. eexists (CqSetNetworkParam _). split; [reflexivity|].
    unfold read_command, CmdQueueReqDescSetNetworkParam_new. cbn [q_desc nc_ip nc_mask nc_gateway].
    read_cmd. unfold net_ip_addr, net_netmask, net_gateway. cbn [d_c0 d_c1 d_c2 d_c3]. by read_fields.
  - eexists (CqSetRawPacketReceiveMeta _). cbn -[in_width] in Hfit. split; [reflexivity|].
    unfold read_command, CmdQueueReqDescSetRawPacketReceiveMeta_new. cbn [q_desc].
    read_cmd. unfold raw_write_base_addr. cbn [d_c0 d_c1 d_c2 d_c3]. by read_fields.
Qed.

End wire.

Section commands.
Context `{BilgeLaws} {Dev : Type} `{CmdDeviceLaws Dev}.
Implicit Types c : CommandConfigurator Dev.

Lemma run_command_run dma (cm : Command) c :
  at_rest c -> command_fits cm ->
  exists n c' b, (forall fuel, (n <= fuel)%nat -> run_command fuel dma cm c = Done tt c') /\ at_rest c' /\
    read_command b = Some (seen cm) /\ o_log (observe (cc_dev c')) = o_log (observe (cc_dev c)) ++ [(b, dma)].
Proof.
  intros Hc Hf. destruct (command_submits cm Hf) as (x & Ex & Hx).
  destruct (submit_run dma x c Hc) as (n & c' & Hn & Hr & Hl). exists n, c', (serialize (q_desc x)).
  split_and!; try done. intros fuel Hle. rewrite Ex. by apply Hn.
Qed.

End commands.

(** ** Properties *)

(** C16: commands are executed one by one, in order, each with the DMA buffer its caller
    prepared.  From a state in which nothing is under way, any sequence of commands whose
    values fit their fields returns, however slowly the device takes and answers requests;
    nothing is under way again, and the device has executed exactly these commands, each
    of which it read back from its descriptor as it was given. *)
Theorem commands_executed_in_order `{BilgeLaws} {Dev} `{CmdDeviceLaws Dev}
    (cms : list (list Z * Command)) (c : CommandConfigurator Dev) :
  at_rest c -> Forall (fun p => command_fits p.2) cms ->
  exists n c' executed,
    (forall fuel, (n <= fuel)%nat -> for_each cms (fun p => run_command fuel p.1 p.2) c = Done tt c') /\
    at_rest c' /\ o_log (observe (cc_dev c')) = o_log (observe (cc_dev c)) ++ executed /\
    Forall2 (fun e p => read_command e.1 = Some (seen p.2) /\ e.2 = p.1) executed cms.
Proof.
  intros Hc Hf. revert c Hc. induction Hf as [|[dma cm] cms Hcm _ IH]; intros c Hc.
  { exists O, c, []. rewrite app_nil_r. split_and!; [done..|]. constructor. }
  destruct (run_command_run dma cm c Hc Hcm) as (n & c1 & b & Hn & Hc1 & Hb & Hl).
  destruct (IH c1 Hc1) as (m & c' & executed & Hm & Hc' & Hl' & Hx).
  exists (n `max` m)%nat, c', ((b, dma) :: executed). split_and!; [|done| |].
  - intros fuel Hle. cbn [for_each fst snd]. unfold mbind, M_bind. rewrite Hn by lia. apply Hm. lia.
  - rewrite Hl', Hl. by rewrite <- app_assoc.
  - by constructor.
Qed.

(** Empty rings before a device that works in every turn. *)
Definition fresh_configurator : CommandConfigurator CmdObs :=
  mk_cc (mk_cmd_qp (mk_ring (replicate (Z.to_nat 4096) zero_desc) 0 0) fresh_device_ring) (mk_obs 0 0 4095 [] []).

Lemma fresh_configurator_rest : at_rest fresh_configurator.
Proof.
  split; cbn [fresh_configurator cmd_qp req_queue resp_queue cc_dev observe prompt_device_view]; try done.
  - exists []. split; [|cbn; lia].
    split; cbn [slots rb_head rb_tail length]; first [apply length_replicate|lia|done].
  - exact fresh_device_ring_inbox.
Qed.

Lemma commands_executed_in_order_witness :
  exists n c' executed,
    (forall fuel, (n <= fuel)%nat ->
       for_each [([1; 2], CmPgt (mk_pgt_update 0x1000 16 15)); ([3], CmRawRecv 0x2000)]
         (fun p => run_command fuel p.1 p.2) fresh_configurator = Done tt c') /\
    o_log (observe (cc_dev c')) = executed /\ length executed = 2%nat.
Proof.
  destruct (commands_executed_in_order [([1; 2], CmPgt (mk_pgt_update 0x1000 16 15)); ([3], CmRawRecv 0x2000)]
    fresh_configurator fresh_configurator_rest) as (n & c' & executed & Hn & _ & Hl & Hx).
  { constructor; [|constructor; [|constructor]]; cbn; unfold in_width; lia. }
  exists n, c', executed. split; [exact Hn|]. split; [exact Hl|]. exact (Forall2_length Hx).
Defined.
