(* ===== verification/Tasks.v ===== *)
(** * The workers of the driver and the tasks they exchange

    rust-driver/src/workers: five threads (RDMA requests, completions, retransmission,
    acknowledgement timers, acknowledgement frames) and the handler of device reports
    each own their state and send tasks to each other over unbounded channels.  This
    file has the task types and the shape of a worker: its own state and the list of
    what it has sent. *)

From Stdlib Require Import ZArith Lia.
From stdpp Require Import base list numbers.
From S2P Require Import Prelude RustBase Psn WorkReq Qp.

#[local] Open Scope Z_scope.

(** ** rdma_utils/types.rs: the attributes of a queue pair *)

Record QpAttr : Set := mk_qp_attr {
  qa_qp_type : Z; qa_qpn : Z; qa_dqpn : Z; qa_ip : Z; qa_dqp_ip : Z; qa_mac_addr : Z;
  qa_pmtu : Z; qa_access_flags : Z; qa_send_cq : option Z; qa_recv_cq : option Z }.

Definition qp_attr_default : QpAttr := mk_qp_attr 0 0 0 0 0 0 0 0 None None.

Definition qp_params (msn : Msn) (qp : QpAttr) : QpParams :=
  mk_qp_params msn (qa_qp_type qp) (qa_qpn qp) (qa_mac_addr qp) (qa_dqpn qp) (qa_dqp_ip qp)
    (qa_pmtu qp).

(** ** workers/completion.rs: events *)

Record MessageMeta : Set := mk_meta { m_msn : Msn; m_end_psn : Psn }.

Inductive SendEventOp : Set := WriteSignaled | SendSignaled | ReadSignaled.

Record SendEvent : Set := mk_send_event {
  se_qpn : Z; se_op : SendEventOp; se_meta : MessageMeta; se_wr_id : Z }.

Inductive RecvEventOp : Set :=
| RecvOpWrite
| RecvOpWriteWithImm (imm : Z)
| RecvOpRecv
| RecvOpRecvWithImm (imm : Z)
| RecvOpReadResp
| RecvOpRecvRead.

Record RecvEvent : Set := mk_recv_event {
  re_qpn : Z; re_op : RecvEventOp; re_meta : MessageMeta; re_ack_req : bool }.

Record PostRecvEvent : Set := mk_post_recv { pr_qpn : Z; pr_wr_id : Z }.

Inductive Event : Set :=
| EvSend (e : SendEvent)
| EvRecv (e : RecvEvent)
| EvPostRecv (e : PostRecvEvent).

Inductive Completion : Set :=
| ComplSend (wr_id : Z)
| ComplRdmaWrite (wr_id : Z)
| ComplRdmaRead (wr_id : Z)
| ComplRecv (wr_id : Z) (imm : option Z)
| ComplRecvRdmaWithImm (imm : Z).

(** ** Tasks *)

Inductive CompletionTask : Set :=
| CtRegister (qpn : Z) (event : Event)
| CtAckSend (qpn : Z) (base_psn : Psn)
| CtAckRecv (qpn : Z) (base_psn : Psn).

Inductive AckTimeoutTask : Set :=
| AtNewAckReq (qpn : Z)
| AtRecvMeta (qpn : Z)
| AtAck (qpn : Z).

Inductive RdmaWriteTask : Set :=
| RwWrite (qpn : Z) (wr : SendWrRdma)
| RwAck (qpn : Z) (base_psn : Psn)
| RwNewComplete (qpn : Z) (msn : Msn).

Record SendQueueElem : Set := mk_elem { el_psn : Psn; el_wr : SendWrRdma; el_qp_param : QpParams }.

Inductive PacketRetransmitTask : Set :=
| PrNewWr (qpn : Z) (wr : SendQueueElem)
| PrRetransmitRange (qpn : Z) (psn_low psn_high : Psn)
| PrRetransmitAll (qpn : Z)
| PrAck (qpn : Z) (psn : Psn).

Inductive AckResponse : Set :=
| RespAck (qpn : Z) (msn : Msn) (last_psn : Psn)
| RespNak (qpn : Z) (base_psn ack_req_packet_psn : Psn).

(** ** Workers *)

(** What a worker sends: a task to another worker, or a chunk to the send queues. *)
Inductive effect : Set :=
| EffCompletion (t : CompletionTask)
| EffTimeout (t : AckTimeoutTask)
| EffRdma (t : RdmaWriteTask)
| EffRetransmit (t : PacketRetransmitTask)
| EffAckResp (t : AckResponse)
| EffChunk (c : WrChunk).

(** The state of a worker with what it has sent so far. *)
Record actor (S : Type) : Type := mk_actor { self : S; sent : list effect }.
Arguments mk_actor {S} self sent.
Arguments self {S} a.
Arguments sent {S} a.

Definition emit {S} (e : effect) : M (actor S) unit :=
  modify (fun a => mk_actor (self a) (sent a ++ [e])).

Definition get_self {S} : M (actor S) S := gets self.

Definition modify_self {S} (f : S -> S) : M (actor S) unit :=
  modify (fun a => mk_actor (f (self a)) (sent a)).

(** [while let Some(a) = poll() { body(a) }] *)
Fixpoint while_let {S A} (fuel : nat) (poll : M S (option A)) (body : A -> M S unit) : M S unit :=
  match fuel with
  | O => fail FuelOut
  | S fuel' =>
      o ← poll;
      match o with
      | None => mret tt
      | Some a => body a;; while_let fuel' poll body
      end
  end.

(** Run a task from a state: the new state and what was sent. *)
Definition run_task {S} (m : M (actor S) unit) (s : S) : res S (list effect) :=
  match m (mk_actor s []) with
  | Done _ a => Done (sent a) (self a)
  | Fault f => Fault f
  end.

(** A sequence of tasks, and everything sent for it. *)
Fixpoint run_tasks {S T} (process : T -> M (actor S) unit) (ts : list T) (s : S) :
    res S (list effect) :=
  match ts with
  | [] => Done [] s
  | t :: ts' =>
      match run_task (process t) s with
      | Fault f => Fault f
      | Done es s' =>
          match run_tasks process ts' s' with
          | Fault f => Fault f
          | Done es' s'' => Done (es ++ es') s''
          end
      end
  end.

Lemma run_tasks_app {S T} (process : T -> M (actor S) unit) ts1 ts2 s es s' :
  run_tasks process ts1 s = Done es s' ->
  run_tasks process (ts1 ++ ts2) s =
  match run_tasks process ts2 s' with
  | Done es' s'' => Done (es ++ es') s''
  | Fault f => Fault f
  end.
Proof.
  revert s es. induction ts1 as [|t ts1 IH]; intros s es; cbn.
  - intros [= <- <-]. by destruct (run_tasks process ts2 s).
  - destruct (run_task (process t) s) as [e1 s1|]; [|done].
    destruct (run_tasks process ts1 s1) as [e2 s2|] eqn:E; [|done]. intros [= <- <-].
    rewrite (IH _ _ E). destruct (run_tasks process ts2 s2); [|done]. by rewrite app_assoc.
Qed.

Lemma run_tasks_one {S T} (process : T -> M (actor S) unit) t s :
  run_tasks process [t] s = run_task (process t) s.
Proof. cbn. destruct (run_task (process t) s); [|done]. by rewrite app_nil_r. Qed.

Lemma emit_run {S} e (s : S) out : emit e (mk_actor s out) = Done tt (mk_actor s (out ++ [e])).
Proof. done. Qed.

Lemma when_emit_run {S} b e (s : S) out :
  when b (emit e) (mk_actor s out) = Done tt (mk_actor s (out ++ if b then [e] else [])).
Proof. destruct b; [done|]. by rewrite app_nil_r. Qed.

Lemma for_each_emit {S A} (f : A -> effect) (l : list A) (s : S) out :
  for_each l (fun a => emit (f a)) (mk_actor s out) = Done tt (mk_actor s (out ++ (f <$> l))).
Proof.
  revert out. induction l as [|a l IH]; intros out; cbn; [by rewrite app_nil_r|].
  unfold mbind, M_bind, emit, modify. cbn [self sent]. rewrite IH. by rewrite <- app_assoc.
Qed.

Lemma while_let_none {S A} n (poll : M S (option A)) body s s' :
  poll s = Done None s' -> while_let (Datatypes.S n) poll body s = Done tt s'.
Proof. intros H. cbn [while_let]. unfold mbind, M_bind. by rewrite H. Qed.

Lemma while_let_some {S A} n (poll : M S (option A)) body s s' s'' a :
  poll s = Done (Some a) s' -> body a s' = Done tt s'' ->
  while_let (Datatypes.S n) poll body s = while_let n poll body s''.
Proof. intros H1 H2. cbn [while_let]. unfold mbind, M_bind. by rewrite H1, H2. Qed.
