(* ===== verification/Completion.v ===== *)
(** * The completion worker

    rust-driver/src/workers/completion.rs: the messages of each queue pair wait in
    message order until their last packet is acknowledged; a read also waits for its
    response.  Completed messages go to the completion queue of the queue pair, the
    acknowledgement timer and the request worker are told, and messages received with
    an acknowledgement request are answered. *)

From Stdlib Require Import ZArith Lia Sorted.
From stdpp Require Import base list sets numbers.
From S2P Require Import Prelude RustBase Psn WorkReq Qp Tasks.

#[local] Open Scope Z_scope.
#[local] Open Scope cint_scope.

(** ** Messages in order *)

(** [trait EventMeta] *)
Class EventMeta (E : Type) : Type := meta : E -> MessageMeta.

#[export] Instance SendEvent_meta : EventMeta SendEvent := se_meta.
#[export] Instance RecvEvent_meta : EventMeta RecvEvent := re_meta.

Record MessageTracker (E : Type) : Type := mk_mt { mt_inner : list E; mt_base_psn : Psn }.
Arguments mk_mt {E} mt_inner mt_base_psn.
Arguments mt_inner {E} m.
Arguments mt_base_psn {E} m.

(** [iter.position(p)] *)
Fixpoint position {A} (p : A -> bool) (l : list A) : option nat :=
  match l with
  | [] => None
  | a :: l' => if p a then Some O else S <$> position p l'
  end.

(** [VecDeque::insert(i, a)], for [i] up to the length *)
Definition vec_insert {A} (i : nat) (a : A) (l : list A) : list A := take i l ++ a :: drop i l.

Definition msn_lt (a b : Msn) : bool := match msn_partial_cmp a b with Lt => true | _ => false end.

Section tracker.
Context {E : Type} `{EventMeta E}.

Definition tracker_default : MessageTracker E := mk_mt [] 0.

Definition tracker_append (event : E) (t : MessageTracker E) : MessageTracker E :=
  let inner := mt_inner t in
  let pos := default (length inner)
    (position (fun e => msn_lt (m_msn (meta e)) (m_msn (meta event))) (reverse inner)) in
  let index := (length inner - pos)%nat in
  let vacant := match inner !! index with
                | None => true
                | Some e => negb (m_msn (meta e) =? m_msn (meta event))
                end in
  if vacant then mk_mt (vec_insert index event inner) (mt_base_psn t) else t.

Definition tracker_ack (base_psn : Psn) (t : MessageTracker E) : MessageTracker E :=
  mk_mt (mt_inner t) base_psn.

Definition tracker_pop : M (MessageTracker E) (option E) := fun t =>
  match mt_inner t with
  | [] => Done None t
  | front :: rest =>
      if psn_le (m_end_psn (meta front)) (mt_base_psn t)
      then Done (Some front) (mk_mt rest (mt_base_psn t))
      else Done None t
  end.

End tracker.

(** ** Reads wait for their response *)

Record MergeQueue : Set := mk_merge {
  mg_send : list SendEvent; mg_recv : list RecvEvent; mg_recv_read_resp : list RecvEvent }.

Definition push_send (event : SendEvent) (q : MergeQueue) : MergeQueue :=
  mk_merge (mg_send q ++ [event]) (mg_recv q) (mg_recv_read_resp q).

Definition push_recv (event : RecvEvent) (q : MergeQueue) : MergeQueue :=
  match re_op event with
  | RecvOpReadResp => mk_merge (mg_send q) (mg_recv q) (mg_recv_read_resp q ++ [event])
  | _ => mk_merge (mg_send q) (mg_recv q ++ [event]) (mg_recv_read_resp q)
  end.

Definition pop_send (q : MergeQueue) : option SendEvent * MergeQueue :=
  match mg_send q with
  | [] => (None, q)
  | event :: send =>
      match se_op event with
      | WriteSignaled | SendSignaled =>
          (Some event, mk_merge send (mg_recv q) (mg_recv_read_resp q))
      | ReadSignaled =>
          match mg_recv_read_resp q with
          | [] => (None, q)
          | _ :: resp => (Some event, mk_merge send (mg_recv q) resp)
          end
      end
  end.

Definition pop_recv (q : MergeQueue) : option RecvEvent * MergeQueue :=
  match mg_recv q with
  | [] => (None, q)
  | event :: recv => (Some event, mk_merge (mg_send q) recv (mg_recv_read_resp q))
  end.

(** ** The messages of a queue pair *)

Record QueuePairMessageTracker : Type := mk_qpmt {
  qt_send : MessageTracker SendEvent; qt_recv : MessageTracker RecvEvent;
  qt_read_resp_queue : list RecvEvent; qt_post_recv_queue : list PostRecvEvent;
  qt_merge : MergeQueue }.

Definition qpmt_default : QueuePairMessageTracker :=
  mk_qpmt tracker_default tracker_default [] [] (mk_merge [] [] []).

Definition put_send s (t : QueuePairMessageTracker) :=
  mk_qpmt s (qt_recv t) (qt_read_resp_queue t) (qt_post_recv_queue t) (qt_merge t).
Definition put_recv s (t : QueuePairMessageTracker) :=
  mk_qpmt (qt_send t) s (qt_read_resp_queue t) (qt_post_recv_queue t) (qt_merge t).
Definition put_posted s (t : QueuePairMessageTracker) :=
  mk_qpmt (qt_send t) (qt_recv t) (qt_read_resp_queue t) s (qt_merge t).
Definition put_merge s (t : QueuePairMessageTracker) :=
  mk_qpmt (qt_send t) (qt_recv t) (qt_read_resp_queue t) (qt_post_recv_queue t) s.

Definition qpmt_append (event : Event) (t : QueuePairMessageTracker) : QueuePairMessageTracker :=
  match event with
  | EvSend x => put_send (tracker_append x (qt_send t)) t
  | EvRecv x => put_recv (tracker_append x (qt_recv t)) t
  | EvPostRecv x => put_posted (qt_post_recv_queue t ++ [x]) t
  end.

Definition ack_send (psn : Psn) : M QueuePairMessageTracker unit :=
  modify (fun t => put_send (tracker_ack psn (qt_send t)) t);;
  t ← get;
  while_let (S (length (mt_inner (qt_send t)))) (zoom qt_send put_send tracker_pop)
    (fun event => modify (fun t => put_merge (push_send event (qt_merge t)) t)).

Definition ack_recv (psn : Psn) : M QueuePairMessageTracker unit :=
  modify (fun t => put_recv (tracker_ack psn (qt_recv t)) t);;
  t ← get;
  while_let (S (length (mt_inner (qt_recv t)))) (zoom qt_recv put_recv tracker_pop)
    (fun event => modify (fun t => put_merge (push_recv event (qt_merge t)) t)).

Definition send_completion (event : SendEvent) : Completion :=
  match se_op event with
  | WriteSignaled => ComplRdmaWrite (se_wr_id event)
  | SendSignaled => ComplSend (se_wr_id event)
  | ReadSignaled => ComplRdmaRead (se_wr_id event)
  end.

Definition poll_send_completion :
    M QueuePairMessageTracker (option (SendEvent * Completion)) := fun t =>
  let '(event, merge) := pop_send (qt_merge t) in
  Done ((fun e => (e, send_completion e)) <$> event) (put_merge merge t).

(** [post_recv_queue.pop_back().expect("no posted recv wr")] *)
Definition pop_posted : M QueuePairMessageTracker PostRecvEvent :=
  t ← get;
  x ← demand Panic (list.last (qt_post_recv_queue t));
  modify (put_posted (removelast (qt_post_recv_queue t)));;
  mret x.

Definition poll_recv_completion :
    M QueuePairMessageTracker (option (RecvEvent * option Completion)) :=
  t ← get;
  let '(event, merge) := pop_recv (qt_merge t) in
  modify (put_merge merge);;
  match event with
  | None => mret None
  | Some event =>
      completion ← (match re_op event with
        | RecvOpWriteWithImm imm => mret (Some (ComplRecvRdmaWithImm imm))
        | RecvOpRecv => x ← pop_posted; mret (Some (ComplRecv (pr_wr_id x) None))
        | RecvOpRecvWithImm imm => x ← pop_posted; mret (Some (ComplRecv (pr_wr_id x) (Some imm)))
        | RecvOpReadResp => panic
        | RecvOpRecvRead | RecvOpWrite => mret None
        end);
      mret (Some (event, completion))
  end.

(** ** The worker *)

(** The completion queues are shared with the application, which takes from the front;
    the attributes of the queue pairs are read only here. *)
Record CompletionWorker : Type := mk_cw {
  cw_tracker_table : QpTable QueuePairMessageTracker;
  cw_cq_table : list (list Completion);
  cw_qp_table : QpTable QpAttr }.

Definition CompletionWorker_new (cqs : list (list Completion)) (qps : QpTable QpAttr) :=
  mk_cw (QpTable_new_with qpmt_default) cqs qps.

(** A method of the tracker of [qpn]. *)
Definition on_tracker {A} (qpn : Z) (m : M QueuePairMessageTracker A) :
    M (actor CompletionWorker) A := fun a =>
  match get_qp (cw_tracker_table (self a)) qpn with
  | None => Fault Panic
  | Some t =>
      match m t with
      | Fault f => Fault f
      | Done x t' =>
          Done x (mk_actor (mk_cw (replace_qp (cw_tracker_table (self a)) qpn t').2
                              (cw_cq_table (self a)) (cw_qp_table (self a))) (sent a))
      end
  end.

Definition get_cq (handle : Z) : M (actor CompletionWorker) (list Completion) :=
  w ← get_self; demand Panic (cw_cq_table w !! Z.to_nat handle).

Definition cq_push_back (handle : Z) (c : Completion) : M (actor CompletionWorker) unit :=
  modify_self (fun w => mk_cw (cw_tracker_table w)
    (alter (fun q => q ++ [c]) (Z.to_nat handle) (cw_cq_table w)) (cw_qp_table w)).

(** [while let Some((event, completion)) = tracker.poll_send_completion() { .. }] *)
Definition drain_send (qpn send_cq : Z) : M (actor CompletionWorker) unit :=
  t ← on_tracker qpn get;
  while_let (S (length (mg_send (qt_merge t)))) (on_tracker qpn poll_send_completion)
    (fun '(event, completion) =>
       cq_push_back send_cq completion;;
       emit (EffTimeout (AtAck qpn));;
       emit (EffRdma (RwNewComplete qpn (m_msn (meta event))))).

Definition drain_recv (qpn recv_cq : Z) : M (actor CompletionWorker) unit :=
  t ← on_tracker qpn get;
  while_let (S (length (mg_recv (qt_merge t)))) (on_tracker qpn poll_recv_completion)
    (fun '(event, completion) =>
       when (re_ack_req event)
         (emit (EffAckResp (RespAck qpn (m_msn (meta event)) (m_end_psn (meta event)))));;
       match completion with Some c => cq_push_back recv_cq c | None => mret tt end).

Definition completion_qpn (task : CompletionTask) : Z :=
  match task with CtRegister qpn _ | CtAckSend qpn _ | CtAckRecv qpn _ => qpn end.

Definition completion_process (task : CompletionTask) : M (actor CompletionWorker) unit :=
  let qpn := completion_qpn task in
  w ← get_self;
  _ ← demand Panic (get_qp (cw_tracker_table w) qpn);
  qp_attr ← demand Panic (get_qp (cw_qp_table w) qpn);
  match task with
  | CtRegister _ event => on_tracker qpn (modify (qpmt_append event))
  | CtAckSend _ base_psn =>
      handle ← demand Panic (qa_send_cq qp_attr);
      _ ← get_cq handle;
      on_tracker qpn (ack_send base_psn);;
      drain_send qpn handle
  | CtAckRecv _ base_psn =>
      send_handle ← demand Panic (qa_send_cq qp_attr);
      recv_handle ← demand Panic (qa_recv_cq qp_attr);
      _ ← get_cq send_handle;
      _ ← get_cq recv_handle;
      on_tracker qpn (ack_recv base_psn);;
      drain_send qpn send_handle;;
      drain_recv qpn recv_handle
  end.

(** ** Lemmas: messages in order *)

Lemma position_app_false {A} (p : A -> bool) l1 l2 :
  Forall (fun a => p a = false) l1 ->
  position p (l1 ++ l2) = (fun k => (length l1 + k)%nat) <$> position p l2.
Proof.
  induction 1 as [|a l1 Ha _ IH]; cbn; [by destruct (position p l2)|].
  rewrite Ha, IH. by destruct (position p l2).
Qed.

Lemma position_true {A} (p : A -> bool) l :
  Forall (fun a => p a = true) l -> l <> [] -> position p l = Some O.
Proof. intros [|a l' Ha _] Hn; [done|]. cbn. by rewrite Ha. Qed.

(** The first arrival with a number. *)
Fixpoint first_of {E} (n : Z) (l : list (Z * E)) : option E :=
  match l with
  | [] => None
  | (m, e) :: l' => if m =? n then Some e else first_of n l'
  end.

Lemma first_of_snoc {E} n (l : list (Z * E)) m e :
  first_of n (l ++ [(m, e)]) =
  match first_of n l with Some x => Some x | None => if m =? n then Some e else None end.
Proof. induction l as [|[k x] l IH]; cbn; [done|]. destruct (k =? n); [done|exact IH]. Qed.

Section tracker_lemmas.
Context {E : Type} `{EventMeta E}.
Implicit Types (ks : list (Z * E)) (e : E).

(** [e] is the event of the message with the unbounded number [n]. *)
Definition numbered (x : Z * E) : Prop := m_msn (meta x.2) = msn_of x.1.

Definition sorted_nums ks : Prop := StronglySorted Z.lt ks.*1.

(** [ks] is in message order and holds the first arrival of every number. *)
Definition in_order (arrivals ks : list (Z * E)) : Prop :=
  sorted_nums ks /\ forall n e, (n, e) ∈ ks <-> first_of n arrivals = Some e.

Lemma sorted_split ks n :
  sorted_nums ks ->
  exists k1 k2, ks = k1 ++ k2 /\ Forall (fun x => x.1 < n) k1 /\ Forall (fun x => n <= x.1) k2.
Proof.
  intros Hs. induction ks as [|[m e] ks IH]; [by exists [], []|].
  unfold sorted_nums in Hs. cbn in Hs. apply StronglySorted_inv in Hs as [Hs Hm].
  destruct (decide (m < n)) as [Hlt|Hge].
  - destruct (IH Hs) as (k1 & k2 & -> & H1 & H2).
    exists ((m, e) :: k1), k2. split; [done|]. split; [by constructor|done].
  - exists [], ((m, e) :: ks). split; [done|]. split; [constructor|].
    constructor; [cbn; lia|]. rewrite Forall_fmap in Hm. eapply list.Forall_impl; [exact Hm|]. cbn. lia.
Qed.

Lemma msn_of_inj n m : Z.abs (n - m) < 2 ^ 15 -> msn_of n = msn_of m -> n = m.
Proof.
  intros Hw He. unfold msn_of in He.
  pose proof (Z.div_mod n (2 ^ 16) ltac:(lia)). pose proof (Z.div_mod m (2 ^ 16) ltac:(lia)). nia.
Qed.

Lemma msn_lt_numbered x y :
  numbered x -> numbered y -> Z.abs (x.1 - y.1) < 2 ^ 15 ->
  msn_lt (m_msn (meta x.2)) (m_msn (meta y.2)) = (x.1 <? y.1).
Proof.
  intros Hx Hy Hw. unfold msn_lt. rewrite Hx, Hy, msn_cmp_of by lia. by rewrite Z.ltb_compare.
Qed.

(** The place [tracker_append] finds is the boundary between smaller and larger numbers. *)
Lemma append_index k1 k2 (x : Z * E) :
  Forall numbered (k1 ++ k2) -> numbered x ->
  Forall (fun y => Z.abs (y.1 - x.1) < 2 ^ 15) (k1 ++ k2) ->
  Forall (fun y => y.1 < x.1) k1 -> Forall (fun y => x.1 <= y.1) k2 ->
  let inner := (k1 ++ k2).*2 in
  (length inner - default (length inner)
     (position (fun e => msn_lt (m_msn (meta e)) (m_msn (meta x.2))) (reverse inner)) =
   length k1)%nat.
Proof.
  intros Hn Hx Hw H1 H2 inner. subst inner.
  rewrite Forall_app in Hn, Hw. destruct Hn as [Hn1 Hn2], Hw as [Hw1 Hw2].
  rewrite fmap_app, reverse_app, length_app, !length_fmap.
  rewrite position_app_false.
  2:{ apply Forall_reverse, Forall_fmap, list.Forall_forall. intros y Hy. cbn.
      rewrite list.Forall_forall in Hn2, Hw2, H2.
      rewrite msn_lt_numbered by auto. apply Z.ltb_ge. auto. }
  destruct k1 as [|y k1'] eqn:Ek.
  - cbn. lia.
  - rewrite position_true; [cbn; rewrite length_reverse, length_fmap; lia| |].
    + apply Forall_reverse, Forall_fmap, list.Forall_forall. intros z Hz. cbn.
      rewrite list.Forall_forall in Hn1, Hw1, H1.
      rewrite msn_lt_numbered by auto. apply Z.ltb_lt. auto.
    + intros Hr. apply (f_equal length) in Hr. rewrite length_reverse in Hr. cbn in Hr. lia.
Qed.

Lemma sorted_insert k1 k2 (x : Z * E) :
  sorted_nums (k1 ++ k2) -> Forall (fun y => y.1 < x.1) k1 -> Forall (fun y => x.1 < y.1) k2 ->
  sorted_nums (k1 ++ x :: k2).
Proof.
  unfold sorted_nums. rewrite !fmap_app, fmap_cons. intros Hs H1 H2.
  induction k1 as [|y k1 IH]; cbn in *.
  - constructor; [done|]. by apply Forall_fmap.
  - apply StronglySorted_inv in Hs as [Hs Hy]. apply Forall_cons_1 in H1 as [Hyx H1].
    constructor; [auto|]. rewrite Forall_app in Hy |- *. destruct Hy as [Hy1 Hy2].
    split; [done|]. by constructor.
Qed.

Lemma sorted_app_r {A} (R : A -> A -> Prop) l1 l2 :
  StronglySorted R (l1 ++ l2) -> StronglySorted R l2.
Proof. induction l1; [done|]. intros [Hs _]%StronglySorted_inv. auto. Qed.

(** Past the boundary every number is larger, unless the first one is the same. *)
Lemma boundary_cases k1 k2 (x : Z * E) :
  sorted_nums (k1 ++ k2) -> Forall (fun y => x.1 <= y.1) k2 ->
  Forall (fun y => x.1 < y.1) k2 \/ exists y k2', k2 = y :: k2' /\ y.1 = x.1.
Proof.
  unfold sorted_nums. rewrite fmap_app. intros Hs%sorted_app_r H2.
  destruct k2 as [|y k2]; [by left|]. cbn in Hs. apply StronglySorted_inv in Hs as [_ Hs].
  apply Forall_cons_1 in H2 as [H2 _]. destruct (decide (y.1 = x.1)) as [|Hne]; [right; eauto|].
  left. constructor; [lia|]. rewrite Forall_fmap in Hs. eapply list.Forall_impl; [exact Hs|]. cbn. lia.
Qed.

(** A number that is there already keeps its first event; a new one goes to its place. *)
Lemma append_cases ks (x : Z * E) base :
  sorted_nums ks -> Forall numbered ks -> numbered x ->
  Forall (fun y => Z.abs (y.1 - x.1) < 2 ^ 15) ks ->
  (tracker_append x.2 (mk_mt ks.*2 base) = mk_mt ks.*2 base /\ exists e, (x.1, e) ∈ ks) \/
  (exists k1 k2, ks = k1 ++ k2 /\
     tracker_append x.2 (mk_mt ks.*2 base) = mk_mt (k1 ++ x :: k2).*2 base /\
     Forall (fun y => y.1 < x.1) k1 /\ Forall (fun y => x.1 < y.1) k2).
Proof.
  intros Hs Hn Hx Hw. destruct (sorted_split ks x.1 Hs) as (k1 & k2 & -> & H1 & H2).
  unfold tracker_append. cbn [mt_inner mt_base_psn]. rewrite (append_index k1 k2 x) by done.
  assert ((k1 ++ k2).*2 !! length k1 = k2.*2 !! O) as ->.
  { rewrite fmap_app, lookup_app_r, length_fmap, Nat.sub_diag; [done|]. by rewrite length_fmap. }
  rewrite Forall_app in Hn, Hw. destruct Hn as [_ Hn2], Hw as [_ Hw2].
  destruct (boundary_cases k1 k2 x Hs H2) as [Hgt|(y & k2' & -> & Hy)].
  - right. exists k1, k2. split; [done|]. split; [|done].
    assert (match k2.*2 !! O with
            | None => true
            | Some e => negb (m_msn (meta e) =? m_msn (meta x.2))
            end = true) as ->.
    { destruct k2 as [|y k2]; [done|]. cbn. apply negb_true_iff, Z.eqb_neq. intros He.
      apply Forall_cons_1 in Hgt as [Hgt _]. apply Forall_cons_1 in Hn2 as [Hny _].
      apply Forall_cons_1 in Hw2 as [Hwy _].
      assert (y.1 = x.1) by (apply msn_of_inj; [lia|]; congruence). lia. }
    unfold vec_insert. by rewrite !fmap_app, take_app_length', drop_app_length' by (by rewrite length_fmap).
  - left. apply Forall_cons_1 in Hn2 as [Hny _]. cbn.
    assert (m_msn (meta y.2) =? m_msn (meta x.2) = true) as -> by (apply Z.eqb_eq; congruence).
    split; [done|]. exists y.2. destruct y; cbn in *. subst. set_solver.
Qed.

Lemma append_in_order arrivals ks (x : Z * E) base :
  in_order arrivals ks -> Forall numbered ks -> numbered x ->
  Forall (fun y => Z.abs (y.1 - x.1) < 2 ^ 15) ks ->
  exists ks', tracker_append x.2 (mk_mt ks.*2 base) = mk_mt ks'.*2 base /\
    in_order (arrivals ++ [x]) ks' /\ Forall numbered ks'.
Proof.
  intros [Hs Hf] Hn Hx Hw. destruct x as [m ex].
  destruct (append_cases ks (m, ex) base Hs Hn Hx Hw) as [[-> [e0 He0]]|(k1 & k2 & -> & -> & H1 & H2)].
  - exists ks. split; [done|]. split; [split; [done|]|done]. intros n e.
    rewrite Hf, first_of_snoc. destruct (first_of n arrivals) eqn:Ef; [done|].
    destruct (Z.eqb_spec m n) as [->|]; [|done]. apply Hf in He0. cbn in He0. congruence.
  - exists (k1 ++ (m, ex) :: k2). split; [done|]. split; [split|].
    + by apply sorted_insert.
    + intros n e.
      assert (Hp : (n, e) ∈ k1 ++ (m, ex) :: k2 <-> (n, e) ∈ k1 ++ k2 \/ (n, e) = (m, ex)) by set_solver.
      rewrite Hp, Hf, first_of_snoc. destruct (first_of n arrivals) eqn:Ef.
      * split; [intros [?|[= -> ->]]; [done|]|by left]. exfalso. apply Hf in Ef.
        rewrite list.Forall_forall in H1, H2. cbn in *.
        apply elem_of_app in Ef as [Ef|Ef]; [specialize (H1 _ Ef)|specialize (H2 _ Ef)]; cbn in *; lia.
      * destruct (Z.eqb_spec m n); naive_solver.
    + apply Forall_app in Hn as [Hn1 Hn2]. apply Forall_app. split; [done|]. by constructor.
Qed.

End tracker_lemmas.

(** ** Lemmas: the loops of the worker *)

(** The events an acknowledgement completes: those before the first one whose last
    packet is not acknowledged. *)
Fixpoint acked_prefix {E} `{EventMeta E} (base : Psn) (l : list E) : list E :=
  match l with
  | [] => []
  | e :: l' => if psn_le (m_end_psn (meta e)) base then e :: acked_prefix base l' else []
  end.

Definition unacked_suffix {E} `{EventMeta E} (base : Psn) (l : list E) : list E :=
  drop (length (acked_prefix base l)) l.

(** Popping a tracker inside a struct until it yields nothing more. *)
Section drain.
Context {S E : Type} `{EventMeta E} (field : S -> MessageTracker E)
  (put : MessageTracker E -> S -> S) (push : E -> S -> S).
Hypothesis field_put : forall x s, field (put x s) = x.
Hypothesis put_field : forall s, put (field s) s = s.
Hypothesis put_put : forall x y s, put x (put y s) = put x s.
Hypothesis put_push : forall x e s, put x (push e s) = push e (put x s).
Hypothesis field_push : forall e s, field (push e s) = field s.

Lemma drain_tracker l base s :
  field s = mk_mt l base ->
  while_let (Datatypes.S (length l)) (zoom field put tracker_pop) (fun e => modify (push e)) s =
  Done tt (foldl (fun s e => push e s) (put (mk_mt (unacked_suffix base l) base) s)
             (acked_prefix base l)).
Proof.
  revert s. induction l as [|e l IH]; intros s Hs.
  - rewrite (while_let_none _ _ _ _ s); [|unfold zoom; rewrite Hs; cbn; by rewrite <- Hs, put_field].
    cbn. unfold unacked_suffix. cbn. by rewrite <- Hs, put_field.
  - unfold unacked_suffix. cbn [acked_prefix length].
    destruct (psn_le (m_end_psn (meta e)) base) eqn:He.
    + rewrite (while_let_some _ _ _ _ (put (mk_mt l base) s) (push e (put (mk_mt l base) s)) e);
        [|unfold zoom; rewrite Hs; unfold tracker_pop; cbn; by rewrite He|done].
      rewrite IH by by rewrite field_push, field_put. by rewrite put_push, put_put.
    + rewrite (while_let_none _ _ _ _ s);
        [|unfold zoom; rewrite Hs; unfold tracker_pop; cbn; by rewrite He, <- Hs, put_field].
      cbn. by rewrite <- Hs, put_field.
Qed.

End drain.

Definition add_send (es : list SendEvent) (q : MergeQueue) : MergeQueue :=
  mk_merge (mg_send q ++ es) (mg_recv q) (mg_recv_read_resp q).

Definition is_resp (e : RecvEvent) : bool :=
  match re_op e with RecvOpReadResp => true | _ => false end.

Definition add_recv (es : list RecvEvent) (q : MergeQueue) : MergeQueue :=
  mk_merge (mg_send q) (mg_recv q ++ base.filter (fun e => is_resp e = false) es)
    (mg_recv_read_resp q ++ base.filter (fun e => is_resp e = true) es).

Lemma ack_send_run base t :
  ack_send base t =
  Done tt (put_merge (add_send (acked_prefix base (mt_inner (qt_send t))) (qt_merge t))
             (put_send (mk_mt (unacked_suffix base (mt_inner (qt_send t))) base) t)).
Proof.
  etransitivity; [exact (drain_tracker qt_send put_send (fun e t => put_merge (push_send e (qt_merge t)) t)
    ltac:(done) ltac:(by intros []) ltac:(done) ltac:(done) ltac:(done) _ base
    (put_send (tracker_ack base (qt_send t)) t) eq_refl)|].
  f_equal. generalize (acked_prefix base (mt_inner (qt_send t))) as es.
  generalize (unacked_suffix base (mt_inner (qt_send t))) as rest. intros rest es.
  destruct t as [sd r rr p mg]. unfold put_send, tracker_ack. cbn. clear sd. revert mg.
  induction es as [|e es IH]; intros mg; cbn.
  - unfold put_merge, add_send. destruct mg. cbn. by rewrite app_nil_r.
  - etransitivity; [exact (IH (push_send e mg))|]. unfold put_merge, add_send. cbn. by rewrite <- app_assoc.
Qed.

Lemma ack_recv_run base t :
  ack_recv base t =
  Done tt (put_merge (add_recv (acked_prefix base (mt_inner (qt_recv t))) (qt_merge t))
             (put_recv (mk_mt (unacked_suffix base (mt_inner (qt_recv t))) base) t)).
Proof.
  etransitivity; [exact (drain_tracker qt_recv put_recv (fun e t => put_merge (push_recv e (qt_merge t)) t)
    ltac:(done) ltac:(by intros []) ltac:(done) ltac:(done) ltac:(done) _ base
    (put_recv (tracker_ack base (qt_recv t)) t) eq_refl)|].
  f_equal. generalize (acked_prefix base (mt_inner (qt_recv t))) as es.
  generalize (unacked_suffix base (mt_inner (qt_recv t))) as rest. intros rest es.
  destruct t as [sd r rr p mg]. unfold put_recv, tracker_ack. cbn. clear r. revert mg.
  induction es as [|e es IH]; intros mg; cbn.
  - unfold put_merge, add_recv. destruct mg. cbn. by rewrite !app_nil_r.
  - etransitivity; [exact (IH (push_recv e mg))|]. unfold put_merge, add_recv, push_recv, is_resp.
    destruct (re_op e) eqn:Eo; cbn; rewrite <- ?app_assoc, ?filter_cons, ?Eo; done.
Qed.

(** The events a merge queue gives up: those before the first read without a response. *)
Fixpoint deliverable (sends : list SendEvent) (resps : list RecvEvent) : list SendEvent :=
  match sends with
  | [] => []
  | e :: sends' =>
      match se_op e, resps with
      | ReadSignaled, [] => []
      | ReadSignaled, _ :: resps' => e :: deliverable sends' resps'
      | _, _ => e :: deliverable sends' resps
      end
  end.

Definition is_read (e : SendEvent) : bool :=
  match se_op e with ReadSignaled => true | _ => false end.

Definition after_delivery (q : MergeQueue) : MergeQueue :=
  let d := deliverable (mg_send q) (mg_recv_read_resp q) in
  mk_merge (drop (length d) (mg_send q)) (mg_recv q)
    (drop (length (base.filter (fun e => is_read e = true) d)) (mg_recv_read_resp q)).

(** What the worker sends for each completed request. *)
Definition completed_tasks (qpn : Z) (es : list SendEvent) : list effect :=
  es ≫= fun e => [EffTimeout (AtAck qpn); EffRdma (RwNewComplete qpn (m_msn (meta e)))].

(** A worker whose tracker of [qpn] is [t]. *)
Definition with_tracker (qpn : Z) (t : QueuePairMessageTracker) (w : CompletionWorker) :=
  mk_cw (<[Z.to_nat (qpn_to_index qpn) := t]> (cw_tracker_table w)) (cw_cq_table w) (cw_qp_table w).

Definition with_completions (h : Z) (cs : list Completion) (w : CompletionWorker) :=
  mk_cw (cw_tracker_table w) (alter (fun q => q ++ cs) (Z.to_nat h) (cw_cq_table w)) (cw_qp_table w).

Lemma with_completions_nil h w : with_completions h [] w = w.
Proof.
  destruct w. unfold with_completions. cbn. f_equal. apply list_alter_id. intros. apply app_nil_r.
Qed.

Lemma with_completions_app h cs1 cs2 w :
  with_completions h cs2 (with_completions h cs1 w) = with_completions h (cs1 ++ cs2) w.
Proof.
  unfold with_completions. cbn. f_equal. apply list_eq. intros i.
  destruct (decide (i = Z.to_nat h)) as [->|]; [|by rewrite !list_lookup_alter_ne].
  rewrite !list_lookup_alter_eq. destruct (cw_cq_table w !! _); cbn; [|done]. by rewrite app_assoc.
Qed.

Lemma get_with_tracker qpn t t0 w :
  get_qp (cw_tracker_table w) qpn = Some t0 ->
  get_qp (cw_tracker_table (with_tracker qpn t w)) qpn = Some t.
Proof. unfold get_qp. cbn. intros H%lookup_lt_Some. by rewrite list_lookup_insert_eq. Qed.

Lemma with_tracker_twice qpn t1 t2 w :
  with_tracker qpn t2 (with_tracker qpn t1 w) = with_tracker qpn t2 w.
Proof. unfold with_tracker. cbn. by rewrite list_insert_insert_eq. Qed.

Lemma with_tracker_same qpn t w :
  get_qp (cw_tracker_table w) qpn = Some t -> with_tracker qpn t w = w.
Proof. destruct w. unfold with_tracker, get_qp. cbn. intros. by rewrite list_insert_id. Qed.

Lemma with_steps qpn h t1 t2 cs1 cs2 w :
  with_completions h cs2 (with_tracker qpn t2 (with_completions h cs1 (with_tracker qpn t1 w))) =
  with_completions h (cs1 ++ cs2) (with_tracker qpn t2 w).
Proof.
  change (with_tracker qpn t2 (with_completions h cs1 (with_tracker qpn t1 w)))
    with (with_completions h cs1 (with_tracker qpn t2 (with_tracker qpn t1 w))).
  by rewrite with_tracker_twice, with_completions_app.
Qed.

Lemma on_tracker_run {A} qpn (m : M QueuePairMessageTracker A) w out t x t' :
  get_qp (cw_tracker_table w) qpn = Some t -> m t = Done x t' ->
  on_tracker qpn m (mk_actor w out) = Done x (mk_actor (with_tracker qpn t' w) out).
Proof.
  intros Ht Hm. unfold on_tracker. cbn [self sent]. rewrite Ht, Hm.
  unfold replace_qp. by rewrite Ht.
Qed.

Lemma after_delivery_cons e sends recv resp :
  is_read e = false ->
  after_delivery (mk_merge (e :: sends) recv resp) = after_delivery (mk_merge sends recv resp).
Proof.
  intros He. unfold after_delivery. cbn [mg_send mg_recv mg_recv_read_resp deliverable].
  pose proof He as Ho. unfold is_read in Ho.
  destruct (se_op e) eqn:Eo; [| |done]; rewrite filter_cons_False by (by rewrite He); done.
Qed.

Lemma after_delivery_read e sends recv r resp :
  is_read e = true ->
  after_delivery (mk_merge (e :: sends) recv (r :: resp)) = after_delivery (mk_merge sends recv resp).
Proof.
  intros He. unfold after_delivery. cbn [mg_send mg_recv mg_recv_read_resp deliverable].
  pose proof He as Ho. unfold is_read in Ho.
  destruct (se_op e) eqn:Eo; [done|done|]. rewrite filter_cons_True by done. done.
Qed.

Lemma drain_send_run qpn h w out t :
  get_qp (cw_tracker_table w) qpn = Some t ->
  drain_send qpn h (mk_actor w out) =
  let d := deliverable (mg_send (qt_merge t)) (mg_recv_read_resp (qt_merge t)) in
  Done tt (mk_actor
    (with_completions h (send_completion <$> d)
       (with_tracker qpn (put_merge (after_delivery (qt_merge t)) t) w))
    (out ++ completed_tasks qpn d)).
Proof.
  intros Ht. unfold drain_send. unfold mbind at 1, M_bind at 1.
  rewrite (on_tracker_run qpn get w out t t t Ht eq_refl), with_tracker_same by done.
  destruct t as [sd rc rr p [sends recv resp]]. cbn [qt_merge mg_send mg_recv_read_resp].
  revert w out resp Ht. induction sends as [|e sends IH]; intros w out resp Ht.
  - erewrite while_let_none; [|by eapply on_tracker_run].
    cbn. by rewrite app_nil_r, with_completions_nil.
  - cbn [length deliverable]. destruct (se_op e) eqn:Eo; [| |destruct resp as [|r resp]].
    3:{ erewrite while_let_none; [|eapply on_tracker_run; [done|]; unfold poll_send_completion, pop_send; cbn; by rewrite Eo].
        unfold after_delivery. cbn. rewrite Eo. cbn. by rewrite app_nil_r, with_completions_nil. }
    all: erewrite while_let_some; [|eapply on_tracker_run; [done|]; unfold poll_send_completion, pop_send; cbn; by rewrite Eo|reflexivity].
    all: cbn [self sent].
    all: erewrite IH; [|by eapply get_with_tracker].
    1,2: rewrite after_delivery_cons by (unfold is_read; by rewrite Eo).
    3: rewrite after_delivery_read by (unfold is_read; by rewrite Eo).
    all: cbv zeta; rewrite fmap_cons; unfold completed_tasks; rewrite bind_cons, <- !app_assoc.
    all: f_equal; f_equal; apply (with_steps _ _ _ _ [_]).
Qed.

(** The completions of received messages: a send takes the receive posted last. *)
Fixpoint consume (es : list RecvEvent) (posted : list PostRecvEvent) :
    option (list (RecvEvent * option Completion) * list PostRecvEvent) :=
  match es with
  | [] => Some ([], posted)
  | e :: es' =>
      let with_posted imm :=
        x ← list.last posted;
        '(cs, rest) ← consume es' (removelast posted);
        Some ((e, Some (ComplRecv (pr_wr_id x) imm)) :: cs, rest) in
      let without c := '(cs, rest) ← consume es' posted; Some ((e, c) :: cs, rest) in
      match re_op e with
      | RecvOpWriteWithImm imm => without (Some (ComplRecvRdmaWithImm imm))
      | RecvOpRecv => with_posted None
      | RecvOpRecvWithImm imm => with_posted (Some imm)
      | RecvOpReadResp => None
      | RecvOpRecvRead | RecvOpWrite => without None
      end
  end.

Definition ack_tasks (qpn : Z) (cs : list (RecvEvent * option Completion)) : list effect :=
  cs ≫= fun '(e, _) =>
    if re_ack_req e then [EffAckResp (RespAck qpn (m_msn (meta e)) (m_end_psn (meta e)))] else [].

Definition recv_completions (cs : list (RecvEvent * option Completion)) : list Completion :=
  omap snd cs.

Lemma poll_recv_run t :
  poll_recv_completion t =
  match mg_recv (qt_merge t) with
  | [] => Done None t
  | e :: es =>
      let merge := mk_merge (mg_send (qt_merge t)) es (mg_recv_read_resp (qt_merge t)) in
      match consume [e] (qt_post_recv_queue t) with
      | Some ([c], rest) => Done (Some c) (put_posted rest (put_merge merge t))
      | _ => Fault Panic
      end
  end.
Proof.
  destruct t as [sd rc rr p [s [|e es] resp]]; [done|].
  unfold poll_recv_completion, mbind, M_bind, get, modify, pop_recv. cbn.
  destruct (re_op e); try done; unfold pop_posted, demand, mbind, M_bind, get, modify; cbn;
    destruct (list.last p); done.
Qed.

Lemma consume_cons e es posted :
  consume (e :: es) posted =
  '(c, p1) ← consume [e] posted; '(cs, p2) ← consume es p1; Some (c ++ cs, p2).
Proof.
  cbn. destruct (re_op e); cbn; try done.
  all: try (destruct (list.last posted); cbn; [|done]).
  all: match goal with |- context [consume ?l ?q] => destruct (consume l q) as [[]|] end; done.
Qed.

Lemma consume_one e posted c rest : consume [e] posted = Some (c, rest) -> exists o, c = [(e, o)].
Proof.
  cbn. destruct (re_op e); cbn; try done; try (destruct (list.last posted); cbn; [|done]);
    intros [= <- _]; eauto.
Qed.

Lemma drain_recv_run qpn h w out t :
  get_qp (cw_tracker_table w) qpn = Some t ->
  drain_recv qpn h (mk_actor w out) =
  match consume (mg_recv (qt_merge t)) (qt_post_recv_queue t) with
  | Some (cs, rest) =>
      Done tt (mk_actor
        (with_completions h (recv_completions cs)
           (with_tracker qpn (put_posted rest (put_merge (mk_merge (mg_send (qt_merge t)) []
              (mg_recv_read_resp (qt_merge t))) t)) w))
        (out ++ ack_tasks qpn cs))
  | None => Fault Panic
  end.
Proof.
  intros Ht. unfold drain_recv. unfold mbind at 1, M_bind at 1.
  rewrite (on_tracker_run qpn get w out t t t Ht eq_refl), with_tracker_same by done.
  destruct t as [sd rc rr p [sends recv resp]]. cbn [qt_merge mg_recv qt_post_recv_queue].
  revert w out p Ht. induction recv as [|e recv IH]; intros w out p Ht.
  - erewrite while_let_none; [|by eapply on_tracker_run].
    cbn. by rewrite app_nil_r, with_completions_nil.
  - rewrite consume_cons. destruct (consume [e] p) as [[c p1]|] eqn:Ec; cbn [mbind option_bind].
    + destruct (consume_one _ _ _ _ Ec) as [o ->].
      erewrite while_let_some; [|eapply on_tracker_run; [done|]; rewrite poll_recv_run; cbn [qt_merge mg_recv qt_post_recv_queue]; by rewrite Ec|].
      2:{ instantiate (1 := mk_actor (with_completions h (recv_completions [(e, o)]) _) (out ++ ack_tasks qpn [(e, o)])).
          unfold recv_completions, ack_tasks. cbn. rewrite app_nil_r.
          destruct o as [o|]; cbn; [|rewrite with_completions_nil]; by destruct (re_ack_req e); rewrite ?app_nil_r. }
      erewrite IH; [|by eapply get_with_tracker].
      destruct (consume recv p1) as [[cs p2]|]; cbn [mbind option_bind]; [|done].
      f_equal. f_equal; [|unfold ack_tasks; by rewrite bind_app, app_assoc].
      unfold recv_completions at 3. rewrite omap_app. apply with_steps.
    + cbn [length while_let]. unfold mbind, M_bind, on_tracker. cbn [self]. rewrite Ht, poll_recv_run.
      cbn [qt_merge mg_recv qt_post_recv_queue]. by rewrite Ec.
Qed.

(** A queue pair with its tracker, attributes and completion queues in place. *)
Definition qp_ready (w : CompletionWorker) (qpn : Z) (t : QueuePairMessageTracker)
    (send_cq recv_cq : Z) : Prop :=
  get_qp (cw_tracker_table w) qpn = Some t /\
  (exists attr, get_qp (cw_qp_table w) qpn = Some attr /\
     qa_send_cq attr = Some send_cq /\ qa_recv_cq attr = Some recv_cq) /\
  is_Some (cw_cq_table w !! Z.to_nat send_cq) /\ is_Some (cw_cq_table w !! Z.to_nat recv_cq).

Lemma register_run w qpn t attr ev :
  get_qp (cw_tracker_table w) qpn = Some t -> get_qp (cw_qp_table w) qpn = Some attr ->
  run_task (completion_process (CtRegister qpn ev)) w =
  Done [] (with_tracker qpn (qpmt_append ev t) w).
Proof.
  intros Ht Ha. unfold run_task, completion_process, mbind, M_bind, get_self, gets.
  cbn [self completion_qpn]. unfold demand. rewrite Ht, Ha. cbn.
  by rewrite (on_tracker_run _ _ _ _ t tt (qpmt_append ev t)).
Qed.

(** What an acknowledgement of sent packets needs of that. *)
Definition send_ready (w : CompletionWorker) (qpn : Z) (t : QueuePairMessageTracker) (send_cq : Z) : Prop :=
  get_qp (cw_tracker_table w) qpn = Some t /\
  (exists attr, get_qp (cw_qp_table w) qpn = Some attr /\ qa_send_cq attr = Some send_cq) /\
  is_Some (cw_cq_table w !! Z.to_nat send_cq).

Lemma qp_send_ready w qpn t sc rc : qp_ready w qpn t sc rc -> send_ready w qpn t sc.
Proof. intros (Ht & (attr & Ha & Hs & _) & Hq & _). split; [done|]. split; [by exists attr|done]. Qed.

(** A task that is processed found its queue pair and completion queues. *)
Lemma processed_ready t w es w' :
  run_task (completion_process t) w = Done es w' ->
  match t with
  | CtRegister qpn _ => exists tr attr, get_qp (cw_tracker_table w) qpn = Some tr /\ get_qp (cw_qp_table w) qpn = Some attr
  | CtAckSend qpn _ => exists tr sc, send_ready w qpn tr sc
  | CtAckRecv qpn _ => exists tr sc rc, qp_ready w qpn tr sc rc
  end.
Proof.
  unfold run_task, completion_process, mbind, M_bind, get_self, gets, demand, fail.
  cbn [self]. destruct (get_qp (cw_tracker_table w) (completion_qpn t)) as [tr|] eqn:Et; [|done].
  cbn. destruct (get_qp (cw_qp_table w) (completion_qpn t)) as [attr|] eqn:Ea; [|done]. cbn.
  destruct t as [qpn ev|qpn base|qpn base]; cbn in Et, Ea.
  - eauto.
  - destruct (qa_send_cq attr) as [sc|] eqn:Es; [|done]. cbn.
    unfold get_cq, mbind, M_bind, get_self, gets, demand, fail. cbn [self].
    destruct (cw_cq_table w !! Z.to_nat sc) eqn:Eq; [|done]. intros _.
    exists tr, sc. split; [done|]. split; [by exists attr|by rewrite Eq].
  - destruct (qa_send_cq attr) as [sc|] eqn:Es; [|done]. cbn.
    destruct (qa_recv_cq attr) as [rc|] eqn:Er; [|done]. cbn.
    unfold get_cq, mbind, M_bind, get_self, gets, demand, fail. cbn [self].
    destruct (cw_cq_table w !! Z.to_nat sc) eqn:Eq; [|done]. cbn.
    destruct (cw_cq_table w !! Z.to_nat rc) eqn:Eq2; [|done]. intros _.
    exists tr, sc, rc. split; [done|]. split; [by exists attr|]. by rewrite Eq, Eq2.
Qed.

Lemma ack_send_process_run w qpn t sc base :
  send_ready w qpn t sc ->
  let pending := mt_inner (qt_send t) in
  let ready := add_send (acked_prefix base pending) (qt_merge t) in
  let d := deliverable (mg_send ready) (mg_recv_read_resp ready) in
  run_task (completion_process (CtAckSend qpn base)) w =
  Done (completed_tasks qpn d)
    (with_completions sc (send_completion <$> d)
       (with_tracker qpn (put_merge (after_delivery ready)
          (put_send (mk_mt (unacked_suffix base pending) base) t)) w)).
Proof.
  intros (Ht & (attr & Ha & Hs) & [q Hq]) pending ready d.
  unfold run_task, completion_process, mbind, M_bind, get_self, get_cq, gets, demand.
  cbn [self completion_qpn]. rewrite Ht, Ha. cbn. rewrite Hs. unfold mbind, M_bind, get_self, gets. cbn.
  rewrite Hq. cbn. rewrite (on_tracker_run _ _ _ _ _ _ _ Ht (ack_send_run base t)).
  erewrite drain_send_run; [|by eapply get_with_tracker].
  cbn [sent self app]. by rewrite with_tracker_twice.
Qed.

Lemma qp_ready_step w qpn t t' h cs sc rc :
  qp_ready w qpn t sc rc ->
  qp_ready (with_completions h cs (with_tracker qpn t' w)) qpn t' sc rc.
Proof.
  intros (Ht & Ha & Hs & Hr). split; [by eapply get_with_tracker|]. split; [done|].
  unfold with_completions, with_tracker. cbn. rewrite !lookup_lt_is_Some in *. by rewrite length_alter.
Qed.

Lemma ack_recv_process_run w qpn t sc rc base :
  qp_ready w qpn t sc rc ->
  let pending := mt_inner (qt_recv t) in
  let ready := add_recv (acked_prefix base pending) (qt_merge t) in
  let d := deliverable (mg_send ready) (mg_recv_read_resp ready) in
  run_task (completion_process (CtAckRecv qpn base)) w =
  match consume (mg_recv ready) (qt_post_recv_queue t) with
  | None => Fault Panic
  | Some (cs, rest) =>
      Done (completed_tasks qpn d ++ ack_tasks qpn cs)
        (with_completions rc (recv_completions cs)
           (with_tracker qpn
              (put_posted rest (put_merge (mk_merge (mg_send (after_delivery ready)) []
                   (mg_recv_read_resp (after_delivery ready)))
                 (put_recv (mk_mt (unacked_suffix base pending) base) t)))
              (with_completions sc (send_completion <$> d) w)))
  end.
Proof.
  intros (Ht & (attr & Ha & Hs & Hr) & [q Hq] & [q2 Hq2]) pending ready d.
  unfold run_task, completion_process, mbind, M_bind, get_self, get_cq, gets, demand.
  cbn [self completion_qpn]. rewrite Ht, Ha. cbn. rewrite Hs, Hr. unfold mbind, M_bind, get_self, gets. cbn.
  rewrite Hq. cbn. rewrite Hq2. cbn.
  rewrite (on_tracker_run _ _ _ _ _ _ _ Ht (ack_recv_run base t)).
  erewrite drain_send_run; [|by eapply get_with_tracker]. cbv zeta beta iota.
  erewrite drain_recv_run; [|rewrite with_tracker_twice; by eapply get_with_tracker].
  rewrite with_tracker_twice. cbn [put_merge qt_merge qt_post_recv_queue put_recv mg_recv after_delivery].
  fold pending ready. change (mg_recv (add_recv _ _)) with (mg_recv ready).
  destruct (consume _ _) as [[cs rest]|]; [|done]. cbn [sent self app].
  f_equal.
  change (with_tracker qpn ?x (with_completions sc ?c (with_tracker qpn ?y w)))
    with (with_completions sc c (with_tracker qpn x (with_tracker qpn y w))).
  by rewrite with_tracker_twice.
Qed.

Lemma arrivals_in_order {E} `{EventMeta E} (arrivals : list (Z * E)) :
  Forall numbered arrivals ->
  (forall x y, x ∈ arrivals -> y ∈ arrivals -> Z.abs (x.1 - y.1) < 2 ^ 15) ->
  exists ks, foldl (fun t x => tracker_append x.2 t) tracker_default arrivals = mk_mt ks.*2 0 /\
    in_order arrivals ks /\ Forall numbered ks.
Proof.
  induction arrivals as [|x arrivals IH] using rev_ind; intros Hn Hw.
  - exists []. split; [done|]. split; [|constructor]. split; [constructor|].
    intros n e. cbn. by rewrite elem_of_nil.
  - apply Forall_app in Hn as [Hn Hx]. apply Forall_cons_1 in Hx as [Hx _].
    destruct IH as (ks & Hk & Ho & Hks); [done|intros; apply Hw; set_solver|].
    rewrite foldl_app, Hk. cbn [foldl]. apply append_in_order; [done..|].
    apply list.Forall_forall. intros [n e] Hy. apply Hw; [|set_solver].
    destruct Ho as [_ Ho]. apply Ho in Hy.
    enough ((n, e) ∈ arrivals) by set_solver. clear -Hy.
    induction arrivals as [|[m f] l IH]; cbn in Hy; [done|].
    destruct (Z.eqb_spec m n) as [->|]; [|apply list_elem_of_further; auto].
    injection Hy as ->. apply list_elem_of_here.
Qed.

(** With the packet numbers of the pending messages in order, an acknowledgement
    reaches exactly the messages that end at or before it. *)
Lemma acked_prefix_numbered {E} `{EventMeta E} b (ps : list Z) (l : list E) :
  Forall2 (fun p e => m_end_psn (meta e) = psn_of p /\ - 2 ^ 23 < p - b < 2 ^ 23) ps l ->
  StronglySorted Z.le ps ->
  acked_prefix (psn_of b) l = take (length (base.filter (fun p => p <= b) ps)) l /\
  unacked_suffix (psn_of b) l = drop (length (base.filter (fun p => p <= b) ps)) l.
Proof.
  intros Hf Hs.
  assert (acked_prefix (psn_of b) l = take (length (base.filter (fun p => p <= b) ps)) l /\
          (length (base.filter (fun p => (p <= b)%Z) ps) <= length l)%nat) as [Ha Hl].
  { induction Hf as [|p e ps l [Hp Hw] Hf IH]; [by split|].
    apply StronglySorted_inv in Hs as [Hs Hle]. destruct (IH Hs) as [IHa IHl]. clear IH.
    cbn [acked_prefix]. rewrite Hp, psn_cmp_range_le by lia. rewrite filter_cons.
    destruct (decide (p <= b)) as [Hb|Hb].
    - rewrite (proj2 (Z.leb_le _ _)) by done. cbn. rewrite IHa. split; [done|lia].
    - rewrite (proj2 (Z.leb_gt _ _)) by lia.
      rewrite filter_none; [cbn; lia || by split; [|lia]|].
      eapply list.Forall_impl; [exact Hle|]. cbn. lia. }
  split; [done|]. unfold unacked_suffix. rewrite Ha, length_take. f_equal. lia.
Qed.

(** Sends take the posted receives from the end. *)
Lemma consume_sends es posted :
  Forall (fun e => re_op e = RecvOpRecv) es ->
  match consume es posted with
  | Some (cs, rest) =>
      (length es <= length posted)%nat /\ cs.*1 = es /\
      recv_completions cs =
        (fun x => ComplRecv (pr_wr_id x) None) <$> take (length es) (reverse posted) /\
      rest = take (length posted - length es) posted
  | None => (length posted < length es)%nat
  end.
Proof.
  intros Hes. revert posted. induction Hes as [|e es He Hes IH]; intros posted; cbn [consume].
  - cbn [length]. rewrite Nat.sub_0_r, (take_ge posted) by done. by split; [lia|].
  - rewrite He. destruct posted as [|x posted _] using rev_ind; [cbn; lia|].
    rewrite last_snoc. cbn [mbind option_bind]. rewrite removelast_last.
    specialize (IH posted). destruct (consume es posted) as [[cs rest]|]; cbn [mbind option_bind].
    + destruct IH as (Hl & Hf & Hc & Hr). rewrite reverse_snoc, length_app. cbn [length].
      repeat split; [lia|cbn; by rewrite Hf|cbn; unfold recv_completions in Hc; by rewrite Hc|].
      rewrite Hr. replace (length posted + 1 - S (length es))%nat with (length posted - length es)%nat by lia.
      rewrite take_app_le by lia. done.
    + rewrite length_app. cbn. lia.
Qed.

(** ** Properties *)

(** C11: messages that arrive in any order, some more than once, wait in message order,
    each once: with message numbers less than 2^15 apart, the tracker holds the first
    arrival of every number, sorted by number across the wrap-around of the 16-bit
    field. *)
Theorem arrivals_sorted_once (arrivals : list (Z * RecvEvent)) :
  Forall numbered arrivals ->
  (forall x y, x ∈ arrivals -> y ∈ arrivals -> Z.abs (x.1 - y.1) < 2 ^ 15) ->
  exists ks,
    mt_inner (foldl (fun t x => tracker_append x.2 t) tracker_default arrivals) = ks.*2 /\
    StronglySorted Z.lt ks.*1 /\
    forall n e, (n, e) ∈ ks <-> first_of n arrivals = Some e.
Proof.
  intros Hn Hw. destruct (arrivals_in_order arrivals Hn Hw) as (ks & Hk & [Hs Hf] & _).
  exists ks. by rewrite Hk.
Qed.

Lemma arrivals_sorted_once_witness :
  let e n b := (n, mk_recv_event 256 RecvOpRecv (mk_meta (msn_of n) 5) b) in
  exists ks,
    mt_inner (foldl (fun t x => tracker_append x.2 t) tracker_default
                [e 65536 true; e 65534 true; e 65536 false; e 65535 true]) = ks.*2 /\
    StronglySorted Z.lt ks.*1.
Proof.
  intros e.
  destruct (arrivals_sorted_once [e 65536 true; e 65534 true; e 65536 false; e 65535 true])
    as (ks & Hk & Hs & _).
  - by repeat constructor.
  - intros x y Hx Hy.
    assert (Hr : forall z, z ∈ [e 65536 true; e 65534 true; e 65536 false; e 65535 true] ->
                 65534 <= z.1 <= 65536) by (intros z Hz; set_unfold; naive_solver lia).
    apply Hr in Hx, Hy. lia.
  - exists ks. exact (conj Hk Hs).
Defined.

(** C12: an acknowledgement up to packet [b] completes exactly the sends that end at or
    before [b], in message order behind the sends already waiting for a read response,
    and holds back from the first read whose response has not come.  Each completed
    send adds its completion to the send queue of the queue pair, takes one pending
    acknowledgement off its timer and releases its message number; nothing else is
    sent and no other queue pair or completion queue changes. *)
Theorem ack_completes_sends w qpn t sc rc b ps :
  qp_ready w qpn t sc rc ->
  Forall2 (fun p e => m_end_psn (se_meta e) = psn_of p /\ - 2 ^ 23 < p - b < 2 ^ 23) ps
    (mt_inner (qt_send t)) ->
  StronglySorted Z.le ps ->
  let pending := mt_inner (qt_send t) in
  let k := length (base.filter (fun p => p <= b) ps) in
  let ready := add_send (take k pending) (qt_merge t) in
  let d := deliverable (mg_send ready) (mg_recv_read_resp ready) in
  run_task (completion_process (CtAckSend qpn (psn_of b))) w =
    Done (completed_tasks qpn d)
      (with_completions sc (send_completion <$> d)
        (with_tracker qpn
          (put_merge (after_delivery ready)
            (put_send (mk_mt (drop k pending) (psn_of b)) t)) w)) /\
  (Forall (fun e => is_read e = false) (mg_send ready) -> d = mg_send ready).
Proof.
  intros Hw Hf Hs pending k ready d.
  destruct (@acked_prefix_numbered SendEvent SendEvent_meta b ps _ Hf Hs) as [Ha Hu].
  split.
  - pose proof (ack_send_process_run w qpn t sc (psn_of b) (qp_send_ready _ _ _ _ _ Hw)) as HR. cbv zeta in HR.
    by rewrite Ha, Hu in HR.
  - subst d. generalize (mg_recv_read_resp ready) as r. intros r.
    induction 1 as [|e l He _ IH]; [done|]. cbn. unfold is_read in He.
    destruct (se_op e); [| |done]; by rewrite IH.
Qed.

Lemma ack_completes_sends_witness :
  let e n op := mk_send_event 256 op (mk_meta n n) (100 + n) in
  let t := mk_qpmt (mk_mt [e 1 WriteSignaled; e 2 ReadSignaled; e 3 SendSignaled] 0)
             tracker_default [] [] (mk_merge [] [] []) in
  let w := mk_cw [qpmt_default; t] [[]; []]
             [qp_attr_default; mk_qp_attr 2 256 0 0 0 0 1 0 (Some 0) (Some 1)] in
  exists w', run_task (completion_process (CtAckSend 256 (psn_of 2))) w =
    Done [EffTimeout (AtAck 256); EffRdma (RwNewComplete 256 1)] w'.
Proof.
  intros e t w. eexists.
  etransitivity; [refine (proj1 (ack_completes_sends w 256 t 0 1 2 [1; 2; 3] _ _ _))|].
  - split; [done|]. split; [eexists; split; [done|by split]|]. by split; eexists.
  - repeat constructor; lia.
  - repeat constructor; lia.
  - reflexivity.
Defined.

(** Posted receives complete in the reverse of the order they were posted.  When
    the acknowledged messages are sends, the completions carry the receives posted
    last first, so with as many receives posted as messages received every message
    but the middle one reports a buffer that another message fills; with fewer the
    worker panics. *)
Theorem receives_complete_last_posted_first w qpn t sc rc base :
  qp_ready w qpn t sc rc ->
  qt_merge t = mk_merge [] [] [] ->
  Forall (fun e => re_op e = RecvOpRecv) (acked_prefix base (mt_inner (qt_recv t))) ->
  let n := length (acked_prefix base (mt_inner (qt_recv t))) in
  let posted := qt_post_recv_queue t in
  match run_task (completion_process (CtAckRecv qpn base)) w with
  | Done _ w' =>
      (n <= length posted)%nat /\
      cw_cq_table w' = alter (fun q => q ++ ((fun x => ComplRecv (pr_wr_id x) None) <$> take n (reverse posted)))
                         (Z.to_nat rc) (cw_cq_table w)
  | Fault f => f = Panic /\ (length posted < n)%nat
  end.
Proof.
  intros Hw Hm Hr n posted. rewrite (ack_recv_process_run w qpn t sc rc base Hw).
  rewrite Hm. unfold add_recv. cbn [mg_recv mg_send app].
  rewrite filter_all by (eapply list.Forall_impl; [exact Hr|]; unfold is_resp; by intros e ->). pose proof (consume_sends _ posted Hr) as Hc. fold posted n in Hc |- *.
  destruct (consume _ posted) as [[cs rest]|]; [|done].
  destruct Hc as (Hl & _ & Hc & _). split; [done|]. cbn [deliverable fmap list_fmap].
  rewrite with_completions_nil. unfold with_completions, with_tracker. cbn. by rewrite Hc.
Qed.

Lemma receives_complete_last_posted_first_witness :
  let e n := mk_recv_event 256 RecvOpRecv (mk_meta n n) false in
  let t := mk_qpmt tracker_default (mk_mt [e 1; e 2] 0) []
             [mk_post_recv 256 11; mk_post_recv 256 12] (mk_merge [] [] []) in
  let w := mk_cw [qpmt_default; t] [[]; []]
             [qp_attr_default; mk_qp_attr 2 256 0 0 0 0 1 0 (Some 0) (Some 1)] in
  match run_task (completion_process (CtAckRecv 256 2)) w with
  | Done _ w' => cw_cq_table w' = [[]; [ComplRecv 12 None; ComplRecv 11 None]]
  | Fault _ => False
  end.
Proof.
  intros e t w.
  pose proof (receives_complete_last_posted_first w 256 t 0 1 2) as HT.
  destruct (run_task (completion_process (CtAckRecv 256 2)) w) as [x w'|f] eqn:Ew.
  - apply HT.
    + split; [done|]. split; [eexists; split; [done|by split]|]. by split; eexists.
    + done.
    + by repeat constructor.
  - vm_compute in Ew. discriminate.
Defined.
