(* ===== verification/RdmaWorker.v ===== *)
(** * The request worker

    rust-driver/src/workers/rdma.rs: a posted write, send, read or read response
    reserves its message and packet numbers, registers its completion and its
    acknowledgement timer when it is signaled, is recorded for retransmission and is
    handed to the send queues chunk by chunk. *)

From Stdlib Require Import ZArith Lia.
From stdpp Require Import base list numbers.
From S2P Require Import Prelude RustBase Psn WorkReq Qp Fragmenter Tasks.

#[local] Open Scope Z_scope.
#[local] Open Scope cint_scope.

(** The [io::ErrorKind]s the worker returns. *)
Inductive ErrorKind : Set := KindInvalidInput | KindUnsupported.

Inductive io_result : Set :=
| IoOk
| IoErr (e : ErrorKind).

Record RdmaWriteWorker : Type := mk_rw {
  rw_sq_ctx_table : QpTable SendQueueContext;
  rw_qp_attr_table : QpTable QpAttr }.

Definition RdmaWriteWorker_new (qps : QpTable QpAttr) : RdmaWriteWorker :=
  mk_rw (QpTable_new_with sq_default) qps.

Section code.
Context `{Profile}.

(** Everything a fragmenter yields for a request. *)
Definition all_pieces {S} (retry : bool) (wr : SendWrRdma) (q : QpParams) (psn : Psn) :
    M S (list WrChunk) :=
  it ← iter_of retry wr q psn;
  match all_chunks it with
  | Done l _ => mret l
  | Fault f => fail f
  end.

(** [sq_ctx_table.get_qp_mut(qpn).and_then(|ctx| ctx.next_wr(num_psn))] *)
Definition reserve (qpn num_psn : Z) : M (actor RdmaWriteWorker) (option (Msn * Psn)) :=
  w ← get_self;
  let '(r, table) := map_qp_mut (rw_sq_ctx_table w) qpn (next_wr num_psn) in
  modify_self (fun w => mk_rw table (rw_qp_attr_table w));;
  mret (r ≫= id).

Definition signaled (wr : SendWrRdma) : bool :=
  negb (Z.land (b_send_flags (r_base wr)) IBV_SEND_SIGNALED =? 0).

Definition send_event_op (opcode : WorkReqOpCode) : option SendEventOp :=
  match opcode with
  | OpRdmaWrite | OpRdmaWriteWithImm => Some WriteSignaled
  | OpSend | OpSendWithImm => Some SendSignaled
  | OpRdmaRead => Some ReadSignaled
  | _ => None
  end.

Definition register (qpn : Z) (op : SendEventOp) (msn : Msn) (end_psn : Psn) (wr_id : Z) : effect :=
  EffCompletion (CtRegister qpn (EvSend (mk_send_event qpn op (mk_meta msn end_psn) wr_id))).

Definition read_chunk (wr : SendWrRdma) (q : QpParams) (psn : Psn) : WrChunk :=
  let b := r_base wr in
  build (set_chunk_meta
    (set_ibv_params (set_qp_params (new_with_opcode OpRdmaRead) q) (wrap 8 (b_send_flags b))
       (rkey wr) (b_length b) (b_lkey b) (b_imm_data b))
    psn (b_laddr b) (raddr wr) (b_length b) PosOnly).

Definition rdma_read (qpn : Z) (wr : SendWrRdma) : M (actor RdmaWriteWorker) io_result :=
  w ← get_self;
  match get_qp (rw_qp_attr_table w) qpn with
  | None => mret (IoErr KindInvalidInput)
  | Some qp =>
      let num_psn := 1 in
      r ← reserve qpn num_psn;
      match r with
      | None => mret (IoErr KindInvalidInput)
      | Some (msn, psn) =>
          let end_psn := psn_add psn num_psn in
          let chunk := read_chunk wr (qp_params msn qp) psn in
          let finish :=
            when (signaled wr) (emit (EffTimeout (AtNewAckReq qpn)));;
            emit (EffRetransmit (PrNewWr qpn (mk_elem psn wr (qp_params msn qp))));;
            emit (EffChunk chunk);;
            mret IoOk in
          if signaled wr then
            match qa_send_cq qp with
            | None => mret (IoErr KindInvalidInput)
            | Some _ =>
                emit (register qpn ReadSignaled msn end_psn (b_wr_id (r_base wr)));;
                finish
            end
          else finish
      end
  end.

Definition write (qpn : Z) (wr : SendWrRdma) : M (actor RdmaWriteWorker) io_result :=
  w ← get_self;
  match get_qp (rw_qp_attr_table w) qpn with
  | None => mret (IoErr KindInvalidInput)
  | Some qp =>
      match num_psn (qa_pmtu qp) (raddr wr) (b_length (r_base wr)) with
      | None => mret (IoErr KindInvalidInput)
      | Some num_psn =>
          r ← reserve qpn num_psn;
          match r with
          | None => mret (IoErr KindInvalidInput)
          | Some (msn, psn) =>
              let end_psn := psn_add psn num_psn in
              let q := qp_params msn qp in
              let send_all :=
                emit (EffRetransmit (PrNewWr qpn (mk_elem psn wr q)));;
                chunks ← all_pieces false wr q psn;
                for_each chunks (fun chunk => emit (EffChunk chunk));;
                mret IoOk in
              if signaled wr then
                match qa_send_cq qp, send_event_op (b_opcode (r_base wr)) with
                | None, _ => mret (IoErr KindInvalidInput)
                | Some _, None => mret (IoErr KindUnsupported)
                | Some _, Some op =>
                    emit (register qpn op msn end_psn (b_wr_id (r_base wr)));;
                    packets ← all_pieces true wr q psn;
                    match list.last packets with
                    | None => mret IoOk
                    | Some _ => emit (EffTimeout (AtNewAckReq qpn));; send_all
                    end
                end
              else send_all
          end
      end
  end.

(** [sq_ctx_table.get_qp_mut(qpn).expect("invalid qpn")] *)
Definition update_ctx (qpn : Z) (f : SendQueueContext -> SendQueueContext) :
    M (actor RdmaWriteWorker) unit :=
  w ← get_self;
  let '(r, table) := map_qp_mut (rw_sq_ctx_table w) qpn (fun c => (tt, f c)) in
  _ ← demand Panic r;
  modify_self (fun w => mk_rw table (rw_qp_attr_table w)).

Definition rdma_process (task : RdmaWriteTask) : M (actor RdmaWriteWorker) unit :=
  match task with
  | RwWrite qpn wr =>
      match b_opcode (r_base wr) with
      | OpRdmaWrite | OpRdmaWriteWithImm | OpSend | OpSendWithImm | OpRdmaReadResp =>
          _resp ← write qpn wr; mret tt
      | OpRdmaRead => _resp ← rdma_read qpn wr; mret tt
      | _ => panic
      end
  | RwAck qpn base_psn => update_ctx qpn (update_psn_acked base_psn)
  | RwNewComplete qpn msn => update_ctx qpn (update_msn_acked msn)
  end.

End code.

(** ** Lemmas *)

(** The worker with a new send context for [qpn]. *)
Definition with_ctx (qpn : Z) (c : SendQueueContext) (w : RdmaWriteWorker) : RdmaWriteWorker :=
  mk_rw (<[Z.to_nat (qpn_to_index qpn) := c]> (rw_sq_ctx_table w)) (rw_qp_attr_table w).

Lemma get_with_ctx qpn c c0 w :
  get_qp (rw_sq_ctx_table w) qpn = Some c0 ->
  get_qp (rw_sq_ctx_table (with_ctx qpn c w)) qpn = Some c.
Proof. unfold get_qp. cbn. intros H%lookup_lt_Some. by rewrite list_lookup_insert_eq. Qed.

Lemma with_ctx_same qpn c w : get_qp (rw_sq_ctx_table w) qpn = Some c -> with_ctx qpn c w = w.
Proof. destruct w. unfold with_ctx, get_qp. cbn. intros. by rewrite list_insert_id. Qed.

Lemma with_ctx_twice qpn c1 c2 w : with_ctx qpn c2 (with_ctx qpn c1 w) = with_ctx qpn c2 w.
Proof. unfold with_ctx. cbn. by rewrite list_insert_insert_eq. Qed.

Section lemmas.
Context `{Profile}.

Lemma reserve_run qpn n w out c :
  get_qp (rw_sq_ctx_table w) qpn = Some c ->
  reserve qpn n (mk_actor w out) =
  Done (next_wr n c).1 (mk_actor (with_ctx qpn (next_wr n c).2 w) out).
Proof.
  intros Hc. unfold reserve, mbind, M_bind, get_self, gets. cbn [self].
  unfold map_qp_mut. rewrite Hc. cbn. by destruct (next_wr n c) as [[]].
Qed.

Lemma update_ctx_run qpn f w c :
  get_qp (rw_sq_ctx_table w) qpn = Some c ->
  run_task (update_ctx qpn f) w = Done [] (with_ctx qpn (f c) w).
Proof.
  intros Hc. unfold run_task, update_ctx, mbind, M_bind, get_self, gets. cbn [self].
  unfold map_qp_mut. by rewrite Hc.
Qed.

(** The pieces of a request: a tiling, and a chunk for each tile. *)
Definition pieces_of (retry : bool) (wr : SendWrRdma) (q : QpParams) (k base : Z)
    (chunks : list WrChunk) : Prop :=
  exists frags,
    tiles (seg_of retry (2 ^ k)) k (raddr wr + b_length (r_base wr)) (raddr wr) frags /\
    Forall2 (chunk_for wr q retry (2 ^ k) base) frags chunks /\
    Z.of_nat (length chunks) =
      pieces_left (seg_of retry (2 ^ k)) k (raddr wr + b_length (r_base wr)) (raddr wr).

Lemma all_pieces_run {S} (s : S) retry wr q k base :
  convert_ibv_mtu_to_u16 (qpp_pmtu q) = Some (2 ^ k) -> 8 <= k <= 12 -> request_ok wr ->
  exists chunks, all_pieces retry wr q (psn_of base) s = Done chunks s /\
    pieces_of retry wr q k base chunks.
Proof.
  intros Hp Hk Hok. destruct (all_chunks_run s retry wr q k base Hp Hk Hok)
    as (it & s' & fr & ch & H1 & H2 & H3 & _ & H4 & H5).
  exists ch. split; [|by exists fr].
  unfold all_pieces, mbind, M_bind. by rewrite H1, H2.
Qed.

(** The fragmenters do not touch the state of the worker that runs them: [m] does in any
    state what [m0] does without one. *)
Definition stateless {S A} (m : M S A) (m0 : M unit A) : Prop :=
  forall s, m s = match m0 tt with Done a _ => Done a s | Fault f => Fault f end.

Lemma stateless_bind {S A B} (m : M S A) m0 (k : A -> M S B) k0 :
  stateless m m0 -> (forall a, stateless (k a) (k0 a)) -> stateless (m ≫= k) (m0 ≫= k0).
Proof.
  intros Hm Hk s. unfold mbind, M_bind. rewrite Hm. destruct (m0 tt) as [a []|]; [apply Hk|done].
Qed.

Lemma stateless_base {S A} (m : forall S, M S A) :
  (exists a, forall S s, m S s = Done a s) \/ (exists f, forall S s, m S s = Fault f) ->
  stateless (m S) (m unit).
Proof. intros [[a Ha]|[f Hf]] s; [by rewrite !Ha|by rewrite !Hf]. Qed.

Lemma stateless_uadd {S} w x y : stateless (uadd (S := S) w x y) (uadd w x y).
Proof. apply (stateless_base (fun S => uadd w x y)). unfold uadd. repeat case_match; [left|right|left]; by eexists. Qed.

Lemma stateless_usub {S} w x y : stateless (usub (S := S) w x y) (usub w x y).
Proof. apply (stateless_base (fun S => usub w x y)). unfold usub. repeat case_match; [left|right|left]; by eexists. Qed.

Lemma stateless_demand {S A} f (o : option A) : stateless (demand (S := S) f o) (demand f o).
Proof. apply (stateless_base (fun S => demand f o)). destruct o; [left|right]; by eexists. Qed.

Lemma all_pieces_stateless {S} retry wr q psn :
  stateless (all_pieces (S := S) retry wr q psn) (all_pieces retry wr q psn).
Proof.
  assert (Hci : forall size r, stateless (S := S) (chunk_into_iter wr q psn size r) (chunk_into_iter wr q psn size r)).
  { intros size r. unfold chunk_into_iter, Fragmenter_new, into_iter, num_segments, cut_addr.
    repeat (apply stateless_bind; [|intros]); try case_match;
      repeat (apply stateless_bind; [|intros]);
      auto using stateless_demand, stateless_uadd, stateless_usub; done. }
  unfold all_pieces, iter_of, wr_packet_iter, wr_chunk_iter.
  apply stateless_bind; [|intros a; by destruct (all_chunks a)].
  destruct retry; [|apply Hci]. apply stateless_bind; [apply stateless_demand|auto].
Qed.

(** No pieces exactly when there is nothing to send. *)
Lemma pieces_of_nil retry wr q k base chunks :
  8 <= k <= 12 -> request_ok wr -> pieces_of retry wr q k base chunks ->
  chunks = [] <-> b_length (r_base wr) = 0.
Proof.
  intros Hk Hok (fr & _ & _ & Hn). destruct (seg_of_ok retry k Hk) as [Hs Hd].
  pose proof (rq_length _ Hok) as Hl. unfold in_width in Hl. split.
  - intros ->. destruct (decide (b_length (r_base wr) = 0)); [done|].
    assert (0 < pieces_left (seg_of retry (2 ^ k)) k (raddr wr + b_length (r_base wr)) (raddr wr))
      by (apply pieces_left_pos; lia).
    cbn in Hn. lia.
  - intros Hz. apply length_zero_iff_nil. unfold pieces_left in Hn.
    rewrite (proj2 (Z.leb_le _ _)) in Hn by lia. lia.
Qed.

Definition is_write_op (op : WorkReqOpCode) : bool :=
  match op with
  | OpRdmaWrite | OpRdmaWriteWithImm | OpSend | OpSendWithImm | OpRdmaReadResp => true
  | _ => false
  end.

Lemma process_write qpn wr w :
  is_write_op (b_opcode (r_base wr)) = true ->
  run_task (rdma_process (RwWrite qpn wr)) w =
  match write qpn wr (mk_actor w []) with
  | Done _ a => Done (sent a) (self a)
  | Fault f => Fault f
  end.
Proof.
  intros Ho. unfold run_task, rdma_process.
  destruct (b_opcode (r_base wr)); try done; unfold mbind, M_bind;
    by destruct (write qpn wr (mk_actor w [])).
Qed.

(** A queue pair the worker can serve, and the request it is given. *)
Record can_write (w : RdmaWriteWorker) (qpn : Z) (qp : QpAttr) (c : SendQueueContext)
    (wr : SendWrRdma) (k n : Z) : Prop := {
  cw_attr : get_qp (rw_qp_attr_table w) qpn = Some qp;
  cw_ctx : get_qp (rw_sq_ctx_table w) qpn = Some c;
  cw_mtu : convert_ibv_mtu_to_u16 (qa_pmtu qp) = Some (2 ^ k);
  cw_k : 8 <= k <= 12;
  cw_op : is_write_op (b_opcode (r_base wr)) = true;
  cw_ok : request_ok wr;
  cw_num : num_psn (qa_pmtu qp) (raddr wr) (b_length (r_base wr)) = Some n }.

(** What a request registers when it is signaled. *)
Definition signal_effects (qpn : Z) (op : SendEventOp) (msn : Msn) (end_psn : Psn) (wr_id : Z) :
    list effect :=
  [register qpn op msn end_psn wr_id; EffTimeout (AtNewAckReq qpn)].

Lemma write_unsignaled w qpn qp c wr k n m p c' :
  can_write w qpn qp c wr k n -> signaled wr = false ->
  next_wr n c = (Some (m, psn_of p), c') ->
  exists chunks,
    run_task (rdma_process (RwWrite qpn wr)) w =
      Done (EffRetransmit (PrNewWr qpn (mk_elem (psn_of p) wr (qp_params m qp))) ::
            (EffChunk <$> chunks)) (with_ctx qpn c' w) /\
    pieces_of false wr (qp_params m qp) k p chunks.
Proof.
  intros [Ha Hc Hm Hk Ho Hok Hn] Hs Hw. rewrite (process_write qpn wr w Ho).
  unfold write, mbind, M_bind, get_self, gets. cbn [self]. rewrite Ha, Hn.
  rewrite (reserve_run _ _ _ _ c Hc), Hw. cbn [fst snd]. rewrite Hs.
  unfold emit, modify. cbn [self sent app].
  destruct (all_pieces_run (mk_actor (with_ctx qpn c' w)
    [EffRetransmit (PrNewWr qpn (mk_elem (psn_of p) wr (qp_params m qp)))])
    false wr (qp_params m qp) k p Hm Hk Hok) as (chunks & Hrun & Hp).
  exists chunks. split; [|done]. rewrite Hrun.
  pose proof (for_each_emit EffChunk chunks (with_ctx qpn c' w)
    [EffRetransmit (PrNewWr qpn (mk_elem (psn_of p) wr (qp_params m qp)))]) as He.
  unfold emit, modify in He. by rewrite He.
Qed.

Lemma write_signaled w qpn qp c wr k n m p c' cq op :
  can_write w qpn qp c wr k n -> signaled wr = true -> qa_send_cq qp = Some cq ->
  send_event_op (b_opcode (r_base wr)) = Some op ->
  next_wr n c = (Some (m, psn_of p), c') ->
  exists chunks,
    run_task (rdma_process (RwWrite qpn wr)) w =
      Done (if b_length (r_base wr) =? 0
            then [register qpn op m (psn_of (p + n)) (b_wr_id (r_base wr))]
            else signal_effects qpn op m (psn_of (p + n)) (b_wr_id (r_base wr)) ++
              EffRetransmit (PrNewWr qpn (mk_elem (psn_of p) wr (qp_params m qp))) ::
              (EffChunk <$> chunks)) (with_ctx qpn c' w) /\
    pieces_of false wr (qp_params m qp) k p chunks.
Proof.
  intros [Ha Hc Hm Hk Ho Hok Hn] Hs Hcq Hop Hw. rewrite (process_write qpn wr w Ho).
  unfold write, mbind, M_bind, get_self, gets. cbn [self]. rewrite Ha, Hn.
  rewrite (reserve_run _ _ _ _ c Hc), Hw. cbn [fst snd]. rewrite Hs, Hcq, Hop, psn_add_of.
  unfold emit, modify. cbn [self sent app].
  set (reg := register qpn op m (psn_of (p + n)) (b_wr_id (r_base wr))).
  destruct (all_pieces_run (mk_actor (with_ctx qpn c' w) [reg])
    true wr (qp_params m qp) k p Hm Hk Hok) as (packets & Hrun & Hp). rewrite Hrun.
  set (out := [reg; EffTimeout (AtNewAckReq qpn);
               EffRetransmit (PrNewWr qpn (mk_elem (psn_of p) wr (qp_params m qp)))]).
  destruct (all_pieces_run (mk_actor (with_ctx qpn c' w) out)
    false wr (qp_params m qp) k p Hm Hk Hok) as (chunks & Hrun2 & Hp2).
  exists chunks. split; [|done]. pose proof (pieces_of_nil _ _ _ _ _ _ Hk Hok Hp) as Hz.
  destruct (Z.eqb_spec (b_length (r_base wr)) 0) as [El|El].
  - by rewrite (proj2 Hz El).
  - destruct (list.last packets) eqn:Elast; [|apply last_None in Elast; tauto].
    cbn [self sent app]. fold out. rewrite Hrun2.
    pose proof (for_each_emit EffChunk chunks (with_ctx qpn c' w) out) as He.
    unfold emit, modify in He. by rewrite He.
Qed.

(** A request that finds the window full leaves no trace. *)
Lemma write_rejected w qpn qp c wr k n :
  can_write w qpn qp c wr k n -> next_wr n c = (None, c) ->
  run_task (rdma_process (RwWrite qpn wr)) w = Done [] w.
Proof.
  intros [Ha Hc Hm Hk Ho Hok Hn] Hw. rewrite (process_write qpn wr w Ho).
  unfold write, mbind, M_bind, get_self, gets. cbn [self]. rewrite Ha, Hn.
  rewrite (reserve_run _ _ _ _ c Hc), Hw. cbn [fst snd self sent mret M_ret].
  by rewrite with_ctx_same.
Qed.

End lemmas.

Lemma half_msn_space : Z.of_nat (2 ^ 15) = 2 ^ 15.
Proof. by rewrite Nat2Z.inj_pow. Qed.

Section exhaustion.
Context `{Profile}.
Context (qpn : Z) (qp : QpAttr) (wr : SendWrRdma) (k n : Z).

(** The [i]-th write and the acknowledgement of all its packets. *)
Definition write_and_ack (i : nat) : list RdmaWriteTask :=
  [RwWrite qpn wr; RwAck qpn (psn_of (n * (Z.of_nat i + 1)))].

Lemma writes_and_acks w j :
  can_write w qpn qp sq_default wr k n -> signaled wr = false ->
  0 <= n <= 2 ^ 23 -> (j <= 2 ^ 15)%nat ->
  exists es,
    run_tasks rdma_process (seq 0 j ≫= write_and_ack) w =
    Done es (with_ctx qpn (sq_of (n * Z.of_nat j) (n * Z.of_nat j) (Z.of_nat j) 0) w).
Proof.
  intros Hcw Hs Hn. pose proof Hcw as [Ha Hc Hm Hk Ho Hok Hnum].
  induction j as [|j IH]; intros Hj.
  - exists []. cbn. rewrite Z.mul_0_r. change (sq_of 0 0 0 0) with sq_default. by rewrite with_ctx_same.
  - destruct IH as [es IH]; [lia|]. rewrite seq_S, bind_app. cbn [Nat.add].
    set (wj := with_ctx qpn _ w) in IH.
    assert (Hcj : get_qp (rw_sq_ctx_table wj) qpn =
      Some (sq_of (n * Z.of_nat j) (n * Z.of_nat j) (Z.of_nat j) 0)) by (by eapply get_with_ctx).
    assert (Hjz : (Z.of_nat j < 2 ^ 15)%Z) by (rewrite <- half_msn_space; lia).
    destruct (write_unsignaled wj qpn qp (sq_of (n * Z.of_nat j) (n * Z.of_nat j) (Z.of_nat j) 0)
      wr k n (msn_of (Z.of_nat j)) (n * Z.of_nat j)
      (sq_of (n * Z.of_nat j + n) (n * Z.of_nat j) (Z.of_nat j + 1) 0)) as (chunks & Hw & _).
    + by split.
    + done.
    + rewrite next_wr_of by lia. rewrite Z.sub_diag, Z.sub_0_r, Z.add_0_l, Z.mod_small by lia.
      by rewrite (proj2 (Z.leb_le _ _)), (proj2 (Z.ltb_lt _ _)) by lia.
    + eexists. rewrite (run_tasks_app _ _ _ _ _ _ IH). cbn [mbind list_bind write_and_ack app run_tasks].
      rewrite Hw. cbn [rdma_process].
      erewrite update_ctx_run by by eapply get_with_ctx. rewrite with_ctx_twice. unfold wj.
      rewrite with_ctx_twice. unfold update_psn_acked, sq_of. cbn [sq_msn sq_psn sq_psn_acked sq_msn_acked].
      do 2 f_equal. f_equal; f_equal; lia.
Qed.

End exhaustion.

(** ** Properties *)

(** The packets that [len] bytes at [addr] take, one for each page of [2 ^ k] bytes that
    they touch. *)
Definition packets_of (k addr len : Z) : Z := (addr + len - 1) / 2 ^ k - addr / 2 ^ k + 1.

Lemma div_ceil_pred x y : 0 <= x -> 0 < y -> div_ceil x y = (x - 1) / y + 1.
Proof.
  intros Hx Hy. enough (div_ceil x y - 1 = (x - 1) / y) by lia. apply Z.div_unique_pos with (x - 1 - (div_ceil x y - 1) * y); [|lia].
  destruct (div_ceil_spec x y Hx Hy) as [?|[-> ->]]; lia.
Qed.

(** What [num_psn] reserves, against the packets. *)
Lemma reserved_packets m k addr len n :
  convert_ibv_mtu_to_u16 m = Some (2 ^ k) -> 8 <= k <= 12 -> 0 <= addr -> addr + 2 ^ k <= 2 ^ 64 -> in_width 32 len -> 0 < len ->
  num_psn m addr len = Some n ->
  packets_of k addr len = n + (if (gap (2 ^ k) addr <=? len) && negb (addr mod 2 ^ k =? 0) then 1 else 0).
Proof.
  intros Hm Hk Ha Hp Hl Hpos Hn. rewrite (num_psn_eq m (2 ^ k)) in Hn by done. injection Hn as <-. unfold packets_of.
  assert (0 < 2 ^ k) by lia. set (P := 2 ^ k) in *. clearbody P. destruct (gap_spec P addr ltac:(lia)) as [Hg Hgm].
  pose proof (Z.div_mod addr P ltac:(lia)) as Hd. pose proof (Z.mod_pos_bound addr P ltac:(lia)) as Hmb.
  set (q := addr / P) in *. set (r := addr mod P) in *. set (g := gap P addr) in *.
  assert (Hgr : g = if r =? 0 then 0 else P - r).
  { replace (addr + g) with (r + g + q * P) in Hgm by lia. rewrite Z.mod_add in Hgm by lia.
    destruct (Z.eqb_spec r 0); [rewrite Z.mod_small in Hgm; lia|]. destruct (Z.lt_ge_cases (r + g) P); [rewrite Z.mod_small in Hgm; lia|].
    replace (r + g) with (r + g - P + 1 * P) in Hgm by lia. rewrite Z.mod_add, Z.mod_small in Hgm by lia. lia. }
  assert (Hdiv : forall x c, (c * P + x) / P = c + x / P) by (intros x c; rewrite Z.add_comm, Z.div_add by lia; lia).
  destruct (Z.eqb_spec r 0) as [Er|Er]; cbn [negb]; rewrite ?andb_false_r, ?andb_true_r.
  - rewrite Hgr, (proj2 (Z.leb_le _ _)) by lia. rewrite Z.sub_0_r, div_ceil_pred by lia.
    replace (addr + len - 1) with (q * P + (len - 1)) by lia. rewrite Hdiv. lia.
  - destruct (Z.leb_spec g len).
    + rewrite div_ceil_pred by lia. replace (addr + len - 1) with ((q + 1) * P + (len - g - 1)) by lia. rewrite Hdiv. lia.
    + rewrite div_ceil_pred, (Z.div_small (len - 1)) by lia. replace (addr + len - 1) with (q * P + (r + len - 1)) by lia.
      rewrite Hdiv, (Z.div_small (r + len - 1)) by lia. lia.
Qed.

(** C14: a write, a send or a read response is accepted whole or leaves no trace, for a
    queue pair the worker has, a path MTU that is valid, and a request whose addresses do
    not wrap; a signaled one has a length other than 0 and a queue pair with a send
    completion queue (without these it takes numbers and is not sent, see the findings).
    While the outstanding packets and the [n] numbers that [num_psn] gives the request stay
    together below 2^24, it is accepted when together they are at most 2^23 and fewer than
    2^15 messages are outstanding before it.  Then, in this order: if it is signaled its
    completion is registered with the number after the last reserved one, and an
    acknowledgement is expected; it is recorded for retransmission; the chunks sent tile
    it, numbered from the first reserved number on; and the counters of the queue pair are
    advanced by one message and [n] packets.  Rejected, nothing is sent and the worker is
    unchanged.  The [n] numbers are one for each packet when the remote address is aligned
    to the path MTU or the request ends before the next aligned address; otherwise they are
    one too few (see the findings). *)
Theorem write_accepted_or_rejected `{Profile} w qpn qp wr k n op p a m ma :
  can_write w qpn qp (sq_of p a m ma) wr k n ->
  (signaled wr = true ->
     is_Some (qa_send_cq qp) /\ send_event_op (b_opcode (r_base wr)) = Some op /\ 0 < b_length (r_base wr)) ->
  0 <= p - a + n < 2 ^ 24 -> 0 <= m - ma < 2 ^ 16 ->
  exists chunks,
    pieces_of false wr (qp_params (msn_of m) qp) k p chunks /\
    (0 < b_length (r_base wr) ->
       packets_of k (raddr wr) (b_length (r_base wr)) =
         n + (if (gap (2 ^ k) (raddr wr) <=? b_length (r_base wr)) && negb (raddr wr mod 2 ^ k =? 0) then 1 else 0)) /\
    run_task (rdma_process (RwWrite qpn wr)) w =
      if (p - a + n <=? 2 ^ 23) && (m - ma <? 2 ^ 15) then
        Done ((if signaled wr
               then signal_effects qpn op (msn_of m) (psn_of (p + n)) (b_wr_id (r_base wr))
               else []) ++
              EffRetransmit (PrNewWr qpn (mk_elem (psn_of p) wr (qp_params (msn_of m) qp))) ::
              (EffChunk <$> chunks))
          (with_ctx qpn (sq_of (p + n) a (m + 1) ma) w)
      else Done [] w.
Proof.
  intros Hcw Hsig Hp Hm. pose proof (next_wr_of n p a m ma Hm) as Hnext. rewrite (Z.mod_small _ _ Hp) in Hnext.
  assert (Hres : 0 < b_length (r_base wr) -> packets_of k (raddr wr) (b_length (r_base wr)) =
    n + (if (gap (2 ^ k) (raddr wr) <=? b_length (r_base wr)) && negb (raddr wr mod 2 ^ k =? 0) then 1 else 0)).
  { destruct Hcw as [_ _ Hmtu Hk _ [Hra _ Hl Hr _] Hnum]. intros Hpos. apply (reserved_packets (qa_pmtu qp)); try done.
    unfold WR_CHUNK_SIZE in Hr. assert (2 ^ k <= 2 ^ 12) by (apply Z.pow_le_mono_r; lia). unfold in_width in Hl. lia. }
  destruct ((p - a + n <=? 2 ^ 23) && (m - ma <? 2 ^ 15)).
  - destruct (signaled wr) eqn:Es.
    + destruct (Hsig eq_refl) as ([cq Hcq] & Hop & Hlen).
      destruct (write_signaled w qpn qp _ wr k n _ _ _ cq op Hcw Es Hcq Hop Hnext) as (ch & Hr & Hpc).
      exists ch. rewrite Hr, (proj2 (Z.eqb_neq (b_length (r_base wr)) 0)) by lia. done.
    + destruct (write_unsignaled w qpn qp _ wr k n _ _ _ Hcw Es Hnext) as (ch & Hr & Hpc). eauto.
  - destruct (all_pieces_run tt false wr (qp_params (msn_of m) qp) k p) as (ch & _ & Hpc);
      [apply (cw_mtu _ _ _ _ _ _ _ Hcw)|apply (cw_k _ _ _ _ _ _ _ Hcw)|apply (cw_ok _ _ _ _ _ _ _ Hcw)|].
    exists ch. split; [done|]. split; [done|]. eapply write_rejected; done.
Qed.

(** A signaled request on a queue pair without a send completion queue fails after its
    numbers are taken: the next request leaves a gap that no packet fills. *)
Lemma signaled_without_cq_takes_numbers `{Profile} w qpn qp c wr k n m p c' :
  can_write w qpn qp c wr k n -> signaled wr = true -> qa_send_cq qp = None -> next_wr n c = (Some (m, psn_of p), c') ->
  run_task (rdma_process (RwWrite qpn wr)) w = Done [] (with_ctx qpn c' w).
Proof.
  intros [Ha Hc Hm Hk Ho Hok Hn] Hs Hcq Hw. rewrite (process_write qpn wr w Ho).
  unfold write, mbind, M_bind, get_self, gets. cbn [self]. rewrite Ha, Hn.
  rewrite (reserve_run _ _ _ _ c Hc), Hw. cbn [fst snd]. by rewrite Hs, Hcq.
Qed.

Definition sample_attr : QpAttr := mk_qp_attr 2 0x100 0x200 0xA 0xB 0xC 1 0 (Some 3) (Some 4).
Definition sample_worker (c : SendQueueContext) : RdmaWriteWorker :=
  mk_rw [sq_default; c] [qp_attr_default; sample_attr].

Lemma sample_can_write c len :
  0 <= len < 2 ^ 16 ->
  can_write (sample_worker c) 0x100 sample_attr c (sample_wr 0x1000 len) 8 (div_ceil len 256).
Proof.
  intros Hl. split; try done; [apply sample_ok; lia|].
  cbn [sample_wr raddr r_base b_length].
  rewrite (num_psn_eq _ 256) by (done || unfold in_width; lia). change (gap 256 0x1000) with 0.
  rewrite (proj2 (Z.leb_le _ _)) by lia. by rewrite Z.sub_0_r.
Qed.

Lemma write_accepted_or_rejected_witness :
  exists es w', @run_task _ (@rdma_process dev_profile (RwWrite 0x100 (sample_wr 0x1000 512)))
    (sample_worker (sq_of 7 5 3 2)) = Done es w' /\ es <> [].
Proof.
  destruct (@write_accepted_or_rejected dev_profile (sample_worker (sq_of 7 5 3 2)) 0x100 sample_attr
    (sample_wr 0x1000 512) 8 2 WriteSignaled 7 5 3 2) as (ch & _ & _ & Hr);
    [by apply sample_can_write|intros _; split; [by eexists|split; [reflexivity|reflexivity]]|lia|lia|].
  rewrite Hr. eexists _, _. split; [reflexivity|done].
Defined.

(** A request of length 0 is never sent.  The worker takes its message number, and
    no chunk leaves; if it is signaled its completion is registered although no
    acknowledgement is expected and nothing is recorded for retransmission. *)
Theorem zero_length_requests_not_sent `{Profile} w qpn qp c wr k m p c' cq op :
  can_write w qpn qp c wr k 0 -> qa_send_cq qp = Some cq ->
  send_event_op (b_opcode (r_base wr)) = Some op ->
  b_length (r_base wr) = 0 -> next_wr 0 c = (Some (m, psn_of p), c') ->
  run_task (rdma_process (RwWrite qpn wr)) w =
  Done (if signaled wr then [register qpn op m (psn_of p) (b_wr_id (r_base wr))]
        else [EffRetransmit (PrNewWr qpn (mk_elem (psn_of p) wr (qp_params m qp)))])
    (with_ctx qpn c' w).
Proof.
  intros Hcw Hcq Hop Hl Hw. destruct (signaled wr) eqn:Es.
  - destruct (write_signaled w qpn qp c wr k 0 m p c' cq op Hcw Es Hcq Hop Hw) as (ch & Hr & _).
    by rewrite Hr, Hl, Z.add_0_r.
  - destruct (write_unsignaled w qpn qp c wr k 0 m p c' Hcw Es Hw) as (ch & Hr & Hp).
    rewrite Hr. apply (pieces_of_nil _ _ _ _ _ _ (cw_k _ _ _ _ _ _ _ Hcw) (cw_ok _ _ _ _ _ _ _ Hcw)) in Hp.
    by rewrite (proj2 Hp Hl).
Qed.

Lemma zero_length_requests_not_sent_witness :
  exists w', @run_task _ (@rdma_process dev_profile (RwWrite 0x100 (sample_wr 0x1000 0)))
    (sample_worker (sq_of 7 5 3 2)) = Done [register 0x100 WriteSignaled 3 7 1] w'.
Proof.
  eexists. refine (@zero_length_requests_not_sent dev_profile (sample_worker (sq_of 7 5 3 2)) 0x100
    sample_attr (sq_of 7 5 3 2) (sample_wr 0x1000 0) 8 3 7 _ 3 WriteSignaled _ eq_refl eq_refl eq_refl _).
  - by apply (sample_can_write (sq_of 7 5 3 2) 0).
  - reflexivity.
Defined.

(** Unsignaled requests use the message window up for good.  After 2^15 of them on
    a fresh queue pair, every one fully acknowledged, the next request is dropped
    without a trace: only the completion of a signaled request releases message
    numbers.  Read responses are never signaled. *)
Theorem unsignaled_requests_exhaust_window `{Profile} w qpn qp wr k n :
  can_write w qpn qp sq_default wr k n -> signaled wr = false -> 0 <= n <= 2 ^ 23 ->
  exists es w',
    run_tasks rdma_process (seq 0 (2 ^ 15) ≫= write_and_ack qpn wr n) w = Done es w' /\
    run_task (rdma_process (RwWrite qpn wr)) w' = Done [] w'.
Proof.
  intros Hcw Hs Hn. destruct (writes_and_acks qpn qp wr k n w (2 ^ 15) Hcw Hs Hn (le_n _)) as [es Hes].
  rewrite half_msn_space in Hes.
  eexists es, _. split; [exact Hes|]. pose proof Hcw as [Ha Hc Hm Hk Ho Hok Hnum].
  eapply write_rejected; [split; try done; by eapply get_with_ctx|].
  rewrite next_wr_of by lia. by rewrite andb_false_r.
Qed.

Lemma unsignaled_requests_exhaust_window_witness :
  let wr := mk_rdma (mk_base 1 0 0x5000 256 7 0 OpRdmaReadResp) 0x1000 9 in
  exists es w',
    run_tasks (@rdma_process release_profile) (seq 0 (2 ^ 15) ≫= write_and_ack 0x100 wr 1)
      (sample_worker sq_default) = Done es w' /\
    @run_task _ (@rdma_process release_profile (RwWrite 0x100 wr)) w' = Done [] w'.
Proof.
  intros wr. apply (@unsignaled_requests_exhaust_window release_profile
    (sample_worker sq_default) 0x100 sample_attr wr 8 1); [|reflexivity|lia].
  by split.
Defined.
