(* ===== verification/Retransmit.v ===== *)
(** * The retransmission worker

    rust-driver/src/workers/retransmit.rs: every request sent is kept, in order, until
    the requests behind it are acknowledged; on a timeout all packets from the first
    unacknowledged one on are sent again, on a negative acknowledgement those in a
    range. *)

From Stdlib Require Import ZArith Lia Sorted.
From stdpp Require Import base list sorting numbers.
From S2P Require Import Prelude RustBase Psn WorkReq Qp Fragmenter Tasks RdmaWorker.

#[local] Open Scope Z_scope.
#[local] Open Scope cint_scope.

Record IbvSendQueue : Set := mk_isq { isq_inner : list SendQueueElem; isq_base_psn : Psn }.

Definition isq_default : IbvSendQueue := mk_isq [] 0.

Definition isq_push (elem : SendQueueElem) (q : IbvSendQueue) : IbvSendQueue :=
  mk_isq (isq_inner q ++ [elem]) (isq_base_psn q).

(** [partition_point]: on a sequence whose elements that satisfy [p] come first, the
    number of them. *)
Fixpoint partition_point {A} (p : A -> bool) (l : list A) : nat :=
  match l with
  | [] => O
  | a :: l' => if p a then S (partition_point p l') else O
  end.

Definition pop_until (psn : Psn) (q : IbvSendQueue) : IbvSendQueue :=
  let a := partition_point (fun x => psn_lt (el_psn x) psn) (isq_inner q) in
  mk_isq (drop (a - 1) (isq_inner q)) psn.

Definition range (psn_low psn_high : Psn) (q : IbvSendQueue) : list SendQueueElem :=
  let a := partition_point (fun x => psn_lt (el_psn x) psn_low) (isq_inner q) in
  let b := partition_point (fun x => psn_lt (el_psn x) psn_high) (isq_inner q) in
  if (b <=? a)%nat then [] else take (b - a) (drop a (isq_inner q)).

(** [iter.skip_while(p)] and [iter.take_while(p)] *)
Fixpoint skip_while {A} (p : A -> bool) (l : list A) : list A :=
  match l with
  | [] => []
  | a :: l' => if p a then skip_while p l' else l
  end.

Fixpoint take_while {A} (p : A -> bool) (l : list A) : list A :=
  match l with
  | [] => []
  | a :: l' => if p a then a :: take_while p l' else []
  end.

Record PacketRetransmitWorker : Type := mk_prw { prw_table : QpTable IbvSendQueue }.

Definition PacketRetransmitWorker_new : PacketRetransmitWorker :=
  mk_prw (QpTable_new_with isq_default).

Definition retransmit_qpn (task : PacketRetransmitTask) : Z :=
  match task with
  | PrNewWr qpn _ | PrRetransmitRange qpn _ _ | PrRetransmitAll qpn | PrAck qpn _ => qpn
  end.

Section code.
Context `{Profile}.

(** [flat_map(|sqe| WrPacketFragmenter::new(sqe.wr(), sqe.qp_param(), sqe.psn()))] *)
Fixpoint all_packets {S} (l : list SendQueueElem) : M S (list WrChunk) :=
  match l with
  | [] => mret []
  | sqe :: l' =>
      ps ← all_pieces true (el_wr sqe) (el_qp_param sqe) (el_psn sqe);
      rest ← all_packets l';
      mret (ps ++ rest)
  end.

(** [for mut packet in packets { packet.set_is_retry(); wr_sender.send(packet) }] *)
Definition resend (packets : list WrChunk) : M (actor PacketRetransmitWorker) unit :=
  for_each packets (fun packet => emit (EffChunk (chunk_set_is_retry packet))).

Definition set_queue (qpn : Z) (q : IbvSendQueue) : M (actor PacketRetransmitWorker) unit :=
  modify_self (fun w => mk_prw (replace_qp (prw_table w) qpn q).2).

Definition retransmit_process (task : PacketRetransmitTask) :
    M (actor PacketRetransmitWorker) unit :=
  let qpn := retransmit_qpn task in
  w ← get_self;
  match get_qp (prw_table w) qpn with
  | None => mret tt
  | Some sq =>
      match task with
      | PrNewWr _ wr => set_queue qpn (isq_push wr sq)
      | PrRetransmitRange _ psn_low psn_high =>
          packets ← all_packets (range psn_low psn_high sq);
          resend (take_while (fun x => psn_lt (c_psn x) psn_high)
                    (skip_while (fun x => psn_lt (c_psn x) psn_low) packets))
      | PrRetransmitAll _ =>
          packets ← all_packets (isq_inner sq);
          resend (skip_while (fun x => psn_lt (c_psn x) (isq_base_psn sq)) packets)
      | PrAck _ psn => set_queue qpn (pop_until psn sq)
      end
  end.

End code.

(** ** Lemmas: packets and their numbers *)

(** A request of the queue with its unbounded first packet number and its packets,
    numbered from there on. *)
Record entry : Set := mk_entry {
  en_num : Z; en_elem : SendQueueElem; en_packets : list (Z * WrChunk) }.

Record entry_ok `{Profile} (k : Z) (x : entry) : Prop := {
  eo_psn : el_psn (en_elem x) = psn_of (en_num x);
  eo_mtu : convert_ibv_mtu_to_u16 (qpp_pmtu (el_qp_param (en_elem x))) = Some (2 ^ k);
  eo_k : 8 <= k <= 12;
  eo_req : request_ok (el_wr (en_elem x));
  eo_nums : (en_packets x).*1 = seqZ (en_num x) (Z.of_nat (length (en_packets x)));
  eo_wire : Forall (fun p => c_psn p.2 = psn_of p.1) (en_packets x);
  eo_pieces : pieces_of true (el_wr (en_elem x)) (el_qp_param (en_elem x)) k (en_num x)
                (en_packets x).*2;
  eo_run : all_pieces true (el_wr (en_elem x)) (el_qp_param (en_elem x)) (psn_of (en_num x)) tt =
             Done (en_packets x).*2 tt }.

(** Each request starts at or behind the last packet of the one before it. *)
Fixpoint in_sequence (l : list entry) : Prop :=
  match l with
  | x :: (y :: _) as l' =>
      en_num x <= en_num y /\
      en_num x + Z.of_nat (length (en_packets x)) - 1 <= en_num y /\ in_sequence l'
  | _ => True
  end.

Definition queue_packets (l : list entry) : list (Z * WrChunk) := l ≫= en_packets.

Lemma tiles_page k e a l i f :
  0 <= k -> tiles (2 ^ k) k e a l -> l !! i = Some f ->
  f_addr f / 2 ^ k = a / 2 ^ k + Z.of_nat i.
Proof.
  intros Hk. assert (Hp : 0 < 2 ^ k) by (apply Z.pow_pos_nonneg; lia).
  revert a i. induction l as [|g l IH]; intros a i Ht Hi; [done|].
  cbn [tiles] in Ht. destruct Ht as (Hg & Hlen & Hal & Ht). destruct i as [|i].
  - injection Hi as ->. rewrite Hg. lia.
  - cbn in Hi. destruct Hal as [->|Hal]; [done|]. rewrite (IH (a + f_len g) i Ht Hi).
    assert ((a + f_len g) / 2 ^ k = a / 2 ^ k + 1); [|lia].
    pose proof (Z.div_mod a (2 ^ k) ltac:(lia)). pose proof (Z.mod_pos_bound a (2 ^ k) Hp).
    pose proof (Z.div_mod (a + f_len g) (2 ^ k) ltac:(lia)). nia.
Qed.

(** The packets of a request are numbered one by one. *)
Lemma packets_consecutive wr q k base chunks i c :
  0 <= k -> pieces_of true wr q k base chunks -> chunks !! i = Some c ->
  c_psn c = psn_of (base + Z.of_nat i).
Proof.
  intros Hk (fr & Ht & HF & _) Hi.
  destruct (Forall2_lookup_r _ _ _ _ _ HF Hi) as (f & Hf & Hcf).
  rewrite (cf_psn _ _ _ _ _ _ _ Hcf), (tiles_page k _ _ _ _ _ Hk Ht Hf). f_equal. lia.
Qed.

Section lemmas.
Context `{Profile}.

Lemma entry_exists k n e :
  el_psn e = psn_of n -> convert_ibv_mtu_to_u16 (qpp_pmtu (el_qp_param e)) = Some (2 ^ k) ->
  8 <= k <= 12 -> request_ok (el_wr e) ->
  exists ps, entry_ok k (mk_entry n e ps).
Proof.
  intros Hp Hm Hk Hr.
  destruct (all_pieces_run tt true (el_wr e) (el_qp_param e) k n Hm Hk Hr) as (ch & Hrun & Hpc).
  exists (zip (seqZ n (Z.of_nat (length ch))) ch).
  assert (Hl : length (seqZ n (Z.of_nat (length ch))) = length ch) by (rewrite length_seqZ; lia).
  split; cbn [en_num en_elem en_packets]; try done.
  - rewrite length_zip_with, Hl, Nat.min_id. by apply fst_zip; lia.
  - apply Forall_lookup. intros i [m c] Hi. apply lookup_zip_with_Some in Hi as (m' & c' & [= <- <-] & Hm' & Hc).
    cbn. apply lookup_seqZ in Hm' as [-> _]. by eapply packets_consecutive; [|exact Hpc|]; [lia|].
  - by rewrite snd_zip by lia.
  - by rewrite snd_zip by lia.
Qed.

Lemma all_packets_run {S} k (l : list entry) (s : S) :
  Forall (entry_ok k) l -> all_packets (en_elem <$> l) s = Done (queue_packets l).*2 s.
Proof.
  induction 1 as [|x l Hx _ IH]; [done|].
  cbn [fmap list_fmap all_packets]. unfold mbind at 1, M_bind at 1.
  rewrite (eo_psn _ _ Hx), (all_pieces_stateless _ _ _ _ s), (eo_run _ _ Hx).
  unfold mbind, M_bind. rewrite IH. unfold mret, M_ret, queue_packets. by rewrite bind_cons, fmap_app.
Qed.

Lemma entry_numbers k x p :
  entry_ok k x -> p ∈ en_packets x ->
  en_num x <= p.1 < en_num x + Z.of_nat (length (en_packets x)).
Proof.
  intros Hx Hp. apply (list_elem_of_fmap_2 fst) in Hp. rewrite (eo_nums _ _ Hx) in Hp.
  by apply elem_of_seqZ in Hp.
Qed.

Lemma in_sequence_le k x l p :
  Forall (entry_ok k) (x :: l) -> in_sequence (x :: l) -> p ∈ queue_packets l ->
  en_num x <= p.1 /\ en_num x + Z.of_nat (length (en_packets x)) - 1 <= p.1.
Proof.
  revert x. induction l as [|y l IH]; intros x Hf Hs Hp; [by apply elem_of_nil in Hp|].
  cbn in Hs. destruct Hs as (H1 & H2 & Hs). apply Forall_cons_1 in Hf as [Hx Hf].
  pose proof Hf as [Hy _]%Forall_cons_1.
  apply elem_of_app in Hp as [Hp|Hp].
  - pose proof (entry_numbers _ _ _ Hy Hp). lia.
  - destruct (IH y Hf Hs Hp). lia.
Qed.

Lemma seqZ_sorted n j : StronglySorted Z.le (seqZ n (Z.of_nat j)).
Proof.
  revert n. induction j as [|j IH]; intros n; [constructor|].
  rewrite seqZ_cons by lia. constructor.
  - replace (Z.pred (Z.of_nat (S j))) with (Z.of_nat j) by lia. apply IH.
  - apply list.Forall_forall. intros y Hy. apply elem_of_seqZ in Hy. lia.
Qed.

(** The packets of the queue are in the order of their numbers. *)
Lemma queue_sorted k l :
  Forall (entry_ok k) l -> in_sequence l -> StronglySorted Z.le (queue_packets l).*1.
Proof.
  induction l as [|x l IH]; intros Hf Hs; [constructor|].
  pose proof Hf as [Hx Hf']%Forall_cons_1. cbn. rewrite fmap_app.
  assert (Hin : forall p, p ∈ queue_packets l ->
            en_num x + Z.of_nat (length (en_packets x)) - 1 <= p.1)
    by (intros; by eapply in_sequence_le).
  assert (Hl : StronglySorted Z.le (queue_packets l).*1).
  { apply IH; [done|]. destruct l; [done|]. by destruct Hs as (_ & _ & ?). }
  apply StronglySorted_app_2; [| |done].
  - intros m1 m2 (p1 & -> & Hp1)%list_elem_of_fmap (p2 & -> & Hp2)%list_elem_of_fmap.
    pose proof (entry_numbers _ _ _ Hx Hp1). specialize (Hin p2 Hp2). lia.
  - rewrite (eo_nums _ _ Hx). apply seqZ_sorted.
Qed.

(** On sorted numbers near [b], skipping the packets before [b] is filtering them. *)
Lemma skip_while_sorted b (l : list (Z * WrChunk)) :
  StronglySorted Z.le l.*1 ->
  Forall (fun p => c_psn p.2 = psn_of p.1 /\ - 2 ^ 23 < p.1 - b < 2 ^ 23) l ->
  skip_while (fun x => psn_lt (c_psn x) (psn_of b)) l.*2 =
  (base.filter (fun p => b <= p.1) l).*2.
Proof.
  induction l as [|[m c] l IH]; intros Hs Hf; [done|].
  rewrite fmap_cons in Hs. apply StronglySorted_cons in Hs as [Hle Hs].
  rewrite Forall_fmap in Hle. apply Forall_cons_1 in Hf as [[Hc Hw] Hf].
  cbn [fmap list_fmap fst snd] in *. cbn [skip_while].
  rewrite Hc, psn_cmp_range_lt by lia. destruct (Z.ltb_spec m b).
  - rewrite filter_cons_False by (cbn; lia). auto.
  - rewrite filter_cons_True by done. cbn. f_equal. rewrite filter_all; [done|].
    eapply list.Forall_impl; [exact Hle|]. cbn. lia.
Qed.

Definition queue_near (b : Z) (l : list entry) : Prop :=
  Forall (fun x => b - 2 ^ 23 < en_num x < b + 2 ^ 23 /\
                   en_num x + Z.of_nat (length (en_packets x)) <= b + 2 ^ 23) l.

Lemma queue_near_packets k b l :
  Forall (entry_ok k) l -> queue_near b l ->
  Forall (fun p => c_psn p.2 = psn_of p.1 /\ - 2 ^ 23 < p.1 - b < 2 ^ 23) (queue_packets l).
Proof.
  intros Hf Hn. induction Hf as [|x l Hx Hf IH]; [constructor|].
  apply Forall_cons_1 in Hn as [Hnx Hn]. unfold queue_packets. rewrite bind_cons. apply Forall_app.
  split; [|by apply IH]. apply list.Forall_forall. intros p Hp. split.
  - pose proof (eo_wire _ _ Hx) as Hw. rewrite list.Forall_forall in Hw. auto.
  - pose proof (entry_numbers _ _ _ Hx Hp). lia.
Qed.

Lemma partition_point_cons b x l :
  el_psn (en_elem x) = psn_of (en_num x) -> b - 2 ^ 23 < en_num x < b + 2 ^ 23 ->
  partition_point (fun e => psn_lt (el_psn e) (psn_of b)) (en_elem <$> x :: l) =
  if en_num x <? b
  then S (partition_point (fun e => psn_lt (el_psn e) (psn_of b)) (en_elem <$> l)) else O.
Proof. intros Hp Hw. cbn. rewrite Hp, psn_cmp_range_lt by lia. done. Qed.

Lemma in_sequence_tail x l : in_sequence (x :: l) -> in_sequence l.
Proof. destruct l; [done|]. by intros (_ & _ & ?). Qed.

(** Forgetting the requests [pop_until] drops loses no packet from [b] on. *)
Lemma pop_until_keeps k b l :
  Forall (entry_ok k) l -> in_sequence l -> queue_near b l ->
  let a := partition_point (fun e => psn_lt (el_psn e) (psn_of b)) (en_elem <$> l) in
  base.filter (fun p => b <= p.1) (queue_packets (drop (a - 1) l)) =
  base.filter (fun p => b <= p.1) (queue_packets l).
Proof.
  induction l as [|x l IH]; intros Hf Hs Hn; [done|]. cbv zeta.
  pose proof Hf as [Hx Hf']%Forall_cons_1. pose proof Hn as [[Hnx _] Hn']%Forall_cons_1.
  rewrite partition_point_cons by (done || apply (eo_psn _ _ Hx)).
  destruct (Z.ltb_spec (en_num x) b); [|done].
  destruct l as [|y l]; [done|].
  pose proof Hf' as [Hy _]%Forall_cons_1. pose proof Hn' as [[Hny _] _]%Forall_cons_1.
  specialize (IH Hf' (in_sequence_tail _ _ Hs) Hn'). cbv zeta in IH.
  rewrite partition_point_cons in IH |- * by (done || apply (eo_psn _ _ Hy)).
  destruct (Z.ltb_spec (en_num y) b); [|done].
  cbn [Nat.sub] in IH |- *. rewrite Nat.sub_0_r in IH. cbn [drop]. rewrite IH.
  unfold queue_packets. rewrite (bind_cons _ x), list.filter_app.
  destruct Hs as (_ & Hs & _). rewrite (filter_none _ (en_packets x)); [done|].
  apply list.Forall_forall. intros p Hp. pose proof (entry_numbers _ _ _ Hx Hp). lia.
Qed.

(** The packets are marked as retries already. *)
Lemma resend_run k l (ps : list (Z * WrChunk)) w out :
  Forall (entry_ok k) l -> (forall p, p ∈ ps -> p ∈ queue_packets l) ->
  resend ps.*2 (mk_actor w out) = Done tt (mk_actor w (out ++ (EffChunk ∘ snd <$> ps))).
Proof.
  intros Hf Hin. unfold resend.
  rewrite (for_each_emit (fun c => EffChunk (chunk_set_is_retry c))). do 3 f_equal.
  rewrite <- list_fmap_compose. apply list_fmap_ext. intros i p Hp. cbn. f_equal.
  apply list_elem_of_lookup_2, Hin in Hp. unfold queue_packets in Hp.
  apply list_elem_of_bind in Hp as (x & Hp & Hx). rewrite list.Forall_forall in Hf.
  destruct (eo_pieces _ _ (Hf x Hx)) as (fr & _ & HF & _).
  apply (list_elem_of_fmap_2 snd), list_elem_of_lookup in Hp as [j Hj].
  destruct (Forall2_lookup_r _ _ _ _ _ HF Hj) as (f & _ & Hc).
  pose proof (cf_retry _ _ _ _ _ _ _ Hc) as Hr. destruct (p.2). cbn in *. by subst.
Qed.

(** The worker with a new queue for [qpn]. *)
Definition with_queue (qpn : Z) (q : IbvSendQueue) (w : PacketRetransmitWorker) :=
  mk_prw (<[Z.to_nat (qpn_to_index qpn) := q]> (prw_table w)).

Lemma get_with_queue qpn q q0 w :
  get_qp (prw_table w) qpn = Some q0 -> get_qp (prw_table (with_queue qpn q w)) qpn = Some q.
Proof. unfold get_qp. cbn. intros H0%lookup_lt_Some. by rewrite list_lookup_insert_eq. Qed.

Lemma new_wr_run w qpn q e :
  get_qp (prw_table w) qpn = Some q ->
  run_task (retransmit_process (PrNewWr qpn e)) w = Done [] (with_queue qpn (isq_push e q) w).
Proof.
  intros Hq. unfold run_task, retransmit_process, mbind, M_bind, get_self, gets. cbn [self retransmit_qpn].
  rewrite Hq. unfold set_queue, modify_self, modify, replace_qp. cbn. by rewrite Hq.
Qed.

Lemma ack_run w qpn q psn :
  get_qp (prw_table w) qpn = Some q ->
  run_task (retransmit_process (PrAck qpn psn)) w = Done [] (with_queue qpn (pop_until psn q) w).
Proof.
  intros Hq. unfold run_task, retransmit_process, mbind, M_bind, get_self, gets. cbn [self retransmit_qpn].
  rewrite Hq. unfold set_queue, modify_self, modify, replace_qp. cbn. by rewrite Hq.
Qed.

Lemma retransmit_all_run w qpn k b l :
  get_qp (prw_table w) qpn = Some (mk_isq (en_elem <$> l) (psn_of b)) ->
  Forall (entry_ok k) l -> in_sequence l -> queue_near b l ->
  run_task (retransmit_process (PrRetransmitAll qpn)) w =
  Done (EffChunk ∘ snd <$> base.filter (fun p => b <= p.1) (queue_packets l)) w.
Proof.
  intros Hq Hf Hs Hn. unfold run_task, retransmit_process, mbind, M_bind, get_self, gets.
  cbn [self retransmit_qpn]. rewrite Hq. cbn [isq_inner isq_base_psn]. unfold mbind, M_bind.
  rewrite (all_packets_run k) by done.
  rewrite skip_while_sorted by (by eapply queue_sorted || by eapply queue_near_packets).
  erewrite resend_run; [done|exact Hf|]. intros p Hp. by apply list_elem_of_filter in Hp as [_ ?].
Qed.

Lemma in_sequence_drop n l : in_sequence l -> in_sequence (drop n l).
Proof.
  revert l. induction n as [|n IH]; intros l Hl; [done|]. destruct l as [|x l]; [done|].
  cbn. apply IH. by eapply in_sequence_tail.
Qed.

Lemma entry_length k x :
  entry_ok k x ->
  Z.of_nat (length (en_packets x)) =
  pieces_left (2 ^ k) k (raddr (el_wr (en_elem x)) + b_length (r_base (el_wr (en_elem x))))
    (raddr (el_wr (en_elem x))).
Proof. intros Hx. destruct (eo_pieces _ _ Hx) as (_ & _ & _ & Hl). by rewrite length_fmap in Hl. Qed.

(** On sorted numbers near [b], taking the packets before [b] is filtering them. *)
Lemma take_while_sorted b (l : list (Z * WrChunk)) :
  StronglySorted Z.le l.*1 ->
  Forall (fun p => c_psn p.2 = psn_of p.1 /\ - 2 ^ 23 < p.1 - b < 2 ^ 23) l ->
  take_while (fun x => psn_lt (c_psn x) (psn_of b)) l.*2 =
  (base.filter (fun p => p.1 < b) l).*2.
Proof.
  induction l as [|[m c] l IH]; intros Hs Hf; [done|].
  rewrite fmap_cons in Hs. apply StronglySorted_cons in Hs as [Hle Hs].
  rewrite Forall_fmap in Hle. apply Forall_cons_1 in Hf as [[Hc Hw] Hf].
  cbn [fmap list_fmap fst snd] in *. cbn [take_while].
  rewrite Hc, psn_cmp_range_lt by lia. destruct (Z.ltb_spec m b) as [Hb|Hb].
  - rewrite filter_cons_True by done. cbn. f_equal. auto.
  - rewrite filter_cons_False by (cbn; lia). rewrite filter_none; [done|].
    eapply list.Forall_impl; [exact Hle|]. cbn. lia.
Qed.

(** The requests that start before [b] are a prefix. *)
Lemma partition_point_prefix k b l :
  Forall (entry_ok k) l -> in_sequence l -> queue_near b l ->
  let a := partition_point (fun e => psn_lt (el_psn e) (psn_of b)) (en_elem <$> l) in
  Forall (fun x => en_num x < b) (take a l) /\ Forall (fun x => b <= en_num x) (drop a l).
Proof.
  induction l as [|x l IH]; intros Hf Hs Hn; [by split; constructor|]. cbv zeta.
  pose proof Hf as [Hx Hf']%Forall_cons_1. pose proof Hn as [[Hnx _] Hn']%Forall_cons_1.
  rewrite partition_point_cons by (done || apply (eo_psn _ _ Hx)).
  destruct (IH Hf' (in_sequence_tail _ _ Hs) Hn') as [H1 H2].
  destruct (Z.ltb_spec (en_num x) b) as [Hb|Hb]; [split; [by constructor|done]|].
  split; [constructor|]. cbn [drop]. clear -Hs Hb. revert x Hs Hb.
  induction l as [|y l IH]; intros x Hs Hb; [by repeat constructor|].
  constructor; [done|]. destruct Hs as (Hxy & _ & Hs). apply (IH y Hs). lia.
Qed.

(** The requests that start in a range are a part of the queue, and [range] finds it. *)
Lemma range_segment k lo hi l :
  Forall (entry_ok k) l -> in_sequence l -> queue_near lo l -> queue_near hi l ->
  let a := partition_point (fun x => psn_lt (el_psn x) (psn_of lo)) (en_elem <$> l) in
  let b := partition_point (fun x => psn_lt (el_psn x) (psn_of hi)) (en_elem <$> l) in
  base.filter (fun x => lo <= en_num x < hi) l = take (b - a) (drop a l).
Proof.
  intros Hf Hs Hl Hh a b.
  pose proof (partition_point_prefix k lo l Hf Hs Hl) as [A1 A2].
  pose proof (partition_point_prefix k hi l Hf Hs Hh) as [B1 B2].
  fold a in A1, A2. fold b in B1, B2.
  rewrite <- (take_drop a l) at 1. rewrite list.filter_app, filter_none.
  2:{ eapply list.Forall_impl; [exact A1|]. cbn. lia. }
  rewrite <- (take_drop (b - a) (drop a l)) at 1. cbn [app].
  rewrite list.filter_app, filter_all, filter_none.
  - by rewrite app_nil_r.
  - rewrite drop_drop. replace (a + (b - a))%nat with (b + (a - b))%nat by lia. rewrite <- drop_drop.
    apply Forall_drop. eapply list.Forall_impl; [exact B2|]. cbn. lia.
  - apply list.Forall_and. split; [by apply Forall_take|]. destruct (decide (a <= b)%nat).
    + rewrite take_drop_commute. replace (a + (b - a))%nat with b by lia. by apply Forall_drop.
    + replace (b - a)%nat with O by lia. constructor.
Qed.

Lemma range_run k lo hi l base :
  Forall (entry_ok k) l -> in_sequence l -> queue_near lo l -> queue_near hi l ->
  range (psn_of lo) (psn_of hi) (mk_isq (en_elem <$> l) base) =
  en_elem <$> base.filter (fun x => lo <= en_num x < hi) l.
Proof.
  intros Hf Hs Hl Hh. unfold range. cbn [isq_inner].
  rewrite (range_segment k lo hi l) by done. destruct (Nat.leb_spec
    (partition_point (fun x => psn_lt (el_psn x) (psn_of hi)) (en_elem <$> l))
    (partition_point (fun x => psn_lt (el_psn x) (psn_of lo)) (en_elem <$> l))).
  - by rewrite (proj2 (Nat.sub_0_le _ _)).
  - by rewrite fmap_take, fmap_drop.
Qed.

(** Part of a queue in sequence is in sequence. *)
Lemma in_sequence_take n l : in_sequence l -> in_sequence (take n l).
Proof.
  revert l. induction n as [|n IH]; intros l Hl; [done|]. destruct l as [|x [|y l]]; [done| |].
  - by destruct n.
  - destruct Hl as (H1 & H2 & Hl). specialize (IH _ Hl). destruct n; [done|]. cbn in *. done.
Qed.

End lemmas.

Lemma packet_count_bounds k a len :
  8 <= k <= 12 -> 0 <= a -> 2 ^ k < len < 2 ^ 30 ->
  1 < pieces_left (2 ^ k) k (a + len) a < 2 ^ 23.
Proof.
  intros Hk Ha Hl. assert (Hp : 256 <= 2 ^ k) by (change 256 with (2 ^ 8); apply Z.pow_le_mono_r; lia).
  pose proof (cut_bounds (2 ^ k) k ltac:(lia) ltac:(lia) ltac:(by exists 1; lia) a Ha) as Hc.
  unfold pieces_left. rewrite (proj2 (Z.leb_gt _ _)) by lia. unfold saturating_sub.
  rewrite Z.max_r by lia.
  destruct (div_ceil_spec (a + len - cut (2 ^ k) k a) (2 ^ k)) as [Hd|[? _]]; [lia|lia| |lia].
  nia.
Qed.

Lemma ack_then_all_run `{Profile} w qpn k b l base :
  get_qp (prw_table w) qpn = Some (mk_isq (en_elem <$> l) base) ->
  Forall (entry_ok k) l -> in_sequence l -> queue_near b l ->
  exists w',
    run_tasks retransmit_process [PrAck qpn (psn_of b); PrRetransmitAll qpn] w =
    Done (EffChunk ∘ snd <$> base.filter (fun p => b <= p.1) (queue_packets l)) w'.
Proof.
  intros Hq Hf Hs Hn. eexists. cbn [run_tasks]. rewrite (ack_run _ _ _ _ Hq).
  unfold pop_until. cbn [isq_inner].
  rewrite <- fmap_drop. erewrite retransmit_all_run; [|by eapply get_with_queue|..].
  - rewrite (pop_until_keeps k b l Hf Hs Hn). cbn. rewrite app_nil_r. reflexivity.
  - by apply Forall_drop.
  - by apply in_sequence_drop.
  - by apply Forall_drop.
Qed.

(** A read reserves one number, is sent as one chunk and is kept for retransmission. *)
Lemma read_run `{Profile} w qpn qp c wr m p c' :
  get_qp (rw_qp_attr_table w) qpn = Some qp -> get_qp (rw_sq_ctx_table w) qpn = Some c ->
  b_opcode (r_base wr) = OpRdmaRead -> signaled wr = false ->
  next_wr 1 c = (Some (m, p), c') ->
  run_task (rdma_process (RwWrite qpn wr)) w =
  Done [EffRetransmit (PrNewWr qpn (mk_elem p wr (qp_params m qp)));
        EffChunk (read_chunk wr (qp_params m qp) p)] (with_ctx qpn c' w).
Proof.
  intros Ha Hc Ho Hs Hw. unfold run_task, rdma_process. rewrite Ho.
  unfold rdma_read, mbind, M_bind, get_self, gets. cbn [self]. rewrite Ha.
  rewrite (reserve_run _ _ _ _ c Hc), Hw. cbn [fst snd]. by rewrite Hs.
Qed.

(** ** Properties *)

(** C13: after an acknowledgement up to packet [b], a timeout sends again exactly the
    packets from [b] on, in order and with their numbers.  The queue holds any requests,
    each starting at or behind the last packet of the one before it, within 2^23 packets
    of [b]; dropping the acknowledged requests loses no packet that is still needed. *)
Theorem retransmit_all_resends_unacked `{Profile} w qpn k b l base :
  get_qp (prw_table w) qpn = Some (mk_isq (en_elem <$> l) base) ->
  Forall (entry_ok k) l -> in_sequence l -> queue_near b l ->
  exists w',
    run_tasks retransmit_process [PrAck qpn (psn_of b); PrRetransmitAll qpn] w =
    Done (EffChunk ∘ snd <$> base.filter (fun p => b <= p.1) (queue_packets l)) w'.
Proof.
  by apply ack_then_all_run.
Qed.

Definition sample_elem (n len : Z) : SendQueueElem := mk_elem (psn_of n) (sample_wr 0x1000 len) sample_qp.

Lemma retransmit_all_resends_unacked_witness :
  exists es w', run_tasks (@retransmit_process dev_profile) [PrAck 0x100 (psn_of 11); PrRetransmitAll 0x100]
    (mk_prw [isq_default; mk_isq [sample_elem 10 512; sample_elem 12 512] 0]) = Done es w' /\
    length es = 3%nat.
Proof.
  destruct (@entry_exists dev_profile 8 10 (sample_elem 10 512)) as (ps1 & H1);
    [done|done|lia|apply sample_ok; lia|].
  destruct (@entry_exists dev_profile 8 12 (sample_elem 12 512)) as (ps2 & H2);
    [done|done|lia|apply sample_ok; lia|].
  pose proof (entry_length _ _ H1) as L1. pose proof (entry_length _ _ H2) as L2.
  change (Z.of_nat (length ps1) = 2) in L1. change (Z.of_nat (length ps2) = 2) in L2.
  destruct (@retransmit_all_resends_unacked dev_profile
    (mk_prw [isq_default; mk_isq [sample_elem 10 512; sample_elem 12 512] 0]) 0x100 8 11
    [mk_entry 10 (sample_elem 10 512) ps1; mk_entry 12 (sample_elem 12 512) ps2] 0) as (w' & Hr).
  - done.
  - exact (Forall_cons_2 _ _ _ H1 (Forall_cons_2 _ _ _ H2 (Forall_nil_2 _))).
  - cbn. lia.
  - repeat constructor; cbn; lia.
  - eexists _, _. split; [exact Hr|].
    pose proof (eo_nums _ _ H1) as N1. pose proof (eo_nums _ _ H2) as N2.
    cbn [en_num en_packets] in N1, N2. rewrite L1 in N1. rewrite L2 in N2.
    change (ps1.*1 = [10; 11]) in N1. change (ps2.*1 = [12; 13]) in N2. clear -N1 N2.
    destruct ps1 as [|[m1 c1] [|[m2 c2] [|]]]; try discriminate N1.
    destruct ps2 as [|[m3 c3] [|[m4 c4] [|]]]; try discriminate N2.
    injection N1 as -> ->. injection N2 as -> ->. reflexivity.
Defined.

(** A negative acknowledgement misses the request it falls into.  Of the packets in
    the range asked for, the worker sends again those of the requests that start inside
    the range; the packets of the request that starts before the range and reaches into
    it are not sent, so a packet lost inside a request is not retransmitted before the
    timeout. *)
Theorem retransmit_range_misses_partial_request `{Profile} w qpn k lo hi l base :
  get_qp (prw_table w) qpn = Some (mk_isq (en_elem <$> l) base) ->
  Forall (entry_ok k) l -> in_sequence l -> queue_near lo l -> queue_near hi l ->
  run_task (retransmit_process (PrRetransmitRange qpn (psn_of lo) (psn_of hi))) w =
  Done (EffChunk ∘ snd <$>
          base.filter (fun p => p.1 < hi)
            (queue_packets (base.filter (fun x => lo <= en_num x < hi) l))) w.
Proof.
  intros Hq Hf Hs Hl Hh. unfold run_task, retransmit_process, mbind, M_bind, get_self, gets.
  cbn [self retransmit_qpn]. rewrite Hq. unfold mbind, M_bind. rewrite (range_run k) by done.
  set (l' := base.filter (fun x => lo <= en_num x < hi) l).
  assert (Hseg : exists n a, l' = take n (drop a l)).
  { eexists _, _. by apply (range_segment k lo hi l). }
  destruct Hseg as (n & a & Hseg).
  assert (Hf' : Forall (entry_ok k) l') by (rewrite Hseg; by apply Forall_take, Forall_drop).
  assert (Hs' : StronglySorted Z.le (queue_packets l').*1).
  { apply (queue_sorted k); [done|]. rewrite Hseg. by apply in_sequence_take, in_sequence_drop. }
  rewrite (all_packets_run k) by done. rewrite skip_while_sorted, filter_all.
  2:{ apply list.Forall_forall. intros p Hp. unfold queue_packets in Hp.
      apply list_elem_of_bind in Hp as (x & Hp & Hx). pose proof Hx as Hx'. apply list_elem_of_filter in Hx as [Hx _].
      rewrite list.Forall_forall in Hf'. pose proof (entry_numbers _ _ _ (Hf' x Hx') Hp). lia. }
  2: done.
  2:{ apply (queue_near_packets k); [done|]. rewrite Hseg. by apply Forall_take, Forall_drop. }
  rewrite take_while_sorted; [|done|].
  2:{ apply (queue_near_packets k); [done|]. rewrite Hseg. by apply Forall_take, Forall_drop. }
  erewrite resend_run; [done|exact Hf'|]. intros p Hp. by apply list_elem_of_filter in Hp as [_ ?].
Qed.

(** The loss of the second packet of a request of two: nothing is sent again. *)
Lemma retransmit_range_misses_partial_request_witness :
  run_task (@retransmit_process dev_profile (PrRetransmitRange 0x100 (psn_of 11) (psn_of 12)))
    (mk_prw [isq_default; mk_isq [sample_elem 10 512] 0]) =
  Done [] (mk_prw [isq_default; mk_isq [sample_elem 10 512] 0]).
Proof.
  destruct (@entry_exists dev_profile 8 10 (sample_elem 10 512)) as (ps & H1);
    [done|done|lia|apply sample_ok; lia|].
  pose proof (entry_length _ _ H1) as L. change (Z.of_nat (length ps) = 2) in L.
  etransitivity; [refine (@retransmit_range_misses_partial_request dev_profile _ 0x100 8 11 12
    [mk_entry 10 (sample_elem 10 512) ps] 0 _ _ _ _ _)|].
  - done.
  - exact (Forall_cons_2 _ _ _ H1 (Forall_nil_2 _)).
  - done.
  - repeat constructor; cbn; lia.
  - repeat constructor; cbn; lia.
  - rewrite filter_cons_False by (cbn; lia). reflexivity.
Defined.

(** A read is retransmitted as several reads.  The first transmission of a read
    request is one chunk with one packet number; kept for retransmission, it is cut like
    a write: for more than one path MTU of data, a timeout sends several read requests
    with consecutive packet numbers, of which only the first was reserved. *)
Theorem read_retransmitted_in_pieces `{Profile} w rw qpn qp c wr m p k c' :
  get_qp (rw_qp_attr_table rw) qpn = Some qp -> get_qp (rw_sq_ctx_table rw) qpn = Some c ->
  convert_ibv_mtu_to_u16 (qa_pmtu qp) = Some (2 ^ k) -> 8 <= k <= 12 -> request_ok wr ->
  b_opcode (r_base wr) = OpRdmaRead -> signaled wr = false ->
  next_wr 1 c = (Some (m, psn_of p), c') ->
  get_qp (prw_table w) qpn = Some (mk_isq [] (psn_of p)) ->
  2 ^ k < b_length (r_base wr) < 2 ^ 30 ->
  exists elem packets w',
    run_task (rdma_process (RwWrite qpn wr)) rw =
      Done [EffRetransmit (PrNewWr qpn elem); EffChunk (read_chunk wr (qp_params m qp) (psn_of p))]
        (with_ctx qpn c' rw) /\
    run_tasks retransmit_process [PrNewWr qpn elem; PrRetransmitAll qpn] w =
      Done (EffChunk <$> packets) w' /\
    (1 < length packets)%nat /\
    forall i chunk, packets !! i = Some chunk ->
      c_opcode chunk = OpRdmaRead /\ c_psn chunk = psn_of (p + Z.of_nat i).
Proof.
  intros Ha Hc Hm Hk Hr Ho Hs Hw Hq Hl.
  set (elem := mk_elem (psn_of p) wr (qp_params m qp)).
  destruct (entry_exists k p elem) as (ps & He); [done..|].
  pose proof (entry_length _ _ He) as Hlen. cbn [en_packets en_elem elem el_wr] in Hlen.
  pose proof (packet_count_bounds k (raddr wr) _ Hk (rq_raddr _ Hr) Hl) as Hbound. rewrite <- Hlen in Hbound.
  assert (Hall : base.filter (fun x => p <= x.1) ps = ps).
  { apply filter_all, list.Forall_forall. intros x Hx. by apply (entry_numbers _ _ _ He). }
  eexists elem, ps.*2, _. split; [by apply read_run with c|]. split; [|split].
  - cbn [run_tasks]. rewrite (new_wr_run _ _ _ _ Hq).
    rewrite (retransmit_all_run _ qpn k p [mk_entry p elem ps]); [| |by constructor|done|].
    + change (queue_packets [mk_entry p elem ps]) with (ps ++ []).
      rewrite !app_nil_r, Hall, list_fmap_compose. reflexivity.
    + by eapply get_with_queue.
    + constructor; [|constructor]. cbn. lia.
  - rewrite length_fmap. lia.
  - intros i chunk Hi. split; [|eapply packets_consecutive; [|apply (eo_pieces _ _ He)|exact Hi]; lia].
    destruct (eo_pieces _ _ He) as (fr & _ & HF & _).
    destruct (Forall2_lookup_r _ _ _ _ _ HF Hi) as (f & _ & Hcf).
    pose proof (cf_request _ _ _ _ _ _ _ Hcf) as Hreq. cbn in Hreq. congruence.
Qed.

Lemma read_retransmitted_in_pieces_witness :
  let wr := mk_rdma (mk_base 1 0 0x5000 512 7 0 OpRdmaRead) 0x1000 9 in
  exists elem packets w',
    run_tasks (@retransmit_process dev_profile) [PrNewWr 0x100 elem; PrRetransmitAll 0x100]
      (mk_prw [isq_default; mk_isq [] (psn_of 7)]) = Done (EffChunk <$> packets) w' /\
    (1 < length packets)%nat.
Proof.
  intros wr.
  destruct (@read_retransmitted_in_pieces dev_profile (mk_prw [isq_default; mk_isq [] (psn_of 7)])
    (sample_worker (sq_of 7 5 3 2)) 0x100 sample_attr (sq_of 7 5 3 2) wr 3 7 8 (sq_of 8 5 4 2))
    as (elem & packets & w' & _ & H1 & H2 & _).
  - reflexivity.
  - reflexivity.
  - reflexivity.
  - lia.
  - split; cbn; unfold in_width, WR_CHUNK_SIZE; lia.
  - reflexivity.
  - reflexivity.
  - reflexivity.
  - reflexivity.
  - cbn. lia.
  - exists elem, packets, w'. exact (conj H1 H2).
Defined.
