(* ===== verification/Timeout.v ===== *)
(** * The acknowledgement timers

    rust-driver/src/workers/qp_timeout.rs: one timer per queue pair, restarted by every
    request that expects an acknowledgement and by every report from the device,
    stopped when no acknowledgement is outstanding; when it runs out the packets of the
    queue pair are sent again, a limited number of times.  The clock is an argument. *)

From Stdlib Require Import ZArith Lia.
From stdpp Require Import base list numbers.
From S2P Require Import Prelude RustBase Psn WorkReq Qp Tasks.

#[local] Open Scope Z_scope.
#[local] Open Scope cint_scope.

Record AckTimeoutConfig : Set := mk_config {
  check_duration_exp : Z; local_ack_timeout_exp : Z; init_retry_count : Z }.

(** constants.rs *)
Definition DEFAULT_INIT_RETRY_COUNT : Z := 5.
Definition DEFAULT_TIMEOUT_CHECK_DURATION : Z := 8.
Definition DEFAULT_LOCAL_ACK_TIMEOUT : Z := 50.

Definition config_default : AckTimeoutConfig :=
  mk_config DEFAULT_TIMEOUT_CHECK_DURATION DEFAULT_LOCAL_ACK_TIMEOUT DEFAULT_INIT_RETRY_COUNT.

(** ** One timer *)

(** Times and intervals in nanoseconds. *)
Record TransportTimer : Set := mk_timer {
  tm_timeout_interval : option Z; tm_last_start : option Z;
  tm_init_retry_counter : Z; tm_current_retry_counter : Z }.

Inductive TimerResult : Set := TimerOk | TimerTimeout | RetryLimitExceeded.

Section code.
Context `{Profile}.

(** [x << n] of a 64-bit integer *)
Definition ushl64 {S} (x n : Z) : M S Z :=
  if n <? 64 then mret (x <<{64} n)
  else if debug_assertions then panic else mret (x <<{64} (n mod 64)).

Definition TransportTimer_new {S} (local_ack_timeout init_retry_counter : Z) : M S TransportTimer :=
  timeout_nanos ← (if local_ack_timeout =? 0 then mret None
                   else n ← ushl64 4096 local_ack_timeout; mret (Some n));
  mret (mk_timer timeout_nanos None init_retry_counter init_retry_counter).

Definition timer_stop (t : TransportTimer) : TransportTimer :=
  mk_timer (tm_timeout_interval t) None (tm_init_retry_counter t) (tm_current_retry_counter t).

Definition timer_restart (now : Z) (t : TransportTimer) : TransportTimer :=
  mk_timer (tm_timeout_interval t) (Some now) (tm_init_retry_counter t) (tm_init_retry_counter t).

Definition timer_reset (now : Z) (t : TransportTimer) : TransportTimer :=
  mk_timer (tm_timeout_interval t) (Some now) (tm_init_retry_counter t) (tm_current_retry_counter t).

Definition is_running (t : TransportTimer) : bool :=
  match tm_last_start t with Some _ => true | None => false end.

Definition check_timeout (now : Z) (t : TransportTimer) : TimerResult * TransportTimer :=
  match tm_timeout_interval t, tm_last_start t with
  | None, _ | _, None => (TimerOk, t)
  | Some timeout_interval, Some start_time =>
      let elapsed := saturating_sub now start_time in
      if elapsed <? timeout_interval then (TimerOk, t)
      else if tm_current_retry_counter t =? 0 then (RetryLimitExceeded, t)
      else
        let t := mk_timer (tm_timeout_interval t) (tm_last_start t) (tm_init_retry_counter t)
                   (tm_current_retry_counter t - 1) in
        (TimerTimeout, timer_reset now t)
  end.

(** ** The worker *)

Record QpAckTimeoutWorker : Type := mk_tw {
  tw_timer_table : QpTable TransportTimer;
  tw_outstanding_ack_req_cnt : QpTable Z;
  tw_config : AckTimeoutConfig }.

Definition QpAckTimeoutWorker_new {S} (config : AckTimeoutConfig) : M S QpAckTimeoutWorker :=
  timer ← TransportTimer_new (local_ack_timeout_exp config) (init_retry_count config);
  mret (mk_tw (QpTable_new_with timer) (QpTable_new_with 0) config).

Definition map_timer (qpn : Z) (f : TransportTimer -> TransportTimer) :
    M (actor QpAckTimeoutWorker) unit :=
  modify_self (fun w => mk_tw (map_qp_mut (tw_timer_table w) qpn (fun t => (tt, f t))).2
                          (tw_outstanding_ack_req_cnt w) (tw_config w)).

(** [outstanding_ack_req_cnt.map_qp_mut(qpn, f)] for an [f] that may panic *)
Definition map_count (qpn : Z) (f : Z -> M (actor QpAckTimeoutWorker) Z) :
    M (actor QpAckTimeoutWorker) (option Z) :=
  w ← get_self;
  match get_qp (tw_outstanding_ack_req_cnt w) qpn with
  | None => mret None
  | Some x =>
      x' ← f x;
      modify_self (fun w => mk_tw (tw_timer_table w)
        (replace_qp (tw_outstanding_ack_req_cnt w) qpn x').2 (tw_config w));;
      mret (Some x')
  end.

Definition timeout_process (now : Z) (task : AckTimeoutTask) : M (actor QpAckTimeoutWorker) unit :=
  match task with
  | AtNewAckReq qpn =>
      _ ← map_count qpn (fun x => uadd 64 x 1);
      map_timer qpn (timer_restart now)
  | AtRecvMeta qpn => map_timer qpn (timer_restart now)
  | AtAck qpn =>
      x ← map_count qpn (fun x => usub 64 x 1);
      when (match x with Some x => x =? 0 | None => false end) (map_timer qpn timer_stop)
  end.

(** [for (index, timer) in timer_table.iter_mut().enumerate()]: the timers after the loop
    and what it sends, or [None] for the [todo!] on a timer out of retries. *)
Fixpoint check_timers (now index : Z) (l : list TransportTimer) :
    option (list TransportTimer * list effect) :=
  match l with
  | [] => Some ([], [])
  | timer :: l' =>
      let '(r, timer') := check_timeout now timer in
      let qpn := wrap 32 (index <<{64} QPN_KEY_PART_WIDTH) in
      match r with
      | RetryLimitExceeded => None
      | TimerOk => '(ts, es) ← check_timers now (index + 1) l'; Some (timer' :: ts, es)
      | TimerTimeout =>
          '(ts, es) ← check_timers now (index + 1) l';
          Some (timer' :: ts, EffRetransmit (PrRetransmitAll qpn) :: es)
      end
  end.

Definition timeout_maintainance (now : Z) : M (actor QpAckTimeoutWorker) unit :=
  w ← get_self;
  '(ts, es) ← demand Panic (check_timers now 0 (tw_timer_table w));
  modify_self (fun w => mk_tw ts (tw_outstanding_ack_req_cnt w) (tw_config w));;
  for_each es emit.

End code.

(** ** Lemmas *)

Definition with_timer (qpn : Z) (t : TransportTimer) (w : QpAckTimeoutWorker) : QpAckTimeoutWorker :=
  mk_tw (<[Z.to_nat (qpn_to_index qpn) := t]> (tw_timer_table w))
    (tw_outstanding_ack_req_cnt w) (tw_config w).

(** The queue pair number [maintainance] makes of an index. *)
Definition index_qpn (i : Z) : Z := wrap 32 (i <<{64} QPN_KEY_PART_WIDTH).

Lemma with_timer_twice qpn t1 t2 w : with_timer qpn t2 (with_timer qpn t1 w) = with_timer qpn t2 w.
Proof. unfold with_timer. cbn. by rewrite list_insert_insert_eq. Qed.

Lemma recv_meta_run `{Profile} now qpn w t :
  get_qp (tw_timer_table w) qpn = Some t ->
  run_task (timeout_process now (AtRecvMeta qpn)) w = Done [] (with_timer qpn (timer_restart now t) w).
Proof.
  intros Ht. unfold run_task, timeout_process, map_timer, modify_self, modify. cbn.
  unfold map_qp_mut. by rewrite Ht.
Qed.

Lemma check_idle now index l :
  Forall (fun t => is_running t = false) l -> check_timers now index l = Some (l, []).
Proof.
  intros Hl. revert index. induction Hl as [|t l Ht _ IH]; intros index; [done|].
  cbn. unfold check_timeout. unfold is_running in Ht.
  destruct (tm_timeout_interval t), (tm_last_start t); try done; by rewrite IH.
Qed.

Lemma check_one_running now index l1 t l2 :
  Forall (fun t => is_running t = false) l1 -> Forall (fun t => is_running t = false) l2 ->
  check_timers now index (l1 ++ t :: l2) =
  match check_timeout now t with
  | (TimerOk, t') => Some (l1 ++ t' :: l2, [])
  | (TimerTimeout, t') =>
      Some (l1 ++ t' :: l2, [EffRetransmit (PrRetransmitAll (index_qpn (index + Z.of_nat (length l1))))])
  | (RetryLimitExceeded, _) => None
  end.
Proof.
  intros H1 H2. revert index. induction H1 as [|x l1 Hx _ IH]; intros index.
  - cbn. destruct (check_timeout now t) as [[] t']; rewrite ?check_idle by done; cbn;
      by rewrite ?Z.add_0_r.
  - cbn [app check_timers].
    assert (check_timeout now x = (TimerOk, x)) as ->.
    { unfold check_timeout. unfold is_running in Hx.
      by destruct (tm_timeout_interval x), (tm_last_start x). }
    rewrite IH. destruct (check_timeout now t) as [[] t']; cbn; [done| |done].
    do 6 f_equal. lia.
Qed.

(** Only the timer of [qpn] is running. *)
Definition alone (qpn : Z) (w : QpAckTimeoutWorker) : Prop :=
  forall i t, i <> Z.to_nat (qpn_to_index qpn) -> tw_timer_table w !! i = Some t ->
              is_running t = false.

Lemma maintainance_run `{Profile} now qpn w t0 t :
  get_qp (tw_timer_table w) qpn = Some t0 -> alone qpn w ->
  run_task (timeout_maintainance now) (with_timer qpn t w) =
  match check_timeout now t with
  | (TimerOk, t') => Done [] (with_timer qpn t' w)
  | (TimerTimeout, t') =>
      Done [EffRetransmit (PrRetransmitAll (index_qpn (Z.of_nat (Z.to_nat (qpn_to_index qpn)))))]
        (with_timer qpn t' w)
  | (RetryLimitExceeded, _) => Fault Panic
  end.
Proof.
  intros Ht Ha. unfold get_qp in Ht. unfold with_timer.
  set (i := Z.to_nat (qpn_to_index qpn)) in *.
  pose proof (lookup_lt_Some _ _ _ Ht) as Hi.
  assert (Hsplit : forall x, <[i := x]> (tw_timer_table w) =
            take i (tw_timer_table w) ++ x :: drop (S i) (tw_timer_table w))
    by (intros; by apply insert_take_drop).
  assert (H1 : Forall (fun t => is_running t = false) (take i (tw_timer_table w))).
  { apply Forall_lookup. intros j x Hj. apply lookup_take_Some in Hj as [Hj ?].
    apply (Ha j); [lia|done]. }
  assert (H2 : Forall (fun t => is_running t = false) (drop (S i) (tw_timer_table w))).
  { apply Forall_lookup. intros j x Hj. rewrite lookup_drop in Hj. apply (Ha (S i + j)%nat); [|done].
    unfold i. lia. }
  unfold run_task, timeout_maintainance, mbind, M_bind, get_self, gets, demand.
  cbn [self tw_timer_table]. rewrite Hsplit, check_one_running by done.
  rewrite length_take_le, Z.add_0_l by lia.
  destruct (check_timeout now t) as [[] t']; cbn; rewrite ?Hsplit; done.
Qed.

(** ** Properties *)

(** A queue pair with nothing outstanding brings the worker down.  Every report from
    the device restarts the timer, also on a queue pair that only receives; if no report
    follows, each timeout sends a needless retransmission, and when the retries are used
    up the worker panics, without any request ever having waited for an
    acknowledgement. *)
Theorem idle_queue_pair_panics `{Profile} w qpn t d t0 (r : nat) :
  get_qp (tw_timer_table w) qpn = Some t -> alone qpn w ->
  get_qp (tw_outstanding_ack_req_cnt w) qpn = Some 0 ->
  tm_timeout_interval t = Some d -> 0 <= d -> tm_init_retry_counter t = Z.of_nat r ->
  exists w1 w2,
    run_task (timeout_process t0 (AtRecvMeta qpn)) w = Done [] w1 /\
    run_tasks timeout_maintainance ((fun j => t0 + d * Z.of_nat j) <$> seq 1 r) w1 =
      Done (replicate r (EffRetransmit
        (PrRetransmitAll (index_qpn (Z.of_nat (Z.to_nat (qpn_to_index qpn))))))) w2 /\
    get_qp (tw_outstanding_ack_req_cnt w2) qpn = Some 0 /\
    run_task (timeout_maintainance (t0 + d * (Z.of_nat r + 1))) w2 = Fault Panic.
Proof.
  intros Ht Ha Hc Hd Hpos Hr. eexists. exists (with_timer qpn (mk_timer (Some d) (Some (t0 + d * Z.of_nat r)) (Z.of_nat r) 0) w).
  split; [by apply recv_meta_run|]. split; [|split; [done|]].
  - cut (forall k j, (j + k = r)%nat ->
      run_tasks timeout_maintainance ((fun j => t0 + d * Z.of_nat j) <$> seq (S j) k)
        (with_timer qpn (mk_timer (Some d) (Some (t0 + d * Z.of_nat j)) (Z.of_nat r) (Z.of_nat k)) w) =
      Done (replicate k (EffRetransmit
        (PrRetransmitAll (index_qpn (Z.of_nat (Z.to_nat (qpn_to_index qpn)))))))
        (with_timer qpn (mk_timer (Some d) (Some (t0 + d * Z.of_nat r)) (Z.of_nat r) 0) w)).
    { intros H0. specialize (H0 r O eq_refl). rewrite Z.mul_0_r, Z.add_0_r in H0.
      unfold timer_restart. by rewrite Hd, Hr. }
    induction k as [|k IH]; intros j Hj; [by replace j with r by lia|].
    cbn [seq fmap list_fmap run_tasks replicate]. rewrite (maintainance_run _ _ _ t) by done.
    unfold check_timeout, saturating_sub. cbn [tm_timeout_interval tm_last_start tm_current_retry_counter].
    rewrite (proj2 (Z.ltb_ge _ _)), (proj2 (Z.eqb_neq _ _)) by lia.
    unfold timer_reset. cbn [tm_timeout_interval tm_init_retry_counter tm_current_retry_counter].
    replace (Z.of_nat (S k) - 1) with (Z.of_nat k) by lia.
    change (list_fmap nat Z ?f ?l) with (f <$> l). rewrite (IH (S j)) by lia. done.
  - rewrite (maintainance_run _ _ _ t) by done. unfold check_timeout, saturating_sub. cbn.
    by rewrite (proj2 (Z.ltb_ge _ _)) by lia.
Qed.

Lemma idle_queue_pair_panics_witness :
  let t := mk_timer (Some 8192) None 5 5 in
  exists w2, run_task (@timeout_maintainance (1000 + 8192 * 6)) w2 = Fault Panic /\
    get_qp (tw_outstanding_ack_req_cnt w2) 0x100 = Some 0.
Proof.
  intros t.
  destruct (@idle_queue_pair_panics release_profile (mk_tw [t; t] [0; 0] (mk_config 8 1 5)) 0x100 t
    8192 1000 5) as (w1 & w2 & _ & _ & H1 & H2); [done| |done|done|lia|done|].
  - intros [|[|i]] x Hi Hx; [by injection Hx as <-|done|done].
  - exists w2. exact (conj H2 H1).
Defined.

(** The default timeout is 2^62 nanoseconds: no timer fires in the first 146 years. *)
Lemma default_timeout_interval `{Profile} {S} (s : S) :
  TransportTimer_new (local_ack_timeout_exp config_default) (init_retry_count config_default) s =
  Done (mk_timer (Some (2 ^ 62)) None 5 5) s.
Proof. reflexivity. Qed.
