(* ===== verification/MetaHandler.v ===== *)
(** * The handler of device reports

    rust-driver/src/workers/meta_report: the device reports every packet header it
    receives and every acknowledgement; the handler tracks the packet numbers of both
    directions of each queue pair and tells the other workers what is complete, what is
    acknowledged and what must be sent again. *)

From Stdlib Require Import ZArith Lia.
From stdpp Require Import base list gmap numbers.
From S2P Require Import Prelude RustBase Psn PsnTracker WorkReq Qp Tasks.

#[local] Open Scope Z_scope.
#[local] Open Scope cint_scope.

(** ** types.rs: reports *)

Inductive PacketPos : Set := PktFirst | PktMiddle | PktLast | PktOnly.

Inductive HeaderType : Set := HdrWrite | HdrWriteWithImm | HdrSend | HdrSendWithImm | HdrReadResp.

Record HeaderWriteMeta : Set := mk_hw {
  hw_pos : PacketPos; hw_msn : Msn; hw_psn : Psn; hw_solicited : bool; hw_ack_req : bool;
  hw_is_retry : bool; hw_dqpn : Z; hw_total_len : Z; hw_raddr : Z; hw_rkey : Z; hw_imm : Z;
  hw_header_type : HeaderType }.

Record HeaderReadMeta : Set := mk_hr {
  hr_msn : Msn; hr_psn : Psn; hr_dqpn : Z; hr_raddr : Z; hr_rkey : Z; hr_total_len : Z;
  hr_laddr : Z; hr_lkey : Z; hr_ack_req : bool }.

Record AckMetaLocalHw : Set := mk_alh { alh_qpn : Z; alh_psn_now : Psn; alh_now_bitmap : Z }.
Record AckMetaRemoteDriver : Set := mk_ard { ard_qpn : Z; ard_psn_now : Psn }.
Record NakMetaLocalHw : Set := mk_nlh {
  nlh_qpn : Z; nlh_msn : Msn; nlh_psn_now : Psn; nlh_now_bitmap : Z; nlh_psn_pre : Psn;
  nlh_pre_bitmap : Z }.
Record NakMetaRemoteHw : Set := mk_nrh {
  nrh_qpn : Z; nrh_msn : Msn; nrh_psn_now : Psn; nrh_now_bitmap : Z; nrh_psn_pre : Psn;
  nrh_pre_bitmap : Z }.
Record NakMetaRemoteDriver : Set := mk_nrd { nrd_qpn : Z; nrd_psn_now : Psn; nrd_psn_pre : Psn }.

Inductive ReportMeta : Set :=
| MetaHeaderWrite (x : HeaderWriteMeta)
| MetaHeaderRead (x : HeaderReadMeta)
| MetaAckLocalHw (x : AckMetaLocalHw)
| MetaAckRemoteDriver (x : AckMetaRemoteDriver)
| MetaNakLocalHw (x : NakMetaLocalHw)
| MetaNakRemoteHw (x : NakMetaRemoteHw)
| MetaNakRemoteDriver (x : NakMetaRemoteDriver)
| MetaCnp (qpn : Z).

Definition meta_qpn (m : ReportMeta) : Z :=
  match m with
  | MetaHeaderWrite x => hw_dqpn x
  | MetaHeaderRead x => hr_dqpn x
  | MetaAckLocalHw x => alh_qpn x
  | MetaAckRemoteDriver x => ard_qpn x
  | MetaNakLocalHw x => nlh_qpn x
  | MetaNakRemoteHw x => nrh_qpn x
  | MetaNakRemoteDriver x => nrd_qpn x
  | MetaCnp qpn => qpn
  end.

(** ** worker.rs *)

Section handler.
Context {V : Type} `{BitVec V}.

Record MetaHandler : Type := mk_mh {
  mh_send_table : QpTable (RemoteAckTracker V);
  mh_recv_table : QpTable (LocalAckTracker V) }.

Definition MetaHandler_new : MetaHandler :=
  mk_mh (QpTable_new_with (mk_remote default_tracker 0 0))
    (QpTable_new_with (mk_local default_tracker 0)).

(** A method of the tracker of received or of sent packets of [qpn]; [None] stands for the
    early return [?] on a number past the table. *)
Definition on_recv {A} (qpn : Z) (m : M (LocalAckTracker V) A) : M (actor MetaHandler) (option A) :=
  w ← get_self;
  match get_qp (mh_recv_table w) qpn with
  | None => mret None
  | Some t =>
      match m t with
      | Fault f => fail f
      | Done a t' =>
          modify_self (fun w => mk_mh (mh_send_table w) (replace_qp (mh_recv_table w) qpn t').2);;
          mret (Some a)
      end
  end.

Definition on_send {A} (qpn : Z) (m : M (RemoteAckTracker V) A) : M (actor MetaHandler) (option A) :=
  w ← get_self;
  match get_qp (mh_send_table w) qpn with
  | None => mret None
  | Some t =>
      match m t with
      | Fault f => fail f
      | Done a t' =>
          modify_self (fun w => mk_mh (replace_qp (mh_send_table w) qpn t').2 (mh_recv_table w));;
          mret (Some a)
      end
  end.

Definition sender_updates (qpn : Z) (base_psn : Psn) : M (actor MetaHandler) unit :=
  emit (EffCompletion (CtAckSend qpn base_psn));;
  emit (EffRetransmit (PrAck qpn base_psn));;
  emit (EffRdma (RwAck qpn base_psn)).

Definition receiver_updates (qpn : Z) (base_psn : Psn) : M (actor MetaHandler) unit :=
  emit (EffCompletion (CtAckRecv qpn base_psn));;
  emit (EffRetransmit (PrAck qpn base_psn)).

(** [if let Some(psn) = o { f(psn) }] *)
Definition if_some (o : option Psn) (f : Psn -> M (actor MetaHandler) unit) :
    M (actor MetaHandler) unit :=
  match o with Some psn => f psn | None => mret tt end.

Definition handle_ack_local_hw (meta : AckMetaLocalHw) : M (actor MetaHandler) (option unit) :=
  o ← on_recv (alh_qpn meta) (local_ack_bitmap (alh_psn_now meta) (alh_now_bitmap meta));
  match o with
  | None => mret None
  | Some r => if_some r (receiver_updates (alh_qpn meta));; mret (Some tt)
  end.

Definition handle_ack_remote_driver (meta : AckMetaRemoteDriver) :
    M (actor MetaHandler) (option unit) :=
  o ← on_send (ard_qpn meta) (remote_ack_before (ard_psn_now meta));
  match o with
  | None => mret None
  | Some r => if_some r (sender_updates (ard_qpn meta));; mret (Some tt)
  end.

Definition handle_nak_local_hw (meta : NakMetaLocalHw) : M (actor MetaHandler) (option unit) :=
  o ← on_recv (nlh_qpn meta) (local_nak_bitmap (nlh_psn_pre meta) (nlh_pre_bitmap meta)
        (nlh_psn_now meta) (nlh_now_bitmap meta));
  match o with
  | None => mret None
  | Some r => if_some r (receiver_updates (nlh_qpn meta));; mret (Some tt)
  end.

Definition handle_nak_remote_hw (meta : NakMetaRemoteHw) : M (actor MetaHandler) (option unit) :=
  o ← on_send (nrh_qpn meta) (remote_nak_bitmap (nrh_msn meta) (nrh_psn_pre meta)
        (nrh_pre_bitmap meta) (nrh_psn_now meta) (nrh_now_bitmap meta));
  match o with
  | None => mret None
  | Some r =>
      if_some r (sender_updates (nrh_qpn meta));;
      emit (EffRetransmit (PrRetransmitRange (nrh_qpn meta) (nrh_psn_pre meta)
        (psn_add (nrh_psn_now meta) 128)));;
      mret (Some tt)
  end.

Definition handle_nak_remote_driver (meta : NakMetaRemoteDriver) :
    M (actor MetaHandler) (option unit) :=
  o ← on_send (nrd_qpn meta) (remote_ack_before (nrd_psn_pre meta));
  match o with
  | None => mret None
  | Some r =>
      if_some r (sender_updates (nrd_qpn meta));;
      emit (EffRetransmit (PrRetransmitRange (nrd_qpn meta) (nrd_psn_pre meta) (nrd_psn_now meta)));;
      mret (Some tt)
  end.

Definition register_recv (qpn : Z) (op : RecvEventOp) (msn : Msn) (end_psn : Psn) (ack_req : bool) :
    effect :=
  EffCompletion (CtRegister qpn (EvRecv (mk_recv_event qpn op (mk_meta msn end_psn) ack_req))).

(** The write that answers a read request. *)
Definition read_response (meta : HeaderReadMeta) : SendWrRdma :=
  let flags := if hr_ack_req meta then IBV_SEND_SOLICITED else 0 in
  mk_rdma (mk_base 0 flags (hr_raddr meta) (hr_total_len meta) (hr_rkey meta) 0 OpRdmaReadResp)
    (hr_laddr meta) (hr_lkey meta).

Definition handle_header_read (meta : HeaderReadMeta) : M (actor MetaHandler) (option unit) :=
  let respond :=
    emit (EffRdma (RwWrite (hr_dqpn meta) (read_response meta)));; mret (Some tt) in
  if hr_ack_req meta then
    let end_psn := psn_add (hr_psn meta) 1 in
    emit (register_recv (hr_dqpn meta) RecvOpRecvRead (hr_msn meta) end_psn true);;
    o ← on_recv (hr_dqpn meta) (local_ack_one (hr_psn meta));
    match o with
    | None => mret None
    | Some r =>
        if_some r (fun base_psn => emit (EffCompletion (CtAckRecv (hr_dqpn meta) base_psn)));;
        respond
    end
  else respond.

Definition recv_op (meta : HeaderWriteMeta) : RecvEventOp :=
  match hw_header_type meta with
  | HdrWrite => RecvOpWrite
  | HdrWriteWithImm => RecvOpWriteWithImm (hw_imm meta)
  | HdrSend => RecvOpRecv
  | HdrSendWithImm => RecvOpRecvWithImm (hw_imm meta)
  | HdrReadResp => RecvOpReadResp
  end.

Definition is_end (pos : PacketPos) : bool :=
  match pos with PktLast | PktOnly => true | _ => false end.

Definition handle_header_write (meta : HeaderWriteMeta) : M (actor MetaHandler) (option unit) :=
  let dqpn := hw_dqpn meta in
  o ← on_recv dqpn get;
  match o with
  | None => mret None
  | Some _ =>
      when (is_end (hw_pos meta))
        (emit (register_recv dqpn (recv_op meta) (hw_msn meta) (psn_add (hw_psn meta) 1)
                 (hw_ack_req meta)));;
      r ← on_recv dqpn (local_ack_one (hw_psn meta));
      if_some (default None r) (fun base_psn => emit (EffCompletion (CtAckRecv dqpn base_psn)));;
      b ← on_recv dqpn (gets local_base_psn);
      when (is_end (hw_pos meta) && hw_is_retry meta && hw_ack_req meta)
        (emit (EffAckResp (RespNak dqpn (default 0 b) (psn_sub (hw_psn meta) 1))));;
      mret (Some tt)
  end.

(** Congestion notifications end in [todo!]. *)
Definition handle_meta (meta : ReportMeta) : M (actor MetaHandler) (option unit) :=
  emit (EffTimeout (AtRecvMeta (meta_qpn meta)));;
  match meta with
  | MetaHeaderWrite x => handle_header_write x
  | MetaHeaderRead x => handle_header_read x
  | MetaAckLocalHw x => handle_ack_local_hw x
  | MetaAckRemoteDriver x => handle_ack_remote_driver x
  | MetaNakLocalHw x => handle_nak_local_hw x
  | MetaNakRemoteHw x => handle_nak_remote_hw x
  | MetaNakRemoteDriver x => handle_nak_remote_driver x
  | MetaCnp _ => panic
  end.

Definition meta_process (meta : ReportMeta) : M (actor MetaHandler) unit :=
  _ ← handle_meta meta; mret tt.

End handler.

Arguments MetaHandler : clear implicits.

(** ** Lemmas *)

Section lemmas.
Context {V : Type} `{BitVec V}.
Implicit Types h : MetaHandler V.

Definition with_recv (qpn : Z) (t : LocalAckTracker V) h : MetaHandler V :=
  mk_mh (mh_send_table h) (<[Z.to_nat (qpn_to_index qpn) := t]> (mh_recv_table h)).

Lemma with_recv_same qpn t h : get_qp (mh_recv_table h) qpn = Some t -> with_recv qpn t h = h.
Proof. destruct h. unfold with_recv, get_qp. cbn. intros. by rewrite list_insert_id. Qed.

Lemma get_with_recv qpn t t0 h :
  get_qp (mh_recv_table h) qpn = Some t0 ->
  get_qp (mh_recv_table (with_recv qpn t h)) qpn = Some t.
Proof. unfold get_qp. cbn. intros Ht%lookup_lt_Some. by rewrite list_lookup_insert_eq. Qed.

Lemma on_recv_run {A} qpn (m : M (LocalAckTracker V) A) h out t a t' :
  get_qp (mh_recv_table h) qpn = Some t -> m t = Done a t' ->
  on_recv qpn m (mk_actor h out) = Done (Some a) (mk_actor (with_recv qpn t' h) out).
Proof.
  intros Ht Hm. unfold on_recv, mbind, M_bind, get_self, gets. cbn [self]. rewrite Ht, Hm. cbn.
  unfold replace_qp. by rewrite Ht.
Qed.

(** What the handler sends for a packet of a write, send or read response. *)
Definition header_write_effects (meta : HeaderWriteMeta) (r : option Psn) (base : Psn) : list effect :=
  [EffTimeout (AtRecvMeta (hw_dqpn meta))] ++
  (if is_end (hw_pos meta)
   then [register_recv (hw_dqpn meta) (recv_op meta) (hw_msn meta) (psn_add (hw_psn meta) 1)
           (hw_ack_req meta)] else []) ++
  match r with Some b => [EffCompletion (CtAckRecv (hw_dqpn meta) b)] | None => [] end ++
  (if is_end (hw_pos meta) && hw_is_retry meta && hw_ack_req meta
   then [EffAckResp (RespNak (hw_dqpn meta) base (psn_sub (hw_psn meta) 1))] else []).

Lemma header_write_run h meta s r s' :
  get_qp (mh_recv_table h) (hw_dqpn meta) = Some s ->
  local_ack_one (hw_psn meta) s = Done r s' ->
  run_task (meta_process (MetaHeaderWrite meta)) h =
  Done (header_write_effects meta r (local_base_psn s')) (with_recv (hw_dqpn meta) s' h).
Proof.
  intros Hs Hr. unfold run_task, meta_process, handle_meta, mbind, M_bind. rewrite emit_run.
  unfold handle_header_write, mbind, M_bind. cbn [meta_qpn app].
  rewrite (on_recv_run _ get _ _ s s s Hs eq_refl), with_recv_same by done.
  rewrite when_emit_run, (on_recv_run _ _ _ _ s r s' Hs Hr).
  assert (Hif : forall out, if_some (default None (Some r))
      (fun base_psn => emit (EffCompletion (CtAckRecv (hw_dqpn meta) base_psn)))
      (mk_actor (with_recv (hw_dqpn meta) s' h) out) =
    Done tt (mk_actor (with_recv (hw_dqpn meta) s' h)
      (out ++ match r with Some b => [EffCompletion (CtAckRecv (hw_dqpn meta) b)] | None => [] end)))
    by (intros out; destruct r; cbn; by rewrite ?app_nil_r).
  rewrite Hif. erewrite on_recv_run; [|by eapply get_with_recv|reflexivity].
  rewrite when_emit_run, with_recv_same by by eapply get_with_recv.
  unfold header_write_effects. cbn [self sent mret M_ret]. by rewrite !app_assoc.
Qed.

Lemma ack_local_hw_run h meta s r s' :
  get_qp (mh_recv_table h) (alh_qpn meta) = Some s ->
  local_ack_bitmap (alh_psn_now meta) (alh_now_bitmap meta) s = Done (Some r) s' ->
  run_task (meta_process (MetaAckLocalHw meta)) h =
  Done [EffTimeout (AtRecvMeta (alh_qpn meta)); EffCompletion (CtAckRecv (alh_qpn meta) r);
        EffRetransmit (PrAck (alh_qpn meta) r)] (with_recv (alh_qpn meta) s' h).
Proof.
  intros Hs Hr. unfold run_task, meta_process, handle_meta, mbind, M_bind. rewrite emit_run.
  unfold handle_ack_local_hw, mbind, M_bind. by rewrite (on_recv_run _ _ _ _ s _ s' Hs Hr).
Qed.

(** The packet at the base of the window moves the base past it. *)
Lemma ack_one_at_base `{!BitVecLaws V} (s : LocalAckTracker V) w :
  tracks (l_tracker s) w ->
  exists b s', local_ack_one (psn_of (w_base w)) s = Done (Some (psn_of b)) s' /\
    w_base w < b /\ (forall n, w_base w < n < b -> n ∈ w_set w).
Proof.
  intros Ht. assert (Hr : in_reach w (w_base w)) by (split; [lia|by right]).
  pose proof (ack_one_wp _ w (w_base w) Ht Hr) as Hw. unfold implements in Hw.
  apply wp_run in Hw as (r & t' & Hrun & Hres & _).
  pose proof (tracks_wf _ _ Ht) as Hwf.
  destruct (settle_spec (mark {[w_base w]} w) (mark_wf _ _ Hwf)) as (H1 & H2 & H3 & _).
  set (w' := settle (mark {[w_base w]} w)) in *. cbn [mark w_base w_set] in H1, H2, H3.
  assert (Hlt : w_base w < w_base w').
  { destruct (decide (w_base w = w_base w')) as [He|]; [|lia]. exfalso. apply H3. rewrite <- He.
    apply elem_of_union_r, elem_of_filter. split; [lia|]. by apply elem_of_singleton. }
  exists (w_base w'), (mk_local t' (l_psn_pre s)).
  split; [|split; [done|]].
  - unfold local_ack_one, l_call. erewrite zoom_done by exact Hrun. f_equal. rewrite Hres.
    unfold w_ack_one, report. rewrite (proj2 (Z.ltb_ge _ _)) by lia. fold w'.
    cbn. by rewrite (proj2 (Z.ltb_lt _ _)).
  - intros n Hn. assert (Hin : n ∈ w_set w ∪ filter (fun n => w_base w <= n) {[w_base w]}) by (apply H2; lia).
    apply elem_of_union in Hin as [|Hin]; [done|]. apply elem_of_filter in Hin as [_ Hin].
    apply elem_of_singleton in Hin. lia.
Qed.

End lemmas.
