(* ===== verification/MetaQueue.v ===== *)
(** * The report queues

    rust-driver/src/descriptors/meta_report.rs and the queue half of
    workers/meta_report/types.rs: the device writes reports of one or two descriptors into
    its rings; the handler takes them round robin, decodes them and hands them to the
    report worker. *)

From Stdlib Require Import ZArith Lia.
From stdpp Require Import base list numbers.
From S2P Require Import Prelude RustBase Psn PsnTracker WorkReq Qp RingBuf Descriptors Tasks.
From S2P Require Import MetaHandler.

#[local] Open Scope Z_scope.

(** ** meta_report.rs: opcodes *)

Inductive RdmaOpCode : Set :=
| SendFirst | SendMiddle | SendLast | SendLastWithImmediate | SendOnly | SendOnlyWithImmediate
| RdmaWriteFirst | RdmaWriteMiddle | RdmaWriteLast | RdmaWriteLastWithImmediate | RdmaWriteOnly
| RdmaWriteOnlyWithImmediate | RdmaReadRequest | RdmaReadResponseFirst | RdmaReadResponseMiddle
| RdmaReadResponseLast | RdmaReadResponseOnly | Acknowledge | AtomicAcknowledge | CompareSwap
| FetchAdd | Resync | SendLastWithInvalidate | SendOnlyWithInvalidate.

(** The variants in the order of their numbers, from 0x00 to 0x17. *)
Definition rdma_opcodes : list RdmaOpCode :=
  [SendFirst; SendMiddle; SendLast; SendLastWithImmediate; SendOnly; SendOnlyWithImmediate;
   RdmaWriteFirst; RdmaWriteMiddle; RdmaWriteLast; RdmaWriteLastWithImmediate; RdmaWriteOnly;
   RdmaWriteOnlyWithImmediate; RdmaReadRequest; RdmaReadResponseFirst; RdmaReadResponseMiddle;
   RdmaReadResponseLast; RdmaReadResponseOnly; Acknowledge; AtomicAcknowledge; CompareSwap;
   FetchAdd; Resync; SendLastWithInvalidate; SendOnlyWithInvalidate].

Definition from_u8 (value : Z) : option RdmaOpCode := rdma_opcodes !! Z.to_nat value.

Definition is_packet (op : RdmaOpCode) : bool :=
  match op with
  | SendFirst | SendMiddle | SendLast | SendLastWithImmediate | SendOnly | SendOnlyWithImmediate
  | RdmaWriteFirst | RdmaWriteMiddle | RdmaWriteLast | RdmaWriteLastWithImmediate
  | RdmaWriteOnly | RdmaWriteOnlyWithImmediate | RdmaReadRequest | RdmaReadResponseFirst
  | RdmaReadResponseMiddle | RdmaReadResponseLast | RdmaReadResponseOnly => true
  | _ => false
  end.

Definition packet_pos (op : RdmaOpCode) : option PacketPos :=
  match op with
  | SendFirst | RdmaWriteFirst | RdmaReadResponseFirst => Some PktFirst
  | SendMiddle | RdmaWriteMiddle | RdmaReadResponseMiddle => Some PktMiddle
  | SendLast | SendLastWithImmediate | RdmaWriteLast | RdmaWriteLastWithImmediate
  | RdmaReadResponseLast | SendLastWithInvalidate => Some PktLast
  | SendOnly | SendOnlyWithImmediate | RdmaWriteOnly | RdmaWriteOnlyWithImmediate
  | RdmaReadResponseOnly | SendOnlyWithInvalidate => Some PktOnly
  | RdmaReadRequest | Acknowledge | AtomicAcknowledge | CompareSwap | FetchAdd | Resync => None
  end.

Definition op_is_ack (op : RdmaOpCode) : bool :=
  match op with Acknowledge | AtomicAcknowledge => true | _ => false end.

(** The match of [header_type]; [None] is its last branch, [unreachable!]. *)
Definition op_header_type (op : RdmaOpCode) : option HeaderType :=
  match op with
  | RdmaWriteFirst | RdmaWriteMiddle | RdmaWriteLast | RdmaWriteOnly => Some HdrWrite
  | RdmaWriteLastWithImmediate | RdmaWriteOnlyWithImmediate => Some HdrWriteWithImm
  | SendFirst | SendMiddle | SendLast | SendOnly => Some HdrSend
  | SendLastWithImmediate | SendOnlyWithImmediate => Some HdrSendWithImm
  | RdmaReadResponseFirst | RdmaReadResponseMiddle | RdmaReadResponseLast
  | RdmaReadResponseOnly => Some HdrReadResp
  | _ => None
  end.

(** ** meta_report.rs: descriptors *)

Definition MetaReportQueuePacketBasicInfoDescChunk0 : list Z := [32; 32].
Definition MetaReportQueuePacketBasicInfoDescChunk1 : list Z := [64].
Definition MetaReportQueuePacketBasicInfoDescChunk2 : list Z := [32; 8; 24].
Definition MetaReportQueuePacketBasicInfoDescChunk3 : list Z := [4; 1; 1; 1; 1; 24; 16; 16].

Definition MetaReportQueueReadReqExtendInfoDescChunk1 : list Z := [32; 32].
Definition MetaReportQueueReadReqExtendInfoDescChunk2 : list Z := [64].
Definition MetaReportQueueReadReqExtendInfoDescChunk3 : list Z := [32; 16; 16].

Definition MetaReportQueueAckDescChunk0 : list Z := [64].
Definition MetaReportQueueAckDescChunk1 : list Z := [64].
Definition MetaReportQueueAckDescChunk2 : list Z := [16; 24; 24].
Definition MetaReportQueueAckDescChunk3 : list Z := [8; 24; 8; 1; 1; 1; 1; 4; 16].

Definition MetaReportQueueAckExtraDescChunk0 : list Z := [64].
Definition MetaReportQueueAckExtraDescChunk1 : list Z := [64].

Section code.
Context `{Bilge}.

Definition pkt_common_header (d : desc) : Z := bits_get MetaReportQueuePacketBasicInfoDescChunk3 7 (d_c3 d).
Definition pkt_msn (d : desc) : Z := bits_get MetaReportQueuePacketBasicInfoDescChunk3 6 (d_c3 d).
Definition pkt_psn (d : desc) : Z := bits_get MetaReportQueuePacketBasicInfoDescChunk3 5 (d_c3 d).
Definition pkt_ecn_marked (d : desc) : bool := bits_get MetaReportQueuePacketBasicInfoDescChunk3 4 (d_c3 d) =? 1.
Definition pkt_solicited (d : desc) : bool := bits_get MetaReportQueuePacketBasicInfoDescChunk3 3 (d_c3 d) =? 1.
Definition pkt_ack_req (d : desc) : bool := bits_get MetaReportQueuePacketBasicInfoDescChunk3 2 (d_c3 d) =? 1.
Definition pkt_is_retry (d : desc) : bool := bits_get MetaReportQueuePacketBasicInfoDescChunk3 1 (d_c3 d) =? 1.
Definition pkt_dqpn (d : desc) : Z := bits_get MetaReportQueuePacketBasicInfoDescChunk2 2 (d_c2 d).
Definition pkt_total_len (d : desc) : Z := bits_get MetaReportQueuePacketBasicInfoDescChunk2 0 (d_c2 d).
Definition pkt_raddr (d : desc) : Z := bits_get MetaReportQueuePacketBasicInfoDescChunk1 0 (d_c1 d).
Definition pkt_rkey (d : desc) : Z := bits_get MetaReportQueuePacketBasicInfoDescChunk0 1 (d_c0 d).
Definition pkt_imm_data (d : desc) : Z := bits_get MetaReportQueuePacketBasicInfoDescChunk0 0 (d_c0 d).

Definition pkt_packet_pos {S} (d : desc) : M S PacketPos :=
  demand Panic (from_u8 (head_op_code (pkt_common_header d)) ≫= packet_pos).

Definition pkt_header_type {S} (d : desc) : M S HeaderType :=
  demand Panic (from_u8 (head_op_code (pkt_common_header d)) ≫= op_header_type).

Definition read_total_len (d : desc) : Z := bits_get MetaReportQueueReadReqExtendInfoDescChunk3 0 (d_c3 d).
Definition read_laddr (d : desc) : Z := bits_get MetaReportQueueReadReqExtendInfoDescChunk2 0 (d_c2 d).
Definition read_lkey (d : desc) : Z := bits_get MetaReportQueueReadReqExtendInfoDescChunk1 1 (d_c1 d).

Definition ack_is_send_by_local_hw (d : desc) : bool := bits_get MetaReportQueueAckDescChunk3 6 (d_c3 d) =? 1.
Definition ack_is_send_by_driver (d : desc) : bool := bits_get MetaReportQueueAckDescChunk3 5 (d_c3 d) =? 1.
Definition ack_psn_before_slide (d : desc) : Z := bits_get MetaReportQueueAckDescChunk3 1 (d_c3 d).
Definition ack_psn_now (d : desc) : Z := bits_get MetaReportQueueAckDescChunk2 2 (d_c2 d).
Definition ack_qpn (d : desc) : Z := bits_get MetaReportQueueAckDescChunk2 1 (d_c2 d).
Definition ack_msn (d : desc) : Z := bits_get MetaReportQueueAckDescChunk2 0 (d_c2 d).
Definition ack_now_bitmap (d : desc) : Z :=
  Z.lor (Z.shiftl (bits_get MetaReportQueueAckDescChunk1 0 (d_c1 d)) 64)
    (bits_get MetaReportQueueAckDescChunk0 0 (d_c0 d)).

Definition extra_pre_bitmap (d : desc) : Z :=
  Z.lor (Z.shiftl (bits_get MetaReportQueueAckExtraDescChunk1 0 (d_c1 d)) 64)
    (bits_get MetaReportQueueAckExtraDescChunk0 0 (d_c0 d)).

Inductive MetaReportQueueDescFirst : Set :=
| FirstPacketInfo (d : desc)
| FirstAck (d : desc).

Inductive MetaReportQueueDescNext : Set :=
| NextReadInfo (d : desc)
| NextAckExtra (d : desc).

(** [RingBufDescCommonHead::from(u16::from_le_bytes([d[30], d[31]]))] *)
Definition bytes_op (d : desc_bytes) : option RdmaOpCode :=
  from_u8 (head_op_code (from_le_bytes [nth 30 d 0; nth 31 d 0])).

(** [None] stands for [unreachable!]. *)
#[export] Instance first_deserialize : DescDeserialize (option MetaReportQueueDescFirst) := fun d =>
  rdma_opcode ← bytes_op d;
  if is_packet rdma_opcode then Some (FirstPacketInfo (deserialize d))
  else if op_is_ack rdma_opcode then Some (FirstAck (deserialize d))
  else None.

#[export] Instance next_deserialize : DescDeserialize (option MetaReportQueueDescNext) := fun d =>
  rdma_opcode ← bytes_op d;
  if is_packet rdma_opcode then Some (NextReadInfo (deserialize d))
  else if op_is_ack rdma_opcode then Some (NextAckExtra (deserialize d))
  else None.

(** ** types.rs: a queue *)

Inductive MetaReportQueueDesc : Set :=
| WritePacketInfo (d : desc)
| ReadPacketInfo (f n : desc)
| CnpPacketInfo (d : desc)
| DescAck (d : desc)
| DescNak (f n : desc).

(** [o.map(deserialize)] where deserialization may not return *)
Definition reached {S A} (o : option (option A)) : M S (option A) :=
  match o with
  | None => mret None
  | Some None => panic
  | Some (Some a) => mret (Some a)
  end.

(** The match of [pop]. *)
Definition pair_up {S} (first : option MetaReportQueueDescFirst) (next : option MetaReportQueueDescNext) :
    M S (option MetaReportQueueDesc) :=
  match first, next with
  | None, None => mret None
  | Some (FirstPacketInfo d), None =>
      mret (Some (if pkt_ecn_marked d then CnpPacketInfo d else WritePacketInfo d))
  | Some (FirstAck d), None => mret (Some (DescAck d))
  | Some (FirstPacketInfo f), Some (NextReadInfo n) => mret (Some (ReadPacketInfo f n))
  | Some (FirstAck f), Some (NextAckExtra n) => mret (Some (DescNak f n))
  | _, _ => panic
  end.

Definition MetaReportQueue_pop : M (DmaRingBuf desc_bytes) (option MetaReportQueueDesc) :=
  '(first, next) ← desc_pop_two (A := option MetaReportQueueDescFirst) (B := option MetaReportQueueDescNext);
  first ← reached first;
  next ← reached next;
  pair_up first next.

(** ** types.rs: the handler *)

Definition remap_psn (psn : Psn) : Psn := psn_sub psn 112.

Definition meta_of {S} (d : MetaReportQueueDesc) : M S ReportMeta :=
  match d with
  | WritePacketInfo d =>
      pos ← pkt_packet_pos d;
      header_type ← pkt_header_type d;
      mret (MetaHeaderWrite (mk_hw pos (pkt_msn d) (pkt_psn d) (pkt_solicited d) (pkt_ack_req d)
        (pkt_is_retry d) (pkt_dqpn d) (pkt_total_len d) (pkt_raddr d) (pkt_rkey d) (pkt_imm_data d)
        header_type))
  | ReadPacketInfo f n =>
      mret (MetaHeaderRead (mk_hr (pkt_msn f) (pkt_psn f) (pkt_dqpn f) (pkt_raddr f) (pkt_rkey f)
        (read_total_len n) (read_laddr n) (read_lkey n) (pkt_ack_req f)))
  | CnpPacketInfo d => mret (MetaCnp (pkt_dqpn d))
  | DescAck d =>
      match ack_is_send_by_driver d, ack_is_send_by_local_hw d with
      | true, false => mret (MetaAckRemoteDriver (mk_ard (ack_qpn d) (ack_psn_now d)))
      | false, true =>
          mret (MetaAckLocalHw (mk_alh (ack_qpn d) (remap_psn (ack_psn_now d)) (ack_now_bitmap d)))
      | _, _ => panic
      end
  | DescNak f n =>
      match ack_is_send_by_driver f, ack_is_send_by_local_hw f with
      | true, false =>
          mret (MetaNakRemoteDriver (mk_nrd (ack_qpn f) (ack_psn_now f) (ack_psn_before_slide f)))
      | false, true =>
          mret (MetaNakLocalHw (mk_nlh (ack_qpn f) (ack_msn f) (remap_psn (ack_psn_now f))
            (ack_now_bitmap f) (remap_psn (ack_psn_before_slide f)) (extra_pre_bitmap n)))
      | false, false =>
          mret (MetaNakRemoteHw (mk_nrh (ack_qpn f) (ack_msn f) (remap_psn (ack_psn_now f))
            (ack_now_bitmap f) (remap_psn (ack_psn_before_slide f)) (extra_pre_bitmap n)))
      | true, true => panic
      end
  end.

(** A queue with the last tail written to its register; the registers belong to the
    device: whether a write succeeds and what the head register of queue [idx] reads,
    [None] for an I/O error. *)
Record MetaReportQueueCtx : Type := mk_mqc { mqc_queue : DmaRingBuf desc_bytes; mqc_tail_reg : option Z }.

Record MetaReportQueueHandler : Type := mk_mqh { mqh_inner : list MetaReportQueueCtx; mqh_pos : Z }.

Class MetaReportRing : Type := { tail_written : nat -> bool; head_read : nat -> option Z }.

Context `{MetaReportRing}.

(** After a report was taken from queue [idx]: both registers are visited. *)
Definition sync_registers (idx : nat) (c : MetaReportQueueCtx) : MetaReportQueueCtx :=
  let reg := if tail_written idx then Some (wrap 32 (rb_tail (mqc_queue c))) else mqc_tail_reg c in
  let queue := match head_read idx with
               | Some head_ptr => set_head head_ptr (mqc_queue c)
               | None => mqc_queue c
               end in
  mk_mqc queue reg.

(** [for i in 0..num_queues], from [i] with [n] iterations left *)
Fixpoint recv_loop (n : nat) (i : Z) : M MetaReportQueueHandler (option ReportMeta) :=
  match n with
  | O => mret None
  | S n' =>
      h ← get;
      let num_queues := Z.of_nat (length (mqh_inner h)) in
      let idx := Z.to_nat ((mqh_pos h + i) mod num_queues) in
      ctx ← demand Panic (mqh_inner h !! idx);
      match MetaReportQueue_pop (mqc_queue ctx) with
      | Fault f => fail f
      | Done None q =>
          modify (fun h => mk_mqh (<[idx := mk_mqc q (mqc_tail_reg ctx)]> (mqh_inner h)) (mqh_pos h));;
          recv_loop n' (i + 1)
      | Done (Some d) q =>
          let ctx' := sync_registers idx (mk_mqc q (mqc_tail_reg ctx)) in
          modify (fun h => mk_mqh (<[idx := ctx']> (mqh_inner h)) ((Z.of_nat idx + 1) mod num_queues));;
          meta ← meta_of d;
          mret (Some meta)
      end
  end.

Definition try_recv_meta : M MetaReportQueueHandler (option ReportMeta) :=
  h ← get; recv_loop (length (mqh_inner h)) 0.

End code.

(** ** Lemmas: fields *)

(** 32 bytes. *)
Definition bytes_ok (x : desc_bytes) : Prop := length x = 32%nat /\ Forall (in_width 8) x.

Lemma header_bytes a b c d e f g h :
  Forall (in_width 8) [a; b; c; d; e; f; g; h] ->
  from_le_bytes [a; b; c; d; e; f; g; h] / 2 ^ 48 mod 2 ^ 16 = from_le_bytes [g; h].
Proof.
  intros Hb. repeat match goal with Hb : Forall _ (_ :: _) |- _ => apply Forall_cons_1 in Hb as [? Hb] end.
  unfold in_width in *. cbn [from_le_bytes].
  replace (_ / 2 ^ 48) with (g + 256 * h); [rewrite Z.mod_small; lia|].
  apply (Z.div_unique_pos _ _ _ (a + 256 * (b + 256 * (c + 256 * (d + 256 * (e + 256 * f)))))); lia.
Qed.

Lemma last_bytes x :
  bytes_ok x -> exists l, length l = 6%nat /\ slice x 24 32 = l ++ [nth 30 x 0; nth 31 x 0] /\
    Forall (in_width 8) (l ++ [nth 30 x 0; nth 31 x 0]).
Proof.
  intros [Hl Hx]. do 32 (destruct x as [|? x]; [discriminate Hl|]). destruct x; [|discriminate Hl].
  eexists [_; _; _; _; _; _]. split; [done|]. split; [reflexivity|].
  cbn [nth app]. repeat match goal with Hx : Forall _ (_ :: _) |- _ => apply Forall_cons_1 in Hx as [? Hx] end.
  repeat (constructor; [assumption|]). constructor.
Qed.

Section fields.
Context `{BilgeLaws}.

(** Both ways of reading the operation of a packet descriptor agree. *)
Lemma common_header_bytes x :
  bytes_ok x -> pkt_common_header (deserialize x) = from_le_bytes [nth 30 x 0; nth 31 x 0].
Proof.
  intros Hx. destruct (last_bytes x Hx) as (l & Hl & Hs & Hb). unfold pkt_common_header.
  rewrite bits_get_field. unfold deserialize, desc_deserialize. cbn [d_c3]. rewrite Hs.
  do 6 (destruct l as [|? l]; [discriminate Hl|]). destruct l; [|discriminate Hl]. cbn [app] in *.
  rewrite (unpack_lookup _ 7 16); [|by repeat constructor| |done].
  - exact (header_bytes _ _ _ _ _ _ _ _ Hb).
  - clear -Hb. induction Hb as [|b l0 Hb _ IH]; cbn [from_le_bytes]; [lia|]. unfold in_width in Hb. lia.
Qed.

End fields.

(** ** Lemmas: reports *)

(** What a report of one or two descriptors decodes to. *)
Definition decode `{Bilge} {S} (x : desc_bytes) (y : option desc_bytes) : M S ReportMeta :=
  first ← reached (Some (deserialize x));
  next ← reached (deserialize <$> y);
  o ← pair_up first next;
  d ← demand Panic o;
  meta_of d.

(** *** The formats of the device

    A descriptor is a number of 256 bits, its first byte the lowest; the positions of its
    fields are those of the structures in meta_report.rs, and the operation codes are the
    ones of the InfiniBand base transport header, which the driver lists there too. *)
Definition field (x : desc_bytes) (position width : Z) : Z := from_le_bytes x / 2 ^ position mod 2 ^ width.
Definition flag (x : desc_bytes) (position : Z) : bool := field x position 1 =? 1.
Definition opcode (x : desc_bytes) : Z := nth 30 x 0 mod 256.

(** The operations that carry data (or ask for it, 0x0c), and the two acknowledgements. *)
Definition is_data (o : Z) : bool := (0x00 <=? o) && (o <=? 0x10).
Definition is_acknowledge (o : Z) : bool := (o =? 0x11) || (o =? 0x12).

Definition data_kind (o : Z) : option (PacketPos * HeaderType) :=
  match o with
  | 0x00 => Some (PktFirst, HdrSend) | 0x01 => Some (PktMiddle, HdrSend)
  | 0x02 => Some (PktLast, HdrSend) | 0x03 => Some (PktLast, HdrSendWithImm)
  | 0x04 => Some (PktOnly, HdrSend) | 0x05 => Some (PktOnly, HdrSendWithImm)
  | 0x06 => Some (PktFirst, HdrWrite) | 0x07 => Some (PktMiddle, HdrWrite)
  | 0x08 => Some (PktLast, HdrWrite) | 0x09 => Some (PktLast, HdrWriteWithImm)
  | 0x0a => Some (PktOnly, HdrWrite) | 0x0b => Some (PktOnly, HdrWriteWithImm)
  | 0x0d => Some (PktFirst, HdrReadResp) | 0x0e => Some (PktMiddle, HdrReadResp)
  | 0x0f => Some (PktLast, HdrReadResp) | 0x10 => Some (PktOnly, HdrReadResp)
  | _ => None
  end.

(** The hardware names the packet 112 after the first of a bitmap: its window of 128 less the
    first stride of 16. *)
Definition window_start (psn : Z) : Z := (psn - 112) mod 2 ^ 24.

Definition packet_report (x : desc_bytes) : option ReportMeta :=
  if flag x 199 then Some (MetaCnp (field x 168 24))
  else
    '(pos, t) ← data_kind (opcode x);
    Some (MetaHeaderWrite (mk_hw pos (field x 224 16) (field x 200 24) (flag x 198) (flag x 197) (flag x 196)
      (field x 168 24) (field x 128 32) (field x 64 64) (field x 32 32) (field x 0 32) t)).

Definition read_report (x y : desc_bytes) : ReportMeta :=
  MetaHeaderRead (mk_hr (field x 224 16) (field x 200 24) (field x 168 24) (field x 64 64) (field x 32 32)
    (field y 192 32) (field y 128 64) (field y 96 32) (flag x 197)).

(** Bit 234: sent by a driver; bit 235: by the own hardware. *)
Definition ack_report (x : desc_bytes) : option ReportMeta :=
  match flag x 234, flag x 235 with
  | true, false => Some (MetaAckRemoteDriver (mk_ard (field x 144 24) (field x 168 24)))
  | false, true => Some (MetaAckLocalHw (mk_alh (field x 144 24) (window_start (field x 168 24)) (field x 0 128)))
  | _, _ => None
  end.

Definition nak_report (x y : desc_bytes) : option ReportMeta :=
  match flag x 234, flag x 235 with
  | true, false => Some (MetaNakRemoteDriver (mk_nrd (field x 144 24) (field x 168 24) (field x 200 24)))
  | false, true => Some (MetaNakLocalHw (mk_nlh (field x 144 24) (field x 128 16) (window_start (field x 168 24)) (field x 0 128)
      (window_start (field x 200 24)) (field y 0 128)))
  | false, false => Some (MetaNakRemoteHw (mk_nrh (field x 144 24) (field x 128 16) (window_start (field x 168 24)) (field x 0 128)
      (window_start (field x 200 24)) (field y 0 128)))
  | true, true => None
  end.

(** What the device reports with one or two descriptors. *)
Definition report_of (x : desc_bytes) (y : option desc_bytes) : option ReportMeta :=
  match y with
  | None => if is_data (opcode x) then packet_report x else if is_acknowledge (opcode x) then ack_report x else None
  | Some y =>
      if is_data (opcode x) && is_data (opcode y) then Some (read_report x y)
      else if is_acknowledge (opcode x) && is_acknowledge (opcode y) then nak_report x y
      else None
  end.

(** The reports of the device. *)
Definition device_report (x : desc_bytes) (y : option desc_bytes) : Prop := is_Some (report_of x y).

(** *** Operation codes *)

#[local] Instance packet_pos_eq_dec : EqDecision PacketPos.
Proof. solve_decision. Defined.
#[local] Instance header_type_eq_dec : EqDecision HeaderType.
Proof. solve_decision. Defined.

(** The operations of the driver, against the numbers. *)
Definition opcode_agrees (o : Z) : bool :=
  match from_u8 o with
  | Some op =>
      Bool.eqb (is_packet op) (is_data o) && Bool.eqb (op_is_ack op) (is_acknowledge o) &&
      bool_decide ((p ← packet_pos op; t ← op_header_type op; Some (p, t)) = data_kind o)
  | None => negb (is_data o) && negb (is_acknowledge o)
  end.

Lemma opcodes_agree o : 0 <= o < 256 -> opcode_agrees o = true.
Proof.
  intros Ho. assert (Hall : forallb opcode_agrees (seqZ 0 256) = true) by (vm_compute; reflexivity).
  rewrite forallb_forall in Hall. apply Hall, list_elem_of_In, elem_of_seqZ. lia.
Qed.

(** *** Fields *)

Lemma from_le_bytes_app a b : from_le_bytes (a ++ b) = from_le_bytes a + 2 ^ (8 * Z.of_nat (length a)) * from_le_bytes b.
Proof.
  induction a as [|x a IH]; cbn [app from_le_bytes length]; [lia|]. rewrite IH.
  replace (8 * Z.of_nat (S (length a))) with (8 + 8 * Z.of_nat (length a)) by lia. rewrite Z.pow_add_r by lia. lia.
Qed.

Lemma from_le_bytes_range a : Forall (in_width 8) a -> 0 <= from_le_bytes a < 2 ^ (8 * Z.of_nat (length a)).
Proof.
  induction 1 as [|x a Hx _ IH]; cbn [from_le_bytes length]; [lia|]. unfold in_width in Hx.
  replace (8 * Z.of_nat (S (length a))) with (8 + 8 * Z.of_nat (length a)) by lia. rewrite Z.pow_add_r by lia. lia.
Qed.

(** Eight bytes from byte [k] on are the bits from [8 k] on. *)
Lemma chunk_bits x k :
  bytes_ok x -> (k + 8 <= 32)%nat -> from_le_bytes (slice x k (k + 8)) = from_le_bytes x / 2 ^ (8 * Z.of_nat k) mod 2 ^ 64.
Proof.
  intros [Hl Hx] Hk. unfold slice. replace (k + 8 - k)%nat with 8%nat by lia.
  assert (E : x = take k x ++ take 8 (drop k x) ++ drop 8 (drop k x)) by (by rewrite !take_drop).
  assert (Ha : length (take k x) = k) by (rewrite length_take; lia).
  assert (Hb : length (take 8 (drop k x)) = 8%nat) by (rewrite length_take, length_drop; lia).
  pose proof (from_le_bytes_range (take k x) (Forall_take _ _ _ Hx)) as Ra. rewrite Ha in Ra.
  pose proof (from_le_bytes_range (take 8 (drop k x)) (Forall_take _ _ _ (Forall_drop _ _ _ Hx))) as Rb. rewrite Hb in Rb.
  rewrite E at 2. rewrite !from_le_bytes_app, Ha, Hb. set (A := from_le_bytes (take k x)) in *.
  set (B := from_le_bytes (take 8 (drop k x))) in *. set (C := from_le_bytes (drop 8 _)).
  rewrite Z.add_comm, Z.mul_comm, Z.div_add_l, (Z.div_small A), Z.add_0_r by lia.
  change (8 * Z.of_nat 8) with 64 in *. rewrite (Z.mul_comm _ C), Z.mod_add, Z.mod_small by lia. done.
Qed.

Lemma div_mod_bits a n i w : 0 <= i -> 0 <= w -> i + w <= n -> a mod 2 ^ n / 2 ^ i mod 2 ^ w = a / 2 ^ i mod 2 ^ w.
Proof.
  intros Hi Hw Hn. replace n with (i + (n - i)) by lia. rewrite (Z.pow_add_r 2 i) by lia.
  assert (0 < 2 ^ i) by (apply Z.pow_pos_nonneg; lia). assert (0 < 2 ^ (n - i)) by (apply Z.pow_pos_nonneg; lia).
  rewrite Z.rem_mul_r, Z.mul_comm, Z.div_add, Z.div_small, Z.add_0_l by (try apply Z.mod_pos_bound; lia).
  replace (n - i) with (w + (n - i - w)) by lia. rewrite Z.pow_add_r by lia.
  assert (0 < 2 ^ w) by (apply Z.pow_pos_nonneg; lia). assert (0 < 2 ^ (n - i - w)) by (apply Z.pow_pos_nonneg; lia).
  rewrite Z.rem_mul_r by lia. rewrite Z.mul_comm, Z.mod_add, Z.mod_mod by lia. done.
Qed.

Section decode.
Context `{BilgeLaws}.

(** A member of a chunk is the field at its place in the descriptor. *)
Lemma get_field x k hi ws i w pos :
  bytes_ok x -> (hi <= 32)%nat -> hi = (k + 8)%nat -> Forall (Z.le 0) ws -> ws !! i = Some w -> offset ws i + w <= 64 -> pos = 8 * Z.of_nat k + offset ws i ->
  bits_get ws i (from_le_bytes (slice x k hi)) = field x pos w.
Proof.
  intros Hx Hk -> Hws Hi Ho ->. rewrite chunk_bits, bits_get_field by done. pose proof (offset_nonneg ws i Hws) as Hoff.
  assert (Hw : 0 <= w) by (rewrite Forall_lookup in Hws; by apply (Hws i)).
  rewrite (unpack_lookup ws i w) by (done || by apply Z.mod_pos_bound). cbn [default from_option]. rewrite div_mod_bits by lia. unfold field.
  rewrite Z.div_div by (apply Z.pow_nonzero || apply Z.pow_pos_nonneg; lia). by rewrite <- Z.pow_add_r by lia.
Qed.

(** Rewrites a member of a chunk to its field. *)
Ltac member ws i w pos Hx :=
  rewrite (get_field _ _ _ ws i w pos Hx) by first [lia | reflexivity | repeat constructor; lia | cbn; lia].

Lemma bitmap_field x : bytes_ok x ->
  Z.lor (Z.shiftl (bits_get [64] 0 (d_c1 (deserialize x))) 64) (bits_get [64] 0 (d_c0 (deserialize x))) = field x 0 128.
Proof.
  intros Hx. unfold deserialize, desc_deserialize. cbn [d_c0 d_c1].
  member [64] 0%nat 64 64 Hx. member [64] 0%nat 64 0 Hx. unfold field. rewrite !Z.div_1_r.
  set (X := from_le_bytes x). apply Z.bits_inj'. intros n Hn.
  rewrite Z.lor_spec, Z.shiftl_spec by lia. destruct (Z.lt_ge_cases n 64).
  - rewrite (Z.testbit_neg_r _ (n - 64)), !Z.mod_pow2_bits_low by lia. done.
  - rewrite (Z.mod_pow2_bits_high X 64 n), orb_false_r by lia. destruct (Z.lt_ge_cases n 128).
    + rewrite !Z.mod_pow2_bits_low by lia. rewrite Z.div_pow2_bits by lia. f_equal. lia.
    + rewrite !Z.mod_pow2_bits_high by lia. done.
Qed.

(** The operation of a descriptor. *)
Lemma bytes_op_opcode x : bytes_op x = from_u8 (opcode x).
Proof.
  unfold bytes_op, head_op_code, opcode. rewrite bits_get_field. cbn [from_le_bytes unpack RingBufDescCommonHead].
  cbn [lookup list_lookup default from_option]. f_equal. change (2 ^ 8) with 256. rewrite Z.mul_0_r, Z.add_0_r.
  by rewrite (Z.mul_comm 256), Z.mod_add.
Qed.

Lemma opcode_known x : opcode_agrees (opcode x) = true.
Proof. apply opcodes_agree. unfold opcode. apply Z.mod_pos_bound. lia. Qed.

Lemma first_form x : (deserialize x : option MetaReportQueueDescFirst) =
  if is_data (opcode x) then Some (FirstPacketInfo (deserialize x))
  else if is_acknowledge (opcode x) then Some (FirstAck (deserialize x)) else None.
Proof.
  unfold deserialize at 1, first_deserialize. rewrite bytes_op_opcode. pose proof (opcode_known x) as Ho. unfold opcode_agrees in Ho.
  destruct (from_u8 (opcode x)) as [op|]; cbn [mbind option_bind].
  - apply andb_prop in Ho as [[->%eqb_prop ->%eqb_prop]%andb_prop _]. done.
  - by destruct (is_data _), (is_acknowledge _).
Qed.

Lemma next_form x : (deserialize x : option MetaReportQueueDescNext) =
  if is_data (opcode x) then Some (NextReadInfo (deserialize x))
  else if is_acknowledge (opcode x) then Some (NextAckExtra (deserialize x)) else None.
Proof.
  unfold deserialize at 1, next_deserialize. rewrite bytes_op_opcode. pose proof (opcode_known x) as Ho. unfold opcode_agrees in Ho.
  destruct (from_u8 (opcode x)) as [op|]; cbn [mbind option_bind].
  - apply andb_prop in Ho as [[->%eqb_prop ->%eqb_prop]%andb_prop _]. done.
  - by destruct (is_data _), (is_acknowledge _).
Qed.

Lemma packet_kind x : bytes_ok x -> is_data (opcode x) = true ->
  (p ← from_u8 (head_op_code (pkt_common_header (deserialize x))) ≫= packet_pos;
   t ← from_u8 (head_op_code (pkt_common_header (deserialize x))) ≫= op_header_type; Some (p, t)) = data_kind (opcode x).
Proof.
  intros Hx Hd. rewrite common_header_bytes by done. fold (bytes_op x). rewrite bytes_op_opcode. pose proof (opcode_known x) as Ho.
  unfold opcode_agrees in Ho. destruct (from_u8 (opcode x)) as [op|]; cbn [mbind option_bind].
  - by apply andb_prop in Ho as [_ Ho%bool_decide_eq_true].
  - by rewrite Hd in Ho.
Qed.

(** What the descriptors are recognised as. *)
Definition recognised (x : desc_bytes) (y : option desc_bytes) : option MetaReportQueueDesc :=
  match y with
  | None =>
      if is_data (opcode x) then
        Some (if pkt_ecn_marked (deserialize x) then CnpPacketInfo (deserialize x) else WritePacketInfo (deserialize x))
      else if is_acknowledge (opcode x) then Some (DescAck (deserialize x)) else None
  | Some y =>
      if is_data (opcode x) && is_data (opcode y) then Some (ReadPacketInfo (deserialize x) (deserialize y))
      else if is_acknowledge (opcode x) && is_acknowledge (opcode y) then Some (DescNak (deserialize x) (deserialize y))
      else None
  end.

Lemma data_not_ack o : is_data o = true -> is_acknowledge o = false.
Proof. unfold is_data, is_acknowledge. intros Ho. destruct (Z.eqb_spec o 0x11), (Z.eqb_spec o 0x12); subst; done. Qed.

Lemma decode_recognised {S} (s : S) x y :
  decode x y s = match recognised x y with Some d => meta_of d s | None => Fault Panic end.
Proof.
  unfold decode, recognised, mbind, M_bind. rewrite first_form. pose proof (data_not_ack (opcode x)) as Hx.
  destruct y as [y|]; cbn [fmap option_fmap option_map].
  - rewrite next_form. pose proof (data_not_ack (opcode y)) as Hy.
    destruct (is_data (opcode x)); rewrite ?Hx by done; [|destruct (is_acknowledge (opcode x))];
      (destruct (is_data (opcode y)); rewrite ?Hy by done; [|destruct (is_acknowledge (opcode y))]); done.
  - destruct (is_data (opcode x)); [|by destruct (is_acknowledge (opcode x))]. done.
Qed.

(** The accessors of a packet descriptor. *)
Lemma packet_fields x : bytes_ok x ->
  pkt_msn (deserialize x) = field x 224 16 /\ pkt_psn (deserialize x) = field x 200 24 /\
  pkt_ecn_marked (deserialize x) = flag x 199 /\ pkt_solicited (deserialize x) = flag x 198 /\
  pkt_ack_req (deserialize x) = flag x 197 /\ pkt_is_retry (deserialize x) = flag x 196 /\
  pkt_dqpn (deserialize x) = field x 168 24 /\ pkt_total_len (deserialize x) = field x 128 32 /\
  pkt_raddr (deserialize x) = field x 64 64 /\ pkt_rkey (deserialize x) = field x 32 32 /\ pkt_imm_data (deserialize x) = field x 0 32.
Proof.
  intros Hx. unfold deserialize, desc_deserialize, pkt_msn, pkt_psn, pkt_ecn_marked, pkt_solicited, pkt_ack_req, pkt_is_retry, pkt_dqpn,
    pkt_total_len, pkt_raddr, pkt_rkey, pkt_imm_data. cbn [d_c0 d_c1 d_c2 d_c3].
  member MetaReportQueuePacketBasicInfoDescChunk3 6%nat 16 224 Hx. member MetaReportQueuePacketBasicInfoDescChunk3 5%nat 24 200 Hx.
  member MetaReportQueuePacketBasicInfoDescChunk3 4%nat 1 199 Hx. member MetaReportQueuePacketBasicInfoDescChunk3 3%nat 1 198 Hx.
  member MetaReportQueuePacketBasicInfoDescChunk3 2%nat 1 197 Hx. member MetaReportQueuePacketBasicInfoDescChunk3 1%nat 1 196 Hx.
  member MetaReportQueuePacketBasicInfoDescChunk2 2%nat 24 168 Hx. member MetaReportQueuePacketBasicInfoDescChunk2 0%nat 32 128 Hx.
  member MetaReportQueuePacketBasicInfoDescChunk1 0%nat 64 64 Hx. member MetaReportQueuePacketBasicInfoDescChunk0 1%nat 32 32 Hx.
  member MetaReportQueuePacketBasicInfoDescChunk0 0%nat 32 0 Hx. done.
Qed.

Lemma read_fields y : bytes_ok y ->
  read_total_len (deserialize y) = field y 192 32 /\ read_laddr (deserialize y) = field y 128 64 /\
  read_lkey (deserialize y) = field y 96 32.
Proof.
  intros Hy. unfold deserialize, desc_deserialize, read_total_len, read_laddr, read_lkey. cbn [d_c0 d_c1 d_c2 d_c3].
  member MetaReportQueueReadReqExtendInfoDescChunk3 0%nat 32 192 Hy. member MetaReportQueueReadReqExtendInfoDescChunk2 0%nat 64 128 Hy.
  member MetaReportQueueReadReqExtendInfoDescChunk1 1%nat 32 96 Hy. done.
Qed.

Lemma ack_fields x : bytes_ok x ->
  ack_is_send_by_local_hw (deserialize x) = flag x 235 /\ ack_is_send_by_driver (deserialize x) = flag x 234 /\
  ack_psn_before_slide (deserialize x) = field x 200 24 /\ ack_psn_now (deserialize x) = field x 168 24 /\
  ack_qpn (deserialize x) = field x 144 24 /\ ack_msn (deserialize x) = field x 128 16 /\
  ack_now_bitmap (deserialize x) = field x 0 128 /\ extra_pre_bitmap (deserialize x) = field x 0 128.
Proof.
  intros Hx. split_and!; [| | | | | |exact (bitmap_field x Hx)..];
    unfold deserialize, desc_deserialize, ack_is_send_by_local_hw, ack_is_send_by_driver, ack_psn_before_slide, ack_psn_now, ack_qpn, ack_msn;
    cbn [d_c0 d_c1 d_c2 d_c3].
  - by member MetaReportQueueAckDescChunk3 6%nat 1 235 Hx.
  - by member MetaReportQueueAckDescChunk3 5%nat 1 234 Hx.
  - by member MetaReportQueueAckDescChunk3 1%nat 24 200 Hx.
  - by member MetaReportQueueAckDescChunk2 2%nat 24 168 Hx.
  - by member MetaReportQueueAckDescChunk2 1%nat 24 144 Hx.
  - by member MetaReportQueueAckDescChunk2 0%nat 16 128 Hx.
Qed.

Lemma remap_window psn : remap_psn psn = window_start psn.
Proof. unfold remap_psn, window_start, psn_sub. by rewrite land_PSN_MASK, mod24_wrap32. Qed.

(** A packet in one descriptor. *)
Lemma decode_packet {S} (s : S) x : bytes_ok x -> is_data (opcode x) = true ->
  decode x None s = match packet_report x with Some m => Done m s | None => Fault Panic end.
Proof.
  intros Hx Hd. rewrite decode_recognised. unfold recognised, packet_report. rewrite Hd.
  destruct (packet_fields x Hx) as (E1 & E2 & E3 & E4 & E5 & E6 & E7 & E8 & E9 & E10 & E11). rewrite E3.
  destruct (flag x 199); cbn [meta_of]; [by rewrite E7|]. rewrite E1, E2, E4, E5, E6, E7, E8, E9, E10, E11.
  rewrite <- packet_kind by done. unfold pkt_packet_pos, pkt_header_type, mbind at 1 2, M_bind.
  destruct (_ ≫= packet_pos) as [p|]; [|done]. cbn [demand mret M_ret]. by destruct (_ ≫= op_header_type) as [t|].
Qed.

(** Descriptors decode to the report that the device made. *)
Lemma decode_exact {S} (s : S) x y : bytes_ok x -> from_option bytes_ok True y ->
  decode x y s = match report_of x y with Some m => Done m s | None => Fault Panic end.
Proof.
  intros Hx Hy. destruct (is_data (opcode x)) eqn:Hd, y as [y|]; cbn [report_of from_option] in *; rewrite ?Hd.
  - rewrite decode_recognised. cbn [recognised]. rewrite Hd, (data_not_ack _ Hd). destruct (is_data (opcode y)); [|done].
    destruct (packet_fields x Hx) as (E1 & E2 & _ & _ & E5 & _ & E7 & _ & E9 & E10 & _), (read_fields y Hy) as (F1 & F2 & F3).
    cbn [andb meta_of]. by rewrite E1, E2, E5, E7, E9, E10, F1, F2, F3.
  - by apply decode_packet.
  - rewrite decode_recognised. cbn [recognised]. rewrite Hd. destruct (is_acknowledge (opcode x) && _); [|done].
    destruct (ack_fields x Hx) as (E1 & E2 & E3 & E4 & E5 & E6 & E7 & _), (ack_fields y Hy) as (_ & _ & _ & _ & _ & _ & _ & F).
    cbn [andb meta_of]. unfold nak_report. rewrite E1, E2, E3, E4, E5, E6, E7, F, !remap_window. by destruct (flag x 234), (flag x 235).
  - rewrite decode_recognised. cbn [recognised]. rewrite Hd. destruct (is_acknowledge (opcode x)); [|done].
    destruct (ack_fields x Hx) as (E1 & E2 & E3 & E4 & E5 & E6 & E7 & _).
    cbn [meta_of]. unfold ack_report. rewrite E1, E2, E4, E5, E7, !remap_window. by destruct (flag x 234), (flag x 235).
Qed.

(** A report of the device decodes, whatever its second descriptor holds. *)
Lemma decode_report {S} (s : S) x y : bytes_ok x -> device_report x y -> exists m, decode x y s = Done m s.
Proof.
  intros Hx [m Hm]. destruct y as [y|]; [|rewrite decode_exact by done; rewrite Hm; eauto].
  rewrite decode_recognised. cbn [recognised report_of] in *. destruct (is_data (opcode x) && _); [cbn [meta_of]; eauto|].
  destruct (is_acknowledge (opcode x) && _); [|done]. destruct (ack_fields x Hx) as (E1 & E2 & _). cbn [meta_of].
  unfold nak_report in Hm. rewrite E1, E2. destruct (flag x 234), (flag x 235); eauto; done.
Qed.
End decode.

(** ** Lemmas: queues *)

(** The report at the front of a queue, if it is complete, and what is behind it. *)
Definition next_report (q : list desc_bytes) : option (desc_bytes * option desc_bytes * list desc_bytes) :=
  match q with
  | [] => None
  | x :: q' =>
      if has_next x then match q' with [] => None | y :: q'' => Some (x, Some y, q'') end
      else Some (x, None, q')
  end.

(** A sequence of reports of the device, the last one possibly still incomplete. *)
Inductive reports `{Bilge} : list desc_bytes -> Prop :=
| reports_nil : reports []
| reports_one x q : bytes_ok x -> has_next x = false -> device_report x None -> reports q ->
    reports (x :: q)
| reports_two x y q : bytes_ok x -> has_next x = true -> device_report x (Some y) -> reports q ->
    reports (x :: y :: q)
| reports_part x : bytes_ok x -> has_next x = true -> reports [x].

Lemma next_report_extend q e x y q' :
  next_report q = Some (x, y, q') -> next_report (q ++ e) = Some (x, y, q' ++ e).
Proof.
  destruct q as [|a q]; [done|]. cbn. destruct (has_next a); [|by intros [= <- <- <-]].
  destruct q as [|b q]; [done|]. cbn. by intros [= <- <- <-].
Qed.

Lemma meta_of_stateless `{Bilge} {S T} (s s' : S) (t : T) d m :
  meta_of d s = Done m s' -> meta_of d t = Done m t.
Proof.
  destruct d; cbn [meta_of]; unfold mbind, M_bind, pkt_packet_pos, pkt_header_type.
  - destruct (from_u8 _ ≫= packet_pos); [|done]. destruct (from_u8 _ ≫= op_header_type); [|done]. by intros [= <- _].
  - by intros [= <- _].
  - by intros [= <- _].
  - destruct (ack_is_send_by_driver d), (ack_is_send_by_local_hw d); try done; by intros [= <- _].
  - destruct (ack_is_send_by_driver f), (ack_is_send_by_local_hw f); try done; by intros [= <- _].
Qed.


Section queue.
Context `{BilgeLaws}.
Implicit Types (r : DmaRingBuf desc_bytes) (q : list desc_bytes).

Lemma reports_next q x y q' :
  reports q -> next_report q = Some (x, y, q') -> bytes_ok x /\ device_report x y /\ reports q'.
Proof.
  intros [|? ? ? E ? ?|? ? ? ? E ? ?|? ? E]; cbn; rewrite ?E; try done; by intros [= <- <- <-].
Qed.

Lemma pop_two_none r q :
  inbox is_valid r q -> next_report q = None -> rb_pop_two zero_desc is_valid has_next r = Done (None, None) r.
Proof.
  intros Hi Hn. pose proof (rb_pop_two_run zero_desc is_valid eq_refl has_next r q Hi) as Hp.
  destruct q as [|x [|y q]]; cbn in Hn; [done| |]; destruct (has_next x); done.
Qed.

Lemma pop_two_some r q x y q' :
  inbox is_valid r q -> next_report q = Some (x, y, q') ->
  exists r', rb_pop_two zero_desc is_valid has_next r = Done (Some x, y) r' /\ inbox is_valid r' q'.
Proof.
  intros Hi Hn. pose proof (rb_pop_two_run zero_desc is_valid eq_refl has_next r q Hi) as Hp.
  destruct q as [|a [|b q]]; cbn in Hn; [done| |]; destruct (has_next a); try done; by injection Hn as -> <- <-.
Qed.

Lemma pop_none r q :
  inbox is_valid r q -> next_report q = None -> MetaReportQueue_pop r = Done None r.
Proof.
  intros Hi Hn. unfold MetaReportQueue_pop, desc_pop_two, mbind, M_bind. by rewrite (pop_two_none r q Hi Hn).
Qed.

Lemma pop_some r q x y q' m :
  inbox is_valid r q -> next_report q = Some (x, y, q') -> decode x y tt = Done m tt ->
  exists r' d, MetaReportQueue_pop r = Done (Some d) r' /\ inbox is_valid r' q' /\
    forall S (s : S), meta_of d s = Done m s.
Proof.
  intros Hi Hn Hd. destruct (pop_two_some r q x y q' Hi Hn) as (r' & Hp & Hi').
  unfold MetaReportQueue_pop, desc_pop_two, mbind, M_bind. rewrite Hp.
  cbn [fst snd fmap option_fmap option_map mret M_ret]. unfold decode, mbind, M_bind in Hd.
  cbn [fmap option_fmap option_map] in Hd.
  destruct (deserialize x : option MetaReportQueueDescFirst) as [f|]; [|done]. cbn [reached mret M_ret] in *.
  destruct y as [y|]; cbn [fmap option_fmap option_map] in *.
  - destruct (deserialize y : option MetaReportQueueDescNext) as [n|]; [|done]. cbn [reached mret M_ret] in *.
    destruct f, n; cbn [pair_up demand mret M_ret] in *; try done;
      eexists _, _; (split; [reflexivity|]); (split; [done|]); intros S s; by eapply meta_of_stateless.
  - destruct f; cbn [reached pair_up demand mret M_ret] in *;
      eexists _, _; (split; [reflexivity|]); (split; [done|]); intros S s; by eapply meta_of_stateless.
Qed.


End queue.

(** ** Lemmas: round robin *)

(** The queues hold the reports [qs]. *)
Record waiting `{Bilge} (h : MetaReportQueueHandler) (qs : list (list desc_bytes)) : Prop := {
  wt_queues : Forall2 (fun c q => inbox is_valid (mqc_queue c) q /\ reports q) (mqh_inner h) qs;
  wt_pos : 0 <= mqh_pos h < Z.of_nat (length qs) }.

(** The queue [i] places after the current one, and whether it has a complete report. *)
Definition turn (h : MetaReportQueueHandler) (qs : list (list desc_bytes)) (i : Z) : nat :=
  Z.to_nat ((mqh_pos h + i) mod Z.of_nat (length qs)).

Definition ready_at (h : MetaReportQueueHandler) (qs : list (list desc_bytes)) (i : Z) :
    option (desc_bytes * option desc_bytes * list desc_bytes) :=
  qs !! turn h qs i ≫= next_report.

Section handler.
Context `{BilgeLaws} `{MetaReportRing}.
Implicit Types (h : MetaReportQueueHandler) (qs : list (list desc_bytes)).

Lemma turn_range h qs i : waiting h qs -> (turn h qs i < length qs)%nat.
Proof.
  intros [_ Hp]. unfold turn. pose proof (Z.mod_pos_bound (mqh_pos h + i) (Z.of_nat (length qs))). lia.
Qed.

Lemma turn_lookup h qs i :
  waiting h qs -> exists c q, mqh_inner h !! turn h qs i = Some c /\ qs !! turn h qs i = Some q /\
    inbox is_valid (mqc_queue c) q /\ reports q.
Proof.
  intros Hw. pose proof (turn_range h qs i Hw) as Hr. destruct (lookup_lt_is_Some_2 qs _ Hr) as [q Hq].
  destruct (Forall2_lookup_r _ _ _ _ _ (wt_queues _ _ Hw) Hq) as (c & Hc & Hi & Hrep). by exists c, q.
Qed.

Lemma inner_length h qs : waiting h qs -> length (mqh_inner h) = length qs.
Proof. intros [Hq _]. by apply Forall2_length in Hq. Qed.

Lemma recv_skip d : forall n h qs i,
  waiting h qs -> (forall i', i <= i' < i + Z.of_nat d -> ready_at h qs i' = None) ->
  recv_loop (d + n) i h = recv_loop n (i + Z.of_nat d) h.
Proof.
  induction d as [|d IH]; intros n h qs i Hw Hn; [by rewrite Z.add_0_r|].
  destruct (turn_lookup h qs i Hw) as (c & q & Hc & Hq & Hi & _).
  assert (Hr : next_report q = None).
  { pose proof (Hn i ltac:(lia)) as Hr. unfold ready_at in Hr. by rewrite Hq in Hr. }
  cbn [Nat.add recv_loop]. unfold mbind, M_bind, get. rewrite (inner_length h qs Hw).
  fold (turn h qs i). rewrite Hc. cbn [demand mret M_ret]. rewrite (pop_none _ _ Hi Hr).
  unfold modify. replace (mk_mqc (mqc_queue c) (mqc_tail_reg c)) with c by by destruct c.
  rewrite (list_insert_id _ _ _ Hc). replace (mk_mqh (mqh_inner h) (mqh_pos h)) with h by by destruct h.
  rewrite (IH n h qs (i + 1) Hw) by (intros i' Hi'; apply Hn; lia). f_equal. lia.
Qed.

Lemma recv_take n h qs i x y q' :
  waiting h qs -> ready_at h qs i = Some (x, y, q') ->
  exists m h', recv_loop (S n) i h = Done (Some m) h' /\ decode x y tt = Done m tt /\
    waiting h' (<[turn h qs i := q']> qs) /\
    mqh_pos h' = (Z.of_nat (turn h qs i) + 1) mod Z.of_nat (length qs).
Proof.
  intros Hw Hr. destruct (turn_lookup h qs i Hw) as (c & q & Hc & Hq & Hi & Hrep).
  unfold ready_at in Hr. rewrite Hq in Hr. cbn in Hr.
  destruct (reports_next _ _ _ _ Hrep Hr) as (Hx & Hd & Hrep').
  destruct (decode_report tt x y Hx Hd) as (m & Hm).
  destruct (pop_some _ _ _ _ _ _ Hi Hr Hm) as (r' & d & Hp & Hi' & Hmeta).
  eexists m, _. cbn [recv_loop]. unfold mbind, M_bind, get. rewrite (inner_length h qs Hw).
  fold (turn h qs i). rewrite Hc. cbn [demand mret M_ret]. rewrite Hp. unfold modify. rewrite Hmeta.
  split; [reflexivity|]. split; [done|]. split; [|done]. split; cbn [mqh_inner mqh_pos].
  - apply Forall2_insert; [apply (wt_queues _ _ Hw)|]. split; [|done].
    unfold sync_registers. cbn [mqc_queue]. destruct (head_read _); [by apply inbox_set_head|done].
  - rewrite length_insert. apply Z.mod_pos_bound. pose proof (wt_pos _ _ Hw). lia.
Qed.

(** The first queue from the current one on that has a complete report. *)
Lemma first_ready h qs n :
  (forall i, 0 <= i < Z.of_nat n -> ready_at h qs i = None) \/
  exists d, (d < n)%nat /\ ready_at h qs (Z.of_nat d) <> None /\
    forall i, 0 <= i < Z.of_nat d -> ready_at h qs i = None.
Proof.
  induction n as [|n [IH|(d & Hd & Hr & Hn)]]; [left; lia| |right; exists d; split_and!; [lia|done|done]].
  destruct (ready_at h qs (Z.of_nat n)) eqn:E.
  - right. exists n. split; [lia|]. split; [congruence|done].
  - left. intros i Hi. destruct (decide (i = Z.of_nat n)) as [->|]; [done|]. apply IH. lia.
Qed.

(** One poll. *)
Lemma poll_run h qs :
  waiting h qs ->
  (try_recv_meta h = Done None h /\ forall i, 0 <= i < Z.of_nat (length qs) -> ready_at h qs i = None) \/
  exists d x y q' m h',
    (d < length qs)%nat /\ ready_at h qs (Z.of_nat d) = Some (x, y, q') /\
    (forall i, 0 <= i < Z.of_nat d -> ready_at h qs i = None) /\
    try_recv_meta h = Done (Some m) h' /\ decode x y tt = Done m tt /\
    waiting h' (<[turn h qs (Z.of_nat d) := q']> qs) /\
    mqh_pos h' = (Z.of_nat (turn h qs (Z.of_nat d)) + 1) mod Z.of_nat (length qs).
Proof.
  intros Hw. unfold try_recv_meta, mbind, M_bind, get. rewrite (inner_length h qs Hw).
  destruct (first_ready h qs (length qs)) as [Hn|(d & Hd & Hr & Hn)].
  - left. split; [|done]. rewrite <- (Nat.add_0_r (length qs)) at 1.
    by rewrite (recv_skip (length qs) 0 h qs 0 Hw) by (intros i Hi; apply Hn; lia).
  - right. destruct (ready_at h qs (Z.of_nat d)) as [[[x y] q']|] eqn:E; [|done].
    destruct (recv_take (length qs - d - 1) h qs (Z.of_nat d) x y q' Hw E) as (m & h' & Hrun & Hm & Hw' & Hp).
    exists d, x, y, q', m, h'. split_and!; try done.
    replace (length qs) with (d + S (length qs - d - 1))%nat by lia.
    rewrite (recv_skip d _ h qs 0 Hw) by (intros i Hi; apply Hn; lia). by rewrite Z.add_0_l.
Qed.

End handler.

(** [n] polls; between them the device ([dev k] after the [k]-th) may write more. *)
Fixpoint poll_many `{Bilge} `{MetaReportRing} (dev : nat -> MetaReportQueueHandler -> MetaReportQueueHandler)
    (n k : nat) : M MetaReportQueueHandler (list (option ReportMeta)) :=
  match n with
  | O => mret []
  | S n' =>
      o ← try_recv_meta;
      modify (dev k);;
      l ← poll_many dev n' (S k);
      mret (o :: l)
  end.

(** The device only adds reports behind those that are waiting. *)
Definition device_appends `{Bilge} (dev : nat -> MetaReportQueueHandler -> MetaReportQueueHandler) : Prop :=
  forall k h qs, waiting h qs -> exists qs', waiting (dev k h) qs' /\ mqh_pos (dev k h) = mqh_pos h /\
    Forall2 prefix qs qs'.

Section served.
Context `{BilgeLaws} `{MetaReportRing} (dev : nat -> MetaReportQueueHandler -> MetaReportQueueHandler).
Implicit Types (h : MetaReportQueueHandler) (qs : list (list desc_bytes)).

Lemma poll_many_total n : forall k h qs,
  device_appends dev -> waiting h qs -> exists l h', poll_many dev n k h = Done l h'.
Proof.
  induction n as [|n IH]; intros k h qs Hdev Hw; cbn [poll_many]; [eauto|].
  assert (Hstep : exists o h1 qs1, try_recv_meta h = Done o h1 /\ waiting h1 qs1).
  { destruct (poll_run h qs Hw) as [[E _]|(d & x & y & q' & m & h1 & _ & _ & _ & E & _ & Hw' & _)]; eauto 10. }
  destruct Hstep as (o & h1 & qs1 & E & Hw1). destruct (Hdev k h1 qs1 Hw1) as (qs2 & Hw2 & _).
  destruct (IH (S k) (dev k h1) qs2 Hdev Hw2) as (l & h' & El).
  unfold mbind, M_bind, modify. rewrite E, El. eauto.
Qed.

Lemma turn_dist h qs j :
  waiting h qs -> (j < length qs)%nat ->
  turn h qs ((Z.of_nat j - mqh_pos h) mod Z.of_nat (length qs)) = j.
Proof.
  intros [_ Hp] Hj. unfold turn. rewrite Zplus_mod_idemp_r.
  replace (mqh_pos h + (Z.of_nat j - mqh_pos h)) with (Z.of_nat j) by lia. rewrite Z.mod_small by lia. lia.
Qed.

(** The queue moves closer to its turn with every report taken from another one. *)
Lemma dist_step h qs h' j d :
  waiting h qs -> (j < length qs)%nat -> 0 <= d < (Z.of_nat j - mqh_pos h) mod Z.of_nat (length qs) ->
  mqh_pos h' = (Z.of_nat (turn h qs d) + 1) mod Z.of_nat (length qs) ->
  turn h qs d <> j /\
  (Z.of_nat j - mqh_pos h') mod Z.of_nat (length qs) =
  (Z.of_nat j - mqh_pos h) mod Z.of_nat (length qs) - d - 1.
Proof.
  intros Hw Hj Hd ->. set (n := Z.of_nat (length qs)) in *. pose proof (wt_pos _ _ Hw) as Hp. fold n in Hp.
  pose proof (Z.mod_pos_bound (Z.of_nat j - mqh_pos h) n ltac:(lia)) as HD.
  set (D := (Z.of_nat j - mqh_pos h) mod n) in *.
  assert (Et : Z.of_nat (turn h qs d) = (mqh_pos h + d) mod n).
  { unfold turn. fold n. pose proof (Z.mod_pos_bound (mqh_pos h + d) n ltac:(lia)). lia. }
  assert (ED : (Z.of_nat j - mqh_pos h - d - 1) mod n = D - d - 1).
  { replace (Z.of_nat j - mqh_pos h - d - 1) with (Z.of_nat j - mqh_pos h - (d + 1)) by lia.
    rewrite Zminus_mod. fold D. rewrite (Z.mod_small (d + 1)) by lia. rewrite Z.mod_small; lia. }
  split.
  - intros Hcl. pose proof (turn_dist h qs j Hw Hj) as Hs. fold n D in Hs.
    assert (Hz : (mqh_pos h + D) mod n = (mqh_pos h + d) mod n).
    { unfold turn in Hcl, Hs. fold n in Hcl, Hs.
      pose proof (Z.mod_pos_bound (mqh_pos h + D) n ltac:(lia)).
      pose proof (Z.mod_pos_bound (mqh_pos h + d) n ltac:(lia)). lia. }
    assert (Hdd : (D - d) mod n = 0).
    { replace (D - d) with ((mqh_pos h + D) - (mqh_pos h + d)) by lia.
      rewrite Zminus_mod, Hz, Z.sub_diag. apply Z.mod_0_l. lia. }
    rewrite Z.mod_small in Hdd; lia.
  - rewrite Et, <- ED. rewrite Zplus_mod_idemp_l, Zminus_mod_idemp_r. f_equal. lia.
Qed.

Lemma served_in_time D : forall k n h qs j q x y q',
  device_appends dev -> waiting h qs -> qs !! j = Some q -> next_report q = Some (x, y, q') ->
  (Z.of_nat j - mqh_pos h) mod Z.of_nat (length qs) = Z.of_nat D -> (D < n)%nat ->
  exists m l h', poll_many dev n k h = Done l h' /\ decode x y tt = Done m tt /\ Some m ∈ l.
Proof.
  induction D as [D IH] using lt_wf_ind. intros k n h qs j q x y q' Hdev Hw Hj Hr HD Hn.
  pose proof (lookup_lt_Some _ _ _ Hj) as Hjl. destruct n as [|n]; [lia|]. cbn [poll_many].
  pose proof (turn_dist h qs j Hw Hjl) as Ht. rewrite HD in Ht.
  assert (Hready : ready_at h qs (Z.of_nat D) = Some (x, y, q')) by (unfold ready_at; rewrite Ht, Hj; exact Hr).
  pose proof (wt_pos _ _ Hw) as Hp.
  pose proof (Z.mod_pos_bound (Z.of_nat j - mqh_pos h) (Z.of_nat (length qs)) ltac:(lia)) as Hb.
  destruct (poll_run h qs Hw) as [[_ Hnone]|(d & x1 & y1 & q1 & m & h1 & Hd & Hrd & Hfirst & E & Hm & Hw1 & Hp1)].
  { rewrite Hnone in Hready by lia. done. }
  destruct (decide (D < d)%nat) as [Hlt|Hge]; [rewrite Hfirst in Hready by lia; done|].
  destruct (Hdev k h1 _ Hw1) as (qs2 & Hw2 & Hp2 & Hpre).
  unfold mbind, M_bind, modify. rewrite E. destruct (decide (d = D)) as [->|Hne].
  - destruct (poll_many_total n (S k) (dev k h1) qs2 Hdev Hw2) as (l & h' & El). rewrite El.
    rewrite Hready in Hrd. injection Hrd as <- <- <-. exists m. eexists _, _. split; [reflexivity|]. split; [done|].
    apply elem_of_cons. by left.
  - destruct (dist_step h qs h1 j (Z.of_nat d) Hw Hjl ltac:(lia) Hp1) as [Hother Hdist].
    assert (Hj1 : <[turn h qs (Z.of_nat d):=q1]> qs !! j = Some q) by (by rewrite list_lookup_insert_ne).
    destruct (Forall2_lookup_l _ _ _ _ _ Hpre Hj1) as (q2 & Hj2 & [e ->]).
    assert (Hlen : length qs2 = length qs) by (apply Forall2_length in Hpre; rewrite length_insert in Hpre; done).
    destruct (IH (D - d - 1)%nat ltac:(lia) (S k) n (dev k h1) qs2 j (q ++ e) x y (q' ++ e) Hdev Hw2 Hj2)
      as (m' & l & h' & El & Hm' & Hin); [by apply next_report_extend|rewrite Hp2, Hlen; lia|lia|].
    rewrite El. exists m'. eexists _, _. split; [reflexivity|]. split; [done|]. apply elem_of_cons. by right.
Qed.

End served.

(** ** Properties *)



(** The only packet of a write, without any flag. *)
Definition write_report : desc_bytes := replicate 30 0 ++ [0x0a; 0x80].

Lemma write_report_ok : bytes_ok write_report /\ device_report write_report None.
Proof.
  split; [split; [done|]|by eexists].
  unfold write_report. cbn. repeat (constructor; [unfold in_width; lia|]). constructor.
Qed.

Lemma one_report_ring : inbox is_valid (device_write fresh_device_ring [] write_report) [write_report].
Proof. apply (device_write_inbox is_valid); [exact fresh_device_ring_inbox|cbn [length]; lia|done]. Qed.


(** C36: no report queue starves.  A complete report at the front of any queue is decoded
    and handed out within as many polls as there are queues, however many reports the
    device adds to any of them meanwhile, and none of these polls panics. *)
Theorem reports_served `{BilgeLaws} `{MetaReportRing}
    (dev : nat -> MetaReportQueueHandler -> MetaReportQueueHandler) h qs j q x y q' :
  device_appends dev -> waiting h qs -> qs !! j = Some q -> next_report q = Some (x, y, q') ->
  exists m l h', poll_many dev (length qs) 0 h = Done l h' /\ decode x y tt = Done m tt /\ Some m ∈ l.
Proof.
  intros Hdev Hw Hj Hr. pose proof (wt_pos _ _ Hw) as Hp.
  pose proof (Z.mod_pos_bound (Z.of_nat j - mqh_pos h) (Z.of_nat (length qs)) ltac:(lia)) as Hb.
  eapply (served_in_time dev (Z.to_nat ((Z.of_nat j - mqh_pos h) mod Z.of_nat (length qs))) 0); try done; lia.
Qed.

#[local] Instance quiet_registers : MetaReportRing := {| tail_written _ := true; head_read _ := None |}.

(** Two queues, the second with a report. *)
Definition sample_queues : MetaReportQueueHandler :=
  mk_mqh [mk_mqc fresh_device_ring None; mk_mqc (device_write fresh_device_ring [] write_report) None] 0.

Lemma sample_waiting : waiting sample_queues [[]; [write_report]].
Proof.
  destruct write_report_ok as [Hx Hd]. split; [|cbn; lia].
  constructor; [|constructor; [|constructor]]; (split; [|]); cbn [mqc_queue].
  - exact fresh_device_ring_inbox.
  - constructor.
  - exact one_report_ring.
  - constructor; try done. constructor.
Qed.

Lemma reports_served_witness :
  exists m l h', poll_many (fun _ h => h) 2 0 sample_queues = Done l h' /\
    decode write_report None tt = Done m tt /\ Some m ∈ l.
Proof.
  refine (reports_served (fun _ h => h) sample_queues [[]; [write_report]] 1 [write_report] write_report None []
    _ sample_waiting eq_refl eq_refl).
  intros k h qs Hw. exists qs. split; [done|]. split; [done|].
  clear Hw. induction qs as [|a qs IH]; constructor; done.
Defined.

(** One packet with the congestion mark stops the report worker.  When the first
    queue with a report holds a packet in one descriptor that carries the mark, the poll
    returns it as a congestion notification, and processing that panics whatever the
    state of the trackers. *)
Theorem congestion_mark_stops_worker `{BilgeLaws} `{MetaReportRing} {V} `{BitVec V} h qs d x q' op :
  waiting h qs -> (d < length qs)%nat -> ready_at h qs (Z.of_nat d) = Some (x, None, q') ->
  (forall i, 0 <= i < Z.of_nat d -> ready_at h qs i = None) ->
  bytes_op x = Some op -> is_packet op = true -> pkt_ecn_marked (deserialize x) = true ->
  exists m h', try_recv_meta h = Done (Some m) h' /\
    forall w : MetaHandler V, run_task (meta_process m) w = Fault Panic.
Proof.
  intros Hw Hd Hr Hfirst Hop Hp He.
  destruct (poll_run h qs Hw) as [[_ Hn]|(d' & x' & y' & q1 & m & h' & Hd' & Hr' & Hf' & E & Hm & _)].
  { rewrite Hn in Hr by lia. done. }
  assert (d' = d) as ->.
  { destruct (lt_eq_lt_dec d' d) as [[?| ->]|?]; [|done|]; [rewrite Hfirst in Hr' by lia|rewrite Hf' in Hr by lia]; done. }
  rewrite Hr in Hr'. injection Hr' as <- <- <-. destruct (turn_lookup h qs (Z.of_nat d) Hw) as (c & q & _ & Hq & _ & Hrep).
  unfold ready_at in Hr. rewrite Hq in Hr. destruct (reports_next q x None q' Hrep Hr) as (Hx & _ & _).
  assert (Hdata : is_data (opcode x) = true).
  { rewrite bytes_op_opcode in Hop. pose proof (opcode_known x) as Ho. unfold opcode_agrees in Ho. rewrite Hop, Hp in Ho.
    by destruct (is_data (opcode x)). }
  rewrite decode_recognised in Hm. cbn [recognised] in Hm. rewrite Hdata, He in Hm. injection Hm as <-.
  exists (MetaCnp (pkt_dqpn (deserialize x))), h'. split; [done|]. intros w. done.
Qed.

(** The same packet with the congestion mark. *)
Definition marked_report : desc_bytes := replicate 24 0 ++ [0x80; 0; 0; 0; 0; 0; 0x0a; 0x80].

Lemma marked_report_ok : bytes_ok marked_report /\ device_report marked_report None.
Proof.
  split; [split; [done|]|by eexists].
  unfold marked_report. cbn. repeat (constructor; [unfold in_width; lia|]). constructor.
Qed.

Definition marked_queue : MetaReportQueueHandler :=
  mk_mqh [mk_mqc (device_write fresh_device_ring [] marked_report) None] 0.

Lemma marked_waiting : waiting marked_queue [[marked_report]].
Proof.
  destruct marked_report_ok as [Hx Hd]. split; [|cbn; lia].
  constructor; [|constructor]. split; cbn [mqc_queue]; [|constructor; try done; constructor].
  apply (device_write_inbox is_valid); [exact fresh_device_ring_inbox|cbn [length]; lia|done].
Qed.

Lemma congestion_mark_stops_worker_witness :
  exists m h', try_recv_meta marked_queue = Done (Some m) h' /\
    forall w : MetaHandler (list bool), run_task (meta_process m) w = Fault Panic.
Proof.
  refine (congestion_mark_stops_worker marked_queue [[marked_report]] 0 marked_report [] RdmaWriteOnly
    marked_waiting _ eq_refl _ eq_refl eq_refl eq_refl); [cbn [length]; lia|lia].
Defined.
