(* ===== verification/Workers.v ===== *)
(** * The workers together

    The request, completion, retransmission, timer and report workers of
    rust-driver/src/workers, joined by their channels: each channel is first-in
    first-out.  A worker takes the next task from its own channel and computes on its own
    state; what it has to send goes to the ends of the other channels one message after
    the other, and the other workers run in between.  The steps interleave in any order,
    with requests posted by the application and reports from the device.  The theorems
    follow the acknowledgement counters through the system, and messages across
    workers. *)

From Stdlib Require Import ZArith Lia.
From stdpp Require Import base list gmap numbers.
From S2P Require Import Prelude RustBase Psn PsnTracker WorkReq Qp Fragmenter Tasks.
From S2P Require Import Completion RdmaWorker Retransmit Timeout MetaHandler.

#[local] Open Scope Z_scope.
#[local] Open Scope cint_scope.

(** ** The system *)

(** The index of a queue pair number in the tables. *)
Definition qidx (qpn : Z) : nat := Z.to_nat (qpn_to_index qpn).

(** A worker: its state, its channel, and of its last task the messages that were sent and
    those that are still to be sent. *)
Record worker (W T : Type) : Type := mk_worker { wk_state : W; wk_rx : list T; wk_sent : list effect; wk_out : list effect }.
Arguments mk_worker {W T} _ _ _ _.
Arguments wk_state {W T} _.
Arguments wk_rx {W T} _.
Arguments wk_sent {W T} _.
Arguments wk_out {W T} _.

Definition new_worker {W T} (w : W) : worker W T := mk_worker w [] [] [].
Definition add_rx {W T} (l : list T) (k : worker W T) : worker W T := mk_worker (wk_state k) (wk_rx k ++ l) (wk_sent k) (wk_out k).
Definition put_state {W T} (w : W) (k : worker W T) : worker W T := mk_worker w (wk_rx k) (wk_sent k) (wk_out k).
Definition took {W T} (w : W) (rx : list T) (es : list effect) : worker W T := mk_worker w rx [] es.
Definition sent_one {W T} (e : effect) (es : list effect) (k : worker W T) : worker W T :=
  mk_worker (wk_state k) (wk_rx k) (wk_sent k ++ [e]) es.

Definition to_rdma (es : list effect) : list RdmaWriteTask :=
  omap (fun e => match e with EffRdma t => Some t | _ => None end) es.
Definition to_completion (es : list effect) : list CompletionTask :=
  omap (fun e => match e with EffCompletion t => Some t | _ => None end) es.
Definition to_retransmit (es : list effect) : list PacketRetransmitTask :=
  omap (fun e => match e with EffRetransmit t => Some t | _ => None end) es.
Definition to_timeout (es : list effect) : list AckTimeoutTask :=
  omap (fun e => match e with EffTimeout t => Some t | _ => None end) es.

(** A request whose packets can be cut: it is not empty and its addresses do not wrap. *)
Definition postable (wr : SendWrRdma) : Prop := request_ok wr /\ 0 < b_length (r_base wr).

(** The message that registers a send. *)
Definition reg (qpn : Z) (ev : SendEvent) : effect := EffCompletion (CtRegister qpn (EvSend ev)).

Section system.
Context `{Profile} {V : Type} `{BitVec V}.

Record system : Type := mk_system {
  sy_rdma : worker RdmaWriteWorker RdmaWriteTask; sy_completion : worker CompletionWorker CompletionTask;
  sy_retransmit : worker PacketRetransmitWorker PacketRetransmitTask; sy_timeout : worker QpAckTimeoutWorker AckTimeoutTask;
  sy_meta : worker (MetaHandler V) ReportMeta }.

(** Put messages on the channels.  Chunks and acknowledgement frames leave the system. *)
Definition deliver (es : list effect) (s : system) : system :=
  mk_system (add_rx (to_rdma es) (sy_rdma s)) (add_rx (to_completion es) (sy_completion s))
    (add_rx (to_retransmit es) (sy_retransmit s)) (add_rx (to_timeout es) (sy_timeout s)) (sy_meta s).

Definition put_rdma k (s : system) : system := mk_system k (sy_completion s) (sy_retransmit s) (sy_timeout s) (sy_meta s).
Definition put_completion k (s : system) : system := mk_system (sy_rdma s) k (sy_retransmit s) (sy_timeout s) (sy_meta s).
Definition put_retransmit k (s : system) : system := mk_system (sy_rdma s) (sy_completion s) k (sy_timeout s) (sy_meta s).
Definition put_timeout k (s : system) : system := mk_system (sy_rdma s) (sy_completion s) (sy_retransmit s) k (sy_meta s).
Definition put_meta k (s : system) : system := mk_system (sy_rdma s) (sy_completion s) (sy_retransmit s) (sy_timeout s) k.

(** What the device is relied on for: it does not acknowledge the end of a request while there
    are chunks of the request that it was not given.  [e] is a message of the report worker. *)
Definition acked_when_sent (e : effect) (s : system) : Prop :=
  match e with
  | EffCompletion (CtAckSend qpn base) => forall qpn' ev c,
      reg qpn' ev ∈ wk_sent (sy_rdma s) -> EffChunk c ∈ wk_out (sy_rdma s) -> qidx qpn' = qidx qpn ->
      psn_le (m_end_psn (se_meta ev)) base = false
  | _ => True
  end.

(** One step of the system. *)
Inductive step : system -> system -> Prop :=
| step_post_send s qpn wr : (signaled wr = true -> postable wr) -> step s (deliver [EffRdma (RwWrite qpn wr)] s)
| step_post_recv s qpn wr_id : step s (deliver [EffCompletion (CtRegister qpn (EvPostRecv (mk_post_recv qpn wr_id)))] s)
| step_poll_cq s h :
    let w := wk_state (sy_completion s) in
    step s (put_completion (put_state (mk_cw (cw_tracker_table w) (alter tail h (cw_cq_table w)) (cw_qp_table w)) (sy_completion s)) s)
| step_modify_qp s qps :
    let r := wk_state (sy_rdma s) in
    let w := wk_state (sy_completion s) in
    step s (put_rdma (put_state (mk_rw (rw_sq_ctx_table r) qps) (sy_rdma s))
      (put_completion (put_state (mk_cw (cw_tracker_table w) (cw_cq_table w) qps) (sy_completion s)) s))
| step_rdma s t rx es w :
    wk_out (sy_rdma s) = [] -> wk_rx (sy_rdma s) = t :: rx -> run_task (rdma_process t) (wk_state (sy_rdma s)) = Done es w ->
    step s (put_rdma (took w rx es) s)
| step_rdma_send s e es : wk_out (sy_rdma s) = e :: es -> step s (deliver [e] (put_rdma (sent_one e es (sy_rdma s)) s))
| step_completion s t rx es w :
    wk_out (sy_completion s) = [] -> wk_rx (sy_completion s) = t :: rx ->
    run_task (completion_process t) (wk_state (sy_completion s)) = Done es w ->
    step s (put_completion (took w rx es) s)
| step_completion_send s e es :
    wk_out (sy_completion s) = e :: es -> step s (deliver [e] (put_completion (sent_one e es (sy_completion s)) s))
| step_retransmit s t rx es w :
    wk_out (sy_retransmit s) = [] -> wk_rx (sy_retransmit s) = t :: rx ->
    run_task (retransmit_process t) (wk_state (sy_retransmit s)) = Done es w ->
    step s (put_retransmit (took w rx es) s)
| step_retransmit_send s e es :
    wk_out (sy_retransmit s) = e :: es -> step s (deliver [e] (put_retransmit (sent_one e es (sy_retransmit s)) s))
| step_timeout s now t rx es w :
    wk_out (sy_timeout s) = [] -> wk_rx (sy_timeout s) = t :: rx -> run_task (timeout_process now t) (wk_state (sy_timeout s)) = Done es w ->
    step s (put_timeout (took w rx es) s)
| step_maintainance s now es w :
    wk_out (sy_timeout s) = [] -> run_task (timeout_maintainance now) (wk_state (sy_timeout s)) = Done es w ->
    step s (put_timeout (took w (wk_rx (sy_timeout s)) es) s)
| step_timeout_send s e es : wk_out (sy_timeout s) = e :: es -> step s (deliver [e] (put_timeout (sent_one e es (sy_timeout s)) s))
| step_report s m es h :
    wk_out (sy_meta s) = [] -> run_task (meta_process m) (wk_state (sy_meta s)) = Done es h -> step s (put_meta (took h (wk_rx (sy_meta s)) es) s)
| step_report_send s e es :
    wk_out (sy_meta s) = e :: es -> acked_when_sent e s -> step s (deliver [e] (put_meta (sent_one e es (sy_meta s)) s)).

(** Freshly started workers with empty channels. *)
Definition initial (qps : QpTable QpAttr) (cqs : list (list Completion)) (timer : TransportTimer)
    (config : AckTimeoutConfig) : system :=
  mk_system (new_worker (RdmaWriteWorker_new qps)) (new_worker (CompletionWorker_new cqs qps)) (new_worker PacketRetransmitWorker_new)
    (new_worker (mk_tw (QpTable_new_with timer) (QpTable_new_with 0) config)) (new_worker MetaHandler_new).

(** The states reached in [n] steps. *)
Inductive reach qps cqs timer config : nat -> system -> Prop :=
| reach_initial : reach qps cqs timer config 0 (initial qps cqs timer config)
| reach_step n s s' :
    reach qps cqs timer config n s -> step s s' -> reach qps cqs timer config (S n) s'.

End system.
Arguments system : clear implicits.

(** ** Counting tasks *)

Definition cnt {A} (p : A -> bool) (l : list A) : Z :=
  foldr (fun a n => (if p a then 1 else 0) + n) 0 l.

Lemma cnt_app {A} (p : A -> bool) l1 l2 : cnt p (l1 ++ l2) = cnt p l1 + cnt p l2.
Proof. unfold cnt. induction l1 as [|a l1 IH]; cbn; [done|]. rewrite IH. lia. Qed.

Lemma cnt_cons {A} (p : A -> bool) a l : cnt p (a :: l) = (if p a then 1 else 0) + cnt p l.
Proof. done. Qed.

Lemma cnt_nonneg {A} (p : A -> bool) l : 0 <= cnt p l.
Proof. unfold cnt. induction l as [|a l IH]; cbn; [lia|]. destruct (p a); lia. Qed.

Lemma omap_chunks {A} (f : effect -> option A) (l : list WrChunk) :
  (forall c, f (EffChunk c) = None) -> omap f (EffChunk <$> l) = [].
Proof. intros Hf. induction l as [|c l IH]; [done|]. cbn. by rewrite Hf. Qed.

Definition is_register (i : nat) (t : CompletionTask) : bool :=
  match t with CtRegister qpn (EvSend _) => bool_decide (qidx qpn = i) | _ => false end.
Definition is_new (i : nat) (t : AckTimeoutTask) : bool :=
  match t with AtNewAckReq qpn => bool_decide (qidx qpn = i) | _ => false end.
Definition is_ack (i : nat) (t : AckTimeoutTask) : bool :=
  match t with AtAck qpn => bool_decide (qidx qpn = i) | _ => false end.

Definition task_ok (t : RdmaWriteTask) : Prop :=
  match t with RwWrite _ wr => signaled wr = true -> postable wr | _ => True end.

(** ** Workers that neither register, announce nor acknowledge *)

Definition quiet (e : effect) : Prop :=
  match e with
  | EffCompletion (CtRegister _ (EvSend _)) => False
  | EffTimeout (AtNewAckReq _) | EffTimeout (AtAck _) => False
  | EffRdma t => task_ok t
  | _ => True
  end.

Lemma quiet_counts es i :
  Forall quiet es ->
  cnt (is_register i) (to_completion es) = 0 /\ cnt (is_new i) (to_timeout es) = 0 /\
  cnt (is_ack i) (to_timeout es) = 0 /\ Forall task_ok (to_rdma es).
Proof.
  induction 1 as [|e es He _ (H1 & H2 & H3 & H4)]; [by repeat split; try constructor|].
  destruct e as [[qpn [ev|ev|ev]| |]|[]|t| | |]; cbn in He; try done.
  split; [done|]. split; [done|]. split; [done|]. by constructor.
Qed.

(** Messages that moreover do not go to the completion worker. *)
Definition silent (e : effect) : Prop := match e with EffCompletion _ => False | _ => quiet e end.

Lemma silent_quiet es : Forall silent es -> Forall quiet es /\ to_completion es = [].
Proof.
  induction 1 as [|e es He _ [IH1 IH2]]; [done|]. destruct e; cbn in He; try done; (split; [by constructor|exact IH2]).
Qed.

(** [m] sends only messages that satisfy [P]. *)
Definition sends {S A} (P : effect -> Prop) (m : M (actor S) A) : Prop :=
  forall a, Forall P (sent a) ->
    match m a with Done _ a' => Forall P (sent a') | Fault _ => True end.

Section sends.
Context {S : Type} (P : effect -> Prop).

Lemma sends_bind {A B} (m : M (actor S) A) (k : A -> M (actor S) B) :
  sends P m -> (forall a, sends P (k a)) -> sends P (m ≫= k).
Proof.
  intros Hm Hk a Ha. unfold mbind, M_bind. specialize (Hm a Ha).
  destruct (m a) as [x a'|]; [by apply Hk|done].
Qed.

Lemma sends_ret {A} (x : A) : sends P (mret x : M (actor S) A).
Proof. by intros a Ha. Qed.

Lemma sends_fault {A} f : sends P (fail f : M (actor S) A).
Proof. by intros a Ha. Qed.

Lemma sends_get : sends P (get_self : M (actor S) S).
Proof. by intros a Ha. Qed.

Lemma sends_modify f : sends P (modify_self f : M (actor S) unit).
Proof. by intros a Ha. Qed.

Lemma sends_emit e : P e -> sends P (emit e : M (actor S) unit).
Proof. intros He a Ha. cbn. apply Forall_app. split; [done|by constructor]. Qed.

Lemma sends_when b (m : M (actor S) unit) : sends P m -> sends P (when b m).
Proof. intros Hm. destruct b; [done|apply sends_ret]. Qed.

Lemma sends_for_each {A} (l : list A) (body : A -> M (actor S) unit) :
  (forall a, a ∈ l -> sends P (body a)) -> sends P (for_each l body).
Proof.
  induction l as [|a l IH]; intros Hb; [apply sends_ret|]. cbn. apply sends_bind.
  - apply Hb, list_elem_of_here.
  - intros _. apply IH. intros. apply Hb. by apply list_elem_of_further.
Qed.

Lemma run_sends (m : M (actor S) unit) w es w' : sends P m -> run_task m w = Done es w' -> Forall P es.
Proof.
  intros Hm Hr. specialize (Hm (mk_actor w []) (Forall_nil_2 _)). unfold run_task in Hr.
  destruct (m (mk_actor w [])); [|done]. by injection Hr as <- <-.
Qed.

End sends.

Create HintDb sends.
#[export] Hint Resolve sends_ret sends_fault sends_get sends_modify sends_when sends_for_each : sends.
#[export] Hint Extern 1 (sends _ (emit _)) => (apply sends_emit; cbn; auto) : sends.

Ltac solve_sends :=
  repeat first [progress (auto with sends) | apply sends_bind; [|intros] | case_match].

(** ** Requests *)

(** Every send context holds a 24-bit packet number. *)
Definition ctx_ok (w : RdmaWriteWorker) : Prop :=
  Forall (fun c => in_width 24 (sq_psn c)) (rw_sq_ctx_table w).

(** A request registers a completion at most once, then announces the acknowledgement, and
    hands over its chunks after that. *)
Definition announced (es : list effect) : Prop :=
  Forall quiet es \/
  exists qpn ev rest, es = reg qpn ev :: EffTimeout (AtNewAckReq qpn) :: rest /\ Forall quiet rest /\ exists c, EffChunk c ∈ rest.

Lemma next_wr_psn n c :
  in_width 24 (sq_psn c) ->
  in_width 24 (sq_psn (next_wr n c).2) /\
  forall m p, (next_wr n c).1 = Some (m, p) -> in_width 24 p.
Proof.
  intros Hc. unfold next_wr. destruct (_ || _); cbn; [split; [done|by intros]|].
  split; [unfold psn_add; rewrite land_PSN_MASK; apply Z.mod_pos_bound; lia|].
  by intros m p [= _ <-].
Qed.

Section rdma.
Context `{Profile}.

Lemma ctx_ok_insert qpn c w : ctx_ok w -> in_width 24 (sq_psn c) -> ctx_ok (with_ctx qpn c w).
Proof. intros Hw Hc. unfold ctx_ok, with_ctx. cbn. by apply Forall_insert. Qed.

Lemma reserve_ok qpn n w out :
  ctx_ok w ->
  exists r w', reserve qpn n (mk_actor w out) = Done r (mk_actor w' out) /\ ctx_ok w' /\
    forall m p, r = Some (m, p) -> in_width 24 p.
Proof.
  intros Hw. destruct (get_qp (rw_sq_ctx_table w) qpn) as [c|] eqn:Ec.
  - eexists _, _. rewrite (reserve_run _ _ _ _ c Ec). split; [reflexivity|].
    assert (Hc : in_width 24 (sq_psn c)) by (eapply (Forall_lookup_1 _ _ _ _ Hw Ec)).
    destruct (next_wr_psn n c Hc) as [H1 H2]. split; [by apply ctx_ok_insert|done].
  - eexists None, w. split; [|done]. unfold reserve, mbind, M_bind, get_self, gets. cbn [self].
    unfold map_qp_mut. rewrite Ec. by destruct w.
Qed.

(** The pieces of a postable request exist, and there is at least one. *)
Lemma pieces_postable {S} (s : S) retry wr q p pmtu n :
  postable wr -> num_psn pmtu (raddr wr) (b_length (r_base wr)) = Some n -> qpp_pmtu q = pmtu ->
  in_width 24 p ->
  exists c l, all_pieces retry wr q p s = Done (l ++ [c]) s.
Proof.
  intros [Hok Hl] Hn Hq Hp. unfold num_psn in Hn.
  destruct (convert_ibv_mtu_to_u16 pmtu) as [m|] eqn:Em; [|done].
  destruct (mtu_pow2 _ _ Em) as (k & Hk & ->).
  destruct (all_pieces_run s retry wr q k p) as (ch & Hr & Hpc); [by rewrite Hq|done|done|].
  rewrite psn_of_small in Hr by done.
  destruct ch as [|c ch _] using rev_ind.
  - apply (pieces_of_nil _ _ _ _ _ _ Hk Hok) in Hpc. assert (b_length (r_base wr) = 0) by tauto. lia.
  - by exists c, ch.
Qed.

Lemma announced_nil : announced [].
Proof. by left. Qed.

Lemma quiet_chunks chunks : Forall quiet (EffChunk <$> chunks).
Proof. by apply Forall_fmap, Forall_true. Qed.

Lemma write_announced qpn wr w :
  ctx_ok w -> (signaled wr = true -> postable wr) ->
  match write qpn wr (mk_actor w []) with
  | Done _ a => ctx_ok (self a) /\ announced (sent a)
  | Fault _ => True
  end.
Proof.
  intros Hw Hp. unfold write, mbind, M_bind, get_self, gets. cbn [self].
  destruct (get_qp (rw_qp_attr_table w) qpn) as [qp|]; [|by split; [|apply announced_nil]].
  destruct (num_psn _ _ _) as [n|] eqn:En; [|by split; [|apply announced_nil]].
  destruct (reserve_ok qpn n w [] Hw) as (r & w' & Hr & Hw' & Hpsn). rewrite Hr.
  destruct r as [[m p]|]; [|by split; [|apply announced_nil]]. specialize (Hpsn m p eq_refl).
  set (q := qp_params m qp).
  assert (Hall : forall out (P : actor RdmaWriteWorker -> Prop),
    (forall ch, all_pieces false wr q p tt = Done ch tt ->
       P (mk_actor w' ((out ++ [EffRetransmit (PrNewWr qpn (mk_elem p wr q))]) ++ (EffChunk <$> ch)))) ->
    match (emit (EffRetransmit (PrNewWr qpn (mk_elem p wr q)));;
           chunks ← all_pieces false wr q p;
           for_each chunks (fun chunk => emit (EffChunk chunk));; mret IoOk) (mk_actor w' out) with
    | Done _ a => P a
    | Fault _ => True
    end).
  { intros out P HP. unfold mbind, M_bind. rewrite emit_run, (all_pieces_stateless _ _ _ _ _).
    destruct (all_pieces false wr q p tt) as [ch []|]; [|done]. rewrite for_each_emit. by apply HP. }
  unfold mbind, M_bind in Hall.
  destruct (signaled wr).
  2:{ apply Hall. intros ch _. cbn [self sent app]. split; [done|]. left. constructor; [done|apply quiet_chunks]. }
  destruct (qa_send_cq qp) as [cq|]; [|by split; [|apply announced_nil]].
  destruct (send_event_op _) as [op|]; [|by split; [|apply announced_nil]].
  rewrite emit_run.
  destruct (pieces_postable (mk_actor w' ([] ++ [register qpn op m (psn_add p n) (b_wr_id (r_base wr))]))
    true wr q p (qa_pmtu qp) n (Hp eq_refl) En eq_refl Hpsn) as (c & l & Hl).
  rewrite Hl, last_snoc, emit_run. apply Hall. intros ch Hch. cbn [self sent app].
  destruct (pieces_postable tt false wr q p (qa_pmtu qp) n (Hp eq_refl) En eq_refl Hpsn) as (c' & l' & Hl').
  rewrite Hl' in Hch. injection Hch as <-. split; [done|]. right. eexists qpn, _, _. split; [reflexivity|].
  split; [constructor; [done|apply quiet_chunks]|]. exists c'. right. apply list_elem_of_fmap. exists c'. split; [done|]. set_solver.
Qed.

Lemma read_announced qpn wr w :
  ctx_ok w ->
  match rdma_read qpn wr (mk_actor w []) with
  | Done _ a => ctx_ok (self a) /\ announced (sent a)
  | Fault _ => True
  end.
Proof.
  intros Hw. unfold rdma_read, mbind, M_bind, get_self, gets. cbn [self].
  destruct (get_qp (rw_qp_attr_table w) qpn) as [qp|]; [|by split; [|apply announced_nil]].
  destruct (reserve_ok qpn 1 w [] Hw) as (r & w' & Hr & Hw' & _). rewrite Hr.
  destruct r as [[m p]|]; [|by split; [|apply announced_nil]].
  destruct (signaled wr) eqn:Es; cbn [when].
  - destruct (qa_send_cq qp) as [cq|]; [|by split; [|apply announced_nil]].
    cbn. split; [done|]. right. eexists qpn, _, _. split; [reflexivity|]. split; [by repeat constructor|].
    eexists. apply list_elem_of_further, list_elem_of_here.
  - cbn. split; [done|]. left. by repeat constructor.
Qed.

Lemma update_ctx_announced qpn f w es w' :
  (forall c, sq_psn (f c) = sq_psn c) -> ctx_ok w ->
  run_task (update_ctx qpn f) w = Done es w' -> ctx_ok w' /\ announced es.
Proof.
  intros Hf Hw Hr. destruct (get_qp (rw_sq_ctx_table w) qpn) as [c|] eqn:Ec.
  - rewrite (update_ctx_run _ _ _ c Ec) in Hr. injection Hr as <- <-. split; [|apply announced_nil].
    apply ctx_ok_insert; [done|]. rewrite Hf. apply (Forall_lookup_1 _ _ _ _ Hw Ec).
  - unfold run_task, update_ctx, mbind, M_bind, get_self, gets, map_qp_mut in Hr. cbn [self] in Hr.
    by rewrite Ec in Hr.
Qed.

Lemma rdma_announced t w es w' :
  ctx_ok w -> task_ok t -> run_task (rdma_process t) w = Done es w' -> ctx_ok w' /\ announced es.
Proof.
  intros Hw Ht. destruct t as [qpn wr|qpn base|qpn msn]; cbn [rdma_process];
    [|by apply update_ctx_announced..].
  unfold run_task.
  pose proof (write_announced qpn wr w Hw Ht) as H1. pose proof (read_announced qpn wr w Hw) as H2.
  unfold mbind, M_bind, mret, M_ret, panic, fail.
  destruct (b_opcode (r_base wr)); try done;
    destruct (write qpn wr (mk_actor w [])); destruct (rdma_read qpn wr (mk_actor w []));
    intros; simplify_eq; done.
Qed.

End rdma.

(** ** Completions *)

(** The registered sends of a queue pair that have not completed. *)
Definition pending_sends (t : QueuePairMessageTracker) : Z :=
  Z.of_nat (length (mt_inner (qt_send t))) + Z.of_nat (length (mg_send (qt_merge t))).

Definition pending (i : nat) (w : CompletionWorker) : Z :=
  match cw_tracker_table w !! i with Some t => pending_sends t | None => 0 end.

Lemma pending_with_tracker i qpn t t0 w :
  get_qp (cw_tracker_table w) qpn = Some t0 ->
  pending i (with_tracker qpn t w) =
  if bool_decide (qidx qpn = i) then pending_sends t else pending i w.
Proof.
  intros Ht. unfold pending, with_tracker. cbn. unfold get_qp in Ht. fold (qidx qpn) in *.
  case_bool_decide as Hi.
  - subst i. by rewrite list_lookup_insert_eq by (by eapply lookup_lt_Some).
  - by rewrite list_lookup_insert_ne.
Qed.

Lemma append_length {E} `{EventMeta E} (e : E) t :
  (length (mt_inner (tracker_append e t)) <= S (length (mt_inner t)))%nat.
Proof.
  unfold tracker_append, vec_insert. destruct (match _ with Some _ => _ | None => _ end); [|lia].
  cbn. rewrite length_app, length_take. cbn. rewrite length_drop. lia.
Qed.

Lemma acked_length {E} `{EventMeta E} b (l : list E) :
  (length (acked_prefix b l) + length (unacked_suffix b l) = length l)%nat.
Proof.
  unfold unacked_suffix. rewrite length_drop.
  assert (length (acked_prefix b l) <= length l)%nat; [|lia].
  induction l as [|e l IH]; cbn; [lia|]. destruct (psn_le _ _); cbn; lia.
Qed.

Lemma deliverable_length l r : (length (deliverable l r) <= length l)%nat.
Proof.
  revert r. induction l as [|e l IH]; intros r; cbn; [lia|].
  pose proof (IH r). destruct (se_op e); cbn; [lia|lia|].
  destruct r as [|x r]; cbn; [lia|]. pose proof (IH r). lia.
Qed.

Lemma completed_acks i qpn d :
  cnt (is_ack i) (to_timeout (completed_tasks qpn d)) =
  if bool_decide (qidx qpn = i) then Z.of_nat (length d) else 0.
Proof.
  induction d as [|e d IH]; [cbn; by case_bool_decide|].
  change (to_timeout (completed_tasks qpn (e :: d))) with
    (AtAck qpn :: to_timeout (completed_tasks qpn d)).
  rewrite cnt_cons, IH. cbn [is_ack length]. case_bool_decide; lia.
Qed.

(** What the completion worker sends on: acknowledgements to the timer, nothing that
    registers or announces. *)
Definition only_acks (es : list effect) : Prop :=
  to_completion es = [] /\ (forall i, cnt (is_new i) (to_timeout es) = 0) /\
  Forall task_ok (to_rdma es).

Lemma only_acks_completed qpn d : only_acks (completed_tasks qpn d).
Proof.
  induction d as [|e d (H1 & H2 & H3)]; [by repeat split|].
  split; [done|]. split; [|by constructor].
  intros i. change (to_timeout (completed_tasks qpn (e :: d))) with
    (AtAck qpn :: to_timeout (completed_tasks qpn d)). by rewrite cnt_cons, H2.
Qed.

Lemma ack_tasks_silent qpn cs :
  to_completion (ack_tasks qpn cs) = [] /\ to_timeout (ack_tasks qpn cs) = [] /\
  to_rdma (ack_tasks qpn cs) = [].
Proof.
  unfold to_completion, to_timeout, to_rdma.
  induction cs as [|[e o] cs (H1 & H2 & H3)]; [done|]. unfold ack_tasks in *.
  rewrite bind_cons, !omap_app, H1, H2, H3, !app_nil_r. by destruct (re_ack_req e).
Qed.

Lemma after_delivery_length q :
  (length (deliverable (mg_send q) (mg_recv_read_resp q)) + length (mg_send (after_delivery q)) =
   length (mg_send q))%nat.
Proof.
  unfold after_delivery. cbn. rewrite length_drop.
  pose proof (deliverable_length (mg_send q) (mg_recv_read_resp q)). lia.
Qed.

(** Registered sends leave only as acknowledgements to the timer. *)
Lemma completion_pending t w es w' i :
  run_task (completion_process t) w = Done es w' ->
  pending i w' + cnt (is_ack i) (to_timeout es) <= pending i w + (if is_register i t then 1 else 0) /\
  only_acks es.
Proof.
  intros Hr. pose proof (processed_ready t w es w' Hr) as Hready.
  destruct t as [qpn ev|qpn base|qpn base].
  - destruct Hready as (tr & attr & Ht & Ha). rewrite (register_run w qpn tr attr ev Ht Ha) in Hr.
    injection Hr as <- <-. split; [|by repeat split]. rewrite (pending_with_tracker _ _ _ _ _ Ht).
    unfold is_register, pending. unfold get_qp in Ht. fold (qidx qpn) in Ht.
    case_bool_decide as Hi; [subst i; rewrite Ht|destruct ev; cbn; lia].
    destruct ev as [e|e|e]; unfold pending_sends; cbn;
      [pose proof (append_length e (qt_send tr))|..]; lia.
  - destruct Hready as (tr & sc & Hs). rewrite (ack_send_process_run w qpn tr sc base Hs) in Hr.
    destruct Hs as (Ht & _). injection Hr as <- <-. split; [|apply only_acks_completed].
    change (pending i (with_completions ?h ?c ?x)) with (pending i x).
    rewrite (pending_with_tracker _ _ _ _ _ Ht), completed_acks. cbn [is_register].
    unfold pending. unfold get_qp in Ht. fold (qidx qpn) in Ht.
    case_bool_decide as Hi; [subst i; rewrite Ht|lia]. unfold pending_sends.
    set (q := add_send (acked_prefix base (mt_inner (qt_send tr))) (qt_merge tr)).
    pose proof (after_delivery_length q) as Hd.
    pose proof (acked_length base (mt_inner (qt_send tr))) as Hl.
    assert (Hq : length (mg_send q) = (length (mg_send (qt_merge tr)) + length (acked_prefix base (mt_inner (qt_send tr))))%nat)
      by apply length_app.
    change (deliverable (_ ++ _) _) with (deliverable (mg_send q) (mg_recv_read_resp q)).
    cbn [qt_send qt_merge put_merge put_send mt_inner]. lia.
  - destruct Hready as (tr & sc & rc & Hs). pose proof Hs as (Ht & _).
    rewrite (ack_recv_process_run w qpn tr sc rc base Hs) in Hr.
    destruct (consume _ _) as [[cs rest]|]; [|done]. injection Hr as <- <-.
    set (q := add_recv (acked_prefix base (mt_inner (qt_recv tr))) (qt_merge tr)).
    destruct (ack_tasks_silent qpn cs) as (S1 & S2 & S3).
    set (d := deliverable (mg_send q) (mg_recv_read_resp q)).
    destruct (only_acks_completed qpn d) as (O1 & O2 & O3). split.
    + change (pending i (with_completions ?h ?c ?x)) with (pending i x).
      rewrite (pending_with_tracker _ _ _ tr) by exact Ht.
      change (pending i (with_completions ?h ?c ?x)) with (pending i x).
      unfold to_timeout in *. rewrite omap_app, cnt_app, S2.
      fold (to_timeout (completed_tasks qpn d)). rewrite completed_acks. cbn [is_register].
      unfold pending. unfold get_qp in Ht. fold (qidx qpn) in Ht.
      case_bool_decide as Hi; [subst i; rewrite Ht|cbn; lia]. unfold pending_sends.
      pose proof (after_delivery_length q) as Hd. fold d in Hd.
      cbn [qt_send qt_merge put_merge put_posted put_recv mg_send].
      assert (Hm : mg_send q = mg_send (qt_merge tr)) by done.
      rewrite Hm in Hd. cbn [cnt foldr].
      change (drop _ _) with (mg_send (after_delivery q)). change (deliverable _ _) with d. lia.
    + unfold only_acks, to_completion, to_timeout, to_rdma in *.
      rewrite !omap_app, S1, S2, S3, !app_nil_r. done.
Qed.

(** *** A send that is registered but not announced yet *)

(** No acknowledgement among the tasks reaches the end of [ev]. *)
Definition no_cover (i : nat) (ev : SendEvent) (l : list CompletionTask) : Prop :=
  forall qpn base, CtAckSend qpn base ∈ l -> qidx qpn = i -> psn_le (m_end_psn (se_meta ev)) base = false.

(** [ev] waits in the channel or in its tracker, and no acknowledgement that follows it in the
    channel reaches its end. *)
Definition present (i : nat) (ev : SendEvent) (w : CompletionWorker) (rx : list CompletionTask) : Prop :=
  (exists qpn l1 l2, rx = l1 ++ CtRegister qpn (EvSend ev) :: l2 /\ qidx qpn = i /\ no_cover i ev l2) \/
  (exists t, cw_tracker_table w !! i = Some t /\ ev ∈ mt_inner (qt_send t) /\ no_cover i ev rx).

Lemma no_cover_app i ev l1 l2 : no_cover i ev l1 -> no_cover i ev l2 -> no_cover i ev (l1 ++ l2).
Proof. intros H1 H2 qpn base [Hin|Hin]%elem_of_app; [by apply (H1 qpn)|by apply (H2 qpn)]. Qed.

Lemma present_extend i ev w w' rx l : cw_tracker_table w' = cw_tracker_table w -> present i ev w rx -> no_cover i ev l -> present i ev w' (rx ++ l).
Proof.
  intros Ew [(qpn & l1 & l2 & -> & Hi & Hn)|(t & Ht & Hin & Hn)] Hl.
  - left. exists qpn, l1, (l2 ++ l). split; [by rewrite <- app_assoc|]. split; [done|by apply no_cover_app].
  - right. exists t. rewrite Ew. split; [done|]. split; [done|by apply no_cover_app].
Qed.

Lemma present_pending i ev w rx : present i ev w rx -> 1 <= pending i w + cnt (is_register i) rx.
Proof.
  intros [(qpn & l1 & l2 & -> & Hi & Hn)|(t & Ht & Hin & Hn)].
  - rewrite cnt_app, cnt_cons. cbn [is_register]. rewrite bool_decide_eq_true_2 by done.
    pose proof (cnt_nonneg (is_register i) l1). pose proof (cnt_nonneg (is_register i) l2).
    assert (0 <= pending i w) by (unfold pending, pending_sends; destruct (_ !! i); lia). lia.
  - unfold pending. rewrite Ht. unfold pending_sends. pose proof (cnt_nonneg (is_register i) rx).
    destruct (mt_inner (qt_send t)); [by apply elem_of_nil in Hin|cbn [length]; lia].
Qed.

Lemma tracker_with i qpn t t0 w :
  get_qp (cw_tracker_table w) qpn = Some t0 ->
  cw_tracker_table (with_tracker qpn t w) !! i = if bool_decide (qidx qpn = i) then Some t else cw_tracker_table w !! i.
Proof.
  intros Ht. unfold with_tracker. cbn. unfold get_qp in Ht. fold (qidx qpn) in *.
  case_bool_decide as Hi; [subst i; by rewrite list_lookup_insert_eq by (by eapply lookup_lt_Some)|by rewrite list_lookup_insert_ne].
Qed.

Lemma append_elem {E} `{EventMeta E} (e x : E) t : x ∈ mt_inner t -> x ∈ mt_inner (tracker_append e t).
Proof.
  intros Hx. unfold tracker_append, vec_insert. destruct (match _ with Some _ => _ | None => _ end); [|done].
  cbn [mt_inner]. match goal with |- context [take ?n _] => rewrite <- (take_drop n (mt_inner t)) in Hx end. apply elem_of_app in Hx as [Hx|Hx]; apply elem_of_app; [by left|right; by apply list_elem_of_further].
Qed.

(** An event is inserted, or its tracker stays as it was. *)
Lemma append_inserts {E} `{EventMeta E} (e : E) t : e ∈ mt_inner (tracker_append e t) \/ tracker_append e t = t.
Proof.
  unfold tracker_append, vec_insert. destruct (match _ with Some _ => _ | None => _ end); [left|by right].
  cbn [mt_inner]. apply elem_of_app. right. apply list_elem_of_here.
Qed.

Lemma unacked_elem {E} `{EventMeta E} base (x : E) l : x ∈ l -> psn_le (m_end_psn (meta x)) base = false -> x ∈ unacked_suffix base l.
Proof.
  intros Hx Hb. unfold unacked_suffix. induction l as [|e l IH]; [done|]. cbn [acked_prefix]. destruct (psn_le (m_end_psn (meta e)) base) eqn:He; [|done].
  cbn [length drop]. apply IH. apply elem_of_cons in Hx as [->|Hx]; [congruence|done].
Qed.

(** The send tracker of a queue pair keeps what a task does not acknowledge. *)
Lemma completion_keeps_send t w es w' i ev tr :
  run_task (completion_process t) w = Done es w' -> cw_tracker_table w !! i = Some tr -> ev ∈ mt_inner (qt_send tr) -> no_cover i ev [t] ->
  exists tr', cw_tracker_table w' !! i = Some tr' /\ ev ∈ mt_inner (qt_send tr').
Proof.
  intros Hr Hi Hin Hn. pose proof (processed_ready t w es w' Hr) as Hready. destruct t as [qpn e|qpn base|qpn base].
  - destruct Hready as (t0 & attr & Ht & Ha). rewrite (register_run w qpn t0 attr e Ht Ha) in Hr. injection Hr as <- <-.
    rewrite (tracker_with _ _ _ _ _ Ht). case_bool_decide as Hq; [|by exists tr].
    subst i. unfold get_qp in Ht. fold (qidx qpn) in Ht. assert (t0 = tr) as -> by congruence. eexists. split; [done|].
    destruct e; [by apply append_elem|done|done].
  - destruct Hready as (t0 & sc & Hs). rewrite (ack_send_process_run w qpn t0 sc base Hs) in Hr. destruct Hs as (Ht & _). injection Hr as <- <-.
    change (cw_tracker_table (with_completions ?h ?c ?x)) with (cw_tracker_table x). rewrite (tracker_with _ _ _ _ _ Ht). case_bool_decide as Hq; [|by exists tr].
    unfold get_qp in Ht. fold (qidx qpn) in Ht. rewrite Hq in Ht. assert (t0 = tr) as -> by congruence. eexists. split; [done|].
    apply (unacked_elem base ev); [done|]. apply (Hn qpn base); [apply list_elem_of_here|done].
  - destruct Hready as (t0 & sc & rc & Hs). pose proof Hs as (Ht & _). rewrite (ack_recv_process_run w qpn t0 sc rc base Hs) in Hr.
    destruct (consume _ _) as [[cs rest]|]; [|done]. injection Hr as <- <-.
    change (cw_tracker_table (with_completions ?h ?c ?x)) with (cw_tracker_table x). rewrite (tracker_with _ _ _ t0) by exact Ht. case_bool_decide as Hq; [|by exists tr].
    unfold get_qp in Ht. fold (qidx qpn) in Ht. rewrite Hq in Ht. assert (t0 = tr) as -> by congruence. by eexists.
Qed.

(** A task leaves the send present, or is the one that fails to register it. *)
Lemma completion_present t rx w es w' i ev :
  run_task (completion_process t) w = Done es w' -> present i ev w (t :: rx) ->
  present i ev w' rx \/
  (is_register i t = true /\ pending i w' + cnt (is_ack i) (to_timeout es) <= pending i w).
Proof.
  intros Hr [(qpn & l1 & l2 & E & Hi & Hn)|(tr & Ht & Hin & Hn)].
  - destruct l1 as [|t0 l1]; injection E as -> ->; [|left; left; by exists qpn, l1, l2].
    pose proof (processed_ready _ w es w' Hr) as (t0 & attr & Ht & Ha). rewrite (register_run w qpn t0 attr (EvSend ev) Ht Ha) in Hr. injection Hr as <- <-.
    destruct (append_inserts ev (qt_send t0)) as [Hin|Hsame].
    + left. right. eexists. rewrite (tracker_with _ _ _ _ _ Ht). rewrite bool_decide_eq_true_2 by done. done.
    + right. cbn [is_register]. rewrite bool_decide_eq_true_2 by done. split; [done|]. rewrite (pending_with_tracker _ _ _ _ _ Ht).
      rewrite bool_decide_eq_true_2 by done. cbn [qpmt_append]. rewrite Hsame. unfold pending. unfold get_qp in Ht. fold (qidx qpn) in Ht. rewrite <- Hi, Ht.
      unfold pending_sends. cbn. lia.
  - left. right. destruct (completion_keeps_send t w es w' i ev tr Hr Ht Hin) as (tr' & Ht' & Hin').
    { intros qpn base Heq%list_elem_of_singleton. subst t. apply (Hn qpn base), list_elem_of_here. }
    exists tr'. split; [done|]. split; [done|]. intros qpn base Hb. by apply (Hn qpn base), list_elem_of_further.
Qed.

Section quiet_workers.
Context `{Profile} {V : Type} `{BitVec V}.

Lemma all_pieces_sends {S} P retry wr q psn :
  sends P (all_pieces retry wr q psn : M (actor S) _).
Proof.
  intros a Ha. rewrite (all_pieces_stateless _ _ _ _ a). by destruct (all_pieces retry wr q psn tt) as [l []|].
Qed.

#[local] Hint Resolve all_pieces_sends : sends.

Lemma retransmit_silent t : sends silent (retransmit_process t).
Proof.
  assert (Hall : forall l, sends silent (S := PacketRetransmitWorker) (all_packets l)).
  { induction l as [|e l IH]; cbn [all_packets]; solve_sends. }
  unfold retransmit_process, set_queue, resend. solve_sends.
Qed.

Lemma on_recv_quiet {A} qpn (m : M (LocalAckTracker V) A) : sends quiet (on_recv qpn m).
Proof. unfold on_recv. solve_sends. Qed.

Lemma on_send_quiet {A} qpn (m : M (RemoteAckTracker V) A) : sends quiet (on_send qpn m).
Proof. unfold on_send. solve_sends. Qed.

Lemma if_some_quiet o (f : Psn -> M (actor (MetaHandler V)) unit) :
  (forall p, sends quiet (f p)) -> sends quiet (if_some o f).
Proof. intros Hf. destruct o; cbn; [apply Hf|apply sends_ret]. Qed.

Lemma sender_updates_quiet qpn p : sends quiet (sender_updates (V := V) qpn p).
Proof. unfold sender_updates. solve_sends. Qed.

Lemma receiver_updates_quiet qpn p : sends quiet (receiver_updates (V := V) qpn p).
Proof. unfold receiver_updates. solve_sends. Qed.

#[local] Hint Resolve on_recv_quiet on_send_quiet if_some_quiet sender_updates_quiet
  receiver_updates_quiet : sends.

(** Read responses are not signaled. *)
Lemma read_response_unsignaled meta : signaled (read_response meta) = false.
Proof. unfold read_response, signaled. by destruct (hr_ack_req meta). Qed.

Lemma meta_quiet m : sends quiet (meta_process (V := V) m).
Proof.
  assert (Hread : forall x, sends quiet (S := MetaHandler V)
    (emit (EffRdma (RwWrite (hr_dqpn x) (read_response x)))))
    by (intros x; apply sends_emit; cbn; by rewrite read_response_unsignaled).
  assert (Hrecv : forall x q, sends quiet (S := MetaHandler V) (emit (EffCompletion (CtAckRecv x q))))
    by (intros; by apply sends_emit).
  unfold meta_process, handle_meta, handle_header_write, handle_header_read, handle_ack_local_hw,
    handle_ack_remote_driver, handle_nak_local_hw, handle_nak_remote_hw, handle_nak_remote_driver, panic.
  solve_sends.
Qed.

Lemma check_timers_silent now i l ts es : check_timers now i l = Some (ts, es) -> Forall silent es.
Proof.
  revert i ts es. induction l as [|t l IH]; intros i ts es; cbn; [intros [= <- <-]; constructor|].
  destruct (check_timeout now t) as [[] t']; [| |done].
  - destruct (check_timers now (i + 1) l) as [[]|] eqn:E; cbn; [|done]. intros [= <- <-]. by eapply IH.
  - destruct (check_timers now (i + 1) l) as [[]|] eqn:E; cbn; [|done]. intros [= <- <-].
    constructor; [done|]. by eapply IH.
Qed.

End quiet_workers.

(** ** Timers *)

(** A check leaves running timers running. *)
Lemma check_timers_running now i l ts es :
  check_timers now i l = Some (ts, es) ->
  Forall2 (fun t t' => is_running t = true -> is_running t' = true) l ts.
Proof.
  revert i ts es. induction l as [|t l IH]; intros i ts es; cbn; [by intros [= <- <-]|].
  assert (Ht : is_running t = true -> is_running (check_timeout now t).2 = true).
  { unfold check_timeout, is_running. repeat case_match; cbn; naive_solver. }
  destruct (check_timeout now t) as [[] t']; [| |done];
    destruct (check_timers now (i + 1) l) as [[]|] eqn:E; cbn; try done; intros [= <- <-];
    constructor; eauto.
Qed.

Lemma maintainance_spec now w es w' :
  run_task (timeout_maintainance now) w = Done es w' ->
  Forall silent es /\ tw_outstanding_ack_req_cnt w' = tw_outstanding_ack_req_cnt w /\
  Forall2 (fun t t' => is_running t = true -> is_running t' = true)
    (tw_timer_table w) (tw_timer_table w').
Proof.
  unfold run_task, timeout_maintainance, mbind, M_bind, get_self, gets, demand, fail. cbn [self].
  destruct (check_timers now 0 (tw_timer_table w)) as [[ts es']|] eqn:E; [|done].
  unfold mret, M_ret, modify_self, modify. cbn [self sent].
  pose proof (for_each_emit id es' (mk_tw ts (tw_outstanding_ack_req_cnt w) (tw_config w)) []) as He.
  change (fun a => emit (id a)) with (@emit QpAckTimeoutWorker) in He. rewrite He.
  cbn [self sent app]. rewrite list_fmap_id. intros [= <- <-].
  split; [by eapply check_timers_silent|]. split; [done|]. by eapply check_timers_running.
Qed.

(** The effect of a task on the counter and on the timer of a queue pair. *)
Definition count_after (t : AckTimeoutTask) (x : Z) : Z :=
  match t with AtNewAckReq _ => x + 1 | AtAck _ => x - 1 | AtRecvMeta _ => x end.

Definition timer_after (now : Z) (t : AckTimeoutTask) (x : Z) (timer : TransportTimer) : TransportTimer :=
  match t with
  | AtNewAckReq _ | AtRecvMeta _ => timer_restart now timer
  | AtAck _ => if x - 1 =? 0 then timer_stop timer else timer
  end.

Definition timeout_qpn (t : AckTimeoutTask) : Z :=
  match t with AtNewAckReq qpn | AtAck qpn | AtRecvMeta qpn => qpn end.

(** The counter can take the task without overflow or underflow. *)
Definition countable (t : AckTimeoutTask) (x : Z) : Prop :=
  match t with AtNewAckReq _ => x + 1 < 2 ^ 64 | AtAck _ => 1 <= x | AtRecvMeta _ => True end.

Lemma timeout_run `{Profile} now t w x timer :
  let i := qidx (timeout_qpn t) in
  tw_outstanding_ack_req_cnt w !! i = Some x -> tw_timer_table w !! i = Some timer -> countable t x ->
  run_task (timeout_process now t) w =
  Done [] (mk_tw (<[i := timer_after now t x timer]> (tw_timer_table w))
             (<[i := count_after t x]> (tw_outstanding_ack_req_cnt w)) (tw_config w)).
Proof.
  cbv zeta. intros Hx Ht Hc. unfold run_task, timeout_process, map_timer, map_count, modify_self, modify,
    map_qp_mut, replace_qp, get_qp, mbind, M_bind, get_self, gets.
  destruct t as [qpn|qpn|qpn]; cbn [timeout_qpn countable] in *; fold (qidx qpn) in *; cbn [self].
  - rewrite Hx, uadd_run by done. cbn. fold (qidx qpn). by rewrite Hx, Ht.
  - rewrite Ht. cbn. unfold count_after. by rewrite (list_insert_id (tw_outstanding_ack_req_cnt w)).
  - rewrite Hx, usub_run by done. cbn. fold (qidx qpn). rewrite Hx. cbn.
    destruct (x - 1 =? 0); cbn; fold (qidx qpn); [by rewrite Ht|].
    by rewrite (list_insert_id (tw_timer_table w)).
Qed.

(** ** The acknowledgement counter along its channel *)

(** With [x] on the counter, no prefix of the channel takes it below zero, and the whole
    channel leaves at least [b] on it. *)
Definition channel_ok (i : nat) (x b : Z) (rx : list AckTimeoutTask) : Prop :=
  (forall p q, rx = p ++ q -> 0 <= x + cnt (is_new i) p - cnt (is_ack i) p) /\
  b <= x + cnt (is_new i) rx - cnt (is_ack i) rx.

Lemma channel_extend i x b b' rx new :
  channel_ok i x b rx -> cnt (is_ack i) new <= b -> b' + cnt (is_ack i) new <= b + cnt (is_new i) new ->
  channel_ok i x b' (rx ++ new).
Proof.
  intros [Hp Hb] Ha Hb'. split; [|rewrite !cnt_app; lia].
  intros p q He. apply app_eq_app in He as (l & [[-> ->]|[-> ->]]).
  - by apply (Hp p l).
  - pose proof (cnt_nonneg (is_new i) l). pose proof (cnt_nonneg (is_ack i) q).
    rewrite !cnt_app in *. lia.
Qed.

Lemma channel_pop i x b t rx :
  channel_ok i x b (t :: rx) ->
  channel_ok i (x + (if is_new i t then 1 else 0) - (if is_ack i t then 1 else 0)) b rx.
Proof.
  intros [Hp Hb]. split; [|rewrite !cnt_cons in Hb; lia].
  intros p q ->. specialize (Hp (t :: p) q eq_refl). rewrite !cnt_cons in Hp. lia.
Qed.

(** *** The invariant *)

(** The acknowledgements of a queue pair that may still reach the timers: sends that are
    registered or about to be, and messages under way. *)
Definition owed {V} (i : nat) (s : system V) : Z :=
  pending i (wk_state (sy_completion s)) + cnt (is_register i) (wk_rx (sy_completion s)) +
  cnt (is_ack i) (to_timeout (wk_out (sy_completion s))).

(** Where the request worker is in its last task: nothing is left to register or announce,
    nothing is sent yet, or [ev] is registered and not announced. *)
Inductive stage : list effect -> list effect -> option (nat * SendEvent) -> Prop :=
| stage_plain sent out : Forall quiet out -> stage sent out None
| stage_before qpn ev rest : Forall quiet rest -> (exists c, EffChunk c ∈ rest) ->
    stage [] (reg qpn ev :: EffTimeout (AtNewAckReq qpn) :: rest) None
| stage_between qpn ev rest : Forall quiet rest -> (exists c, EffChunk c ∈ rest) ->
    stage [reg qpn ev] (EffTimeout (AtNewAckReq qpn) :: rest) (Some (qidx qpn, ev)).

(** One of the sends owed is not announced yet, and cannot be acknowledged. *)
Definition held {V} (s : system V) (u : option (nat * SendEvent)) (i : nat) (h : Z) : Prop :=
  h = 0 \/ h = 1 /\ exists ev, u = Some (i, ev) /\ present i ev (wk_state (sy_completion s)) (wk_rx (sy_completion s)).

(** The counter of one queue pair after [n] steps. *)
Record counter_ok {V} (n : nat) (s : system V) (u : option (nat * SendEvent)) (i : nat) (x : Z) : Prop := {
  co_nonneg : 0 <= x;
  co_bound : x + cnt (is_new i) (wk_rx (sy_timeout s)) <= Z.of_nat n;
  co_channel : exists h, held s u i h /\ channel_ok i x (owed i s - h) (wk_rx (sy_timeout s));
  co_running : 0 < x -> exists t, tw_timer_table (wk_state (sy_timeout s)) !! i = Some t /\ is_running t = true }.

Definition counters_ok {V} (n : nat) (s : system V) (u : option (nat * SendEvent)) : Prop :=
  forall i x, tw_outstanding_ack_req_cnt (wk_state (sy_timeout s)) !! i = Some x -> counter_ok n s u i x.

(** What the workers are about to send, and the request worker's state and channel. *)
Record outs_ok {V} (s : system V) : Prop := {
  oo_ctx : ctx_ok (wk_state (sy_rdma s));
  oo_tasks : Forall task_ok (wk_rx (sy_rdma s));
  oo_completion : only_acks (wk_out (sy_completion s));
  oo_retransmit : Forall silent (wk_out (sy_retransmit s));
  oo_timeout : Forall silent (wk_out (sy_timeout s));
  oo_meta : Forall quiet (wk_out (sy_meta s)) }.

Record sys_inv {V} (n : nat) (s : system V) : Prop := {
  si_outs : outs_ok s;
  si_length : length (tw_timer_table (wk_state (sy_timeout s))) = length (tw_outstanding_ack_req_cnt (wk_state (sy_timeout s)));
  si_counters : exists u, stage (wk_sent (sy_rdma s)) (wk_out (sy_rdma s)) u /\ counters_ok n s u }.

Lemma pending_nonneg i w : 0 <= pending i w.
Proof. unfold pending, pending_sends. destruct (_ !! i); lia. Qed.

Lemma to_timeout_cons e es : to_timeout (e :: es) = to_timeout [e] ++ to_timeout es.
Proof. by destruct e. Qed.
Lemma to_completion_cons e es : to_completion (e :: es) = to_completion [e] ++ to_completion es.
Proof. by destruct e. Qed.
Lemma to_rdma_cons e es : to_rdma (e :: es) = to_rdma [e] ++ to_rdma es.
Proof. by destruct e. Qed.

Lemma only_acks_cons e es : only_acks (e :: es) -> only_acks [e] /\ only_acks es.
Proof.
  unfold only_acks. rewrite to_completion_cons, to_timeout_cons, to_rdma_cons, Forall_app. intros ([E1 E2]%app_eq_nil & H2 & F1 & F2).
  assert (Hn : forall i, cnt (is_new i) (to_timeout [e]) = 0 /\ cnt (is_new i) (to_timeout es) = 0).
  { intros i. specialize (H2 i). rewrite cnt_app in H2.
    pose proof (cnt_nonneg (is_new i) (to_timeout [e])). pose proof (cnt_nonneg (is_new i) (to_timeout es)). lia. }
  split; (split; [done|]); (split; [intros i; apply Hn|done]).
Qed.

Section invariant.
Context `{Profile} {V : Type} `{BitVec V}.
Implicit Types s : system V.

Lemma held_owed s u i h : held s u i h -> cnt (is_ack i) (to_timeout (wk_out (sy_completion s))) <= owed i s - h.
Proof.
  unfold owed. pose proof (pending_nonneg i (wk_state (sy_completion s))). pose proof (cnt_nonneg (is_register i) (wk_rx (sy_completion s))).
  intros [->|(-> & ev & _ & Hp)]; [lia|]. apply present_pending in Hp. lia.
Qed.

(** A step that leaves the timers alone and puts [new] on their channel. *)
Lemma inv_extend n s s' new u u' :
  sys_inv n s -> counters_ok n s u -> outs_ok s' -> wk_state (sy_timeout s') = wk_state (sy_timeout s) ->
  wk_rx (sy_timeout s') = wk_rx (sy_timeout s) ++ new -> stage (wk_sent (sy_rdma s')) (wk_out (sy_rdma s')) u' ->
  (forall i h, held s u i h -> cnt (is_new i) new <= 1 /\ cnt (is_ack i) new <= owed i s - h /\
     exists h', held s' u' i h' /\ owed i s' - h' + cnt (is_ack i) new <= owed i s - h + cnt (is_new i) new) ->
  sys_inv (S n) s'.
Proof.
  intros Hinv Hc Ho Hw Hrx Hst Hes. split; [done|rewrite Hw; apply Hinv|]. exists u'. split; [done|]. intros i x Hx. rewrite Hw in Hx.
  destruct (Hc i x Hx) as [H1 H2 (h & Hh & H3) H4]. destruct (Hes i h Hh) as (E1 & E2 & h' & Hh' & E3). split; [done| | |by rewrite Hw].
  - rewrite Hrx, cnt_app. lia.
  - exists h'. split; [done|]. rewrite Hrx. by apply (channel_extend i x (owed i s - h)).
Qed.

(** A step that neither registers, announces nor acknowledges. *)
Lemma inv_quiet n s s' es :
  sys_inv n s -> Forall quiet es -> outs_ok s' -> wk_state (sy_timeout s') = wk_state (sy_timeout s) ->
  wk_rx (sy_timeout s') = wk_rx (sy_timeout s) ++ to_timeout es ->
  cw_tracker_table (wk_state (sy_completion s')) = cw_tracker_table (wk_state (sy_completion s)) ->
  wk_rx (sy_completion s') = wk_rx (sy_completion s) ++ to_completion es ->
  to_timeout (wk_out (sy_completion s')) = to_timeout (wk_out (sy_completion s)) ->
  (forall u, stage (wk_sent (sy_rdma s)) (wk_out (sy_rdma s)) u -> stage (wk_sent (sy_rdma s')) (wk_out (sy_rdma s')) u /\
     forall i ev, u = Some (i, ev) -> no_cover i ev (to_completion es)) ->
  sys_inv (S n) s'.
Proof.
  intros Hinv Hq Ho Hw Hrx Hcw Hcr Hco Hst. destruct (si_counters _ _ Hinv) as (u & Hu & Hc). destruct (Hst u Hu) as [Hu' Hn].
  apply (inv_extend n s s' (to_timeout es) u u); [done..|]. intros i h Hh. destruct (quiet_counts es i Hq) as (Q1 & Q2 & Q3 & _).
  pose proof (held_owed _ _ _ _ Hh) as Hb. pose proof (cnt_nonneg (is_ack i) (to_timeout (wk_out (sy_completion s)))) as Hp. rewrite Q2, Q3.
  split; [lia|]. split; [lia|]. exists h.
  assert (Eo : owed i s' = owed i s) by (unfold owed, pending; rewrite Hcw, Hcr, Hco, cnt_app, Q1; lia). rewrite Eo.
  split; [|lia]. destruct Hh as [->|(-> & ev & -> & Hpr)]; [by left|right]. split; [done|]. exists ev. split; [done|]. rewrite Hcr.
  eapply present_extend; [exact Hcw|exact Hpr|by eapply Hn].
Qed.

(** What is delivered to the request worker can be processed. *)
Lemma quiet_rdma es : Forall quiet es -> Forall task_ok (to_rdma es).
Proof. intros Hq. by apply (quiet_counts es O). Qed.

Lemma no_cover_nil i ev : no_cover i ev [].
Proof. by intros qpn base Hin%elem_of_nil. Qed.

Lemma outs_deliver es s : outs_ok s -> Forall task_ok (to_rdma es) -> outs_ok (deliver es s).
Proof. intros [H1 H2 H3 H4 H5 H6] He. split; try done. cbn. by apply Forall_app. Qed.

(** A message that goes to no channel of interest, from whatever worker it comes. *)
Lemma inv_quiet_send n s s1 e :
  sys_inv n s -> quiet e -> outs_ok s1 -> sy_timeout s1 = sy_timeout s \/ (wk_state (sy_timeout s1) = wk_state (sy_timeout s) /\ wk_rx (sy_timeout s1) = wk_rx (sy_timeout s)) ->
  sy_completion s1 = sy_completion s ->
  (forall u, stage (wk_sent (sy_rdma s)) (wk_out (sy_rdma s)) u -> stage (wk_sent (sy_rdma s1)) (wk_out (sy_rdma s1)) u /\
     forall i ev, u = Some (i, ev) -> no_cover i ev (to_completion [e])) ->
  sys_inv (S n) (deliver [e] s1).
Proof.
  intros Hinv Hq Ho Ht Hc Hst. assert (Ht' : wk_state (sy_timeout s1) = wk_state (sy_timeout s) /\ wk_rx (sy_timeout s1) = wk_rx (sy_timeout s)) by (destruct Ht as [->|?]; done).
  destruct Ht' as [T1 T2]. assert (Hes : Forall quiet [e]) by (by constructor).
  apply (inv_quiet n s _ [e]); [done|done|by apply outs_deliver, quiet_rdma|..].
  - exact T1.
  - cbn [deliver sy_timeout add_rx wk_rx]. by rewrite T2.
  - cbn [deliver sy_completion add_rx wk_state]. by rewrite Hc.
  - cbn [deliver sy_completion add_rx wk_rx]. by rewrite Hc.
  - cbn [deliver sy_completion add_rx wk_out]. by rewrite Hc.
  - exact Hst.
Qed.

Lemma stage_nil snt u : stage snt [] u -> u = None.
Proof. by inversion 1. Qed.

Lemma stage_start es : announced es -> stage [] es None.
Proof. intros [Hq|(qpn & ev & rest & -> & Hq & Hc)]; [by apply stage_plain|by apply stage_before]. Qed.

Lemma inv_rdma n s t rx es w :
  sys_inv n s -> wk_out (sy_rdma s) = [] -> wk_rx (sy_rdma s) = t :: rx -> run_task (rdma_process t) (wk_state (sy_rdma s)) = Done es w ->
  sys_inv (S n) (put_rdma (took w rx es) s).
Proof.
  intros Hinv Hout Hrx Hr. destruct (si_counters _ _ Hinv) as (u & Hu & Hc). rewrite Hout in Hu. apply stage_nil in Hu as ->.
  destruct (si_outs _ _ Hinv) as [O1 O2 O3 O4 O5 O6]. rewrite Hrx in O2. apply Forall_cons_1 in O2 as [Ht Hts].
  destruct (rdma_announced t _ _ _ O1 Ht Hr) as [Hctx Ha].
  apply (inv_extend n s _ [] None None); [done|done|by split|done|by rewrite app_nil_r|by apply stage_start|].
  intros i h Hh. pose proof (held_owed _ _ _ _ Hh) as Hb. pose proof (cnt_nonneg (is_ack i) (to_timeout (wk_out (sy_completion s)))).
  cbn [cnt foldr]. split; [lia|]. split; [lia|]. exists h. split; [exact Hh|]. unfold owed in *. cbn [put_rdma sy_completion]. lia.
Qed.

Lemma inv_rdma_send n s e es :
  sys_inv n s -> wk_out (sy_rdma s) = e :: es -> sys_inv (S n) (deliver [e] (put_rdma (sent_one e es (sy_rdma s)) s)).
Proof.
  intros Hinv Hout. destruct (si_counters _ _ Hinv) as (u & Hu & Hc). rewrite Hout in Hu.
  assert (Ho : outs_ok (put_rdma (sent_one e es (sy_rdma s)) s)) by (destruct (si_outs _ _ Hinv) as [? ? ? ? ? ?]; by split).
  inversion Hu as [snt out Hq E1 E2 E3|qpn ev rest Hq Hch E1 E2 E3|qpn ev rest Hq Hch E1 E2 E3]; subst.
  - apply Forall_cons_1 in Hq as [He Hes]. apply (inv_extend n s _ (to_timeout [e]) None None); [done|done| |done|done|by apply stage_plain|].
    + apply outs_deliver; [done|]. apply quiet_rdma. by constructor.
    + intros i h Hh. pose proof (held_owed _ _ _ _ Hh) as Hb. pose proof (cnt_nonneg (is_ack i) (to_timeout (wk_out (sy_completion s)))).
      destruct (quiet_counts [e] i) as (Q1 & Q2 & Q3 & _); [by constructor|]. rewrite Q2, Q3. split; [lia|]. split; [lia|]. exists 0. split; [by left|].
      destruct Hh as [->|(_ & ev & Hev & _)]; [|done]. unfold owed in *. cbn [deliver put_rdma sy_completion add_rx wk_state wk_rx wk_out]. rewrite cnt_app. lia.
  - apply (inv_extend n s _ [] None (Some (qidx qpn, ev))); [done|done|by apply outs_deliver|done|done| |].
    + cbn [deliver put_rdma sy_rdma add_rx sent_one wk_sent wk_out]. rewrite <- E1. by apply stage_between.
    + intros i h Hh. pose proof (held_owed _ _ _ _ Hh) as Hb. pose proof (cnt_nonneg (is_ack i) (to_timeout (wk_out (sy_completion s)))).
      cbn [cnt foldr]. split; [lia|]. split; [lia|]. destruct Hh as [->|(_ & ev' & Hev & _)]; [|done].
      assert (Eo : owed i (deliver [reg qpn ev] (put_rdma (sent_one (reg qpn ev) (EffTimeout (AtNewAckReq qpn) :: rest) (sy_rdma s)) s)) =
        owed i s + (if bool_decide (qidx qpn = i) then 1 else 0)).
      { unfold owed. cbn [deliver put_rdma sy_completion add_rx wk_state wk_rx wk_out]. rewrite cnt_app. cbn. case_bool_decide; lia. }
      rewrite Eo. case_bool_decide as Hi; [exists 1|exists 0; split; [by left|lia]]. split; [|lia]. right. split; [done|]. exists ev.
      split; [by rewrite Hi|]. left. exists qpn, (wk_rx (sy_completion s)), []. split; [done|]. split; [done|apply no_cover_nil].
  - apply (inv_extend n s _ [AtNewAckReq qpn] (Some (qidx qpn, ev)) None); [done|done|by apply outs_deliver|done|done|by apply stage_plain|].
    intros i h Hh. pose proof (held_owed _ _ _ _ Hh) as Hb. pose proof (cnt_nonneg (is_ack i) (to_timeout (wk_out (sy_completion s)))).
    rewrite !cnt_cons. cbn [is_new is_ack cnt foldr]. split; [case_bool_decide; lia|]. split; [lia|]. exists 0. split; [by left|].
    assert (Eo : owed i (deliver [EffTimeout (AtNewAckReq qpn)] (put_rdma (sent_one (EffTimeout (AtNewAckReq qpn)) es (sy_rdma s)) s)) = owed i s).
    { unfold owed. cbn [deliver put_rdma sy_completion add_rx wk_state wk_rx wk_out to_completion omap list_omap]. by rewrite app_nil_r. }
    rewrite Eo. destruct Hh as [->|(-> & ev' & [= Hi _] & _)]; [case_bool_decide; lia|]. rewrite bool_decide_eq_true_2 by done. lia.
Qed.

Lemma inv_completion n s t rx es w :
  sys_inv n s -> wk_out (sy_completion s) = [] -> wk_rx (sy_completion s) = t :: rx ->
  run_task (completion_process t) (wk_state (sy_completion s)) = Done es w -> sys_inv (S n) (put_completion (took w rx es) s).
Proof.
  intros Hinv Hout Hrx Hr. destruct (si_counters _ _ Hinv) as (u & Hu & Hc). destruct (si_outs _ _ Hinv) as [O1 O2 O3 O4 O5 O6].
  destruct (completion_pending t _ _ _ O Hr) as [_ Hacks].
  apply (inv_extend n s _ [] u u); [done|done|by split|done|by rewrite app_nil_r|done|]. intros i h Hh.
  pose proof (held_owed _ _ _ _ Hh) as Hb. rewrite Hout in Hb. cbn [cnt foldr to_timeout omap list_omap] in *. split; [lia|]. split; [lia|].
  destruct (completion_pending t _ _ _ i Hr) as [Hp _]. unfold owed. cbn [put_completion sy_completion took wk_state wk_rx wk_out]. rewrite Hrx, Hout, cnt_cons. change (cnt (is_ack i) (to_timeout [])) with 0. cbn [cnt foldr].
  destruct Hh as [->|(-> & ev & -> & Hpr)]; [exists 0; split; [by left|lia]|]. rewrite Hrx in Hpr.
  destruct (completion_present t rx _ _ _ i ev Hr Hpr) as [Hpr'|[Hreg Hp']].
  - exists 1. split; [|lia]. right. split; [done|]. by exists ev.
  - exists 0. split; [by left|]. rewrite Hreg. lia.
Qed.

Lemma inv_completion_send n s e es :
  sys_inv n s -> wk_out (sy_completion s) = e :: es -> sys_inv (S n) (deliver [e] (put_completion (sent_one e es (sy_completion s)) s)).
Proof.
  intros Hinv Hout. destruct (si_counters _ _ Hinv) as (u & Hu & Hc). destruct (si_outs _ _ Hinv) as [O1 O2 O3 O4 O5 O6].
  rewrite Hout in O3. apply only_acks_cons in O3 as [(A1 & A2 & A3) Hes].
  apply (inv_extend n s _ (to_timeout [e]) u u); [done|done|apply outs_deliver; [by split|done]|done|done|done|]. intros i h Hh.
  pose proof (held_owed _ _ _ _ Hh) as Hb. rewrite Hout, to_timeout_cons, cnt_app in Hb. pose proof (cnt_nonneg (is_ack i) (to_timeout es)).
  rewrite A2. split; [lia|]. split; [lia|]. exists h. split.
  - destruct Hh as [->|(-> & ev & -> & Hpr)]; [by left|right]. split; [done|]. exists ev. split; [done|].
    cbn [deliver put_completion sent_one sy_completion add_rx wk_state wk_rx]. rewrite A1, app_nil_r. exact Hpr.
  - unfold owed. cbn [deliver put_completion sent_one sy_completion add_rx wk_state wk_rx wk_out]. rewrite A1, app_nil_r, Hout, (to_timeout_cons e es), cnt_app. lia.
Qed.

Lemma is_new_self t : is_new (qidx (timeout_qpn t)) t = match t with AtNewAckReq _ => true | _ => false end.
Proof. destruct t; cbn; [by rewrite bool_decide_eq_true_2|done..]. Qed.

Lemma is_ack_self t : is_ack (qidx (timeout_qpn t)) t = match t with AtAck _ => true | _ => false end.
Proof. destruct t; cbn; [done|done|by rewrite bool_decide_eq_true_2]. Qed.

Lemma not_mine i t : i <> qidx (timeout_qpn t) -> is_new i t = false /\ is_ack i t = false.
Proof. intros Hi. destruct t; cbn in *; rewrite ?bool_decide_eq_false_2 by done; done. Qed.

Lemma count_after_eq t x :
  count_after t x = x + (if is_new (qidx (timeout_qpn t)) t then 1 else 0) -
                        (if is_ack (qidx (timeout_qpn t)) t then 1 else 0).
Proof. rewrite is_new_self, is_ack_self. destruct t; cbn; lia. Qed.

(** The next task never takes a counter out of range. *)
Lemma inv_countable n s t rx x :
  sys_inv n s -> Z.of_nat n < 2 ^ 64 -> wk_rx (sy_timeout s) = t :: rx ->
  tw_outstanding_ack_req_cnt (wk_state (sy_timeout s)) !! qidx (timeout_qpn t) = Some x -> countable t x.
Proof.
  intros Hinv Hn Hrx Hx. destruct (si_counters _ _ Hinv) as (u & _ & Hc). destruct (Hc _ _ Hx) as [H1 H2 (h & _ & H3 & _) _].
  rewrite Hrx, cnt_cons, is_new_self in H2. specialize (H3 [t] rx Hrx).
  rewrite !cnt_cons, is_new_self, is_ack_self in H3. cbn in H3.
  pose proof (cnt_nonneg (is_new (qidx (timeout_qpn t))) rx). destruct t; cbn in *; lia.
Qed.

Lemma timeout_run_outside now t w :
  tw_outstanding_ack_req_cnt w !! qidx (timeout_qpn t) = None ->
  tw_timer_table w !! qidx (timeout_qpn t) = None ->
  run_task (timeout_process now t) w = Done [] w.
Proof.
  intros Hx Ht. unfold run_task, timeout_process, map_timer, map_count, modify_self, modify,
    map_qp_mut, get_qp, mbind, M_bind, get_self, gets. destruct w.
  destruct t as [qpn|qpn|qpn]; cbn [timeout_qpn] in *; fold (qidx qpn) in *; cbn in *;
    rewrite ?Hx; cbn; fold (qidx qpn); by rewrite ?Ht.
Qed.

(** A queue pair the task is not for keeps its counter. *)
Lemma counter_other n s u t rx w i x :
  counter_ok n s u i x -> wk_rx (sy_timeout s) = t :: rx -> i <> qidx (timeout_qpn t) ->
  tw_timer_table w !! i = tw_timer_table (wk_state (sy_timeout s)) !! i ->
  counter_ok (S n) (put_timeout (took w rx []) s) u i x.
Proof.
  intros [H1 H2 (h & Hh & H3) H4] Hrx Hi Hw. destruct (not_mine _ _ Hi) as [N1 N2]. rewrite Hrx in H2, H3.
  apply channel_pop in H3. rewrite cnt_cons in H2. rewrite N1 in H2, H3. rewrite N2 in H3.
  split; cbn [put_timeout sy_timeout took wk_state wk_rx].
  - done.
  - lia.
  - exists h. split; [exact Hh|]. by rewrite Z.add_0_r, Z.sub_0_r in H3.
  - by rewrite Hw.
Qed.

Lemma timer_table_lookup n s i x :
  sys_inv n s -> tw_outstanding_ack_req_cnt (wk_state (sy_timeout s)) !! i = Some x ->
  exists timer, tw_timer_table (wk_state (sy_timeout s)) !! i = Some timer.
Proof.
  intros Hinv Hx. apply lookup_lt_Some in Hx. rewrite <- (si_length _ _ Hinv) in Hx.
  by apply lookup_lt_is_Some_2.
Qed.

(** A task of the timers. *)
Lemma counter_self n s u t rx x timer now :
  counter_ok n s u (qidx (timeout_qpn t)) x -> wk_rx (sy_timeout s) = t :: rx -> countable t x ->
  tw_timer_table (wk_state (sy_timeout s)) !! qidx (timeout_qpn t) = Some timer ->
  counter_ok (S n) (put_timeout (took (mk_tw (<[qidx (timeout_qpn t) := timer_after now t x timer]> (tw_timer_table (wk_state (sy_timeout s))))
    (<[qidx (timeout_qpn t) := count_after t x]> (tw_outstanding_ack_req_cnt (wk_state (sy_timeout s)))) (tw_config (wk_state (sy_timeout s)))) rx []) s)
    u (qidx (timeout_qpn t)) (count_after t x).
Proof.
  intros [H1 H2 (h & Hh & H3) H4] Hrx Hc Etm. set (j := qidx (timeout_qpn t)) in *. rewrite Hrx in H2, H3.
  apply channel_pop in H3. unfold j in H3. rewrite <- count_after_eq in H3. fold j in H3.
  rewrite cnt_cons in H2. unfold j in H2. rewrite is_new_self in H2. fold j in H2.
  split; cbn [put_timeout sy_timeout took wk_state wk_rx].
  - destruct t; cbn in *; lia.
  - destruct t; cbn in *; lia.
  - exists h. by split.
  - intros Hpos. eexists. split; [cbn; apply list_lookup_insert_eq; by eapply lookup_lt_Some|].
    destruct t; cbn in *; [done|done|]. rewrite (proj2 (Z.eqb_neq _ _)) by lia.
    destruct H4 as (t' & Ht' & Hrun); [lia|]. congruence.
Qed.

Lemma inv_timeout n s now t rx es w :
  sys_inv n s -> Z.of_nat n < 2 ^ 64 -> wk_rx (sy_timeout s) = t :: rx ->
  run_task (timeout_process now t) (wk_state (sy_timeout s)) = Done es w ->
  sys_inv (S n) (put_timeout (took w rx es) s).
Proof.
  intros Hinv Hn Hrx Hr. destruct (si_counters _ _ Hinv) as (u & Hu & Hcs). destruct (si_outs _ _ Hinv) as [O1 O2 O3 O4 O5 O6].
  destruct (tw_outstanding_ack_req_cnt (wk_state (sy_timeout s)) !! qidx (timeout_qpn t)) as [xj|] eqn:Ej.
  - destruct (timer_table_lookup _ _ _ _ Hinv Ej) as [timer Etm]. pose proof (inv_countable _ _ _ _ _ Hinv Hn Hrx Ej) as Hc.
    rewrite (timeout_run now t (wk_state (sy_timeout s)) xj timer Ej Etm Hc) in Hr. injection Hr as <- <-.
    split; [by split|cbn; rewrite !length_insert; apply Hinv|]. exists u. split; [done|].
    intros i x Hx. cbn in Hx. destruct (decide (i = qidx (timeout_qpn t))) as [->|Hij].
    + rewrite list_lookup_insert_eq in Hx by (by eapply lookup_lt_Some). injection Hx as <-. apply counter_self; try done. by apply Hcs.
    + rewrite list_lookup_insert_ne in Hx by done.
      apply (counter_other n s u t rx); [by apply Hcs|done|done|]. cbn. by rewrite list_lookup_insert_ne.
  - assert (Etm : tw_timer_table (wk_state (sy_timeout s)) !! qidx (timeout_qpn t) = None)
      by (apply lookup_ge_None; rewrite (si_length _ _ Hinv); by apply lookup_ge_None).
    rewrite (timeout_run_outside now t _ Ej Etm) in Hr. injection Hr as <- <-.
    split; [by split|apply Hinv|]. exists u. split; [done|].
    intros i x Hx. cbn in Hx. apply (counter_other n s u t rx); [by apply Hcs|done| |done]. intros ->. congruence.
Qed.

Lemma inv_maintainance n s now es w :
  sys_inv n s -> run_task (timeout_maintainance now) (wk_state (sy_timeout s)) = Done es w ->
  sys_inv (S n) (put_timeout (took w (wk_rx (sy_timeout s)) es) s).
Proof.
  intros Hinv Hr. destruct (maintainance_spec _ _ _ _ Hr) as (Hq & Hc & Ht). destruct (si_counters _ _ Hinv) as (u & Hu & Hcs).
  destruct (si_outs _ _ Hinv) as [O1 O2 O3 O4 O5 O6]. split; [by split|cbn; rewrite Hc, <- (Forall2_length Ht); apply Hinv|].
  exists u. split; [done|]. intros i x Hx. cbn in Hx. rewrite Hc in Hx. destruct (Hcs i x Hx) as [H1 H2 H3 H4].
  split; cbn [put_timeout sy_timeout took wk_state wk_rx]; [done|lia|exact H3|].
  intros Hpos. destruct (H4 Hpos) as (t & Htm & Hrun). destruct (Forall2_lookup_l _ _ _ _ _ Ht Htm) as (t' & Ht' & Hrun'). eauto.
Qed.

(** A step that only replaces what a worker is about to send. *)
Lemma inv_took n s s' :
  sys_inv n s -> outs_ok s' -> sy_timeout s' = sy_timeout s -> cw_tracker_table (wk_state (sy_completion s')) = cw_tracker_table (wk_state (sy_completion s)) ->
  wk_rx (sy_completion s') = wk_rx (sy_completion s) -> wk_out (sy_completion s') = wk_out (sy_completion s) ->
  wk_sent (sy_rdma s') = wk_sent (sy_rdma s) -> wk_out (sy_rdma s') = wk_out (sy_rdma s) -> sys_inv (S n) s'.
Proof.
  intros Hinv Ho Ht Hc1 Hc2 Hc3 Hr1 Hr2. apply (inv_quiet n s s' []); [done|done|done|by rewrite Ht|by rewrite Ht, app_nil_r|done|by rewrite Hc2, app_nil_r|by rewrite Hc3|].
  intros u Hu. rewrite Hr1, Hr2. split; [done|]. intros. apply no_cover_nil.
Qed.

(** What the report worker sends respects [acked_when_sent]. *)
Lemma guarded_no_cover s e u i ev :
  acked_when_sent e s -> stage (wk_sent (sy_rdma s)) (wk_out (sy_rdma s)) u -> u = Some (i, ev) -> no_cover i ev (to_completion [e]).
Proof.
  intros Hg Hu ->. inversion Hu as [| |qpn ev' rest Hq (c & Hch) E1 E2 E3]; subst. intros qpn' base Hin Hi.
  destruct e as [t| | | | |]; cbn in Hin; try (by apply elem_of_nil in Hin). apply list_elem_of_singleton in Hin. subst t.
  cbn in Hg. apply (Hg qpn ev c); [rewrite <- E1; apply list_elem_of_here|rewrite <- E2; by apply list_elem_of_further|congruence].
Qed.

(** Every step keeps the counters in range. *)
Lemma system_inv_step n s s' : sys_inv n s -> Z.of_nat n < 2 ^ 64 -> step s s' -> sys_inv (S n) s'.
Proof.
  intros Hinv Hn Hs. pose proof (si_outs _ _ Hinv) as [O1 O2 O3 O4 O5 O6]. destruct Hs as [s qpn wr Hp|s qpn id|s h w|s qps r w|s t rx es w Hout Hrx Hr|s e es Hout
    |s t rx es w Hout Hrx Hr|s e es Hout|s t rx es w Hout Hrx Hr|s e es Hout|s now t rx es w Hout Hrx Hr|s now es w Hout Hr|s e es Hout|s m es h Hout Hr|s e es Hout Hg].
  - apply (inv_quiet_send n s); [done|done|by split|by left|done|]. intros u Hu. split; [done|]. intros. apply no_cover_nil.
  - apply (inv_quiet_send n s); [done|done|by split|by left|done|]. intros u Hu. split; [done|]. by intros i ev _ q b ?%list_elem_of_singleton.
  - apply (inv_took n s); try done.
  - apply (inv_took n s); try done.
  - by eapply inv_rdma.
  - by apply inv_rdma_send.
  - by eapply inv_completion.
  - by apply inv_completion_send.
  - apply (inv_took n s); try done. split; try done. cbn. eapply run_sends; [apply retransmit_silent|exact Hr].
  - rewrite Hout in O4. apply Forall_cons_1 in O4 as [He Hes]. destruct (silent_quiet [e]) as [Hq Hc]; [by constructor|]. apply Forall_cons_1 in Hq as [Hq _].
    apply (inv_quiet_send n s); [done|done|by split|by left|done|]. intros u Hu. split; [done|]. intros. rewrite Hc. apply no_cover_nil.
  - by eapply inv_timeout.
  - by eapply inv_maintainance.
  - rewrite Hout in O5. apply Forall_cons_1 in O5 as [He Hes]. destruct (silent_quiet [e]) as [Hq Hc]; [by constructor|]. apply Forall_cons_1 in Hq as [Hq _].
    apply (inv_quiet_send n s); [done|done|by split|by right|done|]. intros u Hu. split; [done|]. intros. rewrite Hc. apply no_cover_nil.
  - apply (inv_took n s); try done. split; try done. cbn. eapply run_sends; [apply meta_quiet|exact Hr].
  - rewrite Hout in O6. apply Forall_cons_1 in O6 as [He Hes]. apply (inv_quiet_send n s); [done|done|by split|by left|done|]. intros u Hu. split; [done|].
    intros i ev Hev. by eapply guarded_no_cover.
Qed.

Lemma inv_initial qps cqs timer config : sys_inv 0 (initial (V := V) qps cqs timer config).
Proof.
  split.
  - split; try done. apply Forall_replicate. unfold in_width. cbn. lia.
  - cbn [initial sy_timeout new_worker wk_state tw_timer_table tw_outstanding_ack_req_cnt]. unfold QpTable_new_with.
    by rewrite !length_replicate.
  - exists None. split; [by apply stage_plain|]. intros i x Hx. cbn [initial sy_timeout new_worker wk_state tw_outstanding_ack_req_cnt] in Hx.
    apply lookup_replicate in Hx as [-> Hi].
    assert (Hb : owed i (initial (V := V) qps cqs timer config) = 0).
    { unfold owed, pending. cbn [initial sy_completion new_worker wk_state wk_rx wk_out cnt foldr to_timeout omap list_omap].
      unfold CompletionWorker_new. cbn [cw_tracker_table].
      case_match eqn:E; [|done]. unfold QpTable_new_with in E. by apply lookup_replicate in E as [-> _]. }
    split; [lia|cbn; lia| |lia]. exists 0. split; [by left|]. rewrite Hb. split; [|cbn; lia].
    intros p q Hp. symmetry in Hp. apply app_eq_nil in Hp as [-> _]. cbn. lia.
Qed.

Lemma inv_reach qps cqs timer config n s :
  reach (V := V) qps cqs timer config n s -> Z.of_nat n <= 2 ^ 64 -> sys_inv n s.
Proof.
  induction 1 as [|n s s' _ IH Hs]; intros Hn; [apply inv_initial|].
  apply (system_inv_step n s); [apply IH; lia|lia|done].
Qed.

End invariant.

(** ** Across the workers *)

(** The timer worker on an acknowledgement nobody waits for. *)
Lemma ack_at_zero `{Profile} now qpn tw timer :
  tw_outstanding_ack_req_cnt tw !! qidx qpn = Some 0 -> tw_timer_table tw !! qidx qpn = Some timer ->
  match run_task (timeout_process now (AtAck qpn)) tw with
  | Fault f => debug_assertions = true /\ f = Panic
  | Done _ tw' => debug_assertions = false /\
      tw_outstanding_ack_req_cnt tw' !! qidx qpn = Some (2 ^ 64 - 1) /\
      tw_timer_table tw' !! qidx qpn = Some timer
  end.
Proof.
  intros Hx Ht. unfold run_task, timeout_process, map_count, mbind, M_bind, get_self, gets, get_qp.
  cbn [self]. fold (qidx qpn). rewrite Hx. unfold usub. cbn [Z.leb Z.compare].
  destruct debug_assertions eqn:Ed; cbn; [done|]. split; [done|].
  unfold replace_qp, get_qp. fold (qidx qpn). rewrite Hx. cbn.
  split; [|done]. rewrite list_lookup_insert_eq by (by eapply lookup_lt_Some). done.
Qed.

Lemma psn_le_refl p : psn_le p p = true.
Proof. unfold psn_le, psn_cmp. rewrite Z.sub_diag. done. Qed.

(** A send registered with an idle queue pair completes at the next acknowledgement that
    reaches it. *)
Lemma register_then_ack cw qpn t sc rc e base :
  qp_ready cw qpn t sc rc -> mt_inner (qt_send t) = [] -> mg_send (qt_merge t) = [] ->
  se_op e <> ReadSignaled -> psn_le (m_end_psn (se_meta e)) base = true ->
  exists cw', run_tasks completion_process [CtRegister qpn (EvSend e); CtAckSend qpn base] cw =
    Done [EffTimeout (AtAck qpn); EffRdma (RwNewComplete qpn (m_msn (se_meta e)))] cw'.
Proof.
  intros Hq Hin Hm Hop Hle. pose proof Hq as (Ht & (attr & Ha & _) & _).
  cbn [run_tasks]. rewrite (register_run cw qpn t attr (EvSend e) Ht Ha).
  destruct t as [[inner b] rcv rr ps [sd rv resp]]. cbn [qt_send mt_inner qt_merge mg_send] in Hin, Hm. subst inner sd.
  set (t1 := qpmt_append _ _).
  assert (Hq1 : qp_ready (with_tracker qpn t1 cw) qpn t1 sc rc).
  { rewrite <- (with_completions_nil sc (with_tracker qpn t1 cw)). by eapply qp_ready_step. }
  rewrite (ack_send_process_run _ qpn t1 sc base (qp_send_ready _ _ _ _ _ Hq1)).
  cbn [t1 qpmt_append put_send qt_send tracker_append mt_inner qt_merge mg_send].
  change (mt_inner (tracker_append e (mk_mt [] b))) with [e].
  cbn [acked_prefix]. change (meta e) with (se_meta e). rewrite Hle.
  cbn [add_send mg_send mg_recv_read_resp app deliverable].
  destruct (se_op e); [| |done]; cbn; by eexists.
Qed.

(** A send received on an idle queue pair with one receive posted. *)
Lemma recv_then_ack cw qpn t sc rc e base x :
  qp_ready cw qpn t sc rc -> mt_inner (qt_recv t) = [] -> qt_merge t = mk_merge [] [] [] ->
  qt_post_recv_queue t = [x] -> re_op e = RecvOpRecv ->
  psn_le (m_end_psn (re_meta e)) base = true ->
  exists cw', run_tasks completion_process [CtRegister qpn (EvRecv e); CtAckRecv qpn base] cw =
    Done (if re_ack_req e
          then [EffAckResp (RespAck qpn (m_msn (re_meta e)) (m_end_psn (re_meta e)))] else []) cw' /\
    cw_cq_table cw' = alter (fun q => q ++ [ComplRecv (pr_wr_id x) None]) (Z.to_nat rc) (cw_cq_table cw).
Proof.
  intros Hq Hin Hm Hp Hop Hle. pose proof Hq as (Ht & (attr & Ha & _) & _).
  cbn [run_tasks]. rewrite (register_run cw qpn t attr (EvRecv e) Ht Ha).
  destruct t as [sd [inner b] rr ps mg]. cbn in Hin, Hm, Hp. subst inner mg ps.
  set (t1 := qpmt_append _ _).
  assert (Hq1 : qp_ready (with_tracker qpn t1 cw) qpn t1 sc rc).
  { rewrite <- (with_completions_nil sc (with_tracker qpn t1 cw)). by eapply qp_ready_step. }
  rewrite (ack_recv_process_run _ qpn t1 sc rc base Hq1).
  cbn [t1 qpmt_append put_recv qt_recv mt_inner qt_merge qt_post_recv_queue].
  change (mt_inner (tracker_append e (mk_mt [] b))) with [e].
  cbn [acked_prefix]. change (meta e) with (re_meta e). rewrite Hle.
  unfold add_recv. rewrite (filter_all _ [e]), (filter_none _ [e])
    by (repeat constructor; unfold is_resp; by rewrite Hop).
  cbn [mg_recv mg_send app consume deliverable]. rewrite Hop. cbn [list.last mbind option_bind removelast].
  eexists. split; [destruct (re_ack_req e) eqn:Ek; cbn; rewrite Ek; reflexivity|].
  cbn. by rewrite (list_alter_id (fun q : list Completion => q ++ [])) by apply app_nil_r.
Qed.

(** ** Properties *)

(** C2: acknowledgement counters across the workers.  A worker takes a task, computes, and then
    sends its messages one after the other; the steps of the workers, the requests and calls of
    the application and the reports of the device interleave in any order for fewer than 2^64
    steps.  As long as every signaled request posted is not empty and its addresses do not
    wrap, and no acknowledgement of the end of a request is passed on while chunks of that
    request are still to be handed to the device: the timer worker never faults on its next
    task, in either build profile; the counter it decrements is positive; and a queue pair
    with an acknowledgement outstanding has its timer running. *)
Theorem ack_counters_in_range `{Profile} {V} `{BitVec V} qps cqs timer config n (s : system V) :
  reach qps cqs timer config n s -> Z.of_nat n < 2 ^ 64 ->
  (forall now t rx, wk_rx (sy_timeout s) = t :: rx ->
     exists w, run_task (timeout_process now t) (wk_state (sy_timeout s)) = Done [] w) /\
  (forall qpn x, get_qp (tw_outstanding_ack_req_cnt (wk_state (sy_timeout s))) qpn = Some x ->
     0 <= x /\
     (forall rx, wk_rx (sy_timeout s) = AtAck qpn :: rx -> 0 < x) /\
     (0 < x -> exists t, get_qp (tw_timer_table (wk_state (sy_timeout s))) qpn = Some t /\ is_running t = true)).
Proof.
  intros Hr Hn. pose proof (inv_reach _ _ _ _ _ _ Hr ltac:(lia)) as Hinv. split.
  - intros now t rx Hrx.
    destruct (tw_outstanding_ack_req_cnt (wk_state (sy_timeout s)) !! qidx (timeout_qpn t)) as [x|] eqn:Ex.
    + destruct (timer_table_lookup _ _ _ _ Hinv Ex) as [tm Etm]. eexists.
      apply (timeout_run now t _ x tm Ex Etm). by eapply inv_countable.
    + eexists. apply timeout_run_outside; [done|].
      apply lookup_ge_None. rewrite (si_length _ _ Hinv). by apply lookup_ge_None.
  - intros qpn x Hx. destruct (si_counters _ _ Hinv) as (u & _ & Hc). destruct (Hc _ _ Hx) as [H1 _ _ H4]. split; [done|].
    split; [|done]. intros rx Hrx. pose proof (inv_countable _ _ _ _ _ Hinv Hn Hrx Hx) as Hct.
    cbn in Hct. lia.
Qed.

(** A signaled write of two packets, posted and taken by the request worker, which has
    registered and announced it. *)
Lemma sample_posted :
  exists s : system (list bool),
    reach (H := dev_profile) [qp_attr_default; sample_attr] [] (mk_timer (Some 8192) None 5 5) config_default 4 s /\
    wk_rx (sy_timeout s) = [AtNewAckReq 0x100].
Proof.
  set (w := RdmaWriteWorker_new [qp_attr_default; sample_attr]).
  destruct (write_signaled (H := dev_profile) w 0x100 sample_attr sq_default (sample_wr 0x1000 512) 8 2 0 0
    (sq_of 2 0 1 0) 3 WriteSignaled) as (chunks & Hrun & _); [|done|done|done|done|].
  { destruct (sample_can_write sq_default 512) as [H1 H2 H3 H4 H5 H6 H7]; [lia|]. by split. }
  eexists. split.
  - eapply reach_step; [eapply reach_step; [eapply reach_step; [eapply reach_step; [apply reach_initial|]|]|]|].
    + apply (step_post_send _ 0x100 (sample_wr 0x1000 512)). intros _. split; [apply sample_ok; lia|cbn; lia].
    + eapply step_rdma; [reflexivity|reflexivity|exact Hrun].
    + eapply step_rdma_send. reflexivity.
    + eapply step_rdma_send. reflexivity.
  - reflexivity.
Qed.

Lemma ack_counters_in_range_witness :
  exists (s : system (list bool)) w,
    wk_rx (sy_timeout s) = [AtNewAckReq 0x100] /\
    run_task (timeout_process (H := dev_profile) 7 (AtNewAckReq 0x100)) (wk_state (sy_timeout s)) = Done [] w.
Proof.
  destruct sample_posted as (s & Hr & Hrx).
  destruct (ack_counters_in_range (H := dev_profile) _ _ _ _ _ s Hr) as [Hd _]; [lia|].
  destruct (Hd 7 _ _ Hrx) as [w Hw]. exists s, w. exact (conj Hrx Hw).
Defined.

(** An empty signaled request breaks the count.  The request worker registers its
    completion and expects no acknowledgement; the next acknowledgement of the queue pair
    completes it, and the completion worker takes an acknowledgement off the timer that
    was never put on.  With overflow checks the timer worker panics; without them the
    counter is 2^64 - 1 and the timer never stops. *)
Theorem empty_request_underflows_counter `{Profile} now w qpn qp c wr k m p c' cq op cw t sc rc tw timer :
  can_write w qpn qp c wr k 0 -> qa_send_cq qp = Some cq ->
  send_event_op (b_opcode (r_base wr)) = Some op -> signaled wr = true ->
  b_length (r_base wr) = 0 -> next_wr 0 c = (Some (m, psn_of p), c') ->
  qp_ready cw qpn t sc rc -> mt_inner (qt_send t) = [] -> mg_send (qt_merge t) = [] ->
  tw_outstanding_ack_req_cnt tw !! qidx qpn = Some 0 -> tw_timer_table tw !! qidx qpn = Some timer ->
  exists es w' es' cw',
    run_task (rdma_process (RwWrite qpn wr)) w = Done es w' /\
    run_tasks completion_process (to_completion es ++ [CtAckSend qpn (psn_of p)]) cw = Done es' cw' /\
    match run_tasks (timeout_process now) (to_timeout es ++ to_timeout es') tw with
    | Fault f => debug_assertions = true /\ f = Panic
    | Done _ tw' => debug_assertions = false /\
        tw_outstanding_ack_req_cnt tw' !! qidx qpn = Some (2 ^ 64 - 1) /\
        tw_timer_table tw' !! qidx qpn = Some timer
    end.
Proof.
  intros Hcw Hcq Hop Hs Hl Hw Hq Hin Hm Hx Ht.
  destruct (write_signaled w qpn qp c wr k 0 m p c' cq op Hcw Hs Hcq Hop Hw) as (ch & Hr & _).
  rewrite Hl, Z.add_0_r in Hr.
  assert (Hop' : op <> ReadSignaled).
  { pose proof (cw_op _ _ _ _ _ _ _ Hcw) as Hwo. destruct (b_opcode (r_base wr)); cbn in Hop, Hwo; by simplify_eq. }
  destruct (register_then_ack cw qpn t sc rc
    (mk_send_event qpn op (mk_meta m (psn_of p)) (b_wr_id (r_base wr))) (psn_of p))
    as (cw' & Hrun); [done..|apply psn_le_refl|].
  eexists _, _, _, cw'. split; [exact Hr|]. split; [exact Hrun|].
  change (to_timeout _ ++ to_timeout _) with [AtAck qpn]. rewrite run_tasks_one.
  by apply ack_at_zero.
Qed.

Definition sample_completion (t : QueuePairMessageTracker) : CompletionWorker :=
  mk_cw [qpmt_default; t] [[]; []; []; []; []] [qp_attr_default; sample_attr].

Lemma sample_qp_ready t : qp_ready (sample_completion t) 0x100 t 3 4.
Proof. split; [done|]. split; [by exists sample_attr|]. by split; eexists. Qed.

Lemma empty_request_underflows_counter_witness :
  exists es w' es' cw',
    run_task (@rdma_process dev_profile (RwWrite 0x100 (sample_wr 0x1000 0)))
      (sample_worker (sq_of 7 5 3 2)) = Done es w' /\
    run_tasks completion_process (to_completion es ++ [CtAckSend 0x100 7])
      (sample_completion qpmt_default) = Done es' cw'.
Proof.
  destruct (@empty_request_underflows_counter dev_profile 0 (sample_worker (sq_of 7 5 3 2)) 0x100
    sample_attr (sq_of 7 5 3 2) (sample_wr 0x1000 0) 8 3 7 (sq_of 7 5 4 2) 3 WriteSignaled
    (sample_completion qpmt_default) qpmt_default 3 4
    (mk_tw [mk_timer (Some 8192) None 5 5; mk_timer (Some 8192) None 5 5] [0; 0] config_default)
    (mk_timer (Some 8192) None 5 5)) as (es & w' & es' & cw' & H1 & H2 & _);
    [by apply (sample_can_write (sq_of 7 5 3 2) 0)|reflexivity|reflexivity|reflexivity|reflexivity
    |reflexivity|apply sample_qp_ready|reflexivity|reflexivity|reflexivity|reflexivity|].
  exists es, w', es', cw'. exact (conj H1 H2).
Defined.

(** Progress on the receive side drops unacknowledged sends.  When the device reports
    that the packets received on a queue pair are complete up to number [r] of the peer's
    numbering, the handler passes [r] to the retransmission worker as if the peer had
    acknowledged the queue pair's own packets: a timeout then sends again only the own
    packets numbered from [r] on, although none of the others is acknowledged. *)
Theorem receive_progress_drops_sends `{Profile} {V} `{BitVec V} (h : MetaHandler V) w meta s s' r k l base :
  get_qp (mh_recv_table h) (alh_qpn meta) = Some s ->
  local_ack_bitmap (alh_psn_now meta) (alh_now_bitmap meta) s = Done (Some (psn_of r)) s' ->
  get_qp (prw_table w) (alh_qpn meta) = Some (mk_isq (en_elem <$> l) base) ->
  Forall (entry_ok k) l -> in_sequence l -> queue_near r l ->
  exists es h' w',
    run_task (meta_process (MetaAckLocalHw meta)) h = Done es h' /\
    run_tasks retransmit_process (to_retransmit es ++ [PrRetransmitAll (alh_qpn meta)]) w =
    Done (EffChunk ∘ snd <$> base.filter (fun p => r <= p.1) (queue_packets l)) w'.
Proof.
  intros Hs Hr Hq Hf Hi Hn. destruct (ack_then_all_run w (alh_qpn meta) k r l base Hq Hf Hi Hn) as (w' & Hw).
  eexists _, _, w'. split; [by apply (ack_local_hw_run h meta s (psn_of r) s')|exact Hw].
Qed.

Lemma receive_progress_drops_sends_witness :
  exists es h' w',
    run_task (meta_process (V := list bool) (MetaAckLocalHw (mk_alh 0x100 0 (2 ^ 128 - 1))))
      (mk_mh [] [mk_local default_tracker 0; mk_local default_tracker 0]) = Done es h' /\
    run_tasks (@retransmit_process dev_profile) (to_retransmit es ++ [PrRetransmitAll 0x100])
      (mk_prw [isq_default; mk_isq [sample_elem 10 512] 0]) = Done [] w'.
Proof.
  destruct (@entry_exists dev_profile 8 10 (sample_elem 10 512)) as (ps & H1);
    [done|done|lia|apply sample_ok; lia|].
  pose proof (entry_length _ _ H1) as L. change (Z.of_nat (length ps) = 2) in L.
  destruct (@receive_progress_drops_sends dev_profile (list bool) _
    (mk_mh [] [mk_local default_tracker 0; mk_local default_tracker 0])
    (mk_prw [isq_default; mk_isq [sample_elem 10 512] 0]) (mk_alh 0x100 0 (2 ^ 128 - 1))
    (mk_local default_tracker 0) (mk_local (mk_tracker 128 (replicate 128 false)) 0) 128 8
    [mk_entry 10 (sample_elem 10 512) ps] 0) as (es & h' & w' & Hm & Hr).
  - reflexivity.
  - vm_compute. reflexivity.
  - reflexivity.
  - exact (Forall_cons_2 _ _ _ H1 (Forall_nil_2 _)).
  - exact I.
  - repeat constructor; cbn; lia.
  - exists es, h', w'. refine (conj Hm _). rewrite filter_none in Hr; [exact Hr|].
    apply list.Forall_forall. intros x Hx. change (x ∈ ps ++ []) in Hx. rewrite app_nil_r in Hx.
    pose proof (entry_numbers _ _ _ H1 Hx) as Hb. cbn in Hb. lia.
Defined.

(** C37: a send that arrives in order reaches the application.  On a queue pair with one
    receive posted and nothing else waiting, the last packet of a send, not a retry and at the
    base of the receive window, makes the handler register the message and
    acknowledge past it; the completion worker then pushes the completion of the posted
    receive and, if the sender asked for it, sends the acknowledgement. *)
Theorem in_order_send_completes {V} `{BitVec V} `{!BitVecLaws V} (h : MetaHandler V) cw meta s win t sc rc x :
  get_qp (mh_recv_table h) (hw_dqpn meta) = Some s -> tracks (l_tracker s) win ->
  (forall n, n ∈ w_set win -> n < w_base win + 2 ^ 22) ->
  hw_psn meta = psn_of (w_base win) -> is_end (hw_pos meta) = true ->
  hw_header_type meta = HdrSend -> hw_is_retry meta = false ->
  qp_ready cw (hw_dqpn meta) t sc rc -> mt_inner (qt_recv t) = [] ->
  qt_merge t = mk_merge [] [] [] -> qt_post_recv_queue t = [x] ->
  exists es h' cw',
    run_task (meta_process (MetaHeaderWrite meta)) h = Done es h' /\
    run_tasks completion_process (to_completion es) cw =
      Done (if hw_ack_req meta
            then [EffAckResp (RespAck (hw_dqpn meta) (hw_msn meta) (psn_of (w_base win + 1)))] else []) cw' /\
    cw_cq_table cw' = alter (fun q => q ++ [ComplRecv (pr_wr_id x) None]) (Z.to_nat rc) (cw_cq_table cw).
Proof.
  intros Hs Htr Hwin Hpsn Hend Htype Hretry Hq Hin Hm Hp.
  destruct (ack_one_at_base s win Htr) as (b & s' & Hack & Hb & Hlt). rewrite <- Hpsn in Hack.
  assert (Hb2 : b <= w_base win + 1 + 2 ^ 22).
  { destruct (decide (b = w_base win + 1)); [lia|].
    specialize (Hwin (b - 1) (Hlt (b - 1) ltac:(lia))). lia. }
  set (e := mk_recv_event (hw_dqpn meta) RecvOpRecv (mk_meta (hw_msn meta) (psn_of (w_base win + 1))) (hw_ack_req meta)).
  destruct (recv_then_ack cw (hw_dqpn meta) t sc rc e (psn_of b) x) as (cw' & Hrun & Hcq); try done.
  { cbn. rewrite psn_cmp_range_le by lia. apply Z.leb_le. lia. }
  eexists _, _, cw'. split; [by apply (header_write_run h meta s _ s' Hs Hack)|].
  unfold header_write_effects, recv_op. rewrite Hend, Htype, Hretry, Hpsn, psn_add_of. cbn [andb app].
  split; [exact Hrun|exact Hcq].
Qed.

Lemma in_order_send_completes_witness :
  let t := mk_qpmt tracker_default tracker_default [] [mk_post_recv 0x100 42] (mk_merge [] [] []) in
  let meta := mk_hw PktOnly 0 0 false true false 0x100 64 0 0 0 HdrSend in
  exists es h' cw',
    run_task (meta_process (V := list bool) (MetaHeaderWrite meta))
      (mk_mh [] [mk_local default_tracker 0; mk_local default_tracker 0]) = Done es h' /\
    run_tasks completion_process (to_completion es) (sample_completion t) =
      Done [EffAckResp (RespAck 0x100 0 1)] cw' /\
    cw_cq_table cw' = [[]; []; []; []; [ComplRecv 42 None]].
Proof.
  intros t meta.
  apply (in_order_send_completes (V := list bool) (mk_mh [] [mk_local default_tracker 0; mk_local default_tracker 0])
    (sample_completion t) meta (mk_local default_tracker 0) (mk_window 0 ∅) t 3 4 (mk_post_recv 0x100 42)).
  - reflexivity.
  - exact (tracks_default 0).
  - intros n Hn. by apply elem_of_empty in Hn.
  - reflexivity.
  - reflexivity.
  - reflexivity.
  - reflexivity.
  - apply sample_qp_ready.
  - reflexivity.
  - reflexivity.
  - reflexivity.
Defined.
