(* ===== verification/Mtt.v ===== *)
(** * Memory regions

    rust-driver/src/rdma_utils/mtt.rs: memory region keys from a free list, page table
    entries from a bit array searched for the first free range, and the map from keys to
    entries. *)

From Stdlib Require Import ZArith Lia.
From stdpp Require Import base list gmap numbers.
From S2P Require Import Prelude RustBase WorkReq Qp.

#[local] Open Scope Z_scope.
#[local] Open Scope cint_scope.

(** ** constants.rs *)

Definition MAX_MR_CNT : Z := 8192.
Definition LR_KEY_KEY_PART_WIDTH : Z := 8.
Definition PGT_LEN : Z := 0x20000.

Record PgtEntry : Set := mk_pgt { pgt_index : Z; pgt_count : Z }.

Section code.
Context `{Profile} {V : Type} `{BitVec V}.

(** ** PgtAlloc *)

Definition PgtAlloc_new : V := bv_resize bv_new PGT_LEN false.

(** [for i in 0..free_list.len()] with the run of free entries that ends before [i]. *)
Fixpoint pgt_find (len : Z) (n : nat) (i count start : Z) : M V (option Z) :=
  match n with
  | O => mret None
  | S n' =>
      v ← get;
      b ← demand Panic (bv_get v i);
      if (b : bool) then pgt_find len n' (i + 1) 0 start
      else
        let start := if count =? 0 then i else start in
        let count := count + 1 in
        if count =? len then
          v' ← demand Panic (bv_fill_range v start (start + len) true);
          modify (fun _ => v');;
          mret (Some start)
        else pgt_find len n' (i + 1) count start
  end.

Definition pgt_alloc (len : Z) : M V (option Z) :=
  v ← get;
  pgt_find len (Z.to_nat (bv_len v)) 0 0 0.

Definition pgt_dealloc (index len : Z) : M V bool :=
  let end_ := index + len in
  if 2 ^ 64 <=? end_ then mret false
  else
    v ← get;
    match bv_fill_range v index end_ false with
    | Some v' => modify (fun _ => v');; mret true
    | None => mret false
    end.

(** ** Mtt *)

(** The allocator of keys is a stack of indices. *)
Record Mtt : Type := mk_mtt {
  mtt_mr_free_list : list Z; mtt_pgt : V; mtt_mrkey_map : gmap Z PgtEntry }.

Definition fill_up_free_list : list Z := seqZ 0 MAX_MR_CNT.

Definition Mtt_new : Mtt := mk_mtt fill_up_free_list PgtAlloc_new ∅.

Definition alloc_mr_key_idx : M Mtt (option Z) :=
  m ← get;
  match list.last (mtt_mr_free_list m) with
  | None => mret None
  | Some i =>
      modify (fun m => mk_mtt (removelast (mtt_mr_free_list m)) (mtt_pgt m) (mtt_mrkey_map m));;
      mret (Some i)
  end.

Definition dealloc_mr_key (i : Z) : M Mtt unit :=
  modify (fun m => mk_mtt (mtt_mr_free_list m ++ [i]) (mtt_pgt m) (mtt_mrkey_map m)).

(** [key] is the random number drawn by the call. *)
Definition alloc_mr_key (key : Z) : M Mtt (option Z) :=
  o ← alloc_mr_key_idx;
  mret ((fun i => Z.lor (i <<{32} LR_KEY_KEY_PART_WIDTH) key) <$> o).

Definition on_pgt {A} : M V A -> M Mtt A :=
  zoom mtt_pgt (fun v m => mk_mtt (mtt_mr_free_list m) v (mtt_mrkey_map m)).

Definition alloc_pgt (num_pages : Z) : M Mtt (option PgtEntry) :=
  o ← on_pgt (pgt_alloc num_pages);
  mret ((fun i => mk_pgt (wrap 32 i) (wrap 32 num_pages)) <$> o).

Definition mtt_alloc (key num_pages : Z) : M Mtt (option (Z * PgtEntry)) :=
  o ← alloc_mr_key key;
  match o with
  | None => mret None
  | Some x => y ← alloc_pgt num_pages; mret ((fun y => (x, y)) <$> y)
  end.

Definition mtt_dealloc (mr_key mr_index length : Z) : M Mtt bool :=
  dealloc_mr_key (Z.shiftr mr_key LR_KEY_KEY_PART_WIDTH);;
  on_pgt (pgt_dealloc mr_index length).

(** [debug_assert!(self.mrkey_map.insert(mr_key, pgt_entry).is_none())]: the argument of
    the macro is evaluated only where debug assertions are compiled in. *)
Definition register (key num_pages : Z) : M Mtt (option (Z * PgtEntry)) :=
  o ← mtt_alloc key num_pages;
  match o with
  | None => mret None
  | Some (mr_key, pgt_entry) =>
      when debug_assertions
        (m ← get;
         modify (fun m => mk_mtt (mtt_mr_free_list m) (mtt_pgt m)
                            (<[mr_key := pgt_entry]> (mtt_mrkey_map m)));;
         match mtt_mrkey_map m !! mr_key with Some _ => panic | None => mret tt end);;
      mret (Some (mr_key, pgt_entry))
  end.

Definition deregister (mr_key : Z) : M Mtt (result unit) :=
  m ← get;
  match mtt_mrkey_map m !! mr_key with
  | None => mret (Err InvalidInput)
  | Some entry =>
      modify (fun m => mk_mtt (mtt_mr_free_list m) (mtt_pgt m) (delete mr_key (mtt_mrkey_map m)));;
      b ← mtt_dealloc mr_key (pgt_index entry) (pgt_count entry);
      mret (if (b : bool) then Ok tt else Err InvalidInput)
  end.

End code.
Arguments Mtt : clear implicits.

(** ** Lemmas: the page table *)

Section pgt.
Context {V : Type} `{BitVec V} `{!BitVecLaws V}.
Implicit Types v : V.

(** Entries [a] to [b - 1] exist and are free. *)
Definition free_range v (a b : Z) : Prop :=
  forall i, a <= i < b -> bv_bits v !! Z.to_nat i = Some false.

(** Filling a range that is inside the table. *)
Lemma fill_run v a b x :
  0 <= a <= b -> b <= bv_len v ->
  exists v', bv_fill_range v a b x = Some v' /\ bv_len v' = bv_len v /\
    forall j, used v' j <-> (a <= j < b /\ x = true) \/ (used v j /\ ~ (a <= j < b)).
Proof.
  intros Ha Hb. pose proof (bv_fill_range_inside v a b x Ha Hb) as E.
  destruct (bv_fill_range v a b x) as [v'|]; [|done]. cbn in E. injection E as E.
  exists v'. split; [done|]. unfold used, bv_len in *. rewrite E. split.
  - rewrite !length_app, length_take, length_replicate, length_drop. lia.
  - intros j. destruct (decide (j < 0)); [naive_solver lia|].
    rewrite lookup_app. destruct (decide (j < a)).
    { rewrite lookup_take_lt by lia.
      destruct (lookup_lt_is_Some_2 (bv_bits v) (Z.to_nat j)) as [y Hy]; [lia|].
      rewrite Hy. naive_solver lia. }
    rewrite lookup_take_ge by lia. rewrite length_take_le by lia. rewrite lookup_app.
    destruct (decide (j < b)).
    { rewrite lookup_replicate_2 by lia. naive_solver lia. }
    assert (Hn : replicate (Z.to_nat (b - a)) x !! (Z.to_nat j - Z.to_nat a)%nat = None)
      by (apply lookup_replicate_None; lia). rewrite Hn.
    rewrite length_replicate, lookup_drop.
    replace (Z.to_nat b + (Z.to_nat j - Z.to_nat a - Z.to_nat (b - a)))%nat with (Z.to_nat j) by lia.
    naive_solver lia.
Qed.

(** The search: [count] free entries end before [i], preceded by a used one, and no
    range of [len] free entries ends at or before [i]. *)
Record searching v (len i count start : Z) : Prop := {
  se_count : 0 <= count <= i;
  se_short : 0 < len -> count < len;
  se_start : 0 < count -> start = i - count;
  se_free : free_range v (i - count) i;
  se_before : count < i -> used v (i - count - 1);
  se_none : 0 < len -> forall s, 0 <= s -> s + len <= i -> ~ free_range v s (s + len) }.

Lemma searching_used v len i count start :
  searching v len i count start -> used v i -> searching v len (i + 1) 0 start.
Proof.
  intros [H1 H2 H3 H4 H5 H6] [Hi Hu]. split; [lia|lia|lia| | |].
  - intros j Hj. lia.
  - intros _. replace (i + 1 - 0 - 1) with i by lia. by split.
  - intros Hl s Hs Hle Hf. destruct (decide (s + len <= i)); [by apply (H6 Hl s)|].
    specialize (Hf i ltac:(lia)). congruence.
Qed.

Lemma searching_free v len i count start :
  searching v len i count start -> bv_bits v !! Z.to_nat i = Some false -> count + 1 <> len ->
  searching v len (i + 1) (count + 1) (if count =? 0 then i else start).
Proof.
  intros [H1 H2 H3 H4 H5 H6] Hi Hne. split.
  - lia.
  - intros Hl. specialize (H2 Hl). lia.
  - intros _. destruct (Z.eqb_spec count 0); [lia|]. specialize (H3 ltac:(lia)). lia.
  - intros j Hj. destruct (decide (j = i)) as [->|]; [done|]. apply H4. lia.
  - intros Hc. replace (i + 1 - (count + 1) - 1) with (i - count - 1) by lia. apply H5. lia.
  - intros Hl s Hs Hle Hf. destruct (decide (s + len <= i)); [by apply (H6 Hl s)|].
    specialize (H2 Hl). destruct (H5 ltac:(lia)) as [_ Hu].
    specialize (Hf (i - count - 1) ltac:(lia)). congruence.
Qed.

Lemma pgt_find_spec len n v i count start :
  searching v len i count start -> i + Z.of_nat n = bv_len v ->
  match pgt_find len n i count start v with
  | Done (Some s) v' =>
      0 < len /\ 0 <= s /\ s + len <= bv_len v /\ free_range v s (s + len) /\
      (forall s', 0 <= s' < s -> ~ free_range v s' (s' + len)) /\
      bv_len v' = bv_len v /\ (forall j, used v' j <-> used v j \/ s <= j < s + len)
  | Done None v' =>
      v' = v /\ (0 < len -> forall s, 0 <= s -> s + len <= bv_len v -> ~ free_range v s (s + len))
  | Fault _ => False
  end.
Proof.
  revert i count start. induction n as [|n IH]; intros i count start Hs Hn; cbn.
  - split; [done|]. intros Hl s Hs0 Hle. apply (se_none _ _ _ _ _ Hs Hl); lia.
  - pose proof (se_count _ _ _ _ _ Hs) as Hc. unfold bv_len in Hn.
    unfold mbind, M_bind, get, demand. rewrite bv_get_bits by lia.
    destruct (lookup_lt_is_Some_2 (bv_bits v) (Z.to_nat i)) as [b Hb]; [lia|]. rewrite Hb. cbn.
    destruct b.
    { apply IH; [|unfold bv_len; lia]. eapply searching_used; [exact Hs|]. split; [lia|done]. }
    destruct (Z.eqb_spec (count + 1) len) as [Hl|Hl].
    2:{ apply IH; [|unfold bv_len; lia]. by apply searching_free. }
    set (s := if count =? 0 then i else start).
    assert (Hsv : s = i - count).
    { unfold s. destruct (Z.eqb_spec count 0); [lia|]. apply (se_start _ _ _ _ _ Hs). lia. }
    destruct (fill_run v s (s + len) true) as (v' & Hv' & Hlen & Hu); [lia|unfold bv_len; lia|].
    rewrite Hv'. cbn.
    assert (Hfree : free_range v s (s + len)).
    { intros j Hj. destruct (decide (j = i)) as [->|]; [done|]. apply (se_free _ _ _ _ _ Hs). lia. }
    split; [lia|]. split; [lia|]. split; [unfold bv_len; lia|]. split; [done|]. split; [|split; [done|]].
    + intros s' Hs'. apply (se_none _ _ _ _ _ Hs); lia.
    + intros j. rewrite Hu. split; [tauto|]. intros [Hj|Hj]; [|tauto].
      destruct (decide (s <= j < s + len)); [tauto|right; done].
Qed.

Lemma pgt_alloc_spec len v :
  match pgt_alloc len v with
  | Done (Some s) v' =>
      0 < len /\ 0 <= s /\ s + len <= bv_len v /\ free_range v s (s + len) /\
      (forall s', 0 <= s' < s -> ~ free_range v s' (s' + len)) /\
      bv_len v' = bv_len v /\ (forall j, used v' j <-> used v j \/ s <= j < s + len)
  | Done None v' =>
      v' = v /\ (0 < len -> forall s, 0 <= s -> s + len <= bv_len v -> ~ free_range v s (s + len))
  | Fault _ => False
  end.
Proof.
  unfold pgt_alloc, mbind, M_bind, get. apply pgt_find_spec.
  - split; [lia|lia|lia|intros j ?; lia|lia|lia].
  - unfold bv_len. lia.
Qed.

Lemma pgt_dealloc_spec index len v :
  0 <= index -> 0 <= len -> index + len <= bv_len v -> bv_len v < 2 ^ 64 ->
  exists v', pgt_dealloc index len v = Done true v' /\ bv_len v' = bv_len v /\
    forall j, used v' j <-> used v j /\ ~ (index <= j < index + len).
Proof.
  intros Hi Hl Hb Hv. destruct (fill_run v index (index + len) false) as (v' & Hf & Hlen & Hu); [lia|done|].
  exists v'. unfold pgt_dealloc. rewrite (proj2 (Z.leb_gt _ _)) by lia.
  unfold mbind, M_bind, get. rewrite Hf. split; [done|]. split; [done|].
  intros j. rewrite Hu. naive_solver.
Qed.

End pgt.

(** ** Regions *)

(** A registered region: its key and its page table entries. *)
Record region : Set := mk_region { rg_key : Z; rg_entry : PgtEntry }.

Definition rg_index (r : region) : Z := Z.shiftr (rg_key r) LR_KEY_KEY_PART_WIDTH.

Definition in_entry (e : PgtEntry) (j : Z) : Prop := pgt_index e <= j < pgt_index e + pgt_count e.

(** The tables with the regions [live] registered. *)
Record mtt_inv {V} `{BitVec V} (m : Mtt V) (live : list region) : Prop := {
  mi_len : bv_len (mtt_pgt m) = PGT_LEN;
  mi_keys : NoDup (mtt_mr_free_list m ++ (rg_index <$> live));
  mi_range : Forall (fun i => 0 <= i < MAX_MR_CNT) (mtt_mr_free_list m ++ (rg_index <$> live));
  mi_map k e : mtt_mrkey_map m !! k = Some e <-> mk_region k e ∈ live;
  mi_entries : Forall (fun r => 0 <= pgt_index (rg_entry r) /\ 0 < pgt_count (rg_entry r) /\
                 pgt_index (rg_entry r) + pgt_count (rg_entry r) <= PGT_LEN) live;
  mi_used j : used (mtt_pgt m) j <-> exists r, r ∈ live /\ in_entry (rg_entry r) j;
  mi_disjoint r1 r2 j : r1 ∈ live -> r2 ∈ live ->
    in_entry (rg_entry r1) j -> in_entry (rg_entry r2) j -> r1 = r2 }.

Section mtt.
Context {V : Type} `{BitVec V} `{!BitVecLaws V}.

Lemma fresh_table n :
  0 <= n -> bv_len (bv_resize bv_new n false : V) = n /\ forall j, ~ used (bv_resize bv_new n false : V) j.
Proof.
  intros Hn. unfold bv_len, used. rewrite bv_bits_resize, bv_bits_new, take_nil.
  cbn [app length]. rewrite Nat.sub_0_r, length_replicate. split; [lia|].
  intros j [_ Hj]. by apply lookup_replicate in Hj as [? _].
Qed.

Lemma fresh_free n i : 0 <= i < n -> bv_bits (bv_resize bv_new n false : V) !! Z.to_nat i = Some false.
Proof.
  intros Hi. rewrite bv_bits_resize, bv_bits_new, take_nil. cbn [app length].
  rewrite Nat.sub_0_r. apply lookup_replicate_2. lia.
Qed.

Lemma mtt_inv_new : mtt_inv (Mtt_new : Mtt V) [].
Proof.
  destruct (fresh_table PGT_LEN) as [Hl Hu]; [unfold PGT_LEN; lia|].
  split; unfold Mtt_new, PgtAlloc_new, fill_up_free_list; cbn [mtt_pgt mtt_mr_free_list mtt_mrkey_map fmap list_fmap].
  - exact Hl.
  - rewrite app_nil_r. apply NoDup_seqZ.
  - rewrite app_nil_r. apply list.Forall_forall. intros i Hi. apply elem_of_seqZ in Hi. lia.
  - intros k e. rewrite lookup_empty, elem_of_nil. done.
  - constructor.
  - intros j. split; [intros Hj; by apply Hu in Hj|]. intros (r & Hr & _). by apply elem_of_nil in Hr.
  - intros r1 r2 j Hr. by apply elem_of_nil in Hr.
Qed.

Lemma rg_index_key i key e :
  0 <= i < MAX_MR_CNT -> 0 <= key < 2 ^ 8 ->
  rg_index (mk_region (Z.lor (i <<{32} LR_KEY_KEY_PART_WIDTH) key) e) = i.
Proof.
  intros Hi Hk. unfold rg_index. cbn [rg_key]. apply (qpn_index_key i key); [|done].
  unfold MAX_MR_CNT, in_width in *. lia.
Qed.

(** Putting a region on an index taken off the free list and on free entries. *)
Lemma mtt_inv_add (m : Mtt V) live free i key s n v' :
  mtt_inv m live -> mtt_mr_free_list m = free ++ [i] -> 0 <= key < 2 ^ 8 ->
  0 < n -> 0 <= s -> s + n <= bv_len (mtt_pgt m) -> free_range (mtt_pgt m) s (s + n) ->
  bv_len v' = bv_len (mtt_pgt m) ->
  (forall j, used v' j <-> used (mtt_pgt m) j \/ s <= j < s + n) ->
  let k := Z.lor (i <<{32} LR_KEY_KEY_PART_WIDTH) key in
  let e := mk_pgt s n in
  mtt_mrkey_map m !! k = None /\
  mtt_inv (mk_mtt free v' (<[k := e]> (mtt_mrkey_map m))) (mk_region k e :: live).
Proof.
  intros [Hl Hk Hr Hm He Hu Hd] Hfree Hkey Hn Hs Hle Hf Hv Huv k e.
  rewrite Hfree in Hk, Hr. rewrite <- app_assoc in Hk, Hr.
  assert (Hi : 0 <= i < MAX_MR_CNT) by (rewrite list.Forall_forall in Hr; apply Hr; set_solver).
  assert (Hidx : forall e', rg_index (mk_region k e') = i) by (intros; by apply rg_index_key).
  assert (Hnew : forall e', mk_region k e' ∉ live).
  { intros e' Hin. apply list.NoDup_app in Hk as (_ & _ & Hk). apply list.NoDup_app in Hk as (_ & Hk & _).
    apply (Hk i); [by apply list_elem_of_singleton|]. apply list_elem_of_fmap. by exists (mk_region k e'). }
  assert (Hnone : mtt_mrkey_map m !! k = None).
  { destruct (mtt_mrkey_map m !! k) as [e'|] eqn:Em; [|done]. apply Hm in Em. by apply Hnew in Em. }
  assert (Hclash : forall r j, r ∈ live -> in_entry (rg_entry r) j -> ~ s <= j < s + n).
  { intros r j Hin Hj Hb. destruct (proj2 (Hu j)) as [_ Ht]; [by exists r|].
    specialize (Hf j Hb). congruence. }
  split; [done|]. split; cbn [mtt_pgt mtt_mr_free_list mtt_mrkey_map].
  - congruence.
  - rewrite fmap_cons, Hidx. exact Hk.
  - rewrite fmap_cons, Hidx. exact Hr.
  - intros k' e'. rewrite elem_of_cons. destruct (decide (k' = k)) as [->|Hne].
    + rewrite lookup_insert_eq. split; [intros [= ->]; by left|].
      intros [[= ->]|Hin]; [done|]. by apply Hnew in Hin.
    + rewrite lookup_insert_ne by done. rewrite Hm. split; [by right|]. intros [[= ? ?]|?]; done.
  - constructor; [|done]. cbn. lia.
  - intros j. rewrite Huv, Hu. split.
    + intros [(r & Hin & Hj)|Hj]; [exists r|exists (mk_region k e)]; (split; [set_solver|done]).
    + intros (r & [->|Hin]%elem_of_cons & Hj); [by right|left; eauto].
  - intros r1 r2 j [->|H1]%elem_of_cons [->|H2]%elem_of_cons J1 J2; [done| | |by eapply Hd].
    + by destruct (Hclash r2 j H2 J2).
    + by destruct (Hclash r1 j H1 J1).
Qed.

(** Taking a region off. *)
Lemma mtt_inv_remove (m : Mtt V) l1 r l2 v' :
  mtt_inv m (l1 ++ r :: l2) -> bv_len v' = bv_len (mtt_pgt m) ->
  (forall j, used v' j <-> used (mtt_pgt m) j /\ ~ in_entry (rg_entry r) j) ->
  mtt_inv (mk_mtt (mtt_mr_free_list m ++ [rg_index r]) v' (delete (rg_key r) (mtt_mrkey_map m))) (l1 ++ l2).
Proof.
  intros [Hl Hk Hr Hm He Hu Hd] Hv Huv.
  assert (Hperm : (mtt_mr_free_list m ++ [rg_index r]) ++ (rg_index <$> l1 ++ l2) ≡ₚ
                  mtt_mr_free_list m ++ (rg_index <$> l1 ++ r :: l2)).
  { rewrite <- app_assoc. apply Permutation_app_head. rewrite !fmap_app, fmap_cons.
    cbn. apply Permutation_middle. }
  assert (Hnotin : r ∉ l1 ++ l2).
  { intros Hin. apply list.NoDup_app in Hk as (_ & _ & Hk). rewrite fmap_app, fmap_cons in Hk.
    rewrite <- Permutation_middle, <- fmap_app in Hk. apply list.NoDup_cons in Hk as [Hk _].
    apply Hk, list_elem_of_fmap. by exists r. }
  assert (Hsub : forall x, x ∈ l1 ++ r :: l2 <-> x = r \/ x ∈ l1 ++ l2) by set_solver.
  split; cbn [mtt_pgt mtt_mr_free_list mtt_mrkey_map].
  - congruence.
  - by rewrite Hperm.
  - by rewrite Hperm.
  - intros k e. rewrite lookup_delete_Some, Hm, Hsub. destruct r as [kr er]. cbn [rg_key].
    split; [intros [Hne [[= ? ?]|?]]; [by subst|done]|].
    intros Hin. split; [|by right]. intros <-.
    assert (Hk1 : mtt_mrkey_map m !! kr = Some e) by (apply Hm, Hsub; by right).
    assert (Hk2 : mtt_mrkey_map m !! kr = Some er) by (apply Hm, Hsub; by left).
    assert (e = er) by congruence. by subst.
  - apply Forall_app in He as [He1 He2]. apply Forall_cons_1 in He2 as [_ He2]. by apply Forall_app.
  - intros j. rewrite Huv, Hu. split.
    + intros [(x & [->|Hx]%Hsub & Hj) Hn]; [done|]. eauto.
    + intros (x & Hx & Hj). split; [exists x; split; [apply Hsub; by right|done]|].
      intros Hrj. assert (x = r) by (apply (Hd x r j); [apply Hsub; by right|apply Hsub; by left|done|done]).
      by subst.
  - intros r1 r2 j H1 H2. apply Hd; apply Hsub; by right.
Qed.

(** Giving up a key. *)
Lemma mtt_inv_drop_key (m : Mtt V) live free i :
  mtt_inv m live -> mtt_mr_free_list m = free ++ [i] ->
  mtt_inv (mk_mtt free (mtt_pgt m) (mtt_mrkey_map m)) live.
Proof.
  intros [Hl Hk Hr Hm He Hu Hd] Hf. rewrite Hf, <- app_assoc in Hk, Hr.
  split; try done; cbn [mtt_pgt mtt_mr_free_list mtt_mrkey_map].
  - apply list.NoDup_app in Hk as (H1 & H2 & H3). apply list.NoDup_app in H3 as (_ & _ & H3).
    apply list.NoDup_app. split; [done|]. split; [|done]. intros x Hx Hx'. apply (H2 x Hx). set_solver.
  - apply Forall_app in Hr as [H1 H2]. apply Forall_app in H2 as [_ H2]. by apply Forall_app.
Qed.

Section register.
Context `{Profile}.

Lemma register_no_key key n (m : Mtt V) :
  mtt_mr_free_list m = [] -> register key n m = Done None m.
Proof. intros Hf. unfold register, mtt_alloc, alloc_mr_key, alloc_mr_key_idx, mbind, M_bind, get. by rewrite Hf. Qed.

(** A registration takes the last key of the free list, whatever the page table gives. *)
Lemma mtt_register_run key n (m : Mtt V) free i :
  mtt_mr_free_list m = free ++ [i] ->
  let k := Z.lor (i <<{32} LR_KEY_KEY_PART_WIDTH) key in
  register key n m =
  match pgt_alloc n (mtt_pgt m) with
  | Fault f => Fault f
  | Done None v => Done None (mk_mtt free v (mtt_mrkey_map m))
  | Done (Some s) v =>
      let e := mk_pgt (wrap 32 s) (wrap 32 n) in
      if debug_assertions then
        match mtt_mrkey_map m !! k with
        | Some _ => Fault Panic
        | None => Done (Some (k, e)) (mk_mtt free v (<[k := e]> (mtt_mrkey_map m)))
        end
      else Done (Some (k, e)) (mk_mtt free v (mtt_mrkey_map m))
  end.
Proof.
  intros Hf k. unfold register, mtt_alloc, alloc_mr_key, alloc_mr_key_idx, alloc_pgt, on_pgt, zoom, mbind, M_bind, get, modify.
  rewrite Hf, last_snoc. cbn. rewrite Hf, removelast_last.
  destruct (pgt_alloc n (mtt_pgt m)) as [[s|] v|f]; cbn; [|done|done].
  unfold when. destruct debug_assertions; cbn; [|done].
  fold k. by destruct (mtt_mrkey_map m !! k).
Qed.

Lemma mr_key_width i key : 0 <= i < MAX_MR_CNT -> 0 <= key < 2 ^ 8 -> in_width 32 (Z.lor (i <<{32} LR_KEY_KEY_PART_WIDTH) key).
Proof.
  unfold MAX_MR_CNT, LR_KEY_KEY_PART_WIDTH, in_width. intros Hi Hk. rewrite Z.shiftl_mul_pow2 by lia.
  rewrite wrap_small by (unfold in_width; lia). pose proof (Z.add_lor_land (i * 2 ^ 8) key).
  pose proof (proj2 (Z.lor_nonneg (i * 2 ^ 8) key)). pose proof (proj2 (Z.land_nonneg (i * 2 ^ 8) key)). lia.
Qed.

(** Both outcomes of a registration, whatever the profile. *)
Lemma register_cases key n (m : Mtt V) live :
  mtt_inv m live -> 0 <= key < 2 ^ 8 -> 0 <= n ->
  (exists m', register key n m = Done None m' /\
     (mtt_mr_free_list m = [] \/ n = 0 \/
      forall s, 0 <= s -> s + n <= PGT_LEN -> ~ free_range (mtt_pgt m) s (s + n))) \/
  (exists k s m', register key n m = Done (Some (k, mk_pgt s n)) m' /\ in_width 32 k /\
     0 < n /\ 0 <= s /\ s + n <= PGT_LEN /\ free_range (mtt_pgt m) s (s + n)).
Proof.
  intros Hinv Hkey Hn. destruct (mtt_mr_free_list m) as [|i free _] eqn:Hf using rev_ind.
  { left. exists m. split; [by apply register_no_key|by left]. }
  pose proof (mtt_register_run key n m free i Hf) as Er. cbv zeta in Er. pose proof (mi_len _ _ Hinv) as Hl.
  assert (Hi : 0 <= i < MAX_MR_CNT).
  { pose proof (mi_range _ _ Hinv) as Hr. rewrite Hf, list.Forall_forall in Hr. apply Hr. set_solver. }
  pose proof (pgt_alloc_spec n (mtt_pgt m)) as Ha. destruct (pgt_alloc n (mtt_pgt m)) as [[s|] v|f]; [| |done].
  - destruct Ha as (Hn0 & Hs & Hle & Hfree & _ & Hlen & Hu). right. rewrite Hl in Hle.
    assert (Hb : s + n <= 0x20000) by exact Hle.
    rewrite (wrap_small 32 s), (wrap_small 32 n) in Er by (unfold in_width; lia).
    destruct (mtt_inv_add m live free i key s n v) as [Hnone _]; try done; [by rewrite Hl|]. rewrite Hnone in Er.
    destruct debug_assertions; eexists _, s, _; (split; [exact Er|]; split_and!; try done; by apply mr_key_width).
  - destruct Ha as [-> Hnone]. left. eexists. split; [exact Er|]. right.
    destruct (decide (n = 0)); [by left|right]. rewrite <- Hl. apply Hnone. lia.
Qed.

End register.

Lemma deregister_live (m : Mtt V) l1 r l2 :
  mtt_inv m (l1 ++ r :: l2) ->
  exists m', deregister (rg_key r) m = Done (Ok tt) m' /\ mtt_inv m' (l1 ++ l2) /\
    mtt_mr_free_list m' = mtt_mr_free_list m ++ [rg_index r].
Proof.
  intros Hinv. pose proof Hinv as [Hl _ _ Hm He _ _]. destruct r as [k e].
  assert (Hk : mtt_mrkey_map m !! k = Some e) by (apply Hm; set_solver).
  apply Forall_app in He as [_ He]. apply Forall_cons_1 in He as [He _]. cbn in He.
  destruct (pgt_dealloc_spec (pgt_index e) (pgt_count e) (mtt_pgt m)) as (v & Hv & Hlen & Hu);
    [lia|lia|lia|rewrite Hl; unfold PGT_LEN; lia|].
  eexists. split; [|split; [exact (mtt_inv_remove m l1 (mk_region k e) l2 v Hinv Hlen Hu)|done]].
  unfold deregister, mtt_dealloc, dealloc_mr_key, on_pgt, zoom, mbind, M_bind, get, modify. cbn.
  rewrite Hk. cbn. by rewrite Hv.
Qed.

End mtt.

(** ** Properties *)

(** C32: memory regions.  With overflow checks and debug assertions compiled in, a
    registration never panics; it returns a key no live region has, with the first range
    of page table entries that is free, so no two live regions share an entry; it fails
    only with no key left, for no pages or with no free range long enough.  A failed
    registration still takes a key off the free list.  A live region deregisters, and
    its key and entries are free again. *)
Theorem regions_disjoint {V} `{BitVec V} `{!BitVecLaws V} (m : Mtt V) live key n :
  mtt_inv m live -> 0 <= key < 2 ^ 8 -> 0 <= n < 2 ^ 64 ->
  match register (H := dev_profile) key n m with
  | Done (Some (k, e)) m' =>
      (forall r, r ∈ live -> rg_key r <> k) /\ pgt_count e = n /\
      (forall r j, r ∈ live -> in_entry (rg_entry r) j -> ~ in_entry e j) /\
      (forall s, 0 <= s < pgt_index e -> ~ free_range (mtt_pgt m) s (s + n)) /\
      mtt_inv m' (mk_region k e :: live)
  | Done None m' =>
      mtt_inv m' live /\ mtt_mr_free_list m' = removelast (mtt_mr_free_list m) /\
      (mtt_mr_free_list m = [] \/ n = 0 \/
       forall s, 0 <= s -> s + n <= PGT_LEN -> ~ free_range (mtt_pgt m) s (s + n))
  | Fault _ => False
  end /\
  (forall l1 r l2, live = l1 ++ r :: l2 ->
     exists m', deregister (rg_key r) m = Done (Ok tt) m' /\ mtt_inv m' (l1 ++ l2) /\
       mtt_mr_free_list m' = mtt_mr_free_list m ++ [rg_index r]).
Proof.
  intros Hinv Hkey Hn. split; [|intros l1 r l2 ->; by apply deregister_live].
  destruct (mtt_mr_free_list m) as [|i free _] eqn:Hf using rev_ind.
  { rewrite register_no_key by done. rewrite Hf. split; [done|]. split; [done|]. by left. }
  rewrite (mtt_register_run key n m free i Hf), removelast_last. pose proof (mi_len _ _ Hinv) as Hl.
  pose proof (pgt_alloc_spec n (mtt_pgt m)) as Ha. destruct (pgt_alloc n (mtt_pgt m)) as [[s|] v|f]; [| |done].
  - destruct Ha as (Hn0 & Hs & Hle & Hfree & Hfirst & Hlen & Hu).
    assert (Hb : s + n <= 0x20000) by (rewrite Hl in Hle; exact Hle).
    assert (Hws : wrap 32 s = s /\ wrap 32 n = n) by (unfold wrap; rewrite !Z.mod_small by lia; done).
    destruct Hws as [-> ->]. cbv zeta. destruct (mtt_inv_add m live free i key s n v) as [Hnone Hinv']; try done.
    cbn [debug_assertions dev_profile]. rewrite Hnone. cbn [pgt_count pgt_index].
    split; [|split; [done|]; split; [|split; [exact Hfirst|exact Hinv']]].
    + intros [k' e'] Hr Hk. apply (mi_map _ _ Hinv) in Hr. cbn in Hk. congruence.
    + intros r j Hr Hj Hj'. destruct (proj2 (mi_used _ _ Hinv j)) as [_ Ht]; [by exists r|].
      specialize (Hfree j Hj'). congruence.
  - destruct Ha as [-> Hnone]. split; [by eapply mtt_inv_drop_key|]. split; [done|]. right.
    destruct (decide (n = 0)); [by left|right]. rewrite <- Hl. apply Hnone. lia.
Qed.

Lemma regions_disjoint_witness :
  exists k e m', register (H := dev_profile) 7 4 (Mtt_new : Mtt (list bool)) = Done (Some (k, e)) m' /\
    pgt_count e = 4 /\ mtt_inv m' [mk_region k e].
Proof.
  pose proof (regions_disjoint (Mtt_new : Mtt (list bool)) [] 7 4 mtt_inv_new
                ltac:(lia) ltac:(lia)) as [Hr _].
  destruct (register (H := dev_profile) 7 4 (Mtt_new : Mtt (list bool))) as [[[k e]|] m'|f]; [| |done].
  - exists k, e, m'. destruct Hr as (_ & Hc & _ & _ & Hinv). done.
  - exfalso. destruct Hr as (_ & _ & [Hr|[Hr|Hr]]); [discriminate|discriminate|].
    apply (Hr 0); [lia|unfold PGT_LEN; lia|]. intros i Hi. apply fresh_free. unfold PGT_LEN. lia.
Defined.

(** One call of the owner of the tables. *)
Inductive mtt_op : Set :=
  | OpRegister (key num_pages : Z)
  | OpDeregister (mr_key : Z).

Definition mtt_step {V} `{Profile} `{BitVec V} (o : mtt_op) : M (Mtt V) unit :=
  match o with
  | OpRegister key n => register key n;; mret tt
  | OpDeregister k => deregister k;; mret tt
  end.

Fixpoint registrations (ops : list mtt_op) : nat :=
  match ops with
  | [] => 0
  | OpRegister _ _ :: ops => S (registrations ops)
  | OpDeregister _ :: ops => registrations ops
  end.

(** Without debug assertions a call leaves the map as it is. *)
Lemma release_step {V} `{BitVec V} `{!BitVecLaws V} (m : Mtt V) o :
  mtt_mrkey_map m = ∅ ->
  exists m', mtt_step (H := release_profile) o m = Done tt m' /\ mtt_mrkey_map m' = ∅ /\
    length (mtt_mr_free_list m') = (length (mtt_mr_free_list m) - registrations [o])%nat.
Proof.
  intros Hm. destruct o as [key n|k]; cbn [mtt_step registrations]; unfold mbind, M_bind.
  - destruct (mtt_mr_free_list m) as [|i free _] eqn:Hf using rev_ind.
    { rewrite register_no_key by done. exists m. by rewrite Hf. }
    rewrite (mtt_register_run key n m free i Hf). cbn [debug_assertions release_profile].
    pose proof (pgt_alloc_spec n (mtt_pgt m)) as Ha.
    destruct (pgt_alloc n (mtt_pgt m)) as [[s|] v|f]; [| |done]; eexists; (split; [done|]);
      cbn; rewrite length_app; cbn; (split; [done|lia]).
  - exists m. unfold deregister, mbind, M_bind, get. rewrite Hm, lookup_empty.
    split; [done|]. split; [done|lia].
Qed.

Lemma release_run {V} `{BitVec V} `{!BitVecLaws V} ops (m : Mtt V) :
  mtt_mrkey_map m = ∅ ->
  exists m', for_each ops (mtt_step (H := release_profile)) m = Done tt m' /\ mtt_mrkey_map m' = ∅ /\
    length (mtt_mr_free_list m') = (length (mtt_mr_free_list m) - registrations ops)%nat.
Proof.
  revert m. induction ops as [|o ops IH]; intros m Hm; cbn [for_each].
  { exists m. split; [done|]. split; [done|]. cbn. lia. }
  destruct (release_step m o Hm) as (m1 & H1 & Hm1 & Hl1). destruct (IH m1 Hm1) as (m2 & H2 & Hm2 & Hl2).
  exists m2. unfold mbind, M_bind. rewrite H1. split; [done|]. split; [done|].
  rewrite Hl2, Hl1. destruct o; cbn; lia.
Qed.

Lemma new_keys {V} `{BitVec V} : Z.of_nat (length (mtt_mr_free_list (Mtt_new : Mtt V))) = MAX_MR_CNT.
Proof. unfold Mtt_new, fill_up_free_list. cbn [mtt_mr_free_list]. rewrite length_seqZ. unfold MAX_MR_CNT. lia. Qed.

(** Without debug assertions (a release build) the call that records a region in the
    map is compiled out: whatever sequence of calls is made, deregistering any key fails,
    no key is ever given back, and after as many registrations as there are keys the next
    one is refused. *)
Theorem release_build_loses_regions {V} `{BitVec V} `{!BitVecLaws V} (ops : list mtt_op) :
  exists m', for_each ops (mtt_step (H := release_profile)) (Mtt_new : Mtt V) = Done tt m' /\
    (forall k, deregister k m' = Done (Err InvalidInput) m') /\
    Z.of_nat (length (mtt_mr_free_list m')) = Z.max 0 (MAX_MR_CNT - Z.of_nat (registrations ops)) /\
    (MAX_MR_CNT <= Z.of_nat (registrations ops) -> forall key n,
       register (H := release_profile) key n m' = Done None m').
Proof.
  destruct (release_run ops (Mtt_new : Mtt V)) as (m' & Hrun & Hm & Hl); [done|].
  pose proof (new_keys (V := V)). exists m'. split; [done|]. split; [|split].
  - intros k. unfold deregister, mbind, M_bind, get. by rewrite Hm, lookup_empty.
  - lia.
  - intros Hfull key n. apply register_no_key, nil_length_inv. lia.
Qed.

Lemma release_build_loses_regions_witness :
  exists m' : Mtt (list bool),
    for_each [OpRegister 7 4; OpDeregister 2096903] (mtt_step (H := release_profile)) Mtt_new = Done tt m' /\
    deregister 2096903 m' = Done (Err InvalidInput) m' /\
    Z.of_nat (length (mtt_mr_free_list m')) = 8191.
Proof.
  destruct (release_build_loses_regions (V := list bool) [OpRegister 7 4; OpDeregister 2096903])
    as (m' & Hrun & Hd & Hl & _).
  exists m'. split; [exact Hrun|]. split; [exact (Hd 2096903)|exact Hl].
Defined.
