(* ===== verification/Mem.v ===== *)
(** * Host memory

    rust-driver/src/mem: the number of pages of a region, the translation of virtual to
    physical addresses through the page maps of the kernel, and the map between physical
    and virtual addresses with which the simulation resolves the device's accesses.  The
    files of the kernel and [mlock] are parameters. *)

From Stdlib Require Import ZArith Lia.
From stdpp Require Import base list sorting numbers.
From S2P Require Import Prelude RustBase WorkReq Qp.

#[local] Open Scope Z_scope.
#[local] Open Scope cint_scope.

(** ** mod.rs and utils.rs *)

(** The cargo feature that selects the page size of the device: [page_size_2m] or
    [page_size_4k]. *)
Class PageFeature : Set := { huge_pages : bool }.

Definition PAGE_SIZE_BITS `{PageFeature} : Z := if huge_pages then 21 else 12.
Definition PAGE_SIZE `{PageFeature} : Z := Z.shiftl 1 PAGE_SIZE_BITS.

Definition get_num_page `{PageFeature} (addr length : Z) : Z :=
  if length =? 0 then 0
  else
    let last := saturating_sub (saturating_add 64 addr length) 1 in
    let start_page := addr / PAGE_SIZE in
    let end_page := last / PAGE_SIZE in
    saturating_sub end_page start_page + 1.

(** ** virt_to_phy.rs *)

Definition PFN_MASK_SIZE : Z := 8.
Definition PFN_MASK : Z := Z.shiftl 1 55 - 1.
Definition PAGE_PRESENT_BIT : Z := 63.

(** A file of page entries of 8 bytes: the entry at an offset, [None] for an I/O error. *)
Definition page_file : Type := Z -> option Z.

(** The files of the kernel, [None] where a file cannot be opened, and
    [sysconf(_SC_PAGESIZE)].  The pages looked up are locked: their entries do not change
    during a call. *)
Class HostPages : Type := {
  base_page_size : Z;
  pagemap : option page_file;
  gpu_ptr_translator : option page_file;
}.

Section resolver.
Context `{Profile} `{PageFeature} `{HostPages}.

(** The closure [get_pa_from_file]; the outer [None] is an I/O error. *)
Definition get_pa_from_file {S} (virt_addr offset : Z) (file : page_file) : M S (option (option Z)) :=
  match file offset with
  | None => mret None
  | Some entry =>
      if negb (Z.land (Z.shiftr entry PAGE_PRESENT_BIT) 1 =? 0) then
        let phy_pfn := Z.land entry PFN_MASK in
        base ← umul 64 phy_pfn base_page_size;
        phys_addr ← uadd 64 base (virt_addr mod base_page_size);
        mret (Some (Some phys_addr))
      else mret (Some None)
  end.

Definition virt_to_phys {S} (virt_addr : Z) : M S (result (option Z)) :=
  match pagemap with
  | None => mret (Err (IoError None))
  | Some file =>
      let virt_pfn := virt_addr / base_page_size in
      offset ← umul 64 PFN_MASK_SIZE virt_pfn;
      r ← get_pa_from_file virt_addr offset file;
      match r with
      | None => mret (Err (IoError None))
      | Some (Some pa) => mret (Ok (Some pa))
      | Some None =>
          match gpu_ptr_translator with
          | None => mret (Ok None)
          | Some gpu =>
              r ← get_pa_from_file virt_addr offset gpu;
              match r with
              | Some (Some pa) => mret (Ok (Some pa))
              | _ => mret (Ok None)
              end
          end
      end
  end.

(** One pass over the pages from [addr]; [None] is an I/O error. *)
Fixpoint scan_pages {S} (file : page_file) (start_addr : Z) (n : nat) (addr : Z) :
    M S (option (list (option Z))) :=
  match n with
  | O => mret (Some [])
  | S n' =>
      let virt_pfn := addr / base_page_size in
      offset ← umul 64 PFN_MASK_SIZE virt_pfn;
      pa ← get_pa_from_file start_addr offset file;
      match pa with
      | None => mret None
      | Some pa =>
          addr ← uadd 64 addr PAGE_SIZE;
          rest ← scan_pages file start_addr n' addr;
          mret (cons pa <$> rest)
      end
  end.

(** The second pass reads the page map again, not the translator it has opened; it
    overwrites the entries it finds. *)
Definition virt_to_phys_range {S} (start_addr num_pages : Z) : M S (result (list (option Z))) :=
  match pagemap with
  | None => mret (Err (IoError None))
  | Some file =>
      r ← scan_pages file start_addr (Z.to_nat num_pages) start_addr;
      match r with
      | None => mret (Err (IoError None))
      | Some phy_addrs =>
          let maybe_gpu_ptr := forallb (fun pa => match pa with Some _ => false | None => true end) phy_addrs in
          if maybe_gpu_ptr then
            match gpu_ptr_translator with
            | None => mret (Ok phy_addrs)
            | Some _ =>
                r ← scan_pages file start_addr (Z.to_nat num_pages) start_addr;
                match r with
                | None => mret (Err (IoError None))
                | Some phy_addrs' => mret (Ok (zip_with option_or phy_addrs' phy_addrs))
                end
            end
          else mret (Ok phy_addrs)
      end
  end.

End resolver.

(** ** pa_va_map.rs *)

(** A [BTreeMap]: its entries by increasing key. *)
Section btree.
Context {A : Type}.

Fixpoint bt_insert (k : Z) (a : A) (m : list (Z * A)) : list (Z * A) :=
  match m with
  | [] => [(k, a)]
  | (k', a') :: m' =>
      if k <? k' then (k, a) :: m
      else if k =? k' then (k, a) :: m'
      else (k', a') :: bt_insert k a m'
  end.

Fixpoint bt_get (k : Z) (m : list (Z * A)) : option A :=
  match m with
  | [] => None
  | (k', a') :: m' => if k =? k' then Some a' else bt_get k m'
  end.

Definition bt_remove (k : Z) (m : list (Z * A)) : option A * list (Z * A) :=
  (bt_get k m, filter (fun e => e.1 <> k) m).

End btree.

Record AddressRange : Set := mk_range { pa_start : Z; pa_end : Z; va_start : Z }.

#[export] Instance AddressRange_eq_dec : EqDecision AddressRange.
Proof. solve_decision. Defined.

Record PaVaMap : Set := mk_pavamap { ranges : list (Z * AddressRange); va_to_pa : list (Z * Z) }.

Definition PaVaMap_new : PaVaMap := mk_pavamap [] [].

Section pa_va_map.
Context `{Profile}.

Definition contains (r : AddressRange) (pa : Z) : bool := (pa_start r <=? pa) && (pa <? pa_end r).

Definition pa_to_va_with_len {S} (r : AddressRange) (pa : Z) : M S (option (Z * Z)) :=
  if contains r pa then
    offset ← usub 64 pa (pa_start r);
    va ← uadd 64 (va_start r) offset;
    remaining_len ← usub 64 (pa_end r) pa;
    mret (Some (va, remaining_len))
  else mret None.

Definition overlaps (r existing : AddressRange) : bool :=
  (pa_start r <? pa_end existing) && (pa_start existing <? pa_end r).

Definition pv_insert (pa va size : Z) : M PaVaMap unit :=
  end_ ← uadd 64 pa size;
  let range := mk_range pa end_ va in
  m ← get;
  if existsb (fun e => overlaps range e.2) (ranges m) then panic
  else modify (fun m => mk_pavamap (bt_insert pa range (ranges m)) (bt_insert va pa (va_to_pa m))).

Fixpoint first_containing {S} (pa : Z) (l : list (Z * AddressRange)) : M S (option (Z * Z)) :=
  match l with
  | [] => mret None
  | (_, range) :: l' =>
      o ← pa_to_va_with_len range pa;
      match o with
      | Some x => mret (Some x)
      | None => first_containing pa l'
      end
  end.

(** [self.ranges.range(..=pa).rev()] *)
Definition pv_lookup (pa : Z) : M PaVaMap (option (Z * Z)) :=
  m ← get;
  first_containing pa (reverse (filter (fun e => e.1 <= pa) (ranges m))).

Definition lookup_by_va (va : Z) : M PaVaMap (option Z) := gets (fun m => bt_get va (va_to_pa m)).

Definition pv_remove (pa : Z) : M PaVaMap unit :=
  m ← get;
  let '(o, ranges') := bt_remove pa (ranges m) in
  match o with
  | Some range => modify (fun m => mk_pavamap ranges' (bt_remove (va_start range) (va_to_pa m)).2)
  | None => panic
  end.

Definition remove_by_va (va : Z) : M PaVaMap unit :=
  m ← get;
  let '(o, va_to_pa') := bt_remove va (va_to_pa m) in
  match o with
  | Some pa =>
      let '(o, ranges') := bt_remove pa (ranges m) in
      match o with
      | Some _ => modify (fun _ => mk_pavamap ranges' va_to_pa')
      | None => panic
      end
  | None => panic
  end.

(** ** mod.rs: the pages of the simulation *)

(** [for (i, pa) in pas.iter().enumerate()] from page [i] on. *)
Fixpoint pin_each `{PageFeature} (addr i : Z) (pas : list (option Z)) : M PaVaMap unit :=
  match pas with
  | [] => mret tt
  | pa :: pas' =>
      pa ← demand Panic pa;
      off ← umul 64 i PAGE_SIZE;
      va ← uadd 64 addr off;
      pv_insert pa va PAGE_SIZE;;
      pin_each addr (i + 1) pas'
  end.

(** [locked] is whether [mlock] succeeds. *)
Definition emulated_pin_pages `{PageFeature} `{HostPages} (locked : bool) (addr length : Z) :
    M PaVaMap (result unit) :=
  if negb locked then mret (Err (IoError None))
  else
    let num_pages := get_num_page addr length in
    pas ← virt_to_phys_range addr num_pages;
    match pas with
    | Err e => mret (Err e)
    | Ok pas => pin_each addr 0 pas;; mret (Ok tt)
    end.

Definition emulated_unpin_pages `{PageFeature} `{HostPages} (unlocked : bool) (addr length : Z) :
    M PaVaMap (result unit) :=
  if negb unlocked then mret (Err (IoError None))
  else
    let num_pages := get_num_page addr length in
    pas ← virt_to_phys_range addr num_pages;
    match pas with
    | Err e => mret (Err e)
    | Ok pas => for_each pas (fun pa => pa ← demand Panic pa; pv_remove pa);; mret (Ok tt)
    end.

End pa_va_map.

(** ** Lemmas: pages *)

Lemma page_size_pos `{PageFeature} : 0 < PAGE_SIZE.
Proof. unfold PAGE_SIZE, PAGE_SIZE_BITS. destruct huge_pages; vm_compute; congruence. Qed.

Lemma page_size_small `{PageFeature} : PAGE_SIZE <= 2 ^ 21.
Proof. unfold PAGE_SIZE, PAGE_SIZE_BITS. destruct huge_pages; vm_compute; congruence. Qed.

Lemma get_num_page_eq `{PageFeature} addr length :
  0 <= addr -> 0 < length -> addr + length < 2 ^ 64 ->
  get_num_page addr length = (addr + length - 1) / PAGE_SIZE - addr / PAGE_SIZE + 1.
Proof.
  intros Ha Hl Hb. unfold get_num_page, saturating_sub, saturating_add. pose proof page_size_pos.
  rewrite (proj2 (Z.eqb_neq _ _)) by lia. rewrite Z.min_r by lia. rewrite (Z.max_r 0 (addr + length - 1)) by lia.
  rewrite Z.max_r; [done|]. apply Z.le_0_sub, Z.div_le_mono; lia.
Qed.

(** The pages counted are those an access to the region can fall into. *)
Lemma pages_spanned `{PageFeature} addr length p :
  0 <= addr -> 0 < length -> addr + length < 2 ^ 64 ->
  0 <= p < get_num_page addr length <->
  exists a, addr <= a < addr + length /\ a / PAGE_SIZE = addr / PAGE_SIZE + p.
Proof.
  intros Ha Hl Hb. rewrite get_num_page_eq by done. pose proof page_size_pos as Hp. split.
  - intros Hr. exists (Z.max addr ((addr / PAGE_SIZE + p) * PAGE_SIZE)).
    pose proof (Z.mul_div_le addr PAGE_SIZE Hp). pose proof (Z.mul_succ_div_gt addr PAGE_SIZE Hp).
    pose proof (Z.mul_div_le (addr + length - 1) PAGE_SIZE Hp).
    destruct (decide (p = 0)) as [->|].
    + rewrite Z.max_l by nia. split; [lia|]. lia.
    + rewrite Z.max_r by nia. split; [nia|]. by rewrite Z.div_mul by lia.
  - intros (a & Hr & E). assert (addr / PAGE_SIZE <= a / PAGE_SIZE) by (apply Z.div_le_mono; lia).
    assert (a / PAGE_SIZE <= (addr + length - 1) / PAGE_SIZE) by (apply Z.div_le_mono; lia). lia.
Qed.

(** ** Lemmas: the map of the simulation *)

Section btree_lemmas.
Context {A : Type}.
Implicit Types m : list (Z * A).

Definition bt_ok m : Prop := StronglySorted Z.lt m.*1.

Lemma bt_get_in k a m : bt_ok m -> bt_get k m = Some a <-> (k, a) ∈ m.
Proof.
  unfold bt_ok. induction m as [|[k' a'] m IH]; cbn [bt_get fmap list_fmap fst]; intros Hs.
  - rewrite elem_of_nil. done.
  - apply StronglySorted_inv in Hs as [Hs Hf]. rewrite elem_of_cons, <- IH by done.
    destruct (Z.eqb_spec k k') as [->|Hne]; [|naive_solver].
    split; [naive_solver|]. intros [?|Hin]; [naive_solver|]. apply IH in Hin; [|done].
    rewrite list.Forall_forall in Hf. specialize (Hf k'). rewrite list_elem_of_fmap in Hf.
    exfalso. apply (Z.lt_irrefl k'), Hf. by exists (k', a).
Qed.

Lemma bt_insert_in k a m k' a' :
  bt_ok m -> (k', a') ∈ bt_insert k a m <-> (k' = k /\ a' = a) \/ (k' <> k /\ (k', a') ∈ m).
Proof.
  unfold bt_ok. induction m as [|[k1 a1] m IH]; cbn [bt_insert fmap list_fmap fst]; intros Hs.
  - rewrite list_elem_of_singleton, elem_of_nil. naive_solver.
  - apply StronglySorted_inv in Hs as [Hs Hf]. rewrite list.Forall_forall in Hf.
    assert (Hlt : forall k2 a2, (k2, a2) ∈ m -> k1 < k2).
    { intros k2 a2 Hin. apply Hf, list_elem_of_fmap. by exists (k2, a2). }
    destruct (Z.ltb_spec k k1); [|destruct (Z.eqb_spec k k1) as [->|]]; rewrite !elem_of_cons.
    + split; [|naive_solver]. intros [?|[?|Hin]]; [naive_solver| |].
      * right. simplify_eq. split; [lia|by left].
      * right. specialize (Hlt _ _ Hin). split; [lia|by right].
    + split; [|naive_solver]. intros [?|Hin]; [naive_solver|]. right. specialize (Hlt _ _ Hin). split; [lia|by right].
    + rewrite IH by done. naive_solver.
Qed.

Lemma bt_insert_ok k a m : bt_ok m -> bt_ok (bt_insert k a m).
Proof.
  unfold bt_ok. induction m as [|[k1 a1] m IH]; cbn [bt_insert fmap list_fmap fst]; intros Hs.
  - constructor; [constructor|constructor].
  - pose proof Hs as [Hs' Hf]%StronglySorted_inv.
    destruct (Z.ltb_spec k k1); [|destruct (Z.eqb_spec k k1) as [->|]]; cbn [fmap list_fmap fst].
    + constructor; [done|]. constructor; [done|]. eapply list.Forall_impl; [exact Hf|]. cbn. lia.
    + done.
    + constructor; [by apply IH|]. apply list.Forall_forall. intros k2 Hk2.
      apply list_elem_of_fmap in Hk2 as ([k3 a3] & -> & Hin). apply bt_insert_in in Hin; [|done].
      destruct Hin as [[-> _]|[_ Hin]]; [cbn; lia|]. rewrite list.Forall_forall in Hf. apply Hf.
      apply list_elem_of_fmap. by exists (k3, a3).
Qed.

Lemma bt_remove_ok k m : bt_ok m -> bt_ok (bt_remove k m).2.
Proof.
  unfold bt_ok, bt_remove. cbn [snd]. induction m as [|[k1 a1] m IH]; cbn [fmap list_fmap fst]; intros Hs; [done|].
  apply StronglySorted_inv in Hs as [Hs Hf]. rewrite filter_cons. case_decide; [|by apply IH].
  cbn [fmap list_fmap fst]. constructor; [by apply IH|]. rewrite list.Forall_forall in *. intros x Hx. apply Hf.
  apply list_elem_of_fmap in Hx as (e & -> & Hin). apply list_elem_of_filter in Hin as [_ Hin].
  apply list_elem_of_fmap. by exists e.
Qed.

Lemma bt_remove_in k m k' a' : (k', a') ∈ (bt_remove k m).2 <-> k' <> k /\ (k', a') ∈ m.
Proof. unfold bt_remove. cbn [snd]. by rewrite list_elem_of_filter. Qed.

End btree_lemmas.

(** The map holds the ranges [rs]: they do not overlap, and no two begin at the same
    virtual address. *)
Record pv_inv (m : PaVaMap) (rs : list AddressRange) : Prop := {
  pv_ranges_ok : bt_ok (ranges m);
  pv_vas_ok : bt_ok (va_to_pa m);
  pv_ranges k r : (k, r) ∈ ranges m <-> r ∈ rs /\ k = pa_start r;
  pv_vas v p : (v, p) ∈ va_to_pa m <-> exists r, r ∈ rs /\ va_start r = v /\ pa_start r = p;
  pv_bounds : Forall (fun r => 0 <= pa_start r < pa_end r /\ pa_end r < 2 ^ 64 /\ 0 <= va_start r /\
                va_start r + (pa_end r - pa_start r) < 2 ^ 64) rs;
  pv_disjoint r1 r2 p : r1 ∈ rs -> r2 ∈ rs -> contains r1 p = true -> contains r2 p = true -> r1 = r2;
  pv_va_inj r1 r2 : r1 ∈ rs -> r2 ∈ rs -> va_start r1 = va_start r2 -> r1 = r2 }.

(** Where a range puts a physical address, and how much of the range follows. *)
Definition translate (r : AddressRange) (p : Z) : Z * Z :=
  (va_start r + (p - pa_start r), pa_end r - p).

Section pv_lemmas.
Context `{Profile}.
Implicit Types (m : PaVaMap) (rs : list AddressRange).

Lemma contains_true r p : contains r p = true <-> pa_start r <= p < pa_end r.
Proof. unfold contains. rewrite andb_true_iff, Z.leb_le, Z.ltb_lt. done. Qed.

Lemma overlaps_true r e : overlaps r e = true <-> pa_start r < pa_end e /\ pa_start e < pa_end r.
Proof. unfold overlaps. by rewrite andb_true_iff, !Z.ltb_lt. Qed.

Lemma pv_inv_new : pv_inv PaVaMap_new [].
Proof.
  split; cbn [PaVaMap_new ranges va_to_pa]; try (by constructor).
  - intros k r. rewrite !elem_of_nil. tauto.
  - intros v p. rewrite elem_of_nil. split; [done|]. intros (r & Hr & _). by apply elem_of_nil in Hr.
  - intros r1 r2 p Hr. by apply elem_of_nil in Hr.
  - intros r1 r2 Hr. by apply elem_of_nil in Hr.
Qed.

Lemma pv_in_bounds m rs r : pv_inv m rs -> r ∈ rs ->
  0 <= pa_start r < pa_end r /\ pa_end r < 2 ^ 64 /\ 0 <= va_start r /\
  va_start r + (pa_end r - pa_start r) < 2 ^ 64.
Proof. intros Hm Hr. pose proof (pv_bounds _ _ Hm) as Hb. rewrite list.Forall_forall in Hb. by apply Hb. Qed.

Lemma first_containing_run {S} p (l : list (Z * AddressRange)) rs (s : S) m :
  pv_inv m rs -> (forall e, e ∈ l -> e.2 ∈ rs) ->
  (exists r, r ∈ rs /\ contains r p = true /\ first_containing p l s = Done (Some (translate r p)) s) \/
  ((forall e, e ∈ l -> contains e.2 p = false) /\ first_containing p l s = Done None s).
Proof.
  intros Hm. induction l as [|[k r] l IH]; intros Hl.
  - right. split; [|done]. intros e He. by apply elem_of_nil in He.
  - cbn [first_containing]. unfold mbind at 1, M_bind at 1. unfold pa_to_va_with_len.
    assert (Hr : r ∈ rs) by (apply (Hl (k, r)), elem_of_cons; by left).
    destruct (contains r p) eqn:Ec; fold (@contains r p); rewrite ?Ec.
    + left. exists r. split; [done|]. split; [done|]. apply contains_true in Ec.
      pose proof (pv_in_bounds m rs r Hm Hr). unfold mbind, M_bind.
      rewrite usub_run, uadd_run, usub_run by lia. done.
    + destruct IH as [IH|[IH1 IH2]]; [intros e He; apply Hl, elem_of_cons; by right|by left|].
      right. split; [|exact IH2]. intros e He. apply elem_of_cons in He as [->|He]; [done|by apply IH1].
Qed.

Lemma pv_lookup_run m rs p :
  pv_inv m rs ->
  (forall r, r ∈ rs -> contains r p = true -> pv_lookup p m = Done (Some (translate r p)) m) /\
  ((forall r, r ∈ rs -> contains r p = false) -> pv_lookup p m = Done None m).
Proof.
  intros Hm. unfold pv_lookup, get, mbind, M_bind.
  set (l := reverse (filter (fun e => e.1 <= p) (ranges m))).
  assert (Hl : forall e, e ∈ l <-> e.1 <= p /\ e.2 ∈ rs /\ e.1 = pa_start e.2).
  { intros [k r]. unfold l. rewrite elem_of_reverse, list_elem_of_filter, (pv_ranges _ _ Hm). done. }
  destruct (first_containing_run p l rs m m Hm) as [(r0 & Hr0 & Hc0 & E)|[Hn E]]; [intros e He; apply Hl in He; tauto|..].
  - split; [|intros Hn; by rewrite Hn in Hc0]. intros r Hr Hc.
    by rewrite (pv_disjoint _ _ Hm r r0 p Hr Hr0 Hc Hc0).
  - split; [|done]. intros r Hr Hc. apply contains_true in Hc as Hc'.
    specialize (Hn (pa_start r, r)). cbn [snd] in Hn. rewrite Hn in Hc; [done|]. apply Hl. cbn. split; [lia|done].
Qed.

Lemma pv_insert_run m rs pa va size :
  pv_inv m rs -> 0 <= pa -> 0 < size -> pa + size < 2 ^ 64 -> 0 <= va -> va + size < 2 ^ 64 ->
  (forall r, r ∈ rs -> va_start r <> va) ->
  let new := mk_range pa (pa + size) va in
  ((exists r, r ∈ rs /\ overlaps new r = true) /\ pv_insert pa va size m = Fault Panic) \/
  ((forall r, r ∈ rs -> overlaps new r = false) /\
   exists m', pv_insert pa va size m = Done tt m' /\ pv_inv m' (new :: rs)).
Proof.
  intros Hm Hpa Hs Hpe Hva Hve Hfresh new. unfold pv_insert, get, modify, mbind, M_bind.
  rewrite uadd_run by done. fold new. destruct (existsb _ (ranges m)) eqn:Ex.
  { left. split; [|done]. apply existsb_exists in Ex as ([k r] & Hin & Ho). exists r. split; [|done].
    apply list_elem_of_In, (pv_ranges _ _ Hm) in Hin as [Hin _]. done. }
  right. assert (Hno : forall r, r ∈ rs -> overlaps new r = false).
  { intros r Hr. destruct (overlaps new r) eqn:Eo; [|done]. rewrite <- Ex. symmetry. apply existsb_exists.
    exists (pa_start r, r). split; [|done]. apply list_elem_of_In, (pv_ranges _ _ Hm). done. }
  split; [done|]. eexists. split; [reflexivity|]. destruct Hm as [Hr Hv Hi Hvi Hb Hd Hj].
  assert (Hapart : forall r p, r ∈ rs -> contains r p = true -> contains new p = true -> False).
  { intros r p Hin Hc Hcn. specialize (Hno r Hin). apply contains_true in Hc, Hcn. cbn in Hcn.
    assert (overlaps new r = true) by (apply overlaps_true; cbn; lia). congruence. }
  assert (Hstart : forall r, r ∈ rs -> pa_start r <> pa).
  { intros r Hin E. rewrite list.Forall_forall in Hb. specialize (Hb r Hin).
    apply (Hapart r pa Hin); apply contains_true; cbn; lia. }
  split; cbn [ranges va_to_pa].
  - by apply bt_insert_ok.
  - by apply bt_insert_ok.
  - intros k r. rewrite bt_insert_in, Hi, elem_of_cons by done. unfold new. split; [naive_solver|].
    intros [[->|Hin] ->]; [by left|]. right. split; [by apply Hstart|done].
  - intros v p. rewrite bt_insert_in, Hvi by done. setoid_rewrite elem_of_cons. split.
    + intros [[-> ->]|(_ & r & Hin & ? & ?)]; [exists new; naive_solver|exists r; naive_solver].
    + intros (r & [->|Hin] & <- & <-); [by left|]. right. split; [by apply Hfresh|]. by exists r.
  - constructor; [cbn; lia|done].
  - intros r1 r2 p [->|H1]%elem_of_cons [->|H2]%elem_of_cons C1 C2; [done| | |by eapply Hd].
    + exfalso. by apply (Hapart r2 p).
    + exfalso. by apply (Hapart r1 p).
  - intros r1 r2 [->|H1]%elem_of_cons [->|H2]%elem_of_cons E; [done| | |by eapply Hj].
    + exfalso. by apply (Hfresh r2 H2).
    + exfalso. by apply (Hfresh r1 H1).
Qed.

(** Taking one range out of both maps. *)
Lemma pv_inv_remove m rs r :
  pv_inv m rs -> r ∈ rs ->
  pv_inv (mk_pavamap (bt_remove (pa_start r) (ranges m)).2 (bt_remove (va_start r) (va_to_pa m)).2)
    (filter (fun x => x <> r) rs).
Proof.
  intros Hm Hr. pose proof Hm as [Hro Hvo Hi Hvi Hb Hd Hj].
  assert (Hpa : forall x, x ∈ rs -> pa_start x = pa_start r -> x = r).
  { intros x Hx E. rewrite list.Forall_forall in Hb. pose proof (Hb x Hx). pose proof (Hb r Hr).
    apply (Hd x r (pa_start r) Hx Hr); apply contains_true; lia. }
  split; cbn [ranges va_to_pa].
  - by apply bt_remove_ok.
  - by apply bt_remove_ok.
  - intros k x. rewrite bt_remove_in, Hi, list_elem_of_filter. split.
    + intros (Hk & Hx & ->). split; [|done]. split; [by intros ->|done].
    + intros [[Hne Hx] ->]. split; [intros E; by apply Hne, Hpa|done].
  - intros v p. rewrite bt_remove_in, Hvi. split.
    + intros (Hv & x & Hx & <- & <-). exists x. rewrite list_elem_of_filter. split; [|done]. split; [by intros ->|done].
    + intros (x & Hx & <- & <-). apply list_elem_of_filter in Hx as [Hne Hx].
      split; [intros E; by apply Hne, Hj|]. by exists x.
  - rewrite list.Forall_forall in *. intros x Hx. apply list_elem_of_filter in Hx as [_ Hx]. by apply Hb.
  - intros r1 r2 p H1 H2. apply list_elem_of_filter in H1 as [_ H1], H2 as [_ H2]. by apply Hd.
  - intros r1 r2 H1 H2. apply list_elem_of_filter in H1 as [_ H1], H2 as [_ H2]. by apply Hj.
Qed.

Lemma pv_remove_run m rs r :
  pv_inv m rs -> r ∈ rs ->
  let m' := mk_pavamap (bt_remove (pa_start r) (ranges m)).2 (bt_remove (va_start r) (va_to_pa m)).2 in
  pv_remove (pa_start r) m = Done tt m' /\ remove_by_va (va_start r) m = Done tt m'.
Proof.
  intros Hm Hr m'. pose proof (pv_inv_remove m rs r Hm Hr) as Hm'.
  assert (Eg : bt_get (pa_start r) (ranges m) = Some r)
    by (apply bt_get_in; [apply Hm|by apply (pv_ranges _ _ Hm)]).
  assert (Ev : bt_get (va_start r) (va_to_pa m) = Some (pa_start r))
    by (apply bt_get_in; [apply Hm|apply (pv_vas _ _ Hm); by exists r]).
  unfold pv_remove, remove_by_va, bt_remove, get, modify, mbind, M_bind. rewrite Eg, Ev, Eg. done.
Qed.

Lemma pv_remove_absent m rs pa :
  pv_inv m rs -> (forall r, r ∈ rs -> pa_start r <> pa) -> pv_remove pa m = Fault Panic.
Proof.
  intros Hm Hno. unfold pv_remove, bt_remove, get, mbind, M_bind.
  destruct (bt_get pa (ranges m)) as [r|] eqn:E; [|done].
  apply bt_get_in in E; [|apply Hm]. apply (pv_ranges _ _ Hm) in E as [Hr ->]. by apply Hno in Hr.
Qed.

(** Mapping pages of which one is mapped already; the virtual addresses do not matter. *)
Lemma pin_each_panics `{PageFeature} addr pas : forall i m,
  bt_ok (ranges m) -> (forall k r, (k, r) ∈ ranges m -> k = pa_start r /\ pa_start r < pa_end r) ->
  0 <= addr -> 0 <= i -> addr + (i + Z.of_nat (length pas)) * PAGE_SIZE < 2 ^ 64 ->
  Forall (fun o => exists pa, o = Some pa /\ pa + PAGE_SIZE < 2 ^ 64) pas ->
  (exists pa k r, Some pa ∈ pas /\ (k, r) ∈ ranges m /\ overlaps (mk_range pa (pa + PAGE_SIZE) 0) r = true) ->
  pin_each addr i pas m = Fault Panic.
Proof.
  pose proof page_size_pos as Hp.
  induction pas as [|o pas IH]; intros i m Hok Hkey Ha Hi Hb Hpas (pa & k & r & Hin & Hr & Ho).
  { by apply elem_of_nil in Hin. }
  apply Forall_cons_1 in Hpas as [(q & -> & Hqe) Hpas]. cbn [length] in Hb.
  cbn [pin_each demand]. unfold mbind at 1, M_bind at 1, mret at 1, M_ret at 1.
  unfold mbind, M_bind. rewrite umul_run, uadd_run by nia.
  unfold pv_insert, get, modify, mbind, M_bind. rewrite uadd_run by done.
  destruct (existsb _ (ranges m)) eqn:Ex; [done|].
  assert (Hno : forall k' r', (k', r') ∈ ranges m -> overlaps (mk_range q (q + PAGE_SIZE) (addr + i * PAGE_SIZE)) r' = false).
  { intros k' r' Hin'. destruct (overlaps _ r') eqn:Eo; [|done]. rewrite <- Ex. symmetry. apply existsb_exists.
    exists (k', r'). split; [by apply list_elem_of_In|done]. }
  assert (Hq : forall k' r', (k', r') ∈ ranges m -> k' <> q).
  { intros k' r' Hin' ->. specialize (Hno _ _ Hin'). destruct (Hkey _ _ Hin') as [E Hlt].
    assert (overlaps (mk_range q (q + PAGE_SIZE) (addr + i * PAGE_SIZE)) r' = true); [|congruence].
    apply overlaps_true. cbn [pa_start pa_end]. lia. }
  apply (IH (i + 1)); cbn [ranges]; [by apply bt_insert_ok| |lia|lia|nia|done|].
  - intros k' r' Hin'. apply bt_insert_in in Hin' as [[-> ->]|[_ Hin']]; [cbn; lia|by apply Hkey|done].
  - exists pa, k, r. rewrite bt_insert_in by done. split_and!; [|right; split; [by eapply Hq|done]|done].
    apply elem_of_cons in Hin as [[= ->]|?]; [|done]. specialize (Hno _ _ Hr). unfold overlaps in *.
    cbn [pa_start pa_end] in *. congruence.
Qed.

End pv_lemmas.

(** ** Lemmas: address translation *)

Section translation.
Context `{Profile} `{PageFeature}.

(** Pages none of which is present. *)
Lemma scan_absent `{HostPages} {S} (file : page_file) start n : forall addr (s : S),
  1 <= base_page_size -> 0 <= addr -> addr + Z.of_nat n * PAGE_SIZE < 2 ^ 61 ->
  (forall off, file off = Some 0) ->
  scan_pages file start n addr s = Done (Some (replicate n None)) s.
Proof.
  pose proof page_size_pos as Hp. induction n as [|n IH]; intros addr s Hb Ha Hn Hf; [done|].
  cbn [scan_pages]. unfold mbind, M_bind.
  assert (Hd : addr / base_page_size <= addr) by (apply Z.div_le_upper_bound; nia).
  assert (Hd0 : 0 <= addr / base_page_size) by (apply Z.div_pos; lia).
  rewrite umul_run by (unfold PFN_MASK_SIZE; nia). unfold get_pa_from_file. rewrite Hf. cbn [Z.shiftr Z.land Z.eqb negb].
  change (Z.land (Z.shiftr 0 PAGE_PRESENT_BIT) 1 =? 0) with true. cbn [negb]. unfold mret, M_ret.
  rewrite uadd_run by nia. rewrite IH by (try done; nia). done.
Qed.

End translation.

(** The translator for device memory is opened and never read: a range of pages known
    only to the translator resolves to nothing, while each of its pages alone resolves. *)
Lemma device_memory_range_not_resolved `{Profile} `{PageFeature} {S} (s : S) base (gpu : page_file) addr n entry :
  1 <= base <= 2 ^ 21 -> 0 <= addr -> addr + n * PAGE_SIZE < 2 ^ 61 -> 0 < n ->
  (forall off, gpu off = Some entry) -> entry = 2 ^ 63 + 5 ->
  let hp := Build_HostPages base (Some (fun _ => Some 0)) (Some gpu) in
  virt_to_phys_range (H1 := hp) addr n s = Done (Ok (replicate (Z.to_nat n) None)) s /\
  virt_to_phys (H1 := hp) addr s = Done (Ok (Some (5 * base + addr mod base))) s.
Proof.
  intros Hb Ha Hn Hn0 Hgpu -> hp. pose proof page_size_pos as Hp. split.
  - unfold virt_to_phys_range. cbn [pagemap gpu_ptr_translator hp]. unfold mbind, M_bind.
    rewrite (scan_absent (H1 := hp)) by (cbn; try done; nia).
    assert (Ef : forall k, forallb (fun pa : option Z => match pa with Some _ => false | None => true end) (replicate k None) = true)
      by (induction k; done).
    rewrite Ef. rewrite (scan_absent (H1 := hp)) by (cbn; try done; nia).
    do 3 f_equal. generalize (Z.to_nat n). intros k. induction k as [|k IH]; [done|]. cbn. by rewrite IH.
  - unfold virt_to_phys. cbn [pagemap gpu_ptr_translator base_page_size hp]. unfold mbind, M_bind.
    assert (Hd : addr / base <= addr) by (apply Z.div_le_upper_bound; nia).
    assert (Hd0 : 0 <= addr / base) by (apply Z.div_pos; lia).
    rewrite umul_run by (unfold PFN_MASK_SIZE; nia). unfold get_pa_from_file. rewrite Hgpu.
    change (Z.land (2 ^ 63 + 5) PFN_MASK) with 5.
    change (Z.land (Z.shiftr 0 PAGE_PRESENT_BIT) 1 =? 0) with true.
    change (Z.land (Z.shiftr (2 ^ 63 + 5) PAGE_PRESENT_BIT) 1 =? 0) with false. cbn [negb].
    unfold mbind, M_bind, mret, M_ret. cbn [base_page_size hp]. pose proof (Z.mod_pos_bound addr base).
    rewrite umul_run by lia. rewrite uadd_run by lia. done.
Qed.

(** ** Properties *)

(** C17: the address map of the simulation refines a set of ranges that do not overlap.
    A lookup finds the range a physical address lies in, with the virtual address at the
    same offset and the length left, and nothing outside the ranges; inserting a range
    that is not empty, does not wrap and has a virtual start that no range has adds it, and
    panics exactly when it overlaps one; removing by the physical or by the
    virtual start takes that range out; the start of a range is found by its virtual
    address. *)
Theorem pa_va_map_refines `{Profile} (m : PaVaMap) (rs : list AddressRange) :
  pv_inv m rs ->
  (forall p, (forall r, r ∈ rs -> contains r p = true -> pv_lookup p m = Done (Some (translate r p)) m) /\
             ((forall r, r ∈ rs -> contains r p = false) -> pv_lookup p m = Done None m)) /\
  (forall pa va size, 0 <= pa -> 0 < size -> pa + size < 2 ^ 64 -> 0 <= va -> va + size < 2 ^ 64 ->
     (forall r, r ∈ rs -> va_start r <> va) ->
     match pv_insert pa va size m with
     | Done _ m' => pv_inv m' (mk_range pa (pa + size) va :: rs)
     | Fault f => f = Panic /\ exists r, r ∈ rs /\ pa < pa_end r /\ pa_start r < pa + size
     end) /\
  (forall r, r ∈ rs -> exists m', pv_remove (pa_start r) m = Done tt m' /\ remove_by_va (va_start r) m = Done tt m' /\
     pv_inv m' (filter (fun x => x <> r) rs) /\ lookup_by_va (va_start r) m = Done (Some (pa_start r)) m).
Proof.
  intros Hm. split; [intros p; by apply pv_lookup_run|]. split.
  - intros pa va size Hpa Hs Hpe Hva Hve Hf.
    destruct (pv_insert_run m rs pa va size Hm Hpa Hs Hpe Hva Hve Hf) as [[(r & Hr & Ho) ->]|[_ (m' & -> & Hm')]]; [|done].
    split; [done|]. exists r. apply overlaps_true in Ho. done.
  - intros r Hr. destruct (pv_remove_run m rs r Hm Hr) as [E1 E2]. eexists. split; [exact E1|]. split; [exact E2|].
    split; [by apply pv_inv_remove|]. unfold lookup_by_va, gets. f_equal. apply bt_get_in; [apply Hm|].
    apply (pv_vas _ _ Hm). by exists r.
Qed.

Definition one_range_map : PaVaMap := mk_pavamap [(0x1000, mk_range 0x1000 0x2000 0x7000)] [(0x7000, 0x1000)].

Lemma one_range_insert : pv_insert (H := dev_profile) 0x1000 0x7000 0x1000 PaVaMap_new = Done tt one_range_map.
Proof. vm_compute. reflexivity. Qed.

Lemma one_range_inv : pv_inv one_range_map [mk_range 0x1000 0x2000 0x7000].
Proof.
  destruct (pv_insert_run (H := dev_profile) PaVaMap_new [] 0x1000 0x7000 0x1000 pv_inv_new)
    as [[(r & Hr & _) _]|[_ (m & E & Hm)]]; try lia;
    [intros r Hr; by apply elem_of_nil in Hr|by apply elem_of_nil in Hr|].
  rewrite one_range_insert in E. injection E as <-. exact Hm.
Qed.

Lemma pa_va_map_refines_witness :
  exists m, pv_insert (H := dev_profile) 0x1000 0x7000 0x1000 PaVaMap_new = Done tt m /\
    pv_inv m [mk_range 0x1000 0x2000 0x7000].
Proof.
  destruct (pa_va_map_refines (H := dev_profile) PaVaMap_new [] pv_inv_new) as (_ & Hi & _).
  specialize (Hi 0x1000 0x7000 0x1000 ltac:(lia) ltac:(lia) ltac:(lia) ltac:(lia) ltac:(lia)).
  exists one_range_map. rewrite one_range_insert in Hi. split; [exact one_range_insert|].
  apply Hi. intros r Hr. by apply elem_of_nil in Hr.
Defined.

(** In the simulation a page can be registered once.  Pinning a region one of whose
    pages is mapped already, by an earlier registration of memory on the same page or of
    the same region, panics. *)
Theorem shared_page_pin_panics `{Profile} `{PageFeature} `{HostPages} (m : PaVaMap) rs addr len pas :
  pv_inv m rs -> 0 <= addr -> addr + get_num_page addr len * PAGE_SIZE < 2 ^ 64 ->
  virt_to_phys_range addr (get_num_page addr len) m = Done (Ok pas) m ->
  Z.of_nat (length pas) = get_num_page addr len ->
  Forall (fun o => exists pa, o = Some pa /\ pa + PAGE_SIZE < 2 ^ 64) pas ->
  (exists pa r, Some pa ∈ pas /\ r ∈ rs /\ pa < pa_end r /\ pa_start r < pa + PAGE_SIZE) ->
  emulated_pin_pages true addr len m = Fault Panic.
Proof.
  intros Hm Ha Hb Hp Hl Hpas (pa & r & Hin & Hr & Ho1 & Ho2).
  unfold emulated_pin_pages. cbn [negb]. unfold mbind, M_bind. rewrite Hp.
  rewrite (pin_each_panics addr pas 0 m); try done.
  - apply Hm.
  - intros k x Hx. apply (pv_ranges _ _ Hm) in Hx as [Hx ->]. split; [done|].
    pose proof (pv_in_bounds m rs x Hm Hx). lia.
  - rewrite Hl. lia.
  - exists pa, (pa_start r), r. split; [done|]. split; [by apply (pv_ranges _ _ Hm)|]. by apply overlaps_true.
Qed.

(** Every address is on the second physical page. *)
Definition one_page_host : HostPages := Build_HostPages 4096 (Some (fun _ => Some (2 ^ 63 + 1))) None.

Lemma shared_page_pin_panics_witness :
  exists m, emulated_pin_pages (H := dev_profile) (H0 := Build_PageFeature false) (H1 := one_page_host)
      true 0x7000 0x1000 PaVaMap_new = Done (Ok tt) m /\
    emulated_pin_pages (H := dev_profile) (H0 := Build_PageFeature false) (H1 := one_page_host)
      true 0x7000 0x1000 m = Fault Panic.
Proof.
  exists one_range_map. split; [vm_compute; reflexivity|].
  apply (shared_page_pin_panics (H := dev_profile) (H0 := Build_PageFeature false) (H1 := one_page_host)
    one_range_map [mk_range 0x1000 0x2000 0x7000] 0x7000 0x1000 [Some 0x1000]).
  - exact one_range_inv.
  - lia.
  - vm_compute. reflexivity.
  - vm_compute. reflexivity.
  - vm_compute. reflexivity.
  - constructor; [|constructor]. exists 0x1000. split; [done|]. vm_compute. reflexivity.
  - exists 0x1000, (mk_range 0x1000 0x2000 0x7000). split; [apply list_elem_of_singleton; done|].
    split; [apply list_elem_of_singleton; done|]. vm_compute. done.
Defined.
