(* ===== verification/Ctx.v ===== *)
(** * The device context

    rust-driver/src/verbs/ctx.rs and net/recv_chan.rs: the verbs of an opened device.
    The context owns the tables of memory regions, queue pairs, completion queues and
    protection domains, programs the device through the command queue, hands requests to
    the workers and sends receive requests to the peer over TCP.  [mlock] and the sockets
    are parameters; [fuel] bounds the waiting for the device. *)

From Stdlib Require Import ZArith Lia.
From stdpp Require Import base list numbers.
From S2P Require Import Prelude RustBase Psn WorkReq Qp RingBuf Descriptors CmdQueue Tasks Mtt Mem.

#[local] Open Scope Z_scope.
#[local] Open Scope cint_scope.

(** Whether [mlock] succeeds on a range. *)
Class Mlock : Type := mlock : Z -> Z -> bool.

(** Sockets: whether a free address can be bound, a connection made, bytes written. *)
Class Tcp : Type := {
  tcp_bind : Z -> Z -> bool;
  tcp_connect : Z -> Z -> bool;
  tcp_write : Z -> Z -> list Z -> bool;
}.

Definition EADDRINUSE : Z := 98.

(** ** rdma_utils/types.rs: attributes given to the verbs *)

Record IbvQpInitAttr : Set := mk_init_attr { ia_qp_type : Z; ia_send_cq : option Z; ia_recv_cq : option Z }.

(** The attributes of [ibv_modify_qp] the driver uses; [dgid] is the 16 bytes of the
    address of the peer. *)
Record ibv_qp_attr : Set := mk_ibv_qp_attr { attr_path_mtu : Z; attr_dest_qp_num : Z; attr_dgid : list Z }.

Record IbvQpAttr : Set := mk_qp_mod { path_mtu : option Z; dest_qp_num : option Z; dest_qp_ip : option Z }.

Definition IBV_QP_AV : Z := Z.shiftl 1 7.
Definition IBV_QP_PATH_MTU : Z := Z.shiftl 1 8.
Definition IBV_QP_DEST_QPN : Z := Z.shiftl 1 20.

Definition IbvQpAttr_new (attr : ibv_qp_attr) (attr_mask : Z) : IbvQpAttr :=
  let is_set bit := negb (Z.land attr_mask bit =? 0) in
  let gid := attr_dgid attr in
  let byte i := nth i gid 0 in
  let dest_qp_ip :=
    if is_set IBV_QP_AV then
      let is_ipv4_mapped := forallb (fun x => x =? 0) (take 10 gid) && (byte 10%nat =? 0xFF) && (byte 11%nat =? 0xFF) in
      if is_ipv4_mapped
      then Some (byte 12%nat * 2 ^ 24 + byte 13%nat * 2 ^ 16 + byte 14%nat * 2 ^ 8 + byte 15%nat)
      else None
    else None in
  mk_qp_mod (if is_set IBV_QP_PATH_MTU then Some (attr_path_mtu attr) else None)
    (if is_set IBV_QP_DEST_QPN then Some (attr_dest_qp_num attr) else None) dest_qp_ip.

(** ** net/recv_chan.rs *)

Definition BASE_PORT : Z := 60000.
Definition PORT_RANGE : Z := 5535.

Definition qpn_to_port `{Profile} {S} (qpn : Z) : M S Z :=
  let hash := qpn *{32} 0x9E3779B9 in
  uadd 16 BASE_PORT (hash mod PORT_RANGE).

Record TcpChannelTx : Set := mk_tx { tx_addr : Z; tx_dqpn : Z; tx_connected : bool }.

(** ** ctx.rs *)

(** The shared tables and the queues of the receive workers are those of the context;
    [cx_listeners] has the address, port and queue pair of every [RecvWorker], and
    [cx_wire] what was written to a peer. *)
Record HwDeviceCtx (V Dev : Type) : Type := mk_ctx {
  cx_mtt : Mtt V;
  cx_mtt_buffer : list Z;
  cx_mtt_buffer_pa : Z;
  cx_qp_manager : V;
  cx_qp_attr_table : QpTable QpAttr;
  cx_cq_manager : V;
  cx_cq_table : list (list Completion);
  cx_cmd : CommandConfigurator Dev;
  cx_post_recv_tx : QpTable (option TcpChannelTx);
  cx_recv_wr_queue : QpTable (list RecvWr);
  cx_pd_table : V;
  cx_listeners : list (Z * Z * Z);
  cx_wire : list (Z * Z * list Z) }.
Arguments mk_ctx {V Dev} _ _ _ _ _ _ _ _ _ _ _ _ _.
Arguments cx_mtt {V Dev} _.
Arguments cx_mtt_buffer {V Dev} _.
Arguments cx_mtt_buffer_pa {V Dev} _.
Arguments cx_qp_manager {V Dev} _.
Arguments cx_qp_attr_table {V Dev} _.
Arguments cx_cq_manager {V Dev} _.
Arguments cx_cq_table {V Dev} _.
Arguments cx_cmd {V Dev} _.
Arguments cx_post_recv_tx {V Dev} _.
Arguments cx_recv_wr_queue {V Dev} _.
Arguments cx_pd_table {V Dev} _.
Arguments cx_listeners {V Dev} _.
Arguments cx_wire {V Dev} _.

Section code.
Context `{Profile} `{PageFeature} `{HostPages} `{Mlock} `{Tcp} `{Bilge}.
Context {V : Type} `{BitVec V} {Dev : Type} `{CmdDevice Dev}.

Notation ctx := (HwDeviceCtx V Dev).
Notation MC := (M (actor ctx)).

Definition set_mtt (x : Mtt V) (c : ctx) : ctx :=
  mk_ctx x (cx_mtt_buffer c) (cx_mtt_buffer_pa c) (cx_qp_manager c) (cx_qp_attr_table c) (cx_cq_manager c)
    (cx_cq_table c) (cx_cmd c) (cx_post_recv_tx c) (cx_recv_wr_queue c) (cx_pd_table c) (cx_listeners c) (cx_wire c).
Definition set_mtt_buffer (x : list Z) (c : ctx) : ctx :=
  mk_ctx (cx_mtt c) x (cx_mtt_buffer_pa c) (cx_qp_manager c) (cx_qp_attr_table c) (cx_cq_manager c)
    (cx_cq_table c) (cx_cmd c) (cx_post_recv_tx c) (cx_recv_wr_queue c) (cx_pd_table c) (cx_listeners c) (cx_wire c).
Definition set_qp_manager (x : V) (c : ctx) : ctx :=
  mk_ctx (cx_mtt c) (cx_mtt_buffer c) (cx_mtt_buffer_pa c) x (cx_qp_attr_table c) (cx_cq_manager c)
    (cx_cq_table c) (cx_cmd c) (cx_post_recv_tx c) (cx_recv_wr_queue c) (cx_pd_table c) (cx_listeners c) (cx_wire c).
Definition set_qp_attr_table (x : QpTable QpAttr) (c : ctx) : ctx :=
  mk_ctx (cx_mtt c) (cx_mtt_buffer c) (cx_mtt_buffer_pa c) (cx_qp_manager c) x (cx_cq_manager c)
    (cx_cq_table c) (cx_cmd c) (cx_post_recv_tx c) (cx_recv_wr_queue c) (cx_pd_table c) (cx_listeners c) (cx_wire c).
Definition set_cq_manager (x : V) (c : ctx) : ctx :=
  mk_ctx (cx_mtt c) (cx_mtt_buffer c) (cx_mtt_buffer_pa c) (cx_qp_manager c) (cx_qp_attr_table c) x
    (cx_cq_table c) (cx_cmd c) (cx_post_recv_tx c) (cx_recv_wr_queue c) (cx_pd_table c) (cx_listeners c) (cx_wire c).
Definition set_cq_table (x : list (list Completion)) (c : ctx) : ctx :=
  mk_ctx (cx_mtt c) (cx_mtt_buffer c) (cx_mtt_buffer_pa c) (cx_qp_manager c) (cx_qp_attr_table c) (cx_cq_manager c)
    x (cx_cmd c) (cx_post_recv_tx c) (cx_recv_wr_queue c) (cx_pd_table c) (cx_listeners c) (cx_wire c).
Definition set_cmd (x : CommandConfigurator Dev) (c : ctx) : ctx :=
  mk_ctx (cx_mtt c) (cx_mtt_buffer c) (cx_mtt_buffer_pa c) (cx_qp_manager c) (cx_qp_attr_table c) (cx_cq_manager c)
    (cx_cq_table c) x (cx_post_recv_tx c) (cx_recv_wr_queue c) (cx_pd_table c) (cx_listeners c) (cx_wire c).
Definition set_post_recv_tx (x : QpTable (option TcpChannelTx)) (c : ctx) : ctx :=
  mk_ctx (cx_mtt c) (cx_mtt_buffer c) (cx_mtt_buffer_pa c) (cx_qp_manager c) (cx_qp_attr_table c) (cx_cq_manager c)
    (cx_cq_table c) (cx_cmd c) x (cx_recv_wr_queue c) (cx_pd_table c) (cx_listeners c) (cx_wire c).
Definition set_recv_wr_queue (x : QpTable (list RecvWr)) (c : ctx) : ctx :=
  mk_ctx (cx_mtt c) (cx_mtt_buffer c) (cx_mtt_buffer_pa c) (cx_qp_manager c) (cx_qp_attr_table c) (cx_cq_manager c)
    (cx_cq_table c) (cx_cmd c) (cx_post_recv_tx c) x (cx_pd_table c) (cx_listeners c) (cx_wire c).
Definition set_pd_table (x : V) (c : ctx) : ctx :=
  mk_ctx (cx_mtt c) (cx_mtt_buffer c) (cx_mtt_buffer_pa c) (cx_qp_manager c) (cx_qp_attr_table c) (cx_cq_manager c)
    (cx_cq_table c) (cx_cmd c) (cx_post_recv_tx c) (cx_recv_wr_queue c) x (cx_listeners c) (cx_wire c).
Definition set_listeners (x : list (Z * Z * Z)) (c : ctx) : ctx :=
  mk_ctx (cx_mtt c) (cx_mtt_buffer c) (cx_mtt_buffer_pa c) (cx_qp_manager c) (cx_qp_attr_table c) (cx_cq_manager c)
    (cx_cq_table c) (cx_cmd c) (cx_post_recv_tx c) (cx_recv_wr_queue c) (cx_pd_table c) x (cx_wire c).
Definition set_wire (x : list (Z * Z * list Z)) (c : ctx) : ctx :=
  mk_ctx (cx_mtt c) (cx_mtt_buffer c) (cx_mtt_buffer_pa c) (cx_qp_manager c) (cx_qp_attr_table c) (cx_cq_manager c)
    (cx_cq_table c) (cx_cmd c) (cx_post_recv_tx c) (cx_recv_wr_queue c) (cx_pd_table c) (cx_listeners c) x.

Definition on_field {T A} (f : ctx -> T) (put : T -> ctx -> ctx) : M T A -> MC A :=
  zoom (fun a => f (self a)) (fun t a => mk_actor (put t (self a)) (sent a)).

(** A command to the device, which may read the DMA buffer meanwhile. *)
Definition command (run : list Z -> M (CommandConfigurator Dev) unit) : MC unit :=
  c ← get_self; on_field cx_cmd set_cmd (run (cx_mtt_buffer c)).

(** *** Memory regions *)

Definition MAX_NUM_PGT_ENTRY_PER_ALLOC : Z := 16.

(** [(base_index..end_index).step_by(16)] *)
Definition chunks {S} (entry : PgtEntry) : M S (list PgtEntry) :=
  let base_index := pgt_index entry in
  end_index ← uadd 32 base_index (pgt_count entry);
  mret ((fun k =>
      let index := base_index + MAX_NUM_PGT_ENTRY_PER_ALLOC * k in
      mk_pgt index (Z.min MAX_NUM_PGT_ENTRY_PER_ALLOC (end_index - index)))
    <$> seqZ 0 (div_ceil (Z.max 0 (end_index - base_index)) MAX_NUM_PGT_ENTRY_PER_ALLOC)).

(** [MmapMut::copy_from] at offset 0 *)
Definition copy_from (src : list Z) : MC unit :=
  c ← get_self;
  if Z.of_nat (length src) <=? Z.of_nat (length (cx_mtt_buffer c))
  then modify_self (fun c => set_mtt_buffer (src ++ drop (length src) (cx_mtt_buffer c)) c)
  else panic.

(** The loop that prints the mapping: its address runs past the region. *)
Fixpoint debug_walk {S} (n : nat) (va : Z) : M S unit :=
  match n with
  | O => mret tt
  | S n' => va ← uadd 64 va PAGE_SIZE; debug_walk n' va
  end.

(** [iter.flat_map(u64::to_ne_bytes).collect()] on a little-endian machine *)
Definition ne_bytes (l : list Z) : list Z := l ≫= to_le_bytes 8.

(** The loop over the chunks; [phys_addrs] is what the iterator has left, [all] the list
    kept for printing. *)
Fixpoint program_pgt (fuel : nat) (addr : Z) (all : list Z) (cs : list PgtEntry) (phys_addrs : list Z) :
    MC unit :=
  match cs with
  | [] => mret tt
  | c :: cs' =>
      let count := Z.to_nat (pgt_count c) in
      let bytes := ne_bytes (take count phys_addrs) in
      copy_from bytes;;
      pa ← gets (fun a => cx_mtt_buffer_pa (self a));
      zero_based ← usub 32 (pgt_count c) 1;
      debug_walk (length all) (Z.land addr (~{64} PAGE_SIZE));;
      command (fun dma => update_pgt fuel dma (mk_pgt_update pa (pgt_index c) zero_based));;
      program_pgt fuel addr all cs' (drop count phys_addrs)
  end.

(** [iter.collect::<Option<Vec<_>>>()] *)
Definition collect {A} (l : list (option A)) : option (list A) := mapM id l.

(** [key] is the random part of the key drawn by the call. *)
Definition reg_mr (fuel : nat) (key addr len pd_handle access : Z) : MC (result Z) :=
  if negb (mlock addr len) then mret (Err (IoError None))
  else
    let num_pages := get_num_page addr len in
    r ← on_field cx_mtt set_mtt (register key num_pages);
    match r with
    | None => mret (Err (IoError None))
    | Some (mr_key, pgt_entry) =>
        if 2 ^ 32 <=? len then mret (Err InvalidInput)
        else
          r ← virt_to_phys_range addr num_pages;
          match r with
          | Err e => mret (Err e)
          | Ok phys_addrs =>
              match collect phys_addrs with
              | None => mret (Err MemoryError)
              | Some phys_addrs =>
                  let mtt_update := mk_mtt_update addr len mr_key pd_handle access (pgt_index pgt_entry) in
                  command (fun dma => update_mtt fuel dma mtt_update);;
                  cs ← chunks pgt_entry;
                  program_pgt fuel addr phys_addrs cs phys_addrs;;
                  mret (Ok mr_key)
              end
          end
    end.

Definition dereg_mr (mr_key : Z) : MC (result unit) := on_field cx_mtt set_mtt (deregister mr_key).

(** *** Queue pairs *)

Definition IBV_MTU_4096 : Z := 5.

Definition ctx_create_qp (fuel : nat) (key : Z) (attr : IbvQpInitAttr) : MC (result Z) :=
  o ← on_field cx_qp_manager set_qp_manager (create_qp key);
  match o with
  | None => mret (Err ResourceExhausted)
  | Some qpn =>
      modify_self (fun c => set_qp_attr_table (map_qp_mut (cx_qp_attr_table c) qpn (fun current =>
        (tt, mk_qp_attr (ia_qp_type attr) qpn (qa_dqpn current) (qa_ip current) (qa_dqp_ip current)
               CARD_MAC_ADDRESS IBV_MTU_4096 (qa_access_flags current) (ia_send_cq attr) (ia_recv_cq attr)))).2 c);;
      command (fun dma => cmd_update_qp fuel dma (mk_update_qp 0 qpn 0 0 (ia_qp_type attr) 0 0x100 0));;
      mret (Ok qpn)
  end.

Definition IBV_ACCESS_LOCAL_WRITE : Z := 1.
Definition IBV_ACCESS_REMOTE_WRITE : Z := Z.shiftl 1 1.
Definition IBV_ACCESS_REMOTE_READ : Z := Z.shiftl 1 2.

Definition rq_access_flags : Z :=
  wrap 8 (Z.lor (Z.lor IBV_ACCESS_LOCAL_WRITE IBV_ACCESS_REMOTE_READ) IBV_ACCESS_REMOTE_WRITE).

(** The closure given to [map_qp_mut]. *)
Definition modified (qpn : Z) (attr : IbvQpAttr) (current : QpAttr) : UpdateQp * QpAttr :=
  let current_ip := if negb (qa_dqp_ip current =? 0) then Some (qa_dqp_ip current) else None in
  let ip_addr := default 0 (option_or (dest_qp_ip attr) current_ip) in
  let peer_qpn := default (qa_dqpn current) (dest_qp_num attr) in
  let pmtu := match path_mtu attr with Some x => wrap 8 x | None => qa_pmtu current end in
  (mk_update_qp ip_addr qpn peer_qpn rq_access_flags (qa_qp_type current) pmtu 0x100 CARD_MAC_ADDRESS,
   mk_qp_attr (qa_qp_type current) (qa_qpn current) peer_qpn (qa_ip current) ip_addr (qa_mac_addr current)
     pmtu rq_access_flags (qa_send_cq current) (qa_recv_cq current)).

(** [PostRecvTxTable::get_qp_mut] *)
Definition post_recv_tx (c : ctx) (qpn : Z) : option TcpChannelTx := mjoin (get_qp (cx_post_recv_tx c) qpn).

(** [post_recv_channel]: the sender connects when it is first used; the listener is bound
    at once. *)
Definition post_recv_channel (local_addr dest_addr local_qpn dest_qpn : Z) : MC (result TcpChannelTx) :=
  port ← qpn_to_port local_qpn;
  c ← get_self;
  if existsb (fun l => (l.1.1 =? local_addr) && (l.1.2 =? port)) (cx_listeners c)
  then mret (Err (IoError (Some EADDRINUSE)))
  else if negb (tcp_bind local_addr port) then mret (Err (IoError None))
  else mret (Ok (mk_tx dest_addr dest_qpn false)).

Definition ctx_update_qp (fuel : nat) (qpn : Z) (attr : IbvQpAttr) : MC (result unit) :=
  c ← get_self;
  let '(o, table) := map_qp_mut (cx_qp_attr_table c) qpn (modified qpn attr) in
  modify_self (set_qp_attr_table table);;
  match o with
  | None => mret (Err NotFound)
  | Some entry =>
      command (fun dma => cmd_update_qp fuel dma entry);;
      c ← get_self;
      match get_qp (cx_qp_attr_table c) qpn with
      | None => mret (Err NotFound)
      | Some qp =>
          if negb (qa_dqpn qp =? 0) && negb (qa_dqp_ip qp =? 0)
             && (match post_recv_tx c qpn with None => true | Some _ => false end) then
            r ← post_recv_channel (qa_ip qp) (qa_dqp_ip qp) qpn (qa_dqpn qp);
            match r with
            | Err e => mret (Err e)
            | Ok tx =>
                modify_self (fun c => set_post_recv_tx (replace_qp (cx_post_recv_tx c) qpn (Some tx)).2 c);;
                c ← get_self;
                match get_qp (cx_recv_wr_queue c) qpn with
                | None => mret (Err NotFound)
                | Some _ =>
                    port ← qpn_to_port qpn;
                    modify_self (fun c => set_listeners (cx_listeners c ++ [(qa_ip qp, port, qpn)]) c);;
                    mret (Ok tt)
                end
            end
          else mret (Ok tt)
      end
  end.

Definition ctx_destroy_qp (qpn : Z) : MC (result unit) :=
  b ← on_field cx_qp_manager set_qp_manager (destroy_qp qpn);
  mret (if (b : bool) then Ok tt else Err InvalidInput).

(** *** Handles *)

Definition ctx_create_cq : MC (result Z) :=
  o ← on_field cx_cq_manager set_cq_manager create_cq;
  mret (match o with Some h => Ok h | None => Err ResourceExhausted end).

Definition ctx_destroy_cq (handle : Z) : MC (result unit) :=
  b ← on_field cx_cq_manager set_cq_manager (destroy_cq handle);
  mret (if (b : bool) then Ok tt else Err InvalidInput).

Definition ctx_alloc_pd : MC (result Z) :=
  o ← on_field cx_pd_table set_pd_table pd_alloc;
  mret (match o with Some h => Ok h | None => Err ResourceExhausted end).

Definition ctx_dealloc_pd (handle : Z) : MC (result unit) :=
  b ← on_field cx_pd_table set_pd_table (pd_dealloc handle);
  mret (if (b : bool) then Ok tt else Err InvalidInput).

(** *** Requests and completions *)

Definition rdma_write (qpn : Z) (wr : SendWrRdma) : MC unit := emit (EffRdma (RwWrite qpn wr)).

(** [RecvWrQueueTable::pop] *)
Definition pop_recv_wr (qpn : Z) : MC (option RecvWr) :=
  c ← get_self;
  match get_qp (cx_recv_wr_queue c) qpn with
  | Some (x :: q) =>
      modify_self (set_recv_wr_queue (<[Z.to_nat (qpn_to_index qpn) := q]> (cx_recv_wr_queue c)));;
      mret (Some x)
  | _ => mret None
  end.

Definition ctx_send (qpn : Z) (wr : SendWrBase) : MC (result unit) :=
  o ← pop_recv_wr qpn;
  match o with
  | Some x =>
      if negb (b_length wr =? rv_length x) then mret (Err InvalidInput)
      else rdma_write qpn (mk_rdma wr (rv_addr x) (rv_lkey x));; mret (Ok tt)
  | None => panic
  end.

Definition post_send (qpn : Z) (wr : SendWr) : MC (result unit) :=
  match wr with
  | WrRdma wr => rdma_write qpn wr;; mret (Ok tt)
  | WrSend wr => ctx_send qpn wr
  end.

Definition poll_cq (handle max_num_entries : Z) : MC (list Completion) :=
  c ← get_self;
  match cx_cq_table c !! Z.to_nat handle with
  | None => mret []
  | Some cq =>
      let n := Z.to_nat max_num_entries in
      modify_self (set_cq_table (<[Z.to_nat handle := drop n cq]> (cx_cq_table c)));;
      mret (take n cq)
  end.

(** [TcpChannelTx::send] *)
Definition tx_send (qpn : Z) (tx : TcpChannelTx) (wr : RecvWr) : MC (result unit) :=
  port ← qpn_to_port (tx_dqpn tx);
  if negb (tx_connected tx) && negb (tcp_connect (tx_addr tx) port) then mret (Err (IoError None))
  else
    modify_self (fun c => set_post_recv_tx
      (replace_qp (cx_post_recv_tx c) qpn (Some (mk_tx (tx_addr tx) (tx_dqpn tx) true))).2 c);;
    let bytes := recv_to_bytes wr in
    if tcp_write (tx_addr tx) port bytes
    then modify_self (fun c => set_wire (cx_wire c ++ [(tx_addr tx, port, bytes)]) c);; mret (Ok tt)
    else mret (Err (IoError None)).

Definition post_recv (qpn : Z) (wr : RecvWr) : MC (result unit) :=
  c ← get_self;
  match get_qp (cx_qp_attr_table c) qpn with
  | None => mret (Err QpError)
  | Some _ =>
      emit (EffCompletion (CtRegister qpn (EvPostRecv (mk_post_recv qpn (rv_wr_id wr)))));;
      c ← get_self;
      match post_recv_tx c qpn with
      | None => mret (Err QpError)
      | Some tx => tx_send qpn tx wr
      end
  end.

(** [RecvWorker::run]: one receive request from the peer. *)
Definition recv_worker_step (qpn : Z) (bytes : list Z) : MC unit :=
  modify_self (fun c => set_recv_wr_queue
    (alter (fun q => q ++ [recv_from_bytes bytes]) (Z.to_nat (qpn_to_index qpn)) (cx_recv_wr_queue c)) c).

End code.

(** ** Lemmas: programming the page table of the device *)

(** The [i]-th entry of a DMA buffer of page table entries. *)
Definition word (dma : list Z) (i : Z) : Z := from_le_bytes (take 8 (drop (8 * Z.to_nat i) dma)).

(** The page table of a device after a command it has executed; [pa] is where it finds
    the DMA buffer. *)
Definition exec_pgt `{Bilge} (pa : Z) (tbl : Z -> option Z) (x : desc_bytes * list Z) : Z -> option Z :=
  match read_command x.1 with
  | Some (CmPgt u) =>
      if pu_dma_addr u =? pa then fun j =>
        if (pu_pgt_offset u <=? j) && (j <=? pu_pgt_offset u + pu_zero_based_entry_count u)
        then Some (word x.2 (j - pu_pgt_offset u)) else tbl j
      else tbl
  | _ => tbl
  end.

(** Entries [b] to [b + n - 1], cut into runs of at most 16. *)
Inductive tiles : Z -> nat -> list PgtEntry -> Prop :=
| tiles_nil b : tiles b 0 []
| tiles_cons b n k cs :
    (1 <= k <= 16)%nat -> tiles (b + Z.of_nat k) n cs ->
    tiles b (k + n) (mk_pgt b (Z.of_nat k) :: cs).

Lemma seqZ_shift (f : Z -> PgtEntry) n : f <$> seqZ 1 n = (fun k => f (k + 1)) <$> seqZ 0 n.
Proof. rewrite <- (fmap_add_seqZ 1 0), <- list_fmap_compose. apply list_fmap_ext. intros i x _. cbn. f_equal. lia. Qed.

Lemma div_ceil_16 n : 0 <= n -> div_ceil n 16 = (n + 15) / 16.
Proof.
  intros Hn. unfold div_ceil. pose proof (Z.div_mod n 16 ltac:(lia)). pose proof (Z.mod_pos_bound n 16 ltac:(lia)).
  destruct (Z.ltb_spec 0 (n mod 16)); Z.div_mod_to_equations; lia.
Qed.

Lemma chunk_list_tiles m : forall b n, (n <= m)%nat ->
  tiles b n ((fun k => mk_pgt (b + 16 * k) (Z.min 16 (b + Z.of_nat n - (b + 16 * k))))
    <$> seqZ 0 ((Z.of_nat n + 15) / 16)).
Proof.
  induction m as [|m IH]; intros b n Hn.
  { replace n with O by lia. constructor. }
  destruct n as [|n]; [constructor|].
  rewrite seqZ_cons by (Z.div_mod_to_equations; lia). cbn [fmap list_fmap].
  replace (b + 16 * 0) with b by lia. rewrite seqZ_shift.
  destruct (decide (S n <= 16)%nat) as [Hs|Hl].
  - replace (Z.pred ((Z.of_nat (S n) + 15) / 16)) with 0 by (Z.div_mod_to_equations; lia).
    rewrite Z.min_r by lia. replace (b + Z.of_nat (S n) - b) with (Z.of_nat (S n)) by lia.
    rewrite <- (Nat.add_0_r (S n)) at 1. constructor; [lia|]. constructor.
  - rewrite Z.min_l by lia. replace (S n) with (16 + (S n - 16))%nat at 1 by lia.
    change 16 with (Z.of_nat 16) at 2. constructor; [lia|].
    replace (Z.pred ((Z.of_nat (S n) + 15) / 16)) with ((Z.of_nat (S n - 16) + 15) / 16)
      by (Z.div_mod_to_equations; lia).
    erewrite list_fmap_ext; [apply (IH (b + Z.of_nat 16) (S n - 16)%nat); lia|].
    intros i k _. cbn beta. f_equal; [lia|]. f_equal. lia.
Qed.

Lemma chunks_tiles `{Profile} {S} (s : S) b n :
  b + Z.of_nat n < 2 ^ 32 ->
  exists cs, chunks (mk_pgt b (Z.of_nat n)) s = Done cs s /\ tiles b n cs.
Proof.
  intros Hb. unfold chunks, MAX_NUM_PGT_ENTRY_PER_ALLOC, mbind, M_bind. cbn [pgt_index pgt_count].
  rewrite uadd_run by done. eexists. split; [reflexivity|].
  replace (Z.max 0 (b + Z.of_nat n - b)) with (Z.of_nat n) by lia. rewrite div_ceil_16 by lia.
  by apply (chunk_list_tiles n).
Qed.

Lemma length_le_words (l : list Z) : length (ne_bytes l) = (8 * length l)%nat.
Proof.
  induction l as [|x l IH]; [done|]. change (ne_bytes (x :: l)) with (to_le_bytes 8 x ++ ne_bytes l).
  rewrite length_app, IH. cbn. lia.
Qed.

Lemma word_of_bytes (l : list Z) rest i x :
  Forall (in_width 64) l -> l !! i = Some x -> word (ne_bytes l ++ rest) (Z.of_nat i) = x.
Proof.
  revert i. induction l as [|y l IH]; intros i Hl Hi; [done|]. apply Forall_cons_1 in Hl as [Hy Hl].
  unfold word. rewrite Nat2Z.id. change (ne_bytes (y :: l)) with (to_le_bytes 8 y ++ ne_bytes l).
  rewrite <- app_assoc. destruct i as [|i].
  - injection Hi as <-. rewrite Nat.mul_0_r, drop_0. rewrite take_app_length'; [by apply from_to_le_bytes|done].
  - specialize (IH i Hl Hi). unfold word in IH. rewrite Nat2Z.id in IH.
    rewrite drop_app_ge by (cbn; lia). replace (8 * S i - length (to_le_bytes 8 y))%nat with (8 * i)%nat by (cbn; lia).
    exact IH.
Qed.

Section program.
Context `{Profile} `{PageFeature} `{HostPages} `{Mlock} `{Tcp} `{BilgeLaws}.
Context {V : Type} `{BitVec V} {Dev : Type} `{CmdDeviceLaws Dev}.
Implicit Types (c : HwDeviceCtx V Dev) (es : list effect).

Definition cmd_log c : list (desc_bytes * list Z) := o_log (observe (cc_dev (cx_cmd c))).

Lemma command_run (cm : Command) c es :
  at_rest (cx_cmd c) -> command_fits cm ->
  exists n cc b,
    (forall fuel, (n <= fuel)%nat ->
       command (fun dma => run_command fuel dma cm) (mk_actor c es) = Done tt (mk_actor (set_cmd cc c) es)) /\
    at_rest cc /\ read_command b = Some (seen cm) /\
    o_log (observe (cc_dev cc)) = cmd_log c ++ [(b, cx_mtt_buffer c)].
Proof.
  intros Hc Hf. destruct (run_command_run (cx_mtt_buffer c) cm (cx_cmd c) Hc Hf) as (n & cc & b & Hn & Hr & Hb & Hl).
  exists n, cc, b. split_and!; try done. intros fuel Hle.
  unfold command, get_self, gets, on_field, zoom, mbind, M_bind. cbn [self sent]. by rewrite Hn.
Qed.

Lemma debug_walk_run {S} n : forall va (s : S),
  va + Z.of_nat n * PAGE_SIZE < 2 ^ 64 -> debug_walk n va s = Done tt s.
Proof.
  pose proof page_size_pos. induction n as [|n IH]; intros va s Hv; [done|].
  cbn [debug_walk]. unfold mbind, M_bind. rewrite uadd_run by nia. apply IH. lia.
Qed.

(** The effect on the device's page table of writing [phys] from entry [b] on. *)
Definition writes (pa b : Z) (phys : list Z) (executed : list (desc_bytes * list Z)) : Prop :=
  forall tbl j, foldl (exec_pgt pa) tbl executed j =
    if (b <=? j) && (j <? b + Z.of_nat (length phys)) then phys !! Z.to_nat (j - b) else tbl j.

Lemma writes_app pa b l1 l2 ex1 ex2 :
  writes pa b l1 ex1 -> writes pa (b + Z.of_nat (length l1)) l2 ex2 -> writes pa b (l1 ++ l2) (ex1 ++ ex2).
Proof.
  intros H1w H2w tbl j. rewrite foldl_app, H2w, H1w, length_app, Nat2Z.inj_add, lookup_app.
  destruct (Z.leb_spec b j), (Z.leb_spec (b + Z.of_nat (length l1)) j); cbn [andb];
    rewrite ?(proj2 (Z.ltb_lt j (b + Z.of_nat (length l1)))), ?(proj2 (Z.ltb_ge j (b + Z.of_nat (length l1)))) by lia;
    try lia; try done.
  - rewrite Z.add_assoc, (lookup_ge_None_2 l1) by lia. destruct (Z.ltb_spec j (b + Z.of_nat (length l1) + Z.of_nat (length l2))); [|done].
    f_equal. lia.
  - rewrite (proj2 (Z.ltb_lt _ _)) by lia.
    destruct (lookup_lt_is_Some_2 l1 (Z.to_nat (j - b))) as [x Hx]; [lia|]. by rewrite Hx.
Qed.

Lemma copy_from_run src c es :
  (length src <= length (cx_mtt_buffer c))%nat ->
  copy_from src (mk_actor c es) = Done tt (mk_actor (set_mtt_buffer (src ++ drop (length src) (cx_mtt_buffer c)) c) es).
Proof.
  intros Hl. unfold copy_from, get_self, gets, modify_self, modify, mbind, M_bind. cbn [self sent].
  by rewrite (proj2 (Z.leb_le _ _)) by lia.
Qed.

Lemma exec_one pa b (l rest : list Z) cmd tbl j :
  (1 <= length l)%nat -> Forall (in_width 64) l ->
  read_command cmd = Some (CmPgt (mk_pgt_update pa b (Z.of_nat (length l) - 1))) ->
  exec_pgt pa tbl (cmd, ne_bytes l ++ rest) j =
    if (b <=? j) && (j <? b + Z.of_nat (length l)) then l !! Z.to_nat (j - b) else tbl j.
Proof.
  intros Hn Hl Hr. unfold exec_pgt. cbn [fst snd]. rewrite Hr. cbn [pu_dma_addr pu_pgt_offset pu_zero_based_entry_count].
  rewrite Z.eqb_refl. replace (j <=? b + (Z.of_nat (length l) - 1)) with (j <? b + Z.of_nat (length l))
    by (apply eq_true_iff_eq; rewrite Z.ltb_lt, Z.leb_le; lia).
  destruct ((b <=? j) && (j <? b + Z.of_nat (length l))) eqn:E; [|done].
  apply andb_true_iff in E as [E1%Z.leb_le E2%Z.ltb_lt].
  destruct (lookup_lt_is_Some_2 l (Z.to_nat (j - b))) as [x Hx]; [lia|]. rewrite Hx. f_equal.
  rewrite <- (Z2Nat.id (j - b)) by lia. by apply word_of_bytes.
Qed.

(** The context with another buffer and another state of the command queue. *)
Definition reprogrammed (c : HwDeviceCtx V Dev) buf cc : HwDeviceCtx V Dev := set_cmd cc (set_mtt_buffer buf c).

Lemma program_pgt_run addr all cs : forall b phys c es,
  tiles b (length phys) cs -> 0 <= b -> b + Z.of_nat (length phys) <= PGT_LEN -> Forall (in_width 64) phys ->
  at_rest (cx_cmd c) -> (128 <= length (cx_mtt_buffer c))%nat -> in_width 64 (cx_mtt_buffer_pa c) ->
  Z.land addr (~{64} PAGE_SIZE) + Z.of_nat (length all) * PAGE_SIZE < 2 ^ 64 ->
  exists n buf cc executed,
    (forall fuel, (n <= fuel)%nat ->
       program_pgt fuel addr all cs phys (mk_actor c es) = Done tt (mk_actor (reprogrammed c buf cc) es)) /\
    at_rest cc /\ o_log (observe (cc_dev cc)) = cmd_log c ++ executed /\ writes (cx_mtt_buffer_pa c) b phys executed.
Proof.
  induction cs as [|e cs IH]; intros b phys c es Ht Hb Hle Hphys Hrest Hbuf Hpa Hva.
  { inversion Ht as [b' E1 E2 E3|]. symmetry in E2. apply length_zero_iff_nil in E2 as ->.
    exists O, (cx_mtt_buffer c), (cx_cmd c), []. split; [intros fuel _; by destruct c|]. split; [done|].
    split; [by rewrite app_nil_r|]. intros tbl j. cbn [foldl length].
    replace ((b <=? j) && (j <? b + Z.of_nat 0)) with false; [done|].
    symmetry. apply andb_false_iff. rewrite Z.leb_gt, Z.ltb_ge. lia. }
  inversion Ht as [|b' n k cs' Hk Ht' E1 E2]. subst b' cs' e.
  set (l := take k phys). set (phys' := drop k phys).
  assert (Hll : length l = k) by (unfold l; rewrite length_take; lia).
  assert (Hlp : length phys' = n) by (unfold phys'; rewrite length_drop; lia).
  set (buf1 := ne_bytes l ++ drop (length (ne_bytes l)) (cx_mtt_buffer c)).
  assert (Hb1 : length (ne_bytes l) = (8 * k)%nat) by (rewrite length_le_words, Hll; done).
  assert (Hbuf1 : (128 <= length buf1)%nat) by (unfold buf1; rewrite length_app, length_drop, Hb1; lia).
  destruct (command_run (CmPgt (mk_pgt_update (cx_mtt_buffer_pa c) b (Z.of_nat k - 1))) (set_mtt_buffer buf1 c) es)
    as (n1 & cc1 & cmd & Hn1 & Hr1 & Hcmd & Hlog1); [done|unfold PGT_LEN, in_width in *; cbn; unfold in_width; lia|].
  destruct (IH (b + Z.of_nat k) phys' (reprogrammed c buf1 cc1) es) as (n2 & buf & cc & ex & Hn2 & Hr2 & Hlog2 & Hw);
    try done; [by rewrite Hlp|lia|lia|by apply Forall_drop|].
  exists (n1 `max` n2)%nat, buf, cc, ((cmd, buf1) :: ex). split_and!; [|done| |].
  - intros fuel Hf. cbn [program_pgt pgt_count pgt_index]. rewrite Nat2Z.id. fold l phys'.
    unfold mbind, M_bind. rewrite copy_from_run by lia. fold buf1. unfold gets. cbn [self].
    rewrite usub_run by lia. rewrite debug_walk_run by done.
    change (fun dma => update_pgt fuel dma ?u) with (fun dma => run_command fuel dma (CmPgt u)).
    cbn [cx_mtt_buffer_pa set_mtt_buffer]. rewrite Hn1 by lia. exact (Hn2 fuel ltac:(lia)).
  - rewrite Hlog2. unfold cmd_log at 1. cbn [cx_cmd reprogrammed set_cmd]. rewrite Hlog1. by rewrite <- app_assoc.
  - rewrite <- (take_drop k phys). fold l phys'. change ((cmd, buf1) :: ex) with ([(cmd, buf1)] ++ ex).
    apply writes_app; [|by rewrite Hll]. intros tbl j. cbn [foldl]. apply exec_one; [lia|by apply Forall_take|].
    rewrite Hcmd. by rewrite Hll.
Qed.

(** The pages of a region take at most two more than its length needs. *)
Lemma num_page_bound addr len :
  0 <= addr -> 0 < len -> addr + len < 2 ^ 64 ->
  0 < get_num_page addr len /\ get_num_page addr len * PAGE_SIZE <= len + 2 * PAGE_SIZE.
Proof.
  intros Ha Hl Hb. rewrite get_num_page_eq by done. pose proof page_size_pos as Hp.
  pose proof (Z.mul_div_le (addr + len - 1) PAGE_SIZE Hp). pose proof (Z.mul_succ_div_gt addr PAGE_SIZE Hp).
  assert (addr / PAGE_SIZE <= (addr + len - 1) / PAGE_SIZE) by (apply Z.div_le_mono; lia). nia.
Qed.

Lemma land_le a b : 0 <= a -> Z.land a b <= a.
Proof.
  intros Ha. destruct (Z.land a b) eqn:E; [lia| |lia]. rewrite <- E.
  pose proof (Z.add_lor_land (Z.land a b) (Z.ldiff a b)) as Hs.
  assert (Z.lor (Z.land a b) (Z.ldiff a b) = a) as Hl.
  { apply Z.bits_inj'. intros n Hn. rewrite Z.lor_spec, Z.land_spec, Z.ldiff_spec. by destruct (Z.testbit a n), (Z.testbit b n). }
  assert (Z.land (Z.land a b) (Z.ldiff a b) = 0) as H0l.
  { apply Z.bits_inj'. intros n Hn. rewrite !Z.land_spec, Z.ldiff_spec, Z.bits_0. by destruct (Z.testbit a n), (Z.testbit b n). }
  assert (0 <= Z.ldiff a b) by (apply Z.ldiff_nonneg; lia). lia.
Qed.

Lemma collect_some {A} (l : list A) : collect (Some <$> l) = Some l.
Proof.
  unfold collect. apply mapM_Some_2. induction l as [|x l IH]; [constructor|]. by constructor.
Qed.

End program.

(** ** Lemmas: queue pairs *)

(** Names the state a run ends in. *)
Ltac name_states E c es :=
  match type of E with _ = Done _ (mk_actor ?x ?l) => set (c := x) in E; set (es := l) in E end.

Section queue_pairs.
Context `{Profile} `{PageFeature} `{HostPages} `{Mlock} `{Tcp} `{Bilge}.
Context {V : Type} `{BitVec V} {Dev : Type} `{CmdDevice Dev}.
Implicit Types (c : HwDeviceCtx V Dev) (a : actor (HwDeviceCtx V Dev)).

(** Ports are 16-bit numbers, so computing them does not overflow. *)
Lemma qpn_to_port_run {S} qpn (s : S) :
  exists port, qpn_to_port qpn s = Done port s /\ BASE_PORT <= port < BASE_PORT + PORT_RANGE /\
    forall T (t : T), qpn_to_port qpn t = Done port t.
Proof.
  unfold qpn_to_port. pose proof (Z.mod_pos_bound (qpn *{32} 0x9E3779B9) PORT_RANGE ltac:(done)) as Hm.
  unfold BASE_PORT, PORT_RANGE in *. eexists. split; [apply uadd_run; lia|]. split; [lia|].
  intros T t. apply uadd_run. lia.
Qed.

(** Every call of the owner of the context, and the receive workers. *)
Inductive ctx_call : Set :=
| CallRegMr (key addr len pd access : Z) | CallDeregMr (mr_key : Z)
| CallCreateQp (key : Z) (attr : IbvQpInitAttr) | CallUpdateQp (qpn : Z) (attr : IbvQpAttr) | CallDestroyQp (qpn : Z)
| CallCreateCq | CallDestroyCq (handle : Z) | CallAllocPd | CallDeallocPd (handle : Z)
| CallPostSend (qpn : Z) (wr : SendWr) | CallPollCq (handle n : Z) | CallPostRecv (qpn : Z) (wr : RecvWr)
| CallRecvWorker (qpn : Z) (bytes : list Z).

Definition call (fuel : nat) (o : ctx_call) : M (actor (HwDeviceCtx V Dev)) unit :=
  match o with
  | CallRegMr key addr len pd access => reg_mr fuel key addr len pd access;; mret tt
  | CallDeregMr k => dereg_mr k;; mret tt
  | CallCreateQp key attr => ctx_create_qp fuel key attr;; mret tt
  | CallUpdateQp qpn attr => ctx_update_qp fuel qpn attr;; mret tt
  | CallDestroyQp qpn => ctx_destroy_qp qpn;; mret tt
  | CallCreateCq => ctx_create_cq;; mret tt
  | CallDestroyCq h => ctx_destroy_cq h;; mret tt
  | CallAllocPd => ctx_alloc_pd;; mret tt
  | CallDeallocPd h => ctx_dealloc_pd h;; mret tt
  | CallPostSend qpn wr => post_send qpn wr;; mret tt
  | CallPollCq h n => poll_cq h n;; mret tt
  | CallPostRecv qpn wr => post_recv qpn wr;; mret tt
  | CallRecvWorker qpn bytes => recv_worker_step qpn bytes
  end.

(** A channel to [peer] at an index of the table; whether it is connected may change. *)
Definition channel_to (i : nat) (peer : Z * Z) (a : actor (HwDeviceCtx V Dev)) : Prop :=
  exists b, cx_post_recv_tx (self a) !! i = Some (Some (mk_tx peer.1 peer.2 b)).

(** Looking at memory has no state. *)
Lemma scan_pages_keeps (P : actor (HwDeviceCtx V Dev) -> Prop) file start n : forall addr,
  keeps P (scan_pages file start n addr).
Proof. induction n as [|n IH]; intros addr; cbn [scan_pages]; unfold get_pa_from_file; keeps. Qed.

Lemma virt_to_phys_range_keeps (P : actor (HwDeviceCtx V Dev) -> Prop) addr n : keeps P (virt_to_phys_range addr n).
Proof. unfold virt_to_phys_range. pose proof (scan_pages_keeps P). keeps. Qed.

Lemma debug_walk_keeps (P : actor (HwDeviceCtx V Dev) -> Prop) n : forall va, keeps P (debug_walk n va).
Proof. induction n as [|n IH]; intros va; cbn [debug_walk]; keeps. Qed.

Section channel.
Context (i : nat) (peer : Z * Z).
Notation P := (channel_to i peer).

Lemma program_pgt_keeps fuel addr all cs : forall l, keeps P (program_pgt fuel addr all cs l).
Proof.
  pose proof (debug_walk_keeps P).
  induction cs as [|e cs IH]; intros l; cbn [program_pgt]; unfold copy_from, command, get_self, modify_self, panic, on_field; keeps; done.
Qed.

Lemma reg_mr_keeps fuel key addr len pd access : keeps P (reg_mr fuel key addr len pd access).
Proof.
  pose proof (program_pgt_keeps). pose proof (virt_to_phys_range_keeps P).
  unfold reg_mr, chunks, command, get_self, on_field. keeps; done.
Qed.

(** Reading the state gives the invariant for what was read. *)
Lemma keeps_get_self {A} (k : HwDeviceCtx V Dev -> M (actor (HwDeviceCtx V Dev)) A) :
  (forall c, P (mk_actor c []) -> keeps P (k c)) -> keeps P (get_self ≫= k).
Proof.
  intros Hk [c es] x s'. unfold get_self, gets, mbind, M_bind. cbn [self]. intros E HP.
  exact (Hk c HP _ _ _ E HP).
Qed.

(** Writing a channel keeps another one, and one to the same peer. *)
Lemma replace_keeps qpn tx a :
  Z.to_nat (qpn_to_index qpn) <> i \/ (tx_addr tx = peer.1 /\ tx_dqpn tx = peer.2) -> P a ->
  P (mk_actor (set_post_recv_tx (replace_qp (cx_post_recv_tx (self a)) qpn (Some tx)).2 (self a)) (sent a)).
Proof.
  intros Hi [b Hb]. unfold channel_to, replace_qp, get_qp in *. cbn [self cx_post_recv_tx set_post_recv_tx].
  destruct (cx_post_recv_tx (self a) !! Z.to_nat (qpn_to_index qpn)) as [o|] eqn:E; [|by exists b].
  cbn [snd]. destruct (decide (Z.to_nat (qpn_to_index qpn) = i)) as [Hq|Hq].
  - destruct Hi as [?|[Ha Hd]]; [done|]. rewrite Hq. exists (tx_connected tx).
    rewrite list_lookup_insert_eq by (by eapply lookup_lt_Some). destruct tx. cbn in *. by subst.
  - exists b. by rewrite list_lookup_insert_ne.
Qed.

Lemma post_recv_channel_keeps la da lq dq : keeps P (post_recv_channel la da lq dq).
Proof. unfold post_recv_channel, qpn_to_port, get_self. keeps. Qed.

Lemma update_qp_keeps fuel qpn attr : keeps P (ctx_update_qp fuel qpn attr).
Proof.
  pose proof post_recv_channel_keeps as Hch. unfold ctx_update_qp. apply keeps_get_self. intros c _.
  destruct (map_qp_mut _ _ _) as [o table]. apply keeps_bind; [unfold modify_self; keeps; done|]. intros _.
  destruct o as [entry|]; [|keeps]. apply keeps_bind; [unfold command, get_self, on_field; keeps; done|]. intros _.
  apply keeps_get_self. intros c' [b Hb]. destruct (get_qp (cx_qp_attr_table c') qpn) as [qp|]; [|keeps].
  destruct (_ && _) eqn:E; [|keeps]. assert (Hi : Z.to_nat (qpn_to_index qpn) <> i).
  { intros Hi. apply andb_true_iff in E as [_ E]. unfold post_recv_tx, get_qp in E. cbn [self] in Hb.
    rewrite Hi, Hb in E. done. }
  unfold modify_self, get_self, qpn_to_port. keeps; try done; (apply replace_keeps; [by left|done]).
Qed.

Lemma post_recv_keeps qpn wr : keeps P (post_recv qpn wr).
Proof.
  unfold post_recv. apply keeps_get_self. intros c _. destruct (get_qp _ qpn); [|keeps].
  apply keeps_bind; [unfold emit; keeps; done|]. intros _. apply keeps_get_self. intros c' [b Hb].
  destruct (post_recv_tx c' qpn) as [tx|] eqn:Et; [|keeps]. unfold tx_send, qpn_to_port, modify_self. keeps; try done.
  apply replace_keeps; [|done]. destruct (decide (Z.to_nat (qpn_to_index qpn) = i)) as [Hi|Hi]; [right|by left].
  unfold post_recv_tx, get_qp in Et. cbn [self] in Hb. rewrite Hi, Hb in Et. by injection Et as <-.
Qed.

Lemma call_keeps fuel o : keeps P (call fuel o).
Proof.
  pose proof reg_mr_keeps. pose proof update_qp_keeps. pose proof post_recv_keeps.
  destruct o; cbn [call]; unfold dereg_mr, ctx_create_qp, ctx_destroy_qp, ctx_create_cq, ctx_destroy_cq,
    ctx_alloc_pd, ctx_dealloc_pd, post_send, ctx_send, pop_recv_wr, rdma_write, poll_cq, recv_worker_step,
    command, emit, get_self, modify_self, on_field, panic; keeps; done.
Qed.

End channel.

(** Posting a receive writes it to the peer of the channel. *)
Lemma post_recv_run i peer qpn wr c es b x :
  Z.to_nat (qpn_to_index qpn) = i -> cx_post_recv_tx c !! i = Some (Some (mk_tx peer.1 peer.2 b)) ->
  get_qp (cx_qp_attr_table c) qpn = Some x ->
  exists port, qpn_to_port peer.2 tt = Done port tt /\
    let ev := EffCompletion (CtRegister qpn (EvPostRecv (mk_post_recv qpn (rv_wr_id wr)))) in
    let connected := set_post_recv_tx (<[i := Some (mk_tx peer.1 peer.2 true)]> (cx_post_recv_tx c)) c in
    post_recv qpn wr (mk_actor c es) =
      if negb b && negb (tcp_connect peer.1 port) then Done (Err (IoError None)) (mk_actor c (es ++ [ev]))
      else if tcp_write peer.1 port (recv_to_bytes wr)
      then Done (Ok tt) (mk_actor (set_wire (cx_wire c ++ [(peer.1, port, recv_to_bytes wr)]) connected) (es ++ [ev]))
      else Done (Err (IoError None)) (mk_actor connected (es ++ [ev])).
Proof.
  intros Hi Htx Hx. destruct (qpn_to_port_run peer.2 tt) as (port & Ep & _ & Hport). exists port. split; [done|].
  cbn zeta. unfold post_recv, get_self, gets, emit, modify, mbind, M_bind. cbn [self sent]. rewrite Hx.
  unfold post_recv_tx, get_qp. rewrite Hi. cbn [self sent]. rewrite Htx. cbn [mjoin option_join].
  unfold tx_send, mbind, M_bind. cbn [tx_dqpn tx_addr tx_connected]. rewrite Hport.
  destruct (negb b && negb (tcp_connect peer.1 port)); [done|].
  unfold modify_self, modify, replace_qp, get_qp. cbn [self sent]. rewrite Hi, Htx. cbn [snd].
  by destruct (tcp_write peer.1 port (recv_to_bytes wr)).
Qed.

(** The receives of the peer queue up in the order they arrive. *)
Lemma recv_workers_run qpn q wrs : forall c es,
  Forall recv_fits wrs -> get_qp (cx_recv_wr_queue c) qpn = Some q ->
  for_each (recv_to_bytes <$> wrs) (recv_worker_step qpn) (mk_actor c es) =
    Done tt (mk_actor (set_recv_wr_queue (<[Z.to_nat (qpn_to_index qpn) := q ++ wrs]> (cx_recv_wr_queue c)) c) es).
Proof.
  revert q. induction wrs as [|wr wrs IH]; intros q c es Hf Hq; unfold get_qp in *.
  { cbn. rewrite app_nil_r, list_insert_id by done. by destruct c. }
  apply list.Forall_cons in Hf as [Hw Hf]. cbn [fmap list_fmap for_each]. unfold mbind, M_bind.
  unfold recv_worker_step at 1, modify_self, modify. cbn [self sent]. rewrite recv_bytes_roundtrip_lemma by done.
  assert (Ha : alter (fun q => q ++ [wr]) (Z.to_nat (qpn_to_index qpn)) (cx_recv_wr_queue c)
    = <[Z.to_nat (qpn_to_index qpn) := q ++ [wr]]> (cx_recv_wr_queue c)).
  { rewrite list_insert_alter. apply list_alter_ext; [|done]. intros y Hy. assert (E : Some y = Some q) by (etrans; [symmetry; exact Hy|exact Hq]). by injection E as ->. }
  rewrite Ha, (IH (q ++ [wr])); [|done|]; cbn [cx_recv_wr_queue set_recv_wr_queue].
  - rewrite list_insert_insert_eq, <- app_assoc. done.
  - apply list_lookup_insert_eq. by eapply lookup_lt_Some.
Qed.

(** A send takes the oldest receive of the peer. *)
Lemma send_run qpn q wr x c es :
  get_qp (cx_recv_wr_queue c) qpn = Some (x :: q) -> b_length wr = rv_length x ->
  post_send qpn (WrSend wr) (mk_actor c es) =
    Done (Ok tt) (mk_actor (set_recv_wr_queue (<[Z.to_nat (qpn_to_index qpn) := q]> (cx_recv_wr_queue c)) c)
      (es ++ [EffRdma (RwWrite qpn (mk_rdma wr (rv_addr x) (rv_lkey x)))])).
Proof.
  intros Hq Hl. unfold post_send, ctx_send, pop_recv_wr, get_self, gets, modify_self, modify, mbind, M_bind. cbn [self sent].
  rewrite Hq. cbn. by rewrite Hl, Z.eqb_refl.
Qed.

Lemma mapM_step {S A B} (f : A -> M S B) x l s y s1 ys s2 :
  f x s = Done y s1 -> mapM f l s1 = Done ys s2 -> mapM f (x :: l) s = Done (y :: ys) s2.
Proof. intros Ex El. cbn [mapM]. unfold mbind at 1, M_bind at 1. rewrite Ex. unfold mbind at 1, M_bind at 1. by rewrite El. Qed.

(** A run of receives, where the network accepts them. *)
Lemma post_recvs_run i peer qpn port wrs : forall c es b x,
  Z.to_nat (qpn_to_index qpn) = i -> cx_post_recv_tx c !! i = Some (Some (mk_tx peer.1 peer.2 b)) ->
  get_qp (cx_qp_attr_table c) qpn = Some x -> qpn_to_port peer.2 tt = Done port tt ->
  (forall p, tcp_connect peer.1 p = true) -> (forall p bytes, tcp_write peer.1 p bytes = true) ->
  exists c', mapM (post_recv qpn) wrs (mk_actor c es) = Done (replicate (length wrs) (Ok tt))
      (mk_actor c' (es ++ ((fun wr => EffCompletion (CtRegister qpn (EvPostRecv (mk_post_recv qpn (rv_wr_id wr))))) <$> wrs))) /\
    cx_wire c' = cx_wire c ++ ((fun wr => (peer.1, port, recv_to_bytes wr)) <$> wrs).
Proof.
  induction wrs as [|wr wrs IH]; intros c es b x Hi Hb Hx Hport Hc Hw.
  { exists c. cbn. by rewrite !app_nil_r. }
  destruct (post_recv_run i peer qpn wr c es b x Hi Hb Hx) as (port' & Ep & Er).
  assert (port' = port) as -> by congruence. cbn zeta in Er.
  rewrite Hc, Hw, andb_false_r in Er. name_states Er c1 es1.
  destruct (IH c1 es1 true x) as (c' & Em & Ew); try done.
  { apply list_lookup_insert_eq. by eapply lookup_lt_Some. }
  exists c'. split; [|rewrite Ew; unfold c1; cbn; by rewrite <- app_assoc].
  rewrite (mapM_step _ _ _ _ _ _ _ _ Er Em). unfold es1. cbn. by rewrite <- app_assoc.
Qed.

(** A run of sends takes the receives in the order they came. *)
Lemma sends_run qpn sends : forall q c es,
  get_qp (cx_recv_wr_queue c) qpn = Some q -> Forall2 (fun w r => b_length w = rv_length r) sends q ->
  exists c', mapM (fun w => post_send qpn (WrSend w)) sends (mk_actor c es) = Done (replicate (length sends) (Ok tt))
      (mk_actor c' (es ++ zip_with (fun w r => EffRdma (RwWrite qpn (mk_rdma w (rv_addr r) (rv_lkey r)))) sends q)) /\
    get_qp (cx_recv_wr_queue c') qpn = Some [].
Proof.
  induction sends as [|w sends IH]; intros q c es Hq Hl; inversion Hl as [|w' r sends' q' Hwr Hl']; subst.
  { exists c. cbn. by rewrite app_nil_r. }
  pose proof (send_run qpn q' w r c es Hq Hwr) as Er. name_states Er c1 es1.
  destruct (IH q' c1 es1) as (c' & Em & Ec); [|done|].
  { apply list_lookup_insert_eq. by eapply lookup_lt_Some. }
  exists c'. split; [|done]. rewrite (mapM_step (fun w => post_send qpn (WrSend w)) _ _ _ _ _ _ _ Er Em).
  unfold es1. cbn. by rewrite <- app_assoc.
Qed.

(** Without a new address the queue pair keeps its peer. *)
Lemma merged_ip qpn attr cur : qa_dqp_ip (modified qpn attr cur).2 = default (qa_dqp_ip cur) (dest_qp_ip attr).
Proof.
  unfold modified. cbn. destruct (dest_qp_ip attr) as [ip|]; [done|]. cbn. by destruct (Z.eqb_spec (qa_dqp_ip cur) 0) as [->|].
Qed.

(** A registration that fails after its key was taken keeps the key and the entries: the
    caller gets an error and no key to deregister. *)
Lemma failed_registration_leaks fuel key addr len pd access c es k e m' l :
  mlock addr len = true -> register key (get_num_page addr len) (cx_mtt c) = Done (Some (k, e)) m' -> len < 2 ^ 32 ->
  (forall s : actor (HwDeviceCtx V Dev), virt_to_phys_range addr (get_num_page addr len) s = Done (Ok l) s) ->
  None ∈ l -> reg_mr fuel key addr len pd access (mk_actor c es) = Done (Err MemoryError) (mk_actor (set_mtt m' c) es).
Proof.
  intros Hlock Er Hlen Hv Hl. unfold reg_mr. rewrite Hlock. cbn [negb]. unfold on_field, zoom, mbind, M_bind.
  cbn [self sent]. rewrite Er, (proj2 (Z.leb_gt _ _)) by lia. rewrite Hv. unfold collect.
  destruct (mapM id l) as [l'|] eqn:E; [|done]. apply mapM_Some_1 in E.
  apply list_elem_of_lookup in Hl as [j Hj]. eapply Forall2_lookup_l in E as (y & _ & Hy); [|exact Hj]. done.
Qed.

(** Queue pairs 0x101 and 0x21a of one device listen on the same port. *)
Lemma ports_collide : qpn_to_port 0x101 tt = qpn_to_port 0x21a tt.
Proof. vm_compute. reflexivity. Qed.

End queue_pairs.

(** ** Properties *)

(** C15: registering memory programs the device.  With the device at rest, a DMA buffer of
    at least 128 bytes, and a locked region of less than 2^32 bytes that ends two pages below
    the top of the address space and whose pages are all present, a registration that finds a key and free entries returns that key after
    the device has executed first the command for the region, with its address, length,
    key, protection domain, access rights and first entry, and then page table commands
    after which the entries of the region, and no others, hold the physical addresses of
    its pages in order; each command found its part of the addresses in the one DMA
    buffer.  A registration that finds none returns an error and sends nothing.  Nothing
    panics, and the device is at rest again. *)
Theorem reg_mr_programs_device `{Profile} `{PageFeature} `{HostPages} `{Mlock} `{Tcp} `{BilgeLaws}
    {V} `{BitVec V} `{!BitVecLaws V} {Dev} `{CmdDeviceLaws Dev}
    (c : HwDeviceCtx V Dev) es live key addr len pd access phys :
  at_rest (cx_cmd c) -> mtt_inv (cx_mtt c) live -> (128 <= length (cx_mtt_buffer c))%nat ->
  in_width 64 (cx_mtt_buffer_pa c) -> 0 <= key < 2 ^ 8 -> 0 <= addr -> 0 < len < 2 ^ 32 ->
  addr + len + 2 * PAGE_SIZE < 2 ^ 64 -> in_width 32 pd -> in_width 8 access -> mlock addr len = true ->
  (forall s : actor (HwDeviceCtx V Dev),
     virt_to_phys_range addr (get_num_page addr len) s = Done (Ok (Some <$> phys)) s) ->
  Z.of_nat (length phys) = get_num_page addr len -> Forall (in_width 64) phys ->
  match register key (get_num_page addr len) (cx_mtt c) with
  | Done (Some (k, e)) m' =>
      exists n buf cc b dma executed,
        (forall fuel, (n <= fuel)%nat -> reg_mr fuel key addr len pd access (mk_actor c es) =
           Done (Ok k) (mk_actor (reprogrammed (set_mtt m' c) buf cc) es)) /\
        at_rest cc /\ o_log (observe (cc_dev cc)) = cmd_log c ++ (b, dma) :: executed /\
        read_command b = Some (CmMtt (mk_mtt_update addr len k pd access (pgt_index e))) /\
        writes (cx_mtt_buffer_pa c) (pgt_index e) phys executed /\
        (forall r j, r ∈ live -> in_entry (rg_entry r) j -> ~ in_entry e j)
  | Done None m' => forall fuel, reg_mr fuel key addr len pd access (mk_actor c es) =
      Done (Err (IoError None)) (mk_actor (set_mtt m' c) es)
  | Fault _ => False
  end.
Proof.
  intros Hrest Hinv Hbuf Hpa Hkey Ha Hlen Hend Hpd Hacc Hlock Hphys Hnum Hwid. pose proof page_size_pos as Hp.
  destruct (num_page_bound addr len Ha ltac:(lia) ltac:(lia)) as [Hn0 Hnb].
  unfold reg_mr. rewrite Hlock. cbn [negb]. assert (Hn : 0 <= get_num_page addr len) by lia.
  destruct (register_cases key (get_num_page addr len) (cx_mtt c) live Hinv Hkey Hn)
    as [(m' & Er & _)|(k & s & m' & Er & Hk & _ & Hs & Hle & Hfree)]; rewrite Er.
  { intros fuel. unfold on_field, zoom, mbind, M_bind. cbn [self sent]. by rewrite Er. }
  set (c1 := set_mtt m' c). cbn [pgt_index].
  destruct (command_run (CmMtt (mk_mtt_update addr len k pd access s)) c1 es) as (n1 & cc1 & b & Hn1 & Hr1 & Hb & Hl1).
  { done. }
  { unfold PGT_LEN in Hle. cbn -[in_width]. unfold in_width in *. lia. }
  assert (Hb32 : s + Z.of_nat (length phys) < 2 ^ 32) by (unfold PGT_LEN in Hle; lia).
  destruct (chunks_tiles (mk_actor (set_cmd cc1 c1) es) s (length phys) Hb32) as (cs & Ecs & Ht).
  destruct (program_pgt_run addr phys cs s phys (set_cmd cc1 c1) es Ht Hs) as (n2 & buf & cc & ex & Hn2 & Hr2 & Hl2 & Hw);
    try done; [lia|rewrite Hnum; pose proof (land_le addr (~{64} PAGE_SIZE) Ha); lia|].
  exists (n1 `max` n2)%nat, buf, cc, b, (cx_mtt_buffer c), ex. split_and!; [|done| |done|done|].
  - intros fuel Hf. unfold on_field, zoom, mbind, M_bind. cbn [self sent]. rewrite Er.
    rewrite (proj2 (Z.leb_gt _ _)) by lia. fold c1. rewrite Hphys, collect_some.
    change (fun dma => update_mtt fuel dma ?u) with (fun dma => run_command fuel dma (CmMtt u)).
    cbn [pgt_index]. rewrite Hn1 by lia. rewrite <- Hnum, Ecs, Hn2 by lia. done.
  - rewrite Hl2. unfold cmd_log at 1. cbn [cx_cmd set_cmd]. rewrite Hl1. by rewrite <- app_assoc.
  - intros r j Hr Hj Hj'. destruct (proj2 (mi_used _ _ Hinv j)) as [_ Hu]; [by exists r|].
    specialize (Hfree j). unfold in_entry in Hj'. cbn [pgt_index pgt_count] in Hj'. rewrite Hfree in Hu by lia. done.
Qed.

(** A context before its first registration, on a host whose pages are all mapped to
    the second physical page. *)
#[local] Instance lock_all : Mlock := fun _ _ => true.
#[local] Instance open_network : Tcp :=
  {| tcp_bind _ _ := true; tcp_connect _ _ := true; tcp_write _ _ _ := true |}.

Definition sample_qp_attr : QpAttr := mk_qp_attr 2 0 0 0x0A000001 0 0 0 0 None None.

Definition sample_ctx : HwDeviceCtx (list bool) CmdObs :=
  mk_ctx Mtt_new (replicate 128 0) 0x100000 (true :: replicate 1023 false)
    (QpTable_new_with sample_qp_attr) CqManager_new (replicate 1024 []) fresh_configurator
    (QpTable_new_with None) (QpTable_new_with []) [] [] [].

Lemma reg_mr_programs_device_witness :
  exists k e m' n buf cc b dma executed,
    register (H := dev_profile) 7 1 (Mtt_new : Mtt (list bool)) = Done (Some (k, e)) m' /\
    (forall fuel, (n <= fuel)%nat ->
       reg_mr (H := dev_profile) (H0 := Build_PageFeature false) (H1 := one_page_host)
         fuel 7 0x7000 0x1000 3 7 (mk_actor sample_ctx []) =
       Done (Ok k) (mk_actor (reprogrammed (set_mtt m' sample_ctx) buf cc) [])) /\
    o_log (observe (cc_dev cc)) = (b, dma) :: executed /\
    read_command b = Some (CmMtt (mk_mtt_update 0x7000 0x1000 k 3 7 (pgt_index e))) /\
    writes 0x100000 (pgt_index e) [0x1000] executed.
Proof.
  pose proof (reg_mr_programs_device (H := dev_profile) (H0 := Build_PageFeature false) (H1 := one_page_host)
    sample_ctx [] [] 7 0x7000 0x1000 3 7 [0x1000] fresh_configurator_rest mtt_inv_new) as Hr.
  assert (Hn : get_num_page (H := Build_PageFeature false) 0x7000 0x1000 = 1) by (vm_compute; reflexivity).
  rewrite Hn in Hr.
  assert (Hp : PAGE_SIZE (H := Build_PageFeature false) = 4096) by (vm_compute; reflexivity). rewrite Hp in Hr.
  specialize (Hr ltac:(cbn; lia) ltac:(cbn; unfold in_width; lia) ltac:(lia) ltac:(lia) ltac:(lia) ltac:(lia)
    ltac:(unfold in_width; lia) ltac:(unfold in_width; lia) eq_refl ltac:(intros s; vm_compute; reflexivity)
    eq_refl ltac:(constructor; [unfold in_width; lia|constructor])).
  change (cx_mtt sample_ctx) with (Mtt_new : Mtt (list bool)) in Hr.
  destruct (register_cases (H0 := dev_profile) 7 1 (Mtt_new : Mtt (list bool)) [] mtt_inv_new ltac:(lia) ltac:(lia))
    as [(m' & Er & Hno)|(k & s & m' & Er & _)]; rewrite Er in Hr.
  - exfalso. destruct Hno as [Hno|[Hno|Hno]]; [discriminate|discriminate|].
    apply (Hno 0); [lia|unfold PGT_LEN; lia|]. intros i Hi. apply fresh_free. unfold PGT_LEN. lia.
  - destruct Hr as (n & buf & cc & b & dma & ex & Hrun & _ & Hlog & Hb & Hw & _).
    exists k, (mk_pgt s 1), m', n, buf, cc, b, dma, ex. split_and!; [exact Er|exact Hrun|exact Hlog|exact Hb|exact Hw].
Defined.

(** The peer of a queue pair's receives never changes.  Once an index of the queue
    pair table has a channel to a peer, no sequence of calls that returns, neither
    destroying the queue pair nor creating another at its index and connecting that to
    another peer, replaces it; and a receive posted on any queue pair of that index that
    succeeds is written to the first peer. *)
Theorem receives_stay_with_first_peer `{Profile} `{PageFeature} `{HostPages} `{Mlock} `{Tcp} `{Bilge}
    {V} `{BitVec V} {Dev} `{CmdDevice Dev} (a a' : actor (HwDeviceCtx V Dev)) i peer fuel calls :
  channel_to i peer a -> for_each calls (call fuel) a = Done tt a' ->
  channel_to i peer a' /\
  forall qpn wr a'', Z.to_nat (qpn_to_index qpn) = i -> post_recv qpn wr a' = Done (Ok tt) a'' ->
    exists port, qpn_to_port peer.2 tt = Done port tt /\
      cx_wire (self a'') = cx_wire (self a') ++ [(peer.1, port, recv_to_bytes wr)].
Proof.
  intros Ha Hrun. assert (Ha' : channel_to i peer a').
  { eapply (keeps_for_each (channel_to i peer)); [|exact Hrun|exact Ha]. intros o. apply call_keeps. }
  split; [done|]. intros qpn wr a'' Hi Hp. destruct Ha' as [b Hb]. destruct a' as [c es]. cbn [self] in *.
  destruct (get_qp (cx_qp_attr_table c) qpn) as [x|] eqn:Ex.
  - destruct (post_recv_run i peer qpn wr c es b x Hi Hb Ex) as (port & Ep & Er). exists port. split; [done|].
    rewrite Er in Hp. destruct (negb b && _); [done|]. destruct (tcp_write _ _ _); [|done].
    by injection Hp as <-.
  - unfold post_recv, get_self, gets, mbind, M_bind in Hp. cbn [self] in Hp. by rewrite Ex in Hp.
Qed.

(** C19: sends land in the receives the peer posted, in order.  One side posts receives
    on a connected queue pair; the other side's receive worker reads what was written to
    its port, and its sends, each as long as its receive, become RDMA writes to the
    buffers and keys of those receives, first to first; no receive is left and none is
    used twice, and every receive is registered for its completion. *)
Theorem sends_use_posted_receives `{Profile} `{PageFeature} `{HostPages} `{Mlock} `{Tcp} `{Bilge}
    {V} `{BitVec V} {Dev} `{CmdDevice Dev} (a b : HwDeviceCtx V Dev) ea eb ip qpn_a qpn_b wrs sends x co :
  get_qp (cx_post_recv_tx b) qpn_b = Some (Some (mk_tx ip qpn_a co)) -> get_qp (cx_qp_attr_table b) qpn_b = Some x ->
  get_qp (cx_recv_wr_queue a) qpn_a = Some [] ->
  (forall p, tcp_connect ip p = true) -> (forall p bytes, tcp_write ip p bytes = true) ->
  Forall recv_fits wrs -> Forall2 (fun w r => b_length w = rv_length r) sends wrs ->
  exists b' a1 a' port,
    mapM (post_recv qpn_b) wrs (mk_actor b eb) = Done (replicate (length wrs) (Ok tt)) (mk_actor b'
      (eb ++ ((fun wr => EffCompletion (CtRegister qpn_b (EvPostRecv (mk_post_recv qpn_b (rv_wr_id wr))))) <$> wrs))) /\
    qpn_to_port qpn_a tt = Done port tt /\
    Forall (fun m => m.1 = (ip, port)) (drop (length (cx_wire b)) (cx_wire b')) /\
    for_each (drop (length (cx_wire b)) (cx_wire b')).*2 (recv_worker_step qpn_a) (mk_actor a ea) = Done tt a1 /\
    mapM (fun w => post_send qpn_a (WrSend w)) sends a1 = Done (replicate (length sends) (Ok tt)) (mk_actor a'
      (ea ++ zip_with (fun w r => EffRdma (RwWrite qpn_a (mk_rdma w (rv_addr r) (rv_lkey r)))) sends wrs)) /\
    get_qp (cx_recv_wr_queue a') qpn_a = Some [].
Proof.
  intros Htx Hx Hq Hc Hw Hfit Hlen. destruct (qpn_to_port_run qpn_a tt) as (port & Ep & _ & _).
  destruct (post_recvs_run _ (ip, qpn_a) qpn_b port wrs b eb co x eq_refl Htx Hx Ep Hc Hw) as (b' & Eb & Ew).
  pose proof (recv_workers_run qpn_a [] wrs a ea Hfit Hq) as Ea. name_states Ea a1 ea1.
  destruct (sends_run qpn_a sends wrs a1 ea) as (a' & Es & Ee); [|done|].
  { apply list_lookup_insert_eq. by eapply lookup_lt_Some. }
  exists b', (mk_actor a1 ea), a', port. rewrite Ew, drop_app_length. split_and!; try done.
  - by apply Forall_fmap, list.Forall_true.
  - by rewrite <- list_fmap_compose.
Qed.

(** C18: modifying a queue pair programs the device with what the table then says.  For a
    queue pair of the tables, the device at rest and values that fit the fields of the
    command, the call returns after the device has executed one command, for the number of the queue
    pair, whose peer address, peer number, path MTU and access rights are those of the
    entry, which keeps what the call did not give.  When the peer is known and there is
    no channel yet, one to that peer is made and its listener started, unless the port of
    the queue pair is taken on that address: then the call is an error although device
    and table have changed. *)
Theorem update_qp_programs_device `{Profile} `{PageFeature} `{HostPages} `{Mlock} `{Tcp} `{BilgeLaws}
    {V} `{BitVec V} {Dev} `{CmdDeviceLaws Dev} (c : HwDeviceCtx V Dev) es qpn attr cur q :
  at_rest (cx_cmd c) -> get_qp (cx_qp_attr_table c) qpn = Some cur -> get_qp (cx_recv_wr_queue c) qpn = Some q ->
  is_Some (get_qp (cx_post_recv_tx c) qpn) -> command_fits (CmQp (modified qpn attr cur).1) ->
  let new := (modified qpn attr cur).2 in
  qa_dqpn new = default (qa_dqpn cur) (dest_qp_num attr) /\ qa_dqp_ip new = default (qa_dqp_ip cur) (dest_qp_ip attr) /\
  qa_pmtu new = default (qa_pmtu cur) (wrap 8 <$> path_mtu attr) /\
  (qa_qp_type new, qa_qpn new, qa_ip new, qa_send_cq new, qa_recv_cq new) =
    (qa_qp_type cur, qa_qpn cur, qa_ip cur, qa_send_cq cur, qa_recv_cq cur) /\
  exists n cc b port, at_rest cc /\ qpn_to_port qpn tt = Done port tt /\
    o_log (observe (cc_dev cc)) = cmd_log c ++ [(b, cx_mtt_buffer c)] /\
    read_command b = Some (seen (CmQp (mk_update_qp (qa_dqp_ip new) qpn (qa_dqpn new) (qa_access_flags new)
      (qa_qp_type new) (qa_pmtu new) 0x100 CARD_MAC_ADDRESS))) /\
    let programmed := set_cmd cc (set_qp_attr_table (<[Z.to_nat (qpn_to_index qpn) := new]> (cx_qp_attr_table c)) c) in
    forall fuel, (n <= fuel)%nat ->
      ctx_update_qp fuel qpn attr (mk_actor c es) =
        if negb (qa_dqpn new =? 0) && negb (qa_dqp_ip new =? 0)
           && (match post_recv_tx c qpn with None => true | Some _ => false end) then
          if existsb (fun l => (l.1.1 =? qa_ip new) && (l.1.2 =? port)) (cx_listeners c)
          then Done (Err (IoError (Some EADDRINUSE))) (mk_actor programmed es)
          else if negb (tcp_bind (qa_ip new) port) then Done (Err (IoError None)) (mk_actor programmed es)
          else Done (Ok tt) (mk_actor (set_listeners (cx_listeners c ++ [(qa_ip new, port, qpn)])
            (set_post_recv_tx (<[Z.to_nat (qpn_to_index qpn) := Some (mk_tx (qa_dqp_ip new) (qa_dqpn new) false)]>
              (cx_post_recv_tx c)) programmed)) es)
        else Done (Ok tt) (mk_actor programmed es).
Proof.
  intros Hrest Hcur Hq [tx Htx] Hfit new. destruct (qpn_to_port_run qpn tt) as (port & Ep & _ & Hport).
  set (c1 := set_qp_attr_table (<[Z.to_nat (qpn_to_index qpn) := new]> (cx_qp_attr_table c)) c).
  destruct (command_run (CmQp (modified qpn attr cur).1) c1 es) as (n & cc & b & Hn & Hr & Hb & Hl); [done|done|].
  split; [done|]. split; [by apply merged_ip|]. split; [unfold new, modified; cbn; by destruct (path_mtu attr)|]. split; [done|].
  exists n, cc, b, port. split_and!; try done. cbn zeta. intros fuel Hf.
  unfold ctx_update_qp, get_self, gets, modify_self, modify, map_qp_mut, mbind, M_bind. cbn [self sent]. rewrite Hcur.
  fold new c1. change (fun dma => cmd_update_qp fuel dma ?u) with (fun dma => run_command fuel dma (CmQp u)).
  rewrite Hn by done. cbn [self].
  assert (Hnew : get_qp (cx_qp_attr_table (set_cmd cc c1)) qpn = Some new).
  { apply list_lookup_insert_eq. by eapply lookup_lt_Some. }
  rewrite Hnew. change (post_recv_tx (set_cmd cc c1) qpn) with (post_recv_tx c qpn).
  destruct (_ && _); [|done]. unfold post_recv_channel, get_self, gets, mbind, M_bind. rewrite Hport. cbn [self].
  change (cx_listeners (set_cmd cc c1)) with (cx_listeners c).
  destruct (existsb _ _); [done|]. destruct (negb (tcp_bind _ _)); [done|]. cbn.
  change (get_qp (cx_recv_wr_queue _) qpn) with (get_qp (cx_recv_wr_queue c) qpn). rewrite Hq, Hport.
  unfold replace_qp. change (get_qp (cx_post_recv_tx _) qpn) with (get_qp (cx_post_recv_tx c) qpn). by rewrite Htx.
Qed.

(** A queue pair is connected to 10.0.0.2; it is destroyed, and the next one, which has
    its index, is connected to 10.0.0.3. *)
Section reuse.
#[local] Existing Instance dev_profile.
#[local] Instance small_pages : PageFeature := Build_PageFeature false.
#[local] Existing Instance one_page_host.

Definition connect_to (qpn dqpn ip : Z) : ctx_call := CallUpdateQp qpn (mk_qp_mod (Some 3) (Some dqpn) (Some ip)).

Definition sample_init : IbvQpInitAttr := mk_init_attr 2 (Some 0) (Some 0).

Definition first_peer : list ctx_call := [CallCreateQp 1 sample_init; connect_to 0x101 0x205 0x0A000002].
Definition second_peer : list ctx_call :=
  [CallDestroyQp 0x101; CallCreateQp 2 sample_init; connect_to 0x102 0x306 0x0A000003].

Definition state_after (calls : list ctx_call) (a : actor (HwDeviceCtx (list bool) CmdObs)) : actor (HwDeviceCtx (list bool) CmdObs) :=
  match for_each calls (call 20) a with Done _ a' => a' | Fault _ => a end.

Definition sample_connected := state_after first_peer (mk_actor sample_ctx []).
Definition sample_reused := state_after second_peer sample_connected.

Definition returns {S A} (r : res S A) : bool := match r with Done _ _ => true | Fault _ => false end.

Lemma state_after_run calls a :
  returns (for_each calls (call 20) a) = true -> for_each calls (call 20) a = Done tt (state_after calls a).
Proof. unfold state_after. by destruct (for_each calls (call 20) a) as [[] ?|]. Qed.

Definition succeeds {S} (r : res S (result unit)) : bool := match r with Done (Ok _) _ => true | _ => false end.

Lemma succeeds_run {S} (r : res S (result unit)) : succeeds r = true -> exists s, r = Done (Ok tt) s.
Proof. destruct r as [[[]|] s|]; try done. by exists s. Qed.

Lemma second_peer_run : for_each second_peer (call 20) sample_connected = Done tt sample_reused.
Proof. apply state_after_run. vm_compute. reflexivity. Qed.

Lemma receives_stay_with_first_peer_witness :
  qa_dqp_ip <$> get_qp (cx_qp_attr_table (self sample_reused)) 0x102 = Some 0x0A000003 /\
  exists a'' port, post_recv 0x102 (mk_recv 9 0x7000 64 3) sample_reused = Done (Ok tt) a'' /\
    cx_wire (self a'') = cx_wire (self sample_reused) ++ [(0x0A000002, port, recv_to_bytes (mk_recv 9 0x7000 64 3))].
Proof.
  split; [vm_compute; reflexivity|].
  destruct (receives_stay_with_first_peer sample_connected sample_reused 1 (0x0A000002, 0x205) 20 second_peer)
    as [_ Hp]; [exists false; vm_compute; reflexivity|exact second_peer_run|].
  destruct (succeeds_run (post_recv 0x102 (mk_recv 9 0x7000 64 3) sample_reused)) as [a'' E]; [vm_compute; reflexivity|].
  destruct (Hp 0x102 (mk_recv 9 0x7000 64 3) a'' eq_refl E) as (port & _ & Hw).
  exists a'', port. split; [exact E|exact Hw].
Defined.

(** Two receives of the connected queue pair, and the sends of its peer. *)
Definition sample_recvs : list RecvWr := [mk_recv 9 0x7000 64 3; mk_recv 10 0x8000 32 4].
Definition sample_send (len : Z) : SendWrBase := mk_base 5 2 0x9000 len 6 0 OpSend.

Lemma sends_use_posted_receives_witness :
  exists b' a1 a',
    mapM (post_recv 0x101) sample_recvs (mk_actor (self sample_connected) []) = Done [Ok tt; Ok tt] b' /\
    for_each (drop (length (cx_wire (self sample_connected))) (cx_wire (self b'))).*2 (recv_worker_step 0x205)
      (mk_actor sample_ctx []) = Done tt a1 /\
    mapM (fun w => post_send 0x205 (WrSend w)) [sample_send 64; sample_send 32] a1 = Done [Ok tt; Ok tt] (mk_actor a'
      [EffRdma (RwWrite 0x205 (mk_rdma (sample_send 64) 0x7000 3)); EffRdma (RwWrite 0x205 (mk_rdma (sample_send 32) 0x8000 4))]).
Proof.
  destruct (sends_use_posted_receives sample_ctx (self sample_connected) [] [] 0x0A000002 0x205 0x101
    sample_recvs [sample_send 64; sample_send 32] (mk_qp_attr 2 0x101 0x205 0x0A000001 0x0A000002 CARD_MAC_ADDRESS 3 7 (Some 0) (Some 0)) false)
    as (b' & a1 & a' & port & Eb & _ & _ & Ea & Es & _);
    [vm_compute; reflexivity|vm_compute; reflexivity|vm_compute; reflexivity|done|done| |repeat constructor|].
  { repeat constructor; cbn; unfold in_width; lia. }
  eexists _, a1, a'. split; [exact Eb|split; [exact Ea|exact Es]].
Defined.

Lemma update_qp_programs_device_witness :
  exists n cc b port, at_rest cc /\ o_log (observe (cc_dev cc)) = [(b, replicate 128 0)] /\
    read_command b = Some (CmQp (mk_update_qp 0x0A000002 0x101 0x205 7 2 3 0x100 CARD_MAC_ADDRESS)) /\
    forall fuel, (n <= fuel)%nat -> exists a', cx_listeners (self a') = [(0x0A000001, port, 0x101)] /\
      ctx_update_qp fuel 0x101 (mk_qp_mod (Some 3) (Some 0x205) (Some 0x0A000002)) (mk_actor sample_ctx []) = Done (Ok tt) a'.
Proof.
  destruct (update_qp_programs_device sample_ctx [] 0x101 (mk_qp_mod (Some 3) (Some 0x205) (Some 0x0A000002)) sample_qp_attr [])
    as (_ & _ & _ & _ & n & cc & b & port & Hr & _ & Hl & Hb & Hrun);
    [exact fresh_configurator_rest|vm_compute; reflexivity|vm_compute; reflexivity|exists None; vm_compute; reflexivity| |].
  { cbn -[in_width]. unfold in_width. split_and!; vm_compute; congruence. }
  exists n, cc, b, port. split_and!; [exact Hr|exact Hl|exact Hb|]. intros fuel Hf. specialize (Hrun fuel Hf).
  eexists. split; [|exact Hrun]. reflexivity.
Defined.

End reuse.
