(* ===== verification/Core.v ===== *)
(** * The exported verbs

    rust-driver/src/verbs/core.rs: the functions the provider of libibverbs calls.  They
    check their pointers, run the verb of the device context and turn its result into a
    null pointer, an error number or work completions.  A pointer is an [option]; a chain
    of requests is the list of its elements; the state is that of the device context. *)

From Stdlib Require Import ZArith Lia.
From stdpp Require Import base list numbers.
From S2P Require Import Prelude RustBase WorkReq Qp Descriptors CmdQueue Tasks Mtt Mem Ctx.

#[local] Open Scope Z_scope.

(** ** The C structures, as far as the driver fills or reads them *)

Record ibv_pd : Set := mk_pd { pd_handle : Z }.
Record ibv_cq : Set := mk_cq { cq_handle : Z; cq_cqe : Z }.
Record ibv_qp : Set := mk_qp { qp_pd : ibv_pd; qp_num : Z; qp_state : Z; qp_qp_type : Z }.
Record ibv_mr : Set := mk_mr {
  mr_pd : option ibv_pd; mr_addr : Z; mr_length : Z; mr_handle : Z; mr_lkey : Z; mr_rkey : Z }.
Record ibv_qp_init_attr : Set := mk_qp_init_attr {
  init_send_cq : option ibv_cq; init_recv_cq : option ibv_cq; init_qp_type : Z }.

(** [wc_rest] stands for the members the driver does not write. *)
Record ibv_wc : Set := mk_wc { wc_wr_id : Z; wc_status : Z; wc_opcode : Z; wc_imm_data : Z; wc_rest : Z }.

Definition IBV_QPS_INIT : Z := 1.
Definition IBV_WC_SUCCESS : Z := 0.
Definition IBV_WC_RECV : Z := Z.shiftl 1 7.

(** ** rdma_utils/types.rs and workers/completion.rs *)

Definition IbvQpInitAttr_new (attr : ibv_qp_init_attr) : IbvQpInitAttr :=
  mk_init_attr (wrap 8 (init_qp_type attr)) (cq_handle <$> init_send_cq attr) (cq_handle <$> init_recv_cq attr).

Definition completion_opcode (c : Completion) : Z :=
  match c with
  | ComplSend _ => 0
  | ComplRdmaWrite _ => 1
  | ComplRdmaRead _ => 2
  | ComplRecv _ _ => IBV_WC_RECV
  | ComplRecvRdmaWithImm _ => IBV_WC_RECV + 1
  end.

(** ** core.rs *)

Section code.
Context `{Profile} `{PageFeature} `{HostPages} `{Mlock} `{Tcp} `{Bilge}.
Context {V : Type} `{BitVec V} {Dev : Type} `{CmdDevice Dev}.
Notation MC := (M (actor (HwDeviceCtx V Dev))).

(** [deref_or_ret!] *)
Definition deref_or_ret {A R} (p : option A) (ret : R) (k : A -> MC R) : MC R :=
  match p with Some val => k val | None => mret ret end.

(** The error number of a call that returns nothing else. *)
Definition status (r : result unit) : Z := match r with Ok _ => 0 | Err e => to_errno e end.

Definition core_alloc_pd : MC (option ibv_pd) :=
  r ← ctx_alloc_pd;
  mret (match r with Ok handle => Some (mk_pd handle) | Err _ => None end).

Definition core_dealloc_pd (pd : option ibv_pd) : MC Z :=
  deref_or_ret pd EINVAL (fun pd => r ← ctx_dealloc_pd (pd_handle pd); mret (status r)).

Definition core_create_cq (cqe : Z) : MC (option ibv_cq) :=
  r ← ctx_create_cq;
  mret (match r with Ok handle => Some (mk_cq handle cqe) | Err _ => None end).

Definition core_destroy_cq (cq : option ibv_cq) : MC Z :=
  deref_or_ret cq EINVAL (fun cq => r ← ctx_destroy_cq (cq_handle cq); mret (status r)).

Definition core_create_qp (fuel : nat) (key : Z) (pd : option ibv_pd) (init_attr : option ibv_qp_init_attr) :
    MC (option ibv_qp) :=
  deref_or_ret pd None (fun pd =>
  deref_or_ret init_attr None (fun init_attr =>
    r ← ctx_create_qp fuel key (IbvQpInitAttr_new init_attr);
    mret (match r with Ok qpn => Some (mk_qp pd qpn IBV_QPS_INIT (init_qp_type init_attr)) | Err _ => None end))).

Definition core_destroy_qp (qp : option ibv_qp) : MC Z :=
  deref_or_ret qp EINVAL (fun qp => r ← ctx_destroy_qp (qp_num qp); mret (status r)).

Definition core_modify_qp (fuel : nat) (qp : option ibv_qp) (attr : option ibv_qp_attr) (attr_mask : Z) : MC Z :=
  deref_or_ret qp EINVAL (fun qp =>
  deref_or_ret attr EINVAL (fun attr =>
    r ← ctx_update_qp fuel (qp_num qp) (IbvQpAttr_new attr (wrap 32 attr_mask));
    mret (status r))).

Definition core_query_qp (qp : option ibv_qp) : MC Z := deref_or_ret qp EINVAL (fun _ => mret 0).

Definition core_reg_mr (fuel : nat) (key : Z) (pd : option ibv_pd) (addr length access : Z) : MC (option ibv_mr) :=
  deref_or_ret pd None (fun pd =>
    r ← reg_mr fuel key addr length (pd_handle pd) (wrap 8 access);
    mret (match r with Ok mr_key => Some (mk_mr (Some pd) addr length mr_key mr_key mr_key) | Err _ => None end)).

Definition core_dereg_mr (mr : option ibv_mr) : MC Z :=
  deref_or_ret mr EINVAL (fun mr =>
  deref_or_ret (mr_pd mr) EINVAL (fun _ => r ← dereg_mr (mr_handle mr); mret (status r))).

(** The second component is what [bad_wr] is set to, if it is. *)
Definition core_post_send (qp : option ibv_qp) (wr : list ibv_send_wr) : MC (Z * option (list ibv_send_wr)) :=
  deref_or_ret qp (EINVAL, None) (fun qp =>
  deref_or_ret (head wr) (EINVAL, None) (fun first =>
    send_wr ← SendWr_new first;
    match send_wr with
    | Err _ => mret (EINVAL, Some wr)
    | Ok send_wr => r ← post_send (qp_num qp) send_wr; mret (status r, None)
    end)).

Definition core_post_recv (qp : option ibv_qp) (wr : list ibv_recv_wr) : MC (Z * option (list ibv_recv_wr)) :=
  deref_or_ret qp (EINVAL, None) (fun qp =>
  deref_or_ret (head wr) (EINVAL, None) (fun first =>
    recv_wr ← RecvWr_new first;
    match recv_wr with
    | None => mret (EINVAL, Some wr)
    | Some recv_wr => r ← post_recv (qp_num qp) recv_wr; mret (status r, None)
    end)).

Definition fill_wc (c : Completion) (wc : ibv_wc) : ibv_wc :=
  let wc :=
    match c with
    | ComplSend wr_id | ComplRdmaWrite wr_id | ComplRdmaRead wr_id =>
        mk_wc wr_id (wc_status wc) (wc_opcode wc) (wc_imm_data wc) (wc_rest wc)
    | ComplRecv wr_id imm =>
        mk_wc wr_id (wc_status wc) (wc_opcode wc) (default (wc_imm_data wc) imm) (wc_rest wc)
    | ComplRecvRdmaWithImm imm => mk_wc (wc_wr_id wc) (wc_status wc) (wc_opcode wc) imm (wc_rest wc)
    end in
  mk_wc (wc_wr_id wc) IBV_WC_SUCCESS (completion_opcode c) (wc_imm_data wc) (wc_rest wc).

(** The loop over the completions; [wc] is the caller's array from the current entry on. *)
Fixpoint fill_wcs {S} (completions : list Completion) (wc : list ibv_wc) : M S (list ibv_wc) :=
  match completions, wc with
  | [], _ => mret wc
  | c :: cs, w :: ws => ws' ← fill_wcs cs ws; mret (fill_wc c w :: ws')
  | _ :: _, [] => fail OutOfBounds
  end.

(** [num_entries as usize] sign-extends. *)
Definition core_poll_cq (cq : option ibv_cq) (num_entries : Z) (wc : list ibv_wc) : MC (Z * list ibv_wc) :=
  deref_or_ret cq (0, wc) (fun cq =>
    completions ← poll_cq (cq_handle cq) (wrap 64 num_entries);
    let num := to_signed 32 (wrap 32 (Z.of_nat (length completions))) in
    wc ← fill_wcs completions wc;
    mret (num, wc)).

End code.

(** ** Lemmas *)

Section lemmas.
Context `{Profile} `{PageFeature} `{HostPages} `{Mlock} `{Tcp} `{Bilge}.
Context {V : Type} `{BitVec V} {Dev : Type} `{CmdDevice Dev}.
Implicit Types a : actor (HwDeviceCtx V Dev).

Lemma fill_wcs_run {St} cs : forall wc (s : St),
  fill_wcs cs wc s =
    if decide (length cs <= length wc)%nat then Done (zip_with fill_wc cs wc ++ drop (length cs) wc) s else Fault OutOfBounds.
Proof.
  induction cs as [|c cs IH]; intros wc s.
  { cbn. by rewrite drop_0. }
  destruct wc as [|w wc]; [done|]. cbn [fill_wcs]. unfold mbind, M_bind. rewrite IH. cbn [length].
  destruct (decide (length cs <= length wc)%nat); destruct (decide (S (length cs) <= S (length wc))%nat); try lia; done.
Qed.

(** Only the first request of a chain is looked at: the others are neither posted nor
    reported. *)
Lemma rest_of_chain_ignored (qp : option ibv_qp) (wr : ibv_send_wr) rest a :
  match core_post_send qp (wr :: rest) a, core_post_send qp [wr] a with
  | Done (e, _) s, Done (e', _) s' => e = e' /\ s = s'
  | Fault f, Fault f' => f = f'
  | _, _ => False
  end.
Proof.
  unfold core_post_send, deref_or_ret, mbind, M_bind. destruct qp as [qp|]; [|done]. cbn [head].
  destruct (SendWr_new wr a) as [[send_wr|e] s|f]; [|done|done]. by destruct (post_send (qp_num qp) send_wr s).
Qed.

(** The number of completions a poll takes: a negative count takes them all. *)
Definition taken (num_entries : Z) (queued : nat) : nat :=
  if num_entries <? 0 then queued else Nat.min (Z.to_nat num_entries) queued.

Lemma take_taken {A} n (l : list A) :
  - 2 ^ 31 <= n < 2 ^ 31 -> Z.of_nat (length l) < 2 ^ 31 ->
  take (Z.to_nat (wrap 64 n)) l = take (taken n (length l)) l /\ drop (Z.to_nat (wrap 64 n)) l = drop (taken n (length l)) l.
Proof.
  intros Hn Hl. unfold taken, wrap. destruct (Z.ltb_spec n 0).
  - rewrite <- (Z.mod_unique n (2 ^ 64) (-1) (n + 2 ^ 64)) by lia. rewrite !take_ge, !drop_ge by lia. done.
  - rewrite Z.mod_small by lia. destruct (decide (Z.to_nat n <= length l)%nat).
    + by rewrite Nat.min_l.
    + rewrite Nat.min_r by lia. rewrite !take_ge, !drop_ge by lia. done.
Qed.

End lemmas.

(** ** Properties *)

(** Polling hands out completions.  It takes the oldest completions of the queue, as
    many as asked for, leaves the others, and fills one entry of the caller's array for
    each, in order, with its identifier, opcode, success and immediate data.  A negative
    count takes all of them; when they do not fit the array, the driver writes past its
    end. *)
Theorem poll_cq_reports_completions `{Profile} `{PageFeature} `{HostPages} `{Mlock} `{Tcp} `{Bilge}
    {V} `{BitVec V} {Dev} `{CmdDevice Dev} (c : HwDeviceCtx V Dev) es cq queue n wc :
  cx_cq_table c !! Z.to_nat (cq_handle cq) = Some queue -> - 2 ^ 31 <= n < 2 ^ 31 -> Z.of_nat (length queue) < 2 ^ 31 ->
  let k := taken n (length queue) in
  core_poll_cq (Some cq) n wc (mk_actor c es) =
    if decide (k <= length wc)%nat
    then Done (Z.of_nat k, zip_with fill_wc (take k queue) wc ++ drop k wc)
           (mk_actor (set_cq_table (<[Z.to_nat (cq_handle cq) := drop k queue]> (cx_cq_table c)) c) es)
    else Fault OutOfBounds.
Proof.
  intros Hq Hn Hl k. destruct (take_taken n queue Hn Hl) as [Ht Hd]. fold k in Ht, Hd.
  assert (Hk : (k <= length queue)%nat) by (unfold k, taken; case_match; lia).
  unfold core_poll_cq, deref_or_ret, poll_cq, get_self, gets, modify_self, modify, mbind, M_bind. cbn [self sent].
  rewrite Hq, Ht, Hd. unfold mret, M_ret. rewrite fill_wcs_run, length_take_le by done.
  destruct (decide _); [|done]. do 2 f_equal. unfold to_signed, wrap. rewrite (Z.mod_small _ (2 ^ 32)), (Z.mod_small _ (2 ^ 32)) by (rewrite ?Z.mod_small; lia).
  by rewrite (proj2 (Z.ltb_lt _ _)) by lia.
Qed.

Section sample.
#[local] Existing Instance dev_profile.
#[local] Instance pages_4k : PageFeature := Build_PageFeature false.
#[local] Existing Instance one_page_host.
#[local] Instance lock_any : Mlock := fun _ _ => true.
#[local] Instance any_network : Tcp := {| tcp_bind _ _ := true; tcp_connect _ _ := true; tcp_write _ _ _ := true |}.

Definition blank_wc : ibv_wc := mk_wc 0 0 0 0 0.

Lemma poll_cq_reports_completions_witness :
  exists a, core_poll_cq (Some (mk_cq 0 16)) 1 [blank_wc; blank_wc]
    (mk_actor (set_cq_table [[ComplSend 7; ComplRecv 8 (Some 9)]] sample_ctx) []) = Done (1, [mk_wc 7 0 0 0 0; blank_wc]) a /\
  core_poll_cq (Some (mk_cq 0 16)) (-1) [blank_wc]
    (mk_actor (set_cq_table [[ComplSend 7; ComplRecv 8 (Some 9)]] sample_ctx) []) = Fault OutOfBounds.
Proof.
  eexists. split.
  - rewrite (poll_cq_reports_completions (set_cq_table [[ComplSend 7; ComplRecv 8 (Some 9)]] sample_ctx) [] (mk_cq 0 16)
      [ComplSend 7; ComplRecv 8 (Some 9)] 1 [blank_wc; blank_wc] eq_refl ltac:(lia) ltac:(cbn; lia)). reflexivity.
  - rewrite (poll_cq_reports_completions (set_cq_table [[ComplSend 7; ComplRecv 8 (Some 9)]] sample_ctx) [] (mk_cq 0 16)
      [ComplSend 7; ComplRecv 8 (Some 9)] (-1) [blank_wc] eq_refl ltac:(lia) ltac:(cbn; lia)). reflexivity.
Defined.

End sample.
