(* ===== verification/SimpleNic.v ===== *)
(** * The simple network interface

    rust-driver/src/net/simple_nic/worker.rs, types.rs and mod.rs,
    descriptors/simple_nic.rs and [MmapMut] of mem/page/mod.rs: raw frames leave through
    a ring of descriptors and a DMA buffer of slots of 128 bytes, used round robin, and
    arrive in the slots of another buffer.  [FrameTx] is the interface the sender of
    acknowledgements uses. *)

From Stdlib Require Import ZArith Lia.
From stdpp Require Import base list numbers.
From S2P Require Import Prelude RustBase WorkReq RingBuf Descriptors SendQueue CmdQueue.

#[local] Open Scope Z_scope.
#[local] Open Scope cint_scope.

(** [trait FrameTx]; [false] is an error. *)
Class FrameTx (T : Type) : Type := frame_send : list Z -> M T bool.

Section code.
Context `{Bilge} `{SendRing}.

(** ** descriptors/simple_nic.rs *)

Definition new_simple_nic_desc : Z := new_with_op_code 0.

Definition SimpleNicTxQueueDescChunk0 : list Z := [64].
Definition SimpleNicTxQueueDescChunk1 : list Z := [64].
Definition SimpleNicTxQueueDescChunk2 : list Z := [64].
Definition SimpleNicTxQueueDescChunk3 : list Z := [32; 16; 16].

Definition SimpleNicTxQueueDesc_new (addr len : Z) : desc :=
  let common_header := new_simple_nic_desc in
  let c3 := bits_new SimpleNicTxQueueDescChunk3 [len; 0; common_header] in
  let c2 := bits_new SimpleNicTxQueueDescChunk2 [addr] in
  let c1 := bits_new SimpleNicTxQueueDescChunk1 [0] in
  let c0 := bits_new SimpleNicTxQueueDescChunk0 [0] in
  mk_desc c0 c1 c2 c3.

Definition tx_addr_of (d : desc) : Z := bits_get SimpleNicTxQueueDescChunk2 0 (d_c2 d).
Definition tx_len_of (d : desc) : Z := bits_get SimpleNicTxQueueDescChunk3 0 (d_c3 d).

Definition SimpleNicRxQueueDescChunk2 : list Z := [32; 32].
Definition SimpleNicRxQueueDescChunk3 : list Z := [32; 16; 16].

Definition rx_slot_idx (d : desc) : Z := bits_get SimpleNicRxQueueDescChunk2 1 (d_c2 d).
Definition rx_len (d : desc) : Z := bits_get SimpleNicRxQueueDescChunk3 0 (d_c3 d).

(** ** mem/page/mod.rs: [MmapMut], as the list of its bytes *)

Definition mmap_copy_from (offset : Z) (src : list Z) : M (list Z) unit :=
  mem ← get;
  if offset + Z.of_nat (length src) <=? Z.of_nat (length mem)
  then modify (fun mem => copy_from_slice mem (Z.to_nat offset) src)
  else panic.

Definition mmap_get (offset len : Z) : M (list Z) (list Z) :=
  mem ← get;
  if offset + len <=? Z.of_nat (length mem)
  then mret (take (Z.to_nat len) (drop (Z.to_nat offset) mem))
  else panic.

(** ** worker.rs: sending *)

Definition FRAME_SLOT_SIZE : Z := 128.

(** [ftq_head_reg] and [ftq_reads] are the head register of the device and how often its
    tail was read. *)
Record FrameTxQueue : Type := mk_ftq {
  ftq_inner : DmaRingBuf desc_bytes;
  ftq_head_reg : option Z;
  ftq_reads : nat;
  ftq_buf : list Z;
  ftq_buf_base_phys_addr : Z;
  ftq_buf_head : Z }.

Definition FrameTxQueue_new (inner : DmaRingBuf desc_bytes) (buf : list Z) (buf_base_phys_addr : Z) : FrameTxQueue :=
  mk_ftq inner None 0 buf buf_base_phys_addr 0.

Definition on_inner {A} : M (DmaRingBuf desc_bytes) A -> M FrameTxQueue A :=
  zoom ftq_inner (fun q s => mk_ftq q (ftq_head_reg s) (ftq_reads s) (ftq_buf s) (ftq_buf_base_phys_addr s) (ftq_buf_head s)).

Definition on_buf {A} : M (list Z) A -> M FrameTxQueue A :=
  zoom ftq_buf (fun b s => mk_ftq (ftq_inner s) (ftq_head_reg s) (ftq_reads s) b (ftq_buf_base_phys_addr s) (ftq_buf_head s)).

Definition write_next (data : list Z) : M FrameTxQueue (option Z) :=
  if FRAME_SLOT_SIZE <? Z.of_nat (length data) then mret None
  else
    s ← get;
    let phys_addr := ftq_buf_base_phys_addr s +{64} ftq_buf_head s in
    on_buf (mmap_copy_from (ftq_buf_head s) data);;
    let len := Z.of_nat (length (ftq_buf s)) in
    if len =? 0 then mret None
    else
      modify (fun s => mk_ftq (ftq_inner s) (ftq_head_reg s) (ftq_reads s) (ftq_buf s) (ftq_buf_base_phys_addr s)
                         ((ftq_buf_head s +{64} FRAME_SLOT_SIZE) mod len));;
      mret (Some phys_addr).

Definition build_desc (buf : list Z) : M FrameTxQueue (option desc) :=
  o ← write_next buf;
  match o with
  | None => mret None
  | Some addr =>
      if Z.of_nat (length buf) <? 2 ^ 32
      then mret (Some (SimpleNicTxQueueDesc_new addr (Z.of_nat (length buf))))
      else mret None
  end.

(** [while !self.inner.push(desc)] spins on the ring as the driver last saw it. *)
Fixpoint push_spin (fuel : nat) (d : desc) : M FrameTxQueue unit :=
  match fuel with
  | O => fail FuelOut
  | S fuel' =>
      b ← on_inner (desc_push d);
      if (b : bool) then mret tt else push_spin fuel' d
  end.

Definition nic_send (fuel : nat) (buf : list Z) : M FrameTxQueue bool :=
  o ← build_desc buf;
  match o with
  | None => panic
  | Some desc =>
      push_spin fuel desc;;
      s ← get;
      let head := wrap 32 (rb_head (ftq_inner s)) in
      when (write_head head)
        (modify (fun s => mk_ftq (ftq_inner s) (Some head) (ftq_reads s) (ftq_buf s) (ftq_buf_base_phys_addr s) (ftq_buf_head s)));;
      match read_tail (ftq_reads s) (ftq_inner s) with
      | None => mret true
      | Some tail_ptr =>
          on_inner (modify (set_tail tail_ptr));;
          modify (fun s => mk_ftq (ftq_inner s) (ftq_head_reg s) (S (ftq_reads s)) (ftq_buf s) (ftq_buf_base_phys_addr s) (ftq_buf_head s));;
          mret true
      end
  end.

(** ** worker.rs: receiving *)

Record FrameRxQueue : Type := mk_frq { frq_queue : DmaRingBuf desc_bytes; frq_buf : list Z }.

(** [None] is [ErrorKind::WouldBlock]. *)
Definition recv_nonblocking : M FrameRxQueue (option (list Z)) :=
  o ← zoom frq_queue (fun q s => mk_frq q (frq_buf s)) (desc_pop (A := desc));
  match o with
  | None => mret None
  | Some d =>
      let pos := rx_slot_idx d * FRAME_SLOT_SIZE in
      frame ← zoom frq_buf (fun b s => mk_frq (frq_queue s) b) (mmap_get pos (rx_len d));
      mret (Some frame)
  end.

End code.

(** The interface, implemented by the ring of the device. *)
Definition frame_tx_queue `{Bilge} `{SendRing} (fuel : nat) : FrameTx FrameTxQueue := nic_send fuel.

(** ** Lemmas: the DMA buffer *)

Lemma lookup_copy_from_slice mem a src i :
  (a + length src <= length mem)%nat ->
  copy_from_slice mem a src !! i =
    if bool_decide (a <= i < a + length src)%nat then src !! (i - a)%nat else mem !! i.
Proof.
  intros Hl. unfold copy_from_slice. case_bool_decide as Hi.
  - rewrite lookup_app_r; rewrite length_take_le by lia; [|lia]. apply lookup_app_l. lia.
  - destruct (decide (i < a)%nat).
    + rewrite lookup_app_l by (rewrite length_take_le; lia). apply lookup_take_lt. lia.
    + rewrite lookup_app_r; rewrite length_take_le by lia; [|lia]. rewrite lookup_app_r by lia.
      rewrite lookup_drop. f_equal. lia.
Qed.

Lemma length_copy_from_slice mem a src :
  (a + length src <= length mem)%nat -> length (copy_from_slice mem a src) = length mem.
Proof. intros Hl. unfold copy_from_slice. rewrite !length_app, length_take_le, length_drop by lia. lia. Qed.

Definition bytes_at (mem : list Z) (a len : nat) : list Z := take len (drop a mem).

Lemma bytes_at_copied mem a src :
  (a + length src <= length mem)%nat -> bytes_at (copy_from_slice mem a src) a (length src) = src.
Proof.
  intros Hl. unfold bytes_at, copy_from_slice.
  rewrite drop_app_length' by (rewrite length_take_le; lia). by rewrite take_app_length.
Qed.

Lemma bytes_at_elsewhere mem a src b len :
  (a + length src <= length mem)%nat -> (b + len <= a \/ a + length src <= b)%nat ->
  bytes_at (copy_from_slice mem a src) b len = bytes_at mem b len.
Proof.
  intros Hl Hd. apply list_eq. intros i. unfold bytes_at. destruct (decide (i < len)%nat).
  - rewrite !lookup_take_lt, !lookup_drop by done. rewrite lookup_copy_from_slice by done.
    by rewrite bool_decide_eq_false_2 by lia.
  - by rewrite !lookup_take_ge by lia.
Qed.

(** The slot of a frame is used again [n] frames later. *)
Lemma slot_reused n k h : (k < h)%nat -> (h < k + n)%nat -> (k mod n <> h mod n)%nat.
Proof.
  intros Hk Hh E. pose proof (Nat.div_mod_eq k n). pose proof (Nat.div_mod_eq h n).
  assert (k / n < h / n \/ h / n <= k / n)%nat as [Hd|Hd] by lia; nia.
Qed.

Section transmit.
Context `{BilgeLaws} `{SendRingLaws}.
Implicit Types (s : FrameTxQueue) (hist : list (list Z)) (q : list desc_bytes).

(** The descriptor of the [k]-th frame, in a buffer of [n] slots. *)
Definition frame_desc s (n k : nat) (f : list Z) : desc_bytes :=
  serialize (SimpleNicTxQueueDesc_new (ftq_buf_base_phys_addr s + 128 * Z.of_nat (k mod n)) (Z.of_nat (length f))).

(** The frames [hist] have been sent so far; the device has yet to read the descriptors
    [q], those of the last of them.  The buffer has the last [n] frames. *)
Record nic_inv (n : nat) s hist q : Prop := {
  ni_ring : holds (ftq_inner s) q;
  ni_slots : (0 < n)%nat;
  ni_buf : length (ftq_buf s) = (128 * n)%nat;
  ni_size : 128 * Z.of_nat n < 2 ^ 32;
  ni_base : 0 <= ftq_buf_base_phys_addr s /\ ftq_buf_base_phys_addr s + 128 * Z.of_nat n < 2 ^ 64;
  ni_head : ftq_buf_head s = 128 * Z.of_nat (length hist mod n);
  ni_count : (length q <= length hist)%nat;
  ni_desc : forall i d, q !! i = Some d -> exists f,
    hist !! (length hist - length q + i)%nat = Some f /\ d = frame_desc s n (length hist - length q + i) f;
  ni_fits : Forall (fun f => (length f <= 128)%nat) hist;
  ni_data : forall k f, hist !! k = Some f -> (length hist <= k + n)%nat ->
    bytes_at (ftq_buf s) (128 * (k mod n)) (length f) = f }.

Lemma write_next_run n s hist q f :
  nic_inv n s hist q -> (length f <= 128)%nat ->
  write_next f s = Done (Some (ftq_buf_base_phys_addr s + 128 * Z.of_nat (length hist mod n)))
    (mk_ftq (ftq_inner s) (ftq_head_reg s) (ftq_reads s) (copy_from_slice (ftq_buf s) (128 * (length hist mod n)) f)
       (ftq_buf_base_phys_addr s) (128 * Z.of_nat (S (length hist) mod n))).
Proof.
  intros [_ Hn Hb Hsz Hbase Hh _ _ _ _] Hf. pose proof (Nat.mod_upper_bound (length hist) n ltac:(lia)) as Hm.
  unfold write_next. rewrite (proj2 (Z.ltb_ge _ _)) by (unfold FRAME_SLOT_SIZE; lia).
  unfold on_buf, zoom, mmap_copy_from, get, modify, mbind, M_bind. rewrite Hh, Hb.
  rewrite (proj2 (Z.leb_le _ _)) by lia. rewrite (proj2 (Z.eqb_neq _ _)) by lia. unfold mret, M_ret.
  cbn [ftq_inner ftq_head_reg ftq_reads ftq_buf ftq_buf_base_phys_addr ftq_buf_head].
  replace (Z.to_nat (128 * Z.of_nat (length hist mod n))) with (128 * (length hist mod n))%nat by lia.
  f_equal; [f_equal; unfold wrap; apply Z.mod_small; lia|]. f_equal.
  unfold wrap, FRAME_SLOT_SIZE. rewrite (Z.mod_small _ (2 ^ 64)) by lia.
  replace (128 * Z.of_nat (length hist mod n) + 128) with (128 * (Z.of_nat (length hist mod n) + 1)) by lia.
  replace (Z.of_nat (128 * n)) with (128 * Z.of_nat n) by lia. rewrite Zmult_mod_distr_l. f_equal.
  rewrite !Nat2Z.inj_mod, Zplus_mod_idemp_l. f_equal. lia.
Qed.

Lemma build_desc_run n s hist q f :
  nic_inv n s hist q -> (length f <= 128)%nat -> exists d,
  build_desc f s = Done (Some d)
    (mk_ftq (ftq_inner s) (ftq_head_reg s) (ftq_reads s) (copy_from_slice (ftq_buf s) (128 * (length hist mod n)) f)
       (ftq_buf_base_phys_addr s) (128 * Z.of_nat (S (length hist) mod n))) /\
  serialize d = frame_desc s n (length hist) f.
Proof.
  intros Hs Hf. eexists. split; [|reflexivity]. unfold build_desc, mbind, M_bind. rewrite (write_next_run _ _ _ _ _ Hs Hf).
  by rewrite (proj2 (Z.ltb_lt _ _)) by lia.
Qed.

(** A full ring, as the driver last saw it, is never looked at again. *)
Lemma push_spin_full fuel d : forall s q,
  holds (ftq_inner s) q -> length q = Z.to_nat 4096 -> push_spin fuel d s = Fault FuelOut.
Proof.
  induction fuel as [|fuel IH]; intros s q Hq Hl; [done|]. cbn [push_spin]. unfold on_inner, zoom, desc_push, mbind, M_bind.
  pose proof (rb_push_run (ftq_inner s) q (serialize d) Hq) as Hp. rewrite bool_decide_eq_true_2 in Hp by done.
  rewrite Hp. eapply IH; [|exact Hl]. exact Hq.
Qed.

Lemma push_spin_run fuel d s q :
  holds (ftq_inner s) q -> (length q < Z.to_nat 4096)%nat ->
  exists r', push_spin (S fuel) d s =
    Done tt (mk_ftq r' (ftq_head_reg s) (ftq_reads s) (ftq_buf s) (ftq_buf_base_phys_addr s) (ftq_buf_head s)) /\
    holds r' (q ++ [serialize d]).
Proof.
  intros Hq Hl. pose proof (rb_push_run (ftq_inner s) q (serialize d) Hq) as Hp.
  rewrite bool_decide_eq_false_2 in Hp by lia. destruct Hp as (r' & Er & Hr). exists r'. split; [|done].
  cbn [push_spin]. unfold on_inner, zoom, desc_push, mbind, M_bind. by rewrite Er.
Qed.

(** Dropping what the device has read. *)
Lemma nic_inv_drop n s hist q k r' reg reads :
  nic_inv n s hist q -> (k <= length q)%nat -> holds r' (drop k q) ->
  nic_inv n (mk_ftq r' reg reads (ftq_buf s) (ftq_buf_base_phys_addr s) (ftq_buf_head s)) hist (drop k q).
Proof.
  intros [Hr Hn Hb Hsz Hbase Hh Hc Hd Hf Hdata] Hk Hr'. split; try done.
  - rewrite length_drop. lia.
  - intros i d Hi. rewrite lookup_drop in Hi. apply Hd in Hi as (f & Hf' & ->). rewrite length_drop.
    replace (length hist - (length q - k) + i)%nat with (length hist - length q + (k + i))%nat by lia. by exists f.
Qed.

(** The frame is in its slot and its descriptor in the ring. *)
Lemma nic_inv_snoc n s hist q f r' :
  nic_inv n s hist q -> (length f <= 128)%nat -> holds r' (q ++ [frame_desc s n (length hist) f]) ->
  nic_inv n (mk_ftq r' (ftq_head_reg s) (ftq_reads s) (copy_from_slice (ftq_buf s) (128 * (length hist mod n)) f)
    (ftq_buf_base_phys_addr s) (128 * Z.of_nat (S (length hist) mod n)))
    (hist ++ [f]) (q ++ [frame_desc s n (length hist) f]).
Proof.
  intros [Hr Hn Hb Hsz Hbase Hh Hc Hd Hfit Hdata] Hf Hr'. pose proof (Nat.mod_upper_bound (length hist) n ltac:(lia)) as Hm.
  split; cbn [ftq_inner ftq_buf ftq_buf_base_phys_addr ftq_buf_head]; rewrite ?length_app; cbn [length]; try done.
  - rewrite length_copy_from_slice; lia.
  - by rewrite Nat.add_1_r.
  - lia.
  - intros i d Hi. replace (length hist + 1 - (length q + 1) + i)%nat with (length hist - length q + i)%nat by lia.
    apply lookup_app_Some in Hi as [Hi|[Hle Hi]].
    + apply Hd in Hi as (f' & Hf' & ->). exists f'. split; [by apply lookup_app_l_Some|done].
    + apply list_lookup_singleton_Some in Hi as [Hi <-]. replace (length hist - length q + i)%nat with (length hist) by lia.
      exists f. split; [|done]. by rewrite lookup_app_r, Nat.sub_diag by lia.
  - apply Forall_app_2; [done|by apply Forall_singleton].
  - intros k f' Hk Hkn. apply lookup_app_Some in Hk as [Hk|[Hle Hk]].
    + pose proof (lookup_lt_Some _ _ _ Hk) as Hlt. rewrite bytes_at_elsewhere; [apply Hdata; [done|lia]|lia|].
      pose proof (slot_reused n k (length hist) Hlt ltac:(lia)). assert ((length f' <= 128)%nat).
      { exact (Forall_lookup_1 _ _ _ _ Hfit Hk). }
      lia.
    + apply list_lookup_singleton_Some in Hk as [Hk <-]. assert (k = length hist) as -> by lia. apply bytes_at_copied. lia.
Qed.

Lemma nic_send_run n s hist q f fuel :
  nic_inv n s hist q -> (length f <= 128)%nat -> (length q < Z.to_nat 4096)%nat ->
  exists s' r' k, nic_send (S fuel) f s = Done true s' /\ (k <= S (length q))%nat /\
    holds r' (q ++ [frame_desc s n (length hist) f]) /\
    read_tail (ftq_reads s) r' = Some ((rb_tail r' + Z.of_nat k) mod 8192) /\
    nic_inv n s' (hist ++ [f]) (drop k (q ++ [frame_desc s n (length hist) f])) /\
    ftq_head_reg s' = Some (rb_head (ftq_inner s')).
Proof.
  intros Hs Hf Hl. destruct (build_desc_run n s hist q f Hs Hf) as (d & Ed & Hd). unfold nic_send, mbind at 1, M_bind at 1.
  rewrite Ed. match goal with |- context [mbind _ _ ?x] => set (s1 := x) end.
  destruct (push_spin_run fuel d s1 q) as (r' & Er & Hr'); [exact (ni_ring _ _ _ _ Hs)|done|].
  unfold mbind at 1, M_bind at 1. rewrite Er. unfold get, mbind, M_bind. cbn [ftq_inner ftq_reads s1].
  rewrite write_head_ok. destruct (read_tail_in_ring (ftq_reads s) r') as (k & Hk & Ek). rewrite Ek.
  unfold when, modify, on_inner, zoom. cbn. rewrite Hd in Hr'.
  pose proof (rb_len_holds _ _ Hr') as Hlen. rewrite Hlen, length_app in Hk. cbn in Hk.
  eexists _, r', (Z.to_nat k). split; [reflexivity|]. rewrite Z2Nat.id by lia. split_and!; [lia|done|done| |cbn; f_equal].
  - pose proof (nic_inv_snoc n s hist q f r' Hs Hf Hr') as Hi.
    apply (nic_inv_drop _ _ _ _ (Z.to_nat k) (set_tail ((rb_tail r' + k) mod 8192) r') (Some (wrap 32 (rb_head r'))) (S (ftq_reads s))) in Hi;
      [done|rewrite length_app; cbn; lia|].
    pose proof (set_tail_holds _ _ (Z.to_nat k) Hr') as Ht. rewrite Z2Nat.id in Ht by lia. apply Ht. rewrite length_app. cbn. lia.
  - rewrite (h_head _ _ Hr'). unfold wrap. apply Z.mod_small. pose proof (Z.mod_pos_bound (rb_tail r' + Z.of_nat (length (q ++ [frame_desc s n (length hist) f]))) 8192). lia.
Qed.

(** What the device reads through a descriptor. *)
Definition device_frame s (b : desc_bytes) : list Z :=
  let d := deserialize b in
  bytes_at (ftq_buf s) (Z.to_nat (tx_addr_of d - ftq_buf_base_phys_addr s)) (Z.to_nat (tx_len_of d)).

Lemma device_frame_desc n s hist q k f :
  nic_inv n s hist q -> (length f <= 128)%nat ->
  is_valid (frame_desc s n k f) = true /\
  device_frame s (frame_desc s n k f) = bytes_at (ftq_buf s) (128 * (k mod n)) (length f).
Proof.
  intros Hs Hf. pose proof (ni_base _ _ _ _ Hs) as Hb. pose proof (ni_slots _ _ _ _ Hs) as Hn.
  pose proof (Nat.mod_upper_bound k n ltac:(lia)) as Hm.
  unfold device_frame, frame_desc, SimpleNicTxQueueDesc_new, new_simple_nic_desc.
  rewrite new_with_op_code_eq by (unfold in_width; lia). split.
  - rewrite !bits_new_pack by fields. unfold SimpleNicTxQueueDescChunk3.
    change (pack [32; 16; 16] ?l) with (pack ([32; 16] ++ [16]) ([Z.of_nat (length f); 0] ++ [head_of 0 false true])).
    rewrite header_chunk by (try reflexivity; fields).
    apply ring_bits; [|unfold in_width; lia]. apply (pack_in_width [32; 16]). fields.
  - rewrite desc_roundtrip by
      (unfold desc_ok; cbn [d_c0 d_c1 d_c2 d_c3]; split_and!; apply new_width; first [reflexivity|fields]).
    unfold tx_addr_of, tx_len_of. cbn [d_c2 d_c3]. read_fields. f_equal; lia.
Qed.

Lemma waiting_valid n s hist q : nic_inv n s hist q -> Forall (fun d => is_valid d = true) q.
Proof.
  intros Hs. apply Forall_lookup_2. intros i d Hd. destruct (ni_desc _ _ _ _ Hs i d Hd) as (f & Hf & ->).
  eapply device_frame_desc; [exact Hs|]. exact (Forall_lookup_1 _ _ _ _ (ni_fits _ _ _ _ Hs) Hf).
Qed.

(** The last [n] frames are in the buffer. *)
Lemma device_frame_intact n s hist q i d :
  nic_inv n s hist q -> q !! i = Some d -> (length q <= i + n)%nat ->
  hist !! (length hist - length q + i)%nat = Some (device_frame s d).
Proof.
  intros Hs Hd Hi. destruct (ni_desc _ _ _ _ Hs i d Hd) as (f & Hf & ->). pose proof (ni_count _ _ _ _ Hs) as Hc.
  assert (Hl : (length f <= 128)%nat) by exact (Forall_lookup_1 _ _ _ _ (ni_fits _ _ _ _ Hs) Hf).
  destruct (device_frame_desc n s hist q (length hist - length q + i) f Hs Hl) as [_ ->].
  rewrite (ni_data _ _ _ _ Hs _ f Hf); [done|]. apply lookup_lt_Some in Hd. lia.
Qed.

(** An older one has been replaced by the frame [n] places after it. *)
Lemma device_frame_replaced n s hist q i d d' :
  nic_inv n s hist q -> q !! i = Some d -> q !! (i + n)%nat = Some d' ->
  (forall f f', f ∈ hist -> f' ∈ hist -> length f = length f') -> device_frame s d = device_frame s d'.
Proof.
  intros Hs Hd Hd' Hall. pose proof (ni_slots _ _ _ _ Hs).
  destruct (ni_desc _ _ _ _ Hs i d Hd) as (f & Hf & ->). destruct (ni_desc _ _ _ _ Hs _ d' Hd') as (f' & Hf' & ->).
  assert (Hlf : (length f <= 128)%nat) by exact (Forall_lookup_1 _ _ _ _ (ni_fits _ _ _ _ Hs) Hf).
  assert (Hlf' : (length f' <= 128)%nat) by exact (Forall_lookup_1 _ _ _ _ (ni_fits _ _ _ _ Hs) Hf').
  rewrite (proj2 (device_frame_desc n s hist q _ f Hs Hlf)), (proj2 (device_frame_desc n s hist q _ f' Hs Hlf')).
  f_equal; [|apply Hall; by eapply list_elem_of_lookup_2].
  rewrite (Nat.add_assoc _ i n). replace (length hist - length q + i + n)%nat with (length hist - length q + i + 1 * n)%nat by lia.
  by rewrite Nat.Div0.mod_add.
Qed.

End transmit.

(** Receiving takes the frames of the device one by one; a slot past the buffer panics. *)
Lemma recv_nonblocking_run `{Bilge} s q :
  inbox is_valid (frq_queue s) q ->
  match q with
  | [] => recv_nonblocking s = Done None s
  | b :: q' => let d := deserialize b in let pos := rx_slot_idx d * 128 in
      if pos + rx_len d <=? Z.of_nat (length (frq_buf s))
      then exists r', recv_nonblocking s = Done (Some (bytes_at (frq_buf s) (Z.to_nat pos) (Z.to_nat (rx_len d)))) (mk_frq r' (frq_buf s)) /\
        inbox is_valid r' q'
      else recv_nonblocking s = Fault Panic
  end.
Proof.
  intros Hi. pose proof (rb_pop_run zero_desc is_valid eq_refl (frq_queue s) q Hi) as Hp.
  unfold recv_nonblocking, desc_pop, zoom, mbind, M_bind. destruct q as [|b q'].
  - rewrite Hp. by destruct s.
  - destruct Hp as (r' & -> & Hr). cbn [fmap option_fmap option_map mret M_ret]. unfold mmap_get, get, mbind, M_bind. cbn [frq_buf frq_queue].
    destruct (_ <=? _) eqn:E; [|done]. exists r'. by split.
Qed.

(** ** Properties *)

(** C21: frames leave in order and intact.  While fewer than 4096 frames wait, sending
    returns, puts the frame behind those that wait and tells the device how far the ring
    is filled; the device takes frames from the front.  As long as no more frames wait
    than the buffer has slots, what the device reads through the descriptors that wait
    are the frames sent last, byte for byte and in the order they were sent. *)
Theorem frames_reach_device `{BilgeLaws} `{SendRingLaws} n s hist q f fuel :
  nic_inv n s hist q -> (length f <= 128)%nat -> (length q < Z.to_nat 4096)%nat ->
  exists s' q', nic_send (S fuel) f s = Done true s' /\ nic_inv n s' (hist ++ [f]) q' /\
    q' `suffix_of` q ++ [frame_desc s n (length hist) f] /\
    ftq_head_reg s' = Some (rb_head (ftq_inner s')) /\ Forall (fun d => is_valid d = true) q' /\
    ((length q' <= n)%nat -> device_frame s' <$> q' = drop (length (hist ++ [f]) - length q') (hist ++ [f])).
Proof.
  intros Hs Hf Hl. destruct (nic_send_run n s hist q f fuel Hs Hf Hl) as (s' & r' & k & Er & Hk & _ & _ & Hs' & Hh).
  set (q' := drop k _) in *. exists s', q'. split_and!; try done.
  - exists (take k (q ++ [frame_desc s n (length hist) f])). symmetry. apply take_drop.
  - by eapply waiting_valid.
  - intros Hq. apply list_eq. intros i. rewrite list_lookup_fmap, lookup_drop.
    destruct (q' !! i) as [d|] eqn:Hd; cbn.
    + symmetry. eapply device_frame_intact; [exact Hs'|done|lia].
    + apply lookup_ge_None in Hd. symmetry. apply lookup_ge_None. pose proof (ni_count _ _ _ _ Hs'). lia.
Qed.

(** The queue of the device context: a ring and a buffer of 128 KiB each. *)
Definition fresh_nic : FrameTxQueue :=
  FrameTxQueue_new (mk_ring (replicate (Z.to_nat 4096) zero_desc) 0 0) (replicate (128 * 1024) 0) 0x10000.

Lemma fresh_nic_inv `{Bilge} : nic_inv 1024 fresh_nic [] [].
Proof.
  split.
  - split; [apply length_replicate|cbn [fresh_nic FrameTxQueue_new ftq_inner rb_tail]; lia|reflexivity|cbn [length]; lia|].
    intros i x Hi. discriminate Hi.
  - lia.
  - apply length_replicate.
  - lia.
  - cbn [fresh_nic FrameTxQueue_new ftq_buf_base_phys_addr]. lia.
  - reflexivity.
  - cbn [length]. lia.
  - intros i d Hi. discriminate Hi.
  - constructor.
  - intros k f Hk. discriminate Hk.
Qed.

Lemma frames_reach_device_witness :
  exists s' q', nic_send 1 (replicate 90 7) fresh_nic = Done true s' /\
    nic_inv 1024 s' [replicate 90 7] q' /\ ((length q' <= 1024)%nat -> device_frame s' <$> q' = drop (1 - length q') [replicate 90 7]).
Proof.
  destruct (frames_reach_device 1024 fresh_nic [] [] (replicate 90 7) 0 fresh_nic_inv) as (s' & q' & E & Hs & _ & _ & _ & Hq);
    [cbn; lia|cbn; lia|]. exists s', q'. split; [exact E|split; [exact Hs|exact Hq]].
Defined.

(** A slow device loses frames.  When the ring was full at the last look at the tail,
    sending never returns, whatever the device does meanwhile; and when more frames wait
    than the buffer has slots, the device reads in place of a waiting frame the one sent
    a whole buffer later. *)
Theorem slow_device_loses_frames `{BilgeLaws} `{SendRingLaws} n s hist q f :
  nic_inv n s hist q -> (length f <= 128)%nat ->
  (length q = Z.to_nat 4096 -> forall fuel, nic_send fuel f s = Fault FuelOut) /\
  ((forall f f', f ∈ hist -> f' ∈ hist -> length f = length f') ->
   forall i d d', q !! i = Some d -> q !! (i + n)%nat = Some d' -> device_frame s d = device_frame s d').
Proof.
  intros Hs Hf. split.
  - intros Hl fuel. destruct (build_desc_run n s hist q f Hs Hf) as (d & Ed & _). unfold nic_send, mbind at 1, M_bind at 1.
    rewrite Ed. unfold mbind at 1, M_bind at 1. erewrite push_spin_full; [done| |exact Hl]. exact (ni_ring _ _ _ _ Hs).
  - intros Hall i d d' Hd Hd'. by eapply device_frame_replaced.
Qed.

(** A device that takes nothing. *)
#[local] Instance idle_ring : SendRing := {| read_tail _ r := Some (rb_tail r mod 8192); write_head _ := true |}.

#[local] Instance idle_ring_laws : SendRingLaws.
Proof.
  split; [|done]. intros n r. exists 0. rewrite Z.add_0_r. split; [|done]. split; [lia|].
  unfold rb_len. rewrite land_wrap_mask. apply Z.mod_pos_bound. lia.
Qed.

Lemma idle_device_fills m : (m <= Z.to_nat 4096)%nat ->
  exists s hist q, nic_inv 1024 s hist q /\ length q = m /\ Forall (fun f => length f = 90%nat) hist.
Proof.
  induction m as [|m IH]; intros Hm; [exists fresh_nic, [], []; split_and!; [apply fresh_nic_inv|done|constructor]|].
  destruct IH as (s & hist & q & Hs & Hq & Hh); [lia|].
  destruct (nic_send_run (H1 := idle_ring) 1024 s hist q (replicate 90 7) 0 Hs) as (s' & r' & k & _ & Hk & Hr & Et & Hs' & _);
    [rewrite length_replicate; lia|lia|].
  assert (k = 0)%nat as ->.
  { cbn in Et. injection Et as Et. pose proof (h_tail _ _ Hr) as Ht. assert (Hk' : Z.of_nat k <= 4096) by lia.
    clear - Et Ht Hk'. Z.div_mod_to_equations. lia. }
  eexists s', _, _. split; [exact Hs'|]. split; [rewrite drop_0, length_app; cbn; lia|].
  apply Forall_app_2; [done|by apply Forall_singleton].
Qed.

Lemma slow_device_loses_frames_witness :
  exists s hist q d d', nic_inv 1024 s hist q /\ (forall fuel, nic_send fuel [7] s = Fault FuelOut) /\
    q !! 0%nat = Some d /\ q !! 1024%nat = Some d' /\ device_frame s d = device_frame s d'.
Proof.
  destruct (idle_device_fills (Z.to_nat 4096)) as (s & hist & q & Hs & Hq & Hh); [lia|].
  destruct (slow_device_loses_frames 1024 s hist q [7] Hs) as [Hstuck Hold]; [cbn; lia|].
  destruct (lookup_lt_is_Some_2 q 0) as [d Hd]; [lia|]. destruct (lookup_lt_is_Some_2 q 1024) as [d' Hd']; [lia|].
  exists s, hist, q, d, d'. split_and!; [exact Hs|exact (Hstuck Hq)|exact Hd|exact Hd'|].
  apply (Hold) with (i := 0%nat); [|exact Hd|exact Hd'].
  intros f f' Hf Hf'. rewrite list.Forall_forall in Hh. by rewrite (Hh f Hf), (Hh f' Hf').
Defined.
