(* ===== verification/AckResponder.v ===== *)
(** * Acknowledgement frames

    rust-driver/src/workers/ack_responder.rs: the worker that acknowledges a message, or
    asks for packets again, with a frame built by the driver: Ethernet, IPv4, UDP and
    the headers of the transport.  The package that writes the network headers is a
    parameter with the header formats as its laws; the frames leave through [FrameTx]. *)

From Stdlib Require Import ZArith Lia.
From stdpp Require Import base list numbers.
From S2P Require Import Prelude RustBase Psn WorkReq Qp RingBuf Descriptors SendQueue CmdQueue Tasks MetaHandler SimpleNic.

#[local] Open Scope Z_scope.
#[local] Open Scope cint_scope.

(** ** Network headers *)

Inductive Layer : Set := Eth | Ipv4 | Udp.

(** The fields of a header, the last one first. *)
Definition layout (l : Layer) : list Z :=
  match l with
  | Eth => [16; 48; 48]
  | Ipv4 => [32; 32; 16; 8; 8; 13; 3; 16; 16; 2; 6; 4; 4]
  | Udp => [16; 16; 16; 16]
  end.

Definition header_len (l : Layer) : nat := match l with Eth => 14 | Ipv4 => 20 | Udp => 8 end.

(** Mutable packets over a buffer: whether one fits, a field written or read by its index
    in [layout], and the payload of a datagram. *)
Class Pnet : Type := {
  pk_fits : Layer -> list Z -> bool;
  pk_set : Layer -> nat -> Z -> list Z -> list Z;
  pk_get : Layer -> nat -> list Z -> Z;
  udp_set_payload : list Z -> list Z -> list Z;
}.

Definition header (l : Layer) (b : list Z) : list Z := unpack (layout l) (from_be_bytes (take (header_len l) b)).

Class PnetLaws `{Pnet} : Prop := {
  pk_fits_header l b : (header_len l <= length b)%nat -> pk_fits l b = true;
  pk_set_field l i v b : (header_len l <= length b)%nat ->
    pk_set l i v b = to_be_bytes (header_len l) (pack (layout l) (<[i := v]> (header l b))) ++ drop (header_len l) b;
  pk_get_field l i b : (header_len l <= length b)%nat -> pk_get l i b = default 0 (header l b !! i);
  udp_payload p b : (8 + length p <= length b)%nat -> header Udp b !! 1%nat = Some (Z.of_nat (8 + length p)) ->
    udp_set_payload p b = take 8 b ++ p ++ drop (8 + length p) b;
}.

#[export] Instance plain_pnet : Pnet := {|
  pk_fits l b := (header_len l <=? length b)%nat;
  pk_set l i v b := to_be_bytes (header_len l) (pack (layout l) (<[i := v]> (header l b))) ++ drop (header_len l) b;
  pk_get l i b := default 0 (header l b !! i);
  udp_set_payload p b := take 8 b ++ p ++ drop (8 + length p) b;
|}.

#[export] Instance plain_pnet_laws : PnetLaws.
Proof. split; try done. intros l b Hl. by apply Nat.leb_le. Qed.

(** ** The code *)

Definition CARD_MAC_ADDRESS_OCTETS : list Z := [0xAA; 0xBB; 0xCC; 0xDD; 0xEE; 0x0A].

(** [AethSeg0] and [Bth], the first field lowest *)
Definition AethSeg0 : list Z := [24; 5; 1; 1; 1].
Definition Bth : list Z := [24; 7; 1; 24; 6; 1; 1; 16; 4; 2; 1; 1; 5; 3].

Definition resp_qpn (t : AckResponse) : Z := match t with RespAck qpn _ _ | RespNak qpn _ _ => qpn end.

Section code.
Context `{Bilge} `{Pnet}.

(** A packet over the buffer from [off] on. *)
Definition on_packet {S} (l : Layer) (off : nat) (sets : list Z -> list Z) (buffer : list Z) : M S (list Z) :=
  if pk_fits l (drop off buffer) then mret (take off buffer ++ sets (drop off buffer)) else panic.

Definition set_eth (src_mac dst_mac : Z) (b : list Z) : list Z :=
  let b := pk_set Eth 1 src_mac b in
  let b := pk_set Eth 2 dst_mac b in
  pk_set Eth 0 0x0800 b.

Definition set_ipv4 (src_ip dst_ip total_length : Z) (b : list Z) : list Z :=
  let b := pk_set Ipv4 12 4 b in
  let b := pk_set Ipv4 11 5 b in
  let b := pk_set Ipv4 10 0 b in
  let b := pk_set Ipv4 9 0 b in
  let b := pk_set Ipv4 8 total_length b in
  let b := pk_set Ipv4 7 0 b in
  let b := pk_set Ipv4 6 2 b in
  let b := pk_set Ipv4 5 0 b in
  let b := pk_set Ipv4 4 64 b in
  let b := pk_set Ipv4 3 17 b in
  let b := pk_set Ipv4 1 src_ip b in
  let b := pk_set Ipv4 0 dst_ip b in
  pk_set Ipv4 2 (pk_get Ipv4 2 b) b.

Definition UDP_PORT : Z := 4791.

Definition set_udp (length : Z) (payload : list Z) (b : list Z) : list Z :=
  let b := pk_set Udp 3 UDP_PORT b in
  let b := pk_set Udp 2 UDP_PORT b in
  let b := pk_set Udp 1 length b in
  let b := udp_set_payload payload b in
  pk_set Udp 0 (pk_get Udp 0 b) b.

Definition build_ethernet_frame {S} (src_ip dst_ip src_mac dst_mac : Z) (payload : list Z) : M S (list Z) :=
  let len := Z.of_nat (length payload) in
  let buffer := replicate (14 + 20 + 8 + length payload) 0 in
  buffer ← on_packet Eth 0 (set_eth src_mac dst_mac) buffer;
  buffer ← on_packet Ipv4 14 (set_ipv4 src_ip dst_ip (wrap 16 (20 + 8 + len))) buffer;
  on_packet Udp 34 (set_udp (wrap 16 (8 + len)) payload) buffer.

Record AckFrameBuilder : Set := mk_afb { fb_src_ip : Z; fb_dst_ip : Z; fb_dqpn : Z }.

Definition OPCODE_ACKNOWLEDGE : Z := 0x11.
Definition TRANS_TYPE_RC : Z := 0x00.

Definition build_ack {S} (b : AckFrameBuilder) (now_psn : Psn) (now_bitmap : Z) (pre_psn : Psn) (prev_bitmap : Z)
    (is_packet_loss is_window_slided : bool) : M S (list Z) :=
  let mac := from_be_bytes CARD_MAC_ADDRESS_OCTETS in
  let payload := replicate 48 0 in
  let bth := bits_set Bth 12 OPCODE_ACKNOWLEDGE 0 in
  psn ← demand Panic (uint_from 24 now_psn);
  let bth := bits_set Bth 0 psn bth in
  dqpn ← demand Panic (uint_from 24 (fb_dqpn b));
  let bth := bits_set Bth 3 dqpn bth in
  let bth := bits_set Bth 13 TRANS_TYPE_RC bth in
  let payload := copy_from_slice payload 0 (to_be_bytes 12 bth) in
  let aeth_seg0 := bits_set AethSeg0 2 1 0 in
  let aeth_seg0 := bits_set AethSeg0 4 (Z.b2z is_packet_loss) aeth_seg0 in
  let aeth_seg0 := bits_set AethSeg0 3 (Z.b2z is_window_slided) aeth_seg0 in
  pre ← demand Panic (uint_from 24 pre_psn);
  let aeth_seg0 := bits_set AethSeg0 0 pre aeth_seg0 in
  let payload := copy_from_slice payload 12 (to_be_bytes 16 prev_bitmap) in
  let payload := copy_from_slice payload 28 (to_be_bytes 16 now_bitmap) in
  let payload := copy_from_slice payload 44 (to_be_bytes 4 aeth_seg0) in
  build_ethernet_frame (fb_src_ip b) (fb_dst_ip b) mac mac payload.

Record AckResponder (T : Type) : Type := mk_responder { ar_qp_table : QpTable QpAttr; ar_raw_frame_tx : T }.
Arguments mk_responder {T} _ _.
Arguments ar_qp_table {T} _.
Arguments ar_raw_frame_tx {T} _.

(** A frame that could not be sent is only logged. *)
Definition ack_process {T} `{FrameTx T} (task : AckResponse) : M (AckResponder T) unit :=
  s ← get;
  qp_attr ← demand Panic (get_qp (ar_qp_table s) (resp_qpn task));
  let frame_builder := mk_afb (qa_ip qp_attr) (qa_dqp_ip qp_attr) (qa_dqpn qp_attr) in
  frame ← match task with
    | RespAck qpn msn last_psn => build_ack frame_builder last_psn (2 ^ 128 - 1) 0 0 false false
    | RespNak qpn base_psn ack_req_packet_psn =>
        build_ack frame_builder (psn_add ack_req_packet_psn 1) 0 base_psn 0 true true
    end;
  _ ← zoom ar_raw_frame_tx (fun tx s => mk_responder (ar_qp_table s) tx) (frame_send frame);
  mret tt.

End code.
Arguments AckResponder T : clear implicits.
Arguments mk_responder {T} _ _.
Arguments ar_qp_table {T} _.
Arguments ar_raw_frame_tx {T} _.

(** ** Lemmas: writing headers *)

Section headers.
Context `{PnetLaws}.

(** The bytes of a header with the given fields. *)
Definition header_bytes (l : Layer) (vs : list Z) : list Z := to_be_bytes (header_len l) (pack (layout l) vs).

Lemma length_header_bytes l vs : length (header_bytes l vs) = header_len l.
Proof. apply length_to_be_bytes. Qed.

Lemma header_read l vs rest : Forall2 in_width (layout l) vs -> header l (header_bytes l vs ++ rest) = vs.
Proof.
  intros Hv. unfold header. rewrite take_app_length' by (by rewrite length_header_bytes).
  unfold header_bytes. rewrite from_to_be_bytes. apply pack_in_width in Hv as Hp.
  rewrite Z.mod_small; [by apply unpack_pack|]. unfold in_width in Hp. by destruct l.
Qed.

Lemma pk_set_bytes l i v vs rest :
  Forall2 in_width (layout l) vs -> pk_set l i v (header_bytes l vs ++ rest) = header_bytes l (<[i := v]> vs) ++ rest.
Proof.
  intros Hv. rewrite pk_set_field by (rewrite length_app, length_header_bytes; lia).
  rewrite header_read by done. by rewrite drop_app_length' by (by rewrite length_header_bytes).
Qed.

Lemma pk_get_bytes l i vs rest v :
  Forall2 in_width (layout l) vs -> vs !! i = Some v -> pk_get l i (header_bytes l vs ++ rest) = v.
Proof. intros Hv Hi. rewrite pk_get_field by (rewrite length_app, length_header_bytes; lia). by rewrite header_read, Hi. Qed.

(** One after the other, the fields of a header are set. *)
Ltac sets := repeat (rewrite pk_set_bytes by fields; cbn [insert list_insert]).

Lemma set_eth_bytes src dst rest :
  in_width 48 src -> in_width 48 dst -> set_eth src dst (header_bytes Eth [0; 0; 0] ++ rest) = header_bytes Eth [0x0800; src; dst] ++ rest.
Proof. intros Hs Hd. unfold set_eth. by sets. Qed.

Definition ipv4_fields (src dst total : Z) : list Z := [dst; src; 0; 17; 64; 0; 2; 0; total; 0; 0; 5; 4].

Lemma set_ipv4_bytes src dst total rest :
  in_width 32 src -> in_width 32 dst -> in_width 16 total ->
  set_ipv4 src dst total (header_bytes Ipv4 (replicate 13 0) ++ rest) = header_bytes Ipv4 (ipv4_fields src dst total) ++ rest.
Proof.
  intros Hs Hd Ht. unfold set_ipv4. cbn [replicate]. sets.
  by erewrite pk_get_bytes; [|fields|reflexivity].
Qed.

Lemma set_udp_bytes len payload :
  len = Z.of_nat (8 + length payload) -> in_width 16 len ->
  set_udp len payload (header_bytes Udp [0; 0; 0; 0] ++ replicate (length payload) 0) =
    header_bytes Udp [0; len; UDP_PORT; UDP_PORT] ++ payload.
Proof.
  intros Hl Hw. unfold set_udp, UDP_PORT. sets. set (h := header_bytes _ _).
  assert (Hh : length h = 8%nat) by apply length_header_bytes.
  rewrite udp_payload; [|rewrite length_app, length_replicate; lia|].
  2:{ unfold h. rewrite header_read by fields. cbn. by rewrite Hl. }
  rewrite take_app_length' by done. rewrite (drop_ge (h ++ _)) by (rewrite length_app, length_replicate; lia).
  rewrite app_nil_r. unfold h. erewrite pk_get_bytes; [|fields|reflexivity]. by rewrite pk_set_bytes by fields.
Qed.

Lemma on_packet_run {S} l off sets h rest (s : S) :
  length h = off -> (header_len l <= length rest)%nat ->
  on_packet l off sets (h ++ rest) s = Done (h ++ sets rest) s.
Proof.
  intros <- Hr. unfold on_packet. rewrite drop_app_length, take_app_length. by rewrite pk_fits_header.
Qed.

Lemma on_packet_first {S} l sets rest (s : S) :
  (header_len l <= length rest)%nat -> on_packet l 0 sets rest s = Done (sets rest) s.
Proof. exact (on_packet_run l 0 sets [] rest s eq_refl). Qed.

Lemma build_ethernet_frame_run {S} src dst smac dmac payload (s : S) :
  in_width 32 src -> in_width 32 dst -> in_width 48 smac -> in_width 48 dmac -> Z.of_nat (length payload) < 2 ^ 15 ->
  build_ethernet_frame src dst smac dmac payload s =
    Done (header_bytes Eth [0x0800; smac; dmac] ++
          header_bytes Ipv4 (ipv4_fields src dst (28 + Z.of_nat (length payload))) ++
          header_bytes Udp [0; 8 + Z.of_nat (length payload); UDP_PORT; UDP_PORT] ++ payload) s.
Proof.
  intros Hs Hd Hsm Hdm Hl. unfold build_ethernet_frame. rewrite (replicate_add (14 + 20 + 8)), (replicate_add (14 + 20)), replicate_add.
  change (replicate 14 0) with (header_bytes Eth [0; 0; 0]).
  change (replicate 20 0) with (header_bytes Ipv4 (replicate 13 0)).
  change (replicate 8 0) with (header_bytes Udp [0; 0; 0; 0]). rewrite <- !app_assoc.
  unfold wrap. rewrite !Z.mod_small by lia. unfold mbind, M_bind.
  rewrite on_packet_first by (rewrite ?length_app, ?length_header_bytes; cbn; lia). rewrite set_eth_bytes by done.
  rewrite on_packet_run by (rewrite ?length_app, ?length_header_bytes; cbn; lia).
  rewrite set_ipv4_bytes by (try done; unfold in_width; lia). rewrite (app_assoc (header_bytes Eth _)).
  rewrite on_packet_run by (rewrite ?length_app, ?length_header_bytes; cbn; lia).
  rewrite set_udp_bytes by (unfold in_width; lia). by rewrite <- app_assoc.
Qed.

End headers.

(** ** Lemmas: the frame *)

Lemma bits_set_packed `{BilgeLaws} ws i v vs :
  Forall2 in_width ws vs -> bits_set ws i v (pack ws vs) = pack ws (<[i := v]> vs).
Proof. intros Hv. by rewrite bits_set_field, unpack_pack. Qed.

Definition bth_fields (psn dqpn : Z) : list Z := [psn; 0; 0; dqpn; 0; 0; 0; 0; 0; 0; 0; 0; OPCODE_ACKNOWLEDGE; TRANS_TYPE_RC].
Definition aeth_fields (pre : Z) (slided loss : bool) : list Z := [pre; 0; 1; Z.b2z slided; Z.b2z loss].

Definition ack_payload (psn dqpn now_bitmap pre prev_bitmap : Z) (loss slided : bool) : list Z :=
  to_be_bytes 12 (pack Bth (bth_fields psn dqpn)) ++ to_be_bytes 16 prev_bitmap ++ to_be_bytes 16 now_bitmap ++
  to_be_bytes 4 (pack AethSeg0 (aeth_fields pre slided loss)).

Definition card_mac : Z := from_be_bytes CARD_MAC_ADDRESS_OCTETS.

Definition ack_frame (b : AckFrameBuilder) (psn now_bitmap pre prev_bitmap : Z) (loss slided : bool) : list Z :=
  header_bytes Eth [0x0800; card_mac; card_mac] ++ header_bytes Ipv4 (ipv4_fields (fb_src_ip b) (fb_dst_ip b) 76) ++
  header_bytes Udp [0; 56; UDP_PORT; UDP_PORT] ++ ack_payload psn (fb_dqpn b) now_bitmap pre prev_bitmap loss slided.

Lemma build_ack_run `{BilgeLaws} `{PnetLaws} {S} b psn now_bitmap pre prev_bitmap loss slided (s : S) :
  in_width 32 (fb_src_ip b) -> in_width 32 (fb_dst_ip b) -> in_width 24 (fb_dqpn b) -> in_width 24 psn -> in_width 24 pre ->
  build_ack b psn now_bitmap pre prev_bitmap loss slided s = Done (ack_frame b psn now_bitmap pre prev_bitmap loss slided) s.
Proof.
  intros Hs Hd Hq Hp Hpre. unfold build_ack, OPCODE_ACKNOWLEDGE, TRANS_TYPE_RC.
  change (bits_set Bth 12 0x11 0) with (bits_set Bth 12 0x11 (pack Bth (replicate 14 0))). rewrite !uint_from_fits by done. unfold demand, mbind, M_bind, mret, M_ret.
  change (replicate 14 0) with [0; 0; 0; 0; 0; 0; 0; 0; 0; 0; 0; 0; 0; 0].
  repeat (rewrite (bits_set_packed Bth) by fields; cbn [insert list_insert]).
  change (bits_set AethSeg0 2 1 0) with (bits_set AethSeg0 2 1 (pack AethSeg0 [0; 0; 0; 0; 0])).
  repeat (rewrite (bits_set_packed AethSeg0) by fields; cbn [insert list_insert]).
  match goal with |- build_ethernet_frame _ _ _ _ ?p s = _ => change p with (ack_payload psn (fb_dqpn b) now_bitmap pre prev_bitmap loss slided) end.
  rewrite build_ethernet_frame_run; [reflexivity|done|done| | |cbn; lia]; vm_compute; done.
Qed.

(** *** The bytes of the frame

    Written out byte by byte, as the formats of Ethernet, IPv4, UDP and of the transport on
    UDP port 4791 have them; [be n x] is [x] in [n] bytes, the highest first. *)
Fixpoint be (n : nat) (x : Z) : list Z :=
  match n with
  | O => []
  | S n' => be n' (x / 256) ++ [x mod 256]
  end.

(** Both addresses are that of the card; then the type of IPv4. *)
Definition ethernet_wire : list Z := [0xAA; 0xBB; 0xCC; 0xDD; 0xEE; 0x0A] ++ [0xAA; 0xBB; 0xCC; 0xDD; 0xEE; 0x0A] ++ [0x08; 0x00].

(** Version 4 with five words of header, 76 bytes in all, not to be fragmented, 64 hops, UDP;
    the checksum in bytes 10 and 11 is zero. *)
Definition ipv4_wire (src dst : Z) : list Z :=
  [0x45; 0; 0; 76; 0; 0; 0x40; 0; 64; 17; 0; 0] ++ be 4 src ++ be 4 dst.

Definition udp_wire : list Z := [0x12; 0xB7; 0x12; 0xB7; 0; 56; 0; 0].

(** The base header: an acknowledgement (0x11) of a reliable connection. *)
Definition bth_wire (dqpn psn : Z) : list Z := [0x11; 0; 0; 0; 0] ++ be 3 dqpn ++ [0] ++ be 3 psn.

(** Both bitmaps, then the flags, lost packets 0x80, moved window 0x40, sent by a driver 0x20. *)
Definition aeth_wire (prev_bitmap now_bitmap flags pre_psn : Z) : list Z :=
  be 16 prev_bitmap ++ be 16 now_bitmap ++ [flags] ++ be 3 pre_psn.

(** An acknowledgement of everything before a packet, and a request for the packets from the
    first missing one on. *)
Definition task_wire (dqpn : Z) (task : AckResponse) : list Z :=
  match task with
  | RespAck _ _ last_psn => bth_wire dqpn last_psn ++ aeth_wire 0 (2 ^ 128 - 1) 0x20 0
  | RespNak _ base_psn req => bth_wire dqpn ((req + 1) mod 2 ^ 24) ++ aeth_wire 0 0 0xE0 base_psn
  end.

Definition frame_wire (attr : QpAttr) (task : AckResponse) : list Z :=
  ethernet_wire ++ ipv4_wire (qa_ip attr) (qa_dqp_ip attr) ++ udp_wire ++ task_wire (qa_dqpn attr) task.

Lemma to_be_bytes_last n x : to_be_bytes (S n) x = to_be_bytes n (x / 256) ++ [x mod 256].
Proof.
  induction n as [|n IH]; [cbn; by rewrite Z.shiftr_0_r|]. cbn [to_be_bytes] in *. rewrite IH. cbn [app]. f_equal.
  rewrite !Z.shiftr_div_pow2 by lia. replace (8 * Z.of_nat (S n)) with (8 + 8 * Z.of_nat n) by lia.
  by rewrite Z.pow_add_r, <- Z.div_div by lia.
Qed.

Lemma be_bytes n : forall x, to_be_bytes n x = be n x.
Proof. induction n as [|n IH]; intros x; [done|]. by rewrite to_be_bytes_last, IH. Qed.

(** The bytes of a number whose low bytes are those of [lo]. *)
Lemma to_be_bytes_split n m lo hi : in_width (8 * Z.of_nat m) lo ->
  to_be_bytes (n + m) (lo + 2 ^ (8 * Z.of_nat m) * hi) = to_be_bytes n hi ++ to_be_bytes m lo.
Proof.
  revert lo hi. induction m as [|m IH]; intros lo hi Hlo; unfold in_width in *.
  - rewrite Nat.add_0_r, app_nil_r. f_equal. change (8 * Z.of_nat 0) with 0 in *. lia.
  - rewrite Nat.add_succ_r, !to_be_bytes_last, app_assoc. replace (8 * Z.of_nat (S m)) with (8 * Z.of_nat m + 8) in * by lia.
    rewrite Z.pow_add_r in * by lia. change (2 ^ 8) with 256 in *. set (p := 2 ^ (8 * Z.of_nat m)) in *. f_equal.
    + replace (lo + p * 256 * hi) with (lo + p * hi * 256) by lia. rewrite Z.div_add by lia. apply IH.
      split; [apply Z.div_pos; lia|apply Z.div_lt_upper_bound; lia].
    + f_equal. replace (lo + p * 256 * hi) with (lo + p * hi * 256) by lia. by rewrite Z.mod_add by lia.
Qed.

Lemma ipv4_bytes src dst : in_width 32 src -> in_width 32 dst ->
  header_bytes Ipv4 (ipv4_fields src dst 76) = ipv4_wire src dst.
Proof.
  intros Hs Hd. unfold header_bytes, ipv4_wire, ipv4_fields. cbn [header_len layout pack].
  change 20%nat with ((12 + 4) + 4)%nat. rewrite (to_be_bytes_split (12 + 4) 4 dst) by done.
  rewrite (to_be_bytes_split 12 4 src) by done. rewrite <- !be_bytes, <- app_assoc. reflexivity.
Qed.

Lemma bth_bytes psn dqpn : in_width 24 psn -> in_width 24 dqpn -> to_be_bytes 12 (pack Bth (bth_fields psn dqpn)) = bth_wire dqpn psn.
Proof.
  intros Hp Hq. unfold bth_wire, bth_fields, OPCODE_ACKNOWLEDGE, TRANS_TYPE_RC. cbn [Bth pack]. change 12%nat with (((5 + 3) + 1) + 3)%nat.
  rewrite (to_be_bytes_split (5 + 3 + 1) 3 psn) by done.
  match goal with |- to_be_bytes _ ?x ++ _ = _ => replace x with (0 + 2 ^ (8 * Z.of_nat 1) * (dqpn + 2 ^ (8 * Z.of_nat 3) * 0x1100000000)) by lia end.
  rewrite to_be_bytes_split by (unfold in_width; lia). rewrite to_be_bytes_split by done. rewrite <- !be_bytes, <- !app_assoc. reflexivity.
Qed.

Lemma aeth_bytes pre slided loss : in_width 24 pre ->
  to_be_bytes 4 (pack AethSeg0 (aeth_fields pre slided loss)) = [0x20 + 0x40 * Z.b2z slided + 0x80 * Z.b2z loss] ++ be 3 pre.
Proof.
  intros Hp. unfold aeth_fields. cbn [AethSeg0 pack]. change 4%nat with (1 + 3)%nat.
  rewrite (to_be_bytes_split 1 3 pre) by done. rewrite <- !be_bytes. f_equal. by destruct slided, loss.
Qed.

Lemma ack_frame_bytes b psn now_bitmap pre prev_bitmap loss slided :
  in_width 32 (fb_src_ip b) -> in_width 32 (fb_dst_ip b) -> in_width 24 (fb_dqpn b) -> in_width 24 psn -> in_width 24 pre ->
  ack_frame b psn now_bitmap pre prev_bitmap loss slided =
  ethernet_wire ++ ipv4_wire (fb_src_ip b) (fb_dst_ip b) ++ udp_wire ++
  bth_wire (fb_dqpn b) psn ++ aeth_wire prev_bitmap now_bitmap (0x20 + 0x40 * Z.b2z slided + 0x80 * Z.b2z loss) pre.
Proof.
  intros Hs Hd Hq Hp Hpre. unfold ack_frame, ack_payload, aeth_wire.
  rewrite ipv4_bytes, bth_bytes, aeth_bytes, !be_bytes by done. reflexivity.
Qed.

(** The one's complement sum of the 16-bit words of a header; a receiver wants 0xFFFF. *)
Fixpoint ones_sum (b : list Z) (acc : Z) : Z :=
  match b with
  | hi :: lo :: b' => let x := acc + (hi * 256 + lo) in ones_sum b' (x / 2 ^ 16 + x mod 2 ^ 16)
  | _ => acc
  end.

Lemma ack_header_checksum_wrong :
  ones_sum (ipv4_wire 0x0A000001 0x0A000002) 0 <> 0xFFFF.
Proof. vm_compute. discriminate. Qed.

Definition resp_fits (task : AckResponse) : Prop :=
  match task with RespAck _ _ psn => in_width 24 psn | RespNak _ base req => in_width 24 base end.

Lemma psn_add_width x y : in_width 24 (psn_add x y).
Proof.
  unfold psn_add, in_width. change PSN_MASK with (Z.ones 24). rewrite Z.land_ones by lia. apply Z.mod_pos_bound. lia.
Qed.

(** Whatever carries the frame. *)
Lemma ack_process_run `{BilgeLaws} `{PnetLaws} {T} `{FrameTx T} (r : AckResponder T) task attr :
  get_qp (ar_qp_table r) (resp_qpn task) = Some attr -> in_width 32 (qa_ip attr) -> in_width 32 (qa_dqp_ip attr) ->
  in_width 24 (qa_dqpn attr) -> resp_fits task ->
  forall ok tx, frame_send (frame_wire attr task) (ar_raw_frame_tx r) = Done ok tx ->
    ack_process task r = Done tt (mk_responder (ar_qp_table r) tx).
Proof.
  intros Ha Hs Hd Hq Hf ok tx Hx. set (b := mk_afb (qa_ip attr) (qa_dqp_ip attr) (qa_dqpn attr)).
  assert (W24 : in_width 24 0) by (unfold in_width; lia).
  unfold ack_process, get, demand, mbind, M_bind, mret, M_ret. rewrite Ha. fold b.
  destruct task as [qpn msn psn|qpn base req]; cbn [resp_fits] in *.
  - rewrite build_ack_run, ack_frame_bytes by done. unfold zoom.
    match goal with |- context [frame_send ?f _] => change f with (frame_wire attr (RespAck qpn msn psn)) end. by rewrite Hx.
  - pose proof (psn_add_width req 1) as Hp. rewrite build_ack_run, ack_frame_bytes by done.
    replace (psn_add req 1) with ((req + 1) mod 2 ^ 24) by (unfold psn_add; by rewrite land_PSN_MASK, mod24_wrap32).
    unfold zoom. match goal with |- context [frame_send ?f _] => change f with (frame_wire attr (RespNak qpn base req)) end. by rewrite Hx.
Qed.

(** ** Properties *)

(** C20: the frame of an acknowledgement, byte by byte.  For a task of a queue pair of the table
    whose addresses have 32 bits and whose packet and queue pair numbers have 24, with room in
    the ring of the network interface, the worker returns after it queued one frame of 90
    bytes behind those that wait: Ethernet from and to the address of the card, IPv4 and UDP
    from the address of the queue pair to that of its peer, and an acknowledgement for the
    queue pair of the peer, marked as sent by a driver, that carries either the packet
    number of the task and a full bitmap, or, marked as loss with a moved window, the number
    after the packet that asked and the first missing one.  The message number of the task is not sent, and the checksum of the IPv4
    header is zero. *)
Theorem acknowledgement_frames `{BilgeLaws} `{SendRingLaws} `{PnetLaws}
    n (r : AckResponder FrameTxQueue) hist q task attr fuel :
  get_qp (ar_qp_table r) (resp_qpn task) = Some attr -> in_width 32 (qa_ip attr) -> in_width 32 (qa_dqp_ip attr) ->
  in_width 24 (qa_dqpn attr) -> resp_fits task ->
  nic_inv n (ar_raw_frame_tx r) hist q -> (length q < Z.to_nat 4096)%nat ->
  length (frame_wire attr task) = 90%nat /\
  exists tx q', ack_process (H1 := frame_tx_queue (S fuel)) task r = Done tt (mk_responder (ar_qp_table r) tx) /\
    nic_inv n tx (hist ++ [frame_wire attr task]) q'.
Proof.
  intros Ha Hs Hd Hq Hf Hi Hl. assert (Hlen : length (frame_wire attr task) = 90%nat) by (by destruct task). split; [done|].
  destruct (nic_send_run n _ hist q (frame_wire attr task) fuel Hi) as (tx & r' & k & Es & _ & _ & _ & Hi' & _); [lia|done|].
  eexists tx, _. split; [|exact Hi']. by eapply (ack_process_run (H3 := frame_tx_queue (S fuel)) r task attr Ha Hs Hd Hq Hf).
Qed.

Definition demo_attr : QpAttr := mk_qp_attr 2 0x100 0x205 0x0A000001 0x0A000002 0 3 7 None None.

Lemma acknowledgement_frames_witness :
  exists tx q', ack_process (H1 := frame_tx_queue 1) (RespNak 0x100 5 8) (mk_responder (QpTable_new_with demo_attr) fresh_nic) =
      Done tt (mk_responder (QpTable_new_with demo_attr) tx) /\
    nic_inv 1024 tx [frame_wire demo_attr (RespNak 0x100 5 8)] q'.
Proof.
  refine (proj2 (acknowledgement_frames 1024 (mk_responder (QpTable_new_with demo_attr) fresh_nic) [] []
    (RespNak 0x100 5 8) demo_attr 0 _ _ _ _ _ _ _));
    [vm_compute; reflexivity|unfold in_width; cbn; lia|unfold in_width; cbn; lia|unfold in_width; cbn; lia|unfold resp_fits, in_width; lia|
     apply fresh_nic_inv|cbn; lia].
Defined.
