(* ===== verification/Csr.v ===== *)
(** * Device registers

    rust-driver/src/csr: where the registers of the rings lie, the rings with the
    operations of their direction, and the ways to reach the registers: the mapped BAR of
    the PCI device and the calls to the simulator.  The socket, the simulator and the JSON
    of the calls are parameters ([Simulator]). *)

From Stdlib Require Import ZArith Lia.
From stdpp Require Import base list numbers.
From S2P Require Import Prelude RustBase WorkReq.

#[local] Open Scope Z_scope.
#[local] Open Scope cint_scope.

(** ** constants.rs *)

Inductive BlockStart : Set := Qp | CmdQ | SimpleNic.

Definition block_start (b : BlockStart) : Z := match b with Qp => 0x00 | CmdQ => 0x40 | SimpleNic => 0x50 end.

Definition generate_csr_addr_base (start : BlockStart) (queue_index : Z) (is_to_host : bool) : Z :=
  Z.shiftl (block_start start + queue_index * 0x10 + (if is_to_host then 4 else 0)) 2.

Definition generate_qp_array_start (is_to_host : bool) : list Z :=
  [generate_csr_addr_base Qp 0 is_to_host; generate_csr_addr_base Qp 1 is_to_host;
   generate_csr_addr_base Qp 2 is_to_host; generate_csr_addr_base Qp 3 is_to_host].

Definition NUM_QPS : Z := 4.
Definition RING_OFFSET_BASE_LOW : Z := 0x00.
Definition RING_OFFSET_BASE_HIGH : Z := 0x04.
Definition RING_OFFSET_HEAD : Z := 0x08.
Definition RING_OFFSET_TAIL : Z := 0x0C.

Definition CMD_REQ_RING_BASE : Z := generate_csr_addr_base CmdQ 0 false.
Definition CMD_RESP_RING_BASE : Z := generate_csr_addr_base CmdQ 0 true.
Definition SIMPLE_NIC_TX_RING_BASE : Z := generate_csr_addr_base SimpleNic 0 false.
Definition SIMPLE_NIC_RX_RING_BASE : Z := generate_csr_addr_base SimpleNic 0 true.
Definition QP_SEND_RING_BASES : list Z := generate_qp_array_start false.
Definition QP_RECV_RING_BASES : list Z := generate_qp_array_start true.
Definition CSR_DEVICE_MODE_ADDR : Z := 0.

(** ** ring_specs.rs *)

(** The specifications that implement [RingSpecToCard] and [RingSpecToHost]. *)
Inductive ToCard : Set := CmdReqSpec | SimpleNicTxSpec | SendRingSpec (id : Z).
Inductive ToHost : Set := CmdRespSpec | SimpleNicRxSpec | MetaReportRingSpec (id : Z).
Definition RingSpec : Set := (ToCard + ToHost)%type.

Definition csr_base {S} (r : RingSpec) : M S Z :=
  match r with
  | inl CmdReqSpec => mret CMD_REQ_RING_BASE
  | inl SimpleNicTxSpec => mret SIMPLE_NIC_TX_RING_BASE
  | inl (SendRingSpec id) => demand Panic (QP_SEND_RING_BASES !! Z.to_nat id)
  | inr CmdRespSpec => mret CMD_RESP_RING_BASE
  | inr SimpleNicRxSpec => mret SIMPLE_NIC_RX_RING_BASE
  | inr (MetaReportRingSpec id) => demand Panic (QP_RECV_RING_BASES !! Z.to_nat id)
  end.

(** ** mode.rs *)

Inductive Mode : Set := Mode400G | Mode200G | Mode100G.

Definition num_channel (m : Mode) : Z := match m with Mode100G => 1 | Mode200G => 2 | Mode400G => 4 end.
Definition channel_ids (m : Mode) : list Z := match m with Mode100G => [0] | Mode200G => [0; 1] | Mode400G => [0; 1; 2; 3] end.

Definition build_send_rings (m : Mode) : list RingSpec := (fun id => inl (SendRingSpec id)) <$> channel_ids m.
Definition build_meta_report_rings (m : Mode) : list RingSpec := (fun id => inr (MetaReportRingSpec id)) <$> channel_ids m.

(** ** device_adaptor.rs *)

Class DeviceAdaptor (D : Type) : Type := {
  read_csr : Z -> M D (result Z);
  write_csr : Z -> Z -> M D (result unit) }.

(** [?] *)
Definition and_then {D A B} (m : M D (result A)) (k : A -> M D (result B)) : M D (result B) :=
  r ← m; match r with Ok a => k a | Err e => mret (Err e) end.

Section ring.
Context {D : Type} `{DeviceAdaptor D}.

Definition read_base_addr (r : RingSpec) : M D (result Z) :=
  base ← csr_base r;
  and_then (read_csr (base + RING_OFFSET_BASE_LOW)) (fun lo =>
  base ← csr_base r;
  and_then (read_csr (base + RING_OFFSET_BASE_HIGH)) (fun hi =>
  mret (Ok (Z.lor lo (hi <<{64} 32))))).

Definition write_base_addr (r : RingSpec) (phys_addr : Z) : M D (result unit) :=
  let lo := wrap 32 (Z.land phys_addr 0xFFFFFFFF) in
  let hi := wrap 32 (Z.shiftr phys_addr 32) in
  base ← csr_base r;
  and_then (write_csr (base + RING_OFFSET_BASE_LOW) lo) (fun _ =>
  base ← csr_base r;
  and_then (write_csr (base + RING_OFFSET_BASE_HIGH) hi) (fun _ =>
  mret (Ok tt))).

Definition write_head (r : ToCard) (head : Z) : M D (result unit) :=
  base ← csr_base (inl r); write_csr (base + RING_OFFSET_HEAD) head.
Definition read_tail (r : ToCard) : M D (result Z) :=
  base ← csr_base (inl r); read_csr (base + RING_OFFSET_TAIL).

Definition read_head (r : ToHost) : M D (result Z) :=
  base ← csr_base (inr r); read_csr (base + RING_OFFSET_HEAD).
Definition write_tail (r : ToHost) (tail : Z) : M D (result unit) :=
  base ← csr_base (inr r); write_csr (base + RING_OFFSET_TAIL) tail.

End ring.

(** ** hardware.rs *)

(** The mapped BAR, byte by byte. *)
Record SysfsPciCsrAdaptor : Set := mk_sysfs { bar : list Z }.

(** A 32-bit access to a little-endian machine's memory. *)
Definition le32 (l : list Z) : Z := from_be_bytes (reverse l).
Definition to_le32 (x : Z) : list Z := reverse (to_be_bytes 4 x).

Definition read_volatile (addr : Z) : M SysfsPciCsrAdaptor Z :=
  s ← get;
  if (0 <=? addr) && (addr + 4 <=? Z.of_nat (length (bar s)))
  then mret (le32 (slice (bar s) (Z.to_nat addr) (Z.to_nat addr + 4)))
  else fail OutOfBounds.

Definition write_volatile (addr data : Z) : M SysfsPciCsrAdaptor unit :=
  s ← get;
  if (0 <=? addr) && (addr + 4 <=? Z.of_nat (length (bar s)))
  then modify (fun s => mk_sysfs (copy_from_slice (bar s) (Z.to_nat addr) (to_le32 data)))
  else fail OutOfBounds.

Definition sysfs_read_csr (addr : Z) : M SysfsPciCsrAdaptor (result Z) :=
  if negb (addr mod 4 =? 0) then mret (Err (IoError None))
  else ret ← read_volatile addr; mret (Ok ret).

Definition sysfs_write_csr (addr data : Z) : M SysfsPciCsrAdaptor (result unit) :=
  if negb (addr mod 4 =? 0) then mret (Err (IoError None))
  else write_volatile addr data;; mret (Ok tt).

#[export] Instance sysfs_adaptor : DeviceAdaptor SysfsPciCsrAdaptor := {|
  read_csr := sysfs_read_csr; write_csr := sysfs_write_csr |}.

Definition set_loopback : M SysfsPciCsrAdaptor unit := write_volatile 0x180 1.
Definition set_seed (seed : Z) : M SysfsPciCsrAdaptor unit := write_volatile 0x184 seed.
Definition set_drop_thresh (rate : Z) : M SysfsPciCsrAdaptor unit := write_volatile 0x188 rate.

(** ** emulated.rs *)

Record CsrAccessRpcMessage : Set := mk_rpc { is_write : bool; addr : Z; value : Z }.

(** The socket that is connected to the simulator: [send] and [recv_from] succeed or fail.
    [to_vec] and [from_slice] are the JSON of the messages. *)
Class Simulator : Type := {
  sim : Type;
  udp_send : list Z -> sim -> bool * sim;
  udp_recv : sim -> option (list Z) * sim;
  to_vec : CsrAccessRpcMessage -> list Z;
  from_slice : list Z -> option CsrAccessRpcMessage }.

Record EmulatedDevice `{Simulator} : Type := mk_emulated { socket : sim }.
Arguments mk_emulated {H}.

Section emulated.
Context `{Simulator}.

Definition sock_send (b : list Z) : M EmulatedDevice (result unit) := fun s =>
  Done (if (udp_send b (socket s)).1 then Ok tt else Err (IoError None)) (mk_emulated (udp_send b (socket s)).2).

(** The bytes that fit into the buffer. *)
Definition sock_recv (n : nat) : M EmulatedDevice (result (list Z)) := fun s =>
  Done (match (udp_recv (socket s)).1 with Some b => Ok (take n b) | None => Err (IoError None) end) (mk_emulated (udp_recv (socket s)).2).

Definition rpc_read_csr (a : Z) : M EmulatedDevice (result Z) :=
  let msg := mk_rpc false a 0 in
  and_then (sock_send (to_vec msg)) (fun _ =>
  and_then (sock_recv 128) (fun recv_buf =>
  match from_slice recv_buf with
  | Some response => mret (Ok (value response))
  | None => mret (Err (IoError None))
  end)).

Definition rpc_write_csr (a data : Z) : M EmulatedDevice (result unit) :=
  let msg := mk_rpc true a data in
  and_then (sock_send (to_vec msg)) (fun _ => mret (Ok tt)).

#[export] Instance emulated_adaptor : DeviceAdaptor EmulatedDevice := {|
  read_csr := rpc_read_csr; write_csr := rpc_write_csr |}.

End emulated.

(** ** What a device promises to the rings *)

(** The words of the first page. *)
Definition csr_addr (a : Z) : Prop := a mod 4 = 0 /\ 0 <= a < 4096.
Definition u32 (x : Z) : Prop := 0 <= x < 2 ^ 32.

(** Registers keep what was written last, and a write changes one register. *)
Class DeviceAdaptorLaws (D : Type) `{DeviceAdaptor D} : Type := {
  dev_ok : D -> Prop;
  register : D -> Z -> Z;
  register_u32 d a : dev_ok d -> csr_addr a -> u32 (register d a);
  read_csr_ok d a : dev_ok d -> csr_addr a -> read_csr a d = Done (Ok (register d a)) d;
  write_csr_ok d a v : dev_ok d -> csr_addr a -> u32 v -> exists d', write_csr a v d = Done (Ok tt) d' /\ dev_ok d' /\
    forall b, csr_addr b -> register d' b = if b =? a then v else register d b }.

(** ** The registers of the rings *)

(** The rings that exist. *)
Definition ring_ok (r : RingSpec) : Prop :=
  match r with inl (SendRingSpec id) | inr (MetaReportRingSpec id) => 0 <= id < NUM_QPS | _ => True end.

Definition all_rings : list RingSpec :=
  [inl CmdReqSpec; inl SimpleNicTxSpec; inr CmdRespSpec; inr SimpleNicRxSpec] ++
  build_send_rings Mode400G ++ build_meta_report_rings Mode400G.

Inductive reg : Set := BaseLow | BaseHigh | Head | Tail.

#[export] Instance reg_eq_dec : EqDecision reg.
Proof. solve_decision. Defined.

#[export] Instance RingSpec_eq_dec : EqDecision RingSpec.
Proof. intros [[]|[]] [[]|[]]; unfold Decision; decide equality; solve_decision. Defined.

Definition offset (g : reg) : Z :=
  match g with BaseLow => RING_OFFSET_BASE_LOW | BaseHigh => RING_OFFSET_BASE_HIGH | Head => RING_OFFSET_HEAD | Tail => RING_OFFSET_TAIL end.

Definition base_of (r : RingSpec) : Z := match csr_base r tt with Done b _ => b | Fault _ => 0 end.

Lemma ring_ok_all r : ring_ok r <-> r ∈ all_rings.
Proof.
  unfold all_rings, build_send_rings, build_meta_report_rings. cbn [channel_ids fmap list_fmap app]. rewrite !elem_of_cons, elem_of_nil.
  unfold ring_ok, NUM_QPS. split.
  - destruct r as [[| |id]|[| |id]]; try tauto.
    + intros Hid. assert (Hc : id = 0 \/ id = 1 \/ id = 2 \/ id = 3) by lia. destruct Hc as [->|[->|[->| ->]]]; tauto.
    + intros Hid. assert (Hc : id = 0 \/ id = 1 \/ id = 2 \/ id = 3) by lia. destruct Hc as [->|[->|[->| ->]]]; tauto.
  - intros Hr. destruct_or! Hr; subst; done || lia.
Qed.

Lemma csr_base_run {S} r (s : S) : ring_ok r -> csr_base r s = Done (base_of r) s.
Proof.
  intros Hr%ring_ok_all. revert r Hr. rewrite <- list.Forall_forall. repeat constructor.
Qed.

(** Two registers of rings never share an address. *)
Lemma ring_addresses : Forall (fun r => forall g, csr_addr (base_of r + offset g) /\
  Forall (fun r' => forall g', base_of r + offset g = base_of r' + offset g' -> r = r' /\ g = g') all_rings) all_rings.
Proof.
  unfold all_rings, build_send_rings, build_meta_report_rings. cbn [channel_ids fmap list_fmap app].
  repeat first [apply Forall_nil_2|apply Forall_cons_2]; intros g; (split; [destruct g; vm_compute; (split; [reflexivity|split; congruence])|]);
    repeat first [apply Forall_nil_2|apply Forall_cons_2]; destruct g; intros [] E; vm_compute in E; (discriminate E || done).
Qed.

Lemma ring_addr_ok r g : ring_ok r -> csr_addr (base_of r + offset g).
Proof. intros Hr%ring_ok_all. pose proof ring_addresses as Ha. rewrite list.Forall_forall in Ha. by apply (Ha r Hr g). Qed.

Lemma ring_addr_inj r r' g g' : ring_ok r -> ring_ok r' -> base_of r + offset g = base_of r' + offset g' -> r = r' /\ g = g'.
Proof.
  intros Hr%ring_ok_all Hr'%ring_ok_all E. pose proof ring_addresses as Ha. rewrite list.Forall_forall in Ha.
  destruct (Ha r Hr g) as [_ Hb]. rewrite list.Forall_forall in Hb. by apply (Hb r' Hr' g').
Qed.

(** The registers of the rings as one thinks of them. *)
Definition ring_file : Type := RingSpec -> reg -> Z.
Definition upd_reg (f : ring_file) (r : RingSpec) (g : reg) (v : Z) : ring_file := fun r' g' =>
  if decide (r' = r /\ g' = g) then v else f r' g'.

Section device.
Context {D : Type} `{DA : DeviceAdaptor D} {DL : DeviceAdaptorLaws D}.
Implicit Types (d : D) (f : ring_file).

Definition shows d f : Prop := dev_ok d /\ forall r g, ring_ok r -> register d (base_of r + offset g) = f r g.

Lemma shows_read d f r g : shows d f -> ring_ok r -> read_csr (base_of r + offset g) d = Done (Ok (f r g)) d.
Proof. intros [Hd Hf] Hr. rewrite read_csr_ok by (done || by apply ring_addr_ok). by rewrite Hf. Qed.

Lemma shows_u32 d f r g : shows d f -> ring_ok r -> u32 (f r g).
Proof. intros [Hd Hf] Hr. rewrite <- Hf by done. apply register_u32; [done|]. by apply ring_addr_ok. Qed.

Lemma shows_write d f r g v : shows d f -> ring_ok r -> u32 v ->
  exists d', write_csr (base_of r + offset g) v d = Done (Ok tt) d' /\ shows d' (upd_reg f r g v).
Proof.
  intros [Hd Hf] Hr Hv. destruct (write_csr_ok d (base_of r + offset g) v Hd (ring_addr_ok _ _ Hr) Hv) as (d' & E & Hd' & Hw).
  exists d'. split; [exact E|]. split; [done|]. intros r' g' Hr'. rewrite Hw by by apply ring_addr_ok. unfold upd_reg.
  destruct (Z.eqb_spec (base_of r' + offset g') (base_of r + offset g)) as [Ea|Ea].
  - apply ring_addr_inj in Ea; [|done..]. by rewrite decide_True.
  - rewrite decide_False; [by apply Hf|]. intros [-> ->]. done.
Qed.

Lemma base_halves v : 0 <= v < 2 ^ 64 ->
  wrap 32 (Z.land v 0xFFFFFFFF) = v mod 2 ^ 32 /\ wrap 32 (Z.shiftr v 32) = v / 2 ^ 32.
Proof.
  intros Hv. unfold wrap. change 0xFFFFFFFF with (Z.ones 32). rewrite Z.land_ones, Z.mod_mod, Z.shiftr_div_pow2 by lia. split; [done|].
  apply Z.mod_small. split; [apply Z.div_pos; lia|apply Z.div_lt_upper_bound; lia].
Qed.

Lemma join_halves lo hi : u32 lo -> u32 hi -> Z.lor lo (wrap 64 (Z.shiftl hi 32)) = lo + hi * 2 ^ 32.
Proof.
  unfold u32. intros Hlo Hhi. unfold wrap. rewrite Z.shiftl_mul_pow2 by lia. rewrite Z.mod_small by lia.
  rewrite <- Z.lxor_lor, <- Z.add_nocarry_lxor; [done|..]; apply Z.bits_inj'; intros i Hi; rewrite Z.land_spec, Z.bits_0;
    (destruct (Z.lt_ge_cases i 32) as [Hlt|Hge];
     [rewrite Z.mul_pow2_bits_low by lia; apply andb_false_r
     |rewrite <- (Z.mod_small lo (2 ^ 32)) by lia; rewrite Z.mod_pow2_bits_high by lia; done]).
Qed.

(** C27: on any device whose registers keep what was written last, the rings work as if each
    had four registers of its own: the operations never fail or panic, a read of a head, a
    tail or a base address gives the value of that ring's registers, and a write changes
    these and nothing else, so the rings of commands, raw frames, sends and reports cannot
    disturb each other.  A base address is written in two halves and read back whole.  The
    builders make as many rings as the mode has channels, all of which exist. *)
Theorem rings_have_own_registers d f : shows d f ->
  (forall r, ring_ok (inl r) -> read_tail r d = Done (Ok (f (inl r) Tail)) d /\
     forall v, u32 v -> exists d', write_head r v d = Done (Ok tt) d' /\ shows d' (upd_reg f (inl r) Head v)) /\
  (forall r, ring_ok (inr r) -> read_head r d = Done (Ok (f (inr r) Head)) d /\
     forall v, u32 v -> exists d', write_tail r v d = Done (Ok tt) d' /\ shows d' (upd_reg f (inr r) Tail v)) /\
  (forall r, ring_ok r -> read_base_addr r d = Done (Ok (f r BaseLow + f r BaseHigh * 2 ^ 32)) d /\
     forall pa, 0 <= pa < 2 ^ 64 -> exists d', write_base_addr r pa d = Done (Ok tt) d' /\
       shows d' (upd_reg (upd_reg f r BaseLow (pa mod 2 ^ 32)) r BaseHigh (pa / 2 ^ 32)) /\
       read_base_addr r d' = Done (Ok pa) d') /\
  (forall m, Z.of_nat (length (build_send_rings m)) = num_channel m /\ Z.of_nat (length (build_meta_report_rings m)) = num_channel m /\
     Forall ring_ok (build_send_rings m ++ build_meta_report_rings m)).
Proof.
  intros Hs. assert (Hbase : forall d f r, shows d f -> ring_ok r -> read_base_addr r d = Done (Ok (f r BaseLow + f r BaseHigh * 2 ^ 32)) d).
  { intros d0 f0 r H0 Hr. unfold read_base_addr, and_then, mbind, M_bind. rewrite csr_base_run by done.
    change RING_OFFSET_BASE_LOW with (offset BaseLow). rewrite (shows_read d0 f0 r BaseLow) by done. rewrite csr_base_run by done.
    change RING_OFFSET_BASE_HIGH with (offset BaseHigh). rewrite (shows_read d0 f0 r BaseHigh) by done.
    unfold mret, M_ret. rewrite join_halves by (by eapply shows_u32). done. }
  repeat split; try (by destruct m); try (by destruct m; repeat constructor; cbn; unfold NUM_QPS; lia).
  - unfold read_tail, mbind, M_bind. rewrite csr_base_run by done. by apply (shows_read d f (inl r) Tail).
  - intros v Hv. unfold write_head, mbind, M_bind. rewrite csr_base_run by done. by apply (shows_write d f (inl r) Head).
  - unfold read_head, mbind, M_bind. rewrite csr_base_run by done. by apply (shows_read d f (inr r) Head).
  - intros v Hv. unfold write_tail, mbind, M_bind. rewrite csr_base_run by done. by apply (shows_write d f (inr r) Tail).
  - by apply Hbase.
  - intros pa Hpa. destruct (base_halves pa Hpa) as [El Eh]. unfold write_base_addr, and_then, mbind, M_bind. rewrite El, Eh, csr_base_run by done.
    pose proof (Z.mod_pos_bound pa (2 ^ 32)). assert (Hq : u32 (pa / 2 ^ 32)) by (split; [apply Z.div_pos; lia|apply Z.div_lt_upper_bound; lia]).
    destruct (shows_write d f r BaseLow (pa mod 2 ^ 32) Hs H) as (d1 & E1 & H1); [unfold u32; lia|]. cbn [offset] in E1. rewrite E1.
    rewrite csr_base_run by done. destruct (shows_write _ _ r BaseHigh (pa / 2 ^ 32) H1 H Hq) as (d2 & E2 & H2). cbn [offset] in E2. rewrite E2.
    exists d2. split; [done|]. split; [done|]. rewrite (Hbase _ _ r H2 H). unfold upd_reg. rewrite (decide_True (P := r = r /\ BaseHigh = BaseHigh)) by done.
    rewrite (decide_False (P := r = r /\ BaseLow = BaseHigh)) by (intros [? ?]; done). rewrite decide_True by done.
    do 2 f_equal. f_equal. pose proof (Z.div_mod pa (2 ^ 32)). lia.
Qed.

End device.

(** ** The mapped BAR *)

Lemma slice_copy_same l a src : (a + length src <= length l)%nat -> slice (copy_from_slice l a src) a (a + length src) = src.
Proof.
  intros Hl. unfold slice, copy_from_slice. rewrite drop_app_length' by (rewrite length_take; lia).
  replace (a + length src - a)%nat with (length src) by lia. by rewrite take_app_length.
Qed.

Lemma slice_copy_other l a src b n : (a + length src <= length l)%nat -> (b + n <= a)%nat \/ (a + length src <= b)%nat ->
  slice (copy_from_slice l a src) b (b + n) = slice l b (b + n).
Proof.
  intros Hl Hb. unfold slice, copy_from_slice. apply list_eq. intros i. destruct (decide (i < b + n - b)%nat) as [Hi|Hi].
  - rewrite !lookup_take_lt by done. rewrite !lookup_drop. destruct Hb as [Hb|Hb].
    + rewrite lookup_app_l by (rewrite length_take; lia). by rewrite lookup_take_lt by lia.
    + rewrite lookup_app_r by (rewrite length_take; lia). rewrite length_take, lookup_app_r by lia. rewrite lookup_drop. f_equal. lia.
  - by rewrite !lookup_take_ge by lia.
Qed.

Lemma length_copy_slice l a src : (a + length src <= length l)%nat -> length (copy_from_slice l a src) = length l.
Proof. intros Hl. unfold copy_from_slice. rewrite !length_app, length_take, length_drop. lia. Qed.

Lemma length_to_le32 v : length (to_le32 v) = 4%nat.
Proof. unfold to_le32. by rewrite length_reverse, length_to_be_bytes. Qed.

Lemma le32_to_le32 v : u32 v -> le32 (to_le32 v) = v.
Proof.
  intros Hv. unfold le32, to_le32. rewrite reverse_involutive, from_to_be_bytes. apply Z.mod_small. exact Hv.
Qed.

Lemma from_be_bytes_bound l : Forall (fun b => 0 <= b < 256) l -> 0 <= from_be_bytes l < 2 ^ (8 * Z.of_nat (length l)).
Proof.
  induction 1 as [|b l Hb _ IH]; cbn [from_be_bytes length]; [done|].
  replace (8 * Z.of_nat (S (length l))) with (8 * Z.of_nat (length l) + 8) by lia. rewrite Z.pow_add_r by lia. nia.
Qed.

Definition bar_ok (d : SysfsPciCsrAdaptor) : Prop := (4096 <= length (bar d))%nat /\ Forall (fun b => 0 <= b < 256) (bar d).
Definition bar_word (d : SysfsPciCsrAdaptor) (a : Z) : Z := le32 (slice (bar d) (Z.to_nat a) (Z.to_nat a + 4)).

Lemma bar_in_range d a : bar_ok d -> csr_addr a -> (0 <=? a) && (a + 4 <=? Z.of_nat (length (bar d))) = true.
Proof.
  intros [Hl _] [Hm Ha]. apply andb_true_iff. rewrite !Z.leb_le. split; [lia|]. pose proof (Z.div_mod a 4). lia.
Qed.

Lemma bar_word_u32 d a : bar_ok d -> csr_addr a -> u32 (bar_word d a).
Proof.
  intros Hd Ha. pose proof (bar_in_range d a Hd Ha) as Hr. apply andb_true_iff in Hr as [H0 Hr]. apply Z.leb_le in H0, Hr.
  destruct Hd as [Hl Hb]. unfold bar_word, le32. set (w := slice _ _ _).
  assert (Hw : length w = 4%nat) by (unfold w, slice; rewrite length_take, length_drop; lia).
  pose proof (from_be_bytes_bound (reverse w)) as Hf. rewrite length_reverse, Hw in Hf. apply Hf.
  apply Forall_reverse. unfold w, slice. by apply Forall_take, Forall_drop.
Qed.

Lemma to_be_bytes_range n x : Forall (fun b => 0 <= b < 256) (to_be_bytes n x).
Proof. induction n; cbn; constructor; [apply Z.mod_pos_bound; lia|done]. Qed.

Lemma write_volatile_run d a v : bar_ok d -> csr_addr a -> u32 v ->
  exists d', write_volatile a v d = Done tt d' /\ bar_ok d' /\ forall b, csr_addr b -> bar_word d' b = if b =? a then v else bar_word d b.
Proof.
  intros Hd Ha Hv. pose proof (bar_in_range d a Hd Ha) as Hr. unfold write_volatile, mbind, M_bind, get. rewrite Hr.
  eexists. split; [reflexivity|]. apply andb_true_iff in Hr as [H0 Hr]. apply Z.leb_le in H0, Hr. destruct Hd as [Hl Hb].
  assert (Hfit : (Z.to_nat a + length (to_le32 v) <= length (bar d))%nat) by (rewrite length_to_le32; lia). split.
  - split; cbn [bar]; [by rewrite length_copy_slice|]. unfold copy_from_slice. rewrite !Forall_app. split_and!; [by apply Forall_take| |by apply Forall_drop].
    apply Forall_reverse, to_be_bytes_range.
  - intros b Hc. unfold bar_word. cbn [bar]. destruct (Z.eqb_spec b a) as [->|Hne].
    + pose proof (slice_copy_same (bar d) (Z.to_nat a) (to_le32 v) Hfit) as Hs. rewrite length_to_le32 in Hs. rewrite Hs. by apply le32_to_le32.
    + f_equal. apply slice_copy_other; [done|]. rewrite length_to_le32. destruct Ha as [Hma Ha], Hc as [Hmb Hc].
      pose proof (Z.div_mod a 4). pose proof (Z.div_mod b 4). lia.
Qed.

#[export] Instance sysfs_laws : DeviceAdaptorLaws SysfsPciCsrAdaptor.
Proof.
  refine {| dev_ok := bar_ok; register := bar_word |}.
  - apply bar_word_u32.
  - intros d a Hd Ha. cbn. unfold sysfs_read_csr, read_volatile, mbind, M_bind, get. destruct (Ha) as [-> _]. cbn [Z.eqb negb].
    by rewrite (bar_in_range d a Hd Ha).
  - intros d a v Hd Ha Hv. cbn. unfold sysfs_write_csr, mbind, M_bind. destruct (Ha) as [-> _]. cbn [Z.eqb negb].
    destruct (write_volatile_run d a v Hd Ha Hv) as (d' & E & ?). exists d'. by rewrite E.
Defined.

(** The registers of the test hardware lie behind those of the rings. *)
Lemma configurator_keeps_rings d f v : shows d f -> 0 <= v < 256 ->
  exists d1 d2 d3, set_loopback d = Done tt d1 /\ set_seed v d1 = Done tt d2 /\ set_drop_thresh v d2 = Done tt d3 /\ shows d3 f.
Proof.
  intros Hs Hv. assert (Hstep : forall d a w, shows d f -> csr_addr a -> u32 w -> 0x180 <= a ->
    exists d', write_volatile a w d = Done tt d' /\ shows d' f).
  { intros d0 a w [Hd Hf] Ha Hw Hlow. destruct (write_volatile_run d0 a w Hd Ha Hw) as (d' & E & Hd' & Hr). exists d'. split; [done|]. split; [done|].
    intros r g Hok. cbn. rewrite Hr by by apply ring_addr_ok. rewrite (proj2 (Z.eqb_neq _ _)); [by apply Hf|].
    assert (Hb : forall r, ring_ok r -> base_of r <= 0x150).
    { intros r0 Hr0%ring_ok_all. revert r0 Hr0. apply list.Forall_forall. repeat first [apply Forall_nil_2|apply Forall_cons_2]; vm_compute; congruence. }
    specialize (Hb r Hok). destruct g; cbn [offset]; unfold RING_OFFSET_BASE_LOW, RING_OFFSET_BASE_HIGH, RING_OFFSET_HEAD, RING_OFFSET_TAIL; lia. }
  assert (Hu : u32 v) by (unfold u32; lia).
  destruct (Hstep d 0x180 1 Hs) as (d1 & E1 & H1); [done|done|lia|]. destruct (Hstep d1 0x184 v H1) as (d2 & E2 & H2); [done|done|lia|].
  destruct (Hstep d2 0x188 v H2) as (d3 & E3 & H3); [done|done|lia|]. by exists d1, d2, d3.
Qed.

(** The register of the mode is the low half of the base address of the first send ring. *)
Lemma mode_register_shared : CSR_DEVICE_MODE_ADDR = base_of (inl (SendRingSpec 0)) + offset BaseLow.
Proof. reflexivity. Qed.

(** An access that is not aligned is refused. *)
Lemma sysfs_unaligned d a v : a mod 4 <> 0 -> sysfs_read_csr a d = Done (Err (IoError None)) d /\ sysfs_write_csr a v d = Done (Err (IoError None)) d.
Proof. intros Ha. unfold sysfs_read_csr, sysfs_write_csr. by rewrite (proj2 (Z.eqb_neq _ _) Ha). Qed.

(** ** The simulator *)

(** What the driver relies on: messages are not lost, the simulator answers a read with the
    register and handles calls in order, and JSON is read back as it was written. *)
Class SimulatorLaws (S : Simulator) : Type := {
  sim_idle : sim -> Prop;
  sim_reg : sim -> Z -> Z;
  sim_reg_u32 s a : sim_idle s -> csr_addr a -> u32 (sim_reg s a);
  json_round_trip m : from_slice (to_vec m) = Some m;
  json_short b a v : csr_addr a -> u32 v -> (length (to_vec (mk_rpc b a v)) <= 128)%nat;
  sim_write s a v : sim_idle s -> csr_addr a -> u32 v -> exists s', udp_send (to_vec (mk_rpc true a v)) s = (true, s') /\ sim_idle s' /\
    forall b, csr_addr b -> sim_reg s' b = if b =? a then v else sim_reg s b;
  sim_read s a : sim_idle s -> csr_addr a -> exists s', udp_send (to_vec (mk_rpc false a 0)) s = (true, s') /\
    udp_recv s' = (Some (to_vec (mk_rpc false a (sim_reg s a))), s) }.

#[export] Instance emulated_laws {S : Simulator} {SL : SimulatorLaws S} : DeviceAdaptorLaws EmulatedDevice.
Proof.
  refine {| dev_ok d := sim_idle (socket d); register d := sim_reg (socket d) |}.
  - intros d a. apply sim_reg_u32.
  - intros [s] a Hd Ha. cbn in *. unfold rpc_read_csr, and_then, mbind, M_bind, sock_send, sock_recv. cbn [socket].
    destruct (sim_read s a Hd Ha) as (s' & E1 & E2). rewrite E1. cbn [fst snd socket]. rewrite E2. cbn [fst snd].
    rewrite take_ge by (apply json_short; [done|by apply sim_reg_u32]). by rewrite json_round_trip.
  - intros [s] a v Hd Ha Hv. cbn in *. unfold rpc_write_csr, and_then, mbind, M_bind, sock_send. cbn [socket].
    destruct (sim_write s a v Hd Ha Hv) as (s' & E & Hs & Hr). rewrite E. by exists (mk_emulated s').
Defined.

(** A simulator: its registers and the answer that is due. *)
#[local] Instance demo_simulator : Simulator := {|
  sim := (Z -> Z) * option (list Z);
  udp_send b s := match b with
    | [w; a; v] => (true, if w =? 1 then (fun x => if x =? a then v else s.1 x, None) else (s.1, Some [0; a; s.1 a]))
    | _ => (false, s)
    end;
  udp_recv s := (s.2, (s.1, None));
  to_vec m := [Z.b2z (is_write m); addr m; value m];
  from_slice b := match b with [w; a; v] => Some (mk_rpc (w =? 1) a v) | _ => None end |}.

#[local] Instance demo_simulator_laws : SimulatorLaws demo_simulator.
Proof.
  refine {| sim_idle s := s.2 = None /\ forall a, u32 (s.1 a); sim_reg s := s.1 |}; cbn.
  - intros s a [_ Hu] _. apply Hu.
  - by intros [[] a v].
  - intros. lia.
  - intros [f o] a v [Ho Hu] Ha Hv. cbn in *. subst o. eexists. split; [done|]. split; [|done]. split; [done|]. intros x. cbn. by destruct (x =? a).
  - intros [f o] a [Ho Hu] Ha. cbn in *. subst o. by eexists.
Defined.

(** ** Witnesses *)

Definition blank_bar : SysfsPciCsrAdaptor := mk_sysfs (replicate (Z.to_nat 4096) 0).

Lemma blank_bar_shows : shows blank_bar (fun _ _ => 0).
Proof.
  split; [split; [vm_compute; lia|by apply Forall_replicate]|]. intros r g Hr%ring_ok_all. revert r Hr. apply list.Forall_forall.
  repeat first [apply Forall_nil_2|apply Forall_cons_2]; destruct g; vm_compute; reflexivity.
Qed.

Definition fives : @EmulatedDevice demo_simulator := @mk_emulated demo_simulator (fun _ => 5, None).

Lemma rings_have_own_registers_witness :
  (exists d, write_base_addr (inl (SendRingSpec 3)) 0x123456789A blank_bar = Done (Ok tt) d /\
     read_base_addr (inl (SendRingSpec 3)) d = Done (Ok 0x123456789A) d) /\
  (exists d, write_head CmdReqSpec 7 fives = Done (Ok tt) d).
Proof.
  split.
  - destruct (rings_have_own_registers blank_bar _ blank_bar_shows) as (_ & _ & Hb & _).
    destruct (Hb (inl (SendRingSpec 3))) as [_ Hw]; [by cbn|]. destruct (Hw 0x123456789A) as (d & E & _ & Er); [lia|]. by exists d.
  - destruct (rings_have_own_registers fives (fun _ _ => 5)) as (Hh & _).
    { split; [done|]. by intros. }
    destruct (Hh CmdReqSpec I) as [_ Hw]. destruct (Hw 7) as (d & E & _); [done|]. by exists d.
Defined.
