(* ===== verification/MemProxy.v ===== *)
(** * The memory proxy of the simulation

    rust-driver/src/memory_proxy_simple.rs: the simulated device reads and writes the
    memory of the driver through requests that arrive as lines of JSON.  The JSON is a
    parameter ([Json]); what the socket does is part of the state: the lines that are read
    and the results of the writes. *)

From Stdlib Require Import ZArith Lia String.
From stdpp Require Import base list gmap strings numbers.
From S2P Require Import Prelude RustBase WorkReq Qp Mem.

#[local] Open Scope Z_scope.
#[local] Open Scope cint_scope.

(** ** The code *)

Record SimpleMemRequest : Set := mk_req {
  request_type : string; rq_channel_id : Z; address : Z; rq_length : Z; rq_data : option (list Z);
  rq_start_byte_index : option Z; rq_is_first : option bool; rq_is_last : option bool; rq_request_id : option string }.

Record SimpleMemResponse : Set := mk_resp {
  response_type : string; rs_channel_id : Z; rs_data : option (list Z);
  rs_start_byte_index : option Z; rs_is_first : option bool; rs_is_last : option bool; rs_request_id : option string }.

(** [serde_json] on strings, which are lists of characters. *)
Class Json : Type := {
  from_str : list Z -> option SimpleMemRequest;
  to_string : SimpleMemResponse -> option (list Z) }.

(** What [read_line] gives: a line, no bytes, an error because nothing came in time, or
    another error. *)
Inductive read_result : Set := RdLine (l : list Z) | RdEof | RdTimeout | RdError.

(** [tcp_in] is what the next reads give, nothing more when it is empty; [tcp_writes] is
    whether the next writes succeed, all of them when it is empty; [tcp_out] is what was
    written.  [memory] is the memory of the process by virtual addresses. *)
Record SimpleMemoryProxyClient : Type := mk_proxy {
  tcp_in : list read_result; tcp_writes : list bool; tcp_out : list (list Z); pa_va_map : PaVaMap; memory : gmap Z Z }.

Definition MP : Type -> Type := M SimpleMemoryProxyClient.

Definition read_line : MP read_result := fun s =>
  match tcp_in s with
  | [] => Done RdEof s
  | r :: rest => Done r (mk_proxy rest (tcp_writes s) (tcp_out s) (pa_va_map s) (memory s))
  end.

Definition write_all (b : list Z) : MP bool := fun s =>
  if default true (head (tcp_writes s))
  then Done true (mk_proxy (tcp_in s) (tail (tcp_writes s)) (tcp_out s ++ [b]) (pa_va_map s) (memory s))
  else Done false (mk_proxy (tcp_in s) (tail (tcp_writes s)) (tcp_out s) (pa_va_map s) (memory s)).

(** [char::is_whitespace] *)
Definition is_whitespace (c : Z) : bool :=
  ((9 <=? c) && (c <=? 13)) || (c =? 0x20) || (c =? 0x85) || (c =? 0xA0) || (c =? 0x1680) || ((0x2000 <=? c) && (c <=? 0x200A))
  || (c =? 0x2028) || (c =? 0x2029) || (c =? 0x202F) || (c =? 0x205F) || (c =? 0x3000).

Fixpoint trim_start (l : list Z) : list Z :=
  match l with c :: l' => if is_whitespace c then trim_start l' else l | [] => [] end.
Definition trim (l : list Z) : list Z := reverse (trim_start (reverse (trim_start l))).

Definition NEWLINE : list Z := [10].

(** [Timeout] stands for [WouldBlock] and [TimedOut]. *)
Definition get_request `{Json} : MP (result SimpleMemRequest) :=
  r ← read_line;
  match r with
  | RdTimeout => mret (Err Timeout)
  | RdError | RdEof => mret (Err (IoError None))
  | RdLine line =>
      match from_str (trim line) with
      | Some request => mret (Ok request)
      | None => mret (Err (IoError None))
      end
  end.

Definition send_response `{Json} (response : SimpleMemResponse) : MP (result unit) :=
  match to_string response with
  | None => mret (Err (IoError None))
  | Some response_json =>
      ok ← write_all response_json;
      if negb ok then mret (Err (IoError None))
      else
        ok ← write_all NEWLINE;
        if negb ok then mret (Err (IoError None)) else mret (Ok tt)
  end.

(** [pa_va_map.lookup(addr).unwrap()] *)
Definition lookup_pa `{Profile} (pa : Z) : MP (Z * Z) := fun s =>
  match pv_lookup pa (pa_va_map s) with
  | Done (Some x) _ => Done x s
  | Done None _ => Fault Panic
  | Fault f => Fault f
  end.

Definition read_byte (va : Z) : MP Z := s ← get; demand OutOfBounds (memory s !! va).
Definition write_byte (va byte : Z) : MP unit :=
  read_byte va;;
  modify (fun s => mk_proxy (tcp_in s) (tcp_writes s) (tcp_out s) (pa_va_map s) (<[va := byte]> (memory s))).

Fixpoint read_bytes (va : Z) (n : nat) (data : list Z) : MP (list Z) :=
  match n with
  | O => mret data
  | S n' => byte ← read_byte va; read_bytes (va + 1) n' (data ++ [byte])
  end.

Fixpoint write_bytes (va : Z) (data : list Z) : MP unit :=
  match data with
  | [] => mret tt
  | byte :: data' => write_byte va byte;; write_bytes (va + 1) data'
  end.

Section handlers.
Context `{Profile} `{Json}.

Definition handle_read_request (req : SimpleMemRequest) : MP SimpleMemResponse :=
  '(vir_addr, remain_len) ← lookup_pa (address req);
  if negb (rq_length req <=? remain_len) then panic
  else
    data ← read_bytes vir_addr (Z.to_nat (rq_length req)) [];
    mret (mk_resp "mem_read_response" (rq_channel_id req) (Some data) (rq_start_byte_index req) (rq_is_first req) (rq_is_last req)
            (rq_request_id req)).

Definition handle_write_request (req : SimpleMemRequest) : MP unit :=
  '(vir_addr, remain_len) ← lookup_pa (address req);
  if negb (rq_length req <=? remain_len) then panic
  else
    data ← demand Panic (rq_data req);
    write_bytes vir_addr data.

Definition process_request : MP (result unit) :=
  request ← get_request;
  match request with
  | Err Timeout =>
      ok ← write_all NEWLINE;
      mret (if negb ok then Err (IoError None) else Ok tt)
  | Err e => mret (Err e)
  | Ok request =>
      if String.eqb (request_type request) "mem_read" then
        response ← handle_read_request request;
        send_response response
      else if String.eqb (request_type request) "mem_write" then
        handle_write_request request;;
        mret (Ok tt)
      else panic
  end.

(** The loop of the thread: it ends with the first error.  The result is whether it ended. *)
Fixpoint start_processing (fuel : nat) : MP bool :=
  match fuel with
  | O => mret false
  | S fuel' =>
      r ← process_request;
      match r with
      | Err _ => mret true
      | Ok _ => start_processing fuel'
      end
  end.

End handlers.

(** ** Physical memory *)

(** What the device sees: bytes at physical addresses. *)
Definition phys (rs : list AddressRange) (mem : gmap Z Z) (pa : Z) : option Z :=
  match list_find (fun r => contains r pa = true) rs with
  | Some (_, r) => mem !! (translate r pa).1
  | None => None
  end.

Definition range_of (a : Z) (n : nat) : list Z := (fun i => a + Z.of_nat i) <$> seq 0 n.

(** A reference device memory. *)
Definition pmem : Type := Z -> option Z.
Definition store (m : pmem) (a : Z) (data : list Z) : pmem := fun p =>
  if decide (a <= p < a + Z.of_nat (length data)) then data !! Z.to_nat (p - a) else m p.

(** What a request does to it, and the answer. *)
Definition serve (m : pmem) (req : SimpleMemRequest) : option SimpleMemResponse * pmem :=
  if String.eqb (request_type req) "mem_read" then
    (Some (mk_resp "mem_read_response" (rq_channel_id req) (Some (omap m (range_of (address req) (Z.to_nat (rq_length req)))))
       (rq_start_byte_index req) (rq_is_first req) (rq_is_last req) (rq_request_id req)), m)
  else (None, store m (address req) (default [] (rq_data req))).

(** The lines that are written for a run of requests, where [None] stands for a read that
    timed out. *)
Fixpoint serve_all `{Json} (m : pmem) (reqs : list (option SimpleMemRequest)) : list (list Z) * pmem :=
  match reqs with
  | [] => ([], m)
  | None :: reqs' => let '(l, m') := serve_all m reqs' in (NEWLINE :: l, m')
  | Some req :: reqs' =>
      let '(o, m1) := serve m req in
      let '(l, m2) := serve_all m1 reqs' in
      (match o with Some resp => default [] (to_string resp) :: NEWLINE :: l | None => l end, m2)
  end.

(** A request within one range, with as much data as it says. *)
Definition req_ok (rs : list AddressRange) (req : SimpleMemRequest) : Prop :=
  (exists r, r ∈ rs /\ pa_start r <= address req < pa_end r /\ 0 <= rq_length req /\ address req + rq_length req <= pa_end r) /\
  (request_type req = "mem_read"%string \/
   request_type req = "mem_write"%string /\ exists data, rq_data req = Some data /\ Z.of_nat (length data) = rq_length req).

(** What arrives: lines that hold such requests, and time-outs. *)
Definition arrives `{Json} (rs : list AddressRange) (rd : read_result) (o : option SimpleMemRequest) : Prop :=
  match rd, o with
  | RdLine l, Some req => from_str (trim l) = Some req /\ req_ok rs req
  | RdTimeout, None => True
  | _, _ => False
  end.

(** Every response can be written as JSON. *)
Class JsonLaws (J : Json) : Prop := to_string_total : forall r, is_Some (to_string r).

Definition in_va (r : AddressRange) (v : Z) : Prop := va_start r <= v < va_start r + (pa_end r - pa_start r).

(** The ranges are mapped, and no virtual address belongs to two of them. *)
Record backed (s : SimpleMemoryProxyClient) (rs : list AddressRange) : Prop := {
  bk_map : pv_inv (pa_va_map s) rs;
  bk_disjoint r1 r2 v : r1 ∈ rs -> r2 ∈ rs -> in_va r1 v -> in_va r2 v -> r1 = r2;
  bk_mapped r v : r ∈ rs -> in_va r v -> is_Some (memory s !! v) }.

Lemma range_of_S a n : range_of a (S n) = a :: range_of (a + 1) n.
Proof.
  unfold range_of. cbn [seq fmap list_fmap]. rewrite <- fmap_S_seq, <- list_fmap_compose. f_equal; [lia|].
  apply list_fmap_ext. intros i x _. cbn. lia.
Qed.

Lemma phys_in m rs mem r p : pv_inv m rs -> r ∈ rs -> pa_start r <= p < pa_end r -> phys rs mem p = mem !! (va_start r + (p - pa_start r)).
Proof.
  intros Hm Hr Hp. unfold phys. destruct (list_find _ rs) as [[i r']|] eqn:E.
  - apply list_find_Some in E as (Hi & Hc & _). apply list_elem_of_lookup_2 in Hi. rewrite (pv_disjoint _ _ Hm r' r p) by (done || by apply contains_true). done.
  - apply list_find_None in E. rewrite list.Forall_forall in E. exfalso. apply (E r Hr). by apply contains_true.
Qed.

Lemma phys_out rs mem p : (forall r, r ∈ rs -> ~ pa_start r <= p < pa_end r) -> phys rs mem p = None.
Proof.
  intros Hp. unfold phys. destruct (list_find _ rs) as [[i r']|] eqn:E; [|done].
  apply list_find_Some in E as (Hi & Hc & _). apply list_elem_of_lookup_2 in Hi. apply contains_true in Hc. by destruct (Hp r').
Qed.

Lemma read_byte_run s va x : memory s !! va = Some x -> read_byte va s = Done x s.
Proof. intros Hx. unfold read_byte, mbind, M_bind, get. by rewrite Hx. Qed.

Lemma read_bytes_run n s : forall va acc, (forall v, va <= v < va + Z.of_nat n -> is_Some (memory s !! v)) ->
  read_bytes va n acc s = Done (acc ++ omap (fun v => memory s !! v) (range_of va n)) s.
Proof.
  induction n as [|n IH]; intros va acc Hm; [by rewrite app_nil_r|]. cbn [read_bytes]. unfold mbind, M_bind.
  destruct (Hm va) as [x Hx]; [lia|]. rewrite (read_byte_run s va x Hx).
  rewrite range_of_S. cbn [omap list_omap]. rewrite Hx. rewrite IH by (intros v Hv; apply Hm; lia). by rewrite <- app_assoc.
Qed.

Definition with_memory (s : SimpleMemoryProxyClient) (mem : gmap Z Z) : SimpleMemoryProxyClient :=
  mk_proxy (tcp_in s) (tcp_writes s) (tcp_out s) (pa_va_map s) mem.

Lemma write_bytes_run data : forall s va, (forall v, va <= v < va + Z.of_nat (length data) -> is_Some (memory s !! v)) ->
  exists mem, write_bytes va data s = Done tt (with_memory s mem) /\
    forall v, mem !! v = store (fun v => memory s !! v) va data v.
Proof.
  induction data as [|b data IH]; intros s va Hm.
  - exists (memory s). split; [by destruct s|]. intros v. unfold store. cbn [length]. rewrite decide_False by lia. done.
  - cbn [write_bytes]. unfold write_byte, mbind, M_bind. cbn [length] in Hm. destruct (Hm va) as [x Hx]; [lia|].
    rewrite (read_byte_run s va x Hx). unfold modify. fold (with_memory s (<[va:=b]> (memory s))).
    destruct (IH (with_memory s (<[va := b]> (memory s))) (va + 1)) as (mem & E & Hmem).
    { intros v Hv. cbn. rewrite lookup_insert_ne by lia. apply Hm. lia. }
    exists mem. rewrite E. split; [done|]. intros v. rewrite Hmem. unfold store. cbn [memory with_memory length].
    destruct (decide (va + 1 <= v < va + 1 + Z.of_nat (length data))) as [Hv|Hv].
    + rewrite decide_True by lia. replace (Z.to_nat (v - va)) with (S (Z.to_nat (v - (va + 1)))) by lia. done.
    + destruct (decide (v = va)) as [->|Hne].
      * rewrite lookup_insert_eq, decide_True by lia. by rewrite Z.sub_diag.
      * rewrite lookup_insert_ne by done. rewrite decide_False by lia. done.
Qed.

Section proofs.
Context `{Profile} {J : Json} {JL : JsonLaws J}.
Implicit Types (s : SimpleMemoryProxyClient) (rs : list AddressRange).

Lemma lookup_pa_run s rs r p : pv_inv (pa_va_map s) rs -> r ∈ rs -> pa_start r <= p < pa_end r -> lookup_pa p s = Done (translate r p) s.
Proof.
  intros Hm Hr Hp. unfold lookup_pa. destruct (pv_lookup_run (pa_va_map s) rs p Hm) as [E _]. rewrite (E r Hr) by by apply contains_true. by destruct s.
Qed.

Lemma omap_translate m rs mem r a n : pv_inv m rs -> r ∈ rs -> pa_start r <= a -> a + Z.of_nat n <= pa_end r ->
  omap (fun v => mem !! v) (range_of (va_start r + (a - pa_start r)) n) = omap (phys rs mem) (range_of a n).
Proof.
  intros Hm Hr. revert a. induction n as [|n IH]; intros a Ha Hn; [done|]. rewrite !range_of_S. cbn [omap list_omap].
  rewrite (phys_in m rs mem r a) by (done || lia). rewrite <- IH by lia. by replace (va_start r + (a - pa_start r) + 1) with (va_start r + (a + 1 - pa_start r)) by lia.
Qed.

Lemma phys_store s rs r a data mem p : backed s rs -> r ∈ rs -> pa_start r <= a -> a + Z.of_nat (length data) <= pa_end r ->
  (forall v, mem !! v = store (fun v => memory s !! v) (va_start r + (a - pa_start r)) data v) ->
  phys rs mem p = store (phys rs (memory s)) a data p.
Proof.
  intros [Hm Hd Hb] Hr Ha Hn Hmem. destruct (decide (Exists (fun r' => contains r' p = true) rs)) as [(r' & Hr' & Hp%contains_true)%list.Exists_exists|Hno].
  - rewrite !(phys_in _ rs _ r' p Hm Hr' Hp), Hmem. unfold store. destruct (decide (a <= p < a + Z.of_nat (length data))) as [Hin|Hout].
    + assert (r' = r) as -> by (apply (pv_disjoint _ _ Hm r' r p); [done|done|by apply contains_true|apply contains_true; lia]).
      rewrite decide_True by lia. f_equal. lia.
    + rewrite decide_False; [by rewrite (phys_in _ rs _ r' p Hm Hr' Hp)|]. intros Hv. assert (r' = r) as -> by (apply (Hd r' r (va_start r' + (p - pa_start r'))); [done|done|unfold in_va; lia..]). lia.
  - assert (Hout : forall r', r' ∈ rs -> ~ pa_start r' <= p < pa_end r') by (intros r' Hr' Hp; apply Hno, list.Exists_exists; exists r'; split; [done|by apply contains_true]).
    unfold store. rewrite !phys_out by done. rewrite decide_False; [done|]. intros Hin. apply (Hout r Hr). lia.
Qed.

Lemma backed_memory s rs mem tin wr out : backed s rs -> (forall v, is_Some (memory s !! v) -> is_Some (mem !! v)) ->
  backed (mk_proxy tin wr out (pa_va_map s) mem) rs.
Proof. intros [Hm Hd Hb] Hmem. split; [done|done|]. intros r v Hr Hv. cbn. by eapply Hmem, Hb. Qed.

Lemma serve_ext m m' req : (forall p, m p = m' p) -> (serve m req).1 = (serve m' req).1 /\ forall p, (serve m req).2 p = (serve m' req).2 p.
Proof.
  intros E. unfold serve. destruct (String.eqb _ _); cbn; [|split; [done|]; intros p; unfold store; by case_decide].
  split; [|done]. do 3 f_equal. induction (range_of _ _) as [|x l IH]; [done|]. cbn. by rewrite E, IH.
Qed.

Lemma serve_all_ext reqs : forall m m', (forall p, m p = m' p) ->
  (serve_all m reqs).1 = (serve_all m' reqs).1 /\ forall p, (serve_all m reqs).2 p = (serve_all m' reqs).2 p.
Proof.
  induction reqs as [|[req|] reqs IH]; intros m m' E; [done|..]; cbn [serve_all].
  - destruct (serve_ext m m' req E) as [E1 E2]. destruct (serve m req) as [o m1], (serve m' req) as [o' m1']. cbn in E1, E2. subst o'.
    destruct (IH m1 m1' E2) as [E3 E4]. destruct (serve_all m1 reqs) as [l m2], (serve_all m1' reqs) as [l' m2']. cbn in *. by subst l'.
  - destruct (IH m m' E) as [E3 E4]. destruct (serve_all m reqs) as [l m2], (serve_all m' reqs) as [l' m2']. cbn in *. by subst l'.
Qed.

(** One round of the loop. *)
Lemma process_request_run s rs rd o rest : backed s rs -> tcp_in s = rd :: rest -> tcp_writes s = [] -> arrives rs rd o ->
  exists s', process_request s = Done (Ok tt) s' /\ tcp_in s' = rest /\ tcp_writes s' = [] /\ backed s' rs /\
    tcp_out s' = tcp_out s ++ (serve_all (phys rs (memory s)) [o]).1 /\ forall p, phys rs (memory s') p = (serve_all (phys rs (memory s)) [o]).2 p.
Proof.
  intros Hb Hin Hw Ha. destruct rd as [l| | |], o as [req|]; try done; cbn in Ha; unfold process_request, get_request, read_line, mbind, M_bind; rewrite Hin.
  2:{ cbn. unfold write_all. cbn. rewrite Hw. cbn. eexists. split; [done|]. cbn. split_and!; try done. by apply backed_memory. }
  destruct Ha as [El [(r & Hr & Hp & Hl0 & Hl) Hty]]. unfold mret, M_ret. rewrite El.
  set (s1 := mk_proxy rest (tcp_writes s) (tcp_out s) (pa_va_map s) (memory s)). assert (Hb1 : backed s1 rs) by by apply backed_memory.
  assert (Hrange : forall n, Z.of_nat n <= rq_length req -> forall v, va_start r + (address req - pa_start r) <= v < va_start r + (address req - pa_start r) + Z.of_nat n ->
    is_Some (memory s1 !! v)) by (intros n Hn v Hv; apply (bk_mapped _ _ Hb1 r v Hr); unfold in_va; lia).
  assert (Hlk : lookup_pa (address req) s1 = Done (translate r (address req)) s1) by (apply (lookup_pa_run s1 rs); [apply Hb1|done..]).
  destruct Hty as [Et|[Et (data & Ed & Hlen)]]; rewrite Et; cbn [String.eqb Ascii.eqb Bool.eqb]; unfold mbind, M_bind; cbn [serve_all]; unfold serve; rewrite Et;
    cbn [String.eqb Ascii.eqb Bool.eqb fst snd].
  - unfold handle_read_request, mbind, M_bind. rewrite Hlk. cbn [translate]. rewrite (proj2 (Z.leb_le _ _)) by lia. cbn [negb].
    rewrite read_bytes_run by (intros v Hv; apply (Hrange (Z.to_nat (rq_length req))); lia).
    rewrite (omap_translate (pa_va_map s1) rs _ r) by (apply Hb1 || done || lia). unfold mret, M_ret, send_response. cbn [app].
    set (resp := mk_resp _ _ _ _ _ _ _). destruct (to_string_total resp) as [j Hj]. rewrite Hj. unfold mbind, M_bind, write_all. cbn [s1 tcp_writes]. rewrite Hw. cbn.
    eexists. split; [done|]. cbn. split_and!; try done; [by apply backed_memory|]. by rewrite <- app_assoc.
  - unfold handle_write_request, mbind, M_bind. rewrite Hlk. cbn [translate]. rewrite (proj2 (Z.leb_le _ _)) by lia. cbn [negb]. rewrite Ed. cbn [demand default].
    destruct (write_bytes_run data s1 (va_start r + (address req - pa_start r))) as (mem & E & Hmem); [intros v Hv; apply (Hrange (length data)); lia|].
    unfold mret, M_ret. rewrite E. eexists. split; [done|]. cbn. split_and!; try done; [|by rewrite app_nil_r|].
    + apply (backed_memory s1); [done|]. intros v Hv. rewrite Hmem. unfold store. case_decide; [|done]. apply lookup_lt_is_Some_2. lia.
    + intros p. apply (phys_store s1 rs r (address req) data mem p Hb1); [done|lia|lia|done].
Qed.

Lemma serve_all_app l2 : forall l1 m,
  serve_all m (l1 ++ l2) = ((serve_all m l1).1 ++ (serve_all (serve_all m l1).2 l2).1, (serve_all (serve_all m l1).2 l2).2).
Proof.
  induction l1 as [|[req|] l1 IH]; intros m; cbn [serve_all app].
  - cbn [fst snd app]. by destruct (serve_all m l2).
  - destruct (serve m req) as [o m1]. rewrite IH. destruct (serve_all m1 l1) as [l m2]. cbn. by destruct o.
  - rewrite IH. destruct (serve_all m l1) as [l m2]. by cbn.
Qed.

(** C28: while the device stays within the memory that is mapped for it, the proxy behaves
    like a memory: over any run of requests, with time-outs in between, it never panics or
    touches other memory, the lines it writes are exactly the answers a physical memory
    would give to the same requests in the same order, and a line of its own for each
    time-out, the memory that the device sees at the end is that of the physical memory,
    and the thread ends when the connection is closed. *)
Theorem proxy_serves_memory s rs reqs : backed s rs -> tcp_writes s = [] -> Forall2 (arrives rs) (tcp_in s) reqs ->
  exists s', start_processing (S (length reqs)) s = Done true s' /\ backed s' rs /\
    tcp_out s' = tcp_out s ++ (serve_all (phys rs (memory s)) reqs).1 /\ forall p, phys rs (memory s') p = (serve_all (phys rs (memory s)) reqs).2 p.
Proof.
  intros Hb Hw Ha. remember (tcp_in s) as tin eqn:Hin. symmetry in Hin. revert s Hb Hw Hin. induction Ha as [|rd o tin reqs Ho _ IH]; intros s Hb Hw Hin.
  - exists s. cbn [length start_processing]. unfold process_request, get_request, read_line, mbind, M_bind. rewrite Hin. cbn. by rewrite app_nil_r.
  - destruct (process_request_run s rs rd o tin Hb Hin Hw Ho) as (s1 & E1 & Hin1 & Hw1 & Hb1 & Ho1 & Hp1).
    destruct (IH s1 Hb1 Hw1 Hin1) as (s2 & E2 & Hb2 & Ho2 & Hp2). exists s2. cbn [length]. cbn [start_processing] in *. unfold mbind, M_bind in *. rewrite E1.
    split; [exact E2|]. split; [done|]. destruct (serve_all_ext reqs _ _ Hp1) as [X1 X2]. change (o :: reqs) with ([o] ++ reqs). rewrite serve_all_app.
    split; [by rewrite Ho2, Ho1, X1, <- app_assoc|]. intros p. by rewrite Hp2, X2.
Qed.

(** A request outside the mapped memory, or one that does not end in the range where it
    starts, ends the process. *)
Lemma proxy_panics_outside s rs req : backed s rs ->
  (forall r, r ∈ rs -> pa_start r <= address req < pa_end r -> pa_end r < address req + rq_length req) ->
  handle_read_request req s = Fault Panic /\ handle_write_request req s = Fault Panic.
Proof.
  intros Hb Hout. unfold handle_read_request, handle_write_request, mbind, M_bind.
  destruct (decide (Exists (fun r' => contains r' (address req) = true) rs)) as [(r & Hr & Hp%contains_true)%list.Exists_exists|Hno].
  - rewrite (lookup_pa_run s rs r) by (apply Hb || done). cbn [translate]. specialize (Hout r Hr Hp). by rewrite (proj2 (Z.leb_gt _ _)) by lia.
  - unfold lookup_pa. destruct (pv_lookup_run (pa_va_map s) rs (address req) (bk_map _ _ Hb)) as [_ E]. rewrite E; [done|].
    intros r Hr. destruct (contains r (address req)) eqn:Ec; [|done]. exfalso. apply Hno, list.Exists_exists. by exists r.
Qed.

End proofs.

(** ** An example *)

(** One range; JSON that knows two lines. *)
Definition write_req (data : list Z) : SimpleMemRequest :=
  mk_req "mem_write" 0 0x1000 2 (Some data) None None None None.
Definition read_req : SimpleMemRequest :=
  mk_req "mem_read" 1 0x1001 2 None (Some 0) (Some true) (Some false) (Some "req_1"%string).

#[local] Instance demo_json : Json := {|
  from_str l := match l with [87; n] => Some (write_req [n; 8]) | [76] => Some (write_req [1; 2; 3]) | [82] => Some read_req | _ => None end;
  to_string r := Some (default [] (rs_data r)) |}.

#[local] Instance demo_json_laws : JsonLaws demo_json.
Proof. intros r. by eexists. Qed.

Definition demo_range : AddressRange := mk_range 0x1000 0x1004 0x7000.
Definition demo_proxy (tin : list read_result) : SimpleMemoryProxyClient :=
  mk_proxy tin [] [] (mk_pavamap [(0x1000, demo_range)] [(0x7000, 0x1000)])
    (list_to_map [(0x7000, 0); (0x7001, 0); (0x7002, 5); (0x7003, 0); (0x7004, 9)]).

Lemma demo_map_inv : pv_inv (mk_pavamap [(0x1000, demo_range)] [(0x7000, 0x1000)]) [demo_range].
Proof.
  destruct (pv_insert_run (H := dev_profile) PaVaMap_new [] 0x1000 0x7000 4 pv_inv_new)
    as [[(r & Hr & _) _]|[_ (m & E & Hm)]]; try lia; [intros r Hr; by apply elem_of_nil in Hr|by apply elem_of_nil in Hr|].
  vm_compute in E. injection E as <-. exact Hm.
Qed.

Lemma demo_backed tin : backed (demo_proxy tin) [demo_range].
Proof.
  split; [exact demo_map_inv|..].
  - by intros r1 r2 v ->%list_elem_of_singleton ->%list_elem_of_singleton.
  - intros r v ->%list_elem_of_singleton Hv. unfold in_va in Hv. cbn in Hv.
    assert (Hc : v = 0x7000 \/ v = 0x7001 \/ v = 0x7002 \/ v = 0x7003) by lia. destruct Hc as [->|[->|[->| ->]]]; vm_compute; by eexists.
Qed.

(** A write, a time-out and a read that sees the write. *)
Lemma proxy_serves_memory_witness :
  exists s, start_processing (H := dev_profile) 4 (demo_proxy [RdLine [87; 7; 10]; RdTimeout; RdLine [82; 10]]) = Done true s /\
    tcp_out s = [NEWLINE; [8; 5]; NEWLINE].
Proof.
  destruct (proxy_serves_memory (H := dev_profile) (demo_proxy [RdLine [87; 7; 10]; RdTimeout; RdLine [82; 10]]) [demo_range]
    [Some (write_req [7; 8]); None; Some read_req] (demo_backed _) eq_refl) as (s & E & _ & Ho & _).
  { assert (Hr : demo_range ∈ [demo_range]) by by apply list_elem_of_singleton.
    apply Forall2_cons; [|apply Forall2_cons; [done|apply Forall2_cons; [|constructor]]]; (split; [reflexivity|]); split.
    - exists demo_range. split; [done|]. cbn. lia.
    - right. split; [done|]. by eexists.
    - exists demo_range. split; [done|]. cbn. lia.
    - by left. }
  exists s. split; [exact E|]. rewrite Ho. vm_compute. reflexivity.
Defined.

(** The length of a write is checked, but all of its data is written: a request that says 2
    bytes and brings 3 at the last 2 bytes of a range changes memory behind the range. *)
Lemma long_write_overruns :
  exists s, handle_write_request (H := dev_profile) (mk_req "mem_write" 0 0x1002 2 (Some [1; 2; 3]) None None None None) (demo_proxy []) = Done tt s /\
    memory (demo_proxy []) !! 0x7004 = Some 9 /\ memory s !! 0x7004 = Some 3.
Proof. eexists. split; [vm_compute; reflexivity|]. split; vm_compute; reflexivity. Qed.
