(* ===== verification/Mock.v ===== *)
(** * The mock device

    rust-driver/src/verbs/mock.rs: a device of software.  Every queue pair has a thread and
    a TCP connection to its peer; requests and responses are messages on the connections.
    The model is a world of devices: their calls and the steps of their threads follow each
    other in any order, and between them the network brings the bytes of the streams, in
    order but in parts of any size.  A read takes what has arrived: when that is only a part
    of a message, the part is lost.  The bytes of the messages ([Bincode]) and which
    addresses lead to which sockets ([Hosts]) are parameters. *)

From Stdlib Require Import ZArith Lia.
From stdpp Require Import base list gmap numbers.
From S2P Require Import Prelude RustBase Psn WorkReq Qp Tasks Mem Ctx.

#[local] Open Scope Z_scope.
#[local] Open Scope cint_scope.

(** ** Messages *)

Record RdmaWriteReq : Set := mk_write_req { w_raddr : Z; w_imm : Z; w_data : list Z; w_wr_id : Z; w_ack_req : bool }.
Record RdmaReadReq : Set := mk_read_req { r_laddr : Z; r_raddr : Z; r_len : Z; r_ack_req : bool; r_wr_id : Z }.
Record RdmaReadResp : Set := mk_read_resp { p_laddr : Z; p_raddr : Z; p_data : list Z; p_wr_id : Z; p_ack_req : bool }.
Record WriteOrSendResp : Set := mk_ws_resp { s_wr_id : Z; s_ack_req : bool }.
Record SendReq : Set := mk_send_req { q_wr_id : Z; q_data : list Z; q_imm : option Z; q_ack_req : bool }.

Inductive QpTransportMessage : Set :=
| WriteReq (x : RdmaWriteReq) | WriteWithImmReq (x : RdmaWriteReq) | ReadReq (x : RdmaReadReq) | SendReq_ (x : SendReq)
| WriteResp (x : WriteOrSendResp) | WriteWithImmResp (x : WriteOrSendResp) | ReadResp (x : RdmaReadResp) | SendResp (x : WriteOrSendResp).

(** [decode_from_reader] on the bytes that are there: a message if there is one, and the
    bytes that are left. *)
Class Bincode : Type := {
  encode_to_vec : QpTransportMessage -> list Z;
  decode_from_reader : list Z -> option QpTransportMessage * list Z }.

(** A message is read back as it was written, with what follows it left over; of a message that
    is not there whole nothing is returned (and what is left over is not known). *)
Class BincodeLaws `{Bincode} : Prop := {
  decode_encode m rest : decode_from_reader (encode_to_vec m ++ rest) = (Some m, rest);
  decode_nil : decode_from_reader [] = (None, []);
  decode_part m part rest : encode_to_vec m = part ++ rest -> rest <> [] -> fst (decode_from_reader part) = None }.

(** Whether a connection of a device to an address gets to the socket that another device
    bound, and whether two sockets cannot be bound to the same port. *)
Class Hosts : Type := {
  reaches : Z -> Z -> Z -> Z -> bool;
  in_use : Z -> Z -> Z -> Z -> bool }.

(** ** State *)

(** The shared part of a [QpConnetion]: where its socket is bound, the streams that were
    not accepted yet, the streams it reads from and writes to, and its peer. *)
Record Inner : Set := mk_inner {
  in_dev : Z; in_ip : Z; in_port : Z; listener : list Z; rx_chan : option Z; tx_chan : option Z; in_addr : option (Z * Z); in_qpn : Z }.

(** Between the rounds of its loop a thread has read its tasks or not; it ends or panics. *)
Inductive phase : Set := AtTasks | AtRecv | Finished | Panicked.

#[export] Instance phase_eq_dec : EqDecision phase.
Proof. solve_decision. Defined.

(** The thread of a queue pair with what it owns: [t_tasks] is the channel of local tasks. *)
Record thread : Set := mk_thread {
  t_qpn : Z; t_send_cq : option Z; t_recv_cq : option Z; t_tasks : list RecvWr; recv_reqs : list RecvWr; abort_signal : bool; t_phase : phase }.

Record Mr : Set := mk_mock_mr { m_addr : Z; m_length : Z }.

(** [qc_conn] names the connection; [qc_handle] is whether the thread and its signal are
    still held. *)
Record QpCtx : Set := mk_qp_ctx { dpq_ip : option Z; dpqn : option Z; qc_conn : option Z; qc_handle : bool }.

Record MockDeviceCtx {V : Type} : Type := mk_mock {
  mr_key : Z; cq_handle : Z; self_ip : Z; cq_table : gmap Z Z; qp_ctx_table : QpTable QpCtx; qp_local_task_tx : option Z;
  qp_manager : V; mr_table : list Mr; pd_table : V; local_memory : gmap Z Z }.
Arguments MockDeviceCtx V : clear implicits.
Arguments mk_mock {V}.

(** What happened so far, for the statements: completions that were pushed, and requests that
    were written to a connection. *)
Inductive log_line : Set :=
| LogCompletion (conn : Z) (c : Completion)
| LogPostSend (conn : Z) (wr : SendWr).

(** A stream: the bytes that have arrived at the reader and were not read, and those that are
    under way.  For the statements, [torn] keeps whether a read ended in the middle of a
    message. *)
Record stream : Set := mk_stream { arrived : list Z; flight : list Z; torn : bool }.

(** Connections, streams and completion queues are shared: they have numbers. *)
Record world {V : Type} : Type := mk_world {
  devs : gmap Z (MockDeviceCtx V); conns : gmap Z Inner; threads : gmap Z thread; streams : gmap Z stream;
  cqs : gmap Z (list Completion); next_id : Z; log : list log_line }.
Arguments world V : clear implicits.
Arguments mk_world {V}.

Section mock.
Context {V : Type} `{BitVec V} `{Profile} `{Bincode} `{Hosts}.
Notation MW := (M (world V)).

Definition set_devs x : MW unit := modify (fun w => mk_world x (conns w) (threads w) (streams w) (cqs w) (next_id w) (log w)).
Definition set_conn c x : MW unit := modify (fun w => mk_world (devs w) (<[c := x]> (conns w)) (threads w) (streams w) (cqs w) (next_id w) (log w)).
Definition set_thread c x : MW unit := modify (fun w => mk_world (devs w) (conns w) (<[c := x]> (threads w)) (streams w) (cqs w) (next_id w) (log w)).
Definition set_stream c x : MW unit := modify (fun w => mk_world (devs w) (conns w) (threads w) (<[c := x]> (streams w)) (cqs w) (next_id w) (log w)).
Definition set_cq c x : MW unit := modify (fun w => mk_world (devs w) (conns w) (threads w) (streams w) (<[c := x]> (cqs w)) (next_id w) (log w)).
Definition report x : MW unit := modify (fun w => mk_world (devs w) (conns w) (threads w) (streams w) (cqs w) (next_id w) (log w ++ [x])).
Definition fresh_id : MW Z := fun w =>
  Done (next_id w) (mk_world (devs w) (conns w) (threads w) (streams w) (cqs w) (next_id w + 1) (log w)).

Definition get_dev (d : Z) : MW (MockDeviceCtx V) := w ← get; demand UseAfterFree (devs w !! d).
Definition set_dev (d : Z) (x : MockDeviceCtx V) : MW unit := w ← get; set_devs (<[d := x]> (devs w)).
Definition get_conn (c : Z) : MW Inner := w ← get; demand UseAfterFree (conns w !! c).
Definition get_thread (c : Z) : MW thread := w ← get; demand UseAfterFree (threads w !! c).

(** ** Connections *)

Definition PORT_START_ADDR : Z := 10000.
Definition get_port {S} (qpn : Z) : M S Z := uadd 16 PORT_START_ADDR (wrap 16 qpn).

Definition bound_by (f : Inner -> bool) (w : world V) : option Z :=
  fst <$> head (filter (fun e => f e.2 = true) (map_to_list (conns w))).

(** [Inner::new] and [QpConnetion::new]: binding fails when the port is in use. *)
Definition Inner_new (d ip qpn : Z) : MW Z :=
  port ← get_port qpn;
  w ← get;
  match bound_by (fun k => (in_port k =? port) && in_use d ip (in_dev k) (in_ip k)) w with
  | Some _ => panic
  | None => c ← fresh_id; set_conn c (mk_inner d ip port [] None None None qpn);; mret c
  end.

Definition conn_connect (c qpn addr : Z) : MW unit :=
  port ← get_port qpn;
  k ← get_conn c;
  set_conn c (mk_inner (in_dev k) (in_ip k) (in_port k) (listener k) (rx_chan k) (tx_chan k) (Some (addr, port)) (in_qpn k)).

(** [TcpStream::connect]: a new stream waits at the socket that the address leads to. *)
Definition tcp_connect (d ip port : Z) : MW (option Z) :=
  w ← get;
  match bound_by (fun k => (in_port k =? port) && reaches d ip (in_dev k) (in_ip k)) w with
  | None => mret None
  | Some c' =>
      s ← fresh_id;
      set_stream s (mk_stream [] [] false);;
      k' ← get_conn c';
      set_conn c' (mk_inner (in_dev k') (in_ip k') (in_port k') (listener k' ++ [s]) (rx_chan k') (tx_chan k') (in_addr k') (in_qpn k'));;
      mret (Some s)
  end.

(** [Inner::send]; [false] where it panics. *)
Definition conn_send (c : Z) (data : QpTransportMessage) : MW bool :=
  k ← get_conn c;
  o ← match tx_chan k with
      | Some s => mret (Some s)
      | None =>
          match in_addr k with
          | None => mret None
          | Some (ip, port) =>
              o ← tcp_connect (in_dev k) ip port;
              match o with
              | None => mret None
              | Some s =>
                  k ← get_conn c;
                  set_conn c (mk_inner (in_dev k) (in_ip k) (in_port k) (listener k) (rx_chan k) (Some s) (in_addr k) (in_qpn k));;
                  mret (Some s)
              end
          end
      end;
  match o with
  | None => mret false
  | Some s =>
      w ← get;
      x ← demand UseAfterFree (streams w !! s);
      set_stream s (mk_stream (arrived x) (flight x ++ encode_to_vec data) (torn x));;
      mret true
  end.

(** [n] more bytes arrive. *)
Definition arrive (s : Z) (n : nat) : MW unit :=
  w ← get;
  match streams w !! s with
  | None => mret tt
  | Some x => set_stream s (mk_stream (arrived x ++ take n (flight x)) (drop n (flight x)) (torn x))
  end.

(** [Inner::recv]; the read waits for a millisecond at most ([set_read_timeout]) and then ends
    with what it has read of the bytes that arrived. *)
Definition conn_recv (c : Z) : MW (option QpTransportMessage) :=
  k ← get_conn c;
  o ← match rx_chan k with
      | Some s => mret (Some s)
      | None =>
          match listener k with
          | [] => mret None
          | s :: rest =>
              set_conn c (mk_inner (in_dev k) (in_ip k) (in_port k) rest (Some s) (tx_chan k) (in_addr k) (in_qpn k));;
              mret (Some s)
          end
      end;
  match o with
  | None => mret None
  | Some s =>
      w ← get;
      x ← demand UseAfterFree (streams w !! s);
      let '(m, rest) := decode_from_reader (arrived x) in
      set_stream s (mk_stream rest (flight x) (torn x || match m, arrived x with None, _ :: _ => true | _, _ => false end));;
      mret m
  end.

(** ** Memory *)

Fixpoint copy_out (mem : gmap Z Z) (a : Z) (n : nat) : option (list Z) :=
  match n with
  | O => Some []
  | S n' => x ← mem !! a; l ← copy_out mem (a + 1) n'; Some (x :: l)
  end.

Fixpoint copy_in (mem : gmap Z Z) (a : Z) (data : list Z) : option (gmap Z Z) :=
  match data with
  | [] => Some mem
  | x :: data' => _ ← mem !! a; copy_in (<[a := x]> mem) (a + 1) data'
  end.

Definition read_local_addr (d addr len : Z) : MW (list Z) :=
  x ← get_dev d;
  demand OutOfBounds (copy_out (local_memory x) addr (Z.to_nat len)).

(** [MrTable::valid]; nothing where the additions overflow. *)
Fixpoint mr_valid (table : list Mr) (a l : Z) : option bool :=
  match table with
  | [] => Some false
  | mr :: table' =>
      if m_addr mr <=? a then
        match uadd 64 a l tt, uadd 64 (m_addr mr) (m_length mr) tt with
        | Done x _, Done y _ => if x <? y then Some true else mr_valid table' a l
        | _, _ => None
        end
      else mr_valid table' a l
  end.

Definition put_memory (mem : gmap Z Z) (x : MockDeviceCtx V) : MockDeviceCtx V :=
  mk_mock (mr_key x) (cq_handle x) (self_ip x) (cq_table x) (qp_ctx_table x) (qp_local_task_tx x) (qp_manager x) (mr_table x) (pd_table x) mem.

(** [false] where it panics. *)
Definition write_local_addr (d addr : Z) (data : list Z) : MW bool :=
  x ← get_dev d;
  match mr_valid (mr_table x) addr (Z.of_nat (length data)) with
  | None => mret false
  | Some false => mret true
  | Some true =>
      mem ← demand OutOfBounds (copy_in (local_memory x) addr data);
      set_dev d (put_memory mem x);;
      mret true
  end.

(** ** The thread of a queue pair *)

Definition push_completion (c : Z) (cq : option Z) (x : Completion) : MW unit :=
  match cq with
  | None => mret tt
  | Some h =>
      report (LogCompletion c x);;
      w ← get;
      l ← demand UseAfterFree (cqs w !! h);
      set_cq h (l ++ [x])
  end.

(** One message; [None] where the thread panics, otherwise the receive requests left. *)
Definition handle (c : Z) (t : thread) (msg : QpTransportMessage) : MW (option (list RecvWr)) :=
  k ← get_conn c;
  let d := in_dev k in
  let reqs := recv_reqs t in
  match msg with
  | WriteReq x =>
      ok ← write_local_addr d (w_raddr x) (w_data x);
      if negb ok then mret None
      else
        ok ← conn_send c (WriteResp (mk_ws_resp (w_wr_id x) (w_ack_req x)));
        mret (if negb ok then None else Some reqs)
  | WriteWithImmReq x =>
      ok ← write_local_addr d (w_raddr x) (w_data x);
      if negb ok then mret None
      else
        push_completion c (t_recv_cq t) (ComplRecvRdmaWithImm (w_imm x));;
        ok ← conn_send c (WriteResp (mk_ws_resp (w_wr_id x) (w_ack_req x)));
        mret (if negb ok then None else Some reqs)
  | SendReq_ x =>
      match reqs with
      | [] => mret None
      | req :: reqs' =>
          ok ← write_local_addr d (rv_addr req) (q_data x);
          if negb ok then mret None
          else
            push_completion c (t_recv_cq t) (ComplRecv (q_wr_id x) (q_imm x));;
            ok ← conn_send c (WriteResp (mk_ws_resp (q_wr_id x) (q_ack_req x)));
            mret (if negb ok then None else Some reqs')
      end
  | ReadReq x =>
      data ← read_local_addr d (r_raddr x) (r_len x);
      ok ← conn_send c (ReadResp (mk_read_resp (r_laddr x) (r_raddr x) data (r_wr_id x) (r_ack_req x)));
      mret (if negb ok then None else Some reqs)
  | WriteResp x | WriteWithImmResp x =>
      (if s_ack_req x then push_completion c (t_send_cq t) (ComplRdmaWrite (s_wr_id x)) else mret tt);;
      mret (Some reqs)
  | SendResp x =>
      (if s_ack_req x then push_completion c (t_send_cq t) (ComplSend (s_wr_id x)) else mret tt);;
      mret (Some reqs)
  | ReadResp x =>
      ok ← write_local_addr d (p_laddr x) (p_data x);
      if negb ok then mret None
      else
        (if p_ack_req x then push_completion c (t_recv_cq t) (ComplRdmaRead (p_wr_id x)) else mret tt);;
        mret (Some reqs)
  end.

(** The round of the loop up to the signal, and the rest of it. *)
Definition thread_tasks (c : Z) : MW unit :=
  t ← get_thread c;
  if decide (t_phase t = AtTasks) then
    set_thread c (mk_thread (t_qpn t) (t_send_cq t) (t_recv_cq t) [] (recv_reqs t ++ t_tasks t) (abort_signal t)
      (if abort_signal t then Finished else AtRecv))
  else mret tt.

Definition at_phase (t : thread) (reqs : list RecvWr) (p : phase) : thread :=
  mk_thread (t_qpn t) (t_send_cq t) (t_recv_cq t) (t_tasks t) reqs (abort_signal t) p.

Definition thread_recv (c : Z) : MW unit :=
  t ← get_thread c;
  if decide (t_phase t = AtRecv) then
    o ← conn_recv c;
    match o with
    | None => set_thread c (at_phase t (recv_reqs t) AtTasks)
    | Some msg =>
        r ← handle c t msg;
        set_thread c (match r with Some reqs => at_phase t reqs AtTasks | None => at_phase t [] Panicked end)
    end
  else mret tt.

(** ** The calls *)

Definition mock_reg_mr `{PageFeature} `{HostPages} (d addr len : Z) : MW (result Z) :=
  pa ← virt_to_phys addr;
  match pa with
  | Err _ | Ok None => mret (Err MemoryError)
  | Ok (Some _) =>
      x ← get_dev d;
      key ← uadd 32 (mr_key x) 1;
      set_dev d (mk_mock key (cq_handle x) (self_ip x) (cq_table x) (qp_ctx_table x) (qp_local_task_tx x) (qp_manager x)
        (mr_table x ++ [mk_mock_mr addr len]) (pd_table x) (local_memory x));;
      mret (Ok key)
  end.

Definition mock_dereg_mr : MW (result unit) := mret (Ok tt).

Definition put_qp_ctx (qpn : Z) (q : QpCtx) (x : MockDeviceCtx V) : MockDeviceCtx V :=
  mk_mock (mr_key x) (cq_handle x) (self_ip x) (cq_table x) (<[Z.to_nat (qpn_to_index qpn) := q]> (qp_ctx_table x)) (qp_local_task_tx x)
    (qp_manager x) (mr_table x) (pd_table x) (local_memory x).

Definition put_manager (v : V) (x : MockDeviceCtx V) : MockDeviceCtx V :=
  mk_mock (mr_key x) (cq_handle x) (self_ip x) (cq_table x) (qp_ctx_table x) (qp_local_task_tx x) v (mr_table x) (pd_table x) (local_memory x).

(** A call on a part of the device. *)
Definition on_bits {A} (d : Z) (field : MockDeviceCtx V -> V) (put : V -> MockDeviceCtx V -> MockDeviceCtx V) (m : M V A) : MW A :=
  x ← get_dev d;
  match m (field x) with
  | Done a v => set_dev d (put v x);; mret a
  | Fault f => fail f
  end.

(** [key] is the random part of the number. *)
Definition mock_create_qp (d key : Z) (attr : IbvQpInitAttr) : MW (result Z) :=
  o ← on_bits d qp_manager put_manager (create_qp key);
  match o with
  | None => mret (Err QpError)
  | Some qpn =>
      x ← get_dev d;
      let send_cq := ia_send_cq attr ≫= fun h => cq_table x !! h in
      let recv_cq := ia_recv_cq attr ≫= fun h => cq_table x !! h in
      c ← Inner_new d (self_ip x) qpn;
      set_thread c (mk_thread qpn send_cq recv_cq [] [] false AtTasks);;
      match get_qp (qp_ctx_table x) qpn with
      | None => panic
      | Some ctx =>
          if decide (is_Some (qc_conn ctx)) then panic
          else
            set_dev d (mk_mock (mr_key x) (cq_handle x) (self_ip x) (cq_table x)
              (<[Z.to_nat (qpn_to_index qpn) := mk_qp_ctx (dpq_ip ctx) (dpqn ctx) (Some c) true]> (qp_ctx_table x)) (Some c)
              (qp_manager x) (mr_table x) (pd_table x) (local_memory x));;
            mret (Ok qpn)
      end
  end.

Definition LOCALHOST : Z := 0x7F000001.

Definition mock_update_qp (d qpn : Z) (attr : IbvQpAttr) : MW (result unit) :=
  let dqp_ip := default 0 (dest_qp_ip attr) in
  x ← get_dev d;
  match get_qp (qp_ctx_table x) qpn with
  | None => mret (Err QpError)
  | Some ctx =>
      let dqpn := match dest_qp_num attr with Some n => Some n | None => dpqn ctx end in
      let ip := if negb (dqp_ip =? 0) then Some dqp_ip else dpq_ip ctx in
      match dqpn with
      | None => set_dev d (put_qp_ctx qpn (mk_qp_ctx ip dqpn (qc_conn ctx) (qc_handle ctx)) x);; mret (Ok tt)
      | Some n =>
          let ip := default LOCALHOST ip in
          c ← demand Panic (qc_conn ctx);
          conn_connect c n ip;;
          set_dev d (put_qp_ctx qpn (mk_qp_ctx (Some ip) dqpn (qc_conn ctx) (qc_handle ctx)) x);;
          mret (Ok tt)
      end
  end.

(** [abort_signal.store(true); handle.join().unwrap()]: the thread runs up to the signal. *)
Definition stop_thread (c : Z) : MW unit :=
  t ← get_thread c;
  set_thread c (mk_thread (t_qpn t) (t_send_cq t) (t_recv_cq t) (t_tasks t) (recv_reqs t) true (t_phase t));;
  thread_recv c;;
  thread_tasks c;;
  t ← get_thread c;
  if decide (t_phase t = Panicked) then panic else mret tt.

Definition mock_destroy_qp (d qpn : Z) : MW (result unit) :=
  x ← get_dev d;
  match get_qp (qp_ctx_table x) qpn with
  | None => mret tt
  | Some ctx =>
      if negb (qc_handle ctx) then panic
      else
        c ← demand Panic (qc_conn ctx);
        stop_thread c;;
        x ← get_dev d;
        set_dev d (put_qp_ctx qpn (mk_qp_ctx (dpq_ip ctx) (dpqn ctx) (qc_conn ctx) false) x)
  end;;
  on_bits d qp_manager put_manager (destroy_qp qpn);;
  mret (Ok tt).

Definition mock_create_cq (d : Z) : MW (result Z) :=
  x ← get_dev d;
  h ← uadd 32 (cq_handle x) 1;
  i ← fresh_id;
  set_cq i [];;
  set_dev d (mk_mock (mr_key x) h (self_ip x) (<[h := i]> (cq_table x)) (qp_ctx_table x) (qp_local_task_tx x) (qp_manager x)
    (mr_table x) (pd_table x) (local_memory x));;
  mret (Ok h).

Definition mock_destroy_cq : MW (result unit) := mret (Ok tt).

Definition mock_poll_cq (d h max_num_entries : Z) : MW (list Completion) :=
  x ← get_dev d;
  match cq_table x !! h with
  | None => mret []
  | Some i =>
      w ← get;
      l ← demand UseAfterFree (cqs w !! i);
      set_cq i (drop (Z.to_nat max_num_entries) l);;
      mret (take (Z.to_nat max_num_entries) l)
  end.

Definition wr_base (wr : SendWr) : SendWrBase := match wr with WrRdma x => r_base x | WrSend x => x end.
Definition ack_req (wr : SendWr) : bool := negb (Z.land (b_send_flags (wr_base wr)) IBV_SEND_SIGNALED =? 0).

(** The message of a request. *)
Definition to_send (d : Z) (wr : SendWr) : MW (result QpTransportMessage) :=
  match wr with
  | WrRdma x =>
      let b := r_base x in
      match b_opcode b with
      | OpRdmaWrite =>
          data ← read_local_addr d (b_laddr b) (b_length b);
          mret (Ok (WriteReq (mk_write_req (raddr x) (b_imm_data b) data (b_wr_id b) (ack_req wr))))
      | OpRdmaWriteWithImm =>
          data ← read_local_addr d (b_laddr b) (b_length b);
          mret (Ok (WriteWithImmReq (mk_write_req (raddr x) (b_imm_data b) data (b_wr_id b) (ack_req wr))))
      | OpRdmaRead => mret (Ok (ReadReq (mk_read_req (b_laddr b) (raddr x) (b_length b) (ack_req wr) (b_wr_id b))))
      | _ => mret (Err Unimplemented)
      end
  | WrSend b =>
      data ← read_local_addr d (b_laddr b) (b_length b);
      mret (Ok (SendReq_ (mk_send_req (b_wr_id b) data (if b_imm_data b =? 0 then None else Some (b_imm_data b)) (ack_req wr))))
  end.

Definition mock_post_send (d qpn : Z) (wr : SendWr) : MW (result unit) :=
  m ← to_send d wr;
  match m with
  | Err e => mret (Err e)
  | Ok msg =>
      x ← get_dev d;
      match get_qp (qp_ctx_table x) qpn with
      | None => mret (Err QpError)
      | Some ctx =>
          c ← demand Panic (qc_conn ctx);
          ok ← conn_send c msg;
          if negb ok then panic
          else
            report (LogPostSend c wr);;
            mret (Ok tt)
      end
  end.

(** The task goes to the thread of the queue pair that was created last. *)
Definition mock_post_recv (d qpn : Z) (wr : RecvWr) : MW (result unit) :=
  x ← get_dev d;
  match qp_local_task_tx x with
  | None => mret (Err QpError)
  | Some c =>
      t ← get_thread c;
      match t_phase t with
      | Finished | Panicked => mret (Err QpError)
      | p =>
          set_thread c (mk_thread (t_qpn t) (t_send_cq t) (t_recv_cq t) (t_tasks t ++ [wr]) (recv_reqs t) (abort_signal t) p);;
          mret (Ok tt)
      end
  end.

Definition put_pds (v : V) (x : MockDeviceCtx V) : MockDeviceCtx V :=
  mk_mock (mr_key x) (cq_handle x) (self_ip x) (cq_table x) (qp_ctx_table x) (qp_local_task_tx x) (qp_manager x) (mr_table x) v (local_memory x).

Definition mock_alloc_pd (d : Z) : MW (result Z) :=
  o ← on_bits d pd_table put_pds pd_alloc;
  mret (match o with Some h => Ok h | None => Err ResourceExhausted end).

Definition mock_dealloc_pd (d h : Z) : MW (result unit) :=
  ok ← on_bits d pd_table put_pds (pd_dealloc h);
  mret (if negb ok then Err InvalidInput else Ok tt).

(** [MockDeviceCtx::default] with an address and some memory. *)
Definition MockDeviceCtx_default (ip : Z) (mem : gmap Z Z) : M unit (MockDeviceCtx V) :=
  m ← (QpManager_new : M unit V);
  p ← (PdTable_new : M unit V);
  mret (mk_mock 0 0 ip ∅ (QpTable_new_with (mk_qp_ctx None None None false)) None m [] p mem).

End mock.
