(* ===== verification/MockWorld.v ===== *)
(** * The mock device: what is shown

    Two queue pairs that are connected to each other, among any number of devices whose
    calls and threads interleave in any order with the arrival of bytes: unless a read ends
    within a message, completions come in the order of the requests, and nothing is lost
    unless a thread panics. *)

From Stdlib Require Import ZArith Lia.
From stdpp Require Import base list gmap numbers relations.
From S2P Require Import Prelude RustBase Psn WorkReq Qp Tasks Mem Ctx Mock.

#[local] Open Scope Z_scope.
#[local] Open Scope cint_scope.

(** ** Steps *)

(** The calls of an application on its device; [Poke] is a write to its own memory. *)
Inductive mock_call : Set :=
| CRegMr (a l : Z) | CDeregMr | CCreateQp (key : Z) (attr : IbvQpInitAttr) | CUpdateQp (qpn : Z) (attr : IbvQpAttr) | CDestroyQp (qpn : Z)
| CCreateCq | CDestroyCq | CPollCq (h n : Z) | CPostSend (qpn : Z) (wr : SendWr) | CPostRecv (qpn : Z) (wr : RecvWr)
| CAllocPd | CDeallocPd (h : Z) | Poke (a x : Z).

(** Calls, the two halves of the round of a thread, and bytes that arrive. *)
Inductive step : Set := Call (d : Z) (c : mock_call) | ThreadTasks (c : Z) | ThreadRecv (c : Z) | Arrive (s : Z) (n : nat).

#[local] Ltac w_ := cbn [devs conns threads streams cqs next_id log].

Section world.
Context {V : Type} {BV : BitVec V} {PR : Profile} {B : Bincode} {HO : Hosts} {PF : PageFeature} {HPg : HostPages}.
Notation MW := (M (world V)).
Implicit Types w : world V.

Definition poke (d a x : Z) : MW unit :=
  y ← get_dev d; set_dev d (put_memory (<[a := x]> (local_memory y)) y).

Definition run_call (d : Z) (c : mock_call) : MW unit :=
  match c with
  | CRegMr a l => mock_reg_mr d a l;; mret tt
  | CDeregMr => mock_dereg_mr;; mret tt
  | CCreateQp key attr => mock_create_qp d key attr;; mret tt
  | CUpdateQp qpn attr => mock_update_qp d qpn attr;; mret tt
  | CDestroyQp qpn => mock_destroy_qp d qpn;; mret tt
  | CCreateCq => mock_create_cq d;; mret tt
  | CDestroyCq => mock_destroy_cq;; mret tt
  | CPollCq h n => mock_poll_cq d h n;; mret tt
  | CPostSend qpn wr => mock_post_send d qpn wr;; mret tt
  | CPostRecv qpn wr => mock_post_recv d qpn wr;; mret tt
  | CAllocPd => mock_alloc_pd d;; mret tt
  | CDeallocPd h => mock_dealloc_pd d h;; mret tt
  | Poke a x => poke d a x
  end.

Definition run_step (s : step) : MW unit :=
  match s with Call d c => run_call d c | ThreadTasks c => thread_tasks c | ThreadRecv c => thread_recv c | Arrive s n => arrive s n end.

Definition mock_step w w' : Prop := exists s, run_step s w = Done tt w'.

(** ** Requests and completions *)

(** The signaled writes and sends that were written to a connection, and those that were
    completed on it; both kinds are completed as writes. *)
Definition req_line (c : Z) (x : log_line) : option Z :=
  match x with
  | LogPostSend c' wr =>
      match wr with
      | WrRdma r => match b_opcode (r_base r) with
                    | OpRdmaWrite | OpRdmaWriteWithImm => if decide (c' = c /\ ack_req wr = true) then Some (b_wr_id (r_base r)) else None
                    | _ => None
                    end
      | WrSend b => if decide (c' = c /\ ack_req wr = true) then Some (b_wr_id b) else None
      end
  | _ => None
  end.

Definition done_line (c : Z) (x : log_line) : option Z :=
  match x with LogCompletion c' (ComplRdmaWrite i) => if decide (c' = c) then Some i else None | _ => None end.

Definition requested w (c : Z) : list Z := omap (req_line c) (log w).
Definition completed w (c : Z) : list Z := omap (done_line c) (log w).

(** The same in messages. *)
Definition msg_req (m : QpTransportMessage) : option Z :=
  match m with
  | WriteReq x | WriteWithImmReq x => if w_ack_req x then Some (w_wr_id x) else None
  | SendReq_ x => if q_ack_req x then Some (q_wr_id x) else None
  | _ => None
  end.

Definition msg_ack (m : QpTransportMessage) : option Z :=
  match m with WriteResp x | WriteWithImmResp x => if s_ack_req x then Some (s_wr_id x) else None | _ => None end.

(** ** Connected queue pairs *)

(** [s] is the stream from connection [a] to connection [b], and no one else's. *)
Record ends w (a b s : Z) : Prop := {
  en_tx : exists k, conns w !! a = Some k /\ tx_chan k = Some s;
  en_rx : exists k, conns w !! b = Some k /\ rx_chan k = Some s;
  en_own c k : conns w !! c = Some k -> (tx_chan k = Some s -> c = a) /\ (rx_chan k = Some s -> c = b) /\ s ∉ listener k;
  en_old : s < next_id w }.

(** A thread that reports completions. *)
Definition serving w (c : Z) (t : thread) : Prop := threads w !! c = Some t /\ is_Some (t_send_cq t).

(** What was requested on [a] is completed, acknowledged by a message in [mba] or requested
    by one in [mab], in this order; a request is lost only where the thread of [b] panicked. *)
Definition flow w (a b : Z) (mab mba : list QpTransportMessage) : Prop := exists lost,
  completed w a ++ omap msg_ack mba ++ lost ++ omap msg_req mab = requested w a /\
  (lost = [] \/ exists t, threads w !! b = Some t /\ t_phase t = Panicked).

(** The stream holds these messages, arrived or under way, and no read ended within one. *)
Definition holds_msgs w (s : Z) (l : list QpTransportMessage) : Prop :=
  exists x f, streams w !! s = Some (mk_stream x f false) /\ x ++ f = mjoin (encode_to_vec <$> l).

Definition is_torn w (s : Z) : Prop := exists x, streams w !! s = Some x /\ torn x = true.
Definition is_empty w (s : Z) : Prop := exists x, streams w !! s = Some x /\ arrived x = [] /\ flight x = [].

Record base_inv w (a b sab sba : Z) : Prop := {
  bi_ab : ends w a b sab;
  bi_ba : ends w b a sba;
  bi_ids c : is_Some (conns w !! c) -> c < next_id w;
  bi_a : exists t, serving w a t;
  bi_b : exists t, serving w b t }.

Record pair_inv (a b sab sba : Z) w : Prop := {
  pi_base : base_inv w a b sab sba;
  pi_flow : exists mab mba, holds_msgs w sab mab /\ holds_msgs w sba mba /\ flow w a b mab mba /\ flow w b a mba mab }.

Lemma base_sym w a b sab sba : base_inv w a b sab sba -> base_inv w b a sba sab.
Proof. by intros [? ? ? ? ?]. Qed.

Lemma pair_sym a b sab sba w : pair_inv a b sab sba w -> pair_inv b a sba sab w.
Proof. intros [Hb (mab & mba & ? & ? & ? & ?)]. split; [by apply base_sym|]. by exists mba, mab. Qed.

(** ** Where a computation returns *)

Definition post {A} (m : MW A) w (Q : A -> world V -> Prop) : Prop := forall r w', m w = Done r w' -> Q r w'.

Lemma post_ret {A} (x : A) w Q : Q x w -> post (mret x) w Q.
Proof. by intros HQ r w' [= <- <-]. Qed.
Lemma post_fail {A} f w (Q : A -> world V -> Prop) : post (fail f) w Q.
Proof. by intros r w'. Qed.
Lemma post_bind {A C} (m : MW A) (k : A -> MW C) w Q : post m w (fun r w' => post (k r) w' Q) -> post (m ≫= k) w Q.
Proof. intros Hm r w'. unfold mbind, M_bind. destruct (m w) as [x w1|] eqn:E; [|done]. by apply Hm. Qed.
Lemma post_get w (Q : world V -> world V -> Prop) : Q w w -> post get w Q.
Proof. by intros HQ r w' [= <- <-]. Qed.
Lemma post_modify f w (Q : unit -> world V -> Prop) : Q tt (f w) -> post (modify f) w Q.
Proof. by intros HQ r w' [= <- <-]. Qed.
Lemma post_demand {A} f (o : option A) w Q : (forall x, o = Some x -> Q x w) -> post (demand f o) w Q.
Proof. destruct o as [x|]; [|done]. intros HQ r w' [= <- <-]. by apply HQ. Qed.
Lemma post_get_conn c w (Q : Inner -> world V -> Prop) : (forall k, conns w !! c = Some k -> Q k w) -> post (get_conn c) w Q.
Proof. intros HQ. unfold get_conn. apply post_bind, post_get. by apply post_demand. Qed.
Lemma post_get_thread c w (Q : thread -> world V -> Prop) : (forall t, threads w !! c = Some t -> Q t w) -> post (get_thread c) w Q.
Proof. intros HQ. unfold get_thread. apply post_bind, post_get. by apply post_demand. Qed.
Lemma post_mono {A} (m : MW A) w (Q Q' : A -> world V -> Prop) : (forall r w', Q r w' -> Q' r w') -> post m w Q -> post m w Q'.
Proof. intros HQ Hm r w' E. by apply HQ, Hm. Qed.
Lemma post_keeps {A} (m : MW A) (P : world V -> Prop) w (Q : A -> world V -> Prop) : keeps P m -> P w -> (forall r w', P w' -> Q r w') -> post m w Q.
Proof. intros Hk HP HQ r w' E. eapply HQ, Hk; [exact E|done]. Qed.

(** ** The connections *)

Lemma ends_frame w w' a b s : conns w' = conns w -> next_id w <= next_id w' -> ends w a b s -> ends w' a b s.
Proof. intros Ec En [H1 H2 H3 H4]. split; rewrite ?Ec; [done..|lia]. Qed.

Lemma ends_set_conn w w' a b s c k' : ends w a b s -> conns w' = <[c := k']> (conns w) -> next_id w <= next_id w' ->
  (forall k, conns w !! c = Some k -> (tx_chan k = Some s -> tx_chan k' = Some s) /\ (rx_chan k = Some s -> rx_chan k' = Some s)) ->
  (tx_chan k' = Some s -> c = a) -> (rx_chan k' = Some s -> c = b) -> s ∉ listener k' -> ends w' a b s.
Proof.
  intros [(ka & Ha & Hta) (kb & Hb & Hrb) Ho Hold] Ec Hn Hk Ht Hr Hl. split; [..|lia].
  - destruct (decide (c = a)) as [->|Hne]; [exists k'; rewrite Ec, lookup_insert_eq; split; [done|by apply (Hk ka)]|].
    exists ka. by rewrite Ec, lookup_insert_ne.
  - destruct (decide (c = b)) as [->|Hne]; [exists k'; rewrite Ec, lookup_insert_eq; split; [done|by apply (Hk kb)]|].
    exists kb. by rewrite Ec, lookup_insert_ne.
  - intros c' k. rewrite Ec. intros [[<- <-]|[Hne Hc]]%lookup_insert_Some; [done|by apply Ho].
Qed.

Lemma base_frame w w' a b sab sba : conns w' = conns w -> threads w' = threads w -> next_id w <= next_id w' ->
  base_inv w a b sab sba -> base_inv w' a b sab sba.
Proof.
  intros Ec Et En [H1 H2 H3 H4 H5]. split; unfold serving; rewrite ?Ec, ?Et; [by eapply ends_frame..| |done|done].
  intros c Hc. specialize (H3 c Hc). lia.
Qed.

Lemma base_set_conn w w' a b sab sba c k' : base_inv w a b sab sba -> conns w' = <[c := k']> (conns w) -> threads w' = threads w ->
  next_id w <= next_id w' -> c < next_id w' -> ends w' a b sab -> ends w' b a sba -> base_inv w' a b sab sba.
Proof.
  intros [H1 H2 H3 H4 H5] Ec Et En Hc E1 E2. split; [done|done| |unfold serving; rewrite Et; done..].
  intros c' [k Hk]. rewrite Ec in Hk. apply lookup_insert_Some in Hk as [[<- _]|[_ Hk]]; [done|]. assert (c' < next_id w) by (apply H3; by eexists). lia.
Qed.

(** The same connection with other fields. *)
Lemma base_same_conn w w' a b sab sba c k k' : base_inv w a b sab sba -> conns w !! c = Some k -> conns w' = <[c := k']> (conns w) -> threads w' = threads w ->
  next_id w <= next_id w' -> tx_chan k' = tx_chan k -> rx_chan k' = rx_chan k ->
  (forall s, s ∈ listener k' -> s ∈ listener k \/ next_id w <= s) -> base_inv w' a b sab sba.
Proof.
  intros Hb Hk Ec Et En Htx Hrx Hl. pose proof Hb as [H1 H2 H3 _ _]. assert (Hc : c < next_id w) by (apply H3; by eexists).
  assert (Hends : forall x y s, ends w x y s -> ends w' x y s).
  { intros x y s He. eapply (ends_set_conn w w' x y s c k'); [done..| | | |].
    - intros k0 Hk0. assert (k0 = k) as -> by congruence. by rewrite Htx, Hrx.
    - rewrite Htx. by apply (en_own _ _ _ _ He c k).
    - rewrite Hrx. by apply (en_own _ _ _ _ He c k).
    - intros Hs%Hl. pose proof (en_old _ _ _ _ He). destruct Hs as [Hs|Hs]; [by apply (en_own _ _ _ _ He c k) in Hs|lia]. }
  eapply (base_set_conn w w'); [done..|lia| |]; by apply Hends.
Qed.

(** The message of a request that was posted. *)
Lemma to_send_req d wr w msg w' c : to_send d wr w = Done (Ok msg) w' -> req_line c (LogPostSend c wr) = msg_req msg /\ msg_ack msg = None.
Proof.
  intros E. unfold to_send in E. destruct wr as [x|x].
  - destruct (b_opcode (r_base x)) eqn:Eo; try done; unfold mbind, M_bind in E; try destruct (read_local_addr _ _ _ _) as [data w1|]; try done; injection E as <- <-;
      cbn; rewrite ?Eo; split; try done; cbn; destruct (ack_req (WrRdma x)); first [by rewrite decide_True|by rewrite decide_False by naive_solver].
  - unfold mbind, M_bind in E. destruct (read_local_addr _ _ _ _) as [data w1|]; [|done]. injection E as <- <-. cbn. split; [|done].
    destruct (ack_req (WrSend x)); [by rewrite decide_True|by rewrite decide_False by naive_solver].
Qed.

Context (a b sab sba : Z) (Hne : sab <> sba).
Notation base w := (base_inv w a b sab sba).
Notation pair := (pair_inv a b sab sba).

Lemma tx_cases w c k s : base w -> conns w !! c = Some k -> tx_chan k = Some s -> (c = a <-> s = sab) /\ (c = b <-> s = sba).
Proof.
  intros [[(ka & Ha & Hta) _ Ho _] [(kb & Hb & Htb) _ Ho' _] _ _ _] Hc Ht. split; split.
  - intros ->. congruence.
  - intros ->. by apply (Ho c k).
  - intros ->. congruence.
  - intros ->. by apply (Ho' c k).
Qed.

Lemma rx_cases w c k s : base w -> conns w !! c = Some k -> rx_chan k = Some s -> (c = b <-> s = sab) /\ (c = a <-> s = sba).
Proof.
  intros [[_ (kb & Hb & Hrb) Ho _] [_ (ka & Ha & Hra) Ho' _] _ _ _] Hc Ht. split; split.
  - intros ->. congruence.
  - intros ->. by apply (Ho c k).
  - intros ->. congruence.
  - intros ->. by apply (Ho' c k).
Qed.

Lemma bytes_cons l m : mjoin (encode_to_vec <$> m :: l) = encode_to_vec m ++ mjoin (encode_to_vec <$> l).
Proof. done. Qed.

Lemma bytes_snoc l m : mjoin (encode_to_vec <$> l ++ [m]) = mjoin (encode_to_vec <$> l) ++ encode_to_vec m.
Proof. rewrite fmap_app, join_app. cbn. by rewrite app_nil_r. Qed.

Lemma holds_other w s s' x l : s <> s' -> holds_msgs w s' l -> holds_msgs (mk_world (devs w) (conns w) (threads w) (<[s := x]> (streams w)) (cqs w) (next_id w) (log w)) s' l.
Proof. intros Hs. unfold holds_msgs. w_. by rewrite lookup_insert_ne. Qed.

(** A message is written to the stream. *)
Lemma holds_snoc w s x l m : streams w !! s = Some x -> holds_msgs w s l ->
  holds_msgs (mk_world (devs w) (conns w) (threads w) (<[s := mk_stream (arrived x) (flight x ++ encode_to_vec m) (torn x)]> (streams w)) (cqs w) (next_id w) (log w)) s (l ++ [m]).
Proof.
  intros Hx (y & f & Hl & E). rewrite Hl in Hx. injection Hx as <-. exists y, (f ++ encode_to_vec m). w_. rewrite lookup_insert_eq. split; [done|].
  by rewrite app_assoc, E, bytes_snoc.
Qed.

(** Bytes that arrive stay in order. *)
Lemma holds_arrive w s s' x n l : streams w !! s = Some x -> holds_msgs w s' l ->
  holds_msgs (mk_world (devs w) (conns w) (threads w) (<[s := mk_stream (arrived x ++ take n (flight x)) (drop n (flight x)) (torn x)]> (streams w)) (cqs w) (next_id w) (log w)) s' l.
Proof.
  intros Hx (y & f & Hl & E). unfold holds_msgs. w_. destruct (decide (s = s')) as [->|Hn]; [|exists y, f; by rewrite lookup_insert_ne].
  rewrite Hl in Hx. injection Hx as <-. rewrite lookup_insert_eq. eexists _, _. split; [done|]. cbn. by rewrite <- app_assoc, take_drop.
Qed.

(** Everything but the streams. *)
Definition same_rest w w' : Prop := log w' = log w /\ threads w' = threads w.

(** A new stream to a socket. *)
Lemma post_tcp_connect d ip port w (Q : option Z -> world V -> Prop) : base w -> Q None w ->
  (forall w', base w' -> same_rest w w' -> is_Some (streams w' !! next_id w) -> next_id w < next_id w' ->
     (forall c k, conns w !! c = Some k -> exists k', conns w' !! c = Some k' /\ tx_chan k' = tx_chan k /\ rx_chan k' = rx_chan k) ->
     (forall s l, s <> next_id w -> holds_msgs w s l -> holds_msgs w' s l) -> Q (Some (next_id w)) w') ->
  post (tcp_connect d ip port) w Q.
Proof.
  intros Hb HQ0 HQ. unfold tcp_connect. apply post_bind, post_get. destruct (bound_by _ w) as [c'|]; [|by apply post_ret].
  apply post_bind. intros s w1 [= <- <-]. apply post_bind, post_modify. w_. apply post_bind, post_get_conn. w_. intros k' Hk'.
  apply post_bind, post_modify. w_. apply post_ret, HQ; w_; [|done|by rewrite lookup_insert_eq|lia| |].
  - eapply (base_same_conn w _ a b sab sba c' k'); [done|done|reflexivity|done|w_; lia|done|done|]. cbn [listener]. intros s [Hs|Hs%list_elem_of_singleton]%elem_of_app; [by left|right; lia].
  - intros c k Hk. destruct (decide (c = c')) as [->|Hn]; [|exists k; by rewrite lookup_insert_ne]. rewrite lookup_insert_eq.
    eexists. split; [reflexivity|]. assert (k' = k) as -> by congruence. done.
  - intros s l Hs. unfold holds_msgs. w_. by rewrite lookup_insert_ne.
Qed.

Lemma post_conn_send c m w (Q : bool -> world V -> Prop) : base w ->
  (forall ok w', base w' -> same_rest w w' -> (c = a \/ c = b -> ok = true) ->
     (forall l, holds_msgs w sab l -> holds_msgs w' sab (if decide (c = a) then l ++ [m] else l)) ->
     (forall l, holds_msgs w sba l -> holds_msgs w' sba (if decide (c = b) then l ++ [m] else l)) -> Q ok w') ->
  post (conn_send c m) w Q.
Proof.
  intros Hb HQ. unfold conn_send. apply post_bind, post_get_conn. intros k Hk. apply post_bind.
  assert (Happ : forall w1 s, base w1 -> same_rest w w1 -> (c = a <-> s = sab) -> (c = b <-> s = sba) ->
    (forall l, holds_msgs w sab l -> holds_msgs w1 sab l) -> (forall l, holds_msgs w sba l -> holds_msgs w1 sba l) ->
    post (w ← get; x ← demand UseAfterFree (streams w !! s); set_stream s (mk_stream (arrived x) (flight x ++ encode_to_vec m) (torn x));; mret true) w1 Q).
  { intros w1 s Hb1 Hs1 Ha1 Hb1' H1 H2. apply post_bind, post_get. apply post_bind, post_demand. intros x Hx. apply post_bind, post_modify, post_ret, HQ; [|done|done|..].
    - eapply base_frame; [..|exact Hb1]; done.
    - intros l Hl%H1. destruct (decide (c = a)) as [E|E].
      + apply Ha1 in E as ->. by apply (holds_snoc w1).
      + apply holds_other; [|done]. tauto.
    - intros l Hl%H2. destruct (decide (c = b)) as [E|E].
      + apply Hb1' in E as ->. by apply (holds_snoc w1).
      + apply holds_other; [|done]. tauto. }
  destruct (tx_chan k) as [s|] eqn:Et.
  { apply post_ret. destruct (tx_cases w c k s Hb Hk Et) as [E1 E2]. by apply Happ. }
  assert (Hca : c <> a /\ c <> b).
  { destruct Hb as [[(ka & Ha & Hta) _ _ _] [(kb & Hb' & Htb) _ _ _] _ _ _]. split; intros ->; congruence. }
  destruct Hca as [Hca Hcb].
  assert (Hfail : Q false w) by (apply HQ; [done|done|tauto|..]; intros l; by rewrite decide_False).
  destruct (in_addr k) as [[ip port]|]; [|by apply post_ret, post_ret].
  apply post_bind, post_tcp_connect; [done|by apply post_ret, post_ret|]. intros w1 Hb1 [El Eth] [x Hx] Hn Hconns Hother.
  apply post_bind, post_get_conn. intros k1 Hk1. apply post_bind, post_modify, post_ret.
  destruct (Hconns c k Hk) as (k2 & Hk2 & Ht2 & Hr2). assert (k2 = k1) as -> by congruence.
  destruct (bi_ab _ _ _ _ _ Hb) as [_ _ _ Holda]. destruct (bi_ba _ _ _ _ _ Hb) as [_ _ _ Holdb].
  set (w2 := mk_world _ _ _ _ _ _ _). assert (Hends : forall x y s, s <> next_id w -> ends w1 x y s -> ends w2 x y s).
  { intros x0 y s Hs He. eapply (ends_set_conn w1 w2 x0 y s c); [done|reflexivity|done|..]; cbn [tx_chan rx_chan listener].
    - intros k0 Hk0. assert (k0 = k1) as -> by congruence. by rewrite Ht2, Et.
    - intros [= E]. congruence.
    - by apply (en_own _ _ _ _ He c k1).
    - by apply (en_own _ _ _ _ He c k1). }
  apply Happ; [|done|split; [done|lia]|split; [done|lia]|..].
  - eapply (base_set_conn w1 w2); [done|reflexivity|done|done| | |].
    + apply (bi_ids _ _ _ _ _ Hb1). by eexists.
    + apply Hends; [lia|]. apply Hb1.
    + apply Hends; [lia|]. apply Hb1.
  - intros l Hl. unfold holds_msgs. change (streams w2) with (streams w1). apply Hother; [lia|done].
  - intros l Hl. unfold holds_msgs. change (streams w2) with (streams w1). apply Hother; [lia|done].
Qed.

Context {BL : BincodeLaws}.

(** What is read of a stream that holds messages: the oldest one if it arrived, nothing if
    nothing did; otherwise the read tears the stream. *)
Lemma read_stream x f l o rest : x ++ f = mjoin (encode_to_vec <$> l) -> decode_from_reader x = (o, rest) ->
  (o = None /\ x = [] /\ rest = []) \/ (exists m l', l = m :: l' /\ o = Some m /\ rest ++ f = mjoin (encode_to_vec <$> l')) \/ (o = None /\ x <> []).
Proof.
  intros E Ed. destruct x as [|z x0]; [left; rewrite decode_nil in Ed; by injection Ed as <- <-|].
  right. destruct l as [|m l]; [done|]. set (x := z :: x0) in *. rewrite bytes_cons in E.
  apply app_eq_inv in E as [(k & -> & E)|(k & Ek & E)]; [left|].
  - rewrite decode_encode in Ed. injection Ed as <- <-. eauto.
  - destruct k as [|y k]; [left|right].
    + rewrite app_nil_r in Ek. rewrite <- Ek, <- (app_nil_r (encode_to_vec m)), decode_encode in Ed. injection Ed as <- <-. eauto.
    + pose proof (decode_part m x (y :: k) Ek ltac:(done)) as Hp. rewrite Ed in Hp. done.
Qed.

(** What [b] reads is the oldest message; others leave both streams alone. *)
Lemma post_conn_recv c w mab mba (Q : option QpTransportMessage -> world V -> Prop) : base w -> holds_msgs w sab mab -> holds_msgs w sba mba -> c <> a ->
  (forall o w', base w' -> same_rest w w' -> holds_msgs w' sba mba ->
     (c = b -> (o = None /\ (holds_msgs w' sab mab \/ is_torn w' sab)) \/ exists m mab', mab = m :: mab' /\ o = Some m /\ holds_msgs w' sab mab') ->
     (c <> b -> holds_msgs w' sab mab) -> Q o w') ->
  post (conn_recv c) w Q.
Proof.
  intros Hb Hab Hba Hca HQ. unfold conn_recv. apply post_bind, post_get_conn. intros k Hk. apply post_bind.
  assert (Hread : forall w1 s, base w1 -> same_rest w w1 -> streams w1 = streams w -> (c = b <-> s = sab) -> s <> sba ->
    post (w ← get; x ← demand UseAfterFree (streams w !! s); let '(m, rest) := decode_from_reader (arrived x) in
      set_stream s (mk_stream rest (flight x) (torn x || match m, arrived x with None, _ :: _ => true | _, _ => false end));; mret m) w1 Q).
  { intros w1 s Hb1 Hs1 Es Hcb Hsba. apply post_bind, post_get. apply post_bind, post_demand. intros x Hx. rewrite Es in Hx.
    destruct (decode_from_reader (arrived x)) as [o rest] eqn:Ed. apply post_bind, post_modify, post_ret, HQ; [|done|..].
    - eapply base_frame; [..|exact Hb1]; done.
    - apply holds_other; [done|]. unfold holds_msgs. by rewrite Es.
    - intros Hc. apply Hcb in Hc as ->. destruct Hab as (y & f & Hl & E). rewrite Hl in Hx. injection Hx as <-. cbn [arrived flight torn] in *.
      destruct (read_stream y f mab o rest E Ed) as [(-> & -> & ->)|[(m & l' & -> & -> & E')|(-> & Hy)]].
      + left. split; [done|]. left. exists [], f. w_. by rewrite lookup_insert_eq.
      + right. exists m, l'. split; [done|]. split; [done|]. exists rest, f. w_. by rewrite lookup_insert_eq.
      + left. split; [done|]. right. eexists. w_. rewrite lookup_insert_eq. split; [reflexivity|]. by destruct y.
    - intros Hc. apply holds_other; [tauto|]. unfold holds_msgs. by rewrite Es. }
  destruct (rx_chan k) as [s|] eqn:Er.
  { apply post_ret. destruct (rx_cases w c k s Hb Hk Er) as [E1 E2]. apply Hread; [done..|tauto]. }
  assert (Hcb : c <> b) by (destruct Hb as [[_ (kb & Hb' & Hrb) _ _] _ _ _ _]; intros ->; congruence).
  destruct (listener k) as [|s rest] eqn:El; [apply post_ret, post_ret, HQ; done|].
  apply post_bind, post_modify, post_ret. destruct (bi_ab _ _ _ _ _ Hb) as [_ _ Hoa _]. destruct (bi_ba _ _ _ _ _ Hb) as [_ _ Hob _].
  assert (Hs : s <> sab /\ s <> sba).
  { split; intros ->; [destruct (Hoa c k Hk) as (_ & _ & Hn)|destruct (Hob c k Hk) as (_ & _ & Hn)]; apply Hn; rewrite El; left. }
  set (w2 := mk_world _ _ _ _ _ _ _).
  assert (Hends : forall x y s', s' <> s -> ends w x y s' -> ends w2 x y s').
  { intros x y s' Hs' He. eapply (ends_set_conn w w2 x y s' c); [done|reflexivity|done|..]; cbn [tx_chan rx_chan listener].
    - intros k0 Hk0. assert (k0 = k) as -> by congruence. by rewrite Er.
    - by apply (en_own _ _ _ _ He c k).
    - congruence.
    - intros Hin. apply (en_own _ _ _ _ He c k Hk). rewrite El. by right. }
  apply Hread; [|done|done|split; [done|tauto]|tauto].
  eapply (base_set_conn w w2); [done|reflexivity|done|done|apply (bi_ids _ _ _ _ _ Hb); by eexists|apply Hends; [naive_solver|apply Hb]..].
Qed.

(** ** Frames *)

Lemma flow_frame w w' x y l1 l2 : log w' = log w -> (forall t, threads w !! y = Some t -> t_phase t = Panicked -> exists t', threads w' !! y = Some t' /\ t_phase t' = Panicked) ->
  flow w x y l1 l2 -> flow w' x y l1 l2.
Proof.
  intros El Et (lost & E & Hl). exists lost. unfold completed, requested in *. rewrite El. split; [done|].
  destruct Hl as [->|(t & Ht & Hp)]; [by left|right; by eapply Et].
Qed.

Lemma pair_frame w w' : conns w' = conns w -> threads w' = threads w -> streams w' = streams w -> log w' = log w -> next_id w <= next_id w' -> pair w -> pair w'.
Proof.
  intros Ec Et Es El En [Hb (mab & mba & H1 & H2 & H3 & H4)]. split; [by eapply base_frame|]. exists mab, mba. unfold holds_msgs. rewrite Es.
  split_and!; [done|done|eapply flow_frame; [done| |exact H3]|eapply flow_frame; [done| |exact H4]]; intros t Ht Hp; exists t; by rewrite Et.
Qed.

(** A thread that goes on; one that panicked stays so. *)
Lemma pair_thread w c t t' : threads w !! c = Some t -> t_send_cq t' = t_send_cq t -> (t_phase t = Panicked -> t_phase t' = Panicked) ->
  pair w -> pair (mk_world (devs w) (conns w) (<[c := t']> (threads w)) (streams w) (cqs w) (next_id w) (log w)).
Proof.
  intros Ht Hs Hp [[H1 H2 H3 H4 H5] (mab & mba & M1 & M2 & M3 & M4)].
  assert (Hserv : forall x, (exists u, serving w x u) -> exists u, threads w !! x = Some u /\ is_Some (t_send_cq u) /\
     exists u', <[c := t']> (threads w) !! x = Some u' /\ is_Some (t_send_cq u') /\ (t_phase u = Panicked -> t_phase u' = Panicked)).
  { intros x (u & Hu & Hq). exists u. split; [done|]. split; [done|]. destruct (decide (c = x)) as [->|Hn]; [|exists u; by rewrite lookup_insert_ne].
    exists t'. rewrite lookup_insert_eq. assert (u = t) as -> by congruence. by rewrite Hs. }
  assert (Hflow : forall x y l1 l2, (exists u, serving w y u) -> flow w x y l1 l2 ->
    flow (mk_world (devs w) (conns w) (<[c := t']> (threads w)) (streams w) (cqs w) (next_id w) (log w)) x y l1 l2).
  { intros x y l1 l2 Hy. apply flow_frame; [done|]. w_. intros u Hu Hpu. destruct (Hserv y Hy) as (u0 & Hu0 & _ & u' & Hu' & _ & Hpp).
    exists u'. split; [done|]. apply Hpp. congruence. }
  split; [|by exists mab, mba; split_and!; [done|done|apply Hflow..]]. split; [by eapply ends_frame; [..|done]|by eapply ends_frame; [..|done]|done|..].
  - destruct (Hserv a H4) as (_ & _ & _ & u' & Hu' & Hq & _). by exists u'.
  - destruct (Hserv b H5) as (_ & _ & _ & u' & Hu' & Hq & _). by exists u'.
Qed.

(** ** Rounds of a thread *)

(** Devices and queues may change, and lines may be reported that do not count. *)
Record quiet (w0 : world V) w : Prop := {
  qu_base : base w;
  qu_threads : threads w = threads w0;
  qu_streams : streams w = streams w0;
  qu_done x : completed w x = completed w0 x;
  qu_req x : requested w x = requested w0 x }.

Lemma quiet_refl w : base w -> quiet w w.
Proof. by split. Qed.

Lemma quiet_frame w0 w w' : conns w' = conns w -> threads w' = threads w -> streams w' = streams w -> log w' = log w -> next_id w' = next_id w -> quiet w0 w -> quiet w0 w'.
Proof.
  intros Ec Et Es El En [H1 H2 H3 H4 H5]. split; [eapply base_frame; [..|done]; [done|done|lia]|congruence|congruence|..]; intros x; unfold completed, requested in *; rewrite El; [apply H4|apply H5].
Qed.

Lemma keeps_get_dev (P : world V -> Prop) d : keeps P (get_dev d).
Proof. unfold get_dev. keeps. Qed.

Lemma keeps_set_dev (P : world V -> Prop) d x : (forall w y, P w -> P (mk_world y (conns w) (threads w) (streams w) (cqs w) (next_id w) (log w))) -> keeps P (set_dev d x).
Proof. intros HP. unfold set_dev, set_devs. keeps. Qed.

Lemma write_quiet w0 d x data : keeps (quiet w0) (write_local_addr d x data).
Proof.
  unfold write_local_addr. apply keeps_bind; [apply keeps_get_dev|]. intros y. destruct (mr_valid _ _ _) as [[]|]; [|keeps|keeps].
  apply keeps_bind; [keeps|]. intros mem. apply keeps_bind; [|keeps]. apply keeps_set_dev. intros w z. by apply quiet_frame.
Qed.

Lemma report_quiet w0 x : (forall c, req_line c x = None) -> (forall c, done_line c x = None) -> keeps (quiet w0) (report x).
Proof.
  intros Hr Hd. unfold report. apply keeps_modify. intros w [H1 H2 H3 H4 H5]. split; [by eapply base_frame; [..|exact H1]|done|done|..]; intros c; unfold completed, requested in *; w_; rewrite omap_app; cbn.
  - rewrite Hd, app_nil_r. apply H4.
  - rewrite Hr, app_nil_r. apply H5.
Qed.

Lemma push_quiet w0 c cq x : (forall e, done_line e (LogCompletion c x) = None) -> keeps (quiet w0) (push_completion c cq x).
Proof.
  intros Hx. unfold push_completion. destruct cq as [h|]; [|keeps]. apply keeps_bind; [by apply report_quiet|]. intros _.
  unfold set_cq. keeps. by eapply quiet_frame; [..|done].
Qed.

Definition end_round (t : thread) (r : option (list RecvWr)) : MW unit :=
  set_thread b (match r with Some reqs => at_phase t reqs AtTasks | None => at_phase t [] Panicked end).

(** The end of a round of [b], when the messages and reports are in order. *)
Lemma finish_round w t mab mba lost r : base w -> threads w !! b = Some t -> t_phase t = AtRecv -> holds_msgs w sab mab -> holds_msgs w sba mba ->
  completed w a ++ omap msg_ack mba ++ lost ++ omap msg_req mab = requested w a -> (lost = [] \/ r = None) -> flow w b a mba mab ->
  post (end_round t r) w (fun _ => pair).
Proof.
  intros Hb Ht Hp Hab Hba Ea Hl Hflow. unfold end_round. apply post_modify. set (t' := match r with Some _ => _ | None => _ end).
  assert (Hab' : a <> b).
  { intros E. destruct (bi_ab _ _ _ _ _ Hb) as [(k & Hk & Htx) _ _ _]. destruct (bi_ba _ _ _ _ _ Hb) as [(k' & Hk' & Htx') _ _ _]. rewrite <- E in Hk'. congruence. }
  assert (Hsq : t_send_cq t' = t_send_cq t) by by destruct r.
  pose proof Hb as [H1 H2 H3 H4 (u & Hu & Hq)]. assert (u = t) as -> by congruence. split.
  - split; [by eapply ends_frame; [..|done]|by eapply ends_frame; [..|done]|done| |].
    + destruct H4 as (ta & Hta & Hqa). exists ta. split; [|done]. w_. by rewrite lookup_insert_ne.
    + exists t'. split; w_; [by rewrite lookup_insert_eq|by rewrite Hsq].
  - exists mab, mba. split_and!; [done|done| |].
    + exists lost. split; [done|]. destruct Hl as [El|Er]; [by left|right]. exists t'. split; [w_; by rewrite lookup_insert_eq|]. unfold t'. by rewrite Er.
    + apply (flow_frame w); [done| |exact Hflow]. w_. intros ta Hta Hpa. exists ta. by rewrite lookup_insert_ne.
Qed.

(** A request that is answered: [m] was taken from the stream. *)
Lemma answer_round w t m resp mab mba reqs : base w -> threads w !! b = Some t -> t_phase t = AtRecv -> holds_msgs w sab mab -> holds_msgs w sba mba ->
  flow w a b (m :: mab) mba -> flow w b a mba (m :: mab) -> msg_ack m = None -> msg_ack resp = msg_req m -> msg_req resp = None ->
  post (ok ← conn_send b resp; mret (if negb ok then None else Some reqs)) w (fun r w' => post (end_round t r) w' (fun _ => pair)).
Proof.
  intros Hb Ht Hp Hab Hba (lost & Ea & Hla) Hfb Hm1 Hm2 Hm3. assert (lost = []) as -> by (destruct Hla as [?|(u & Hu & Hpu)]; congruence).
  apply post_bind, post_conn_send; [done|]. intros ok w1 Hb1 [El Et] Hok H1 H2. rewrite (Hok (or_intror eq_refl)). cbn [negb]. apply post_ret.
  assert (Hab' : b <> a).
  { intros E. destruct (bi_ab _ _ _ _ _ Hb) as [(k & Hk & Htx) _ _ _]. destruct (bi_ba _ _ _ _ _ Hb) as [(k' & Hk' & Htx') _ _ _]. rewrite E in Hk'. congruence. }
  specialize (H1 _ Hab). specialize (H2 _ Hba). rewrite decide_False in H1 by done. rewrite decide_True in H2 by done.
  eapply (finish_round w1 t mab _ [] (Some reqs)); [done|congruence|done|exact H1|exact H2| |by left|].
  - unfold completed, requested in *. rewrite El, <- Ea, omap_app. cbn. rewrite Hm2, <- app_assoc. by destruct (msg_req m).
  - destruct Hfb as (lb & Eb & Hlb). exists lb. unfold completed, requested in *. rewrite El, Et. split; [|done].
    rewrite <- Eb, omap_app. cbn. by rewrite Hm1, Hm3, app_nil_r.
Qed.

Lemma flow_quiet w0 w x y l1 l2 : quiet w0 w -> flow w0 x y l1 l2 -> flow w x y l1 l2.
Proof. intros [H1 H2 H3 H4 H5] (lost & E & Hl). exists lost. by rewrite H4, H5, H2. Qed.

Lemma holds_quiet w0 w s l : quiet w0 w -> holds_msgs w0 s l -> holds_msgs w s l.
Proof. intros Hq. unfold holds_msgs. by rewrite (qu_streams _ _ Hq). Qed.

(** What a round of [b] starts with: [m] is taken from the stream. *)
Record taken w (t : thread) (m : QpTransportMessage) (mab mba : list QpTransportMessage) : Prop := {
  tk_base : base w; tk_thread : threads w !! b = Some t; tk_phase : t_phase t = AtRecv;
  tk_ab : holds_msgs w sab mab; tk_ba : holds_msgs w sba mba;
  tk_fa : flow w a b (m :: mab) mba; tk_fb : flow w b a mba (m :: mab) }.

Lemma taken_quiet w0 w t m mab mba : quiet w0 w -> taken w0 t m mab mba -> taken w t m mab mba.
Proof.
  intros Hq [H1 H2 H3 H4 H5 H6 H7]. split; [by apply Hq|by rewrite (qu_threads _ _ Hq)|done|by eapply holds_quiet|by eapply holds_quiet|by eapply flow_quiet|by eapply flow_quiet].
Qed.

Lemma panic_round w t m mab mba : taken w t m mab mba -> msg_ack m = None -> post (mret None) w (fun r w' => post (end_round t r) w' (fun _ => pair)).
Proof.
  intros [H1 H2 H3 H4 H5 (lost & Ea & Hla) (lb & Eb & Hlb)] Hm. assert (lost = []) as -> by (destruct Hla as [?|(u & Hu & Hpu)]; congruence). apply post_ret.
  eapply (finish_round w t mab mba (option_list (msg_req m)) None); [done..| |by right|].
  - rewrite <- Ea. cbn. by destruct (msg_req m).
  - exists lb. split; [|done]. rewrite <- Eb. cbn. by rewrite Hm.
Qed.

(** A message that needs no answer. *)
Lemma silent_round w t m mab mba reqs : taken w t m mab mba -> msg_ack m = None -> msg_req m = None ->
  post (mret (Some reqs)) w (fun r w' => post (end_round t r) w' (fun _ => pair)).
Proof.
  intros [H1 H2 H3 H4 H5 (lost & Ea & Hla) (lb & Eb & Hlb)] Hm Hr. assert (lost = []) as -> by (destruct Hla as [?|(u & Hu & Hpu)]; congruence). apply post_ret.
  eapply (finish_round w t mab mba [] (Some reqs)); [done..| |by left|].
  - rewrite <- Ea. cbn. by rewrite Hr.
  - exists lb. split; [|done]. rewrite <- Eb. cbn. by rewrite Hm.
Qed.

Lemma taken_answer w t m resp mab mba reqs : taken w t m mab mba -> msg_ack m = None -> msg_ack resp = msg_req m -> msg_req resp = None ->
  post (ok ← conn_send b resp; mret (if negb ok then None else Some reqs)) w (fun r w' => post (end_round t r) w' (fun _ => pair)).
Proof. intros [H1 H2 H3 H4 H5 H6 H7]. by eapply answer_round. Qed.

(** A write that is acknowledged is completed. *)
Lemma ack_round w t m x mab mba : taken w t m mab mba -> msg_ack m = (if s_ack_req x then Some (s_wr_id x) else None) -> msg_req m = None ->
  post ((if s_ack_req x then push_completion b (t_send_cq t) (ComplRdmaWrite (s_wr_id x)) else mret tt);; mret (Some (recv_reqs t))) w
    (fun r w' => post (end_round t r) w' (fun _ => pair)).
Proof.
  intros Ht Hm Hr. destruct (s_ack_req x); [|apply post_bind, post_ret; by eapply silent_round].
  destruct Ht as [H1 H2 H3 H4 H5 (lost & Ea & Hla) (lb & Eb & Hlb)]. assert (lost = []) as -> by (destruct Hla as [?|(u & Hu & Hpu)]; congruence).
  assert (Hab' : a <> b).
  { intros E. destruct (bi_ab _ _ _ _ _ H1) as [(k & Hk & Htx) _ _ _]. destruct (bi_ba _ _ _ _ _ H1) as [(k' & Hk' & Htx') _ _ _]. rewrite <- E in Hk'. congruence. }
  destruct (bi_b _ _ _ _ _ H1) as (u & Hu & Hq). assert (u = t) as -> by congruence. destruct Hq as [h ->]. cbn [push_completion].
  apply post_bind, post_bind, post_modify. apply post_bind, post_get. apply post_bind, post_demand. w_. intros l Hl. apply post_modify. w_. apply post_ret.
  eapply (finish_round _ t mab mba [] (Some (recv_reqs t))); [by eapply base_frame; [..|exact H1]|done|done|done|done| |by left|].
  - unfold completed, requested in *. w_. rewrite !omap_app. cbn. rewrite decide_False by done. rewrite !app_nil_r. rewrite <- Ea. cbn. by rewrite Hr.
  - exists lb. split; [|done]. unfold completed, requested in *. w_. rewrite !omap_app. cbn. rewrite decide_True by done. rewrite app_nil_r, <- Eb. cbn. rewrite Hm. by rewrite <- app_assoc.
Qed.

Lemma read_keeps (P : world V -> Prop) d x n : keeps P (read_local_addr d x n).
Proof. unfold read_local_addr. apply keeps_bind; [apply keeps_get_dev|keeps]. Qed.

Lemma post_quiet {A} (m : MW A) w t x mab mba (Q : A -> world V -> Prop) : (forall w0, keeps (quiet w0) m) -> taken w t x mab mba ->
  (forall r w', taken w' t x mab mba -> Q r w') -> post m w Q.
Proof.
  intros Hk Ht HQ. eapply (post_keeps m (quiet w)); [apply Hk|apply quiet_refl, Ht|]. intros r w' Hq. eapply HQ, taken_quiet; done.
Qed.

Lemma handle_round w t m mab mba : taken w t m mab mba -> post (handle b t m) w (fun r w' => post (end_round t r) w' (fun _ => pair)).
Proof.
  intros Ht. unfold handle. apply post_bind, post_get_conn. intros k _. destruct m as [x|x|x|x|x|x|x|x]; cbn beta iota zeta.
  - apply post_bind. eapply post_quiet; [intros; apply write_quiet|done|]. intros [] w1 H1; cbn [negb]; [|by eapply panic_round]. by eapply taken_answer.
  - apply post_bind. eapply post_quiet; [intros; apply write_quiet|done|]. intros [] w1 H1; cbn [negb]; [|by eapply panic_round].
    apply post_bind. eapply post_quiet; [intros; by apply push_quiet|done|]. intros _ w2 H2. by eapply taken_answer.
  - apply post_bind. eapply post_quiet; [intros; apply read_keeps|done|]. intros data w1 H1. by eapply taken_answer.
  - destruct (recv_reqs t) as [|req reqs]; [by eapply panic_round|].
    apply post_bind. eapply post_quiet; [intros; apply write_quiet|done|]. intros [] w1 H1; cbn [negb]; [|by eapply panic_round].
    apply post_bind. eapply post_quiet; [intros; by apply push_quiet|done|]. intros _ w2 H2. by eapply taken_answer.
  - by eapply ack_round.
  - by eapply ack_round.
  - apply post_bind. eapply post_quiet; [intros; apply write_quiet|done|]. intros [] w1 H1; cbn [negb]; [|by eapply panic_round].
    apply post_bind. destruct (p_ack_req x); [eapply post_quiet; [intros; by apply push_quiet|done|]; intros _ w2 H2|apply post_ret]; by eapply silent_round.
  - apply post_bind. destruct (s_ack_req x); [eapply post_quiet; [intros; by apply push_quiet|done|]; intros _ w2 H2|apply post_ret]; by eapply silent_round.
Qed.

(** A read has ended within a message of one of the two. *)
Definition torn_pair w : Prop := sab < next_id w /\ sba < next_id w /\ (is_torn w sab \/ is_torn w sba).

Lemma torn_frame w w' : streams w' = streams w -> next_id w <= next_id w' -> torn_pair w -> torn_pair w'.
Proof. clear Hne. intros Es En (H1 & H2 & H3). unfold torn_pair, is_torn. rewrite Es. split_and!; [lia|lia|done]. Qed.

Lemma recv_b w : pair w -> post (thread_recv b) w (fun _ w' => pair w' \/ torn_pair w').
Proof.
  intros Hp. unfold thread_recv. apply post_bind, post_get_thread. intros t Ht.
  destruct (decide (t_phase t = AtRecv)) as [Hph|Hph]; [|apply post_ret; by left]. destruct Hp as [Hb (mab & mba & M1 & M2 & M3 & M4)].
  assert (Hab' : b <> a).
  { intros E. destruct (bi_ab _ _ _ _ _ Hb) as [(k & Hk & Htx) _ _ _]. destruct (bi_ba _ _ _ _ _ Hb) as [(k' & Hk' & Htx') _ _ _]. rewrite E in Hk'. congruence. }
  apply post_bind. eapply post_conn_recv; [done..|]. intros o w1 Hb1 [El Et] Hba Hq _.
  assert (F1 : flow w1 a b mab mba) by (eapply flow_frame; [exact El| |exact M3]; intros u Hu Hpu; exists u; by rewrite Et).
  assert (F2 : flow w1 b a mba mab) by (eapply flow_frame; [exact El| |exact M4]; intros u Hu Hpu; exists u; by rewrite Et).
  destruct (Hq eq_refl) as [[-> [Hab|Hab]]|(m & mab' & -> & -> & Hab)].
  - intros u w2 [= <- <-]. left. apply (pair_thread w1 b t); [congruence|done|by rewrite Hph|]. split; [done|]. by exists mab, mba.
  - intros u w2 [= <- <-]. right. apply (torn_frame w1); [done|done|]. destruct Hb1 as [[_ _ _ ?] [_ _ _ ?] _ _ _]. split_and!; [done|done|by left].
  - apply post_bind. eapply (post_mono _ _ (fun r w' => post (end_round t r) w' (fun _ => pair))).
    { intros r w2 Hr. eapply post_mono; [|exact Hr]. by left. }
    apply (handle_round w1 t m mab' mba). split; [done|congruence|done..].
Qed.

(** ** Other connections *)

Section others.
Context (c : Z) (Hca : c <> a) (Hcb : c <> b).

Lemma pair_report_other w x : (forall e, req_line e x <> None -> e = c) -> (forall e, done_line e x <> None -> e = c) ->
  pair w -> pair (mk_world (devs w) (conns w) (threads w) (streams w) (cqs w) (next_id w) (log w ++ [x])).
Proof.
  intros Hr Hd [Hb (mab & mba & M1 & M2 & M3 & M4)]. split; [by eapply base_frame; [..|exact Hb]|]. exists mab, mba. split_and!; [done|done|..].
  - destruct M3 as (lost & E & Hl). exists lost. split; [|done]. unfold completed, requested in *. w_. rewrite !omap_app. cbn.
    destruct (done_line a x) eqn:E1; [by destruct Hca; symmetry; apply Hd; rewrite E1|]. destruct (req_line a x) eqn:E2; [by destruct Hca; symmetry; apply Hr; rewrite E2|].
    by rewrite !app_nil_r.
  - destruct M4 as (lost & E & Hl). exists lost. split; [|done]. unfold completed, requested in *. w_. rewrite !omap_app. cbn.
    destruct (done_line b x) eqn:E1; [by destruct Hcb; symmetry; apply Hd; rewrite E1|]. destruct (req_line b x) eqn:E2; [by destruct Hcb; symmetry; apply Hr; rewrite E2|].
    by rewrite !app_nil_r.
Qed.

Lemma push_other cq x : keeps pair (push_completion c cq x).
Proof.
  unfold push_completion. destruct cq as [h|]; [|keeps]. apply keeps_bind.
  - unfold report. apply keeps_modify. intros w. apply pair_report_other; [done|]. intros e. cbn. destruct x; try done. by case_decide.
  - intros _. unfold set_cq. keeps. by eapply pair_frame; [..|eassumption].
Qed.

Lemma send_other m : keeps pair (conn_send c m).
Proof.
  intros w r w' E Hp. revert r w' E. change (post (conn_send c m) w (fun _ => pair)). destruct Hp as [Hb (mab & mba & M1 & M2 & M3 & M4)].
  apply post_conn_send; [done|]. intros ok w1 Hb1 [El Et] _ H1 H2. specialize (H1 _ M1). specialize (H2 _ M2). rewrite decide_False in H1 by done. rewrite decide_False in H2 by done.
  split; [done|]. exists mab, mba. split_and!; [done|done|apply (flow_frame w); [done| |done]|apply (flow_frame w); [done| |done]]; intros u Hu Hpu; exists u; by rewrite Et.
Qed.

Lemma recv_msg_other : keeps pair (conn_recv c).
Proof.
  intros w r w' E Hp. revert r w' E. change (post (conn_recv c) w (fun _ => pair)). destruct Hp as [Hb (mab & mba & M1 & M2 & M3 & M4)].
  eapply post_conn_recv; [done..|]. intros o w1 Hb1 [El Et] H2 _ H1. specialize (H1 Hcb).
  split; [done|]. exists mab, mba. split_and!; [done|done|apply (flow_frame w); [done| |done]|apply (flow_frame w); [done| |done]]; intros u Hu Hpu; exists u; by rewrite Et.
Qed.

Lemma set_thread_other t : keeps pair (set_thread c t).
Proof.
  apply keeps_modify. intros w [[H1 H2 H3 (ta & Hta & Hqa) (tb & Htb & Hqb)] (mab & mba & M1 & M2 & M3 & M4)]. split.
  - split; [by eapply ends_frame; [..|exact H1]|by eapply ends_frame; [..|exact H2]|done|exists ta|exists tb]; (split; [|done]); w_; by rewrite lookup_insert_ne.
  - exists mab, mba. split_and!; [done|done|apply (flow_frame w); [done| |done]|apply (flow_frame w); [done| |done]]; intros u Hu Hpu; exists u; w_; by rewrite lookup_insert_ne.
Qed.

Lemma write_pair d x data : keeps pair (write_local_addr d x data).
Proof.
  unfold write_local_addr. apply keeps_bind; [apply keeps_get_dev|]. intros y. destruct (mr_valid _ _ _) as [[]|]; [|keeps|keeps].
  apply keeps_bind; [keeps|]. intros mem. apply keeps_bind; [|keeps]. apply keeps_set_dev. intros w z. by apply pair_frame.
Qed.

Lemma recv_other : keeps pair (thread_recv c).
Proof.
  unfold thread_recv, handle, get_thread, get_conn. 
  repeat first [progress intros | apply recv_msg_other | apply set_thread_other | apply push_other | apply send_other | apply write_pair | apply read_keeps
    | solve [auto with keeps] | apply keeps_bind | case_match].
Qed.

End others.

End world.

(** ** Torn streams *)

Section torn.
Context {V : Type} {BV : BitVec V} {PR : Profile} {B : Bincode} {HO : Hosts} {PF : PageFeature} {HPg : HostPages}.
Context (sab sba : Z).
Notation MW := (M (world V)).
Notation torn := (torn_pair (V := V) sab sba).
Implicit Types w : world V.

Lemma torn_modify f : (forall w, streams (f w) = streams w /\ next_id w <= next_id (f w)) -> keeps torn (modify f).
Proof. intros Hf. apply keeps_modify. intros w. destruct (Hf w). by apply torn_frame. Qed.

Lemma torn_fresh : keeps torn fresh_id.
Proof. intros w r w' [= <- <-]. apply (torn_frame sab sba w); [done|w_; lia]. Qed.

(** A stream that is changed without repairing it. *)
Lemma torn_stream w s x x' : streams w !! s = Some x -> (Mock.torn x = true -> Mock.torn x' = true) -> torn w ->
  torn (mk_world (devs w) (conns w) (threads w) (<[s := x']> (streams w)) (cqs w) (next_id w) (log w)).
Proof.
  intros Hx Hx' (H1 & H2 & H3). split; [done|]. split; [done|].
  assert (Hs : forall s', is_torn w s' -> is_torn (mk_world (devs w) (conns w) (threads w) (<[s := x']> (streams w)) (cqs w) (next_id w) (log w)) s').
  { intros s' (y & Hy & Ht). unfold is_torn. w_. destruct (decide (s = s')) as [->|Hn]; [|exists y; by rewrite lookup_insert_ne].
    exists x'. rewrite lookup_insert_eq. split; [done|]. apply Hx'. congruence. }
  destruct H3; [left|right]; auto.
Qed.

Lemma torn_connect d ip port : keeps torn (tcp_connect d ip port).
Proof.
  intros w r w' E Ht. revert r w' E. change (post (tcp_connect d ip port) w (fun _ => torn)). unfold tcp_connect. apply post_bind, post_get.
  destruct (bound_by _ w) as [c'|]; [|by apply post_ret]. apply post_bind. intros s w1 [= <- <-]. apply post_bind, post_modify. w_.
  apply post_bind, post_get_conn. w_. intros k' Hk'. apply post_bind, post_modify. w_. apply post_ret.
  destruct Ht as (H1 & H2 & H3). split; w_; [lia|]. split; [lia|]. unfold is_torn in *. w_. rewrite !lookup_insert_ne by lia. done.
Qed.

Lemma torn_write w s (f : stream -> stream) : (forall x, Mock.torn x = true -> Mock.torn (f x) = true) -> torn w ->
  post (w ← get; x ← demand UseAfterFree (streams w !! s); set_stream s (f x);; mret true) w (fun _ => torn).
Proof.
  intros Hf Ht. apply post_bind, post_get, post_bind, post_demand. intros x Hx. apply post_bind, post_modify, post_ret. eapply torn_stream; [done|by apply Hf|done].
Qed.

Lemma torn_send c m : keeps torn (conn_send c m).
Proof.
  unfold conn_send, get_conn. apply keeps_bind; [keeps|]. intros k. apply keeps_bind.
  - repeat first [progress intros|apply torn_connect|apply torn_modify; split; w_; [done|lia]|solve [auto with keeps]|apply keeps_bind|case_match].
  - intros [s|]; [|keeps]. intros w r w' E Ht. revert r w' E. apply (torn_write w s (fun x => mk_stream (arrived x) (flight x ++ encode_to_vec m) (Mock.torn x))); done.
Qed.

Lemma torn_recv c : keeps torn (conn_recv c).
Proof.
  unfold conn_recv, get_conn. apply keeps_bind; [keeps|]. intros k. apply keeps_bind.
  - repeat first [progress intros|apply torn_modify; split; w_; [done|lia]|solve [auto with keeps]|apply keeps_bind|case_match].
  - intros [s|]; [|keeps]. intros w r w' E Ht. revert r w' E. match goal with |- forall r w', ?m w = Done r w' -> _ => change (post m w (fun _ => torn)) end.
    apply post_bind, post_get, post_bind, post_demand. intros x Hx. destruct (decode_from_reader (arrived x)) as [o rest].
    apply post_bind, post_modify, post_ret. eapply torn_stream; [done| |done]. intros ->. done.
Qed.

Lemma torn_arrive s n : keeps torn (arrive s n).
Proof.
  intros w r w' E Ht. revert r w' E. change (post (arrive s n) w (fun _ => torn)). unfold arrive. apply post_bind, post_get.
  destruct (streams w !! s) as [x|] eqn:Hx; [|by apply post_ret]. apply post_modify. by eapply torn_stream.
Qed.

End torn.

(** Everything else leaves the streams alone. *)
Ltac torn_tac := repeat first [progress intros|apply torn_send|apply torn_recv|apply torn_fresh|apply read_keeps|apply keeps_get_dev|apply keeps_fail
  |apply torn_modify; split; w_; [done|lia]|solve [auto with keeps]|apply keeps_bind|case_match].

Section torn_threads.
Context {V : Type} {BV : BitVec V} {PR : Profile} {B : Bincode} {HO : Hosts} {PF : PageFeature} {HPg : HostPages}.
Context (sab sba : Z).
Notation MW := (M (world V)).
Notation torn := (torn_pair (V := V) sab sba).
Implicit Types w : world V.

Lemma torn_thread_recv c : keeps torn (thread_recv c).
Proof.
  unfold thread_recv, handle, push_completion, write_local_addr, get_thread, get_conn, set_thread, set_dev, set_devs, set_cq, report. torn_tac.
Qed.

Lemma torn_thread_tasks c : keeps torn (thread_tasks c).
Proof. unfold thread_tasks, get_thread, set_thread. torn_tac. Qed.

Lemma torn_stop c : keeps torn (stop_thread c).
Proof.
  unfold stop_thread, get_thread, set_thread. apply keeps_bind; [torn_tac|intros t]. apply keeps_bind; [torn_tac|intros _].
  apply keeps_bind; [apply torn_thread_recv|intros _]. apply keeps_bind; [apply torn_thread_tasks|intros _]. torn_tac.
Qed.

End torn_threads.

(** ** Every step *)

Section steps.
Context {V : Type} {BV : BitVec V} {PR : Profile} {B : Bincode} {HO : Hosts} {PF : PageFeature} {HPg : HostPages}.
Context {BL : BincodeLaws}.
Context (a b sab sba : Z) (Hne : sab <> sba).
Notation MW := (M (world V)).
Notation pair := (pair_inv (V := V) a b sab sba).
Implicit Types w : world V.

(** The same as long as no read ended within a message of the two. *)
Definition pair_or_torn w : Prop := pair w \/ torn_pair sab sba w.
Lemma keeps_either {A} (m : MW A) : keeps pair m -> keeps (torn_pair sab sba) m -> keeps pair_or_torn m.
Proof. intros H1 H2 w r w' E [Hp|Ht]; [left; by eapply H1|right; by eapply H2]. Qed.

Lemma recv_keeps c : keeps pair_or_torn (thread_recv c).
Proof.
  intros w r w' E [Hp|Ht]; [|right; by eapply torn_thread_recv]. destruct (decide (c = b)) as [->|Hb]; [by eapply recv_b|].
  destruct (decide (c = a)) as [->|Ha]; [|left; by eapply recv_other].
  destruct (recv_b b a sba sab (not_eq_sym Hne) w (pair_sym _ _ _ _ _ Hp) r w' E) as [Hp'|(H1 & H2 & H3)]; [left; by apply pair_sym|right].
  split_and!; [done|done|tauto].
Qed.

Lemma tasks_keeps c : keeps pair (thread_tasks c).
Proof.
  intros w r w' E Hp. revert r w' E. change (post (thread_tasks c) w (fun _ => pair)). unfold thread_tasks. apply post_bind, post_get_thread. intros t Ht.
  destruct (decide (t_phase t = AtTasks)) as [Hph|Hph]; [|by apply post_ret]. apply post_modify. apply (pair_thread a b sab sba w c t); [done|done|by rewrite Hph|done].
Qed.

Lemma stop_keeps c : keeps pair_or_torn (stop_thread c).
Proof.
  intros w r w' E [Hp|Ht]; [|right; by eapply torn_stop]. revert r w' E. unfold stop_thread.
  match goal with |- forall r w', ?m w = Done r w' -> _ => change (post m w (fun _ => pair_or_torn)) end.
  apply post_bind, post_get_thread. intros t Ht. apply post_bind, post_modify. set (w1 := mk_world _ _ _ _ _ _ _).
  assert (Hp1 : pair_or_torn w1) by (left; apply (pair_thread a b sab sba w c t); done).
  apply post_bind. eapply (post_keeps _ pair_or_torn); [apply recv_keeps|done|]. intros _ w2 Hp2.
  apply post_bind. eapply (post_keeps _ pair_or_torn); [apply keeps_either; [apply tasks_keeps|apply torn_thread_tasks]|done|]. intros _ w3 Hp3.
  apply post_bind, post_get_thread. intros t' _. case_decide; [apply post_fail|by apply post_ret].
Qed.

Lemma arrive_keeps s n : keeps pair (arrive s n).
Proof.
  intros w r w' E [Hb (mab & mba & M1 & M2 & M3 & M4)]. revert r w' E. change (post (arrive s n) w (fun _ => pair)). unfold arrive.
  apply post_bind, post_get. destruct (streams w !! s) as [x|] eqn:Hx; [|apply post_ret; split; [done|by exists mab, mba]].
  apply post_modify. split; [by eapply base_frame; [..|exact Hb]|]. exists mab, mba. split_and!; [by apply holds_arrive|by apply holds_arrive|done|done].
Qed.

(** A request of [a] goes to the end of its stream when it is reported. *)
Lemma post_send_a msg wr w : pair w -> req_line a (LogPostSend a wr) = msg_req msg -> msg_ack msg = None ->
  post (ok ← conn_send a msg; if negb ok then panic else report (LogPostSend a wr);; mret (Ok tt : result unit)) w (fun _ => pair).
Proof.
  intros [Hb (mab & mba & M1 & M2 & (la & Ea & Hla) & (lb & Eb & Hlb))] Hreq Hack. apply post_bind. eapply post_conn_send; [done|done|].
  intros ok w1 Hb1 [El Et] Hok H1 H2. rewrite (Hok (or_introl eq_refl)). cbn [negb]. specialize (H1 _ M1). specialize (H2 _ M2).
  assert (Hab : a <> b).
  { intros E. destruct (bi_ab _ _ _ _ _ Hb) as [(k & Hk & Htx) _ _ _]. destruct (bi_ba _ _ _ _ _ Hb) as [(k' & Hk' & Htx') _ _ _]. rewrite <- E in Hk'. congruence. }
  rewrite decide_True in H1 by done. rewrite decide_False in H2 by done. apply post_bind, post_modify, post_ret. split; [by eapply base_frame; [..|exact Hb1]|].
  exists (mab ++ [msg]), mba. split_and!; [exact H1|exact H2|exists la|exists lb]; (split; [|w_; by rewrite Et]); unfold completed, requested in *; w_; rewrite El, !omap_app.
  - cbn [omap list_omap]. rewrite Hreq. cbn. rewrite app_nil_r, <- Ea. rewrite <- !app_assoc. by destruct (msg_req msg).
  - cbn [omap list_omap]. rewrite Hack. cbn. replace (match wr with WrRdma _ => _ | WrSend _ => _ end) with (@None Z) by
      (destruct wr as [x|x]; [destruct (b_opcode (r_base x)); try done|]; by rewrite decide_False by naive_solver). by rewrite !app_nil_r.
Qed.

End steps.

Section calls.
Context {V : Type} {BV : BitVec V} {PR : Profile} {B : Bincode} {HO : Hosts} {PF : PageFeature} {HPg : HostPages}.
Context {BL : BincodeLaws}.
Context (a b sab sba : Z) (Hne : sab <> sba).
Notation MW := (M (world V)).
Notation pair := (pair_inv (V := V) a b sab sba).
Implicit Types w : world V.

Lemma set_dev_keeps d x : keeps pair (set_dev d x).
Proof. apply keeps_set_dev. intros w y. by apply pair_frame. Qed.

Lemma set_cq_keeps i x : keeps pair (set_cq i x).
Proof. unfold set_cq. apply keeps_modify. intros w. by apply pair_frame. Qed.

Lemma fresh_keeps : keeps pair fresh_id.
Proof. intros w r w' [= <- <-]. apply pair_frame; try done. w_. lia. Qed.

Lemma on_bits_keeps {A} d field put (m : M V A) : keeps pair (on_bits d field put m).
Proof. unfold on_bits. apply keeps_bind; [apply keeps_get_dev|]. intros x. case_match; [|keeps]. apply keeps_bind; [apply set_dev_keeps|keeps]. Qed.

Lemma post_send_keeps d qpn wr : keeps pair (mock_post_send d qpn wr).
Proof.
  intros w r w' E Hp. revert r w' E. change (post (mock_post_send d qpn wr) w (fun _ => pair)). unfold mock_post_send. apply post_bind.
  intros m w1 Em. assert (Hp1 : pair w1).
  { assert (Hk : keeps pair (to_send d wr)) by (unfold to_send; repeat first [progress intros|apply read_keeps|solve [auto with keeps]|apply keeps_bind|case_match]).
    by eapply Hk. }
  destruct m as [msg|e]; [|by apply post_ret]. apply post_bind. eapply (post_keeps _ pair); [apply keeps_get_dev|done|]. intros x w2 Hp2.
  destruct (get_qp (qp_ctx_table x) qpn) as [ctx|]; [|by apply post_ret]. apply post_bind, post_demand. intros c _.
  destruct (to_send_req d wr w msg w1 c Em) as [Hreq Hack].
  destruct (decide (c = a)) as [->|Ha]; [by apply (post_send_a a b sab sba Hne)|].
  destruct (decide (c = b)) as [->|Hb].
  { eapply post_mono; [|apply (post_send_a b a sba sab); [done|by apply pair_sym|done|done]]. intros ? ? ?. by apply pair_sym. }
  apply post_bind. eapply (post_keeps _ pair); [by apply send_other|done|]. intros ok w3 Hp3. destruct (negb ok); [apply post_fail|].
  apply post_bind, post_modify, post_ret. apply (pair_report_other a b sab sba c Ha Hb); [|done|done].
  intros e. cbn. destruct wr as [y|y]; [destruct (b_opcode (r_base y)); try done|]; case_decide; naive_solver.
Qed.

Lemma mock_post_recv_keeps d qpn wr : keeps pair (mock_post_recv d qpn wr).
Proof.
  intros w r w' E Hp. revert r w' E. change (post (mock_post_recv d qpn wr) w (fun _ => pair)). unfold mock_post_recv. apply post_bind.
  eapply (post_keeps _ pair); [apply keeps_get_dev|done|]. intros x w1 Hp1. destruct (qp_local_task_tx x) as [c|]; [|by apply post_ret].
  apply post_bind, post_get_thread. intros t Ht. destruct (t_phase t) eqn:Eph; try (by apply post_ret);
    (apply post_bind, post_modify, post_ret, (pair_thread a b sab sba w1 c t); [done|done|by rewrite Eph|done]).
Qed.

Lemma connect_keeps c qpn ip : keeps pair (conn_connect c qpn ip).
Proof.
  intros w r w' E Hp. revert r w' E. change (post (conn_connect c qpn ip) w (fun _ => pair)). unfold conn_connect. apply post_bind.
  eapply (post_keeps _ pair); [unfold get_port; auto with keeps|done|]. intros port w1 [Hb (mab & mba & M1 & M2 & M3 & M4)].
  apply post_bind, post_get_conn. intros k Hk. apply post_modify. split; [|by exists mab, mba].
  eapply (base_same_conn w1 _ a b sab sba c k); [done|done|reflexivity|done|done|done|done|]. cbn. by left.
Qed.

(** A connection that is new is not one of the two. *)
Lemma post_Inner_new d ip qpn w (Q : Z -> world V -> Prop) : pair w -> (forall c w', pair w' -> c <> a -> c <> b -> Q c w') -> post (Inner_new d ip qpn) w Q.
Proof.
  intros Hp HQ. unfold Inner_new. apply post_bind. eapply (post_keeps _ pair); [unfold get_port; auto with keeps|done|]. intros port w1 [Hb (mab & mba & M1 & M2 & M3 & M4)].
  apply post_bind, post_get. destruct (bound_by _ w1); [apply post_fail|]. apply post_bind. intros c w2 [= <- <-]. apply post_bind, post_modify, post_ret. w_.
  assert (Hids : forall e, is_Some (conns w1 !! e) -> e < next_id w1) by apply Hb.
  assert (Ha : a < next_id w1) by (apply Hids; destruct (en_tx _ _ _ _ (bi_ab _ _ _ _ _ Hb)) as (k & Hk & _); by eexists).
  assert (Hb' : b < next_id w1) by (apply Hids; destruct (en_rx _ _ _ _ (bi_ab _ _ _ _ _ Hb)) as (k & Hk & _); by eexists).
  apply HQ; [|lia|lia]. set (w2 := mk_world _ _ _ _ _ _ _).
  assert (Hends : forall x y s, ends w1 x y s -> ends w2 x y s).
  { intros x y s He. eapply (ends_set_conn w1 w2 x y s (next_id w1)); [done|reflexivity|cbn; lia|..]; cbn [tx_chan rx_chan listener]; try done; [|apply not_elem_of_nil].
    intros k Hk. assert (next_id w1 < next_id w1) by (apply Hids; by eexists). lia. }
  split; [|by exists mab, mba]. eapply (base_set_conn w1 w2); [done|reflexivity|done|cbn; lia|cbn; lia|apply Hends, Hb..].
Qed.

Lemma create_keeps d key attr : keeps pair (mock_create_qp d key attr).
Proof.
  intros w r w' E Hp. revert r w' E. change (post (mock_create_qp d key attr) w (fun _ => pair)). unfold mock_create_qp. apply post_bind.
  eapply (post_keeps _ pair); [apply on_bits_keeps|done|]. intros [qpn|] w1 Hp1; [|by apply post_ret]. apply post_bind.
  eapply (post_keeps _ pair); [apply keeps_get_dev|done|]. intros x w2 Hp2. cbn zeta. apply post_bind, post_Inner_new; [done|]. intros c w3 Hp3 Ha Hb.
  apply post_bind. eapply (post_keeps _ pair); [by apply set_thread_other|done|]. intros _ w4 Hp4.
  destruct (get_qp (qp_ctx_table x) qpn) as [ctx|]; [|apply post_fail]. case_decide; [apply post_fail|]. apply post_bind.
  eapply (post_keeps _ pair); [apply set_dev_keeps|done|]. intros _ w5 Hp5. by apply post_ret.
Qed.

Lemma virt_keeps (P : world V -> Prop) x : keeps P (virt_to_phys x).
Proof. unfold virt_to_phys, get_pa_from_file. keeps. Qed.

Lemma torn_call d c : (forall qpn, c <> CDestroyQp qpn) -> keeps (torn_pair sab sba) (run_call d c).
Proof.
  intros Hc. destruct c; try (by destruct (Hc qpn)); clear Hc; cbn [run_call]; try (apply keeps_bind; [|auto with keeps]);
    unfold mock_reg_mr, mock_dereg_mr, mock_destroy_cq, mock_create_qp, Inner_new, mock_update_qp, conn_connect, get_port, get_conn, mock_create_cq,
      mock_poll_cq, mock_post_send, to_send, mock_post_recv, get_thread, mock_alloc_pd, mock_dealloc_pd, poke, on_bits, set_dev, set_devs, set_conn, set_thread, set_cq, report;
    repeat first [apply virt_keeps|progress torn_tac].
Qed.

Notation fine := (pair_or_torn (V := V) a b sab sba).

Lemma destroy_keeps d qpn : keeps fine (mock_destroy_qp d qpn).
Proof.
  assert (Hd : forall x, keeps fine (set_dev d x)).
  { intros x. apply keeps_either; [apply set_dev_keeps|]. unfold set_dev, set_devs. torn_tac. }
  unfold mock_destroy_qp. apply keeps_bind; [apply keeps_get_dev|intros x]. apply keeps_bind; [|intros _; apply keeps_bind; [|keeps]].
  - case_match; [|keeps]. case_match; [apply keeps_fail|]. apply keeps_bind; [keeps|intros c].
    apply keeps_bind; [by apply stop_keeps|intros _]. apply keeps_bind; [apply keeps_get_dev|intros y; apply Hd].
  - unfold on_bits. apply keeps_bind; [apply keeps_get_dev|intros y]. case_match; [|keeps]. apply keeps_bind; [apply Hd|keeps].
Qed.

Lemma mock_call_keeps d c : keeps fine (run_call d c).
Proof.
  assert (Hdestroy : (exists qpn, c = CDestroyQp qpn) \/ forall qpn, c <> CDestroyQp qpn) by (destruct c; first [left; by eexists|by right]).
  destruct Hdestroy as [[qpn ->]|Hc]; [cbn [run_call]; apply keeps_bind; [apply destroy_keeps|keeps]|].
  apply keeps_either; [|by apply torn_call]. destruct c; cbn [run_call]; try (apply keeps_bind; [|auto with keeps]); auto using post_send_keeps, mock_post_recv_keeps, create_keeps, keeps_ret;
    try (by destruct (Hc qpn)); unfold mock_reg_mr, mock_dereg_mr, mock_destroy_cq, mock_update_qp, mock_create_cq, mock_poll_cq, mock_alloc_pd, mock_dealloc_pd, poke;
    repeat first [progress intros|apply virt_keeps|apply keeps_get_dev|apply set_dev_keeps|apply set_cq_keeps|apply fresh_keeps|apply on_bits_keeps|apply connect_keeps
      |apply keeps_fail|solve [auto with keeps]|apply keeps_bind|case_match].
Qed.

Lemma step_keeps w w' : mock_step w w' -> fine w -> fine w'.
Proof.
  intros [s E]. destruct s as [d c|c|c|s n]; cbn [run_step] in E.
  - by eapply mock_call_keeps.
  - eapply keeps_either; [apply tasks_keeps|by apply torn_thread_tasks|exact E].
  - by eapply recv_keeps.
  - eapply keeps_either; [apply arrive_keeps|by apply torn_arrive|exact E].
Qed.

Lemma steps_keep w w' : rtc mock_step w w' -> fine w -> fine w'.
Proof. induction 1; [done|]. intros Hp. by eapply IHrtc, step_keeps. Qed.

Lemma steps_keep_whole w w' : rtc mock_step w w' -> pair w -> ~ is_torn w' sab -> ~ is_torn w' sba -> pair w'.
Proof. intros Hs Hp Ha Hb. destruct (steps_keep w w' Hs (or_introl Hp)) as [|(_ & _ & [?|?])]; done. Qed.

End calls.

(** ** The exchange comes to an end *)

Section live.
Context {V : Type} {BV : BitVec V} {PR : Profile} {B : Bincode} {HO : Hosts} {PF : PageFeature} {HPg : HostPages}.
Context {BL : BincodeLaws}.
Notation MW := (M (world V)).
Implicit Types w : world V.

(** One round of the loop of a thread. *)
Definition thread_round (c : Z) : MW unit := thread_tasks c;; thread_recv c.

(** The memory of registered regions is mapped. *)
Definition dev_fit (dv : gmap Z (MockDeviceCtx V)) (d : Z) : Prop := exists x, dv !! d = Some x /\
  Forall (fun mr => 0 <= m_addr mr /\ m_addr mr + m_length mr < 2 ^ 64 /\
    forall i, m_addr mr <= i < m_addr mr + m_length mr -> is_Some (local_memory x !! i)) (mr_table x).

Definition cq_fit (q : gmap Z (list Completion)) (o : option Z) : Prop := forall h, o = Some h -> is_Some (q !! h).

(** A thread that is between two rounds, on a connection that is established. *)
Record end_fit w (c rx tx : Z) : Prop := {
  ef_conn : exists k, conns w !! c = Some k /\ rx_chan k = Some rx /\ tx_chan k = Some tx /\ dev_fit (devs w) (in_dev k);
  ef_thread : exists t, threads w !! c = Some t /\ t_phase t = AtTasks /\ abort_signal t = false /\ cq_fit (cqs w) (t_send_cq t) /\ cq_fit (cqs w) (t_recv_cq t) }.

(** Writes and what answers them. *)
Definition easy (m : QpTransportMessage) : Prop :=
  match m with
  | WriteReq x | WriteWithImmReq x => 0 <= w_raddr x /\ w_raddr x + Z.of_nat (length (w_data x)) < 2 ^ 64
  | WriteResp _ | WriteWithImmResp _ => True
  | _ => False
  end.

Definition reply (m : QpTransportMessage) : list QpTransportMessage :=
  match m with WriteReq x | WriteWithImmReq x => [WriteResp (mk_ws_resp (w_wr_id x) (w_ack_req x))] | _ => [] end.

Lemma copy_in_total data : forall mem x, (forall i, x <= i < x + Z.of_nat (length data) -> is_Some (mem !! i)) ->
  exists mem', copy_in mem x data = Some mem' /\ forall i, is_Some (mem !! i) -> is_Some (mem' !! i).
Proof.
  induction data as [|y data IH]; intros mem x Hm; cbn [copy_in]; [by exists mem|]. cbn [length] in Hm. destruct (Hm x) as [z Hz]; [lia|]. rewrite Hz. cbn.
  assert (Hmono : forall i, is_Some (mem !! i) -> is_Some (<[x := y]> mem !! i)) by (intros i Hi; apply lookup_insert_is_Some'; by right).
  destruct (IH (<[x := y]> mem) (x + 1)) as (mem' & E & Hmem'); [intros i Hi; apply Hmono, Hm; lia|]. exists mem'. split; [done|]. auto.
Qed.

Lemma mr_valid_total table x n : 0 <= n -> x + n < 2 ^ 64 -> Forall (fun mr => m_addr mr + m_length mr < 2 ^ 64) table ->
  exists r, mr_valid table x n = Some r /\ (r = true -> exists mr, mr ∈ table /\ m_addr mr <= x /\ x + n < m_addr mr + m_length mr).
Proof.
  intros Hn Hx. induction 1 as [|mr table Hmr _ IH]; cbn [mr_valid]; [by exists false|]. destruct IH as (r & E & Hr).
  assert (Hrest : exists r0, mr_valid table x n = Some r0 /\ (r0 = true -> exists mr', mr' ∈ mr :: table /\ m_addr mr' <= x /\ x + n < m_addr mr' + m_length mr')).
  { exists r. split; [done|]. intros Ht. destruct (Hr Ht) as (mr' & Hin & ?). exists mr'. split; [by right|done]. }
  destruct (Z.leb_spec (m_addr mr) x) as [Hle|]; [|done]. rewrite !uadd_run by done. destruct (Z.ltb_spec (x + n) (m_addr mr + m_length mr)); [|done].
  exists true. split; [done|]. intros _. exists mr. split; [by left|lia].
Qed.

Lemma write_total w d x data : dev_fit (devs w) d -> 0 <= x -> x + Z.of_nat (length data) < 2 ^ 64 ->
  exists dv, write_local_addr d x data w = Done true (mk_world dv (conns w) (threads w) (streams w) (cqs w) (next_id w) (log w)) /\
    forall e, dev_fit (devs w) e -> dev_fit dv e.
Proof.
  intros (y & Hy & Hf) Hx Hl. unfold write_local_addr, get_dev, mbind, M_bind, get. rewrite Hy. cbn [demand]. unfold mret, M_ret.
  destruct (mr_valid_total (mr_table y) x (Z.of_nat (length data))) as (r & E & Hr); [lia|lia|by eapply Forall_impl; [exact Hf|]; intros ? (? & ? & ?)|].
  rewrite E. destruct r; [|exists (devs w); by destruct w]. destruct (Hr eq_refl) as (mr & Hin & H1 & H2).
  rewrite list.Forall_forall in Hf. destruct (Hf mr Hin) as (_ & _ & Hmap).
  destruct (copy_in_total data (local_memory y) x) as (mem & Ec & Hmono); [intros i Hi; apply Hmap; lia|]. rewrite Ec. cbn [demand]. unfold mret, M_ret, set_dev, set_devs, mbind, M_bind, get, modify.
  eexists. split; [reflexivity|]. intros e (z & Hz & Hfz). destruct (decide (d = e)) as [->|Hn]; [|exists z; by rewrite lookup_insert_ne].
  assert (z = y) as -> by congruence. exists (put_memory mem y). rewrite lookup_insert_eq. split; [done|]. cbn. eapply Forall_impl; [exact Hfz|]. cbn. naive_solver.
Qed.

Lemma push_total w c cq x : cq_fit (cqs w) cq ->
  exists q lg, push_completion c cq x w = Done tt (mk_world (devs w) (conns w) (threads w) (streams w) q (next_id w) lg) /\ forall o, cq_fit (cqs w) o -> cq_fit q o.
Proof.
  intros Hf. unfold push_completion. destruct cq as [h|]; [|exists (cqs w), (log w); by destruct w].
  destruct (Hf h eq_refl) as [l Hl]. unfold report, mbind, M_bind, modify, get. w_. rewrite Hl. cbn [demand]. unfold mret, M_ret, set_cq, modify. w_.
  eexists _, _. split; [reflexivity|]. intros o Ho h' Eh. apply lookup_insert_is_Some'. right. by apply Ho.
Qed.

Lemma send_total w c s m l : (exists k, conns w !! c = Some k /\ tx_chan k = Some s) -> holds_msgs w s l ->
  exists st, conn_send c m w = Done true (mk_world (devs w) (conns w) (threads w) (<[s := st]> (streams w)) (cqs w) (next_id w) (log w)) /\
    holds_msgs (mk_world (devs w) (conns w) (threads w) (<[s := st]> (streams w)) (cqs w) (next_id w) (log w)) s (l ++ [m]).
Proof.
  intros (k & Hk & Ht) Hl. unfold conn_send, get_conn, mbind, M_bind, get. rewrite Hk. cbn [demand]. unfold mret, M_ret. rewrite Ht. destruct (Hl) as (x & f & Hx & _). rewrite Hx. cbn [demand].
  unfold mret, M_ret. eexists. split; [reflexivity|]. by apply holds_snoc.
Qed.

Definition grows w w' : Prop := conns w' = conns w /\ (forall e, dev_fit (devs w) e -> dev_fit (devs w') e) /\ (forall o, cq_fit (cqs w) o -> cq_fit (cqs w') o).

Lemma end_fit_grows w w' c rx tx : grows w w' -> threads w' !! c = threads w !! c -> end_fit w c rx tx -> end_fit w' c rx tx.
Proof.
  intros (Ec & Hd & Hq) Et [(k & Hk & H1 & H2 & H3) (t & Ht & H4 & H5 & H6 & H7)]. split; [exists k; rewrite Ec; auto|exists t; rewrite Et; auto 6].
Qed.

(** What a message does, up to the thread. *)
Lemma handle_total w c t m tx l : (exists k, conns w !! c = Some k /\ tx_chan k = Some tx /\ dev_fit (devs w) (in_dev k)) -> cq_fit (cqs w) (t_send_cq t) -> cq_fit (cqs w) (t_recv_cq t) -> easy m -> holds_msgs w tx l ->
  exists w', handle c t m w = Done (Some (recv_reqs t)) w' /\ grows w w' /\ threads w' = threads w /\ holds_msgs w' tx (l ++ reply m) /\
    forall s, s <> tx -> streams w' !! s = streams w !! s.
Proof.
  intros (k & Hk & H2 & H3) Hs Hr He Hl. unfold handle, get_conn, mbind, M_bind, get. rewrite Hk. cbn [demand]. unfold mret, M_ret. cbv zeta.
  destruct m as [x|x|x|x|x|x|x|x]; try done; cbn in He; unfold mbind, M_bind.
  - destruct (write_total w (in_dev k) (w_raddr x) (w_data x) H3) as (dv & -> & Hdv); [lia|lia|]. cbn [negb].
    set (w1 := mk_world _ _ _ _ _ _ _). destruct (send_total w1 c tx (WriteResp (mk_ws_resp (w_wr_id x) (w_ack_req x))) l) as (st & -> & Hst); [by exists k|done|].
    cbn [negb]. eexists. split; [reflexivity|]. split; [done|]. split; [done|]. split; [exact Hst|]. intros s Hn. w_. by rewrite lookup_insert_ne.
  - destruct (write_total w (in_dev k) (w_raddr x) (w_data x) H3) as (dv & -> & Hdv); [lia|lia|]. cbn [negb].
    set (w1 := mk_world _ _ _ _ _ _ _). destruct (push_total w1 c (t_recv_cq t) (ComplRecvRdmaWithImm (w_imm x)) Hr) as (q & lg & -> & Hq). w_.
    set (w2 := mk_world _ _ _ _ _ _ _). destruct (send_total w2 c tx (WriteResp (mk_ws_resp (w_wr_id x) (w_ack_req x))) l) as (st & -> & Hst); [by exists k|done|].
    cbn [negb]. eexists. split; [reflexivity|]. split; [done|]. split; [done|]. split; [exact Hst|]. intros s Hn. w_. by rewrite lookup_insert_ne.
  - cbn [reply]. rewrite app_nil_r. destruct (s_ack_req x); [|by exists w]. destruct (push_total w c (t_send_cq t) (ComplRdmaWrite (s_wr_id x)) Hs) as (q & lg & -> & Hq).
    eexists. split; [reflexivity|]. done.
  - cbn [reply]. rewrite app_nil_r. destruct (s_ack_req x); [|by exists w]. destruct (push_total w c (t_send_cq t) (ComplRdmaWrite (s_wr_id x)) Hs) as (q & lg & -> & Hq).
    eexists. split; [reflexivity|]. done.
Qed.

(** Everything that is under way on a stream arrives. *)
Definition arrive_all (s : Z) : MW unit := w ← get; arrive s (from_option (fun x => length (flight x)) 0%nat (streams w !! s)).

Definition all_arrived w s l : Prop := streams w !! s = Some (mk_stream (mjoin (encode_to_vec <$> l)) [] false).

Lemma all_arrived_holds w s l : all_arrived w s l -> holds_msgs w s l.
Proof. intros Hl. eexists _, _. split; [exact Hl|]. by rewrite app_nil_r. Qed.

Lemma arrive_total w s l : holds_msgs w s l ->
  exists x, arrive_all s w = Done tt (mk_world (devs w) (conns w) (threads w) (<[s := x]> (streams w)) (cqs w) (next_id w) (log w)) /\
    x = mk_stream (mjoin (encode_to_vec <$> l)) [] false.
Proof.
  intros (x & f & Hx & E). unfold arrive_all, arrive, mbind, M_bind, get. rewrite Hx. cbn [from_option]. unfold set_stream, modify. eexists. split; [reflexivity|]. cbn.
  by rewrite firstn_all, drop_all, E.
Qed.

Lemma recv_total w c s l : (exists k, conns w !! c = Some k /\ rx_chan k = Some s) -> all_arrived w s l ->
  exists x, conn_recv c w = Done (head l) (mk_world (devs w) (conns w) (threads w) (<[s := x]> (streams w)) (cqs w) (next_id w) (log w)) /\
    x = mk_stream (mjoin (encode_to_vec <$> tail l)) [] false.
Proof.
  intros (k & Hk & Hr) Hl. unfold conn_recv, get_conn, mbind, M_bind, get. rewrite Hk. cbn [demand]. unfold mret, M_ret. rewrite Hr, Hl. cbn [demand arrived]. unfold mret, M_ret.
  destruct l as [|m l]; [cbn; rewrite decode_nil; by eexists|]. rewrite bytes_cons. cbn [arrived flight torn]. rewrite decode_encode. by eexists.
Qed.

Lemma round_total w a b sab sba mab mba : end_fit w a sba sab -> end_fit w b sab sba -> a <> b -> sab <> sba -> holds_msgs w sab mab -> holds_msgs w sba mba -> Forall easy mab ->
  exists w', (arrive_all sab;; thread_round b) w = Done tt w' /\ end_fit w' a sba sab /\ end_fit w' b sab sba /\ holds_msgs w' sab (tail mab) /\
    holds_msgs w' sba (mba ++ from_option reply [] (head mab)).
Proof.
  intros Ha Hb Hab Hs Hl1 Hl2 He. destruct (Hb) as [(k & Hk & Hrx & Htx & Hd) (t & Ht & Hp & Hab0 & Hq1 & Hq2)].
  destruct (arrive_total w sab mab Hl1) as (x1 & Ea & ->). unfold mbind at 1, M_bind at 1. rewrite Ea. set (w0 := mk_world _ _ _ _ _ _ _).
  unfold thread_round, thread_tasks, get_thread, mbind, M_bind, get. change (threads w0) with (threads w). rewrite Ht. cbn [demand]. unfold mret, M_ret. rewrite decide_True by done. rewrite Hab0.
  unfold set_thread, modify. set (t1 := mk_thread _ _ _ _ _ _ AtRecv). set (w1 := mk_world _ _ (<[b := t1]> _) _ _ _ _).
  unfold thread_recv, get_thread, mbind, M_bind, get. change (threads w1) with (<[b := t1]> (threads w)). rewrite lookup_insert_eq. cbn [demand]. unfold mret, M_ret. rewrite decide_True by done.
  destruct (recv_total w1 b sab mab) as (x2 & Er & ->); [by exists k|unfold all_arrived; cbn; by rewrite lookup_insert_eq|]. rewrite Er. set (w2 := mk_world _ _ _ (<[sab := _]> _) _ _ _).
  assert (L1 : holds_msgs w2 sab (tail mab)) by (apply all_arrived_holds; unfold all_arrived; cbn; by rewrite lookup_insert_eq).
  assert (L2 : holds_msgs w2 sba mba).
  { destruct Hl2 as (x & f & Hx & E). exists x, f. split; [|done]. cbn. by rewrite !lookup_insert_ne. }
  assert (Hb2 : forall t', t_phase t' = AtTasks -> abort_signal t' = false -> t_send_cq t' = t_send_cq t -> t_recv_cq t' = t_recv_cq t -> forall w3, grows w2 w3 -> threads w3 = threads w2 ->
    let w4 := mk_world (devs w3) (conns w3) (<[b := t']> (threads w3)) (streams w3) (cqs w3) (next_id w3) (log w3) in end_fit w4 a sba sab /\ end_fit w4 b sab sba).
  { intros t' Hp' Ha' Hs' Hr' w3 (Ec & Hdv & Hcq) Et. cbv zeta. split.
    - apply (end_fit_grows w); [done| |done]. w_. rewrite lookup_insert_ne by done. rewrite Et. cbn. by rewrite lookup_insert_ne.
    - split; [exists k; w_; rewrite Ec; auto|]. exists t'. w_. rewrite lookup_insert_eq, Hs', Hr'. auto 6. }
  assert (K2 : exists k, conns w2 !! b = Some k /\ tx_chan k = Some sba /\ dev_fit (devs w2) (in_dev k)) by by exists k.
  assert (Q1 : cq_fit (cqs w2) (t_send_cq t1)) by done. assert (Q2 : cq_fit (cqs w2) (t_recv_cq t1)) by done.
  clearbody w2. destruct mab as [|m mab]; cbn [head tail from_option] in *; cbn beta iota.
  - eexists. split; [reflexivity|]. assert (Hg : grows w2 w2) by done.
    destruct (Hb2 (at_phase t1 (recv_reqs t1) AtTasks) eq_refl eq_refl eq_refl eq_refl w2 Hg eq_refl) as [E1 E2]. split; [exact E1|]. split; [exact E2|].
    rewrite app_nil_r. done.
  - apply Forall_cons in He as [Hm He]. destruct (handle_total w2 b t1 m sba mba K2 Q1 Q2 Hm L2) as (w3 & E3 & Hg & Et & Hh & Ho).
    rewrite E3. eexists. split; [reflexivity|].
    destruct (Hb2 (at_phase t1 (recv_reqs t1) AtTasks) eq_refl eq_refl eq_refl eq_refl w3 Hg Et) as [E1 E2]. split; [exact E1|]. split; [exact E2|].
    split; [|exact Hh]. destruct L1 as (x & f & Hx & E). exists x, f. w_. by rewrite Ho.
Qed.

(** Requests count twice: they are answered. *)
Definition weight (m : QpTransportMessage) : nat := match m with WriteReq _ | WriteWithImmReq _ => 2 | _ => 1 end.

Lemma sum_cons m l : list_sum (weight <$> m :: l) = (weight m + list_sum (weight <$> l))%nat.
Proof. done. Qed.

Lemma easy_reply m : easy m -> Forall easy (reply m) /\ (list_sum (weight <$> reply m) < weight m)%nat.
Proof. destruct m; cbn; intros; split; repeat constructor; lia. Qed.

Fixpoint rounds (a b sab sba : Z) (n : nat) : MW unit :=
  match n with O => mret tt | S n' => (arrive_all sab;; thread_round b);; (arrive_all sba;; thread_round a);; rounds a b sab sba n' end.

Lemma rounds_total n : forall w a b sab sba mab mba, end_fit w a sba sab -> end_fit w b sab sba -> a <> b -> sab <> sba -> holds_msgs w sab mab -> holds_msgs w sba mba ->
  Forall easy mab -> Forall easy mba -> (list_sum (weight <$> mab) + list_sum (weight <$> mba) <= n)%nat ->
  exists w', rounds a b sab sba n w = Done tt w' /\ holds_msgs w' sab [] /\ holds_msgs w' sba [] /\ end_fit w' a sba sab /\ end_fit w' b sab sba.
Proof.
  assert (Hw : forall m, (1 <= weight m)%nat) by (intros []; cbn; lia).
  assert (Hhalf : forall l1 l2, Forall easy l1 -> Forall easy l2 -> Forall easy (tail l1) /\ Forall easy (l2 ++ from_option reply [] (head l1)) /\
    (list_sum (weight <$> tail l1) + list_sum (weight <$> l2 ++ from_option reply [] (head l1)) <= pred (list_sum (weight <$> l1)) + list_sum (weight <$> l2))%nat).
  { intros [|m l1] l2 H1 H2; cbn [tail head from_option]; [rewrite app_nil_r; split_and!; [done|done|cbn; lia]|].
    apply Forall_cons in H1 as [Hm H1]. destruct (easy_reply m Hm) as [Hr Hlt]. split; [done|]. split; [by apply Forall_app|].
    rewrite fmap_app, list_sum_app, sum_cons. specialize (Hw m). lia. }
  induction n as [|n IH]; intros w a b sab sba mab mba Ha Hb Hab Hs H1 H2 E1 E2 Hn.
  - assert (mab = [] /\ mba = []) as [-> ->].
    { destruct mab as [|m mab]; [destruct mba as [|m mba]; [done|]|]; rewrite sum_cons in Hn; specialize (Hw m); lia. }
    exists w. done.
  - destruct (round_total w a b sab sba mab mba) as (w1 & R1 & Ha1 & Hb1 & L1 & L2); [done..|]. destruct (Hhalf mab mba E1 E2) as (F1 & F2 & Hle1).
    destruct (round_total w1 b a sba sab (mba ++ from_option reply [] (head mab)) (tail mab)) as (w2 & R2 & Hb2 & Ha2 & L3 & L4); [done..|].
    destruct (Hhalf _ _ F2 F1) as (F3 & F4 & Hle2).
    destruct (IH w2 a b sab sba _ _ Ha2 Hb2 Hab Hs L4 L3 F4 F3) as (w' & R & Hrest).
    { assert (Hx : (list_sum (weight <$> mba) <= list_sum (weight <$> mba ++ from_option reply [] (head mab)))%nat) by (rewrite fmap_app, list_sum_app; lia). lia. }
    exists w'. cbn [rounds]. unfold mbind at 1, M_bind at 1. rewrite R1. unfold mbind at 1, M_bind at 1. by rewrite R2.
Qed.

Lemma rounds_keep a b sab sba x y s s' n : sab <> sba -> keeps (pair_or_torn (V := V) a b sab sba) (rounds x y s s' n).
Proof.
  intros Hs. assert (Hr : forall c t, keeps (pair_or_torn (V := V) a b sab sba) (arrive_all c;; thread_round t)).
  { intros c t. unfold arrive_all, thread_round. apply keeps_bind; [|intros _; apply keeps_bind; [|intros _; by apply recv_keeps]].
    - apply keeps_bind; [keeps|]. intros w. apply keeps_either; [apply arrive_keeps|by apply torn_arrive].
    - apply keeps_either; [apply tasks_keeps|by apply torn_thread_tasks]. }
  induction n as [|n IH]; cbn [rounds]; [keeps|]. apply keeps_bind; [apply Hr|intros _]. apply keeps_bind; [apply Hr|intros _; exact IH].
Qed.

End live.

(** ** Properties *)

(** No bytes, no messages. *)
Lemma no_bytes `{BincodeLaws} l : mjoin (encode_to_vec <$> l) = [] -> l = [].
Proof.
  destruct l as [|m l]; [done|]. cbn. intros [E _]%app_eq_nil. pose proof (decode_encode m []) as Ed. rewrite E in Ed. cbn in Ed. rewrite decode_nil in Ed. congruence.
Qed.

Lemma holds_empty {V} `{BincodeLaws} (w : world V) s l : holds_msgs w s l -> is_empty w s -> l = [].
Proof. intros (x & f & Hx & E) (y & Hy & Ha & Hf). rewrite Hx in Hy. injection Hy as <-. cbn in Ha, Hf. subst x f. by apply no_bytes. Qed.

Lemma holds_nil {V} `{Bincode} (w : world V) s : holds_msgs w s [] -> is_empty w s /\ ~ is_torn w s.
Proof.
  intros (x & f & Hx & [-> ->]%app_eq_nil). split; [by eexists|]. intros (y & Hy & Ht). rewrite Hx in Hy. by injection Hy as <-.
Qed.

(** When nothing is under way, everything that was requested is completed. *)
Lemma pair_drained {V} `{BincodeLaws} a b sab sba (w : world V) : pair_inv a b sab sba w -> is_empty w sab -> is_empty w sba ->
  (forall t, threads w !! a = Some t \/ threads w !! b = Some t -> t_phase t <> Panicked) -> completed w a = requested w a /\ completed w b = requested w b.
Proof.
  intros [_ (mab & mba & M1 & M2 & (la & Ea & Hla) & (lb & Eb & Hlb))] E1 E2 Hph.
  apply holds_empty in M1, M2; [|done..]. subst mab mba. cbn in Ea, Eb. rewrite !app_nil_r in Ea, Eb.
  assert (la = []) as -> by (destruct Hla as [?|(t & Ht & Hpt)]; [done|]; exfalso; apply (Hph t); [by right|done]).
  assert (lb = []) as -> by (destruct Hlb as [?|(t & Ht & Hpt)]; [done|]; exfalso; apply (Hph t); [by left|done]).
  by rewrite app_nil_r in Ea, Eb.
Qed.

(** C23: two queue pairs of mock devices that are connected to each other, among any others,
    with the calls of all applications, the two halves of the rounds of all threads (each of
    these one step) and the arrival of the bytes, in parts of any size, interleaved in any
    order.  A read that finds a part of a message loses it (the read times out after a
    millisecond); as long as this did not happen on the two streams between the two, on
    each side the signaled writes and sends complete in the order in which they were written
    to the connection, each at most once, and whenever both streams are empty after a step
    and neither thread has panicked, all of them are completed. *)
Theorem completions_in_order {V} `{BitVec V} `{Profile} `{BincodeLaws} `{Hosts} `{PageFeature} `{HostPages}
    (a b sab sba : Z) (w w' : world V) : sab <> sba -> pair_inv a b sab sba w -> rtc mock_step w w' -> ~ is_torn w' sab -> ~ is_torn w' sba ->
  completed w' a `prefix_of` requested w' a /\ completed w' b `prefix_of` requested w' b /\
  (is_empty w' sab -> is_empty w' sba ->
   (forall t, threads w' !! a = Some t \/ threads w' !! b = Some t -> t_phase t <> Panicked) ->
   completed w' a = requested w' a /\ completed w' b = requested w' b).
Proof.
  intros Hne Hp Hs Hta Htb. assert (Hp' : pair_inv a b sab sba w') by by eapply steps_keep_whole. clear Hp Hs.
  destruct (Hp') as [_ (mab & mba & M1 & M2 & (la & Ea & Hla) & (lb & Eb & Hlb))].
  split; [rewrite <- Ea; by apply prefix_app_r|]. split; [rewrite <- Eb; by apply prefix_app_r|]. by eapply pair_drained.
Qed.

(** C26: writes come to an end.  When only writes and their answers are under way between two
    connected queue pairs, whose threads are between two rounds, the memory of the registered
    regions is mapped and so far no read ended within a message, then the two threads,
    running one round after the other and as many rounds as the messages under way need, empty
    both streams without a panic, and every signaled request of both sides is completed,
    provided that before each round the bytes that are under way to the thread have arrived
    (otherwise its read may find a part of a message, and lose it). *)
Theorem writes_complete {V} `{BitVec V} `{Profile} `{BincodeLaws} `{Hosts} `{PageFeature} `{HostPages}
    (a b sab sba : Z) (w : world V) (mab mba : list QpTransportMessage) : sab <> sba -> pair_inv a b sab sba w ->
  end_fit w a sba sab -> end_fit w b sab sba -> holds_msgs w sab mab -> holds_msgs w sba mba -> Forall easy mab -> Forall easy mba ->
  exists w', rounds a b sab sba (list_sum (weight <$> mab) + list_sum (weight <$> mba)) w = Done tt w' /\
    is_empty w' sab /\ is_empty w' sba /\ completed w' a = requested w' a /\ completed w' b = requested w' b.
Proof.
  intros Hne Hp Ha Hb L1 L2 E1 E2. assert (Hab : a <> b).
  { intros E. destruct Ha as [(k & Hk & Hr & _) _], Hb as [(k' & Hk' & Hr' & _) _]. rewrite E in Hk. congruence. }
  destruct (rounds_total _ w a b sab sba mab mba Ha Hb Hab Hne L1 L2 E1 E2 (le_n _)) as (w' & R & S1 & S2 & Ha' & Hb').
  destruct (holds_nil w' sab S1) as [N1 T1], (holds_nil w' sba S2) as [N2 T2].
  exists w'. split; [done|]. split; [done|]. split; [done|]. apply (pair_drained a b sab sba); [|done|done|].
  - destruct (rounds_keep a b sab sba a b sab sba _ Hne w tt w' R (or_introl Hp)) as [|(_ & _ & [?|?])]; done.
  - intros t [Ht|Ht]; [destruct Ha' as [_ (t' & Ht' & Hp' & _)]|destruct Hb' as [_ (t' & Ht' & Hp' & _)]]; assert (t' = t) as -> by congruence; by rewrite Hp'.
Qed.

(** ** An example *)

Definition ser (m : QpTransportMessage) : list Z :=
  match m with
  | WriteReq x => [0; w_raddr x; w_imm x; w_wr_id x; Z.b2z (w_ack_req x)] ++ w_data x
  | WriteWithImmReq x => [1; w_raddr x; w_imm x; w_wr_id x; Z.b2z (w_ack_req x)] ++ w_data x
  | ReadReq x => [2; r_laddr x; r_raddr x; r_len x; Z.b2z (r_ack_req x); r_wr_id x]
  | SendReq_ x => [3; q_wr_id x; Z.b2z (q_ack_req x); match q_imm x with Some _ => 1 | None => 0 end; default 0 (q_imm x)] ++ q_data x
  | WriteResp x => [4; s_wr_id x; Z.b2z (s_ack_req x)]
  | WriteWithImmResp x => [5; s_wr_id x; Z.b2z (s_ack_req x)]
  | ReadResp x => [6; p_laddr x; p_raddr x; p_wr_id x; Z.b2z (p_ack_req x)] ++ p_data x
  | SendResp x => [7; s_wr_id x; Z.b2z (s_ack_req x)]
  end.

Definition deser (l : list Z) : option QpTransportMessage :=
  match l with
  | [2; x; y; z; k; i] => Some (ReadReq (mk_read_req x y z (k =? 1) i))
  | [4; i; k] => Some (WriteResp (mk_ws_resp i (k =? 1)))
  | [5; i; k] => Some (WriteWithImmResp (mk_ws_resp i (k =? 1)))
  | [7; i; k] => Some (SendResp (mk_ws_resp i (k =? 1)))
  | 0 :: x :: y :: i :: k :: d => Some (WriteReq (mk_write_req x y d i (k =? 1)))
  | 1 :: x :: y :: i :: k :: d => Some (WriteWithImmReq (mk_write_req x y d i (k =? 1)))
  | 3 :: i :: k :: f :: m :: d => Some (SendReq_ (mk_send_req i d (if f =? 1 then Some m else None) (k =? 1)))
  | 6 :: x :: y :: i :: k :: d => Some (ReadResp (mk_read_resp x y d i (k =? 1)))
  | _ => None
  end.

#[local] Instance demo_bincode : Bincode := {|
  encode_to_vec m := Z.of_nat (length (ser m)) :: ser m;
  decode_from_reader l := match l with
    | [] => (None, [])
    | n :: l' => if (length l' <? Z.to_nat n)%nat then (None, []) else (deser (take (Z.to_nat n) l'), drop (Z.to_nat n) l')
    end |}.

#[local] Instance demo_bincode_laws : BincodeLaws.
Proof.
  split.
  - intros m rest. cbn [decode_from_reader encode_to_vec demo_bincode app]. rewrite Nat2Z.id, length_app, (proj2 (Nat.ltb_ge _ _)) by lia. rewrite take_app_length, drop_app_length. f_equal.
    destruct m as [[? ? ? ? []]|[? ? ? ? []]|[? ? ? [] ?]|[? ? [] []]|[? []]|[? []]|[? ? ? ? []]|[? []]]; reflexivity.
  - done.
  - intros m [|n part] rest; [done|]. cbn [decode_from_reader encode_to_vec demo_bincode app]. intros [= <- E] Hr. rewrite Nat2Z.id, E, length_app. destruct rest as [|z rest]; [done|].
    by rewrite (proj2 (Nat.ltb_lt _ _)) by (cbn [length]; lia).
Qed.

#[local] Instance demo_hosts : Hosts := {| reaches _ ip _ bound := ip =? bound; in_use _ ip _ bound := ip =? bound |}.
#[local] Instance demo_profile : Profile := dev_profile.
#[local] Instance demo_feature : PageFeature := {| huge_pages := false |}.
#[local] Instance demo_pages : HostPages := one_page_host.

Definition demo_memory (x : Z) : gmap Z Z := list_to_map ((fun i => (0x1000 + Z.of_nat i, x)) <$> seq 0 8).

Definition demo_device (ip x : Z) : option (MockDeviceCtx (list bool)) :=
  match MockDeviceCtx_default ip (demo_memory x) tt with Done d _ => Some d | Fault _ => None end.

Definition demo_start_world : world (list bool) :=
  mk_world (from_option (fun d => <[1 := d]>) id (demo_device 1 5) (from_option (fun d => <[2 := d]>) id (demo_device 2 0) ∅)) ∅ ∅ ∅ ∅ 1 [].

Fixpoint run_steps (l : list step) : M (world (list bool)) unit :=
  match l with [] => mret tt | s :: l' => run_step s;; run_steps l' end.

Definition demo_write (i : Z) : SendWr := WrRdma (mk_rdma (mk_base i IBV_SEND_SIGNALED 0x1000 2 0 0 OpRdmaWrite) 0x1004 0).

(** Both devices register memory and make a queue pair, the queue pairs are connected, and
    a first write goes from one to the other and is acknowledged. *)
Definition demo_setup : list step :=
  [Call 1 (CRegMr 0x1000 8); Call 2 (CRegMr 0x1000 8); Call 1 CCreateCq; Call 2 CCreateCq;
   Call 1 (CCreateQp 1 (mk_init_attr 2 (Some 1) (Some 1))); Call 2 (CCreateQp 2 (mk_init_attr 2 (Some 1) (Some 1)));
   Call 1 (CUpdateQp 0x101 (mk_qp_mod None (Some 0x102) (Some 2))); Call 2 (CUpdateQp 0x102 (mk_qp_mod None (Some 0x101) (Some 1)));
   Call 1 (CPostSend 0x101 (demo_write 7)); ThreadTasks 4; Arrive 5 3; Arrive 5 100; ThreadRecv 4; ThreadTasks 3; Arrive 6 100; ThreadRecv 3].

Definition demo_world : world (list bool) := match run_steps demo_setup demo_start_world with Done _ w => w | Fault _ => demo_start_world end.

Lemma demo_world_run : run_steps demo_setup demo_start_world = Done tt demo_world.
Proof. vm_compute. reflexivity. Qed.

Lemma run_steps_rtc l : forall w w', run_steps l w = Done tt w' -> rtc mock_step w w'.
Proof.
  induction l as [|s l IH]; intros w w'; cbn; [intros [= ->]; constructor|]. unfold mbind, M_bind. destruct (run_step s w) as [[] w1|] eqn:E; [|done].
  intros E2. eapply rtc_l; [by exists s|by apply IH].
Qed.

Definition demo_conn (d ip port rx tx peer peer_port qpn : Z) : Inner := mk_inner d ip port [] (Some rx) (Some tx) (Some (peer, peer_port)) qpn.

Lemma demo_pair : pair_inv 3 4 5 6 demo_world.
Proof.
  assert (Ec : conns demo_world = {[3 := demo_conn 1 1 10257 6 5 2 10258 257; 4 := demo_conn 2 2 10258 5 6 1 10257 258]}) by (vm_compute; reflexivity).
  assert (Hc : forall c k, conns demo_world !! c = Some k -> c = 3 /\ k = demo_conn 1 1 10257 6 5 2 10258 257 \/ c = 4 /\ k = demo_conn 2 2 10258 5 6 1 10257 258).
  { intros c k. rewrite Ec. intros [[<- <-]|[_ [<- <-]%lookup_singleton_Some]]%lookup_insert_Some; tauto. }
  assert (En : next_id demo_world = 7) by (vm_compute; reflexivity).
  assert (Hends : forall x y s, (x, y, s) = (3, 4, 5) \/ (x, y, s) = (4, 3, 6) -> ends demo_world x y s).
  { intros x y s Hs. split.
    - destruct Hs as [[= -> -> ->]|[= -> -> ->]]; rewrite Ec; eexists; split; vm_compute; reflexivity.
    - destruct Hs as [[= -> -> ->]|[= -> -> ->]]; rewrite Ec; eexists; split; vm_compute; reflexivity.
    - intros c k Hk. destruct (Hc c k Hk) as [[-> ->]|[-> ->]]; clear Ec Hc Hk; destruct Hs as [[= -> -> ->]|[= -> -> ->]]; cbn; (split; [|split]); solve [intros; congruence|apply not_elem_of_nil].
    - rewrite En. destruct Hs as [[= -> -> ->]|[= -> -> ->]]; lia. }
  split.
  - split; [apply Hends; by left|apply Hends; by right| |eexists; split; [vm_compute; reflexivity|by eexists]|eexists; split; [vm_compute; reflexivity|by eexists]].
    intros c [k Hk]. rewrite En. destruct (Hc c k Hk) as [[-> _]|[-> _]]; lia.
  - exists [], []. split_and!; [exists [], []; split; [vm_compute; reflexivity|done]|exists [], []; split; [vm_compute; reflexivity|done]|exists []; split; [vm_compute; reflexivity|by left]|exists []; split; [vm_compute; reflexivity|by left]].
Qed.

(** Two more writes; the second has arrived in part when the first is read. *)
Definition demo_more : list step :=
  [Call 1 (CPostSend 0x101 (demo_write 8)); Call 1 (CPostSend 0x101 (demo_write 9)); ThreadTasks 4; Arrive 5 12; ThreadRecv 4; ThreadTasks 3; ThreadTasks 4;
   Arrive 6 100; ThreadRecv 3; Arrive 5 100; ThreadRecv 4; ThreadTasks 3; Arrive 6 100; ThreadRecv 3].

Definition demo_end : world (list bool) := match run_steps demo_more demo_world with Done _ w => w | Fault _ => demo_world end.

#[local] Opaque demo_world demo_end.

Lemma demo_end_run : run_steps demo_more demo_world = Done tt demo_end.
Proof. vm_compute. reflexivity. Qed.

Lemma demo_end_phases t : threads demo_end !! 3 = Some t \/ threads demo_end !! 4 = Some t -> t_phase t <> Panicked.
Proof.
  assert (E3 : t_phase <$> threads demo_end !! 3 = Some AtTasks) by (vm_compute; reflexivity).
  assert (E4 : t_phase <$> threads demo_end !! 4 = Some AtTasks) by (vm_compute; reflexivity).
  intros [Ht|Ht]; [rewrite Ht in E3; clear Ht E4|rewrite Ht in E4; clear Ht E3]; cbn in *; congruence.
Qed.

Lemma stream_clean {V} (w : world V) s : streams w !! s = Some (mk_stream [] [] false) -> is_empty w s /\ ~ is_torn w s.
Proof. intros E. split; [by eexists|]. intros (x & Hx & Ht). rewrite E in Hx. by injection Hx as <-. Qed.

Lemma stream_whole {V} (w : world V) s x f : streams w !! s = Some (mk_stream x f false) -> ~ is_torn w s.
Proof. intros E (y & Hy & Ht). rewrite E in Hy. by injection Hy as <-. Qed.

Lemma demo_end_stream : streams demo_end !! 5 = Some (mk_stream [] [] false) /\ streams demo_end !! 6 = Some (mk_stream [] [] false).
Proof. split; vm_compute; reflexivity. Qed.

Lemma demo_end_requested : requested demo_end 3 = [7; 8; 9].
Proof. vm_compute. reflexivity. Qed.

Lemma completions_in_order_witness : completed demo_end 3 = [7; 8; 9] /\ completed demo_end 4 `prefix_of` requested demo_end 4.
Proof.
  destruct (stream_clean _ _ (proj1 demo_end_stream)) as [E5 T5]. destruct (stream_clean _ _ (proj2 demo_end_stream)) as [E6 T6]. rewrite <- demo_end_requested.
  destruct (completions_in_order 3 4 5 6 demo_world demo_end ltac:(lia) demo_pair (run_steps_rtc _ _ _ demo_end_run) T5 T6) as (_ & Hb & Hall).
  split; [exact (proj1 (Hall E5 E6 demo_end_phases))|exact Hb].
Defined.

(** The two writes are under way. *)
Definition demo_busy : world (list bool) := match run_steps (take 2 demo_more) demo_world with Done _ w => w | Fault _ => demo_world end.

#[local] Opaque demo_busy.

Lemma demo_busy_run : run_steps (take 2 demo_more) demo_world = Done tt demo_busy.
Proof. vm_compute. reflexivity. Qed.

Lemma demo_busy_dev d : d = 1 \/ d = 2 -> dev_fit (devs demo_busy) d.
Proof.
  assert (Hall : Forall (fun d => mr_table <$> devs demo_busy !! d = Some [mk_mock_mr 0x1000 8] /\
    (fun x => forallb (fun i => bool_decide (is_Some (local_memory x !! (0x1000 + Z.of_nat i)))) (seq 0 8)) <$> devs demo_busy !! d = Some true) [1; 2])
    by (repeat constructor; vm_compute; reflexivity).
  intros Hd. rewrite list.Forall_forall in Hall. destruct (Hall d) as [H1 H2]; [clear Hall; destruct Hd as [->| ->]; [apply list_elem_of_here|apply list_elem_of_further, list_elem_of_here]|]. clear Hall.
  destruct (devs demo_busy !! d) as [x|] eqn:E; [|done]. exists x. split; [done|]. injection H1 as ->.
  assert (H3 : forallb (fun i => bool_decide (is_Some (local_memory x !! (0x1000 + Z.of_nat i)))) (seq 0 8) = true) by (injection H2 as H2; exact H2).
  constructor; [|constructor]. cbn [m_addr m_length].
  split; [lia|]. split; [lia|]. intros i Hi. rewrite forallb_forall in H3. specialize (H3 (Z.to_nat (i - 0x1000))). rewrite in_seq in H3. specialize (H3 ltac:(lia)).
  apply bool_decide_eq_true in H3. by replace (0x1000 + Z.of_nat (Z.to_nat (i - 0x1000))) with i in H3 by lia.
Qed.

Lemma demo_busy_end c rx tx : (c, rx, tx) = (3, 6, 5) \/ (c, rx, tx) = (4, 5, 6) -> end_fit demo_busy c rx tx.
Proof.
  intros Hc. assert (Hk : (fun k => (rx_chan k, tx_chan k, in_dev k)) <$> conns demo_busy !! c = Some (Some rx, Some tx, c - 2)) by
    (destruct Hc as [[= -> -> ->]|[= -> -> ->]]; vm_compute; reflexivity).
  assert (Ht : (fun t => (t_phase t, abort_signal t, t_send_cq t, t_recv_cq t)) <$> threads demo_busy !! c = Some (AtTasks, false, Some (c - 2), Some (c - 2))) by
    (destruct Hc as [[= -> -> ->]|[= -> -> ->]]; vm_compute; reflexivity).
  assert (Hq : bool_decide (is_Some (cqs demo_busy !! (c - 2))) = true) by (destruct Hc as [[= -> -> ->]|[= -> -> ->]]; vm_compute; reflexivity).
  apply bool_decide_eq_true in Hq. assert (Hd : dev_fit (devs demo_busy) (c - 2)) by (apply demo_busy_dev; destruct Hc as [[= -> _ _]|[= -> _ _]]; [by left|by right]).
  split.
  - clear Ht Hq. revert Hk. destruct (conns demo_busy !! c) as [k|]; [|discriminate]. intros [= E1 E2 E3]. exists k. split; [reflexivity|]. split; [exact E1|]. split; [exact E2|].
    rewrite E3. exact Hd.
  - clear Hk Hd. revert Ht. destruct (threads demo_busy !! c) as [t|]; [|discriminate]. intros [= E1 E2 E3 E4]. exists t. split; [reflexivity|]. split; [exact E1|].
    split; [exact E2|]. split; intros h Eh; [rewrite E3 in Eh|rewrite E4 in Eh]; injection Eh as <-; exact Hq.
Qed.

Definition demo_msgs : list QpTransportMessage := [WriteReq (mk_write_req 0x1004 0 [5; 5] 8 true); WriteReq (mk_write_req 0x1004 0 [5; 5] 9 true)].

Lemma demo_busy_stream : streams demo_busy !! 5 = Some (mk_stream [] (mjoin (encode_to_vec <$> demo_msgs)) false) /\ streams demo_busy !! 6 = Some (mk_stream [] [] false).
Proof. split; vm_compute; reflexivity. Qed.

Lemma stream_holds {V} `{Bincode} (w : world V) s l : streams w !! s = Some (mk_stream [] (mjoin (encode_to_vec <$> l)) false) -> holds_msgs w s l.
Proof. intros E. by eexists _, _. Qed.

Lemma demo_busy_pair : pair_inv 3 4 5 6 demo_busy.
Proof.
  apply (steps_keep_whole 3 4 5 6 ltac:(lia) demo_world); [exact (run_steps_rtc _ _ _ demo_busy_run)|exact demo_pair|..].
  - exact (stream_whole _ _ _ _ (proj1 demo_busy_stream)).
  - exact (stream_whole _ _ _ _ (proj2 demo_busy_stream)).
Qed.

Lemma writes_complete_witness : exists w, rounds 3 4 5 6 4 demo_busy = Done tt w /\ completed w 3 = requested w 3.
Proof.
  assert (He : Forall easy demo_msgs) by (repeat constructor; cbn; lia).
  destruct (writes_complete 3 4 5 6 demo_busy demo_msgs [] ltac:(lia) demo_busy_pair) as (w & R & _ & _ & E & _);
    [apply demo_busy_end; by left|apply demo_busy_end; by right|exact (stream_holds _ _ _ (proj1 demo_busy_stream))|exact (stream_holds _ _ [] (proj2 demo_busy_stream))|exact He|constructor|exists w; split; [exact R|exact E]].
Defined.

(** ** What goes wrong *)

Definition demo_send (i : Z) : SendWr := WrSend (mk_base i IBV_SEND_SIGNALED 0x1000 2 0 0 OpSend).
Definition demo_recv : RecvWr := mk_recv 42 0x1004 2 0.

Definition log_after (l : list step) : option (list log_line) :=
  match run_steps l demo_world with Done _ w => Some (drop 2 (log w)) | Fault _ => None end.
Definition phase_after (l : list step) (c : Z) : option phase :=
  match run_steps l demo_world with Done _ w => t_phase <$> threads w !! c | Fault _ => None end.
Definition byte_after (l : list step) (d a : Z) : option Z :=
  match run_steps l demo_world with Done _ w => x ← devs w !! d; local_memory x !! a | Fault _ => None end.

(** A write whose message has arrived only in part when the thread reads is lost and, with the
    encoding of the example, the next one too: the rest of the message is read as the
    beginning of another. *)
Lemma part_read_loses_requests :
  log_after [Call 1 (CPostSend 0x101 (demo_write 8)); ThreadTasks 4; Arrive 5 2; ThreadRecv 4; Arrive 5 100; Call 1 (CPostSend 0x101 (demo_write 9)); ThreadTasks 4;
    Arrive 5 100; ThreadRecv 4; ThreadTasks 4; Arrive 5 100; ThreadRecv 4; ThreadTasks 3; Arrive 6 100; ThreadRecv 3] =
    Some [LogPostSend 3 (demo_write 8); LogPostSend 3 (demo_write 9)].
Proof. vm_compute. reflexivity. Qed.

(** A receive that was posted before the peer sent can be missed: the thread that waits for
    a message has looked at its tasks before, takes the message without looking again and
    panics. *)
Theorem posted_receive_missed :
  phase_after [ThreadTasks 4; Call 2 (CPostRecv 0x102 demo_recv); Call 1 (CPostSend 0x101 (demo_send 8)); Arrive 5 100; ThreadRecv 4] 4 = Some Panicked /\
  phase_after [Call 2 (CPostRecv 0x102 demo_recv); ThreadTasks 4; Call 1 (CPostSend 0x101 (demo_send 8)); Arrive 5 100; ThreadRecv 4] 4 = Some AtTasks.
Proof. split; vm_compute; reflexivity. Qed.

(** A send completes as a write, and the receive completes with the number of the send, 8,
    and not with its own, 42. *)
Lemma send_completions_mislabelled :
  log_after [Call 2 (CPostRecv 0x102 demo_recv); ThreadTasks 4; Call 1 (CPostSend 0x101 (demo_send 8)); Arrive 5 100; ThreadRecv 4; ThreadTasks 3; Arrive 6 100; ThreadRecv 3] =
    Some [LogPostSend 3 (demo_send 8); LogCompletion 4 (ComplRecv 8 None); LogCompletion 3 (ComplRdmaWrite 8)].
Proof. vm_compute. reflexivity. Qed.

(** A write of a whole region, or of its last byte, is dropped and completes all the same. *)
Lemma last_byte_not_written :
  byte_after [Call 1 (CPostSend 0x101 (WrRdma (mk_rdma (mk_base 8 0 0x1000 1 0 0 OpRdmaWrite) 0x1007 0))); ThreadTasks 4; Arrive 5 100; ThreadRecv 4] 2 0x1007 = Some 0 /\
  byte_after [Call 1 (CPostSend 0x101 (WrRdma (mk_rdma (mk_base 8 0 0x1000 1 0 0 OpRdmaWrite) 0x1006 0))); ThreadTasks 4; Arrive 5 100; ThreadRecv 4] 2 0x1006 = Some 5.
Proof. split; vm_compute; reflexivity. Qed.

(** The slot of a queue pair that was destroyed cannot be used again. *)
Lemma recreate_panics :
  run_steps [Call 2 (CDestroyQp 0x102); Call 2 (CCreateQp 3 (mk_init_attr 2 (Some 1) (Some 1)))] demo_world = Fault Panic.
Proof. vm_compute. reflexivity. Qed.
